(* ===== verification/_CoqProject ===== *)
-Q . S2P
Prelude.v
Utf8.v
V1Parser.v
V1ParserProofs.v
V1Transcript.v
V1TranscriptProofs.v
Transfer.v
Connection.v
ConnectionProofs.v
FrameCodec.v
FrameCodecProofs.v
PathValidator.v
PathValidatorProofs.v
ReceiveTransaction.v
ReceiveTransactionProofs.v
Receiver.v
ReceiverProofs.v
ReceiverResources.v
Sender.v
SenderProofs.v
Delivery.v
DeliveryProofs.v
EventChannel.v
EventChannelProofs.v
IdentityCodec.v
FieldBlocks.v
IdentityCodecProofs.v
IdentityRepository.v
IdentityRepositoryProofs.v
IdentityStoreProofs.v
SessionAuthority.v
SessionAuthorityProofs.v
DiscoveryWire.v
DiscoveryWireProofs.v
DiscoveryCache.v
DiscoveryCacheProofs.v
DiscoveryService.v
DiscoveryServiceProofs.v
SecurityTypes.v
Ed25519.v
Prime25519.v
Ed25519Proofs.v
Ed25519Points.v
CanonicalObjects.v
CanonicalObjectsProofs.v
SecurityProfile.v
SecurityProfileProofs.v
SessionWire.v
SessionWireProofs.v
Admission.v
AdmissionProofs.v
PairingReplay.v
PairingReplayProofs.v
PairingAttempt.v
PairingAttemptProofs.v
PairingExchangeProofs.v
PairingProcess.v
PairingProcessProofs.v
