(* ===== verification/Prelude.v ===== *)
(** * XnnTransfer: a verification development of the native C++ core

    XnnTransfer moves files between the devices of a local network.  Its core,
    under [src/native/], is C++20: a user interface in Dart talks to it through
    a C interface.  This library models the parts of the core that decide (what
    is accepted, what is sent, what is written, who is trusted) as Rocq
    functions and proves what makes them correct.

    ** The program and its model

    A device finds others with discovery datagrams, pairs with them, keeps their
    keys in a protected store, opens a mutually authenticated connection,
    negotiates the protocol on it, and moves one file at a time with credit
    based flow control; what is received goes to a temporary object and is
    committed when it is complete and verified.  Each file of this library
    models one source file or one class, and the file of the same name with the
    suffix [Proofs] holds its theorems.  Names are those of the source.

    - [Utf8], [V1Parser]: [protocol/v1_parser.cpp], frames and TLV fields.
    - [V1Transcript]: [TranscriptParser] of the same file, the negotiation at the
      beginning of a connection and what may be sent after it.
    - [Transfer]: the data of [core/transfer/transfer.hpp].
    - [Connection]: [ConnectionMessageSequence] and [ConnectionCreditBudget] of
      [transfer/frame_codec.cpp]; [FrameCodec] is the rest of that file.
    - [PathValidator]: [storage/path_validator.cpp].
    - [ReceiveTransaction]: [storage/receive_transaction.cpp].
    - [Receiver], [Sender]: [transfer/receiver.cpp] and [transfer/sender.cpp];
      [ReceiverResources] has what a receiver gives back to those it shares the
      connection and the storage with; [Delivery] joins a sender and a receiver
      by the frames they exchange, and has the objects of a disk.
    - [EventChannel]: [bridge/event_channel.hpp].
    - [FieldBlocks]: the layout shared by the canonical records and datagrams.
    - [IdentityCodec], [IdentityRepository]: [security/identity/codec.cpp] and
      [identity_repository.cpp]; [IdentityStoreProofs] has the theorems on the
      repository together with its store.
    - [SessionAuthority]: [session/authority.cpp], over the repository.
    - [DiscoveryWire], [DiscoveryCache], [DiscoveryService]:
      [discovery/wire.cpp], [discovery/cache.cpp], [discovery/service.cpp].
    - [SecurityTypes]: [core/security/tls/security_profile.hpp].  [Ed25519]:
      [security/tls/ed25519_public_key.cpp]; [Prime25519] has the primality of
      [2 ^ 255 - 19], [Ed25519Proofs] the arithmetic on limbs, [Ed25519Points]
      the points that are accepted.
    - [CanonicalObjects]: the canonical objects of [security/tls/], their format
      ([canonical_codec.cpp]) and their rules; [SecurityProfile]: the contexts,
      confirmations, rotations and identifiers built on them.
    - [SessionWire]: [session/wire.cpp], the frames of the pairing protocol, the
      offers and the selection.
    - [Admission]: [session/admission.cpp], which connections may try to pair.
    - [PairingReplay], [PairingAttempt]: [session/pairing.cpp], the cache of the
      contexts that were used and the state machine of one attempt.  The objects
      an attempt uses are the class [PairingEnvironment]; [PairingProcess] is the
      instance made of [Admission], [PairingReplay] and [IdentityRepository].
      [PairingExchangeProofs] joins two attempts by the frames they exchange,
      in any order of their calls.

    ** How code becomes definitions

    A pure function of the source is a function.  A method is a function from
    the members of its object (a record) and its arguments to the members
    afterwards and its result; the members are updated with
    [r <| member := value |>], an assignment.  Collaborators behind pointers
    (the session authority, the platform backend, the integrity provider, the
    protected store, cryptography, clocks, random sources, sockets, the file
    source, utf8proc) are classes of operations on a world, parameters of the
    model; what a theorem needs of them is a class of laws, and an evaluated
    example instantiates each.  Allocation that may fail is a step of the world
    that may answer no; the branches that catch [std::bad_alloc] are modelled,
    but for those named at the end.
    A method that holds its mutex from beginning to end is one atomic step; a
    method that releases it (a callback, a wait, a publication) is several.
    Theorems about more than one call quantify over all sequences of calls.

    Integers are [Z] with the width written out: [u8], [u32], [u64], [uadd],
    [usub] wrap as the source's types do, and [in_width] says that a value is
    one of its type.  Bytes are integers below 256 ([all_bytes]).  The rate
    limits of discovery compute in [double]: they are modelled with the IEEE
    arithmetic of the Standard Library ([SpecFloat]).

    ** Loops and fuel

    A loop over a container is structural recursion on it.  The parsers that
    advance by a computed length recurse on a count that the source bounds too:
    [IsValidUtf8_loop], [IsStrictUtf8_loop] and [ValidateCodepoints_loop] on the
    number of bytes left, of which every round takes at least one;
    [V1Parser.ParseTlvs_loop] and [DiscoveryWire.ParseTlvs_loop] on the limit of
    fields with one round more, in which the source refuses the frame;
    [ParseRecord_loop] on the number of fields the record declares;
    [ValidateComponents] on the length of the path.  The equivalence theorems of
    these parsers are statements about all inputs, so a count that ends too
    early would falsify them.  The carry loop of [Ed25519.Reduce] has no bound in
    the source; five rounds are proved enough for every product
    ([field_product_exact]).  [HkdfExpand_loop] has the 255 blocks of the longest
    output.  [SessionWire.ParseFrame_loop] has the limit of fields.  [GenerateHandle],
    [GenerateToken_loop], [Jitter_loop] and [PairingReplay.Reserve_loop] have the
    number of attempts of the source; the 1025 of the last are proved enough to
    find an id ([reserve_iff]).

    ** What is proved

    - Parsers accept exactly the canonical encodings and return their parts:
      frames ([ParseFrame_accepts_iff], [ParseTlvs_accepts_iff]), UTF-8
      ([IsValidUtf8_rfc3629]), paths ([ValidateReceivePath_accepts_iff]),
      identity records ([peer_record_codec]), discovery datagrams
      ([discovery_accepts_iff]); encoders are inverted by the parsers
      ([EncodeFrame_roundtrip], [peer_receives_fields]); an accepted path stays
      below its directory ([accepted_path_contained]).
    - Negotiation: both ends agree on the best parameters whatever a hostile
      peer sends, nothing is transferred before the binding frames, an error is
      final ([V1TranscriptProofs]).
    - Resources: credit, streams, temporary objects and reservations are
      conserved and given back on every path ([ConnectionProofs],
      [ReceiveTransactionProofs], [ReceiverProofs], [SenderProofs]); what a
      receiver took is given back to the connection and to the storage it shares
      with others ([ReceiverResources]).
    - Delivery: what a receiver writes is the beginning of the file the sender
      read, and what it publishes is that file ([committed_is_sent], with the
      objects of the disk of [Delivery]); it is committed only after all of it
      was written, verified, sealed and flushed, in that order
      ([committed_content_verified]), and the state reported is that of the
      disk ([terminal_state_matches_disk]).
    - Events: the ring is a bounded queue, wakeups are not lost, clearing the
      callback and shutting down are barriers ([EventChannelProofs]).
    - Trust: the repository and its store agree after any failure; every call
      does to the peer records exactly what it is for ([peer_record_lifecycle]);
      a reopened store has the same peers; a session
      is authorized only while its peer is trusted, and revocation ends it.
    - Keys and contexts: a public key is accepted exactly when it is a point of
      the prime subgroup, canonically encoded ([accepted_key_iff]), by arithmetic
      on limbs that is arithmetic modulo the prime; canonical objects are parsed
      exactly ([canonical_object_iff]); a negotiation is never a downgrade; the
      message a context is the digest of determines its inputs
      ([contexts_bind_inputs]); trust is committed only on an
      authenticated confirmation of the same context ([trust_commit_iff]).
      That doubling and adding multiplies by the order of the subgroup in the
      group of the curve is not proved: [ref_multiply] is the same chain of
      additions over the integers.
    - Pairing: the frames and messages accepted are exactly those that are
      written ([pairing_frame_iff], [pairing_messages_exact]); both sides compute
      the one selection the security profile accepts ([selection_negotiated]);
      the connections admitted keep their limits and their rate whatever the
      controllers do ([admission_limits], [admission_rate]); two devices that
      connect to each other at once keep the same connection
      ([simultaneous_open_agrees]).  An attempt commits the peer of its channel
      only when both users confirmed the same context, this one's confirmation
      written after it was given ([commit_requires_both]); two attempts in which
      nothing fails both end paired, having shown the same words, in whatever
      order their calls come ([pairing_completes]); the deadline of an attempt is
      exactly what its timers make it, whatever it meets, and what ended holds
      nothing, in the attempt and in the process
      ([attempt_ends_in_time], [ended_attempt_inert],
      [ended_attempt_gives_back]); frames are taken in sequence
      ([frames_in_sequence]); the replay cache keeps its limits and refuses a
      context that was used ([replay_cache_sound], [bound_context_refused]).
    - Discovery: the cache keeps its limits against any traffic, its events
      describe the keys, ports and labels of its snapshot, old datagrams have no
      effect; the service numbers its datagrams upwards under each token, as long
      as its random source does not return a token again that was sent, ignores
      its own, announces itself in time, and does nothing once it is stopped.

    ** Where the code and its documents differ

    The deadline of the selection counts from the start of an attempt and not
    from the first hello, and the ninety seconds for the decision are never
    reached, because the idle timer ends the attempt first
    ([attempt_ends_in_time]).  One visible prompt is allowed per controller and
    not per process ([admission_limits], [two_prompts_visible]).  A session from
    before the rotation of its peer's key outlives a revocation
    ([session_before_rotation_survives_revocation]).

    ** Not modelled, and why

    - Calls of the operating system and of libraries: sockets, timers and
      network interfaces of discovery ([discovery/asio_transport.cpp],
      [system_runtime.cpp], [interface_registry.cpp]), the label validator (a
      loop over utf8proc), the filesystem backends, OpenSSL and the secret stores
      of the platforms, SHA-256 and HMAC (the parameters of [Sha256Crypto]), the
      TLS provider, and the TLS exporters, keys and records of
      [session/channels.cpp] and [tls_handshake.cpp].  What the core relies on of
      them are the classes of operations of the components above.
    - The asynchronous shells of a connection ([session/connection_runtime.cpp],
      [established_connection.cpp], [pairing_socket.cpp]): Asio callbacks, strands
      and timers that call the components modelled here; their order is covered
      by theorems that quantify over all sequences of calls.
    - The marshalling of the C interface and its bridges, the version string and
      the flag of the engine, the Dart application.
    - Failures of allocation in the pairing attempt, the frames of the pairing
      protocol and the admission, objects
      that were moved from, casts of integers that are no enumerator to an
      enumeration, and exceptions thrown by a file source. *)

From Stdlib Require Export String Sorted ZArith Lia Bool.
From stdpp Require Export base list numbers option.

#[export] Set Default Proof Using "Type".
Open Scope Z_scope.
Open Scope list_scope.

(** ** Notation *)

Declare Scope xnn_scope.
Delimit Scope xnn_scope with xnn.

Open Scope xnn_scope.

(** A [std::span<const std::uint8_t>], a [std::vector<std::uint8_t>] or a
    [std::string]: the bytes, each an integer of the range [0, 256). *)
Abbreviation bytes := (list Z) (only parsing).

(** ** Proof automation *)

Create HintDb xnn discriminated.
Create HintDb widths discriminated.

(** Case analysis on the boolean tests of a handler, with the comparison each
    one decides put in the context. *)
Ltac bool_facts :=
  repeat match goal with
  | H : _ && _ = true |- _ => apply andb_true_iff in H as [? ?]
  | H : _ || _ = false |- _ => apply orb_false_iff in H as [? ?]
  | H : negb _ = true |- _ => apply negb_true_iff in H
  | H : negb _ = false |- _ => apply negb_false_iff in H
  | H : (_ =? _) = true |- _ => apply Z.eqb_eq in H
  | H : (_ =? _) = false |- _ => apply Z.eqb_neq in H
  | H : (_ <? _) = true |- _ => apply Z.ltb_lt in H
  | H : (_ <? _) = false |- _ => apply Z.ltb_ge in H
  | H : (_ <=? _) = true |- _ => apply Z.leb_le in H
  | H : (_ <=? _) = false |- _ => apply Z.leb_gt in H
  | H : (_ >? _) = true |- _ => rewrite Z.gtb_ltb in H; apply Z.ltb_lt in H
  | H : (_ >? _) = false |- _ => rewrite Z.gtb_ltb in H; apply Z.ltb_ge in H
  | H : (_ >=? _) = true |- _ => rewrite Z.geb_leb in H; apply Z.leb_le in H
  | H : (_ >=? _) = false |- _ => rewrite Z.geb_leb in H; apply Z.leb_gt in H
  end.

Ltac split_if :=
  match goal with
  | |- context [if ?c then _ else _] =>
      lazymatch c with
      | context [if _ then _ else _] => fail
      | _ => let E := fresh "E" in destruct c eqn:E
      end
  end.

Ltac split_if_in H :=
  match type of H with
  | context [if ?c then _ else _] =>
      lazymatch c with
      | context [if _ then _ else _] => fail
      | _ => let E := fresh "E" in destruct c eqn:E
      end
  end.

Ltac split_match_in H :=
  match type of H with
  | context [match ?c with _ => _ end] =>
      lazymatch c with
      | context [match _ with _ => _ end] => fail
      | _ => let E := fresh "E" in destruct c eqn:E
      end
  end.

(** ** Machine integers *)

(** The value an integer takes when it is stored in an unsigned type of [w]
    bits. *)
Definition wrap (w v : Z) : Z := v mod 2 ^ w.

Abbreviation u8 := (wrap 8).
Abbreviation u16 := (wrap 16).
Abbreviation u32 := (wrap 32).
Abbreviation u64 := (wrap 64).

(** [std::numeric_limits<T>::max()]. *)
Definition umax (w : Z) : Z := 2 ^ w - 1.

Definition in_width (w v : Z) : Prop := 0 <= v < 2 ^ w.

#[global] Instance in_width_dec w v : Decision (in_width w v).
Proof. unfold in_width. apply _. Defined.

(** Unsigned addition and subtraction of a [w]-bit type. *)
Definition uadd (w a b : Z) : Z := wrap w (a + b).
Definition usub (w a b : Z) : Z := wrap w (a - b).

Lemma pow2_256 : 2 ^ 8 = 256. Proof. reflexivity. Qed.
Lemma pow2_65536 : 2 ^ 16 = 65536. Proof. reflexivity. Qed.
Lemma pow2_32 : 2 ^ 32 = 4294967296. Proof. reflexivity. Qed.
Lemma pow2_64 : 2 ^ 64 = 18446744073709551616. Proof. reflexivity. Qed.

(** Linear arithmetic with quotients and remainders. *)
Ltac zlia := Z.div_mod_to_equations; lia.

(** Arithmetic on widths: every constant power of two written out. *)
Ltac widths :=
  unfold in_width, umax, uadd, usub, wrap in *;
  rewrite ?pow2_256, ?pow2_65536, ?pow2_32, ?pow2_64 in *;
  try lia.

Lemma wrap_small w v : in_width w v -> wrap w v = v.
Proof. intros ?. apply Z.mod_small. assumption. Qed.

Lemma wrap_range w v : 0 <= w -> in_width w (wrap w v).
Proof.
  intros ?. unfold wrap, in_width.
  apply Z.mod_pos_bound, Z.pow_pos_nonneg; lia.
Qed.

Lemma uadd_small w a b : in_width w (a + b) -> uadd w a b = a + b.
Proof. apply wrap_small. Qed.

Lemma usub_small w a b : in_width w (a - b) -> usub w a b = a - b.
Proof. apply wrap_small. Qed.

#[export] Hint Resolve wrap_range : widths.

(** ** Spans *)

Definition bsize (l : bytes) : Z := Z.of_nat (length l).

(** [span[i]], for an index the caller has checked. *)
Definition at_ (l : bytes) (i : Z) : Z := nth (Z.to_nat i) l 0.

Definition subspan (l : bytes) (offset count : Z) : bytes :=
  take (Z.to_nat count) (drop (Z.to_nat offset) l).

Definition is_byte (b : Z) : Prop := in_width 8 b.
Definition all_bytes (l : bytes) : Prop := Forall is_byte l.

#[global] Instance is_byte_dec b : Decision (is_byte b).
Proof. unfold is_byte. apply _. Defined.

#[global] Instance all_bytes_dec l : Decision (all_bytes l).
Proof. unfold all_bytes. apply _. Defined.

(** Equality of two spans, [std::equal] after a comparison of the sizes. *)
Definition same_bytes (a b : bytes) : bool := bool_decide (a = b).

Lemma bsize_nonneg l : 0 <= bsize l.
Proof. unfold bsize. lia. Qed.

Lemma bsize_app a b : bsize (a ++ b) = bsize a + bsize b.
Proof. unfold bsize. rewrite length_app. lia. Qed.

Lemma bsize_cons x l : bsize (x :: l) = 1 + bsize l.
Proof. unfold bsize. rewrite length_cons. lia. Qed.

Lemma bsize_nil : bsize [] = 0.
Proof. reflexivity. Qed.

Lemma bsize_zero_nil l : bsize l = 0 -> l = [].
Proof. unfold bsize. destruct l; [done | rewrite length_cons; lia]. Qed.

Lemma bsize_subspan l o n :
  0 <= o -> 0 <= n -> o + n <= bsize l -> bsize (subspan l o n) = n.
Proof.
  unfold bsize, subspan. intros. rewrite length_take, length_drop. lia.
Qed.

Lemma subspan_app_l a b n : n = bsize a -> subspan (a ++ b) 0 n = a.
Proof. intros ->. unfold subspan, bsize. rewrite Nat2Z.id. simpl. apply take_app_length. Qed.

Lemma drop_app_bsize a (b : bytes) n : n = bsize a -> drop (Z.to_nat n) (a ++ b) = b.
Proof. intros ->. unfold bsize. rewrite Nat2Z.id. apply drop_app_length. Qed.

Lemma subspan_app_r a b o n :
  o = bsize a -> n = bsize b -> subspan (a ++ b) o n = b.
Proof.
  intros -> ->. unfold subspan. rewrite drop_app_bsize by done.
  unfold bsize. rewrite Nat2Z.id. apply take_ge. lia.
Qed.

(** A span is its prefix and its rest. *)
Lemma subspan_split l n :
  0 <= n -> l = subspan l 0 n ++ drop (Z.to_nat n) l.
Proof. intros. unfold subspan. simpl. symmetry. apply take_drop. Qed.

Lemma all_bytes_app a b : all_bytes (a ++ b) <-> all_bytes a /\ all_bytes b.
Proof. apply Forall_app. Qed.

Lemma all_bytes_subspan l o n : all_bytes l -> all_bytes (subspan l o n).
Proof. intros. by apply Forall_take, Forall_drop. Qed.

Lemma all_bytes_drop l n : all_bytes l -> all_bytes (drop n l).
Proof. apply Forall_drop. Qed.

#[export] Hint Resolve bsize_nonneg all_bytes_subspan all_bytes_drop : xnn.

(** [data] written over [output] from [offset] on. *)
Definition write_at (output : bytes) (offset : Z) (data : bytes) : bytes :=
  take (Z.to_nat offset) output ++ data ++ drop (Z.to_nat offset + length data) output.

Lemma write_at_middle a b c d offset :
  offset = bsize a -> length d = length b -> write_at (a ++ b ++ c) offset d = a ++ d ++ c.
Proof.
  intros -> Hl. unfold write_at, bsize. rewrite Nat2Z.id, take_app_length. f_equal. f_equal.
  rewrite drop_app_ge by lia. replace (length a + length d - length a)%nat with (length b) by lia.
  apply drop_app_length.
Qed.

Lemma same_bytes_true a b : same_bytes a b = true <-> a = b.
Proof. apply bool_decide_eq_true. Qed.

Lemma same_bytes_false a b : same_bytes a b = false <-> a <> b.
Proof. apply bool_decide_eq_false. Qed.

(** [operator<] of two arrays: the lexicographic order of their bytes. *)
Fixpoint array_less (l1 l2 : bytes) : bool :=
  match l1, l2 with
  | [], [] => false
  | [], _ :: _ => true
  | _ :: _, [] => false
  | a :: l1, b :: l2 => if a <? b then true else if b <? a then false else array_less l1 l2
  end.

Lemma array_less_irrefl a : array_less a a = false.
Proof. induction a as [| x a IH]; [done |]. simpl. by rewrite Z.ltb_irrefl. Qed.

Lemma array_less_trans a b c : array_less a b = true -> array_less b c = true -> array_less a c = true.
Proof.
  revert b c. induction a as [| x a IH]; intros [| y b] [| z c]; try done. simpl.
  destruct (Z.ltb_spec x y), (Z.ltb_spec y x), (Z.ltb_spec y z), (Z.ltb_spec z y),
    (Z.ltb_spec x z), (Z.ltb_spec z x); try done; try lia. apply IH.
Qed.

Lemma array_less_total a b : array_less a b = false -> array_less b a = false -> a = b.
Proof.
  revert b. induction a as [| x a IH]; intros [| y b]; try done. simpl.
  destruct (Z.ltb_spec x y), (Z.ltb_spec y x); try done; try lia. intros H1 H2. f_equal; [lia | by apply IH].
Qed.

(** ** Bit operations *)

(** A value shifted left and a value below the shift do not overlap. *)
Lemma lor_shiftl_add a b k :
  0 <= k -> 0 <= b < 2 ^ k -> Z.lor (Z.shiftl a k) b = a * 2 ^ k + b.
Proof.
  intros Hk Hb.
  assert (Hland : Z.land (Z.shiftl a k) b = 0).
  { apply Z.bits_inj'. intros n Hn.
    rewrite Z.land_spec, Z.bits_0, Z.shiftl_spec by done.
    destruct (Z.ltb_spec n k).
    - by rewrite Z.testbit_neg_r by lia.
    - destruct (Z.eq_dec b 0) as [-> | Hb0]; [by rewrite Z.bits_0, andb_false_r |].
      rewrite (Z.bits_above_log2 b n), andb_false_r; [done | lia |].
      apply Z.log2_lt_pow2; [lia |]. eapply Z.lt_le_trans; [apply Hb |].
      apply Z.pow_le_mono_r; lia. }
  rewrite <- Z.lxor_lor, <- Z.add_nocarry_lxor by done.
  by rewrite Z.shiftl_mul_pow2.
Qed.

Lemma land_mask v k : 0 <= k -> Z.land v (2 ^ k - 1) = v mod 2 ^ k.
Proof.
  intros. rewrite <- Z.land_ones by done. f_equal.
  by rewrite Z.ones_equiv, Z.sub_1_r.
Qed.

Lemma shiftr_div v k : 0 <= k -> Z.shiftr v k = v / 2 ^ k.
Proof. intros. by apply Z.shiftr_div_pow2. Qed.

(** ** Record updates *)

(** [r <| f := v |>] is [r] with its field [f] set to [v]: an assignment to one
    member of a struct.  A record type gives its eta expansion once, as an
    instance of [Eta]; the update of a field is computed from it by abstracting
    the field's projection, which has to occur in it. *)
Class Eta (R : Type) := eta : R -> R.
Class Update {R T : Type} (proj : R -> T) := update : (T -> T) -> R -> R.

Ltac solve_update :=
  match goal with
  | |- @Update ?R ?T ?proj =>
      let inst := constr:(_ : Eta R) in
      let e := eval hnf in inst in
      match eval pattern proj in e with
      | (fun _ => ?body) _ => fail 1
      | ?ctx _ => exact (fun g => ctx (fun x : R => g (proj x)))
      end
  end.

#[global] Hint Extern 0 (Update _) => solve_update : typeclass_instances.

Notation "r <| proj := v |>" := (update (proj := proj) (fun _ => v) r)
  (at level 1, left associativity, proj constr at level 0, v at level 200,
   format "r  <| proj  :=  v |>") : xnn_scope.

(** ** Big-endian integers *)

(** One step of the read loops, [value = (value << 8) | byte], in a [w]-bit
    accumulator. *)
Definition be_step (w acc b : Z) : Z := wrap w (Z.lor (Z.shiftl acc 8) b).

Definition be_read (w : Z) (l : bytes) : Z := fold_left (be_step w) l 0.

(** The [n] low bytes of [v], most significant first: the sequence of
    [static_cast<std::uint8_t>(v >> shift)] of the write loops. *)
Fixpoint be_bytes (n : nat) (v : Z) : bytes :=
  match n with
  | O => []
  | S m => u8 (Z.shiftr v (8 * Z.of_nat m)) :: be_bytes m v
  end.

(** The number a byte sequence denotes. *)
Definition be_value (l : bytes) : Z := fold_left (fun acc b => acc * 256 + b) l 0.

Lemma length_be_bytes n v : length (be_bytes n v) = n.
Proof. induction n; simpl; congruence. Qed.

Lemma bsize_be_bytes n v : bsize (be_bytes n v) = Z.of_nat n.
Proof. unfold bsize. by rewrite length_be_bytes. Qed.

Lemma all_bytes_be_bytes n v : all_bytes (be_bytes n v).
Proof. induction n; constructor; [by apply wrap_range | done]. Qed.

#[export] Hint Resolve all_bytes_be_bytes : xnn.

Lemma be_value_acc l acc :
  fold_left (fun a b => a * 256 + b) l acc = acc * 256 ^ bsize l + be_value l.
Proof.
  unfold be_value. revert acc. induction l as [| b l IH]; intros acc; cbn [fold_left].
  - rewrite bsize_nil, Z.mul_1_r. lia.
  - rewrite (IH (acc * 256 + b)), (IH (0 * 256 + b)), bsize_cons, Z.pow_add_r
      by (pose proof (bsize_nonneg l); lia).
    lia.
Qed.

Lemma be_value_cons b l : be_value (b :: l) = b * 256 ^ bsize l + be_value l.
Proof. unfold be_value at 1. simpl. apply be_value_acc. Qed.

Lemma be_value_range l : all_bytes l -> 0 <= be_value l < 256 ^ bsize l.
Proof.
  induction 1 as [| b l Hb Hl IH]; [split; reflexivity || lia |].
  rewrite be_value_cons, bsize_cons, Z.pow_add_r by (pose proof (bsize_nonneg l); lia).
  unfold is_byte in Hb. widths. nia.
Qed.

Lemma be_step_add w acc b :
  8 <= w -> is_byte b -> 0 <= acc -> acc * 256 + b < 2 ^ w ->
  be_step w acc b = acc * 256 + b.
Proof.
  intros Hw Hb Hacc Hlt. unfold be_step.
  rewrite lor_shiftl_add by (unfold is_byte, in_width in *; lia).
  rewrite pow2_256. apply wrap_small. unfold is_byte in *. widths.
Qed.

(** A read in a [w]-bit accumulator of at most [w / 8] bytes does not wrap. *)
Lemma be_read_value w l :
  8 <= w -> all_bytes l -> 8 * bsize l <= w -> be_read w l = be_value l.
Proof.
  intros Hw Hl Hs. unfold be_read, be_value.
  enough (forall l acc, all_bytes l -> 0 <= acc ->
            acc * 256 ^ bsize l + be_value l < 2 ^ w ->
            fold_left (be_step w) l acc = fold_left (fun a b => a * 256 + b) l acc) as H.
  { apply H; [done | lia |].
    destruct (be_value_range l Hl) as [_ Hlt].
    eapply Z.lt_le_trans; [apply Hlt |].
    change 256 with (2 ^ 8). rewrite <- Z.pow_mul_r by (auto with xnn; lia).
    apply Z.pow_le_mono_r; lia. }
  clear l Hl Hs. intros l.
  induction l as [| b l IH]; intros acc Hl Hacc Hlt; [done |]. simpl.
  apply Forall_cons_1 in Hl as [Hb Hl].
  pose proof (be_value_range l Hl). pose proof (bsize_nonneg l).
  rewrite be_value_cons, bsize_cons, Z.pow_add_r in Hlt by lia.
  unfold is_byte in Hb. assert (0 <= b < 256) by widths.
  rewrite be_step_add; [apply IH; [done | lia | nia] | done | done | lia | ].
  assert (0 < 256 ^ bsize l) by (apply Z.pow_pos_nonneg; lia). nia.
Qed.

Lemma be_value_bytes n v :
  0 <= v < 256 ^ Z.of_nat n -> be_value (be_bytes n v) = v.
Proof.
  intros Hv.
  enough (forall m, be_value (be_bytes m v) = v mod 256 ^ Z.of_nat m) as ->
    by (apply Z.mod_small; done).
  clear n Hv. induction m as [| m IH]; [by rewrite Z.mod_1_r |].
  cbn [be_bytes]. rewrite be_value_cons, IH, bsize_be_bytes.
  rewrite shiftr_div, Z.pow_mul_r by lia. change (2 ^ 8) with 256.
  set (p := 256 ^ Z.of_nat m). assert (0 < p) by (apply Z.pow_pos_nonneg; lia).
  rewrite Nat2Z.inj_succ, Z.pow_succ_r by lia. fold p.
  rewrite (Z.mul_comm 256 p), Z.rem_mul_r by lia.
  unfold wrap. rewrite pow2_256. lia.
Qed.

Lemma be_bytes_value l :
  all_bytes l -> be_bytes (length l) (be_value l) = l.
Proof.
  intros Hl. enough (forall q, be_bytes (length l) (q * 256 ^ bsize l + be_value l) = l) as H
    by (specialize (H 0); by rewrite Z.mul_0_l, Z.add_0_l in H).
  induction Hl as [| b l Hb Hl IH]; intros q; [done |].
  cbn [length be_bytes]. rewrite be_value_cons, bsize_cons.
  pose proof (bsize_nonneg l).
  rewrite Z.pow_add_r by lia. f_equal.
  - rewrite shiftr_div, Z.pow_mul_r by lia. change (2 ^ 8) with 256.
    unfold bsize in *. set (p := 256 ^ Z.of_nat (length l)) in *.
    assert (0 < p) by (apply Z.pow_pos_nonneg; lia).
    replace (q * (256 ^ 1 * p) + (b * p + be_value l))
      with (be_value l + (q * 256 + b) * p) by lia.
    pose proof (be_value_range l Hl) as Hr. unfold bsize in Hr. fold p in Hr.
    rewrite Z.div_add, Z.div_small by lia. unfold is_byte in Hb. unfold wrap.
    rewrite pow2_256, Z.add_0_l, Z.add_comm, Z.mod_add by lia. apply Z.mod_small. widths.
  - replace (q * (256 ^ 1 * 256 ^ bsize l) + (b * 256 ^ bsize l + be_value l))
      with ((q * 256 + b) * 256 ^ bsize l + be_value l) by lia.
    apply IH.
Qed.

Lemma be_read_bytes w n v :
  8 <= w -> 8 * Z.of_nat n <= w -> 0 <= v < 256 ^ Z.of_nat n ->
  be_read w (be_bytes n v) = v.
Proof.
  intros. rewrite be_read_value by (auto with xnn; rewrite ?bsize_be_bytes; lia).
  by apply be_value_bytes.
Qed.

Lemma be_bytes_inj n v w :
  0 <= v < 256 ^ Z.of_nat n -> 0 <= w < 256 ^ Z.of_nat n ->
  be_bytes n v = be_bytes n w -> v = w.
Proof. intros Hv Hw E. rewrite <- (be_value_bytes n v), E by done. by apply be_value_bytes. Qed.

(** ** Sorted lists *)

Lemma sorted_snoc {A} (R : A -> A -> Prop) l x :
  StronglySorted R (l ++ [x]) <-> StronglySorted R l /\ Forall (fun y => R y x) l.
Proof.
  induction l as [| y l IH]; simpl; [split; [repeat constructor | repeat constructor] |].
  split.
  - intros [Hs Hf]%StronglySorted_inv. apply IH in Hs as [Hs Hl].
    apply Forall_app in Hf as [Hf Hx]. apply list.Forall_cons in Hx as [Hx _].
    split; by constructor.
  - intros [[Hs Hf]%StronglySorted_inv Hl]. apply list.Forall_cons in Hl as [Hx Hl].
    constructor; [by apply IH |]. apply Forall_app. split; [done | by constructor].
Qed.

Lemma sorted_weaken {A} (R R' : A -> A -> Prop) l : (forall x y, R x y -> R' x y) ->
  StronglySorted R l -> StronglySorted R' l.
Proof.
  intros Hi. induction 1 as [| x l Hs IH Hx]; constructor; [done |]. eapply List.Forall_impl; [| exact Hx]. auto.
Qed.

Lemma sorted_lookup {A} (R : A -> A -> Prop) (l : list A) i j x y : StronglySorted R l -> (i < j)%nat ->
  l !! i = Some x -> l !! j = Some y -> R x y.
Proof.
  intros Hs. revert i j. induction Hs as [| z l Hs IH Hz]; intros i j Hij Hx Hy; [done |].
  destruct j as [| j]; [lia |]. cbn in Hy. destruct i as [| i]; cbn in Hx; [| by apply (IH i j); [lia | |]].
  injection Hx as <-. rewrite List.Forall_forall in Hz. apply Hz, list_elem_of_In. by apply list_elem_of_lookup_2 in Hy.
Qed.

(** ** Searching and counting

    [std::find_if] as the position of the element found, and [std::count_if]. *)

Fixpoint find_if {A} (f : A -> bool) (l : list A) : option nat :=
  match l with
  | [] => None
  | x :: l => if f x then Some 0%nat else option_map S (find_if f l)
  end.

Definition count_if {A} (f : A -> bool) (l : list A) : Z := Z.of_nat (length (List.filter f l)).

Lemma find_if_Some {A} (f : A -> bool) l i :
  find_if f l = Some i -> exists x, l !! i = Some x /\ f x = true.
Proof.
  revert i. induction l as [| x l IH]; intros i; simpl; [done |]. destruct (f x) eqn:E.
  - intros [= <-]. by exists x.
  - destruct (find_if f l) as [j |]; [| done]. intros [= <-]. by apply IH.
Qed.

Lemma find_if_None {A} (f : A -> bool) l : find_if f l = None -> forall x, x ∈ l -> f x = false.
Proof.
  induction l as [| y l IH]; simpl; [by intros _ x ?%not_elem_of_nil |]. destruct (f y) eqn:E; [done |].
  destruct (find_if f l); [done |]. intros _ x [-> | Hx]%list.elem_of_cons; [done | by apply IH].
Qed.

Lemma count_if_nonneg {A} (f : A -> bool) l : 0 <= count_if f l.
Proof. unfold count_if. lia. Qed.

Lemma count_if_cons {A} (f : A -> bool) x l : count_if f (x :: l) = (if f x then 1 else 0) + count_if f l.
Proof. unfold count_if. simpl. destruct (f x); simpl length; lia. Qed.

Lemma count_if_app {A} (f : A -> bool) l k : count_if f (l ++ k) = count_if f l + count_if f k.
Proof. unfold count_if. rewrite List.filter_app, length_app. lia. Qed.

Lemma count_if_insert {A} (f : A -> bool) l i x y : l !! i = Some x ->
  count_if f (<[i := y]> l) = count_if f l - (if f x then 1 else 0) + (if f y then 1 else 0).
Proof.
  revert i. induction l as [| z l IH]; intros [| i]; simpl; try done.
  - intros [= ->]. rewrite !count_if_cons. lia.
  - intros H. change (<[S i := y]> (z :: l)) with (z :: <[i := y]> l). rewrite !count_if_cons, (IH i H). lia.
Qed.

Lemma omap_step {A} (g : A -> option A) x l :
  omap g (x :: l) = match g x with Some y => y :: omap g l | None => omap g l end.
Proof. done. Qed.

Lemma count_if_omap {A} (g : A -> option A) (p : A -> bool) l :
  (forall x y, x ∈ l -> g x = Some y -> p y = true -> p x = true) -> count_if p (omap g l) <= count_if p l.
Proof.
  induction l as [| x l IH]; intros H; [done |]. rewrite count_if_cons, omap_step.
  assert (IH' : count_if p (omap g l) <= count_if p l) by (apply IH; intros z y Hz; apply H; by right).
  specialize (H x). destruct (g x) as [y |]; [| destruct (p x); lia]. rewrite count_if_cons.
  specialize (H y (list_elem_of_here _ _) eq_refl). destruct (p y), (p x); lia.
Qed.

Lemma count_if_all {A} (l : list A) : count_if (fun _ => true) l = Z.of_nat (length l).
Proof. unfold count_if. f_equal. induction l as [| x l IH]; simpl; congruence. Qed.

Lemma filter_nodup_map {A B} (h : A -> B) p l : NoDup (List.map h l) -> NoDup (List.map h (List.filter p l)).
Proof.
  induction l as [| x l IH]; simpl; [done |]. intros [Hx Hn]%list.NoDup_cons. destruct (p x); [| by apply IH].
  cbn. apply list.NoDup_cons. split; [| by apply IH]. intros Hin. apply Hx.
  apply list_elem_of_In, in_map_iff in Hin as (y & E & [Hy _]%filter_In). rewrite <- E.
  by apply list_elem_of_In, in_map.
Qed.

Lemma map_insert_same {A B} (f : A -> B) l i x y : l !! i = Some x -> f y = f x ->
  List.map f (<[i := y]> l) = List.map f l.
Proof.
  revert i. induction l as [| z l IH]; intros [| i] H E; cbn in *; try done.
  - injection H as ->. by rewrite E.
  - f_equal. by apply IH.
Qed.

Lemma count_if_filter {A} (p q : A -> bool) l : count_if p (List.filter q l) <= count_if p l.
Proof.
  induction l as [| x l IH]; [done |]. cbn [List.filter]. rewrite (count_if_cons p x l).
  destruct (q x); rewrite ?count_if_cons; destruct (p x); lia.
Qed.

Lemma elem_of_list_filter {A} (q : A -> bool) l x : x ∈ List.filter q l <-> x ∈ l /\ q x = true.
Proof. rewrite !list_elem_of_In. apply List.filter_In. Qed.

Lemma length_filter {A} (q : A -> bool) l : (length (List.filter q l) <= length l)%nat.
Proof. apply List.filter_length_le. Qed.

Lemma Forall_filter {A} (P : A -> Prop) q l : Forall P l -> Forall P (List.filter q l).
Proof. induction 1 as [| x l Hx _ IH]; [constructor |]. cbn. destruct (q x); [by constructor | done]. Qed.

Lemma elem_of_insert {A} (l : list A) i x z : z ∈ <[i := x]> l -> z = x \/ z ∈ l.
Proof.
  intros [j Hj]%list_elem_of_lookup. apply list_lookup_insert_Some in Hj as [(_ & -> & _) | [_ Hj]]; [by left |].
  right. by apply list_elem_of_lookup_2 in Hj.
Qed.

(** Keys of the elements with a property, when elements go. *)
Lemma filter_nodup_filter {A B} (q : B -> bool) (h : A -> B) p l :
  NoDup (List.filter q (List.map h l)) -> NoDup (List.filter q (List.map h (List.filter p l))).
Proof.
  induction l as [| x l IH]; [done |]. cbn. destruct (p x), (q (h x)) eqn:Q; cbn; rewrite ?Q; try by auto.
  - intros [Hx Hn]%list.NoDup_cons. apply list.NoDup_cons. split; [| by apply IH]. intros H. apply Hx.
    apply elem_of_list_filter. apply elem_of_list_filter in H as [H Q']. split; [| done].
    apply list_elem_of_In, in_map_iff in H as (y & E & [Hy _]%List.filter_In). rewrite <- E.
    by apply list_elem_of_In, in_map.
  - intros [_ Hn]%list.NoDup_cons. by apply IH.
Qed.

Lemma filter_map_nodup_filter {A B} (q : A -> bool) (h : A -> B) p l :
  NoDup (List.map h (List.filter q l)) -> NoDup (List.map h (List.filter q (List.filter p l))).
Proof.
  intros H. assert (E : List.filter q (List.filter p l) = List.filter p (List.filter q l)).
  { clear H. induction l as [| x l IH]; [done |]. cbn. destruct (p x) eqn:P, (q x) eqn:Q; cbn; rewrite ?P, ?Q, ?IH; done. }
  rewrite E. by apply filter_nodup_map.
Qed.

(** An element is changed: it gets the property, or it keeps it and its key. *)
Lemma filter_map_insert_new {A B} (q : A -> bool) (h : A -> B) l i x y : l !! i = Some x -> q x = false -> q y = true ->
  List.map h (List.filter q (<[i := y]> l)) ≡ₚ h y :: List.map h (List.filter q l).
Proof.
  revert i. induction l as [| z l IH]; intros [| i] H Qx Qy; cbn in *; try done.
  - injection H as ->. by rewrite Qx, Qy.
  - destruct (q z); cbn; rewrite IH by done; [apply perm_swap | done].
Qed.

Lemma filter_map_insert_same {A B} (q : A -> bool) (h : A -> B) l i x y : l !! i = Some x -> q x = q y -> h x = h y ->
  List.map h (List.filter q (<[i := y]> l)) = List.map h (List.filter q l).
Proof.
  revert i. induction l as [| z l IH]; intros [| i] H Q E; cbn in *; try done.
  - injection H as ->. rewrite Q. destruct (q y); cbn; congruence.
  - destruct (q z); cbn; by rewrite IH.
Qed.
