(* ===== verification/Utf8.v ===== *)
(** * UTF-8 validation of the v1 parser

    [IsContinuation], [IsUnicodeNoncharacter] and [IsValidUtf8] of
    [native/src/protocol/v1_parser.cpp], with the encoding of RFC 3629 as the
    reference they are compared with: the validator accepts exactly the
    encodings of sequences of Unicode scalar values that hold neither U+0000
    nor a noncharacter. *)

From S2P Require Import Prelude.

(** ** The validator *)

Definition IsContinuation (value : Z) : bool := Z.land value 0xc0 =? 0x80.

Definition IsUnicodeNoncharacter (code_point : Z) : bool :=
  (code_point >=? 0xfdd0) && (code_point <=? 0xfdef) ||
  (code_point <=? 0x10ffff) && (Z.land code_point 0xffff >=? 0xfffe).

(** The classification of one sequence at the head of the remaining input [s],
    which is not empty: its code point and its width, or [None] where the loop
    body returns [false]. *)
Definition Utf8Sequence (s : bytes) : option (Z * Z) :=
  let first := at_ s 0 in
  if first <=? 0x7f then Some (first, 1)
  else if (first >=? 0xc2) && (first <=? 0xdf) then
    if (bsize s <? 2) || negb (IsContinuation (at_ s 1)) then None else
    Some (Z.lor (Z.shiftl (Z.land first 0x1f) 6) (Z.land (at_ s 1) 0x3f), 2)
  else if (first >=? 0xe0) && (first <=? 0xef) then
    if (bsize s <? 3) || negb (IsContinuation (at_ s 1)) ||
              negb (IsContinuation (at_ s 2)) then None else
    let second := at_ s 1 in
    if (first =? 0xe0) && (second <? 0xa0) ||
              (first =? 0xed) && (second >=? 0xa0) then None else
    Some (Z.lor (Z.lor (Z.shiftl (Z.land first 0x0f) 12)
                       (Z.shiftl (Z.land second 0x3f) 6))
                (Z.land (at_ s 2) 0x3f), 3)
  else if (first >=? 0xf0) && (first <=? 0xf4) then
    if (bsize s <? 4) || negb (IsContinuation (at_ s 1)) ||
              negb (IsContinuation (at_ s 2)) || negb (IsContinuation (at_ s 3)) then None else
    let second := at_ s 1 in
    if (first =? 0xf0) && (second <? 0x90) ||
              (first =? 0xf4) && (second >? 0x8f) then None else
    Some (Z.lor (Z.lor (Z.lor (Z.shiftl (Z.land first 0x07) 18)
                              (Z.shiftl (Z.land second 0x3f) 12))
                       (Z.shiftl (Z.land (at_ s 2) 0x3f) 6))
                (Z.land (at_ s 3) 0x3f), 4)
  else None.

(** The loop on [offset]; [s] is the input from [offset] on.  A sequence has a
    positive width, so a fuel of the input's length is enough. *)
Fixpoint IsValidUtf8_loop (fuel : nat) (s : bytes) : bool :=
  match s, fuel with
  | [], _ => true
  | _, O => false
  | _, S fuel =>
      match Utf8Sequence s with
      | None => false
      | Some (code_point, width) =>
          if (code_point =? 0) || IsUnicodeNoncharacter code_point then false else
          IsValidUtf8_loop fuel (drop (Z.to_nat width) s)
      end
  end.

Definition IsValidUtf8 (value : bytes) : bool := IsValidUtf8_loop (length value) value.

(** ** The reference encoding *)

(** RFC 3629, section 3: the octets of a code point. *)
Definition utf8_encode (c : Z) : bytes :=
  if c <? 0x80 then [c]
  else if c <? 0x800 then [0xc0 + c / 64; 0x80 + c mod 64]
  else if c <? 0x10000 then [0xe0 + c / 4096; 0x80 + (c / 64) mod 64; 0x80 + c mod 64]
  else [0xf0 + c / 262144; 0x80 + (c / 4096) mod 64; 0x80 + (c / 64) mod 64;
        0x80 + c mod 64].

Definition scalar_value (c : Z) : Prop :=
  0 <= c <= 0x10ffff /\ ~ (0xd800 <= c <= 0xdfff).

Definition noncharacter (c : Z) : Prop :=
  0xfdd0 <= c <= 0xfdef \/ c mod 0x10000 = 0xfffe \/ c mod 0x10000 = 0xffff.

(** The code points a TLV of the UTF-8 wire type may hold. *)
Definition permitted (c : Z) : Prop :=
  scalar_value c /\ c <> 0 /\ ~ noncharacter c.

(** ** The validator against the reference *)

(** A fact on a byte is checked on the 256 values. *)
Lemma byte_forall (P : Z -> bool) :
  forallb P (List.map Z.of_nat (seq 0 256)) = true -> forall b, is_byte b -> P b = true.
Proof.
  rewrite forallb_forall. intros H b Hb. apply H, in_map_iff.
  exists (Z.to_nat b). unfold is_byte in Hb. split; [widths |].
  apply in_seq. widths.
Qed.

Lemma IsContinuation_range b :
  is_byte b -> IsContinuation b = (0x80 <=? b) && (b <=? 0xbf).
Proof.
  intros Hb. apply eqb_prop.
  revert b Hb. apply byte_forall. vm_compute. reflexivity.
Qed.

Lemma low_bits v k m : 0 <= k -> m = 2 ^ k - 1 -> Z.land v m = v mod 2 ^ k.
Proof. intros ? ->. by apply land_mask. Qed.

Lemma IsUnicodeNoncharacter_spec c :
  0 <= c <= 0x10ffff -> IsUnicodeNoncharacter c = true <-> noncharacter c.
Proof.
  intros Hc. unfold IsUnicodeNoncharacter, noncharacter.
  rewrite (low_bits _ 16 0xffff) by (lia || reflexivity).
  rewrite pow2_65536, orb_true_iff, !andb_true_iff, !Z.geb_leb, !Z.leb_le. zlia.
Qed.

Lemma at_cons_0 x l : at_ (x :: l) 0 = x. Proof. done. Qed.
Lemma at_cons_1 x y l : at_ (x :: y :: l) 1 = y. Proof. done. Qed.
Lemma at_cons_2 x y z l : at_ (x :: y :: z :: l) 2 = z. Proof. done. Qed.
Lemma at_cons_3 x y z t l : at_ (x :: y :: z :: t :: l) 3 = t. Proof. done. Qed.

(** The assembled code point as a sum. *)
Lemma lor_pieces_2 a b :
  0 <= b < 64 -> Z.lor (Z.shiftl a 6) b = a * 64 + b.
Proof. intros. by rewrite lor_shiftl_add by (simpl; lia). Qed.

Lemma lor_pieces_3 a b c :
  0 <= b < 64 -> 0 <= c < 64 ->
  Z.lor (Z.lor (Z.shiftl a 12) (Z.shiftl b 6)) c = a * 4096 + b * 64 + c.
Proof.
  intros. change 12 with (6 + 6). rewrite <- Z.shiftl_shiftl, <- Z.shiftl_lor by lia.
  rewrite !lor_pieces_2 by lia. lia.
Qed.

Lemma lor_pieces_4 a b c d :
  0 <= b < 64 -> 0 <= c < 64 -> 0 <= d < 64 ->
  Z.lor (Z.lor (Z.lor (Z.shiftl a 18) (Z.shiftl b 12)) (Z.shiftl c 6)) d
  = a * 262144 + b * 4096 + c * 64 + d.
Proof.
  intros. change 18 with (12 + 6).
  replace (Z.shiftl b 12) with (Z.shiftl (Z.shiftl b 6) 6)
    by (by rewrite Z.shiftl_shiftl by lia).
  rewrite <- Z.shiftl_shiftl, <- !Z.shiftl_lor by lia.
  rewrite lor_pieces_2, lor_pieces_3 by lia. lia.
Qed.

Ltac low_bits_all :=
  rewrite ?(low_bits _ 6 0x3f), ?(low_bits _ 5 0x1f), ?(low_bits _ 4 0x0f),
    ?(low_bits _ 3 0x07) by (lia || reflexivity);
  change (2 ^ 6) with 64 in *; change (2 ^ 5) with 32 in *;
  change (2 ^ 4) with 16 in *; change (2 ^ 3) with 8 in *.

(** ** One sequence *)

(** The code point of a sequence, computed by the sums of its payloads. *)
Definition payload_2 (b0 b1 : Z) : Z := (b0 - 0xc0) * 64 + (b1 - 0x80).
Definition payload_3 (b0 b1 b2 : Z) : Z :=
  (b0 - 0xe0) * 4096 + (b1 - 0x80) * 64 + (b2 - 0x80).
Definition payload_4 (b0 b1 b2 b3 : Z) : Z :=
  (b0 - 0xf0) * 262144 + (b1 - 0x80) * 4096 + (b2 - 0x80) * 64 + (b3 - 0x80).

(** The continuation bytes of a well-formed sequence. *)
Definition tail_byte (b : Z) : Prop := 0x80 <= b <= 0xbf.

Lemma encode_payload_2 b0 b1 :
  0xc2 <= b0 <= 0xdf -> tail_byte b1 ->
  scalar_value (payload_2 b0 b1) /\ utf8_encode (payload_2 b0 b1) = [b0; b1].
Proof.
  unfold tail_byte, scalar_value, utf8_encode. set (c := payload_2 b0 b1). intros ? ?.
  assert (0x80 <= c < 0x800) by (subst c; unfold payload_2; lia).
  replace (c <? 0x80) with false by (symmetry; lia).
  replace (c <? 0x800) with true by (symmetry; lia).
  split; [lia |]. repeat f_equal; subst c; unfold payload_2; zlia.
Qed.

Lemma encode_payload_3 b0 b1 b2 :
  0xe0 <= b0 <= 0xef -> tail_byte b1 -> tail_byte b2 ->
  (b0 = 0xe0 -> 0xa0 <= b1) -> (b0 = 0xed -> b1 < 0xa0) ->
  scalar_value (payload_3 b0 b1 b2) /\ utf8_encode (payload_3 b0 b1 b2) = [b0; b1; b2].
Proof.
  unfold tail_byte, scalar_value, utf8_encode. set (c := payload_3 b0 b1 b2). intros.
  assert (0x800 <= c < 0x10000) by (subst c; unfold payload_3; lia).
  replace (c <? 0x80) with false by (symmetry; lia).
  replace (c <? 0x800) with false by (symmetry; lia).
  replace (c <? 0x10000) with true by (symmetry; lia).
  split; [subst c; unfold payload_3 in *; lia |].
  repeat f_equal; subst c; unfold payload_3; zlia.
Qed.

Lemma encode_payload_4 b0 b1 b2 b3 :
  0xf0 <= b0 <= 0xf4 -> tail_byte b1 -> tail_byte b2 -> tail_byte b3 ->
  (b0 = 0xf0 -> 0x90 <= b1) -> (b0 = 0xf4 -> b1 <= 0x8f) ->
  scalar_value (payload_4 b0 b1 b2 b3)
  /\ utf8_encode (payload_4 b0 b1 b2 b3) = [b0; b1; b2; b3].
Proof.
  unfold tail_byte, scalar_value, utf8_encode. set (c := payload_4 b0 b1 b2 b3). intros.
  assert (0x10000 <= c <= 0x10ffff) by (subst c; unfold payload_4; lia).
  replace (c <? 0x80) with false by (symmetry; lia).
  replace (c <? 0x800) with false by (symmetry; lia).
  replace (c <? 0x10000) with false by (symmetry; lia).
  split; [lia |]. repeat f_equal; subst c; unfold payload_4; zlia.
Qed.

(** What the bit operations of the source compute on such bytes. *)
Lemma bits_payload_2 b0 b1 :
  0xc0 <= b0 <= 0xdf -> tail_byte b1 ->
  Z.lor (Z.shiftl (Z.land b0 0x1f) 6) (Z.land b1 0x3f) = payload_2 b0 b1.
Proof.
  unfold tail_byte, payload_2. intros. low_bits_all. rewrite lor_pieces_2; zlia.
Qed.

Lemma bits_payload_3 b0 b1 b2 :
  0xe0 <= b0 <= 0xef -> tail_byte b1 -> tail_byte b2 ->
  Z.lor (Z.lor (Z.shiftl (Z.land b0 0x0f) 12) (Z.shiftl (Z.land b1 0x3f) 6))
        (Z.land b2 0x3f) = payload_3 b0 b1 b2.
Proof.
  unfold tail_byte, payload_3. intros. low_bits_all. rewrite lor_pieces_3; zlia.
Qed.

Lemma bits_payload_4 b0 b1 b2 b3 :
  0xf0 <= b0 <= 0xf7 -> tail_byte b1 -> tail_byte b2 -> tail_byte b3 ->
  Z.lor (Z.lor (Z.lor (Z.shiftl (Z.land b0 0x07) 18) (Z.shiftl (Z.land b1 0x3f) 12))
               (Z.shiftl (Z.land b2 0x3f) 6)) (Z.land b3 0x3f) = payload_4 b0 b1 b2 b3.
Proof.
  unfold tail_byte, payload_4. intros. low_bits_all. rewrite lor_pieces_4; zlia.
Qed.

(** The cases of [utf8_encode], as bytes and payloads. *)
Variant utf8_shape : Z -> bytes -> Prop :=
  | shape_1 b0 : 0 <= b0 <= 0x7f -> utf8_shape b0 [b0]
  | shape_2 b0 b1 :
      0xc2 <= b0 <= 0xdf -> tail_byte b1 -> utf8_shape (payload_2 b0 b1) [b0; b1]
  | shape_3 b0 b1 b2 :
      0xe0 <= b0 <= 0xef -> tail_byte b1 -> tail_byte b2 ->
      (b0 = 0xe0 -> 0xa0 <= b1) -> (b0 = 0xed -> b1 < 0xa0) ->
      utf8_shape (payload_3 b0 b1 b2) [b0; b1; b2]
  | shape_4 b0 b1 b2 b3 :
      0xf0 <= b0 <= 0xf4 -> tail_byte b1 -> tail_byte b2 -> tail_byte b3 ->
      (b0 = 0xf0 -> 0x90 <= b1) -> (b0 = 0xf4 -> b1 <= 0x8f) ->
      utf8_shape (payload_4 b0 b1 b2 b3) [b0; b1; b2; b3].

Lemma utf8_shape_encode c l : utf8_shape c l -> scalar_value c /\ utf8_encode c = l.
Proof.
  destruct 1 as [b0 ? | | |];
    [| by apply encode_payload_2 | by apply encode_payload_3 | by apply encode_payload_4].
  unfold scalar_value, utf8_encode. replace (b0 <? 0x80) with true by (symmetry; lia).
  split; [lia | done].
Qed.

Lemma utf8_encode_shape c : scalar_value c -> utf8_shape c (utf8_encode c).
Proof.
  intros [Hc Hs]. unfold utf8_encode.
  destruct (Z.ltb_spec c 0x80); [by apply shape_1; lia |].
  destruct (Z.ltb_spec c 0x800).
  { replace c with (payload_2 (0xc0 + c / 64) (0x80 + c mod 64)) at 1
      by (unfold payload_2; zlia).
    apply shape_2; unfold tail_byte; zlia. }
  destruct (Z.ltb_spec c 0x10000).
  { replace c with (payload_3 (0xe0 + c / 4096) (0x80 + (c / 64) mod 64) (0x80 + c mod 64))
      at 1 by (unfold payload_3; zlia).
    apply shape_3; unfold tail_byte; zlia. }
  replace c with (payload_4 (0xf0 + c / 262144) (0x80 + (c / 4096) mod 64)
                    (0x80 + (c / 64) mod 64) (0x80 + c mod 64))
    at 1 by (unfold payload_4; zlia).
  apply shape_4; unfold tail_byte; zlia.
Qed.

Lemma tail_byte_is_byte b : tail_byte b -> is_byte b.
Proof. unfold tail_byte, is_byte. widths. Qed.

Lemma IsContinuation_tail b : tail_byte b -> IsContinuation b = true.
Proof.
  intros Hb. rewrite IsContinuation_range by by apply tail_byte_is_byte.
  unfold tail_byte in Hb. lia.
Qed.

Lemma IsContinuation_true b : is_byte b -> IsContinuation b = true -> tail_byte b.
Proof. intros Hb. rewrite IsContinuation_range by done. unfold tail_byte. lia. Qed.

#[local] Hint Resolve IsContinuation_true : xnn.

Lemma Utf8Sequence_shape s c w :
  all_bytes s -> s <> [] -> Utf8Sequence s = Some (c, w) ->
  exists l, utf8_shape c l /\ w = bsize l /\ s = l ++ drop (Z.to_nat w) s.
Proof.
  intros Hs Hne H. destruct s as [| b0 s]; [done |].
  apply Forall_cons_1 in Hs as [Hb0 Hs]. unfold is_byte in Hb0.
  unfold Utf8Sequence in H. rewrite at_cons_0 in H. cbv zeta in H.
  destruct (b0 <=? 0x7f) eqn:E0; [| destruct ((b0 >=? 0xc2) && (b0 <=? 0xdf)) eqn:E1;
    [| destruct ((b0 >=? 0xe0) && (b0 <=? 0xef)) eqn:E2;
    [| destruct ((b0 >=? 0xf0) && (b0 <=? 0xf4)) eqn:E3; [| done]]]].
  - inv H. exists [c]. split; [apply shape_1; bool_facts; widths | done].
  - destruct s as [| b1 s]; [done |].
    apply Forall_cons_1 in Hs as [Hb1 Hs]. rewrite at_cons_1 in H.
    split_if_in H; [done |]. inv H. bool_facts. exists [b0; b1].
    rewrite bits_payload_2 by (auto with xnn; lia).
    split; [apply shape_2; auto with xnn | done].
  - destruct s as [| b1 [| b2 s]]; [done | done |].
    apply Forall_cons_1 in Hs as [Hb1 Hs]. apply Forall_cons_1 in Hs as [Hb2 Hs].
    rewrite at_cons_1, at_cons_2 in H.
    split_if_in H; [done |]. split_if_in H; [done |]. inv H. bool_facts.
    exists [b0; b1; b2]. rewrite bits_payload_3 by (auto with xnn; lia).
    split; [apply shape_3; auto with xnn; lia | done].
  - destruct s as [| b1 [| b2 [| b3 s]]]; [done | done | done |].
    apply Forall_cons_1 in Hs as [Hb1 Hs]. apply Forall_cons_1 in Hs as [Hb2 Hs].
    apply Forall_cons_1 in Hs as [Hb3 Hs]. rewrite at_cons_1, at_cons_2, at_cons_3 in H.
    split_if_in H; [done |]. split_if_in H; [done |]. inv H. bool_facts.
    exists [b0; b1; b2; b3]. rewrite bits_payload_4 by (auto with xnn; lia).
    split; [apply shape_4; auto with xnn; lia | done].
Qed.

(** Deciding the tests of one branch from the ranges in the context. *)
Ltac take_branch :=
  repeat ((split_if; [exfalso; bool_facts; lia |])
          || (split_if; [| exfalso; bool_facts; lia])).

Lemma Utf8Sequence_complete c l rest :
  utf8_shape c l -> Utf8Sequence (l ++ rest) = Some (c, bsize l).
Proof.
  unfold Utf8Sequence.
  destruct 1 as [b0 ? | b0 b1 ? T1 | b0 b1 b2 ? T1 T2 ? ? | b0 b1 b2 b3 ? T1 T2 T3 ? ?];
    cbn [app]; rewrite at_cons_0, ?at_cons_1, ?at_cons_2, ?at_cons_3;
    rewrite ?IsContinuation_tail by done; rewrite !bsize_cons;
    pose proof (bsize_nonneg rest); cbv zeta; cbn [negb]; rewrite ?orb_false_r.
  - take_branch. done.
  - take_branch. by rewrite bits_payload_2 by (done || lia).
  - take_branch. by rewrite bits_payload_3 by (done || lia).
  - take_branch. by rewrite bits_payload_4 by (done || lia).
Qed.

(** ** The whole input *)

Lemma permitted_test c :
  scalar_value c ->
  (c =? 0) || IsUnicodeNoncharacter c = false <-> permitted c.
Proof.
  intros Hc. unfold permitted. rewrite orb_false_iff, Z.eqb_neq.
  destruct (IsUnicodeNoncharacter c) eqn:E.
  - apply IsUnicodeNoncharacter_spec in E; [| apply Hc].
    split; [by intros [_ ?] | by intros (_ & _ & ?)].
  - enough (~ noncharacter c) by tauto.
    intros Hn. apply IsUnicodeNoncharacter_spec in Hn; [congruence | apply Hc].
Qed.

Lemma utf8_shape_length c l : utf8_shape c l -> (0 < length l)%nat.
Proof. destruct 1; simpl; lia. Qed.

Lemma IsValidUtf8_loop_sound fuel s :
  all_bytes s -> IsValidUtf8_loop fuel s = true ->
  exists cps, Forall permitted cps /\ s = concat (List.map utf8_encode cps).
Proof.
  revert s. induction fuel as [| fuel IH]; intros [| b s] Hs H;
    [by exists [] | done | by exists [] |].
  cbn [IsValidUtf8_loop] in H.
  destruct (Utf8Sequence (b :: s)) as [[c w] |] eqn:E; [| done].
  apply Utf8Sequence_shape in E as (l & Hl & -> & Hsplit); [| done | done].
  apply utf8_shape_encode in Hl as [Hc Henc].
  split_if_in H; [done |]. apply permitted_test in E; [| done].
  destruct (IH _ (all_bytes_drop _ _ Hs) H) as (cps & Hcps & Heq).
  exists (c :: cps). split; [by constructor |]. cbn. rewrite Henc, <- Heq. done.
Qed.

Lemma IsValidUtf8_loop_complete cps fuel :
  Forall permitted cps ->
  (length (concat (List.map utf8_encode cps)) <= fuel)%nat ->
  IsValidUtf8_loop fuel (concat (List.map utf8_encode cps)) = true.
Proof.
  intros Hcps. revert fuel. induction Hcps as [| c cps Hc Hcps IH]; intros fuel Hf.
  { by destruct fuel. }
  cbn [List.map concat] in *.
  pose proof (utf8_encode_shape c (proj1 Hc)) as Hsh.
  pose proof (utf8_shape_length _ _ Hsh) as Hlen. rewrite length_app in Hf.
  destruct fuel as [| fuel]; [lia |].
  pose proof (Utf8Sequence_complete _ _ (concat (List.map utf8_encode cps)) Hsh) as Hseq.
  destruct (utf8_encode c ++ _) as [| b s] eqn:Es; [by destruct (utf8_encode c) |].
  cbn [IsValidUtf8_loop]. rewrite Hseq.
  rewrite (proj2 (permitted_test c (proj1 Hc)) Hc), <- Es, drop_app_bsize by done.
  apply IH. lia.
Qed.

(** The validator against the reference encoding. *)
Lemma IsValidUtf8_iff value :
  all_bytes value ->
  IsValidUtf8 value = true <->
  exists cps, Forall permitted cps /\ value = concat (List.map utf8_encode cps).
Proof.
  intros Hv. split; [by apply IsValidUtf8_loop_sound |].
  intros (cps & Hcps & ->). by apply IsValidUtf8_loop_complete.
Qed.
