(* ===== verification/V1Parser.v ===== *)
(** * The bounded v1 frame and TLV parser

    [native/src/protocol/v1_parser.cpp] and
    [native/include/xnn_transfer/protocol/v1_parser.hpp], the stateless part:
    the field schemas, the TLV loop, and the four frame entry points
    [ParseFrameHeader], [ParseFrameEnvelope], [ParseFrameBody] and
    [ParseFrame].  The transcript state machine of the same file is in
    [V1Transcript]. *)

From S2P Require Import Prelude.
From S2P Require Import Utf8.

(** ** Constants and data *)

Definition kFixedHeaderLength : Z := 28.
Definition kMaxHeaderLength : Z := 256.
Definition kMaxBodyLength : Z := 1048576.
Definition kMaxEncodedFrameLength : Z := kMaxHeaderLength + kMaxBodyLength.
Definition kMaxFields : nat := 256.

Definition kMagic : bytes := [88; 78; 78; 84].
Definition kBaseTransferV1 : Z := 65537.
Definition kMaxInFlight : Z := 67108864.
Definition kMaxStreams : Z := 32.
Definition kMaxChunkData : Z := 1048000.

Module WireType.
Inductive WireType := kU8 | kU16 | kU32 | kU64 | kBytes | kUtf8 | kBool.

Definition wire_type_code (t : WireType) : Z :=
  match t with
  | kU8 => 1 | kU16 => 2 | kU32 => 3 | kU64 => 4
  | kBytes => 5 | kUtf8 => 6 | kBool => 7
  end.

(** [static_cast<WireType>(value)], for a value [IsKnownWireType] accepts. *)
Definition wire_type_of_code (v : Z) : WireType :=
  match v with
  | 1 => kU8 | 2 => kU16 | 3 => kU32 | 4 => kU64
  | 5 => kBytes | 6 => kUtf8 | _ => kBool
  end.

#[global] Instance wire_type_eq_dec : EqDecision WireType.
Proof. solve_decision. Defined.
End WireType.
Import WireType.

Module MessageType.
(** [kUnset] is the value-initialised [MessageType{}], 0, which is not an
    enumerator: the header of a frame whose fixed header was rejected. *)
Inductive MessageType :=
  | kUnset
  | kHello | kNegotiate | kNegotiateAck | kError | kPing | kPong | kGoAway
  | kTransportFinished
  | kTransferOffer | kManifestEntry | kManifestEnd | kTransferAccept
  | kTransferReject
  | kFileBegin | kFileChunk | kChunkAck | kFileEnd | kFileCommit
  | kTransferComplete | kTransferCompleteAck
  | kCancel | kCancelAck
  | kResumeRequest | kResumeState | kResumeEnd.

Definition message_type_code (t : MessageType) : Z :=
  match t with
  | kUnset => 0x0000
  | kHello => 0x0001 | kNegotiate => 0x0002 | kNegotiateAck => 0x0003
  | kError => 0x0004 | kPing => 0x0005 | kPong => 0x0006 | kGoAway => 0x0007
  | kTransportFinished => 0x0008
  | kTransferOffer => 0x0100 | kManifestEntry => 0x0101
  | kManifestEnd => 0x0102 | kTransferAccept => 0x0103
  | kTransferReject => 0x0104
  | kFileBegin => 0x0110 | kFileChunk => 0x0111 | kChunkAck => 0x0112
  | kFileEnd => 0x0113 | kFileCommit => 0x0114
  | kTransferComplete => 0x0120 | kTransferCompleteAck => 0x0121
  | kCancel => 0x0130 | kCancelAck => 0x0131
  | kResumeRequest => 0x0140 | kResumeState => 0x0141 | kResumeEnd => 0x0142
  end.

(** The enumerators the switch of [IsKnownMessageType] lists. *)
Definition known_message_types : list MessageType :=
  [kHello; kNegotiate; kNegotiateAck; kError; kPing; kPong; kGoAway;
   kTransportFinished; kTransferOffer; kManifestEntry; kManifestEnd;
   kTransferAccept; kTransferReject; kFileBegin; kFileChunk; kChunkAck;
   kFileEnd; kFileCommit; kTransferComplete; kTransferCompleteAck; kCancel;
   kCancelAck; kResumeRequest; kResumeState; kResumeEnd].

#[global] Instance message_type_eq_dec : EqDecision MessageType.
Proof. solve_decision. Defined.
End MessageType.
Import MessageType.

Module ErrorCode.
Inductive ErrorCode :=
  | kNone | kMalformedFrame | kFrameTooLarge | kMalformedMessage
  | kUnsupportedVersion | kDowngradeDetected | kUnsupportedCapability
  | kUnsupportedMessage | kUnknownCriticalField | kStateViolation
  | kMessageIdViolation | kLimitExceeded.

Definition error_code_value (e : ErrorCode) : Z :=
  match e with
  | kNone => 0x0000 | kMalformedFrame => 0x0001 | kFrameTooLarge => 0x0002
  | kMalformedMessage => 0x0003 | kUnsupportedVersion => 0x0004
  | kDowngradeDetected => 0x0005 | kUnsupportedCapability => 0x0006
  | kUnsupportedMessage => 0x0007 | kUnknownCriticalField => 0x0008
  | kStateViolation => 0x0009 | kMessageIdViolation => 0x000a
  | kLimitExceeded => 0x000b
  end.

#[global] Instance error_code_eq_dec : EqDecision ErrorCode.
Proof. solve_decision. Defined.
End ErrorCode.

Definition ErrorCodeName (code : ErrorCode.ErrorCode) : string :=
  match code with
  | ErrorCode.kNone => "NONE"
  | ErrorCode.kMalformedFrame => "MALFORMED_FRAME"
  | ErrorCode.kFrameTooLarge => "FRAME_TOO_LARGE"
  | ErrorCode.kMalformedMessage => "MALFORMED_MESSAGE"
  | ErrorCode.kUnsupportedVersion => "UNSUPPORTED_VERSION"
  | ErrorCode.kDowngradeDetected => "DOWNGRADE_DETECTED"
  | ErrorCode.kUnsupportedCapability => "UNSUPPORTED_CAPABILITY"
  | ErrorCode.kUnsupportedMessage => "UNSUPPORTED_MESSAGE"
  | ErrorCode.kUnknownCriticalField => "UNKNOWN_CRITICAL_FIELD"
  | ErrorCode.kStateViolation => "STATE_VIOLATION"
  | ErrorCode.kMessageIdViolation => "MESSAGE_ID_VIOLATION"
  | ErrorCode.kLimitExceeded => "LIMIT_EXCEEDED"
  end%string.

Record Error := { err_code : ErrorCode.ErrorCode; err_detail : string }.

Definition NoError : Error := {| err_code := ErrorCode.kNone; err_detail := "" |}.
Definition MakeError (c : ErrorCode.ErrorCode) (d : string) : Error :=
  {| err_code := c; err_detail := d |}.
Definition error_ok (e : Error) : bool := bool_decide (err_code e = ErrorCode.kNone).

Record Version := { major : Z; minor : Z }.

#[global] Instance version_eq_dec : EqDecision Version.
Proof. solve_decision. Defined.

(** [Version{}]. *)
Definition Version_default : Version := {| major := 1; minor := 0 |}.

Record FrameHeader := {
  h_length : Z;
  h_version : Version;
  h_message_type : MessageType;
  h_flags : Z;
  h_stream_id : Z;
  h_message_id : Z;
  h_body_length : Z;
}.

Record FieldView := {
  f_id : Z;
  f_wire_type : WireType;
  f_flags : Z;
  f_value : bytes;
}.

(** [FieldView::critical]. *)
Definition critical (f : FieldView) : bool := negb (Z.land (f_flags f) 1 =? 0).

(** [FieldCollection]: the first [count] elements of its array. *)
Abbreviation FieldCollection := (list FieldView).

Definition FindFirst (c : FieldCollection) (id : Z) : option FieldView :=
  List.find (fun f => f_id f =? id) c.

Fixpoint Count (c : FieldCollection) (id : Z) : Z :=
  match c with
  | [] => 0
  | f :: rest => (if f_id f =? id then 1 else 0) + Count rest id
  end.

Record ParsedFrame := {
  pf_header : FrameHeader;
  pf_header_fields : FieldCollection;
  pf_body_fields : FieldCollection;
  pf_total_length : Z;
  pf_raw : bytes;
  pf_extensions : bytes;
  pf_body : bytes;
}.

#[global] Instance eta_ParsedFrame : Eta ParsedFrame := fun x =>
  {| pf_header := pf_header x; pf_header_fields := pf_header_fields x;
     pf_body_fields := pf_body_fields x;
     pf_total_length := pf_total_length x; pf_raw := pf_raw x;
     pf_extensions := pf_extensions x; pf_body := pf_body x |}.

Definition FrameHeader_default : FrameHeader :=
  {| h_length := 0; h_version := Version_default; h_message_type := kUnset;
     h_flags := 0; h_stream_id := 0; h_message_id := 0; h_body_length := 0 |}.

Definition ParsedFrame_default : ParsedFrame :=
  {| pf_header := FrameHeader_default; pf_header_fields := []; pf_body_fields := [];
     pf_total_length := 0; pf_raw := []; pf_extensions := []; pf_body := [] |}.

Record ParseResult := { pr_frame : ParsedFrame; pr_error : Error }.

Definition result_ok (r : ParseResult) : bool := error_ok (pr_error r).

(** ** Field schemas *)

Inductive Presence := Presence_kRequired | Presence_kOptional | Presence_kConditional.

#[global] Instance presence_eq_dec : EqDecision Presence.
Proof. solve_decision. Defined.

Record FieldRule := {
  r_id : Z;
  r_wire_type : WireType;
  r_presence : Presence;
  r_repeated : bool;
  r_minimum_length : Z;
  r_maximum_length : Z;
}.

(** The general forms, all arguments given, and the forms with the default
    length bounds. *)
Definition Required_ (id : Z) (t : WireType) (repeated : bool) (lo hi : Z) : FieldRule :=
  {| r_id := id; r_wire_type := t; r_presence := Presence_kRequired;
     r_repeated := repeated; r_minimum_length := lo; r_maximum_length := hi |}.
Definition Required (id : Z) (t : WireType) : FieldRule :=
  Required_ id t false 0 (umax 32).
Definition RequiredRepeated (id : Z) (t : WireType) : FieldRule :=
  Required_ id t true 0 (umax 32).
Definition RequiredSized (id : Z) (t : WireType) (lo hi : Z) : FieldRule :=
  Required_ id t false lo hi.

Definition OptionalSized (id : Z) (t : WireType) (lo hi : Z) : FieldRule :=
  {| r_id := id; r_wire_type := t; r_presence := Presence_kOptional;
     r_repeated := false; r_minimum_length := lo; r_maximum_length := hi |}.
Definition Optional (id : Z) (t : WireType) : FieldRule := OptionalSized id t 0 (umax 32).

Definition ConditionalSized (id : Z) (t : WireType) (lo hi : Z) : FieldRule :=
  {| r_id := id; r_wire_type := t; r_presence := Presence_kConditional;
     r_repeated := false; r_minimum_length := lo; r_maximum_length := hi |}.
Definition Conditional (id : Z) (t : WireType) : FieldRule :=
  ConditionalSized id t 0 (umax 32).

Definition kHelloSchema : list FieldRule :=
  [Required 1 kU16; Required 2 kU16; Required 3 kU16; Required 4 kU16;
   Required 5 kU8; RequiredRepeated 6 kU32; RequiredRepeated 7 kU32;
   Required 8 kU32; Required 9 kU32; Required 10 kU16].

Definition kNegotiateSchema : list FieldRule :=
  [Required 1 kU16; Required 2 kU16; RequiredRepeated 3 kU32; Required 4 kU32;
   Required 5 kU32; Required 6 kU16].

Definition kErrorSchema : list FieldRule :=
  [Required 1 kU16; Required 2 kBool; Optional 3 kBool; Optional 4 kU64;
   Optional 5 kU32; OptionalSized 6 kUtf8 0 256].

Definition kPingPongSchema : list FieldRule := [Required 1 kU64].

Definition kGoAwaySchema : list FieldRule := [Required 1 kU16; Optional 2 kU32].

Definition kTransportFinishedSchema : list FieldRule :=
  [Required 1 kU8; RequiredSized 2 kBytes 1 64].

Definition kTransferOfferSchema : list FieldRule :=
  [RequiredSized 1 kBytes 16 16; Required 2 kU32; Required 3 kU64;
   RequiredSized 4 kBytes 16 64; OptionalSized 5 kUtf8 1 255].

Definition kManifestEntrySchema : list FieldRule :=
  [RequiredSized 1 kBytes 16 16; Required 2 kU32; Required 3 kU8;
   RequiredSized 4 kUtf8 1 1024; Required 5 kU64;
   ConditionalSized 6 kBytes 16 64; Optional 7 kU64].

Definition kManifestEndSchema : list FieldRule :=
  [RequiredSized 1 kBytes 16 16; Required 2 kU32; Required 3 kU64;
   RequiredSized 4 kBytes 16 64].

Definition kTransferAcceptSchema : list FieldRule :=
  [RequiredSized 1 kBytes 16 16; Required 2 kU32; Required 3 kU32;
   ConditionalSized 4 kBytes 16 256; Conditional 5 kU32].

Definition kTransferRejectSchema : list FieldRule :=
  [RequiredSized 1 kBytes 16 16; Required 2 kU16; Required 3 kBool;
   Optional 4 kU32; OptionalSized 5 kUtf8 0 256].

Definition kFileBeginSchema : list FieldRule :=
  [RequiredSized 1 kBytes 16 16; Required 2 kU32; Required 3 kU64;
   Required 4 kU32].

Definition kFileChunkSchema : list FieldRule :=
  [RequiredSized 1 kBytes 16 16; Required 2 kU32; Required 3 kU64;
   RequiredSized 4 kBytes 1 kMaxChunkData; RequiredSized 5 kBytes 16 64].

Definition kChunkAckSchema : list FieldRule :=
  [RequiredSized 1 kBytes 16 16; Required 2 kU32; Required 3 kU64;
   Required 4 kU32].

Definition kFileEndSchema : list FieldRule :=
  [RequiredSized 1 kBytes 16 16; Required 2 kU32; Required 3 kU64;
   RequiredSized 4 kBytes 16 64].

Definition kFileCommitSchema : list FieldRule :=
  [RequiredSized 1 kBytes 16 16; Required 2 kU32; Required 3 kU64].

Definition kTransferCompleteSchema : list FieldRule :=
  [RequiredSized 1 kBytes 16 16; RequiredSized 2 kBytes 16 64].

Definition kCancelSchema : list FieldRule :=
  [RequiredSized 1 kBytes 16 16; Required 2 kU16; OptionalSized 3 kUtf8 0 256].

Definition kCancelAckSchema : list FieldRule :=
  [RequiredSized 1 kBytes 16 16; Required 2 kU16].

Definition kResumeRequestSchema : list FieldRule :=
  [RequiredSized 1 kBytes 16 16; RequiredSized 2 kBytes 16 64;
   RequiredSized 3 kBytes 16 256].

Definition kResumeStateSchema : list FieldRule :=
  [RequiredSized 1 kBytes 16 16; Required 2 kU32; Required 3 kU64;
   Required 4 kBool; ConditionalSized 5 kBytes 16 64].

Definition kResumeEndSchema : list FieldRule :=
  [RequiredSized 1 kBytes 16 16; Required 2 kU32; Required 3 kU16].

Definition SchemaFor (t : MessageType) : list FieldRule :=
  match t with
  | kHello => kHelloSchema
  | kNegotiate | kNegotiateAck => kNegotiateSchema
  | kError => kErrorSchema
  | kPing | kPong => kPingPongSchema
  | kGoAway => kGoAwaySchema
  | kTransportFinished => kTransportFinishedSchema
  | kTransferOffer => kTransferOfferSchema
  | kManifestEntry => kManifestEntrySchema
  | kManifestEnd => kManifestEndSchema
  | kTransferAccept => kTransferAcceptSchema
  | kTransferReject => kTransferRejectSchema
  | kFileBegin => kFileBeginSchema
  | kFileChunk => kFileChunkSchema
  | kChunkAck => kChunkAckSchema
  | kFileEnd => kFileEndSchema
  | kFileCommit => kFileCommitSchema
  | kTransferComplete | kTransferCompleteAck => kTransferCompleteSchema
  | kCancel => kCancelSchema
  | kCancelAck => kCancelAckSchema
  | kResumeRequest => kResumeRequestSchema
  | kResumeState => kResumeStateSchema
  | kResumeEnd => kResumeEndSchema
  | kUnset => []
  end.

Definition FindRule (schema : list FieldRule) (id : Z) : option FieldRule :=
  List.find (fun r => r_id r =? id) schema.

(** ** Wire values *)

Definition IsKnownWireType (value : Z) : bool :=
  (value >=? wire_type_code kU8) && (value <=? wire_type_code kBool).

Definition FixedWireLength (t : WireType) : Z :=
  match t with
  | kU8 | kBool => 1
  | kU16 => 2
  | kU32 => 4
  | kU64 => 8
  | kBytes | kUtf8 => 0
  end.

Definition ReadU16 (l : bytes) : Z := u16 (Z.lor (Z.shiftl (at_ l 0) 8) (at_ l 1)).
Definition ReadU32 (l : bytes) : Z := be_read 32 (take 4 l).
Definition ReadU64 (l : bytes) : Z := be_read 64 (take 8 l).

Definition DecodeUnsigned (f : FieldView) : Z := be_read 64 (f_value f).

Definition message_type_of_code (value : Z) : option MessageType :=
  List.find (fun t => message_type_code t =? value) known_message_types.

Definition IsKnownMessageType (value : Z) : bool :=
  match message_type_of_code value with Some _ => true | None => false end.

Definition IsConnectionMessage (t : MessageType) : bool :=
  match t with
  | kHello | kNegotiate | kNegotiateAck | kPing | kPong | kGoAway
  | kTransportFinished => true
  | _ => false
  end.

Definition IsTransferMessage (t : MessageType) : bool :=
  message_type_code t >=? message_type_code kTransferOffer.

Definition ValidateWireValue (t : WireType) (value : bytes) : Error :=
  let fixed_length := FixedWireLength t in
  if negb (fixed_length =? 0) && negb (bsize value =? fixed_length) then
    MakeError ErrorCode.kMalformedMessage "integer or Boolean TLV has the wrong length"
  else if bool_decide (t = kBool) && (negb (at_ value 0 =? 0) && negb (at_ value 0 =? 1))
  then MakeError ErrorCode.kMalformedMessage "Boolean TLV is not canonical"
  else if bool_decide (t = kUtf8) && negb (IsValidUtf8 value) then
    MakeError ErrorCode.kMalformedMessage "UTF-8 TLV is not well formed"
  else NoError.

(** The tests of the loop body on a field the schema knows. *)
Definition ValidateRule (rule : FieldRule) (id : Z) (wire_type : WireType) (flags : Z)
    (declared_length : Z) (output : FieldCollection) : Error :=
  let critical := negb (Z.land flags 1 =? 0) in
  if bool_decide (r_presence rule = Presence_kOptional) && critical then
    MakeError ErrorCode.kMalformedMessage "optional TLV is marked critical"
  else if negb (bool_decide (r_presence rule = Presence_kOptional)) && negb critical then
    MakeError ErrorCode.kMalformedMessage "required TLV is not marked critical"
  else if negb (bool_decide (wire_type = r_wire_type rule)) then
    MakeError ErrorCode.kMalformedMessage "TLV has the wrong wire type"
  else if (declared_length <? r_minimum_length rule) ||
          (declared_length >? r_maximum_length rule) then
    MakeError ErrorCode.kMalformedMessage "TLV length violates its schema"
  else if negb (r_repeated rule) && negb (Count output id =? 0) then
    MakeError ErrorCode.kMalformedMessage "scalar TLV is duplicated"
  else NoError.

(** [if (rule == nullptr) ... else ...] of the loop body. *)
Definition ValidateField (schema : list FieldRule) (id : Z) (wire_type : WireType)
    (flags declared_length : Z) (output : FieldCollection) : Error :=
  match FindRule schema id with
  | None =>
      if negb (Z.land flags 1 =? 0) then
        MakeError ErrorCode.kUnknownCriticalField "unknown critical TLV"
      else NoError
  | Some rule => ValidateRule rule id wire_type flags declared_length output
  end.

(** The loop of [ParseTlvs].  [rest] is the data from [offset] on, [remaining]
    is [kMaxFields - field_count], [previous] holds [previous_id] once
    [has_previous_id] is set, and [output] is the collection filled so far.
    The bound on the number of fields makes the recursion structural. *)
Fixpoint ParseTlvs_loop (remaining : nat) (schema : list FieldRule) (rest : bytes)
    (previous : option Z) (output : FieldCollection) : FieldCollection * Error :=
  match rest, remaining with
  | [], _ => (output, NoError)
  | _, O =>
      (output, MakeError ErrorCode.kLimitExceeded "TLV field count exceeds the hard limit")
  | _, S remaining =>
      if bsize rest <? 8 then
        (output, MakeError ErrorCode.kMalformedMessage "trailing partial TLV header")
      else
      let hdr := subspan rest 0 8 in
      let id := ReadU16 hdr in
      let wire_value := at_ hdr 2 in
      let flags := at_ hdr 3 in
      let declared_length := ReadU32 (subspan hdr 4 4) in
      let rest := drop 8 rest in
      if match previous with Some previous_id => id <? previous_id | None => false end then
        (output,
         MakeError ErrorCode.kMalformedMessage "TLV fields are not in canonical order")
      else if negb (IsKnownWireType wire_value) then
        (output, MakeError ErrorCode.kMalformedMessage "TLV uses a reserved wire type")
      else if negb (Z.land flags 0xfe =? 0) then
        (output, MakeError ErrorCode.kMalformedMessage "TLV uses a reserved field flag")
      else if declared_length >? bsize rest then
        (output, MakeError ErrorCode.kMalformedMessage "TLV value is truncated")
      else
      let value := subspan rest 0 declared_length in
      let rest := drop (Z.to_nat declared_length) rest in
      let wire_type := wire_type_of_code wire_value in
      let rule_error := ValidateField schema id wire_type flags declared_length output in
      if negb (error_ok rule_error) then (output, rule_error) else
      let value_error := ValidateWireValue wire_type value in
      if negb (error_ok value_error) then (output, value_error) else
      let output :=
        match FindRule schema id with
        | Some _ =>
            output ++ [{| f_id := id; f_wire_type := wire_type; f_flags := flags;
                          f_value := value |}]
        | None => output
        end in
      ParseTlvs_loop remaining schema rest (Some id) output
  end.

(** The final loop over the schema. *)
Definition RequiredAbsent (schema : list FieldRule) (output : FieldCollection) : bool :=
  existsb (fun r => bool_decide (r_presence r = Presence_kRequired)
                    && (Count output (r_id r) =? 0)) schema.

(** [ParseTlvs] with an empty output collection, as every call site has it; the
    collection is returned with the error. *)
Definition ParseTlvs (data : bytes) (schema : list FieldRule) : FieldCollection * Error :=
  let '(output, loop_error) := ParseTlvs_loop kMaxFields schema data None [] in
  if negb (error_ok loop_error) then (output, loop_error)
  else if RequiredAbsent schema output then
    (output, MakeError ErrorCode.kMalformedMessage "required TLV is absent")
  else (output, NoError).

(** ** Frames *)

Definition reject (c : ErrorCode.ErrorCode) (d : string) : ParseResult :=
  {| pr_frame := ParsedFrame_default; pr_error := MakeError c d |}.

Definition ParseFrameHeader (encoded : bytes) (expected_version : Version) : ParseResult :=
  if bsize encoded <? kFixedHeaderLength then
    reject ErrorCode.kMalformedFrame "fixed header is truncated"
  else if negb (same_bytes kMagic (take 4 encoded)) then
    reject ErrorCode.kMalformedFrame "invalid frame magic"
  else
  let header_length := ReadU16 (subspan encoded 4 2) in
  let version := {| major := at_ encoded 6; minor := at_ encoded 7 |} in
  let raw_message_type := ReadU16 (subspan encoded 8 2) in
  let flags := ReadU16 (subspan encoded 10 2) in
  let stream_id := ReadU32 (subspan encoded 12 4) in
  let message_id := ReadU64 (subspan encoded 16 8) in
  let body_length := ReadU32 (subspan encoded 24 4) in
  if header_length <? kFixedHeaderLength then
    reject ErrorCode.kMalformedFrame "header length is below the fixed header"
  else if header_length >? kMaxHeaderLength then
    reject ErrorCode.kFrameTooLarge "header length exceeds the hard limit"
  else if body_length >? kMaxBodyLength then
    reject ErrorCode.kFrameTooLarge "body length exceeds the hard limit"
  else if negb (flags =? 0) then
    reject ErrorCode.kMalformedFrame "reserved frame flags are set"
  else if message_id =? 0 then
    reject ErrorCode.kMessageIdViolation "message ID zero is invalid"
  else if negb (bool_decide (version = expected_version)) then
    reject ErrorCode.kUnsupportedVersion "frame uses an unexpected version"
  else match message_type_of_code raw_message_type with
  | None => reject ErrorCode.kUnsupportedMessage "frame uses an unknown message type"
  | Some message_type =>
    if body_length >? umax 64 - header_length then
      reject ErrorCode.kMalformedFrame "frame length overflows"
    else
    let total_size := header_length + body_length in
    if bsize encoded <? header_length then
      reject ErrorCode.kMalformedFrame "header extensions are truncated"
    else
    let extensions :=
      subspan encoded kFixedHeaderLength (header_length - kFixedHeaderLength) in
    let '(fields, tlv_error) := ParseTlvs extensions [] in
    let fr :=
      {| pf_header :=
           {| h_length := header_length; h_version := version;
              h_message_type := message_type; h_flags := flags;
              h_stream_id := stream_id; h_message_id := message_id;
              h_body_length := body_length |};
         pf_header_fields := fields; pf_body_fields := [];
         pf_total_length := total_size;
         pf_raw := subspan encoded 0 header_length;
         pf_extensions := extensions; pf_body := [] |} in
    if negb (error_ok tlv_error) then {| pr_frame := fr; pr_error := tlv_error |}
    else if IsConnectionMessage message_type && negb (stream_id =? 0) then
      {| pr_frame := fr;
         pr_error := MakeError ErrorCode.kStateViolation
                       "connection message uses a transfer stream" |}
    else if IsTransferMessage message_type && (stream_id =? 0) then
      {| pr_frame := fr;
         pr_error := MakeError ErrorCode.kStateViolation
                       "transfer message uses stream zero" |}
    else {| pr_frame := fr; pr_error := NoError |}
  end.

Definition ParseFrameEnvelope (encoded : bytes) (expected_version : Version) : ParseResult :=
  let result := ParseFrameHeader encoded expected_version in
  if negb (result_ok result) then result
  else
  let fr := pr_frame result in
  if negb (bsize encoded =? pf_total_length fr) then
    {| pr_frame := fr;
       pr_error := MakeError ErrorCode.kMalformedFrame
                     "encoded length differs from declared length" |}
  else
  let header_size := h_length (pf_header fr) in
  let body_size := h_body_length (pf_header fr) in
  {| pr_frame := fr <| pf_raw := encoded |>
                    <| pf_body := subspan encoded header_size body_size |>;
     pr_error := NoError |}.

Definition ParseFrameBody (fr : ParsedFrame) : ParsedFrame * Error :=
  if negb (bsize (pf_body fr) =? h_body_length (pf_header fr)) then
    (fr, MakeError ErrorCode.kMalformedFrame "body view differs from the declared length")
  else
  let '(fields, e) := ParseTlvs (pf_body fr) (SchemaFor (h_message_type (pf_header fr))) in
  (fr <| pf_body_fields := fields |>, e).

Definition ParseFrame (encoded : bytes) (expected_version : Version) : ParseResult :=
  let result := ParseFrameEnvelope encoded expected_version in
  if negb (result_ok result) then result
  else
  let '(fr, e) := ParseFrameBody (pr_frame result) in
  {| pr_frame := fr; pr_error := e |}.

(** The bound on the fields is a unary number: conversion unfolds it last. *)
#[global] Strategy opaque [kMaxFields].
