(* ===== verification/V1ParserProofs.v ===== *)
(** * What the v1 parser accepts

    A declarative description of TLV blocks and frames, and the proof that the
    parser of [V1Parser] accepts exactly the byte sequences it describes.  The
    description is written with the encoders' view of a field, so the same
    lemmas give the round trips of [FrameCodec]. *)

From S2P Require Import Prelude.
From S2P Require Import Utf8.
From S2P Require Import V1Parser.
Import WireType MessageType.

(** ** TLV blocks, declaratively *)

(** The bytes of one field, as [BodyBuilder::Add] writes them. *)
Definition encode_tlv (f : FieldView) : bytes :=
  be_bytes 2 (f_id f) ++ [wire_type_code (f_wire_type f); f_flags f] ++
  be_bytes 4 (bsize (f_value f)) ++ f_value f.

Definition encode_tlvs (fs : list FieldView) : bytes := concat (List.map encode_tlv fs).

(** A field that has an encoding: the widths of the TLV header, and no reserved
    flag. *)
Definition wf_tlv (f : FieldView) : Prop :=
  in_width 16 (f_id f) /\ (f_flags f = 0 \/ f_flags f = 1) /\
  in_width 32 (bsize (f_value f)) /\ all_bytes (f_value f).

(** The values a wire type has. *)
Definition valid_value (t : WireType) (v : bytes) : Prop :=
  match t with
  | kU8 => bsize v = 1
  | kU16 => bsize v = 2
  | kU32 => bsize v = 4
  | kU64 => bsize v = 8
  | kBool => v = [0] \/ v = [1]
  | kBytes => True
  | kUtf8 => exists cps, Forall permitted cps /\ v = concat (List.map utf8_encode cps)
  end.

(** A field the schema allows: an unknown field is not critical; a known one
    has the flag its presence demands, its wire type and a length in range. *)
Definition conforms (schema : list FieldRule) (f : FieldView) : Prop :=
  valid_value (f_wire_type f) (f_value f) /\
  match FindRule schema (f_id f) with
  | None => f_flags f = 0
  | Some r =>
      f_flags f = (if decide (r_presence r = Presence_kOptional) then 0 else 1) /\
      f_wire_type f = r_wire_type r /\
      r_minimum_length r <= bsize (f_value f) <= r_maximum_length r
  end.

Definition known (schema : list FieldRule) (f : FieldView) : bool :=
  match FindRule schema (f_id f) with Some _ => true | None => false end.

Definition known_fields (schema : list FieldRule) (fs : list FieldView) : FieldCollection :=
  List.filter (known schema) fs.

(** A field whose rule is not repeated has no field of its id before it. *)
Definition fresh (schema : list FieldRule) (before : FieldCollection) (f : FieldView) : Prop :=
  match FindRule schema (f_id f) with
  | Some r => r_repeated r = false -> Count before (f_id f) = 0
  | None => True
  end.

(** A canonical block: at most [kMaxFields] fields, in the order of their ids,
    each one allowed, scalar fields at most once and required ones present. *)
Record canonical (schema : list FieldRule) (fs : list FieldView) : Prop := {
  canonical_count : (length fs <= kMaxFields)%nat;
  canonical_sorted : StronglySorted (fun f g => f_id f <= f_id g) fs;
  canonical_wf : Forall wf_tlv fs;
  canonical_conforms : Forall (conforms schema) fs;
  canonical_scalar : forall id r, FindRule schema id = Some r -> r_repeated r = false ->
    Count fs id <= 1;
  canonical_required : forall r, In r schema -> r_presence r = Presence_kRequired ->
    1 <= Count fs (r_id r);
}.

(** ** Reading one field *)

Lemma ReadU16_be l : all_bytes l -> 2 <= bsize l -> ReadU16 l = be_value (take 2 l).
Proof.
  intros Hl Hs. destruct l as [| a [| b l]]; [done | done |].
  apply Forall_cons_1 in Hl as [Ha Hl]. apply Forall_cons_1 in Hl as [Hb _].
  change (ReadU16 (a :: b :: l)) with (u16 (Z.lor (Z.shiftl a 8) b)).
  rewrite lor_shiftl_add by (unfold is_byte in *; widths).
  change (be_value (take 2 (a :: b :: l))) with ((0 * 256 + a) * 256 + b).
  rewrite wrap_small; unfold is_byte in *; widths.
Qed.

Lemma ReadU32_be l : all_bytes l -> ReadU32 l = be_value (take 4 l).
Proof.
  intros. apply be_read_value; [lia | by apply Forall_take |].
  unfold bsize. rewrite length_take. lia.
Qed.

Lemma ReadU64_be l : all_bytes l -> ReadU64 l = be_value (take 8 l).
Proof.
  intros. apply be_read_value; [lia | by apply Forall_take |].
  unfold bsize. rewrite length_take. lia.
Qed.

Lemma DecodeUnsigned_be f :
  all_bytes (f_value f) -> bsize (f_value f) <= 8 -> DecodeUnsigned f = be_value (f_value f).
Proof. intros. apply be_read_value; [lia | done | lia]. Qed.

(** The TLV header at the head of a span, as the loop reads it. *)
Record tlv_header := { th_id : Z; th_wire : Z; th_flags : Z; th_length : Z }.

Definition read_tlv_header (rest : bytes) : tlv_header :=
  let hdr := subspan rest 0 8 in
  {| th_id := ReadU16 hdr; th_wire := at_ hdr 2; th_flags := at_ hdr 3;
     th_length := ReadU32 (subspan hdr 4 4) |}.

Definition write_tlv_header (h : tlv_header) : bytes :=
  be_bytes 2 (th_id h) ++ [th_wire h; th_flags h] ++ be_bytes 4 (th_length h).

Lemma be_bytes_take n l :
  all_bytes l -> (n <= length l)%nat -> be_bytes n (be_value (take n l)) = take n l.
Proof.
  intros Hl Hn. rewrite <- (be_bytes_value (take n l)) at 2 by by apply Forall_take.
  by rewrite length_take, Nat.min_l.
Qed.

Lemma be_value_width n l :
  all_bytes l -> bsize l = Z.of_nat n -> 0 <= be_value l < 256 ^ Z.of_nat n.
Proof. intros Hl Hn. rewrite <- Hn. by apply be_value_range. Qed.

Lemma read_tlv_header_spec rest :
  all_bytes rest -> 8 <= bsize rest ->
  rest = write_tlv_header (read_tlv_header rest) ++ drop 8 rest /\
  in_width 16 (th_id (read_tlv_header rest)) /\ is_byte (th_wire (read_tlv_header rest)) /\
  is_byte (th_flags (read_tlv_header rest)) /\ in_width 32 (th_length (read_tlv_header rest)).
Proof.
  intros Hr Hs.
  destruct rest as [| b0 [| b1 [| b2 [| b3 [| b4 [| b5 [| b6 [| b7 r]]]]]]]]; try done.
  unfold read_tlv_header. change (subspan _ 0 8) with [b0; b1; b2; b3; b4; b5; b6; b7].
  change (subspan _ 4 4) with [b4; b5; b6; b7].
  change (drop 8 _) with r. change (at_ _ 2) with b2. change (at_ _ 3) with b3.
  set (hd := [b0; b1; b2; b3; b4; b5; b6; b7]) in *.
  change (all_bytes (hd ++ r)) in Hr. apply all_bytes_app in Hr as [Hh _].
  assert (Hl : all_bytes [b4; b5; b6; b7]) by (apply (Forall_drop _ 4 hd Hh)).
  rewrite (ReadU16_be hd) by done. rewrite (ReadU32_be [b4; b5; b6; b7]) by done.
  change (take 4 [b4; b5; b6; b7]) with [b4; b5; b6; b7].
  unfold write_tlv_header. cbn [th_id th_wire th_flags th_length].
  rewrite (be_bytes_take 2 hd) by (done || (simpl; lia)).
  rewrite (be_bytes_value [b4; b5; b6; b7] Hl : be_bytes 4 _ = _).
  pose proof (be_value_width 2 (take 2 hd) (Forall_take _ 2 hd Hh) eq_refl).
  apply (Forall_drop _ 2 hd), Forall_cons_1 in Hh as [Hb2 [Hb3 _]%Forall_cons_1].
  split; [done |]. split; [done |]. split; [done |]. split; [done |].
  by apply (be_value_width 4).
Qed.

Lemma length_write_tlv_header h : length (write_tlv_header h) = 8%nat.
Proof. unfold write_tlv_header. by rewrite !length_app, !length_be_bytes. Qed.

Lemma read_write_tlv_header h r :
  in_width 16 (th_id h) -> is_byte (th_wire h) -> is_byte (th_flags h) ->
  in_width 32 (th_length h) ->
  read_tlv_header (write_tlv_header h ++ r) = h.
Proof.
  intros Hi Hw Hf Hl. unfold read_tlv_header.
  rewrite subspan_app_l by (unfold bsize; by rewrite length_write_tlv_header).
  assert (Hid : take 2 (write_tlv_header h) = be_bytes 2 (th_id h))
    by (apply (take_app_length' _ _ 2); by rewrite length_be_bytes).
  assert (Hlen : subspan (write_tlv_header h) 4 4 = be_bytes 4 (th_length h)).
  { unfold write_tlv_header. rewrite app_assoc. apply subspan_app_r;
      rewrite ?bsize_app, ?bsize_be_bytes; done. }
  assert (Hb : all_bytes (write_tlv_header h)).
  { unfold write_tlv_header. rewrite !all_bytes_app. split; [auto with xnn |].
    split; [by constructor; [| constructor] | auto with xnn]. }
  rewrite ReadU16_be by (done || (unfold bsize; rewrite length_write_tlv_header; lia)).
  rewrite Hid, Hlen, ReadU32_be, be_value_bytes by (auto with xnn).
  rewrite take_ge, be_value_bytes by (rewrite ?length_be_bytes; done).
  by destruct h.
Qed.

(** ** Testing one field *)

Lemma error_ok_true e : error_ok e = true <-> err_code e = ErrorCode.kNone.
Proof. apply bool_decide_eq_true. Qed.

Lemma error_ok_NoError : error_ok NoError = true.
Proof. reflexivity. Qed.

Lemma wire_type_of_code_code t : wire_type_of_code (wire_type_code t) = t.
Proof. by destruct t. Qed.

Lemma IsKnownWireType_code t : IsKnownWireType (wire_type_code t) = true.
Proof. by destruct t. Qed.

Lemma wire_type_code_of_code v :
  IsKnownWireType v = true -> wire_type_code (wire_type_of_code v) = v.
Proof.
  unfold IsKnownWireType. simpl. intros. bool_facts.
  assert (v = 1 \/ v = 2 \/ v = 3 \/ v = 4 \/ v = 5 \/ v = 6 \/ v = 7)
    as [-> | [-> | [-> | [-> | [-> | [-> | ->]]]]]] by lia; done.
Qed.

Lemma wire_type_code_byte t : is_byte (wire_type_code t).
Proof. destruct t; unfold is_byte; simpl; widths. Qed.

Lemma flags_allowed b :
  is_byte b -> (Z.land b 0xfe =? 0) = (b =? 0) || (b =? 1).
Proof.
  intros Hb. apply eqb_prop. revert b Hb. apply byte_forall. vm_compute. reflexivity.
Qed.

Lemma flags_byte f : wf_tlv f -> is_byte (f_flags f).
Proof. intros (_ & [-> | ->] & _); unfold is_byte; widths. Qed.

Lemma bool_value v :
  bsize v = 1 ->
  (negb (at_ v 0 =? 0) && negb (at_ v 0 =? 1) = false <-> v = [0] \/ v = [1]).
Proof.
  intros Hv. destruct v as [| b [| c v]]; [done | |]; cycle 1.
  { rewrite !bsize_cons in Hv. pose proof (bsize_nonneg v). lia. }
  change (at_ [b] 0) with b. split.
  - intros H. apply andb_false_iff in H as [H | H]; bool_facts; subst; auto.
  - intros [[= ->] | [= ->]]; done.
Qed.

Lemma ValidateWireValue_ok t v :
  all_bytes v -> error_ok (ValidateWireValue t v) = true <-> valid_value t v.
Proof.
  intros Hv. unfold ValidateWireValue.
  destruct t; cbn [FixedWireLength valid_value];
    repeat first [rewrite bool_decide_false by done | rewrite bool_decide_true by done];
    cbn [andb negb Z.eqb].
  1-4: split_if; bool_facts; by split.
  - by split.
  - rewrite <- (IsValidUtf8_iff v Hv). by destruct (IsValidUtf8 v).
  - destruct (Z.eqb_spec (bsize v) (Z.pos 1)) as [H1 | H1]; cbn [negb].
    + rewrite <- (bool_value v H1). by destruct (negb _ && negb _).
    + split; [done |]. by intros [-> | ->].
Qed.

Lemma critical_flag f : wf_tlv f -> negb (Z.land (f_flags f) 1 =? 0) = (f_flags f =? 1).
Proof. by intros (_ & [-> | ->] & _). Qed.

(** The rule part of [conforms], with [fresh]. *)
Lemma ValidateField_ok schema out f :
  wf_tlv f ->
  error_ok (ValidateField schema (f_id f) (f_wire_type f) (f_flags f)
              (bsize (f_value f)) out) = true <->
  match FindRule schema (f_id f) with
  | None => f_flags f = 0
  | Some r =>
      f_flags f = (if decide (r_presence r = Presence_kOptional) then 0 else 1) /\
      f_wire_type f = r_wire_type r /\
      r_minimum_length r <= bsize (f_value f) <= r_maximum_length r
  end /\ fresh schema out f.
Proof.
  intros Hf. unfold ValidateField, fresh.
  destruct (FindRule schema (f_id f)) as [r |]; unfold ValidateRule;
    rewrite critical_flag by done; destruct Hf as (_ & [Hz | Hz] & _); rewrite Hz;
    cbn [Z.eqb Pos.eqb negb]; [| | by split; [split |] | by split; [| intros [? _]]].
  all: destruct (decide (r_presence r = Presence_kOptional)) as [Hp | Hp];
    [rewrite bool_decide_true by done | rewrite bool_decide_false by done];
    cbn [andb negb]; try (split; [done | by intros [[? _] _]]).
  all: destruct (decide (f_wire_type f = r_wire_type r)) as [Ht | Ht];
    [rewrite bool_decide_true by done | rewrite bool_decide_false by done];
    cbn [andb negb]; [| by split; [| intros [(_ & ? & _) _]]].
  all: destruct ((bsize (f_value f) <? r_minimum_length r)
                 || (bsize (f_value f) >? r_maximum_length r)) eqn:El;
    [split; [done | intros [(_ & _ & ?) _]; apply orb_true_iff in El as [El | El];
                    bool_facts; lia] |].
  all: bool_facts; destruct (r_repeated r); cbn [andb negb]; [by split |].
  all: destruct (Z.eqb_spec (Count out (f_id f)) 0) as [Hc | Hc]; cbn [negb];
    [by split | split; [done | intros [_ Hn]; by specialize (Hn eq_refl)]].
Qed.

(** ** The loop *)

Definition prev_le (previous : option Z) (id : Z) : Prop :=
  match previous with Some p => p <= id | None => True end.

Definition add_known (schema : list FieldRule) (out : FieldCollection) (f : FieldView)
    : FieldCollection := if known schema f then out ++ [f] else out.

(** What the loop demands of the fields still to come, in its state. *)
Fixpoint accepts (schema : list FieldRule) (previous : option Z) (out : FieldCollection)
    (fs : list FieldView) : Prop :=
  match fs with
  | [] => True
  | f :: fs =>
      prev_le previous (f_id f) /\ wf_tlv f /\ conforms schema f /\ fresh schema out f /\
      accepts schema (Some (f_id f)) (add_known schema out f) fs
  end.

Definition tlv_header_of (f : FieldView) : tlv_header :=
  {| th_id := f_id f; th_wire := wire_type_code (f_wire_type f); th_flags := f_flags f;
     th_length := bsize (f_value f) |}.

Lemma encode_tlv_split f : encode_tlv f = write_tlv_header (tlv_header_of f) ++ f_value f.
Proof.
  unfold encode_tlv, write_tlv_header, tlv_header_of.
  cbn [th_id th_wire th_flags th_length]. by rewrite <- !app_assoc.
Qed.

Lemma bsize_encode_tlv f : bsize (encode_tlv f) = 8 + bsize (f_value f).
Proof.
  rewrite encode_tlv_split, bsize_app. unfold bsize at 1.
  by rewrite length_write_tlv_header.
Qed.

Lemma read_encode_tlv f r :
  wf_tlv f -> read_tlv_header (encode_tlv f ++ r) = tlv_header_of f.
Proof.
  intros Hf. rewrite encode_tlv_split, <- app_assoc.
  apply read_write_tlv_header; [apply Hf | apply wire_type_code_byte | | apply Hf].
  by apply flags_byte.
Qed.

Lemma add_known_app schema out f fs :
  add_known schema out f ++ known_fields schema fs = out ++ known_fields schema (f :: fs).
Proof.
  unfold add_known, known_fields. cbn. destruct (known schema f); [| done].
  by rewrite <- app_assoc.
Qed.

(** One iteration on the encoding of a field. *)
Lemma ParseTlvs_loop_field n schema f r previous out :
  wf_tlv f -> prev_le previous (f_id f) -> conforms schema f -> fresh schema out f ->
  ParseTlvs_loop (S n) schema (encode_tlv f ++ r) previous out =
  ParseTlvs_loop n schema r (Some (f_id f)) (add_known schema out f).
Proof.
  intros Hwf Hprev [Hval Hrule] Hfresh.
  pose proof (read_encode_tlv f r Hwf) as Hread.
  assert (Hsize : bsize (encode_tlv f ++ r) = 8 + bsize (f_value f) + bsize r)
    by (rewrite bsize_app, bsize_encode_tlv; lia).
  pose proof (bsize_nonneg (f_value f)). pose proof (bsize_nonneg r).
  assert (Hdrop : drop 8 (encode_tlv f ++ r) = f_value f ++ r).
  { rewrite encode_tlv_split, <- app_assoc. apply (drop_app_length' _ _ 8).
    by rewrite length_write_tlv_header. }
  destruct (encode_tlv f ++ r) as [| b rest] eqn:Erest; [rewrite bsize_nil in Hsize; lia |].
  unfold read_tlv_header, tlv_header_of in Hread. injection Hread as Hid Hw Hfl Hlen.
  cbn [ParseTlvs_loop]. cbv zeta. rewrite Hsize, Hid, Hw, Hfl, Hlen, Hdrop.
  replace (_ <? 8) with false by lia.
  replace (match previous with Some p => f_id f <? p | None => false end) with false
    by (destruct previous; simpl in Hprev; lia).
  rewrite IsKnownWireType_code, flags_allowed, wire_type_of_code_code by by apply flags_byte.
  replace ((f_flags f =? 0) || (f_flags f =? 1)) with true
    by (destruct Hwf as (_ & [-> | ->] & _); done).
  rewrite bsize_app, subspan_app_l, drop_app_bsize by done.
  replace (_ >? _) with false by lia. cbn [negb].
  rewrite (proj2 (ValidateField_ok schema out f Hwf) (conj Hrule Hfresh)).
  rewrite (proj2 (ValidateWireValue_ok _ _ (proj2 (proj2 (proj2 Hwf)))) Hval). cbn [negb].
  f_equal. unfold add_known, known. destruct (FindRule schema (f_id f)); [| done].
  by destruct f.
Qed.

Lemma ParseTlvs_loop_complete n schema fs previous out :
  accepts schema previous out fs -> (length fs <= n)%nat ->
  ParseTlvs_loop n schema (encode_tlvs fs) previous out
  = (out ++ known_fields schema fs, NoError).
Proof.
  revert n previous out. induction fs as [| f fs IH]; intros n previous out Ha Hn.
  { cbn. rewrite app_nil_r. by destruct n. }
  destruct Ha as (Hp & Hw & Hc & Hf & Ha). destruct n as [| n]; [simpl in Hn; lia |].
  unfold encode_tlvs. cbn [List.map concat]. rewrite ParseTlvs_loop_field by done.
  fold (encode_tlvs fs). rewrite IH by (done || simpl in Hn; lia).
  by rewrite add_known_app.
Qed.

(** The field an iteration has read, from the tests it passed. *)
Lemma ParseTlvs_loop_inv n schema rest previous out out' e :
  all_bytes rest -> rest <> [] ->
  ParseTlvs_loop (S n) schema rest previous out = (out', e) -> error_ok e = true ->
  exists f r, rest = encode_tlv f ++ r /\ prev_le previous (f_id f) /\ wf_tlv f /\
    conforms schema f /\ fresh schema out f /\
    ParseTlvs_loop n schema r (Some (f_id f)) (add_known schema out f) = (out', e).
Proof.
  intros Hb Hne H He. destruct rest as [| b0 rest0] eqn:Erest; [done |].
  rewrite <- Erest in Hb. cbn [ParseTlvs_loop] in H. rewrite <- Erest in *. cbv zeta in H.
  split_if_in H; [inv H; done |].
  split_if_in H; [inv H; done |]. split_if_in H; [inv H; done |].
  split_if_in H; [inv H; done |]. split_if_in H; [inv H; done |].
  destruct (read_tlv_header_spec rest Hb) as (Hsplit & Hid & Hw & Hfl & Hlen);
    [bool_facts; lia |].
  unfold read_tlv_header in *. cbn [th_id th_wire th_flags th_length] in *.
  set (id := ReadU16 _) in *. set (wv := at_ _ 2) in *. set (fl := at_ _ 3) in *.
  set (len := ReadU32 _) in *. set (r1 := drop 8 rest) in *.
  set (f := {| f_id := id; f_wire_type := wire_type_of_code wv; f_flags := fl;
               f_value := subspan r1 0 len |}).
  rewrite flags_allowed in E2 by done. bool_facts.
  assert (Hlen0 : 0 <= len) by (unfold in_width in Hlen; lia).
  assert (Hval : bsize (subspan r1 0 len) = len) by (apply bsize_subspan; lia).
  assert (Hwf : wf_tlv f).
  { split; [done |]. split; [cbn; destruct (orb_true_elim _ _ E2); bool_facts; auto |].
    cbn. rewrite Hval. split; [done |]. by apply all_bytes_subspan, all_bytes_drop. }
  split_if_in H; [inv H; bool_facts; congruence |].
  split_if_in H; [inv H; bool_facts; congruence |]. bool_facts.
  rewrite <- Hval in E4.
  apply (ValidateField_ok schema out f Hwf) in E4 as [Hrule Hfresh].
  apply (ValidateWireValue_ok _ _ (proj2 (proj2 (proj2 Hwf)))) in E5 as Hvv.
  exists f, (drop (Z.to_nat len) r1). split.
  { rewrite encode_tlv_split. unfold tlv_header_of. cbn [f_id f_wire_type f_flags f_value f].
    rewrite wire_type_code_of_code, Hval, <- app_assoc, <- subspan_split by done.
    exact Hsplit. }
  split; [destruct previous; [bool_facts; done | done] |].
  split; [done |]. split; [done |]. split; [done |].
  rewrite <- H. f_equal. unfold add_known, known. cbn. by destruct (FindRule schema id).
Qed.

Lemma ParseTlvs_loop_sound n schema rest previous out out' e :
  all_bytes rest -> ParseTlvs_loop n schema rest previous out = (out', e) ->
  error_ok e = true ->
  exists fs, (length fs <= n)%nat /\ rest = encode_tlvs fs /\
    accepts schema previous out fs /\ out' = out ++ known_fields schema fs.
Proof.
  revert rest previous out. induction n as [| n IH]; intros rest previous out Hb H He.
  - destruct rest; [| inv H; done]. inv H. exists []. by rewrite app_nil_r.
  - destruct (decide (rest = [])) as [-> | Hne].
    { inv H. exists []. rewrite app_nil_r. split; [simpl; lia | done]. }
    apply ParseTlvs_loop_inv in H as (f & r & -> & ? & ? & ? & ? & H); [| done..].
    apply all_bytes_app in Hb as [_ Hb].
    apply IH in H as (fs & Hlen & -> & Ha & ->); [| done..].
    exists (f :: fs). split; [simpl; lia |]. split; [done |]. split; [done |].
    apply add_known_app.
Qed.

(** ** Canonical blocks *)

Lemma Count_nonneg fs id : 0 <= Count fs id.
Proof. induction fs as [| f fs IH]; cbn; [lia |]. destruct (_ =? _); lia. Qed.

Lemma Count_app fs gs id : Count (fs ++ gs) id = Count fs id + Count gs id.
Proof. induction fs as [| f fs IH]; cbn; lia. Qed.

Lemma Count_filter_known schema fs id :
  is_Some (FindRule schema id) -> Count (known_fields schema fs) id = Count fs id.
Proof.
  intros [r Hr]. induction fs as [| f fs IH]; [done |].
  unfold known_fields in *. cbn [List.filter Count].
  destruct (Z.eqb_spec (f_id f) id) as [<- | Hne].
  - unfold known at 1. rewrite Hr. cbn [Count]. rewrite Z.eqb_refl. lia.
  - destruct (known schema f); [| lia]. cbn [Count].
    destruct (Z.eqb_spec (f_id f) id); [done | lia].
Qed.

Lemma FindRule_self schema r : In r schema -> is_Some (FindRule schema (r_id r)).
Proof.
  intros Hin. unfold FindRule. destruct (List.find _ schema) eqn:E; [eauto |].
  exfalso. eapply List.find_none in E; [| exact Hin]. cbv beta in E. by rewrite Z.eqb_refl in E.
Qed.

Lemma Count_add_known schema out f id :
  is_Some (FindRule schema id) ->
  Count (add_known schema out f) id = Count out id + Count [f] id.
Proof.
  intros [r Hr]. unfold add_known, known. cbn [Count].
  destruct (Z.eqb_spec (f_id f) id) as [<- | Hne].
  - rewrite Hr, Count_app. cbn [Count]. rewrite Z.eqb_refl. lia.
  - destruct (FindRule schema (f_id f)); [| lia]. rewrite Count_app. cbn [Count].
    destruct (Z.eqb_spec (f_id f) id); [done | lia].
Qed.

(** Scalar fields occur at most once, those already read included. *)
Definition scalar_once (schema : list FieldRule) (out : FieldCollection)
    (fs : list FieldView) : Prop :=
  forall id r, FindRule schema id = Some r -> r_repeated r = false ->
    Count fs id = 0 \/ Count out id + Count fs id <= 1.

Lemma scalar_once_cons schema out f fs :
  scalar_once schema out (f :: fs) <->
  fresh schema out f /\ scalar_once schema (add_known schema out f) fs.
Proof.
  unfold scalar_once, fresh. split.
  - intros H. split.
    + destruct (FindRule schema (f_id f)) as [r |] eqn:Er; [| done]. intros Hrep.
      specialize (H _ _ Er Hrep). cbn [Count] in H. rewrite Z.eqb_refl in H.
      pose proof (Count_nonneg fs (f_id f)). pose proof (Count_nonneg out (f_id f)). lia.
    + intros id r Er Hrep. specialize (H _ _ Er Hrep).
      rewrite (Count_add_known schema) by eauto. cbn [Count] in *.
      pose proof (Count_nonneg fs id). destruct (f_id f =? id); lia.
  - intros [Hf H] id r Er Hrep. specialize (H _ _ Er Hrep).
    rewrite (Count_add_known schema) in H by eauto. cbn [Count] in *.
    pose proof (Count_nonneg fs id).
    destruct (Z.eqb_spec (f_id f) id) as [Heq | Hne]; [| lia].
    rewrite Heq, Er in Hf. specialize (Hf Hrep). lia.
Qed.

Lemma accepts_iff schema previous out fs :
  accepts schema previous out fs <->
  StronglySorted (fun f g => f_id f <= f_id g) fs /\
  Forall (fun f => prev_le previous (f_id f)) fs /\
  Forall wf_tlv fs /\ Forall (conforms schema) fs /\ scalar_once schema out fs.
Proof.
  revert previous out. induction fs as [| f fs IH]; intros previous out; cbn [accepts].
  { split; [intros _ | done]. split; [constructor |]. split; [done |]. split; [done |].
    split; [done |]. intros ? ? ? ?. by left. }
  rewrite IH, scalar_once_cons, !list.Forall_cons. split.
  - intros (Hp & Hw & Hc & Hf & Hs & Hle & Hws & Hcs & Ho).
    split; [by constructor |]. split_and!; try done.
    eapply Forall_impl; [| exact Hle]. intros g Hg. destruct previous; simpl in *; lia.
  - intros (Hs & (Hp & _) & (Hw & Hws) & (Hc & Hcs) & (Hf & Ho)).
    apply StronglySorted_inv in Hs as [Hs Hle]. split_and!; done.
Qed.

Lemma RequiredAbsent_false schema out :
  RequiredAbsent schema out = false <->
  forall r, In r schema -> r_presence r = Presence_kRequired -> 1 <= Count out (r_id r).
Proof.
  unfold RequiredAbsent. rewrite <- not_true_iff_false, existsb_exists. split.
  - intros H r Hin Hp. pose proof (Count_nonneg out (r_id r)).
    destruct (Z.eq_dec (Count out (r_id r)) 0) as [Hz |]; [| lia].
    exfalso. apply H. exists r. split; [done |]. rewrite bool_decide_true by done. by rewrite Hz.
  - intros H (r & Hin & Hb). apply andb_true_iff in Hb as [Hp Hz].
    apply bool_decide_eq_true in Hp. specialize (H r Hin Hp). bool_facts. lia.
Qed.

(** [accepts] from the initial state and the final test are [canonical]. *)
Lemma canonical_accepts schema fs :
  canonical schema fs <->
  (length fs <= kMaxFields)%nat /\ accepts schema None [] fs /\
  RequiredAbsent schema (known_fields schema fs) = false.
Proof.
  rewrite accepts_iff, RequiredAbsent_false. split.
  - intros [Hn Hs Hw Hc Hsc Hr]. split_and!; try done.
    + by apply Forall_forall.
    + intros id r Er Hrep. right. cbn. by eapply Hsc.
    + intros r Hin Hp. rewrite Count_filter_known by by apply FindRule_self. auto.
  - intros (Hn & (Hs & _ & Hw & Hc & Ho) & Hr). split; try done.
    + intros id r Er Hrep. destruct (Ho id r Er Hrep) as [-> | H]; [lia | exact H].
    + intros r Hin Hp. rewrite <- (Count_filter_known schema) by by apply FindRule_self. auto.
Qed.

Lemma ParseTlvs_canonical schema fs :
  canonical schema fs -> ParseTlvs (encode_tlvs fs) schema = (known_fields schema fs, NoError).
Proof.
  rewrite canonical_accepts. intros (Hn & Ha & Hr). unfold ParseTlvs.
  rewrite ParseTlvs_loop_complete by done. cbn [app].
  by rewrite error_ok_NoError, Hr.
Qed.

Lemma ParseTlvs_inv data schema out e :
  all_bytes data -> ParseTlvs data schema = (out, e) -> error_ok e = true ->
  exists fs, data = encode_tlvs fs /\ canonical schema fs /\ out = known_fields schema fs.
Proof.
  intros Hb H He. unfold ParseTlvs in H.
  destruct (ParseTlvs_loop _ _ _ _ _) as [out0 e0] eqn:El.
  split_if_in H; [inv H; bool_facts; congruence |].
  split_if_in H; [by inv H |]. inv H. bool_facts.
  apply ParseTlvs_loop_sound in El as (fs & Hn & -> & Ha & ->); [| done..].
  exists fs. split; [done |]. rewrite canonical_accepts. done.
Qed.

(** The success of [ParseTlvs] with output [out]. *)
Definition tlvs_parsed (data : bytes) (schema : list FieldRule) (out : FieldCollection) : Prop :=
  exists e, ParseTlvs data schema = (out, e) /\ error_ok e = true.

Lemma tlvs_parsed_iff data schema out :
  all_bytes data ->
  tlvs_parsed data schema out <->
  exists fs, data = encode_tlvs fs /\ canonical schema fs /\ out = known_fields schema fs.
Proof.
  intros Hb. split.
  - intros (e & H & He). by eapply ParseTlvs_inv.
  - intros (fs & -> & Hc & ->). exists NoError. split; [by apply ParseTlvs_canonical | done].
Qed.

(** ** Frames, declaratively *)

(** The 28 bytes of a fixed header, as [EncodeFrame] writes them. *)
Definition encode_header (h : FrameHeader) : bytes :=
  kMagic ++ be_bytes 2 (h_length h) ++ [major (h_version h); minor (h_version h)] ++
  be_bytes 2 (message_type_code (h_message_type h)) ++ be_bytes 2 (h_flags h) ++
  be_bytes 4 (h_stream_id h) ++ be_bytes 8 (h_message_id h) ++ be_bytes 4 (h_body_length h).

(** A message belongs to the connection, to a transfer stream, or (an error) to
    either one. *)
Definition stream_scope (h : FrameHeader) : Prop :=
  (IsConnectionMessage (h_message_type h) = true -> h_stream_id h = 0) /\
  (IsTransferMessage (h_message_type h) = true -> h_stream_id h <> 0).

Record wf_header (v : Version) (h : FrameHeader) : Prop := {
  wfh_length : kFixedHeaderLength <= h_length h <= kMaxHeaderLength;
  wfh_version : h_version h = v;
  wfh_type : In (h_message_type h) known_message_types;
  wfh_flags : h_flags h = 0;
  wfh_stream : in_width 32 (h_stream_id h);
  wfh_message_id : 0 < h_message_id h < 2 ^ 64;
  wfh_body_length : 0 <= h_body_length h <= kMaxBodyLength;
  wfh_scope : stream_scope h;
}.

(** What [ParseFrame] returns for a header, extension fields and body fields. *)
Definition parsed_frame (h : FrameHeader) (exts fields : list FieldView) : ParsedFrame :=
  {| pf_header := h;
     pf_header_fields := [];
     pf_body_fields := known_fields (SchemaFor (h_message_type h)) fields;
     pf_total_length := h_length h + h_body_length h;
     pf_raw := encode_header h ++ encode_tlvs exts ++ encode_tlvs fields;
     pf_extensions := encode_tlvs exts;
     pf_body := encode_tlvs fields |}.

(** A version-[v] frame with extension fields [exts] and body fields [fields]. *)
Record wf_frame (v : Version) (h : FrameHeader) (exts fields : list FieldView) : Prop := {
  wff_header : wf_header v h;
  wff_exts : canonical [] exts;
  wff_exts_length : kFixedHeaderLength + bsize (encode_tlvs exts) = h_length h;
  wff_fields : canonical (SchemaFor (h_message_type h)) fields;
  wff_fields_length : bsize (encode_tlvs fields) = h_body_length h;
}.

(** ** Reading the fixed header *)

(** The integers of the fixed header, as [ParseFrameHeader] reads them. *)
Record raw_header := {
  rh_length : Z; rh_major : Z; rh_minor : Z; rh_type : Z; rh_flags : Z;
  rh_stream : Z; rh_message_id : Z; rh_body : Z;
}.

Definition read_raw_header (l : bytes) : raw_header :=
  {| rh_length := ReadU16 (subspan l 4 2); rh_major := at_ l 6; rh_minor := at_ l 7;
     rh_type := ReadU16 (subspan l 8 2); rh_flags := ReadU16 (subspan l 10 2);
     rh_stream := ReadU32 (subspan l 12 4); rh_message_id := ReadU64 (subspan l 16 8);
     rh_body := ReadU32 (subspan l 24 4) |}.

Definition write_raw_header (h : raw_header) : bytes :=
  be_bytes 2 (rh_length h) ++ [rh_major h; rh_minor h] ++ be_bytes 2 (rh_type h) ++
  be_bytes 2 (rh_flags h) ++ be_bytes 4 (rh_stream h) ++ be_bytes 8 (rh_message_id h) ++
  be_bytes 4 (rh_body h).

Record wf_raw_header (h : raw_header) : Prop := {
  wfr_length : in_width 16 (rh_length h);
  wfr_major : is_byte (rh_major h);
  wfr_minor : is_byte (rh_minor h);
  wfr_type : in_width 16 (rh_type h);
  wfr_flags : in_width 16 (rh_flags h);
  wfr_stream : in_width 32 (rh_stream h);
  wfr_message_id : in_width 64 (rh_message_id h);
  wfr_body : in_width 32 (rh_body h);
}.

Lemma drop_chop (l : bytes) o n :
  drop o l = subspan l (Z.of_nat o) (Z.of_nat n) ++ drop (o + n) l.
Proof.
  unfold subspan. rewrite !Nat2Z.id, <- drop_drop. symmetry. apply take_drop.
Qed.

Lemma at_subspan l i :
  0 <= i < bsize l -> subspan l i 1 = [at_ l i].
Proof.
  intros Hi. unfold subspan, at_, bsize in *.
  destruct (lookup_lt_is_Some_2 l (Z.to_nat i)) as [x Hx]; [lia |].
  rewrite (drop_S l x _ Hx). cbn. f_equal.
  rewrite (nth_lookup l), Hx. done.
Qed.

Lemma at_byte l i : all_bytes l -> is_byte (at_ l i).
Proof.
  intros Hl. unfold at_. rewrite nth_lookup.
  destruct (l !! _) as [x |] eqn:E; [| unfold is_byte; cbn; widths].
  by apply (Forall_lookup_1 _ _ _ _ Hl E).
Qed.

#[local] Hint Resolve at_byte : xnn.

Lemma ReadU16_span l :
  all_bytes l -> bsize l = 2 -> be_bytes 2 (ReadU16 l) = l /\ in_width 16 (ReadU16 l).
Proof.
  intros Hl Hs. rewrite ReadU16_be by (done || lia).
  rewrite take_ge by (unfold bsize in Hs; lia).
  replace 2%nat with (length l) by (unfold bsize in Hs; lia).
  split; [by apply be_bytes_value |]. by apply (be_value_width 2).
Qed.

Lemma ReadU32_span l :
  all_bytes l -> bsize l = 4 -> be_bytes 4 (ReadU32 l) = l /\ in_width 32 (ReadU32 l).
Proof.
  intros Hl Hs. rewrite ReadU32_be by (done || lia).
  rewrite take_ge by (unfold bsize in Hs; lia).
  replace 4%nat with (length l) by (unfold bsize in Hs; lia).
  split; [by apply be_bytes_value |]. by apply (be_value_width 4).
Qed.

Lemma ReadU64_span l :
  all_bytes l -> bsize l = 8 -> be_bytes 8 (ReadU64 l) = l /\ in_width 64 (ReadU64 l).
Proof.
  intros Hl Hs. rewrite ReadU64_be by (done || lia).
  rewrite take_ge by (unfold bsize in Hs; lia).
  replace 8%nat with (length l) by (unfold bsize in Hs; lia).
  split; [by apply be_bytes_value |]. by apply (be_value_width 8).
Qed.

Lemma ReadU16_bytes v : in_width 16 v -> ReadU16 (be_bytes 2 v) = v.
Proof.
  intros. rewrite ReadU16_be by (auto with xnn; by rewrite bsize_be_bytes).
  rewrite take_ge by (by rewrite length_be_bytes). by apply be_value_bytes.
Qed.

Lemma ReadU32_bytes v : in_width 32 v -> ReadU32 (be_bytes 4 v) = v.
Proof.
  intros. rewrite ReadU32_be by (auto with xnn).
  rewrite take_ge by (by rewrite length_be_bytes). by apply be_value_bytes.
Qed.

Lemma ReadU64_bytes v : in_width 64 v -> ReadU64 (be_bytes 8 v) = v.
Proof.
  intros. rewrite ReadU64_be by (auto with xnn).
  rewrite take_ge by (by rewrite length_be_bytes). by apply be_value_bytes.
Qed.

Lemma read_raw_header_spec l :
  all_bytes l -> 28 <= bsize l ->
  l = take 4 l ++ write_raw_header (read_raw_header l) ++ drop 28 l /\
  wf_raw_header (read_raw_header l).
Proof.
  intros Hl Hs.
  assert (Hsub : forall o n, 0 <= o -> 0 <= n -> o + n <= 28 ->
            all_bytes (subspan l o n) /\ bsize (subspan l o n) = n)
    by (intros; split; [auto with xnn | apply bsize_subspan; lia]).
  destruct (Hsub 4 2) as [B4 S4]; [lia.. |]. destruct (Hsub 8 2) as [B8 S8]; [lia.. |].
  destruct (Hsub 10 2) as [B10 S10]; [lia.. |]. destruct (Hsub 12 4) as [B12 S12]; [lia.. |].
  destruct (Hsub 16 8) as [B16 S16]; [lia.. |]. destruct (Hsub 24 4) as [B24 S24]; [lia.. |].
  destruct (ReadU16_span _ B4 S4) as [R4 W4]. destruct (ReadU16_span _ B8 S8) as [R8 W8].
  destruct (ReadU16_span _ B10 S10) as [R10 W10]. destruct (ReadU32_span _ B12 S12) as [R12 W12].
  destruct (ReadU64_span _ B16 S16) as [R16 W16]. destruct (ReadU32_span _ B24 S24) as [R24 W24].
  split; [| by split; [done | apply at_byte | apply at_byte | done ..]].
  unfold write_raw_header, read_raw_header.
  cbn [rh_length rh_major rh_minor rh_type rh_flags rh_stream rh_message_id rh_body].
  rewrite R4, R8, R10, R12, R16, R24.
  change [at_ l 6; at_ l 7] with ([at_ l 6] ++ [at_ l 7]).
  rewrite <- !at_subspan, <- !app_assoc by lia.
  rewrite <- (drop_chop l 24 4 : _ = subspan l 24 4 ++ drop 28 l).
  rewrite <- (drop_chop l 16 8 : _ = subspan l 16 8 ++ drop 24 l).
  rewrite <- (drop_chop l 12 4 : _ = subspan l 12 4 ++ drop 16 l).
  rewrite <- (drop_chop l 10 2 : _ = subspan l 10 2 ++ drop 12 l).
  rewrite <- (drop_chop l 8 2 : _ = subspan l 8 2 ++ drop 10 l).
  rewrite <- (drop_chop l 7 1 : _ = subspan l 7 1 ++ drop 8 l).
  rewrite <- (drop_chop l 6 1 : _ = subspan l 6 1 ++ drop 7 l).
  rewrite <- (drop_chop l 4 2 : _ = subspan l 4 2 ++ drop 6 l).
  symmetry. apply take_drop.
Qed.

Lemma read_write_raw_header h r l :
  wf_raw_header h -> l = kMagic ++ write_raw_header h ++ r ->
  ReadU16 (subspan l 4 2) = rh_length h /\ at_ l 6 = rh_major h /\ at_ l 7 = rh_minor h /\
  ReadU16 (subspan l 8 2) = rh_type h /\ ReadU16 (subspan l 10 2) = rh_flags h /\
  ReadU32 (subspan l 12 4) = rh_stream h /\ ReadU64 (subspan l 16 8) = rh_message_id h /\
  ReadU32 (subspan l 24 4) = rh_body h.
Proof.
  intros [] ->. set (l := kMagic ++ _).
  change (subspan l 4 2) with (be_bytes 2 (rh_length h)).
  change (subspan l 8 2) with (be_bytes 2 (rh_type h)).
  change (subspan l 10 2) with (be_bytes 2 (rh_flags h)).
  change (subspan l 12 4) with (be_bytes 4 (rh_stream h)).
  change (subspan l 16 8) with (be_bytes 8 (rh_message_id h)).
  change (subspan l 24 4) with (be_bytes 4 (rh_body h)).
  rewrite !ReadU16_bytes, !ReadU32_bytes, ReadU64_bytes by done. split_and!; reflexivity.
Qed.

(** The raw form of a header, and the message type a code names. *)
Definition raw_of (h : FrameHeader) : raw_header :=
  {| rh_length := h_length h; rh_major := major (h_version h);
     rh_minor := minor (h_version h); rh_type := message_type_code (h_message_type h);
     rh_flags := h_flags h; rh_stream := h_stream_id h; rh_message_id := h_message_id h;
     rh_body := h_body_length h |}.

Lemma encode_header_raw h : encode_header h = kMagic ++ write_raw_header (raw_of h).
Proof. reflexivity. Qed.

Lemma bsize_encode_header h : bsize (encode_header h) = kFixedHeaderLength.
Proof. reflexivity. Qed.

Lemma message_type_of_code_spec v t :
  message_type_of_code v = Some t <-> In t known_message_types /\ message_type_code t = v.
Proof.
  split.
  - intros H. apply List.find_some in H as [Hin He]. bool_facts. done.
  - intros [Hin <-]. unfold known_message_types in Hin. cbn in Hin.
    repeat (destruct Hin as [<- | Hin]; [reflexivity |]). done.
Qed.

Lemma message_type_code_width t : in_width 16 (message_type_code t).
Proof. destruct t; cbn; widths. Qed.

Lemma wf_header_raw v h :
  is_byte (major v) -> is_byte (minor v) -> wf_header v h -> wf_raw_header (raw_of h).
Proof.
  intros Hma Hmi []. unfold kFixedHeaderLength, kMaxHeaderLength, kMaxBodyLength in *.
  split; unfold raw_of; cbn [rh_length rh_major rh_minor rh_type rh_flags rh_stream
    rh_message_id rh_body]; try (by subst); try apply message_type_code_width; widths.
Qed.

Lemma canonical_nil_schema_known fs : known_fields [] fs = [].
Proof. by induction fs. Qed.

(** ** [ParseFrameHeader] *)

(** The preflight result: no body yet. *)
Definition header_frame (h : FrameHeader) (exts : list FieldView) : ParsedFrame :=
  {| pf_header := h; pf_header_fields := []; pf_body_fields := [];
     pf_total_length := h_length h + h_body_length h;
     pf_raw := encode_header h ++ encode_tlvs exts;
     pf_extensions := encode_tlvs exts; pf_body := [] |}.

Lemma header_size_no_overflow v h :
  wf_header v h -> (h_body_length h >? umax 64 - h_length h) = false.
Proof.
  intros [[_ Hl] _ _ _ _ _ [_ Hb] _]. unfold kMaxHeaderLength, kMaxBodyLength in *. widths.
Qed.

Lemma stream_scope_tests h :
  stream_scope h ->
  IsConnectionMessage (h_message_type h) && negb (h_stream_id h =? 0) = false /\
  IsTransferMessage (h_message_type h) && (h_stream_id h =? 0) = false.
Proof.
  intros [Hc Ht].
  split; apply not_true_iff_false; intros [H1 H2]%andb_true_iff; bool_facts;
    [by apply H2, Hc | by apply (Ht H1)].
Qed.

Lemma ParseFrameHeader_complete v h exts rest :
  is_byte (major v) -> is_byte (minor v) -> wf_header v h -> canonical [] exts ->
  kFixedHeaderLength + bsize (encode_tlvs exts) = h_length h ->
  ParseFrameHeader (encode_header h ++ encode_tlvs exts ++ rest) v =
  {| pr_frame := header_frame h exts; pr_error := NoError |}.
Proof.
  intros Hma Hmi Hh He Hlen. pose proof (wf_header_raw v h Hma Hmi Hh) as Hraw.
  set (enc := _ ++ _).
  assert (Henc : enc = kMagic ++ write_raw_header (raw_of h) ++ encode_tlvs exts ++ rest)
    by (unfold enc; by rewrite encode_header_raw, <- app_assoc).
  destruct (read_write_raw_header _ _ _ Hraw Henc) as (R1 & R2 & R3 & R4 & R5 & R6 & R7 & R8).
  cbn [raw_of rh_length rh_major rh_minor rh_type rh_flags rh_stream rh_message_id rh_body]
    in R1, R2, R3, R4, R5, R6, R7, R8.
  assert (Hsize : bsize enc = h_length h + bsize rest)
    by (unfold enc; rewrite !bsize_app, bsize_encode_header; lia).
  assert (Hext : subspan enc kFixedHeaderLength (h_length h - kFixedHeaderLength)
                 = encode_tlvs exts).
  { unfold enc, subspan. rewrite drop_app_bsize by done.
    apply (subspan_app_l (encode_tlvs exts) rest). lia. }
  assert (Hfull : subspan enc 0 (h_length h) = encode_header h ++ encode_tlvs exts).
  { unfold enc. rewrite app_assoc. apply subspan_app_l.
    rewrite bsize_app, bsize_encode_header. lia. }
  pose proof (bsize_nonneg rest). pose proof (header_size_no_overflow v h Hh) as Hov.
  destruct (stream_scope_tests h (wfh_scope _ _ Hh)) as [Hsc1 Hsc2].
  pose proof (proj2 (message_type_of_code_spec _ _) (conj (wfh_type _ _ Hh) eq_refl)) as Hty.
  destruct Hh as [Hl Hv Ht Hf Hst Hid Hbl Hsc].
  unfold ParseFrameHeader. cbv zeta. rewrite R1, R2, R3, R4, R5, R6, R7, R8, Hext, Hfull.
  rewrite (ParseTlvs_canonical [] exts He : ParseTlvs _ [] = _), canonical_nil_schema_known.
  change (take 4 enc) with kMagic. rewrite (proj2 (same_bytes_true _ _) eq_refl), Hf.
  replace {| major := major (h_version h); minor := minor (h_version h) |} with v
    by (rewrite <- Hv; by destruct (h_version h)).
  rewrite bool_decide_true, Hty, Hov, Hsize by done.
  replace (h_length h + bsize rest <? kFixedHeaderLength) with false by lia.
  replace (h_length h <? kFixedHeaderLength) with false by lia.
  replace (h_length h >? kMaxHeaderLength) with false by lia.
  replace (h_body_length h >? kMaxBodyLength) with false by lia.
  replace (h_message_id h =? 0) with false by lia.
  replace (h_length h + bsize rest <? h_length h) with false by lia.
  rewrite Hsc1, Hsc2. cbn. unfold header_frame. do 2 f_equal.
  destruct h; cbn in *. by subst.
Qed.

Lemma ParseFrameHeader_inv v enc :
  all_bytes enc -> result_ok (ParseFrameHeader enc v) = true ->
  exists h exts rest, enc = encode_header h ++ encode_tlvs exts ++ rest /\
    wf_header v h /\ canonical [] exts /\
    kFixedHeaderLength + bsize (encode_tlvs exts) = h_length h /\
    is_byte (major v) /\ is_byte (minor v).
Proof.
  intros Hb H. unfold result_ok, ParseFrameHeader in H. cbv zeta in H.
  do 8 (split_if_in H; [done |]).
  destruct (message_type_of_code _) as [t |] eqn:Et; [| done].
  do 2 (split_if_in H; [done |]). destruct (ParseTlvs _ []) as [fl te] eqn:Etl.
  split_if_in H; [cbn in H; congruence || (bool_facts; congruence) |].
  do 2 (split_if_in H; [done |]). clear H.
  destruct (read_raw_header_spec enc Hb) as [Hsplit Hraw];
    [unfold kFixedHeaderLength in *; bool_facts; lia |].
  apply message_type_of_code_spec in Et as [Hin Hcode].
  unfold read_raw_header in Hsplit, Hraw. destruct Hraw as [W1 W2 W3 W4 W5 W6 W7 W8].
  unfold write_raw_header in Hsplit.
  cbn [rh_length rh_major rh_minor rh_type rh_flags rh_stream rh_message_id rh_body]
    in Hsplit, W1, W2, W3, W4, W5, W6, W7, W8.
  set (hl := ReadU16 (subspan enc 4 2)) in *. set (bl := ReadU32 (subspan enc 24 4)) in *.
  set (st := ReadU32 (subspan enc 12 4)) in *. set (mid := ReadU64 (subspan enc 16 8)) in *.
  bool_facts. apply bool_decide_eq_true in E6 as <-. apply same_bytes_true in E0.
  rewrite E4, <- Hcode, <- E0 in Hsplit. set (v := {| major := _; minor := _ |}) in *.
  set (h := {| h_length := hl; h_version := v; h_message_type := t; h_flags := 0;
               h_stream_id := st; h_message_id := mid; h_body_length := bl |}).
  assert (Hh : wf_header v h).
  { unfold in_width in *. split; cbn [h h_length h_version h_message_type h_flags
      h_stream_id h_message_id h_body_length]; try done; try lia. split; cbn; intros Hc.
    - rewrite Hc in E10. bool_facts. cbn in E10. bool_facts. done.
    - rewrite Hc in E11. cbn in E11. bool_facts. done. }
  apply ParseTlvs_inv in Etl as (exts & Hext & Hcan & _); [| by auto with xnn | done].
  exists h, exts, (drop (Z.to_nat hl) enc).
  assert (Hd : drop 28 enc = encode_tlvs exts ++ drop (Z.to_nat hl) enc).
  { rewrite <- Hext. unfold kFixedHeaderLength in *.
    rewrite (drop_chop enc 28 (Z.to_nat (hl - 28))). f_equal; [| f_equal; lia].
    f_equal. lia. }
  assert (Hlen : bsize (encode_tlvs exts) = hl - kFixedHeaderLength)
    by (rewrite <- Hext; apply bsize_subspan; unfold kFixedHeaderLength in *; lia).
  split_and!; [| done | done | cbn; lia | done | done].
  rewrite Hsplit at 1. rewrite Hd, encode_header_raw, <- app_assoc.
  done.
Qed.

(** ** [ParseFrameEnvelope], [ParseFrameBody] and [ParseFrame] *)

(** The envelope result: a body that is not parsed yet. *)
Definition envelope_frame (h : FrameHeader) (exts : list FieldView) (b : bytes) : ParsedFrame :=
  {| pf_header := h; pf_header_fields := []; pf_body_fields := [];
     pf_total_length := h_length h + h_body_length h;
     pf_raw := encode_header h ++ encode_tlvs exts ++ b;
     pf_extensions := encode_tlvs exts; pf_body := b |}.

(** An envelope: a well-formed header and a body of the declared length. *)
Record wf_envelope (v : Version) (h : FrameHeader) (exts : list FieldView) (b : bytes)
    : Prop := {
  wfe_header : wf_header v h;
  wfe_exts : canonical [] exts;
  wfe_exts_length : kFixedHeaderLength + bsize (encode_tlvs exts) = h_length h;
  wfe_body_length : bsize b = h_body_length h;
}.

Lemma ParseFrameEnvelope_complete v h exts b :
  is_byte (major v) -> is_byte (minor v) -> wf_envelope v h exts b ->
  ParseFrameEnvelope (encode_header h ++ encode_tlvs exts ++ b) v =
  {| pr_frame := envelope_frame h exts b; pr_error := NoError |}.
Proof.
  intros Hma Hmi [Hh He Hel Hbl]. unfold ParseFrameEnvelope.
  rewrite (ParseFrameHeader_complete v h exts b) by done.
  unfold result_ok. cbn [pr_error pr_frame header_frame pf_total_length pf_header].
  rewrite error_ok_NoError. cbn [negb].
  assert (Hsub : subspan (encode_header h ++ encode_tlvs exts ++ b) (h_length h)
                   (h_body_length h) = b).
  { rewrite app_assoc. apply subspan_app_r; [| done].
    rewrite bsize_app, bsize_encode_header. lia. }
  rewrite Hsub, !bsize_app, bsize_encode_header. by replace (_ =? _) with true by lia.
Qed.

Lemma ParseFrameEnvelope_inv v enc :
  all_bytes enc -> result_ok (ParseFrameEnvelope enc v) = true ->
  exists h exts b, enc = encode_header h ++ encode_tlvs exts ++ b /\
    wf_envelope v h exts b /\ is_byte (major v) /\ is_byte (minor v).
Proof.
  intros Hb H. unfold ParseFrameEnvelope in H.
  destruct (result_ok (ParseFrameHeader enc v)) eqn:E; cbn [negb] in H; [| congruence].
  apply ParseFrameHeader_inv in E as (h & exts & b & -> & Hh & He & Hl & Hma & Hmi); [| done].
  rewrite (ParseFrameHeader_complete v h exts b) in H by done.
  split_if_in H; [done |]. bool_facts.
  exists h, exts, b. split; [done |]. split; [| done]. split; [done.. |].
  rewrite !bsize_app, bsize_encode_header in E. cbn in E. lia.
Qed.

Lemma ParseFrameBody_complete h exts fields :
  canonical (SchemaFor (h_message_type h)) fields ->
  bsize (encode_tlvs fields) = h_body_length h ->
  ParseFrameBody (envelope_frame h exts (encode_tlvs fields))
  = (parsed_frame h exts fields, NoError).
Proof.
  intros Hc Hl. unfold ParseFrameBody. cbn [envelope_frame pf_body pf_header].
  rewrite Hl, Z.eqb_refl. cbn [negb]. by rewrite ParseTlvs_canonical.
Qed.

Lemma ParseFrame_complete v h exts fields :
  is_byte (major v) -> is_byte (minor v) -> wf_frame v h exts fields ->
  ParseFrame (encode_header h ++ encode_tlvs exts ++ encode_tlvs fields) v =
  {| pr_frame := parsed_frame h exts fields; pr_error := NoError |}.
Proof.
  intros Hma Hmi [Hh He Hel Hf Hfl]. unfold ParseFrame.
  rewrite ParseFrameEnvelope_complete by done.
  unfold result_ok. cbn [pr_error pr_frame]. rewrite error_ok_NoError. cbn [negb].
  by rewrite ParseFrameBody_complete.
Qed.

Lemma ParseFrame_inv v enc :
  all_bytes enc -> result_ok (ParseFrame enc v) = true ->
  exists h exts fields, enc = encode_header h ++ encode_tlvs exts ++ encode_tlvs fields /\
    wf_frame v h exts fields /\ is_byte (major v) /\ is_byte (minor v).
Proof.
  intros Hb H. unfold ParseFrame in H.
  destruct (result_ok (ParseFrameEnvelope enc v)) eqn:E; cbn [negb] in H; [| congruence].
  apply ParseFrameEnvelope_inv in E as (h & exts & b & -> & He & Hma & Hmi); [| done].
  rewrite ParseFrameEnvelope_complete in H by done.
  apply all_bytes_app in Hb as [_ Hb]. apply all_bytes_app in Hb as [_ Hb].
  unfold ParseFrameBody, result_ok in H. cbn [pr_frame pf_body envelope_frame pf_header] in H.
  destruct He as [Hh He Hel Hbl]. rewrite Hbl, Z.eqb_refl in H. cbn [negb] in H.
  destruct (ParseTlvs b _) as [fl e] eqn:Et. cbn [pr_error] in H.
  apply ParseTlvs_inv in Et as (fields & -> & Hc & _); [| done..].
  exists h, exts, fields. split; [done |]. by split; [split |].
Qed.

(** The success of [ParseFrame] with result [fr]. *)
Definition frame_parsed (enc : bytes) (v : Version) (fr : ParsedFrame) : Prop :=
  result_ok (ParseFrame enc v) = true /\ pr_frame (ParseFrame enc v) = fr.

Lemma frame_parsed_iff enc v fr :
  all_bytes enc ->
  frame_parsed enc v fr <->
  exists h exts fields, enc = encode_header h ++ encode_tlvs exts ++ encode_tlvs fields /\
    wf_frame v h exts fields /\ is_byte (major v) /\ is_byte (minor v) /\
    fr = parsed_frame h exts fields.
Proof.
  intros Hb. unfold frame_parsed. split.
  - intros [Hok <-]. apply ParseFrame_inv in Hok as (h & exts & fields & -> & Hw & Hma & Hmi);
      [| done].
    exists h, exts, fields. by rewrite ParseFrame_complete.
  - intros (h & exts & fields & -> & Hw & Hma & Hmi & ->).
    by rewrite ParseFrame_complete.
Qed.

(** ** Consequences *)

Lemma canonical_FindFirst schema fs r :
  canonical schema fs -> In r schema -> r_presence r = Presence_kRequired ->
  FindRule schema (r_id r) = Some r ->
  exists f, FindFirst (known_fields schema fs) (r_id r) = Some f /\
    f_id f = r_id r /\ conforms schema f /\ wf_tlv f.
Proof.
  intros Hc Hin Hp Hr. pose proof (canonical_required _ _ Hc r Hin Hp) as Hcount.
  rewrite <- (Count_filter_known schema) in Hcount by eauto.
  unfold FindFirst. destruct (List.find _ (known_fields schema fs)) as [f |] eqn:E.
  - exists f. apply List.find_some in E as [Hf He]. bool_facts.
    apply filter_In in Hf as [Hf _].
    pose proof (canonical_conforms _ _ Hc) as Hall. pose proof (canonical_wf _ _ Hc) as Hwf.
    rewrite List.Forall_forall in Hall, Hwf. auto.
  - exfalso. enough (forall l id, (forall x, In x l -> (f_id x =? id) = false) -> Count l id = 0)
      as Hz by (rewrite Hz in Hcount; [lia | exact (List.find_none _ _ E)]).
    clear. induction l as [| x l IH]; intros id H; [done |]. cbn [Count].
    rewrite (H x) by (by left). rewrite IH; [done |]. intros y Hy. apply H. by right.
Qed.

Lemma conforms_fixed_value schema f :
  conforms schema f -> wf_tlv f -> FixedWireLength (f_wire_type f) <> 0 ->
  bsize (f_value f) = FixedWireLength (f_wire_type f) /\
  DecodeUnsigned f = be_value (f_value f) /\
  0 <= DecodeUnsigned f < 2 ^ (8 * FixedWireLength (f_wire_type f)).
Proof.
  intros [Hv _] (_ & _ & _ & Hb) Hf.
  assert (Hs : bsize (f_value f) = FixedWireLength (f_wire_type f)).
  { destruct (f_wire_type f); cbn in *; try done. by destruct Hv as [-> | ->]. }
  assert (Hle : bsize (f_value f) <= 8) by (rewrite Hs; by destruct (f_wire_type f)).
  split; [done |]. rewrite DecodeUnsigned_be by done. split; [done |].
  rewrite Z.pow_mul_r by (rewrite <- ?Hs; auto with xnn; lia). change (2 ^ 8) with 256.
  rewrite <- Hs. by apply be_value_range.
Qed.

(** The schemas name each field once. *)
Lemma SchemaFor_FindRule t r : In r (SchemaFor t) -> FindRule (SchemaFor t) (r_id r) = Some r.
Proof.
  destruct t; cbn; intros Hin;
    repeat (destruct Hin as [<- | Hin]; [reflexivity |]); destruct Hin.
Qed.

Lemma known_fields_length schema fs :
  canonical schema fs -> (length (known_fields schema fs) <= kMaxFields)%nat.
Proof.
  intros Hc. etransitivity; [apply filter_length_le | apply Hc].
Qed.

(** ** Properties *)

(** [IsValidUtf8] accepts a byte string exactly when it is the RFC 3629
    encoding of a sequence of Unicode scalar values without U+0000 and without
    noncharacters: overlong forms, surrogates, values above U+10FFFF and
    truncated sequences are all rejected, and nothing else is. *)
Theorem IsValidUtf8_rfc3629 (value : bytes) (Hb : all_bytes value) :
  IsValidUtf8 value = true <->
  exists cps, Forall permitted cps /\ value = concat (List.map utf8_encode cps).
Proof. by apply IsValidUtf8_iff. Qed.

Lemma IsValidUtf8_rfc3629_witness :
  exists cps, Forall permitted cps
    /\ [0xe4; 0xbd; 0xa0; 0x21] = concat (List.map utf8_encode cps).
Proof.
  apply (IsValidUtf8_rfc3629 [0xe4; 0xbd; 0xa0; 0x21]).
  - apply (bool_decide_unpack _). vm_compute. exact I.
  - vm_compute. reflexivity.
Defined.

(** [ParseTlvs] accepts a block exactly when it is the concatenation of the
    encodings of a canonical field list (at most 256 fields, ids in order,
    every field allowed by the schema, scalar fields once, required fields
    present), and then returns the fields the schema knows, in order. *)
Theorem ParseTlvs_accepts_iff (data : bytes) (schema : list FieldRule)
    (out : FieldCollection) (Hb : all_bytes data) :
  tlvs_parsed data schema out <->
  exists fs, data = encode_tlvs fs /\ canonical schema fs /\ out = known_fields schema fs.
Proof. by apply tlvs_parsed_iff. Qed.

(** A PING body with an unknown noncritical field after the token. *)
Definition example_ping_fields : list FieldView :=
  [{| f_id := 1; f_wire_type := kU64; f_flags := 1; f_value := be_bytes 8 77 |};
   {| f_id := 9; f_wire_type := kBytes; f_flags := 0; f_value := [1; 2] |}].

Lemma ParseTlvs_accepts_iff_witness :
  exists fs, encode_tlvs example_ping_fields = encode_tlvs fs /\
    canonical kPingPongSchema fs /\
    firstn 1 example_ping_fields = known_fields kPingPongSchema fs.
Proof.
  apply (ParseTlvs_accepts_iff (encode_tlvs example_ping_fields) kPingPongSchema
           (firstn 1 example_ping_fields)).
  - apply (bool_decide_unpack _). vm_compute. exact I.
  - exists NoError. split; [vm_compute; reflexivity | reflexivity].
Defined.

(** C7: [ParseFrame] accepts a byte string exactly when it is a well-formed
    version-[v] frame: magic, a header whose lengths, flags, message id,
    version, type and stream scope are valid, canonical header extensions that
    fill the declared header length, and a canonical body for the message
    type's schema that fills the declared body length; the returned views are
    those parts. *)
Theorem ParseFrame_accepts_iff (enc : bytes) (v : Version) (fr : ParsedFrame)
    (Hb : all_bytes enc) :
  frame_parsed enc v fr <->
  exists h exts fields, enc = encode_header h ++ encode_tlvs exts ++ encode_tlvs fields /\
    wf_frame v h exts fields /\ is_byte (major v) /\ is_byte (minor v) /\
    fr = parsed_frame h exts fields.
Proof. by apply frame_parsed_iff. Qed.

Definition example_ping_header : FrameHeader :=
  {| h_length := 28; h_version := Version_default; h_message_type := kPing; h_flags := 0;
     h_stream_id := 0; h_message_id := 5; h_body_length := 26 |}.

Definition example_ping_frame : bytes :=
  encode_header example_ping_header ++ encode_tlvs example_ping_fields.

Lemma ParseFrame_accepts_iff_witness :
  exists h exts fields,
    example_ping_frame = encode_header h ++ encode_tlvs exts ++ encode_tlvs fields /\
    wf_frame Version_default h exts fields /\ is_byte (major Version_default) /\
    is_byte (minor Version_default) /\
    pr_frame (ParseFrame example_ping_frame Version_default) = parsed_frame h exts fields.
Proof.
  apply (ParseFrame_accepts_iff example_ping_frame Version_default).
  - apply (bool_decide_unpack _). vm_compute. exact I.
  - split; [vm_compute; reflexivity | reflexivity].
Defined.

(** Streaming preflight.  On any prefix of an accepted frame that holds the
    declared header, [ParseFrameHeader] succeeds with the header the full parse
    reports, and the total length it announces is the length of the frame, at
    most [kMaxEncodedFrameLength]. *)
Theorem ParseFrameHeader_preflight (enc : bytes) (v : Version) (n : nat)
    (Hb : all_bytes enc) (Hok : result_ok (ParseFrame enc v) = true)
    (Hn : h_length (pf_header (pr_frame (ParseFrame enc v))) <= Z.of_nat n) :
  let r := ParseFrameHeader (take n enc) v in
  result_ok r = true /\
  pf_header (pr_frame r) = pf_header (pr_frame (ParseFrame enc v)) /\
  pf_total_length (pr_frame r) = bsize enc /\ bsize enc <= kMaxEncodedFrameLength.
Proof.
  apply ParseFrame_inv in Hok as (h & exts & fields & -> & Hw & Hma & Hmi); [| done].
  rewrite ParseFrame_complete in * by done. cbn [pr_frame pf_header parsed_frame] in *.
  destruct Hw as [Hh He Hel Hf Hfl].
  assert (Hlen : length (encode_header h ++ encode_tlvs exts) = Z.to_nat (h_length h)).
  { rewrite <- Hel. pose proof (bsize_encode_header h). unfold bsize in *.
    rewrite length_app. lia. }
  cbv zeta. rewrite app_assoc, take_app_ge, <- app_assoc by lia.
  rewrite ParseFrameHeader_complete by done.
  cbn [pr_frame header_frame pf_header pf_total_length]. split_and!; [done | done | |].
  - rewrite !bsize_app, bsize_encode_header. lia.
  - rewrite !bsize_app, bsize_encode_header. destruct Hh.
    unfold kMaxEncodedFrameLength. lia.
Qed.

Lemma ParseFrameHeader_preflight_witness :
  let r := ParseFrameHeader (take 30 example_ping_frame) Version_default in
  result_ok r = true /\
  pf_header (pr_frame r)
  = pf_header (pr_frame (ParseFrame example_ping_frame Version_default)) /\
  pf_total_length (pr_frame r) = bsize example_ping_frame /\
  bsize example_ping_frame <= kMaxEncodedFrameLength.
Proof.
  apply (ParseFrameHeader_preflight example_ping_frame Version_default 30).
  - apply (bool_decide_unpack _). vm_compute. exact I.
  - vm_compute. reflexivity.
  - vm_compute. intros H. discriminate H.
Defined.

(** In an accepted frame every required field of the message type is
    present with the wire type its rule names, and an integer or Boolean field
    has exactly its width, so the unchecked dereferences
    [*frame.body_fields.FindFirst(id)] are not null and [DecodeUnsigned] is the
    big-endian value of the field, in range; the collection holds at most
    [kMaxFields] fields, the size of its array. *)
Theorem required_fields_present (enc : bytes) (v : Version) (r : FieldRule)
    (Hb : all_bytes enc) (Hok : result_ok (ParseFrame enc v) = true)
    (Hin : In r (SchemaFor (h_message_type (pf_header (pr_frame (ParseFrame enc v))))))
    (Hreq : r_presence r = Presence_kRequired) :
  let fields := pf_body_fields (pr_frame (ParseFrame enc v)) in
  (length fields <= kMaxFields)%nat /\
  exists f, FindFirst fields (r_id r) = Some f /\ f_wire_type f = r_wire_type r /\
    (FixedWireLength (r_wire_type r) <> 0 ->
     DecodeUnsigned f = be_value (f_value f) /\
     0 <= DecodeUnsigned f < 2 ^ (8 * FixedWireLength (r_wire_type r))).
Proof.
  apply ParseFrame_inv in Hok as (h & exts & fields & -> & Hw & Hma & Hmi); [| done].
  rewrite ParseFrame_complete in * by done. cbn [pr_frame parsed_frame pf_header] in Hin.
  cbv zeta. cbn [pr_frame parsed_frame pf_body_fields]. destruct Hw as [_ _ _ Hf _].
  split; [by apply known_fields_length |].
  pose proof (SchemaFor_FindRule _ _ Hin) as Hr.
  destruct (canonical_FindFirst _ _ _ Hf Hin Hreq Hr) as (f & Hff & Hid & Hc & Hwf).
  exists f. split; [done |]. pose proof Hc as [_ Hrule]. rewrite Hid, Hr in Hrule.
  destruct Hrule as (_ & Ht & _). split; [done |]. rewrite <- Ht. intros Hfix.
  by apply (conforms_fixed_value _ _ Hc Hwf).
Qed.

Lemma required_fields_present_witness :
  exists f, FindFirst (pf_body_fields (pr_frame (ParseFrame example_ping_frame Version_default)))
              1 = Some f /\ DecodeUnsigned f < 2 ^ 64.
Proof.
  destruct (required_fields_present example_ping_frame Version_default (Required 1 kU64))
    as (_ & f & Hf & _ & Hv).
  - apply (bool_decide_unpack _). vm_compute. exact I.
  - vm_compute. reflexivity.
  - vm_compute. left. reflexivity.
  - reflexivity.
  - exists f. split; [exact Hf |]. apply Hv. discriminate.
Defined.
