(* ===== verification/V1Transcript.v ===== *)
(** * The v1 negotiation transcript

    [TranscriptParser] of [native/src/protocol/v1_parser.cpp]: message ids in
    each direction, the HELLO / NEGOTIATE / NEGOTIATE_ACK /
    TRANSPORT_FINISHED order, the negotiated limits, PING and PONG, and the
    terminal state after a connection-fatal error.  One call of [Process] is
    one step. *)

From S2P Require Import Prelude.
From S2P Require Import V1Parser.
Import WireType MessageType.

(** ** Standard library *)

(** [std::lower_bound]: [first] and [len] delimit the range still searched.
    [len] at least halves at each turn. *)
Fixpoint lower_bound_loop (fuel : nat) (l : list Z) (first len : nat) (wanted : Z) : nat :=
  match fuel with
  | O => first
  | S fuel =>
      if Nat.eqb len 0 then first else
      let half := Nat.div2 len in
      let mid := (first + half)%nat in
      if nth mid l 0 <? wanted
      then lower_bound_loop fuel l (S mid) (len - half - 1)%nat wanted
      else lower_bound_loop fuel l first half wanted
  end.

Definition binary_search (l : list Z) (wanted : Z) : bool :=
  let at' := lower_bound_loop (length l) l 0 (length l) wanted in
  negb (Nat.eqb at' (length l)) && negb (wanted <? nth at' l 0).

(** ** State *)

Inductive Direction := kInitiatorToResponder | kResponderToInitiator.

#[global] Instance direction_eq_dec : EqDecision Direction.
Proof. solve_decision. Defined.

(** A [std::array<T, 2>] indexed by [DirectionIndex]. *)
Record both (T : Type) := Both { at0 : T; at1 : T }.
Arguments Both {T}.
Arguments at0 {T}.
Arguments at1 {T}.

Definition DirectionIndex (d : Direction) : nat :=
  match d with kInitiatorToResponder => 0 | kResponderToInitiator => 1 end.

Definition get2 {T} (b : both T) (d : Direction) : T :=
  match d with kInitiatorToResponder => at0 b | kResponderToInitiator => at1 b end.

Definition set2 {T} (b : both T) (d : Direction) (v : T) : both T :=
  match d with
  | kInitiatorToResponder => Both v (at1 b)
  | kResponderToInitiator => Both (at0 b) v
  end.

(** [index ^ 1]. *)
Definition other (d : Direction) : Direction :=
  match d with
  | kInitiatorToResponder => kResponderToInitiator
  | kResponderToInitiator => kInitiatorToResponder
  end.

Record HelloData := {
  hello_present : bool;
  minimum : Version;
  maximum : Version;
  role : Z;
  capabilities : list Z;
  required_capabilities : list Z;
  receive_max_body : Z;
  receive_max_in_flight : Z;
  receive_max_streams : Z;
}.

Definition HelloData_default : HelloData :=
  {| hello_present := false; minimum := Version_default; maximum := Version_default;
     role := 0; capabilities := []; required_capabilities := []; receive_max_body := 0;
     receive_max_in_flight := 0; receive_max_streams := 0 |}.

Record NegotiationData := {
  negotiation_present : bool;
  selected_version : Version;
  selected_capabilities : list Z;
  effective_max_body : Z;
  effective_max_in_flight : Z;
  effective_max_streams : Z;
}.

Definition NegotiationData_default : NegotiationData :=
  {| negotiation_present := false; selected_version := Version_default;
     selected_capabilities := []; effective_max_body := 0; effective_max_in_flight := 0;
     effective_max_streams := 0 |}.

Record TranscriptParser := {
  next_message_id : both Z;
  message_id_exhausted : both bool;
  hellos : both HelloData;
  negotiation : NegotiationData;
  negotiation_acknowledged : bool;
  transport_finished : both bool;
  binding_frames_complete : bool;
  pong_expected : both bool;
  expected_pong_token : both Z;
  terminal : bool;
}.

#[global] Instance eta_TranscriptParser : Eta TranscriptParser := fun x =>
  {| next_message_id := next_message_id x; message_id_exhausted := message_id_exhausted x;
     hellos := hellos x; negotiation := negotiation x;
     negotiation_acknowledged := negotiation_acknowledged x;
     transport_finished := transport_finished x;
     binding_frames_complete := binding_frames_complete x; pong_expected := pong_expected x;
     expected_pong_token := expected_pong_token x; terminal := terminal x |}.

Definition TranscriptParser_init : TranscriptParser :=
  {| next_message_id := Both 1 1; message_id_exhausted := Both false false;
     hellos := Both HelloData_default HelloData_default;
     negotiation := NegotiationData_default; negotiation_acknowledged := false;
     transport_finished := Both false false; binding_frames_complete := false;
     pong_expected := Both false false; expected_pong_token := Both 0 0;
     terminal := false |}.

(** ** Helpers *)

Definition VersionLess (left right : Version) : bool :=
  (major left <? major right) ||
  (major left =? major right) && (minor left <? minor right).

Definition VersionMaximum (left right : Version) : Version :=
  if VersionLess left right then right else left.

Definition VersionMinimum (left right : Version) : Version :=
  if VersionLess left right then left else right.

Definition Contains (values : list Z) (wanted : Z) : bool := binary_search values wanted.

Definition EqualCapabilities (left right : list Z) : bool := same_bytes left right.

(** [DecodeUnsigned( *frame.body_fields.FindFirst(id))]; the pointer is not null
    for a required field of a parsed body. *)
Definition RequiredUnsigned (fr : ParsedFrame) (id : Z) : Z :=
  match FindFirst (pf_body_fields fr) id with Some f => DecodeUnsigned f | None => 0 end.

(** The loop that collects the values of the fields of one id. *)
Definition CollectU32 (fr : ParsedFrame) (id : Z) : list Z :=
  List.map (fun f => u32 (DecodeUnsigned f))
    (List.filter (fun f => f_id f =? id) (pf_body_fields fr)).

Definition violation (d : string) : Error := MakeError ErrorCode.kStateViolation d.
Definition malformed (d : string) : Error := MakeError ErrorCode.kMalformedMessage d.

(** The loop over the pairs of neighbours of HELLO's capabilities. *)
Fixpoint CheckCapabilities (l : list Z) : Error :=
  match l with
  | previous :: (current :: _) as rest =>
      if current <=? previous then
        malformed "HELLO capabilities are not sorted and unique"
      else if Z.shiftr current 16 =? Z.shiftr previous 16 then
        malformed "HELLO advertises multiple capability versions"
      else CheckCapabilities rest
  | _ => NoError
  end.

(** The loops that test for a strictly increasing sequence. *)
Fixpoint StrictlyIncreasing (l : list Z) : bool :=
  match l with
  | previous :: (current :: _) as rest =>
      if current <=? previous then false else StrictlyIncreasing rest
  | _ => true
  end.

(** The merge loop of [ProcessNegotiate] on the two advertised lists. *)
Fixpoint Intersection (initiator : list Z) : list Z -> list Z :=
  match initiator with
  | [] => fun _ => []
  | x :: initiator' =>
      fix responder_loop (responder : list Z) : list Z :=
        match responder with
        | [] => []
        | y :: responder' =>
            if x =? y then x :: Intersection initiator' responder'
            else if x <? y then Intersection initiator' responder
            else responder_loop responder'
        end
  end.

(** ** Message handlers *)

Definition expected_role (d : Direction) : Z :=
  match d with kInitiatorToResponder => 1 | kResponderToInitiator => 2 end.

Definition HelloLate (s : TranscriptParser) (d : Direction) : bool :=
  hello_present (get2 (hellos s) d) || negotiation_present (negotiation s) ||
  negotiation_acknowledged s || binding_frames_complete s.

Definition ProcessHello (s : TranscriptParser) (d : Direction) (fr : ParsedFrame)
    : TranscriptParser * Error :=
  if HelloLate s d then (s, violation "HELLO is repeated or late") else
  let minimum_major := RequiredUnsigned fr 1 in
  let minimum_minor := RequiredUnsigned fr 2 in
  let maximum_major := RequiredUnsigned fr 3 in
  let maximum_minor := RequiredUnsigned fr 4 in
  if (minimum_major =? 0) || (minimum_major >? 255) || (minimum_minor >? 255) ||
     (maximum_major >? 255) || (maximum_minor >? 255) then
    (s, malformed "HELLO version component is outside the header range") else
  let lo := {| major := u8 minimum_major; minor := u8 minimum_minor |} in
  let hi := {| major := u8 maximum_major; minor := u8 maximum_minor |} in
  if VersionLess hi lo then (s, malformed "HELLO version range is reversed") else
  let r := u8 (RequiredUnsigned fr 5) in
  if negb (r =? expected_role d) then
    (s, violation "HELLO role conflicts with transport direction") else
  let caps := CollectU32 fr 6 in
  let required := CollectU32 fr 7 in
  let caps_error := CheckCapabilities caps in
  if negb (error_ok caps_error) then (s, caps_error)
  else if negb (StrictlyIncreasing required) then
    (s, malformed "HELLO required capabilities are not sorted and unique")
  else if existsb (fun c => negb (Contains caps c)) required then
    (s, MakeError ErrorCode.kUnsupportedCapability "required capability was not advertised")
  else if negb (Contains caps kBaseTransferV1) || negb (Contains required kBaseTransferV1) then
    (s, MakeError ErrorCode.kUnsupportedCapability
          "BASE_TRANSFER_V1 is not advertised and required")
  else
  let max_body := u32 (RequiredUnsigned fr 8) in
  let max_in_flight := u32 (RequiredUnsigned fr 9) in
  let max_streams := u16 (RequiredUnsigned fr 10) in
  if (max_body <? 8192) || (max_body >? kMaxBodyLength) then
    (s, MakeError ErrorCode.kLimitExceeded "HELLO receive_max_body is outside v1 limits")
  else if (max_in_flight <? 1048576) || (max_in_flight >? kMaxInFlight) then
    (s, MakeError ErrorCode.kLimitExceeded "HELLO receive_max_in_flight is outside v1 limits")
  else if (max_streams =? 0) || (max_streams >? kMaxStreams) then
    (s, MakeError ErrorCode.kLimitExceeded "HELLO receive_max_streams is outside v1 limits")
  else
  let candidate :=
    {| hello_present := true; minimum := lo; maximum := hi; role := r;
       capabilities := caps; required_capabilities := required;
       receive_max_body := max_body; receive_max_in_flight := max_in_flight;
       receive_max_streams := max_streams |} in
  (s <| hellos := set2 (hellos s) d candidate |>, NoError).

(** The state tests NEGOTIATE shares with [ValidateEnvelopeState]. *)
Definition NegotiateState (s : TranscriptParser) (d : Direction) : Error :=
  if negb (bool_decide (d = kInitiatorToResponder)) then
    violation "responder cannot send NEGOTIATE"
  else if negb (hello_present (at0 (hellos s))) || negb (hello_present (at1 (hellos s))) then
    violation "NEGOTIATE arrived before both HELLO messages"
  else if negotiation_present (negotiation s) then violation "NEGOTIATE is repeated"
  else NoError.

Definition ProcessNegotiate (s : TranscriptParser) (d : Direction) (fr : ParsedFrame)
    : TranscriptParser * Error :=
  let state_error := NegotiateState s d in
  if negb (error_ok state_error) then (s, state_error) else
  let selected_major := RequiredUnsigned fr 1 in
  let selected_minor := RequiredUnsigned fr 2 in
  if (selected_major =? 0) || (selected_major >? 255) || (selected_minor >? 255) then
    (s, malformed "selected version is outside the header range") else
  let selected := {| major := u8 selected_major; minor := u8 selected_minor |} in
  let caps := CollectU32 fr 3 in
  if negb (StrictlyIncreasing caps) then
    (s, malformed "selected capabilities are not sorted and unique") else
  let h0 := at0 (hellos s) in
  let h1 := at1 (hellos s) in
  let common_minimum := VersionMaximum (minimum h0) (minimum h1) in
  let common_maximum := VersionMinimum (maximum h0) (maximum h1) in
  if VersionLess common_maximum common_minimum then
    (s, MakeError ErrorCode.kUnsupportedVersion "HELLO version ranges do not intersect")
  else if negb (bool_decide (selected = common_maximum)) then
    (s, MakeError ErrorCode.kDowngradeDetected "highest common version was not selected")
  else
  let intersection := Intersection (capabilities h0) (capabilities h1) in
  if existsb (fun c => negb (Contains intersection c))
       (required_capabilities h0 ++ required_capabilities h1) then
    (s, MakeError ErrorCode.kUnsupportedCapability "required capability is unavailable")
  else if negb (EqualCapabilities caps intersection) then
    (s, MakeError ErrorCode.kUnsupportedCapability
          "selected capability set is not the intersection")
  else
  let max_body := u32 (RequiredUnsigned fr 4) in
  let max_in_flight := u32 (RequiredUnsigned fr 5) in
  let max_streams := u16 (RequiredUnsigned fr 6) in
  if negb (max_body =? Z.min (receive_max_body h0) (receive_max_body h1)) ||
     negb (max_in_flight =? Z.min (receive_max_in_flight h0) (receive_max_in_flight h1)) ||
     negb (max_streams =? Z.min (receive_max_streams h0) (receive_max_streams h1)) then
    (s, malformed "selected limits are not the advertised minima")
  else
  (s <| negotiation :=
       {| negotiation_present := true; selected_version := selected;
          selected_capabilities := caps; effective_max_body := max_body;
          effective_max_in_flight := max_in_flight;
          effective_max_streams := max_streams |} |>, NoError).

Definition NegotiateAckState (s : TranscriptParser) (d : Direction) : Error :=
  if negb (bool_decide (d = kResponderToInitiator)) then
    violation "initiator cannot send NEGOTIATE_ACK"
  else if negb (negotiation_present (negotiation s)) then
    violation "NEGOTIATE_ACK arrived before NEGOTIATE"
  else if negotiation_acknowledged s then violation "NEGOTIATE_ACK is repeated"
  else NoError.

Definition ProcessNegotiateAck (s : TranscriptParser) (d : Direction) (fr : ParsedFrame)
    : TranscriptParser * Error :=
  let state_error := NegotiateAckState s d in
  if negb (error_ok state_error) then (s, state_error) else
  let selected_major := RequiredUnsigned fr 1 in
  let selected_minor := RequiredUnsigned fr 2 in
  if (selected_major >? 255) || (selected_minor >? 255) then
    (s, malformed "ACK version is outside the header range") else
  let selected := {| major := u8 selected_major; minor := u8 selected_minor |} in
  let caps := CollectU32 fr 3 in
  let n := negotiation s in
  if negb (bool_decide (selected = selected_version n)) ||
     negb (EqualCapabilities caps (selected_capabilities n)) ||
     negb (u32 (RequiredUnsigned fr 4) =? effective_max_body n) ||
     negb (u32 (RequiredUnsigned fr 5) =? effective_max_in_flight n) ||
     negb (u16 (RequiredUnsigned fr 6) =? effective_max_streams n) then
    (s, malformed "NEGOTIATE_ACK does not match NEGOTIATE")
  else (s <| negotiation_acknowledged := true |>, NoError).

Definition TransportFinishedState (s : TranscriptParser) (d : Direction) : Error :=
  if negb (negotiation_acknowledged s) then
    violation "TRANSPORT_FINISHED arrived before negotiation ACK"
  else if get2 (transport_finished s) d then violation "TRANSPORT_FINISHED is repeated"
  else NoError.

Definition ProcessTransportFinished (s : TranscriptParser) (d : Direction) (fr : ParsedFrame)
    : TranscriptParser * Error :=
  let state_error := TransportFinishedState s d in
  if negb (error_ok state_error) then (s, state_error)
  else if negb (u8 (RequiredUnsigned fr 1) =? expected_role d) then
    (s, violation "TRANSPORT_FINISHED role conflicts with transport direction")
  else
  let finished := set2 (transport_finished s) d true in
  (s <| transport_finished := finished |>
     <| binding_frames_complete := at0 finished && at1 finished |>, NoError).

Definition ProcessPing (s : TranscriptParser) (d : Direction) (fr : ParsedFrame)
    : TranscriptParser * Error :=
  if negb (binding_frames_complete s) then
    (s, violation "PING arrived before both binding frames")
  else if get2 (pong_expected s) (other d) then
    (s, violation "a PING is already outstanding")
  else
  (s <| pong_expected := set2 (pong_expected s) (other d) true |>
     <| expected_pong_token :=
          set2 (expected_pong_token s) (other d) (RequiredUnsigned fr 1) |>, NoError).

Definition ProcessPong (s : TranscriptParser) (d : Direction) (fr : ParsedFrame)
    : TranscriptParser * Error :=
  if negb (binding_frames_complete s) then
    (s, violation "PONG arrived before both binding frames")
  else if negb (get2 (pong_expected s) d) ||
          negb (get2 (expected_pong_token s) d =? RequiredUnsigned fr 1) then
    (s, violation "PONG does not match an outstanding PING")
  else (s <| pong_expected := set2 (pong_expected s) d false |>, NoError).

(** ** [Process] *)

Definition ValidateEnvelopeState (s : TranscriptParser) (d : Direction) (fr : ParsedFrame)
    : Error :=
  match h_message_type (pf_header fr) with
  | kHello =>
      if HelloLate s d then violation "HELLO is repeated or late" else NoError
  | kNegotiate => NegotiateState s d
  | kNegotiateAck => NegotiateAckState s d
  | kTransportFinished => TransportFinishedState s d
  | kError =>
      if negb (binding_frames_complete s) && negb (h_stream_id (pf_header fr) =? 0) then
        violation "pre-binding ERROR is not connection scoped"
      else NoError
  | kPing | kPong | kGoAway =>
      if negb (binding_frames_complete s) then
        violation "control message arrived before both binding frames"
      else NoError
  | _ =>
      if negb (binding_frames_complete s) then
        violation "transfer message arrived before both binding frames"
      else NoError
  end.

Definition Complete (s : TranscriptParser) (e : Error) (stream_id : Z)
    : TranscriptParser * Error :=
  if error_ok e then (s, e) else
  match err_code e with
  | ErrorCode.kMalformedFrame | ErrorCode.kFrameTooLarge
  | ErrorCode.kUnsupportedVersion | ErrorCode.kDowngradeDetected
  | ErrorCode.kUnsupportedCapability | ErrorCode.kUnsupportedMessage
  | ErrorCode.kMessageIdViolation => (s <| terminal := true |>, e)
  | ErrorCode.kMalformedMessage | ErrorCode.kUnknownCriticalField
  | ErrorCode.kStateViolation | ErrorCode.kLimitExceeded =>
      (s <| terminal := negb (binding_frames_complete s) || (stream_id =? 0) |>, e)
  | ErrorCode.kNone => (s, e)
  end.

(** [Complete(handler(...), stream_id)]. *)
Definition CompleteWith (r : TranscriptParser * Error) (stream_id : Z)
    : TranscriptParser * Error := Complete (fst r) (snd r) stream_id.

Definition Dispatch (s : TranscriptParser) (d : Direction) (fr : ParsedFrame)
    : TranscriptParser * Error :=
  let stream_id := h_stream_id (pf_header fr) in
  match h_message_type (pf_header fr) with
  | kHello => CompleteWith (ProcessHello s d fr) stream_id
  | kNegotiate => CompleteWith (ProcessNegotiate s d fr) stream_id
  | kNegotiateAck => CompleteWith (ProcessNegotiateAck s d fr) stream_id
  | kTransportFinished => CompleteWith (ProcessTransportFinished s d fr) stream_id
  | kError =>
      if negb (binding_frames_complete s) && negb (stream_id =? 0) then
        Complete s (violation "pre-establishment ERROR is not connection scoped") stream_id
      else (s, NoError)
  | kPing => CompleteWith (ProcessPing s d fr) stream_id
  | kPong => CompleteWith (ProcessPong s d fr) stream_id
  | _ =>
      if negb (binding_frames_complete s) then
        Complete s (violation "message is not allowed before transport binding completes")
          stream_id
      else (s, NoError)
  end.

(** The step on the directional message id. *)
Definition AdvanceMessageId (s : TranscriptParser) (d : Direction) : TranscriptParser :=
  if get2 (next_message_id s) d =? umax 64 then
    s <| message_id_exhausted := set2 (message_id_exhausted s) d true |>
  else s <| next_message_id := set2 (next_message_id s) d (get2 (next_message_id s) d + 1) |>.

Definition ExpectedVersion (s : TranscriptParser) : Version :=
  if negotiation_acknowledged s then selected_version (negotiation s) else Version_default.

Definition Process (s : TranscriptParser) (d : Direction) (encoded : bytes)
    : TranscriptParser * Error :=
  if terminal s then (s, violation "transcript is terminal after a fatal error") else
  let parsed := ParseFrameEnvelope encoded (ExpectedVersion s) in
  if negb (result_ok parsed) then Complete s (pr_error parsed) 0 else
  let fr := pr_frame parsed in
  let stream_id := h_stream_id (pf_header fr) in
  if get2 (message_id_exhausted s) d ||
     negb (h_message_id (pf_header fr) =? get2 (next_message_id s) d) then
    Complete s (MakeError ErrorCode.kMessageIdViolation
                  "message ID is not the next directional value") stream_id
  else
  let s := AdvanceMessageId s d in
  if negotiation_acknowledged s &&
     (h_body_length (pf_header fr) >? effective_max_body (negotiation s)) then
    Complete s (MakeError ErrorCode.kLimitExceeded
                  "body length exceeds the negotiated limit") stream_id
  else
  let state_error := ValidateEnvelopeState s d fr in
  if negb (error_ok state_error) then Complete s state_error stream_id else
  let '(fr, body_error) := ParseFrameBody fr in
  if negb (error_ok body_error) then Complete s body_error stream_id else
  Dispatch s d fr.
