(* ===== verification/V1TranscriptProofs.v ===== *)
(** * Properties of the negotiation transcript

    The set reasoning behind the capability checks, the invariant every
    reachable [TranscriptParser] satisfies, and what an accepted frame means
    for the message-id sequence. *)

From S2P Require Import Prelude.
From S2P Require Import V1Parser.
From S2P Require Import V1ParserProofs.
From S2P Require Import V1Transcript.
Import WireType MessageType.

(** ** Sorted lists *)

Abbreviation increasing := (StronglySorted Z.lt).

Lemma StrictlyIncreasing_spec l : StrictlyIncreasing l = true <-> increasing l.
Proof.
  split.
  - intros H. apply Sorted_StronglySorted; [intros x y z; lia |].
    induction l as [| x [| y l] IH]; [constructor | repeat constructor |].
    cbn [StrictlyIncreasing] in H. split_if_in H; [done |]. bool_facts.
    constructor; [by apply IH | by constructor].
  - intros H. induction H as [| x l Hl IH Hx]; [done |].
    destruct l as [| y l]; [done |]. cbn [StrictlyIncreasing].
    apply Forall_cons_1 in Hx as [Hxy _]. by replace (y <=? x) with false by lia.
Qed.

Lemma CheckCapabilities_increasing l :
  error_ok (CheckCapabilities l) = true -> increasing l.
Proof.
  intros H. apply StrictlyIncreasing_spec.
  induction l as [| x [| y l] IH]; [done | done |]. cbn [CheckCapabilities] in H.
  cbn [StrictlyIncreasing]. split_if_in H; [done |]. split_if_in H; [done |]. by apply IH.
Qed.

Lemma increasing_nth l i j :
  increasing l -> (i < j < length l)%nat -> nth i l 0 < nth j l 0.
Proof.
  intros H. revert i j. induction H as [| x l Hl IH Hx]; intros i j Hij; [simpl in Hij; lia |].
  destruct j as [| j]; [lia |]. destruct i as [| i]; cbn [nth length] in *.
  - rewrite List.Forall_forall in Hx. apply Hx, nth_In. lia.
  - apply IH. lia.
Qed.

Lemma lower_bound_loop_spec fuel l first len wanted :
  increasing l -> (len <= fuel)%nat -> (first + len <= length l)%nat ->
  (forall i, (i < first)%nat -> nth i l 0 < wanted) ->
  (forall i, (first + len <= i < length l)%nat -> wanted <= nth i l 0) ->
  let r := lower_bound_loop fuel l first len wanted in
  (r <= length l)%nat /\ (forall i, (i < r)%nat -> nth i l 0 < wanted) /\
  (forall i, (r <= i < length l)%nat -> wanted <= nth i l 0).
Proof.
  intros Hl. revert first len.
  induction fuel as [| fuel IH]; intros first len Hf Hle Hlo Hhi; cbn [lower_bound_loop].
  { split; [lia |]. split; [done |]. intros i Hi. apply Hhi. lia. }
  destruct (Nat.eqb_spec len 0) as [-> | Hlen].
  { split; [lia |]. split; [done |]. intros i Hi. apply Hhi. lia. }
  pose proof (Nat.div2_div len) as Hdiv.
  assert (Hhalf : (Nat.div2 len < len)%nat) by (apply Nat.lt_div2; lia).
  destruct (Z.ltb_spec (nth (first + Nat.div2 len) l 0) wanted) as [Hlt | Hge].
  - apply IH; [lia | lia | |].
    + intros i Hi. destruct (Nat.eq_dec i (first + Nat.div2 len)%nat) as [-> | Hne]; [done |].
      pose proof (increasing_nth l i (first + Nat.div2 len)%nat Hl). lia.
    + intros i Hi. apply Hhi. lia.
  - apply IH; [lia | lia | done |].
    intros i Hi. destruct (Nat.eq_dec i (first + Nat.div2 len)%nat) as [-> | Hne]; [lia |].
    pose proof (increasing_nth l (first + Nat.div2 len)%nat i Hl). lia.
Qed.

(** [std::binary_search] on a sorted range is membership. *)
Lemma Contains_spec l wanted : increasing l -> Contains l wanted = true <-> In wanted l.
Proof.
  intros Hl. unfold Contains, binary_search.
  destruct (lower_bound_loop_spec (length l) l 0 (length l) wanted) as (Hr & Hlo & Hhi);
    [done | lia | lia | intros i Hi; lia | intros i Hi; lia |].
  set (r := lower_bound_loop _ _ _ _ _) in *. split.
  - intros H. bool_facts. apply Nat.eqb_neq in H. bool_facts.
    pose proof (Hhi r). replace wanted with (nth r l 0) by lia. apply nth_In. lia.
  - intros Hin. apply (In_nth l wanted 0) in Hin as (i & Hi & Hx).
    assert (Hri : (r <= i)%nat).
    { destruct (Nat.le_gt_cases r i) as [| Hgt]; [done |].
      specialize (Hlo i Hgt). lia. }
    assert (i = r) as ->.
    { destruct (Nat.eq_dec i r) as [| Hne]; [done |].
      pose proof (increasing_nth l r i Hl). pose proof (Hhi r). lia. }
    rewrite Hx, Z.ltb_irrefl. replace (r =? length l)%nat with false; [done |].
    symmetry. apply Nat.eqb_neq. lia.
Qed.

Lemma Intersection_nil_r a : Intersection a [] = [].
Proof. by destruct a. Qed.

Lemma Intersection_cons x a y b :
  Intersection (x :: a) (y :: b) =
  if x =? y then x :: Intersection a b
  else if x <? y then Intersection a (y :: b) else Intersection (x :: a) b.
Proof. reflexivity. Qed.

Lemma increasing_head x l z : increasing (x :: l) -> In z l -> x < z.
Proof.
  intros H Hin. apply StronglySorted_inv in H as [_ H].
  rewrite List.Forall_forall in H. auto.
Qed.

(** The merge computes the common elements of two sorted lists. *)
Lemma Intersection_In a b z :
  increasing a -> increasing b -> In z (Intersection a b) <-> In z a /\ In z b.
Proof.
  intros Ha. revert b. induction a as [| x a IHa]; intros b Hb; [cbn; tauto |].
  pose proof (StronglySorted_inv Ha) as [Ha' _].
  induction b as [| y b IHb]; [cbn; tauto |].
  pose proof (StronglySorted_inv Hb) as [Hb' _]. rewrite Intersection_cons.
  destruct (Z.eqb_spec x y) as [<- | Hne].
  - cbn [In]. rewrite IHa by done. split; [tauto |].
    intros [[-> | Hza] [Hx | Hzb]]; tauto.
  - destruct (Z.ltb_spec x y).
    + rewrite IHa by done. pose proof (increasing_head y b z Hb). cbn [In].
      split; [tauto |]. intros [[-> | Hza] Hzb]; [| tauto]. exfalso.
      destruct Hzb as [-> | Hzb]; [lia | specialize (H0 Hzb); lia].
    + rewrite IHb by done. pose proof (increasing_head x a z Ha). cbn [In].
      split; [tauto |]. intros [Hza [-> | Hzb]]; [| tauto]. exfalso.
      destruct Hza as [-> | Hza]; [lia | specialize (H0 Hza); lia].
Qed.

Lemma Intersection_increasing a b :
  increasing a -> increasing b -> increasing (Intersection a b).
Proof.
  intros Ha. revert b. induction a as [| x a IHa]; intros b Hb; [constructor |].
  pose proof (StronglySorted_inv Ha) as [Ha' _].
  induction b as [| y b IHb]; [constructor |].
  pose proof (StronglySorted_inv Hb) as [Hb' _]. rewrite Intersection_cons.
  destruct (Z.eqb_spec x y) as [<- | Hne]; [| destruct (Z.ltb_spec x y); auto].
  constructor; [by apply IHa |]. rewrite List.Forall_forall. intros z Hz.
  apply Intersection_In in Hz as [Hz _]; [| done | done].
  by apply (increasing_head x a z).
Qed.

(** ** Versions *)

Lemma VersionLess_spec a b :
  VersionLess a b = true <->
  major a < major b \/ major a = major b /\ minor a < minor b.
Proof.
  unfold VersionLess. rewrite orb_true_iff, andb_true_iff, !Z.ltb_lt, Z.eqb_eq. tauto.
Qed.

Lemma VersionLess_false a b :
  VersionLess a b = false <->
  major b < major a \/ major b = major a /\ minor b <= minor a.
Proof. rewrite <- not_true_iff_false, VersionLess_spec. lia. Qed.

Definition in_range (v : Version) (h : HelloData) : Prop :=
  VersionLess v (minimum h) = false /\ VersionLess (maximum h) v = false.

(** [v] is supported by both sides, and no greater version is. *)
Definition highest_common (v : Version) (h0 h1 : HelloData) : Prop :=
  in_range v h0 /\ in_range v h1 /\
  forall v', in_range v' h0 -> in_range v' h1 -> VersionLess v v' = false.

Lemma highest_common_spec h0 h1 :
  VersionLess (VersionMinimum (maximum h0) (maximum h1))
              (VersionMaximum (minimum h0) (minimum h1)) = false ->
  highest_common (VersionMinimum (maximum h0) (maximum h1)) h0 h1.
Proof.
  unfold highest_common, in_range, VersionMinimum, VersionMaximum.
  destruct (VersionLess (maximum h0) (maximum h1)) eqn:E1,
           (VersionLess (minimum h0) (minimum h1)) eqn:E2;
    rewrite ?VersionLess_spec, ?VersionLess_false in *; intros H;
    (split_and!; [lia.. |]); intros v'; rewrite !VersionLess_false; lia.
Qed.

(** ** The invariant *)

(** A stored HELLO has passed every test of [ProcessHello]. *)
Record wf_hello (d : Direction) (h : HelloData) : Prop := {
  wfl_role : role h = expected_role d;
  wfl_versions : VersionLess (maximum h) (minimum h) = false;
  wfl_capabilities : increasing (capabilities h);
  wfl_required : increasing (required_capabilities h);
  wfl_advertised : incl (required_capabilities h) (capabilities h);
  wfl_base : In kBaseTransferV1 (required_capabilities h);
  wfl_body : 8192 <= receive_max_body h <= kMaxBodyLength;
  wfl_in_flight : 1048576 <= receive_max_in_flight h <= kMaxInFlight;
  wfl_streams : 1 <= receive_max_streams h <= kMaxStreams;
}.

(** The result of a negotiation: the highest common version, the common
    capabilities with every required one among them, and the smaller limits. *)
Record agreed (h0 h1 : HelloData) (n : NegotiationData) : Prop := {
  agreed_version : highest_common (selected_version n) h0 h1;
  agreed_capabilities : forall c,
    In c (selected_capabilities n) <-> In c (capabilities h0) /\ In c (capabilities h1);
  agreed_required : forall c,
    In c (required_capabilities h0) \/ In c (required_capabilities h1) ->
    In c (selected_capabilities n);
  agreed_body :
    effective_max_body n = Z.min (receive_max_body h0) (receive_max_body h1);
  agreed_in_flight :
    effective_max_in_flight n = Z.min (receive_max_in_flight h0) (receive_max_in_flight h1);
  agreed_streams :
    effective_max_streams n = Z.min (receive_max_streams h0) (receive_max_streams h1);
}.

Record transcript_inv (s : TranscriptParser) : Prop := {
  inv_ids : forall d, 1 <= get2 (next_message_id s) d <= umax 64;
  inv_hello : forall d, hello_present (get2 (hellos s) d) = true ->
    wf_hello d (get2 (hellos s) d);
  inv_negotiation : negotiation_present (negotiation s) = true ->
    hello_present (at0 (hellos s)) = true /\ hello_present (at1 (hellos s)) = true /\
    agreed (at0 (hellos s)) (at1 (hellos s)) (negotiation s);
  inv_acknowledged : negotiation_acknowledged s = true ->
    negotiation_present (negotiation s) = true;
  inv_finished : forall d, get2 (transport_finished s) d = true ->
    negotiation_acknowledged s = true;
  inv_complete : binding_frames_complete s =
    at0 (transport_finished s) && at1 (transport_finished s);
  inv_pong : forall d, get2 (pong_expected s) d = true -> binding_frames_complete s = true;
}.

(** The states a transcript can be in. *)
Inductive reachable : TranscriptParser -> Prop :=
  | reachable_init : reachable TranscriptParser_init
  | reachable_step s d encoded :
      reachable s -> reachable (fst (Process s d encoded)).

Lemma get2_set2 {T} (b : both T) d d' v :
  get2 (set2 b d v) d' = if decide (d = d') then v else get2 b d'.
Proof. by destruct d, d'. Qed.

Lemma inv_init : transcript_inv TranscriptParser_init.
Proof. split; intros; try done; by destruct d. Qed.

Lemma inv_terminal s b : transcript_inv s -> transcript_inv (s <| terminal := b |>).
Proof. intros []. by split. Qed.

Lemma inv_Complete s e sid : transcript_inv s -> transcript_inv (fst (Complete s e sid)).
Proof.
  intros H. unfold Complete. destruct (error_ok e); [done |].
  destruct (err_code e); by try apply inv_terminal.
Qed.

Lemma inv_AdvanceMessageId s d :
  transcript_inv s -> transcript_inv (AdvanceMessageId s d).
Proof.
  intros H. unfold AdvanceMessageId. destruct (Z.eqb_spec (get2 (next_message_id s) d) (umax 64)).
  - destruct H. by split.
  - destruct H as [Hids ? ? ? ? ? ?]. split; try done. intros d'. cbn.
    pose proof (Hids d). pose proof (Hids d'). rewrite get2_set2. case_decide; lia.
Qed.

Lemma not_late s d :
  HelloLate s d = false ->
  hello_present (get2 (hellos s) d) = false /\ negotiation_present (negotiation s) = false /\
  negotiation_acknowledged s = false.
Proof. unfold HelloLate. intros. bool_facts. done. Qed.

Lemma existsb_not_contains l m :
  increasing l -> existsb (fun c => negb (Contains l c)) m = false -> incl m l.
Proof.
  intros Hl H c Hc. apply Contains_spec; [done |].
  rewrite <- not_true_iff_false, existsb_exists in H.
  destruct (Contains l c) eqn:E; [done |]. exfalso. apply H. exists c. by rewrite E.
Qed.

(** The candidate a HELLO without error stores. *)
Lemma ProcessHello_spec s d fr :
  snd (ProcessHello s d fr) <> NoError /\ fst (ProcessHello s d fr) = s \/
  snd (ProcessHello s d fr) = NoError /\ HelloLate s d = false /\
  exists h, hello_present h = true /\ wf_hello d h /\
    fst (ProcessHello s d fr) = s <| hellos := set2 (hellos s) d h |>.
Proof.
  unfold ProcessHello. cbv zeta.
  split_if; [by left |]. split_if; [by left |]. split_if; [by left |].
  split_if; [by left |].
  split_if; [left; split; [cbn; intros Hx; by rewrite Hx in E3 | done] |].
  split_if; [by left |]. split_if; [by left |]. split_if; [by left |].
  split_if; [by left |]. split_if; [by left |]. split_if; [by left |].
  right. split; [done |]. split; [done |]. eexists. split; [| split; [| reflexivity]]; [done |].
  bool_facts. apply CheckCapabilities_increasing in E3 as Hc.
  apply StrictlyIncreasing_spec in E4 as Hr.
  pose proof (wrap_range 16 (RequiredUnsigned fr 10)) as Hw. unfold in_width in Hw.
  split; cbn; try done; try lia; [by apply existsb_not_contains | by apply Contains_spec].
Qed.

Lemma inv_ProcessHello s d fr :
  transcript_inv s -> transcript_inv (fst (ProcessHello s d fr)).
Proof.
  intros H. destruct (ProcessHello_spec s d fr) as [[_ ->] | (_ & Hl & h & Hp & Hw & ->)];
    [done |].
  apply not_late in Hl as (Hh & Hn & Ha). destruct H as [Hids Hhel Hneg Hack Hfin Hcom Hpong].
  split; try done; cbn.
  - intros d'. rewrite get2_set2. case_decide as Hd; [by subst | apply Hhel].
  - congruence.
Qed.

Lemma ProcessNegotiate_spec s d fr :
  transcript_inv s ->
  snd (ProcessNegotiate s d fr) <> NoError /\ fst (ProcessNegotiate s d fr) = s \/
  snd (ProcessNegotiate s d fr) = NoError /\ NegotiateState s d = NoError /\
  exists n, negotiation_present n = true /\
    agreed (at0 (hellos s)) (at1 (hellos s)) n /\
    fst (ProcessNegotiate s d fr) = s <| negotiation := n |>.
Proof.
  intros Hinv. unfold ProcessNegotiate. cbv zeta.
  split_if; [left; split; [cbn; intros Hx; by rewrite Hx in E | done] |].
  assert (Hstate : NegotiateState s d = NoError /\ hello_present (at0 (hellos s)) = true
                   /\ hello_present (at1 (hellos s)) = true).
  { unfold NegotiateState in *. split_if; [done |]. split_if; [done |].
    split_if; [done |]. bool_facts. done. }
  destruct Hstate as (Hst & Hp0 & Hp1).
  pose proof (inv_hello s Hinv kInitiatorToResponder Hp0) as W0.
  pose proof (inv_hello s Hinv kResponderToInitiator Hp1) as W1. cbn in W0, W1.
  split_if; [by left |]. split_if; [by left |]. split_if; [by left |].
  split_if; [by left |]. split_if; [by left |]. split_if; [by left |].
  split_if; [by left |].
  right. split; [done |]. split; [done |].
  eexists. split; [| split; [| reflexivity]]; [done |]. bool_facts.
  apply bool_decide_eq_true in E3. apply same_bytes_true in E5.
  pose proof (Intersection_increasing _ _ (wfl_capabilities _ _ W0) (wfl_capabilities _ _ W1))
    as Hinc.
  pose proof (existsb_not_contains _ _ Hinc E4) as Hreq.
  split; cbn [selected_version selected_capabilities effective_max_body
    effective_max_in_flight effective_max_streams]; try done.
  - rewrite E3. by apply highest_common_spec.
  - intros c. rewrite E5. apply Intersection_In; [apply W0 | apply W1].
  - intros c Hc. rewrite E5. apply Hreq, in_app_iff. done.
Qed.

Lemma inv_ProcessNegotiate s d fr :
  transcript_inv s -> transcript_inv (fst (ProcessNegotiate s d fr)).
Proof.
  intros H.
  destruct (ProcessNegotiate_spec s d fr H) as [[_ ->] | (_ & Hst & n & Hp & Hag & ->)];
    [done |].
  unfold NegotiateState in Hst. split_if_in Hst; [done |]. split_if_in Hst; [done |].
  bool_facts. destruct H as [Hids Hhel Hneg Hack Hfin Hcom Hpong]. by split.
Qed.

Lemma inv_ProcessNegotiateAck s d fr :
  transcript_inv s -> transcript_inv (fst (ProcessNegotiateAck s d fr)).
Proof.
  intros H. unfold ProcessNegotiateAck. cbv zeta.
  split_if; [done |]. split_if; [done |]. split_if; [done |].
  unfold NegotiateAckState in E. split_if_in E; [done |]. split_if_in E; [done |]. split_if_in E; [done |]. bool_facts.
  destruct H as [Hids Hhel Hneg Hack Hfin Hcom Hpong]. by split.
Qed.

Lemma inv_ProcessTransportFinished s d fr :
  transcript_inv s -> transcript_inv (fst (ProcessTransportFinished s d fr)).
Proof.
  intros H. unfold ProcessTransportFinished. cbv zeta.
  split_if; [done |]. split_if; [done |]. unfold TransportFinishedState in E. split_if_in E; [done |]. split_if_in E; [done |].
  bool_facts. destruct H as [Hids Hhel Hneg Hack Hfin Hcom Hpong]. split; try done.
  intros d' Hp. cbn. specialize (Hpong d' Hp). rewrite Hcom in Hpong. bool_facts.
  destruct d; cbn in *; congruence.
Qed.

Lemma inv_ProcessPing s d fr : transcript_inv s -> transcript_inv (fst (ProcessPing s d fr)).
Proof.
  intros H. unfold ProcessPing. split_if; [done |]. split_if; [done |]. bool_facts.
  destruct H as [Hids Hhel Hneg Hack Hfin Hcom Hpong]. by split.
Qed.

Lemma inv_ProcessPong s d fr : transcript_inv s -> transcript_inv (fst (ProcessPong s d fr)).
Proof.
  intros H. unfold ProcessPong. split_if; [done |]. split_if; [done |]. bool_facts.
  destruct H as [Hids Hhel Hneg Hack Hfin Hcom Hpong]. by split.
Qed.

#[local] Hint Resolve inv_Complete inv_AdvanceMessageId inv_ProcessHello
  inv_ProcessNegotiate inv_ProcessNegotiateAck inv_ProcessTransportFinished
  inv_ProcessPing inv_ProcessPong : xnn.

Lemma inv_Dispatch s d fr : transcript_inv s -> transcript_inv (fst (Dispatch s d fr)).
Proof.
  intros H. unfold Dispatch, CompleteWith.
  destruct (h_message_type _); auto with xnn; split_if; auto with xnn.
Qed.

Lemma inv_Process s d encoded : transcript_inv s -> transcript_inv (fst (Process s d encoded)).
Proof.
  intros H. unfold Process. cbv zeta.
  split_if; [done |]. split_if; [auto with xnn |]. split_if; [auto with xnn |].
  split_if; [auto with xnn |]. split_if; [auto with xnn |].
  destruct (ParseFrameBody _) as [fr e]. split_if; [auto with xnn |].
  by apply inv_Dispatch, inv_AdvanceMessageId.
Qed.

Lemma reachable_inv s : reachable s -> transcript_inv s.
Proof. induction 1; [apply inv_init | by apply inv_Process]. Qed.

(** ** Accepted frames *)

(** The sequence counters are the two arrays only [AdvanceMessageId] writes. *)
Definition counters (s : TranscriptParser) : both Z * both bool :=
  (next_message_id s, message_id_exhausted s).

Lemma counters_Complete s e sid : counters (fst (Complete s e sid)) = counters s.
Proof. unfold Complete. destruct (error_ok e); [done |]. by destruct (err_code e). Qed.

Lemma counters_Dispatch s d fr : counters (fst (Dispatch s d fr)) = counters s.
Proof.
  unfold Dispatch, CompleteWith.
  destruct (h_message_type _); try (split_if; [apply counters_Complete | done]);
    rewrite counters_Complete.
  - destruct (ProcessHello_spec s d fr) as [[_ ->] | (_ & _ & h & _ & _ & ->)]; done.
  - unfold ProcessNegotiate. cbv zeta. repeat (split_if; [done |]). done.
  - unfold ProcessNegotiateAck. cbv zeta. repeat (split_if; [done |]). done.
  - unfold ProcessPing. repeat (split_if; [done |]). done.
  - unfold ProcessPong. repeat (split_if; [done |]). done.
  - unfold ProcessTransportFinished. cbv zeta. repeat (split_if; [done |]). done.
Qed.

Lemma Complete_error s e sid : snd (Complete s e sid) = e.
Proof. unfold Complete. destruct (error_ok e); [done |]. by destruct (err_code e). Qed.

(** [Process] accepted the frame. *)
Definition accepted (s : TranscriptParser) (d : Direction) (encoded : bytes) : Prop :=
  error_ok (snd (Process s d encoded)) = true.

Lemma accepted_inv s d encoded :
  accepted s d encoded ->
  terminal s = false /\ result_ok (ParseFrameEnvelope encoded (ExpectedVersion s)) = true /\
  let fr := pr_frame (ParseFrameEnvelope encoded (ExpectedVersion s)) in
  get2 (message_id_exhausted s) d = false /\
  h_message_id (pf_header fr) = get2 (next_message_id s) d /\
  (negotiation_acknowledged s = true ->
     h_body_length (pf_header fr) <= effective_max_body (negotiation s)) /\
  error_ok (ValidateEnvelopeState (AdvanceMessageId s d) d fr) = true /\
  counters (fst (Process s d encoded)) = counters (AdvanceMessageId s d).
Proof.
  unfold accepted. intros H. unfold Process in *. cbv zeta in *.
  split_if; [done |]. split; [done |].
  split_if; [rewrite Complete_error in H; unfold result_ok in E0; bool_facts; congruence |].
  bool_facts. split; [done |].
  split_if; [by rewrite Complete_error in H |]. bool_facts. split; [done |]. split; [done |].
  split_if; [by rewrite Complete_error in H |].
  split.
  { intros Hack.
    match goal with H : _ && (_ >? _) = false |- _ => rename H into Hlim end.
    apply andb_false_iff in Hlim as [Hf | Hf]; [| bool_facts; revert Hf;
      unfold AdvanceMessageId; by split_if].
    exfalso. assert (negotiation_acknowledged (AdvanceMessageId s d)
                     = negotiation_acknowledged s) as Hx
      by (unfold AdvanceMessageId; by split_if). congruence. }
  split_if; [rewrite Complete_error in H; bool_facts; congruence |]. bool_facts.
  split; [done |]. destruct (ParseFrameBody _) as [fr e].
  split_if; [rewrite Complete_error in H; bool_facts; congruence |].
  apply counters_Dispatch.
Qed.

(** Runs in which every frame was accepted. *)
Inductive accepted_run : TranscriptParser -> list (Direction * bytes) -> TranscriptParser -> Prop :=
  | accepted_nil s : accepted_run s [] s
  | accepted_snoc s tr s' d encoded :
      accepted_run s tr s' -> accepted s' d encoded ->
      accepted_run s (tr ++ [(d, encoded)]) (fst (Process s' d encoded)).

(** The message id in the fixed header of a frame. *)
Definition frame_message_id (encoded : bytes) : Z := ReadU64 (subspan encoded 16 8).

Definition in_direction (d : Direction) (p : Direction * bytes) : bool :=
  bool_decide (fst p = d).

(** The message ids of the frames of one direction, in the order of the run. *)
Definition message_ids (d : Direction) (tr : list (Direction * bytes)) : list Z :=
  List.map (fun p => frame_message_id (snd p)) (List.filter (in_direction d) tr).

Lemma header_message_id encoded v :
  result_ok (ParseFrameEnvelope encoded v) = true ->
  h_message_id (pf_header (pr_frame (ParseFrameEnvelope encoded v))) = frame_message_id encoded.
Proof.
  unfold ParseFrameEnvelope. destruct (result_ok (ParseFrameHeader encoded v)) eqn:Hok;
    cbn [negb]; [| congruence].
  intros H. assert (Hid : h_message_id (pf_header (pr_frame (ParseFrameHeader encoded v)))
                          = frame_message_id encoded).
  { clear H. unfold ParseFrameHeader, result_ok in *. cbv zeta in *.
    do 8 (split_if; [done |]). destruct (message_type_of_code _); [| done].
    do 2 (split_if; [done |]). destruct (ParseTlvs _ []). by repeat split_if. }
  by split_if.
Qed.

(** The id the next frame of direction [d] must have after [n] accepted ones. *)
Definition sequence_state (s : TranscriptParser) (d : Direction) (n : Z) : Prop :=
  get2 (next_message_id s) d
  = if get2 (message_id_exhausted s) d then n else n + 1.

Lemma accepted_run_ids tr s :
  accepted_run TranscriptParser_init tr s ->
  forall d, message_ids d tr = List.map Z.of_nat (seq 1 (length (message_ids d tr))) /\
    sequence_state s d (Z.of_nat (length (message_ids d tr))).
Proof.
  intros H. remember TranscriptParser_init as s0 eqn:Es0.
  induction H as [s | s tr s' d0 encoded Hrun IH Hacc]; intros d; subst.
  { by destruct d. }
  specialize (IH eq_refl). destruct (IH d) as [Hids Hseq].
  apply accepted_inv in Hacc as (_ & Henv & Hex & Hid & _ & _ & Hcnt).
  rewrite header_message_id in Hid by done. unfold counters in Hcnt.
  injection Hcnt as Hnext Hexh. unfold sequence_state. rewrite Hnext, Hexh.
  unfold message_ids in *. rewrite List.filter_app, List.map_app. cbn [List.filter].
  unfold in_direction at 2 4 6 8. cbn [fst]. unfold AdvanceMessageId, sequence_state in *.
  destruct (decide (d0 = d)) as [-> | Hne].
  - rewrite bool_decide_true by done. cbn [List.map snd]. rewrite length_app. cbn [length].
    rewrite Hex in Hseq. rewrite seq_app, List.map_app, <- Hids. cbn [seq List.map].
    split; [f_equal; f_equal; lia |].
    destruct (Z.eqb_spec (get2 (next_message_id s') d) (umax 64)); cbn;
      rewrite get2_set2, decide_True by done; rewrite ?Hex; lia.
  - rewrite bool_decide_false, app_nil_r by done. split; [done |].
    destruct (_ =? umax 64); cbn; rewrite get2_set2, decide_False by done; exact Hseq.
Qed.

(** ** Errors *)

(** A handler that reports an error leaves the state as it was. *)
Lemma handler_error s d fr r :
  (r = ProcessHello s d fr \/ r = ProcessNegotiate s d fr \/ r = ProcessNegotiateAck s d fr \/
   r = ProcessTransportFinished s d fr \/ r = ProcessPing s d fr \/ r = ProcessPong s d fr) ->
  error_ok (snd r) = false -> fst r = s.
Proof.
  intros [-> | [-> | [-> | [-> | [-> | ->]]]]] H.
  - destruct (ProcessHello_spec s d fr) as [[_ ->] | (Hn & _)]; [done | by rewrite Hn in H].
  - unfold ProcessNegotiate in *. cbv zeta in *. repeat (split_if; [done |]). done.
  - unfold ProcessNegotiateAck in *. cbv zeta in *. repeat (split_if; [done |]). done.
  - unfold ProcessTransportFinished in *. cbv zeta in *. repeat (split_if; [done |]). done.
  - unfold ProcessPing in *. repeat (split_if; [done |]). done.
  - unfold ProcessPong in *. repeat (split_if; [done |]). done.
Qed.

(** The codes the transcript never survives. *)
Definition connection_fatal (c : ErrorCode.ErrorCode) : bool :=
  match c with
  | ErrorCode.kMalformedFrame | ErrorCode.kFrameTooLarge
  | ErrorCode.kUnsupportedVersion | ErrorCode.kDowngradeDetected
  | ErrorCode.kUnsupportedCapability | ErrorCode.kUnsupportedMessage
  | ErrorCode.kMessageIdViolation => true
  | _ => false
  end.

Lemma Complete_terminal s e sid :
  error_ok e = false ->
  connection_fatal (err_code e) = true \/ binding_frames_complete s = false ->
  terminal (fst (Complete s e sid)) = true.
Proof.
  intros He H. unfold Complete. rewrite He. unfold error_ok in He.
  apply bool_decide_eq_false in He. destruct (err_code e); try done;
    (destruct H as [H | H]; [done | by cbn; rewrite H]).
Qed.

Lemma Process_error_terminal s d encoded :
  error_ok (snd (Process s d encoded)) = false ->
  connection_fatal (err_code (snd (Process s d encoded))) = true \/
  binding_frames_complete s = false ->
  terminal (fst (Process s d encoded)) = true.
Proof.
  intros He H. unfold Process in *. cbv zeta in *. split_if; [done |].
  assert (Hb : binding_frames_complete (AdvanceMessageId s d) = binding_frames_complete s)
    by (unfold AdvanceMessageId; by split_if).
  do 2 (split_if; [rewrite Complete_error in *; by apply Complete_terminal |]).
  rewrite <- Hb in H.
  do 2 (split_if; [rewrite Complete_error in *; by apply Complete_terminal |]).
  destruct (ParseFrameBody _) as [fr e]. split_if;
    [rewrite Complete_error in *; by apply Complete_terminal |].
  set (s1 := AdvanceMessageId s d) in *. unfold Dispatch, CompleteWith in *.
  destruct (h_message_type _);
    try (split_if; [rewrite Complete_error in *; by apply Complete_terminal | done]);
    rewrite Complete_error in *;
    match goal with |- context [Complete (fst ?r) _ _] =>
      rewrite (handler_error s1 d fr r); [by apply Complete_terminal | tauto | done]
    end.
Qed.

(** Feeding a list of frames to a transcript. *)
Fixpoint run (s : TranscriptParser) (tr : list (Direction * bytes)) : TranscriptParser :=
  match tr with
  | [] => s
  | (d, encoded) :: tr => run (fst (Process s d encoded)) tr
  end.

Lemma run_reachable s tr : reachable s -> reachable (run s tr).
Proof.
  revert s. induction tr as [| [d enc] tr IH]; intros s H; [done |].
  by apply IH, reachable_step.
Qed.

Lemma run_terminal s tr : terminal s = true -> run s tr = s.
Proof.
  intros H. induction tr as [| [d enc] tr IH]; [done |]. cbn.
  unfold Process. rewrite H. exact IH.
Qed.

Definition all_accepted_step (a : bool * TranscriptParser) (p : Direction * bytes)
    : bool * TranscriptParser :=
  let r := Process (snd a) (fst p) (snd p) in (fst a && error_ok (snd r), fst r).

Lemma accepted_run_fold tr s :
  fst (fold_left all_accepted_step tr (true, s)) = true ->
  accepted_run s tr (snd (fold_left all_accepted_step tr (true, s))).
Proof.
  induction tr as [| p tr IH] using rev_ind; intros H; [constructor |].
  rewrite fold_left_app in *. cbn [fold_left] in *. unfold all_accepted_step at 1 in H.
  cbn [fst] in H. apply andb_true_iff in H as [H1 H2]. destruct p as [d enc].
  apply accepted_snoc; [by apply IH | exact H2].
Qed.

(** ** An example transcript *)

Definition field (id : Z) (t : WireType) (v : bytes) : FieldView :=
  {| f_id := id; f_wire_type := t; f_flags := 1; f_value := v |}.

Definition example_frame (t : MessageType) (mid : Z) (fields : list FieldView) : bytes :=
  encode_header
    {| h_length := 28; h_version := Version_default; h_message_type := t; h_flags := 0;
       h_stream_id := if IsTransferMessage t then 1 else 0; h_message_id := mid;
       h_body_length := bsize (encode_tlvs fields) |} ++ encode_tlvs fields.

Definition example_hello (r : Z) (max_body : Z) : bytes :=
  example_frame kHello 1
    [field 1 kU16 (be_bytes 2 1); field 2 kU16 (be_bytes 2 0); field 3 kU16 (be_bytes 2 1);
     field 4 kU16 (be_bytes 2 0); field 5 kU8 [r]; field 6 kU32 (be_bytes 4 kBaseTransferV1);
     field 7 kU32 (be_bytes 4 kBaseTransferV1); field 8 kU32 (be_bytes 4 max_body);
     field 9 kU32 (be_bytes 4 1048576); field 10 kU16 (be_bytes 2 8)].

Definition example_negotiate_fields : list FieldView :=
  [field 1 kU16 (be_bytes 2 1); field 2 kU16 (be_bytes 2 0);
   field 3 kU32 (be_bytes 4 kBaseTransferV1); field 4 kU32 (be_bytes 4 8192);
   field 5 kU32 (be_bytes 4 1048576); field 6 kU16 (be_bytes 2 8)].

Definition example_transcript : list (Direction * bytes) :=
  [(kInitiatorToResponder, example_hello 1 65536);
   (kResponderToInitiator, example_hello 2 8192);
   (kInitiatorToResponder, example_frame kNegotiate 2 example_negotiate_fields);
   (kResponderToInitiator, example_frame kNegotiateAck 2 example_negotiate_fields);
   (kInitiatorToResponder,
    example_frame kTransportFinished 3 [field 1 kU8 [1]; field 2 kBytes [9; 9]]);
   (kResponderToInitiator,
    example_frame kTransportFinished 3 [field 1 kU8 [2]; field 2 kBytes [7]])].

Definition example_cancel : bytes :=
  example_frame kCancel 4 [field 1 kBytes (be_bytes 16 3); field 2 kU16 (be_bytes 2 0x107)].

Definition example_bound : TranscriptParser := run TranscriptParser_init example_transcript.

Lemma example_bound_reachable : reachable example_bound.
Proof. apply run_reachable, reachable_init. Qed.

(** ** Properties *)

(** C8: Agreement.  In every reachable transcript whose binding frames are
    complete, both HELLO messages are valid for their role, and the negotiated
    parameters are exactly the highest version both sides support, the common
    capabilities (with every required one, BASE_TRANSFER_V1 among them) and the
    smaller of the two limits; no sequence of hostile frames negotiates
    anything lower. *)
Theorem transcript_agreement (s : TranscriptParser) (Hr : reachable s)
    (Hc : binding_frames_complete s = true) :
  wf_hello kInitiatorToResponder (at0 (hellos s)) /\
  wf_hello kResponderToInitiator (at1 (hellos s)) /\
  agreed (at0 (hellos s)) (at1 (hellos s)) (negotiation s) /\
  In kBaseTransferV1 (selected_capabilities (negotiation s)) /\
  8192 <= effective_max_body (negotiation s) <= kMaxBodyLength /\
  negotiation_acknowledged s = true.
Proof.
  apply reachable_inv in Hr as [_ Hh Hn Ha Hf Hcom _].
  rewrite Hcom in Hc. apply andb_true_iff in Hc as [Hc _].
  pose proof (Hf kInitiatorToResponder Hc) as Hack.
  destruct (Hn (Ha Hack)) as (H0 & H1 & Hag).
  pose proof (Hh kInitiatorToResponder H0) as W0.
  pose proof (Hh kResponderToInitiator H1) as W1. cbn in W0, W1.
  split_and!; try done; try (rewrite (agreed_body _ _ _ Hag); destruct W0, W1; lia).
  apply (agreed_required _ _ _ Hag). left. apply W0.
Qed.

Lemma transcript_agreement_witness :
  agreed (at0 (hellos example_bound)) (at1 (hellos example_bound)) (negotiation example_bound).
Proof.
  destruct (transcript_agreement example_bound example_bound_reachable)
    as (_ & _ & H & _); [vm_compute; reflexivity | exact H].
Defined.

(** No transfer before binding.  A frame of a transfer message (or PING,
    PONG, GOAWAY) is accepted by a reachable transcript only when both binding
    frames have been exchanged, and its body is within the negotiated limit. *)
Theorem transfer_requires_binding (s : TranscriptParser) (d : Direction) (encoded : bytes)
    (Hr : reachable s) (Hacc : accepted s d encoded)
    (Ht : let t := h_message_type (pf_header (pr_frame
            (ParseFrameEnvelope encoded (ExpectedVersion s)))) in
          IsTransferMessage t = true \/ t = kPing \/ t = kPong \/ t = kGoAway) :
  binding_frames_complete s = true /\
  h_body_length (pf_header (pr_frame (ParseFrameEnvelope encoded (ExpectedVersion s))))
  <= effective_max_body (negotiation s).
Proof.
  apply accepted_inv in Hacc as (_ & _ & _ & _ & Hlim & Hval & _).
  assert (Hc : binding_frames_complete s = true).
  { replace (binding_frames_complete s) with (binding_frames_complete (AdvanceMessageId s d))
      by (unfold AdvanceMessageId; by split_if).
    unfold ValidateEnvelopeState in Hval.
    destruct (h_message_type _), (binding_frames_complete (AdvanceMessageId s d));
      try done; by destruct Ht as [Ht | [Ht | [Ht | Ht]]]. }
  split; [done |]. apply Hlim.
  apply reachable_inv in Hr as [_ _ _ _ Hf Hcom _]. rewrite Hcom in Hc.
  apply andb_true_iff in Hc as [Hc _]. by apply (Hf kInitiatorToResponder).
Qed.

Lemma transfer_requires_binding_witness :
  binding_frames_complete example_bound = true.
Proof.
  destruct (transfer_requires_binding example_bound kInitiatorToResponder example_cancel
              example_bound_reachable) as [H _]; [| | exact H].
  - vm_compute. reflexivity.
  - cbv zeta. left. vm_compute. reflexivity.
Defined.

(** No replay, no gap.  In a run in which every frame was accepted, the
    message ids of each direction are 1, 2, 3, ... in order, however the two
    directions interleave. *)
Theorem message_ids_consecutive (tr : list (Direction * bytes)) (s : TranscriptParser)
    (d : Direction) (Hrun : accepted_run TranscriptParser_init tr s) :
  message_ids d tr = List.map Z.of_nat (seq 1 (length (message_ids d tr))).
Proof. by apply (accepted_run_ids tr s). Qed.

Lemma message_ids_consecutive_witness :
  message_ids kResponderToInitiator example_transcript
  = List.map Z.of_nat (seq 1 (length (message_ids kResponderToInitiator example_transcript))).
Proof.
  apply (message_ids_consecutive example_transcript
           (snd (fold_left all_accepted_step example_transcript (true, TranscriptParser_init)))
           kResponderToInitiator).
  apply accepted_run_fold. vm_compute. reflexivity.
Defined.

(** Errors are final.  After a connection-fatal error, or after any error
    before the binding frames are complete, the transcript is terminal: every
    later frame is refused without being parsed and changes nothing. *)
Theorem fatal_error_is_final (s : TranscriptParser) (d : Direction) (encoded : bytes)
    (tr : list (Direction * bytes)) (d' : Direction) (encoded' : bytes)
    (He : error_ok (snd (Process s d encoded)) = false)
    (Hfatal : connection_fatal (err_code (snd (Process s d encoded))) = true \/
              binding_frames_complete s = false) :
  let s' := fst (Process s d encoded) in
  run s' tr = s' /\
  Process (run s' tr) d' encoded'
  = (s', violation "transcript is terminal after a fatal error").
Proof.
  pose proof (Process_error_terminal s d encoded He Hfatal) as Ht. cbv zeta.
  rewrite run_terminal by done. split; [done |].
  unfold Process at 1. by rewrite Ht.
Qed.

Lemma fatal_error_is_final_witness :
  let s' := fst (Process TranscriptParser_init kResponderToInitiator
                   (example_frame kNegotiate 1 example_negotiate_fields)) in
  run s' example_transcript = s' /\
  Process (run s' example_transcript) kInitiatorToResponder (example_hello 1 65536)
  = (s', violation "transcript is terminal after a fatal error").
Proof.
  apply (fatal_error_is_final TranscriptParser_init kResponderToInitiator
           (example_frame kNegotiate 1 example_negotiate_fields)).
  - vm_compute. reflexivity.
  - right. reflexivity.
Defined.
