(* ===== verification/Transfer.v ===== *)
(** * The data of the transfer component

    The enumerations and structs of
    [native/include/xnn_transfer/core/transfer/transfer.hpp] that the senders,
    the receivers and the frame codec share, and the classes that stand for the
    interfaces ([SessionAuthority], [TransferIntegrityProvider]) a transfer
    calls through a pointer. *)

From S2P Require Import Prelude.
From S2P Require Import V1Parser.

(** ** Constants *)

Definition kTransferIdSize : Z := 16.
Definition kMinimumChunkSize : Z := 4096.
Definition kMaximumChunkSize : Z := 1048000.
Definition kMaximumTransferWindow : Z := 16777216.
Definition kMaximumConnectionWindow : Z := 67108864.
Definition kManifestProgressTimeoutMs : Z := 30000.
Definition kManifestTimeoutMs : Z := 300000.
Definition kDecisionTimeoutMs : Z := 300000.
Definition kDataProgressTimeoutMs : Z := 60000.
Definition kAcknowledgementTimeoutMs : Z := 30000.
Definition kCancelAcknowledgementTimeoutMs : Z := 10000.

(** ** Enumerations *)

Module Role.
Inductive Role := kInitiator | kResponder.

#[global] Instance role_eq_dec : EqDecision Role.
Proof. solve_decision. Defined.
End Role.

Module TransferState.
Inductive TransferState :=
  | kCreated | kSendingManifest | kReceivingManifest | kAwaitingDecision
  | kSendingFile | kReceivingFile | kRejecting | kAwaitingFileCommit
  | kAwaitingCompletion | kCompleting | kCancelling | kCommitted | kCompleted
  | kCancelled | kRejected | kFailed.

#[global] Instance transfer_state_eq_dec : EqDecision TransferState.
Proof. solve_decision. Defined.
End TransferState.

Module TransferError.
Inductive TransferError :=
  | kNone | kInvalidArgument | kUnauthenticated | kMalformedFrame
  | kMalformedMessage | kStateViolation | kMessageIdViolation | kLimitExceeded
  | kInvalidOffer | kInvalidManifest | kPolicyRejected | kNoSpace | kBusy
  | kIoFailure | kIntegrityFailed | kTimeout | kCancelled | kIdempotencyConflict
  | kSourceFailure | kInternalFailure.

#[global] Instance transfer_error_eq_dec : EqDecision TransferError.
Proof. solve_decision. Defined.
End TransferError.

Module WireErrorCode.
Inductive WireErrorCode :=
  | kNone | kMalformedFrame | kFrameTooLarge | kMalformedMessage
  | kUnsupportedVersion | kDowngradeDetected | kUnsupportedCapability
  | kUnsupportedMessage | kUnknownCriticalField | kStateViolation
  | kMessageIdViolation | kLimitExceeded | kTimeout | kInvalidOffer
  | kInvalidManifest | kPolicyRejected | kNoSpace | kBusy | kIoFailure
  | kIntegrityFailed | kCancelled | kResumeUnavailable | kExpired
  | kIdempotencyConflict | kCompleted.

Definition wire_error_value (e : WireErrorCode) : Z :=
  match e with
  | kNone => 0 | kMalformedFrame => 0x0001 | kFrameTooLarge => 0x0002
  | kMalformedMessage => 0x0003 | kUnsupportedVersion => 0x0004
  | kDowngradeDetected => 0x0005 | kUnsupportedCapability => 0x0006
  | kUnsupportedMessage => 0x0007 | kUnknownCriticalField => 0x0008
  | kStateViolation => 0x0009 | kMessageIdViolation => 0x000a
  | kLimitExceeded => 0x000b | kTimeout => 0x000c | kInvalidOffer => 0x0100
  | kInvalidManifest => 0x0101 | kPolicyRejected => 0x0102 | kNoSpace => 0x0103
  | kBusy => 0x0104 | kIoFailure => 0x0105 | kIntegrityFailed => 0x0106
  | kCancelled => 0x0107 | kResumeUnavailable => 0x0108 | kExpired => 0x0109
  | kIdempotencyConflict => 0x010a | kCompleted => 0x010b
  end.

(** [static_cast<WireErrorCode>] of the code of a parser error: the two
    enumerations give these names the same values. *)
Definition of_protocol (e : ErrorCode.ErrorCode) : WireErrorCode :=
  match e with
  | ErrorCode.kNone => kNone
  | ErrorCode.kMalformedFrame => kMalformedFrame
  | ErrorCode.kFrameTooLarge => kFrameTooLarge
  | ErrorCode.kMalformedMessage => kMalformedMessage
  | ErrorCode.kUnsupportedVersion => kUnsupportedVersion
  | ErrorCode.kDowngradeDetected => kDowngradeDetected
  | ErrorCode.kUnsupportedCapability => kUnsupportedCapability
  | ErrorCode.kUnsupportedMessage => kUnsupportedMessage
  | ErrorCode.kUnknownCriticalField => kUnknownCriticalField
  | ErrorCode.kStateViolation => kStateViolation
  | ErrorCode.kMessageIdViolation => kMessageIdViolation
  | ErrorCode.kLimitExceeded => kLimitExceeded
  end.

Lemma of_protocol_value e :
  wire_error_value (of_protocol e) = ErrorCode.error_code_value e.
Proof. by destruct e. Qed.

#[global] Instance wire_error_eq_dec : EqDecision WireErrorCode.
Proof. solve_decision. Defined.
End WireErrorCode.

Module CreditDirection.
Inductive CreditDirection := kOutbound | kInbound.

#[global] Instance credit_direction_eq_dec : EqDecision CreditDirection.
Proof. solve_decision. Defined.
End CreditDirection.

Module StreamOpenResult.
Inductive StreamOpenResult := kOpened | kCapacityRejected | kInvalid.

#[global] Instance stream_open_result_eq_dec : EqDecision StreamOpenResult.
Proof. solve_decision. Defined.
End StreamOpenResult.

(** ** Structs *)

Record TransferLimits := {
  l_maximum_body : Z;
  l_maximum_in_flight : Z;
  l_maximum_active_streams : Z;
  l_preferred_chunk_size : Z;
  l_preferred_initial_window : Z;
}.

(** [TransferLimits{}]. *)
Definition TransferLimits_default : TransferLimits :=
  {| l_maximum_body := 1048576; l_maximum_in_flight := kMaximumConnectionWindow;
     l_maximum_active_streams := 32; l_preferred_chunk_size := 65536;
     l_preferred_initial_window := 262144 |}.

(** A [SessionHandle], a [TransferId] and a [std::string] are byte sequences.
    [c_authority_set] says that [authority] is not null; the object it points
    to changes between calls and is an argument of the operations that use
    it. *)
Record TransferContext := {
  c_authority_set : bool;
  c_session_handle : bytes;
  c_local_role : Role.Role;
  c_version : Version;
  c_stream_id : Z;
  c_limits : TransferLimits;
}.

Record OneFileManifest := {
  m_transfer_id : bytes;
  m_relative_path : bytes;
  m_file_size : Z;
  m_file_commitment : bytes;
  m_manifest_commitment : bytes;
  m_display_name : bytes;
}.

#[global] Instance eta_OneFileManifest : Eta OneFileManifest := fun x =>
  {| m_transfer_id := m_transfer_id x; m_relative_path := m_relative_path x;
     m_file_size := m_file_size x; m_file_commitment := m_file_commitment x;
     m_manifest_commitment := m_manifest_commitment x;
     m_display_name := m_display_name x |}.

Definition OneFileManifest_default : OneFileManifest :=
  {| m_transfer_id := repeat 0 16; m_relative_path := []; m_file_size := 0;
     m_file_commitment := []; m_manifest_commitment := []; m_display_name := [] |}.

Record IncomingOffer := {
  o_transfer_id : bytes;
  o_relative_path : bytes;
  o_file_size : Z;
  o_display_name : bytes;
}.

Record TransferUpdate := {
  u_state : TransferState.TransferState;
  u_error : TransferError.TransferError;
  u_wire_error : WireErrorCode.WireErrorCode;
  u_outbound_frame : bytes;
  u_offer : option IncomingOffer;
  u_terminal : bool;
  u_connection_fatal : bool;
  u_retryable : bool;
}.

#[global] Instance eta_TransferUpdate : Eta TransferUpdate := fun x =>
  {| u_state := u_state x; u_error := u_error x; u_wire_error := u_wire_error x;
     u_outbound_frame := u_outbound_frame x; u_offer := u_offer x;
     u_terminal := u_terminal x; u_connection_fatal := u_connection_fatal x;
     u_retryable := u_retryable x |}.

(** [TransferUpdate{}]. *)
Definition TransferUpdate_default : TransferUpdate :=
  {| u_state := TransferState.kCreated; u_error := TransferError.kNone;
     u_wire_error := WireErrorCode.kNone; u_outbound_frame := []; u_offer := None;
     u_terminal := false; u_connection_fatal := false; u_retryable := false |}.

Definition TransferErrorName (e : TransferError.TransferError) : string :=
  match e with
  | TransferError.kNone => "NONE"
  | TransferError.kInvalidArgument => "INVALID_ARGUMENT"
  | TransferError.kUnauthenticated => "UNAUTHENTICATED"
  | TransferError.kMalformedFrame => "MALFORMED_FRAME"
  | TransferError.kMalformedMessage => "MALFORMED_MESSAGE"
  | TransferError.kStateViolation => "STATE_VIOLATION"
  | TransferError.kMessageIdViolation => "MESSAGE_ID_VIOLATION"
  | TransferError.kLimitExceeded => "LIMIT_EXCEEDED"
  | TransferError.kInvalidOffer => "INVALID_OFFER"
  | TransferError.kInvalidManifest => "INVALID_MANIFEST"
  | TransferError.kPolicyRejected => "POLICY_REJECTED"
  | TransferError.kNoSpace => "NO_SPACE"
  | TransferError.kBusy => "BUSY"
  | TransferError.kIoFailure => "IO_FAILURE"
  | TransferError.kIntegrityFailed => "INTEGRITY_FAILED"
  | TransferError.kTimeout => "TIMEOUT"
  | TransferError.kCancelled => "CANCELLED"
  | TransferError.kIdempotencyConflict => "IDEMPOTENCY_CONFLICT"
  | TransferError.kSourceFailure => "SOURCE_FAILURE"
  | TransferError.kInternalFailure => "INTERNAL_FAILURE"
  end%string.

(** ** Interfaces *)

(** What a transfer asks of the [session::SessionAuthority] its context points
    to. *)
Class SessionAuthority (A : Type) := {
  IsAuthorized : A -> bytes -> bool;
}.
