(* ===== verification/Connection.v ===== *)
(** * Connection-wide bookkeeping

    [ConnectionMessageSequence] and [ConnectionCreditBudget] of
    [native/src/transfer/frame_codec.cpp]: the message ids, the stream ids and
    the flow-control credit every stream of one connection shares.  Each method
    holds the object's mutex for its whole body, so it is one atomic step. *)

From S2P Require Import Prelude.
From S2P Require Import Transfer.

(** ** Message ids *)

Record ConnectionMessageSequence := {
  next_outbound : Z;
  next_inbound : Z;
  outbound_exhausted : bool;
  inbound_exhausted : bool;
}.

#[global] Instance eta_ConnectionMessageSequence : Eta ConnectionMessageSequence :=
  fun x => {| next_outbound := next_outbound x; next_inbound := next_inbound x;
              outbound_exhausted := outbound_exhausted x;
              inbound_exhausted := inbound_exhausted x |}.

(** The constructor. *)
Definition MakeSequence (out inb : Z) : ConnectionMessageSequence :=
  {| next_outbound := out; next_inbound := inb;
     outbound_exhausted := out =? 0; inbound_exhausted := inb =? 0 |}.

(** [NextOutbound]: the id written to [output] when it returns true. *)
Definition NextOutboundId (s : ConnectionMessageSequence)
    : ConnectionMessageSequence * option Z :=
  if outbound_exhausted s then (s, None)
  else
    (if next_outbound s =? umax 64 then s <| outbound_exhausted := true |>
     else s <| next_outbound := uadd 64 (next_outbound s) 1 |>,
     Some (next_outbound s)).

Definition ObserveInbound (message_id : Z) (s : ConnectionMessageSequence)
    : ConnectionMessageSequence * bool :=
  if inbound_exhausted s then (s, false)
  else if negb (message_id =? next_inbound s) then
    (s <| inbound_exhausted := true |>, false)
  else
    (if next_inbound s =? umax 64 then s <| inbound_exhausted := true |>
     else s <| next_inbound := uadd 64 (next_inbound s) 1 |>,
     true).

Definition OutboundExhausted (s : ConnectionMessageSequence) : bool :=
  outbound_exhausted s.

(** ** Streams and credit *)

(** [reserved_bytes_[0]] and [reserved_bytes_[1]] are [reserved_outbound] and
    [reserved_inbound]. *)
Record ConnectionCreditBudget := {
  b_limit_bytes : Z;
  b_reserved_outbound : Z;
  b_reserved_inbound : Z;
  b_maximum_streams : Z;
  b_active_streams : Z;
  b_active_stream_ids : list Z;
  b_local_role : Role.Role;
  b_next_local_stream_id : Z;
  b_next_peer_stream_id : Z;
  b_role_initialized : bool;
  b_local_stream_ids_exhausted : bool;
  b_peer_stream_ids_exhausted : bool;
}.

#[global] Instance eta_ConnectionCreditBudget : Eta ConnectionCreditBudget := fun x =>
  {| b_limit_bytes := b_limit_bytes x;
     b_reserved_outbound := b_reserved_outbound x;
     b_reserved_inbound := b_reserved_inbound x;
     b_maximum_streams := b_maximum_streams x;
     b_active_streams := b_active_streams x;
     b_active_stream_ids := b_active_stream_ids x;
     b_local_role := b_local_role x;
     b_next_local_stream_id := b_next_local_stream_id x;
     b_next_peer_stream_id := b_next_peer_stream_id x;
     b_role_initialized := b_role_initialized x;
     b_local_stream_ids_exhausted := b_local_stream_ids_exhausted x;
     b_peer_stream_ids_exhausted := b_peer_stream_ids_exhausted x |}.

(** The constructor. *)
Definition MakeBudget (limit_bytes maximum_streams : Z) : ConnectionCreditBudget :=
  {| b_limit_bytes := Z.min limit_bytes kMaximumConnectionWindow;
     b_reserved_outbound := 0; b_reserved_inbound := 0;
     b_maximum_streams := Z.min maximum_streams 32;
     b_active_streams := 0; b_active_stream_ids := repeat 0 32;
     b_local_role := Role.kInitiator;
     b_next_local_stream_id := 0; b_next_peer_stream_id := 0;
     b_role_initialized := false;
     b_local_stream_ids_exhausted := false; b_peer_stream_ids_exhausted := false |}.

(** [std::find] over the first [active_streams_] elements: the index found. *)
Fixpoint find_index (id : Z) (l : list Z) : option nat :=
  match l with
  | [] => None
  | x :: rest => if x =? id then Some O else option_map S (find_index id rest)
  end.

Definition find_active (b : ConnectionCreditBudget) (id : Z) : option nat :=
  find_index id (take (Z.to_nat (b_active_streams b)) (b_active_stream_ids b)).

(** The references [expected] and [exhausted] of [OpenStream], read and
    written. *)
Definition expected (b : ConnectionCreditBudget) (local_is_creator : bool) : Z :=
  if local_is_creator then b_next_local_stream_id b else b_next_peer_stream_id b.

Definition exhausted (b : ConnectionCreditBudget) (local_is_creator : bool) : bool :=
  if local_is_creator then b_local_stream_ids_exhausted b
  else b_peer_stream_ids_exhausted b.

Definition set_expected (b : ConnectionCreditBudget) (local_is_creator : bool) (v : Z) :=
  if local_is_creator then b <| b_next_local_stream_id := v |>
  else b <| b_next_peer_stream_id := v |>.

Definition set_exhausted (b : ConnectionCreditBudget) (local_is_creator : bool) :=
  if local_is_creator then b <| b_local_stream_ids_exhausted := true |>
  else b <| b_peer_stream_ids_exhausted := true |>.

(** The lambda [consume_id]. *)
Definition consume_id (b : ConnectionCreditBudget) (local_is_creator : bool) :=
  if expected b local_is_creator >? umax 32 - 2 then set_exhausted b local_is_creator
  else set_expected b local_is_creator (uadd 32 (expected b local_is_creator) 2).

Definition InitializeRole (b : ConnectionCreditBudget) (local_role : Role.Role) :=
  b <| b_local_role := local_role |>
    <| b_next_local_stream_id :=
         if bool_decide (local_role = Role.kInitiator) then 1 else 2 |>
    <| b_next_peer_stream_id :=
         if bool_decide (local_role = Role.kInitiator) then 2 else 1 |>
    <| b_role_initialized := true |>.

Definition OpenStream (stream_id : Z) (local_is_creator : bool)
    (local_role : Role.Role) (b : ConnectionCreditBudget)
    : ConnectionCreditBudget * StreamOpenResult.StreamOpenResult :=
  if stream_id =? 0 then (b, StreamOpenResult.kInvalid)
  else if b_role_initialized b && negb (bool_decide (b_local_role b = local_role)) then
    (b, StreamOpenResult.kInvalid)
  else
  let b := if b_role_initialized b then b else InitializeRole b local_role in
  if exhausted b local_is_creator || negb (stream_id =? expected b local_is_creator)
     || match find_active b stream_id with Some _ => true | None => false end then
    (b, StreamOpenResult.kInvalid)
  else if b_active_streams b >=? b_maximum_streams b then
    (if local_is_creator then b else consume_id b local_is_creator,
     StreamOpenResult.kCapacityRejected)
  else
  let b := b <| b_active_stream_ids :=
                  <[Z.to_nat (b_active_streams b) := stream_id]> (b_active_stream_ids b) |>
             <| b_active_streams := uadd 16 (b_active_streams b) 1 |> in
  (consume_id b local_is_creator, StreamOpenResult.kOpened).

Definition TryOpenStream (stream_id : Z) (local_is_creator : bool)
    (local_role : Role.Role) (b : ConnectionCreditBudget) : ConnectionCreditBudget * bool :=
  let '(b, r) := OpenStream stream_id local_is_creator local_role b in
  (b, bool_decide (r = StreamOpenResult.kOpened)).

Definition CloseStream (stream_id : Z) (b : ConnectionCreditBudget) : ConnectionCreditBudget :=
  match find_active b stream_id with
  | None => b
  | Some found =>
      let last := usub 16 (b_active_streams b) 1 in
      let ids := b_active_stream_ids b in
      let ids := <[found := nth (Z.to_nat last) ids 0]> ids in
      b <| b_active_streams := last |>
        <| b_active_stream_ids := <[Z.to_nat last := 0]> ids |>
  end.

(** [reserved_bytes_[index]], read and written. *)
Definition reserved_bytes (d : CreditDirection.CreditDirection)
    (b : ConnectionCreditBudget) : Z :=
  match d with
  | CreditDirection.kOutbound => b_reserved_outbound b
  | CreditDirection.kInbound => b_reserved_inbound b
  end.

Definition set_reserved (d : CreditDirection.CreditDirection) (v : Z)
    (b : ConnectionCreditBudget) : ConnectionCreditBudget :=
  match d with
  | CreditDirection.kOutbound => b <| b_reserved_outbound := v |>
  | CreditDirection.kInbound => b <| b_reserved_inbound := v |>
  end.

Definition TryReserve (d : CreditDirection.CreditDirection) (n : Z)
    (b : ConnectionCreditBudget) : ConnectionCreditBudget * bool :=
  if (n >? b_limit_bytes b) || (reserved_bytes d b >? usub 32 (b_limit_bytes b) n) then
    (b, false)
  else (set_reserved d (uadd 32 (reserved_bytes d b) n) b, true).

Definition TryAdjust (d : CreditDirection.CreditDirection) (release reserve : Z)
    (b : ConnectionCreditBudget) : ConnectionCreditBudget * bool :=
  if release >? reserved_bytes d b then (b, false)
  else
  let after_release := usub 32 (reserved_bytes d b) release in
  if (reserve >? b_limit_bytes b) || (after_release >? usub 32 (b_limit_bytes b) reserve)
  then (b, false)
  else (set_reserved d (uadd 32 after_release reserve) b, true).

Definition Release (d : CreditDirection.CreditDirection) (n : Z)
    (b : ConnectionCreditBudget) : ConnectionCreditBudget :=
  if n >? reserved_bytes d b then b
  else set_reserved d (usub 32 (reserved_bytes d b) n) b.
