(* ===== verification/ConnectionProofs.v ===== *)
(** * Correctness of the connection-wide bookkeeping

    The abstract view of a [ConnectionCreditBudget] is the set of its active
    streams and the two credit counters.  The swap-with-last array of the code
    implements that set, the counters never pass the limit, no stream id is
    opened twice on one connection, and the message ids of a connection are
    consecutive in both directions. *)

From stdpp Require Import gmap.
From S2P Require Import Prelude.
From S2P Require Import Transfer.
From S2P Require Import Connection.

(** ** The abstract view *)

Definition active_list (b : ConnectionCreditBudget) : list Z :=
  take (Z.to_nat (b_active_streams b)) (b_active_stream_ids b).

Definition streams (b : ConnectionCreditBudget) : gset Z := list_to_set (active_list b).

(** Stream ids of one creator: odd for the initiator, even for the responder. *)
Definition creator_role (local_role : Role.Role) (local_is_creator : bool) : Role.Role :=
  if local_is_creator then local_role
  else match local_role with
       | Role.kInitiator => Role.kResponder
       | Role.kResponder => Role.kInitiator
       end.

Definition first_id (r : Role.Role) : Z :=
  match r with Role.kInitiator => 1 | Role.kResponder => 2 end.

(** ** The invariant *)

Definition budget_counters_ok (b : ConnectionCreditBudget) : Prop :=
  0 <= b_limit_bytes b <= kMaximumConnectionWindow /\
  (forall d, 0 <= reserved_bytes d b <= b_limit_bytes b) /\
  0 <= b_active_streams b <= b_maximum_streams b /\
  b_maximum_streams b <= 32.

Definition next_ids_ok (b : ConnectionCreditBudget) : Prop :=
  if b_role_initialized b then
    forall c, expected b c mod 2 = first_id (creator_role (b_local_role b) c) mod 2 /\
              1 <= expected b c < 2 ^ 32
  else b_active_streams b = 0 /\ forall c, exhausted b c = false.

Definition budget_ok (b : ConnectionCreditBudget) : Prop :=
  budget_counters_ok b /\
  length (b_active_stream_ids b) = 32%nat /\
  NoDup (active_list b) /\
  Forall (fun id => 0 < id < 2 ^ 32) (active_list b) /\
  next_ids_ok b.

(** ** Lists *)

Lemma find_index_Some id l i :
  find_index id l = Some i -> l !! i = Some id.
Proof.
  revert i. induction l as [| x l IH]; simpl; [done |]. intros i H.
  split_if_in H; bool_facts; [by inv H |].
  destruct (find_index id l); simplify_eq/=. by apply IH.
Qed.

Lemma find_index_None id l : find_index id l = None <-> id ∉ l.
Proof.
  induction l as [| x l IH]; simpl; [split; [by intros _ ?%elem_of_nil | done] |].
  rewrite not_elem_of_cons. destruct (x =? id) eqn:E; bool_facts.
  - split; [done | by intros [? _]].
  - destruct (find_index id l); simpl; [| split; [intros _; split; [congruence | by apply IH] | done]].
    split; [done | intros [_ Hn]; by apply IH in Hn].
Qed.

Lemma take_insert_here (l : list Z) n x :
  (n < length l)%nat -> take (S n) (<[n := x]> l) = take n l ++ [x].
Proof.
  intros. rewrite (take_S_r _ _ x) by (apply list_lookup_insert_eq; lia).
  by rewrite take_insert_ge by lia.
Qed.

(** Removing the element at [i] by overwriting it with the last one. *)
Lemma swap_remove_perm (l : list Z) n i x y :
  (S n <= length l)%nat -> take (S n) l !! i = Some x -> l !! n = Some y ->
  take (S n) l ≡ₚ x :: take n (<[n := 0]> (<[i := y]> l)).
Proof.
  intros Hn Hi Hy.
  rewrite take_insert_ge by lia.
  rewrite (take_S_r l n y) in * by done.
  assert (i < S n)%nat.
  { apply lookup_lt_Some in Hi. rewrite length_app, length_take in Hi. simpl in Hi. lia. }
  destruct (decide (i = n)) as [-> | Hne].
  - rewrite lookup_app_r, length_take in Hi by (rewrite length_take; lia).
    replace (n - n `min` length l)%nat with 0%nat in Hi by lia. inv Hi.
    rewrite take_insert_ge by lia. apply Permutation_app_comm.
  - rewrite lookup_app_l in Hi by (rewrite length_take; lia).
    rewrite take_insert_lt by lia.
    rewrite insert_take_drop by (rewrite length_take; lia).
    rewrite <- (take_drop_middle (take n l) i x) at 1 by done.
    rewrite <- app_assoc. simpl.
    rewrite <- Permutation_middle. constructor.
    apply Permutation_app_head. symmetry. apply Permutation_cons_append.
Qed.

(** ** Streams *)

Lemma active_list_length b :
  budget_ok b -> Z.of_nat (length (active_list b)) = b_active_streams b.
Proof.
  intros ((_ & _ & ? & ?) & Hl & _). unfold active_list.
  rewrite length_take, Hl. lia.
Qed.

Lemma active_consume b c : active_list (consume_id b c) = active_list b.
Proof. unfold consume_id, set_expected, set_exhausted. by destruct (_ >? _), c. Qed.

Lemma active_InitializeRole b r : active_list (InitializeRole b r) = active_list b.
Proof. done. Qed.

(** [OpenStream] after the role is known: what it tests and what it does. *)
Definition opened (b : ConnectionCreditBudget) (id : Z) : ConnectionCreditBudget :=
  b <| b_active_stream_ids := <[Z.to_nat (b_active_streams b) := id]> (b_active_stream_ids b) |>
    <| b_active_streams := uadd 16 (b_active_streams b) 1 |>.

Definition with_role (b : ConnectionCreditBudget) (r : Role.Role) : ConnectionCreditBudget :=
  if b_role_initialized b then b else InitializeRole b r.

Inductive open_spec (id : Z) (c : bool) (r : Role.Role) (b : ConnectionCreditBudget)
    : ConnectionCreditBudget * StreamOpenResult.StreamOpenResult -> Prop :=
  | open_refused :
      id = 0 \/ (b_role_initialized b = true /\ b_local_role b <> r) ->
      open_spec id c r b (b, StreamOpenResult.kInvalid)
  | open_out_of_order :
      b_local_role (with_role b r) = r ->
      exhausted (with_role b r) c = true \/ id <> expected (with_role b r) c
        \/ id ∈ active_list b ->
      open_spec id c r b (with_role b r, StreamOpenResult.kInvalid)
  | open_no_capacity :
      id <> 0 -> b_local_role (with_role b r) = r ->
      exhausted (with_role b r) c = false -> id = expected (with_role b r) c ->
      b_maximum_streams b <= b_active_streams b ->
      open_spec id c r b
        (if c then with_role b r else consume_id (with_role b r) c,
         StreamOpenResult.kCapacityRejected)
  | open_accepted :
      id <> 0 -> b_local_role (with_role b r) = r ->
      exhausted (with_role b r) c = false -> id = expected (with_role b r) c ->
      id ∉ active_list b -> b_active_streams b < b_maximum_streams b ->
      open_spec id c r b
        (consume_id (opened (with_role b r) id) c, StreamOpenResult.kOpened).

Lemma OpenStream_spec id c r b : open_spec id c r b (OpenStream id c r b).
Proof.
  unfold OpenStream. split_if; bool_facts; [by apply open_refused; left |].
  split_if; bool_facts.
  { apply open_refused. right. split; [done |].
    match goal with H : bool_decide _ = false |- _ => by apply bool_decide_eq_false in H end. }
  fold (with_role b r).
  assert (Hrole : b_local_role (with_role b r) = r).
  { unfold with_role. destruct (b_role_initialized b); [| done]. simpl in E0.
    apply negb_false_iff, bool_decide_eq_true in E0. done. }
  assert (Hfind : forall x, find_active (with_role b r) x = find_index x (active_list b))
    by (intros; unfold with_role; by destruct (b_role_initialized b)).
  assert (Hn : b_active_streams (with_role b r) = b_active_streams b
               /\ b_maximum_streams (with_role b r) = b_maximum_streams b)
    by (unfold with_role; by destruct (b_role_initialized b)).
  destruct Hn as [Hn Hm]. rewrite Hfind, Hn, Hm.
  destruct (exhausted (with_role b r) c) eqn:Ex; simpl; [apply open_out_of_order; auto |].
  destruct (Z.eqb_spec id (expected (with_role b r) c)) as [Hid |]; simpl;
    [| apply open_out_of_order; auto].
  destruct (find_index id (active_list b)) eqn:Ef.
  { apply open_out_of_order; auto. right; right.
    apply find_index_Some, list_elem_of_lookup_2 in Ef. done. }
  apply find_index_None in Ef. split_if; bool_facts.
  - apply open_no_capacity; auto.
  - rewrite <- Hn. by apply open_accepted; rewrite ?Hn.
Qed.

(** The counters part of the invariant reads the counters only. *)
Lemma counters_ok_ext b b' :
  b_limit_bytes b' = b_limit_bytes b ->
  (forall d, reserved_bytes d b' = reserved_bytes d b) ->
  b_active_streams b' = b_active_streams b ->
  b_maximum_streams b' = b_maximum_streams b ->
  budget_counters_ok b -> budget_counters_ok b'.
Proof.
  unfold budget_counters_ok. intros -> Hr -> -> (? & ? & ?).
  split; [done |]. split; [intros d; rewrite Hr; done | done].
Qed.

Lemma budget_ok_with_role b r : budget_ok b -> budget_ok (with_role b r).
Proof.
  intros Hok. unfold with_role. destruct (b_role_initialized b) eqn:Ei; [done |].
  destruct Hok as (Hc & Hl & Hnd & Hf & Hn).
  split; [apply (counters_ok_ext b); done || by intros [] |]. repeat split; try done.
  all: destruct c, r; cbn; done || lia.
Qed.

Lemma budget_ok_consume b c : budget_ok b -> b_role_initialized b = true ->
  budget_ok (consume_id b c).
Proof.
  intros (Hc & Hl & Hnd & Hf & Hn) Hi. unfold next_ids_ok in Hn. rewrite Hi in Hn.
  unfold consume_id. split_if; bool_facts.
  - split; [apply (counters_ok_ext b); destruct c; done || by intros [] |].
    destruct c; repeat split; try done; unfold next_ids_ok; simpl; rewrite Hi; apply Hn.
  - pose proof (Hn c) as Hcur.
    rewrite uadd_small in * by widths.
    assert (next_ids_ok (set_expected b c (expected b c + 2))).
    { assert (Hri : b_role_initialized (set_expected b c (expected b c + 2)) = true)
        by (destruct c; done).
      assert (Hro : b_local_role (set_expected b c (expected b c + 2)) = b_local_role b)
        by (destruct c; done).
      unfold next_ids_ok. rewrite Hri, Hro. intros c'. destruct (decide (c' = c)) as [-> |].
      - replace (expected (set_expected b c (expected b c + 2)) c) with (expected b c + 2)
          by (by destruct c).
        rewrite <- (proj1 Hcur). widths.
        split; [zlia | lia].
      - replace (expected (set_expected b c (expected b c + 2)) c') with (expected b c')
          by (by destruct c, c').
        apply Hn. }
    split; [apply (counters_ok_ext b); destruct c; done || by intros [] |].
    by destruct c.
Qed.

Lemma active_opened b id :
  budget_ok b -> b_active_streams b < b_maximum_streams b ->
  active_list (opened b id) = active_list b ++ [id].
Proof.
  intros ((_ & _ & Ha & Hm) & Hl & _) Hlt. unfold active_list, opened. simpl.
  rewrite uadd_small by widths.
  replace (Z.to_nat (b_active_streams b + 1)) with (S (Z.to_nat (b_active_streams b))) by lia.
  apply take_insert_here. lia.
Qed.

Lemma budget_ok_opened b id :
  budget_ok b -> b_role_initialized b = true -> b_active_streams b < b_maximum_streams b ->
  0 < id < 2 ^ 32 -> id ∉ active_list b -> budget_ok (opened b id).
Proof.
  intros Hok Hi Hlt Hid Hnew. pose proof (active_opened b id Hok Hlt) as Ha.
  destruct Hok as (Hc & Hl & Hnd & Hf & Hn). unfold next_ids_ok in Hn. rewrite Hi in Hn.
  split; [| split; [| split; [| split]]].
  - destruct Hc as (? & ? & ? & ?).
    split; [done |]. split; [by intros []; [apply (H0 CreditDirection.kOutbound) |
                                            apply (H0 CreditDirection.kInbound)] |].
    simpl. rewrite uadd_small by widths. lia.
  - simpl. by rewrite length_insert.
  - rewrite Ha. apply list.NoDup_app. split; [done |]. split; [| apply NoDup_singleton].
    intros x Hx ->%list_elem_of_singleton. done.
  - rewrite Ha. apply Forall_app. split; [done |]. by apply Forall_singleton.
  - unfold next_ids_ok. simpl. rewrite Hi. apply Hn.
Qed.

Lemma initialized_with_role b r : b_role_initialized (with_role b r) = true.
Proof. unfold with_role. by destruct (b_role_initialized b) eqn:E. Qed.

Lemma active_with_role b r : active_list (with_role b r) = active_list b.
Proof. unfold with_role. by destruct (b_role_initialized b). Qed.

Lemma streams_of_with_role b r : b_active_streams (with_role b r) = b_active_streams b
  /\ b_maximum_streams (with_role b r) = b_maximum_streams b.
Proof. unfold with_role. by destruct (b_role_initialized b). Qed.

Lemma expected_range b c : budget_ok b -> b_role_initialized b = true ->
  1 <= expected b c < 2 ^ 32.
Proof. intros (_ & _ & _ & _ & Hn) Hi. unfold next_ids_ok in Hn. rewrite Hi in Hn. apply Hn. Qed.

Lemma budget_ok_OpenStream id c r b :
  budget_ok b -> budget_ok (OpenStream id c r b).1.
Proof.
  intros Hok. pose proof (budget_ok_with_role b r Hok) as Hok'.
  pose proof (initialized_with_role b r) as Hi.
  destruct (OpenStream_spec id c r b); simpl; auto.
  - destruct c; auto using budget_ok_consume.
  - apply budget_ok_consume; [| done].
    apply budget_ok_opened; rewrite ?active_with_role; auto.
    + by rewrite !(proj1 (streams_of_with_role b r)), (proj2 (streams_of_with_role b r)).
    + subst. pose proof (expected_range (with_role b r) c Hok' Hi). lia.
Qed.

(** [CloseStream] removes exactly the stream named. *)
Lemma CloseStream_perm id b : budget_ok b -> id ∈ active_list b ->
  active_list b ≡ₚ id :: active_list (CloseStream id b) /\
  b_active_streams (CloseStream id b) = b_active_streams b - 1.
Proof.
  intros ((_ & _ & Ha & Hm) & Hl & _) Hin. unfold CloseStream, find_active.
  fold (active_list b). destruct (find_index id (active_list b)) as [i |] eqn:Ef;
    [| by apply find_index_None in Ef].
  apply find_index_Some in Ef. unfold active_list in *. simpl.
  assert (0 < b_active_streams b).
  { apply lookup_lt_Some in Ef. rewrite length_take in Ef. lia. }
  rewrite usub_small by widths. split; [| lia].
  replace (Z.to_nat (b_active_streams b)) with (S (Z.to_nat (b_active_streams b - 1))) in * by lia.
  destruct (lookup_lt_is_Some_2 (b_active_stream_ids b) (Z.to_nat (b_active_streams b - 1)))
    as [y Hy]; [lia |].
  replace (nth _ _ 0) with y by (symmetry; by apply nth_lookup_Some).
  apply swap_remove_perm; [lia | done | done].
Qed.

Lemma CloseStream_absent id b : id ∉ active_list b -> CloseStream id b = b.
Proof.
  intros H. unfold CloseStream, find_active. fold (active_list b).
  by apply find_index_None in H as ->.
Qed.

Lemma budget_ok_CloseStream id b : budget_ok b -> budget_ok (CloseStream id b).
Proof.
  intros Hok. destruct (decide (id ∈ active_list b)) as [Hin | Hout];
    [| by rewrite CloseStream_absent].
  destruct (CloseStream_perm id b Hok Hin) as [Hp Hn].
  destruct Hok as (Hc & Hl & Hnd & Hf & Hni).
  rewrite Hp in Hnd, Hf. apply list.NoDup_cons in Hnd as [_ Hnd].
  apply list.Forall_cons in Hf as [_ Hf].
  assert (Hpos : 0 < b_active_streams b).
  { apply list_elem_of_In, in_split in Hin as (l1 & l2 & Hl12).
    pose proof (f_equal (length (A := Z)) Hl12) as Hlen. unfold active_list in Hlen.
    rewrite length_take, length_app in Hlen. simpl in Hlen. lia. }
  revert Hn Hnd Hf. unfold CloseStream.
  destruct (find_active b id) as [i |] eqn:Ef; [| intros; exfalso; lia]. intros Hn Hnd Hf.
  split; [| split; [| split; [done | split; [done |]]]].
  - destruct Hc as (? & Hr & ? & ?). split; [done |].
    split; [intros []; [apply (Hr CreditDirection.kOutbound)
                       | apply (Hr CreditDirection.kInbound)] |].
    rewrite Hn. simpl. lia.
  - simpl. by rewrite !length_insert.
  - unfold next_ids_ok in *. simpl. destruct (b_role_initialized b); [done |]. lia.
Qed.

(** ** Credit *)

Lemma set_reserved_same d v b : reserved_bytes d (set_reserved d v b) = v.
Proof. by destruct d. Qed.

Lemma set_reserved_other d d' v b :
  d' <> d -> reserved_bytes d' (set_reserved d v b) = reserved_bytes d' b.
Proof. by destruct d, d'. Qed.

Lemma budget_ok_set_reserved d v b :
  budget_ok b -> 0 <= v <= b_limit_bytes b -> budget_ok (set_reserved d v b).
Proof.
  intros (Hc & Hrest) Hv. split; [| by destruct d].
  destruct Hc as (? & Hr & ? & ?).
  split; [by destruct d |]. split; [| by destruct d].
  intros d'. replace (b_limit_bytes (set_reserved d v b)) with (b_limit_bytes b)
    by (by destruct d).
  destruct (decide (d' = d)) as [-> | Hne];
    [by rewrite set_reserved_same | by rewrite set_reserved_other].
Qed.

(** What each credit operation does, in unbounded arithmetic. *)
Lemma TryReserve_spec d n b : budget_ok b -> 0 <= n ->
  TryReserve d n b =
    if reserved_bytes d b + n <=? b_limit_bytes b
    then (set_reserved d (reserved_bytes d b + n) b, true) else (b, false).
Proof.
  intros ((Hl & Hr & _) & _) Hn. specialize (Hr d). unfold TryReserve, kMaximumConnectionWindow in *.
  destruct (Z.gtb_spec n (b_limit_bytes b)); simpl.
  - destruct (Z.leb_spec (reserved_bytes d b + n) (b_limit_bytes b)); [lia | done].
  - rewrite usub_small by widths.
    destruct (Z.gtb_spec (reserved_bytes d b) (b_limit_bytes b - n));
    destruct (Z.leb_spec (reserved_bytes d b + n) (b_limit_bytes b)); try lia; [done |].
    by rewrite uadd_small by widths.
Qed.

Lemma TryAdjust_spec d rel res b : budget_ok b -> 0 <= rel -> 0 <= res ->
  TryAdjust d rel res b =
    if (rel <=? reserved_bytes d b) && (reserved_bytes d b - rel + res <=? b_limit_bytes b)
    then (set_reserved d (reserved_bytes d b - rel + res) b, true) else (b, false).
Proof.
  intros ((Hl & Hr & _) & _) Hn Hn'. specialize (Hr d).
  unfold TryAdjust, kMaximumConnectionWindow in *.
  destruct (Z.gtb_spec rel (reserved_bytes d b)), (Z.leb_spec rel (reserved_bytes d b));
    try lia; [done |]. simpl.
  rewrite usub_small by widths.
  destruct (Z.gtb_spec res (b_limit_bytes b)); simpl.
  - destruct (Z.leb_spec (reserved_bytes d b - rel + res) (b_limit_bytes b)); [lia | done].
  - rewrite usub_small by widths.
    destruct (Z.gtb_spec (reserved_bytes d b - rel) (b_limit_bytes b - res));
    destruct (Z.leb_spec (reserved_bytes d b - rel + res) (b_limit_bytes b)); try lia; [done |].
    by rewrite uadd_small by widths.
Qed.

Lemma Release_spec d n b : budget_ok b -> 0 <= n ->
  Release d n b =
    if n <=? reserved_bytes d b then set_reserved d (reserved_bytes d b - n) b else b.
Proof.
  intros ((Hl & Hr & _) & _) Hn. specialize (Hr d).
  unfold Release, kMaximumConnectionWindow in *.
  destruct (Z.gtb_spec n (reserved_bytes d b)), (Z.leb_spec n (reserved_bytes d b));
    try lia; [done |]. by rewrite usub_small by widths.
Qed.

Lemma reserved_range d b : budget_ok b -> 0 <= reserved_bytes d b <= b_limit_bytes b.
Proof. intros ((_ & Hr & _) & _). apply Hr. Qed.

Lemma budget_ok_TryReserve d n b : budget_ok b -> 0 <= n -> budget_ok (TryReserve d n b).1.
Proof.
  intros Hok Hn. rewrite TryReserve_spec by done. split_if; bool_facts; [| done].
  apply budget_ok_set_reserved; [done |]. pose proof (reserved_range d b Hok). lia.
Qed.

Lemma budget_ok_TryAdjust d rel res b :
  budget_ok b -> 0 <= rel -> 0 <= res -> budget_ok (TryAdjust d rel res b).1.
Proof.
  intros Hok Hn Hn'. rewrite TryAdjust_spec by done. split_if; bool_facts; [| done].
  apply budget_ok_set_reserved; [done |]. pose proof (reserved_range d b Hok). lia.
Qed.

Lemma budget_ok_Release d n b : budget_ok b -> 0 <= n -> budget_ok (Release d n b).
Proof.
  intros Hok Hn. rewrite Release_spec by done. split_if; bool_facts; [| done].
  apply budget_ok_set_reserved; [done |]. pose proof (reserved_range d b Hok). lia.
Qed.

Lemma budget_ok_Make limit streams :
  0 <= limit -> 0 <= streams -> budget_ok (MakeBudget limit streams).
Proof.
  intros. split; [| split; [done | split; [apply NoDup_nil_2 | split; [by apply Forall_nil | by split; [| intros []]]]]].
  unfold budget_counters_ok, MakeBudget, kMaximumConnectionWindow. simpl.
  split; [lia |]. split; [intros []; simpl; lia | lia].
Qed.

#[export] Hint Resolve budget_ok_OpenStream budget_ok_CloseStream budget_ok_TryReserve
  budget_ok_TryAdjust budget_ok_Release budget_ok_Make : xnn.

(** ** Traces *)

(** The calls the streams of a connection make, in the order the mutex gives
    them. *)
Inductive BudgetOp :=
  | OpOpen (id : Z) (local_is_creator : bool) (local_role : Role.Role)
  | OpClose (id : Z)
  | OpReserve (d : CreditDirection.CreditDirection) (n : Z)
  | OpAdjust (d : CreditDirection.CreditDirection) (release reserve : Z)
  | OpRelease (d : CreditDirection.CreditDirection) (n : Z).

(** The arguments are unsigned integers. *)
Definition op_args_ok (op : BudgetOp) : Prop :=
  match op with
  | OpOpen _ _ _ | OpClose _ => True
  | OpReserve _ n | OpRelease _ n => 0 <= n
  | OpAdjust _ rel res => 0 <= rel /\ 0 <= res
  end.

(** The state after the call, and the streams it opened. *)
Definition budget_step (op : BudgetOp) (b : ConnectionCreditBudget)
    : ConnectionCreditBudget * list (bool * Z) :=
  match op with
  | OpOpen id c r =>
      let '(b', res) := OpenStream id c r b in
      (b', if bool_decide (res = StreamOpenResult.kOpened) then [(c, id)] else [])
  | OpClose id => (CloseStream id b, [])
  | OpReserve d n => ((TryReserve d n b).1, [])
  | OpAdjust d rel res => ((TryAdjust d rel res b).1, [])
  | OpRelease d n => (Release d n b, [])
  end.

Fixpoint budget_run (ops : list BudgetOp) (b : ConnectionCreditBudget)
    : ConnectionCreditBudget * list (bool * Z) :=
  match ops with
  | [] => (b, [])
  | op :: rest =>
      let '(b, now) := budget_step op b in
      let '(b, later) := budget_run rest b in (b, now ++ later)
  end.

Lemma budget_ok_step op b : budget_ok b -> op_args_ok op -> budget_ok (budget_step op b).1.
Proof.
  intros Hok Ha. destruct op; simpl in *; auto with xnn.
  - pose proof (budget_ok_OpenStream id local_is_creator local_role b Hok) as H.
    by destruct (OpenStream _ _ _ b).
  - destruct Ha. auto with xnn.
Qed.

Lemma budget_ok_run ops b :
  budget_ok b -> Forall op_args_ok ops -> budget_ok (budget_run ops b).1.
Proof.
  revert b. induction ops as [| op ops IH]; intros b Hok Ha; [done |]. simpl.
  apply list.Forall_cons in Ha as [Ha Has].
  pose proof (budget_ok_step op b Hok Ha) as H1. destruct (budget_step op b) as [b' now].
  specialize (IH b' H1 Has). by destruct (budget_run ops b').
Qed.

(** The ids one creator may still open: those of its parity from [expected]
    on, and none once the counter is exhausted.  An operation never makes this
    set grow. *)
Definition may_open (b : ConnectionCreditBudget) (c : bool) (id : Z) : Prop :=
  (b_role_initialized b = true ->
     exhausted b c = false /\ expected b c <= id /\
     id mod 2 = first_id (creator_role (b_local_role b) c) mod 2).

Definition other_ops_keep (b b' : ConnectionCreditBudget) : Prop :=
  b_role_initialized b' = b_role_initialized b /\ b_local_role b' = b_local_role b /\
  forall c, expected b' c = expected b c /\ exhausted b' c = exhausted b c.

Lemma keep_set_reserved d v b : other_ops_keep b (set_reserved d v b).
Proof. by destruct d; repeat split; destruct c. Qed.

Lemma keep_step op b : (forall id c r, op <> OpOpen id c r) ->
  other_ops_keep b (budget_step op b).1 /\ (budget_step op b).2 = [].
Proof.
  intros Hop. assert (Hrefl : other_ops_keep b b) by done.
  destruct op; simpl; [by destruct (Hop id local_is_creator local_role) | | | | ];
    (split; [| done]).
  - unfold CloseStream. destruct (find_active b id); [| done]. by repeat split; destruct c.
  - unfold TryReserve. split_if; [done | apply keep_set_reserved].
  - unfold TryAdjust. repeat split_if; try done. apply keep_set_reserved.
  - unfold Release. split_if; [done | apply keep_set_reserved].
Qed.

Lemma parity_of_creator r c c' : first_id (creator_role r c) mod 2 =
  first_id (creator_role r c') mod 2 -> c = c'.
Proof. by destruct r, c, c'. Qed.

Lemma may_open_consume b c c' id :
  budget_ok b -> b_role_initialized b = true -> exhausted b c = false ->
  may_open (consume_id b c) c' id ->
  may_open b c' id /\ (c' = c -> expected b c < id).
Proof.
  intros Hok Hi He Hm. pose proof (expected_range b c Hok Hi) as Hr.
  unfold may_open, consume_id in *. split_if_in Hm; bool_facts.
  - assert (b_role_initialized (set_exhausted b c) = true) as Hi' by (by destruct c).
    destruct (Hm Hi') as (Hm1 & Hm2 & Hm3). destruct c, c'; try (by cbn in Hm1);
      (split; [intros _; exact (conj Hm1 (conj Hm2 Hm3)) | done]).
  - rewrite uadd_small in Hm by widths.
    assert (b_role_initialized (set_expected b c (expected b c + 2)) = true) as Hi'
      by (by destruct c).
    destruct (Hm Hi') as (Hm1 & Hm2 & Hm3).
    destruct c, c'; simpl in *; (split; [intros _; repeat split; done || lia | intros; lia || done]).
Qed.

Lemma may_open_with_role b r c id : budget_ok b ->
  may_open (with_role b r) c id -> may_open b c id.
Proof.
  intros _ Hm. unfold with_role in Hm.
  destruct (b_role_initialized b) eqn:E; [exact Hm |]. intros Hi. congruence.
Qed.

Lemma open_step id c r b b' : budget_ok b ->
  OpenStream id c r b = (b', StreamOpenResult.kOpened) ->
  may_open b c id /\
  forall c' id', may_open b' c' id' ->
    may_open b c' id' /\ (c' = c -> id < id') /\ id <> id'.
Proof.
  intros Hok Ho. pose proof (OpenStream_spec id c r b) as Hs. rewrite Ho in Hs.
  pose proof (budget_ok_with_role b r Hok) as Hok1.
  pose proof (initialized_with_role b r) as Hi.
  inversion Hs as [| | | Hid0 Hrole Hex Hexp Hnin Hcap]; subst b'. clear Hs Ho.
  assert (Hcur : may_open (with_role b r) c id).
  { intros _. split; [done |]. split; [lia |]. destruct Hok1 as (_ & _ & _ & _ & Hn).
    unfold next_ids_ok in Hn. rewrite Hi in Hn. rewrite Hexp. apply Hn. }
  assert (Hok2 : budget_ok (opened (with_role b r) id)).
  { apply budget_ok_opened; rewrite ?active_with_role; auto.
    - by rewrite !(proj1 (streams_of_with_role b r)), (proj2 (streams_of_with_role b r)).
    - rewrite Hexp. pose proof (expected_range (with_role b r) c Hok1 Hi). lia. }
  split; [by apply (may_open_with_role b r) |]. intros c' id' Hm.
  apply may_open_consume in Hm as [Hm Hlt]; [| done | done | by destruct c].
  replace (expected (opened (with_role b r) id) c) with id in Hlt by (by destruct c).
  assert (Hm' : may_open (with_role b r) c' id') by (destruct c'; exact Hm).
  split; [by apply (may_open_with_role b r) |]. split; [done |]. intros <-.
  destruct (Hcur Hi) as (_ & _ & Hp). destruct (Hm' Hi) as (_ & _ & Hp').
  assert (c' = c) as -> by (apply (parity_of_creator (b_local_role (with_role b r))); congruence).
  specialize (Hlt eq_refl). lia.
Qed.

Lemma open_step_other id c r b b' res : budget_ok b ->
  OpenStream id c r b = (b', res) ->
  forall c' id', may_open b' c' id' -> may_open b c' id'.
Proof.
  intros Hok Ho c' id' Hm. pose proof (OpenStream_spec id c r b) as Hs. rewrite Ho in Hs.
  pose proof (budget_ok_with_role b r Hok) as Hok1.
  pose proof (initialized_with_role b r) as Hi.
  inversion Hs as [| | Hid0 Hrole Hex Hexp Hcap | Hid0 Hrole Hex Hexp Hnin Hcap];
    subst b' res; [done | by apply (may_open_with_role b r) | |].
  - destruct c; [by apply (may_open_with_role b r) |].
    apply may_open_consume in Hm as [Hm _]; [| done..]. by apply (may_open_with_role b r).
  - by apply (open_step id c r b _ Hok Ho).
Qed.

(** One call: what it opened could be opened before, and afterwards that id can
    not be opened any more and every later id of the same creator is larger. *)
Lemma step_opened op b : budget_ok b ->
  forall b' now, budget_step op b = (b', now) ->
  (forall c' id', may_open b' c' id' -> may_open b c' id') /\
  (now = [] \/ exists c id, now = [(c, id)] /\ may_open b c id /\
     forall c' id', may_open b' c' id' -> (c' = c -> id < id') /\ id <> id').
Proof.
  intros Hok b' now Hs.
  assert ((exists id c r, op = OpOpen id c r) \/ (forall id c r, op <> OpOpen id c r))
    as [(id & c & r & ->) | Hop] by (destruct op; [left; eauto | right; done..]).
  2: { destruct (keep_step op b Hop) as [(Hi & Hr & Hk) Hn].
       rewrite Hs in Hi, Hr, Hk, Hn. simpl in *. subst now. split; [| by left].
       intros c' id'. unfold may_open. destruct (Hk c') as [-> ->]. by rewrite Hi, Hr. }
  simpl in Hs. destruct (OpenStream id c r b) as [b1 res] eqn:Ho. inv Hs.
  split; [by apply (open_step_other id c r b _ res) |].
  destruct (decide (res = StreamOpenResult.kOpened)) as [-> |];
    [rewrite bool_decide_true by done | left; by rewrite bool_decide_false].
  right. exists c, id. destruct (open_step id c r b b' Hok Ho) as [H1 H2].
  split; [done |]. split; [done |]. intros c' id' Hm. by apply H2 in Hm as (_ & ? & ?).
Qed.

(** The ids opened by one creator, in order. *)
Definition opened_by (c : bool) (l : list (bool * Z)) : list Z :=
  (List.filter (fun e => Bool.eqb e.1 c) l).*2.

Lemma run_opened ops b b' l : budget_ok b -> Forall op_args_ok ops ->
  budget_run ops b = (b', l) ->
  NoDup l.*2 /\ (forall c, StronglySorted Z.lt (opened_by c l)) /\
  (forall e, e ∈ l -> may_open b e.1 e.2).
Proof.
  revert b l. induction ops as [| op ops IH]; intros b l Hok Ha Hr; simpl in Hr.
  { inv Hr. split; [apply NoDup_nil_2 |]. split; [constructor | by intros e ?%elem_of_nil]. }
  apply list.Forall_cons in Ha as [Ha Has].
  pose proof (budget_ok_step op b Hok Ha) as Hok1.
  destruct (budget_step op b) as [b1 now] eqn:Hs.
  destruct (budget_run ops b1) as [b2 later] eqn:Hr2. inv Hr.
  destruct (IH b1 later Hok1 Has Hr2) as (Hnd & Hsort & Hmay).
  destruct (step_opened op b Hok b1 now Hs) as [Hmono [-> | (c & id & -> & Hm & Hnew)]].
  { simpl. split; [done |]. split; [done |]. intros e He. auto. }
  assert (Hlater : forall e, e ∈ later -> (e.1 = c -> id < e.2) /\ id <> e.2)
    by (intros e He; apply Hnew, Hmay, He).
  split; [| split].
  - simpl. apply list.NoDup_cons. split; [| done].
    rewrite list_elem_of_fmap. intros (e & -> & He). by apply Hlater in He as [_ ?].
  - intros c'. unfold opened_by. simpl. destruct (Bool.eqb_spec c c') as [<- |]; [| apply Hsort].
    simpl. constructor; [apply Hsort |]. apply Forall_forall. intros x Hx%list_elem_of_In.
    apply list_elem_of_fmap in Hx as (e & -> & He).
    apply list_elem_of_In, filter_In in He as [He Hc].
    apply eqb_prop in Hc. apply list_elem_of_In in He. by apply Hlater in He as [? _]; auto.
  - simpl. intros e [-> | He]%elem_of_cons; [done |]. auto.
Qed.

(** ** Message ids *)

Inductive SequenceOp :=
  | OpNext
  | OpObserve (message_id : Z).

(** One call and what it let through: the id handed out ([inl]) or the inbound
    id accepted ([inr]). *)
Definition sequence_step (op : SequenceOp) (s : ConnectionMessageSequence)
    : ConnectionMessageSequence * list (Z + Z) :=
  match op with
  | OpNext => let '(s, id) := NextOutboundId s in
              (s, match id with Some id => [inl id] | None => [] end)
  | OpObserve id => let '(s, ok) := ObserveInbound id s in (s, if ok then [inr id] else [])
  end.

Fixpoint sequence_run (ops : list SequenceOp) (s : ConnectionMessageSequence)
    : ConnectionMessageSequence * list (Z + Z) :=
  match ops with
  | [] => (s, [])
  | op :: rest =>
      let '(s, now) := sequence_step op s in
      let '(s, later) := sequence_run rest s in (s, now ++ later)
  end.

Definition outbound_ids (l : list (Z + Z)) : list Z :=
  omap (fun e => match e with inl id => Some id | inr _ => None end) l.
Definition inbound_ids (l : list (Z + Z)) : list Z :=
  omap (fun e => match e with inr id => Some id | inl _ => None end) l.

(** [n] consecutive integers from [start]. *)
Definition consecutive (start : Z) (l : list Z) : Prop := l = seqZ start (Z.of_nat (length l)).

Definition sequence_ok (s : ConnectionMessageSequence) : Prop :=
  in_width 64 (next_outbound s) /\ in_width 64 (next_inbound s).

Lemma consecutive_nil n : consecutive n [].
Proof. done. Qed.

Lemma consecutive_cons n l : consecutive (n + 1) l -> consecutive n (n :: l).
Proof.
  unfold consecutive. intros H. rewrite length_cons, Nat2Z.inj_succ, seqZ_cons by lia.
  f_equal. rewrite H at 1. f_equal; lia.
Qed.

Lemma NextOutbound_spec s : sequence_ok s ->
  let '(s', id) := NextOutboundId s in
  sequence_ok s' /\ next_inbound s' = next_inbound s /\
  inbound_exhausted s' = inbound_exhausted s /\
  match id with
  | None => outbound_exhausted s = true /\ s' = s
  | Some id => outbound_exhausted s = false /\ id = next_outbound s /\
      (outbound_exhausted s' = true \/
       outbound_exhausted s' = false /\ next_outbound s' = next_outbound s + 1)
  end.
Proof.
  intros [Ho Hi]. unfold NextOutboundId, sequence_ok. destruct (outbound_exhausted s) eqn:E; [done |].
  destruct (next_outbound s =? umax 64) eqn:Eq; bool_facts; simpl.
  - repeat split; auto; apply Ho || apply Hi.
  - assert (uadd 64 (next_outbound s) 1 = next_outbound s + 1) as -> by (apply uadd_small; widths).
    repeat split; auto; widths.
Qed.

Lemma ObserveInbound_spec id s : sequence_ok s ->
  let '(s', ok) := ObserveInbound id s in
  sequence_ok s' /\ next_outbound s' = next_outbound s /\
  outbound_exhausted s' = outbound_exhausted s /\
  if ok then inbound_exhausted s = false /\ id = next_inbound s /\
      (inbound_exhausted s' = true \/
       inbound_exhausted s' = false /\ next_inbound s' = next_inbound s + 1)
  else inbound_exhausted s' = true.
Proof.
  intros [Ho Hi]. unfold ObserveInbound, sequence_ok. destruct (inbound_exhausted s) eqn:E; [done |].
  destruct (Z.eqb_spec id (next_inbound s)) as [-> |]; simpl; [| done].
  destruct (next_inbound s =? umax 64) eqn:Eq; bool_facts; simpl.
  - repeat split; auto; apply Ho || apply Hi.
  - assert (uadd 64 (next_inbound s) 1 = next_inbound s + 1) as -> by (apply uadd_small; widths).
    repeat split; auto; widths.
Qed.

Lemma sequence_run_spec ops s : sequence_ok s ->
  let l := (sequence_run ops s).2 in
  consecutive (next_outbound s) (outbound_ids l) /\
  consecutive (next_inbound s) (inbound_ids l) /\
  (outbound_exhausted s = true -> outbound_ids l = []) /\
  (inbound_exhausted s = true -> inbound_ids l = []).
Proof.
  revert s. induction ops as [| op ops IH]; intros s Hs; [done |]. simpl.
  destruct op as [| id]; simpl.
  - pose proof (NextOutbound_spec s Hs) as H. destruct (NextOutboundId s) as [s1 oid].
    destruct H as (Hs1 & Hni & Hie & Hcase). specialize (IH s1 Hs1).
    destruct (sequence_run ops s1) as [s2 l]. simpl in *.
    destruct IH as (IHo & IHi & IHxo & IHxi). rewrite Hni in IHi. rewrite Hie in IHxi.
    destruct oid as [id |]; simpl; [| by destruct Hcase as [? ->]].
    destruct Hcase as (Hx & -> & Hnext). fold (outbound_ids l). fold (inbound_ids l).
    split; [| split; [done | split; [congruence | done]]].
    apply consecutive_cons. destruct Hnext as [Hx' | [_ <-]]; [by rewrite (IHxo Hx') | done].
  - pose proof (ObserveInbound_spec id s Hs) as H. destruct (ObserveInbound id s) as [s1 ok] eqn:Eo.
    destruct H as (Hs1 & Hno & Hoe & Hcase). specialize (IH s1 Hs1).
    destruct (sequence_run ops s1) as [s2 l]. simpl in *.
    destruct IH as (IHo & IHi & IHxo & IHxi). rewrite Hno in IHo. rewrite Hoe in IHxo.
    destruct ok; simpl.
    + destruct Hcase as (Hx & -> & Hnext). fold (outbound_ids l). fold (inbound_ids l).
      split; [done | split; [| split; [done | congruence]]].
      apply consecutive_cons. destruct Hnext as [Hx' | [_ <-]]; [by rewrite (IHxi Hx') | done].
    + split; [done |]. rewrite (IHxi Hcase). done.
Qed.

(** ** Properties *)

(** after any sequence of calls on a connection's credit budget, the bytes
    reserved in each direction are at most the limit, which is at most 64 MiB;
    at most the configured number of streams, and never more than 32, are
    active; and the active stream ids are pairwise distinct and nonzero. *)
Theorem budget_limits_hold (limit maximum : Z) (ops : list BudgetOp)
    (Hl : in_width 32 limit) (Hm : in_width 16 maximum) (Hargs : Forall op_args_ok ops) :
  let b := (budget_run ops (MakeBudget limit maximum)).1 in
  (forall d, 0 <= reserved_bytes d b <= b_limit_bytes b) /\
  b_limit_bytes b <= kMaximumConnectionWindow /\
  Z.of_nat (length (active_list b)) = b_active_streams b /\
  b_active_streams b <= b_maximum_streams b <= 32 /\
  NoDup (active_list b) /\ 0 ∉ active_list b.
Proof.
  intros b. assert (Hok : budget_ok b).
  { apply budget_ok_run; [| done]. apply budget_ok_Make; apply Hl || apply Hm. }
  pose proof (active_list_length b Hok) as Hlen.
  destruct Hok as ((? & ? & ? & ?) & _ & ? & Hf & _).
  split; [done |]. split; [lia |]. split; [done |]. split; [lia |]. split; [done |].
  intros Hin. rewrite list.Forall_forall in Hf. apply Hf in Hin. lia.
Qed.

Lemma budget_limits_hold_witness :
  let ops := [OpOpen 1 true Role.kInitiator; OpReserve CreditDirection.kOutbound 262144;
              OpOpen 2 false Role.kInitiator; OpClose 1] in
  active_list (budget_run ops (MakeBudget 1048576 4)).1 = [2] /\
  b_active_streams (budget_run ops (MakeBudget 1048576 4)).1
    <= b_maximum_streams (budget_run ops (MakeBudget 1048576 4)).1.
Proof.
  split; [reflexivity |].
  destruct (budget_limits_hold 1048576 4
    [OpOpen 1 true Role.kInitiator; OpReserve CreditDirection.kOutbound 262144;
     OpOpen 2 false Role.kInitiator; OpClose 1]) as (_ & _ & _ & [H _] & _);
    [by split | by split | repeat constructor; done | exact H].
Defined.

(** on one connection no stream id is ever opened twice, by either side, and
    the ids each side opens are strictly increasing. *)
Theorem stream_ids_never_reused (limit maximum : Z) (ops : list BudgetOp)
    (Hl : in_width 32 limit) (Hm : in_width 16 maximum) (Hargs : Forall op_args_ok ops) :
  let l := (budget_run ops (MakeBudget limit maximum)).2 in
  NoDup l.*2 /\ StronglySorted Z.lt (opened_by true l) /\
  StronglySorted Z.lt (opened_by false l).
Proof.
  assert (Hok : budget_ok (MakeBudget limit maximum))
    by (apply budget_ok_Make; apply Hl || apply Hm).
  destruct (budget_run ops (MakeBudget limit maximum)) as [b l] eqn:Hr.
  destruct (run_opened ops _ b l Hok Hargs Hr) as (? & ? & _). auto.
Qed.

Lemma stream_ids_never_reused_witness :
  let ops := [OpOpen 1 true Role.kInitiator; OpClose 1; OpOpen 1 true Role.kInitiator;
              OpOpen 3 true Role.kInitiator; OpOpen 2 false Role.kInitiator] in
  (budget_run ops (MakeBudget 1048576 4)).2.*2 = [1; 3; 2] /\ NoDup [1; 3; 2].
Proof.
  split; [reflexivity |].
  destruct (stream_ids_never_reused 1048576 4
    [OpOpen 1 true Role.kInitiator; OpClose 1; OpOpen 1 true Role.kInitiator;
     OpOpen 3 true Role.kInitiator; OpOpen 2 false Role.kInitiator]) as (H & _);
    [by split | by split | repeat constructor; done | exact H].
Defined.

(** C35: the array of active streams implements a set.  Opening a stream
    succeeds only for an id that is not in the set and below capacity and then
    adds exactly that id; a refused open leaves the set unchanged; closing a
    stream removes exactly that id, whatever its place in the array. *)
Theorem budget_refines_stream_set (b : ConnectionCreditBudget) (id : Z) (c : bool)
    (r : Role.Role) (Hok : budget_ok b) :
  let '(b', res) := OpenStream id c r b in
  (res = StreamOpenResult.kOpened ->
     id ∉ streams b /\ b_active_streams b < b_maximum_streams b /\
     streams b' = {[id]} ∪ streams b) /\
  (res <> StreamOpenResult.kOpened -> streams b' = streams b) /\
  streams (CloseStream id b) = (streams b ∖ {[id]}) /\
  Z.of_nat (size (streams b)) = b_active_streams b.
Proof.
  assert (Hclose : streams (CloseStream id b) = streams b ∖ {[id]}).
  { unfold streams. destruct (decide (id ∈ active_list b)) as [Hin | Hout].
    - destruct (CloseStream_perm id b Hok Hin) as [Hp _].
      destruct Hok as (_ & _ & Hnd & _). rewrite Hp in Hnd.
      apply list.NoDup_cons in Hnd as [Hn _]. rewrite Hp. set_solver.
    - rewrite CloseStream_absent by done. set_solver. }
  assert (Hsize : Z.of_nat (size (streams b)) = b_active_streams b).
  { unfold streams. rewrite size_list_to_set by apply Hok. by apply active_list_length. }
  destruct (OpenStream id c r b) as [b' res] eqn:Ho.
  pose proof (OpenStream_spec id c r b) as Hs. rewrite Ho in Hs. unfold streams in *.
  inversion Hs as [| | | Hid Hr Hx He Hn Hc]; subst b' res.
  - done.
  - by rewrite active_with_role.
  - split; [done |]. split; [| done]. intros _. destruct c; by rewrite ?active_consume, active_with_role.
  - split; [| done]. intros _. split; [by rewrite elem_of_list_to_set |]. split; [done |].
    rewrite active_consume, active_opened, active_with_role;
      [| by apply budget_ok_with_role
       | by rewrite !(proj1 (streams_of_with_role b r)), (proj2 (streams_of_with_role b r))].
    set_solver.
Qed.

Lemma budget_refines_stream_set_witness :
  let b := (budget_run [OpOpen 1 true Role.kInitiator; OpOpen 3 true Role.kInitiator;
                        OpOpen 5 true Role.kInitiator] (MakeBudget 1048576 4)).1 in
  active_list (CloseStream 1 b) = [5; 3] /\ streams (CloseStream 1 b) = streams b ∖ {[1]}.
Proof.
  split; [reflexivity |].
  assert (Hok : budget_ok (budget_run
    [OpOpen 1 true Role.kInitiator; OpOpen 3 true Role.kInitiator;
     OpOpen 5 true Role.kInitiator] (MakeBudget 1048576 4)).1)
    by (apply budget_ok_run; [apply budget_ok_Make; done | repeat constructor]).
  pose proof (budget_refines_stream_set _ 1 true Role.kInitiator Hok) as H.
  destruct (OpenStream _ _ _ _). apply H.
Defined.

(** however the streams of a connection interleave their calls, the message
    ids handed out are consecutive from the first one, so none is used twice,
    and the inbound ids accepted are consecutive too: a replayed, skipped or
    reordered inbound id is refused, and so is everything after it. *)
Theorem message_ids_interleaved (out inb : Z) (ops : list SequenceOp)
    (Ho : in_width 64 out) (Hi : in_width 64 inb) :
  let s := (sequence_run ops (MakeSequence out inb)).1 in
  let l := (sequence_run ops (MakeSequence out inb)).2 in
  consecutive out (outbound_ids l) /\ consecutive inb (inbound_ids l) /\
  (forall id, id <> next_inbound s ->
     forall rest, inbound_ids (sequence_run (OpObserve id :: rest) s).2 = []).
Proof.
  assert (Hs : sequence_ok (MakeSequence out inb)) by done.
  pose proof (sequence_run_spec ops _ Hs) as H.
  assert (Hok : sequence_ok (sequence_run ops (MakeSequence out inb)).1).
  { clear H. revert Hs. generalize (MakeSequence out inb). clear Ho Hi.
    induction ops as [| op ops IH]; intros s Hs; [done |]. simpl.
    assert (sequence_ok (sequence_step op s).1) as Hs1.
    { destruct op as [| id]; simpl.
      - pose proof (NextOutbound_spec s Hs). destruct (NextOutboundId s). tauto.
      - pose proof (ObserveInbound_spec id s Hs). destruct (ObserveInbound id s). tauto. }
    destruct (sequence_step op s) as [s1 now]. specialize (IH s1 Hs1).
    by destruct (sequence_run ops s1). }
  destruct (sequence_run ops (MakeSequence out inb)) as [s l]. simpl in Hok, H.
  destruct H as (? & ? & _). split; [done |]. split; [done |].
  intros id Hid rest. simpl. pose proof (ObserveInbound_spec id s Hok) as H1.
  assert (Hr : (ObserveInbound id s).2 = false).
  { unfold ObserveInbound. destruct (inbound_exhausted s); [done |].
    by destruct (Z.eqb_spec id (next_inbound s)). }
  destruct (ObserveInbound id s) as [s1 ok]. simpl in Hr. subst ok.
  destruct H1 as (Hok1 & _ & _ & Hx).
  destruct (sequence_run_spec rest s1 Hok1) as (_ & _ & _ & Hnil).
  destruct (sequence_run rest s1). by apply Hnil.
Qed.

Lemma message_ids_interleaved_witness :
  let ops := [OpNext; OpObserve 1; OpNext; OpObserve 2; OpObserve 2; OpObserve 3] in
  let l := (sequence_run ops (MakeSequence 1 1)).2 in
  outbound_ids l = [1; 2] /\ inbound_ids l = [1; 2] /\ consecutive 1 (inbound_ids l).
Proof.
  split; [reflexivity |]. split; [reflexivity |].
  destruct (message_ids_interleaved 1 1
    [OpNext; OpObserve 1; OpNext; OpObserve 2; OpObserve 2; OpObserve 3]) as (_ & H & _);
    [by split | by split | exact H].
Defined.
