(* ===== verification/FrameCodec.v ===== *)
(** * Frame encoding and decoding of the transfer component

    The rest of [native/src/transfer/frame_codec.cpp] (declared in
    [native/src/transfer/internal.hpp]): the body builder, the validity checks
    of contexts and limits, the deadline arithmetic, the tables of wire errors,
    the encoders and the inbound parser.

    An encoder allocates: [alloc_ok] is false when an allocation of the call
    throws [std::bad_alloc].  Every such exception is caught inside the encoder
    or by the body builder, which then stays not ok, and each one has the same
    outcome: the encoder returns false before it takes a message id. *)

From S2P Require Import Prelude.
From S2P Require Import V1Parser.
From S2P Require Import Transfer.
From S2P Require Import Connection.
Import WireType MessageType.

(** ** Protocol errors *)

Definition TransferErrorForProtocol (e : ErrorCode.ErrorCode) : TransferError.TransferError :=
  match e with
  | ErrorCode.kNone => TransferError.kNone
  | ErrorCode.kMalformedFrame | ErrorCode.kFrameTooLarge | ErrorCode.kUnsupportedVersion
  | ErrorCode.kUnsupportedCapability | ErrorCode.kUnsupportedMessage
  | ErrorCode.kDowngradeDetected => TransferError.kMalformedFrame
  | ErrorCode.kMalformedMessage | ErrorCode.kUnknownCriticalField =>
      TransferError.kMalformedMessage
  | ErrorCode.kStateViolation => TransferError.kStateViolation
  | ErrorCode.kMessageIdViolation => TransferError.kMessageIdViolation
  | ErrorCode.kLimitExceeded => TransferError.kLimitExceeded
  end.

Definition ProtocolErrorIsConnectionFatal (e : ErrorCode.ErrorCode) (stream_id : Z) : bool :=
  match e with
  | ErrorCode.kMalformedFrame | ErrorCode.kFrameTooLarge | ErrorCode.kUnsupportedVersion
  | ErrorCode.kDowngradeDetected | ErrorCode.kUnsupportedCapability
  | ErrorCode.kUnsupportedMessage | ErrorCode.kMessageIdViolation => true
  | ErrorCode.kNone | ErrorCode.kMalformedMessage | ErrorCode.kUnknownCriticalField
  | ErrorCode.kLimitExceeded => false
  | ErrorCode.kStateViolation => stream_id =? 0
  end.

(** ** Byte output *)

Definition AppendU16 (output : bytes) (value : Z) : bytes := output ++ be_bytes 2 value.
Definition AppendU32 (output : bytes) (value : Z) : bytes := output ++ be_bytes 4 value.

(** Eight bytes of [output] overwritten from [offset] on. *)
Definition StoreU64 (output : bytes) (offset : nat) (value : Z) : bytes :=
  take offset output ++ be_bytes 8 value ++ drop (offset + 8) output.

(** ** [BodyBuilder] *)

Record BodyBuilder := {
  bb_bytes : bytes;
  bb_previous_id : Z;
  bb_has_previous_id : bool;
  bb_ok : bool;
}.

#[global] Instance eta_BodyBuilder : Eta BodyBuilder := fun x =>
  {| bb_bytes := bb_bytes x; bb_previous_id := bb_previous_id x;
     bb_has_previous_id := bb_has_previous_id x; bb_ok := bb_ok x |}.

Definition BodyBuilder_default : BodyBuilder :=
  {| bb_bytes := []; bb_previous_id := 0; bb_has_previous_id := false; bb_ok := true |}.

Definition Add (alloc_ok : bool) (id : Z) (wire_type : WireType) (critical : bool)
    (value : bytes) (body : BodyBuilder) : BodyBuilder :=
  if negb (bb_ok body) || (id =? 0)
     || (bb_has_previous_id body && (id <=? bb_previous_id body))
     || (bsize value >? umax 32) then
    body <| bb_ok := false |>
  else
  let required := 8 + bsize value in
  if (required >? kMaxBodyLength) || (bsize (bb_bytes body) >? kMaxBodyLength - required) then
    body <| bb_ok := false |>
  else if negb alloc_ok then body <| bb_ok := false |>
  else
  let out := AppendU16 (bb_bytes body) id in
  let out := out ++ [u8 (wire_type_code wire_type)] in
  let out := out ++ [if critical then 1 else 0] in
  let out := AppendU32 out (u32 (bsize value)) in
  {| bb_bytes := out ++ value; bb_previous_id := id; bb_has_previous_id := true;
     bb_ok := true |}.

Definition AddU8 (alloc_ok : bool) (id value : Z) (critical : bool) :=
  Add alloc_ok id kU8 critical [value].
Definition AddU16 (alloc_ok : bool) (id value : Z) (critical : bool) :=
  Add alloc_ok id kU16 critical (be_bytes 2 value).
Definition AddU32 (alloc_ok : bool) (id value : Z) (critical : bool) :=
  Add alloc_ok id kU32 critical (be_bytes 4 value).
Definition AddU64 (alloc_ok : bool) (id value : Z) (critical : bool) :=
  Add alloc_ok id kU64 critical (be_bytes 8 value).
Definition AddBool (alloc_ok : bool) (id : Z) (value critical : bool) :=
  Add alloc_ok id kBool critical [if value then 1 else 0].
Definition AddBytes (alloc_ok : bool) (id : Z) (value : bytes) (critical : bool) :=
  Add alloc_ok id kBytes critical value.
Definition AddUtf8 (alloc_ok : bool) (id : Z) (value : bytes) (critical : bool) :=
  Add alloc_ok id kUtf8 critical value.

(** ** Validity checks *)

Definition ValidLimits (l : TransferLimits) : bool :=
  (l_maximum_body l >=? 8192) && (l_maximum_body l <=? kMaxBodyLength) &&
  (l_maximum_in_flight l >=? 1048576) &&
  (l_maximum_in_flight l <=? kMaximumConnectionWindow) &&
  negb (l_maximum_active_streams l =? 0) && (l_maximum_active_streams l <=? 32) &&
  (l_preferred_chunk_size l >=? kMinimumChunkSize) &&
  (l_preferred_chunk_size l <=? kMaximumChunkSize) &&
  (l_preferred_initial_window l >=? l_preferred_chunk_size l) &&
  (l_preferred_initial_window l <=? kMaximumTransferWindow) &&
  (l_preferred_initial_window l <=? l_maximum_in_flight l).

Definition ValidateContext (context : TransferContext) (local_is_stream_creator : bool) : bool :=
  if negb (c_authority_set context) || (c_stream_id context =? 0)
     || negb (bool_decide (c_version context = Version_default))
     || negb (ValidLimits (c_limits context)) then false
  else
  let creator :=
    if local_is_stream_creator then c_local_role context
    else if bool_decide (c_local_role context = Role.kInitiator) then Role.kResponder
    else Role.kInitiator in
  let odd := negb (Z.land (c_stream_id context) 1 =? 0) in
  (bool_decide (creator = Role.kInitiator) && odd)
  || (bool_decide (creator = Role.kResponder) && negb odd).

Definition Authorized {A} `{SessionAuthority A} (authority : A) (context : TransferContext)
    : bool :=
  c_authority_set context && IsAuthorized authority (c_session_handle context).

Definition AllZero (transfer_id : bytes) : bool :=
  fold_left (fun aggregate byte => u8 (Z.lor aggregate byte)) transfer_id 0 =? 0.

Definition ValidCommitment (commitment : bytes) : bool :=
  (bsize commitment >=? 16) && (bsize commitment <=? 64).

(** ** Time *)

(** [ObserveTime]: the new [last_now_ms] and the result. *)
Definition ObserveTime (now_ms last_now_ms : Z) : Z * bool :=
  if now_ms <? last_now_ms then (last_now_ms, false) else (now_ms, true).

Definition CheckedDeadline (now_ms duration_ms : Z) : Z :=
  if duration_ms >? usub 64 (umax 64) now_ms then umax 64
  else uadd 64 now_ms duration_ms.

Definition DeadlineReached (now_ms deadline_ms : Z) : bool :=
  negb (deadline_ms =? 0) && (now_ms >=? deadline_ms).

Definition IsTerminal (s : TransferState.TransferState) : bool :=
  match s with
  | TransferState.kCommitted | TransferState.kCompleted | TransferState.kCancelled
  | TransferState.kRejected | TransferState.kFailed => true
  | _ => false
  end.

(** ** Wire errors *)

(** The enumerators the switch of [DecodeWireError] accepts. *)
Definition decodable_wire_errors : list WireErrorCode.WireErrorCode :=
  [WireErrorCode.kMalformedFrame; WireErrorCode.kFrameTooLarge;
   WireErrorCode.kMalformedMessage; WireErrorCode.kUnsupportedVersion;
   WireErrorCode.kDowngradeDetected; WireErrorCode.kUnsupportedCapability;
   WireErrorCode.kUnsupportedMessage; WireErrorCode.kUnknownCriticalField;
   WireErrorCode.kStateViolation; WireErrorCode.kMessageIdViolation;
   WireErrorCode.kLimitExceeded; WireErrorCode.kTimeout; WireErrorCode.kInvalidOffer;
   WireErrorCode.kInvalidManifest; WireErrorCode.kPolicyRejected; WireErrorCode.kNoSpace;
   WireErrorCode.kBusy; WireErrorCode.kIoFailure; WireErrorCode.kIntegrityFailed;
   WireErrorCode.kCancelled; WireErrorCode.kResumeUnavailable; WireErrorCode.kExpired;
   WireErrorCode.kIdempotencyConflict; WireErrorCode.kCompleted].

(** [static_cast<WireErrorCode>(encoded)] keeps the 16 low bits. *)
Definition DecodeWireError (encoded : Z) : option WireErrorCode.WireErrorCode :=
  List.find (fun e => WireErrorCode.wire_error_value e =? u16 encoded) decodable_wire_errors.

Definition TransferErrorForWire (e : WireErrorCode.WireErrorCode) : TransferError.TransferError :=
  match e with
  | WireErrorCode.kMalformedFrame | WireErrorCode.kFrameTooLarge
  | WireErrorCode.kUnsupportedVersion | WireErrorCode.kDowngradeDetected
  | WireErrorCode.kUnsupportedCapability | WireErrorCode.kUnsupportedMessage =>
      TransferError.kMalformedFrame
  | WireErrorCode.kMalformedMessage | WireErrorCode.kUnknownCriticalField =>
      TransferError.kMalformedMessage
  | WireErrorCode.kStateViolation => TransferError.kStateViolation
  | WireErrorCode.kMessageIdViolation => TransferError.kMessageIdViolation
  | WireErrorCode.kLimitExceeded => TransferError.kLimitExceeded
  | WireErrorCode.kTimeout => TransferError.kTimeout
  | WireErrorCode.kInvalidOffer => TransferError.kInvalidOffer
  | WireErrorCode.kInvalidManifest => TransferError.kInvalidManifest
  | WireErrorCode.kPolicyRejected | WireErrorCode.kResumeUnavailable
  | WireErrorCode.kExpired => TransferError.kPolicyRejected
  | WireErrorCode.kCancelled => TransferError.kCancelled
  | WireErrorCode.kCompleted => TransferError.kNone
  | WireErrorCode.kNoSpace => TransferError.kNoSpace
  | WireErrorCode.kBusy => TransferError.kBusy
  | WireErrorCode.kIoFailure => TransferError.kIoFailure
  | WireErrorCode.kIntegrityFailed => TransferError.kIntegrityFailed
  | WireErrorCode.kIdempotencyConflict => TransferError.kIdempotencyConflict
  | WireErrorCode.kNone => TransferError.kNone
  end.

Definition WireErrorIsConnectionFatal (e : WireErrorCode.WireErrorCode) : bool :=
  match e with
  | WireErrorCode.kMalformedFrame | WireErrorCode.kFrameTooLarge
  | WireErrorCode.kUnsupportedVersion | WireErrorCode.kDowngradeDetected
  | WireErrorCode.kUnsupportedCapability | WireErrorCode.kUnsupportedMessage
  | WireErrorCode.kMessageIdViolation => true
  | _ => false
  end.

Definition WireErrorIsFatal (e : WireErrorCode.WireErrorCode) : bool :=
  if WireErrorIsConnectionFatal e then true
  else match e with
  | WireErrorCode.kNone | WireErrorCode.kPolicyRejected | WireErrorCode.kNoSpace
  | WireErrorCode.kBusy | WireErrorCode.kIoFailure | WireErrorCode.kCancelled
  | WireErrorCode.kResumeUnavailable | WireErrorCode.kExpired
  | WireErrorCode.kCompleted => false
  | _ => true
  end.

Definition WireErrorMayRetry (e : WireErrorCode.WireErrorCode) : bool :=
  match e with
  | WireErrorCode.kTimeout | WireErrorCode.kNoSpace | WireErrorCode.kBusy
  | WireErrorCode.kIoFailure => true
  | _ => false
  end.

Definition WireErrorIsRejectReason (e : WireErrorCode.WireErrorCode) : bool :=
  match e with
  | WireErrorCode.kPolicyRejected | WireErrorCode.kNoSpace | WireErrorCode.kBusy
  | WireErrorCode.kIoFailure => true
  | _ => false
  end.

(** ** Encoders *)

(** The 28 header bytes both encoders append, the message id still zero. *)
Definition AppendHeader (context : TransferContext) (type : MessageType) (body_size : Z)
    : bytes :=
  let encoded := kMagic in
  let encoded := AppendU16 encoded (u16 kFixedHeaderLength) in
  let encoded := encoded ++ [major (c_version context)] in
  let encoded := encoded ++ [minor (c_version context)] in
  let encoded := AppendU16 encoded (u16 (message_type_code type)) in
  let encoded := AppendU16 encoded 0 in
  let encoded := AppendU32 encoded (c_stream_id context) in
  let encoded := encoded ++ repeat 0 8 in
  AppendU32 encoded (u32 body_size).

(** The tail of both encoders: the self check with message id 1, and the id
    taken from the connection when it succeeds. *)
Definition FinishFrame (context : TransferContext) (type : MessageType)
    (message_ids : ConnectionMessageSequence) (encoded : bytes)
    : ConnectionMessageSequence * option bytes :=
  let encoded := StoreU64 encoded 16 1 in
  let self_check := ParseFrame encoded (c_version context) in
  if negb (result_ok self_check)
     || negb (bool_decide (h_message_type (pf_header (pr_frame self_check)) = type))
     || negb (h_stream_id (pf_header (pr_frame self_check)) =? c_stream_id context) then
    (message_ids, None)
  else
  let '(message_ids, id) := NextOutboundId message_ids in
  match id with
  | None => (message_ids, None)
  | Some message_id =>
      if message_id =? 0 then (message_ids, None)
      else (message_ids, Some (StoreU64 encoded 16 message_id))
  end.

(** [EncodeFrame]: the frame written to [output] when it returns true. *)
Definition EncodeFrame (alloc_ok : bool) (context : TransferContext) (type : MessageType)
    (message_ids : ConnectionMessageSequence) (body : BodyBuilder)
    : ConnectionMessageSequence * option bytes :=
  if negb (bb_ok body) || (bsize (bb_bytes body) >? l_maximum_body (c_limits context))
     || (bsize (bb_bytes body) >? kMaxBodyLength) then (message_ids, None)
  else if negb alloc_ok then (message_ids, None)
  else
  let encoded := AppendHeader context type (bsize (bb_bytes body)) ++ bb_bytes body in
  FinishFrame context type message_ids encoded.

(** The lambda [append_bytes_field]. *)
Definition append_bytes_field (encoded : bytes) (id : Z) (value : bytes) : bytes :=
  let encoded := AppendU16 encoded id in
  let encoded := encoded ++ [u8 (wire_type_code kBytes)] in
  let encoded := encoded ++ [1] in
  AppendU32 encoded (u32 (bsize value)) ++ value.

Definition kTrailingFieldHeaders : Z := 16.

Definition EncodeFileChunkFrame (alloc_ok : bool) (context : TransferContext)
    (message_ids : ConnectionMessageSequence) (transfer_id : bytes) (offset : Z)
    (data commitment : bytes) : ConnectionMessageSequence * option bytes :=
  let prefix := BodyBuilder_default in
  let prefix := AddBytes alloc_ok 1 transfer_id true prefix in
  let prefix := AddU32 alloc_ok 2 0 true prefix in
  let prefix := AddU64 alloc_ok 3 offset true prefix in
  if negb (bb_ok prefix) || (bsize data =? 0) || (bsize data >? kMaximumChunkSize)
     || negb (ValidCommitment commitment) then (message_ids, None)
  else
  let variable_size := bsize data + bsize commitment in
  if (variable_size >? kMaxBodyLength - kTrailingFieldHeaders)
     || (bsize (bb_bytes prefix) >? kMaxBodyLength - kTrailingFieldHeaders - variable_size)
  then (message_ids, None)
  else
  let body_size := bsize (bb_bytes prefix) + kTrailingFieldHeaders + variable_size in
  if (body_size >? l_maximum_body (c_limits context)) || (body_size >? umax 32) then
    (message_ids, None)
  else if negb alloc_ok then (message_ids, None)
  else
  let encoded := AppendHeader context kFileChunk body_size ++ bb_bytes prefix in
  let encoded := append_bytes_field encoded 4 data in
  let encoded := append_bytes_field encoded 5 commitment in
  FinishFrame context kFileChunk message_ids encoded.

Definition EncodeErrorFrame (alloc_ok : bool) (context : TransferContext)
    (message_ids : ConnectionMessageSequence) (code : WireErrorCode.WireErrorCode)
    (retryable : bool) : ConnectionMessageSequence * option bytes :=
  let body := BodyBuilder_default in
  let body := AddU16 alloc_ok 1 (WireErrorCode.wire_error_value code) true body in
  let body := AddBool alloc_ok 2 (WireErrorIsFatal code) true body in
  let body := if retryable then AddBool alloc_ok 3 true false body else body in
  EncodeFrame alloc_ok context kError message_ids body.

Definition EncodeCancelFrame (alloc_ok : bool) (context : TransferContext)
    (message_ids : ConnectionMessageSequence) (transfer_id : bytes)
    : ConnectionMessageSequence * option bytes :=
  let body := BodyBuilder_default in
  let body := AddBytes alloc_ok 1 transfer_id true body in
  let body :=
    AddU16 alloc_ok 2 (WireErrorCode.wire_error_value WireErrorCode.kCancelled) true body in
  EncodeFrame alloc_ok context kCancel message_ids body.

Definition EncodeCancelAckFrame (alloc_ok : bool) (context : TransferContext)
    (message_ids : ConnectionMessageSequence) (transfer_id : bytes)
    (terminal_code : WireErrorCode.WireErrorCode)
    : ConnectionMessageSequence * option bytes :=
  if bool_decide (terminal_code = WireErrorCode.kNone) then (message_ids, None)
  else
  let body := BodyBuilder_default in
  let body := AddBytes alloc_ok 1 transfer_id true body in
  let body := AddU16 alloc_ok 2 (WireErrorCode.wire_error_value terminal_code) true body in
  EncodeFrame alloc_ok context kCancelAck message_ids body.

(** ** Inbound frames *)

Record ParsedTransferFrame := {
  p_frame : ParsedFrame;
  p_error : TransferError.TransferError;
  p_wire_error : WireErrorCode.WireErrorCode;
  p_connection_fatal : bool;
}.

#[global] Instance eta_ParsedTransferFrame : Eta ParsedTransferFrame := fun x =>
  {| p_frame := p_frame x; p_error := p_error x; p_wire_error := p_wire_error x;
     p_connection_fatal := p_connection_fatal x |}.

Definition ParsedTransferFrame_default : ParsedTransferFrame :=
  {| p_frame := ParsedFrame_default; p_error := TransferError.kNone;
     p_wire_error := WireErrorCode.kNone; p_connection_fatal := false |}.

(** [ParsedTransferFrame::ok]. *)
Definition parsed_ok (p : ParsedTransferFrame) : bool :=
  bool_decide (p_error p = TransferError.kNone).

Definition parse_failure (e : TransferError.TransferError) (w : WireErrorCode.WireErrorCode)
    (fatal : bool) : ParsedTransferFrame :=
  {| p_frame := ParsedFrame_default; p_error := e; p_wire_error := w;
     p_connection_fatal := fatal |}.

Definition ParseInbound {A} `{SessionAuthority A} (authority : A) (context : TransferContext)
    (message_ids : ConnectionMessageSequence) (encoded : bytes)
    : ConnectionMessageSequence * ParsedTransferFrame :=
  if negb (Authorized authority context) then
    (message_ids, parse_failure TransferError.kUnauthenticated WireErrorCode.kNone true)
  else
  let parsed := ParseFrameEnvelope encoded (c_version context) in
  let code := err_code (pr_error parsed) in
  let header := pf_header (pr_frame parsed) in
  if negb (result_ok parsed) then
    (message_ids,
     parse_failure (TransferErrorForProtocol code) (WireErrorCode.of_protocol code)
       (ProtocolErrorIsConnectionFatal code (h_stream_id header)))
  else
  let '(message_ids, observed) := ObserveInbound (h_message_id header) message_ids in
  if negb observed then
    (message_ids,
     parse_failure TransferError.kMessageIdViolation WireErrorCode.kMessageIdViolation true)
  else if h_body_length header >? l_maximum_body (c_limits context) then
    (message_ids,
     parse_failure TransferError.kLimitExceeded WireErrorCode.kLimitExceeded false)
  else if negb (h_stream_id header =? c_stream_id context) then
    (message_ids,
     parse_failure TransferError.kStateViolation WireErrorCode.kStateViolation false)
  else (message_ids, ParsedTransferFrame_default <| p_frame := pr_frame parsed |>).

Definition ParseBody (parsed : ParsedTransferFrame) : ParsedTransferFrame * bool :=
  let '(fr, e) := ParseFrameBody (p_frame parsed) in
  let parsed := parsed <| p_frame := fr |> in
  if error_ok e then (parsed, true)
  else
    (parsed <| p_error := TransferErrorForProtocol (err_code e) |>
            <| p_wire_error := WireErrorCode.of_protocol (err_code e) |>
            <| p_connection_fatal :=
                 ProtocolErrorIsConnectionFatal (err_code e) (h_stream_id (pf_header fr)) |>,
     false).

Definition Field (fr : ParsedFrame) (id : Z) : option FieldView :=
  FindFirst (pf_body_fields fr) id.

Definition Unsigned (fr : ParsedFrame) (id : Z) : Z :=
  match Field fr id with None => 0 | Some field => DecodeUnsigned field end.

Definition FieldBytes (fr : ParsedFrame) (id : Z) : bytes :=
  match Field fr id with None => [] | Some field => f_value field end.

(** [ReadTransferId]: the id copied to [output] when it returns true. *)
Definition ReadTransferId (fr : ParsedFrame) : option bytes :=
  let encoded := FieldBytes fr 1 in
  if negb (bsize encoded =? kTransferIdSize) then None else Some encoded.

Definition FailureUpdate (state : TransferState.TransferState)
    (error : TransferError.TransferError) (wire_error : WireErrorCode.WireErrorCode)
    (connection_fatal : bool) : TransferUpdate :=
  TransferUpdate_default <| u_state := state |> <| u_error := error |>
    <| u_wire_error := wire_error |> <| u_terminal := IsTerminal state |>
    <| u_connection_fatal := connection_fatal |>.
