(* ===== verification/FrameCodecProofs.v ===== *)
(** * Correctness of the transfer frame codec

    The body builder produces the TLV encoding of the fields it was given; an
    encoder succeeds exactly when those fields are a canonical body of the
    message type, and what it wrote parses back to them with the connection's
    next message id; the specialised encoder of file chunks is the general one;
    and a peer's [ParseInbound] and [ParseBody] recover the fields. *)

From S2P Require Import Prelude.
From S2P Require Import V1Parser.
From S2P Require Import V1ParserProofs.
From S2P Require Import Transfer.
From S2P Require Import Connection.
From S2P Require Import FrameCodec.
Import WireType MessageType.

(** ** The body builder *)

Definition add_field (alloc_ok : bool) (f : FieldView) (body : BodyBuilder) : BodyBuilder :=
  Add alloc_ok (f_id f) (f_wire_type f) (f_flags f =? 1) (f_value f) body.

Definition build (alloc_ok : bool) (fs : list FieldView) : BodyBuilder :=
  fold_left (fun b f => add_field alloc_ok f b) fs BodyBuilder_default.

(** The fields the builder takes: positive ids, each larger than the one before
    it, and a body within the frame limit. *)
Record buildable (alloc_ok : bool) (fs : list FieldView) : Prop := {
  bld_sorted : StronglySorted (fun f g => f_id f < f_id g) fs;
  bld_positive : Forall (fun f => 0 < f_id f) fs;
  bld_size : bsize (encode_tlvs fs) <= kMaxBodyLength;
  bld_alloc : alloc_ok = true \/ fs = [];
}.

Lemma encode_tlvs_app fs gs : encode_tlvs (fs ++ gs) = encode_tlvs fs ++ encode_tlvs gs.
Proof. unfold encode_tlvs. by rewrite List.map_app, concat_app. Qed.

Lemma encode_tlvs_snoc fs f : encode_tlvs (fs ++ [f]) = encode_tlvs fs ++ encode_tlv f.
Proof. rewrite encode_tlvs_app. unfold encode_tlvs. simpl. by rewrite app_nil_r. Qed.

Lemma build_snoc a fs f : build a (fs ++ [f]) = add_field a f (build a fs).
Proof. unfold build. by rewrite fold_left_app. Qed.

(** In a sorted list the last element bounds the others. *)
Lemma sorted_last_bound fs (n : Z) :
  StronglySorted (fun f g => f_id f < f_id g) fs ->
  Forall (fun f => f_id f < n) fs <->
  match list.last fs with Some g => f_id g < n | None => True end.
Proof.
  destruct fs as [| g fs _] using rev_ind; [simpl; split; [done | constructor] |].
  rewrite last_snoc, sorted_snoc. intros [_ Hl]. rewrite Forall_app, Forall_singleton.
  split; [tauto |]. intros Hg. split; [| done].
  eapply Forall_impl; [| exact Hl]. simpl. intros; lia.
Qed.

(** What the builder holds after the fields [fs]. *)
Definition builder_holds (fs : list FieldView) (b : BodyBuilder) : Prop :=
  bb_bytes b = encode_tlvs fs /\
  match list.last fs with
  | Some g => bb_has_previous_id b = true /\ bb_previous_id b = f_id g
  | None => bb_has_previous_id b = false
  end.

Lemma add_field_bytes f fs b :
  wf_tlv f -> bb_bytes b = encode_tlvs fs ->
  ((AppendU32 (((AppendU16 (bb_bytes b) (f_id f)) ++ [u8 (wire_type_code (f_wire_type f))])
     ++ [if f_flags f =? 1 then 1 else 0]) (u32 (bsize (f_value f)))) ++ f_value f)
  = encode_tlvs (fs ++ [f]).
Proof.
  intros (Hid & Hfl & Hlen & _) ->. rewrite encode_tlvs_snoc.
  unfold AppendU16, AppendU32, encode_tlv. rewrite !wrap_small by (apply wire_type_code_byte || done).
  rewrite <- !app_assoc. destruct Hfl as [-> | ->]; reflexivity.
Qed.

Lemma build_spec a fs : Forall wf_tlv fs ->
  (bb_ok (build a fs) = true <-> buildable a fs) /\
  (bb_ok (build a fs) = true -> builder_holds fs (build a fs)).
Proof.
  induction fs as [| f fs IH] using rev_ind; intros Hwf.
  { split; [| done]. split; [| done]. intros _. split; [constructor.. | done | by right]. }
  apply Forall_app in Hwf as [Hwf [Hf _]%list.Forall_cons].
  destruct (IH Hwf) as [IHiff IHholds]. clear IH. rewrite build_snoc.
  pose proof (bsize_nonneg (f_value f)). pose proof (bsize_nonneg (encode_tlvs fs)).
  assert (Hbuild : buildable a (fs ++ [f]) <->
    buildable a fs /\ 0 < f_id f /\ Forall (fun g => f_id g < f_id f) fs /\
    bsize (encode_tlvs fs) + (8 + bsize (f_value f)) <= kMaxBodyLength /\ a = true).
  { split.
    - intros [Hs Hp Hz Ha]. apply sorted_snoc in Hs as [Hs Hlt].
      apply Forall_app in Hp as [Hp Hp1]. apply list.Forall_cons in Hp1 as [Hp1 _].
      rewrite encode_tlvs_snoc, bsize_app, bsize_encode_tlv in Hz.
      assert (a = true) by (destruct Ha as [| Ha]; [done | by destruct fs]).
      repeat split; auto; lia.
    - intros ([Hs Hp Hz Ha] & Hid & Hlt & Hsz & ->). split.
      + by apply sorted_snoc.
      + apply Forall_app. split; [done | by constructor].
      + rewrite encode_tlvs_snoc, bsize_app, bsize_encode_tlv. lia.
      + by left. }
  destruct Hf as (Hid & Hfl & Hlen & Hbytes).
  unfold add_field, Add. destruct (bb_ok (build a fs)) eqn:Eok; simpl.
  2: { split; [| done]. split; [done |]. intros (Hb & _)%Hbuild. by apply IHiff in Hb. }
  destruct (IHholds eq_refl) as [Hby Hlast]. pose proof (proj1 IHiff eq_refl) as Hb.
  rewrite (sorted_last_bound fs (f_id f) (bld_sorted _ _ Hb)) in Hbuild. rewrite Hby.
  destruct (Z.eqb_spec (f_id f) 0) as [E0 |]; simpl.
  { split; [| done]. split; [done |]. intros (_ & ? & _)%Hbuild. lia. }
  destruct (bb_has_previous_id (build a fs) && (f_id f <=? bb_previous_id (build a fs))) eqn:Ep.
  { simpl. split; [| done]. split; [done |]. intros (_ & _ & Hl & _)%Hbuild. exfalso. bool_facts.
    destruct (list.last fs); [destruct Hlast as [_ Hl2]; lia | congruence]. }
  simpl. destruct (Z.gtb_spec (bsize (f_value f)) (umax 32)) as [Hbig |]; simpl; [exfalso; widths |].
  destruct (_ || _) eqn:Es; simpl.
  { split; [| done]. split; [done |]. intros (_ & _ & _ & ? & _)%Hbuild.
    apply orb_true_iff in Es. destruct Es; bool_facts; lia. }
  bool_facts. destruct a; simpl.
  2: { split; [| done]. split; [done |]. by intros (_ & _ & _ & _ & ?)%Hbuild. }
  split.
  - split; [intros _ | done]. apply Hbuild. split; [done |]. split; [widths |].
    split; [| split; [lia | done]].
    apply andb_false_iff in Ep. destruct (list.last fs) as [g |]; [| done].
    destruct Hlast as [Hh Hp]. destruct Ep as [Ep | Ep]; [congruence |]. bool_facts. lia.
  - intros _. split; simpl.
    + rewrite <- Hby. by apply (add_field_bytes f fs (build true fs)).
    + by rewrite last_snoc.
Qed.

(** ** The frame an encoder writes *)

Lemma all_bytes_encode_tlvs fs : Forall wf_tlv fs -> all_bytes (encode_tlvs fs).
Proof.
  induction 1 as [| f fs Hf Hfs IH]; [constructor |].
  change (encode_tlvs (f :: fs)) with (encode_tlv f ++ encode_tlvs fs).
  apply all_bytes_app. split; [| done]. pose proof (flags_byte f Hf).
  destruct Hf as (_ & _ & _ & Hv). unfold encode_tlv. rewrite !all_bytes_app.
  repeat split; auto with xnn. repeat constructor; try apply wire_type_code_byte; apply H.
Qed.

(** Two blocks of well-formed fields with one encoding are equal. *)
Lemma encode_tlvs_inj fs gs :
  Forall wf_tlv fs -> Forall wf_tlv gs -> encode_tlvs fs = encode_tlvs gs -> fs = gs.
Proof.
  intros Hfs. revert gs. induction Hfs as [| f fs Hf Hfs IH]; intros gs Hgs E.
  - destruct gs as [| g gs]; [done |]. exfalso.
    change (encode_tlvs (g :: gs)) with (encode_tlv g ++ encode_tlvs gs) in E.
    apply (f_equal bsize) in E. rewrite bsize_app, bsize_encode_tlv in E. change (bsize (encode_tlvs [])) with 0 in E.
    pose proof (bsize_nonneg (f_value g)). pose proof (bsize_nonneg (encode_tlvs gs)). lia.
  - destruct Hgs as [| g gs Hg Hgs].
    { exfalso. change (encode_tlvs (f :: fs)) with (encode_tlv f ++ encode_tlvs fs) in E.
      apply (f_equal bsize) in E. rewrite bsize_app, bsize_encode_tlv in E. change (bsize (encode_tlvs [])) with 0 in E.
      pose proof (bsize_nonneg (f_value f)). pose proof (bsize_nonneg (encode_tlvs fs)). lia. }
    change (encode_tlv f ++ encode_tlvs fs = encode_tlv g ++ encode_tlvs gs) in E.
    assert (Hh : tlv_header_of f = tlv_header_of g).
    { rewrite <- (read_encode_tlv f (encode_tlvs fs) Hf), E. by apply read_encode_tlv. }
    rewrite !encode_tlv_split, Hh, <- !app_assoc in E. apply app_inv_head in E.
    injection Hh as Hid Hw Hfl Hlen.
    assert (Hw' : f_wire_type f = f_wire_type g)
      by (rewrite <- (wire_type_of_code_code (f_wire_type f)), Hw; apply wire_type_of_code_code).
    apply app_inj_1 in E as [Hv E]; [| unfold bsize in Hlen; lia].
    f_equal; [| by apply IH]. destruct f, g; simpl in *; congruence.
Qed.

Definition frame_header (context : TransferContext) (type : MessageType) (id len : Z)
    : FrameHeader :=
  {| h_length := kFixedHeaderLength; h_version := c_version context; h_message_type := type;
     h_flags := 0; h_stream_id := c_stream_id context; h_message_id := id;
     h_body_length := len |}.

(** [StoreU64] at offset 16 writes the message id of the header. *)
Lemma AppendHeader_store context type id id' body :
  in_width 32 (bsize body) ->
  StoreU64 (AppendHeader context type (bsize body) ++ body) 16 id
    = encode_header (frame_header context type id (bsize body)) ++ body /\
  StoreU64 (encode_header (frame_header context type id' (bsize body)) ++ body) 16 id
    = encode_header (frame_header context type id (bsize body)) ++ body.
Proof.
  intros Hlen. unfold AppendHeader, AppendU16, AppendU32, encode_header, StoreU64, frame_header.
  rewrite (wrap_small 16 kFixedHeaderLength) by (by split).
  rewrite (wrap_small 16 (message_type_code type)) by apply message_type_code_width.
  rewrite (wrap_small 32 (bsize body)) by done.
  unfold kMagic. cbn -[Z.shiftr wrap]. split; reflexivity.
Qed.

(** The self check and the id of the tail of an encoder. *)
Definition encodable (context : TransferContext) (type : MessageType) (fs : list FieldView)
    : Prop :=
  wf_frame (c_version context) (frame_header context type 1 (bsize (encode_tlvs fs))) [] fs.

Lemma canonical_nil : canonical [] [].
Proof.
  split; [apply Nat.le_0_l | constructor | constructor | constructor | done | done].
Qed.

(** [encodable] in terms of its parts. *)
Lemma encodable_intro context type fs :
  In type known_message_types -> in_width 32 (c_stream_id context) ->
  c_stream_id context <> 0 -> IsConnectionMessage type = false ->
  canonical (SchemaFor type) fs -> bsize (encode_tlvs fs) <= kMaxBodyLength ->
  encodable context type fs.
Proof.
  intros. pose proof (bsize_nonneg (encode_tlvs fs)). split; try done; [| apply canonical_nil].
  split; try done. split; simpl; congruence.
Qed.

(** ** What an encoder does *)

(** The message id the connection gives next, when it has one. *)
Definition id_available (message_ids : ConnectionMessageSequence) : Prop :=
  outbound_exhausted message_ids = false /\ 0 < next_outbound message_ids < 2 ^ 64.

Lemma NextOutboundId_available ids : id_available ids ->
  (NextOutboundId ids).2 = Some (next_outbound ids).
Proof. intros [H _]. unfold NextOutboundId. by rewrite H. Qed.

(** The version of a transfer context fits its two header bytes. *)
Definition version_bytes (context : TransferContext) : Prop :=
  is_byte (major (c_version context)) /\ is_byte (minor (c_version context)).

#[global] Instance version_bytes_dec context : Decision (version_bytes context).
Proof. unfold version_bytes. apply _. Defined.

Definition frame_bytes (context : TransferContext) (type : MessageType) (id : Z)
    (fs : list FieldView) : bytes :=
  encode_header (frame_header context type id (bsize (encode_tlvs fs))) ++ encode_tlvs fs.

Lemma all_bytes_frame context type id fs :
  version_bytes context -> Forall wf_tlv fs -> all_bytes (frame_bytes context type id fs).
Proof.
  intros [Hma Hmi] Hwf. unfold frame_bytes, encode_header.
  rewrite !all_bytes_app. repeat split; auto with xnn; try (by apply all_bytes_encode_tlvs).
  - by apply (bool_decide_unpack _); vm_compute.
  - constructor; [done |]. constructor; [done | constructor].
Qed.

Lemma wf_frame_id context type id id' fs :
  0 < id' < 2 ^ 64 ->
  wf_frame (c_version context) (frame_header context type id (bsize (encode_tlvs fs))) [] fs ->
  wf_frame (c_version context) (frame_header context type id' (bsize (encode_tlvs fs))) [] fs.
Proof. intros Hid [[] ? ? ? ?]. by split. Qed.

Lemma encode_header_inj h h' r r' :
  wf_raw_header (raw_of h) -> wf_raw_header (raw_of h') ->
  encode_header h ++ r = encode_header h' ++ r' -> raw_of h = raw_of h'.
Proof.
  intros Hw Hw' E. rewrite !encode_header_raw, <- !app_assoc in E.
  destruct (read_write_raw_header (raw_of h) r _ Hw eq_refl) as (A1 & A2 & A3 & A4 & A5 & A6 & A7 & A8).
  destruct (read_write_raw_header (raw_of h') r' _ Hw' eq_refl) as (B1 & B2 & B3 & B4 & B5 & B6 & B7 & B8).
  rewrite E in A1, A2, A3, A4, A5, A6, A7, A8.
  destruct (raw_of h) as [a1 a2 a3 a4 a5 a6 a7 a8], (raw_of h') as [b1 b2 b3 b4 b5 b6 b7 b8].
  cbn [rh_length rh_major rh_minor rh_type rh_flags
    rh_stream rh_message_id rh_body] in *. congruence.
Qed.

(** The self check passes exactly on the frames of [encodable] bodies. *)
Lemma self_check_iff context type fs :
  version_bytes context -> Forall wf_tlv fs -> in_width 32 (c_stream_id context) ->
  let r := ParseFrame (frame_bytes context type 1 fs) (c_version context) in
  (encodable context type fs ->
     r = {| pr_frame := parsed_frame (frame_header context type 1 (bsize (encode_tlvs fs))) [] fs;
            pr_error := NoError |}) /\
  (bsize (encode_tlvs fs) <= kMaxBodyLength -> result_ok r = true ->
   h_message_type (pf_header (pr_frame r)) = type -> encodable context type fs).
Proof.
  intros [Hma Hmi] Hwf Hst r. split.
  - intros He. by apply (ParseFrame_complete (c_version context)
      (frame_header context type 1 (bsize (encode_tlvs fs))) [] fs).
  - intros Hsz Hok Htype. subst r.
    pose proof (all_bytes_frame context type 1 fs (conj Hma Hmi) Hwf) as Hb.
    apply ParseFrame_inv in Hok as (h & exts & fields & E & Hw & _ & _); [| done].
    rewrite E, ParseFrame_complete in Htype by done. simpl in Htype.
    unfold frame_bytes in E. pose proof (bsize_nonneg (encode_tlvs fs)).
    assert (Hh : frame_header context type 1 (bsize (encode_tlvs fs)) = h).
    { destruct Hw as [Hw _ _ _ _]. pose proof (wf_header_raw _ _ Hma Hmi Hw) as Hraw.
      apply encode_header_inj in E; [| split; done || apply message_type_code_width || (unfold kMaxBodyLength in *; cbn; widths) | done].
      destruct h as [? [] ? ? ? ? ?]. unfold raw_of, frame_header in *. cbn in *.
      injection E. intros. subst. f_equal. by destruct (c_version context). }
    rewrite Hh in E. apply app_inv_head in E. unfold encodable. rewrite Hh.
    assert (exts = []) as ->.
    { destruct Hw as [_ _ Hl _ _]. rewrite <- Hh in Hl. cbn in Hl.
      destruct exts as [| x exts]; [done |]. exfalso.
      change (encode_tlvs (x :: exts)) with (encode_tlv x ++ encode_tlvs exts) in Hl.
      unfold kFixedHeaderLength in Hl. rewrite bsize_app, bsize_encode_tlv in Hl.
      pose proof (bsize_nonneg (f_value x)). pose proof (bsize_nonneg (encode_tlvs exts)). lia. }
    apply encode_tlvs_inj in E; [by subst | done | apply (canonical_wf _ _ (wff_fields _ _ _ _ Hw))].
Qed.

(** The parameters every encoder lemma shares: a context whose version and
    stream id fit the header, and a connection with ids of 64 bits. *)
Section Encoders.
#[local] Set Default Proof Using "All".
Context (context : TransferContext) (ids : ConnectionMessageSequence).
Context (Hver : version_bytes context) (Hstream : in_width 32 (c_stream_id context)).
Context (Hids : in_width 64 (next_outbound ids)).

Lemma header_and_store type fs id :
  bsize (encode_tlvs fs) <= kMaxBodyLength ->
  StoreU64 (AppendHeader context type (bsize (encode_tlvs fs)) ++ encode_tlvs fs) 16 1
    = frame_bytes context type 1 fs /\
  StoreU64 (frame_bytes context type 1 fs) 16 id = frame_bytes context type id fs.
Proof.
  intros Hsz. pose proof (bsize_nonneg (encode_tlvs fs)). unfold kMaxBodyLength in *.
  split; apply (AppendHeader_store context type _ 1 (encode_tlvs fs)); widths.
Qed.

Lemma FinishFrame_complete type fs :
  bsize (encode_tlvs fs) <= kMaxBodyLength -> Forall wf_tlv fs ->
  encodable context type fs -> id_available ids ->
  FinishFrame context type ids
    (AppendHeader context type (bsize (encode_tlvs fs)) ++ encode_tlvs fs)
  = ((NextOutboundId ids).1, Some (frame_bytes context type (next_outbound ids) fs)).
Proof.
  intros Hsz Hwf He Hid. destruct (header_and_store type fs (next_outbound ids) Hsz) as [E1 E2].
  unfold FinishFrame. rewrite E1.
  rewrite (proj1 (self_check_iff context type fs Hver Hwf Hstream) He).
  unfold result_ok. cbn [pr_error pr_frame parsed_frame pf_header frame_header h_message_type
    h_stream_id]. rewrite error_ok_NoError, bool_decide_true, Z.eqb_refl by done. cbn [negb orb].
  pose proof (NextOutboundId_available ids Hid) as Hn. destruct (NextOutboundId ids) as [ids' o].
  simpl in Hn. subst o. destruct Hid as [_ Hid].
  destruct (Z.eqb_spec (next_outbound ids) 0); [lia |]. by rewrite E2.
Qed.

Lemma FinishFrame_sound type fs ids' out :
  bsize (encode_tlvs fs) <= kMaxBodyLength -> Forall wf_tlv fs ->
  FinishFrame context type ids
    (AppendHeader context type (bsize (encode_tlvs fs)) ++ encode_tlvs fs) = (ids', Some out) ->
  encodable context type fs /\ id_available ids.
Proof.
  intros Hsz Hwf H. destruct (header_and_store type fs (next_outbound ids) Hsz) as [E1 E2].
  unfold FinishFrame in H. rewrite E1 in H. split_if_in H; [done |]. bool_facts.
  match goal with H : bool_decide _ = true |- _ => apply bool_decide_eq_true in H end.
  split; [by apply (self_check_iff context type fs Hver Hwf Hstream) |].
  unfold NextOutboundId in H. destruct (outbound_exhausted ids) eqn:Ex; [done |].
  split_if_in H; [done |]. bool_facts. split; [done |]. widths.
Qed.

(** When the self check fails no id is taken. *)
Lemma FinishFrame_refused type fs :
  bsize (encode_tlvs fs) <= kMaxBodyLength -> Forall wf_tlv fs ->
  ~ encodable context type fs ->
  FinishFrame context type ids
    (AppendHeader context type (bsize (encode_tlvs fs)) ++ encode_tlvs fs) = (ids, None).
Proof.
  intros Hsz Hwf He. destruct (header_and_store type fs 1 Hsz) as [E1 _].
  unfold FinishFrame. rewrite E1. split_if; [done |]. bool_facts.
  match goal with H : bool_decide _ = true |- _ => apply bool_decide_eq_true in H end.
  destruct He. by apply (self_check_iff context type fs Hver Hwf Hstream).
Qed.

(** What [EncodeFrame] asks of its arguments. *)
Definition sendable (type : MessageType) (fs : list FieldView) : Prop :=
  buildable true fs /\ bsize (encode_tlvs fs) <= l_maximum_body (c_limits context) /\
  encodable context type fs /\ id_available ids.

Lemma EncodeFrame_build a type fs : Forall wf_tlv fs ->
  EncodeFrame a context type ids (build a fs) =
    if a && bb_ok (build a fs) && (bsize (encode_tlvs fs) <=? l_maximum_body (c_limits context))
    then FinishFrame context type ids
           (AppendHeader context type (bsize (encode_tlvs fs)) ++ encode_tlvs fs)
    else (ids, None).
Proof.
  intros Hwf. destruct (build_spec a fs Hwf) as [Hiff Hholds]. unfold EncodeFrame.
  destruct (bb_ok (build a fs)) eqn:Eok; simpl; [| by rewrite andb_false_r].
  destruct (Hholds eq_refl) as [-> _]. pose proof (proj1 Hiff eq_refl) as [_ _ Hsz _].
  rewrite andb_true_r, Z.gtb_ltb, Z.ltb_antisym.
  destruct (_ <=? _); simpl; [| by rewrite andb_false_r]. rewrite andb_true_r.
  destruct (Z.gtb_spec (bsize (encode_tlvs fs)) kMaxBodyLength); [lia |]. by destruct a.
Qed.

Lemma EncodeFrame_iff a type fs ids' out : Forall wf_tlv fs ->
  EncodeFrame a context type ids (build a fs) = (ids', Some out) <->
  a = true /\ sendable type fs /\ ids' = (NextOutboundId ids).1 /\
  out = frame_bytes context type (next_outbound ids) fs.
Proof.
  intros Hwf. rewrite EncodeFrame_build by done. unfold sendable.
  destruct (build_spec a fs Hwf) as [Hiff _]. split.
  - intros H. split_if_in H; [| done]. bool_facts. subst a.
    assert (Hb : buildable true fs) by tauto. pose proof (bld_size _ _ Hb) as Hsz.
    pose proof (FinishFrame_sound type fs ids' out Hsz Hwf H) as [He Hid].
    rewrite FinishFrame_complete in H by done. inv H. split; [done |]. split; [| done].
    split; [done |]. split; [lia | done].
  - intros (-> & (Hb & Hm & He & Hid) & -> & ->).
    apply Z.leb_le in Hm. rewrite Hm, (proj2 Hiff Hb). simpl.
    apply FinishFrame_complete; [apply (bld_size _ _ Hb) | done..].
Qed.

(** A failing encoder leaves the ids alone, except that a connection out of
    ids, or whose next id is zero, may say so only after the self check. *)
Lemma EncodeFrame_refused a type fs :
  Forall wf_tlv fs -> id_available ids ->
  (EncodeFrame a context type ids (build a fs)).2 = None ->
  (EncodeFrame a context type ids (build a fs)).1 = ids.
Proof.
  intros Hwf Hid. rewrite EncodeFrame_build by done.
  destruct (build_spec a fs Hwf) as [Hiff _]. split_if; [| done]. bool_facts. subst a.
  pose proof (bld_size _ _ (proj1 Hiff ltac:(done))) as Hsz. intros H.
  destruct (FinishFrame _ _ _ _) as [ids' o] eqn:Ef. simpl in *. subst o.
  destruct (NextOutboundId ids) as [n oid] eqn:En.
  pose proof (NextOutboundId_available ids Hid) as Ha. rewrite En in Ha. simpl in Ha. subst oid.
  unfold FinishFrame in Ef. split_if_in Ef; [by inv Ef |]. rewrite En in Ef.
  split_if_in Ef; [| done]. bool_facts. destruct Hid as [_ Hid]. lia.
Qed.

End Encoders.

(** ** File chunks *)

Definition bytes_field (id : Z) (v : bytes) : FieldView :=
  {| f_id := id; f_wire_type := kBytes; f_flags := 1; f_value := v |}.
Definition u16_field (id v : Z) : FieldView :=
  {| f_id := id; f_wire_type := kU16; f_flags := 1; f_value := be_bytes 2 v |}.
Definition u32_field (id v : Z) : FieldView :=
  {| f_id := id; f_wire_type := kU32; f_flags := 1; f_value := be_bytes 4 v |}.
Definition u64_field (id v : Z) : FieldView :=
  {| f_id := id; f_wire_type := kU64; f_flags := 1; f_value := be_bytes 8 v |}.
Definition bool_field (id : Z) (v : bool) (flags : Z) : FieldView :=
  {| f_id := id; f_wire_type := kBool; f_flags := flags; f_value := [if v then 1 else 0] |}.

Definition chunk_prefix (transfer_id : bytes) (offset : Z) : list FieldView :=
  [bytes_field 1 transfer_id; u32_field 2 0; u64_field 3 offset].

Definition chunk_fields (transfer_id : bytes) (offset : Z) (data commitment : bytes)
    : list FieldView :=
  chunk_prefix transfer_id offset ++ [bytes_field 4 data; bytes_field 5 commitment].

Lemma wf_bytes_field id v :
  in_width 16 id -> all_bytes v -> in_width 32 (bsize v) -> wf_tlv (bytes_field id v).
Proof. intros. split; [done |]. split; [by right |]. done. Qed.

Lemma wf_u16_field id v : in_width 16 id -> wf_tlv (u16_field id v).
Proof. intros. split; [done |]. split; [by right |]. split; [done | apply all_bytes_be_bytes]. Qed.

Lemma wf_u32_field id v : in_width 16 id -> wf_tlv (u32_field id v).
Proof. intros. split; [done |]. split; [by right |]. split; [done | apply all_bytes_be_bytes]. Qed.

Lemma wf_u64_field id v : in_width 16 id -> wf_tlv (u64_field id v).
Proof. intros. split; [done |]. split; [by right |]. split; [done | apply all_bytes_be_bytes]. Qed.

Lemma wf_bool_field id v flags :
  in_width 16 id -> flags = 0 \/ flags = 1 -> wf_tlv (bool_field id v flags).
Proof.
  intros. split; [done |]. split; [done |]. split; [done |].
  repeat constructor; destruct v; widths.
Qed.

#[export] Hint Resolve wf_bytes_field wf_u16_field wf_u32_field wf_u64_field wf_bool_field : xnn.
#[export] Hint Extern 1 (in_width 16 _) => (by split) : xnn.

Lemma wf_chunk_prefix tid offset :
  all_bytes tid -> in_width 32 (bsize tid) -> Forall wf_tlv (chunk_prefix tid offset).
Proof. intros. unfold chunk_prefix. auto 6 using Forall_cons_2, Forall_nil_2 with xnn. Qed.

Lemma wf_chunk_fields tid offset data comm :
  all_bytes tid -> all_bytes data -> all_bytes comm -> in_width 32 (bsize tid) ->
  in_width 32 (bsize data) -> in_width 32 (bsize comm) ->
  Forall wf_tlv (chunk_fields tid offset data comm).
Proof.
  intros. apply Forall_app. split; [by apply wf_chunk_prefix |].
  auto using Forall_cons_2, Forall_nil_2 with xnn.
Qed.

Lemma chunk_size tid offset data comm :
  bsize (encode_tlvs (chunk_fields tid offset data comm)) =
  bsize (encode_tlvs (chunk_prefix tid offset)) + kTrailingFieldHeaders
    + (bsize data + bsize comm).
Proof.
  unfold chunk_fields. rewrite encode_tlvs_app, bsize_app.
  change (encode_tlvs [bytes_field 4 data; bytes_field 5 comm])
    with (encode_tlv (bytes_field 4 data) ++ encode_tlv (bytes_field 5 comm) ++ []).
  rewrite app_nil_r, bsize_app, !bsize_encode_tlv. unfold kTrailingFieldHeaders. simpl. lia.
Qed.

Lemma append_bytes_field_spec enc id v :
  in_width 32 (bsize v) -> append_bytes_field enc id v = enc ++ encode_tlv (bytes_field id v).
Proof.
  intros. unfold append_bytes_field, AppendU16, AppendU32, encode_tlv.
  rewrite !wrap_small by (done || apply wire_type_code_byte). by rewrite <- !app_assoc.
Qed.

Lemma chunk_ids_sorted tid offset data comm :
  StronglySorted (fun f g => f_id f < f_id g) (chunk_fields tid offset data comm) /\
  Forall (fun f => 0 < f_id f) (chunk_fields tid offset data comm) /\
  StronglySorted (fun f g => f_id f < f_id g) (chunk_prefix tid offset) /\
  Forall (fun f => 0 < f_id f) (chunk_prefix tid offset).
Proof. repeat split; repeat constructor. Qed.

(** A chunk the schema allows has data and a commitment in range. *)
Lemma chunk_encodable_ranges context tid offset data comm :
  encodable context kFileChunk (chunk_fields tid offset data comm) ->
  1 <= bsize data <= kMaximumChunkSize /\ ValidCommitment comm = true.
Proof.
  intros [_ _ _ Hc _]. apply canonical_conforms in Hc.
  apply Forall_app in Hc as [_ Hc]. apply list.Forall_cons in Hc as [[_ Hd] Hc].
  apply list.Forall_cons in Hc as [[_ Hcm] _].
  cbn -[kMaxChunkData] in Hd, Hcm. destruct Hd as (_ & _ & Hd). destruct Hcm as (_ & _ & Hcm).
  unfold kMaxChunkData, kMaximumChunkSize, ValidCommitment in *.
  split; [lia |]. rewrite Z.geb_leb, andb_true_iff, !Z.leb_le. lia.
Qed.

Section Chunk.
Context (context : TransferContext) (ids : ConnectionMessageSequence).
Context (tid data comm : bytes) (offset : Z).
Context (Hver : version_bytes context) (Hstream : in_width 32 (c_stream_id context)).
Context (Hids : in_width 64 (next_outbound ids)).
Context (Ht : all_bytes tid) (Hd : all_bytes data) (Hc : all_bytes comm).
Context (Hts : in_width 32 (bsize tid)) (Hds : in_width 32 (bsize data)).
Context (Hcs : in_width 32 (bsize comm)).
#[local] Set Default Proof Using "All".

Lemma EncodeFileChunkFrame_reference a :
  EncodeFileChunkFrame a context ids tid offset data comm =
  EncodeFrame a context kFileChunk ids (build a (chunk_fields tid offset data comm)).
Proof.
  pose proof (wf_chunk_fields tid offset data comm Ht Hd Hc Hts Hds Hcs) as Hwf.
  pose proof (wf_chunk_prefix tid offset Ht Hts) as Hwp.
  pose proof (chunk_size tid offset data comm) as Hsize.
  destruct (chunk_ids_sorted tid offset data comm) as (Hs5 & Hp5 & Hs3 & Hp3).
  destruct (build_spec a _ Hwf) as [Hiff _]. destruct (build_spec a _ Hwp) as [Hiff3 Hholds3].
  pose proof (bsize_nonneg data). pose proof (bsize_nonneg comm).
  rewrite EncodeFrame_build by done. unfold EncodeFileChunkFrame.
  change (AddU64 a 3 offset true (AddU32 a 2 0 true (AddBytes a 1 tid true BodyBuilder_default)))
    with (build a (chunk_prefix tid offset)).
  destruct (bb_ok (build a (chunk_prefix tid offset))) eqn:E3; cbn [negb orb].
  2: { split_if; [| done]. bool_facts. exfalso. subst a.
       enough (Hb : buildable true (chunk_prefix tid offset)) by (by apply Hiff3 in Hb).
       pose proof (bld_size _ _ (proj1 Hiff ltac:(done))).
       split; [done | done | unfold kTrailingFieldHeaders in *; lia | by left]. }
  assert (Ha : a = true) by (destruct (bld_alloc _ _ (proj1 Hiff3 eq_refl)); done). subst a.
  destruct (Hholds3 eq_refl) as [-> _]. rewrite <- Hsize.
  set (fs := chunk_fields tid offset data comm) in *.
  destruct (_ || negb (ValidCommitment comm)) eqn:Eg.
  { split_if; [| done]. bool_facts. symmetry.
    apply FinishFrame_refused; [done.. | apply (bld_size true), Hiff; done | done |].
    intros [Hdata Hcomm]%chunk_encodable_ranges. rewrite Hcomm, orb_false_r in Eg.
    apply orb_true_iff in Eg. destruct Eg; bool_facts; lia. }
  destruct (_ || _) eqn:Ev in |- *.
  { split_if; [| done]. bool_facts. exfalso.
    pose proof (bld_size _ _ (proj1 Hiff ltac:(done))). apply orb_true_iff in Ev.
    pose proof (bsize_nonneg (encode_tlvs (chunk_prefix tid offset))).
    destruct Ev; bool_facts; lia. }
  apply orb_false_iff in Ev as [_ Ev]. bool_facts.
  assert (Hle : bsize (encode_tlvs fs) <= kMaxBodyLength) by lia.
  assert (bb_ok (build true fs) = true) as -> by (apply Hiff; split; auto).
  rewrite (Z.gtb_ltb (bsize (encode_tlvs fs)) (umax 32)),
    (proj2 (Z.ltb_ge (umax 32) (bsize (encode_tlvs fs)))), orb_false_r
    by (unfold kMaxBodyLength in *; widths).
  rewrite Z.gtb_ltb, Z.ltb_antisym. cbn [andb].
  destruct (_ <=? _) eqn:Em; cbn [negb]; [| done].
  rewrite !append_bytes_field_spec by done. rewrite <- !app_assoc.
  unfold fs, chunk_fields. rewrite encode_tlvs_app. do 3 f_equal.
  unfold encode_tlvs. simpl. by rewrite app_nil_r.
Qed.
End Chunk.

(** ** Canonical bodies *)

Lemma kMaxFields_enough n : (n <= 8)%nat -> (n <= kMaxFields)%nat.
Proof. intros. transitivity 8%nat; [done |]. by apply Nat.leb_le; vm_compute. Qed.

Lemma Count_sorted fs id :
  StronglySorted (fun f g => f_id f < f_id g) fs -> Count fs id <= 1.
Proof.
  induction 1 as [| f fs Hs IH Hf]; simpl; [lia |].
  destruct (Z.eqb_spec (f_id f) id) as [<- |]; [| lia].
  enough (Count fs (f_id f) = 0) by lia. clear -Hf.
  induction Hf as [| g fs Hg Hf IH]; simpl; [done |].
  destruct (Z.eqb_spec (f_id g) (f_id f)); lia.
Qed.

(** A short body with increasing ids is canonical when its fields conform and
    no required one is missing. *)
Lemma canonical_intro schema fs :
  (length fs <= 8)%nat -> StronglySorted (fun f g => f_id f < f_id g) fs ->
  Forall wf_tlv fs -> Forall (conforms schema) fs -> RequiredAbsent schema fs = false ->
  canonical schema fs.
Proof.
  intros Hlen Hs Hwf Hc Hr. split; try done; [by apply kMaxFields_enough | eapply sorted_weaken; [| exact Hs]; simpl; lia | |].
  - intros id r _ _. by apply Count_sorted.
  - by apply RequiredAbsent_false.
Qed.

(** [ValidateContext] gives what the encoders need of a context. *)
Lemma ValidateContext_spec context creator :
  ValidateContext context creator = true ->
  version_bytes context /\ c_stream_id context <> 0 /\
  8192 <= l_maximum_body (c_limits context).
Proof.
  unfold ValidateContext, ValidLimits. intros H. split_if_in H; [done |]. bool_facts.
  match goal with H : bool_decide _ = true |- _ => apply bool_decide_eq_true in H as Hv end.
  unfold version_bytes. rewrite Hv. repeat split; done || lia.
Qed.

(** A frame of a valid context: any small canonical transfer body is sent. *)
Lemma EncodeFrame_small context creator type ids fs :
  ValidateContext context creator = true -> in_width 32 (c_stream_id context) ->
  id_available ids -> In type known_message_types -> IsConnectionMessage type = false ->
  Forall wf_tlv fs -> Forall (fun f => 0 < f_id f) fs ->
  StronglySorted (fun f g => f_id f < f_id g) fs -> canonical (SchemaFor type) fs ->
  bsize (encode_tlvs fs) <= 8192 ->
  EncodeFrame true context type ids (build true fs)
  = ((NextOutboundId ids).1, Some (frame_bytes context type (next_outbound ids) fs)).
Proof.
  intros Hctx Hst Hid Hin Hconn Hwf Hpos Hs Hc Hsz.
  apply ValidateContext_spec in Hctx as (Hver & H0 & Hmax).
  assert (Hmaxb : bsize (encode_tlvs fs) <= kMaxBodyLength) by (unfold kMaxBodyLength; lia).
  apply EncodeFrame_iff; [done | done | destruct Hid; widths | done |].
  split; [done |]. split; [| done]. split; [by split; auto |]. split; [lia |].
  split; [by apply encodable_intro | done].
Qed.

(** ** Control frames *)

Definition error_fields (code : WireErrorCode.WireErrorCode) (retryable : bool)
    : list FieldView :=
  [u16_field 1 (WireErrorCode.wire_error_value code);
   bool_field 2 (WireErrorIsFatal code) 1]
  ++ (if retryable then [bool_field 3 true 0] else []).

Definition code_fields (tid : bytes) (code : WireErrorCode.WireErrorCode) : list FieldView :=
  [bytes_field 1 tid; u16_field 2 (WireErrorCode.wire_error_value code)].

Ltac field_list := repeat (apply list.Forall_cons; split); try apply Forall_nil_2.

(** One field against its rule, the rule looked up by computation. *)
Ltac conforms_field :=
  split; [cbn; try done; try (by left); try (by right) |
          cbn -[umax]; unfold bsize; repeat split; try done; try (unfold umax; simpl; lia)].

Lemma error_fields_canonical code retryable :
  Forall wf_tlv (error_fields code retryable) /\
  Forall (fun f => 0 < f_id f) (error_fields code retryable) /\
  StronglySorted (fun f g => f_id f < f_id g) (error_fields code retryable) /\
  canonical (SchemaFor kError) (error_fields code retryable) /\
  bsize (encode_tlvs (error_fields code retryable)) <= 8192.
Proof.
  assert (Hs : StronglySorted (fun f g => f_id f < f_id g) (error_fields code retryable))
    by (destruct retryable; repeat constructor).
  assert (Hwf : Forall wf_tlv (error_fields code retryable))
    by (destruct retryable; field_list; auto with xnn).
  split; [done |]. split; [destruct retryable; repeat constructor |]. split; [done |].
  split; [| destruct retryable, code; vm_compute; discriminate].
  apply canonical_intro; [destruct retryable; simpl; lia | done | done | | by destruct retryable].
  destruct retryable; field_list; conforms_field; destruct (WireErrorIsFatal code); auto.
Qed.

Lemma code_fields_canonical tid code type :
  all_bytes tid -> bsize tid = 16 -> type = kCancel \/ type = kCancelAck ->
  Forall wf_tlv (code_fields tid code) /\
  Forall (fun f => 0 < f_id f) (code_fields tid code) /\
  StronglySorted (fun f g => f_id f < f_id g) (code_fields tid code) /\
  canonical (SchemaFor type) (code_fields tid code) /\
  bsize (encode_tlvs (code_fields tid code)) <= 8192.
Proof.
  intros Hb Hl Ht.
  assert (Hs : StronglySorted (fun f g => f_id f < f_id g) (code_fields tid code))
    by repeat constructor.
  assert (Hwf : Forall wf_tlv (code_fields tid code)).
  { field_list; auto with xnn. apply wf_bytes_field; [by split | done | rewrite Hl; done]. }
  split; [done |]. split; [repeat constructor |]. split; [done |].
  split.
  - apply canonical_intro; [simpl; lia | done | done | | by destruct Ht as [-> | ->]].
    unfold bsize in Hl. destruct Ht as [-> | ->]; field_list; conforms_field; lia.
  - change (encode_tlvs (code_fields tid code))
      with (encode_tlv (bytes_field 1 tid) ++
            encode_tlv (u16_field 2 (WireErrorCode.wire_error_value code)) ++ []).
    rewrite app_nil_r, bsize_app, !bsize_encode_tlv. cbn [f_value bytes_field u16_field].
    rewrite bsize_be_bytes, Hl. lia.
Qed.

Lemma DecodeWireError_value code :
  DecodeWireError (WireErrorCode.wire_error_value code) =
  if decide (code = WireErrorCode.kNone) then None else Some code.
Proof. by destruct code. Qed.

Lemma wire_error_width code : in_width 16 (WireErrorCode.wire_error_value code).
Proof. destruct code; by split. Qed.

(** ** A connection seen from both ends *)

(** The receiver of the stream expects exactly the ids the sender will use. *)
Definition in_step (sender receiver : ConnectionMessageSequence) : Prop :=
  next_inbound receiver = next_outbound sender /\
  inbound_exhausted receiver = outbound_exhausted sender.

Lemma in_step_next sender receiver :
  in_step sender receiver -> outbound_exhausted sender = false ->
  in_step (NextOutboundId sender).1
          (ObserveInbound (next_outbound sender) receiver).1 /\
  (ObserveInbound (next_outbound sender) receiver).2 = true.
Proof.
  intros [Hn Hx] He. unfold NextOutboundId, ObserveInbound, in_step.
  rewrite Hx, He, Hn, Z.eqb_refl. simpl. by destruct (next_outbound sender =? umax 64).
Qed.

(** The inbound path of the peer on a frame an encoder wrote. *)
Lemma peer_parses {A} `{SessionAuthority A} (authority : A) sender receiver type ids peer fs :
  version_bytes sender -> Forall wf_tlv fs -> encodable sender type fs -> id_available ids ->
  Authorized authority receiver = true -> c_version receiver = c_version sender ->
  c_stream_id receiver = c_stream_id sender ->
  bsize (encode_tlvs fs) <= l_maximum_body (c_limits receiver) -> in_step ids peer ->
  let h := frame_header sender type (next_outbound ids) (bsize (encode_tlvs fs)) in
  let r := ParseInbound authority receiver peer (frame_bytes sender type (next_outbound ids) fs) in
  in_step (NextOutboundId ids).1 r.1 /\
  r.2 = ParsedTransferFrame_default
          <| p_frame := envelope_frame h [] (encode_tlvs fs) |> /\
  ParseBody r.2 = (ParsedTransferFrame_default <| p_frame := parsed_frame h [] fs |>, true).
Proof.
  intros [Hma Hmi] Hwf He Hid Hauth Hv Hst Hmax Hstep h.
  assert (Hw : wf_frame (c_version sender) h [] fs)
    by (eapply wf_frame_id; [apply Hid | exact He]).
  assert (Henv : ParseFrameEnvelope (frame_bytes sender type (next_outbound ids) fs)
      (c_version receiver) = {| pr_frame := envelope_frame h [] (encode_tlvs fs);
                                pr_error := NoError |}).
  { rewrite Hv. apply (ParseFrameEnvelope_complete (c_version sender) h [] (encode_tlvs fs));
      [done | done |]. destruct Hw. by split. }
  destruct (in_step_next ids peer Hstep (proj1 Hid)) as [Hnext Hobs].
  unfold ParseInbound. rewrite Hauth, Henv. unfold result_ok.
  cbn [pr_error pr_frame negb envelope_frame pf_header h frame_header h_message_id
    h_body_length h_stream_id]. rewrite error_ok_NoError. cbn [negb].
  destruct (ObserveInbound (next_outbound ids) peer) as [peer' ok]. simpl in Hnext, Hobs. subst ok.
  cbn [negb]. destruct (Z.gtb_spec (bsize (encode_tlvs fs)) (l_maximum_body (c_limits receiver)));
    [lia |]. rewrite Hst, Z.eqb_refl. cbn [negb].
  split; [done |]. split; [done |]. unfold ParseBody. simpl.
  destruct Hw as [_ _ _ Hc Hl].
  replace (ParseFrameBody _) with (parsed_frame h [] fs, NoError)
    by (symmetry; by apply (ParseFrameBody_complete h [] fs)).
  by rewrite error_ok_NoError.
Qed.

(** ** Properties *)

(** C29: whatever fields a body builder was given, a frame that [EncodeFrame]
    writes parses back, to the same message type, stream and fields, with the
    connection's next message id, which is then taken; the writer never emits a
    frame the parser of the same protocol would refuse. *)
Theorem EncodeFrame_roundtrip (alloc_ok : bool) (context : TransferContext)
    (type : MessageType) (ids ids' : ConnectionMessageSequence) (fs : list FieldView)
    (out : bytes)
    (Hver : version_bytes context) (Hstream : in_width 32 (c_stream_id context))
    (Hids : in_width 64 (next_outbound ids)) (Hwf : Forall wf_tlv fs)
    (Henc : EncodeFrame alloc_ok context type ids (build alloc_ok fs) = (ids', Some out)) :
  let h := frame_header context type (next_outbound ids) (bsize (encode_tlvs fs)) in
  ParseFrame out (c_version context)
    = {| pr_frame := parsed_frame h [] fs; pr_error := NoError |} /\
  NextOutboundId ids = (ids', Some (next_outbound ids)) /\
  bsize out <= kFixedHeaderLength + l_maximum_body (c_limits context).
Proof.
  apply EncodeFrame_iff in Henc as (_ & (Hb & Hm & He & Hid) & -> & ->); [| done..].
  intros h. split; [| split].
  - destruct Hver. apply (ParseFrame_complete (c_version context) h [] fs); [done | done |].
    eapply wf_frame_id; [apply Hid | exact He].
  - pose proof (NextOutboundId_available ids Hid). by destruct (NextOutboundId ids); simpl in *; subst.
  - unfold frame_bytes. rewrite bsize_app, bsize_encode_header. lia.
Qed.

Definition example_context (role : Role.Role) : TransferContext :=
  {| c_authority_set := true; c_session_handle := repeat 7 16; c_local_role := role;
     c_version := Version_default; c_stream_id := 1; c_limits := TransferLimits_default |}.

Definition example_fields : list FieldView :=
  code_fields (repeat 9 16) WireErrorCode.kCancelled.

Lemma example_fields_wf : Forall wf_tlv example_fields.
Proof.
  apply code_fields_canonical with (type := kCancel); [| done | by left].
  apply (bool_decide_unpack _). by vm_compute.
Qed.

Lemma example_stream_width : in_width 32 (c_stream_id (example_context Role.kInitiator)).
Proof. apply (bool_decide_unpack _). by vm_compute. Qed.

Lemma example_id_width : in_width 64 (next_outbound (MakeSequence 4 1)).
Proof. apply (bool_decide_unpack _). by vm_compute. Qed.

Lemma EncodeFrame_roundtrip_witness :
  exists ids' out,
    EncodeFrame true (example_context Role.kInitiator) kCancel (MakeSequence 4 1)
      (build true example_fields) = (ids', Some out) /\
    result_ok (ParseFrame out Version_default) = true /\ bsize out = 62.
Proof.
  destruct (EncodeFrame true (example_context Role.kInitiator) kCancel (MakeSequence 4 1)
      (build true example_fields)) as [ids' [out |]] eqn:E; [| by vm_compute in E].
  exists ids', out. split; [done |].
  assert (Hwf : Forall wf_tlv example_fields) by exact example_fields_wf.
  assert (Hv : version_bytes (example_context Role.kInitiator)) by (repeat split; done).
  destruct (EncodeFrame_roundtrip true (example_context Role.kInitiator) kCancel
    (MakeSequence 4 1) ids' example_fields out Hv example_stream_width example_id_width Hwf E) as (Hp & _ & _).
  split; [| vm_compute in E; by injection E as _ <-].
  change Version_default with (c_version (example_context Role.kInitiator)).
  rewrite Hp. reflexivity.
Defined.

(** the encoder of file chunks, which writes the data straight into the
    frame, is the general encoder applied to the five fields of the chunk: same
    frame, same message id taken, same refusals. *)
Theorem EncodeFileChunkFrame_equiv (alloc_ok : bool) (context : TransferContext)
    (ids : ConnectionMessageSequence) (transfer_id : bytes) (offset : Z)
    (data commitment : bytes)
    (Hver : version_bytes context) (Hstream : in_width 32 (c_stream_id context))
    (Hids : in_width 64 (next_outbound ids))
    (Ht : all_bytes transfer_id) (Hd : all_bytes data) (Hc : all_bytes commitment)
    (Hts : in_width 32 (bsize transfer_id)) (Hds : in_width 32 (bsize data))
    (Hcs : in_width 32 (bsize commitment)) :
  EncodeFileChunkFrame alloc_ok context ids transfer_id offset data commitment =
  EncodeFrame alloc_ok context kFileChunk ids
    (build alloc_ok (chunk_fields transfer_id offset data commitment)).
Proof. by apply EncodeFileChunkFrame_reference. Qed.

Lemma EncodeFileChunkFrame_equiv_witness :
  EncodeFileChunkFrame true (example_context Role.kInitiator) (MakeSequence 4 1)
    (repeat 9 16) 8192 [1; 2; 3] (repeat 5 32)
  = EncodeFrame true (example_context Role.kInitiator) kFileChunk (MakeSequence 4 1)
      (build true (chunk_fields (repeat 9 16) 8192 [1; 2; 3] (repeat 5 32))) /\
  (EncodeFileChunkFrame true (example_context Role.kInitiator) (MakeSequence 4 1)
    (repeat 9 16) 8192 [1; 2; 3] (repeat 5 32)).2 <> None.
Proof.
  split; [| by vm_compute].
  refine (EncodeFileChunkFrame_equiv true (example_context Role.kInitiator) (MakeSequence 4 1)
    (repeat 9 16) 8192 [1; 2; 3] (repeat 5 32) _ _ _ _ _ _ _ _ _);
    apply (bool_decide_unpack _); by vm_compute.
Defined.

(** a frame encoded at one end of a stream is accepted at the other end
    when the two ends are in step: [ParseInbound] observes its message id,
    [ParseBody] returns exactly the fields the schema knows, and the two ends
    are in step again. *)
Theorem peer_receives_fields {A} `{SessionAuthority A} (authority : A)
    (sender receiver : TransferContext) (type : MessageType) (alloc_ok : bool)
    (ids ids' peer : ConnectionMessageSequence) (fs : list FieldView) (out : bytes)
    (Hver : version_bytes sender) (Hstream : in_width 32 (c_stream_id sender))
    (Hids : in_width 64 (next_outbound ids)) (Hwf : Forall wf_tlv fs)
    (Henc : EncodeFrame alloc_ok sender type ids (build alloc_ok fs) = (ids', Some out))
    (Hauth : Authorized authority receiver = true)
    (Hsame : c_version receiver = c_version sender)
    (Hst : c_stream_id receiver = c_stream_id sender)
    (Hmax : l_maximum_body (c_limits sender) <= l_maximum_body (c_limits receiver))
    (Hstep : in_step ids peer) :
  let r := ParseInbound authority receiver peer out in
  in_step ids' r.1 /\ parsed_ok r.2 = true /\
  h_message_type (pf_header (p_frame r.2)) = type /\
  exists p, ParseBody r.2 = (p, true) /\
    pf_body_fields (p_frame p) = known_fields (SchemaFor type) fs.
Proof.
  apply EncodeFrame_iff in Henc as (_ & (Hb & Hm & He & Hid) & -> & ->); [| done..].
  destruct (peer_parses authority sender receiver type ids peer fs) as (H1 & H2 & H3);
    [done.. | lia | done |].
  cbv zeta. split; [exact H1 |]. rewrite H2. split; [done |]. split; [done |].
  rewrite H2 in H3. eexists. split; [exact H3 |]. done.
Qed.

(** An authority that knows one session. *)
Definition OneSession : Type := bytes.
#[global] Instance one_session_authority : SessionAuthority OneSession := {|
  IsAuthorized := fun known handle => same_bytes known handle;
|}.

Lemma peer_receives_fields_witness :
  exists ids' out,
    EncodeFrame true (example_context Role.kInitiator) kCancel (MakeSequence 4 1)
      (build true example_fields) = (ids', Some out) /\
    in_step ids' (ParseInbound (repeat 7 16 : OneSession) (example_context Role.kResponder)
                    (MakeSequence 1 4) out).1.
Proof.
  destruct (EncodeFrame true (example_context Role.kInitiator) kCancel (MakeSequence 4 1)
      (build true example_fields)) as [ids' [out |]] eqn:E; [| by vm_compute in E].
  exists ids', out. split; [done |].
  assert (Hv : version_bytes (example_context Role.kInitiator)) by (repeat split; done).
  assert (Ha : Authorized (repeat 7 16 : OneSession) (example_context Role.kResponder) = true)
    by (by vm_compute).
  exact (proj1 (peer_receives_fields (repeat 7 16 : OneSession)
    (example_context Role.kInitiator) (example_context Role.kResponder) kCancel true
    (MakeSequence 4 1) ids' (MakeSequence 1 4) example_fields out Hv example_stream_width
    example_id_width example_fields_wf E Ha eq_refl eq_refl (Z.le_refl _)
    (conj eq_refl eq_refl))).
Defined.

(** on a valid context with message ids left, the error, cancel and cancel
    acknowledgement frames can always be sent (when memory is available), and
    the peer in step decodes the very code that was sent. *)
Theorem control_frames_delivered {A} `{SessionAuthority A} (authority : A)
    (sender receiver : TransferContext) (creator retryable : bool)
    (ids peer : ConnectionMessageSequence) (transfer_id : bytes)
    (code : WireErrorCode.WireErrorCode)
    (Hctx : ValidateContext sender creator = true) (Hstream : in_width 32 (c_stream_id sender))
    (Hid : id_available ids) (Hcode : code <> WireErrorCode.kNone)
    (Hb : all_bytes transfer_id) (Hl : bsize transfer_id = kTransferIdSize)
    (Hauth : Authorized authority receiver = true)
    (Hsame : c_version receiver = c_version sender)
    (Hst : c_stream_id receiver = c_stream_id sender)
    (Hmax : 8192 <= l_maximum_body (c_limits receiver)) (Hstep : in_step ids peer) :
  let received out n :=
    exists p, ParseBody (ParseInbound authority receiver peer out).2 = (p, true) /\
      DecodeWireError (Unsigned (p_frame p) n) = Some code in
  (exists ids' out, EncodeErrorFrame true sender ids code retryable = (ids', Some out) /\
     received out 1) /\
  (exists ids' out, EncodeCancelAckFrame true sender ids transfer_id code = (ids', Some out) /\
     received out 2) /\
  (code = WireErrorCode.kCancelled ->
   exists ids' out, EncodeCancelFrame true sender ids transfer_id = (ids', Some out) /\
     received out 2).
Proof.
  intros received.
  assert (Hdecode : DecodeWireError (be_read 64 (be_bytes 2 (WireErrorCode.wire_error_value code)))
                    = Some code).
  { rewrite be_read_bytes by (try lia; apply (wire_error_width code)).
    rewrite DecodeWireError_value. by destruct (decide (code = WireErrorCode.kNone)). }
  pose proof (ValidateContext_spec sender creator Hctx) as (Hver & H0 & Hmaxs).
  assert (Hdeliver : forall type fs,
    In type known_message_types -> IsConnectionMessage type = false ->
    Forall wf_tlv fs -> Forall (fun f => 0 < f_id f) fs ->
    StronglySorted (fun f g => f_id f < f_id g) fs -> canonical (SchemaFor type) fs ->
    bsize (encode_tlvs fs) <= 8192 ->
    exists ids' out p, EncodeFrame true sender type ids (build true fs) = (ids', Some out) /\
      ParseBody (ParseInbound authority receiver peer out).2 = (p, true) /\
      pf_body_fields (p_frame p) = known_fields (SchemaFor type) fs).
  { intros type fs Hin Hconn Hwf Hpos Hsort Hcan Hsz.
    pose proof (EncodeFrame_small sender creator type ids fs Hctx Hstream Hid Hin Hconn Hwf
      Hpos Hsort Hcan Hsz) as E.
    assert (Henc : encodable sender type fs)
      by (apply encodable_intro; auto; unfold kMaxBodyLength; lia).
    destruct (peer_parses authority sender receiver type ids peer fs) as (_ & _ & Hp);
      [done.. | lia | done |]. eauto 8. }
  split; [| split; [| intros ->]].
  - destruct (error_fields_canonical code retryable) as (? & ? & ? & ? & ?).
    destruct (Hdeliver kError (error_fields code retryable)) as (ids' & out & p & E & Hp & Hf);
      [by vm_compute; tauto | done.. |].
    exists ids', out. split; [by destruct retryable |]. exists p. split; [done |].
    unfold Unsigned, Field. rewrite Hf. by destruct retryable.
  - destruct (code_fields_canonical transfer_id code kCancelAck) as (? & ? & ? & ? & ?); [auto.. |].
    destruct (Hdeliver kCancelAck (code_fields transfer_id code)) as (ids' & out & p & E & Hp & Hf);
      [by vm_compute; tauto | done.. |].
    exists ids', out. split; [unfold EncodeCancelAckFrame; by rewrite bool_decide_false |].
    exists p. split; [done |]. unfold Unsigned, Field. by rewrite Hf.
  - destruct (code_fields_canonical transfer_id WireErrorCode.kCancelled kCancel)
      as (? & ? & ? & ? & ?); [auto.. |].
    destruct (Hdeliver kCancel (code_fields transfer_id WireErrorCode.kCancelled))
      as (ids' & out & p & E & Hp & Hf); [by vm_compute; tauto | done.. |].
    exists ids', out. split; [done |]. exists p. split; [done |].
    unfold Unsigned, Field. by rewrite Hf.
Qed.

Lemma control_frames_delivered_witness :
  exists ids' out,
    EncodeErrorFrame true (example_context Role.kInitiator) (MakeSequence 4 1)
      WireErrorCode.kTimeout true = (ids', Some out) /\
    exists p, ParseBody (ParseInbound (repeat 7 16 : OneSession)
                (example_context Role.kResponder) (MakeSequence 1 4) out).2 = (p, true) /\
      DecodeWireError (Unsigned (p_frame p) 1) = Some WireErrorCode.kTimeout.
Proof.
  refine (proj1 (control_frames_delivered (repeat 7 16 : OneSession)
    (example_context Role.kInitiator) (example_context Role.kResponder) true true
    (MakeSequence 4 1) (MakeSequence 1 4) (repeat 9 16) WireErrorCode.kTimeout
    _ _ _ _ _ _ _ _ _ _ _)); try (by vm_compute); try done.
  apply (bool_decide_unpack _). by vm_compute.
Defined.
