(* ===== verification/PathValidator.v ===== *)
(** * Validation of received paths

    [native/src/storage/path_validator.cpp], with the result types of
    [native/include/xnn_transfer/core/storage/storage.hpp].  The two functions
    of the utf8proc library are the operations of the class [Utf8Proc].

    The loops of the code advance an offset; here a loop recurses on the bytes
    from that offset on, with the length of the path as fuel.  Every iteration
    consumes at least one byte, so the fuel never runs out
    ([IsStrictUtf8_fuel], [ValidateCodepoints_fuel], [ValidateComponents_fuel]
    in [PathValidatorProofs]). *)

From S2P Require Import Prelude.

Definition kMaxRelativePathBytes : Z := 1024.
Definition kMaxPathComponents : Z := 32.
Definition kMaxPathComponentBytes : Z := 255.
Definition kMaxFileBytes : Z := 17592186044416.

Module ValidationError.
Inductive ValidationError :=
  | kNone | kPathEmpty | kPathBytesLimit | kInvalidUtf8 | kPathNotNfc | kPathAbsolute
  | kPathUnc | kPathDriveAbsolute | kPathDriveQualified | kPathBackslash | kPathColonOrAds
  | kPathTrailingSeparator | kPathNul | kPathC0Control | kPathC1Control | kPathNoncharacter
  | kPathEmptyComponent | kPathDotComponent | kPathTraversal | kPathReservedComponent
  | kPathComponentCountLimit | kPathComponentBytesLimit | kDeclaredSizeLimit.

#[global] Instance validation_error_eq_dec : EqDecision ValidationError.
Proof. solve_decision. Defined.
End ValidationError.

(** The bytes of an ASCII string literal. *)
Definition chars (s : string) : bytes :=
  List.map (fun c => Z.of_N (Ascii.N_of_ascii c)) (list_ascii_of_string s).

(** [utf8proc_iterate] on the bytes from a position on: the number of bytes
    consumed (not positive on an error) and the code point; and [utf8proc_map]
    with [UTF8PROC_STABLE | UTF8PROC_COMPOSE]: the buffer it allocates, [None]
    on an error. *)
Class Utf8Proc := {
  utf8proc_iterate : bytes -> Z * Z;
  utf8proc_map : bytes -> option bytes;
}.

Definition kReservedTemporaryDirectory : bytes := chars ".xnn-transfer-tmp".

Definition IsAsciiAlpha (value : Z) : bool :=
  ((value >=? 65) && (value <=? 90)) || ((value >=? 97) && (value <=? 122)).

(** The folding of one character, [c - 'A' + 'a']. *)
Definition fold_ascii (c : Z) : Z := if (c >=? 65) && (c <=? 90) then c - 65 + 97 else c.

Fixpoint equal_folded (lhs rhs : bytes) : bool :=
  match lhs, rhs with
  | l :: lhs, r :: rhs =>
      if negb (fold_ascii l =? fold_ascii r) then false else equal_folded lhs rhs
  | _, _ => true
  end.

Definition AsciiCaseInsensitiveEquals (lhs rhs : bytes) : bool :=
  if negb (bsize lhs =? bsize rhs) then false else equal_folded lhs rhs.

(** [ends_with(c)] and [find(c)]. *)
Definition ends_with (s : bytes) (c : Z) : bool :=
  match list.last s with Some x => x =? c | None => false end.

Fixpoint find_char (c : Z) (s : bytes) : option nat :=
  match s with
  | [] => None
  | x :: s => if x =? c then Some O else option_map S (find_char c s)
  end.

(** [s.substr(0, s.find(c))]: all of [s] when [c] does not occur. *)
Definition before_char (c : Z) (s : bytes) : bytes :=
  match find_char c s with Some n => take n s | None => s end.

Definition IsWindowsReservedComponent (component : bytes) : bool :=
  if ends_with component 46 || ends_with component 32 then true
  else
  let stem := before_char 46 component in
  if existsb (AsciiCaseInsensitiveEquals stem)
       [chars "CON"; chars "PRN"; chars "AUX"; chars "NUL"] then true
  else if negb (bsize stem =? 4) || (at_ stem 3 <? 49) || (at_ stem 3 >? 57) then false
  else AsciiCaseInsensitiveEquals (subspan stem 0 3) (chars "COM")
       || AsciiCaseInsensitiveEquals (subspan stem 0 3) (chars "LPT").

Definition IsNoncharacter (codepoint : Z) : bool :=
  ((codepoint >=? 0xfdd0) && (codepoint <=? 0xfdef))
  || (Z.land codepoint 0xffff =? 0xfffe) || (Z.land codepoint 0xffff =? 0xffff).

Section WithUtf8Proc.
Context {U : Utf8Proc}.

Fixpoint IsStrictUtf8_loop (fuel : nat) (rest : bytes) : bool :=
  match rest, fuel with
  | [], _ => true
  | _, O => false
  | _, S fuel =>
      let '(consumed, _) := utf8proc_iterate rest in
      if consumed <=? 0 then false
      else IsStrictUtf8_loop fuel (drop (Z.to_nat consumed) rest)
  end.

Definition IsStrictUtf8 (encoded : bytes) : bool :=
  IsStrictUtf8_loop (length encoded) encoded.

Fixpoint ValidateCodepoints_loop (fuel : nat) (rest : bytes)
    : ValidationError.ValidationError :=
  match rest, fuel with
  | [], _ => ValidationError.kNone
  | _, O => ValidationError.kInvalidUtf8
  | _, S fuel =>
      let '(consumed, codepoint) := utf8proc_iterate rest in
      if consumed <=? 0 then ValidationError.kInvalidUtf8
      else if codepoint =? 0 then ValidationError.kPathNul
      else if ((codepoint >=? 1) && (codepoint <=? 0x1f)) || (codepoint =? 0x7f) then
        ValidationError.kPathC0Control
      else if (codepoint >=? 0x80) && (codepoint <=? 0x9f) then ValidationError.kPathC1Control
      else if IsNoncharacter codepoint then ValidationError.kPathNoncharacter
      else ValidateCodepoints_loop fuel (drop (Z.to_nat consumed) rest)
  end.

Definition ValidateCodepoints (encoded : bytes) : ValidationError.ValidationError :=
  ValidateCodepoints_loop (length encoded) encoded.

Definition IsNfc (encoded : bytes) : bool :=
  match utf8proc_map encoded with
  | None => false
  | Some normalized => (bsize normalized =? bsize encoded) && same_bytes encoded normalized
  end.

(** The tests on one component, in the order of the loop body; [components] is
    the vector before the component is appended. *)
Definition ValidateComponent (components : list bytes) (component : bytes)
    : ValidationError.ValidationError :=
  if bool_decide (component = []) then ValidationError.kPathEmptyComponent
  else if bool_decide (component = chars ".") then ValidationError.kPathDotComponent
  else if bool_decide (component = chars "..") then ValidationError.kPathTraversal
  else if bool_decide (components = [])
          && AsciiCaseInsensitiveEquals component kReservedTemporaryDirectory then
    ValidationError.kPathReservedComponent
  else if IsWindowsReservedComponent component then ValidationError.kPathReservedComponent
  else if Z.of_nat (length components) + 1 >? kMaxPathComponents then
    ValidationError.kPathComponentCountLimit
  else if bsize component >? kMaxPathComponentBytes then
    ValidationError.kPathComponentBytesLimit
  else ValidationError.kNone.

(** The loop over the components: [rest] is the path from [component_start] on. *)
Fixpoint ValidateComponents (fuel : nat) (rest : bytes) (components : list bytes)
    : list bytes * ValidationError.ValidationError :=
  match rest, fuel with
  | [], _ => (components, ValidationError.kNone)
  | _, O => (components, ValidationError.kPathComponentCountLimit)
  | _, S fuel =>
      let separator := find_char 47 rest in
      let component := before_char 47 rest in
      let error := ValidateComponent components component in
      if negb (bool_decide (error = ValidationError.kNone)) then (components, error)
      else
      let components := components ++ [component] in
      match separator with
      | None => (components, ValidationError.kNone)
      | Some n => ValidateComponents fuel (drop (S n) rest) components
      end
  end.

Record ValidatedReceivePath := {
  utf8 : bytes;
  components : list bytes;
}.

(** [PathValidationResult]: the path, or the error. *)
Definition PathValidationResult : Type :=
  ValidationError.ValidationError + ValidatedReceivePath.

Definition contains_char (c : Z) (s : bytes) : bool :=
  match find_char c s with Some _ => true | None => false end.

Definition ValidateReceivePath (encoded : bytes) : PathValidationResult :=
  if bool_decide (encoded = []) then inl ValidationError.kPathEmpty
  else if bsize encoded >? kMaxRelativePathBytes then inl ValidationError.kPathBytesLimit
  else if negb (IsStrictUtf8 encoded) then inl ValidationError.kInvalidUtf8
  else if same_bytes (take 2 encoded) (chars "//") || same_bytes (take 2 encoded) [92; 92] then
    inl ValidationError.kPathUnc
  else if same_bytes (take 1 encoded) (chars "/") then inl ValidationError.kPathAbsolute
  else if (bsize encoded >=? 2) && IsAsciiAlpha (at_ encoded 0) && (at_ encoded 1 =? 58) then
    inl (if (bsize encoded >=? 3) && ((at_ encoded 2 =? 47) || (at_ encoded 2 =? 92))
         then ValidationError.kPathDriveAbsolute
         else ValidationError.kPathDriveQualified)
  else if contains_char 92 encoded then inl ValidationError.kPathBackslash
  else if contains_char 58 encoded then inl ValidationError.kPathColonOrAds
  else if ends_with encoded 47 then inl ValidationError.kPathTrailingSeparator
  else
  let codepoint_error := ValidateCodepoints encoded in
  if negb (bool_decide (codepoint_error = ValidationError.kNone)) then inl codepoint_error
  else if negb (IsNfc encoded) then inl ValidationError.kPathNotNfc
  else
  let '(comps, error) := ValidateComponents (length encoded) encoded [] in
  if negb (bool_decide (error = ValidationError.kNone)) then inl error
  else inr {| utf8 := encoded; components := comps |}.

Record ValidatedReceiveRequest := {
  path : ValidatedReceivePath;
  declared_size : Z;
}.

Definition ValidateReceiveRequest (encoded_path : bytes) (declared local_max_file_bytes : Z)
    : ValidationError.ValidationError + ValidatedReceiveRequest :=
  match ValidateReceivePath encoded_path with
  | inl error => inl error
  | inr p =>
      let effective_max := Z.min local_max_file_bytes kMaxFileBytes in
      if declared >? effective_max then inl ValidationError.kDeclaredSizeLimit
      else inr {| path := p; declared_size := declared |}
  end.

End WithUtf8Proc.
