(* ===== verification/PathValidatorProofs.v ===== *)
(** * Correctness of the path validation

    A received path is accepted exactly when it is a safe relative path, the
    components returned are the path split at its separators, and resolving
    them below any directory stays below it, whichever separators the file
    system honours. *)

From S2P Require Import Prelude.
From S2P Require Import Utf8.
From S2P Require Import PathValidator.

(** ** Splitting and joining *)

(** The fields of [s] between the characters [sep] accepts. *)
Fixpoint split_at (sep : Z -> bool) (s : bytes) : list bytes :=
  match s with
  | [] => [[]]
  | x :: s =>
      if sep x then [] :: split_at sep s
      else match split_at sep s with
           | c :: cs => (x :: c) :: cs
           | [] => [[x]]
           end
  end.

Definition split_path : bytes -> list bytes := split_at (fun x => x =? 47).

Fixpoint join_path (cs : list bytes) : bytes :=
  match cs with
  | [] => []
  | [c] => c
  | c :: cs => c ++ 47 :: join_path cs
  end.

Lemma split_at_not_nil sep s : split_at sep s <> [].
Proof. destruct s as [| x s]; simpl; [done |]. destruct (sep x); [done |]. by destruct (split_at sep s). Qed.

Lemma join_split s : join_path (split_path s) = s.
Proof.
  unfold split_path. induction s as [| x s IH]; simpl; [done |].
  pose proof (split_at_not_nil (fun x => x =? 47) s) as Hn.
  destruct (Z.eqb_spec x 47) as [-> |]; simpl.
  - destruct (split_at _ s) as [| c cs]; [done |]. simpl in *. by rewrite IH.
  - destruct (split_at _ s) as [| c cs]; [done |]. rewrite <- IH. by destruct cs.
Qed.

Lemma split_no_sep sep s : Forall (Forall (fun x => sep x = false)) (split_at sep s).
Proof.
  induction s as [| x s IH]; simpl; [by repeat constructor |].
  destruct (sep x) eqn:E; [by constructor |].
  destruct (split_at sep s) as [| c cs]; [by repeat constructor |].
  apply list.Forall_cons in IH as [? ?]. by repeat constructor.
Qed.

(** Two separator sets that agree on the characters of [s] split it alike. *)
Lemma split_at_ext sep sep' s :
  Forall (fun x => sep x = sep' x) s -> split_at sep s = split_at sep' s.
Proof. induction 1 as [| x s E Hs IH]; simpl; [done |]. by rewrite E, IH. Qed.

Lemma find_char_None c s : find_char c s = None <-> Forall (fun x => x <> c) s.
Proof.
  induction s as [| x s IH]; simpl; [split; [constructor | done] |].
  rewrite list.Forall_cons. destruct (Z.eqb_spec x c); [split; [done | tauto] |].
  destruct (find_char c s); simpl; [split; [done |] | tauto].
  intros [_ H]. by apply IH in H.
Qed.

Lemma split_find_None s : find_char 47 s = None -> split_path s = [s].
Proof.
  unfold split_path. induction s as [| x s IH]; simpl; [done |].
  destruct (x =? 47); [done |]. destruct (find_char 47 s); [done |]. intros _. by rewrite IH.
Qed.

Lemma split_find_Some s n :
  find_char 47 s = Some n -> split_path s = take n s :: split_path (drop (S n) s).
Proof.
  unfold split_path. revert n. induction s as [| x s IH]; intros n; simpl; [done |].
  destruct (x =? 47); [by intros [= <-] |].
  destruct (find_char 47 s) as [m |]; [| done]. intros [= <-]. by rewrite (IH m eq_refl).
Qed.

Lemma split_head s : head (split_path s) = Some (before_char 47 s).
Proof.
  unfold before_char. destruct (find_char 47 s) eqn:E;
    [by rewrite (split_find_Some _ _ E) | by rewrite (split_find_None _ E)].
Qed.

Lemma find_char_length c s n : find_char c s = Some n -> (n < length s)%nat.
Proof.
  revert n. induction s as [| x s IH]; intros n; simpl; [done |].
  destruct (x =? c); [intros [= <-]; lia |].
  destruct (find_char c s) as [m |]; [| done]. intros [= <-]. specialize (IH m eq_refl). lia.
Qed.

(** The separator found, written out. *)
Lemma find_char_split c s n :
  find_char c s = Some n -> s = take n s ++ c :: drop (S n) s.
Proof.
  revert n. induction s as [| x s IH]; intros n; simpl; [done |].
  destruct (Z.eqb_spec x c) as [-> |]; [by intros [= <-] |].
  destruct (find_char c s) as [m |]; [| done]. intros [= <-]. simpl. by rewrite <- (IH m eq_refl).
Qed.

Lemma ends_with_app a b c : b <> [] -> ends_with (a ++ b) c = ends_with b c.
Proof. intros Hb. unfold ends_with. rewrite last_app. by destruct b using rev_ind; rewrite ?last_snoc. Qed.

(** ** The component loop *)

Lemma split_snoc_sep s : split_path (s ++ [47]) = split_path s ++ [[]].
Proof.
  unfold split_path. induction s as [| x s IH]; simpl; [done |]. rewrite IH.
  destruct (x =? 47); [done |].
  pose proof (split_at_not_nil (fun x => x =? 47) s). by destruct (split_at _ s).
Qed.

Lemma same_error e : negb (bool_decide (e = ValidationError.kNone)) = false <->
  e = ValidationError.kNone.
Proof. rewrite negb_false_iff. apply bool_decide_eq_true. Qed.

Fixpoint components_ok (before cs : list bytes) : Prop :=
  match cs with
  | [] => True
  | c :: cs => ValidateComponent before c = ValidationError.kNone
               /\ components_ok (before ++ [c]) cs
  end.

Lemma ValidateComponents_spec fuel rest before :
  (length rest <= fuel)%nat -> rest <> [] -> ends_with rest 47 = false ->
  (components_ok before (split_path rest) ->
     ValidateComponents fuel rest before = (before ++ split_path rest, ValidationError.kNone)) /\
  ((ValidateComponents fuel rest before).2 = ValidationError.kNone ->
     components_ok before (split_path rest)).
Proof.
  revert rest before. induction fuel as [| fuel IH]; intros rest before Hf Hne Hend.
  { destruct rest; simpl in Hf; [done | lia]. }
  assert (Hstep : ValidateComponents (S fuel) rest before =
    let error := ValidateComponent before (before_char 47 rest) in
    if negb (bool_decide (error = ValidationError.kNone)) then (before, error)
    else match find_char 47 rest with
         | None => (before ++ [before_char 47 rest], ValidationError.kNone)
         | Some n => ValidateComponents fuel (drop (S n) rest) (before ++ [before_char 47 rest])
         end) by (by destruct rest).
  rewrite Hstep. cbv zeta. clear Hstep. unfold before_char.
  destruct (find_char 47 rest) as [n |] eqn:Ef.
  - rewrite (split_find_Some _ _ Ef). simpl components_ok.
    pose proof (find_char_length _ _ _ Ef) as Hn. pose proof (find_char_split _ _ _ Ef) as Hs.
    assert (Hne' : drop (S n) rest <> []).
    { intros E. rewrite E in Hs. rewrite Hs in Hend. unfold ends_with in Hend.
      by rewrite last_snoc in Hend. }
    destruct (IH (drop (S n) rest) (before ++ [take n rest])) as [IH1 IH2].
    + rewrite length_drop. lia.
    + done.
    + rewrite Hs in Hend. change (47 :: drop (S n) rest) with ([47] ++ drop (S n) rest) in Hend.
      by rewrite !ends_with_app in Hend.
    + split.
      * intros [-> Hok]. simpl. rewrite IH1 by done. by rewrite <- app_assoc.
      * destruct (negb _) eqn:Ee; [simpl; intros E; by rewrite E in Ee |].
        apply same_error in Ee. auto.
  - rewrite (split_find_None _ Ef). simpl. split; [by intros [-> _] |].
    destruct (negb _) eqn:Ee; [simpl; intros E; by rewrite E in Ee |].
    apply same_error in Ee. auto.
Qed.

(** More fuel than bytes changes nothing: the bound is never reached. *)
Lemma ValidateComponents_fuel fuel rest before :
  (length rest <= fuel)%nat ->
  ValidateComponents fuel rest before = ValidateComponents (length rest) rest before.
Proof.
  enough (forall f1 f2 rest before, (length rest <= f1)%nat -> (length rest <= f2)%nat ->
    ValidateComponents f1 rest before = ValidateComponents f2 rest before) by auto.
  clear. induction f1 as [| f1 IH]; intros [| f2] rest before H1 H2;
    destruct rest as [| x rest]; simpl in H1, H2; try done; try lia.
  cbn [ValidateComponents]. destruct (negb _); [done |].
  destruct (find_char 47 (x :: rest)) as [n |] eqn:E; [| done].
  apply IH; rewrite length_drop; simpl; lia.
Qed.

(** ** Safe paths *)

(** What a component must be, wherever it stands. *)
Definition safe_component (c : bytes) : Prop :=
  c <> [] /\ c <> chars "." /\ c <> chars ".." /\
  IsWindowsReservedComponent c = false /\ bsize c <= kMaxPathComponentBytes.

Lemma ValidateComponent_none before c :
  ValidateComponent before c = ValidationError.kNone <->
  safe_component c /\ Z.of_nat (length before) < kMaxPathComponents /\
  (before = [] -> AsciiCaseInsensitiveEquals c kReservedTemporaryDirectory = false).
Proof.
  unfold ValidateComponent, safe_component.
  destruct (bool_decide (c = [])) eqn:E1; [apply bool_decide_eq_true in E1; split; [done | tauto] |].
  destruct (bool_decide (c = chars ".")) eqn:E2;
    [apply bool_decide_eq_true in E2; split; [done | tauto] |].
  destruct (bool_decide (c = chars "..")) eqn:E3;
    [apply bool_decide_eq_true in E3; split; [done | tauto] |].
  apply bool_decide_eq_false in E1, E2, E3.
  destruct (bool_decide (before = []) && _) eqn:E4.
  { bool_facts. match goal with H : bool_decide _ = true |- _ => apply bool_decide_eq_true in H end.
    split; [done |]. intros (_ & _ & Hr). by rewrite Hr in *. }
  destruct (IsWindowsReservedComponent c); [split; [done | by intros ((_ & _ & _ & ? & _) & _)] |].
  destruct (Z.gtb_spec (Z.of_nat (length before) + 1) kMaxPathComponents).
  { split; [done |]. intros (_ & ? & _). lia. }
  destruct (Z.gtb_spec (bsize c) kMaxPathComponentBytes).
  { split; [done |]. intros ((_ & _ & _ & _ & ?) & _). lia. }
  split; [intros _ | done]. repeat split; auto; [lia |].
  intros Hb. apply andb_false_iff in E4 as [E4 | E4]; [by apply bool_decide_eq_false in E4 | done].
Qed.

Lemma components_ok_iff before cs :
  components_ok before cs <->
  Forall safe_component cs /\
  (cs <> [] -> Z.of_nat (length before) + Z.of_nat (length cs) <= kMaxPathComponents) /\
  (before = [] -> forall c, head cs = Some c ->
     AsciiCaseInsensitiveEquals c kReservedTemporaryDirectory = false).
Proof.
  revert before. induction cs as [| c cs IH]; intros before; cbn [components_ok].
  { split; [intros _; repeat split; done || constructor | done]. }
  rewrite IH, ValidateComponent_none, list.Forall_cons, length_app. cbn [length head]. split.
  - intros ((Hs & Hn & Hr) & Hf & Hl & _). split; [done |].
    split; [| intros Hb c' [= <-]; auto].
    intros _. destruct cs as [| c' cs']; [cbn [length]; lia |].
    specialize (Hl ltac:(done)). cbn [length] in *. lia.
  - intros ((Hs & Hf) & Hl & Hr). specialize (Hl ltac:(done)).
    split; [split; [done | split; [lia | auto]] |]. split; [done |].
    split; [intros; lia |]. intros E. by destruct before.
Qed.

Section Validation.
Context {U : Utf8Proc}.

(** A safe relative path, the conditions the accepted paths satisfy. *)
Record safe_path (encoded : bytes) : Prop := {
  sp_size : 0 < bsize encoded <= kMaxRelativePathBytes;
  sp_utf8 : IsStrictUtf8 encoded = true;
  sp_codepoints : ValidateCodepoints encoded = ValidationError.kNone;
  sp_nfc : IsNfc encoded = true;
  sp_no_backslash : Forall (fun x => x <> 92) encoded;
  sp_no_colon : Forall (fun x => x <> 58) encoded;
  sp_count : Z.of_nat (length (split_path encoded)) <= kMaxPathComponents;
  sp_components : Forall safe_component (split_path encoded);
  sp_not_temporary : forall c, head (split_path encoded) = Some c ->
    AsciiCaseInsensitiveEquals c kReservedTemporaryDirectory = false;
}.

Lemma contains_char_false c s : contains_char c s = false <-> Forall (fun x => x <> c) s.
Proof.
  unfold contains_char. rewrite <- find_char_None. by destruct (find_char c s).
Qed.

(** A path whose components are not empty neither starts nor ends with a
    separator. *)
Lemma no_leading_separator s :
  Forall safe_component (split_path s) -> s <> [] -> at_ s 0 <> 47.
Proof.
  destruct s as [| x s]; [done |]. intros Hf _ E. change (at_ (x :: s) 0) with x in E. subst x.
  apply list.Forall_cons in Hf as [(H & _) _]. done.
Qed.

Lemma no_trailing_separator s :
  Forall safe_component (split_path s) -> ends_with s 47 = false.
Proof.
  intros Hf. unfold ends_with. destruct s as [| x s _] using rev_ind; [done |].
  rewrite last_snoc. destruct (Z.eqb_spec x 47) as [-> |]; [| done]. exfalso.
  rewrite split_snoc_sep in Hf. apply Forall_app in Hf as [_ Hf].
  apply list.Forall_cons in Hf as [(H & _) _]. done.
Qed.

Lemma ValidateReceivePath_iff encoded p :
  ValidateReceivePath encoded = inr p <->
  safe_path encoded /\ p = {| utf8 := encoded; components := split_path encoded |}.
Proof.
  unfold ValidateReceivePath. split.
  - intros H. do 3 (split_if_in H; [done |]). split_if_in H; [done |].
    split_if_in H; [done |]. split_if_in H; [by destruct (_ && _) in H |].
    do 5 (split_if_in H; [done |]). bool_facts. rewrite !bool_decide_eq_true in *.
    apply bool_decide_eq_false in E. 
    destruct (ValidateComponents _ encoded []) as [comps error] eqn:Ec.
    destruct (negb (bool_decide (error = ValidationError.kNone))) eqn:Ee; [done |].
    inv H. apply same_error in Ee as ->.
    destruct (ValidateComponents_spec (length encoded) encoded []) as [V1 V2]; [lia | done | done |].
    rewrite Ec in V2. specialize (V2 eq_refl). rewrite (V1 V2) in Ec. inv Ec.
    apply components_ok_iff in V2 as (Hf & Hn & Hr).
    rewrite !contains_char_false in *. simpl in Hn.
    split; [| done]. split; auto.
    + pose proof (bsize_nonneg encoded). split; [| lia].
      destruct (decide (bsize encoded = 0)) as [Hz |]; [by apply bsize_zero_nil in Hz | lia].
    + apply Hn. apply split_at_not_nil.
  - intros [[Hsz Hu Hcp Hnfc Hbs Hcol Hcount Hcomp Htmp] ->].
    assert (Hne : encoded <> []) by (intros ->; rewrite bsize_nil in Hsz; lia).
    pose proof (no_leading_separator encoded Hcomp Hne) as Hlead.
    rewrite bool_decide_false by done.
    destruct (Z.gtb_spec (bsize encoded) kMaxRelativePathBytes); [lia |].
    rewrite Hu, Hcp, Hnfc, (no_trailing_separator encoded Hcomp).
    rewrite (proj2 (contains_char_false 92 encoded) Hbs), (proj2 (contains_char_false 58 encoded) Hcol).
    rewrite bool_decide_true by done. cbn [negb].
    destruct (ValidateComponents_spec (length encoded) encoded []) as [V1 _];
      [lia | done | by apply no_trailing_separator |].
    rewrite V1 by (apply components_ok_iff; auto).
    rewrite bool_decide_true by done. cbn [negb app].
    destruct encoded as [| x rest]; [done |]. change (at_ (x :: rest) 0) with x in *.
    apply list.Forall_cons in Hbs as [Hx92 Hbs]. 
    assert (same_bytes (take 2 (x :: rest)) (chars "//") = false /\
            same_bytes (take 2 (x :: rest)) [92; 92] = false /\
            same_bytes (take 1 (x :: rest)) (chars "/") = false) as (-> & -> & ->).
    { rewrite !same_bytes_false. repeat split; intros E; inv E; done. }
    cbn [orb]. destruct rest as [| y rest]; [done |].
    apply list.Forall_cons in Hcol as [_ Hcol]. apply list.Forall_cons in Hcol as [Hy _].
    change (at_ (x :: y :: rest) 1) with y. destruct (Z.eqb_spec y 58); [done |].
    by rewrite andb_false_r.
Qed.
End Validation.

(** ** Code points *)

Section Codepoints.
Context {U : Utf8Proc}.

(** What utf8proc documents of [utf8proc_iterate]: a positive result is the
    length of the UTF-8 encoding, at the start of the input, of the code point
    it stores. *)
Definition iterate_decodes : Prop :=
  forall l n cp, utf8proc_iterate l = (n, cp) -> 0 < n ->
    scalar_value cp /\ take (Z.to_nat n) l = utf8_encode cp.

(** The characters of a path: no control and no noncharacter. *)
Definition text_char (cp : Z) : Prop :=
  scalar_value cp /\ 0x20 <= cp /\ ~ (0x7f <= cp <= 0x9f) /\ IsNoncharacter cp = false.

Lemma IsStrictUtf8_fuel fuel l :
  (length l <= fuel)%nat -> IsStrictUtf8_loop fuel l = IsStrictUtf8 l.
Proof.
  enough (forall f1 f2 l, (length l <= f1)%nat -> (length l <= f2)%nat ->
    IsStrictUtf8_loop f1 l = IsStrictUtf8_loop f2 l) by (unfold IsStrictUtf8; auto).
  clear. induction f1 as [| f1 IH]; intros [| f2] [| x l] H1 H2; simpl in H1, H2; try done; try lia.
  cbn [IsStrictUtf8_loop]. destruct (utf8proc_iterate (x :: l)) as [n cp].
  destruct (Z.leb_spec n 0); [done |]. apply IH; rewrite length_drop; simpl; lia.
Qed.

Lemma ValidateCodepoints_fuel fuel l :
  (length l <= fuel)%nat -> ValidateCodepoints_loop fuel l = ValidateCodepoints l.
Proof.
  enough (forall f1 f2 l, (length l <= f1)%nat -> (length l <= f2)%nat ->
    ValidateCodepoints_loop f1 l = ValidateCodepoints_loop f2 l)
    by (unfold ValidateCodepoints; auto).
  clear. induction f1 as [| f1 IH]; intros [| f2] [| x l] H1 H2; simpl in H1, H2; try done; try lia.
  cbn [ValidateCodepoints_loop]. destruct (utf8proc_iterate (x :: l)) as [n cp].
  destruct (Z.leb_spec n 0); [done |]. repeat (split_if; [done |]).
  apply IH; rewrite length_drop; simpl; lia.
Qed.

Lemma ValidateCodepoints_decodes (Hit : iterate_decodes) fuel l :
  ValidateCodepoints_loop fuel l = ValidationError.kNone ->
  exists cps, Forall text_char cps /\ l = concat (List.map utf8_encode cps).
Proof.
  revert l. induction fuel as [| fuel IH]; intros [| x l]; cbn [ValidateCodepoints_loop];
    try done; try (intros _; by exists []).
  destruct (utf8proc_iterate (x :: l)) as [n cp] eqn:Ei. intros H.
  repeat (split_if_in H; [done |]). bool_facts.
  destruct (Hit _ _ _ Ei) as [Hs He]; [lia |].
  destruct (IH _ H) as (cps & Hf & Hd). exists (cp :: cps). split.
  - constructor; [| done]. split; [done |]. unfold scalar_value in Hs.
    repeat match goal with H : _ && _ = false |- _ => apply andb_false_iff in H end.
    repeat match goal with H : _ \/ _ |- _ => destruct H end; bool_facts; lia || auto.
    all: repeat split; done || lia.
  - simpl. rewrite <- He, <- Hd. symmetry. apply take_drop.
Qed.

Lemma text_char_bytes cp : text_char cp -> Forall (fun b => 0x20 <= b /\ b <> 0x7f) (utf8_encode cp).
Proof.
  intros (Hs & Hlo & Hc & _). unfold utf8_encode, scalar_value in *.
  repeat split_if; bool_facts; repeat constructor; zlia.
Qed.

End Codepoints.

(** ** Properties *)

(** a received path is accepted exactly when it is a safe relative path: 1
    to 1024 bytes of valid UTF-8 in NFC without control characters or
    noncharacters, without backslash or colon, of at most 32 components, each
    of 1 to 255 bytes and none of them [.], [..] or a name Windows reserves,
    the first one not the reserved temporary directory; and the components
    returned are the path split at its slashes, whose join is the path. *)
Theorem ValidateReceivePath_accepts_iff {U : Utf8Proc} (encoded : bytes)
    (p : ValidatedReceivePath) :
  ValidateReceivePath encoded = inr p <->
  safe_path encoded /\ utf8 p = encoded /\ components p = split_path encoded /\
  join_path (components p) = utf8 p.
Proof.
  rewrite ValidateReceivePath_iff. split.
  - intros [Hs ->]. simpl. auto using join_split.
  - intros (Hs & Hu & Hc & _). split; [done |]. destruct p. simpl in *. congruence.
Qed.

(** The way a file system resolves a component below a directory. *)
Definition resolve (dir : list bytes) (c : bytes) : list bytes :=
  if bool_decide (c = []) || bool_decide (c = chars ".") then dir
  else if bool_decide (c = chars "..") then removelast dir
  else dir ++ [c].

Lemma resolve_safe root cs :
  Forall safe_component cs -> fold_left resolve cs root = root ++ cs.
Proof.
  intros H. revert root. induction H as [| c cs (H1 & H2 & H3 & _) Hcs IH]; intros root; simpl.
  - by rewrite app_nil_r.
  - unfold resolve at 2. rewrite !bool_decide_false by done. simpl. by rewrite IH, <- app_assoc.
Qed.

(** C12: an accepted path resolved below any directory names an entry strictly
    below it, with exactly the components returned, whether the file system
    separates components at slashes only or at backslashes too; the declared
    size of an accepted request is within both limits. *)
Theorem accepted_path_contained {U : Utf8Proc} (encoded : bytes) (size local_max : Z)
    (req : ValidatedReceiveRequest) (root : list bytes) (windows : bool)
    (Hok : ValidateReceiveRequest encoded size local_max = inr req) :
  let sep x := (x =? 47) || (windows && (x =? 92)) in
  fold_left resolve (split_at sep (utf8 (path req))) root = root ++ components (path req) /\
  components (path req) <> [] /\
  declared_size req = size /\ size <= local_max /\ size <= kMaxFileBytes.
Proof.
  unfold ValidateReceiveRequest in Hok.
  destruct (ValidateReceivePath encoded) as [| p] eqn:E; [done |].
  apply ValidateReceivePath_iff in E as [Hs ->]. split_if_in Hok; [done |]. inv Hok. bool_facts.
  simpl. split; [| split; [apply split_at_not_nil | lia]].
  rewrite (split_at_ext _ (fun x => x =? 47)); [apply resolve_safe, Hs |].
  eapply Forall_impl; [| exact (sp_no_backslash _ Hs)]. simpl. intros x Hx.
  destruct (Z.eqb_spec x 92); [done |]. by rewrite andb_false_r, orb_false_r.
Qed.

(** An instance of the library for ASCII input: every ASCII string is in NFC. *)
#[local] Instance ascii_utf8proc : Utf8Proc := {|
  utf8proc_iterate := fun l =>
    match l with
    | b :: _ => if (0 <=? b) && (b <? 0x80) then (1, b) else (-1, -1)
    | [] => (0, -1)
    end;
  utf8proc_map := fun l => Some l;
|}.

Lemma accepted_path_contained_witness :
  exists req, ValidateReceiveRequest (chars "photos/a.txt") 10 100 = inr req /\
    fold_left resolve (split_at (fun x => (x =? 47) || (true && (x =? 92))) (utf8 (path req)))
      [chars "home"] = [chars "home"; chars "photos"; chars "a.txt"].
Proof.
  eexists. split; [vm_compute; reflexivity |].
  refine (proj1 (accepted_path_contained (chars "photos/a.txt") 10 100 _ [chars "home"] true _)).
  vm_compute. reflexivity.
Defined.

(** with the decoder utf8proc documents, the bytes of an accepted path are
    the UTF-8 encoding of characters none of which is a C0 or C1 control or a
    noncharacter, so no NUL, control or DEL byte reaches the file system. *)
Theorem accepted_path_is_text {U : Utf8Proc} (encoded : bytes) (p : ValidatedReceivePath)
    (Hit : iterate_decodes) (Hok : ValidateReceivePath encoded = inr p) :
  (exists cps, Forall text_char cps /\ utf8 p = concat (List.map utf8_encode cps)) /\
  Forall (fun b => 0x20 <= b /\ b <> 0x7f) (utf8 p).
Proof.
  apply ValidateReceivePath_iff in Hok as [Hs ->]. simpl.
  destruct (ValidateCodepoints_decodes Hit _ _ (sp_codepoints _ Hs)) as (cps & Hf & ->).
  split; [by exists cps |]. apply List.Forall_concat, List.Forall_map.
  eapply Forall_impl; [| exact Hf]. apply text_char_bytes.
Qed.

Lemma ascii_iterate_decodes : iterate_decodes (U := ascii_utf8proc).
Proof.
  intros [| b l] n cp; cbn [utf8proc_iterate ascii_utf8proc]; [intros [= <- <-]; lia |].
  split_if; intros [= <- <-]; [| lia]. intros _. bool_facts. unfold scalar_value, utf8_encode.
  split; [lia |]. destruct (Z.ltb_spec b 0x80); [done | lia].
Qed.

Lemma accepted_path_is_text_witness :
  exists p, ValidateReceivePath (chars "a.txt") = inr p /\
    Forall (fun b => 0x20 <= b /\ b <> 0x7f) (utf8 p).
Proof.
  eexists. split; [vm_compute; reflexivity |].
  refine (proj2 (accepted_path_is_text (chars "a.txt") _ ascii_iterate_decodes _)).
  vm_compute. reflexivity.
Defined.
