(* ===== verification/ReceiveTransaction.v ===== *)
(** * Receive transactions

    [native/src/storage/receive_transaction.cpp] with the data of
    [native/include/xnn_transfer/core/storage/storage.hpp]: the budget of
    temporary bytes the transactions share, and the transaction that writes one
    file to a temporary object and commits it.  The file system backend and the
    integrity verifier are the interfaces [PlatformBackend] and
    [StreamingIntegrityVerifier], each an arbitrary state with the virtual
    methods as operations on it. *)

From S2P Require Import Prelude.
From S2P Require Import PathValidator.

(** ** Data *)

Module PlatformError.
Inductive PlatformError :=
  | kNone | kNoSpace | kPermissionDenied | kDestinationExists | kInvalidRoot | kBusy
  | kUnsupported | kIoFailure.

#[global] Instance platform_error_eq_dec : EqDecision PlatformError.
Proof. solve_decision. Defined.
End PlatformError.

(** [PlatformResult::ok] and [PlatformWriteResult::ok]. *)
Definition platform_ok (e : PlatformError.PlatformError) : bool :=
  bool_decide (e = PlatformError.kNone).

Module PlatformCommitDisposition.
Inductive PlatformCommitDisposition := kCommitted | kNotCommitted | kOutcomeUncertain.

#[global] Instance disposition_eq_dec : EqDecision PlatformCommitDisposition.
Proof. solve_decision. Defined.
End PlatformCommitDisposition.

Module TransactionState.
Inductive TransactionState :=
  | kCreated | kReceiving | kCommitted | kAborted | kCleanupUnresolved | kOutcomeUncertain.

#[global] Instance transaction_state_eq_dec : EqDecision TransactionState.
Proof. solve_decision. Defined.
End TransactionState.

Module TransactionError.
Inductive TransactionError :=
  | kNone | kInvalidState | kTemporaryBudgetExceeded | kNoSpace | kOpenFailed
  | kDataTooLarge | kDataTooShort | kWriteFailed | kIntegrityFailed | kFlushFailed
  | kCommitFailed | kCleanupUnresolved | kOutcomeUncertain.

#[global] Instance transaction_error_eq_dec : EqDecision TransactionError.
Proof. solve_decision. Defined.
End TransactionError.

Record TransactionResult := {
  tr_error : TransactionError.TransactionError;
  tr_platform_error : PlatformError.PlatformError;
  tr_cleanup_error : PlatformError.PlatformError;
  tr_cleanup_unresolved : bool;
}.

(** [TransactionResult{}], and the results with designated members. *)
Definition TransactionResult_default : TransactionResult :=
  {| tr_error := TransactionError.kNone; tr_platform_error := PlatformError.kNone;
     tr_cleanup_error := PlatformError.kNone; tr_cleanup_unresolved := false |}.

Definition result_of (e : TransactionError.TransactionError)
    (p : PlatformError.PlatformError) : TransactionResult :=
  {| tr_error := e; tr_platform_error := p; tr_cleanup_error := PlatformError.kNone;
     tr_cleanup_unresolved := false |}.

Definition transaction_ok (r : TransactionResult) : bool :=
  bool_decide (tr_error r = TransactionError.kNone).

(** ** Interfaces *)

(** A [TemporaryFileHandle] is its value; zero is the invalid handle. *)
Definition valid (handle : Z) : bool := negb (handle =? 0).

(** The virtual methods of [PlatformBackend]; [CreateTemporary] also returns
    the handle it stores in [output], zero when it stores none. *)
Class PlatformBackend (P : Type) := {
  CreateTemporary : ValidatedReceivePath -> Z -> P -> P * (PlatformError.PlatformError * Z);
  WriteTemporary : Z -> bytes -> P -> P * (PlatformError.PlatformError * Z);
  FlushTemporary : Z -> P -> P * PlatformError.PlatformError;
  CommitTemporary : Z -> ValidatedReceivePath -> P ->
    P * (PlatformCommitDisposition.PlatformCommitDisposition * PlatformError.PlatformError);
  CleanupTemporary : Z -> P -> P * PlatformError.PlatformError;
}.

Class StreamingIntegrityVerifier (V : Type) := {
  Update : bytes -> V -> V * bool;
  Seal : V -> V * bool;
}.

(** ** [TemporaryBudget] *)

Record TemporaryBudget := {
  tb_limit_bytes : Z;
  tb_reserved_bytes : Z;
  tb_unresolved_bytes : Z;
  tb_unresolved_files : Z;
}.

#[global] Instance eta_TemporaryBudget : Eta TemporaryBudget := fun x =>
  {| tb_limit_bytes := tb_limit_bytes x; tb_reserved_bytes := tb_reserved_bytes x;
     tb_unresolved_bytes := tb_unresolved_bytes x;
     tb_unresolved_files := tb_unresolved_files x |}.

Definition MakeTemporaryBudget (limit_bytes : Z) : TemporaryBudget :=
  {| tb_limit_bytes := limit_bytes; tb_reserved_bytes := 0; tb_unresolved_bytes := 0;
     tb_unresolved_files := 0 |}.

Definition TryReserveTemporary (n : Z) (b : TemporaryBudget) : TemporaryBudget * bool :=
  if (tb_reserved_bytes b >? tb_limit_bytes b)
     || (n >? usub 64 (tb_limit_bytes b) (tb_reserved_bytes b)) then (b, false)
  else (b <| tb_reserved_bytes := uadd 64 (tb_reserved_bytes b) n |>, true).

Definition ReleaseTemporary (n : Z) (b : TemporaryBudget) : TemporaryBudget :=
  b <| tb_reserved_bytes := usub 64 (tb_reserved_bytes b) n |>.

Definition MarkUnresolved (n : Z) (b : TemporaryBudget) : TemporaryBudget :=
  b <| tb_unresolved_bytes := uadd 64 (tb_unresolved_bytes b) n |>
    <| tb_unresolved_files := uadd 64 (tb_unresolved_files b) 1 |>.

(** ** [ReceiveTransaction] *)

Section Transaction.
Context {P V : Type} `{PlatformBackend P} `{StreamingIntegrityVerifier V}.

(** [t_verifier] is [None] for a null pointer; [t_budget_set] says that the
    shared budget is not null.  [Begin] refuses a null verifier, so a
    transaction that receives has one ([tx_ok] of [ReceiveTransactionProofs])
    and the [None] branches of [WriteData] and [SealAndCommit] stand for code
    that is not reached. *)
Record ReceiveTransaction := {
  t_request : ValidatedReceiveRequest;
  t_budget_set : bool;
  t_verifier : option V;
  t_temporary : Z;
  t_state : TransactionState.TransactionState;
  t_received_bytes : Z;
  t_reservation_held : bool;
  t_temporary_open : bool;
  t_terminal_result : TransactionResult;
}.

#[global] Instance eta_ReceiveTransaction : Eta ReceiveTransaction := fun x =>
  {| t_request := t_request x; t_budget_set := t_budget_set x; t_verifier := t_verifier x;
     t_temporary := t_temporary x; t_state := t_state x;
     t_received_bytes := t_received_bytes x; t_reservation_held := t_reservation_held x;
     t_temporary_open := t_temporary_open x; t_terminal_result := t_terminal_result x |}.

(** What a transaction shares with others: the budget and the backend. *)
Record Storage := {
  st_budget : TemporaryBudget;
  st_platform : P;
}.

#[global] Instance eta_Storage : Eta Storage := fun x =>
  {| st_budget := st_budget x; st_platform := st_platform x |}.

Definition MakeTransaction (request : ValidatedReceiveRequest) (budget_set : bool)
    (verifier : option V) : ReceiveTransaction :=
  {| t_request := request; t_budget_set := budget_set; t_verifier := verifier;
     t_temporary := 0; t_state := TransactionState.kCreated; t_received_bytes := 0;
     t_reservation_held := false; t_temporary_open := false;
     t_terminal_result := TransactionResult_default |}.

Definition ErrorForPlatform (error : PlatformError.PlatformError)
    (fallback : TransactionError.TransactionError) : TransactionError.TransactionError :=
  if bool_decide (error = PlatformError.kNoSpace) then TransactionError.kNoSpace else fallback.

Definition ReleaseReservation (t : ReceiveTransaction) (s : Storage)
    : ReceiveTransaction * Storage :=
  if negb (t_reservation_held t) then (t, s)
  else (t <| t_reservation_held := false |>,
        s <| st_budget := ReleaseTemporary (declared_size (t_request t)) (st_budget s) |>).

(** A transaction in a terminal state with its result, returned. *)
Definition finish (t : ReceiveTransaction) (s : Storage)
    (state : TransactionState.TransactionState) (result : TransactionResult)
    : ReceiveTransaction * Storage * TransactionResult :=
  (t <| t_state := state |> <| t_terminal_result := result |>, s, result).

Definition close_temporary (t : ReceiveTransaction) : ReceiveTransaction :=
  t <| t_temporary_open := false |> <| t_temporary := 0 |>.

Definition FailAndCleanup (error : TransactionError.TransactionError)
    (platform_error : PlatformError.PlatformError) (t : ReceiveTransaction) (s : Storage)
    : ReceiveTransaction * Storage * TransactionResult :=
  let result := result_of error platform_error in
  if t_temporary_open t then
    let '(platform, cleanup) := CleanupTemporary (t_temporary t) (st_platform s) in
    let s := s <| st_platform := platform |> in
    if negb (platform_ok cleanup) then
      let result :=
        {| tr_error := if bool_decide (error = TransactionError.kNone)
                       then TransactionError.kCleanupUnresolved else error;
           tr_platform_error := platform_error; tr_cleanup_error := cleanup;
           tr_cleanup_unresolved := true |} in
      let t := close_temporary t in
      let s := s <| st_budget := MarkUnresolved (declared_size (t_request t)) (st_budget s) |> in
      finish (t <| t_reservation_held := false |>) s TransactionState.kCleanupUnresolved result
    else
      let '(t, s) := ReleaseReservation (close_temporary t) s in
      finish t s TransactionState.kAborted result
  else
    let '(t, s) := ReleaseReservation t s in
    finish t s TransactionState.kAborted result.

Definition Begin (t : ReceiveTransaction) (s : Storage)
    : ReceiveTransaction * Storage * TransactionResult :=
  if negb (bool_decide (t_state t = TransactionState.kCreated)) then
    (t, s, result_of TransactionError.kInvalidState PlatformError.kNone)
  else if negb (t_budget_set t)
          || match t_verifier t with None => true | Some _ => false end then
    finish t s TransactionState.kAborted
      (result_of TransactionError.kInvalidState PlatformError.kNone)
  else
  let '(budget, reserved) := TryReserveTemporary (declared_size (t_request t)) (st_budget s) in
  let s := s <| st_budget := budget |> in
  if negb reserved then
    finish t s TransactionState.kAborted
      (result_of TransactionError.kTemporaryBudgetExceeded PlatformError.kNone)
  else
  let t := t <| t_reservation_held := true |> in
  let '(platform, (created, handle)) :=
    CreateTemporary (path (t_request t)) (declared_size (t_request t)) (st_platform s) in
  let s := s <| st_platform := platform |> in
  if negb (platform_ok created) || negb (valid handle) then
    let platform_error := if platform_ok created then PlatformError.kIoFailure else created in
    let error := ErrorForPlatform platform_error TransactionError.kOpenFailed in
    if valid handle then
      FailAndCleanup error platform_error
        (t <| t_temporary := handle |> <| t_temporary_open := true |>) s
    else
      let '(t, s) := ReleaseReservation t s in
      finish t s TransactionState.kAborted (result_of error platform_error)
  else
    (t <| t_temporary := handle |> <| t_temporary_open := true |>
       <| t_state := TransactionState.kReceiving |>, s, TransactionResult_default).

Definition WriteData (data : bytes) (t : ReceiveTransaction) (s : Storage)
    : ReceiveTransaction * Storage * TransactionResult :=
  if negb (bool_decide (t_state t = TransactionState.kReceiving)) then
    (t, s, result_of TransactionError.kInvalidState PlatformError.kNone)
  else
  let data_size := bsize data in
  let remaining := usub 64 (declared_size (t_request t)) (t_received_bytes t) in
  if data_size >? remaining then
    FailAndCleanup TransactionError.kDataTooLarge PlatformError.kNone t s
  else if bool_decide (data = []) then (t, s, TransactionResult_default)
  else
  let '(platform, (error, bytes_written)) :=
    WriteTemporary (t_temporary t) data (st_platform s) in
  let s := s <| st_platform := platform |> in
  if negb (platform_ok error) || negb (bytes_written =? bsize data) then
    FailAndCleanup (ErrorForPlatform error TransactionError.kWriteFailed) error t s
  else match t_verifier t with
  | None => (t, s, TransactionResult_default)
  | Some verifier =>
      let '(verifier, accepted) := Update data verifier in
      let t := t <| t_verifier := Some verifier |> in
      if negb accepted then
        FailAndCleanup TransactionError.kIntegrityFailed PlatformError.kNone t s
      else
        (t <| t_received_bytes := uadd 64 (t_received_bytes t) data_size |>, s,
         TransactionResult_default)
  end.

Definition SealAndCommit (t : ReceiveTransaction) (s : Storage)
    : ReceiveTransaction * Storage * TransactionResult :=
  if negb (bool_decide (t_state t = TransactionState.kReceiving)) then
    (t, s, result_of TransactionError.kInvalidState PlatformError.kNone)
  else if negb (t_received_bytes t =? declared_size (t_request t)) then
    FailAndCleanup TransactionError.kDataTooShort PlatformError.kNone t s
  else match t_verifier t with
  | None => (t, s, TransactionResult_default)
  | Some verifier =>
  let '(verifier, sealed) := Seal verifier in
  let t := t <| t_verifier := Some verifier |> in
  if negb sealed then
    FailAndCleanup TransactionError.kIntegrityFailed PlatformError.kNone t s
  else
  let '(platform, flushed) := FlushTemporary (t_temporary t) (st_platform s) in
  let s := s <| st_platform := platform |> in
  if negb (platform_ok flushed) then
    FailAndCleanup (ErrorForPlatform flushed TransactionError.kFlushFailed) flushed t s
  else
  let '(platform, (disposition, error)) :=
    CommitTemporary (t_temporary t) (path (t_request t)) (st_platform s) in
  let s := s <| st_platform := platform |> in
  match disposition with
  | PlatformCommitDisposition.kCommitted =>
      let '(t, s) := ReleaseReservation (close_temporary t) s in
      finish t s TransactionState.kCommitted TransactionResult_default
  | PlatformCommitDisposition.kOutcomeUncertain =>
      let t := close_temporary t in
      let s := s <| st_budget := MarkUnresolved (declared_size (t_request t)) (st_budget s) |> in
      finish (t <| t_reservation_held := false |>) s TransactionState.kOutcomeUncertain
        (result_of TransactionError.kOutcomeUncertain error)
  | PlatformCommitDisposition.kNotCommitted =>
      FailAndCleanup (ErrorForPlatform error TransactionError.kCommitFailed) error t s
  end
  end.

(** [Abort], which the destructor also calls. *)
Definition AbortTx (t : ReceiveTransaction) (s : Storage)
    : ReceiveTransaction * Storage * TransactionResult :=
  match t_state t with
  | TransactionState.kCreated =>
      finish t s TransactionState.kAborted TransactionResult_default
  | TransactionState.kReceiving =>
      FailAndCleanup TransactionError.kNone PlatformError.kNone t s
  | TransactionState.kAborted | TransactionState.kCleanupUnresolved
  | TransactionState.kOutcomeUncertain => (t, s, t_terminal_result t)
  | TransactionState.kCommitted =>
      (t, s, result_of TransactionError.kInvalidState PlatformError.kNone)
  end.

End Transaction.

Arguments ReceiveTransaction : clear implicits.
Arguments Storage : clear implicits.
