(* ===== verification/ReceiveTransactionProofs.v ===== *)
(** * Correctness of receive transactions

    Every transaction uses its temporary handle in the order the backend
    demands and gives it back exactly once; a file is committed only after all
    of its declared bytes were written, accepted by the verifier, sealed and
    flushed; and the transactions that share a budget never reserve more than
    its limit, whatever the interleaving, with unresolved orphans kept
    reserved. *)

From S2P Require Import Prelude.
From S2P Require Import PathValidator.
From S2P Require Import ReceiveTransaction.

(** ** Operations as data *)

Inductive TxOp :=
  | OpBegin
  | OpWrite (data : bytes)
  | OpCommit
  | OpAbort.

(** The states in which a transaction does nothing any more. *)
Definition tx_terminal (st : TransactionState.TransactionState) : bool :=
  match st with
  | TransactionState.kCreated | TransactionState.kReceiving => false
  | _ => true
  end.

Section Steps.
Context {P V : Type} `{PlatformBackend P} `{StreamingIntegrityVerifier V}.
Implicit Types (t : ReceiveTransaction V) (s : Storage P).

Definition tx_call (op : TxOp) t s : ReceiveTransaction V * Storage P * TransactionResult :=
  match op with
  | OpBegin => Begin t s
  | OpWrite data => WriteData data t s
  | OpCommit => SealAndCommit t s
  | OpAbort => AbortTx t s
  end.

(** ** The invariant of one transaction *)

Definition tx_ok t : Prop :=
  in_width 64 (declared_size (t_request t)) /\
  match t_state t with
  | TransactionState.kCreated =>
      t_temporary_open t = false /\ t_reservation_held t = false /\ t_received_bytes t = 0
  | TransactionState.kReceiving =>
      t_temporary_open t = true /\ t_temporary t <> 0 /\ t_reservation_held t = true /\
      is_Some (t_verifier t) /\ 0 <= t_received_bytes t <= declared_size (t_request t)
  | _ => t_temporary_open t = false /\ t_reservation_held t = false
  end.

(** What a transaction holds of the budget. *)
Definition held t : Z := if t_reservation_held t then declared_size (t_request t) else 0.

(** The budget [b], when [others] bytes are held by other transactions. *)
Definition ledger (others : Z) t (b : TemporaryBudget) : Prop :=
  0 <= others /\ 0 <= tb_unresolved_bytes b /\
  tb_reserved_bytes b = others + held t + tb_unresolved_bytes b /\
  tb_reserved_bytes b <= tb_limit_bytes b < 2 ^ 64.

(** A relation between the state before and after a call that leaves the rest
    of the budget alone. *)
Definition ledger_kept t s (r : ReceiveTransaction V * Storage P * TransactionResult) : Prop :=
  forall others, ledger others t (st_budget s) -> ledger others r.1.1 (st_budget r.1.2).

Definition reserve_fields t t' : Prop :=
  t_request t' = t_request t /\ t_reservation_held t' = t_reservation_held t.

Lemma held_same t t' : reserve_fields t t' -> held t' = held t.
Proof. intros [Hr Hh]. unfold held. by rewrite Hr, Hh. Qed.

Lemma held_range t : tx_ok t -> 0 <= held t < 2 ^ 64.
Proof. intros [Hd _]. unfold held, in_width in *. destruct (t_reservation_held t); [lia | done]. Qed.

(** [ReleaseReservation] gives back what is held. *)
Lemma ReleaseReservation_spec t s :
  in_width 64 (declared_size (t_request t)) ->
  let '(t', s') := ReleaseReservation t s in
  t_reservation_held t' = false /\ t_request t' = t_request t /\
  t_temporary_open t' = t_temporary_open t /\ t_state t' = t_state t /\
  st_platform s' = st_platform s /\
  forall others, ledger others t (st_budget s) -> ledger others t' (st_budget s').
Proof.
  intros Hd. unfold ReleaseReservation. destruct (t_reservation_held t) eqn:E; simpl.
  - do 5 (split; [done |]). intros others Hl. unfold ledger, held in *. simpl. rewrite E in Hl.
    destruct Hl as (? & ? & Hr & ?). rewrite usub_small by widths. widths.
  - auto 8.
Qed.

Lemma MarkUnresolved_ledger others t t' b :
  in_width 64 (declared_size (t_request t)) ->
  t_reservation_held t = true -> t_reservation_held t' = false ->
  ledger others t b -> ledger others t' (MarkUnresolved (declared_size (t_request t)) b).
Proof.
  unfold ledger, held. intros Hd Hh Hh' (? & ? & Hr & ?). rewrite Hh in *. rewrite Hh'. simpl.
  rewrite uadd_small by widths. widths.
Qed.

(** [FailAndCleanup] from a state in which a reservation goes with an open
    temporary: the transaction ends, holding nothing. *)
Lemma FailAndCleanup_spec e pe t s :
  in_width 64 (declared_size (t_request t)) ->
  (t_temporary_open t = true -> t_reservation_held t = true) ->
  let r := FailAndCleanup e pe t s in
  tx_ok r.1.1 /\ tx_terminal (t_state r.1.1) = true /\ t_state r.1.1 <> TransactionState.kCommitted /\
  t_request r.1.1 = t_request t /\ t_terminal_result r.1.1 = r.2 /\ ledger_kept t s r.
Proof.
  intros Hd Hopen. unfold FailAndCleanup, ledger_kept.
  destruct (t_temporary_open t) eqn:Eo.
  - destruct (CleanupTemporary _ _) as [platform cleanup].
    destruct (negb (platform_ok cleanup)).
    + simpl. do 5 (split; [done |]). intros others Hl.
      eapply (MarkUnresolved_ledger others t); eauto.
    + pose proof (ReleaseReservation_spec (close_temporary t)
        (s <| st_platform := platform |>) Hd) as Hs.
      destruct (ReleaseReservation _ _) as [t' s'].
      destruct Hs as (Hh & Hr & Ho & _ & _ & Hl). simpl.
      unfold tx_ok. simpl. rewrite Hr, Ho, Hh. do 5 (split; [done |]). apply Hl.
  - pose proof (ReleaseReservation_spec t s Hd) as Hs.
    destruct (ReleaseReservation t s) as [t' s'].
    destruct Hs as (Hh & Hr & Ho & _ & _ & Hl). simpl.
    unfold tx_ok. simpl. rewrite Hr, Ho, Hh. do 5 (split; [done |]). apply Hl.
Qed.

Definition call_ok t s (r : ReceiveTransaction V * Storage P * TransactionResult) : Prop :=
  tx_ok r.1.1 /\ t_request r.1.1 = t_request t /\ ledger_kept t s r.

Lemma call_ok_fail e pe t s t1 s1 :
  t_request t1 = t_request t -> st_budget s1 = st_budget s ->
  in_width 64 (declared_size (t_request t)) ->
  t_reservation_held t = t_reservation_held t1 ->
  (t_temporary_open t1 = true -> t_reservation_held t1 = true) ->
  call_ok t s (FailAndCleanup e pe t1 s1).
Proof.
  intros Hr Hb Hd Hh Ho. destruct (FailAndCleanup_spec e pe t1 s1) as (H1 & _ & _ & H2 & _ & H3);
    [by rewrite Hr | done |].
  split; [done |]. split; [congruence |]. intros others Hl. apply H3. rewrite Hb.
  unfold ledger, held in *. by rewrite <- Hh, Hr.
Qed.

Lemma call_ok_same t s r : tx_ok t -> r.1.1 = t -> r.1.2 = s -> call_ok t s r.
Proof. intros Hok Ht Hs. split; [by rewrite Ht |]. split; [by rewrite Ht |]. intros o. by rewrite Ht, Hs. Qed.

Lemma TryReserveTemporary_ledger others t t' b b' :
  in_width 64 (declared_size (t_request t)) -> t_request t' = t_request t ->
  t_reservation_held t = false -> t_reservation_held t' = true ->
  TryReserveTemporary (declared_size (t_request t)) b = (b', true) ->
  ledger others t b -> ledger others t' b'.
Proof.
  intros Hd Hr Hh Hh' Ht (? & ? & Hres & ?). unfold TryReserveTemporary in Ht.
  split_if_in Ht; [done |]. inv Ht. bool_facts. unfold ledger, held in *. rewrite Hh in Hres.
  rewrite Hh', Hr. simpl. rewrite usub_small in * by widths. rewrite uadd_small by widths. widths.
Qed.

Lemma TryReserveTemporary_refused n b b' : TryReserveTemporary n b = (b', false) -> b' = b.
Proof. unfold TryReserveTemporary. split_if; by intros [=]. Qed.

Lemma Begin_ok t s : tx_ok t -> call_ok t s (Begin t s).
Proof.
  intros Hok. unfold Begin. split_if; [by apply call_ok_same |].
  apply negb_false_iff, bool_decide_eq_true in E.
  destruct Hok as [Hd Hst]. rewrite E in Hst. destruct Hst as (Ho & Hh & Hrcv).
  destruct (negb (t_budget_set t) || _) eqn:E0.
  { split; [by split; [exact Hd | simpl; auto] |]. split; [done |]. intros others Hl. exact Hl. }
  apply orb_false_iff in E0 as [_ Hv].
  destruct (TryReserveTemporary _ _) as [budget reserved] eqn:Er.
  destruct reserved; cbn [negb].
  2: { apply TryReserveTemporary_refused in Er as ->. split; [by split; [exact Hd | simpl; auto] |]. split; [done |].
       intros others Hl. exact Hl. }
  destruct (CreateTemporary _ _ _) as [platform [created handle]].
  set (t1 := t <| t_reservation_held := true |>).
  set (s1 := s <| st_budget := budget |>).
  assert (Hl1 : forall others, ledger others t (st_budget s) -> ledger others t1 budget)
    by (intros others; by apply TryReserveTemporary_ledger).
  destruct (negb (platform_ok created) || negb (valid handle)) eqn:Ec.
  - destruct (valid handle) eqn:Evh.
    + assert (Hf : forall e pe, call_ok t1 s1 (FailAndCleanup e pe
        (t1 <| t_temporary := handle |> <| t_temporary_open := true |>)
        (s1 <| st_platform := platform |>))) by (intros; by apply call_ok_fail).
      match goal with |- call_ok _ _ (FailAndCleanup ?e ?pe _ _) =>
        destruct (Hf e pe) as (H1 & H2 & H3) end.
      split; [exact H1 |]. split; [exact H2 |]. intros others Hl. apply H3, Hl1, Hl.
    + pose proof (ReleaseReservation_spec t1 (s1 <| st_platform := platform |>) Hd) as Hs.
      destruct (ReleaseReservation _ _) as [t' s']. destruct Hs as (H1 & H2 & H3 & _ & _ & H4).
      unfold call_ok, tx_ok. simpl. rewrite H1, H2, H3. split; [done |]. split; [done |].
      intros others Hl. apply H4, Hl1, Hl.
  - apply orb_false_iff in Ec as [_ Ec%negb_false_iff%negb_true_iff]. bool_facts.
    split; [| split; [done |]].
    + split; [done |]. simpl. split; [done |]. split; [done |]. split; [done |].
      split; [by destruct (t_verifier t) |]. rewrite Hrcv. widths.
    + intros others Hl. apply Hl1, Hl.
Qed.

Lemma WriteData_ok data t s : tx_ok t -> call_ok t s (WriteData data t s).
Proof.
  intros Hok. unfold WriteData. split_if; [by apply call_ok_same |].
  apply negb_false_iff, bool_decide_eq_true in E. pose proof Hok as [Hd Hst].
  rewrite E in Hst. destruct Hst as (Ho & Htmp & Hh & [v Hv] & Hrcv).
  rewrite usub_small by widths.
  split_if; [by apply call_ok_fail |]. bool_facts. split_if; [by apply call_ok_same |].
  destruct (WriteTemporary _ _ _) as [platform [error written]].
  split_if; [by apply call_ok_fail |]. rewrite Hv.
  destruct (Update data v) as [v' accepted]. split_if; [by apply call_ok_fail |].
  pose proof (bsize_nonneg data).
  change (t_received_bytes (t <| t_verifier := Some v' |>)) with (t_received_bytes t).
  rewrite uadd_small by widths.
  split; [| by split; [| intros others Hl]]. split; [done |]. simpl. rewrite E.
  repeat split; try done; lia.
Qed.

Lemma SealAndCommit_ok t s : tx_ok t -> call_ok t s (SealAndCommit t s).
Proof.
  intros Hok. unfold SealAndCommit. split_if; [by apply call_ok_same |].
  apply negb_false_iff, bool_decide_eq_true in E. pose proof Hok as [Hd Hst].
  rewrite E in Hst. destruct Hst as (Ho & Htmp & Hh & [v Hv] & Hrcv).
  split_if; [by apply call_ok_fail |]. rewrite Hv.
  destruct (Seal v) as [v' sealed]. split_if; [by apply call_ok_fail |].
  destruct (FlushTemporary _ _) as [platform flushed]. split_if; [by apply call_ok_fail |].
  destruct (CommitTemporary _ _ _) as [platform' [[| |] error]]; [| by apply call_ok_fail |].
  - match goal with |- context [ReleaseReservation ?a ?b] =>
      pose proof (ReleaseReservation_spec a b Hd) as Hs;
      destruct (ReleaseReservation a b) as [t' s'] end.
    destruct Hs as (H1 & H2 & H3 & _ & _ & H4).
    unfold call_ok, tx_ok. simpl. rewrite H1, H2, H3. split; [done |]. split; [done |]. intros others Hl. apply H4, Hl.
  - split; [by split; [exact Hd | simpl; auto] |]. split; [done |]. intros others Hl.
    by apply (MarkUnresolved_ledger others t).
Qed.

Lemma AbortTx_ok t s : tx_ok t -> call_ok t s (AbortTx t s).
Proof.
  intros Hok. pose proof Hok as [Hd Hst]. unfold AbortTx.
  destruct (t_state t) eqn:E; try (by apply call_ok_same).
  - destruct Hst as (Ho & Hh & _). split; [by split; [exact Hd | simpl; auto] |]. split; [done |]. by intros others Hl.
  - destruct Hst as (Ho & Htmp & Hh & _). by apply call_ok_fail.
Qed.

Lemma tx_call_ok op t s : tx_ok t -> call_ok t s (tx_call op t s).
Proof. destruct op; simpl; auto using Begin_ok, WriteData_ok, SealAndCommit_ok, AbortTx_ok. Qed.

(** A transaction that has ended makes no platform call, changes no budget and
    stays as it is. *)
Lemma tx_terminal_final op t s :
  tx_terminal (t_state t) = true -> (tx_call op t s).1 = (t, s).
Proof.
  intros Ht. destruct op; simpl; unfold Begin, WriteData, SealAndCommit, AbortTx;
    by destruct (t_state t).
Qed.

(** ** Successful calls *)

Lemma FailAndCleanup_not_ok e pe t s :
  e <> TransactionError.kNone -> transaction_ok (FailAndCleanup e pe t s).2 = false.
Proof.
  intros He. unfold FailAndCleanup, transaction_ok.
  destruct (t_temporary_open t); [destruct (CleanupTemporary _ _) as [p c]; destruct (negb _) |].
  all: rewrite ?(bool_decide_false (e = TransactionError.kNone)) by done.
  all: try destruct (ReleaseReservation _ _); simpl; by rewrite ?bool_decide_false.
Qed.

Lemma ErrorForPlatform_not_none e fallback :
  fallback <> TransactionError.kNone -> ErrorForPlatform e fallback <> TransactionError.kNone.
Proof. intros Hf. unfold ErrorForPlatform. by destruct (bool_decide _). Qed.

#[local] Hint Resolve FailAndCleanup_not_ok ErrorForPlatform_not_none : xnn.
#[local] Hint Extern 1 (_ <> TransactionError.kNone) => discriminate : xnn.

Lemma Begin_success t s :
  tx_ok t -> transaction_ok (Begin t s).2 = true -> t_state t = TransactionState.kCreated ->
  t_state (Begin t s).1.1 = TransactionState.kReceiving /\
  t_received_bytes (Begin t s).1.1 = 0.
Proof.
  intros [_ Hst] Hres E. rewrite E in Hst. destruct Hst as (_ & _ & Hrcv).
  revert Hres. unfold Begin. rewrite bool_decide_true by done. cbn [negb].
  destruct (negb (t_budget_set t) || _); [done |].
  destruct (TryReserveTemporary _ _) as [b []]; cbn [negb]; [| done].
  destruct (CreateTemporary _ _ _) as [p [c h]].
  destruct (negb (platform_ok c) || negb (valid h)); [| done].
  intros Hres. exfalso. revert Hres. destruct (valid h).
  - rewrite FailAndCleanup_not_ok by auto with xnn. done.
  - unfold ReleaseReservation. simpl. unfold transaction_ok. simpl.
    rewrite bool_decide_false by auto with xnn. done.
Qed.

Lemma WriteData_success data t s :
  tx_ok t -> t_state t = TransactionState.kReceiving -> data <> [] ->
  transaction_ok (WriteData data t s).2 = true ->
  t_state (WriteData data t s).1.1 = TransactionState.kReceiving /\
  t_received_bytes (WriteData data t s).1.1 = t_received_bytes t + bsize data.
Proof.
  intros [Hd Hst] E Hne. rewrite E in Hst. destruct Hst as (_ & _ & _ & [v Hv] & Hrcv).
  unfold WriteData. rewrite bool_decide_true by done. cbn [negb].
  rewrite (bool_decide_false (data = [])) by done. rewrite usub_small by widths.
  destruct (Z.gtb_spec (bsize data) (declared_size (t_request t) - t_received_bytes t));
    [by rewrite FailAndCleanup_not_ok |].
  destruct (WriteTemporary _ _ _) as [p [e n]].
  destruct (negb (platform_ok e) || _); [by rewrite FailAndCleanup_not_ok by auto with xnn |].
  rewrite Hv. destruct (Update data v) as [v' []]; cbn [negb];
    [| by rewrite FailAndCleanup_not_ok].
  intros _. simpl. split; [done |]. pose proof (bsize_nonneg data). apply uadd_small. widths.
Qed.

Lemma SealAndCommit_success t s :
  tx_ok t -> t_state t = TransactionState.kReceiving ->
  transaction_ok (SealAndCommit t s).2 = true ->
  t_state (SealAndCommit t s).1.1 = TransactionState.kCommitted.
Proof.
  intros [Hd Hst] E. rewrite E in Hst. destruct Hst as (_ & _ & _ & [v Hv] & Hrcv).
  unfold SealAndCommit. rewrite bool_decide_true by done. cbn [negb].
  destruct (negb (t_received_bytes t =? _)); [by rewrite FailAndCleanup_not_ok |].
  rewrite Hv. destruct (Seal v) as [v' []]; cbn [negb]; [| by rewrite FailAndCleanup_not_ok].
  destruct (FlushTemporary _ _) as [p f].
  destruct (negb (platform_ok f)); [by rewrite FailAndCleanup_not_ok by auto with xnn |].
  destruct (CommitTemporary _ _ _) as [p' [[| |] e]].
  - by destruct (ReleaseReservation _ _).
  - by rewrite FailAndCleanup_not_ok by auto with xnn.
  - done.
Qed.
End Steps.

(** ** The calls a transaction makes *)

Inductive Event :=
  | EvCreate (handle : Z) (error : PlatformError.PlatformError)
  | EvWrite (handle : Z) (data : bytes) (complete : bool)
  | EvFlush (handle : Z) (ok : bool)
  | EvCommit (handle : Z) (d : PlatformCommitDisposition.PlatformCommitDisposition)
  | EvCleanup (handle : Z).

(** Any backend, with a log of its calls. *)
#[local] Instance logged (P : Type) `{PlatformBackend P} : PlatformBackend (P * list Event) := {|
  CreateTemporary := fun dest size s =>
    let '(p, (e, h)) := CreateTemporary dest size s.1 in ((p, s.2 ++ [EvCreate h e]), (e, h));
  WriteTemporary := fun h data s =>
    let '(p, (e, n)) := WriteTemporary h data s.1 in
    ((p, s.2 ++ [EvWrite h data (platform_ok e && (n =? bsize data))]), (e, n));
  FlushTemporary := fun h s =>
    let '(p, e) := FlushTemporary h s.1 in ((p, s.2 ++ [EvFlush h (platform_ok e)]), e);
  CommitTemporary := fun h dest s =>
    let '(p, (d, e)) := CommitTemporary h dest s.1 in ((p, s.2 ++ [EvCommit h d]), (d, e));
  CleanupTemporary := fun h s =>
    let '(p, e) := CleanupTemporary h s.1 in ((p, s.2 ++ [EvCleanup h]), e);
|}.

(** The order the backend demands: [Some h] is the handle that is open.  A
    handle is opened once, used while it is open only, and consumed by a commit
    that was not refused or by a cleanup.  [None] is a violation. *)
Definition replay_event (st : option (option Z)) (e : Event) : option (option Z) :=
  match st, e with
  | Some None, EvCreate h _ => Some (if valid h then Some h else None)
  | Some (Some h), EvWrite h' _ _ | Some (Some h), EvFlush h' _ =>
      if h =? h' then Some (Some h) else None
  | Some (Some h), EvCommit h' d =>
      if negb (h =? h') then None
      else if bool_decide (d = PlatformCommitDisposition.kNotCommitted) then Some (Some h)
      else Some None
  | Some (Some h), EvCleanup h' => if h =? h' then Some None else None
  | _, _ => None
  end.

Definition replay (log : list Event) : option (option Z) :=
  fold_left replay_event log (Some None).

Lemma replay_snoc log e : replay (log ++ [e]) = replay_event (replay log) e.
Proof. unfold replay. by rewrite fold_left_app. Qed.

(** The chunks of a file, as the log shows them. *)
Definition writes (h : Z) (ds : list bytes) : list Event :=
  List.map (fun d => EvWrite h d true) ds.

Lemma replay_writes h ds : h <> 0 ->
  replay (EvCreate h PlatformError.kNone :: writes h ds) = Some (Some h).
Proof.
  intros Hh. unfold replay. simpl. unfold valid. destruct (Z.eqb_spec h 0); [done |]. simpl.
  unfold writes. induction ds as [| d ds IH]; simpl; [done |]. by rewrite Z.eqb_refl.
Qed.

Section Logged.
Context {P V : Type} `{PlatformBackend P} `{StreamingIntegrityVerifier V}.
Implicit Types (t : ReceiveTransaction V) (s : Storage (P * list Event)).

Definition log_of s : list Event := (st_platform s).2.

(** The verifier after it accepted each chunk in order. *)
Fixpoint verified (v : V) (ds : list bytes) : option V :=
  match ds with
  | [] => Some v
  | d :: ds => let '(v, accepted) := Update d v in if accepted then verified v ds else None
  end.

Lemma verified_snoc v ds d v1 v2 :
  verified v ds = Some v1 -> Update d v1 = (v2, true) -> verified v (ds ++ [d]) = Some v2.
Proof.
  revert v. induction ds as [| x ds IH]; intros v; simpl.
  - intros [= ->] ->. done.
  - destruct (Update x v) as [v' []]; [apply IH | done].
Qed.

(** The content of the file, complete and verified. *)
Definition received (v0 : V) (ds : list bytes) (size : Z) (v : V) : Prop :=
  verified v0 ds = Some v /\ bsize (concat ds) = size /\ Forall (fun d => d <> []) ds.

(** The calls that make the file visible. *)
Definition finishing (e : Event) : bool :=
  match e with EvFlush _ _ | EvCommit _ _ => true | _ => false end.

(** What follows a flush: after one that failed the object is cleaned up, after
    one that succeeded it is committed, and cleaned up if the commit was
    refused. *)
Definition after_flush (h : Z) (ok : bool)
    (d : PlatformCommitDisposition.PlatformCommitDisposition) : list Event :=
  if ok then
    EvCommit h d :: (if bool_decide (d = PlatformCommitDisposition.kNotCommitted)
                     then [EvCleanup h] else [])
  else [EvCleanup h].

(** The log of a transaction that has sealed its content. *)
Definition sealed_log (v0 : option V) (size h : Z) (ok : bool)
    (d : PlatformCommitDisposition.PlatformCommitDisposition) (log : list Event) : Prop :=
  exists ds v v1, v0 = Some v /\ h <> 0 /\
    log = EvCreate h PlatformError.kNone :: writes h ds ++ EvFlush h ok :: after_flush h ok d /\
    received v ds size v1 /\ (Seal v1).2 = true.

(** The log of a transaction that ended without a commit. *)
Definition failed_log (v0 : option V) (size : Z) (log : list Event) : Prop :=
  replay log = Some None /\
  (Forall (fun e => finishing e = false) log \/
   exists h ok d, sealed_log v0 size h ok d log /\
     (ok = true -> d <> PlatformCommitDisposition.kCommitted)).

Definition tx_log (v0 : option V) t (log : list Event) : Prop :=
  match t_state t with
  | TransactionState.kCreated => log = [] /\ t_verifier t = v0
  | TransactionState.kReceiving =>
      exists ds v v1, v0 = Some v /\ t_verifier t = Some v1 /\
        log = EvCreate (t_temporary t) PlatformError.kNone :: writes (t_temporary t) ds /\
        received v ds (t_received_bytes t) v1
  | TransactionState.kCommitted =>
      exists h, sealed_log v0 (declared_size (t_request t)) h true
                  PlatformCommitDisposition.kCommitted log
  | _ => failed_log v0 (declared_size (t_request t)) log
  end.

Lemma failed_nil v0 size : failed_log v0 size [].
Proof. split; [done | by left]. Qed.

(** A log whose open handle [h] may be given back by a cleanup. *)
Definition open_log (v0 : option V) (size h : Z) (log : list Event) : Prop :=
  replay log = Some (Some h) /\ failed_log v0 size (log ++ [EvCleanup h]).

Lemma open_log_unfinished v0 size h log : replay log = Some (Some h) ->
  Forall (fun e => finishing e = false) log -> open_log v0 size h log.
Proof.
  intros Hr Hf. split; [done |]. split; [rewrite replay_snoc, Hr; simpl; by rewrite Z.eqb_refl |].
  left. apply Forall_app. split; [done | by constructor].
Qed.

Lemma open_log_sealed v0 size h log ok d : replay log = Some (Some h) ->
  sealed_log v0 size h ok d (log ++ [EvCleanup h]) ->
  (ok = true -> d <> PlatformCommitDisposition.kCommitted) -> open_log v0 size h log.
Proof.
  intros Hr Hs Hd. split; [done |]. split; [rewrite replay_snoc, Hr; simpl; by rewrite Z.eqb_refl |].
  right. by exists h, ok, d.
Qed.

Lemma writes_unfinished h ds : Forall (fun e => finishing e = false) (writes h ds).
Proof. unfold writes. induction ds; simpl; by constructor. Qed.

(** The failure path closes the handle that is open. *)
Lemma FailAndCleanup_log e pe t s v0 h :
  t_temporary_open t = true -> t_temporary t = h ->
  open_log v0 (declared_size (t_request t)) h (log_of s) ->
  let r := FailAndCleanup e pe t s in
  tx_log v0 r.1.1 (log_of r.1.2).
Proof.
  intros Ho Hh [_ Hc]. unfold FailAndCleanup. rewrite Ho. cbn [CleanupTemporary logged].
  destruct (CleanupTemporary (t_temporary t) (st_platform s).1) as [p cleanup].
  rewrite <- Hh in Hc. destruct (negb (platform_ok cleanup)); [exact Hc |].
  unfold ReleaseReservation. by destruct (t_reservation_held _).
Qed.

Lemma replay_receiving t v0 log :
  tx_ok t -> t_state t = TransactionState.kReceiving -> tx_log v0 t log ->
  open_log v0 (declared_size (t_request t)) (t_temporary t) log.
Proof.
  intros [_ Hok] Hst Hl. unfold tx_log in Hl. rewrite Hst in Hl, Hok.
  destruct Hl as (ds & v & v1 & _ & _ & -> & _). apply open_log_unfinished.
  - apply replay_writes, Hok.
  - constructor; [done | apply writes_unfinished].
Qed.

Lemma Begin_log v0 t s : tx_ok t -> tx_log v0 t (log_of s) ->
  tx_log v0 (Begin t s).1.1 (log_of (Begin t s).1.2).
Proof.
  intros Hok Hl. unfold Begin. destruct (negb (bool_decide _)) eqn:E; [done |].
  apply negb_false_iff, bool_decide_eq_true in E. unfold tx_log in Hl. rewrite E in Hl.
  destruct Hl as [Hl Hv].
  destruct (negb (t_budget_set t) || _) eqn:E0; [change (failed_log v0 (declared_size (t_request t)) (log_of s)); rewrite Hl; apply failed_nil |].
  apply orb_false_iff in E0 as [_ Hv'].
  destruct (TryReserveTemporary _ _) as [budget reserved] eqn:Er.
  destruct reserved; cbn [negb]; [| change (failed_log v0 (declared_size (t_request t)) (log_of s)); rewrite Hl; apply failed_nil].
  cbn [CreateTemporary logged].
  change (st_platform (s <| st_budget := budget |>)) with (st_platform s).
  destruct (CreateTemporary _ _ (st_platform s).1) as [p [created handle]].
  fold (log_of s). rewrite Hl. cbn [app].
  assert (Hrep : replay [EvCreate handle created]
                 = Some (if valid handle then Some handle else None)) by done.
  assert (Hno : Forall (fun e => finishing e = false) [EvCreate handle created]) by (by constructor).
  destruct (negb (platform_ok created) || negb (valid handle)) eqn:Ec.
  - destruct (valid handle) eqn:Evh;
      [apply (FailAndCleanup_log _ _ _ _ v0 handle); try done; by apply open_log_unfinished |].
    unfold ReleaseReservation. simpl. by split; [| left].
  - apply orb_false_iff in Ec as [Ec%negb_false_iff Evh].
    unfold platform_ok in Ec. apply bool_decide_eq_true in Ec as ->.
    destruct (t_verifier t) as [v |] eqn:Ev; [| done].
    unfold tx_log. simpl. exists [], v, v. split; [congruence |]. split; [done |]. split; [done |].
    split; [done |]. split; [| constructor]. destruct Hok as [_ Hst]. rewrite E in Hst. by destruct Hst as (_ & _ & ->).
Qed.

Lemma WriteData_log v0 data t s : tx_ok t -> tx_log v0 t (log_of s) ->
  tx_log v0 (WriteData data t s).1.1 (log_of (WriteData data t s).1.2).
Proof.
  intros Hok Hl. unfold WriteData. destruct (negb (bool_decide _)) eqn:E; [done |].
  apply negb_false_iff, bool_decide_eq_true in E.
  pose proof (replay_receiving t v0 _ Hok E Hl) as Hrep.
  pose proof Hok as [Hd Hst]. rewrite E in Hst. destruct Hst as (Ho & Htmp & Hh & _ & Hrcv).
  rewrite usub_small by widths.
  destruct (Z.gtb_spec (bsize data) (declared_size (t_request t) - t_received_bytes t));
    [by apply (FailAndCleanup_log _ _ _ _ v0 (t_temporary t)) |].
  destruct (bool_decide (data = [])) eqn:Ed; [done |]. apply bool_decide_eq_false in Ed.
  cbn [WriteTemporary logged].
  destruct (WriteTemporary _ _ (st_platform s).1) as [p [error written]]. fold (log_of s).
  set (ok := platform_ok error && (written =? bsize data)).
  unfold tx_log in Hl. rewrite E in Hl. destruct Hl as (ds & v & v1 & Hv0 & Hv1 & Hlog & Hr).
  assert (Hrep' : open_log v0 (declared_size (t_request t)) (t_temporary t)
                    (log_of s ++ [EvWrite (t_temporary t) data ok])).
  { apply open_log_unfinished.
    - rewrite replay_snoc, (proj1 Hrep). simpl. by rewrite Z.eqb_refl.
    - apply Forall_app. split; [| by constructor]. rewrite Hlog.
      constructor; [done | apply writes_unfinished]. }
  destruct (negb (platform_ok error) || negb (written =? bsize data)) eqn:Ew;
    [by apply (FailAndCleanup_log _ _ _ _ v0 (t_temporary t)) |].
  assert (ok = true) as Hokt
    by (unfold ok; apply orb_false_iff in Ew as [->%negb_false_iff ->%negb_false_iff]; done).
  rewrite Hv1. destruct (Update data v1) as [v2 accepted] eqn:Eu.
  destruct accepted; cbn [negb]; [| by apply (FailAndCleanup_log _ _ _ _ v0 (t_temporary t))].
  change (t_received_bytes (t <| t_verifier := Some v2 |>)) with (t_received_bytes t).
  pose proof (bsize_nonneg data). rewrite uadd_small by widths.
  unfold tx_log. simpl. rewrite E. exists (ds ++ [data]), v, v2.
  destruct Hr as (Hver & Hsz & Hne).
  split; [done |]. split; [done |]. split.
  - unfold log_of in *. simpl. rewrite Hlog, Hokt. unfold writes. by rewrite List.map_app.
  - split; [by apply (verified_snoc _ _ _ v1) |]. split.
    + rewrite concat_app. simpl. rewrite app_nil_r, bsize_app. lia.
    + apply Forall_app. split; [done | by constructor].
Qed.

Lemma SealAndCommit_log v0 t s : tx_ok t -> tx_log v0 t (log_of s) ->
  tx_log v0 (SealAndCommit t s).1.1 (log_of (SealAndCommit t s).1.2).
Proof.
  intros Hok Hl. unfold SealAndCommit. destruct (negb (bool_decide _)) eqn:E; [done |].
  apply negb_false_iff, bool_decide_eq_true in E.
  pose proof (replay_receiving t v0 _ Hok E Hl) as Hrep.
  pose proof Hok as [Hd Hst]. rewrite E in Hst. destruct Hst as (Ho & Htmp & Hh & _ & Hrcv).
  destruct (Z.eqb_spec (t_received_bytes t) (declared_size (t_request t))) as [Hall |];
    cbn [negb]; [| by apply (FailAndCleanup_log _ _ _ _ v0 (t_temporary t))].
  unfold tx_log in Hl. rewrite E in Hl. destruct Hl as (ds & v & v1 & Hv0 & Hv1 & Hlog & Hr).
  rewrite Hv1. destruct (Seal v1) as [v2 sealed] eqn:Es.
  destruct sealed; cbn [negb]; [| by apply (FailAndCleanup_log _ _ _ _ v0 (t_temporary t))].
  cbn [FlushTemporary CommitTemporary logged].
  change (t_temporary (t <| t_verifier := Some v2 |>)) with (t_temporary t).
  destruct (FlushTemporary (t_temporary t) (st_platform s).1) as [p flushed]. fold (log_of s).
  assert (Hseal : forall ok d, sealed_log v0 (declared_size (t_request t)) (t_temporary t) ok d
    (log_of s ++ EvFlush (t_temporary t) ok :: after_flush (t_temporary t) ok d)).
  { intros ok d. exists ds, v, v1. split; [done |]. split; [done |].
    split; [by rewrite Hlog |]. split; [by rewrite <- Hall | by rewrite Es]. }
  assert (Hrep1 : forall ok, replay (log_of s ++ [EvFlush (t_temporary t) ok])
                  = Some (Some (t_temporary t)))
    by (intros; rewrite replay_snoc, (proj1 Hrep); simpl; by rewrite Z.eqb_refl).
  destruct (platform_ok flushed) eqn:Ef; cbn [negb].
  2: { apply (FailAndCleanup_log _ _ _ _ v0 (t_temporary t)); [done.. |].
       apply (open_log_sealed v0 _ _ _ false PlatformCommitDisposition.kNotCommitted);
         [apply Hrep1 | | done].
       unfold log_of in *. simpl. rewrite <- (app_assoc _ [_] [_]).
       apply (Hseal false PlatformCommitDisposition.kNotCommitted). }
  cbn [st_platform fst snd].
  match goal with |- context [CommitTemporary ?a ?b ?c] =>
    destruct (CommitTemporary a b c) as [p' [d error]] end.
  assert (Hrep2 : replay ((log_of s ++ [EvFlush (t_temporary t) true])
                          ++ [EvCommit (t_temporary t) d])
    = if bool_decide (d = PlatformCommitDisposition.kNotCommitted)
      then Some (Some (t_temporary t)) else Some None)
    by (rewrite replay_snoc, Hrep1; simpl; by rewrite Z.eqb_refl).
  rewrite <- (app_assoc (log_of s)) in Hrep2.
  destruct d.
  - unfold ReleaseReservation. destruct (t_reservation_held _).
    all: exists (t_temporary t); unfold log_of in *; simpl; rewrite <- (app_assoc _ [_] [_]);
      apply (Hseal true PlatformCommitDisposition.kCommitted).
  - apply (FailAndCleanup_log _ _ _ _ v0 (t_temporary t)); [done.. |].
    apply (open_log_sealed v0 _ _ _ true PlatformCommitDisposition.kNotCommitted); [| | done].
    + unfold log_of in *. simpl. rewrite <- (app_assoc _ [_] [_]). exact Hrep2.
    + unfold log_of in *. simpl. rewrite <- !(app_assoc (st_platform s).2).
      apply (Hseal true PlatformCommitDisposition.kNotCommitted).
  - split.
    + unfold log_of in *. simpl. rewrite <- (app_assoc _ [_] [_]). exact Hrep2.
    + right. exists (t_temporary t), true, PlatformCommitDisposition.kOutcomeUncertain.
      split; [| done]. unfold log_of in *. simpl. rewrite <- (app_assoc _ [_] [_]).
      apply (Hseal true PlatformCommitDisposition.kOutcomeUncertain).
Qed.

Lemma AbortTx_log v0 t s : tx_ok t -> tx_log v0 t (log_of s) ->
  tx_log v0 (AbortTx t s).1.1 (log_of (AbortTx t s).1.2).
Proof.
  intros Hok Hl. unfold AbortTx. destruct (t_state t) eqn:E; try exact Hl.
  - unfold tx_log in Hl. rewrite E in Hl. destruct Hl as [Hl _].
    change (failed_log v0 (declared_size (t_request t)) (log_of s)). rewrite Hl. apply failed_nil.
  - pose proof (replay_receiving t v0 _ Hok E Hl) as Hrep.
    destruct Hok as [_ Hst]. rewrite E in Hst. destruct Hst as (Ho & _).
    by apply (FailAndCleanup_log _ _ _ _ v0 (t_temporary t)).
Qed.

Fixpoint tx_run (ops : list TxOp) t s : ReceiveTransaction V * Storage (P * list Event) :=
  match ops with
  | [] => (t, s)
  | op :: ops => let '(t, s, _) := tx_call op t s in tx_run ops t s
  end.

Lemma tx_run_inv v0 ops t s : tx_ok t -> tx_log v0 t (log_of s) ->
  tx_ok (tx_run ops t s).1 /\ tx_log v0 (tx_run ops t s).1 (log_of (tx_run ops t s).2) /\
  t_request (tx_run ops t s).1 = t_request t.
Proof.
  revert t s. induction ops as [| op ops IH]; intros t s Hok Hl; [done |].
  pose proof (tx_call_ok op t s Hok) as (Hok' & Hr & _).
  assert (Hl' : tx_log v0 (tx_call op t s).1.1 (log_of (tx_call op t s).1.2))
    by (destruct op; simpl; auto using Begin_log, WriteData_log, SealAndCommit_log, AbortTx_log).
  simpl. destruct (tx_call op t s) as [[t' s'] r]. simpl in *.
  destruct (IH t' s' Hok' Hl') as (? & ? & ?). split; [done |]. split; [done |]. congruence.
Qed.

End Logged.

(** ** Transactions that share a budget *)

Section Shared.
Context {P V : Type} `{PlatformBackend P} `{StreamingIntegrityVerifier V}.

(** Any number of transactions, and their calls in the order the mutexes give
    them: transaction number and operation. *)
Definition system_step (call : nat * TxOp) (sys : list (ReceiveTransaction V) * Storage P)
    : list (ReceiveTransaction V) * Storage P :=
  match sys.1 !! call.1 with
  | None => sys
  | Some t => let '(t, s, _) := tx_call call.2 t sys.2 in (<[call.1 := t]> sys.1, s)
  end.

Definition system_run (calls : list (nat * TxOp)) sys :=
  fold_left (fun sys call => system_step call sys) calls sys.

Fixpoint total_held (ts : list (ReceiveTransaction V)) : Z :=
  match ts with [] => 0 | t :: ts => held t + total_held ts end.

Lemma total_held_insert ts i t t' : ts !! i = Some t ->
  total_held (<[i := t']> ts) = total_held ts - held t + held t'.
Proof.
  revert i. induction ts as [| x ts IH]; intros [| i]; [done | done | intros [= ->]; simpl; lia |].
  intros E. change (held x + total_held (<[i := t']> ts) = held x + total_held ts - held t + held t').
  rewrite (IH i E). lia.
Qed.

Lemma total_held_others ts i t : Forall tx_ok ts -> ts !! i = Some t -> 0 <= total_held ts - held t.
Proof.
  intros Hok. revert i. induction Hok as [| x ts Hx Hok IH]; intros [| i]; simpl; [done | done | |].
  - intros [= ->]. clear IH. enough (0 <= total_held ts) by lia.
    induction Hok as [| y ts Hy Hok IH]; simpl; [done |].
    pose proof (held_range y Hy). lia.
  - intros E. specialize (IH i E). pose proof (held_range x Hx). lia.
Qed.

Definition system_ok (sys : list (ReceiveTransaction V) * Storage P) : Prop :=
  Forall tx_ok sys.1 /\ 0 <= tb_unresolved_bytes (st_budget sys.2) /\
  tb_reserved_bytes (st_budget sys.2)
    = total_held sys.1 + tb_unresolved_bytes (st_budget sys.2) /\
  tb_reserved_bytes (st_budget sys.2) <= tb_limit_bytes (st_budget sys.2) < 2 ^ 64.

Lemma system_step_ok call sys : system_ok sys -> system_ok (system_step call sys).
Proof.
  intros Hok. unfold system_step. destruct (sys.1 !! call.1) as [t |] eqn:E; [| done].
  destruct Hok as (Ht & Hu & Hr & Hl).
  assert (Htx : tx_ok t) by (eapply Forall_lookup_1; eauto).
  pose proof (tx_call_ok call.2 t sys.2 Htx) as (Hok' & _ & Hkeep).
  destruct (tx_call call.2 t sys.2) as [[t' s'] r]. simpl in *.
  pose proof (total_held_others sys.1 call.1 t Ht E) as Ho.
  destruct (Hkeep (total_held sys.1 - held t)) as (_ & Hu' & Hr' & Hl');
    [unfold ledger; split_and!; lia |].
  unfold system_ok. cbn [fst snd]. rewrite (total_held_insert _ _ t) by done.
  split; [by apply Forall_insert |]. simpl in *. lia.
Qed.

Lemma system_run_ok calls sys : system_ok sys -> system_ok (system_run calls sys).
Proof.
  unfold system_run. revert sys. induction calls as [| c calls IH]; intros sys Hok; [done |].
  simpl. by apply IH, system_step_ok.
Qed.

End Shared.

(** A backend and a verifier that always succeed, for the witnesses. *)
Definition Always : Type := unit.
#[local] Instance always_platform : PlatformBackend Always := {|
  CreateTemporary := fun _ _ p => (p, (PlatformError.kNone, 7));
  WriteTemporary := fun _ data p => (p, (PlatformError.kNone, bsize data));
  FlushTemporary := fun _ p => (p, PlatformError.kNone);
  CommitTemporary := fun _ _ p => (p, (PlatformCommitDisposition.kCommitted, PlatformError.kNone));
  CleanupTemporary := fun _ p => (p, PlatformError.kIoFailure);
|}.
#[local] Instance always_verifier : StreamingIntegrityVerifier Always := {|
  Update := fun _ v => (v, true);
  Seal := fun v => (v, true);
|}.

Definition example_request (n : Z) : ValidatedReceiveRequest :=
  {| path := {| utf8 := [97]; components := [[97]] |}; declared_size := n |}.

(** ** Properties *)

(** for every order of calls on a transaction and every behaviour of the
    backend, the transaction uses the backend as it demands: it writes, flushes
    and commits through the one handle it was given, only while that handle is
    open; the handle is open exactly while the transaction receives, so every
    ended transaction has given it back, by a commit or a cleanup, once. *)
Theorem temporary_handle_discipline {P V : Type} `{PlatformBackend P}
    `{StreamingIntegrityVerifier V} (request : ValidatedReceiveRequest) (budget_set : bool)
    (verifier : option V) (budget : TemporaryBudget) (platform : P) (ops : list TxOp)
    (Hsize : in_width 64 (declared_size request)) :
  let r := tx_run ops (MakeTransaction request budget_set verifier)
             {| st_budget := budget; st_platform := (platform, []) |} in
  replay (log_of r.2) = Some (if t_temporary_open r.1 then Some (t_temporary r.1) else None) /\
  (t_temporary_open r.1 = true <-> t_state r.1 = TransactionState.kReceiving).
Proof.
  intros r. destruct (tx_run_inv verifier ops (MakeTransaction request budget_set verifier)
    {| st_budget := budget; st_platform := (platform, []) |}) as ((Hd & Hok) & Hl & _); [done.. |].
  fold r in Hd, Hok, Hl. unfold tx_log in Hl. destruct (t_state r.1) eqn:E.
  - destruct Hok as (-> & _). destruct Hl as [-> _]. done.
  - destruct Hok as (-> & Hne & _). destruct Hl as (ds & v & v1 & _ & _ & -> & _).
    split; [by apply replay_writes | done].
  - destruct Hok as (-> & _). destruct Hl as (h & ds & v & v1 & _ & Hne & -> & _).
    split; [| done]. unfold after_flush. rewrite app_comm_cons.
    rewrite bool_decide_false by done.
    change [EvFlush h true; EvCommit h PlatformCommitDisposition.kCommitted]
      with ([EvFlush h true] ++ [EvCommit h PlatformCommitDisposition.kCommitted]).
    rewrite app_assoc, !replay_snoc, replay_writes by done. cbn [replay_event].
    rewrite Z.eqb_refl. cbn [replay_event]. by rewrite Z.eqb_refl.
  - destruct Hok as (-> & _). by destruct Hl as [-> _].
  - destruct Hok as (-> & _). by destruct Hl as [-> _].
  - destruct Hok as (-> & _). by destruct Hl as [-> _].
Qed.

Lemma temporary_handle_discipline_witness :
  let r := tx_run [OpBegin; OpWrite [1; 2]; OpAbort; OpWrite [3]]
             (MakeTransaction (example_request 3) true (Some (tt : Always)))
             {| st_budget := MakeTemporaryBudget 10; st_platform := (tt : Always, []) |} in
  log_of r.2 = [EvCreate 7 PlatformError.kNone; EvWrite 7 [1; 2] true; EvCleanup 7] /\
  replay (log_of r.2) = Some (if t_temporary_open r.1 then Some (t_temporary r.1) else None).
Proof.
  split; [vm_compute; reflexivity |].
  refine (proj1 (temporary_handle_discipline (example_request 3) true (Some (tt : Always))
    (MakeTemporaryBudget 10) (tt : Always) [OpBegin; OpWrite [1; 2]; OpAbort; OpWrite [3]] _)).
  by split.
Defined.

(** C5: a transaction makes a file visible only after its whole content was
    handled in order.  On every path, either it has called neither the flush
    nor the commit of the backend and is not committed; or the chunks written
    completely to the temporary object add up to the declared size, the verifier
    accepted each one and then sealed successfully, and only then did the
    flush follow, once, and after a successful flush the commit, once, and a
    cleanup exactly when the flush or the commit was refused; and the
    transaction is committed exactly when that commit was. *)
Theorem committed_content_verified {P V : Type} `{PlatformBackend P}
    `{StreamingIntegrityVerifier V} (request : ValidatedReceiveRequest) (budget_set : bool)
    (verifier : option V) (budget : TemporaryBudget) (platform : P) (ops : list TxOp)
    (Hsize : in_width 64 (declared_size request)) :
  let r := tx_run ops (MakeTransaction request budget_set verifier)
             {| st_budget := budget; st_platform := (platform, []) |} in
  (Forall (fun e => finishing e = false) (log_of r.2) /\
   t_state r.1 <> TransactionState.kCommitted) \/
  exists h ok d ds v v1, verifier = Some v /\ h <> 0 /\
    log_of r.2 = EvCreate h PlatformError.kNone :: writes h ds
      ++ EvFlush h ok :: after_flush h ok d /\
    bsize (concat ds) = declared_size request /\
    verified v ds = Some v1 /\ (Seal v1).2 = true /\
    (t_state r.1 = TransactionState.kCommitted <->
     ok = true /\ d = PlatformCommitDisposition.kCommitted).
Proof.
  intros r. destruct (tx_run_inv verifier ops (MakeTransaction request budget_set verifier)
    {| st_budget := budget; st_platform := (platform, []) |}) as (_ & Hl & Hreq); [done.. |].
  fold r in Hl, Hreq. unfold tx_log in Hl. rewrite Hreq in Hl.
  assert (Hcase : (Forall (fun e => finishing e = false) (log_of r.2) /\
     t_state r.1 <> TransactionState.kCommitted) \/
    exists h ok d, sealed_log verifier (declared_size request) h ok d (log_of r.2) /\
      (t_state r.1 = TransactionState.kCommitted <->
       ok = true /\ d = PlatformCommitDisposition.kCommitted)).
  { destruct (t_state r.1) eqn:E.
    4-6: destruct Hl as [_ [Hno | (h & ok & d & Hs & Hd)]]; [by left | right];
      exists h, ok, d; split; [exact Hs |]; split; [done |]; intros [-> ->]; by destruct Hd.
    - left. by destruct Hl as [-> _].
    - left. destruct Hl as (ds & v & v1 & _ & _ & -> & _). split; [| done].
      constructor; [done | apply writes_unfinished].
    - right. destruct Hl as [h Hs]. by exists h, true, PlatformCommitDisposition.kCommitted. }
  destruct Hcase as [Hno | (h & ok & d & (ds & v & v1 & Hv & Hne & Hlog & (Hver & Hs & _) & Hseal) & Hd)];
    [by left | right].
  exists h, ok, d, ds, v, v1. by do 6 (split; [assumption |]).
Qed.

Lemma committed_content_verified_witness :
  let r := tx_run [OpBegin; OpWrite [1; 2]; OpWrite [3]; OpCommit]
             (MakeTransaction (example_request 3) true (Some (tt : Always)))
             {| st_budget := MakeTemporaryBudget 10; st_platform := (tt : Always, []) |} in
  exists h ds, log_of r.2 = EvCreate h PlatformError.kNone :: writes h ds
      ++ [EvFlush h true; EvCommit h PlatformCommitDisposition.kCommitted] /\
    bsize (concat ds) = 3.
Proof.
  destruct (committed_content_verified (example_request 3) true (Some (tt : Always))
    (MakeTemporaryBudget 10) (tt : Always) [OpBegin; OpWrite [1; 2]; OpWrite [3]; OpCommit])
    as [[_ Hc] | (h & ok & d & ds & v & v1 & _ & _ & Hlog & Hsz & _ & _ & Hst)]; [by split | |].
  - exfalso. apply Hc. by vm_compute.
  - destruct (proj1 Hst) as [-> ->]; [by vm_compute |].
    exists h, ds. split; [exact Hlog | exact Hsz].
Defined.

(** when any number of transactions share one temporary budget, in any
    interleaving of their calls the bytes reserved are exactly those of the
    transactions that still hold a reservation plus those of unresolved
    orphans, and never exceed the limit; no release is lost or made twice. *)
Theorem temporary_budget_ledger {P V : Type} `{PlatformBackend P}
    `{StreamingIntegrityVerifier V} (limit : Z) (platform : P)
    (requests : list (ValidatedReceiveRequest * bool * option V)) (calls : list (nat * TxOp))
    (Hlimit : in_width 64 limit)
    (Hsizes : Forall (fun r => in_width 64 (declared_size r.1.1)) requests) :
  let start := List.map (fun r => MakeTransaction r.1.1 r.1.2 r.2) requests in
  let sys := system_run calls (start, {| st_budget := MakeTemporaryBudget limit;
                                         st_platform := platform |}) in
  let b := st_budget sys.2 in
  tb_reserved_bytes b = total_held sys.1 + tb_unresolved_bytes b /\
  0 <= tb_unresolved_bytes b <= tb_reserved_bytes b /\
  tb_reserved_bytes b <= tb_limit_bytes b.
Proof.
  intros start sys b.
  assert (Hstart : Forall tx_ok start /\ total_held start = 0).
  { unfold start. induction Hsizes as [| r rs Hr Hrs [IH1 IH2]]; simpl; [done |].
    split; [constructor; [by split |] |]; done. }
  assert (Hok : system_ok sys).
  { apply system_run_ok. unfold system_ok. simpl. destruct Hstart as [Hs ->].
    split; [done |]. widths. }
  destruct Hok as (Ht & Hu & Hr & Hl).
  assert (0 <= total_held sys.1).
  { clear -Ht. induction Ht as [| t ts Ht Hts IH]; simpl; [done |].
    pose proof (held_range t Ht). lia. }
  fold b in Hu, Hr, Hl. lia.
Qed.

Lemma temporary_budget_ledger_witness :
  let sys := system_run [(0%nat, OpBegin); (1%nat, OpBegin); (0%nat, OpAbort); (1%nat, OpWrite [1])]
     (List.map (fun r => MakeTransaction r.1.1 r.1.2 r.2)
        [(example_request 3, true, Some (tt : Always)); (example_request 5, true, Some (tt : Always))],
      {| st_budget := MakeTemporaryBudget 10; st_platform := tt : Always |}) in
  tb_unresolved_bytes (st_budget sys.2) = 3 /\
  tb_reserved_bytes (st_budget sys.2)
    = total_held sys.1 + tb_unresolved_bytes (st_budget sys.2).
Proof.
  split; [vm_compute; reflexivity |].
  refine (proj1 (temporary_budget_ledger 10 (tt : Always)
    [(example_request 3, true, Some (tt : Always)); (example_request 5, true, Some (tt : Always))]
    [(0%nat, OpBegin); (1%nat, OpBegin); (0%nat, OpAbort); (1%nat, OpWrite [1])] _ _)).
  - by split.
  - repeat constructor; done.
Defined.
