(* ===== verification/Receiver.v ===== *)
(** * The receiving end of a one-file transfer

    [OneFileReceiver] of [native/src/transfer/receiver.cpp].  A method of its
    [Implementation] is a function on [Sys]: the members of the object and the
    world its pointers lead to (the session authority, the message ids and the
    credit of the connection, the temporary budget and the file system backend,
    the integrity provider).  Every public method holds the mutex of the object
    for its whole body.

    Memory: [w_alloc] says, for the calls that allocate, in order, whether the
    allocations of that call succeed (an empty list: they all do).  An encoder
    takes one entry, a handler that copies parts of a frame takes one, and the
    creation of a transaction takes one. *)

From S2P Require Import Prelude.
From S2P Require Import V1Parser.
From S2P Require Import PathValidator.
From S2P Require Import ReceiveTransaction.
From S2P Require Import Transfer.
From S2P Require Import Connection.
From S2P Require Import FrameCodec.
Import MessageType.

Definition kMaximumChunkBodyOverhead : Z := 132.

(** [ManifestVerificationInput]: the manifest and the three raw frames. *)
Record ManifestVerificationInput := {
  mv_manifest : OneFileManifest;
  mv_offer_frame : bytes;
  mv_entry_frame : bytes;
  mv_end_frame : bytes;
}.

(** [TransferIntegrityProvider], an interface; [CreateFileVerifier] returns
    [None] for a null pointer. *)
Class TransferIntegrityProvider (I V : Type) := {
  VerifyManifest : ManifestVerificationInput -> I -> I * bool;
  BuildChunkCommitment : bytes -> Z -> Z -> bytes -> I -> I * option bytes;
  VerifyChunkCommitment : bytes -> Z -> Z -> bytes -> bytes -> I -> I * bool;
  CreateFileVerifier : bytes -> Z -> bytes -> I -> I * option V;
}.

(** ** Tables *)

Definition TransferErrorForTransaction (e : TransactionError.TransactionError)
    : TransferError.TransferError :=
  match e with
  | TransactionError.kNone => TransferError.kNone
  | TransactionError.kTemporaryBudgetExceeded => TransferError.kBusy
  | TransactionError.kNoSpace => TransferError.kNoSpace
  | TransactionError.kIntegrityFailed => TransferError.kIntegrityFailed
  | TransactionError.kInvalidState | TransactionError.kOpenFailed
  | TransactionError.kDataTooLarge | TransactionError.kDataTooShort
  | TransactionError.kWriteFailed | TransactionError.kFlushFailed
  | TransactionError.kCommitFailed | TransactionError.kCleanupUnresolved
  | TransactionError.kOutcomeUncertain => TransferError.kIoFailure
  end.

Definition WireErrorForTransaction (e : TransactionError.TransactionError)
    : WireErrorCode.WireErrorCode :=
  match e with
  | TransactionError.kTemporaryBudgetExceeded => WireErrorCode.kBusy
  | TransactionError.kNoSpace => WireErrorCode.kNoSpace
  | TransactionError.kIntegrityFailed => WireErrorCode.kIntegrityFailed
  | TransactionError.kNone => WireErrorCode.kNone
  | TransactionError.kInvalidState | TransactionError.kOpenFailed
  | TransactionError.kDataTooLarge | TransactionError.kDataTooShort
  | TransactionError.kWriteFailed | TransactionError.kFlushFailed
  | TransactionError.kCommitFailed | TransactionError.kCleanupUnresolved
  | TransactionError.kOutcomeUncertain => WireErrorCode.kIoFailure
  end.

Definition LocalRejectCode (code : WireErrorCode.WireErrorCode) : bool :=
  match code with
  | WireErrorCode.kPolicyRejected | WireErrorCode.kNoSpace | WireErrorCode.kBusy
  | WireErrorCode.kIoFailure => true
  | _ => false
  end.

(** The frames the manifest and the file phases take next. *)
Definition ManifestFrame (manifest_entry_received : bool) (type : MessageType) : bool :=
  if manifest_entry_received then bool_decide (type = kManifestEnd)
  else bool_decide (type = kManifestEntry).

Definition FileFrame (file_begin_received : bool) (type : MessageType) : bool :=
  if file_begin_received then bool_decide (type = kFileChunk) || bool_decide (type = kFileEnd)
  else bool_decide (type = kFileBegin).

Definition AllowedInbound (state : TransferState.TransferState) (type : MessageType)
    (manifest_entry_received file_begin_received : bool)
    (cancel_origin_state : TransferState.TransferState) : bool :=
  if bool_decide (type = kError) then true
  else if bool_decide (type = kCancel) then
    negb (bool_decide (state = TransferState.kCreated))
  else if bool_decide (type = kCancelAck) then
    bool_decide (state = TransferState.kCancelling)
  else match state with
  | TransferState.kCancelling =>
      match cancel_origin_state with
      | TransferState.kReceivingManifest => ManifestFrame manifest_entry_received type
      | TransferState.kReceivingFile => FileFrame file_begin_received type
      | _ => false
      end
  | TransferState.kCreated => bool_decide (type = kTransferOffer)
  | TransferState.kReceivingManifest => ManifestFrame manifest_entry_received type
  | TransferState.kReceivingFile => FileFrame file_begin_received type
  | TransferState.kAwaitingCompletion => bool_decide (type = kTransferComplete)
  | _ => false
  end.

Section Receiver.
Context {A I P V : Type} `{SessionAuthority A} `{TransferIntegrityProvider I V}
  `{PlatformBackend P} `{StreamingIntegrityVerifier V} `{Utf8Proc}.

(** ** State *)

(** The data members of [OneFileReceiver::Implementation]; the pointers are in
    [World].  [Create] refuses a null temporary budget. *)
Record Receiver := {
  rx_context : TransferContext;
  rx_state : TransferState.TransferState;
  rx_cancel_origin_state : TransferState.TransferState;
  rx_manifest : OneFileManifest;
  rx_request : option ValidatedReceiveRequest;
  rx_transaction : option (ReceiveTransaction V);
  rx_raw_offer_frame : bytes;
  rx_raw_entry_frame : bytes;
  rx_raw_end_frame : bytes;
  rx_chunk_size : Z;
  rx_initial_window : Z;
  rx_available_credit : Z;
  rx_last_chunk_size : Z;
  rx_next_offset : Z;
  rx_last_ack_encoded_offset : Z;
  rx_last_ack_written_offset : Z;
  rx_last_now_ms : Z;
  rx_manifest_deadline_ms : Z;
  rx_manifest_progress_deadline_ms : Z;
  rx_decision_deadline_ms : Z;
  rx_data_deadline_ms : Z;
  rx_cancel_deadline_ms : Z;
  rx_manifest_entry_received : bool;
  rx_file_begin_received : bool;
  rx_file_commit_sent : bool;
  rx_completion_ack_pending : bool;
  rx_pending_reject : bool;
  rx_stream_reserved : bool;
  rx_credit_reserved : bool;
  rx_cancel_frame_pending : bool;
  rx_cancel_sent : bool;
  rx_cancel_ack_pending : bool;
  rx_cancel_ack_failure_is_terminal : bool;
  rx_shutdown : bool;
  rx_pending_cancel_ack_code : WireErrorCode.WireErrorCode;
  rx_pending_reject_error : TransferError.TransferError;
  rx_pending_reject_code : WireErrorCode.WireErrorCode;
  rx_pending_reject_retryable : bool;
  rx_terminal_error : TransferError.TransferError;
  rx_terminal_wire_error : WireErrorCode.WireErrorCode;
  rx_terminal_connection_fatal : bool;
  rx_terminal_retryable : bool;
}.

#[global] Instance eta_Receiver : Eta Receiver := fun x =>
  {| rx_context := rx_context x;
     rx_state := rx_state x;
     rx_cancel_origin_state := rx_cancel_origin_state x;
     rx_manifest := rx_manifest x;
     rx_request := rx_request x;
     rx_transaction := rx_transaction x;
     rx_raw_offer_frame := rx_raw_offer_frame x;
     rx_raw_entry_frame := rx_raw_entry_frame x;
     rx_raw_end_frame := rx_raw_end_frame x;
     rx_chunk_size := rx_chunk_size x;
     rx_initial_window := rx_initial_window x;
     rx_available_credit := rx_available_credit x;
     rx_last_chunk_size := rx_last_chunk_size x;
     rx_next_offset := rx_next_offset x;
     rx_last_ack_encoded_offset := rx_last_ack_encoded_offset x;
     rx_last_ack_written_offset := rx_last_ack_written_offset x;
     rx_last_now_ms := rx_last_now_ms x;
     rx_manifest_deadline_ms := rx_manifest_deadline_ms x;
     rx_manifest_progress_deadline_ms := rx_manifest_progress_deadline_ms x;
     rx_decision_deadline_ms := rx_decision_deadline_ms x;
     rx_data_deadline_ms := rx_data_deadline_ms x;
     rx_cancel_deadline_ms := rx_cancel_deadline_ms x;
     rx_manifest_entry_received := rx_manifest_entry_received x;
     rx_file_begin_received := rx_file_begin_received x;
     rx_file_commit_sent := rx_file_commit_sent x;
     rx_completion_ack_pending := rx_completion_ack_pending x;
     rx_pending_reject := rx_pending_reject x;
     rx_stream_reserved := rx_stream_reserved x;
     rx_credit_reserved := rx_credit_reserved x;
     rx_cancel_frame_pending := rx_cancel_frame_pending x;
     rx_cancel_sent := rx_cancel_sent x;
     rx_cancel_ack_pending := rx_cancel_ack_pending x;
     rx_cancel_ack_failure_is_terminal := rx_cancel_ack_failure_is_terminal x;
     rx_shutdown := rx_shutdown x;
     rx_pending_cancel_ack_code := rx_pending_cancel_ack_code x;
     rx_pending_reject_error := rx_pending_reject_error x;
     rx_pending_reject_code := rx_pending_reject_code x;
     rx_pending_reject_retryable := rx_pending_reject_retryable x;
     rx_terminal_error := rx_terminal_error x;
     rx_terminal_wire_error := rx_terminal_wire_error x;
     rx_terminal_connection_fatal := rx_terminal_connection_fatal x;
     rx_terminal_retryable := rx_terminal_retryable x |}.

Record World := {
  w_authority : A;
  w_message_ids : ConnectionMessageSequence;
  w_credit : ConnectionCreditBudget;
  w_storage : Storage P;
  w_integrity : I;
  w_alloc : list bool;
}.

#[global] Instance eta_World : Eta World := fun x =>
  {| w_authority := w_authority x; w_message_ids := w_message_ids x; w_credit := w_credit x;
     w_storage := w_storage x; w_integrity := w_integrity x; w_alloc := w_alloc x |}.

Record Sys := {
  rx : Receiver;
  world : World;
}.

#[global] Instance eta_Sys : Eta Sys := fun x => {| rx := rx x; world := world x |}.

Implicit Types (st : Sys) (r : Receiver).

(** An assignment to members of the object. *)
Definition upd (f : Receiver -> Receiver) st : Sys := st <| rx := f (rx st) |>.

(** The members of a new object. *)
Definition Receiver_initial (context : TransferContext) : Receiver :=
  {| rx_context := context; rx_state := TransferState.kCreated;
     rx_cancel_origin_state := TransferState.kCreated;
     rx_manifest := OneFileManifest_default; rx_request := None; rx_transaction := None;
     rx_raw_offer_frame := []; rx_raw_entry_frame := []; rx_raw_end_frame := [];
     rx_chunk_size := 0; rx_initial_window := 0; rx_available_credit := 0;
     rx_last_chunk_size := 0; rx_next_offset := 0; rx_last_ack_encoded_offset := 0;
     rx_last_ack_written_offset := 0; rx_last_now_ms := 0; rx_manifest_deadline_ms := 0;
     rx_manifest_progress_deadline_ms := 0; rx_decision_deadline_ms := 0;
     rx_data_deadline_ms := 0; rx_cancel_deadline_ms := 0;
     rx_manifest_entry_received := false; rx_file_begin_received := false;
     rx_file_commit_sent := false; rx_completion_ack_pending := false;
     rx_pending_reject := false; rx_stream_reserved := false; rx_credit_reserved := false;
     rx_cancel_frame_pending := false; rx_cancel_sent := false;
     rx_cancel_ack_pending := false; rx_cancel_ack_failure_is_terminal := false;
     rx_shutdown := false; rx_pending_cancel_ack_code := WireErrorCode.kNone;
     rx_pending_reject_error := TransferError.kNone;
     rx_pending_reject_code := WireErrorCode.kNone; rx_pending_reject_retryable := false;
     rx_terminal_error := TransferError.kNone;
     rx_terminal_wire_error := WireErrorCode.kNone;
     rx_terminal_connection_fatal := false; rx_terminal_retryable := false |}.

(** The next entry of the allocation oracle. *)
Definition take_alloc st : Sys * bool :=
  match w_alloc (world st) with
  | [] => (st, true)
  | a :: rest => (st <| world := (world st) <| w_alloc := rest |> |>, a)
  end.

Definition authorized st : bool :=
  Authorized (w_authority (world st)) (rx_context (rx st)).

(** A call of an encoder on the context and the message ids of the object. *)
Definition encode (encoder : bool -> TransferContext -> ConnectionMessageSequence ->
    ConnectionMessageSequence * option bytes) st : Sys * option bytes :=
  let '(st, alloc_ok) := take_alloc st in
  let '(ids, output) := encoder alloc_ok (rx_context (rx st)) (w_message_ids (world st)) in
  (st <| world := (world st) <| w_message_ids := ids |> |>, output).

(** ** Updates, releases and failures *)

(** [Implementation::Update]. *)
Definition CurrentUpdate st : TransferUpdate :=
  let r := rx st in
  TransferUpdate_default
    <| u_state := rx_state r |> <| u_error := rx_terminal_error r |>
    <| u_wire_error := rx_terminal_wire_error r |>
    <| u_terminal := IsTerminal (rx_state r) |>
    <| u_connection_fatal := rx_terminal_connection_fatal r |>
    <| u_retryable := rx_terminal_retryable r |>.

Definition RememberTerminal (error : TransferError.TransferError)
    (wire_error : WireErrorCode.WireErrorCode) (connection_fatal retryable : bool) r
    : Receiver :=
  r <| rx_terminal_error := error |> <| rx_terminal_wire_error := wire_error |>
    <| rx_terminal_connection_fatal := connection_fatal |>
    <| rx_terminal_retryable := retryable |>.

Definition ReleaseCredit st : Sys :=
  if negb (rx_credit_reserved (rx st)) then st
  else
    let st := st <| world := (world st) <| w_credit := Release CreditDirection.kInbound
                                      (rx_initial_window (rx st)) (w_credit (world st)) |> |> in
    upd (fun r => r <| rx_credit_reserved := false |>) st.

Definition ReleaseStream st : Sys :=
  if negb (rx_stream_reserved (rx st)) then st
  else
    let st := st <| world := (world st) <| w_credit := CloseStream (c_stream_id (rx_context (rx st)))
                                      (w_credit (world st)) |> |> in
    upd (fun r => r <| rx_stream_reserved := false |>) st.

(** A call on the transaction: the transaction, the storage and the result. *)
Definition with_transaction (t : ReceiveTransaction V)
    (call : ReceiveTransaction V -> Storage P ->
            ReceiveTransaction V * Storage P * TransactionResult) st
    : Sys * TransactionResult :=
  let '(t, s, result) := call t (w_storage (world st)) in
  (upd (fun r => r <| rx_transaction := Some t |>)
     (st <| world := (world st) <| w_storage := s |> |>), result).

Definition AbortTransaction st : Sys :=
  match rx_transaction (rx st) with
  | None => st
  | Some t => (with_transaction t AbortTx st).1
  end.

Definition DurableCommit st : bool :=
  match rx_transaction (rx st) with
  | None => false
  | Some t => bool_decide (t_state t = TransactionState.kCommitted)
  end.

(** The cancellation members that [Fail] and the other ends reset. *)
Definition reset_cancel r : Receiver :=
  r <| rx_cancel_frame_pending := false |> <| rx_cancel_ack_pending := false |>
    <| rx_cancel_ack_failure_is_terminal := false |> <| rx_cancel_sent := false |>
    <| rx_cancel_deadline_ms := 0 |>.

Definition EncodeError (code : WireErrorCode.WireErrorCode) (retryable : bool)
    (update : TransferUpdate) st : Sys * TransferUpdate :=
  let '(st, output) :=
    encode (fun a c ids => EncodeErrorFrame a c ids code retryable) st in
  (st, match output with Some f => update <| u_outbound_frame := f |> | None => update end).

Definition Fail (error : TransferError.TransferError)
    (wire_error : WireErrorCode.WireErrorCode) (connection_fatal : bool) st
    : Sys * TransferUpdate :=
  let durable_commit := DurableCommit st in
  let st := if durable_commit then st else AbortTransaction st in
  let st := ReleaseStream (ReleaseCredit st) in
  let state := if durable_commit then TransferState.kCommitted else TransferState.kFailed in
  let st := upd (fun r => RememberTerminal error wire_error connection_fatal
                            (WireErrorMayRetry wire_error)
                            ((reset_cancel r) <| rx_state := state |>)) st in
  let update := (FailureUpdate state error wire_error connection_fatal)
                  <| u_retryable := WireErrorMayRetry wire_error |> in
  if negb connection_fatal && negb (bool_decide (wire_error = WireErrorCode.kNone))
     && authorized st then
    EncodeError wire_error (u_retryable update) update st
  else (st, update).

Definition CancelTimeout st : Sys * TransferUpdate :=
  let st := ReleaseStream (ReleaseCredit (AbortTransaction st)) in
  let st := upd (fun r =>
    RememberTerminal TransferError.kTimeout WireErrorCode.kTimeout false false
      (r <| rx_cancel_frame_pending := false |> <| rx_cancel_ack_pending := false |>
         <| rx_cancel_sent := false |> <| rx_cancel_deadline_ms := 0 |>
         <| rx_state := TransferState.kFailed |>)) st in
  let update :=
    FailureUpdate TransferState.kFailed TransferError.kTimeout WireErrorCode.kTimeout false in
  if authorized st then EncodeError WireErrorCode.kTimeout false update st
  else (st, update).

Definition Observe (now_ms : Z) st : Sys * bool :=
  let '(last, ok) := ObserveTime now_ms (rx_last_now_ms (rx st)) in
  (upd (fun r => r <| rx_last_now_ms := last |>) st, ok).

Definition CheckTimeout (now_ms : Z) st : Sys * TransferUpdate :=
  let r := rx st in
  let fail := Fail TransferError.kTimeout WireErrorCode.kTimeout false st in
  match rx_state r with
  | TransferState.kReceivingManifest =>
      if DeadlineReached now_ms (rx_manifest_deadline_ms r)
         || DeadlineReached now_ms (rx_manifest_progress_deadline_ms r) then fail
      else (st, CurrentUpdate st)
  | TransferState.kAwaitingDecision =>
      if DeadlineReached now_ms (rx_decision_deadline_ms r) then fail
      else (st, CurrentUpdate st)
  | TransferState.kRejecting | TransferState.kReceivingFile
  | TransferState.kAwaitingCompletion =>
      if DeadlineReached now_ms (rx_data_deadline_ms r) then fail
      else (st, CurrentUpdate st)
  | TransferState.kCancelling =>
      if rx_cancel_sent r && DeadlineReached now_ms (rx_cancel_deadline_ms r)
      then CancelTimeout st
      else (st, CurrentUpdate st)
  | _ => (st, CurrentUpdate st)
  end.

(** ** Frames this end sends *)

Definition body_of (steps : list (BodyBuilder -> BodyBuilder)) : BodyBuilder :=
  fold_left (fun body step => step body) steps BodyBuilder_default.

Definition EncodeAccept st : Sys * option bytes :=
  let r := rx st in
  encode (fun a c ids => EncodeFrame a c kTransferAccept ids (body_of
    [AddBytes a 1 (m_transfer_id (rx_manifest r)) true;
     AddU32 a 2 (rx_chunk_size r) true;
     AddU32 a 3 (rx_initial_window r) true])) st.

Definition EncodeReject (code : WireErrorCode.WireErrorCode) (retryable : bool) st
    : Sys * option bytes :=
  let r := rx st in
  encode (fun a c ids => EncodeFrame a c kTransferReject ids (body_of
    [AddBytes a 1 (m_transfer_id (rx_manifest r)) true;
     AddU16 a 2 (WireErrorCode.wire_error_value code) true;
     AddBool a 3 retryable true])) st.

Definition EncodeChunkAck st : Sys * option bytes :=
  let r := rx st in
  encode (fun a c ids => EncodeFrame a c kChunkAck ids (body_of
    [AddBytes a 1 (m_transfer_id (rx_manifest r)) true;
     AddU32 a 2 0 true;
     AddU64 a 3 (rx_next_offset r) true;
     AddU32 a 4 (rx_last_chunk_size r) true])) st.

Definition EncodeFileCommit st : Sys * option bytes :=
  let r := rx st in
  encode (fun a c ids => EncodeFrame a c kFileCommit ids (body_of
    [AddBytes a 1 (m_transfer_id (rx_manifest r)) true;
     AddU32 a 2 0 true;
     AddU64 a 3 (m_file_size (rx_manifest r)) true])) st.

Definition EncodeCompleteAck st : Sys * option bytes :=
  let r := rx st in
  encode (fun a c ids => EncodeFrame a c kTransferCompleteAck ids (body_of
    [AddBytes a 1 (m_transfer_id (rx_manifest r)) true;
     AddBytes a 2 (m_manifest_commitment (rx_manifest r)) true])) st.

Definition CachedTerminalCode st : WireErrorCode.WireErrorCode :=
  match rx_state (rx st) with
  | TransferState.kCommitted | TransferState.kCompleted => WireErrorCode.kCompleted
  | TransferState.kCancelled => WireErrorCode.kCancelled
  | _ => if bool_decide (rx_terminal_wire_error (rx st) = WireErrorCode.kNone)
         then WireErrorCode.kCancelled else rx_terminal_wire_error (rx st)
  end.

(** An update that reports a retryable encoding failure. *)
Definition busy_update (update : TransferUpdate) : TransferUpdate :=
  update <| u_error := TransferError.kInternalFailure |>
         <| u_wire_error := WireErrorCode.kBusy |> <| u_retryable := true |>.

(** An update that reports a call the state does not allow. *)
Definition violation_update (update : TransferUpdate) : TransferUpdate :=
  update <| u_error := TransferError.kStateViolation |>
         <| u_wire_error := WireErrorCode.kStateViolation |>.

(** ** Cancellation *)

Definition CancellationEncodingFailure st : Sys * TransferUpdate :=
  if OutboundExhausted (w_message_ids (world st)) then
    let st := upd (fun r => r <| rx_cancel_frame_pending := false |>
                              <| rx_cancel_ack_pending := false |>
                              <| rx_cancel_sent := false |>) st in
    let st := ReleaseStream (ReleaseCredit st) in
    let st := upd (fun r =>
      RememberTerminal TransferError.kMessageIdViolation WireErrorCode.kMessageIdViolation
        true false (r <| rx_state := TransferState.kCancelled |>)) st in
    (st, CurrentUpdate st)
  else (st, busy_update (CurrentUpdate st)).

Definition CancelAckEncodingFailure st : Sys * TransferUpdate :=
  let update := CurrentUpdate st in
  if OutboundExhausted (w_message_ids (world st)) then
    let st := upd (fun r => r <| rx_cancel_ack_pending := false |>) st in
    if rx_cancel_ack_failure_is_terminal (rx st) then
      let st := upd (RememberTerminal TransferError.kMessageIdViolation
                       WireErrorCode.kMessageIdViolation true false) st in
      (st, CurrentUpdate st)
    else
      (st, update <| u_error := TransferError.kMessageIdViolation |>
                  <| u_wire_error := WireErrorCode.kMessageIdViolation |>
                  <| u_connection_fatal := true |>)
  else (st, busy_update update).

Definition EmitCancel st : Sys * TransferUpdate :=
  let update := CurrentUpdate st in
  let '(st, output) :=
    encode (fun a c ids => EncodeCancelFrame a c ids (m_transfer_id (rx_manifest (rx st)))) st in
  match output with
  | None => CancellationEncodingFailure st
  | Some frame =>
      (upd (fun r => r <| rx_cancel_frame_pending := false |> <| rx_cancel_sent := true |>
                       <| rx_cancel_deadline_ms :=
                            CheckedDeadline (rx_last_now_ms r)
                              kCancelAcknowledgementTimeoutMs |>) st,
       update <| u_outbound_frame := frame |>)
  end.

Definition EmitCancelAck st : Sys * TransferUpdate :=
  let update := CurrentUpdate st in
  let '(st, output) :=
    encode (fun a c ids => EncodeCancelAckFrame a c ids (m_transfer_id (rx_manifest (rx st)))
                             (rx_pending_cancel_ack_code (rx st))) st in
  match output with
  | None => CancelAckEncodingFailure st
  | Some frame =>
      (upd (fun r => r <| rx_cancel_ack_pending := false |>
                       <| rx_cancel_ack_failure_is_terminal := false |>) st,
       update <| u_outbound_frame := frame |>)
  end.

Definition FinishCancelled st : Sys * TransferUpdate :=
  let st := upd reset_cancel st in
  let st := ReleaseStream (ReleaseCredit (AbortTransaction st)) in
  let st := upd (fun r =>
    RememberTerminal TransferError.kCancelled WireErrorCode.kCancelled false false
      (r <| rx_state := TransferState.kCancelled |>)) st in
  (st, CurrentUpdate st).

Definition FinishCommitted st : Sys * TransferUpdate :=
  let st := upd reset_cancel st in
  let st := ReleaseStream (ReleaseCredit st) in
  let st := upd (fun r =>
    RememberTerminal TransferError.kNone WireErrorCode.kNone false false
      (r <| rx_state := TransferState.kCommitted |>)) st in
  (st, CurrentUpdate st).

Definition BeginRemoteCancel st : Sys * TransferUpdate :=
  let local_cancel_was_sent := rx_cancel_sent (rx st) in
  let committed := DurableCommit st in
  let '(st, _) := if committed then FinishCommitted st else FinishCancelled st in
  let st := upd (fun r =>
    r <| rx_cancel_sent := local_cancel_was_sent |> <| rx_cancel_ack_pending := true |>
      <| rx_cancel_ack_failure_is_terminal := true |>
      <| rx_pending_cancel_ack_code :=
           if committed then WireErrorCode.kCompleted else WireErrorCode.kCancelled |>) st in
  EmitCancelAck st.

Definition ApplyCancelAck (code : WireErrorCode.WireErrorCode) st : Sys * TransferUpdate :=
  let st := ReleaseStream (ReleaseCredit (upd reset_cancel st)) in
  let finish st state error wire fatal retryable :=
    let st := upd (fun r => RememberTerminal error wire fatal retryable
                              (r <| rx_state := state |>)) st in
    (st, CurrentUpdate st) in
  if bool_decide (code = WireErrorCode.kCompleted) then
    if negb (DurableCommit st) then
      finish (AbortTransaction st) TransferState.kFailed TransferError.kStateViolation
        WireErrorCode.kStateViolation false false
    else
      finish st TransferState.kCompleted TransferError.kNone WireErrorCode.kNone false false
  else if bool_decide (code = WireErrorCode.kCancelled) then
    finish (AbortTransaction st) TransferState.kCancelled TransferError.kCancelled
      WireErrorCode.kCancelled false false
  else if WireErrorIsRejectReason code then
    finish (AbortTransaction st) TransferState.kRejected (TransferErrorForWire code) code
      false (WireErrorMayRetry code)
  else
    finish (AbortTransaction st) TransferState.kFailed (TransferErrorForWire code) code
      (WireErrorIsConnectionFatal code) (WireErrorMayRetry code).

(** ** Pending frames *)

Definition PendingEncodingFailure st : Sys * TransferUpdate :=
  if OutboundExhausted (w_message_ids (world st)) then
    Fail TransferError.kMessageIdViolation WireErrorCode.kMessageIdViolation true st
  else (st, busy_update (CurrentUpdate st)).

Definition EmitPendingReject st : Sys * TransferUpdate :=
  let update := CurrentUpdate st in
  let '(st, output) :=
    EncodeReject (rx_pending_reject_code (rx st)) (rx_pending_reject_retryable (rx st)) st in
  match output with
  | None => PendingEncodingFailure st
  | Some frame =>
      let st := upd (fun r =>
        RememberTerminal (rx_pending_reject_error r) (rx_pending_reject_code r) false
          (rx_pending_reject_retryable r) (r <| rx_state := TransferState.kRejected |>)) st in
      let st := upd (fun r => r <| rx_pending_reject := false |>) (ReleaseStream st) in
      (st, update <| u_outbound_frame := frame |> <| u_state := rx_state (rx st) |>
                  <| u_error := rx_pending_reject_error (rx st) |>
                  <| u_wire_error := rx_pending_reject_code (rx st) |>
                  <| u_terminal := true |>
                  <| u_retryable := rx_pending_reject_retryable (rx st) |>)
  end.

Definition BeginReject (error : TransferError.TransferError)
    (wire_error : WireErrorCode.WireErrorCode) (retryable : bool) (now_ms : Z) st
    : Sys * TransferUpdate :=
  let st := ReleaseCredit (AbortTransaction st) in
  let st := upd (fun r =>
    r <| rx_state := TransferState.kRejecting |> <| rx_pending_reject := true |>
      <| rx_pending_reject_error := error |> <| rx_pending_reject_code := wire_error |>
      <| rx_pending_reject_retryable := retryable |>
      <| rx_data_deadline_ms := CheckedDeadline now_ms kDataProgressTimeoutMs |>) st in
  EmitPendingReject st.

Definition EmitPendingFileCommit st : Sys * TransferUpdate :=
  let update := CurrentUpdate st in
  let '(st, output) := EncodeFileCommit st in
  match output with
  | None => PendingEncodingFailure st
  | Some frame =>
      (upd (fun r => r <| rx_file_commit_sent := true |>) st,
       update <| u_outbound_frame := frame |>)
  end.

Definition EmitPendingCompletionAck st : Sys * TransferUpdate :=
  let update := CurrentUpdate st in
  let '(st, output) := EncodeCompleteAck st in
  match output with
  | None => PendingEncodingFailure st
  | Some frame =>
      let st := upd (fun r => r <| rx_completion_ack_pending := false |>) st in
      let st := ReleaseStream (ReleaseCredit st) in
      let st := upd (fun r =>
        RememberTerminal TransferError.kNone WireErrorCode.kNone false false
          (r <| rx_state := TransferState.kCompleted |>)) st in
      (st, update <| u_outbound_frame := frame |> <| u_state := TransferState.kCompleted |>
                  <| u_terminal := true |>)
  end.

Definition RejectForStorage (result : TransactionError.TransactionError) (now_ms : Z) st
    : Sys * TransferUpdate :=
  let error := TransferErrorForTransaction result in
  let wire_error := WireErrorForTransaction result in
  let retryable :=
    match wire_error with
    | WireErrorCode.kBusy | WireErrorCode.kNoSpace | WireErrorCode.kIoFailure => true
    | _ => false
    end in
  if negb (WireErrorIsRejectReason wire_error) then Fail error wire_error false st
  else BeginReject error wire_error retryable now_ms st.

(** ** Public methods *)

(** [Create]: the new object, or none. *)
Definition Create (context : TransferContext) (budget_set : bool) (w : World)
    (alloc_ok : bool) : option Sys * TransferUpdate :=
  if negb (ValidateContext context false) || negb (Authorized (w_authority w) context)
     || negb budget_set || (b_limit_bytes (w_credit w) =? 0)
     || (b_limit_bytes (w_credit w) >? l_maximum_in_flight (c_limits context))
     || (b_maximum_streams (w_credit w) =? 0)
     || (b_maximum_streams (w_credit w) >? l_maximum_active_streams (c_limits context)) then
    (None, FailureUpdate TransferState.kFailed TransferError.kInvalidArgument
             WireErrorCode.kInvalidOffer false)
  else if negb alloc_ok then
    (None, FailureUpdate TransferState.kFailed TransferError.kInternalFailure
             WireErrorCode.kBusy false)
  else
    let st := {| rx := Receiver_initial context; world := w |} in
    (Some st, CurrentUpdate st).

Definition StateViolation st : Sys * TransferUpdate :=
  Fail TransferError.kStateViolation WireErrorCode.kStateViolation false st.

Definition parse_inbound (encoded : bytes) st : Sys * ParsedTransferFrame :=
  let '(ids, parsed) := ParseInbound (w_authority (world st)) (rx_context (rx st))
                          (w_message_ids (world st)) encoded in
  (st <| world := (world st) <| w_message_ids := ids |> |>, parsed).

Definition same_transfer (fr : ParsedFrame) st : bool :=
  match ReadTransferId fr with
  | None => false
  | Some id => same_bytes id (m_transfer_id (rx_manifest (rx st)))
  end.

(** [ReceiveFrame] in a terminal state. *)
Definition ReceiveTerminal (encoded : bytes) st : Sys * TransferUpdate :=
  let '(st, parsed) := parse_inbound encoded st in
  let update := (CurrentUpdate st) <| u_retryable := false |> <| u_connection_fatal := false |> in
  let refused p := update <| u_error := p_error p |> <| u_wire_error := p_wire_error p |>
                          <| u_connection_fatal := p_connection_fatal p |> in
  if negb (parsed_ok parsed) then (st, refused parsed)
  else
  let '(parsed, body_ok) := ParseBody parsed in
  if negb body_ok then (st, refused parsed)
  else
  let fr := p_frame parsed in
  let type := h_message_type (pf_header fr) in
  let code := DecodeWireError (Unsigned fr 2) in
  if negb (same_transfer fr st) then
    (st, update <| u_error := TransferError.kIdempotencyConflict |>
                <| u_wire_error := WireErrorCode.kIdempotencyConflict |>)
  else if bool_decide (type = kCancel) && bool_decide (code = Some WireErrorCode.kCancelled) then
    let st := upd (fun r =>
      (if rx_cancel_ack_pending r then r
       else r <| rx_cancel_ack_failure_is_terminal := false |>)) st in
    let st := upd (fun r => r <| rx_cancel_ack_pending := true |>
                              <| rx_pending_cancel_ack_code := CachedTerminalCode st |>) st in
    EmitCancelAck st
  else match code with
  | Some code =>
      if bool_decide (type = kCancelAck) && rx_cancel_sent (rx st) then ApplyCancelAck code st
      else (st, violation_update update)
  | None => (st, violation_update update)
  end.

(** The ERROR branch. *)
Definition ReceiveError (fr : ParsedFrame) st : Sys * TransferUpdate :=
  let fatal := negb (Unsigned fr 2 =? 0) in
  let retryable := negb (Unsigned fr 3 =? 0) in
  let malformed := Fail TransferError.kMalformedMessage WireErrorCode.kMalformedMessage false st in
  match DecodeWireError (Unsigned fr 1) with
  | None => malformed
  | Some wire_error =>
      if negb (Bool.eqb fatal (WireErrorIsFatal wire_error))
         || (retryable && negb (WireErrorMayRetry wire_error))
         || (match Field fr 5 with None => false | Some _ => true end
             && (Unsigned fr 5 >? 60000)) then malformed
      else
      let durable_commit := DurableCommit st in
      let st := if durable_commit then st else AbortTransaction st in
      let st := ReleaseStream (ReleaseCredit st) in
      let st := upd (fun r =>
        RememberTerminal (TransferErrorForWire wire_error) wire_error
          (WireErrorIsConnectionFatal wire_error) retryable
          (r <| rx_state := if durable_commit then TransferState.kCommitted
                            else TransferState.kFailed |>)) st in
      (st, CurrentUpdate st)
  end.

(** The exception of a copy that runs out of memory, caught around the
    handlers.  What was copied before it is not kept here: the object is then
    in a terminal state, in which only the transfer id, copied before any
    allocation, is read. *)
Definition OutOfMemory st : Sys * TransferUpdate :=
  Fail TransferError.kInternalFailure WireErrorCode.kBusy false st.

(** TRANSFER_OFFER in the created state. *)
Definition ReceiveOffer (fr : ParsedFrame) (transfer_id : bytes) (now_ms : Z) st
    : Sys * TransferUpdate :=
  if negb (bool_decide (h_message_type (pf_header fr) = kTransferOffer)) then StateViolation st
  else if AllZero transfer_id || negb (Unsigned fr 2 =? 1) || (Unsigned fr 3 >? kMaxFileBytes)
          || negb (ValidCommitment (FieldBytes fr 4)) then
    Fail TransferError.kInvalidOffer WireErrorCode.kInvalidOffer false st
  else
  let st := upd (fun r => r <| rx_manifest := (rx_manifest r)
                                <| m_transfer_id := transfer_id |>
                                <| m_file_size := Unsigned fr 3 |> |>) st in
  let '(st, alloc_ok) := take_alloc st in
  if negb alloc_ok then OutOfMemory st
  else
  let st := upd (fun r =>
    r <| rx_manifest := (rx_manifest r) <| m_manifest_commitment := FieldBytes fr 4 |>
                                        <| m_display_name := FieldBytes fr 5 |> |>
      <| rx_raw_offer_frame := pf_raw fr |>
      <| rx_state := TransferState.kReceivingManifest |>
      <| rx_manifest_deadline_ms := CheckedDeadline now_ms kManifestTimeoutMs |>
      <| rx_manifest_progress_deadline_ms :=
           CheckedDeadline now_ms kManifestProgressTimeoutMs |>) st in
  (st, CurrentUpdate st).

Definition InvalidManifest st : Sys * TransferUpdate :=
  Fail TransferError.kInvalidManifest WireErrorCode.kInvalidManifest false st.

Definition ReceiveManifestEntry (fr : ParsedFrame) (now_ms : Z) st : Sys * TransferUpdate :=
  if negb (bool_decide (h_message_type (pf_header fr) = kManifestEntry))
     || negb (Unsigned fr 2 =? 0) || negb (Unsigned fr 3 =? 1)
     || negb (Unsigned fr 5 =? m_file_size (rx_manifest (rx st)))
     || negb (ValidCommitment (FieldBytes fr 6)) then InvalidManifest st
  else
  match ValidateReceiveRequest (FieldBytes fr 4) (m_file_size (rx_manifest (rx st)))
          kMaxFileBytes with
  | inl _ => InvalidManifest st
  | inr request =>
      let '(st, alloc_ok) := take_alloc st in
      if negb alloc_ok then OutOfMemory st
      else
      let st := upd (fun r =>
        r <| rx_request := Some request |>
          <| rx_manifest := (rx_manifest r) <| m_relative_path := FieldBytes fr 4 |>
                                            <| m_file_commitment := FieldBytes fr 6 |> |>
          <| rx_raw_entry_frame := pf_raw fr |>
          <| rx_manifest_entry_received := true |>
          <| rx_manifest_progress_deadline_ms :=
               CheckedDeadline now_ms kManifestProgressTimeoutMs |>) st in
      (st, CurrentUpdate st)
  end.

Definition ReceiveManifestEnd (fr : ParsedFrame) (now_ms : Z) st : Sys * TransferUpdate :=
  if negb (bool_decide (h_message_type (pf_header fr) = kManifestEnd))
     || negb (Unsigned fr 2 =? 1)
     || negb (Unsigned fr 3 =? m_file_size (rx_manifest (rx st)))
     || negb (same_bytes (FieldBytes fr 4) (m_manifest_commitment (rx_manifest (rx st)))) then
    InvalidManifest st
  else
  let '(st, alloc_ok) := take_alloc st in
  if negb alloc_ok then OutOfMemory st
  else
  let st := upd (fun r => r <| rx_raw_end_frame := pf_raw fr |>) st in
  let r := rx st in
  let verification :=
    {| mv_manifest := rx_manifest r; mv_offer_frame := rx_raw_offer_frame r;
       mv_entry_frame := rx_raw_entry_frame r; mv_end_frame := rx_raw_end_frame r |} in
  let '(integrity, verified) := VerifyManifest verification (w_integrity (world st)) in
  let st := st <| world := (world st) <| w_integrity := integrity |> |> in
  if negb verified then
    Fail TransferError.kIntegrityFailed WireErrorCode.kIntegrityFailed false st
  else
  let st := upd (fun r =>
    r <| rx_state := TransferState.kAwaitingDecision |>
      <| rx_decision_deadline_ms := CheckedDeadline now_ms kDecisionTimeoutMs |>) st in
  (st, (CurrentUpdate st)
         <| u_offer := Some {| o_transfer_id := m_transfer_id (rx_manifest r);
                               o_relative_path := m_relative_path (rx_manifest r);
                               o_file_size := m_file_size (rx_manifest r);
                               o_display_name := m_display_name (rx_manifest r) |} |>).

Definition ReceiveFileBegin (fr : ParsedFrame) st : Sys * TransferUpdate :=
  if negb (bool_decide (h_message_type (pf_header fr) = kFileBegin))
     || negb (Unsigned fr 2 =? 0)
     || negb (Unsigned fr 3 =? m_file_size (rx_manifest (rx st)))
     || negb (Unsigned fr 4 =? rx_chunk_size (rx st)) then StateViolation st
  else
  let st := upd (fun r => r <| rx_file_begin_received := true |>) st in
  (st, CurrentUpdate st).

(** The tests on a FILE_CHUNK frame before its credit and its commitment are
    looked at. *)
Definition ChunkInvalid (fr : ParsedFrame) (r : Receiver) : bool :=
  let data := FieldBytes fr 4 in
  let file_size := m_file_size (rx_manifest r) in
  negb (Unsigned fr 2 =? 0) || negb (Unsigned fr 3 =? rx_next_offset r)
  || (bsize data =? 0) || (bsize data >? rx_chunk_size r)
  || (bsize data >? usub 64 file_size (rx_next_offset r))
  || ((uadd 64 (rx_next_offset r) (bsize data) <? file_size)
      && negb (bsize data =? rx_chunk_size r))
  || negb (ValidCommitment (FieldBytes fr 5)).

(** A receiver of file data has a transaction ([rx_inv] of [ReceiverProofs]), so
    the [None] branches here and in [ReceiveFileEnd] are not reached. *)
Definition ReceiveFileChunk (fr : ParsedFrame) (now_ms : Z) st : Sys * TransferUpdate :=
  let data := FieldBytes fr 4 in
  if ChunkInvalid fr (rx st) then StateViolation st
  else if bsize data >? rx_available_credit (rx st) then
    Fail TransferError.kLimitExceeded WireErrorCode.kLimitExceeded false st
  else
  let '(integrity, verified) :=
    VerifyChunkCommitment (m_transfer_id (rx_manifest (rx st))) 0 (rx_next_offset (rx st))
      data (FieldBytes fr 5) (w_integrity (world st)) in
  let st := st <| world := (world st) <| w_integrity := integrity |> |> in
  if negb verified then
    Fail TransferError.kIntegrityFailed WireErrorCode.kIntegrityFailed false st
  else
  match rx_transaction (rx st) with
  | None => StateViolation st
  | Some t =>
      let '(st, written) := with_transaction t (WriteData data) st in
      if negb (transaction_ok written) then
        Fail (TransferErrorForTransaction (tr_error written))
          (WireErrorForTransaction (tr_error written)) false st
      else
      let st := upd (fun r =>
        r <| rx_available_credit := usub 32 (rx_available_credit r) (u32 (bsize data)) |>
          <| rx_next_offset := uadd 64 (rx_next_offset r) (bsize data) |>
          <| rx_last_chunk_size := u32 (bsize data) |>) st in
      let update := CurrentUpdate st in
      let '(st, output) := EncodeChunkAck st in
      match output with
      | None => Fail TransferError.kInternalFailure WireErrorCode.kBusy false st
      | Some frame =>
          (upd (fun r =>
             r <| rx_last_ack_encoded_offset := rx_next_offset r |>
               <| rx_data_deadline_ms := CheckedDeadline now_ms kDataProgressTimeoutMs |>) st,
           update <| u_outbound_frame := frame |>)
      end
  end.

Definition ReceiveFileEnd (fr : ParsedFrame) (now_ms : Z) st : Sys * TransferUpdate :=
  if negb (Unsigned fr 2 =? 0)
     || negb (Unsigned fr 3 =? m_file_size (rx_manifest (rx st)))
     || negb (rx_next_offset (rx st) =? m_file_size (rx_manifest (rx st)))
     || negb (same_bytes (FieldBytes fr 4) (m_file_commitment (rx_manifest (rx st)))) then
    StateViolation st
  else
  match rx_transaction (rx st) with
  | None => StateViolation st
  | Some t =>
      let '(st, committed) := with_transaction t SealAndCommit st in
      if negb (transaction_ok committed) then
        Fail (TransferErrorForTransaction (tr_error committed))
          (WireErrorForTransaction (tr_error committed)) false st
      else
      let st := upd (fun r =>
        r <| rx_state := TransferState.kAwaitingCompletion |>
          <| rx_data_deadline_ms := CheckedDeadline now_ms kDataProgressTimeoutMs |>) st in
      EmitPendingFileCommit st
  end.

Definition ReceiveComplete (fr : ParsedFrame) (now_ms : Z) st : Sys * TransferUpdate :=
  if negb (rx_file_commit_sent (rx st))
     || negb (bool_decide (h_message_type (pf_header fr) = kTransferComplete))
     || negb (same_bytes (FieldBytes fr 2) (m_manifest_commitment (rx_manifest (rx st)))) then
    StateViolation st
  else
  let st := upd (fun r =>
    r <| rx_completion_ack_pending := true |>
      <| rx_data_deadline_ms := CheckedDeadline now_ms kDataProgressTimeoutMs |>) st in
  EmitPendingCompletionAck st.

(** The frames of the current state, after the error and the cancellation
    frames. *)
Definition ReceiveInState (fr : ParsedFrame) (now_ms : Z) st : Sys * TransferUpdate :=
  let type := h_message_type (pf_header fr) in
  match rx_state (rx st) with
  | TransferState.kCancelling => (st, CurrentUpdate st)
  | TransferState.kReceivingManifest =>
      if negb (rx_manifest_entry_received (rx st)) then ReceiveManifestEntry fr now_ms st
      else ReceiveManifestEnd fr now_ms st
  | TransferState.kReceivingFile =>
      if negb (rx_file_begin_received (rx st)) then ReceiveFileBegin fr st
      else if bool_decide (type = kFileChunk) then ReceiveFileChunk fr now_ms st
      else if bool_decide (type = kFileEnd) then ReceiveFileEnd fr now_ms st
      else StateViolation st
  | TransferState.kAwaitingCompletion => ReceiveComplete fr now_ms st
  | _ => StateViolation st
  end.

(** The body of [ReceiveFrame] from the decoded body on. *)
Definition ReceiveBody (fr : ParsedFrame) (now_ms : Z) st : Sys * TransferUpdate :=
  let type := h_message_type (pf_header fr) in
  if bool_decide (type = kError) then ReceiveError fr st
  else
  match ReadTransferId fr with
  | None => Fail TransferError.kMalformedMessage WireErrorCode.kMalformedMessage false st
  | Some transfer_id =>
      if bool_decide (rx_state (rx st) = TransferState.kCreated) then
        ReceiveOffer fr transfer_id now_ms st
      else if negb (same_bytes transfer_id (m_transfer_id (rx_manifest (rx st)))) then
        Fail TransferError.kIdempotencyConflict WireErrorCode.kIdempotencyConflict false st
      else
      let code := DecodeWireError (Unsigned fr 2) in
      let malformed :=
        Fail TransferError.kMalformedMessage WireErrorCode.kMalformedMessage false st in
      if bool_decide (type = kCancel) then
        if bool_decide (code = Some WireErrorCode.kCancelled) then BeginRemoteCancel st
        else malformed
      else if bool_decide (type = kCancelAck) then
        if negb (rx_cancel_sent (rx st)) then malformed
        else match code with
             | None => malformed
             | Some code => ApplyCancelAck code st
             end
      else ReceiveInState fr now_ms st
  end.

(** The stream is opened by the first frame. *)
Definition OpenOnFirstFrame st : Sys * StreamOpenResult.StreamOpenResult :=
  if negb (rx_stream_reserved (rx st))
     && bool_decide (rx_state (rx st) = TransferState.kCreated) then
    let context := rx_context (rx st) in
    let '(credit, opened) :=
      OpenStream (c_stream_id context) false (c_local_role context) (w_credit (world st)) in
    let st := st <| world := (world st) <| w_credit := credit |> |> in
    if bool_decide (opened = StreamOpenResult.kOpened) then
      (upd (fun r => r <| rx_stream_reserved := true |>) st, opened)
    else (st, opened)
  else (st, StreamOpenResult.kOpened).

Definition update_ok (u : TransferUpdate) : bool := bool_decide (u_error u = TransferError.kNone).

Definition ReceiveFrame (encoded : bytes) (now_ms : Z) st : Sys * TransferUpdate :=
  if rx_shutdown (rx st) then (st, CurrentUpdate st)
  else if IsTerminal (rx_state (rx st)) then ReceiveTerminal encoded st
  else
  let '(st, observed) := Observe now_ms st in
  if negb observed then StateViolation st
  else
  let '(st, parsed) := parse_inbound encoded st in
  if negb (parsed_ok parsed) then
    Fail (p_error parsed) (p_wire_error parsed) (p_connection_fatal parsed) st
  else
  let '(st, opened) := OpenOnFirstFrame st in
  match opened with
  | StreamOpenResult.kCapacityRejected =>
      Fail TransferError.kBusy WireErrorCode.kBusy false st
  | StreamOpenResult.kInvalid => StateViolation st
  | StreamOpenResult.kOpened =>
      let '(st, timeout) := CheckTimeout now_ms st in
      if negb (update_ok timeout) then (st, timeout)
      else
      let type := h_message_type (pf_header (p_frame parsed)) in
      if negb (AllowedInbound (rx_state (rx st)) type (rx_manifest_entry_received (rx st))
                 (rx_file_begin_received (rx st)) (rx_cancel_origin_state (rx st))) then
        StateViolation st
      else
      let '(parsed, body_ok) := ParseBody parsed in
      if negb body_ok then
        Fail (p_error parsed) (p_wire_error parsed) (p_connection_fatal parsed) st
      else ReceiveBody (p_frame parsed) now_ms st
  end.

Definition Unauthenticated st : Sys * TransferUpdate :=
  Fail TransferError.kUnauthenticated WireErrorCode.kNone true st.

Definition NextOutbound (now_ms : Z) st : Sys * TransferUpdate :=
  let r := rx st in
  if rx_shutdown r then (st, CurrentUpdate st)
  else if IsTerminal (rx_state r) && negb (rx_cancel_ack_pending r) then (st, CurrentUpdate st)
  else if negb (bool_decide (rx_state r = TransferState.kRejecting))
          && negb (bool_decide (rx_state r = TransferState.kAwaitingCompletion))
          && negb (bool_decide (rx_state r = TransferState.kCancelling))
          && negb (rx_cancel_ack_pending r) then (st, CurrentUpdate st)
  else
  let '(st, observed) := Observe now_ms st in
  if negb observed then
    if IsTerminal (rx_state (rx st)) then (st, violation_update (CurrentUpdate st))
    else StateViolation st
  else if negb (authorized st) then
    if IsTerminal (rx_state (rx st)) then
      let st := upd (fun r => r <| rx_cancel_ack_pending := false |>) st in
      (st, (CurrentUpdate st) <| u_error := TransferError.kUnauthenticated |>
                              <| u_connection_fatal := true |>)
    else Unauthenticated st
  else if rx_cancel_ack_pending (rx st) then EmitCancelAck st
  else if IsTerminal (rx_state (rx st)) then (st, CurrentUpdate st)
  else
  let '(st, timeout) := CheckTimeout now_ms st in
  if negb (update_ok timeout) then (st, timeout)
  else if bool_decide (rx_state (rx st) = TransferState.kCancelling) then
    if rx_cancel_frame_pending (rx st) then EmitCancel st else (st, CurrentUpdate st)
  else if bool_decide (rx_state (rx st) = TransferState.kRejecting) then EmitPendingReject st
  else if rx_completion_ack_pending (rx st) then EmitPendingCompletionAck st
  else if negb (rx_file_commit_sent (rx st)) then
    let '(st, update) := EmitPendingFileCommit st in
    let st :=
      if bool_decide (u_outbound_frame update = []) then st
      else upd (fun r => r <| rx_data_deadline_ms :=
                                CheckedDeadline now_ms kDataProgressTimeoutMs |>) st in
    (st, update)
  else (st, CurrentUpdate st).

Definition ConfirmChunkAckWritten (next_offset now_ms : Z) st : Sys * TransferUpdate :=
  if IsTerminal (rx_state (rx st)) then (st, CurrentUpdate st)
  else
  let '(st, observed) := Observe now_ms st in
  if negb observed then StateViolation st
  else if negb (authorized st) then Unauthenticated st
  else
  let r := rx st in
  if (negb (bool_decide (rx_state r = TransferState.kReceivingFile))
      && negb (bool_decide (rx_state r = TransferState.kAwaitingCompletion)))
     || (next_offset <=? rx_last_ack_written_offset r)
     || (next_offset >? rx_last_ack_encoded_offset r) then StateViolation st
  else
  let restored := usub 64 next_offset (rx_last_ack_written_offset r) in
  if restored >? usub 32 (rx_initial_window r) (rx_available_credit r) then
    Fail TransferError.kLimitExceeded WireErrorCode.kLimitExceeded false st
  else
  let st := upd (fun r =>
    r <| rx_available_credit := uadd 32 (rx_available_credit r) (u32 restored) |>
      <| rx_last_ack_written_offset := next_offset |>
      <| rx_data_deadline_ms := CheckedDeadline now_ms kDataProgressTimeoutMs |>) st in
  (st, CurrentUpdate st).

(** The tests on the parameters of [Accept]. *)
Definition AcceptParametersInvalid (chunk_size initial_window : Z) (l : TransferLimits) : bool :=
  (chunk_size <? kMinimumChunkSize) || (chunk_size >? kMaximumChunkSize)
  || (l_maximum_body l <=? kMaximumChunkBodyOverhead)
  || (chunk_size >? usub 32 (l_maximum_body l) kMaximumChunkBodyOverhead)
  || (initial_window <? chunk_size) || (initial_window >? kMaximumTransferWindow)
  || (initial_window >? l_maximum_in_flight l).

(** [Accept] from the creation of the transaction on. *)
Definition AcceptBegin (request : ValidatedReceiveRequest) (verifier : V)
    (chunk_size initial_window now_ms : Z) st : Sys * TransferUpdate :=
  let '(st, alloc_ok) := take_alloc st in
  if negb alloc_ok then RejectForStorage TransactionError.kOpenFailed now_ms st
  else
  let t := MakeTransaction request true (Some verifier) in
  let '(st, begun) := with_transaction t Begin st in
  if negb (transaction_ok begun) then RejectForStorage (tr_error begun) now_ms st
  else
  let st := upd (fun r => r <| rx_chunk_size := chunk_size |>
                            <| rx_available_credit := initial_window |>) st in
  let '(st, output) := EncodeAccept st in
  match output with
  | None => Fail TransferError.kInternalFailure WireErrorCode.kBusy false st
  | Some frame =>
      let st := upd (fun r =>
        r <| rx_state := TransferState.kReceivingFile |>
          <| rx_data_deadline_ms := CheckedDeadline now_ms kDataProgressTimeoutMs |>) st in
      (st, TransferUpdate_default <| u_outbound_frame := frame |>
             <| u_state := TransferState.kReceivingFile |>)
  end.

Definition Accept (chunk_size initial_window now_ms : Z) st : Sys * TransferUpdate :=
  let r := rx st in
  if IsTerminal (rx_state r) then (st, CurrentUpdate st)
  else match rx_request r with
  | None => (st, violation_update (CurrentUpdate st))
  | Some request =>
  if bool_decide (rx_state r = TransferState.kReceivingFile) then
    if (rx_chunk_size r =? chunk_size) && (rx_initial_window r =? initial_window)
    then (st, CurrentUpdate st)
    else (st, violation_update (CurrentUpdate st))
  else if negb (bool_decide (rx_state r = TransferState.kAwaitingDecision)) then
    (st, violation_update (CurrentUpdate st))
  else
  let '(st, observed) := Observe now_ms st in
  if negb observed then StateViolation st
  else
  let '(st, timeout) := CheckTimeout now_ms st in
  if negb (update_ok timeout) then (st, timeout)
  else if negb (authorized st) then Unauthenticated st
  else if AcceptParametersInvalid chunk_size initial_window (c_limits (rx_context (rx st))) then
    Fail TransferError.kLimitExceeded WireErrorCode.kLimitExceeded false st
  else
  let '(credit, reserved) :=
    TryReserve CreditDirection.kInbound initial_window (w_credit (world st)) in
  let st := st <| world := (world st) <| w_credit := credit |> |> in
  if negb reserved then
    RejectForStorage TransactionError.kTemporaryBudgetExceeded now_ms st
  else
  let st := upd (fun r => r <| rx_initial_window := initial_window |>
                            <| rx_credit_reserved := true |>) st in
  let '(integrity, verifier) :=
    CreateFileVerifier (m_transfer_id (rx_manifest (rx st))) 0
      (m_file_commitment (rx_manifest (rx st))) (w_integrity (world st)) in
  let st := st <| world := (world st) <| w_integrity := integrity |> |> in
  match verifier with
  | None => RejectForStorage TransactionError.kIntegrityFailed now_ms st
  | Some verifier => AcceptBegin request verifier chunk_size initial_window now_ms st
  end
  end.

Definition Reject (code : WireErrorCode.WireErrorCode) (retryable : bool) (now_ms : Z) st
    : Sys * TransferUpdate :=
  let r := rx st in
  if IsTerminal (rx_state r) then (st, CurrentUpdate st)
  else if bool_decide (rx_state r = TransferState.kRejecting) then
    if rx_pending_reject r && bool_decide (rx_pending_reject_code r = code)
       && Bool.eqb (rx_pending_reject_retryable r) retryable then (st, CurrentUpdate st)
    else (st, violation_update (CurrentUpdate st))
  else if negb (bool_decide (rx_state r = TransferState.kAwaitingDecision))
          || negb (LocalRejectCode code) || (retryable && negb (WireErrorMayRetry code)) then
    (st, violation_update (CurrentUpdate st))
  else
  let '(st, observed) := Observe now_ms st in
  if negb observed then StateViolation st
  else
  let '(st, timeout) := CheckTimeout now_ms st in
  if negb (update_ok timeout) then (st, timeout)
  else if negb (authorized st) then Unauthenticated st
  else BeginReject (TransferErrorForWire code) code retryable now_ms st.

Definition Advance (now_ms : Z) st : Sys * TransferUpdate :=
  if IsTerminal (rx_state (rx st)) then (st, CurrentUpdate st)
  else
  let '(st, observed) := Observe now_ms st in
  if negb observed then StateViolation st
  else if negb (authorized st) then Unauthenticated st
  else CheckTimeout now_ms st.

Definition Cancel (now_ms : Z) st : Sys * TransferUpdate :=
  if IsTerminal (rx_state (rx st)) then (st, CurrentUpdate st)
  else if bool_decide (rx_state (rx st) = TransferState.kCancelling) then (st, CurrentUpdate st)
  else
  let '(st, observed) := Observe now_ms st in
  if negb observed then StateViolation st
  else if DurableCommit st then FinishCommitted st
  else
  let st := AbortTransaction st in
  if bool_decide (rx_state (rx st) = TransferState.kCreated) || negb (authorized st) then
    FinishCancelled st
  else
  let st := upd (fun r =>
    (RememberTerminal TransferError.kNone WireErrorCode.kNone false false
       (r <| rx_cancel_origin_state := rx_state r |>
          <| rx_state := TransferState.kCancelling |>))
      <| rx_cancel_frame_pending := true |> <| rx_cancel_ack_pending := false |>) st in
  EmitCancel st.

(** [Shutdown], which the destructor also calls. *)
Definition Shutdown st : Sys * TransferUpdate :=
  let st := upd (fun r => reset_cancel (r <| rx_shutdown := true |>)) st in
  if IsTerminal (rx_state (rx st)) then (st, CurrentUpdate st)
  else if DurableCommit st then FinishCommitted st else FinishCancelled st.

End Receiver.

Arguments Receiver : clear implicits.
Arguments World : clear implicits.
Arguments Sys : clear implicits.
