(* ===== verification/ReceiverProofs.v ===== *)
(** * Correctness of the receiver

    An invariant of the receiver that every method keeps whatever the
    connection, the storage, the integrity provider and the allocator do
    between and during the calls, and what follows from it: the terminal states
    report what is on disk and hold no resource, the flow-control window is
    conserved, and file data is written only after the offer was accepted. *)

From S2P Require Import Prelude.
From S2P Require Import V1Parser.
From S2P Require Import PathValidator.
From S2P Require Import PathValidatorProofs.
From S2P Require Import ReceiveTransaction.
From S2P Require Import ReceiveTransactionProofs.
From S2P Require Import Transfer.
From S2P Require Import Connection.
From S2P Require Import FrameCodec.
From S2P Require Import FrameCodecProofs.
From S2P Require Import Receiver.
Import MessageType.

Section Invariant.
Context {A I P V : Type} `{CA : SessionAuthority A} `{CI : TransferIntegrityProvider I V}
  `{CP : PlatformBackend P} `{CV : StreamingIntegrityVerifier V} `{CU : Utf8Proc}.
Abbreviation Rx := (Receiver V).
Abbreviation System := (Sys A I P V).
Implicit Types (st : System) (r : Rx).

(** ** The invariant *)

(** The predicates read single members, so that an assignment to another member
    does not change them. *)

Definition durable_tx (tx : option (ReceiveTransaction V)) : bool :=
  match tx with
  | None => false
  | Some t => bool_decide (t_state t = TransactionState.kCommitted)
  end.
Abbreviation durable r := (durable_tx (rx_transaction r)).

(** No transaction that still receives. *)
Definition inactive_tx (tx : option (ReceiveTransaction V)) : Prop :=
  match tx with
  | None => True
  | Some t => tx_terminal (t_state t) = true
  end.
Abbreviation inactive r := (inactive_tx (rx_transaction r)).

(** The facts that hold in every state. *)
Record facts_of (size : Z) (request : option ValidatedReceiveRequest)
    (tx : option (ReceiveTransaction V)) : Prop := {
  fa_size : 0 <= size <= kMaxFileBytes;
  fa_request : forall q, request = Some q -> declared_size q = size;
  fa_transaction : forall t, tx = Some t -> tx_ok t /\ declared_size (t_request t) = size;
}.
Abbreviation facts r :=
  (facts_of (m_file_size (rx_manifest r)) (rx_request r) (rx_transaction r)).

(** Before the file data: no transaction, no credit, no data. *)
Definition idle_of (tx : option (ReceiveTransaction V)) (credit : bool)
    (offset encoded written : Z) : Prop :=
  tx = None /\ credit = false /\ offset = 0 /\ encoded = 0 /\ written = 0.
Abbreviation idle r :=
  (idle_of (rx_transaction r) (rx_credit_reserved r) (rx_next_offset r)
     (rx_last_ack_encoded_offset r) (rx_last_ack_written_offset r)).

(** The window: what was received and not yet acknowledged on the wire and what
    may still be received add up to the initial window. *)
Record flow_of (credit : bool) (chunk window available offset encoded written size : Z)
    : Prop := {
  fl_credit : credit = true;
  fl_chunk : kMinimumChunkSize <= chunk <= window;
  fl_window : window <= kMaximumTransferWindow;
  fl_available : 0 <= available;
  fl_balance : available + (offset - written) = window;
  fl_written : 0 <= written <= offset;
  fl_encoded : encoded = offset;
  fl_offset : offset <= size;
}.
Abbreviation flow r :=
  (flow_of (rx_credit_reserved r) (rx_chunk_size r) (rx_initial_window r)
     (rx_available_credit r) (rx_next_offset r) (rx_last_ack_encoded_offset r)
     (rx_last_ack_written_offset r) (m_file_size (rx_manifest r))).

(** The terminal states that report a file on disk. *)
Definition success (state : TransferState.TransferState) : bool :=
  match state with
  | TransferState.kCommitted | TransferState.kCompleted => true
  | _ => false
  end.

Definition in_state r : Prop :=
  match rx_state r with
  | TransferState.kCreated => idle r /\ rx_request r = None
  | TransferState.kReceivingManifest => idle r
  | TransferState.kAwaitingDecision => idle r
  | TransferState.kRejecting =>
      inactive r /\ durable r = false /\ rx_credit_reserved r = false
  | TransferState.kReceivingFile =>
      flow r /\ exists t, rx_transaction r = Some t /\
        t_state t = TransactionState.kReceiving /\ t_received_bytes t = rx_next_offset r
  | TransferState.kAwaitingCompletion =>
      flow r /\ durable r = true /\ rx_next_offset r = m_file_size (rx_manifest r)
  | TransferState.kCancelling => inactive r /\ durable r = false
  | TransferState.kCommitted | TransferState.kCompleted | TransferState.kCancelled
  | TransferState.kRejected | TransferState.kFailed =>
      inactive r /\ rx_credit_reserved r = false /\ rx_stream_reserved r = false /\
      durable r = success (rx_state r)
  | _ => False
  end.

(** A cancel of this end is outstanding only after the transaction ended
    without a commit. *)
Definition cancel_ok r : Prop :=
  rx_cancel_sent r = true ->
  durable r = false /\
  (rx_state r = TransferState.kCancelling \/ IsTerminal (rx_state r) = true).

Definition rx_inv r : Prop := facts r /\ cancel_ok r /\ in_state r.

(** The invariant in a terminal state. *)
Definition ended r : Prop := rx_inv r /\ IsTerminal (rx_state r) = true.

(** ** Primitives *)

Lemma rx_upd f st : rx (upd f st) = f (rx st).
Proof. done. Qed.

Lemma rx_world w st : rx (st <| world := w |>) = rx st.
Proof. done. Qed.

Lemma DurableCommit_durable st : DurableCommit st = durable (rx st).
Proof. done. Qed.

Lemma rx_take_alloc st : rx (take_alloc st).1 = rx st.
Proof. unfold take_alloc. by destruct (w_alloc (world st)). Qed.

Lemma rx_encode f st : rx (encode f st).1 = rx st.
Proof.
  unfold encode. pose proof (rx_take_alloc st). destruct (take_alloc st) as [st' a].
  by destruct (f _ _ _).
Qed.

Lemma rx_ReleaseCredit st :
  rx (ReleaseCredit st) = (rx st) <| rx_credit_reserved := false |>.
Proof.
  unfold ReleaseCredit. destruct (rx_credit_reserved (rx st)) eqn:E; simpl; [done |].
  destruct (rx st). simpl in E. by subst.
Qed.

Lemma rx_ReleaseStream st :
  rx (ReleaseStream st) = (rx st) <| rx_stream_reserved := false |>.
Proof.
  unfold ReleaseStream. destruct (rx_stream_reserved (rx st)) eqn:E; simpl; [done |].
  destruct (rx st). simpl in E. by subst.
Qed.

(** What [Abort] leaves of the transaction. *)
Definition aborted (old new : option (ReceiveTransaction V)) : Prop :=
  match old with
  | None => new = None
  | Some t => exists t', new = Some t' /\ t_request t' = t_request t /\
      (tx_ok t -> tx_ok t' /\ tx_terminal (t_state t') = true) /\
      (t_state t' = TransactionState.kCommitted <-> t_state t = TransactionState.kCommitted)
  end.

Lemma AbortTx_aborted (t : ReceiveTransaction V) (s : Storage P) :
  tx_ok t -> aborted (Some t) (Some (AbortTx t s).1.1).
Proof.
  intros Hok. exists (AbortTx t s).1.1. split; [done |].
  destruct (AbortTx_ok t s Hok) as (H1 & H2 & _). split; [done |].
  unfold AbortTx in *. destruct (t_state t) eqn:E; simpl in *; try (by rewrite ?E).
  destruct Hok as [Hd Hst]. rewrite E in Hst. destruct Hst as (_ & _ & Hh & _).
  destruct (FailAndCleanup_spec TransactionError.kNone PlatformError.kNone t s Hd)
    as (_ & H3 & H4 & _); [done |]. split; [done |]. split; [by intros ?%H4 | done].
Qed.

Lemma rx_AbortTransaction st : facts (rx st) ->
  exists tx, rx (AbortTransaction st) = (rx st) <| rx_transaction := tx |> /\
    aborted (rx_transaction (rx st)) tx.
Proof.
  intros Hf. unfold AbortTransaction. destruct (rx_transaction (rx st)) as [t |] eqn:E.
  - destruct (fa_transaction _ _ _ Hf t eq_refl) as [Hok _].
    pose proof (AbortTx_aborted t (w_storage (world st)) Hok) as Ha.
    unfold with_transaction. destruct (AbortTx t _) as [[t' s'] res]. simpl in *.
    exists (Some t'). done.
  - exists None. split; [| done]. destruct (rx st). simpl in E. by subst.
Qed.

(** Facts survive a change of the transaction by an abort. *)
Lemma aborted_facts size request tx tx' : facts_of size request tx -> aborted tx tx' ->
  facts_of size request tx' /\ inactive_tx tx' /\ durable_tx tx' = durable_tx tx.
Proof.
  intros [Hs Hq Ht] Ha. unfold aborted in Ha. unfold inactive_tx, durable_tx.
  destruct tx as [t |].
  - destruct Ha as (t' & -> & Hr & Hok & Hc). destruct (Ht t eq_refl) as [Htx Hd].
    destruct (Hok Htx) as [Htx' Hterm]. split; [| split; [done |]].
    + split; [done | done |]. intros x [= <-]. split; [done |]. by rewrite Hr.
    + apply bool_decide_ext, Hc.
  - subst tx'. done.
Qed.

Lemma durable_inactive tx : durable_tx tx = true -> inactive_tx tx.
Proof. destruct tx as [t |]; [| done]. simpl. by intros ->%bool_decide_eq_true. Qed.

(** ** Ends *)

(** The terminal states: what has to be shown of one. *)
Lemma ended_intro r :
  facts r -> inactive r -> rx_credit_reserved r = false -> rx_stream_reserved r = false ->
  IsTerminal (rx_state r) = true -> durable r = success (rx_state r) ->
  (rx_cancel_sent r = true -> durable r = false) -> ended r.
Proof.
  intros Hf Hi Hc Hs Ht Hd Hcs. split; [| done]. split; [done |]. split.
  - intros Hsent. split; [by apply Hcs | by right].
  - unfold in_state. by destruct (rx_state r).
Qed.

Lemma rx_EncodeError c retry u st : rx (EncodeError c retry u st).1 = rx st.
Proof.
  unfold EncodeError.
  pose proof (rx_encode (fun a x ids => EncodeErrorFrame a x ids c retry) st) as Hx.
  by destruct (encode _ st).
Qed.

Lemma Fail_ended e w f st : facts (rx st) -> ended (rx (Fail e w f st).1).
Proof.
  intros Hf. unfold Fail. rewrite DurableCommit_durable.
  set (st1 := if durable (rx st) then st else AbortTransaction st).
  assert (Hst1 : facts (rx st1) /\ inactive (rx st1) /\ durable (rx st1) = durable (rx st)).
  { unfold st1. destruct (durable (rx st)) eqn:Ed; [auto using durable_inactive |].
    destruct (rx_AbortTransaction st Hf) as (tx & -> & Ha). rewrite <- Ed.
    exact (aborted_facts _ _ _ _ Hf Ha). }
  destruct Hst1 as (Hf1 & Hi1 & Hd1).
  match goal with |- ended (rx (if ?c then _ else (?s, _)).1) =>
    assert (Hrx : ended (rx s)) end.
  { simpl. rewrite rx_ReleaseStream, rx_ReleaseCredit.
    apply ended_intro; simpl; auto; [by destruct (durable (rx st)) | | done].
    rewrite Hd1. by destruct (durable (rx st)). }
  destruct (_ && authorized _); [| exact Hrx]. by rewrite rx_EncodeError.
Qed.

Lemma CancelTimeout_ended st :
  facts (rx st) -> durable (rx st) = false -> ended (rx (CancelTimeout st).1).
Proof.
  intros Hf Hd. unfold CancelTimeout.
  destruct (rx_AbortTransaction st Hf) as (tx & Ha & Hab).
  destruct (aborted_facts _ _ _ _ Hf Hab) as (Hf1 & Hi1 & Hd1).
  match goal with |- ended (rx (if ?c then _ else (?s, _)).1) =>
    assert (Hrx : ended (rx s)) end.
  { simpl. rewrite rx_ReleaseStream, rx_ReleaseCredit, Ha.
    apply ended_intro; simpl; auto; congruence. }
  destruct (authorized _); [| exact Hrx]. by rewrite rx_EncodeError.
Qed.

Lemma FinishCancelled_ended st :
  facts (rx st) -> durable (rx st) = false -> ended (rx (FinishCancelled st).1).
Proof.
  intros Hf Hd. unfold FinishCancelled.
  destruct (rx_AbortTransaction (upd reset_cancel st) Hf) as (tx & Ha & Hab).
  destruct (aborted_facts _ _ _ _ Hf Hab) as (Hf1 & Hi1 & Hd1).
  simpl. rewrite rx_ReleaseStream, rx_ReleaseCredit, Ha.
  apply ended_intro; simpl; auto; congruence.
Qed.

Lemma FinishCommitted_ended st :
  facts (rx st) -> durable (rx st) = true -> ended (rx (FinishCommitted st).1).
Proof.
  intros Hf Hd. unfold FinishCommitted. simpl. rewrite rx_ReleaseStream, rx_ReleaseCredit.
  apply ended_intro; simpl; auto using durable_inactive; congruence.
Qed.

(** ** Calls that keep the invariant *)

(** The members the invariant reads. *)
Definition static r :=
  (rx_state r, m_file_size (rx_manifest r), rx_request r, rx_transaction r,
   (rx_credit_reserved r, rx_stream_reserved r),
   (rx_chunk_size r, rx_initial_window r, rx_available_credit r),
   (rx_next_offset r, rx_last_ack_encoded_offset r, rx_last_ack_written_offset r)).
Definition core r := (static r, rx_cancel_sent r).

Lemma inv_static r r' : static r' = static r ->
  (rx_cancel_sent r' = true -> durable r = false /\
     (rx_state r = TransferState.kCancelling \/ IsTerminal (rx_state r) = true)) ->
  rx_inv r -> rx_inv r'.
Proof.
  unfold static. intros E. injection E as E1 E2 E3 E4 E5 E6 E7 E8 E9 E10 E11 E12.
  unfold rx_inv, cancel_ok, in_state. rewrite E1, E2, E3, E4, E5, E6, E7, E8, E9, E10, E11, E12.
  intros Hc (Hf & _ & Hs). done.
Qed.

Lemma inv_core r r' : core r' = core r -> rx_inv r -> rx_inv r'.
Proof.
  intros E Hi. pose proof (f_equal fst E) as Es. pose proof (f_equal snd E) as Ec.
  cbn [fst snd core] in Es, Ec. apply (inv_static r); [exact Es | | done].
  rewrite Ec. apply Hi.
Qed.

Lemma static_state r r' : static r' = static r -> rx_state r' = rx_state r.
Proof. unfold static. intros E. by injection E. Qed.

Lemma ended_core r r' : core r' = core r -> ended r -> ended r'.
Proof.
  intros E [Hi Ht]. split; [by apply (inv_core r) |].
  pose proof (f_equal fst E) as Es. cbn [fst core] in Es. by rewrite (static_state r).
Qed.

Lemma inv_facts r : rx_inv r -> facts r.
Proof. by intros [? _]. Qed.

Lemma ended_inv r : ended r -> rx_inv r.
Proof. by intros [? _]. Qed.

#[local] Hint Resolve Fail_ended inv_facts ended_inv : xnn.

Lemma Fail_inv e w f st : facts (rx st) -> rx_inv (rx (Fail e w f st).1).
Proof. auto with xnn. Qed.

#[local] Hint Resolve Fail_inv : xnn.

(** The updates of a failure report it. *)
Lemma Fail_update e w f st : u_error (Fail e w f st).2 = e.
Proof.
  unfold Fail. destruct (_ && _); [| done]. unfold EncodeError.
  destruct (encode _ _) as [s [o |]]; done.
Qed.

Lemma CancelTimeout_update st : u_error (CancelTimeout st).2 = TransferError.kTimeout.
Proof.
  unfold CancelTimeout. destruct (authorized _); [| done]. unfold EncodeError.
  by destruct (encode _ _) as [s [o |]].
Qed.

Lemma Observe_core now st : core (rx (Observe now st).1) = core (rx st).
Proof. unfold Observe. by destruct (ObserveTime _ _). Qed.

Lemma Observe_inv now st : rx_inv (rx st) -> rx_inv (rx (Observe now st).1).
Proof. apply inv_core, Observe_core. Qed.

Lemma CheckTimeout_spec now st : rx_inv (rx st) ->
  CheckTimeout now st = (st, CurrentUpdate st) \/
  (ended (rx (CheckTimeout now st).1) /\ update_ok (CheckTimeout now st).2 = false).
Proof.
  intros Hi. pose proof Hi as (Hf & _ & Hs). unfold CheckTimeout, update_ok.
  assert (Hfail : ended (rx (Fail TransferError.kTimeout WireErrorCode.kTimeout false st).1) /\
    bool_decide (u_error (Fail TransferError.kTimeout WireErrorCode.kTimeout false st).2
                 = TransferError.kNone) = false)
    by (split; [by apply Fail_ended | by rewrite Fail_update]).
  unfold in_state in Hs. destruct (rx_state (rx st)); try (by left).
  all: match goal with |- context [if ?c then _ else _] => destruct c end;
    [right; try exact Hfail | by left].
  split; [apply CancelTimeout_ended; [done | apply Hs] | by rewrite CancelTimeout_update].
Qed.

Lemma rx_EncodeReject c b st : rx (EncodeReject c b st).1 = rx st.
Proof. apply rx_encode. Qed.
Lemma rx_EncodeFileCommit st : rx (EncodeFileCommit st).1 = rx st.
Proof. apply rx_encode. Qed.
Lemma rx_EncodeCompleteAck st : rx (EncodeCompleteAck st).1 = rx st.
Proof. apply rx_encode. Qed.
Lemma rx_EncodeChunkAck st : rx (EncodeChunkAck st).1 = rx st.
Proof. apply rx_encode. Qed.
Lemma rx_EncodeAccept st : rx (EncodeAccept st).1 = rx st.
Proof. apply rx_encode. Qed.

Lemma EmitCancelAck_core st : core (rx (EmitCancelAck st).1) = core (rx st).
Proof.
  unfold EmitCancelAck.
  match goal with |- context [encode ?f st] =>
    pose proof (rx_encode f st) as Hx; destruct (encode f st) as [st1 [o |]] end;
    simpl in Hx.
  - by rewrite <- Hx.
  - unfold CancelAckEncodingFailure. destruct (OutboundExhausted _); [| by rewrite <- Hx].
    destruct (rx_cancel_ack_failure_is_terminal _); by rewrite <- Hx.
Qed.

Lemma EmitCancel_inv st :
  facts (rx st) -> rx_state (rx st) = TransferState.kCancelling ->
  inactive (rx st) -> durable (rx st) = false -> rx_inv (rx (EmitCancel st).1).
Proof.
  intros Hf Hs Hia Hd. unfold EmitCancel.
  match goal with |- context [encode ?f st] =>
    pose proof (rx_encode f st) as Hx; destruct (encode f st) as [st1 [o |]] end; simpl in Hx.
  - simpl. rewrite Hx. split; [done |]. split; [by intros _; split; [| left] |].
    unfold in_state. simpl. by rewrite Hs.
  - unfold CancellationEncodingFailure. destruct (OutboundExhausted _).
    + simpl. rewrite rx_ReleaseStream, rx_ReleaseCredit. apply ended_inv.
      apply ended_intro; simpl; rewrite ?Hx; auto.
    + simpl. rewrite Hx. split; [done |]. split; [by intros _; split; [| left] |].
      unfold in_state. by rewrite Hs.
Qed.

Lemma FinishCommitted_tx st :
  rx_transaction (rx (FinishCommitted st).1) = rx_transaction (rx st).
Proof.
  unfold FinishCommitted. cbn [fst]. rewrite !rx_upd, rx_ReleaseStream, rx_ReleaseCredit, rx_upd.
  by destruct (rx st).
Qed.

Lemma FinishCancelled_state st :
  rx_state (rx (FinishCancelled st).1) = TransferState.kCancelled.
Proof. unfold FinishCancelled. cbn [fst]. by rewrite rx_upd. Qed.

Lemma ended_durable r : ended r -> durable r = success (rx_state r).
Proof. intros [(_ & _ & Hin) Ht]. unfold in_state in Hin. destruct (rx_state r); try done; apply Hin. Qed.

Lemma Finish_ended st : facts (rx st) ->
  let fin := if durable (rx st) then FinishCommitted st else FinishCancelled st in
  ended (rx fin.1) /\ durable (rx fin.1) = durable (rx st).
Proof.
  intros Hf. cbv zeta. destruct (durable (rx st)) eqn:Ed.
  - split; [by apply FinishCommitted_ended |]. by rewrite FinishCommitted_tx.
  - pose proof (FinishCancelled_ended st Hf Ed) as He. split; [exact He |].
    by rewrite (ended_durable _ He), FinishCancelled_state.
Qed.

(** An update of other members keeps what the invariant reads. *)
Ltac same_static := let r := fresh in
  match goal with |- static _ = static ?x => generalize x end; intros r; by destruct r.
Ltac same_core := let r := fresh in
  match goal with |- core _ = core ?x => generalize x end; intros r; by destruct r.

Lemma BeginRemoteCancel_inv st : rx_inv (rx st) -> rx_inv (rx (BeginRemoteCancel st).1).
Proof.
  intros (Hf & Hc & _). unfold BeginRemoteCancel.
  rewrite DurableCommit_durable.
  pose proof (Finish_ended st Hf) as Hfin. cbv zeta in Hfin.
  destruct (if durable (rx st) then _ else _) as [st1 u]. destruct Hfin as [[Hi1 Ht1] Hd1].
  cbn [fst] in *.
  eapply inv_core; [apply EmitCancelAck_core |]. rewrite rx_upd.
  apply (inv_static (rx st1)); [same_static | | exact Hi1].
  intros Hsent. destruct (Hc Hsent) as [Hd _]. split; [congruence | by right].
Qed.

Lemma ApplyCancelAck_ended code st :
  facts (rx st) -> durable (rx st) = false ->
  ended (rx (ApplyCancelAck code st).1) /\ durable (rx (ApplyCancelAck code st).1) = false.
Proof.
  intros Hf Hd. unfold ApplyCancelAck.
  assert (Hst1 : rx (ReleaseStream (ReleaseCredit (upd reset_cancel st))) =
            (reset_cancel (rx st)) <| rx_credit_reserved := false |>
                                   <| rx_stream_reserved := false |>)
    by (by rewrite rx_ReleaseStream, rx_ReleaseCredit).
  generalize dependent (ReleaseStream (ReleaseCredit (upd reset_cancel st))). intros st1 Hst1.
  assert (Hf1 : facts (rx st1)) by (rewrite Hst1; exact Hf).
  assert (Hd1 : durable (rx st1) = false) by (rewrite Hst1; exact Hd).
  destruct (rx_AbortTransaction st1 Hf1) as (tx & Ha & Hab).
  destruct (aborted_facts _ _ _ _ Hf1 Hab) as (Hf2 & Hi2 & Hd2).
  rewrite DurableCommit_durable, Hd1. cbn [negb].
  assert (Hend : forall state e w f rt, IsTerminal state = true -> success state = false ->
    let r' := rx (upd (fun r => RememberTerminal e w f rt (r <| rx_state := state |>))
                    (AbortTransaction st1)) in
    ended r' /\ durable r' = false).
  { intros state e w f rt Ht Hs. cbv zeta. rewrite rx_upd, Ha.
    generalize dependent (AbortTransaction st1). intros st2 _.
    assert (Hcr : rx_credit_reserved (rx st1) = false) by (by rewrite Hst1).
    assert (Hsr : rx_stream_reserved (rx st1) = false) by (by rewrite Hst1).
    clear Hst1. generalize dependent (rx st1). intros r. intros.
    split; [apply ended_intro; simpl; auto; congruence | exact (eq_trans Hd2 Hd1)]. }
  destruct (bool_decide (code = WireErrorCode.kCompleted)); [by apply Hend |].
  destruct (bool_decide (code = WireErrorCode.kCancelled)); [by apply Hend |].
  destruct (WireErrorIsRejectReason code); by apply Hend.
Qed.

(** Outside cancellation no cancel is outstanding. *)
Lemma inv_cancel_unsent r : rx_inv r ->
  rx_state r <> TransferState.kCancelling -> IsTerminal (rx_state r) = false ->
  rx_cancel_sent r = false.
Proof.
  intros (_ & Hc & _) Hn Ht. destruct (rx_cancel_sent r) eqn:E; [| done].
  destruct (Hc E) as [_ [|]]; congruence.
Qed.

Lemma inv_intro r : facts r -> rx_cancel_sent r = false -> in_state r -> rx_inv r.
Proof. intros Hf Hc Hs. split; [done |]. split; [by intros E; congruence | done]. Qed.

(** ** Pending frames *)

Lemma PendingEncodingFailure_inv st :
  rx_inv (rx st) -> rx_inv (rx (PendingEncodingFailure st).1).
Proof. intros Hi. unfold PendingEncodingFailure. destruct (OutboundExhausted _); auto with xnn. Qed.

#[local] Hint Resolve PendingEncodingFailure_inv : xnn.

Lemma EmitPendingReject_inv st :
  rx_inv (rx st) -> rx_state (rx st) = TransferState.kRejecting ->
  rx_inv (rx (EmitPendingReject st).1).
Proof.
  intros Hi Hs. unfold EmitPendingReject.
  pose proof (rx_EncodeReject (rx_pending_reject_code (rx st))
    (rx_pending_reject_retryable (rx st)) st) as Hx.
  destruct (EncodeReject _ _ st) as [st1 [frame |]]; cbn [fst] in *;
    [| apply PendingEncodingFailure_inv; by rewrite Hx].
  rewrite rx_upd, rx_ReleaseStream, rx_upd, Hx. clear Hx.
  generalize dependent (rx st). intros r Hi Hs.
  pose proof (inv_cancel_unsent r Hi) as Hu. rewrite Hs in Hu.
  destruct Hi as (Hf & _ & Hin). unfold in_state in Hin. rewrite Hs in Hin.
  destruct Hin as (Hia & Hd & Hcr).
  apply ended_inv, ended_intro; simpl; auto.
Qed.

Lemma BeginReject_inv e w retry now st :
  facts (rx st) -> durable (rx st) = false -> rx_cancel_sent (rx st) = false ->
  rx_inv (rx (BeginReject e w retry now st).1).
Proof.
  intros Hf Hd Hu. unfold BeginReject.
  destruct (rx_AbortTransaction st Hf) as (tx & Ha & Hab).
  destruct (aborted_facts _ _ _ _ Hf Hab) as (Hf1 & Hi1 & Hd1).
  apply EmitPendingReject_inv; rewrite rx_upd; [| by rewrite rx_ReleaseCredit, Ha].
  rewrite rx_ReleaseCredit, Ha. clear Ha. generalize dependent (rx st). intros r. intros.
  apply inv_intro; [done | done |]. unfold in_state. simpl.
  split; [exact Hi1 |]. split; [exact (eq_trans Hd1 Hd) | reflexivity].
Qed.

Lemma RejectForStorage_inv e now st :
  facts (rx st) -> durable (rx st) = false -> rx_cancel_sent (rx st) = false ->
  rx_inv (rx (RejectForStorage e now st).1).
Proof.
  intros Hf Hd Hu. unfold RejectForStorage.
  destruct (negb _); [auto with xnn | by apply BeginReject_inv].
Qed.

Lemma EmitPendingFileCommit_inv st :
  rx_inv (rx st) -> rx_inv (rx (EmitPendingFileCommit st).1).
Proof.
  intros Hi. unfold EmitPendingFileCommit. pose proof (rx_EncodeFileCommit st) as Hx.
  destruct (EncodeFileCommit st) as [st1 [frame |]]; cbn [fst] in *; rewrite <- Hx in Hi;
    [| by apply PendingEncodingFailure_inv].
  rewrite rx_upd. apply (inv_core (rx st1)); [same_core | done].
Qed.

Lemma EmitPendingCompletionAck_inv st :
  rx_inv (rx st) -> rx_state (rx st) = TransferState.kAwaitingCompletion ->
  rx_inv (rx (EmitPendingCompletionAck st).1).
Proof.
  intros Hi Hs. unfold EmitPendingCompletionAck. pose proof (rx_EncodeCompleteAck st) as Hx.
  destruct (EncodeCompleteAck st) as [st1 [frame |]]; cbn [fst] in *; rewrite <- Hx in Hi, Hs;
    [| by apply PendingEncodingFailure_inv].
  rewrite rx_upd, rx_ReleaseStream, rx_ReleaseCredit, rx_upd. clear Hx.
  generalize dependent (rx st1). intros r Hi Hs.
  pose proof (inv_cancel_unsent r Hi) as Hu. rewrite Hs in Hu.
  destruct Hi as (Hf & _ & Hin). unfold in_state in Hin. rewrite Hs in Hin.
  destruct Hin as (_ & Hd & _).
  apply ended_inv, ended_intro; simpl; auto using durable_inactive.
  intros E. rewrite Hu in E by done. done.
Qed.

(** ** The frames of each state *)

Lemma be_read_nonneg l : 0 <= be_read 64 l.
Proof.
  destruct l as [| b l] using rev_ind; [done |]. unfold be_read. rewrite fold_left_app. simpl.
  unfold be_step, wrap. apply Z.mod_pos_bound. done.
Qed.

Lemma Unsigned_nonneg fr id : 0 <= Unsigned fr id.
Proof. unfold Unsigned. destruct (Field fr id); [apply be_read_nonneg | done]. Qed.

Lemma StateViolation_inv st : rx_inv (rx st) -> rx_inv (rx (StateViolation st).1).
Proof. intros Hi. unfold StateViolation. auto with xnn. Qed.

Lemma OutOfMemory_inv st : facts (rx st) -> rx_inv (rx (OutOfMemory st).1).
Proof. intros Hi. unfold OutOfMemory. auto with xnn. Qed.

Lemma InvalidManifest_inv st : rx_inv (rx st) -> rx_inv (rx (InvalidManifest st).1).
Proof. intros Hi. unfold InvalidManifest. auto with xnn. Qed.

#[local] Hint Resolve StateViolation_inv OutOfMemory_inv InvalidManifest_inv : xnn.

Lemma ReceiveOffer_inv fr id now st :
  rx_inv (rx st) -> rx_state (rx st) = TransferState.kCreated ->
  rx_inv (rx (ReceiveOffer fr id now st).1).
Proof.
  intros Hi Hs. unfold ReceiveOffer. destruct (negb _); [auto with xnn |].
  destruct (_ || _) eqn:E; [auto with xnn |].
  apply orb_false_iff in E as [[_ Hsize]%orb_false_iff _]. bool_facts.
  pose proof (inv_cancel_unsent _ Hi) as Hu. rewrite Hs in Hu.
  destruct Hi as (Hf & _ & Hin). unfold in_state in Hin. rewrite Hs in Hin.
  destruct Hin as [Hidle Hq]. pose proof (Unsigned_nonneg fr 3).
  match goal with |- context [take_alloc ?s] =>
    pose proof (rx_take_alloc s) as Hx; destruct (take_alloc s) as [st1 a] end.
  cbn [fst] in Hx. rewrite rx_upd in Hx.
  assert (Hf1 : facts (rx st1)).
  { rewrite Hx. clear Hx. generalize dependent (rx st). intros r Hf. intros.
    destruct Hidle as (Htx & _). split; simpl; rewrite ?Hq, ?Htx; [lia | done | done]. }
  destruct a; cbn [negb]; [| auto with xnn].
  cbn [fst]. rewrite rx_upd. revert Hf1. rewrite Hx. clear Hx.
  generalize dependent (rx st). intros r. intros.
  apply inv_intro; [exact Hf1 | by apply Hu | exact Hidle].
Qed.

Lemma ReceiveManifestEntry_inv fr now st :
  rx_inv (rx st) -> rx_state (rx st) = TransferState.kReceivingManifest ->
  rx_inv (rx (ReceiveManifestEntry fr now st).1).
Proof.
  intros Hi Hs. unfold ReceiveManifestEntry. destruct (_ || _); [auto with xnn |].
  destruct (ValidateReceiveRequest _ _ _) as [| request] eqn:Ev; [auto with xnn |].
  match goal with |- context [take_alloc ?s] =>
    pose proof (rx_take_alloc s) as Hx; destruct (take_alloc s) as [st1 a] end.
  cbn [fst] in Hx. rewrite <- Hx in *. clear Hx st.
  destruct a; cbn [negb]; [| auto with xnn].
  cbn [fst]. rewrite rx_upd. generalize dependent (rx st1). intros r Hi Hs Ev.
  pose proof (inv_cancel_unsent _ Hi) as Hu. rewrite Hs in Hu.
  destruct Hi as (Hf & _ & Hin). unfold in_state in Hin. rewrite Hs in Hin.
  apply inv_intro; [| by apply Hu |].
  - destruct Hf as [Hsz _ Ht]. split; [exact Hsz | | exact Ht]. simpl. intros q [= <-].
    unfold ValidateReceiveRequest in Ev. destruct (ValidateReceivePath _); [done |].
    by destruct (_ >? _); simplify_eq.
  - unfold in_state. simpl. by rewrite Hs.
Qed.

Lemma ReceiveManifestEnd_inv fr now st :
  rx_inv (rx st) -> rx_state (rx st) = TransferState.kReceivingManifest ->
  rx_inv (rx (ReceiveManifestEnd fr now st).1).
Proof.
  intros Hi Hs. unfold ReceiveManifestEnd. destruct (_ || _); [auto with xnn |].
  match goal with |- context [take_alloc ?s] =>
    pose proof (rx_take_alloc s) as Hx; destruct (take_alloc s) as [st1 a] end.
  cbn [fst] in Hx. rewrite <- Hx in *. clear Hx st.
  destruct a; cbn [negb]; [| auto with xnn].
  destruct (VerifyManifest _ _) as [integrity verified].
  destruct verified; cbn [negb]; [| apply Fail_inv, Hi].
  cbn [fst]. rewrite rx_upd, rx_world, rx_upd. generalize dependent (rx st1). intros r Hi Hs.
  pose proof (inv_cancel_unsent _ Hi) as Hu. rewrite Hs in Hu.
  destruct Hi as (Hf & _ & Hin). unfold in_state in Hin. rewrite Hs in Hin.
  apply inv_intro; [exact Hf | by apply Hu | exact Hin].
Qed.

Lemma ReceiveFileBegin_inv fr st :
  rx_inv (rx st) -> rx_inv (rx (ReceiveFileBegin fr st).1).
Proof.
  intros Hi. unfold ReceiveFileBegin. destruct (_ || _); [auto with xnn |].
  cbn [fst]. rewrite rx_upd. apply (inv_core (rx st)); [same_core | done].
Qed.

(** A call on the transaction of the receiver. *)
Lemma with_transaction_facts t call st :
  call_ok t (w_storage (world st)) (call t (w_storage (world st))) -> tx_ok t ->
  declared_size (t_request t) = m_file_size (rx_manifest (rx st)) ->
  facts (rx st) ->
  rx (with_transaction t call st).1 =
    (rx st) <| rx_transaction := Some (call t (w_storage (world st))).1.1 |> /\
  (with_transaction t call st).2 = (call t (w_storage (world st))).2 /\
  facts (rx (with_transaction t call st).1).
Proof.
  intros (Hok & Hr & _) Htx Hd Hf. unfold with_transaction.
  destruct (call t _) as [[t' s'] res]. cbn [fst snd] in *. rewrite rx_upd, rx_world.
  split; [done |]. split; [done |]. generalize dependent (rx st). intros r Hd [Hs Hq _].
  split; [exact Hs | exact Hq |]. simpl. intros x [= <-]. split; [done | by rewrite Hr].
Qed.

(** The window after a chunk of [n] bytes was written and acknowledged. *)
Lemma flow_chunk credit chunk window available offset encoded written size n :
  flow_of credit chunk window available offset encoded written size ->
  size <= kMaxFileBytes -> 0 < n <= available -> n <= usub 64 size offset ->
  uadd 64 offset n = offset + n /\
  flow_of credit chunk window (usub 32 available (u32 n)) (offset + n) (offset + n) written size.
Proof.
  intros [Hc Hch Hw Ha Hb Hwr He Ho] Hs Hn Hr.
  unfold kMaximumTransferWindow, kMinimumChunkSize, kMaxFileBytes in *.
  rewrite usub_small in Hr by widths. rewrite uadd_small by widths.
  assert (u32 n = n) as -> by (apply wrap_small; widths).
  rewrite usub_small by widths. split; [done |].
  split; unfold kMaximumTransferWindow, kMinimumChunkSize; lia || done.
Qed.

Lemma ChunkInvalid_false fr r : ChunkInvalid fr r = false ->
  0 < bsize (FieldBytes fr 4) <= rx_chunk_size r /\
  bsize (FieldBytes fr 4) <= usub 64 (m_file_size (rx_manifest r)) (rx_next_offset r).
Proof.
  unfold ChunkInvalid. intros E. bool_facts. pose proof (bsize_nonneg (FieldBytes fr 4)). lia.
Qed.

Lemma ReceiveFileChunk_inv fr now st :
  rx_inv (rx st) -> rx_state (rx st) = TransferState.kReceivingFile ->
  rx_inv (rx (ReceiveFileChunk fr now st).1).
Proof.
  intros Hi Hs. unfold ReceiveFileChunk. destruct (ChunkInvalid fr (rx st)) eqn:Ec; [auto with xnn |].
  destruct (_ >? rx_available_credit _) eqn:Ecr; [auto with xnn |]. bool_facts.
  apply ChunkInvalid_false in Ec as [Hn Hleft].
  destruct (VerifyChunkCommitment _ _ _ _ _ _) as [integrity verified].
  destruct verified; cbn [negb]; [| apply Fail_inv, Hi].
  rewrite rx_world. destruct (rx_transaction (rx st)) as [t |] eqn:Et; [| by apply StateViolation_inv].
  set (st1 := st <| world := _ |>).
  destruct (fa_transaction _ _ _ (inv_facts _ Hi) t Et) as [Htx Hsz].
  destruct (with_transaction_facts t (WriteData (FieldBytes fr 4)) st1) as (Hrx & Hres & Hf1);
    [by apply WriteData_ok | done | done | by apply inv_facts in Hi |].
  pose proof (inv_cancel_unsent _ Hi) as Hu. rewrite Hs in Hu.
  destruct Hi as (Hf & _ & Hin). unfold in_state in Hin. rewrite Hs in Hin.
  destruct Hin as (Hflow & t' & Et' & Hts & Hrcv). rewrite Et in Et'. injection Et' as <-.
  destruct (flow_chunk _ _ _ _ _ _ _ _ (bsize (FieldBytes fr 4)) Hflow) as [Hoff Hflow'];
    [apply Hf | lia | done |].
  pose proof (WriteData_success (FieldBytes fr 4) t (w_storage (world st1)) Htx Hts) as Hw.
  destruct (with_transaction t _ st1) as [st2 res]. cbn [fst snd] in Hrx, Hres, Hf1.
  subst res. destruct (transaction_ok _); cbn [negb]; [| auto with xnn].
  destruct Hw as [Hts' Hrcv']; [intros Hnil; rewrite Hnil in Hn; by destruct Hn | done |].
  change (rx st1) with (rx st) in Hrx. clearbody st1.
  match goal with |- context [EncodeChunkAck ?s] => pose proof (rx_EncodeChunkAck s) as Hx;
    destruct (EncodeChunkAck s) as [st3 [frame |]] end; cbn [fst] in Hx; rewrite rx_upd in Hx.
  - cbn [fst]. rewrite rx_upd, Hx, Hrx. rewrite Hrx in Hf1. clear Hx Hrx.
    generalize dependent (rx st). intros r. intros.
    apply inv_intro; [exact Hf1 | by apply Hu |]. unfold in_state. simpl. rewrite Hs, Hoff.
    split; [exact Hflow' |]. eexists. split; [reflexivity |]. split; [exact Hts' |]. congruence.
  - apply Fail_inv. rewrite Hx. exact Hf1.
Qed.

Lemma ReceiveFileEnd_inv fr now st :
  rx_inv (rx st) -> rx_state (rx st) = TransferState.kReceivingFile ->
  rx_inv (rx (ReceiveFileEnd fr now st).1).
Proof.
  intros Hi Hs. unfold ReceiveFileEnd. destruct (_ || _) eqn:Ec; [auto with xnn |]. bool_facts.
  destruct (rx_transaction (rx st)) as [t |] eqn:Et; [| by apply StateViolation_inv].
  destruct (fa_transaction _ _ _ (inv_facts _ Hi) t Et) as [Htx Hsz].
  destruct (with_transaction_facts t SealAndCommit st) as (Hrx & Hres & Hf1);
    [by apply SealAndCommit_ok | done | done | by apply inv_facts in Hi |].
  pose proof (inv_cancel_unsent _ Hi) as Hu. rewrite Hs in Hu.
  destruct Hi as (Hf & _ & Hin). unfold in_state in Hin. rewrite Hs in Hin.
  destruct Hin as (Hflow & t' & Et' & Hts & Hrcv). rewrite Et in Et'. injection Et' as <-.
  pose proof (SealAndCommit_success t (w_storage (world st)) Htx Hts) as Hw.
  destruct (with_transaction t _ st) as [st2 res]. cbn [fst snd] in Hrx, Hres, Hf1.
  subst res. destruct (transaction_ok _); cbn [negb]; [| auto with xnn].
  specialize (Hw eq_refl).
  apply EmitPendingFileCommit_inv. rewrite rx_upd, Hrx. rewrite Hrx in Hf1. clear Hrx.
  generalize dependent (rx st). intros r. intros.
  apply inv_intro; [exact Hf1 | by apply Hu |]. unfold in_state. simpl.
  split; [exact Hflow |]. split; [by apply bool_decide_eq_true | done].
Qed.

Lemma ReceiveComplete_inv fr now st :
  rx_inv (rx st) -> rx_state (rx st) = TransferState.kAwaitingCompletion ->
  rx_inv (rx (ReceiveComplete fr now st).1).
Proof.
  intros Hi Hs. unfold ReceiveComplete. destruct (_ || _); [auto with xnn |].
  apply EmitPendingCompletionAck_inv; rewrite rx_upd; [| exact Hs].
  apply (inv_core (rx st)); [same_core | done].
Qed.

Lemma ReceiveInState_inv fr now st :
  rx_inv (rx st) -> rx_inv (rx (ReceiveInState fr now st).1).
Proof.
  intros Hi. unfold ReceiveInState. destruct (rx_state (rx st)) eqn:Hs; auto with xnn.
  - destruct (negb _); [by apply ReceiveManifestEntry_inv | by apply ReceiveManifestEnd_inv].
  - destruct (negb _); [by apply ReceiveFileBegin_inv |].
    destruct (bool_decide _); [by apply ReceiveFileChunk_inv |].
    destruct (bool_decide _); [by apply ReceiveFileEnd_inv | auto with xnn].
  - by apply ReceiveComplete_inv.
Qed.

Lemma ReceiveError_inv fr st : rx_inv (rx st) -> rx_inv (rx (ReceiveError fr st).1).
Proof.
  intros Hi. unfold ReceiveError. destruct (DecodeWireError _) as [code |]; [| auto with xnn].
  destruct (_ || _); [auto with xnn |]. rewrite DurableCommit_durable.
  assert (Hst1 : exists tx, rx (if durable (rx st) then st else AbortTransaction st)
      = (rx st) <| rx_transaction := tx |> /\
    facts_of (m_file_size (rx_manifest (rx st))) (rx_request (rx st)) tx /\
    inactive_tx tx /\ durable_tx tx = durable (rx st)).
  { destruct (durable (rx st)) eqn:Ed.
    - exists (rx_transaction (rx st)). split; [by destruct (rx st) |].
      auto using durable_inactive with xnn.
    - destruct (rx_AbortTransaction st (inv_facts _ Hi)) as (tx & Ha & Hab).
      exists tx. rewrite <- Ed. split; [done |]. by apply aborted_facts; auto with xnn. }
  destruct Hst1 as (tx & Hrx & Hf & Hia & Hd).
  destruct Hi as (_ & Hc & _). cbn [fst].
  rewrite rx_upd, rx_ReleaseStream, rx_ReleaseCredit, Hrx. clear Hrx.
  generalize dependent (rx st). intros r. intros.
  apply ended_inv, ended_intro; simpl; auto; [by destruct (durable r) | |].
  - rewrite Hd. by destruct (durable r).
  - intros Hsent. rewrite Hd. apply Hc, Hsent.
Qed.

Lemma ReceiveBody_inv fr now st :
  rx_inv (rx st) -> rx_inv (rx (ReceiveBody fr now st).1).
Proof.
  intros Hi. unfold ReceiveBody. destruct (bool_decide (h_message_type (pf_header fr) = kError));
    [by apply ReceiveError_inv |].
  destruct (ReadTransferId fr) as [id |]; [| auto with xnn].
  destruct (bool_decide (rx_state (rx st) = _)) eqn:Es;
    [apply bool_decide_eq_true in Es; by apply ReceiveOffer_inv | clear Es].
  destruct (negb (same_bytes _ _)); [auto with xnn |].
  destruct (bool_decide (h_message_type (pf_header fr) = kCancel));
    [destruct (bool_decide _); auto using BeginRemoteCancel_inv with xnn |].
  destruct (bool_decide (h_message_type (pf_header fr) = kCancelAck)); [| by apply ReceiveInState_inv].
  destruct (rx_cancel_sent (rx st)) eqn:Ec; cbn [negb]; [| auto with xnn].
  destruct (DecodeWireError _); [| auto with xnn]. destruct Hi as (Hf & Hc & _).
  apply ended_inv, ApplyCancelAck_ended; [done | by apply Hc].
Qed.

Lemma rx_parse_inbound e st : rx (parse_inbound e st).1 = rx st.
Proof. unfold parse_inbound. by destruct (ParseInbound _ _ _ _). Qed.

(** A terminal state stays terminal, and what it says of the disk stays. *)
Definition settled r r' : Prop := ended r' /\ durable r' = durable r.

Lemma settled_core r r' : core r' = core r -> ended r -> settled r r'.
Proof.
  intros E He. split; [by apply (ended_core r) |]. apply (f_equal fst) in E.
  cbn [fst core] in E. unfold static in E. injection E. congruence.
Qed.

Lemma ReceiveTerminal_settled e st :
  ended (rx st) -> settled (rx st) (rx (ReceiveTerminal e st).1).
Proof.
  intros He. unfold ReceiveTerminal. pose proof (rx_parse_inbound e st) as Hx.
  destruct (parse_inbound e st) as [st1 parsed]. cbn [fst] in Hx. rewrite <- Hx in *. clear Hx st.
  destruct (negb _); [done |]. destruct (ParseBody parsed) as [parsed' body_ok].
  destruct (negb _); [done |]. destruct (negb _); [done |].
  destruct (_ && bool_decide (_ = Some _)).
  - apply settled_core; [| done]. rewrite EmitCancelAck_core, !rx_upd.
    destruct (rx_cancel_ack_pending (rx st1)); same_core.
  - destruct (DecodeWireError _) as [code |]; [| done].
    destruct (bool_decide _ && _) eqn:E; [| done]. bool_facts.
    destruct He as [(Hf & Hc & _) _]. unfold settled.
    destruct (Hc ltac:(done)) as [Hd _]. rewrite Hd. by apply ApplyCancelAck_ended.
Qed.

Lemma OpenOnFirstFrame_inv st : rx_inv (rx st) ->
  rx_inv (rx (OpenOnFirstFrame st).1).
Proof.
  intros Hi. unfold OpenOnFirstFrame. destruct (_ && _) eqn:E; [| done]. bool_facts.
  match goal with H : bool_decide _ = true |- _ => apply bool_decide_eq_true in H end.
  destruct (OpenStream _ _ _ _) as [credit opened]. destruct (bool_decide _); [| exact Hi].
  cbn [fst]. rewrite rx_upd, rx_world. generalize dependent (rx st). intros r. intros.
  pose proof (inv_cancel_unsent r Hi) as Hu. rewrite H0 in Hu.
  destruct Hi as (Hf & _ & Hin). unfold in_state in Hin. rewrite H0 in Hin.
  apply inv_intro; [exact Hf | by apply Hu |]. unfold in_state. simpl. rewrite H0. exact Hin.
Qed.

(** After the clock was observed and the timeouts were checked: either a call
    went on in the same members, or it ended the transfer. *)
Lemma after_timeout now st (k : System -> System * TransferUpdate) :
  rx_inv (rx st) -> rx_inv (rx (k st).1) ->
  rx_inv (rx (let '(st1, timeout) := CheckTimeout now st in
              if negb (update_ok timeout) then (st1, timeout) else k st1).1).
Proof.
  intros Hi Hk. destruct (CheckTimeout_spec now st Hi) as [-> | [He Hok]].
  - by destruct (negb _).
  - destruct (CheckTimeout now st) as [st1 u]. cbn [fst snd] in *. rewrite Hok. by apply ended_inv.
Qed.

(** The same members but for the clock. *)
Definition observed_from r0 r : Prop := exists last, r = r0 <| rx_last_now_ms := last |>.

Lemma after_observe now st (no k : System -> System * TransferUpdate) :
  rx_inv (rx st) ->
  (forall st1, observed_from (rx st) (rx st1) -> rx_inv (rx st1) -> rx_inv (rx (no st1).1)) ->
  (forall st1, observed_from (rx st) (rx st1) -> rx_inv (rx st1) -> rx_inv (rx (k st1).1)) ->
  rx_inv (rx (let '(st1, observed) := Observe now st in
              if negb observed then no st1 else k st1).1).
Proof.
  intros Hi Hno Hk. pose proof (Observe_inv now st Hi) as Ho. unfold Observe in *.
  destruct (ObserveTime _ _) as [last []]; cbn [fst negb] in *;
    [apply Hk | apply Hno]; try done; by exists last.
Qed.

(** ** The public methods *)

Lemma Create_inv context budget_set w alloc_ok st :
  (Create context budget_set w alloc_ok).1 = Some st -> rx_inv (rx st).
Proof.
  unfold Create. destruct (_ || _); [done |]. destruct (negb _); [done |]. intros [= <-].
  apply inv_intro; [by split | done | by split].
Qed.

Lemma ReceiveFrame_inv e now st : rx_inv (rx st) -> rx_inv (rx (ReceiveFrame e now st).1).
Proof.
  intros Hi. unfold ReceiveFrame. destruct (rx_shutdown _); [done |].
  destruct (IsTerminal _) eqn:Ht; [by apply ended_inv, ReceiveTerminal_settled |].
  clear Ht. apply after_observe; [done | auto with xnn |]. intros st0 _ Hi0. clear st Hi. rename st0 into st, Hi0 into Hi.
  pose proof (rx_parse_inbound e st) as Hx.
  destruct (parse_inbound e st) as [st1 parsed]. cbn [fst] in Hx. rewrite <- Hx in Hi. clear Hx st.
  destruct (negb _); [auto with xnn |].
  pose proof (OpenOnFirstFrame_inv st1 Hi) as Hi2.
  destruct (OpenOnFirstFrame st1) as [st2 opened]. cbn [fst] in Hi2.
  destruct opened; [| auto with xnn | auto with xnn].
  apply after_timeout; [done |].
  destruct (negb _); [auto with xnn |]. destruct (ParseBody parsed) as [parsed' body_ok].
  destruct (negb body_ok); [auto with xnn | by apply ReceiveBody_inv].
Qed.

Lemma Unauthenticated_inv st : rx_inv (rx st) -> rx_inv (rx (Unauthenticated st).1).
Proof. intros Hi. unfold Unauthenticated. auto with xnn. Qed.

#[local] Hint Resolve Unauthenticated_inv : xnn.

Lemma NextOutbound_inv now st : rx_inv (rx st) -> rx_inv (rx (NextOutbound now st).1).
Proof.
  intros Hi. unfold NextOutbound. destruct (rx_shutdown _); [done |].
  destruct (_ && negb _); [done |]. destruct (_ && negb _) eqn:E; [done |].
  apply after_observe; [done | by intros; destruct (IsTerminal _); auto with xnn |].
  intros st1 [last Hx] Hi1. assert (Hs : rx_state (rx st1) = rx_state (rx st)) by (by rewrite Hx).
  assert (Hp : rx_cancel_ack_pending (rx st1) = rx_cancel_ack_pending (rx st)) by (by rewrite Hx).
  rewrite <- Hs, <- Hp in E. clear Hs Hp Hx Hi st.
  destruct (negb (authorized _)).
  { destruct (IsTerminal _); [| auto with xnn]. cbn [fst]. rewrite rx_upd.
    apply (inv_core (rx st1)); [same_core | done]. }
  destruct (rx_cancel_ack_pending (rx st1)) eqn:Ep;
    [eapply inv_core; [apply EmitCancelAck_core | done] |].
  destruct (IsTerminal _); [done |]. apply after_timeout; [done |].
  destruct (bool_decide_reflect (rx_state (rx st1) = TransferState.kCancelling)) as [Ec | Ec].
  { destruct (rx_cancel_frame_pending _); [| done]. pose proof Hi1 as (Hf & _ & Hin).
    unfold in_state in Hin. rewrite Ec in Hin. destruct Hin. by apply EmitCancel_inv. }
  destruct (bool_decide_reflect (rx_state (rx st1) = TransferState.kRejecting)) as [Er | Er];
    [by apply EmitPendingReject_inv |].
  rewrite !andb_true_r in E.
  apply negb_false_iff, bool_decide_eq_true in E.
  destruct (rx_completion_ack_pending _); [by apply EmitPendingCompletionAck_inv |].
  destruct (negb _); [| done]. pose proof (EmitPendingFileCommit_inv st1 Hi1) as Hi2.
  destruct (EmitPendingFileCommit st1) as [st2 u]. cbn [fst] in *.
  destruct (bool_decide _); [done |]. rewrite rx_upd.
  apply (inv_core (rx st2)); [same_core | done].
Qed.

Lemma Advance_inv now st : rx_inv (rx st) -> rx_inv (rx (Advance now st).1).
Proof.
  intros Hi. unfold Advance. destruct (IsTerminal _); [done |].
  apply after_observe; [done | auto with xnn |]. intros st1 _ Hi1.
  destruct (negb _); [auto with xnn |].
  destruct (CheckTimeout_spec now st1 Hi1) as [-> | [He _]]; auto with xnn.
Qed.

Lemma Reject_inv code retry now st :
  rx_inv (rx st) -> rx_inv (rx (Reject code retry now st).1).
Proof.
  intros Hi. unfold Reject. destruct (IsTerminal _); [done |].
  destruct (bool_decide _); [by destruct (_ && _) |].
  destruct (bool_decide_reflect (rx_state (rx st) = TransferState.kAwaitingDecision)) as [Es |];
    cbn [negb orb]; [| done].
  destruct (_ || _); [done |].
  apply after_observe; [done | auto with xnn |]. intros st1 [last Hx] Hi1.
  assert (Hs : rx_state (rx st1) = TransferState.kAwaitingDecision) by (by rewrite Hx).
  clear Hx Es Hi st. apply after_timeout; [done |].
  destruct (negb _); [auto with xnn |].
  pose proof (inv_cancel_unsent _ Hi1) as Hu. rewrite Hs in Hu.
  destruct Hi1 as (Hf & _ & Hin). unfold in_state in Hin. rewrite Hs in Hin.
  destruct Hin as (Htx & _). apply BeginReject_inv; [done | by rewrite Htx | auto].
Qed.

Lemma Cancel_inv now st : rx_inv (rx st) -> rx_inv (rx (Cancel now st).1).
Proof.
  intros Hi. unfold Cancel. destruct (IsTerminal _) eqn:Ht; [done |].
  destruct (bool_decide_reflect (rx_state (rx st) = TransferState.kCancelling)) as [|Hn]; [done |].
  apply after_observe; [done | auto with xnn |]. intros st1 [last Hx] Hi1.
  assert (Hs : rx_state (rx st1) = rx_state (rx st)) by (by rewrite Hx).
  rewrite <- Hs in Ht, Hn. clear Hx Hs Hi st. rewrite DurableCommit_durable.
  pose proof (inv_cancel_unsent _ Hi1 Hn Ht) as Hu.
  destruct (durable (rx st1)) eqn:Ed; [by apply ended_inv, FinishCommitted_ended; auto with xnn |].
  destruct (rx_AbortTransaction st1 (inv_facts _ Hi1)) as (tx & Ha & Hab).
  destruct (aborted_facts _ _ _ _ (inv_facts _ Hi1) Hab) as (Hf2 & Hi2 & Hd2).
  destruct (_ || _).
  - apply ended_inv, FinishCancelled_ended; rewrite Ha; [exact Hf2 | exact (eq_trans Hd2 Ed)].
  - apply EmitCancel_inv; rewrite rx_upd, Ha;
      [exact Hf2 | reflexivity | exact Hi2 | exact (eq_trans Hd2 Ed)].
Qed.

Lemma Shutdown_ended st : rx_inv (rx st) -> settled (rx st) (rx (Shutdown st).1).
Proof.
  intros Hi. unfold Shutdown. set (st1 := upd _ st).
  assert (Hi1 : rx_inv (rx st1)).
  { unfold st1. rewrite rx_upd. apply (inv_static (rx st)); [same_static | done | done]. }
  assert (Hd : durable (rx st1) = durable (rx st)) by done.
  clearbody st1. unfold settled. rewrite <- Hd. clear Hd.
  destruct (IsTerminal _) eqn:Ht; [done |]. rewrite DurableCommit_durable.
  apply (Finish_ended st1 (inv_facts _ Hi1)).
Qed.

Lemma flow_confirm credit chunk window available offset encoded written size n :
  flow_of credit chunk window available offset encoded written size ->
  size <= kMaxFileBytes -> written < n <= encoded ->
  usub 64 n written = n - written /\ n - written <= usub 32 window available /\
  flow_of credit chunk window (uadd 32 available (u32 (n - written))) offset encoded n size.
Proof.
  intros [Hc Hch Hw Ha Hb Hwr He Ho] Hs Hn.
  unfold kMaximumTransferWindow, kMinimumChunkSize, kMaxFileBytes in *.
  rewrite !usub_small by widths. assert (u32 (n - written) = n - written) as ->
    by (apply wrap_small; widths).
  rewrite uadd_small by widths. split; [done |]. split; [lia |].
  split; unfold kMaximumTransferWindow, kMinimumChunkSize; lia || done.
Qed.

Lemma ConfirmChunkAckWritten_inv next now st :
  rx_inv (rx st) -> rx_inv (rx (ConfirmChunkAckWritten next now st).1).
Proof.
  intros Hi. unfold ConfirmChunkAckWritten. destruct (IsTerminal _); [done |].
  apply after_observe; [done | auto with xnn |]. intros st1 _ Hi1. clear st Hi.
  destruct (negb _); [auto with xnn |].
  destruct (_ && _) eqn:Es; cbn [orb]; [auto with xnn |].
  destruct (_ || _) eqn:En; [auto with xnn |]. bool_facts.
  destruct (_ >? _); [auto with xnn |].
  cbn [fst]. rewrite rx_upd. generalize dependent (rx st1). intros r Hi Es Hlo Hhi.
  pose proof (inv_cancel_unsent _ Hi) as Hu.
  destruct Hi as (Hf & _ & Hin). unfold in_state in Hin.
  assert (Hfl : flow r) by (destruct (rx_state r); try done; apply Hin).
  destruct (flow_confirm _ _ _ _ _ _ _ _ next Hfl) as (Hsub & _ & Hfl');
    [apply Hf | lia |]. rewrite Hsub.
  apply inv_intro; [exact Hf | by destruct (rx_state r); try done; apply Hu |].
  unfold in_state. simpl. destruct (rx_state r); try done; destruct Hin as [_ Hin]; by split.
Qed.

Lemma AcceptParametersInvalid_false chunk window l :
  AcceptParametersInvalid chunk window l = false ->
  kMinimumChunkSize <= chunk <= window /\ window <= kMaximumTransferWindow.
Proof. unfold AcceptParametersInvalid. intros E. bool_facts. lia. Qed.

Lemma Begin_not_committed (t : ReceiveTransaction V) (s : Storage P) :
  tx_ok t -> t_state t = TransactionState.kCreated ->
  t_state (Begin t s).1.1 <> TransactionState.kCommitted.
Proof.
  intros [Hd _] E. unfold Begin. rewrite bool_decide_true by done. cbn [negb].
  destruct (negb (t_budget_set t) || _); [done |].
  destruct (TryReserveTemporary _ _) as [b []]; cbn [negb]; [| done].
  destruct (CreateTemporary _ _ _) as [platform [created handle]].
  destruct (_ || _); [| done]. destruct (valid handle).
  - eapply FailAndCleanup_spec; [exact Hd | done].
  - by destruct (ReleaseReservation _ _).
Qed.

Lemma AcceptBegin_inv request verifier chunk window now st :
  facts (rx st) -> rx_request (rx st) = Some request -> rx_transaction (rx st) = None ->
  rx_cancel_sent (rx st) = false -> rx_credit_reserved (rx st) = true ->
  rx_next_offset (rx st) = 0 -> rx_last_ack_encoded_offset (rx st) = 0 ->
  rx_last_ack_written_offset (rx st) = 0 -> rx_initial_window (rx st) = window ->
  kMinimumChunkSize <= chunk <= window /\ window <= kMaximumTransferWindow ->
  rx_inv (rx (AcceptBegin request verifier chunk window now st).1).
Proof.
  intros Hf Hq Htx Hu Hcr Ho He Hwr Hw Hp. unfold AcceptBegin.
  pose proof (rx_take_alloc st) as Hx. destruct (take_alloc st) as [st1 a]. cbn [fst] in Hx.
  rewrite <- Hx in *. clear Hx st. destruct a; cbn [negb];
    [| apply RejectForStorage_inv; [done | by rewrite Htx | done]].
  pose proof (fa_request _ _ _ Hf _ Hq) as Hsz. pose proof (fa_size _ _ _ Hf) as Hrange.
  set (t := MakeTransaction request true (Some verifier)).
  assert (Htok : tx_ok t).
  { split; [| done]. simpl. unfold kMaxFileBytes in Hrange. rewrite Hsz. widths. }
  destruct (with_transaction_facts t Begin st1) as (Hrx & Hres & Hf1);
    [by apply Begin_ok | done | done | done |].
  pose proof (Begin_success t (w_storage (world st1)) Htok) as Hb.
  pose proof (Begin_not_committed t (w_storage (world st1)) Htok eq_refl) as Hnc.
  destruct (with_transaction t Begin st1) as [st2 res]. cbn [fst snd] in Hrx, Hres, Hf1. subst res.
  destruct (transaction_ok _); cbn [negb].
  - destruct Hb as [Hts Hrcv]; [done | done |].
    match goal with |- context [EncodeAccept ?s] => pose proof (rx_EncodeAccept s) as Hx;
      destruct (EncodeAccept s) as [st3 [frame |]] end; cbn [fst] in Hx; rewrite rx_upd in Hx.
    + cbn [fst]. rewrite rx_upd, Hx, Hrx. rewrite Hrx in Hf1. clear Hx Hrx.
      generalize dependent (rx st1). intros r. intros.
      apply inv_intro; [exact Hf1 | exact Hu |]. unfold in_state. simpl.
      assert (0 < kMinimumChunkSize) by done.
      split; [split; simpl; rewrite ?Ho, ?He, ?Hwr, ?Hw; try done; lia |].
      eexists. split; [reflexivity |]. split; [exact Hts | congruence].
    + apply Fail_inv. rewrite Hx. exact Hf1.
  - rewrite Hrx in Hf1. apply RejectForStorage_inv; rewrite Hrx;
      [exact Hf1 | by apply bool_decide_eq_false | exact Hu].
Qed.

Lemma Accept_inv chunk window now st :
  rx_inv (rx st) -> rx_inv (rx (Accept chunk window now st).1).
Proof.
  intros Hi. unfold Accept. destruct (IsTerminal _); [done |].
  destruct (rx_request (rx st)) as [request |] eqn:Eq; [| done].
  destruct (bool_decide _); [by destruct (_ && _) |].
  destruct (bool_decide_reflect (rx_state (rx st) = TransferState.kAwaitingDecision)) as [Es |];
    cbn [negb]; [| done].
  apply after_observe; [done | auto with xnn |]. intros st1 [last Hx] Hi1.
  assert (Hs : rx_state (rx st1) = TransferState.kAwaitingDecision) by (by rewrite Hx).
  assert (Hq : rx_request (rx st1) = Some request) by (by rewrite Hx).
  clear Hx Es Eq Hi st. apply after_timeout; [done |].
  destruct (negb _); [auto with xnn |].
  destruct (AcceptParametersInvalid _ _ _) eqn:Ep; [auto with xnn |].
  apply AcceptParametersInvalid_false in Ep.
  pose proof (inv_cancel_unsent _ Hi1) as Hu. rewrite Hs in Hu. specialize (Hu ltac:(done) eq_refl).
  destruct Hi1 as (Hf & _ & Hin). unfold in_state in Hin. rewrite Hs in Hin.
  destruct Hin as (Htx & Hcr & Ho & He & Hw).
  destruct (TryReserve _ _ _) as [credit []]; cbn [negb];
    [| apply RejectForStorage_inv; rewrite rx_world; [done | by rewrite Htx | done]].
  destruct (CreateFileVerifier _ _ _ _) as [integrity [verifier |]].
  - apply AcceptBegin_inv; rewrite ?rx_world, ?rx_upd, ?rx_world; first [exact Ep | exact Hf | done].
  - apply RejectForStorage_inv; rewrite rx_world, rx_upd, rx_world;
      [exact Hf | exact (f_equal durable_tx Htx) | exact Hu].
Qed.

(** ** Runs *)

(** The public methods of [OneFileReceiver]; the destructor calls [Shutdown]. *)
Inductive rx_op :=
  | OpReceiveFrame (encoded : bytes) (now_ms : Z)
  | OpNextOutbound (now_ms : Z)
  | OpConfirmChunkAckWritten (next_offset now_ms : Z)
  | OpAccept (chunk_size initial_window now_ms : Z)
  | OpReject (code : WireErrorCode.WireErrorCode) (retryable : bool) (now_ms : Z)
  | OpAdvance (now_ms : Z)
  | OpCancel (now_ms : Z)
  | OpShutdown.

Definition rx_call (op : rx_op) st : System * TransferUpdate :=
  match op with
  | OpReceiveFrame encoded now_ms => ReceiveFrame encoded now_ms st
  | OpNextOutbound now_ms => NextOutbound now_ms st
  | OpConfirmChunkAckWritten next_offset now_ms => ConfirmChunkAckWritten next_offset now_ms st
  | OpAccept chunk_size initial_window now_ms => Accept chunk_size initial_window now_ms st
  | OpReject code retryable now_ms => Reject code retryable now_ms st
  | OpAdvance now_ms => Advance now_ms st
  | OpCancel now_ms => Cancel now_ms st
  | OpShutdown => Shutdown st
  end.

(** The states of a receiver: it is created, and its methods are called in any
    order.  Before every call the world may have become any other, since the
    connection, the storage and the authority are shared. *)
Inductive reachable : System -> Prop :=
  | reach_create context budget_set w alloc_ok st :
      (Create context budget_set w alloc_ok).1 = Some st -> reachable st
  | reach_call op w st :
      reachable st -> reachable (rx_call op (st <| world := w |>)).1.

Lemma rx_call_inv op st : rx_inv (rx st) -> rx_inv (rx (rx_call op st).1).
Proof.
  destruct op; simpl; eauto using ReceiveFrame_inv, NextOutbound_inv, ConfirmChunkAckWritten_inv,
    Accept_inv, Reject_inv, Advance_inv, Cancel_inv.
  intros Hi. apply ended_inv, Shutdown_ended, Hi.
Qed.

Lemma rx_reachable_inv st : reachable st -> rx_inv (rx st).
Proof.
  induction 1 as [context budget_set w a st Hc | op w st _ IH]; [by eapply Create_inv |].
  apply rx_call_inv. exact IH.
Qed.

(** A transaction that ended holds neither a handle nor a reservation. *)
Definition released_tx (tx : option (ReceiveTransaction V)) : Prop :=
  match tx with
  | None => True
  | Some t => t_temporary_open t = false /\ t_reservation_held t = false
  end.

Lemma inactive_released size request tx :
  facts_of size request tx -> inactive_tx tx -> released_tx tx.
Proof.
  intros [_ _ Ht] Hi. destruct tx as [t |]; [| done]. destruct (Ht t eq_refl) as [[_ Htx] _].
  simpl in *. by destruct (t_state t).
Qed.

Lemma ended_released r : ended r ->
  rx_credit_reserved r = false /\ rx_stream_reserved r = false /\
  released_tx (rx_transaction r).
Proof.
  intros [(Hf & _ & Hin) Ht]. unfold in_state in Hin.
  assert (Hall : inactive r /\ rx_credit_reserved r = false /\ rx_stream_reserved r = false)
    by (destruct (rx_state r); try done; by destruct Hin as (? & ? & ? & _)).
  destruct Hall as (Hia & Hc & Hs). by eauto using inactive_released.
Qed.

(** C33: While the receiver takes file data, flow control is conserved: the
    credit it still grants and the data received but not yet acknowledged on
    the wire add up to the window it granted, so the sender can never have more
    than the window in flight; and the transaction has exactly the bytes the
    receiver counted, never more than the size of the offer. *)
Theorem receive_window_conserved st :
  reachable st -> rx_state (rx st) = TransferState.kReceivingFile ->
  rx_available_credit (rx st) + (rx_next_offset (rx st) - rx_last_ack_written_offset (rx st))
    = rx_initial_window (rx st) /\
  0 <= rx_available_credit (rx st) /\
  0 <= rx_last_ack_written_offset (rx st) <= rx_next_offset (rx st) /\
  rx_next_offset (rx st) <= m_file_size (rx_manifest (rx st)) /\
  kMinimumChunkSize <= rx_chunk_size (rx st) <= rx_initial_window (rx st) /\
  rx_initial_window (rx st) <= kMaximumTransferWindow /\
  rx_credit_reserved (rx st) = true /\
  exists t, rx_transaction (rx st) = Some t /\ t_state t = TransactionState.kReceiving /\
    t_received_bytes t = rx_next_offset (rx st).
Proof.
  intros Hr Hs. destruct (rx_reachable_inv st Hr) as (_ & _ & Hin). unfold in_state in Hin.
  rewrite Hs in Hin. destruct Hin as [[H1 H2 H3 H4 H5 H6 H7 H8] Ht]. by auto 10.
Qed.

(** Until the offer is accepted no transaction exists, no credit is taken
    and nothing was received; and the receiver waits for the completion only
    when the whole file is durably committed. *)
Theorem data_only_between_accept_and_commit st :
  reachable st ->
  match rx_state (rx st) with
  | TransferState.kCreated | TransferState.kReceivingManifest
  | TransferState.kAwaitingDecision =>
      rx_transaction (rx st) = None /\ rx_credit_reserved (rx st) = false /\
      rx_next_offset (rx st) = 0
  | TransferState.kAwaitingCompletion =>
      DurableCommit st = true /\ rx_next_offset (rx st) = m_file_size (rx_manifest (rx st))
  | TransferState.kCancelling | TransferState.kRejecting =>
      DurableCommit st = false /\ released_tx (rx_transaction (rx st))
  | _ => True
  end.
Proof.
  intros Hr. destruct (rx_reachable_inv st Hr) as (Hf & _ & Hin). unfold in_state, idle_of in Hin.
  rewrite DurableCommit_durable. destruct (rx_state (rx st)); try done.
  - by destruct Hin as [(? & ? & ? & _) _].
  - by destruct Hin as (? & ? & ? & _).
  - by destruct Hin as (? & ? & ? & _).
  - split; [apply Hin | by eapply inactive_released; [exact Hf | apply Hin]].
  - apply Hin.
  - split; [apply Hin | by eapply inactive_released; [exact Hf | apply Hin]].
Qed.

Lemma rx_call_settled op st : ended (rx st) -> settled (rx st) (rx (rx_call op st).1).
Proof.
  intros He. pose proof He as [Hi Ht].
  destruct op; simpl.
  - unfold ReceiveFrame. destruct (rx_shutdown _); [done |]. rewrite Ht.
    by apply ReceiveTerminal_settled.
  - unfold NextOutbound. do 3 (match goal with
      |- context [if ?c then (st, CurrentUpdate st) else _] => destruct c; [done |] end).
    pose proof (Observe_core now_ms st) as Ho. destruct (Observe now_ms st) as [st1 ok].
    cbn [fst] in Ho. pose proof (ended_core _ _ Ho He) as [_ Ht1]. rewrite Ht1.
    destruct (negb ok); [by apply settled_core |]. destruct (negb _).
    { cbn [fst]. rewrite rx_upd. apply settled_core; [| done]. rewrite <- Ho. same_core. }
    destruct (rx_cancel_ack_pending _); apply settled_core; try done. by rewrite EmitCancelAck_core.
  - unfold ConfirmChunkAckWritten. by rewrite Ht.
  - unfold Accept. by rewrite Ht.
  - unfold Reject. by rewrite Ht.
  - unfold Advance. by rewrite Ht.
  - unfold Cancel. by rewrite Ht.
  - by apply Shutdown_ended.
Qed.

(** The outcome of a transfer is final: after a terminal state every call
    leaves a terminal state, whatever is received and whatever the world
    becomes, and whether that state reports a file on disk never changes. *)
Theorem terminal_outcome_final st op w :
  reachable st -> IsTerminal (rx_state (rx st)) = true ->
  let st' := (rx_call op (st <| world := w |>)).1 in
  IsTerminal (rx_state (rx st')) = true /\ DurableCommit st' = DurableCommit st /\
  success (rx_state (rx st')) = success (rx_state (rx st)).
Proof.
  intros Hr Ht. cbv zeta. pose proof (rx_reachable_inv st Hr) as Hi.
  destruct (rx_call_settled op (st <| world := w |>)) as [He Hd]; [exact (conj Hi Ht) |].
  split; [exact (proj2 He) |]. rewrite !DurableCommit_durable. split; [exact Hd |].
  rewrite <- (ended_durable _ He), <- (ended_durable _ (conj Hi Ht)). exact Hd.
Qed.

(** [Shutdown] ends every transfer at once: whatever the state, the receiver
    is then terminal, holds nothing, and keeps a committed file. *)
Theorem shutdown_releases_everything st :
  reachable st ->
  let st' := (Shutdown st).1 in
  IsTerminal (rx_state (rx st')) = true /\ rx_credit_reserved (rx st') = false /\
  rx_stream_reserved (rx st') = false /\ released_tx (rx_transaction (rx st')) /\
  DurableCommit st' = DurableCommit st.
Proof.
  intros Hr. cbv zeta. pose proof (rx_reachable_inv st Hr) as Hi.
  destruct (Shutdown_ended st Hi) as [He Hd]. rewrite !DurableCommit_durable.
  destruct (ended_released _ He) as (Hc & Hs & Htx).
  split; [exact (proj2 He) |]. do 3 (split; [assumption |]). exact Hd.
Qed.

(** ** Updates *)

(** What a call returns describes the object it leaves. *)
Definition reports (result : System * TransferUpdate) : Prop :=
  u_state result.2 = rx_state (rx result.1) /\
  u_terminal result.2 = IsTerminal (rx_state (rx result.1)).

Lemma reports_current st : reports (st, CurrentUpdate st).
Proof. done. Qed.

Lemma reports_violation st : reports (st, violation_update (CurrentUpdate st)).
Proof. done. Qed.

Lemma reports_busy st : reports (st, busy_update (CurrentUpdate st)).
Proof. done. Qed.

#[local] Hint Resolve reports_current reports_violation reports_busy : xnn.
#[local] Hint Opaque CurrentUpdate violation_update busy_update update upd Fail : xnn.

Lemma reports_EncodeError c retry u st : reports (st, u) -> reports (EncodeError c retry u st).
Proof.
  intros [H1 H2]. unfold EncodeError.
  pose proof (rx_encode (fun a x ids => EncodeErrorFrame a x ids c retry) st) as Hx.
  destruct (encode _ st) as [st1 [o |]]; cbn [fst] in Hx; split; simpl in *; by rewrite Hx.
Qed.

Lemma reports_Fail e w f st : reports (Fail e w f st).
Proof.
  unfold Fail. rewrite DurableCommit_durable. generalize (durable (rx st)). intros d.
  match goal with |- reports (if _ then _ else (?s, ?u)) => assert (Hr : reports (s, u)) end.
  { split; cbn [fst snd]; rewrite rx_upd; by destruct d. }
  destruct (_ && authorized _); [by apply reports_EncodeError | exact Hr].
Qed.

Lemma reports_CancelTimeout st : reports (CancelTimeout st).
Proof.
  unfold CancelTimeout.
  match goal with |- reports (if _ then _ else (?s, ?u)) => assert (Hr : reports (s, u)) end.
  { split; cbn [fst snd]; by rewrite rx_upd. }
  destruct (authorized _); [by apply reports_EncodeError | exact Hr].
Qed.

#[local] Hint Resolve reports_Fail reports_CancelTimeout : xnn.

Lemma reports_CheckTimeout now st : reports (CheckTimeout now st).
Proof.
  unfold CheckTimeout. destruct (rx_state (rx st)); auto with xnn.
  all: match goal with |- context [if ?c then _ else _] => destruct c end; auto with xnn.
Qed.

(** An update taken before a call that keeps the state. *)
Lemma reports_kept st st1 u frame :
  reports (st, u) -> rx_state (rx st1) = rx_state (rx st) ->
  reports (st1, u <| u_outbound_frame := frame |>).
Proof. intros [H1 H2] Hs. unfold reports in *. simpl in *. by rewrite Hs. Qed.

Lemma reports_EmitCancelAck st : reports (EmitCancelAck st).
Proof.
  unfold EmitCancelAck.
  match goal with |- context [encode ?f st] =>
    pose proof (rx_encode f st) as Hx; destruct (encode f st) as [st1 [o |]] end; cbn [fst] in Hx.
  - apply (reports_kept st); [done |]. by rewrite rx_upd, Hx.
  - unfold CancelAckEncodingFailure. destruct (OutboundExhausted _); [| auto with xnn].
    destruct (rx_cancel_ack_failure_is_terminal _); auto with xnn.
    by split; cbn [fst snd]; rewrite rx_upd.
Qed.

Lemma reports_EmitCancel st : reports (EmitCancel st).
Proof.
  unfold EmitCancel.
  match goal with |- context [encode ?f st] =>
    pose proof (rx_encode f st) as Hx; destruct (encode f st) as [st1 [o |]] end; cbn [fst] in Hx.
  - apply (reports_kept st); [done |]. by rewrite rx_upd, Hx.
  - unfold CancellationEncodingFailure. destruct (OutboundExhausted _); auto with xnn.
Qed.

Lemma reports_ApplyCancelAck code st : reports (ApplyCancelAck code st).
Proof.
  unfold ApplyCancelAck. destruct (bool_decide _); [destruct (negb _); auto with xnn |].
  destruct (bool_decide _); [auto with xnn |]. destruct (WireErrorIsRejectReason _); auto with xnn.
Qed.

Lemma reports_PendingEncodingFailure st : reports (PendingEncodingFailure st).
Proof. unfold PendingEncodingFailure. destruct (OutboundExhausted _); auto with xnn. Qed.

#[local] Hint Resolve reports_EmitCancelAck reports_EmitCancel reports_ApplyCancelAck
  reports_PendingEncodingFailure : xnn.

Lemma reports_EmitPendingReject st : reports (EmitPendingReject st).
Proof.
  unfold EmitPendingReject. destruct (EncodeReject _ _ st) as [st1 [frame |]]; [| auto with xnn].
  split; cbn [fst snd]; rewrite ?rx_upd, ?rx_ReleaseStream, ?rx_upd; reflexivity.
Qed.

Lemma reports_EmitPendingFileCommit st : reports (EmitPendingFileCommit st).
Proof.
  unfold EmitPendingFileCommit. pose proof (rx_EncodeFileCommit st) as Hx.
  destruct (EncodeFileCommit st) as [st1 [frame |]]; [| auto with xnn]. cbn [fst] in Hx.
  apply (reports_kept st); [done |]. by rewrite rx_upd, Hx.
Qed.

Lemma reports_EmitPendingCompletionAck st : reports (EmitPendingCompletionAck st).
Proof.
  unfold EmitPendingCompletionAck. destruct (EncodeCompleteAck st) as [st1 [frame |]]; [| auto with xnn].
  split; cbn [fst snd]; by rewrite rx_upd.
Qed.

#[local] Hint Resolve reports_EmitPendingReject reports_EmitPendingFileCommit
  reports_EmitPendingCompletionAck : xnn.

Lemma reports_RejectForStorage e now st : reports (RejectForStorage e now st).
Proof. unfold RejectForStorage, BeginReject. destruct (negb _); auto with xnn. Qed.

#[local] Hint Resolve reports_RejectForStorage : xnn.

Lemma reports_StateViolation st : reports (StateViolation st).
Proof. unfold StateViolation. auto with xnn. Qed.

Lemma reports_Unauthenticated st : reports (Unauthenticated st).
Proof. unfold Unauthenticated. auto with xnn. Qed.

Lemma reports_InvalidManifest st : reports (InvalidManifest st).
Proof. unfold InvalidManifest. auto with xnn. Qed.

Lemma reports_OutOfMemory st : reports (OutOfMemory st).
Proof. unfold OutOfMemory. auto with xnn. Qed.

#[local] Hint Resolve reports_StateViolation reports_Unauthenticated reports_InvalidManifest
  reports_OutOfMemory reports_CheckTimeout : xnn.

Lemma reports_after_timeout now st (k : System -> System * TransferUpdate) :
  (forall st1, reports (k st1)) ->
  reports (let '(st1, timeout) := CheckTimeout now st in
           if negb (update_ok timeout) then (st1, timeout) else k st1).
Proof.
  intros Hk. pose proof (reports_CheckTimeout now st) as Hr.
  destruct (CheckTimeout now st) as [st1 u]. by destruct (negb _).
Qed.

(** Case analysis on the tests and the calls of a handler; an update built from
    [CurrentUpdate] reports the state it was taken in. *)
Ltac report_cases := repeat (first
  [ solve [auto with xnn]
  | match goal with
    | |- reports (let '(_, _) := CheckTimeout _ _ in _) =>
        apply reports_after_timeout; intros ?
    | |- reports (let '(_, _) := ?x in _) => destruct x
    | |- reports (if ?c then _ else _) => destruct c
    | |- reports (match ?x with _ => _ end) => destruct x
    | |- reports (?s, _) => solve [generalize s; intros ?; split; reflexivity]
    end]).

Lemma reports_ReceiveFileChunk fr now st : reports (ReceiveFileChunk fr now st).
Proof.
  unfold ReceiveFileChunk. do 2 (destruct (_ : bool); [auto with xnn |]).
  destruct (VerifyChunkCommitment _ _ _ _ _ _) as [i v]. destruct (negb v); [auto with xnn |].
  destruct (rx_transaction _); [| auto with xnn].
  destruct (with_transaction _ _ _) as [st1 res]. destruct (negb _); [auto with xnn |].
  match goal with |- context [EncodeChunkAck ?s] => pose proof (rx_EncodeChunkAck s) as Hx;
    destruct (EncodeChunkAck s) as [st3 [frame |]] end; [| auto with xnn]. cbn [fst] in Hx.
  eapply reports_kept; [apply reports_current |]. by rewrite !rx_upd, Hx.
Qed.

#[local] Hint Resolve reports_ReceiveFileChunk : xnn.

Lemma reports_ReceiveManifestEntry fr now st : reports (ReceiveManifestEntry fr now st).
Proof. unfold ReceiveManifestEntry. report_cases. Qed.

Lemma reports_ReceiveFileBegin fr st : reports (ReceiveFileBegin fr st).
Proof. unfold ReceiveFileBegin. report_cases. Qed.

Lemma reports_ReceiveFileEnd fr now st : reports (ReceiveFileEnd fr now st).
Proof. unfold ReceiveFileEnd. report_cases. Qed.

Lemma reports_ReceiveComplete fr now st : reports (ReceiveComplete fr now st).
Proof. unfold ReceiveComplete. report_cases. Qed.

Lemma reports_ReceiveManifestEnd fr now st : reports (ReceiveManifestEnd fr now st).
Proof.
  unfold ReceiveManifestEnd. destruct (_ || _); [auto with xnn |].
  destruct (take_alloc st) as [st1 a]. destruct (negb a); [auto with xnn |].
  destruct (VerifyManifest _ _) as [integrity verified]. destruct (negb verified); [auto with xnn |].
  match goal with |- reports (?s, _) => generalize s end. intros st2.
  by split.
Qed.

#[local] Hint Resolve reports_ReceiveManifestEntry reports_ReceiveFileBegin
  reports_ReceiveFileEnd reports_ReceiveComplete reports_ReceiveManifestEnd : xnn.

Lemma reports_ReceiveInState fr now st : reports (ReceiveInState fr now st).
Proof. unfold ReceiveInState. report_cases. Qed.

Lemma reports_BeginRemoteCancel st : reports (BeginRemoteCancel st).
Proof. unfold BeginRemoteCancel. destruct (if DurableCommit st then _ else _). auto with xnn. Qed.

#[local] Hint Resolve reports_ReceiveInState reports_BeginRemoteCancel : xnn.

Lemma reports_ReceiveBody fr now st : reports (ReceiveBody fr now st).
Proof. unfold ReceiveBody, ReceiveError, ReceiveOffer. report_cases. Qed.

Lemma reports_ReceiveTerminal e st : reports (ReceiveTerminal e st).
Proof. unfold ReceiveTerminal. report_cases. Qed.

#[local] Hint Resolve reports_ReceiveBody reports_ReceiveTerminal : xnn.

Lemma reports_ReceiveFrame e now st : reports (ReceiveFrame e now st).
Proof.
  unfold ReceiveFrame. report_cases.
Qed.

Lemma reports_AcceptBegin request v chunk window now st :
  reports (AcceptBegin request v chunk window now st).
Proof.
  unfold AcceptBegin. report_cases. split; cbn [fst snd]; by rewrite rx_upd.
Qed.

#[local] Hint Resolve reports_ReceiveFrame reports_AcceptBegin : xnn.

Lemma reports_NextOutbound now st : reports (NextOutbound now st).
Proof.
  unfold NextOutbound. do 3 (destruct (_ : bool); [auto with xnn |]).
  destruct (Observe now st) as [st1 ok]. do 4 (destruct (_ : bool); [report_cases |]).
  apply reports_after_timeout. intros st2.
  do 3 (destruct (_ : bool); [report_cases |]). destruct (_ : bool); [| auto with xnn].
  pose proof (reports_EmitPendingFileCommit st2) as Hr.
  destruct (EmitPendingFileCommit st2) as [st3 u]. destruct (bool_decide _); [done |].
  unfold reports in *. cbn [fst snd] in *. rewrite rx_upd. exact Hr.
Qed.

(** Every call tells its caller the truth: the state and the terminal flag
    of the update it returns are those of the object it leaves, on every
    branch. *)
Theorem updates_report_state op st :
  u_state (rx_call op st).2 = rx_state (rx (rx_call op st).1) /\
  u_terminal (rx_call op st).2 = IsTerminal (rx_state (rx (rx_call op st).1)).
Proof.
  change (reports (rx_call op st)).
  destruct op; simpl; auto using reports_NextOutbound with xnn.
  - unfold ConfirmChunkAckWritten. report_cases.
  - unfold Accept. report_cases.
  - unfold Reject, BeginReject. report_cases.
  - unfold Advance. report_cases.
  - unfold Cancel, FinishCommitted, FinishCancelled. report_cases.
  - unfold Shutdown, FinishCommitted, FinishCancelled. report_cases.
Qed.

(** Calls with no change of the world between them. *)
Definition rx_run (ops : list rx_op) st : System :=
  fold_left (fun st op => (rx_call op st).1) ops st.

Lemma rx_run_reachable ops st : reachable st -> reachable (rx_run ops st).
Proof.
  unfold rx_run. revert st. induction ops as [| op ops IH]; intros st Hr; [done |].
  simpl. apply IH. pose proof (reach_call op (world st) st Hr) as Hc.
  by destruct st.
Qed.

End Invariant.

(** ** A transfer *)

(** A concrete world: every platform call and every integrity check succeeds;
    the peer sends a file of 5000 bytes in two chunks. *)
Module Example.
#[local] Existing Instance always_platform.
#[local] Existing Instance always_verifier.
#[local] Existing Instance ascii_utf8proc.

#[local] Instance always_integrity : TransferIntegrityProvider Always Always := {|
  VerifyManifest := fun _ i => (i, true);
  BuildChunkCommitment := fun _ _ _ _ i => (i, Some (repeat 5 32));
  VerifyChunkCommitment := fun _ _ _ _ _ i => (i, true);
  CreateFileVerifier := fun _ _ _ i => (i, Some (tt : Always));
|}.

Definition id16 : bytes := repeat 9 16.
Definition commitment : bytes := repeat 5 32.
Definition context : TransferContext := example_context Role.kResponder.
Definition peer : TransferContext := example_context Role.kInitiator.

Definition first_world : World OneSession Always Always :=
  {| w_authority := repeat 7 16; w_message_ids := MakeSequence 1 1;
     w_credit := MakeBudget 1048576 8;
     w_storage := {| st_budget := MakeTemporaryBudget 10000; st_platform := tt |};
     w_integrity := tt; w_alloc := [] |}.

Definition start : Sys OneSession Always Always Always :=
  {| rx := Receiver_initial context; world := first_world |}.

Definition frame (message_id : Z) (type : MessageType)
    (fields : list (BodyBuilder -> BodyBuilder)) : bytes :=
  match (EncodeFrame true peer type (MakeSequence message_id 1)
           (body_of (AddBytes true 1 id16 true :: fields))).2 with
  | Some f => f
  | None => []
  end.

Definition chunk_frame (message_id offset : Z) (data : bytes) : bytes :=
  match (EncodeFileChunkFrame true peer (MakeSequence message_id 1) id16 offset data
           commitment).2 with
  | Some f => f
  | None => []
  end.

Definition offer_ops : list rx_op :=
  [OpReceiveFrame (frame 1 kTransferOffer
     [AddU32 true 2 1 true; AddU64 true 3 5000 true; AddBytes true 4 commitment true]) 10;
   OpReceiveFrame (frame 2 kManifestEntry
     [AddU32 true 2 0 true; AddU8 true 3 1 true; AddUtf8 true 4 (chars "a.txt") true;
      AddU64 true 5 5000 true; AddBytes true 6 commitment true]) 20;
   OpReceiveFrame (frame 3 kManifestEnd
     [AddU32 true 2 1 true; AddU64 true 3 5000 true; AddBytes true 4 commitment true]) 30].

Definition data_ops : list rx_op :=
  [OpAccept 4096 8192 40;
   OpReceiveFrame (frame 4 kFileBegin
     [AddU32 true 2 0 true; AddU64 true 3 5000 true; AddU32 true 4 4096 true]) 50;
   OpReceiveFrame (chunk_frame 5 0 (repeat 1 4096)) 60].

Definition end_ops : list rx_op :=
  [OpConfirmChunkAckWritten 4096 70;
   OpReceiveFrame (chunk_frame 6 4096 (repeat 2 904)) 80;
   OpReceiveFrame (frame 7 kFileEnd
     [AddU32 true 2 0 true; AddU64 true 3 5000 true; AddBytes true 4 commitment true]) 90].

Definition complete_ops : list rx_op :=
  [OpReceiveFrame (frame 8 kTransferComplete [AddBytes true 2 commitment true]) 100].

Lemma start_reachable : reachable start.
Proof. by apply (reach_create context true first_world true). Qed.

Example transfer_states :
  List.map (fun ops => rx_state (rx (rx_run ops start)))
    [offer_ops; offer_ops ++ data_ops; offer_ops ++ data_ops ++ end_ops;
     offer_ops ++ data_ops ++ end_ops ++ complete_ops]
  = [TransferState.kAwaitingDecision; TransferState.kReceivingFile;
     TransferState.kAwaitingCompletion; TransferState.kCompleted].
Proof. vm_compute. reflexivity. Qed.

Definition receiving : Sys OneSession Always Always Always := rx_run (offer_ops ++ data_ops) start.
Definition completed : Sys OneSession Always Always Always :=
  rx_run (offer_ops ++ data_ops ++ end_ops ++ complete_ops) start.

Lemma receiving_reachable : reachable receiving.
Proof. apply rx_run_reachable, start_reachable. Qed.

Lemma completed_reachable : reachable completed.
Proof. apply rx_run_reachable, start_reachable. Qed.

Lemma receive_window_conserved_witness :
  rx_next_offset (rx receiving) = 4096 /\
  rx_available_credit (rx receiving)
    + (rx_next_offset (rx receiving) - rx_last_ack_written_offset (rx receiving))
  = rx_initial_window (rx receiving).
Proof.
  assert (Hs : rx_state (rx receiving) = TransferState.kReceivingFile) by (by vm_compute).
  split; [by vm_compute |].
  exact (proj1 (receive_window_conserved receiving receiving_reachable Hs)).
Defined.

Lemma data_only_between_accept_and_commit_witness :
  exists st : Sys OneSession Always Always Always,
    rx_state (rx st) = TransferState.kAwaitingDecision /\ rx_transaction (rx st) = None.
Proof.
  exists (rx_run offer_ops start).
  pose proof (data_only_between_accept_and_commit (rx_run offer_ops start)
    (rx_run_reachable offer_ops start start_reachable)) as H.
  assert (Hs : rx_state (rx (rx_run offer_ops start)) = TransferState.kAwaitingDecision)
    by (by vm_compute).
  rewrite Hs in H. split; [exact Hs | exact (proj1 H)].
Defined.

Lemma terminal_outcome_final_witness :
  IsTerminal (rx_state (rx completed)) = true /\
  IsTerminal (rx_state (rx (rx_call (OpCancel 110)
    (completed <| world := first_world |>)).1)) = true.
Proof.
  assert (Ht : IsTerminal (rx_state (rx completed)) = true) by (by vm_compute).
  split; [exact Ht |].
  exact (proj1 (terminal_outcome_final completed (OpCancel 110) first_world
    completed_reachable Ht)).
Defined.

Lemma shutdown_releases_everything_witness :
  rx_credit_reserved (rx receiving) = true /\
  IsTerminal (rx_state (rx (Shutdown receiving).1)) = true.
Proof.
  split; [by vm_compute |].
  exact (proj1 (shutdown_releases_everything receiving receiving_reachable)).
Defined.

End Example.
