(* ===== verification/ReceiverResources.v ===== *)
(** * What a receiver takes and gives back

    Every method of the receiver touches the resources it shares (the credit
    and the streams of the connection, the storage) only by a few elementary
    steps, so a relation those steps keep is kept by every method.  From it:
    the books of the connection and of the temporary budget balance on every
    path, and a receiver that has ended has given everything back. *)

From S2P Require Import Prelude.
From S2P Require Import V1Parser.
From S2P Require Import PathValidator.
From S2P Require Import PathValidatorProofs.
From S2P Require Import ReceiveTransaction.
From S2P Require Import ReceiveTransactionProofs.
From S2P Require Import Transfer.
From S2P Require Import Connection.
From S2P Require Import ConnectionProofs.
From S2P Require Import FrameCodec.
From S2P Require Import FrameCodecProofs.
From S2P Require Import Receiver.
From S2P Require Import ReceiverProofs.
Import MessageType.

Create HintDb keep discriminated.

(** ** The elementary steps *)

Section Steps.
Context {A I P V : Type} `{CA : SessionAuthority A} `{CI : TransferIntegrityProvider I V}
  `{CP : PlatformBackend P} `{CV : StreamingIntegrityVerifier V} `{CU : Utf8Proc}.
Abbreviation System := (Sys A I P V).
Implicit Types (st : System) (r : Receiver V).

(** What the receiver holds, and what it holds it of. *)
Definition holdings r :=
  (rx_context r, rx_transaction r, rx_initial_window r, rx_credit_reserved r,
   rx_stream_reserved r).
Definition shared st := (w_credit (world st), w_storage (world st)).

Definition created (v : V) : Prop :=
  exists id index commitment i, (CreateFileVerifier id index commitment i).2 = Some v.

(** A relation that the elementary steps keep. *)
Record step_invariant (Q : System -> Prop) : Prop := {
  si_same : forall st st', holdings (rx st') = holdings (rx st) -> shared st' = shared st ->
    Q st -> Q st';
  si_ReleaseCredit : forall st, Q st -> Q (ReleaseCredit st);
  si_ReleaseStream : forall st, Q st -> Q (ReleaseStream st);
  si_transaction : forall t op st, rx_transaction (rx st) = Some t -> Q st ->
    Q (with_transaction t (tx_call op) st).1;
  si_begin : forall request v st, rx_transaction (rx st) = None -> created v ->
    in_width 64 (declared_size request) -> Q st ->
    Q (with_transaction (MakeTransaction request true (Some v)) Begin st).1;
  si_reserve : forall window credit st, rx_credit_reserved (rx st) = false -> 0 <= window < 2 ^ 32 ->
    TryReserve CreditDirection.kInbound window (w_credit (world st)) = (credit, true) -> Q st ->
    Q (upd (fun r => r <| rx_initial_window := window |> <| rx_credit_reserved := true |>)
         (st <| world := (world st) <| w_credit := credit |> |>));
  si_open : forall st, Q st -> Q (OpenOnFirstFrame st).1;
}.

Context (Q : System -> Prop) (HQ : step_invariant Q).
#[local] Set Default Proof Using "All".

Ltac same_holdings := let r := fresh in
  match goal with |- _ = _ ?x => generalize x end; intros r; destruct r; cbv beta;
  repeat match goal with |- context [if ?c then _ else _] => destruct c end; reflexivity.

Lemma keep_upd f st : holdings (f (rx st)) = holdings (rx st) -> Q st -> Q (upd f st).
Proof. intros Hh. by apply (si_same Q HQ). Qed.

Lemma keep_world w st : w_credit w = w_credit (world st) -> w_storage w = w_storage (world st) ->
  Q st -> Q (st <| world := w |>).
Proof. intros H1 H2. apply (si_same Q HQ); [done |]. unfold shared. simpl. by rewrite H1, H2. Qed.

Lemma keep_ReleaseCredit st : Q st -> Q (ReleaseCredit st).
Proof. apply (si_ReleaseCredit Q HQ). Qed.

Lemma keep_ReleaseStream st : Q st -> Q (ReleaseStream st).
Proof. apply (si_ReleaseStream Q HQ). Qed.

Lemma keep_AbortTransaction st : Q st -> Q (AbortTransaction st).
Proof.
  intros Hq. unfold AbortTransaction. destruct (rx_transaction (rx st)) as [t |] eqn:E; [| done].
  by apply (si_transaction Q HQ t OpAbort st).
Qed.

Lemma keep_maybe_abort (b : bool) st : Q st -> Q (if b then st else AbortTransaction st).
Proof. destruct b; auto using keep_AbortTransaction. Qed.

Lemma keep_take_alloc st : Q st -> Q (take_alloc st).1.
Proof. intros Hq. unfold take_alloc. destruct (w_alloc (world st)); [done |]. by apply keep_world. Qed.

Lemma keep_encode f st : Q st -> Q (encode f st).1.
Proof.
  intros Hq. unfold encode. pose proof (keep_take_alloc st Hq) as Hq1.
  destruct (take_alloc st) as [st1 a]. destruct (f _ _ _). by apply keep_world.
Qed.

Lemma keep_parse_inbound e st : Q st -> Q (parse_inbound e st).1.
Proof. intros Hq. unfold parse_inbound. destruct (ParseInbound _ _ _ _). by apply keep_world. Qed.

Lemma keep_OpenOnFirstFrame st : Q st -> Q (OpenOnFirstFrame st).1.
Proof. apply (si_open Q HQ). Qed.

#[local] Hint Resolve keep_ReleaseCredit keep_ReleaseStream keep_AbortTransaction
  keep_maybe_abort keep_take_alloc keep_encode keep_parse_inbound keep_OpenOnFirstFrame : keep.
#[local] Hint Extern 2 (Q (upd _ _)) => (apply keep_upd; [same_holdings |]) : keep.
#[local] Hint Extern 2 (Q (update (proj := world) _ _)) => (apply keep_world; [reflexivity | reflexivity |]) : keep.

(** Case analysis of a method: every call inside it keeps [Q]. *)
Ltac keep_cases := repeat (first
  [ solve [auto 8 with keep]
  | match goal with
    | |- Q (_, _).1 => cbn [fst]
    | |- Q (let '(_, _) := ?x in _).1 =>
        let H := fresh "Hq" in
        first [ assert (H : Q x.1) by (auto 8 with keep) | idtac ];
        destruct x; cbn [fst] in *
    | |- Q (if ?c then _ else _).1 => case c
    | |- Q (if ?c then _ else _) => case c
    | |- Q (match ?x with _ => _ end).1 => case x; intros
    end; cbv zeta ]).

(** ** The methods *)

Lemma keep_EncodeError c retry u st : Q st -> Q (EncodeError c retry u st).1.
Proof. intros Hq. unfold EncodeError. keep_cases. Qed.

#[local] Hint Resolve keep_EncodeError : keep.

Lemma keep_Fail e w f st : Q st -> Q (Fail e w f st).1.
Proof. intros Hq. unfold Fail. cbv zeta. keep_cases. Qed.

Lemma keep_CancelTimeout st : Q st -> Q (CancelTimeout st).1.
Proof. intros Hq. unfold CancelTimeout. cbv zeta. keep_cases. Qed.

#[local] Hint Resolve keep_Fail keep_CancelTimeout : keep.

Lemma keep_CheckTimeout now st : Q st -> Q (CheckTimeout now st).1.
Proof. intros Hq. unfold CheckTimeout. cbv zeta. keep_cases. Qed.

Lemma keep_Observe now st : Q st -> Q (Observe now st).1.
Proof. intros Hq. unfold Observe. destruct (ObserveTime _ _). cbn [fst]. auto with keep. Qed.

#[local] Hint Resolve keep_CheckTimeout keep_Observe : keep.

Lemma keep_EmitCancelAck st : Q st -> Q (EmitCancelAck st).1.
Proof. intros Hq. unfold EmitCancelAck, CancelAckEncodingFailure. keep_cases. Qed.

Lemma keep_EmitCancel st : Q st -> Q (EmitCancel st).1.
Proof. intros Hq. unfold EmitCancel, CancellationEncodingFailure. keep_cases. Qed.

Lemma keep_FinishCancelled st : Q st -> Q (FinishCancelled st).1.
Proof. intros Hq. unfold FinishCancelled. keep_cases. Qed.

Lemma keep_FinishCommitted st : Q st -> Q (FinishCommitted st).1.
Proof. intros Hq. unfold FinishCommitted. keep_cases. Qed.

#[local] Hint Resolve keep_EmitCancelAck keep_EmitCancel keep_FinishCancelled
  keep_FinishCommitted : keep.

Lemma keep_Finish (b : bool) st : Q st -> Q (if b then FinishCommitted st else FinishCancelled st).1.
Proof. destruct b; auto with keep. Qed.

#[local] Hint Resolve keep_Finish : keep.

Lemma keep_BeginRemoteCancel st : Q st -> Q (BeginRemoteCancel st).1.
Proof. intros Hq. unfold BeginRemoteCancel. cbv zeta. keep_cases. Qed.

Lemma keep_ApplyCancelAck code st : Q st -> Q (ApplyCancelAck code st).1.
Proof. intros Hq. unfold ApplyCancelAck. cbv zeta. keep_cases. Qed.

Lemma keep_PendingEncodingFailure st : Q st -> Q (PendingEncodingFailure st).1.
Proof. intros Hq. unfold PendingEncodingFailure. keep_cases. Qed.

#[local] Hint Resolve keep_BeginRemoteCancel keep_ApplyCancelAck keep_PendingEncodingFailure : keep.

Lemma keep_EmitPendingReject st : Q st -> Q (EmitPendingReject st).1.
Proof. intros Hq. unfold EmitPendingReject, EncodeReject. cbv zeta. keep_cases. Qed.

#[local] Hint Resolve keep_EmitPendingReject : keep.

Lemma keep_BeginReject e w retry now st : Q st -> Q (BeginReject e w retry now st).1.
Proof. intros Hq. unfold BeginReject. cbv zeta. keep_cases. Qed.

#[local] Hint Resolve keep_BeginReject : keep.

Lemma keep_RejectForStorage e now st : Q st -> Q (RejectForStorage e now st).1.
Proof. intros Hq. unfold RejectForStorage. cbv zeta. keep_cases. Qed.

Lemma keep_EmitPendingFileCommit st : Q st -> Q (EmitPendingFileCommit st).1.
Proof. intros Hq. unfold EmitPendingFileCommit, EncodeFileCommit. cbv zeta. keep_cases. Qed.

Lemma keep_EmitPendingCompletionAck st : Q st -> Q (EmitPendingCompletionAck st).1.
Proof. intros Hq. unfold EmitPendingCompletionAck, EncodeCompleteAck. cbv zeta. keep_cases. Qed.

Lemma keep_StateViolation st : Q st -> Q (StateViolation st).1.
Proof. intros Hq. unfold StateViolation. auto with keep. Qed.

Lemma keep_Unauthenticated st : Q st -> Q (Unauthenticated st).1.
Proof. intros Hq. unfold Unauthenticated. auto with keep. Qed.

#[local] Hint Resolve keep_RejectForStorage keep_EmitPendingFileCommit
  keep_EmitPendingCompletionAck keep_StateViolation keep_Unauthenticated : keep.

Lemma keep_ReceiveTerminal e st : Q st -> Q (ReceiveTerminal e st).1.
Proof. intros Hq. unfold ReceiveTerminal. cbv zeta. keep_cases. Qed.

Lemma keep_ReceiveError fr st : Q st -> Q (ReceiveError fr st).1.
Proof. intros Hq. unfold ReceiveError. cbv zeta. keep_cases. Qed.

Lemma keep_NextOutbound now st : Q st -> Q (NextOutbound now st).1.
Proof. intros Hq. unfold NextOutbound. cbv zeta. keep_cases. Qed.

Lemma keep_ConfirmChunkAckWritten next now st : Q st -> Q (ConfirmChunkAckWritten next now st).1.
Proof. intros Hq. unfold ConfirmChunkAckWritten. cbv zeta. keep_cases. Qed.

Lemma keep_Reject code retry now st : Q st -> Q (Reject code retry now st).1.
Proof. intros Hq. unfold Reject. cbv zeta. keep_cases. Qed.

Lemma keep_Advance now st : Q st -> Q (Advance now st).1.
Proof. intros Hq. unfold Advance. cbv zeta. keep_cases. Qed.

Lemma keep_Cancel now st : Q st -> Q (Cancel now st).1.
Proof. intros Hq. unfold Cancel. cbv zeta. keep_cases. Qed.

Lemma keep_Shutdown st : Q st -> Q (Shutdown st).1.
Proof. intros Hq. unfold Shutdown. cbv zeta. keep_cases. Qed.

Lemma keep_ReceiveOffer fr id now st : Q st -> Q (ReceiveOffer fr id now st).1.
Proof. intros Hq. unfold ReceiveOffer, OutOfMemory. cbv zeta. keep_cases. Qed.

Lemma keep_ReceiveManifestEntry fr now st : Q st -> Q (ReceiveManifestEntry fr now st).1.
Proof. intros Hq. unfold ReceiveManifestEntry, InvalidManifest, OutOfMemory. cbv zeta. keep_cases. Qed.

Lemma keep_ReceiveManifestEnd fr now st : Q st -> Q (ReceiveManifestEnd fr now st).1.
Proof. intros Hq. unfold ReceiveManifestEnd, InvalidManifest, OutOfMemory. cbv zeta. keep_cases. Qed.

Lemma keep_ReceiveFileBegin fr st : Q st -> Q (ReceiveFileBegin fr st).1.
Proof. intros Hq. unfold ReceiveFileBegin. cbv zeta. keep_cases. Qed.

Lemma keep_ReceiveComplete fr now st : Q st -> Q (ReceiveComplete fr now st).1.
Proof. intros Hq. unfold ReceiveComplete. cbv zeta. keep_cases. Qed.

Lemma keep_ReceiveFileChunk fr now st : Q st -> Q (ReceiveFileChunk fr now st).1.
Proof.
  intros Hq. unfold ReceiveFileChunk, EncodeChunkAck. cbv zeta. do 2 (case (_ : bool); [auto with keep |]).
  destruct (VerifyChunkCommitment _ _ _ _ _ _) as [integrity verified].
  assert (Hq1 : Q (st <| world := (world st) <| w_integrity := integrity |> |>)) by auto with keep.
  case verified; cbn [negb]; [| auto with keep].
  match goal with |- context [rx_transaction (rx ?s)] =>
    destruct (rx_transaction (rx s)) as [t |] eqn:Et; [| auto with keep] end.
  pose proof (si_transaction Q HQ t (OpWrite (FieldBytes fr 4)) _ Et Hq1) as Hq2. cbn [tx_call] in Hq2.
  match goal with |- context [with_transaction ?t ?f ?s] =>
    change (Q (with_transaction t f s).1) in Hq2; destruct (with_transaction t f s) as [st2 res] end.
  cbn [fst] in Hq2. keep_cases.
Qed.

Lemma keep_ReceiveFileEnd fr now st : Q st -> Q (ReceiveFileEnd fr now st).1.
Proof.
  intros Hq. unfold ReceiveFileEnd. cbv zeta. case (_ || _); [auto with keep |].
  destruct (rx_transaction (rx st)) as [t |] eqn:Et; [| auto with keep].
  pose proof (si_transaction Q HQ t OpCommit _ Et Hq) as Hq2. cbn [tx_call] in Hq2.
  change (Q (with_transaction t SealAndCommit st).1) in Hq2.
  destruct (with_transaction t SealAndCommit st) as [st2 res]. cbn [fst] in Hq2. keep_cases.
Qed.

#[local] Hint Resolve keep_ReceiveTerminal keep_ReceiveError keep_ReceiveOffer
  keep_ReceiveManifestEntry keep_ReceiveManifestEnd keep_ReceiveFileBegin keep_ReceiveComplete
  keep_ReceiveFileChunk keep_ReceiveFileEnd : keep.

Lemma keep_ReceiveInState fr now st : Q st -> Q (ReceiveInState fr now st).1.
Proof. intros Hq. unfold ReceiveInState. cbv zeta. keep_cases. Qed.

#[local] Hint Resolve keep_ReceiveInState : keep.

Lemma keep_ReceiveBody fr now st : Q st -> Q (ReceiveBody fr now st).1.
Proof. intros Hq. unfold ReceiveBody. cbv zeta. keep_cases. Qed.

#[local] Hint Resolve keep_ReceiveBody : keep.

Lemma keep_ReceiveFrame e now st : Q st -> Q (ReceiveFrame e now st).1.
Proof. intros Hq. unfold ReceiveFrame. cbv zeta. keep_cases. Qed.

Lemma keep_AcceptBegin request v chunk window now st :
  rx_transaction (rx st) = None -> created v -> in_width 64 (declared_size request) -> Q st ->
  Q (AcceptBegin request v chunk window now st).1.
Proof.
  intros Ht Hv Hw Hq. unfold AcceptBegin, EncodeAccept. cbv zeta.
  pose proof (rx_take_alloc st) as Hx. pose proof (keep_take_alloc st Hq) as Hq1.
  destruct (take_alloc st) as [st1 a]. cbn [fst] in *. case a; cbn [negb]; [| auto with keep].
  rewrite <- Hx in Ht. pose proof (si_begin Q HQ request v st1 Ht Hv Hw Hq1) as Hq2.
  destruct (with_transaction _ Begin st1) as [st2 res]. cbn [fst] in Hq2. keep_cases.
Qed.

Lemma keep_Accept chunk window now st :
  rx_inv (rx st) -> Q st -> Q (Accept chunk window now st).1.
Proof.
  intros Hi Hq. unfold Accept. cbv zeta. case (IsTerminal _); [done |].
  destruct (rx_request (rx st)) as [request |] eqn:Eq; [| done].
  case (bool_decide _); [by case (_ && _) |].
  destruct (bool_decide_reflect (rx_state (rx st) = TransferState.kAwaitingDecision)) as [Es |];
    cbn [negb]; [| done].
  pose proof (keep_Observe now st Hq) as Hq1. pose proof (Observe_inv now st Hi) as Hi1.
  assert (Ho : rx_state (rx (Observe now st).1) = rx_state (rx st) /\
               rx_request (rx (Observe now st).1) = rx_request (rx st))
    by (unfold Observe; destruct (ObserveTime _ _); done).
  destruct (Observe now st) as [st1 ok]. cbn [fst] in *. destruct Ho as [Hs Hr].
  rewrite Es in Hs. rewrite Eq in Hr. clear Es Eq Hi Hq st. case (negb ok); [auto with keep |].
  pose proof (keep_CheckTimeout now st1 Hq1) as Hq2.
  destruct (CheckTimeout_spec now st1 Hi1) as [E | [_ Eu]].
  2: { destruct (CheckTimeout now st1) as [st2 u]. cbn [snd] in Eu. rewrite Eu. exact Hq2. }
  rewrite E. cbn [fst]. case (negb _); [exact Hq1 |]. case (negb _); [auto with keep |].
  destruct (AcceptParametersInvalid _ _ _) eqn:Ep; [auto with keep |].
  destruct (TryReserve _ _ _) as [credit reserved] eqn:Er.
  destruct Hi1 as (Hf & _ & Hin). unfold in_state in Hin. rewrite Hs in Hin.
  destruct Hin as (Htx & Hcr & _).
  destruct reserved; cbn [negb].
  2: { assert (credit = w_credit (world st1)) as ->
         by (unfold TryReserve in Er; destruct (_ || _); congruence). auto with keep. }
  apply AcceptParametersInvalid_false in Ep.
  assert (Hq3 := si_reserve Q HQ window credit st1 Hcr ltac:(unfold kMinimumChunkSize, kMaximumTransferWindow in *; lia) Er Hq1).
  set (st3 := upd _ _) in *. assert (Ht3 : rx_transaction (rx st3) = None) by exact Htx.
  clearbody st3. destruct (CreateFileVerifier _ _ _ _) as [integrity [v |]] eqn:Ev; [| auto with keep].
  apply keep_AcceptBegin; [exact Ht3 | | | auto with keep].
  - eexists _, _, _, _. by rewrite Ev.
  - rewrite (fa_request _ _ _ Hf request Hr). pose proof (fa_size _ _ _ Hf) as Hz.
    unfold kMaxFileBytes in Hz. widths.
Qed.

Lemma rx_call_keeps op st : rx_inv (rx st) -> Q st -> Q (rx_call op st).1.
Proof.
  intros Hi Hq. destruct op; simpl; auto using keep_ReceiveFrame, keep_NextOutbound,
    keep_ConfirmChunkAckWritten, keep_Accept, keep_Reject, keep_Advance, keep_Cancel, keep_Shutdown.
Qed.

End Steps.

(** ** The books *)

Section Books.
Context {A I P V : Type} `{CA : SessionAuthority A} `{CI : TransferIntegrityProvider I V}
  `{CP : PlatformBackend P} `{CV : StreamingIntegrityVerifier V} `{CU : Utf8Proc}.
Abbreviation System := (Sys A I P V).
Implicit Types (st : System) (r : Receiver V).

(** What others hold of the connection and of the temporary budget: inbound
    credit, streams and reserved temporary bytes. *)
Record Others := {
  ot_credit : Z;
  ot_streams : list Z;
  ot_temporary : Z;
}.

Definition held_credit r : Z := if rx_credit_reserved r then rx_initial_window r else 0.
Definition held_streams r : list Z :=
  if rx_stream_reserved r then [c_stream_id (rx_context r)] else [].
Definition held_temporary (tx : option (ReceiveTransaction V)) : Z :=
  match tx with Some t => held t | None => 0 end.

Record credit_books (o : Others) r (b : ConnectionCreditBudget) : Prop := {
  cb_ok : budget_ok b;
  cb_others : 0 <= ot_credit o;
  cb_window : 0 <= held_credit r;
  cb_credit : reserved_bytes CreditDirection.kInbound b = ot_credit o + held_credit r;
  cb_streams : active_list b ≡ₚ held_streams r ++ ot_streams o;
}.

Record storage_books (o : Others) (tx : option (ReceiveTransaction V)) (b : TemporaryBudget)
    : Prop := {
  sb_transaction : forall t, tx = Some t -> tx_ok t;
  sb_others : 0 <= ot_temporary o;
  sb_unresolved : 0 <= tb_unresolved_bytes b;
  sb_reserved : tb_reserved_bytes b = ot_temporary o + held_temporary tx + tb_unresolved_bytes b;
  sb_limit : tb_reserved_bytes b <= tb_limit_bytes b < 2 ^ 64;
}.

(** The books balance: what is entered in them is what the others hold and
    what this receiver holds. *)
Definition balanced (o : Others) st : Prop :=
  credit_books o (rx st) (w_credit (world st)) /\
  storage_books o (rx_transaction (rx st)) (st_budget (w_storage (world st))).

Lemma held_credit_same r r' : holdings r' = holdings r -> held_credit r' = held_credit r.
Proof. unfold holdings. intros [= _ _ H1 H2 _]. unfold held_credit. by rewrite H1, H2. Qed.

Lemma held_streams_same r r' : holdings r' = holdings r -> held_streams r' = held_streams r.
Proof. unfold holdings. intros [= H1 _ _ _ H2]. unfold held_streams. by rewrite H1, H2. Qed.

Lemma credit_books_same o r r' b : holdings r' = holdings r ->
  credit_books o r b -> credit_books o r' b.
Proof.
  intros Hh []. split; rewrite ?(held_credit_same _ _ Hh), ?(held_streams_same _ _ Hh); done.
Qed.

Lemma credit_books_released o r b : rx_credit_reserved r = true -> credit_books o r b ->
  credit_books o (r <| rx_credit_reserved := false |>)
    (Release CreditDirection.kInbound (rx_initial_window r) b).
Proof.
  intros Hc [Hb Ho Hw Hr Hs]. unfold held_credit in Hw, Hr. rewrite Hc in Hw, Hr.
  pose proof (reserved_range CreditDirection.kInbound _ Hb).
  rewrite Release_spec by done. destruct (Z.leb_spec (rx_initial_window r)
    (reserved_bytes CreditDirection.kInbound b)); [| lia].
  split; [apply budget_ok_set_reserved; [done | lia] | done | done | |].
  - rewrite set_reserved_same, Hr. change (held_credit (r <| rx_credit_reserved := false |>)) with 0.
    lia.
  - exact Hs.
Qed.

Lemma credit_books_closed o r b : rx_stream_reserved r = true -> credit_books o r b ->
  credit_books o (r <| rx_stream_reserved := false |>)
    (CloseStream (c_stream_id (rx_context r)) b).
Proof.
  intros Hc [Hb Ho Hw Hr Hs]. unfold held_streams in Hs. rewrite Hc in Hs.
  assert (Hin : c_stream_id (rx_context r) ∈ active_list b)
    by (rewrite Hs; apply list_elem_of_In; by left).
  destruct (CloseStream_perm _ _ Hb Hin) as [Hp _].
  split; [by apply budget_ok_CloseStream | done | exact Hw | |].
  - refine (eq_trans _ Hr). unfold CloseStream. by destruct (find_active _ _).
  - rewrite Hp in Hs. by apply Permutation_cons_inv in Hs.
Qed.

Lemma credit_books_reserved o r b b' window : rx_credit_reserved r = false -> 0 <= window ->
  TryReserve CreditDirection.kInbound window b = (b', true) -> credit_books o r b ->
  credit_books o (r <| rx_initial_window := window |> <| rx_credit_reserved := true |>) b'.
Proof.
  intros Hc Hn Er [Hb Ho _ Hr Hs]. unfold held_credit in Hr. rewrite Hc in Hr.
  rewrite TryReserve_spec in Er by done.
  destruct (Z.leb_spec (reserved_bytes CreditDirection.kInbound b + window) (b_limit_bytes b)); [| done].
  apply (f_equal fst) in Er. cbn [fst] in Er. subst b'.
  pose proof (reserved_range CreditDirection.kInbound _ Hb).
  split; [apply budget_ok_set_reserved; [done | lia] | done | exact Hn | | exact Hs].
  rewrite set_reserved_same, Hr.
  change (held_credit (r <| rx_initial_window := window |> <| rx_credit_reserved := true |>))
    with window. lia.
Qed.

Lemma OpenStream_books id c role b : budget_ok b ->
  let '(b', res) := OpenStream id c role b in
  budget_ok b' /\
  reserved_bytes CreditDirection.kInbound b' = reserved_bytes CreditDirection.kInbound b /\
  active_list b' ≡ₚ (if bool_decide (res = StreamOpenResult.kOpened) then [id] else [])
                    ++ active_list b.
Proof.
  intros Hb. pose proof (budget_ok_OpenStream id c role b Hb) as Hb'.
  pose proof (OpenStream_spec id c role b) as Hs. destruct (OpenStream id c role b) as [b' res].
  split; [exact Hb' |].
  assert (Hr : forall x, reserved_bytes CreditDirection.kInbound (with_role x role)
                = reserved_bytes CreditDirection.kInbound x)
    by (intros x; unfold with_role; by destruct (b_role_initialized x)).
  assert (Hk : forall x, reserved_bytes CreditDirection.kInbound (consume_id x c)
                = reserved_bytes CreditDirection.kInbound x)
    by (intros x; unfold consume_id, set_exhausted, set_expected; by repeat case_match).
  inversion Hs as [| | | Hid Hrole Hx He Hn Hcap]; subst b' res.
  - done.
  - by rewrite active_with_role.
  - split; [destruct c; by rewrite ?Hk, Hr |]. destruct c; by rewrite ?active_consume, active_with_role.
  - split; [rewrite Hk; exact (Hr b) |].
    rewrite active_consume, active_opened, active_with_role;
      [| by apply budget_ok_with_role
       | by rewrite !(proj1 (streams_of_with_role b role)), (proj2 (streams_of_with_role b role))].
    simpl. by rewrite Permutation_app_comm.
Qed.

Lemma balanced_open o st : balanced o st -> balanced o (OpenOnFirstFrame st).1.
Proof.
  intros [Hc Hs]. unfold OpenOnFirstFrame.
  destruct (negb (rx_stream_reserved (rx st)) && _) eqn:E; [| done].
  apply andb_true_iff in E as [E%negb_true_iff _]. destruct Hc as [Hb Ho Hw Hr Ha].
  pose proof (OpenStream_books (c_stream_id (rx_context (rx st))) false
    (c_local_role (rx_context (rx st))) (w_credit (world st)) Hb) as Hopen.
  destruct (OpenStream _ _ _ _) as [b' res]. destruct Hopen as (Hb' & Hr' & Ha').
  unfold held_streams in Ha. rewrite E in Ha. simpl in Ha. rewrite Ha in Ha'.
  destruct (bool_decide (res = StreamOpenResult.kOpened)); cbn [fst]; (split; [| exact Hs]).
  - rewrite rx_upd. split; [exact Hb' | done | exact Hw | |].
    + refine (eq_trans Hr' Hr).
    + exact Ha'.
  - split; [exact Hb' | done | exact Hw | refine (eq_trans Hr' Hr) |].
    unfold held_streams. change (rx (st <| world := _ |>)) with (rx st). rewrite E. exact Ha'.
Qed.

Lemma storage_books_call o t tx op (s : Storage P) :
  tx_ok t -> held_temporary tx = held t ->
  storage_books o tx (st_budget s) ->
  storage_books o (Some (tx_call op t s).1.1) (st_budget (tx_call op t s).1.2).
Proof.
  intros Hok Hh [_ Ho Hu Hr Hl]. destruct (tx_call_ok op t s Hok) as (Hok' & _ & Hk).
  rewrite Hh in Hr. destruct (Hk (ot_temporary o)) as (_ & Hu' & Hr' & Hl').
  { unfold ledger. split_and!; lia. }
  split; [by intros ? [= <-] | done | done | exact Hr' | exact Hl'].
Qed.

Lemma balanced_transaction o t tx op st :
  tx_ok t -> rx_transaction (rx st) = tx -> held_temporary tx = held t -> balanced o st ->
  balanced o (with_transaction t (tx_call op) st).1.
Proof.
  intros Hok Ht Hh [Hc Hs]. unfold with_transaction.
  rewrite Ht in Hs. pose proof (storage_books_call o t tx op _ Hok Hh Hs) as Hs'.
  destruct (tx_call op t _) as [[t' s'] res]. cbn [fst snd] in *. split; [| exact Hs'].
  destruct Hc. by split.
Qed.

Lemma balanced_steps o : step_invariant (balanced o).
Proof.
  split.
  - intros st st' Hh Hsh [Hc Hs]. unfold shared in Hsh. injection Hsh as H1 H2.
    unfold balanced. rewrite H1, H2. split; [by eapply credit_books_same |].
    unfold holdings in Hh. injection Hh as _ -> _ _ _. exact Hs.
  - intros st [Hc Hs]. unfold ReleaseCredit. destruct (rx_credit_reserved (rx st)) eqn:E;
      cbn [negb]; [| done]. split; [| exact Hs]. by apply credit_books_released.
  - intros st [Hc Hs]. unfold ReleaseStream. destruct (rx_stream_reserved (rx st)) eqn:E;
      cbn [negb]; [| done]. split; [| exact Hs]. by apply credit_books_closed.
  - intros t op st Ht Hq. apply (balanced_transaction o t (Some t)); [| done..].
    by apply (sb_transaction _ _ _ (proj2 Hq)).
  - intros request v st Ht _ Hw Hq.
    by apply (balanced_transaction o (MakeTransaction request true (Some v)) None OpBegin).
  - intros window credit st Hc Hw Er [Hcb Hs]. split; [| exact Hs].
    eapply credit_books_reserved; [exact Hc | lia | exact Er | exact Hcb].
  - intros st. apply balanced_open.
Qed.

(** The states of a receiver that shares its connection and its storage: it is
    created, its methods are called in any order, and between the calls the
    world may become any other in which the receiver's holdings are still
    entered. *)
Inductive sharing : Others -> System -> Prop :=
  | share_create o context budget_set w alloc_ok st :
      (Create context budget_set w alloc_ok).1 = Some st -> balanced o st -> sharing o st
  | share_others o o' w st :
      sharing o st -> balanced o' (st <| world := w |>) -> sharing o' (st <| world := w |>)
  | share_call o op st : sharing o st -> sharing o (rx_call op st).1.

Lemma sharing_inv o st : sharing o st -> rx_inv (rx st) /\ balanced o st.
Proof.
  induction 1 as [o context b w a st Hc Hb | o o' w st _ [IH _] Hb | o op st _ [IH Hb]].
  - split; [by eapply Create_inv | done].
  - done.
  - split; [by apply rx_call_inv | apply rx_call_keeps; [apply balanced_steps | done..]].
Qed.

(** C4: Whatever the calls, the frames and the other users of the connection
    and of the storage did, a receiver in a terminal state has given back all
    it took: of the inbound credit of the connection, of its streams and of the
    temporary budget exactly what the others hold is entered (beside the
    temporary files that could not be removed), and it has no temporary file
    open.  And the state tells the truth about the disk: it is committed or
    completed exactly when the transaction was durably committed. *)
Theorem terminal_state_matches_disk o st :
  sharing o st -> IsTerminal (rx_state (rx st)) = true ->
  reserved_bytes CreditDirection.kInbound (w_credit (world st)) = ot_credit o /\
  active_list (w_credit (world st)) ≡ₚ ot_streams o /\
  tb_reserved_bytes (st_budget (w_storage (world st)))
    = ot_temporary o + tb_unresolved_bytes (st_budget (w_storage (world st))) /\
  released_tx (rx_transaction (rx st)) /\
  (DurableCommit st = true <->
   rx_state (rx st) = TransferState.kCommitted \/ rx_state (rx st) = TransferState.kCompleted).
Proof.
  intros Hsh Ht. destruct (sharing_inv o st Hsh) as (Hi & [_ _ _ Hcr Hst] & [_ _ _ Htmp _]).
  destruct (ended_released _ (conj Hi Ht)) as (Hc & Hs & Htx).
  unfold held_credit in Hcr. rewrite Hc in Hcr. unfold held_streams in Hst. rewrite Hs in Hst.
  split; [lia |]. split; [exact Hst |]. split; [| split; [exact Htx |]].
  - rewrite Htmp. unfold held_temporary, held. destruct (rx_transaction (rx st)) as [t |]; [| lia].
    destruct Htx as [_ ->]. lia.
  - rewrite DurableCommit_durable, (ended_durable _ (conj Hi Ht)).
    split; [by destruct (rx_state (rx st)); auto | by intros [-> | ->]].
Qed.

Lemma sharing_run o ops st : sharing o st -> sharing o (rx_run ops st).
Proof.
  unfold rx_run. revert st. induction ops as [| op ops IH]; intros st Hs; [done |].
  simpl. by apply IH, share_call.
Qed.

End Books.

(** ** A transfer beside another *)

Module ResourcesExample.
#[local] Existing Instance always_platform.
#[local] Existing Instance always_verifier.
#[local] Existing Instance ascii_utf8proc.
#[local] Existing Instance Example.always_integrity.
Import Example.

(** Another transfer of the connection has reserved 4096 bytes of credit and
    300 temporary bytes. *)
Definition others : Others := {| ot_credit := 4096; ot_streams := []; ot_temporary := 300 |}.

Definition busy_world : World OneSession Always Always :=
  first_world <| w_credit := (TryReserve CreditDirection.kInbound 4096 (w_credit first_world)).1 |>
    <| w_storage := {| st_budget := (TryReserveTemporary 300 (MakeTemporaryBudget 10000)).1;
                       st_platform := tt |} |>.

Definition busy_start : Sys OneSession Always Always Always :=
  {| rx := Receiver_initial context; world := busy_world |}.

Definition busy_completed : Sys OneSession Always Always Always :=
  rx_run (offer_ops ++ data_ops ++ end_ops ++ complete_ops) busy_start.

Lemma busy_balanced : balanced others busy_start.
Proof.
  split; (split; [.. |]); try done.
  - apply (budget_ok_TryReserve CreditDirection.kInbound 4096); [| done].
    by apply (budget_ok_Make 1048576 8).
Qed.

Lemma terminal_state_matches_disk_witness :
  held_credit (rx (rx_run (offer_ops ++ data_ops) busy_start)) = 8192 /\
  rx_state (rx busy_completed) = TransferState.kCompleted /\
  reserved_bytes CreditDirection.kInbound (w_credit (world busy_completed)) = 4096 /\
  active_list (w_credit (world busy_completed)) ≡ₚ [] /\ DurableCommit busy_completed = true.
Proof.
  assert (Hs : rx_state (rx busy_completed) = TransferState.kCompleted) by (by vm_compute).
  assert (Ht : IsTerminal (rx_state (rx busy_completed)) = true) by (by vm_compute).
  destruct (terminal_state_matches_disk others busy_completed) as (Hc & Ha & _ & _ & Hd);
    [| exact Ht |].
  { apply sharing_run. apply (share_create others context true busy_world true);
      [by vm_compute | exact busy_balanced]. }
  split; [by vm_compute |]. split; [exact Hs |]. split; [exact Hc |]. split; [exact Ha |].
  apply (proj2 Hd). right. exact Hs.
Defined.

End ResourcesExample.
