(* ===== verification/Sender.v ===== *)
(** * The sending end of a one-file transfer

    [OneFileSender] of [native/src/transfer/sender.cpp], in the style of
    [Receiver]: a method of its [Implementation] is a function on [Sys], the
    members of the object and the world its pointers lead to.  The file source
    is owned by the object, [None] once it was reset.  An exception out of
    [FileSource::Read] or [BuildChunkCommitment] is not modelled. *)

From S2P Require Import Prelude.
From S2P Require Import V1Parser.
From S2P Require Import PathValidator.
From S2P Require Import Transfer.
From S2P Require Import Connection.
From S2P Require Import FrameCodec.
From S2P Require Import Receiver.
Import MessageType.

Module FileSourceError.
Inductive FileSourceError := kNone | kOutOfRange | kIoFailure.

#[global] Instance file_source_error_eq_dec : EqDecision FileSourceError.
Proof. solve_decision. Defined.
End FileSourceError.

(** [FileReadResult]. *)
Record FileReadResult := {
  fr_error : FileSourceError.FileSourceError;
  fr_data : bytes;
}.

Definition read_ok (r : FileReadResult) : bool :=
  bool_decide (fr_error r = FileSourceError.kNone).

(** [FileSource], an interface: [size] and [Read]. *)
Class FileSource (F : Type) := {
  source_size : F -> Z;
  ReadSource : Z -> Z -> F -> F * FileReadResult;
}.

Module Sender.

(** The frames the sender waits for in a state. *)
Definition ExpectedFrame (state : TransferState.TransferState) (type : MessageType) : bool :=
  match state with
  | TransferState.kAwaitingDecision =>
      bool_decide (type = kTransferAccept) || bool_decide (type = kTransferReject)
  | TransferState.kSendingFile => bool_decide (type = kChunkAck)
  | TransferState.kAwaitingFileCommit => bool_decide (type = kFileCommit)
  | TransferState.kCompleting => bool_decide (type = kTransferCompleteAck)
  | _ => false
  end.

Definition AllowedInbound (state : TransferState.TransferState) (type : MessageType)
    (cancel_origin_state : TransferState.TransferState) : bool :=
  if bool_decide (type = kError) then true
  else if bool_decide (type = kCancel) then
    negb (bool_decide (state = TransferState.kCreated))
  else if bool_decide (type = kCancelAck) then
    bool_decide (state = TransferState.kCancelling)
  else if bool_decide (state = TransferState.kCancelling) then
    ExpectedFrame cancel_origin_state type
  else ExpectedFrame state type.

Section Sender.
Context {A I V F : Type} `{SessionAuthority A} `{TransferIntegrityProvider I V}
  `{FileSource F} `{Utf8Proc}.

(** ** State *)

(** The data members of [OneFileSender::Implementation]. *)
Record Sender := {
  sn_context : TransferContext;
  sn_manifest : OneFileManifest;
  sn_source : option F;
  sn_state : TransferState.TransferState;
  sn_cancel_origin_state : TransferState.TransferState;
  sn_manifest_stage : Z;
  sn_file_begin_sent : bool;
  sn_file_end_sent : bool;
  sn_chunk_size : Z;
  sn_reserved_credit : Z;
  sn_available_credit : Z;
  sn_unacknowledged : Z;
  sn_bytes_sent : Z;
  sn_acknowledged_offset : Z;
  sn_last_now_ms : Z;
  sn_manifest_deadline_ms : Z;
  sn_manifest_progress_deadline_ms : Z;
  sn_decision_deadline_ms : Z;
  sn_acknowledgement_deadline_ms : Z;
  sn_data_deadline_ms : Z;
  sn_cancel_deadline_ms : Z;
  sn_stream_reserved : bool;
  sn_credit_reserved : bool;
  sn_cancel_frame_pending : bool;
  sn_cancel_sent : bool;
  sn_cancel_ack_pending : bool;
  sn_cancel_ack_failure_is_terminal : bool;
  sn_shutdown : bool;
  sn_pending_cancel_ack_code : WireErrorCode.WireErrorCode;
  sn_terminal_error : TransferError.TransferError;
  sn_terminal_wire_error : WireErrorCode.WireErrorCode;
  sn_terminal_connection_fatal : bool;
  sn_terminal_retryable : bool;
}.

#[global] Instance eta_Sender : Eta Sender := fun x =>
  {| sn_context := sn_context x; sn_manifest := sn_manifest x; sn_source := sn_source x;
     sn_state := sn_state x; sn_cancel_origin_state := sn_cancel_origin_state x;
     sn_manifest_stage := sn_manifest_stage x; sn_file_begin_sent := sn_file_begin_sent x;
     sn_file_end_sent := sn_file_end_sent x; sn_chunk_size := sn_chunk_size x;
     sn_reserved_credit := sn_reserved_credit x; sn_available_credit := sn_available_credit x;
     sn_unacknowledged := sn_unacknowledged x; sn_bytes_sent := sn_bytes_sent x;
     sn_acknowledged_offset := sn_acknowledged_offset x; sn_last_now_ms := sn_last_now_ms x;
     sn_manifest_deadline_ms := sn_manifest_deadline_ms x;
     sn_manifest_progress_deadline_ms := sn_manifest_progress_deadline_ms x;
     sn_decision_deadline_ms := sn_decision_deadline_ms x;
     sn_acknowledgement_deadline_ms := sn_acknowledgement_deadline_ms x;
     sn_data_deadline_ms := sn_data_deadline_ms x;
     sn_cancel_deadline_ms := sn_cancel_deadline_ms x;
     sn_stream_reserved := sn_stream_reserved x; sn_credit_reserved := sn_credit_reserved x;
     sn_cancel_frame_pending := sn_cancel_frame_pending x; sn_cancel_sent := sn_cancel_sent x;
     sn_cancel_ack_pending := sn_cancel_ack_pending x;
     sn_cancel_ack_failure_is_terminal := sn_cancel_ack_failure_is_terminal x;
     sn_shutdown := sn_shutdown x; sn_pending_cancel_ack_code := sn_pending_cancel_ack_code x;
     sn_terminal_error := sn_terminal_error x;
     sn_terminal_wire_error := sn_terminal_wire_error x;
     sn_terminal_connection_fatal := sn_terminal_connection_fatal x;
     sn_terminal_retryable := sn_terminal_retryable x |}.

Record World := {
  w_authority : A;
  w_message_ids : ConnectionMessageSequence;
  w_credit : ConnectionCreditBudget;
  w_integrity : I;
  w_alloc : list bool;
}.

#[global] Instance eta_World : Eta World := fun x =>
  {| w_authority := w_authority x; w_message_ids := w_message_ids x; w_credit := w_credit x;
     w_integrity := w_integrity x; w_alloc := w_alloc x |}.

Record Sys := {
  sn : Sender;
  world : World;
}.

#[global] Instance eta_Sys : Eta Sys := fun x => {| sn := sn x; world := world x |}.

Implicit Types (st : Sys) (s : Sender).

Definition upd (f : Sender -> Sender) st : Sys := st <| sn := f (sn st) |>.

Definition Sender_initial (context : TransferContext) (manifest : OneFileManifest) (source : F)
    : Sender :=
  {| sn_context := context; sn_manifest := manifest; sn_source := Some source;
     sn_state := TransferState.kCreated; sn_cancel_origin_state := TransferState.kCreated;
     sn_manifest_stage := 0; sn_file_begin_sent := false; sn_file_end_sent := false;
     sn_chunk_size := 0; sn_reserved_credit := 0; sn_available_credit := 0;
     sn_unacknowledged := 0; sn_bytes_sent := 0; sn_acknowledged_offset := 0;
     sn_last_now_ms := 0; sn_manifest_deadline_ms := 0;
     sn_manifest_progress_deadline_ms := 0; sn_decision_deadline_ms := 0;
     sn_acknowledgement_deadline_ms := 0; sn_data_deadline_ms := 0; sn_cancel_deadline_ms := 0;
     sn_stream_reserved := true; sn_credit_reserved := false;
     sn_cancel_frame_pending := false; sn_cancel_sent := false;
     sn_cancel_ack_pending := false; sn_cancel_ack_failure_is_terminal := false;
     sn_shutdown := false; sn_pending_cancel_ack_code := WireErrorCode.kNone;
     sn_terminal_error := TransferError.kNone;
     sn_terminal_wire_error := WireErrorCode.kNone;
     sn_terminal_connection_fatal := false; sn_terminal_retryable := false |}.

Definition take_alloc st : Sys * bool :=
  match w_alloc (world st) with
  | [] => (st, true)
  | a :: rest => (st <| world := (world st) <| w_alloc := rest |> |>, a)
  end.

Definition authorized st : bool :=
  Authorized (w_authority (world st)) (sn_context (sn st)).

Definition encode (encoder : bool -> TransferContext -> ConnectionMessageSequence ->
    ConnectionMessageSequence * option bytes) st : Sys * option bytes :=
  let '(st, alloc_ok) := take_alloc st in
  let '(ids, output) := encoder alloc_ok (sn_context (sn st)) (w_message_ids (world st)) in
  (st <| world := (world st) <| w_message_ids := ids |> |>, output).

(** ** Updates, releases and failures *)

(** [Implementation::Update]. *)
Definition CurrentUpdate st : TransferUpdate :=
  let s := sn st in
  TransferUpdate_default
    <| u_state := sn_state s |> <| u_error := sn_terminal_error s |>
    <| u_wire_error := sn_terminal_wire_error s |>
    <| u_terminal := IsTerminal (sn_state s) |>
    <| u_connection_fatal := sn_terminal_connection_fatal s |>
    <| u_retryable := sn_terminal_retryable s |>.

Definition RememberTerminal (error : TransferError.TransferError)
    (wire_error : WireErrorCode.WireErrorCode) (connection_fatal retryable : bool) s
    : Sender :=
  s <| sn_terminal_error := error |> <| sn_terminal_wire_error := wire_error |>
    <| sn_terminal_connection_fatal := connection_fatal |>
    <| sn_terminal_retryable := retryable |>.

Definition reset_source s : Sender := s <| sn_source := None |>.

Definition ReleaseCredit st : Sys :=
  if sn_credit_reserved (sn st) then
    let st := st <| world := (world st) <| w_credit := Release CreditDirection.kOutbound
                                  (sn_reserved_credit (sn st)) (w_credit (world st)) |> |> in
    upd (fun s => s <| sn_credit_reserved := false |> <| sn_reserved_credit := 0 |>) st
  else st.

Definition ReleaseStream st : Sys :=
  if sn_stream_reserved (sn st) then
    let st := st <| world := (world st) <| w_credit :=
                       CloseStream (c_stream_id (sn_context (sn st))) (w_credit (world st)) |> |> in
    upd (fun s => s <| sn_stream_reserved := false |>) st
  else st.

Definition ReleaseResources st : Sys := ReleaseStream (ReleaseCredit (upd reset_source st)).

(** The cancellation members that the ends reset. *)
Definition reset_cancel s : Sender :=
  s <| sn_cancel_frame_pending := false |> <| sn_cancel_ack_pending := false |>
    <| sn_cancel_ack_failure_is_terminal := false |> <| sn_cancel_sent := false |>
    <| sn_cancel_deadline_ms := 0 |>.

Definition EncodeError (code : WireErrorCode.WireErrorCode) (retryable : bool)
    (update : TransferUpdate) st : Sys * TransferUpdate :=
  let '(st, output) :=
    encode (fun a c ids => EncodeErrorFrame a c ids code retryable) st in
  (st, match output with Some f => update <| u_outbound_frame := f |> | None => update end).

Definition Fail (error : TransferError.TransferError)
    (wire_error : WireErrorCode.WireErrorCode) (connection_fatal : bool) st
    : Sys * TransferUpdate :=
  let st := ReleaseResources st in
  let st := upd (fun s => RememberTerminal error wire_error connection_fatal
                            (WireErrorMayRetry wire_error)
                            ((reset_cancel s) <| sn_state := TransferState.kFailed |>)) st in
  let update := (FailureUpdate TransferState.kFailed error wire_error connection_fatal)
                  <| u_retryable := WireErrorMayRetry wire_error |> in
  if negb connection_fatal && negb (bool_decide (wire_error = WireErrorCode.kNone))
     && authorized st then
    EncodeError wire_error (u_retryable update) update st
  else (st, update).

Definition CancelTimeout st : Sys * TransferUpdate :=
  let st := ReleaseResources st in
  let st := upd (fun s =>
    RememberTerminal TransferError.kTimeout WireErrorCode.kTimeout false false
      (s <| sn_cancel_frame_pending := false |> <| sn_cancel_ack_pending := false |>
         <| sn_cancel_sent := false |> <| sn_cancel_deadline_ms := 0 |>
         <| sn_state := TransferState.kFailed |>)) st in
  let update :=
    FailureUpdate TransferState.kFailed TransferError.kTimeout WireErrorCode.kTimeout false in
  if authorized st then EncodeError WireErrorCode.kTimeout false update st
  else (st, update).

Definition Observe (now_ms : Z) st : Sys * bool :=
  let '(last, ok) := ObserveTime now_ms (sn_last_now_ms (sn st)) in
  (upd (fun s => s <| sn_last_now_ms := last |>) st, ok).

Definition CheckTimeout (now_ms : Z) st : Sys * TransferUpdate :=
  let s := sn st in
  let fail := Fail TransferError.kTimeout WireErrorCode.kTimeout false st in
  match sn_state s with
  | TransferState.kSendingManifest =>
      if DeadlineReached now_ms (sn_manifest_deadline_ms s)
         || DeadlineReached now_ms (sn_manifest_progress_deadline_ms s) then fail
      else (st, CurrentUpdate st)
  | TransferState.kAwaitingDecision =>
      if DeadlineReached now_ms (sn_decision_deadline_ms s) then fail
      else (st, CurrentUpdate st)
  | TransferState.kSendingFile =>
      if negb (sn_unacknowledged s =? 0)
         && DeadlineReached now_ms (sn_acknowledgement_deadline_ms s) then fail
      else if DeadlineReached now_ms (sn_data_deadline_ms s) then fail
      else (st, CurrentUpdate st)
  | TransferState.kAwaitingFileCommit | TransferState.kCompleting =>
      if DeadlineReached now_ms (sn_data_deadline_ms s) then fail
      else (st, CurrentUpdate st)
  | TransferState.kCancelling =>
      if sn_cancel_sent s && DeadlineReached now_ms (sn_cancel_deadline_ms s)
      then CancelTimeout st
      else (st, CurrentUpdate st)
  | _ => (st, CurrentUpdate st)
  end.

(** ** Frames this end sends *)

Definition offer_body (alloc_ok : bool) (m : OneFileManifest) : BodyBuilder :=
  body_of ([AddBytes alloc_ok 1 (m_transfer_id m) true;
            AddU32 alloc_ok 2 1 true;
            AddU64 alloc_ok 3 (m_file_size m) true;
            AddBytes alloc_ok 4 (m_manifest_commitment m) true]
           ++ (if bool_decide (m_display_name m = []) then []
               else [AddUtf8 alloc_ok 5 (m_display_name m) false])).

Definition EncodeOffer st : Sys * option bytes :=
  let s := sn st in
  encode (fun a c ids =>
    EncodeFrame a c kTransferOffer ids (offer_body a (sn_manifest s))) st.

Definition EncodeManifestEntry st : Sys * option bytes :=
  let s := sn st in
  encode (fun a c ids => EncodeFrame a c kManifestEntry ids (body_of
    [AddBytes a 1 (m_transfer_id (sn_manifest s)) true;
     AddU32 a 2 0 true;
     AddU8 a 3 1 true;
     AddUtf8 a 4 (m_relative_path (sn_manifest s)) true;
     AddU64 a 5 (m_file_size (sn_manifest s)) true;
     AddBytes a 6 (m_file_commitment (sn_manifest s)) true])) st.

Definition EncodeManifestEnd st : Sys * option bytes :=
  let s := sn st in
  encode (fun a c ids => EncodeFrame a c kManifestEnd ids (body_of
    [AddBytes a 1 (m_transfer_id (sn_manifest s)) true;
     AddU32 a 2 1 true;
     AddU64 a 3 (m_file_size (sn_manifest s)) true;
     AddBytes a 4 (m_manifest_commitment (sn_manifest s)) true])) st.

Definition EncodeFileBegin st : Sys * option bytes :=
  let s := sn st in
  encode (fun a c ids => EncodeFrame a c kFileBegin ids (body_of
    [AddBytes a 1 (m_transfer_id (sn_manifest s)) true;
     AddU32 a 2 0 true;
     AddU64 a 3 (m_file_size (sn_manifest s)) true;
     AddU32 a 4 (sn_chunk_size s) true])) st.

Definition EncodeFileEnd st : Sys * option bytes :=
  let s := sn st in
  encode (fun a c ids => EncodeFrame a c kFileEnd ids (body_of
    [AddBytes a 1 (m_transfer_id (sn_manifest s)) true;
     AddU32 a 2 0 true;
     AddU64 a 3 (m_file_size (sn_manifest s)) true;
     AddBytes a 4 (m_file_commitment (sn_manifest s)) true])) st.

Definition EncodeComplete st : Sys * option bytes :=
  let s := sn st in
  encode (fun a c ids => EncodeFrame a c kTransferComplete ids (body_of
    [AddBytes a 1 (m_transfer_id (sn_manifest s)) true;
     AddBytes a 2 (m_manifest_commitment (sn_manifest s)) true])) st.

Definition CachedTerminalCode st : WireErrorCode.WireErrorCode :=
  match sn_state (sn st) with
  | TransferState.kCommitted | TransferState.kCompleted => WireErrorCode.kCompleted
  | TransferState.kCancelled => WireErrorCode.kCancelled
  | _ => if bool_decide (sn_terminal_wire_error (sn st) = WireErrorCode.kNone)
         then WireErrorCode.kCancelled else sn_terminal_wire_error (sn st)
  end.

(** ** Cancellation *)

Definition CancellationEncodingFailure st : Sys * TransferUpdate :=
  if OutboundExhausted (w_message_ids (world st)) then
    let st := upd (fun s => s <| sn_cancel_frame_pending := false |>
                              <| sn_cancel_ack_pending := false |>
                              <| sn_cancel_sent := false |>) st in
    let st := ReleaseResources st in
    let st := upd (fun s =>
      RememberTerminal TransferError.kMessageIdViolation WireErrorCode.kMessageIdViolation
        true false (s <| sn_state := TransferState.kCancelled |>)) st in
    (st, CurrentUpdate st)
  else (st, busy_update (CurrentUpdate st)).

Definition CancelAckEncodingFailure st : Sys * TransferUpdate :=
  let update := CurrentUpdate st in
  if OutboundExhausted (w_message_ids (world st)) then
    let st := upd (fun s => s <| sn_cancel_ack_pending := false |>) st in
    if sn_cancel_ack_failure_is_terminal (sn st) then
      let st := upd (RememberTerminal TransferError.kMessageIdViolation
                       WireErrorCode.kMessageIdViolation true false) st in
      (st, CurrentUpdate st)
    else
      (st, update <| u_error := TransferError.kMessageIdViolation |>
                  <| u_wire_error := WireErrorCode.kMessageIdViolation |>
                  <| u_connection_fatal := true |>)
  else (st, busy_update update).

Definition EmitCancel st : Sys * TransferUpdate :=
  let update := CurrentUpdate st in
  let '(st, output) :=
    encode (fun a c ids => EncodeCancelFrame a c ids (m_transfer_id (sn_manifest (sn st)))) st in
  match output with
  | None => CancellationEncodingFailure st
  | Some frame =>
      (upd (fun s => s <| sn_cancel_frame_pending := false |> <| sn_cancel_sent := true |>
                       <| sn_cancel_deadline_ms :=
                            CheckedDeadline (sn_last_now_ms s)
                              kCancelAcknowledgementTimeoutMs |>) st,
       update <| u_outbound_frame := frame |>)
  end.

Definition EmitCancelAck st : Sys * TransferUpdate :=
  let update := CurrentUpdate st in
  let '(st, output) :=
    encode (fun a c ids => EncodeCancelAckFrame a c ids (m_transfer_id (sn_manifest (sn st)))
                             (sn_pending_cancel_ack_code (sn st))) st in
  match output with
  | None => CancelAckEncodingFailure st
  | Some frame =>
      (upd (fun s => s <| sn_cancel_ack_pending := false |>
                       <| sn_cancel_ack_failure_is_terminal := false |>) st,
       update <| u_outbound_frame := frame |>)
  end.

Definition FinishCancelled st : Sys * TransferUpdate :=
  let st := ReleaseResources (upd reset_cancel st) in
  let st := upd (fun s =>
    RememberTerminal TransferError.kCancelled WireErrorCode.kCancelled false false
      (s <| sn_state := TransferState.kCancelled |>)) st in
  (st, CurrentUpdate st).

Definition BeginRemoteCancel st : Sys * TransferUpdate :=
  let local_cancel_was_sent := sn_cancel_sent (sn st) in
  let '(st, _) := FinishCancelled st in
  let st := upd (fun s =>
    s <| sn_cancel_sent := local_cancel_was_sent |> <| sn_cancel_ack_pending := true |>
      <| sn_cancel_ack_failure_is_terminal := true |>
      <| sn_pending_cancel_ack_code := WireErrorCode.kCancelled |>) st in
  EmitCancelAck st.

(** The state and what is remembered after a cancel acknowledgement. *)
Definition after_cancel_ack (code : WireErrorCode.WireErrorCode) s : Sender :=
  if bool_decide (code = WireErrorCode.kCompleted) then
    RememberTerminal TransferError.kNone WireErrorCode.kNone false false
      (s <| sn_state := TransferState.kCompleted |>)
  else if bool_decide (code = WireErrorCode.kCancelled) then
    RememberTerminal TransferError.kCancelled WireErrorCode.kCancelled false false
      (s <| sn_state := TransferState.kCancelled |>)
  else if WireErrorIsRejectReason code then
    RememberTerminal (TransferErrorForWire code) code false (WireErrorMayRetry code)
      (s <| sn_state := TransferState.kRejected |>)
  else
    RememberTerminal (TransferErrorForWire code) code (WireErrorIsConnectionFatal code)
      (WireErrorMayRetry code) (s <| sn_state := TransferState.kFailed |>).

Definition ApplyCancelAck (code : WireErrorCode.WireErrorCode) st : Sys * TransferUpdate :=
  let st := ReleaseResources (upd reset_cancel st) in
  let st := upd (after_cancel_ack code) st in
  (st, CurrentUpdate st).

(** ** Creation and start *)

(** [Create]: the new object, or none; the connection's streams are changed in
    either case. *)
Definition Create (context : TransferContext) (manifest : OneFileManifest) (source : option F)
    (w : World) (alloc_frame_ok alloc_ok : bool) : option Sys * World * TransferUpdate :=
  let refuse error wire := (None, w, FailureUpdate TransferState.kFailed error wire false) in
  match source with
  | None => refuse TransferError.kInvalidArgument WireErrorCode.kInvalidOffer
  | Some source =>
  if negb (ValidateContext context true) || negb (Authorized (w_authority w) context)
     || AllZero (m_transfer_id manifest) || (m_file_size manifest >? kMaxFileBytes)
     || negb (ValidCommitment (m_file_commitment manifest))
     || negb (ValidCommitment (m_manifest_commitment manifest))
     || (bsize (m_display_name manifest) >? 255)
     || negb (source_size source =? m_file_size manifest)
     || (b_limit_bytes (w_credit w) =? 0)
     || (b_limit_bytes (w_credit w) >? l_maximum_in_flight (c_limits context))
     || (b_maximum_streams (w_credit w) =? 0)
     || (b_maximum_streams (w_credit w) >? l_maximum_active_streams (c_limits context)) then
    refuse TransferError.kInvalidArgument WireErrorCode.kInvalidOffer
  else
  match ValidateReceiveRequest (m_relative_path manifest) (m_file_size manifest)
          kMaxFileBytes with
  | inl _ => refuse TransferError.kInvalidArgument WireErrorCode.kInvalidManifest
  | inr _ =>
  match (EncodeFrame alloc_frame_ok context kTransferOffer (MakeSequence 1 1)
           (offer_body alloc_frame_ok manifest)).2 with
  | None => refuse TransferError.kInvalidArgument WireErrorCode.kInvalidOffer
  | Some _ =>
      let '(credit, opened) :=
        TryOpenStream (c_stream_id context) true (c_local_role context) (w_credit w) in
      let w := w <| w_credit := credit |> in
      if negb opened then
        (None, w, FailureUpdate TransferState.kFailed TransferError.kBusy
                    WireErrorCode.kBusy false)
      else if negb alloc_ok then
        (None, w <| w_credit := CloseStream (c_stream_id context) (w_credit w) |>,
         FailureUpdate TransferState.kFailed TransferError.kInternalFailure
           WireErrorCode.kBusy false)
      else
        let st := {| sn := Sender_initial context manifest source; world := w |} in
        (Some st, w, CurrentUpdate st)
  end
  end
  end.

Definition StateViolation st : Sys * TransferUpdate :=
  Fail TransferError.kStateViolation WireErrorCode.kStateViolation false st.

Definition Unauthenticated st : Sys * TransferUpdate :=
  Fail TransferError.kUnauthenticated WireErrorCode.kNone true st.

Definition EncodingFailed st : Sys * TransferUpdate :=
  Fail TransferError.kInternalFailure WireErrorCode.kBusy false st.

Definition Start (now_ms : Z) st : Sys * TransferUpdate :=
  if IsTerminal (sn_state (sn st)) then (st, CurrentUpdate st)
  else
  let '(st, observed) := Observe now_ms st in
  if negb observed then StateViolation st
  else if negb (bool_decide (sn_state (sn st) = TransferState.kCreated)) then StateViolation st
  else if negb (authorized st) then Unauthenticated st
  else
  let '(st, output) := EncodeOffer st in
  match output with
  | None => EncodingFailed st
  | Some frame =>
      (upd (fun s =>
         s <| sn_state := TransferState.kSendingManifest |>
           <| sn_manifest_deadline_ms := CheckedDeadline now_ms kManifestTimeoutMs |>
           <| sn_manifest_progress_deadline_ms :=
                CheckedDeadline now_ms kManifestProgressTimeoutMs |>) st,
       TransferUpdate_default <| u_outbound_frame := frame |>
         <| u_state := TransferState.kSendingManifest |>)
  end.

(** ** [NextOutbound] *)

(** The manifest frames after the offer. *)
Definition NextManifestFrame (now_ms : Z) st : Sys * TransferUpdate :=
  let update := CurrentUpdate st in
  if sn_manifest_stage (sn st) =? 0 then
    let '(st, output) := EncodeManifestEntry st in
    match output with
    | None => EncodingFailed st
    | Some frame =>
        let st := upd (fun s =>
          s <| sn_manifest_stage := uadd 64 (sn_manifest_stage s) 1 |>
            <| sn_manifest_progress_deadline_ms :=
                 CheckedDeadline now_ms kManifestProgressTimeoutMs |>) st in
        (st, update <| u_outbound_frame := frame |> <| u_state := sn_state (sn st) |>)
    end
  else if sn_manifest_stage (sn st) =? 1 then
    let '(st, output) := EncodeManifestEnd st in
    match output with
    | None => EncodingFailed st
    | Some frame =>
        let st := upd (fun s =>
          s <| sn_manifest_stage := uadd 64 (sn_manifest_stage s) 1 |>
            <| sn_state := TransferState.kAwaitingDecision |>
            <| sn_decision_deadline_ms := CheckedDeadline now_ms kDecisionTimeoutMs |>) st in
        (st, update <| u_outbound_frame := frame |> <| u_state := sn_state (sn st) |>)
    end
  else EncodingFailed st.

(** The size of the next chunk. *)
Definition wanted_size s : Z :=
  Z.min (sn_chunk_size s) (usub 64 (m_file_size (sn_manifest s)) (sn_bytes_sent s)).

(** What [NextOutbound] records of a chunk of [wanted] bytes. *)
Definition record_chunk (now_ms wanted : Z) s : Sender :=
  let acknowledgement_timer_was_idle := sn_unacknowledged s =? 0 in
  let s := s <| sn_bytes_sent := uadd 64 (sn_bytes_sent s) wanted |>
             <| sn_available_credit := usub 32 (sn_available_credit s) (u32 wanted) |>
             <| sn_unacknowledged := uadd 64 (sn_unacknowledged s) wanted |> in
  let s := if acknowledgement_timer_was_idle then
             s <| sn_acknowledgement_deadline_ms :=
                    CheckedDeadline now_ms kAcknowledgementTimeoutMs |>
           else s in
  s <| sn_data_deadline_ms := CheckedDeadline now_ms kDataProgressTimeoutMs |>.

(** A sender of file data has its source ([sn_inv] of [SenderProofs]), so the
    [None] branch is not reached. *)
Definition NextChunk (now_ms : Z) st : Sys * TransferUpdate :=
  let update := CurrentUpdate st in
  let wanted := wanted_size (sn st) in
  if sn_available_credit (sn st) <? wanted then (st, update)
  else
  match sn_source (sn st) with
  | None => (st, update)
  | Some source =>
      let '(source, read) := ReadSource (sn_bytes_sent (sn st)) wanted source in
      let st := upd (fun s => s <| sn_source := Some source |>) st in
      if negb (read_ok read) || negb (bsize (fr_data read) =? wanted) then
        Fail TransferError.kSourceFailure WireErrorCode.kIoFailure false st
      else
      let '(integrity, commitment) :=
        BuildChunkCommitment (m_transfer_id (sn_manifest (sn st))) 0 (sn_bytes_sent (sn st))
          (fr_data read) (w_integrity (world st)) in
      let st := st <| world := (world st) <| w_integrity := integrity |> |> in
      let failed :=
        Fail TransferError.kInternalFailure WireErrorCode.kIntegrityFailed false st in
      match commitment with
      | None => failed
      | Some commitment =>
          if negb (ValidCommitment commitment) then failed
          else
          let s := sn st in
          let '(st, output) :=
            encode (fun a c ids => EncodeFileChunkFrame a c ids (m_transfer_id (sn_manifest s))
                                     (sn_bytes_sent s) (fr_data read) commitment) st in
          match output with
          | None => EncodingFailed st
          | Some frame =>
              (upd (record_chunk now_ms wanted) st, update <| u_outbound_frame := frame |>)
          end
      end
  end.

(** The file frames. *)
Definition NextFileFrame (now_ms : Z) st : Sys * TransferUpdate :=
  let update := CurrentUpdate st in
  if negb (sn_file_begin_sent (sn st)) then
    let '(st, output) := EncodeFileBegin st in
    match output with
    | None => EncodingFailed st
    | Some frame =>
        (upd (fun s => s <| sn_file_begin_sent := true |>) st,
         update <| u_outbound_frame := frame |>)
    end
  else if sn_bytes_sent (sn st) <? m_file_size (sn_manifest (sn st)) then NextChunk now_ms st
  else if (sn_unacknowledged (sn st) =? 0) && negb (sn_file_end_sent (sn st)) then
    let '(st, output) := EncodeFileEnd st in
    match output with
    | None => EncodingFailed st
    | Some frame =>
        let st := upd (fun s =>
          s <| sn_file_end_sent := true |> <| sn_state := TransferState.kAwaitingFileCommit |>
            <| sn_data_deadline_ms := CheckedDeadline now_ms kDataProgressTimeoutMs |>) st in
        (st, update <| u_outbound_frame := frame |> <| u_state := sn_state (sn st) |>)
    end
  else (st, update).

Definition NextOutbound (now_ms : Z) st : Sys * TransferUpdate :=
  if sn_shutdown (sn st) then (st, CurrentUpdate st)
  else if IsTerminal (sn_state (sn st)) && negb (sn_cancel_ack_pending (sn st)) then
    (st, CurrentUpdate st)
  else
  let '(st, observed) := Observe now_ms st in
  if negb observed then
    if IsTerminal (sn_state (sn st)) then (st, violation_update (CurrentUpdate st))
    else StateViolation st
  else if negb (authorized st) then
    if IsTerminal (sn_state (sn st)) then
      let st := upd (fun s => s <| sn_cancel_ack_pending := false |>) st in
      (st, (CurrentUpdate st) <| u_error := TransferError.kUnauthenticated |>
                              <| u_connection_fatal := true |>)
    else Unauthenticated st
  else if sn_cancel_ack_pending (sn st) then EmitCancelAck st
  else if IsTerminal (sn_state (sn st)) then (st, CurrentUpdate st)
  else
  let '(st, timeout) := CheckTimeout now_ms st in
  if negb (update_ok timeout) then (st, timeout)
  else
  match sn_state (sn st) with
  | TransferState.kCancelling =>
      if sn_cancel_frame_pending (sn st) then EmitCancel st else (st, CurrentUpdate st)
  | TransferState.kSendingManifest => NextManifestFrame now_ms st
  | TransferState.kSendingFile => NextFileFrame now_ms st
  | _ => (st, CurrentUpdate st)
  end.

(** ** [ReceiveFrame] *)

Definition parse_inbound (encoded : bytes) st : Sys * ParsedTransferFrame :=
  let '(ids, parsed) := ParseInbound (w_authority (world st)) (sn_context (sn st))
                          (w_message_ids (world st)) encoded in
  (st <| world := (world st) <| w_message_ids := ids |> |>, parsed).

Definition same_transfer (fr : ParsedFrame) st : bool :=
  match ReadTransferId fr with
  | None => false
  | Some id => same_bytes id (m_transfer_id (sn_manifest (sn st)))
  end.

(** In a terminal state. *)
Definition ReceiveTerminal (encoded : bytes) st : Sys * TransferUpdate :=
  let '(st, parsed) := parse_inbound encoded st in
  let update := (CurrentUpdate st) <| u_retryable := false |> <| u_connection_fatal := false |> in
  let refused p := update <| u_error := p_error p |> <| u_wire_error := p_wire_error p |>
                          <| u_connection_fatal := p_connection_fatal p |> in
  if negb (parsed_ok parsed) then (st, refused parsed)
  else
  let '(parsed, body_ok) := ParseBody parsed in
  if negb body_ok then (st, refused parsed)
  else
  let fr := p_frame parsed in
  let type := h_message_type (pf_header fr) in
  let code := DecodeWireError (Unsigned fr 2) in
  if negb (same_transfer fr st) then
    (st, update <| u_error := TransferError.kIdempotencyConflict |>
                <| u_wire_error := WireErrorCode.kIdempotencyConflict |>)
  else if bool_decide (type = kCancel) && bool_decide (code = Some WireErrorCode.kCancelled) then
    let st := upd (fun s =>
      (if sn_cancel_ack_pending s then s
       else s <| sn_cancel_ack_failure_is_terminal := false |>)) st in
    let st := upd (fun s => s <| sn_cancel_ack_pending := true |>
                              <| sn_pending_cancel_ack_code := CachedTerminalCode st |>) st in
    EmitCancelAck st
  else match code with
  | Some code =>
      if bool_decide (type = kCancelAck) && sn_cancel_sent (sn st) then ApplyCancelAck code st
      else (st, violation_update update)
  | None => (st, violation_update update)
  end.

Definition Malformed st : Sys * TransferUpdate :=
  Fail TransferError.kMalformedMessage WireErrorCode.kMalformedMessage false st.

(** The tests on an ERROR or a TRANSFER_REJECT frame that carries a delay. *)
Definition delay_invalid (fr : ParsedFrame) (id : Z) : bool :=
  match Field fr id with None => false | Some _ => true end && (Unsigned fr id >? 60000).

Definition ReceiveError (fr : ParsedFrame) st : Sys * TransferUpdate :=
  let fatal := negb (Unsigned fr 2 =? 0) in
  let retryable := negb (Unsigned fr 3 =? 0) in
  match DecodeWireError (Unsigned fr 1) with
  | None => Malformed st
  | Some wire_error =>
      if negb (Bool.eqb fatal (WireErrorIsFatal wire_error))
         || (retryable && negb (WireErrorMayRetry wire_error))
         || delay_invalid fr 5 then Malformed st
      else
      let st := ReleaseResources st in
      let st := upd (fun s =>
        RememberTerminal (TransferErrorForWire wire_error) wire_error
          (WireErrorIsConnectionFatal wire_error) retryable
          (s <| sn_state := TransferState.kFailed |>)) st in
      (st, CurrentUpdate st)
  end.

(** While a cancel is outstanding. *)
Definition ReceiveCancelling (fr : ParsedFrame) st : Sys * TransferUpdate :=
  if bool_decide (sn_cancel_origin_state (sn st) = TransferState.kCompleting) then
    if negb (bool_decide (h_message_type (pf_header fr) = kTransferCompleteAck))
       || negb (same_bytes (FieldBytes fr 2) (m_manifest_commitment (sn_manifest (sn st)))) then
      (st, violation_update (CurrentUpdate st))
    else
    let st := upd (fun s =>
      (RememberTerminal TransferError.kNone WireErrorCode.kNone false false
         (s <| sn_state := TransferState.kCompleted |>))
        <| sn_cancel_frame_pending := false |> <| sn_cancel_sent := false |>
        <| sn_cancel_deadline_ms := 0 |>) st in
    let st := ReleaseResources st in
    (st, CurrentUpdate st)
  else (st, CurrentUpdate st).

Definition ReceiveReject (fr : ParsedFrame) st : Sys * TransferUpdate :=
  let retryable := negb (Unsigned fr 3 =? 0) in
  match DecodeWireError (Unsigned fr 2) with
  | None => Malformed st
  | Some wire_error =>
      if negb (WireErrorIsRejectReason wire_error)
         || (retryable && negb (WireErrorMayRetry wire_error))
         || delay_invalid fr 4 then Malformed st
      else
      let st := ReleaseResources st in
      let st := upd (fun s =>
        RememberTerminal (TransferErrorForWire wire_error) wire_error false retryable
          (s <| sn_state := TransferState.kRejected |>)) st in
      (st, CurrentUpdate st)
  end.

(** The tests on the parameters of a TRANSFER_ACCEPT frame, the 64-bit values
    as the receiver sent them. *)
Definition AcceptParametersInvalid (selected_chunk selected_window : Z) (l : TransferLimits)
    : bool :=
  (selected_chunk <? kMinimumChunkSize) || (selected_chunk >? kMaximumChunkSize)
  || (l_maximum_body l <=? kMaximumChunkBodyOverhead)
  || (selected_chunk >? usub 32 (l_maximum_body l) kMaximumChunkBodyOverhead)
  || (selected_window <? selected_chunk) || (selected_window >? kMaximumTransferWindow)
  || (selected_window >? l_maximum_in_flight l).

Definition ReceiveAccept (fr : ParsedFrame) (now_ms : Z) st : Sys * TransferUpdate :=
  let present id := match Field fr id with None => false | Some _ => true end in
  if negb (bool_decide (h_message_type (pf_header fr) = kTransferAccept))
     || present 4 || present 5 then StateViolation st
  else
  let selected_chunk := Unsigned fr 2 in
  let selected_window := Unsigned fr 3 in
  if AcceptParametersInvalid selected_chunk selected_window (c_limits (sn_context (sn st))) then
    Fail TransferError.kLimitExceeded WireErrorCode.kLimitExceeded false st
  else
  let '(credit, reserved) :=
    TryReserve CreditDirection.kOutbound (u32 selected_window) (w_credit (world st)) in
  let st := st <| world := (world st) <| w_credit := credit |> |> in
  if negb reserved then Fail TransferError.kBusy WireErrorCode.kBusy false st
  else
  let st := upd (fun s =>
    s <| sn_chunk_size := u32 selected_chunk |>
      <| sn_reserved_credit := u32 selected_window |>
      <| sn_available_credit := u32 selected_window |>
      <| sn_credit_reserved := true |>
      <| sn_state := TransferState.kSendingFile |>
      <| sn_data_deadline_ms := CheckedDeadline now_ms kDataProgressTimeoutMs |>) st in
  (st, CurrentUpdate st).

(** The assignments after an accepted CHUNK_ACK. *)
Definition record_ack (next_offset newly_acknowledged new_unacknowledged new_available
    new_reservation now_ms : Z) s : Sender :=
  let s := s <| sn_acknowledged_offset := next_offset |>
             <| sn_unacknowledged := new_unacknowledged |>
             <| sn_available_credit := u32 new_available |>
             <| sn_reserved_credit := u32 new_reservation |> in
  let s := if negb (newly_acknowledged =? 0) then
             s <| sn_acknowledgement_deadline_ms :=
                    if new_unacknowledged =? 0 then 0
                    else CheckedDeadline now_ms kAcknowledgementTimeoutMs |>
           else s in
  s <| sn_data_deadline_ms := CheckedDeadline now_ms kDataProgressTimeoutMs |>.

Definition ReceiveChunkAck (fr : ParsedFrame) (now_ms : Z) st : Sys * TransferUpdate :=
  let limit := Fail TransferError.kLimitExceeded WireErrorCode.kLimitExceeded false in
  let s := sn st in
  if negb (bool_decide (h_message_type (pf_header fr) = kChunkAck))
     || negb (Unsigned fr 2 =? 0) then StateViolation st
  else
  let next_offset := Unsigned fr 3 in
  let increment := Unsigned fr 4 in
  if (next_offset <? sn_acknowledged_offset s) || (next_offset >? sn_bytes_sent s)
     || ((next_offset =? sn_acknowledged_offset s) && (increment =? 0)) then StateViolation st
  else
  let newly_acknowledged := usub 64 next_offset (sn_acknowledged_offset s) in
  if (newly_acknowledged >? sn_unacknowledged s) || (increment >? umax 32) then limit st
  else
  let new_unacknowledged := usub 64 (sn_unacknowledged s) newly_acknowledged in
  let new_available := uadd 64 (sn_available_credit s) increment in
  let new_reservation := uadd 64 new_available new_unacknowledged in
  if (new_reservation >? kMaximumTransferWindow) || (newly_acknowledged >? umax 32) then limit st
  else
  let '(credit, adjusted) :=
    TryAdjust CreditDirection.kOutbound (u32 newly_acknowledged) (u32 increment)
      (w_credit (world st)) in
  let st := st <| world := (world st) <| w_credit := credit |> |> in
  if negb adjusted then limit st
  else
  let st := upd (record_ack next_offset newly_acknowledged new_unacknowledged new_available
                   new_reservation now_ms) st in
  (st, CurrentUpdate st).

Definition ReceiveFileCommit (fr : ParsedFrame) (now_ms : Z) st : Sys * TransferUpdate :=
  if negb (bool_decide (h_message_type (pf_header fr) = kFileCommit))
     || negb (Unsigned fr 2 =? 0)
     || negb (Unsigned fr 3 =? m_file_size (sn_manifest (sn st))) then StateViolation st
  else
  let '(st, output) := EncodeComplete st in
  match output with
  | None => EncodingFailed st
  | Some frame =>
      (upd (fun s =>
         s <| sn_state := TransferState.kCompleting |>
           <| sn_data_deadline_ms := CheckedDeadline now_ms kDataProgressTimeoutMs |>) st,
       TransferUpdate_default <| u_outbound_frame := frame |>
         <| u_state := TransferState.kCompleting |>)
  end.

Definition ReceiveCompleteAck (fr : ParsedFrame) st : Sys * TransferUpdate :=
  if negb (bool_decide (h_message_type (pf_header fr) = kTransferCompleteAck))
     || negb (same_bytes (FieldBytes fr 2) (m_manifest_commitment (sn_manifest (sn st)))) then
    StateViolation st
  else
  let st := upd (fun s =>
    RememberTerminal TransferError.kNone WireErrorCode.kNone false false
      (s <| sn_state := TransferState.kCompleted |>)) st in
  let st := ReleaseResources st in
  (st, CurrentUpdate st).

Definition ReceiveInState (fr : ParsedFrame) (now_ms : Z) st : Sys * TransferUpdate :=
  match sn_state (sn st) with
  | TransferState.kCancelling => ReceiveCancelling fr st
  | TransferState.kAwaitingDecision =>
      if bool_decide (h_message_type (pf_header fr) = kTransferReject) then ReceiveReject fr st
      else ReceiveAccept fr now_ms st
  | TransferState.kSendingFile => ReceiveChunkAck fr now_ms st
  | TransferState.kAwaitingFileCommit => ReceiveFileCommit fr now_ms st
  | TransferState.kCompleting => ReceiveCompleteAck fr st
  | _ => StateViolation st
  end.

Definition ReceiveBody (fr : ParsedFrame) (now_ms : Z) st : Sys * TransferUpdate :=
  let type := h_message_type (pf_header fr) in
  if bool_decide (type = kError) then ReceiveError fr st
  else
  match ReadTransferId fr with
  | None => Malformed st
  | Some transfer_id =>
      if negb (same_bytes transfer_id (m_transfer_id (sn_manifest (sn st)))) then
        Fail TransferError.kIdempotencyConflict WireErrorCode.kIdempotencyConflict false st
      else
      let code := DecodeWireError (Unsigned fr 2) in
      if bool_decide (type = kCancel) then
        if bool_decide (code = Some WireErrorCode.kCancelled) then BeginRemoteCancel st
        else Malformed st
      else if bool_decide (type = kCancelAck) then
        if negb (sn_cancel_sent (sn st)) then Malformed st
        else match code with
             | None => Malformed st
             | Some code => ApplyCancelAck code st
             end
      else ReceiveInState fr now_ms st
  end.

Definition ReceiveFrame (encoded : bytes) (now_ms : Z) st : Sys * TransferUpdate :=
  if sn_shutdown (sn st) then (st, CurrentUpdate st)
  else if IsTerminal (sn_state (sn st)) then ReceiveTerminal encoded st
  else
  let '(st, observed) := Observe now_ms st in
  if negb observed then StateViolation st
  else
  let '(st, parsed) := parse_inbound encoded st in
  if negb (parsed_ok parsed) then
    Fail (p_error parsed) (p_wire_error parsed) (p_connection_fatal parsed) st
  else
  let '(st, timeout) := CheckTimeout now_ms st in
  if negb (update_ok timeout) then (st, timeout)
  else if negb (AllowedInbound (sn_state (sn st)) (h_message_type (pf_header (p_frame parsed)))
                  (sn_cancel_origin_state (sn st))) then StateViolation st
  else
  let '(parsed, body_ok) := ParseBody parsed in
  if negb body_ok then
    Fail (p_error parsed) (p_wire_error parsed) (p_connection_fatal parsed) st
  else ReceiveBody (p_frame parsed) now_ms st.

(** ** The other methods *)

Definition Advance (now_ms : Z) st : Sys * TransferUpdate :=
  if IsTerminal (sn_state (sn st)) then (st, CurrentUpdate st)
  else
  let '(st, observed) := Observe now_ms st in
  if negb observed then StateViolation st
  else if negb (authorized st) then Unauthenticated st
  else CheckTimeout now_ms st.

Definition Cancel (now_ms : Z) st : Sys * TransferUpdate :=
  if IsTerminal (sn_state (sn st)) then (st, CurrentUpdate st)
  else if bool_decide (sn_state (sn st) = TransferState.kCancelling) then (st, CurrentUpdate st)
  else
  let '(st, observed) := Observe now_ms st in
  if negb observed then StateViolation st
  else
  let st := upd reset_source st in
  if bool_decide (sn_state (sn st) = TransferState.kCreated) || negb (authorized st) then
    FinishCancelled st
  else
  let st := upd (fun s =>
    (RememberTerminal TransferError.kNone WireErrorCode.kNone false false
       (s <| sn_cancel_origin_state := sn_state s |>
          <| sn_state := TransferState.kCancelling |>))
      <| sn_cancel_frame_pending := true |> <| sn_cancel_ack_pending := false |>) st in
  EmitCancel st.

(** [Shutdown], which the destructor also calls. *)
Definition Shutdown st : Sys * TransferUpdate :=
  let st := upd (fun s => reset_cancel (s <| sn_shutdown := true |>)) st in
  if IsTerminal (sn_state (sn st)) then (st, CurrentUpdate st)
  else FinishCancelled st.

End Sender.

Arguments Sender : clear implicits.
Arguments World : clear implicits.
Arguments Sys : clear implicits.

End Sender.
