(* ===== verification/SenderProofs.v ===== *)
(** * Correctness of the sender

    An invariant of the sender that every method keeps whatever the connection,
    the file source, the integrity provider and the allocator do, together with
    a ledger of the outbound credit and of the stream it holds of the
    connection.  From them: the terminal states hold nothing, the window is
    conserved, the end of the file is announced only when all of it was sent
    and acknowledged, and no credit of the connection is lost. *)

From S2P Require Import Prelude.
From S2P Require Import V1Parser.
From S2P Require Import PathValidator.
From S2P Require Import PathValidatorProofs.
From S2P Require Import ReceiveTransactionProofs.
From S2P Require Import Transfer.
From S2P Require Import Connection.
From S2P Require Import ConnectionProofs.
From S2P Require Import FrameCodec.
From S2P Require Import FrameCodecProofs.
From S2P Require Import Receiver.
From S2P Require Import ReceiverProofs.
From S2P Require Import Sender.
Import MessageType.
Import Sender.

Section Invariant.
Context {A I V F : Type} `{CA : SessionAuthority A} `{CI : TransferIntegrityProvider I V}
  `{CF : FileSource F} `{CU : Utf8Proc}.
Abbreviation Sn := (Sender F).
Abbreviation System := (Sys A I F).
Implicit Types (st : System) (s : Sn).

(** ** The invariant *)

Record sn_facts_of (size : Z) (credit : bool) (reserved : Z) : Prop := {
  sf_size : 0 <= size <= kMaxFileBytes;
  sf_credit : credit = true -> 0 <= reserved <= kMaximumTransferWindow;
}.
Abbreviation sn_facts s :=
  (sn_facts_of (m_file_size (sn_manifest s)) (sn_credit_reserved s) (sn_reserved_credit s)).

(** The window: what may still be sent and what was sent and not yet
    acknowledged add up to the reservation of the connection. *)
Record sn_flow_of (credit : bool) (chunk reserved available unacknowledged sent acknowledged
    size : Z) : Prop := {
  sf_reserved : credit = true;
  sf_chunk : kMinimumChunkSize <= chunk <= kMaximumChunkSize;
  sf_window : reserved <= kMaximumTransferWindow;
  sf_balance : reserved = available + unacknowledged;
  sf_available : 0 <= available;
  sf_unacknowledged : 0 <= unacknowledged;
  sf_sent : sent = acknowledged + unacknowledged;
  sf_acknowledged : 0 <= acknowledged;
  sf_bound : sent <= size;
}.
Abbreviation sn_flow s :=
  (sn_flow_of (sn_credit_reserved s) (sn_chunk_size s) (sn_reserved_credit s)
     (sn_available_credit s) (sn_unacknowledged s) (sn_bytes_sent s)
     (sn_acknowledged_offset s) (m_file_size (sn_manifest s))).

(** Before the receiver accepted. *)
Definition sn_idle_of (source : option F) (credit : bool) (unacknowledged sent acknowledged : Z)
    : Prop :=
  is_Some source /\ credit = false /\ unacknowledged = 0 /\ sent = 0 /\ acknowledged = 0.
Abbreviation sn_idle s :=
  (sn_idle_of (sn_source s) (sn_credit_reserved s) (sn_unacknowledged s) (sn_bytes_sent s)
     (sn_acknowledged_offset s)).

Definition sn_in_state s : Prop :=
  match sn_state s with
  | TransferState.kCreated | TransferState.kSendingManifest
  | TransferState.kAwaitingDecision => sn_idle s /\ sn_stream_reserved s = true
  | TransferState.kSendingFile =>
      is_Some (sn_source s) /\ sn_flow s /\ sn_stream_reserved s = true
  | TransferState.kAwaitingFileCommit | TransferState.kCompleting =>
      sn_flow s /\ sn_stream_reserved s = true /\
      sn_acknowledged_offset s = m_file_size (sn_manifest s) /\ sn_unacknowledged s = 0
  | TransferState.kCancelling => sn_source s = None
  | TransferState.kCommitted | TransferState.kCompleted | TransferState.kCancelled
  | TransferState.kRejected | TransferState.kFailed =>
      sn_source s = None /\ sn_credit_reserved s = false /\ sn_stream_reserved s = false
  | _ => False
  end.

Definition sn_inv s : Prop := sn_facts s /\ sn_in_state s.

Definition sn_ended s : Prop := sn_inv s /\ IsTerminal (sn_state s) = true.

(** The connection's credit, when [others] outbound bytes are reserved and the
    streams [R] are open for other transfers. *)
Definition sn_ledger (others : Z) (R : list Z) st : Prop :=
  budget_ok (w_credit (world st)) /\ 0 <= others /\
  reserved_bytes CreditDirection.kOutbound (w_credit (world st))
    = others + (if sn_credit_reserved (sn st) then sn_reserved_credit (sn st) else 0) /\
  active_list (w_credit (world st))
    ≡ₚ (if sn_stream_reserved (sn st) then [c_stream_id (sn_context (sn st))] else []) ++ R.

(** A call leaves the rest of the connection's credit alone. *)
Definition kept st st' : Prop :=
  forall others R, sn_ledger others R st -> sn_ledger others R st'.

Lemma kept_refl st : kept st st.
Proof. by intros others R. Qed.

Lemma kept_trans st1 st2 st3 : kept st1 st2 -> kept st2 st3 -> kept st1 st3.
Proof. intros H1 H2 others R Hl. apply H2, H1, Hl. Qed.

(** The members the ledger reads. *)
Definition ledger_view s :=
  (sn_credit_reserved s, sn_reserved_credit s, sn_stream_reserved s, sn_context s).

Lemma kept_view st st' :
  w_credit (world st') = w_credit (world st) -> ledger_view (sn st') = ledger_view (sn st) ->
  kept st st'.
Proof.
  intros Hw Hv others R Hl. unfold ledger_view in Hv. injection Hv as H1 H2 H3 H4.
  unfold sn_ledger in *. by rewrite Hw, H1, H2, H3, H4.
Qed.

(** ** Primitives *)

Lemma sn_upd f st : sn (upd f st) = f (sn st).
Proof. done. Qed.

Lemma sn_world w st : sn (st <| world := w |>) = sn st.
Proof. done. Qed.

Lemma world_upd f st : world (upd f st) = world st.
Proof. done. Qed.

Lemma credit_set c st :
  w_credit (world (st <| world := (world st) <| w_credit := c |> |>)) = c.
Proof. done. Qed.

Lemma kept_upd f st : ledger_view (f (sn st)) = ledger_view (sn st) -> kept st (upd f st).
Proof. intros Hv. by apply kept_view. Qed.

Lemma take_alloc_same st :
  sn (take_alloc st).1 = sn st /\ w_credit (world (take_alloc st).1) = w_credit (world st).
Proof. unfold take_alloc. by destruct (w_alloc (world st)). Qed.

Lemma encode_same f st :
  sn (encode f st).1 = sn st /\ w_credit (world (encode f st).1) = w_credit (world st).
Proof.
  unfold encode. pose proof (take_alloc_same st) as [H1 H2].
  destruct (take_alloc st) as [st' a]. by destruct (f _ _ _).
Qed.

Lemma kept_encode f st : kept st (encode f st).1.
Proof. destruct (encode_same f st) as [H1 H2]. apply kept_view; [done | by rewrite H1]. Qed.

Lemma sn_ReleaseResources st : exists v,
  sn (ReleaseResources st) = (sn st) <| sn_source := None |> <| sn_credit_reserved := false |>
    <| sn_reserved_credit := v |> <| sn_stream_reserved := false |>.
Proof.
  unfold ReleaseResources, ReleaseStream, ReleaseCredit.
  destruct (sn st) as [] eqn:E.
  exists (if sn_credit_reserved (sn st) then 0 else sn_reserved_credit (sn st)).
  rewrite sn_upd, E. simpl.
  match goal with |- context [if ?c then _ else upd _ _] => destruct c end; simpl;
    rewrite ?E; simpl;
    match goal with |- context [if ?c then _ else _] => destruct c end; simpl; by rewrite ?E.
Qed.

Lemma kept_ReleaseCredit st : sn_facts (sn st) -> kept st (ReleaseCredit st).
Proof.
  intros Hf others R (Hb & Ho & Hr & Hs). unfold ReleaseCredit.
  destruct (sn_credit_reserved (sn st)) eqn:Ec; [| unfold sn_ledger; by rewrite Ec].
  pose proof (sf_credit _ _ _ Hf eq_refl) as Hrange.
  unfold sn_ledger. rewrite sn_upd, world_upd, credit_set, sn_world.
  rewrite Release_spec by (done || lia). rewrite Hr.
  destruct (Z.leb_spec (sn_reserved_credit (sn st)) (others + sn_reserved_credit (sn st))); [| lia].
  replace (others + sn_reserved_credit (sn st) - sn_reserved_credit (sn st)) with others by lia.
  split; [apply budget_ok_set_reserved; [done |];
    pose proof (reserved_range CreditDirection.kOutbound _ Hb); lia |].
  split; [done |]. rewrite set_reserved_same. split; [simpl; lia | exact Hs].
Qed.

Lemma kept_ReleaseStream st : kept st (ReleaseStream st).
Proof.
  intros others R (Hb & Ho & Hr & Hs). unfold ReleaseStream.
  destruct (sn_stream_reserved (sn st)) eqn:Ec; [| unfold sn_ledger; by rewrite Ec].
  unfold sn_ledger. rewrite sn_upd, world_upd, credit_set, sn_world.
  set (id := c_stream_id (sn_context (sn st))) in *.
  assert (Hin : id ∈ active_list (w_credit (world st)))
    by (rewrite Hs; apply list_elem_of_In; by left).
  destruct (CloseStream_perm id _ Hb Hin) as [Hp _].
  split; [by apply budget_ok_CloseStream |]. split; [done |].
  split; [| simpl in *; rewrite Hp in Hs; by apply (Permutation_cons_inv (a := id)) in Hs].
  refine (eq_trans _ Hr). unfold CloseStream. by destruct (find_active _ _).
Qed.

Lemma kept_ReleaseResources st : sn_facts (sn st) -> kept st (ReleaseResources st).
Proof.
  intros Hf. unfold ReleaseResources. eapply kept_trans; [| apply kept_ReleaseStream].
  eapply (kept_trans _ (upd reset_source st)); [by apply kept_upd |].
  by apply kept_ReleaseCredit.
Qed.

(** ** Ends *)

Lemma sn_ended_intro s :
  sn_facts s -> sn_source s = None -> sn_credit_reserved s = false ->
  sn_stream_reserved s = false -> IsTerminal (sn_state s) = true -> sn_ended s.
Proof.
  intros Hf H1 H2 H3 Ht. split; [| done]. split; [done |].
  unfold sn_in_state. by destruct (sn_state s).
Qed.

(** What an end has to show: the object after [ReleaseResources] with a
    terminal state and the members outside the invariant changed. *)
Lemma sn_release_end (f : Sn -> Sn) st :
  sn_facts (sn st) ->
  (forall s, sn_source (f s) = sn_source s /\ sn_credit_reserved (f s) = sn_credit_reserved s /\
     sn_stream_reserved (f s) = sn_stream_reserved s /\ sn_manifest (f s) = sn_manifest s /\
     sn_reserved_credit (f s) = sn_reserved_credit s /\ sn_context (f s) = sn_context s /\
     IsTerminal (sn_state (f s)) = true) ->
  let st' := upd f (ReleaseResources st) in sn_ended (sn st') /\ kept st st'.
Proof.
  intros Hf Hs. cbv zeta.
  destruct (Hs (sn (ReleaseResources st))) as (H1 & H2 & H3 & H4 & H5 & H6 & H7).
  split.
  - rewrite sn_upd. destruct (sn_ReleaseResources st) as [v Hv].
    apply sn_ended_intro; rewrite ?H1, ?H2, ?H3, ?H4, ?H5, ?Hv; [| done.. | rewrite <- Hv; done].
    split; [exact (sf_size _ _ _ Hf) | done].
  - eapply kept_trans; [by apply kept_ReleaseResources |].
    apply kept_upd. unfold ledger_view. by rewrite H2, H3, H5, H6.
Qed.

(** A call that ends the transfer, or keeps the invariant. *)
Definition ends st st' : Prop := sn_ended (sn st') /\ kept st st'.
Definition good st st' : Prop := sn_inv (sn st') /\ kept st st'.

Lemma ends_good st st' : ends st st' -> good st st'.
Proof. by intros [[? _] ?]. Qed.

Lemma good_trans st1 st2 st3 : kept st1 st2 -> good st2 st3 -> good st1 st3.
Proof. intros H1 [H2 H3]. split; [done | by eapply kept_trans]. Qed.

Lemma ends_trans st1 st2 st3 : kept st1 st2 -> ends st2 st3 -> ends st1 st3.
Proof. intros H1 [H2 H3]. split; [done | by eapply kept_trans]. Qed.

Lemma good_refl st : sn_inv (sn st) -> good st st.
Proof. intros Hi. split; [done | apply kept_refl]. Qed.

Lemma ends_EncodeError c retry u st st' : ends st st' -> ends st (EncodeError c retry u st').1.
Proof.
  intros [He Hk]. unfold EncodeError.
  pose proof (encode_same (fun a x ids => EncodeErrorFrame a x ids c retry) st') as [H1 _].
  pose proof (kept_encode (fun a x ids => EncodeErrorFrame a x ids c retry) st') as H2.
  destruct (encode _ st') as [st1 o]. cbn [fst] in *.
  split; [by rewrite H1 | by eapply kept_trans].
Qed.

Lemma Fail_ends e w f st : sn_facts (sn st) -> ends st (Fail e w f st).1.
Proof.
  intros Hf. unfold Fail.
  match goal with |- ends _ (if ?c then _ else (upd ?g _, _)).1 =>
    assert (Hend : ends st (upd g (ReleaseResources st)))
      by (apply sn_release_end; [done | by intros []]) end.
  destruct (_ && authorized _); [by apply ends_EncodeError | exact Hend].
Qed.

Lemma CancelTimeout_ends st : sn_facts (sn st) -> ends st (CancelTimeout st).1.
Proof.
  intros Hf. unfold CancelTimeout.
  match goal with |- ends _ (if ?c then _ else (upd ?g _, _)).1 =>
    assert (Hend : ends st (upd g (ReleaseResources st)))
      by (apply sn_release_end; [done | by intros []]) end.
  destruct (authorized _); [by apply ends_EncodeError | exact Hend].
Qed.

Lemma FinishCancelled_ends st : sn_facts (sn st) -> ends st (FinishCancelled st).1.
Proof.
  intros Hf. unfold FinishCancelled. cbn [fst].
  eapply (ends_trans _ (upd reset_cancel st)); [by apply kept_upd |].
  apply sn_release_end; [exact Hf | by intros []].
Qed.

Lemma ApplyCancelAck_ends code st : sn_facts (sn st) -> ends st (ApplyCancelAck code st).1.
Proof.
  intros Hf. unfold ApplyCancelAck. cbn [fst].
  eapply (ends_trans _ (upd reset_cancel st)); [by apply kept_upd |].
  apply sn_release_end; [exact Hf |]. intros s. unfold after_cancel_ack.
  repeat match goal with |- context [if ?c then _ else _] => destruct c end; by destruct s.
Qed.

(** ** Calls that keep the invariant *)

(** The members the invariant and the ledger read. *)
Definition sn_core s :=
  (sn_state s, sn_manifest s, sn_source s, sn_context s,
   (sn_credit_reserved s, sn_stream_reserved s),
   (sn_chunk_size s, sn_reserved_credit s, sn_available_credit s),
   (sn_unacknowledged s, sn_bytes_sent s, sn_acknowledged_offset s)).

Lemma sn_inv_core s s' : sn_core s' = sn_core s -> sn_inv s -> sn_inv s'.
Proof.
  unfold sn_core. intros E. injection E as E1 E2 E3 E4 E5 E6 E7 E8 E9 E10 E11 E12.
  unfold sn_inv, sn_in_state. by rewrite E1, E2, E3, E5, E6, E7, E8, E9, E10, E11, E12.
Qed.

Lemma kept_core st st' :
  w_credit (world st') = w_credit (world st) -> sn_core (sn st') = sn_core (sn st) -> kept st st'.
Proof.
  unfold sn_core. intros Hw E. injection E as E1 E2 E3 E4 E5 E6 E7 E8 E9 E10 E11 E12.
  apply kept_view; [done |]. unfold ledger_view. congruence.
Qed.

Lemma good_core st st' :
  w_credit (world st') = w_credit (world st) -> sn_core (sn st') = sn_core (sn st) ->
  sn_inv (sn st) -> good st st'.
Proof. intros Hw E Hi. split; [by apply (sn_inv_core (sn st)) | by apply kept_core]. Qed.

Ltac same_sn_core := let r := fresh in
  match goal with |- sn_core _ = sn_core ?x => generalize x end; intros r; by destruct r.

Lemma sn_inv_facts s : sn_inv s -> sn_facts s.
Proof. by intros [? _]. Qed.

#[local] Hint Resolve Fail_ends sn_inv_facts ends_good good_refl : xnn.

Lemma Fail_good e w f st : sn_facts (sn st) -> good st (Fail e w f st).1.
Proof. auto with xnn. Qed.

Lemma StateViolation_good st : sn_inv (sn st) -> good st (StateViolation st).1.
Proof. unfold StateViolation. auto with xnn. Qed.

Lemma Unauthenticated_good st : sn_inv (sn st) -> good st (Unauthenticated st).1.
Proof. unfold Unauthenticated. auto with xnn. Qed.

Lemma EncodingFailed_good st : sn_inv (sn st) -> good st (EncodingFailed st).1.
Proof. unfold EncodingFailed. auto with xnn. Qed.

Lemma Malformed_good st : sn_inv (sn st) -> good st (Malformed st).1.
Proof. unfold Malformed. auto with xnn. Qed.

#[local] Hint Resolve Fail_good StateViolation_good Unauthenticated_good EncodingFailed_good
  Malformed_good : xnn.

Lemma sn_Fail_update e w f st : u_error (Fail e w f st).2 = e.
Proof.
  unfold Fail. destruct (_ && _); [| done]. unfold EncodeError.
  by destruct (encode _ _) as [? [o |]].
Qed.

Lemma sn_CancelTimeout_update st : u_error (CancelTimeout st).2 = TransferError.kTimeout.
Proof.
  unfold CancelTimeout. destruct (authorized _); [| done]. unfold EncodeError.
  by destruct (encode _ _) as [? [o |]].
Qed.

Lemma sn_CheckTimeout_spec now st : sn_inv (sn st) ->
  CheckTimeout now st = (st, CurrentUpdate st) \/
  (ends st (CheckTimeout now st).1 /\ update_ok (CheckTimeout now st).2 = false).
Proof.
  intros [Hf Hs]. unfold CheckTimeout, update_ok.
  assert (Hfail : ends st (Fail TransferError.kTimeout WireErrorCode.kTimeout false st).1 /\
    bool_decide (u_error (Fail TransferError.kTimeout WireErrorCode.kTimeout false st).2
                 = TransferError.kNone) = false)
    by (split; [by apply Fail_ends | by rewrite sn_Fail_update]).
  destruct (sn_state (sn st)); try (by left).
  all: repeat match goal with |- context [if ?c then _ else _] => destruct c end;
    try (by left); right; try exact Hfail.
  split; [by apply CancelTimeout_ends | by rewrite sn_CancelTimeout_update].
Qed.

Lemma sn_after_timeout now st (k : System -> System * TransferUpdate) :
  sn_inv (sn st) -> good st (k st).1 ->
  good st (let '(st1, timeout) := CheckTimeout now st in
           if negb (update_ok timeout) then (st1, timeout) else k st1).1.
Proof.
  intros Hi Hk. destruct (sn_CheckTimeout_spec now st Hi) as [-> | [He Hok]].
  - cbn [fst snd]. destruct (negb _); [by apply good_refl | done].
  - destruct (CheckTimeout now st) as [st1 u]. cbn [fst snd] in *. rewrite Hok. by apply ends_good.
Qed.

(** The same members but for the clock. *)
Definition sn_observed_from s0 s : Prop := exists last, s = s0 <| sn_last_now_ms := last |>.

Lemma sn_after_observe now st (no k : System -> System * TransferUpdate) :
  sn_inv (sn st) ->
  (forall st1, sn_observed_from (sn st) (sn st1) -> sn_inv (sn st1) -> good st1 (no st1).1) ->
  (forall st1, sn_observed_from (sn st) (sn st1) -> sn_inv (sn st1) -> good st1 (k st1).1) ->
  good st (let '(st1, observed) := Observe now st in
           if negb observed then no st1 else k st1).1.
Proof.
  intros Hi Hno Hk. unfold Observe. destruct (ObserveTime _ _) as [last ok].
  set (st1 := upd _ st).
  assert (Hg : good st st1) by (apply good_core; [done | by unfold st1; rewrite sn_upd; destruct (sn st) | done]).
  assert (Ho : sn_observed_from (sn st) (sn st1)) by (by exists last).
  destruct Hg as [Hi1 Hk1]. clearbody st1.
  destruct ok; cbn [negb]; eapply good_trans; eauto.
Qed.

(** A frame is encoded and the object then changes as [f] says. *)
Lemma after_encode (e : System -> System * option bytes) (k : bytes -> System -> System * TransferUpdate)
    st :
  (forall st, sn (e st).1 = sn st /\ w_credit (world (e st).1) = w_credit (world st)) ->
  sn_inv (sn st) ->
  (forall frame st1, sn st1 = sn st -> good st1 (k frame st1).1) ->
  good st (let '(st1, output) := e st in
           match output with None => EncodingFailed st1 | Some frame => k frame st1 end).1.
Proof.
  intros He Hi Hk. destruct (He st) as [H1 H2]. destruct (e st) as [st1 [frame |]]; cbn [fst] in *.
  all: eapply good_trans; [apply (kept_core st st1); by rewrite ?H1 |].
  - by apply Hk.
  - apply EncodingFailed_good. by rewrite H1.
Qed.

Lemma ReleaseResources_ends st :
  sn_facts (sn st) -> IsTerminal (sn_state (sn st)) = true -> ends st (ReleaseResources st).
Proof.
  intros Hf Ht. split; [| by apply kept_ReleaseResources].
  destruct (sn_ReleaseResources st) as [v Hv]. rewrite Hv.
  generalize dependent (sn st). intros s. intros.
  apply sn_ended_intro; [split; [exact (sf_size _ _ _ Hf) | done] | done | done | done | exact Ht].
Qed.

Lemma EmitCancelAck_core_same st :
  sn_core (sn (EmitCancelAck st).1) = sn_core (sn st) /\
  w_credit (world (EmitCancelAck st).1) = w_credit (world st).
Proof.
  unfold EmitCancelAck.
  match goal with |- context [encode ?f st] =>
    pose proof (encode_same f st) as [H1 H2]; destruct (encode f st) as [st1 [o |]] end;
    cbn [fst] in *.
  - rewrite sn_upd, world_upd, <- H1. split; [same_sn_core | done].
  - unfold CancelAckEncodingFailure. destruct (OutboundExhausted _); [| by rewrite <- H1].
    destruct (sn_cancel_ack_failure_is_terminal _); cbn [fst];
      rewrite ?sn_upd, ?world_upd, <- H1; (split; [same_sn_core | done]).
Qed.

Lemma EmitCancelAck_good st : sn_inv (sn st) -> good st (EmitCancelAck st).1.
Proof. destruct (EmitCancelAck_core_same st). by apply good_core. Qed.

Lemma EmitCancelAck_ends st0 st : ends st0 st -> ends st0 (EmitCancelAck st).1.
Proof.
  intros [[Hi Ht] Hk]. destruct (EmitCancelAck_core_same st) as [H1 H2].
  split; [split; [by apply (sn_inv_core (sn st)) |] |
          eapply kept_trans; [exact Hk | by apply kept_core]].
  unfold sn_core in H1. injection H1. congruence.
Qed.

Lemma EmitCancel_good st :
  sn_inv (sn st) -> sn_state (sn st) = TransferState.kCancelling -> good st (EmitCancel st).1.
Proof.
  intros Hi Hs. unfold EmitCancel.
  match goal with |- context [encode ?f st] =>
    pose proof (encode_same f st) as [H1 H2]; destruct (encode f st) as [st1 [o |]] end;
    cbn [fst] in *.
  - apply good_core; [done | rewrite sn_upd, <- H1; same_sn_core | done].
  - apply (good_trans _ st1); [apply kept_core; by rewrite ?H1 |]. rewrite <- H1 in Hi. clear H1 H2 Hs.
    unfold CancellationEncodingFailure. destruct (OutboundExhausted _); [| by apply good_refl].
    cbn [fst]. apply ends_good.
    match goal with |- ends _ (upd _ (ReleaseResources ?s)) => apply (ends_trans _ s) end;
      [by apply kept_upd |].
    apply sn_release_end; [exact (sn_inv_facts _ Hi) | by intros []].
Qed.

Lemma BeginRemoteCancel_good st : sn_inv (sn st) -> good st (BeginRemoteCancel st).1.
Proof.
  intros Hi. unfold BeginRemoteCancel.
  pose proof (FinishCancelled_ends st (sn_inv_facts _ Hi)) as [[Hi1 _] Hk1].
  destruct (FinishCancelled st) as [st1 u]. cbn [fst] in *.
  apply (good_trans _ st1); [done |]. clear Hk1 Hi u. set (st2 := upd _ st1).
  assert (Hg : good st1 st2).
  { apply good_core; [done | | done]. unfold st2. rewrite sn_upd. same_sn_core. }
  destruct Hg as [Hi2 Hk2]. clearbody st2.
  apply (good_trans _ st2); [done | by apply EmitCancelAck_good].
Qed.

Lemma ReceiveError_good fr st : sn_inv (sn st) -> good st (ReceiveError fr st).1.
Proof.
  intros Hi. unfold ReceiveError. destruct (DecodeWireError _); [| auto with xnn].
  destruct (_ || _); [auto with xnn |]. cbn [fst].
  apply ends_good, sn_release_end; [auto with xnn | by intros []].
Qed.

Lemma ReceiveReject_good fr st : sn_inv (sn st) -> good st (ReceiveReject fr st).1.
Proof.
  intros Hi. unfold ReceiveReject. destruct (DecodeWireError _); [| auto with xnn].
  destruct (_ || _); [auto with xnn |]. cbn [fst].
  apply ends_good, sn_release_end; [auto with xnn | by intros []].
Qed.

Lemma ReceiveCancelling_good fr st : sn_inv (sn st) -> good st (ReceiveCancelling fr st).1.
Proof.
  intros Hi. unfold ReceiveCancelling. destruct (bool_decide _); [| by apply good_refl].
  destruct (_ || _); [by apply good_refl |]. cbn [fst]. apply ends_good.
  match goal with |- ends _ (ReleaseResources ?s) => apply (ends_trans _ s) end;
    [by apply kept_upd |].
  apply ReleaseResources_ends; [exact (sn_inv_facts _ Hi) | done].
Qed.

Lemma ReceiveCompleteAck_good fr st : sn_inv (sn st) -> good st (ReceiveCompleteAck fr st).1.
Proof.
  intros Hi. unfold ReceiveCompleteAck. destruct (_ || _); [auto with xnn |].
  cbn [fst]. apply ends_good.
  match goal with |- ends _ (ReleaseResources ?s) => apply (ends_trans _ s) end;
    [by apply kept_upd |].
  apply ReleaseResources_ends; [exact (sn_inv_facts _ Hi) | done].
Qed.

Lemma ReceiveFileCommit_good fr now st :
  sn_inv (sn st) -> sn_state (sn st) = TransferState.kAwaitingFileCommit ->
  good st (ReceiveFileCommit fr now st).1.
Proof.
  intros Hi Hs. unfold ReceiveFileCommit. destruct (_ || _); [auto with xnn |].
  apply (after_encode EncodeComplete); [intros; apply encode_same | done |].
  intros frame st1 H1. rewrite <- H1 in Hi, Hs. clear H1 st. cbn [fst].
  split; [| by apply kept_upd]. rewrite sn_upd. generalize dependent (sn st1). intros s [Hf Hin] Hs.
  split; [exact Hf |]. unfold sn_in_state in *. rewrite Hs in Hin. exact Hin.
Qed.

(** ** The window *)

Lemma sn_AcceptParameters chunk window l :
  AcceptParametersInvalid chunk window l = false ->
  kMinimumChunkSize <= chunk <= kMaximumChunkSize /\ chunk <= window <= kMaximumTransferWindow.
Proof. unfold AcceptParametersInvalid. intros E. bool_facts. lia. Qed.

Lemma ReceiveAccept_good fr now st :
  sn_inv (sn st) -> sn_state (sn st) = TransferState.kAwaitingDecision ->
  good st (ReceiveAccept fr now st).1.
Proof.
  intros Hi Hs. unfold ReceiveAccept. destruct (_ || _ || _); [auto with xnn |].
  destruct (AcceptParametersInvalid _ _ _) eqn:Ep; [auto with xnn |].
  apply sn_AcceptParameters in Ep as [Hch Hw].
  unfold kMinimumChunkSize, kMaximumChunkSize, kMaximumTransferWindow in *.
  assert (Hu : u32 (Unsigned fr 3) = Unsigned fr 3) by (apply wrap_small; widths).
  assert (Hc : u32 (Unsigned fr 2) = Unsigned fr 2) by (apply wrap_small; widths).
  rewrite Hu, Hc. destruct (TryReserve _ _ _) as [credit reserved] eqn:Er.
  destruct reserved; cbn [negb].
  - cbn [fst]. destruct Hi as [Hf Hin]. unfold sn_in_state in Hin. rewrite Hs in Hin.
    destruct Hin as ((Hsrc & Hcr & Hun & Hse & Hak) & Hst). split.
    + rewrite sn_upd, sn_world. generalize dependent (sn st). intros s. intros.
      split; [split; [exact (sf_size _ _ _ Hf) | simpl; unfold kMaximumTransferWindow; lia] |].
      unfold sn_in_state. simpl. split; [done |]. split; [| done].
      split; simpl; rewrite ?Hun, ?Hse, ?Hak; try done;
        unfold kMinimumChunkSize, kMaximumChunkSize, kMaximumTransferWindow; try lia.
      exact (proj1 (sf_size _ _ _ Hf)).
    + intros others R (Hb & Ho & Hr & Hact). unfold sn_ledger.
      rewrite sn_upd, world_upd, credit_set, sn_world.
      rewrite TryReserve_spec in Er by (done || lia).
      destruct (Z.leb_spec (reserved_bytes CreditDirection.kOutbound (w_credit (world st))
        + Unsigned fr 3) (b_limit_bytes (w_credit (world st)))); [| done].
      apply (f_equal fst) in Er. cbn [fst] in Er. subst credit. rewrite Hcr in Hr. pose proof (reserved_range CreditDirection.kOutbound _ Hb).
      split; [apply budget_ok_set_reserved; [done | lia] |]. split; [done |].
      rewrite set_reserved_same. split; [change (reserved_bytes CreditDirection.kOutbound
        (w_credit (world st)) + Unsigned fr 3 = others + Unsigned fr 3); lia | exact Hact].
  - assert (Hsame : credit = w_credit (world st)).
    { unfold TryReserve in Er. by destruct (_ || _); injection Er. }
    set (st1 := st <| world := _ |>).
    apply (good_trans _ st1); [by apply kept_view |]. apply Fail_good, Hi.
Qed.

(** The window after an acknowledgement. *)
Lemma sn_flow_ack credit chunk reserved available unack sent acked size next inc :
  sn_flow_of credit chunk reserved available unack sent acked size -> size <= kMaxFileBytes ->
  acked <= next <= sent -> 0 <= inc <= umax 32 ->
  let newly := usub 64 next acked in
  let unack' := usub 64 unack newly in
  let available' := uadd 64 available inc in
  let reserved' := uadd 64 available' unack' in
  reserved' <= kMaximumTransferWindow ->
  newly = next - acked /\ 0 <= newly <= unack /\ u32 newly = newly /\ u32 inc = inc /\
  u32 reserved' = reserved - newly + inc /\
  sn_flow_of credit chunk (u32 reserved') (u32 available') unack' sent next size.
Proof.
  intros [Hc Hch Hw Hb Ha Hu Hs Hk Hbd] Hsz Hn Hi. cbv zeta.
  unfold kMaximumTransferWindow, kMinimumChunkSize, kMaximumChunkSize, kMaxFileBytes in *.
  rewrite (usub_small 64 next acked) by widths.
  rewrite (usub_small 64 unack (next - acked)) by widths.
  rewrite (uadd_small 64 available inc) by widths.
  rewrite (uadd_small 64 (available + inc)) by widths. intros Hr.
  assert (Hw1 : u32 (available + inc + (unack - (next - acked)))
                = available + inc + (unack - (next - acked))) by (apply wrap_small; widths).
  assert (Hw2 : u32 (available + inc) = available + inc) by (apply wrap_small; widths).
  rewrite Hw1, Hw2. split; [done |]. split; [lia |].
  split; [apply wrap_small; widths |]. split; [apply wrap_small; widths |]. split; [lia |].
  split; unfold kMaximumTransferWindow, kMinimumChunkSize, kMaximumChunkSize; lia || done.
Qed.

Lemma record_ack_fields n1 n2 n3 n4 n5 now s :
  let s' := record_ack n1 n2 n3 n4 n5 now s in
  sn_state s' = sn_state s /\ sn_manifest s' = sn_manifest s /\ sn_source s' = sn_source s /\
  sn_context s' = sn_context s /\ sn_credit_reserved s' = sn_credit_reserved s /\
  sn_stream_reserved s' = sn_stream_reserved s /\ sn_chunk_size s' = sn_chunk_size s /\
  sn_reserved_credit s' = u32 n5 /\ sn_available_credit s' = u32 n4 /\
  sn_unacknowledged s' = n3 /\ sn_bytes_sent s' = sn_bytes_sent s /\
  sn_acknowledged_offset s' = n1.
Proof. unfold record_ack. cbv zeta. destruct s; by destruct (negb (n2 =? 0)). Qed.

Lemma ReceiveChunkAck_good fr now st :
  sn_inv (sn st) -> sn_state (sn st) = TransferState.kSendingFile ->
  good st (ReceiveChunkAck fr now st).1.
Proof.
  intros Hi Hs. unfold ReceiveChunkAck. cbv zeta. destruct (negb _ || _); [auto with xnn |].
  do 3 (let E := fresh "E" in match goal with |- good _ (if ?c then _ else _).1 =>
    destruct c eqn:E; [auto with xnn |] end).
  apply orb_false_iff in E as [E _]. bool_facts.
  pose proof Hi as [Hf Hin]. unfold sn_in_state in Hin. rewrite Hs in Hin.
  destruct Hin as (Hsrc & Hfl & Hst). pose proof (Unsigned_nonneg fr 4) as Hi4.
  destruct (sn_flow_ack _ _ _ _ _ _ _ _ (Unsigned fr 3) (Unsigned fr 4) Hfl)
    as (Hnew & Hrange & Hu1 & Hu2 & Hres & Hfl'); [apply Hf | lia | lia | lia |].
  destruct (TryAdjust _ _ _ _) as [credit adjusted] eqn:Ea.
  set (newly := usub 64 (Unsigned fr 3) (sn_acknowledged_offset (sn st))) in *.
  set (unack' := usub 64 (sn_unacknowledged (sn st)) newly) in *.
  set (avail' := uadd 64 (sn_available_credit (sn st)) (Unsigned fr 4)) in *.
  destruct adjusted; cbn [negb].
  - cbn [fst].
    pose proof (record_ack_fields (Unsigned fr 3) newly unack' avail' (uadd 64 avail' unack') now
      (sn st)) as (F1 & F2 & F3 & F4 & F5 & F6 & F7 & F8 & F9 & F10 & F11 & F12).
    split.
    + rewrite sn_upd, sn_world. generalize dependent (record_ack (Unsigned fr 3) newly unack' avail'
        (uadd 64 avail' unack') now (sn st)). intros s'. intros.
      split; rewrite ?F2, ?F5, ?F8.
      * split; [exact (sf_size _ _ _ Hf) |]. intros _. destruct Hfl' as [_ _ Hw Hb' Hav Hun _ _ _]. lia.
      * unfold sn_in_state. rewrite F1, Hs, F3, F5, F6, F7, F8, F9, F10, F11, F12, F2. done.
    + intros others R (Hb & Ho & Hr & Hact). unfold sn_ledger.
      rewrite sn_upd, world_upd, credit_set, sn_world, F4, F5, F6, F8, Hres.
      rewrite (sf_reserved _ _ _ _ _ _ _ _ Hfl) in *.
      rewrite Hu1, Hu2, TryAdjust_spec in Ea by (done || lia).
      destruct (_ && _) eqn:Eb in Ea; [| done].
      apply (f_equal fst) in Ea. cbn [fst] in Ea. subst credit. bool_facts.
      pose proof (reserved_range CreditDirection.kOutbound _ Hb).
      split; [apply budget_ok_set_reserved; [done | lia] |]. split; [done |].
      rewrite set_reserved_same. split; [lia |]. by destruct (w_credit (world st)).
  - assert (Hsame : credit = w_credit (world st)).
    { unfold TryAdjust in Ea. repeat case_match; by injection Ea. }
    set (st1 := st <| world := _ |>).
    apply (good_trans _ st1); [by apply kept_view |]. apply Fail_good, Hf.
Qed.

Lemma sn_flow_chunk credit chunk reserved available unack sent acked size :
  sn_flow_of credit chunk reserved available unack sent acked size -> size <= kMaxFileBytes ->
  sent < size -> let wanted := Z.min chunk (usub 64 size sent) in wanted <= available ->
  0 < wanted /\ wanted <= chunk /\ uadd 64 sent wanted = sent + wanted /\
  sn_flow_of credit chunk reserved (usub 32 available (u32 wanted)) (uadd 64 unack wanted)
    (uadd 64 sent wanted) acked size.
Proof.
  intros [Hc Hch Hw Hb Ha Hu Hs Hk Hbd] Hsz Hlt. cbv zeta.
  unfold kMaximumTransferWindow, kMinimumChunkSize, kMaximumChunkSize, kMaxFileBytes in *.
  rewrite (usub_small 64 size sent) by widths. intros Hwant.
  assert (Hu1 : u32 (Z.min chunk (size - sent)) = Z.min chunk (size - sent))
    by (apply wrap_small; widths).
  rewrite Hu1, (usub_small 32), !(uadd_small 64) by widths.
  split; [lia |]. split; [lia |]. split; [done |].
  split; unfold kMaximumTransferWindow, kMinimumChunkSize, kMaximumChunkSize; lia || done.
Qed.

Lemma record_chunk_fields now n s :
  let s' := record_chunk now n s in
  sn_state s' = sn_state s /\ sn_manifest s' = sn_manifest s /\ sn_source s' = sn_source s /\
  sn_context s' = sn_context s /\ sn_credit_reserved s' = sn_credit_reserved s /\
  sn_stream_reserved s' = sn_stream_reserved s /\ sn_chunk_size s' = sn_chunk_size s /\
  sn_reserved_credit s' = sn_reserved_credit s /\
  sn_available_credit s' = usub 32 (sn_available_credit s) (u32 n) /\
  sn_unacknowledged s' = uadd 64 (sn_unacknowledged s) n /\
  sn_bytes_sent s' = uadd 64 (sn_bytes_sent s) n /\
  sn_acknowledged_offset s' = sn_acknowledged_offset s.
Proof.
  unfold record_chunk. cbv zeta. destruct s; simpl.
  by match goal with |- context [if ?c then _ else _] => destruct c end.
Qed.

Lemma record_chunk_good now st :
  sn_inv (sn st) -> sn_state (sn st) = TransferState.kSendingFile ->
  sn_bytes_sent (sn st) < m_file_size (sn_manifest (sn st)) ->
  wanted_size (sn st) <= sn_available_credit (sn st) ->
  good st (upd (record_chunk now (wanted_size (sn st))) st).
Proof.
  intros [Hf Hin] Hs Hlt Hw. unfold sn_in_state in Hin. rewrite Hs in Hin.
  destruct Hin as (Hsrc & Hfl & Hst).
  destruct (sn_flow_chunk _ _ _ _ _ _ _ _ Hfl) as (_ & _ & _ & Hfl'); [apply Hf | done | done |].
  pose proof (record_chunk_fields now (wanted_size (sn st)) (sn st))
    as (F1 & F2 & F3 & F4 & F5 & F6 & F7 & F8 & F9 & F10 & F11 & F12).
  split; [| apply kept_upd; unfold ledger_view; by rewrite F4, F5, F6, F8].
  rewrite sn_upd. split; [by rewrite F2, F5, F8 |].
  unfold sn_in_state. by rewrite F1, Hs, F3, F5, F6, F7, F8, F9, F10, F11, F12, F2.
Qed.

Lemma set_source_good source st :
  sn_inv (sn st) -> sn_state (sn st) = TransferState.kSendingFile ->
  good st (upd (fun s => s <| sn_source := Some source |>) st).
Proof.
  intros [Hf Hin] Hs. split; [| by apply kept_upd]. rewrite sn_upd.
  generalize dependent (sn st). intros s Hf Hin Hs. split; [exact Hf |].
  unfold sn_in_state in *. simpl. rewrite Hs in *. destruct Hin as (_ & Hfl & Hst).
  split; [by eexists |]. by split.
Qed.

Lemma NextChunk_good now st :
  sn_inv (sn st) -> sn_state (sn st) = TransferState.kSendingFile ->
  sn_bytes_sent (sn st) < m_file_size (sn_manifest (sn st)) ->
  good st (NextChunk now st).1.
Proof.
  intros Hi Hs Hlt. unfold NextChunk.
  destruct (Z.ltb_spec (sn_available_credit (sn st)) (wanted_size (sn st))); [by apply good_refl |].
  destruct (sn_source (sn st)) as [source |]; [| by apply good_refl].
  destruct (ReadSource _ _ source) as [source' read].
  pose proof (set_source_good source' st Hi Hs) as [Hi1 Hk1].
  set (st1 := upd _ st) in *.
  assert (Hsame : sn_state (sn st1) = TransferState.kSendingFile /\
    sn_bytes_sent (sn st1) < m_file_size (sn_manifest (sn st1)) /\
    wanted_size (sn st) = wanted_size (sn st1) /\
    wanted_size (sn st1) <= sn_available_credit (sn st1)) by done.
  destruct Hsame as (Hs1 & Hlt1 & -> & Hw1). clearbody st1.
  apply (good_trans _ st1); [done |]. clear - Hi1 Hs1 Hlt1 Hw1.
  destruct (_ || _); [auto with xnn |].
  destruct (BuildChunkCommitment _ _ _ _ _) as [integrity commitment].
  set (st2 := st1 <| world := _ |>).
  assert (Hsn : sn st2 = sn st1) by done.
  apply (good_trans _ st2); [by apply kept_view |]. rewrite <- Hsn in *. clearbody st2. clear Hsn st1.
  destruct commitment as [commitment |]; [| auto with xnn].
  destruct (negb _); [auto with xnn |].
  match goal with |- context [encode ?f st2] =>
    apply (after_encode (encode f) (fun frame st => (upd (record_chunk now (wanted_size (sn st2))) st,
      _ <| u_outbound_frame := frame |>))) end; [intros; apply encode_same | done |].
  intros frame st3 H3. cbn [fst]. rewrite <- H3 in *. by apply record_chunk_good.
Qed.

Lemma NextFileFrame_good now st :
  sn_inv (sn st) -> sn_state (sn st) = TransferState.kSendingFile ->
  good st (NextFileFrame now st).1.
Proof.
  intros Hi Hs. unfold NextFileFrame. destruct (negb _).
  { match goal with |- context [CurrentUpdate st] => generalize (CurrentUpdate st) end. intros u.
    apply (after_encode EncodeFileBegin (fun frame st => (upd _ st, u <| u_outbound_frame := frame |>)));
      [intros; apply encode_same | done |].
    intros frame st1 Hsn. rewrite <- Hsn in Hi. apply good_core; [done | | done].
    cbn [fst]. rewrite sn_upd. same_sn_core. }
  destruct (Z.ltb_spec (sn_bytes_sent (sn st)) (m_file_size (sn_manifest (sn st))));
    [by apply NextChunk_good |].
  destruct (_ && _) eqn:E; [| by apply good_refl]. bool_facts.
  generalize (CurrentUpdate st). intros u.
  apply (after_encode EncodeFileEnd (fun frame st => (upd _ st, u <| u_outbound_frame := frame |>
    <| u_state := sn_state (sn (upd _ st)) |>))); [intros; apply encode_same | done |].
  intros frame st1 Hsn. rewrite <- Hsn in *. clear Hsn st. cbn [fst].
  split; [| by apply kept_upd]. rewrite sn_upd. generalize dependent (sn st1). intros s. intros.
  destruct Hi as [Hf Hin]. split; [exact Hf |]. unfold sn_in_state in *. simpl.
  rewrite Hs in Hin. destruct Hin as (_ & Hfl & Hst). pose proof Hfl as [_ _ _ _ _ _ Hsent _ Hbd].
  split; [exact Hfl |]. split; [exact Hst |]. lia.
Qed.

Lemma NextManifestFrame_good now st :
  sn_inv (sn st) -> sn_state (sn st) = TransferState.kSendingManifest ->
  good st (NextManifestFrame now st).1.
Proof.
  intros Hi Hs. unfold NextManifestFrame. generalize (CurrentUpdate st). intros u.
  destruct (_ =? 0); [| destruct (_ =? 1); [| auto with xnn]].
  - apply (after_encode EncodeManifestEntry (fun frame st => (upd _ st,
      u <| u_outbound_frame := frame |> <| u_state := sn_state (sn (upd _ st)) |>)));
      [intros; apply encode_same | done |].
    intros frame st1 Hsn. rewrite <- Hsn in *. cbn [fst].
    apply good_core; [done | | done]. rewrite sn_upd. same_sn_core.
  - apply (after_encode EncodeManifestEnd (fun frame st => (upd _ st,
      u <| u_outbound_frame := frame |> <| u_state := sn_state (sn (upd _ st)) |>)));
      [intros; apply encode_same | done |].
    intros frame st1 Hsn. rewrite <- Hsn in *. clear Hsn st. cbn [fst].
    split; [| by apply kept_upd]. rewrite sn_upd. generalize dependent (sn st1). intros s. intros.
    destruct Hi as [Hf Hin]. split; [exact Hf |]. unfold sn_in_state in *. simpl.
    by rewrite Hs in Hin.
Qed.

(** ** The public methods *)

Lemma Start_good now st : sn_inv (sn st) -> good st (Start now st).1.
Proof.
  intros Hi. unfold Start. destruct (IsTerminal _); [by apply good_refl |].
  apply sn_after_observe; [done | auto with xnn |]. intros st1 _ Hi1. clear st Hi.
  destruct (bool_decide_reflect (sn_state (sn st1) = TransferState.kCreated)) as [Hs |];
    cbn [negb]; [| auto with xnn].
  destruct (negb _); [auto with xnn |].
  apply (after_encode EncodeOffer (fun frame st => (upd _ st, TransferUpdate_default
    <| u_outbound_frame := frame |> <| u_state := TransferState.kSendingManifest |>)));
    [intros; apply encode_same | done |].
  intros frame st2 Hsn. rewrite <- Hsn in *. clear Hsn st1. cbn [fst].
  split; [| by apply kept_upd]. rewrite sn_upd. generalize dependent (sn st2). intros s. intros.
  destruct Hi1 as [Hf Hin]. split; [exact Hf |]. unfold sn_in_state in *. simpl.
  by rewrite Hs in Hin.
Qed.

Lemma sn_NextOutbound_good now st : sn_inv (sn st) -> good st (NextOutbound now st).1.
Proof.
  intros Hi. unfold NextOutbound. destruct (sn_shutdown _); [by apply good_refl |].
  destruct (_ && _); [by apply good_refl |].
  apply sn_after_observe; [done | intros; destruct (IsTerminal _); auto with xnn |].
  intros st1 _ Hi1. clear st Hi. destruct (negb (authorized _)).
  { destruct (IsTerminal _); [| auto with xnn]. cbn [fst].
    apply good_core; [done | rewrite sn_upd; same_sn_core | done]. }
  destruct (sn_cancel_ack_pending _); [by apply EmitCancelAck_good |].
  destruct (IsTerminal _); [by apply good_refl |].
  apply sn_after_timeout; [done |].
  destruct (sn_state (sn st1)) eqn:Hs; try (by apply good_refl).
  - by apply NextManifestFrame_good.
  - by apply NextFileFrame_good.
  - destruct (sn_cancel_frame_pending _); [by apply EmitCancel_good | by apply good_refl].
Qed.

Lemma sn_ReceiveInState_good fr now st : sn_inv (sn st) -> good st (ReceiveInState fr now st).1.
Proof.
  intros Hi. unfold ReceiveInState. destruct (sn_state (sn st)) eqn:Hs; auto with xnn.
  - destruct (bool_decide _); [by apply ReceiveReject_good | by apply ReceiveAccept_good].
  - by apply ReceiveChunkAck_good.
  - by apply ReceiveFileCommit_good.
  - by apply ReceiveCompleteAck_good.
  - by apply ReceiveCancelling_good.
Qed.

Lemma sn_ReceiveBody_good fr now st : sn_inv (sn st) -> good st (ReceiveBody fr now st).1.
Proof.
  intros Hi. unfold ReceiveBody.
  destruct (bool_decide (h_message_type (pf_header fr) = kError)); [by apply ReceiveError_good |].
  destruct (ReadTransferId fr); [| auto with xnn]. destruct (negb _); [auto with xnn |].
  destruct (bool_decide (h_message_type (pf_header fr) = kCancel));
    [destruct (bool_decide _); auto using BeginRemoteCancel_good with xnn |].
  destruct (bool_decide (h_message_type (pf_header fr) = kCancelAck));
    [| by apply sn_ReceiveInState_good].
  destruct (negb _); [auto with xnn |]. destruct (DecodeWireError _); [| auto with xnn].
  apply ends_good, ApplyCancelAck_ends; auto with xnn.
Qed.

Lemma sn_parse_inbound e st :
  sn (parse_inbound e st).1 = sn st /\
  w_credit (world (parse_inbound e st).1) = w_credit (world st).
Proof. unfold parse_inbound. by destruct (ParseInbound _ _ _ _). Qed.

Lemma sn_ReceiveTerminal_ends e st : sn_ended (sn st) -> ends st (ReceiveTerminal e st).1.
Proof.
  intros He. unfold ReceiveTerminal. pose proof (sn_parse_inbound e st) as [H1 H2].
  destruct (parse_inbound e st) as [st1 parsed]. cbn [fst] in *.
  apply (ends_trans _ st1); [apply kept_core; by rewrite ?H1 |].
  rewrite <- H1 in He. clear H1 H2 st.
  assert (Hsame : ends st1 st1) by (split; [done | apply kept_refl]).
  destruct (negb _); [done |]. destruct (ParseBody parsed) as [parsed' body_ok].
  destruct (negb _); [done |]. destruct (negb _); [done |].
  destruct (_ && bool_decide (_ = Some _)).
  - apply EmitCancelAck_ends.
    match goal with |- ends _ (upd ?f (upd ?g _)) =>
      set (st2 := upd f (upd g st1)); assert (Hc : sn_core (sn st2) = sn_core (sn st1)) end.
    { unfold st2. rewrite !sn_upd. destruct (sn_cancel_ack_pending (sn st1)); same_sn_core. }
    split; [| by apply kept_core]. destruct He as [Hi Ht].
    split; [by apply (sn_inv_core (sn st1)) |]. unfold sn_core in Hc. injection Hc. congruence.
  - destruct (DecodeWireError _) as [code |]; [| done]. destruct (bool_decide _ && _); [| done].
    apply ApplyCancelAck_ends. apply He.
Qed.

Lemma sn_ReceiveFrame_good e now st : sn_inv (sn st) -> good st (ReceiveFrame e now st).1.
Proof.
  intros Hi. unfold ReceiveFrame. destruct (sn_shutdown _); [by apply good_refl |].
  destruct (IsTerminal _) eqn:Ht; [by apply ends_good, sn_ReceiveTerminal_ends |]. clear Ht.
  apply sn_after_observe; [done | auto with xnn |]. intros st0 _ Hi0. clear st Hi.
  pose proof (sn_parse_inbound e st0) as [H1 H2].
  destruct (parse_inbound e st0) as [st1 parsed]. cbn [fst] in *.
  apply (good_trans _ st1); [apply kept_core; by rewrite ?H1 |].
  rewrite <- H1 in Hi0. clear H1 H2 st0.
  destruct (negb _); [auto with xnn |]. apply sn_after_timeout; [done |].
  destruct (negb _); [auto with xnn |]. destruct (ParseBody parsed) as [parsed' body_ok].
  destruct (negb body_ok); [auto with xnn | by apply sn_ReceiveBody_good].
Qed.

Lemma sn_Advance_good now st : sn_inv (sn st) -> good st (Advance now st).1.
Proof.
  intros Hi. unfold Advance. destruct (IsTerminal _); [by apply good_refl |].
  apply sn_after_observe; [done | auto with xnn |]. intros st1 _ Hi1.
  destruct (negb _); [auto with xnn |].
  destruct (sn_CheckTimeout_spec now st1 Hi1) as [-> | [He _]]; auto with xnn.
Qed.

Lemma sn_Cancel_good now st : sn_inv (sn st) -> good st (Cancel now st).1.
Proof.
  intros Hi. unfold Cancel. destruct (IsTerminal _); [by apply good_refl |].
  destruct (bool_decide _); [by apply good_refl |].
  apply sn_after_observe; [done | auto with xnn |]. intros st1 _ [Hf _]. clear st Hi.
  apply (good_trans _ (upd reset_source st1)); [by apply kept_upd |].
  set (st2 := upd reset_source st1).
  assert (Hst2 : sn_facts (sn st2) /\ sn_source (sn st2) = None) by done.
  destruct Hst2 as [Hf2 Hsrc]. clearbody st2. destruct (_ || _);
    [by apply ends_good, FinishCancelled_ends |].
  match goal with |- good _ (EmitCancel ?s).1 => set (st3 := s) end.
  assert (Hst3 : sn_inv (sn st3) /\ sn_state (sn st3) = TransferState.kCancelling /\
    kept st2 st3).
  { unfold st3. split; [| split; [done | by apply kept_upd]]. rewrite sn_upd.
    split; [exact Hf2 | exact Hsrc]. }
  destruct Hst3 as (Hi3 & Hs3 & Hk3). clearbody st3.
  apply (good_trans _ st3); [done | by apply EmitCancel_good].
Qed.

Lemma sn_Shutdown_ends st : sn_inv (sn st) -> ends st (Shutdown st).1.
Proof.
  intros Hi. unfold Shutdown. set (st1 := upd _ st).
  assert (Hg : good st st1).
  { apply good_core; [done | unfold st1; rewrite sn_upd; same_sn_core | done]. }
  clearbody st1. destruct Hg as [Hi1 Hk1].
  destruct (IsTerminal _) eqn:Ht; [by split |].
  apply (ends_trans _ st1); [done | apply FinishCancelled_ends; auto with xnn].
Qed.

(** ** Runs *)

Inductive sn_op :=
  | SnStart (now_ms : Z)
  | SnNextOutbound (now_ms : Z)
  | SnReceiveFrame (encoded : bytes) (now_ms : Z)
  | SnAdvance (now_ms : Z)
  | SnCancel (now_ms : Z)
  | SnShutdown.

Definition sn_call (op : sn_op) st : System * TransferUpdate :=
  match op with
  | SnStart now_ms => Start now_ms st
  | SnNextOutbound now_ms => NextOutbound now_ms st
  | SnReceiveFrame encoded now_ms => ReceiveFrame encoded now_ms st
  | SnAdvance now_ms => Advance now_ms st
  | SnCancel now_ms => Cancel now_ms st
  | SnShutdown => Shutdown st
  end.

(** The states of a sender: created for a file of an unsigned 64-bit size, and
    its methods called in any order, the world any other before every call. *)
Inductive sn_reachable : System -> Prop :=
  | sn_reach_create context manifest source w a1 a2 st :
      in_width 64 (m_file_size manifest) ->
      (Create context manifest source w a1 a2).1.1 = Some st -> sn_reachable st
  | sn_reach_call op w st :
      sn_reachable st -> sn_reachable (sn_call op (st <| world := w |>)).1.

Lemma sn_call_good op st : sn_inv (sn st) -> good st (sn_call op st).1.
Proof.
  destruct op; simpl; auto using Start_good, sn_NextOutbound_good, sn_ReceiveFrame_good,
    sn_Advance_good, sn_Cancel_good, sn_Shutdown_ends with xnn.
Qed.

Lemma sn_Create_inv context manifest source w a1 a2 st :
  in_width 64 (m_file_size manifest) ->
  (Create context manifest source w a1 a2).1.1 = Some st -> sn_inv (sn st).
Proof.
  intros Hw. unfold Create. destruct source as [source |]; [| done].
  destruct (_ || _) eqn:E; [done |]. bool_facts.
  destruct (ValidateReceiveRequest _ _ _); [done |]. destruct (EncodeFrame _ _ _ _ _).2; [| done].
  destruct (TryOpenStream _ _ _ _) as [credit []]; cbn [negb]; [| done].
  destruct a2; cbn [negb]; [| done]. intros [= <-]. cbn [sn].
  split; [split; simpl; [destruct Hw; lia | done] |].
  split; [| done]. split; [by eexists | done].
Qed.

Lemma sn_reachable_inv st : sn_reachable st -> sn_inv (sn st).
Proof.
  induction 1 as [context manifest source w a1 a2 st Hw Hc | op w st _ IH];
    [by eapply sn_Create_inv |].
  apply sn_call_good. exact IH.
Qed.

Lemma sn_call_ends op st : sn_ended (sn st) -> ends st (sn_call op st).1.
Proof.
  intros He. pose proof He as [Hi Ht]. assert (Hr : ends st st) by (split; [done | apply kept_refl]).
  destruct op; simpl.
  - unfold Start. by rewrite Ht.
  - pose proof (sn_NextOutbound_good now_ms st Hi) as [Hi' Hk']. split; [| done]. split; [done |].
    unfold NextOutbound. destruct (sn_shutdown _); [done |]. rewrite Ht. cbn [andb].
    destruct (negb _); [done |]. unfold Observe. destruct (ObserveTime _ _) as [last ok].
    set (st1 := upd _ st). assert (Ht1 : IsTerminal (sn_state (sn st1)) = true) by done.
    clearbody st1. rewrite Ht1. destruct (negb ok); [done |]. destruct (negb _); [done |].
    destruct (sn_cancel_ack_pending _); [| done].
    destruct (EmitCancelAck_core_same st1) as [Hc _]. unfold sn_core in Hc. injection Hc. congruence.
  - unfold ReceiveFrame. destruct (sn_shutdown _); [done |]. rewrite Ht.
    by apply sn_ReceiveTerminal_ends.
  - unfold Advance. by rewrite Ht.
  - unfold Cancel. by rewrite Ht.
  - by apply sn_Shutdown_ends.
Qed.

Lemma sn_ended_holds s : sn_ended s ->
  sn_source s = None /\ sn_credit_reserved s = false /\ sn_stream_reserved s = false.
Proof. intros [[_ Hin] Ht]. unfold sn_in_state in Hin. by destruct (sn_state s). Qed.

(** Whatever frames, calls and environment a sender meets, in a terminal
    state it has closed its file source and holds neither credit nor a stream
    of the connection, and every later call leaves it so. *)
Theorem sender_terminal_holds_nothing st op w :
  sn_reachable st -> IsTerminal (sn_state (sn st)) = true ->
  let st' := (sn_call op (st <| world := w |>)).1 in
  (sn_source (sn st) = None /\ sn_credit_reserved (sn st) = false /\
   sn_stream_reserved (sn st) = false) /\
  IsTerminal (sn_state (sn st')) = true /\ sn_source (sn st') = None /\
  sn_credit_reserved (sn st') = false /\ sn_stream_reserved (sn st') = false.
Proof.
  intros Hr Ht. cbv zeta. pose proof (conj (sn_reachable_inv st Hr) Ht : sn_ended (sn st)) as He.
  split; [by apply sn_ended_holds |].
  destruct (sn_call_ends op (st <| world := w |>)) as [He' _]; [exact He |].
  split; [exact (proj2 He') | by apply sn_ended_holds].
Qed.

(** C34: While the file is sent, the credit left and the bytes not yet
    acknowledged add up to what the sender has reserved of the connection, at
    most the protocol's window, and what was sent is what was acknowledged plus
    what was not, within the file; the end of the file is announced, and the
    completion awaited, only when every byte was sent and acknowledged. *)
Theorem send_window_conserved st :
  sn_reachable st ->
  match sn_state (sn st) with
  | TransferState.kSendingFile | TransferState.kAwaitingFileCommit
  | TransferState.kCompleting =>
      sn_reserved_credit (sn st) = sn_available_credit (sn st) + sn_unacknowledged (sn st) /\
      0 <= sn_available_credit (sn st) /\ 0 <= sn_unacknowledged (sn st) /\
      sn_reserved_credit (sn st) <= kMaximumTransferWindow /\
      sn_bytes_sent (sn st) = sn_acknowledged_offset (sn st) + sn_unacknowledged (sn st) /\
      sn_bytes_sent (sn st) <= m_file_size (sn_manifest (sn st)) /\
      sn_credit_reserved (sn st) = true /\
      (sn_state (sn st) <> TransferState.kSendingFile ->
       sn_acknowledged_offset (sn st) = m_file_size (sn_manifest (sn st)))
  | TransferState.kCreated | TransferState.kSendingManifest
  | TransferState.kAwaitingDecision =>
      sn_bytes_sent (sn st) = 0 /\ sn_credit_reserved (sn st) = false
  | _ => True
  end.
Proof.
  intros Hr. destruct (sn_reachable_inv st Hr) as [_ Hin]. unfold sn_in_state, sn_idle_of in Hin.
  destruct (sn_state (sn st)); try done.
  1-3: by destruct Hin as ((_ & ? & _ & ? & _) & _).
  - destruct Hin as (_ & [? ? ? ? ? ? ? ? ?] & _). by auto 10.
  - destruct Hin as ([? ? ? ? ? ? ? ? ?] & _ & ? & _). by auto 10.
  - destruct Hin as ([? ? ? ? ? ? ? ? ?] & _ & ? & _). by auto 10.
Qed.

(** The sender keeps exact books of the connection it shares: if before a
    call the outbound credit reserved is what other transfers reserved plus
    what this one holds, and the open streams are theirs and its own, then so
    it is after the call, on every path, errors included; and in a terminal
    state exactly the holdings of the others are left. *)
Theorem sender_credit_ledger st op others R :
  sn_reachable st -> sn_ledger others R st ->
  let st' := (sn_call op st).1 in
  sn_ledger others R st' /\
  (IsTerminal (sn_state (sn st')) = true ->
   reserved_bytes CreditDirection.kOutbound (w_credit (world st')) = others /\
   active_list (w_credit (world st')) ≡ₚ R).
Proof.
  intros Hr Hl. cbv zeta. destruct (sn_call_good op st (sn_reachable_inv st Hr)) as [Hi Hk].
  pose proof (Hk others R Hl) as Hl'. split; [done |]. intros Ht.
  destruct (sn_ended_holds _ (conj Hi Ht)) as (_ & Hc & Hs).
  destruct Hl' as (_ & _ & Hres & Hact). rewrite Hc in Hres. rewrite Hs in Hact.
  split; [lia | exact Hact].
Qed.

(** ** Updates *)

Definition sn_reports (result : System * TransferUpdate) : Prop :=
  u_state result.2 = sn_state (sn result.1) /\
  u_terminal result.2 = IsTerminal (sn_state (sn result.1)).

Lemma sn_reports_current st : sn_reports (st, CurrentUpdate st).
Proof. done. Qed.

Lemma sn_reports_violation st : sn_reports (st, violation_update (CurrentUpdate st)).
Proof. done. Qed.

Lemma sn_reports_busy st : sn_reports (st, busy_update (CurrentUpdate st)).
Proof. done. Qed.

#[local] Hint Resolve sn_reports_current sn_reports_violation sn_reports_busy : xnn.
#[local] Hint Opaque CurrentUpdate violation_update busy_update update upd Fail : xnn.

Lemma sn_reports_EncodeError c retry u st :
  sn_reports (st, u) -> sn_reports (EncodeError c retry u st).
Proof.
  intros [H1 H2]. unfold EncodeError.
  pose proof (encode_same (fun a x ids => EncodeErrorFrame a x ids c retry) st) as [Hx _].
  destruct (encode _ st) as [st1 [o |]]; cbn [fst] in Hx; split; simpl in *; by rewrite Hx.
Qed.

Lemma sn_reports_Fail e w f st : sn_reports (Fail e w f st).
Proof.
  unfold Fail.
  match goal with |- sn_reports (if _ then _ else (?s, ?u)) => assert (Hr : sn_reports (s, u)) end.
  { split; cbn [fst snd]; by rewrite sn_upd. }
  destruct (_ && authorized _); [by apply sn_reports_EncodeError | exact Hr].
Qed.

Lemma sn_reports_CancelTimeout st : sn_reports (CancelTimeout st).
Proof.
  unfold CancelTimeout.
  match goal with |- sn_reports (if _ then _ else (?s, ?u)) => assert (Hr : sn_reports (s, u)) end.
  { split; cbn [fst snd]; by rewrite sn_upd. }
  destruct (authorized _); [by apply sn_reports_EncodeError | exact Hr].
Qed.

#[local] Hint Resolve sn_reports_Fail sn_reports_CancelTimeout : xnn.

Lemma sn_reports_StateViolation st : sn_reports (StateViolation st).
Proof. unfold StateViolation. auto with xnn. Qed.
Lemma sn_reports_Unauthenticated st : sn_reports (Unauthenticated st).
Proof. unfold Unauthenticated. auto with xnn. Qed.
Lemma sn_reports_EncodingFailed st : sn_reports (EncodingFailed st).
Proof. unfold EncodingFailed. auto with xnn. Qed.
Lemma sn_reports_Malformed st : sn_reports (Malformed st).
Proof. unfold Malformed. auto with xnn. Qed.

Lemma sn_reports_CheckTimeout now st : sn_reports (CheckTimeout now st).
Proof.
  unfold CheckTimeout. destruct (sn_state (sn st)); auto with xnn.
  all: repeat match goal with |- context [if ?c then _ else _] => destruct c end; auto with xnn.
Qed.

#[local] Hint Resolve sn_reports_StateViolation sn_reports_Unauthenticated
  sn_reports_EncodingFailed sn_reports_Malformed sn_reports_CheckTimeout : xnn.

Lemma sn_reports_after_timeout now st (k : System -> System * TransferUpdate) :
  (forall st1, sn_reports (k st1)) ->
  sn_reports (let '(st1, timeout) := CheckTimeout now st in
              if negb (update_ok timeout) then (st1, timeout) else k st1).
Proof.
  intros Hk. pose proof (sn_reports_CheckTimeout now st) as Hr.
  destruct (CheckTimeout now st) as [st1 u]. by destruct (negb _).
Qed.

Ltac sn_report_cases := repeat (first
  [ solve [auto with xnn]
  | match goal with
    | |- sn_reports (let '(_, _) := CheckTimeout _ _ in _) =>
        apply sn_reports_after_timeout; intros ?
    | |- sn_reports (let '(_, _) := ?x in _) => destruct x
    | |- sn_reports (if ?c then _ else _) => destruct c
    | |- sn_reports (match ?x with _ => _ end) => destruct x
    | |- sn_reports (?s, _) => solve [generalize s; intros ?; split; reflexivity]
    end]).

Lemma sn_reports_kept st st1 u frame :
  sn_reports (st, u) -> sn_state (sn st1) = sn_state (sn st) ->
  sn_reports (st1, u <| u_outbound_frame := frame |>).
Proof. intros [H1 H2] Hs. unfold sn_reports in *. simpl in *. by rewrite Hs. Qed.

Lemma sn_reports_EmitCancelAck st : sn_reports (EmitCancelAck st).
Proof.
  unfold EmitCancelAck.
  match goal with |- context [encode ?f st] =>
    pose proof (encode_same f st) as [Hx _]; destruct (encode f st) as [st1 [o |]] end; cbn [fst] in Hx.
  - apply (sn_reports_kept st); [done |]. by rewrite sn_upd, Hx.
  - unfold CancelAckEncodingFailure. destruct (OutboundExhausted _); [| auto with xnn].
    destruct (sn_cancel_ack_failure_is_terminal _); auto with xnn.
    by split; cbn [fst snd]; rewrite sn_upd.
Qed.

Lemma sn_reports_EmitCancel st : sn_reports (EmitCancel st).
Proof.
  unfold EmitCancel.
  match goal with |- context [encode ?f st] =>
    pose proof (encode_same f st) as [Hx _]; destruct (encode f st) as [st1 [o |]] end; cbn [fst] in Hx.
  - apply (sn_reports_kept st); [done |]. by rewrite sn_upd, Hx.
  - unfold CancellationEncodingFailure. destruct (OutboundExhausted _); auto with xnn.
Qed.

Lemma sn_reports_BeginRemoteCancel st : sn_reports (BeginRemoteCancel st).
Proof. unfold BeginRemoteCancel. destruct (FinishCancelled st). apply sn_reports_EmitCancelAck. Qed.

Lemma sn_reports_ApplyCancelAck code st : sn_reports (ApplyCancelAck code st).
Proof. unfold ApplyCancelAck. auto with xnn. Qed.

Lemma record_chunk_state now n st : sn_state (sn (upd (record_chunk now n) st)) = sn_state (sn st).
Proof. rewrite sn_upd. apply (record_chunk_fields now n (sn st)). Qed.

Lemma sn_reports_NextChunk now st : sn_reports (NextChunk now st).
Proof.
  unfold NextChunk. destruct (_ <? _); [auto with xnn |].
  destruct (sn_source (sn st)) as [source |]; [| auto with xnn].
  destruct (ReadSource _ _ source) as [source' read]. destruct (_ || _); [auto with xnn |].
  destruct (BuildChunkCommitment _ _ _ _ _) as [integrity [commitment |]]; [| auto with xnn].
  destruct (negb _); [auto with xnn |].
  match goal with |- context [encode ?f ?s] =>
    pose proof (encode_same f s) as [Hx _]; destruct (encode f s) as [st1 [o |]] end; [| auto with xnn].
  cbn [fst] in Hx. apply (sn_reports_kept st); [done |]. rewrite record_chunk_state, Hx.
  by rewrite sn_world, sn_upd.
Qed.

(** A frame that moves the state on. *)
Lemma sn_reports_moved st st1 frame :
  IsTerminal (sn_state (sn st)) = false -> IsTerminal (sn_state (sn st1)) = false ->
  sn_reports (st1, (CurrentUpdate st) <| u_outbound_frame := frame |>
                     <| u_state := sn_state (sn st1) |>).
Proof. intros H1 H2. split; cbn [fst snd]; [done |]. rewrite H2. exact H1. Qed.

Lemma sn_reports_NextFileFrame now st :
  sn_state (sn st) = TransferState.kSendingFile -> sn_reports (NextFileFrame now st).
Proof.
  intros Hs. unfold NextFileFrame. destruct (negb _).
  - assert (Hx : sn (EncodeFileBegin st).1 = sn st) by apply encode_same.
    destruct (EncodeFileBegin st) as [st1 [o |]]; [| auto with xnn]. cbn [fst] in Hx.
    apply (sn_reports_kept st); [done |]. by rewrite sn_upd, Hx.
  - destruct (_ <? _); [apply sn_reports_NextChunk |]. destruct (_ && _); [| auto with xnn].
    destruct (EncodeFileEnd st) as [st1 [o |]]; [| auto with xnn].
    apply sn_reports_moved; [by rewrite Hs | by rewrite sn_upd].
Qed.

Lemma sn_reports_NextManifestFrame now st :
  sn_state (sn st) = TransferState.kSendingManifest -> sn_reports (NextManifestFrame now st).
Proof.
  intros Hs. unfold NextManifestFrame. destruct (_ =? 0); [| destruct (_ =? 1); [| auto with xnn]].
  - assert (Hx : sn (EncodeManifestEntry st).1 = sn st) by apply encode_same.
    destruct (EncodeManifestEntry st) as [st1 [o |]]; [| auto with xnn]. cbn [fst] in Hx.
    apply sn_reports_moved; [by rewrite Hs |]. rewrite sn_upd, Hx.
    change (IsTerminal (sn_state (sn st)) = false). by rewrite Hs.
  - destruct (EncodeManifestEnd st) as [st1 [o |]]; [| auto with xnn].
    apply sn_reports_moved; [by rewrite Hs | by rewrite sn_upd].
Qed.

#[local] Hint Resolve sn_reports_EmitCancelAck sn_reports_EmitCancel sn_reports_BeginRemoteCancel
  sn_reports_ApplyCancelAck : xnn.

Lemma sn_reports_NextOutbound now st : sn_reports (NextOutbound now st).
Proof.
  unfold NextOutbound. do 2 (destruct (_ : bool); [auto with xnn |]).
  destruct (Observe now st) as [st1 ok]. do 4 (destruct (_ : bool); [sn_report_cases |]).
  apply sn_reports_after_timeout. intros st2. destruct (sn_state (sn st2)) eqn:Hs; auto with xnn.
  - by apply sn_reports_NextManifestFrame.
  - by apply sn_reports_NextFileFrame.
  - sn_report_cases.
Qed.

Lemma sn_reports_ReceiveAccept fr now st : sn_reports (ReceiveAccept fr now st).
Proof. unfold ReceiveAccept. sn_report_cases. Qed.

Lemma sn_reports_ReceiveChunkAck fr now st : sn_reports (ReceiveChunkAck fr now st).
Proof. unfold ReceiveChunkAck. cbv zeta. sn_report_cases. Qed.

Lemma sn_reports_ReceiveFileCommit fr now st : sn_reports (ReceiveFileCommit fr now st).
Proof.
  unfold ReceiveFileCommit. destruct (_ || _); [auto with xnn |].
  destruct (EncodeComplete st) as [st1 [o |]]; [| auto with xnn].
  split; cbn [fst snd]; by rewrite sn_upd.
Qed.

#[local] Hint Resolve sn_reports_ReceiveAccept sn_reports_ReceiveChunkAck
  sn_reports_ReceiveFileCommit : xnn.

Lemma sn_reports_ReceiveCancelling fr st : sn_reports (ReceiveCancelling fr st).
Proof.
  unfold ReceiveCancelling. destruct (bool_decide _); [| auto with xnn].
  destruct (_ || _); [auto with xnn | apply sn_reports_current].
Qed.

Lemma sn_reports_ReceiveReject fr st : sn_reports (ReceiveReject fr st).
Proof.
  unfold ReceiveReject. destruct (DecodeWireError _); [| auto with xnn].
  destruct (_ || _); [auto with xnn | apply sn_reports_current].
Qed.

Lemma sn_reports_ReceiveCompleteAck fr st : sn_reports (ReceiveCompleteAck fr st).
Proof.
  unfold ReceiveCompleteAck. destruct (_ || _); [auto with xnn | apply sn_reports_current].
Qed.

#[local] Hint Resolve sn_reports_ReceiveCancelling sn_reports_ReceiveReject
  sn_reports_ReceiveCompleteAck : xnn.

Lemma sn_reports_ReceiveInState fr now st : sn_reports (ReceiveInState fr now st).
Proof.
  unfold ReceiveInState.
  destruct (sn_state (sn st)); try destruct (bool_decide _); auto with xnn.
Qed.

Lemma sn_reports_ReceiveError fr st : sn_reports (ReceiveError fr st).
Proof.
  unfold ReceiveError. destruct (DecodeWireError _); [| auto with xnn].
  destruct (_ || _); [auto with xnn | apply sn_reports_current].
Qed.

#[local] Hint Resolve sn_reports_ReceiveInState sn_reports_ReceiveError : xnn.

Lemma sn_reports_ReceiveBody fr now st : sn_reports (ReceiveBody fr now st).
Proof. unfold ReceiveBody. sn_report_cases. Qed.

Lemma sn_reports_ReceiveTerminal e st : sn_reports (ReceiveTerminal e st).
Proof. unfold ReceiveTerminal. sn_report_cases. Qed.

#[local] Hint Resolve sn_reports_ReceiveBody sn_reports_ReceiveTerminal sn_reports_NextOutbound : xnn.

(** Every call of the sender tells its caller the truth: the state and the
    terminal flag of the update are those of the object, on every branch. *)
Theorem sender_updates_report_state op st :
  u_state (sn_call op st).2 = sn_state (sn (sn_call op st).1) /\
  u_terminal (sn_call op st).2 = IsTerminal (sn_state (sn (sn_call op st).1)).
Proof.
  change (sn_reports (sn_call op st)). destruct op; simpl; auto with xnn.
  - unfold Start. sn_report_cases. split; cbn [fst snd]; by rewrite sn_upd.
  - unfold ReceiveFrame. sn_report_cases.
  - unfold Advance. sn_report_cases.
  - unfold Cancel, FinishCancelled. sn_report_cases.
  - unfold Shutdown, FinishCancelled. sn_report_cases.
Qed.

End Invariant.

(** ** A transfer *)

(** A file in memory as a source. *)
Definition MemoryFile : Type := bytes.

#[local] Instance memory_source : FileSource MemoryFile := {|
  source_size := fun content => bsize content;
  ReadSource := fun offset n content =>
    (content, {| fr_error := FileSourceError.kNone; fr_data := subspan content offset n |});
|}.

Module SenderExample.
#[local] Existing Instance ascii_utf8proc.
#[local] Existing Instance always_verifier.
#[local] Existing Instance Example.always_integrity.

Definition manifest : OneFileManifest :=
  OneFileManifest_default <| m_transfer_id := repeat 9 16 |>
    <| m_relative_path := chars "a.txt" |> <| m_file_size := 5000 |>
    <| m_file_commitment := repeat 5 32 |> <| m_manifest_commitment := repeat 5 32 |>.

Definition first_world : World OneSession Always :=
  {| w_authority := repeat 7 16; w_message_ids := MakeSequence 1 1;
     w_credit := MakeBudget 1048576 8; w_integrity := tt; w_alloc := [] |}.

Definition start : Sys OneSession Always MemoryFile :=
  {| sn := Sender_initial (example_context Role.kInitiator) manifest (repeat 1 5000);
     world := first_world <| w_credit :=
       (TryOpenStream 1 true Role.kInitiator (w_credit first_world)).1 |> |}.

Definition reply (message_id : Z) (type : MessageType)
    (fields : list (BodyBuilder -> BodyBuilder)) : bytes :=
  match (EncodeFrame true (example_context Role.kResponder) type (MakeSequence message_id 1)
           (body_of (AddBytes true 1 (repeat 9 16) true :: fields))).2 with
  | Some f => f
  | None => []
  end.

Definition sn_run (ops : list sn_op) (st : Sys OneSession Always MemoryFile) :=
  fold_left (fun st op => (sn_call op st).1) ops st.

Definition offer_ops : list sn_op :=
  [SnStart 10; SnNextOutbound 20; SnNextOutbound 30].

Definition send_ops : list sn_op :=
  [SnReceiveFrame (reply 1 kTransferAccept [AddU32 true 2 4096 true; AddU32 true 3 8192 true]) 40;
   SnNextOutbound 50; SnNextOutbound 60].

Definition end_ops : list sn_op :=
  [SnNextOutbound 70;
   SnReceiveFrame (reply 2 kChunkAck
     [AddU32 true 2 0 true; AddU64 true 3 4096 true; AddU32 true 4 4096 true]) 80;
   SnReceiveFrame (reply 3 kChunkAck
     [AddU32 true 2 0 true; AddU64 true 3 5000 true; AddU32 true 4 904 true]) 90;
   SnNextOutbound 100].

Definition complete_ops : list sn_op :=
  [SnReceiveFrame (reply 4 kFileCommit [AddU32 true 2 0 true; AddU64 true 3 5000 true]) 110;
   SnReceiveFrame (reply 5 kTransferCompleteAck [AddBytes true 2 (repeat 5 32) true]) 120].

Example sender_states :
  List.map (fun ops => sn_state (sn (sn_run ops start)))
    [offer_ops; offer_ops ++ send_ops; offer_ops ++ send_ops ++ end_ops;
     offer_ops ++ send_ops ++ end_ops ++ complete_ops]
  = [TransferState.kAwaitingDecision; TransferState.kSendingFile;
     TransferState.kAwaitingFileCommit; TransferState.kCompleted].
Proof. vm_compute. reflexivity. Qed.

Lemma sn_run_reachable ops st : sn_reachable st -> sn_reachable (sn_run ops st).
Proof.
  unfold sn_run. revert st. induction ops as [| op ops IH]; intros st Hr; [done |].
  simpl. apply IH. pose proof (sn_reach_call op (world st) st Hr) as Hc. by destruct st.
Qed.

Lemma sn_start_reachable : sn_reachable start.
Proof.
  apply (sn_reach_create (example_context Role.kInitiator) manifest (Some (repeat 1 5000))
    first_world true true).
  - apply (bool_decide_unpack _). by vm_compute.
  - vm_compute. reflexivity.
Qed.

Definition sending := sn_run (offer_ops ++ send_ops) start.
Definition finished := sn_run (offer_ops ++ send_ops ++ end_ops ++ complete_ops) start.

Lemma sender_terminal_holds_nothing_witness :
  sn_state (sn finished) = TransferState.kCompleted /\ sn_source (sn finished) = None.
Proof.
  split; [by vm_compute |].
  assert (Ht : IsTerminal (sn_state (sn finished)) = true) by (by vm_compute).
  exact (proj1 (proj1 (sender_terminal_holds_nothing finished SnShutdown first_world
    (sn_run_reachable _ start sn_start_reachable) Ht))).
Defined.

Lemma send_window_conserved_witness :
  sn_bytes_sent (sn sending) = 4096 /\
  sn_reserved_credit (sn sending)
    = sn_available_credit (sn sending) + sn_unacknowledged (sn sending).
Proof.
  assert (Hs : sn_state (sn sending) = TransferState.kSendingFile) by (by vm_compute).
  pose proof (send_window_conserved sending (sn_run_reachable _ start sn_start_reachable)) as H.
  rewrite Hs in H. split; [by vm_compute | exact (proj1 H)].
Defined.

Lemma start_ledger : sn_ledger 0 [] start.
Proof.
  split; [| split; [done | split; [by vm_compute | by vm_compute]]].
  apply (budget_ok_step (OpOpen 1 true Role.kInitiator) (MakeBudget 1048576 8));
    [by apply budget_ok_Make | done].
Qed.

Lemma sender_credit_ledger_witness :
  sn_ledger 0 [] (sn_call SnShutdown start).1 /\
  active_list (w_credit (world (sn_call SnShutdown start).1)) ≡ₚ [].
Proof.
  destruct (sender_credit_ledger start SnShutdown 0 [] sn_start_reachable start_ledger)
    as [Hl Ht].
  split; [exact Hl |]. apply Ht. by vm_compute.
Defined.

End SenderExample.
