(* ===== verification/Delivery.v ===== *)
(** * Delivery of a file

    What the receiver writes is what the sender reads.  The sender of [Sender]
    and the receiver of [Receiver] share only the frames: every frame the
    sender emitted may reach the receiver at any time, any number of times or
    never, in any order, while both ends are called in any order and their
    connections, storage, allocators and clocks do what they like.  The file
    source keeps its content; the verifier and the file system of the receiver
    are any, each with a record beside it: the data the verifier was given, the
    bytes written to each temporary object, and the objects committed. *)

From stdpp Require Import gmap.
From S2P Require Import Prelude.
From S2P Require Import V1Parser.
From S2P Require Import V1ParserProofs.
From S2P Require Import PathValidator.
From S2P Require Import PathValidatorProofs.
From S2P Require Import Transfer.
From S2P Require Import Connection.
From S2P Require Import FrameCodec.
From S2P Require Import FrameCodecProofs.
From S2P Require Import ReceiveTransaction.
From S2P Require Import ReceiveTransactionProofs.
From S2P Require Import Receiver.
From S2P Require Import ReceiverProofs.
From S2P Require Import ReceiverResources.
Import MessageType.

(** ** A verifier with a record *)

#[local] Instance recorded_verifier (V : Type) `{StreamingIntegrityVerifier V}
    : StreamingIntegrityVerifier (V * bytes) := {|
  Update := fun data v => let '(v', ok) := Update data v.1 in ((v', v.2 ++ data), ok);
  Seal := fun v => let '(v', ok) := Seal v.1 in ((v', v.2), ok);
|}.

#[local] Instance recorded_provider (I V : Type) `{TransferIntegrityProvider I V}
    : TransferIntegrityProvider I (V * bytes) := {|
  VerifyManifest := VerifyManifest (V := V);
  BuildChunkCommitment := BuildChunkCommitment (V := V);
  VerifyChunkCommitment := VerifyChunkCommitment (V := V);
  CreateFileVerifier := fun id index commitment i =>
    let '(i', v) := CreateFileVerifier (V := V) id index commitment i in
    (i', match v with Some v => Some (v, []) | None => None end);
|}.

(** ** A file system with a record *)

(** The bytes written to each open temporary object, by its handle, and the
    objects committed, by their destination. *)
Record Disk := {
  open_objects : gmap Z bytes;
  published : list (ValidatedReceivePath * bytes);
}.

#[global] Instance eta_Disk : Eta Disk := fun x =>
  {| open_objects := open_objects x; published := published x |}.

Definition on_objects (f : gmap Z bytes -> gmap Z bytes) (d : Disk) : Disk :=
  d <| open_objects := f (open_objects d) |>.

Definition publish (h : Z) (dest : ValidatedReceivePath) (d : Disk) : Disk :=
  match open_objects d !! h with
  | Some object => d <| published := published d ++ [(dest, object)] |>
  | None => d
  end.

(** Any backend, with the record: a new object is empty, a complete write
    appends, the content after an incomplete write is not known; a commit
    publishes the object, and it and a cleanup consume the handle. *)
#[local] Instance recorded_backend (P : Type) `{PlatformBackend P}
    : PlatformBackend (P * Disk) := {|
  CreateTemporary := fun dest size s =>
    let '(p, (e, h)) := CreateTemporary dest size s.1 in
    ((p, on_objects (fun m => <[h := []]> m) s.2), (e, h));
  WriteTemporary := fun h data s =>
    let '(p, (e, n)) := WriteTemporary h data s.1 in
    ((p, on_objects (fun m => if platform_ok e && (n =? bsize data)
                              then alter (fun object => object ++ data) h m
                              else delete h m) s.2), (e, n));
  FlushTemporary := fun h s => let '(p, e) := FlushTemporary h s.1 in ((p, s.2), e);
  CommitTemporary := fun h dest s =>
    let '(p, (d, e)) := CommitTemporary h dest s.1 in
    ((p, match d with
         | PlatformCommitDisposition.kCommitted => on_objects (delete h) (publish h dest s.2)
         | PlatformCommitDisposition.kOutcomeUncertain => on_objects (delete h) s.2
         | PlatformCommitDisposition.kNotCommitted => s.2
         end), (d, e));
  CleanupTemporary := fun h s =>
    let '(p, e) := CleanupTemporary h s.1 in ((p, on_objects (delete h) s.2), e);
|}.

(** ** What is written is what is verified *)

Section Mirror.
Context {A I P V : Type} `{CA : SessionAuthority A} `{CI : TransferIntegrityProvider I V}
  `{CP : PlatformBackend P} `{CV : StreamingIntegrityVerifier V} `{CU : Utf8Proc}.
Abbreviation Tx := (ReceiveTransaction (V * bytes)).
Abbreviation System := (Sys A I (P * Disk) (V * bytes)).
Implicit Types (t : Tx) (s : Storage (P * Disk)) (st : System).

Definition disk_of s : Disk := (st_platform s).2.

(** The temporary object of a transaction holds the data its verifier was
    given, and so does the object it committed. *)
Definition mirrored t (d : Disk) : Prop :=
  match t_state t with
  | TransactionState.kCreated => exists v, t_verifier t = Some (v, [])
  | TransactionState.kReceiving => exists v object,
      t_verifier t = Some (v, object) /\ open_objects d !! t_temporary t = Some object
  | TransactionState.kCommitted => exists v object,
      t_verifier t = Some (v, object) /\ (path (t_request t), object) ∈ published d
  | _ => True
  end.

Lemma FailAndCleanup_mirrored e pe t s :
  mirrored (FailAndCleanup e pe t s).1.1 (disk_of (FailAndCleanup e pe t s).1.2).
Proof.
  unfold FailAndCleanup, ReleaseReservation, finish, mirrored.
  destruct (t_temporary_open t); [destruct (CleanupTemporary _ _) as [p c];
    destruct (negb (platform_ok c)) |]; simpl; try (destruct (negb (t_reservation_held t))); done.
Qed.

Lemma tx_call_mirrored op t s : mirrored t (disk_of s) ->
  mirrored (tx_call op t s).1.1 (disk_of (tx_call op t s).1.2).
Proof.
  intros Hm. destruct (tx_terminal (t_state t)) eqn:Et.
  { by rewrite (tx_terminal_final op t s Et). }
  pose proof Hm as Hm0. unfold mirrored in Hm. destruct op; cbn [tx_call].
  - unfold Begin. destruct (t_state t) eqn:Es; try done; cbn [negb bool_decide].
    rewrite bool_decide_true by done. cbn [negb]. case (_ || _); [done |].
    destruct (TryReserveTemporary _ _) as [b []]; cbn [negb]; [| done].
    cbn [CreateTemporary recorded_backend].
    destruct (CreateTemporary _ _ (st_platform (s <| st_budget := b |>)).1) as [p [c h]].
    case (_ || _).
    + case (valid h); [apply FailAndCleanup_mirrored |]. unfold ReleaseReservation. by simpl.
    + destruct Hm as [v Hv]. unfold mirrored. simpl. exists v, []. split; [exact Hv |].
      apply lookup_insert_eq.
  - unfold WriteData. destruct (t_state t) eqn:Es; try done.
    rewrite bool_decide_true by done. cbn [negb]. destruct Hm as (v & object & Hv & Ho).
    case (_ >? _); [apply FailAndCleanup_mirrored |]. case (bool_decide _); [exact Hm0 |].
    cbn [WriteTemporary recorded_backend].
    destruct (WriteTemporary _ _ (st_platform s).1) as [p [e n]].
    destruct (platform_ok e) eqn:Ee; cbn [negb orb]; [| apply FailAndCleanup_mirrored].
    destruct (n =? bsize data) eqn:En; cbn [negb]; [| apply FailAndCleanup_mirrored].
    rewrite Hv. cbn [Update recorded_verifier]. destruct (Update data (fst (v, object))) as [v' a].
    destruct a; cbn [negb]; [| apply FailAndCleanup_mirrored].
    unfold mirrored. simpl. rewrite Es. exists v', (object ++ data). split; [done |].
    unfold disk_of in Ho. rewrite lookup_alter_eq, Ho. done.
  - unfold SealAndCommit. destruct (t_state t) eqn:Es; try done.
    rewrite bool_decide_true by done. cbn [negb]. destruct Hm as (v & object & Hv & Ho).
    case (negb _); [apply FailAndCleanup_mirrored |]. rewrite Hv.
    cbn [Seal recorded_verifier]. destruct (Seal (fst (v, object))) as [v' sealed].
    destruct sealed; cbn [negb]; [| apply FailAndCleanup_mirrored].
    cbn [FlushTemporary recorded_backend]. destruct (FlushTemporary _ (st_platform s).1) as [p fl].
    case (negb _); [apply FailAndCleanup_mirrored |].
    cbn [CommitTemporary recorded_backend].
    match goal with |- context [CommitTemporary ?a ?b ?c] =>
      destruct (CommitTemporary a b c) as [p' [d e]] end.
    destruct d; [| apply FailAndCleanup_mirrored | done].
    unfold ReleaseReservation, mirrored. simpl. unfold disk_of in *. simpl in *.
    case (negb (t_reservation_held t)); simpl; exists v', object; (split; [done |]);
      unfold publish; rewrite Ho; simpl; set_solver.
  - unfold AbortTx. destruct (t_state t); try done. apply FailAndCleanup_mirrored.
Qed.

(** The receiver's transaction, if there is one, is mirrored. *)
Definition disk st : Disk := disk_of (w_storage (world st)).
Definition mirror st : Prop :=
  forall t, rx_transaction (rx st) = Some t -> mirrored t (disk st).

Lemma mirror_call op t st : mirrored t (disk st) ->
  mirror (with_transaction t (tx_call op) st).1.
Proof.
  intros Hm. unfold with_transaction. pose proof (tx_call_mirrored op t _ Hm) as Hm'.
  destruct (tx_call op t _) as [[t' s'] res]. cbn [fst snd] in *. by intros ? [= <-].
Qed.

Lemma mirror_steps : step_invariant mirror.
Proof.
  assert (Hsame : forall st st', rx_transaction (rx st') = rx_transaction (rx st) ->
    w_storage (world st') = w_storage (world st) -> mirror st -> mirror st')
    by (intros st st' Ht Hs Hm t; unfold disk; rewrite Ht, Hs; apply Hm).
  split.
  - intros st st' Hh Hsh. unfold holdings in Hh. unfold shared in Hsh.
    apply Hsame; congruence.
  - intros st. unfold ReleaseCredit. destruct (negb _); [done |]. by apply Hsame.
  - intros st. unfold ReleaseStream. destruct (negb _); [done |]. by apply Hsame.
  - intros t op st Ht Hm. by apply mirror_call, Hm.
  - intros request v st _ (id & index & commitment & i & Hv) _ _.
    apply (mirror_call OpBegin). simpl in Hv. destruct (CreateFileVerifier _ _ _ _) as [i' [v0 |]]; [| done].
    injection Hv as <-. by exists v0.
  - intros window credit st _ _ _. by apply Hsame.
  - intros st. apply Hsame; unfold OpenOnFirstFrame; destruct (_ && _); try done;
      destruct (OpenStream _ _ _ _); by destruct (bool_decide _).
Qed.

End Mirror.

(** ** What the frames say *)

(** A parsed frame speaks the truth about the file [content] offered under
    [relative_path]. *)
Definition says (relative_path content : bytes) (fr : ParsedFrame) : Prop :=
  match h_message_type (pf_header fr) with
  | kTransferOffer => Unsigned fr 3 = bsize content
  | kManifestEntry => FieldBytes fr 4 = relative_path
  | kFileChunk => FieldBytes fr 4 = subspan content (Unsigned fr 3) (bsize (FieldBytes fr 4))
  | _ => True
  end.

Definition honest (relative_path content f : bytes) : Prop :=
  result_ok (ParseFrame f Version_default) = true ->
  says relative_path content (pr_frame (ParseFrame f Version_default)).

(** The two steps in which a transfer parses a frame are [ParseFrame]. *)
Lemma inbound_is_frame {A} `{SessionAuthority A} (authority : A) (context : TransferContext)
    (ids : ConnectionMessageSequence) (f : bytes) (p : ParsedTransferFrame) :
  parsed_ok (ParseInbound authority context ids f).2 = true ->
  ParseBody (ParseInbound authority context ids f).2 = (p, true) ->
  result_ok (ParseFrame f (c_version context)) = true /\
  pr_frame (ParseFrame f (c_version context)) = p_frame p.
Proof.
  unfold ParseInbound. destruct (negb _); [done |]. unfold ParseFrame.
  destruct (ParseFrameEnvelope f (c_version context)) as [fr e]. unfold result_ok. cbn [pr_error pr_frame].
  destruct (error_ok e) eqn:Ee; cbn [negb].
  2: { cbn [snd]. unfold parse_failure, parsed_ok, error_ok in *. cbn [p_error].
       by destruct (err_code e). }
  destruct (ObserveInbound _ _) as [ids' []]; cbn [negb]; [| done].
  destruct (_ >? _); [done |]. destruct (negb _); [done |]. cbn [snd]. intros _.
  unfold ParseBody. cbn.
  destruct (ParseFrameBody fr) as [fr' e'] eqn:Eb. destruct (error_ok e') eqn:E'; [| done].
  intros [= <-]. done.
Qed.

(** ** The receiving end *)

Create HintDb content discriminated.

Section Receiving.
Context {A I P V : Type} `{CA : SessionAuthority A} `{CI : TransferIntegrityProvider I V}
  `{CP : PlatformBackend P} `{CV : StreamingIntegrityVerifier V} `{CU : Utf8Proc}.
Context (relative_path content : bytes).
Abbreviation System := (Sys A I P (V * bytes)).
Implicit Types (st : System) (r : Receiver (V * bytes)).

Definition offered (q : ValidatedReceiveRequest) : Prop :=
  ValidateReceiveRequest relative_path (bsize content) kMaxFileBytes = inr q.

(** What the verifier of a transaction was given is the beginning of the file. *)
Definition tx_content (t : ReceiveTransaction (V * bytes)) : Prop :=
  offered (t_request t) /\
  (t_state t = TransactionState.kReceiving \/ t_state t = TransactionState.kCommitted ->
   exists v, t_verifier t = Some (v, subspan content 0 (t_received_bytes t))) /\
  (t_state t = TransactionState.kCommitted -> t_received_bytes t = bsize content).

Record content_of (version : Version) (state : TransferState.TransferState) (size : Z)
    (request : option ValidatedReceiveRequest)
    (tx : option (ReceiveTransaction (V * bytes))) : Prop := {
  co_version : version = Version_default;
  co_size : state = TransferState.kReceivingManifest \/ state = TransferState.kAwaitingDecision ->
    size = bsize content;
  co_request : forall q, request = Some q -> offered q;
  co_transaction : forall t, tx = Some t -> tx_content t;
}.
Abbreviation content_ok r :=
  (content_of (c_version (rx_context r)) (rx_state r) (m_file_size (rx_manifest r))
     (rx_request r) (rx_transaction r)).

Lemma offered_size q : offered q -> declared_size q = bsize content.
Proof.
  unfold offered, ValidateReceiveRequest. destruct (ValidateReceivePath _); [done |].
  by destruct (_ >? _); intros; simplify_eq.
Qed.

(** *** Calls of the transaction *)

Lemma FailAndCleanup_content e pe (t : ReceiveTransaction (V * bytes)) (s : Storage P) :
  offered (t_request t) -> tx_content (FailAndCleanup e pe t s).1.1.
Proof.
  intros Hq. unfold FailAndCleanup, ReleaseReservation, finish, tx_content.
  destruct (t_temporary_open t); [destruct (CleanupTemporary _ _) as [p c];
    destruct (negb (platform_ok c)) |]; simpl;
    try (destruct (negb (t_reservation_held t))); simpl;
    (split; [done | split; [by intros [|] | done]]).
Qed.

#[local] Hint Resolve FailAndCleanup_content : xnn.

Lemma AbortTx_content (t : ReceiveTransaction (V * bytes)) (s : Storage P) :
  tx_content t -> tx_content (AbortTx t s).1.1.
Proof.
  intros Ht. pose proof Ht as (Hq & _). unfold AbortTx, finish.
  destruct (t_state t) eqn:E; simpl; auto with xnn.
  split; [done | split; [by intros [|] | done]].
Qed.

Lemma Begin_content request v (s : Storage P) :
  offered request -> tx_content (Begin (MakeTransaction request true (Some (v, []))) s).1.1.
Proof.
  intros Hq. unfold Begin, finish. simpl. destruct (TryReserveTemporary _ _) as [b []]; simpl.
  - destruct (CreateTemporary _ _ _) as [p [c h]]. destruct (_ || _).
    + destruct (valid h); [auto with xnn |]. simpl.
      split; [done | split; [by intros [|] | done]].
    + split; [done |]. split; [intros _; by exists v | done].
  - split; [done | split; [by intros [|] | done]].
Qed.

Lemma subspan_snoc (l d : bytes) (n : Z) :
  0 <= n -> n + bsize d <= bsize l -> d = subspan l n (bsize d) ->
  subspan l 0 n ++ d = subspan l 0 (n + bsize d).
Proof.
  intros Hn Hle Hd. pose proof (bsize_nonneg d). rewrite Hd at 1.
  unfold subspan. simpl. rewrite !drop_0, Z2Nat.inj_add by lia. by rewrite take_take_drop.
Qed.

Lemma WriteData_content data (t : ReceiveTransaction (V * bytes)) (s : Storage P) :
  tx_ok t -> tx_content t -> data = subspan content (t_received_bytes t) (bsize data) ->
  tx_content (WriteData data t s).1.1.
Proof.
  intros [Hw Hok] Ht Hd. pose proof Ht as (Hq & Hv & _).
  unfold WriteData. destruct (bool_decide_reflect (t_state t = TransactionState.kReceiving)) as [Es |];
    cbn [negb]; [| done].
  rewrite Es in Hok. destruct (_ >? _) eqn:Er; [auto with xnn |]. bool_facts.
  destruct (bool_decide (data = [])); [done |].
  destruct (WriteTemporary _ _ _) as [p [e n]]. destruct (_ || _); [auto with xnn |].
  destruct Hv as [v Hv]; [by left |]. rewrite Hv. simpl.
  destruct (Update data v) as [v' accepted]. destruct accepted; cbn [negb]; [| auto with xnn].
  split; [done |]. simpl. split; [| by rewrite Es].
  intros _. exists v'. do 2 f_equal. rewrite (offered_size _ Hq) in Er, Hw, Hok.
  destruct Hok as (_ & _ & _ & _ & Hr). pose proof (bsize_nonneg data).
  rewrite usub_small in Er by widths. rewrite uadd_small by widths.
  apply subspan_snoc; [lia | lia | done].
Qed.

Lemma SealAndCommit_content (t : ReceiveTransaction (V * bytes)) (s : Storage P) :
  tx_content t -> tx_content (SealAndCommit t s).1.1.
Proof.
  intros Ht. pose proof Ht as (Hq & Hv & _).
  unfold SealAndCommit. destruct (bool_decide_reflect (t_state t = TransactionState.kReceiving)) as [Es |];
    cbn [negb]; [| done].
  destruct (negb (_ =? _)) eqn:Er; [auto with xnn |]. bool_facts. rewrite (offered_size _ Hq) in Er.
  destruct Hv as [v Hv]; [by left |]. rewrite Hv. simpl.
  destruct (Seal v) as [v' sealed]. destruct sealed; cbn [negb]; [| auto with xnn].
  destruct (FlushTemporary _ _) as [p1 fl]. destruct (negb _); [auto with xnn |].
  destruct (CommitTemporary _ _ _) as [p2 [[] e]]; try (by apply FailAndCleanup_content).
  all: unfold ReleaseReservation, finish; simpl;
    try (destruct (negb (t_reservation_held t))); simpl.
  all: split; [done |]; simpl.
  all: first [split; [by intros [|] | done] | split; [by intros _; eexists | done]].
Qed.

(** *** Calls of the receiver *)

(** The members [content_ok] reads, and those it reads when the state is past
    the manifest. *)
Definition view r := (rx_context r, rx_state r, m_file_size (rx_manifest r), rx_request r,
  rx_transaction r).
Definition late_view r := (rx_context r, rx_request r, rx_transaction r).
Definition late (state : TransferState.TransferState) : bool :=
  match state with
  | TransferState.kReceivingManifest | TransferState.kAwaitingDecision => false
  | _ => true
  end.

Lemma content_view r r' : view r' = view r -> content_ok r -> content_ok r'.
Proof.
  unfold view. intros E. injection E as E1 E2 E3 E4 E5. by rewrite E1, E2, E3, E4, E5.
Qed.

Lemma content_late r r' : late_view r' = late_view r -> late (rx_state r') = true ->
  content_ok r -> content_ok r'.
Proof.
  unfold late_view. intros E Hl [H1 _ H3 H4]. injection E as E1 E2 E3. rewrite E1, E2, E3.
  split; try done. intros [Hs | Hs]; by rewrite Hs in Hl.
Qed.

Ltac same_view := let r := fresh in
  match goal with |- _ = _ ?x => generalize x end; intros r; destruct r; cbv beta;
  repeat match goal with |- context [if ?c then _ else _] => destruct c end; reflexivity.

Lemma content_upd f st : view (f (rx st)) = view (rx st) -> content_ok (rx st) ->
  content_ok (rx (upd f st)).
Proof. rewrite rx_upd. apply content_view. Qed.

Lemma content_upd_late f st : late_view (f (rx st)) = late_view (rx st) ->
  late (rx_state (f (rx st))) = true -> content_ok (rx st) -> content_ok (rx (upd f st)).
Proof. rewrite rx_upd. apply content_late. Qed.

Lemma AbortTransaction_content st : content_ok (rx st) -> content_ok (rx (AbortTransaction st)).
Proof.
  intros Hc. unfold AbortTransaction. destruct (rx_transaction (rx st)) as [t |] eqn:E; [| by rewrite E].
  unfold with_transaction. pose proof (AbortTx_content t (w_storage (world st))) as Ha.
  destruct (AbortTx t _) as [[t' s'] res]. cbn [fst] in *. rewrite rx_upd, rx_world.
  destruct Hc as [H1 H2 H3 H4]. specialize (Ha (H4 t eq_refl)). clear E H4.
  generalize dependent (rx st). intros r. intros. split; simpl; try done. by intros ? [= <-].
Qed.

Lemma ReleaseCredit_content st : content_ok (rx st) -> content_ok (rx (ReleaseCredit st)).
Proof. rewrite rx_ReleaseCredit. apply content_view. same_view. Qed.

Lemma ReleaseStream_content st : content_ok (rx st) -> content_ok (rx (ReleaseStream st)).
Proof. rewrite rx_ReleaseStream. apply content_view. same_view. Qed.

Lemma maybe_abort_content (b : bool) st :
  content_ok (rx st) -> content_ok (rx (if b then st else AbortTransaction st)).
Proof. destruct b; auto using AbortTransaction_content. Qed.

#[local] Hint Resolve maybe_abort_content AbortTransaction_content ReleaseCredit_content ReleaseStream_content : content.
#[local] Hint Extern 2 (content_of (c_version (rx_context (rx (upd _ _)))) _ _ _ _) =>
  (apply content_upd; [same_view |]) : content.
#[local] Hint Extern 3 (content_of (c_version (rx_context (rx (upd _ _)))) _ _ _ _) =>
  (apply content_upd_late;
   [same_view | first [reflexivity | by destruct (DurableCommit _)] |]) : content.

Lemma EncodeError_content c retry u st :
  content_ok (rx st) -> content_ok (rx (EncodeError c retry u st).1).
Proof. by rewrite rx_EncodeError. Qed.

Lemma Fail_content e w f st : content_ok (rx st) -> content_ok (rx (Fail e w f st).1).
Proof.
  intros Hc. unfold Fail.
  match goal with |- content_of (c_version (rx_context (rx (if _ then _ else (?s, _)).1))) _ _ _ _ =>
    assert (Hs : content_ok (rx s)) end.
  { auto 8 with content. }
  destruct (_ && authorized _); [by apply EncodeError_content | exact Hs].
Qed.

Lemma CancelTimeout_content st : content_ok (rx st) -> content_ok (rx (CancelTimeout st).1).
Proof.
  intros Hc. unfold CancelTimeout.
  match goal with |- content_of (c_version (rx_context (rx (if _ then _ else (?s, _)).1))) _ _ _ _ =>
    assert (Hs : content_ok (rx s)) by auto 6 with content end.
  destruct (authorized _); [by apply EncodeError_content | exact Hs].
Qed.

#[local] Hint Resolve Fail_content CancelTimeout_content : content.

Lemma CheckTimeout_content now st :
  content_ok (rx st) -> content_ok (rx (CheckTimeout now st).1).
Proof.
  intros Hc. unfold CheckTimeout. case (rx_state (rx st)); auto with content.
  all: repeat match goal with |- context [if ?c then _ else _] => destruct c end; auto with content.
Qed.

Lemma Observe_content now st : content_ok (rx st) -> content_ok (rx (Observe now st).1).
Proof. intros Hc. unfold Observe. destruct (ObserveTime _ _). cbn [fst]. auto with content. Qed.

#[local] Hint Resolve CheckTimeout_content Observe_content : content.

Lemma encode_content f st : content_ok (rx st) -> content_ok (rx (encode f st).1).
Proof. by rewrite rx_encode. Qed.

Lemma take_alloc_content st : content_ok (rx st) -> content_ok (rx (take_alloc st).1).
Proof. by rewrite rx_take_alloc. Qed.

Lemma parse_inbound_content e st : content_ok (rx st) -> content_ok (rx (parse_inbound e st).1).
Proof. by rewrite rx_parse_inbound. Qed.

#[local] Hint Resolve encode_content take_alloc_content parse_inbound_content : content.

(** Case analysis of a method: every call inside it keeps [content_ok]. *)
Ltac content_cases := repeat (first
  [ solve [auto 8 with content]
  | match goal with
    | |- content_of (c_version (rx_context (rx (_, _).1))) _ _ _ _ => cbn [fst]
    | |- content_of (c_version (rx_context (rx (let '(_, _) := ?x in _).1))) _ _ _ _ =>
        let H := fresh "Hc" in
        first [ assert (H : content_ok (rx x.1)) by (auto 8 with content) | idtac ];
        destruct x; cbn [fst] in *
    | |- content_of (c_version (rx_context (rx (if ?c then _ else _).1))) _ _ _ _ => case c
    | |- content_of (c_version (rx_context (rx (if ?c then _ else _)))) _ _ _ _ => case c
    | |- content_of (c_version (rx_context (rx (match ?x with _ => _ end).1))) _ _ _ _ =>
        case x; intros
    end; cbv zeta ]).

Lemma EmitCancelAck_content st : content_ok (rx st) -> content_ok (rx (EmitCancelAck st).1).
Proof. intros Hc. unfold EmitCancelAck, CancelAckEncodingFailure. content_cases. Qed.

Lemma EmitCancel_content st : content_ok (rx st) -> content_ok (rx (EmitCancel st).1).
Proof. intros Hc. unfold EmitCancel, CancellationEncodingFailure. content_cases. Qed.

Lemma FinishCancelled_content st : content_ok (rx st) -> content_ok (rx (FinishCancelled st).1).
Proof. intros Hc. unfold FinishCancelled. content_cases. Qed.

Lemma FinishCommitted_content st : content_ok (rx st) -> content_ok (rx (FinishCommitted st).1).
Proof. intros Hc. unfold FinishCommitted. content_cases. Qed.

#[local] Hint Resolve EmitCancelAck_content EmitCancel_content FinishCancelled_content
  FinishCommitted_content : content.

Lemma Finish_content (b : bool) st : content_ok (rx st) ->
  content_ok (rx (if b then FinishCommitted st else FinishCancelled st).1).
Proof. destruct b; auto with content. Qed.

#[local] Hint Resolve Finish_content : content.

Lemma BeginRemoteCancel_content st :
  content_ok (rx st) -> content_ok (rx (BeginRemoteCancel st).1).
Proof. intros Hc. unfold BeginRemoteCancel. content_cases. Qed.

Lemma ApplyCancelAck_content code st :
  content_ok (rx st) -> content_ok (rx (ApplyCancelAck code st).1).
Proof. intros Hc. unfold ApplyCancelAck. cbv zeta. content_cases. Qed.

Lemma PendingEncodingFailure_content st :
  content_ok (rx st) -> content_ok (rx (PendingEncodingFailure st).1).
Proof. intros Hc. unfold PendingEncodingFailure. content_cases. Qed.

#[local] Hint Resolve BeginRemoteCancel_content ApplyCancelAck_content
  PendingEncodingFailure_content : content.

Lemma EmitPendingReject_content st :
  content_ok (rx st) -> content_ok (rx (EmitPendingReject st).1).
Proof. intros Hc. unfold EmitPendingReject, EncodeReject. content_cases. Qed.

#[local] Hint Resolve EmitPendingReject_content : content.

Lemma BeginReject_content e w retry now st :
  content_ok (rx st) -> content_ok (rx (BeginReject e w retry now st).1).
Proof. intros Hc. unfold BeginReject. content_cases. Qed.

#[local] Hint Resolve BeginReject_content : content.

Lemma RejectForStorage_content e now st :
  content_ok (rx st) -> content_ok (rx (RejectForStorage e now st).1).
Proof. intros Hc. unfold RejectForStorage. cbv zeta. content_cases. Qed.

Lemma EmitPendingFileCommit_content st :
  content_ok (rx st) -> content_ok (rx (EmitPendingFileCommit st).1).
Proof. intros Hc. unfold EmitPendingFileCommit, EncodeFileCommit. content_cases. Qed.

Lemma EmitPendingCompletionAck_content st :
  content_ok (rx st) -> content_ok (rx (EmitPendingCompletionAck st).1).
Proof. intros Hc. unfold EmitPendingCompletionAck, EncodeCompleteAck. content_cases. Qed.

Lemma StateViolation_content st :
  content_ok (rx st) -> content_ok (rx (StateViolation st).1).
Proof. intros Hc. unfold StateViolation. auto with content. Qed.

Lemma Unauthenticated_content st :
  content_ok (rx st) -> content_ok (rx (Unauthenticated st).1).
Proof. intros Hc. unfold Unauthenticated. auto with content. Qed.

#[local] Hint Resolve RejectForStorage_content EmitPendingFileCommit_content
  EmitPendingCompletionAck_content StateViolation_content Unauthenticated_content : content.

Lemma ReceiveTerminal_content e st :
  content_ok (rx st) -> content_ok (rx (ReceiveTerminal e st).1).
Proof. intros Hc. unfold ReceiveTerminal. content_cases. Qed.

Lemma ReceiveError_content fr st :
  content_ok (rx st) -> content_ok (rx (ReceiveError fr st).1).
Proof. intros Hc. unfold ReceiveError. cbv zeta. content_cases. Qed.

Lemma NextOutbound_content now st :
  content_ok (rx st) -> content_ok (rx (NextOutbound now st).1).
Proof. intros Hc. unfold NextOutbound. cbv zeta. content_cases. Qed.

Lemma ConfirmChunkAckWritten_content next now st :
  content_ok (rx st) -> content_ok (rx (ConfirmChunkAckWritten next now st).1).
Proof. intros Hc. unfold ConfirmChunkAckWritten. cbv zeta. content_cases. Qed.

Lemma Reject_content code retry now st :
  content_ok (rx st) -> content_ok (rx (Reject code retry now st).1).
Proof. intros Hc. unfold Reject. cbv zeta. content_cases. Qed.

Lemma Advance_content now st : content_ok (rx st) -> content_ok (rx (Advance now st).1).
Proof. intros Hc. unfold Advance. cbv zeta. content_cases. Qed.

Lemma Cancel_content now st : content_ok (rx st) -> content_ok (rx (Cancel now st).1).
Proof. intros Hc. unfold Cancel. cbv zeta. content_cases. Qed.

Lemma Shutdown_content st : content_ok (rx st) -> content_ok (rx (Shutdown st).1).
Proof. intros Hc. unfold Shutdown. content_cases. Qed.

#[local] Hint Resolve ReceiveTerminal_content ReceiveError_content : content.

(** *** The frames of a transfer *)

Lemma ReceiveOffer_content fr id now st :
  content_ok (rx st) -> says relative_path content fr ->
  content_ok (rx (ReceiveOffer fr id now st).1).
Proof.
  intros Hc Hsay. unfold ReceiveOffer, OutOfMemory.
  destruct (bool_decide_reflect (h_message_type (pf_header fr) = kTransferOffer)) as [Ht |];
    cbn [negb]; [| auto with content].
  case (_ || _); [auto with content |]. unfold says in Hsay. rewrite Ht in Hsay.
  match goal with |- context [take_alloc ?s] =>
    pose proof (rx_take_alloc s) as Hx; destruct (take_alloc s) as [st1 a] end.
  cbn [fst] in Hx. rewrite rx_upd in Hx.
  case a; cbn [negb fst].
  - rewrite rx_upd, Hx. clear Hx. generalize dependent (rx st). intros r [H1 H2 H3 H4].
    by split.
  - apply Fail_content. rewrite Hx. clear Hx. generalize dependent (rx st).
    intros r [H1 H2 H3 H4]. by split.
Qed.

Lemma ReceiveManifestEntry_content fr now st :
  content_ok (rx st) -> rx_state (rx st) = TransferState.kReceivingManifest ->
  says relative_path content fr ->
  content_ok (rx (ReceiveManifestEntry fr now st).1).
Proof.
  intros Hc Hs Hsay. unfold ReceiveManifestEntry, InvalidManifest, OutOfMemory.
  destruct (bool_decide_reflect (h_message_type (pf_header fr) = kManifestEntry)) as [Ht |];
    cbn [negb orb]; [| auto with content].
  case (_ || _); [auto with content |]. unfold says in Hsay. rewrite Ht in Hsay.
  destruct (ValidateReceiveRequest _ _ _) as [| request] eqn:Ev; [auto with content |].
  pose proof (rx_take_alloc st) as Hx. destruct (take_alloc st) as [st1 a]. cbn [fst] in Hx.
  rewrite <- Hx in *. clear Hx st. case a; cbn [negb fst]; [| auto with content].
  rewrite rx_upd. generalize dependent (rx st1). intros r [H1 H2 H3 H4] Hs Ev.
  split; simpl; try done. intros q [= <-]. rewrite H2, Hsay in Ev by (by left). exact Ev.
Qed.

Lemma ReceiveManifestEnd_content fr now st :
  content_ok (rx st) -> rx_state (rx st) = TransferState.kReceivingManifest ->
  content_ok (rx (ReceiveManifestEnd fr now st).1).
Proof.
  intros Hc Hs. unfold ReceiveManifestEnd, InvalidManifest, OutOfMemory.
  case (_ || _); [auto with content |].
  pose proof (rx_take_alloc st) as Hx. destruct (take_alloc st) as [st1 a]. cbn [fst] in Hx.
  rewrite <- Hx in *. clear Hx st. case a; cbn [negb fst]; [| auto with content].
  destruct (VerifyManifest _ _) as [integrity verified].
  assert (Hc1 : content_ok (rx (upd (fun r => r <| rx_raw_end_frame := pf_raw fr |>) st1)))
    by auto with content.
  case verified; cbn [negb fst].
  - rewrite rx_upd, rx_world, rx_upd. rewrite rx_upd in Hc1. generalize dependent (rx st1).
    intros r _ Hs [H1 H2 H3 H4]. split; simpl; try done. intros _. apply H2. left. exact Hs.
  - apply Fail_content. exact Hc1.
Qed.

Lemma ReceiveFileBegin_content fr st :
  content_ok (rx st) -> content_ok (rx (ReceiveFileBegin fr st).1).
Proof. intros Hc. unfold ReceiveFileBegin. content_cases. Qed.

(** A call of the transaction of the receiver. *)
Lemma with_transaction_content t call st :
  content_ok (rx st) -> tx_content (call t (w_storage (world st))).1.1 ->
  content_ok (rx (with_transaction t call st).1).
Proof.
  intros [H1 H2 H3 _] Ht. unfold with_transaction. destruct (call t _) as [[t' s'] res].
  cbn [fst] in *. rewrite rx_upd, rx_world. generalize dependent (rx st). intros r. intros.
  split; simpl; try done. by intros ? [= <-].
Qed.

Lemma ReceiveFileChunk_content fr now st :
  rx_inv (rx st) -> content_ok (rx st) -> rx_state (rx st) = TransferState.kReceivingFile ->
  h_message_type (pf_header fr) = kFileChunk -> says relative_path content fr ->
  content_ok (rx (ReceiveFileChunk fr now st).1).
Proof.
  intros Hi Hc Hs Ht Hsay. unfold ReceiveFileChunk, EncodeChunkAck.
  destruct (ChunkInvalid fr (rx st)) eqn:Ec; [auto with content |].
  case (_ >? rx_available_credit _); [auto with content |].
  destruct (VerifyChunkCommitment _ _ _ _ _ _) as [integrity verified].
  case verified; cbn [negb]; [| apply Fail_content; exact Hc].
  rewrite rx_world. destruct (rx_transaction (rx st)) as [t |] eqn:Et;
    [| apply StateViolation_content; by rewrite <- Et in Hc].
  assert (Htx : tx_ok t /\ tx_content t /\ t_received_bytes t = rx_next_offset (rx st)).
  { split; [by apply (fa_transaction _ _ _ (inv_facts _ Hi)) |].
    split; [by apply (co_transaction _ _ _ _ _ Hc) |].
    destruct Hi as (_ & _ & Hin). unfold in_state in Hin. rewrite Hs in Hin.
    destruct Hin as (_ & t' & Et' & _ & Hr). rewrite Et in Et'. by injection Et' as ->. }
  destruct Htx as (Hok & Htc & Hr). rewrite <- Et in Hc.
  assert (Hd : FieldBytes fr 4 = subspan content (t_received_bytes t) (bsize (FieldBytes fr 4))).
  { unfold says in Hsay. rewrite Ht in Hsay. rewrite Hr. unfold ChunkInvalid in Ec. bool_facts.
    congruence. }
  match goal with |- context [with_transaction t ?call ?s] =>
    pose proof (with_transaction_content t call s) as Hw; destruct (with_transaction t call s) as [st2 res] end.
  cbn [fst] in Hw. assert (Hc2 : content_ok (rx st2))
    by (apply Hw; [exact Hc | by apply WriteData_content]).
  clear Hw. cbv zeta. content_cases.
Qed.

Lemma ReceiveFileEnd_content fr now st :
  content_ok (rx st) -> content_ok (rx (ReceiveFileEnd fr now st).1).
Proof.
  intros Hc. unfold ReceiveFileEnd. case (_ || _); [auto with content |].
  destruct (rx_transaction (rx st)) as [t |] eqn:Et;
    [| apply StateViolation_content; by rewrite <- Et in Hc].
  pose proof (co_transaction _ _ _ _ _ Hc t eq_refl) as Htc. rewrite <- Et in Hc.
  assert (Hc2 : content_ok (rx (with_transaction t SealAndCommit st).1))
    by (apply with_transaction_content; [exact Hc | by apply SealAndCommit_content]).
  destruct (with_transaction t SealAndCommit st) as [st2 res]. cbn [fst] in Hc2. content_cases.
Qed.

Lemma ReceiveComplete_content fr now st :
  content_ok (rx st) -> content_ok (rx (ReceiveComplete fr now st).1).
Proof. intros Hc. unfold ReceiveComplete. content_cases. Qed.

#[local] Hint Resolve ReceiveFileBegin_content ReceiveFileEnd_content ReceiveComplete_content
  ReceiveManifestEnd_content ReceiveManifestEntry_content ReceiveOffer_content : content.

Lemma ReceiveInState_content fr now st :
  rx_inv (rx st) -> content_ok (rx st) -> says relative_path content fr ->
  content_ok (rx (ReceiveInState fr now st).1).
Proof.
  intros Hi Hc Hsay. unfold ReceiveInState.
  destruct (rx_state (rx st)) eqn:Hs; rewrite <- Hs in Hc; auto with content.
  - case (negb _); auto with content.
  - case (negb _); [auto with content |].
    destruct (bool_decide_reflect (h_message_type (pf_header fr) = kFileChunk));
      [by apply ReceiveFileChunk_content |]. case (bool_decide _); auto with content.
Qed.

Lemma ReceiveBody_content fr now st :
  rx_inv (rx st) -> content_ok (rx st) -> says relative_path content fr ->
  content_ok (rx (ReceiveBody fr now st).1).
Proof.
  intros Hi Hc Hsay. pose proof (ReceiveInState_content fr now st Hi Hc Hsay).
  unfold ReceiveBody. content_cases.
Qed.

Lemma OpenOnFirstFrame_content st :
  content_ok (rx st) -> content_ok (rx (OpenOnFirstFrame st).1).
Proof.
  intros Hc. unfold OpenOnFirstFrame. case (_ && _); [| auto with content].
  destruct (OpenStream _ _ _ _) as [credit opened]. case (bool_decide _); [| exact Hc].
  cbn [fst]. apply content_upd; [same_view | exact Hc].
Qed.

#[local] Hint Resolve OpenOnFirstFrame_content : content.

Lemma ReceiveFrame_content f now st :
  rx_inv (rx st) -> content_ok (rx st) -> honest relative_path content f ->
  content_ok (rx (ReceiveFrame f now st).1).
Proof.
  intros Hi Hc Hh. unfold ReceiveFrame. case (rx_shutdown _); [done |].
  case (IsTerminal _); [auto with content |].
  pose proof (Observe_content now st Hc) as Hc1. pose proof (Observe_inv now st Hi) as Hi1.
  destruct (Observe now st) as [st1 ok]. cbn [fst] in Hc1, Hi1. clear st Hc Hi.
  case (negb ok); [auto with content |].
  pose proof (co_version _ _ _ _ _ Hc1) as Hv.
  unfold parse_inbound.
  pose proof (fun p => inbound_is_frame (w_authority (world st1)) (rx_context (rx st1))
    (w_message_ids (world st1)) f p) as Hp.
  destruct (ParseInbound _ _ _ f) as [ids parsed]. cbn [snd] in Hp. rewrite Hv in Hp.
  set (st2 := st1 <| world := _ |>).
  assert (Hc2 : content_ok (rx st2)) by exact Hc1. assert (Hi2 : rx_inv (rx st2)) by exact Hi1.
  clearbody st2. clear Hc1 Hi1 Hv st1. cbv iota beta zeta.
  destruct (parsed_ok parsed) eqn:Eok; cbn [negb]; [| auto with content].
  pose proof (OpenOnFirstFrame_content st2 Hc2) as Hc3.
  pose proof (OpenOnFirstFrame_inv st2 Hi2) as Hi3.
  destruct (OpenOnFirstFrame st2) as [st3 opened]. cbn [fst] in Hc3, Hi3.
  destruct opened; [| auto with content..].
  pose proof (CheckTimeout_content now st3 Hc3) as Hc4.
  destruct (CheckTimeout_spec now st3 Hi3) as [E | [_ Eu]].
  - rewrite E. case (negb _); [exact Hc3 |]. case (negb _); [auto with content |].
    destruct (ParseBody parsed) as [parsed' body_ok]. destruct body_ok; cbn [negb]; [| auto with content].
    destruct (Hp parsed' eq_refl eq_refl) as [Hr Hf]. apply ReceiveBody_content; [done | done |].
    rewrite <- Hf. by apply Hh.
  - destruct (CheckTimeout now st3) as [st4 u]. cbn [snd] in Eu. rewrite Eu. exact Hc4.
Qed.

Lemma AcceptBegin_content request v chunk window now st :
  content_ok (rx st) -> offered request ->
  content_ok (rx (AcceptBegin request (v, []) chunk window now st).1).
Proof.
  intros Hc Hq. unfold AcceptBegin, EncodeAccept.
  pose proof (take_alloc_content st Hc) as Hc1. destruct (take_alloc st) as [st1 a]. cbn [fst] in Hc1.
  case a; cbn [negb]; [| auto with content].
  match goal with |- context [with_transaction ?t ?call ?s] =>
    assert (Hc2 : content_ok (rx (with_transaction t call s).1))
      by (apply with_transaction_content; [exact Hc1 | by apply Begin_content]);
    destruct (with_transaction t call s) as [st2 res] end.
  cbn [fst] in Hc2. content_cases.
Qed.

Lemma Accept_content chunk window now st :
  content_ok (rx st) -> content_ok (rx (Accept chunk window now st).1).
Proof.
  intros Hc. unfold Accept. case (IsTerminal _); [done |].
  destruct (rx_request (rx st)) as [request |] eqn:Eq; [| by rewrite <- Eq in Hc].
  pose proof (co_request _ _ _ _ _ Hc request eq_refl) as Hq. rewrite <- Eq in Hc.
  case (bool_decide _); [by case (_ && _) |]. case (negb _); [done |].
  pose proof (Observe_content now st Hc) as Hc1. destruct (Observe now st) as [st1 ok].
  cbn [fst] in Hc1. case (negb _); [auto with content |].
  pose proof (CheckTimeout_content now st1 Hc1) as Hc2. destruct (CheckTimeout now st1) as [st2 u].
  cbn [fst] in Hc2. do 3 (case (_ : bool); [auto with content |]).
  destruct (TryReserve _ _ _) as [credit reserved]. case reserved; cbn [negb];
    [| apply RejectForStorage_content; exact Hc2].
  set (st3 := upd _ _).
  assert (Hc3 : content_ok (rx st3)) by (apply content_upd; [same_view | exact Hc2]).
  clearbody st3. simpl. destruct (CreateFileVerifier _ _ _ _) as [integrity [v |]].
  - apply AcceptBegin_content; [exact Hc3 | done].
  - apply RejectForStorage_content. exact Hc3.
Qed.

(** The frames a call delivers are honest. *)
Definition delivers_honest (op : rx_op) : Prop :=
  match op with
  | OpReceiveFrame f _ => honest relative_path content f
  | _ => True
  end.

Lemma rx_call_content op st : rx_inv (rx st) -> delivers_honest op ->
  content_ok (rx st) -> content_ok (rx (rx_call op st).1).
Proof.
  intros Hi Hh Hc. destruct op; simpl; auto using ReceiveFrame_content, NextOutbound_content,
    ConfirmChunkAckWritten_content, Accept_content, Reject_content, Advance_content,
    Cancel_content, Shutdown_content.
Qed.

Lemma rx_Create_content context budget_set w a st :
  (Create context budget_set w a).1 = Some st -> content_ok (rx st).
Proof.
  unfold Create. destruct (_ || _) eqn:E; [done |]. destruct (negb a); [done |]. intros [= <-].
  bool_facts. split; simpl; [| by intros [|] | done | done].
  match goal with H : ValidateContext _ _ = true |- _ => revert H end.
  unfold ValidateContext. destruct (_ || _) eqn:Ev; [done |]. bool_facts. intros _.
  match goal with H : bool_decide (c_version _ = _) = true |- _ =>
    by apply bool_decide_eq_true in H end.
Qed.

End Receiving.
