(* ===== verification/DeliveryProofs.v ===== *)
(** * What is committed is what was sent

    The sending half of [Delivery]: every frame a sender emits speaks the truth
    about the file it was created for; and the two halves together: whatever
    part of those frames reaches the receiver, in whatever order, a file the
    receiver commits is the file of the sender. *)

From stdpp Require Import gmap.
From S2P Require Import Prelude.
From S2P Require Import V1Parser.
From S2P Require Import V1ParserProofs.
From S2P Require Import PathValidator.
From S2P Require Import PathValidatorProofs.
From S2P Require Import ReceiveTransaction.
From S2P Require Import ReceiveTransactionProofs.
From S2P Require Import Transfer.
From S2P Require Import Connection.
From S2P Require Import FrameCodec.
From S2P Require Import FrameCodecProofs.
From S2P Require Import Receiver.
From S2P Require Import ReceiverProofs.
From S2P Require Import ReceiverResources.
From S2P Require Import Delivery.
From S2P Require Import Sender.
From S2P Require Import SenderProofs.
Import WireType MessageType.
Import Sender.

(** ** Honest frames *)

Section Frames.
Context (relative_path content : bytes).

(** A frame of the encoder says what its fields say. *)
Lemma EncodeFrame_honest a context type ids fs ids' out :
  c_version context = Version_default -> in_width 32 (c_stream_id context) ->
  in_width 64 (next_outbound ids) -> Forall wf_tlv fs ->
  says relative_path content (parsed_frame (frame_header context type (next_outbound ids)
    (bsize (encode_tlvs fs))) [] fs) ->
  EncodeFrame a context type ids (build a fs) = (ids', Some out) ->
  honest relative_path content out.
Proof.
  intros Hv Hst Hid Hwf Hsay Henc.
  assert (Hver : version_bytes context) by (unfold version_bytes; rewrite Hv; by split).
  apply EncodeFrame_iff in Henc as (_ & (_ & _ & He & Hav) & _ & ->); [| done..].
  assert (Hp : ParseFrame (frame_bytes context type (next_outbound ids) fs) (c_version context)
    = {| pr_frame := parsed_frame (frame_header context type (next_outbound ids)
                        (bsize (encode_tlvs fs))) [] fs; pr_error := NoError |}).
  { destruct Hver. apply (ParseFrame_complete (c_version context)
      (frame_header context type (next_outbound ids) (bsize (encode_tlvs fs))) [] fs); [done.. |].
    eapply wf_frame_id; [apply Hav | exact He]. }
  intros _. rewrite <- Hv, Hp. exact Hsay.
Qed.

Lemma honest_nil : honest relative_path content [].
Proof. by vm_compute. Qed.

(** The fields the sender adds to its bodies. *)
Definition u8_field (id v : Z) : FieldView :=
  {| f_id := id; f_wire_type := kU8; f_flags := 1; f_value := [v] |}.
Definition utf8_field (id : Z) (v : bytes) (flags : Z) : FieldView :=
  {| f_id := id; f_wire_type := kUtf8; f_flags := flags; f_value := v |}.

Lemma wf_u8_field id v : in_width 16 id -> is_byte v -> wf_tlv (u8_field id v).
Proof. intros. split; [done |]. split; [by right |]. split; [done | by constructor]. Qed.

Lemma wf_utf8_field id v flags : in_width 16 id -> flags = 0 \/ flags = 1 -> all_bytes v ->
  in_width 32 (bsize v) -> wf_tlv (utf8_field id v flags).
Proof. intros. split; [done |]. split; done. Qed.

End Frames.

#[local] Hint Resolve wf_u8_field wf_utf8_field : xnn.

(** ** The sending end *)

(** A file source that holds [content]: what it reads is what is there, and it
    stays.  A read may be short, and it may fail. *)
Record faithful {F : Type} `{FileSource F} (content : bytes) (holds : F -> Prop) : Prop := {
  ff_size : forall source, holds source -> source_size source = bsize content;
  ff_kept : forall source offset n, holds source -> holds (ReadSource offset n source).1;
  ff_read : forall source offset n, holds source ->
    let read := (ReadSource offset n source).2 in
    read_ok read = true -> fr_data read = subspan content offset (bsize (fr_data read));
}.

(** A manifest of bytes. *)
Record typed_manifest (m : OneFileManifest) : Prop := {
  tm_id : all_bytes (m_transfer_id m) /\ in_width 32 (bsize (m_transfer_id m));
  tm_path : all_bytes (m_relative_path m) /\ in_width 32 (bsize (m_relative_path m));
  tm_size : in_width 64 (m_file_size m);
  tm_file : all_bytes (m_file_commitment m) /\ in_width 32 (bsize (m_file_commitment m));
  tm_manifest : all_bytes (m_manifest_commitment m) /\
    in_width 32 (bsize (m_manifest_commitment m));
  tm_name : all_bytes (m_display_name m) /\ in_width 32 (bsize (m_display_name m));
}.

Section Sending.
Context {A I V F : Type} `{CA : SessionAuthority A} `{CI : TransferIntegrityProvider I V}
  `{CF : FileSource F} `{CU : Utf8Proc}.
Context (m : OneFileManifest) (content : bytes) (holds : F -> Prop).
Context (Hm : typed_manifest m) (Hsource : faithful content holds).
Context (Hcontent : all_bytes content) (Hsize : m_file_size m = bsize content).
Context (Hcommitment : forall id index offset data i c,
  (BuildChunkCommitment (V := V) id index offset data i).2 = Some c -> all_bytes c).
Abbreviation System := (Sys A I F).
Abbreviation truthful f := (honest (m_relative_path m) content f).
Implicit Types (st : System) (s : Sender F).
#[local] Set Default Proof Using "All".

Record ready_of (manifest : OneFileManifest) (context : TransferContext) (source : option F)
    (next_id : Z) : Prop := {
  re_manifest : manifest = m;
  re_version : c_version context = Version_default;
  re_stream : in_width 32 (c_stream_id context);
  re_source : forall x, source = Some x -> holds x;
  re_id : in_width 64 next_id;
}.
Abbreviation ready st := (ready_of (sn_manifest (sn st)) (sn_context (sn st)) (sn_source (sn st))
  (next_outbound (w_message_ids (world st)))).

Definition sends (result : System * TransferUpdate) : Prop :=
  ready result.1 /\ truthful (u_outbound_frame result.2).

Lemma sends_current st : ready st -> sends (st, CurrentUpdate st).
Proof. intros Hr. split; [exact Hr | apply honest_nil]. Qed.

(** An encoder that sends the truth and keeps the ids in range. *)
Definition truthful_encoder (f : bool -> TransferContext -> ConnectionMessageSequence ->
    ConnectionMessageSequence * option bytes) : Prop :=
  forall a context ids, c_version context = Version_default ->
    in_width 32 (c_stream_id context) -> in_width 64 (next_outbound ids) ->
    in_width 64 (next_outbound (f a context ids).1) /\
    forall out, (f a context ids).2 = Some out -> truthful out.

Lemma NextOutboundId_width ids :
  in_width 64 (next_outbound ids) -> in_width 64 (next_outbound (NextOutboundId ids).1).
Proof.
  intros H. unfold NextOutboundId. destruct (outbound_exhausted ids); [done |].
  destruct (_ =? _); [done |]. simpl. apply wrap_range. lia.
Qed.

Lemma FinishFrame_width context type ids enc :
  in_width 64 (next_outbound ids) ->
  in_width 64 (next_outbound (FinishFrame context type ids enc).1).
Proof.
  intros H. unfold FinishFrame. destruct (_ || _); [done |].
  pose proof (NextOutboundId_width ids H) as Hn. destruct (NextOutboundId ids) as [ids' [id |]]; [| done].
  by destruct (id =? 0).
Qed.

Lemma EncodeFrame_width a context type ids body :
  in_width 64 (next_outbound ids) ->
  in_width 64 (next_outbound (EncodeFrame a context type ids body).1).
Proof.
  intros H. unfold EncodeFrame. destruct (_ || _); [done |]. destruct (negb a); [done |].
  by apply FinishFrame_width.
Qed.

(** The general encoder on fields that say the truth. *)
Lemma build_truthful type (fs : bool -> list FieldView) :
  (forall a, Forall wf_tlv (fs a)) ->
  (forall a context id n, says (m_relative_path m) content
     (parsed_frame (frame_header context type id n) [] (fs a))) ->
  truthful_encoder (fun a context ids => EncodeFrame a context type ids (build a (fs a))).
Proof.
  intros Hwf Hsay a context ids Hv Hst Hid. split; [by apply EncodeFrame_width |].
  intros out Ho. destruct (EncodeFrame a context type ids _) as [ids' o] eqn:E. simpl in Ho. subst o.
  by eapply EncodeFrame_honest; [.. | exact E].
Qed.

Lemma encode_ready f st : truthful_encoder f -> ready st ->
  ready (encode f st).1 /\ forall out, (encode f st).2 = Some out -> truthful out.
Proof.
  intros Hf Hr. pose proof (encode_same f st) as [Hs _]. rewrite Hs.
  unfold encode, take_alloc in *. destruct Hr as [H1 H2 H3 H4 H5].
  destruct (w_alloc (world st)) as [| a rest]; cbv iota beta zeta.
  - destruct (Hf true (sn_context (sn st)) (w_message_ids (world st)) H2 H3 H5) as [Hw Ho].
    destruct (f _ _ _) as [ids o]. cbn [fst snd] in *. split; [by split | done].
  - destruct (Hf a (sn_context (sn st)) (w_message_ids (world st)) H2 H3 H5) as [Hw Ho].
    cbn [sn world w_message_ids] in *. destruct (f a _ _) as [ids o] eqn:E.
    simpl in *. split; [by split | done].
Qed.

(** *** The encoders of the sender *)

Lemma truthful_ext f g : (forall a c ids, f a c ids = g a c ids) ->
  truthful_encoder g -> truthful_encoder f.
Proof. intros E Hg a c ids. rewrite E. apply Hg. Qed.

#[local] Hint Resolve Forall_nil_2 Forall_cons_2 : xnn.

Lemma EncodeErrorFrame_truthful code retry :
  truthful_encoder (fun a c ids => EncodeErrorFrame a c ids code retry).
Proof.
  apply (truthful_ext _ (fun a c ids => EncodeFrame a c kError ids
    (build a (error_fields code retry)))); [by destruct retry |].
  apply (build_truthful kError (fun _ => error_fields code retry)); [| done].
  intros _. unfold error_fields. destruct retry; simpl; auto 8 with xnn.
Qed.

Lemma code_fields_wf code : Forall wf_tlv (code_fields (m_transfer_id m) code).
Proof. destruct (tm_id m Hm). unfold code_fields. auto 8 with xnn. Qed.

Lemma EncodeCancelFrame_truthful :
  truthful_encoder (fun a c ids => EncodeCancelFrame a c ids (m_transfer_id m)).
Proof.
  apply (build_truthful kCancel (fun _ => code_fields (m_transfer_id m) WireErrorCode.kCancelled));
    [intros _; apply code_fields_wf | done].
Qed.

Lemma EncodeCancelAckFrame_truthful code :
  truthful_encoder (fun a c ids => EncodeCancelAckFrame a c ids (m_transfer_id m) code).
Proof.
  unfold EncodeCancelAckFrame. destruct (bool_decide _); [by intros a c ids |].
  apply (build_truthful kCancelAck (fun _ => code_fields (m_transfer_id m) code));
    [intros _; apply code_fields_wf | done].
Qed.

(** The lookups of [says] in the fields of a body. *)
Lemma Unsigned_u64 fr id v :
  Field fr id = Some (u64_field id v) -> in_width 64 v -> Unsigned fr id = v.
Proof.
  intros E Hv. unfold Unsigned. rewrite E. unfold DecodeUnsigned. simpl.
  by apply (be_read_bytes 64 8).
Qed.

Lemma FieldBytes_of fr id f : Field fr id = Some f -> FieldBytes fr id = f_value f.
Proof. intros E. unfold FieldBytes. by rewrite E. Qed.

Definition offer_fields : list FieldView :=
  [bytes_field 1 (m_transfer_id m); u32_field 2 1; u64_field 3 (m_file_size m);
   bytes_field 4 (m_manifest_commitment m)]
  ++ (if bool_decide (m_display_name m = []) then []
      else [utf8_field 5 (m_display_name m) 0]).

Lemma offer_truthful :
  truthful_encoder (fun a c ids => EncodeFrame a c kTransferOffer ids (offer_body a m)).
Proof.
  apply (truthful_ext _ (fun a c ids => EncodeFrame a c kTransferOffer ids
    (build a offer_fields))).
  { intros a c ids. unfold offer_body, offer_fields. by destruct (bool_decide _). }
  destruct Hm as [[] [] ? [] [] []].
  apply (build_truthful kTransferOffer (fun _ => offer_fields)).
  - intros _. unfold offer_fields. destruct (bool_decide _); simpl; auto 10 with xnn.
  - intros _ c id n. unfold says. cbn [parsed_frame pf_header frame_header h_message_type].
    rewrite <- Hsize. apply Unsigned_u64; [| done].
    unfold offer_fields. by destruct (bool_decide _).
Qed.

Lemma entry_truthful : truthful_encoder (fun a c ids => EncodeFrame a c kManifestEntry ids (body_of
    [AddBytes a 1 (m_transfer_id m) true; AddU32 a 2 0 true; AddU8 a 3 1 true;
     AddUtf8 a 4 (m_relative_path m) true; AddU64 a 5 (m_file_size m) true;
     AddBytes a 6 (m_file_commitment m) true])).
Proof.
  destruct Hm as [[] [] ? [] [] []].
  apply (build_truthful kManifestEntry (fun _ =>
    [bytes_field 1 (m_transfer_id m); u32_field 2 0; u8_field 3 1;
     utf8_field 4 (m_relative_path m) 1; u64_field 5 (m_file_size m);
     bytes_field 6 (m_file_commitment m)])).
  - intros _. assert (is_byte 1) by (by split). auto 10 with xnn.
  - intros _ c id n. unfold says. cbn [parsed_frame pf_header frame_header h_message_type].
    by apply (FieldBytes_of _ 4 (utf8_field 4 (m_relative_path m) 1)).
Qed.

(** Bodies whose message type says nothing about the file. *)
Definition silent (type : MessageType) : bool :=
  match type with kTransferOffer | kManifestEntry | kFileChunk => false | _ => true end.

Lemma silent_truthful type (fs : bool -> list FieldView) : silent type = true ->
  (forall a, Forall wf_tlv (fs a)) ->
  truthful_encoder (fun a c ids => EncodeFrame a c type ids (build a (fs a))).
Proof.
  intros Ht Hwf. apply build_truthful; [done |]. intros. unfold says. by destruct type.
Qed.

Lemma chunk_truthful offset data commitment :
  in_width 64 offset -> all_bytes data -> in_width 32 (bsize data) ->
  all_bytes commitment -> in_width 32 (bsize commitment) ->
  data = subspan content offset (bsize data) ->
  truthful_encoder (fun a c ids =>
    EncodeFileChunkFrame a c ids (m_transfer_id m) offset data commitment).
Proof.
  intros Ho Hd Hds Hc Hcs Hdata a c ids Hv Hst Hid. destruct (tm_id m Hm) as [Ht Hts].
  assert (Hver : version_bytes c) by (unfold version_bytes; rewrite Hv; by split).
  rewrite EncodeFileChunkFrame_reference by done.
  apply (build_truthful kFileChunk
    (fun _ => chunk_fields (m_transfer_id m) offset data commitment)); [| | done..].
  - intros _. by apply wf_chunk_fields.
  - intros _ c' id n. unfold says. cbn [parsed_frame pf_header frame_header h_message_type].
    rewrite (FieldBytes_of _ 4 (bytes_field 4 data)) by done. simpl f_value.
    rewrite (Unsigned_u64 _ 3 offset) by done. exact Hdata.
Qed.

(** *** The methods of the sender *)

(** The members [ready] reads. *)
Definition ready_view s := (sn_manifest s, sn_context s, sn_source s).

Lemma ready_same st st' : ready_view (sn st') = ready_view (sn st) ->
  w_message_ids (world st') = w_message_ids (world st) -> ready st -> ready st'.
Proof. unfold ready_view. intros E ->. injection E as -> -> ->. done. Qed.

Lemma ready_upd f st : ready_view (f (sn st)) = ready_view (sn st) -> ready st -> ready (upd f st).
Proof. intros E. by apply ready_same. Qed.

Lemma ReleaseResources_ids st :
  w_message_ids (world (ReleaseResources st)) = w_message_ids (world st).
Proof.
  unfold ReleaseResources, ReleaseStream, ReleaseCredit.
  repeat match goal with |- context [if ?c then _ else _] => case c end; done.
Qed.

Lemma ready_ReleaseResources st : ready st -> ready (ReleaseResources st).
Proof.
  intros [H1 H2 H3 H4 H5]. rewrite ReleaseResources_ids. destruct (sn_ReleaseResources st) as [v ->].
  generalize dependent (sn st). intros s. intros. by split.
Qed.

Lemma ready_Observe now st : ready st -> ready (Observe now st).1.
Proof.
  intros Hr. unfold Observe. destruct (ObserveTime _ _). cbn [fst]. by apply ready_upd.
Qed.

Lemma ready_parse_inbound e st : ready st -> ready (parse_inbound e st).1.
Proof.
  intros [H1 H2 H3 H4 H5]. unfold parse_inbound.
  assert (Hi : next_outbound (ParseInbound (w_authority (world st)) (sn_context (sn st))
    (w_message_ids (world st)) e).1 = next_outbound (w_message_ids (world st))).
  { unfold ParseInbound, ObserveInbound.
    repeat match goal with |- context [if ?c then _ else _] => case c end; done. }
  destruct (ParseInbound _ _ _ _) as [ids p]. cbn [fst] in *. rewrite <- Hi in H5. by split.
Qed.

Ltac same_ready := let s := fresh in
  match goal with |- _ = ready_view ?x => generalize x end; intros s; destruct s; cbv beta;
  repeat match goal with |- context [if ?c then _ else _] => case c end; reflexivity.

Create HintDb sends discriminated.
#[local] Hint Resolve ready_ReleaseResources ready_Observe ready_parse_inbound sends_current
  honest_nil : sends.
#[local] Hint Extern 2 (ready_of (sn_manifest (sn (upd _ _))) _ _ _) =>
  (apply ready_upd; [same_ready |]) : sends.

Lemma sends_quiet st u : ready st -> u_outbound_frame u = [] -> sends (st, u).
Proof. intros Hr Hu. split; [exact Hr |]. cbn [snd]. rewrite Hu. apply honest_nil. Qed.

#[local] Hint Extern 3 (sends (_, _)) => (apply sends_quiet; [| reflexivity]) : sends.

Lemma sends_EncodeError c retry u st : ready st -> u_outbound_frame u = [] ->
  sends (EncodeError c retry u st).
Proof.
  intros Hr Hu. unfold EncodeError.
  destruct (encode_ready _ st (EncodeErrorFrame_truthful c retry) Hr) as [Hr1 Ho].
  destruct (encode _ st) as [st1 [out |]]; cbn [fst snd] in *; (split; [exact Hr1 |]); cbn [snd].
  - by apply Ho.
  - rewrite Hu. apply honest_nil.
Qed.

Lemma sends_Fail e w f st : ready st -> sends (Fail e w f st).
Proof.
  intros Hr. unfold Fail. case (_ && _); [| auto with sends].
  apply sends_EncodeError; [auto with sends | done].
Qed.

Lemma sends_CancelTimeout st : ready st -> sends (CancelTimeout st).
Proof.
  intros Hr. unfold CancelTimeout. case (authorized _); [| auto with sends].
  apply sends_EncodeError; [auto with sends | done].
Qed.

#[local] Hint Resolve sends_Fail sends_CancelTimeout : sends.

Lemma sends_StateViolation st : ready st -> sends (StateViolation st).
Proof. unfold StateViolation. auto with sends. Qed.
Lemma sends_Unauthenticated st : ready st -> sends (Unauthenticated st).
Proof. unfold Unauthenticated. auto with sends. Qed.
Lemma sends_EncodingFailed st : ready st -> sends (EncodingFailed st).
Proof. unfold EncodingFailed. auto with sends. Qed.
Lemma sends_Malformed st : ready st -> sends (Malformed st).
Proof. unfold Malformed. auto with sends. Qed.

Lemma sends_CheckTimeout now st : ready st -> sends (CheckTimeout now st).
Proof.
  intros Hr. unfold CheckTimeout. case (sn_state (sn st)); auto with sends.
  all: repeat match goal with |- context [if ?c then _ else _] => case c end; auto with sends.
Qed.

#[local] Hint Resolve sends_StateViolation sends_Unauthenticated sends_EncodingFailed
  sends_Malformed sends_CheckTimeout : sends.

(** A frame that was encoded is sent, or the call fails. *)
Lemma sends_encoded f st (no : System -> System * TransferUpdate)
    (yes : bytes -> System -> System * TransferUpdate) :
  truthful_encoder f -> ready st ->
  (forall st1, sn st1 = sn st -> ready st1 -> sends (no st1)) ->
  (forall st1 out, sn st1 = sn st -> ready st1 -> truthful out -> sends (yes out st1)) ->
  sends (let '(st1, output) := encode f st in
         match output with None => no st1 | Some out => yes out st1 end).
Proof.
  intros Hf Hr Hno Hyes. destruct (encode_ready f st Hf Hr) as [Hr1 Ho].
  pose proof (encode_same f st) as [Hs _].
  destruct (encode f st) as [st1 [out |]]; cbn [fst snd] in *; auto.
Qed.

Lemma sends_frame st u out : ready st -> truthful out -> u_outbound_frame u = out -> sends (st, u).
Proof. by intros Hr Ho <-. Qed.

#[local] Hint Extern 4 (sends (_, _)) =>
  (eapply sends_frame; [| eassumption | reflexivity]) : sends.

Lemma sends_EmitCancel st : ready st -> sends (EmitCancel st).
Proof.
  intros Hr. unfold EmitCancel. rewrite (re_manifest _ _ _ _ Hr).
  apply (sends_encoded _ st CancellationEncodingFailure
    (fun frame st1 => (upd _ st1, (CurrentUpdate st) <| u_outbound_frame := frame |>)));
    [apply EncodeCancelFrame_truthful | done | | intros; auto with sends].
  intros st1 _ Hr1. unfold CancellationEncodingFailure. case (OutboundExhausted _); auto with sends.
Qed.

Lemma sends_EmitCancelAck st : ready st -> sends (EmitCancelAck st).
Proof.
  intros Hr. unfold EmitCancelAck. rewrite (re_manifest _ _ _ _ Hr).
  apply (sends_encoded _ st CancelAckEncodingFailure
    (fun frame st1 => (upd _ st1, (CurrentUpdate st) <| u_outbound_frame := frame |>)));
    [apply EncodeCancelAckFrame_truthful | done | | intros; auto with sends].
  intros st1 _ Hr1. unfold CancelAckEncodingFailure.
  case (OutboundExhausted _); [case (sn_cancel_ack_failure_is_terminal _) |]; auto with sends.
Qed.

#[local] Hint Resolve sends_EmitCancel sends_EmitCancelAck : sends.

Lemma ready_reset_source st : ready st -> ready (upd reset_source st).
Proof.
  intros [H1 H2 H3 H4 H5]. rewrite sn_upd. generalize dependent (sn st). intros s. intros. by split.
Qed.

Lemma ready_world_credit st c :
  ready st -> ready (st <| world := (world st) <| w_credit := c |> |>).
Proof. done. Qed.

#[local] Hint Resolve ready_reset_source ready_world_credit : sends.

(** Case analysis of a method: every call inside it sends the truth. *)
Ltac send_cases := repeat (first
  [ solve [auto 8 with sends]
  | match goal with
    | |- sends (let '(_, _) := ?x in _) =>
        first [ let H := fresh "Hr" in
                assert (H : ready x.1) by (auto 8 with sends); destruct x; cbn [fst] in H
              | let H := fresh "Hs" in
                assert (H : sends x) by (auto 8 with sends); destruct x;
                pose proof (proj1 H); cbn [fst] in *
              | destruct x ]
    | |- sends (if ?c then _ else _) => case c
    | |- sends (match ?x with _ => _ end) => case x; intros
    end; cbv zeta ]).

Lemma sends_FinishCancelled st : ready st -> sends (FinishCancelled st).
Proof. intros Hr. unfold FinishCancelled. send_cases. Qed.

#[local] Hint Resolve sends_FinishCancelled : sends.

Lemma sends_BeginRemoteCancel st : ready st -> sends (BeginRemoteCancel st).
Proof. intros Hr. unfold BeginRemoteCancel. send_cases. Qed.

Lemma sends_ApplyCancelAck code st : ready st -> sends (ApplyCancelAck code st).
Proof.
  intros Hr. unfold ApplyCancelAck. apply sends_current. apply ready_upd; [| auto with sends].
  unfold after_cancel_ack. same_ready.
Qed.

#[local] Hint Resolve sends_BeginRemoteCancel sends_ApplyCancelAck : sends.

Lemma sends_ReceiveTerminal e st : ready st -> sends (ReceiveTerminal e st).
Proof. intros Hr. unfold ReceiveTerminal. send_cases. Qed.

Lemma sends_ReceiveError fr st : ready st -> sends (ReceiveError fr st).
Proof. intros Hr. unfold ReceiveError. cbv zeta. send_cases. Qed.

Lemma sends_ReceiveCancelling fr st : ready st -> sends (ReceiveCancelling fr st).
Proof. intros Hr. unfold ReceiveCancelling. send_cases. Qed.

Lemma sends_ReceiveReject fr st : ready st -> sends (ReceiveReject fr st).
Proof. intros Hr. unfold ReceiveReject. cbv zeta. send_cases. Qed.

Lemma sends_ReceiveAccept fr now st : ready st -> sends (ReceiveAccept fr now st).
Proof. intros Hr. unfold ReceiveAccept. cbv zeta. send_cases. Qed.

Lemma sends_ReceiveChunkAck fr now st : ready st -> sends (ReceiveChunkAck fr now st).
Proof.
  intros Hr. unfold ReceiveChunkAck. cbv zeta. do 4 (case (_ : bool); [auto with sends |]).
  destruct (TryAdjust _ _ _ _) as [credit adjusted]. case (negb _); [auto with sends |].
  apply sends_current, ready_upd; [| auto with sends]. unfold record_ack. same_ready.
Qed.

Lemma sends_ReceiveCompleteAck fr st : ready st -> sends (ReceiveCompleteAck fr st).
Proof. intros Hr. unfold ReceiveCompleteAck. send_cases. Qed.

Lemma sends_ReceiveFileCommit fr now st : ready st -> sends (ReceiveFileCommit fr now st).
Proof.
  intros Hr. unfold ReceiveFileCommit. case (_ || _); [auto with sends |].
  unfold EncodeComplete. rewrite (re_manifest _ _ _ _ Hr).
  apply (sends_encoded _ st EncodingFailed (fun frame st1 => (upd _ st1, TransferUpdate_default
    <| u_outbound_frame := frame |> <| u_state := TransferState.kCompleting |>)));
    [| done | auto with sends | intros; auto with sends].
  destruct Hm as [[] [] ? [] [] []].
  apply (silent_truthful kTransferComplete (fun _ => [bytes_field 1 (m_transfer_id m);
    bytes_field 2 (m_manifest_commitment m)])); [done | auto 8 with xnn].
Qed.

#[local] Hint Resolve sends_ReceiveTerminal sends_ReceiveError sends_ReceiveCancelling
  sends_ReceiveReject sends_ReceiveAccept sends_ReceiveChunkAck sends_ReceiveCompleteAck
  sends_ReceiveFileCommit : sends.

Lemma sends_ReceiveInState fr now st : ready st -> sends (ReceiveInState fr now st).
Proof. intros Hr. unfold ReceiveInState. send_cases. Qed.

#[local] Hint Resolve sends_ReceiveInState : sends.

Lemma sends_ReceiveBody fr now st : ready st -> sends (ReceiveBody fr now st).
Proof. intros Hr. unfold ReceiveBody. send_cases. Qed.

#[local] Hint Resolve sends_ReceiveBody : sends.

Lemma sends_ReceiveFrame e now st : ready st -> sends (ReceiveFrame e now st).
Proof. intros Hr. unfold ReceiveFrame. send_cases. Qed.

Lemma sends_Advance now st : ready st -> sends (Advance now st).
Proof. intros Hr. unfold Advance. send_cases. Qed.

Lemma sends_Cancel now st : ready st -> sends (Cancel now st).
Proof. intros Hr. unfold Cancel. send_cases. Qed.

Lemma sends_Shutdown st : ready st -> sends (Shutdown st).
Proof. intros Hr. unfold Shutdown. send_cases. Qed.

Lemma sends_Start now st : ready st -> sends (Start now st).
Proof.
  intros Hr. unfold Start. case (IsTerminal _); [auto with sends |].
  pose proof (ready_Observe now st Hr) as Hr1. destruct (Observe now st) as [st1 ok].
  cbn [fst] in Hr1. do 3 (case (negb _); [auto with sends |]).
  unfold EncodeOffer. rewrite (re_manifest _ _ _ _ Hr1).
  apply (sends_encoded _ st1 EncodingFailed (fun frame st2 => (upd _ st2, TransferUpdate_default
    <| u_outbound_frame := frame |> <| u_state := TransferState.kSendingManifest |>)));
    [apply offer_truthful | done | auto with sends | intros; auto with sends].
Qed.

Lemma sends_NextManifestFrame now st : ready st -> sends (NextManifestFrame now st).
Proof.
  intros Hr. unfold NextManifestFrame, EncodeManifestEntry, EncodeManifestEnd.
  rewrite (re_manifest _ _ _ _ Hr). cbv zeta.
  case (_ =? 0); [| case (_ =? 1); [| auto with sends]].
  - apply (sends_encoded _ st EncodingFailed (fun frame st1 => (upd _ st1,
      (CurrentUpdate st) <| u_outbound_frame := frame |> <| u_state := _ |>)));
      [apply entry_truthful | done | auto with sends | intros; auto with sends].
  - apply (sends_encoded _ st EncodingFailed (fun frame st1 => (upd _ st1,
      (CurrentUpdate st) <| u_outbound_frame := frame |> <| u_state := _ |>)));
      [| done | auto with sends | intros; auto with sends].
    destruct Hm as [[] [] ? [] [] []].
    apply (silent_truthful kManifestEnd (fun _ => [bytes_field 1 (m_transfer_id m);
      u32_field 2 1; u64_field 3 (m_file_size m); bytes_field 4 (m_manifest_commitment m)]));
      [done | auto 8 with xnn].
Qed.

Lemma ValidCommitment_width c : ValidCommitment c = true -> in_width 32 (bsize c).
Proof. unfold ValidCommitment. intros H. bool_facts. widths. Qed.

Lemma sends_NextChunk now st :
  sn_inv (sn st) -> sn_state (sn st) = TransferState.kSendingFile -> ready st ->
  sends (NextChunk now st).
Proof.
  intros Hi Hst Hr. unfold NextChunk. case (_ <? _); [auto with sends |].
  destruct (sn_source (sn st)) as [source |] eqn:Es; [| rewrite <- Es in Hr; auto with sends].
  pose proof (re_source _ _ _ _ Hr source eq_refl) as Hh. rewrite <- Es in Hr.
  pose proof (ff_kept _ _ Hsource source (sn_bytes_sent (sn st)) (wanted_size (sn st)) Hh) as Hh'.
  pose proof (ff_read _ _ Hsource source (sn_bytes_sent (sn st)) (wanted_size (sn st)) Hh) as Hd.
  destruct (ReadSource _ _ source) as [source' read]. cbn [fst snd] in Hh', Hd. cbv zeta in Hd.
  set (st1 := upd _ st).
  assert (Hr1 : ready st1).
  { unfold st1. rewrite sn_upd. destruct Hr as [H1 H2 H3 H4 H5].
    generalize dependent (sn st). intros s. intros. split; try done. simpl. by intros x [= <-]. }
  assert (Hs1 : sn_bytes_sent (sn st1) = sn_bytes_sent (sn st)) by done. clearbody st1.
  case_eq (negb (read_ok read) || negb (bsize (fr_data read) =? wanted_size (sn st)));
    [auto with sends | intros Eb]. bool_facts. specialize (Hd ltac:(done)).
  pose proof (Hcommitment (m_transfer_id (sn_manifest (sn st1))) 0 (sn_bytes_sent (sn st1))
    (fr_data read) (w_integrity (world st1))) as Hc.
  destruct (BuildChunkCommitment _ _ _ _ _) as [integrity [commitment |]]; [| auto with sends].
  cbn [snd] in Hc. specialize (Hc _ eq_refl). set (st2 := st1 <| world := _ |>).
  assert (Hr2 : ready st2) by done.
  assert (Hs2 : sn_bytes_sent (sn st2) = sn_bytes_sent (sn st)) by done. clearbody st2.
  case_eq (ValidCommitment commitment); intros Ev; cbn [negb]; [| auto with sends].
  cbv zeta. rewrite (re_manifest _ _ _ _ Hr2), Hs2.
  assert (Hrange : in_width 64 (sn_bytes_sent (sn st)) /\ in_width 32 (bsize (fr_data read))).
  { destruct Hi as [Hf Hin]. unfold sn_in_state in Hin. rewrite Hst in Hin.
    destruct Hin as (_ & [? Hch ? ? ? ? ? ? ?] & _). pose proof (sf_size _ _ _ Hf).
    unfold wanted_size, kMaximumChunkSize, kMaxFileBytes in *.
    pose proof (bsize_nonneg (fr_data read)). split; widths. }
  apply (sends_encoded _ st2 EncodingFailed (fun frame st3 =>
    (upd (record_chunk now (wanted_size (sn st))) st3,
     (CurrentUpdate st) <| u_outbound_frame := frame |>))); [| done | auto with sends |].
  - apply chunk_truthful; try tauto; [| by apply ValidCommitment_width].
    rewrite Hd. by apply all_bytes_subspan.
  - intros st3 out _ Hr3 Ho. eapply sends_frame; [| exact Ho | done].
    apply ready_upd; [| done]. unfold record_chunk. same_ready.
Qed.

Lemma sends_NextFileFrame now st :
  sn_inv (sn st) -> sn_state (sn st) = TransferState.kSendingFile -> ready st ->
  sends (NextFileFrame now st).
Proof.
  intros Hi Hst Hr. pose proof (sends_NextChunk now st Hi Hst Hr) as Hchunk.
  unfold NextFileFrame, EncodeFileBegin, EncodeFileEnd. cbv zeta.
  destruct Hm as [[] [] ? [] [] []].
  case (negb _); [| case (_ <? _); [exact Hchunk | case (_ && _); [| auto with sends]]];
    rewrite (re_manifest _ _ _ _ Hr).
  - apply (sends_encoded _ st EncodingFailed (fun frame st1 => (upd _ st1,
      (CurrentUpdate st) <| u_outbound_frame := frame |>)));
      [| done | auto with sends | intros; auto with sends].
    apply (silent_truthful kFileBegin (fun _ => [bytes_field 1 (m_transfer_id m);
      u32_field 2 0; u64_field 3 (m_file_size m); u32_field 4 (sn_chunk_size (sn st))]));
      [done | auto 8 with xnn].
  - apply (sends_encoded _ st EncodingFailed (fun frame st1 => (upd _ st1,
      (CurrentUpdate st) <| u_outbound_frame := frame |> <| u_state := _ |>)));
      [| done | auto with sends | intros; auto with sends].
    apply (silent_truthful kFileEnd (fun _ => [bytes_field 1 (m_transfer_id m);
      u32_field 2 0; u64_field 3 (m_file_size m); bytes_field 4 (m_file_commitment m)]));
      [done | auto 8 with xnn].
Qed.

Lemma sends_NextOutbound now st : sn_inv (sn st) -> ready st -> sends (NextOutbound now st).
Proof.
  intros Hi Hr. unfold NextOutbound. do 2 (case (_ : bool); [auto with sends |]).
  pose proof (ready_Observe now st Hr) as Hr1.
  assert (Hi1 : sn_inv (sn (Observe now st).1)).
  { unfold Observe. destruct (ObserveTime _ _). cbn [fst]. rewrite sn_upd.
    apply (sn_inv_core (sn st)); [| done]. generalize (sn st). by intros []. }
  destruct (Observe now st) as [st1 ok]. cbn [fst] in Hr1, Hi1. clear st Hi Hr.
  case (negb ok); [case (IsTerminal _); auto with sends |].
  case (negb _); [case (IsTerminal _); auto with sends |].
  case (sn_cancel_ack_pending _); [auto with sends |]. case (IsTerminal _); [auto with sends |].
  pose proof (sends_CheckTimeout now st1 Hr1) as Ht.
  destruct (sn_CheckTimeout_spec now st1 Hi1) as [E | [_ Eu]].
  - rewrite E. case (negb _); [auto with sends |].
    destruct (sn_state (sn st1)) eqn:Hs; try exact (sends_current st1 Hr1).
    + by apply sends_NextManifestFrame.
    + by apply sends_NextFileFrame.
    + case (sn_cancel_frame_pending _); auto with sends.
  - destruct (CheckTimeout now st1) as [st2 u]. cbn [snd] in Eu. rewrite Eu. exact Ht.
Qed.

Lemma sn_call_sends op st : sn_inv (sn st) -> ready st -> sends (sn_call op st).
Proof.
  intros Hi Hr. destruct op; simpl; auto using sends_Start, sends_NextOutbound,
    sends_ReceiveFrame, sends_Advance, sends_Cancel, sends_Shutdown.
Qed.

Lemma sn_Create_ready context source w a1 a2 st :
  in_width 32 (c_stream_id context) -> in_width 64 (next_outbound (w_message_ids w)) ->
  (forall x, source = Some x -> holds x) ->
  (Create context m source w a1 a2).1.1 = Some st -> ready st.
Proof.
  intros Hst Hid Hh. unfold Create. destruct source as [x |]; [| done].
  destruct (_ || _) eqn:E; [done |]. bool_facts.
  destruct (ValidateReceiveRequest _ _ _); [done |]. destruct (EncodeFrame _ _ _ _ _).2; [| done].
  destruct (TryOpenStream _ _ _ _) as [credit []]; cbn [negb]; [| done].
  destruct a2; cbn [negb]; [| done]. intros [= <-]. split; simpl; try done.
  match goal with H : ValidateContext _ _ = true |- _ => revert H end.
  unfold ValidateContext. destruct (_ || _) eqn:Ev; [done |]. bool_facts. intros _.
  match goal with H : bool_decide (c_version _ = _) = true |- _ =>
    by apply bool_decide_eq_true in H end.
Qed.

End Sending.

(** ** The two ends together *)

Section Joint.
Context {A I V F : Type} `{CA : SessionAuthority A} `{CI : TransferIntegrityProvider I V}
  `{CF : FileSource F} `{CU : Utf8Proc}.
Context {A' I' P' V' : Type} `{CA' : SessionAuthority A'} `{CI' : TransferIntegrityProvider I' V'}
  `{CP' : PlatformBackend P'} `{CV' : StreamingIntegrityVerifier V'}.
Context (m : OneFileManifest) (content : bytes) (holds : F -> Prop).
#[local] Existing Instance recorded_verifier.
#[local] Existing Instance recorded_provider.
#[local] Existing Instance recorded_backend.
Abbreviation Receiving := (Receiver.Sys A' I' (P' * Disk)%type (V' * bytes)).

(** What the rest of the system may do to the world of the receiver: anything
    but write to the temporary object the receiver has open or forget what was
    committed. *)
Record undisturbed (R : Receiving) (w : Receiver.World A' I' (P' * Disk)%type) : Prop := {
  un_object : forall t, rx_transaction (rx R) = Some t ->
    t_state t = TransactionState.kReceiving ->
    open_objects (disk_of (w_storage w)) !! t_temporary t
    = open_objects (disk R) !! t_temporary t;
  un_published : published (disk R) ⊆ published (disk_of (w_storage w));
}.

(** A sender of the file, the frames it has emitted and a receiver.  Each end
    is called in any order, its world any other before each call (the message
    ids of the sender's connection in their 64 bits, the files of the receiver
    undisturbed); the receiver is given only frames the sender emitted, any of
    them at any time. *)
Inductive joint : Sys A I F -> list bytes -> Receiving -> Prop :=
  | joint_start context source w a1 a2 context' budget_set w' a S R :
      in_width 32 (c_stream_id context) -> in_width 64 (next_outbound (w_message_ids w)) ->
      (forall x, source = Some x -> holds x) ->
      (Create context m source w a1 a2).1.1 = Some S ->
      (Receiver.Create context' budget_set w' a).1 = Some R -> joint S [] R
  | joint_send op w S net R :
      joint S net R -> in_width 64 (next_outbound (w_message_ids w)) ->
      joint (sn_call op (S <| world := w |>)).1
        (net ++ [u_outbound_frame (sn_call op (S <| world := w |>)).2]) R
  | joint_receive op w S net R :
      joint S net R -> match op with OpReceiveFrame f _ => In f net | _ => True end ->
      undisturbed R w ->
      joint S net (rx_call op (R <| Receiver.world := w |>)).1.

Lemma joint_size S net R : faithful content holds -> joint S net R ->
  m_file_size m = bsize content.
Proof.
  intros Hf. induction 1 as [context source w a1 a2 c' b w' a S R _ _ Hh Hc _ | |]; [| done..].
  revert Hc. unfold Create. destruct source as [x |]; [| done].
  destruct (_ || _) eqn:E; [done |]. bool_facts. intros _.
  rewrite <- (ff_size _ _ Hf x) by (by apply Hh). done.
Qed.

Section Facts.
Context (Hm : typed_manifest m) (Hsource : faithful content holds) (Hcontent : all_bytes content).
Context (Hcommitment : forall id index offset data i c,
  (BuildChunkCommitment (V := V) id index offset data i).2 = Some c -> all_bytes c).
#[local] Set Default Proof Using "All".

Lemma Create_mirror context budget_set w a (R : Receiving) :
  (Receiver.Create context budget_set w a).1 = Some R -> mirror R.
Proof.
  unfold Receiver.Create. destruct (_ || _); [done |]. destruct (negb a); [done |].
  by intros [= <-].
Qed.

Lemma mirror_undisturbed (R : Receiving) w : undisturbed R w -> mirror R ->
  mirror (R <| Receiver.world := w |>).
Proof.
  intros [Ho Hp] Hmi t Ht. specialize (Hmi t Ht). specialize (Ho t Ht). unfold mirrored in *.
  change (disk (R <| Receiver.world := w |>)) with (disk_of (w_storage w)).
  destruct (t_state t); try done.
  - destruct Hmi as (v & object & Hv & Hobj). exists v, object. by rewrite Ho.
  - destruct Hmi as (v & object & Hv & Hobj). exists v, object. by split; [| apply Hp].
Qed.

Lemma joint_inv S net R : joint S net R ->
  sn_inv (sn S) /\
  ready_of m holds (sn_manifest (sn S)) (sn_context (sn S)) (sn_source (sn S))
    (next_outbound (w_message_ids (world S))) /\
  Forall (honest (m_relative_path m) content) net /\
  rx_inv (rx R) /\
  content_of (m_relative_path m) content (c_version (rx_context (rx R))) (rx_state (rx R))
    (m_file_size (rx_manifest (rx R))) (rx_request (rx R)) (rx_transaction (rx R)) /\
  mirror R.
Proof.
  intros HJ. pose proof (joint_size S net R Hsource HJ) as Hsize.
  induction HJ as [context source w a1 a2 c' b w' a S R Hst Hid Hh Hc Hc' |
                   op w S net R _ IH Hid | op w S net R _ IH Hop Hun].
  - split; [eapply sn_Create_inv; [apply Hm | exact Hc] |].
    split; [by eapply sn_Create_ready |]. split; [constructor |].
    split; [by eapply Create_inv |]. split; [by eapply rx_Create_content |].
    by eapply Create_mirror.
  - destruct IH as (Hi & Hr & Hn & Hrest). 
    assert (Hs : sends m content holds (sn_call op (S <| world := w |>))).
    { apply sn_call_sends; try done. destruct Hr. by split. }
    split; [by apply sn_call_good |]. split; [apply Hs |]. split; [| done].
    apply Forall_app. split; [done |]. constructor; [apply Hs | constructor].
  - destruct IH as (Hi & Hr & Hn & Hri & Hrc & Hmi). do 3 (split; [done |]).
    split; [by apply rx_call_inv |]. split.
    + apply rx_call_content; [done | | done].
      destruct op; try done. simpl. apply List.Forall_forall with (x := encoded) in Hn; done.
    + apply rx_call_keeps; [apply mirror_steps | done |]. by apply mirror_undisturbed.
Qed.

(** C1: What is stored is what was sent.  A sender reads a file whose bytes do
    not change; its frames may be lost, repeated, delayed and reordered, both
    ends may be called in any order, and their connections, storage and
    allocators may do what they like.  At every moment the bytes the receiver
    has written to its temporary object are the beginning of the sender's file,
    as long as the count of its transaction says; and once the receiver has
    durably committed, the object committed to the path the sender's manifest
    names holds the whole content of the file, all of it given to the
    verifier. *)
Theorem committed_is_sent S net R :
  joint S net R ->
  (forall t, rx_transaction (rx R) = Some t -> t_state t = TransactionState.kReceiving ->
     open_objects (disk R) !! t_temporary t = Some (subspan content 0 (t_received_bytes t)) /\
     0 <= t_received_bytes t <= bsize content) /\
  (DurableCommit R = true ->
   exists t v, rx_transaction (rx R) = Some t /\ t_state t = TransactionState.kCommitted /\
     t_verifier t = Some (v, content) /\
     ValidateReceiveRequest (m_relative_path m) (m_file_size m) kMaxFileBytes
       = inr (t_request t) /\
     (path (t_request t), content) ∈ published (disk R)).
Proof.
  intros HJ. destruct (joint_inv S net R HJ) as (_ & _ & _ & Hi & Hc & Hmi).
  rewrite (joint_size S net R Hsource HJ). split.
  - intros t Et Hs. destruct (co_transaction _ _ _ _ _ _ _ Hc t Et) as (Hq & Hv & _).
    destruct (Hv (or_introl Hs)) as [v Hver]. specialize (Hmi t Et). unfold mirrored in Hmi.
    rewrite Hs in Hmi. destruct Hmi as (v' & object & Hver' & Ho). rewrite Hver in Hver'.
    injection Hver' as <- <-. split; [exact Ho |].
    destruct (fa_transaction _ _ _ (inv_facts _ Hi) t Et) as [[_ Htx] _]. rewrite Hs in Htx.
    rewrite <- (offered_size _ _ _ Hq). apply Htx.
  - intros Hd. unfold DurableCommit in Hd.
    destruct (rx_transaction (rx R)) as [t |] eqn:Et; [| done]. apply bool_decide_eq_true in Hd.
    destruct (co_transaction _ _ _ _ _ _ _ Hc t eq_refl) as (Hq & Hv & Hb).
    destruct (Hv (or_intror Hd)) as [v Hver]. rewrite (Hb Hd) in Hver.
    assert (Hall : subspan content 0 (bsize content) = content)
      by (unfold subspan, bsize; simpl; rewrite drop_0, Nat2Z.id; apply firstn_all).
    rewrite Hall in Hver. exists t, v. do 3 (split; [done |]). split; [exact Hq |].
    specialize (Hmi t Et). unfold mirrored in Hmi. rewrite Hd in Hmi.
    destruct Hmi as (v' & object & Hver' & Ho). rewrite Hver in Hver'. by injection Hver' as <- <-.
Qed.

End Facts.
End Joint.

(** ** A transfer *)

(** The transfer of [ReceiverProofs] and [SenderProofs], with the frames of the
    sender itself. *)
Module DeliveryExample.
#[local] Existing Instance always_platform.
#[local] Existing Instance always_verifier.
#[local] Existing Instance ascii_utf8proc.
#[local] Existing Instance Example.always_integrity.
#[local] Existing Instance memory_source.
#[local] Existing Instance recorded_verifier.
#[local] Existing Instance recorded_provider.
#[local] Existing Instance recorded_backend.

Definition file : bytes := repeat 1 4096 ++ repeat 2 904.
Definition manifest : OneFileManifest := SenderExample.manifest.
Definition is_file (source : MemoryFile) : Prop := source = file.

Definition sender_start : Sys OneSession Always MemoryFile :=
  {| sn := Sender_initial (example_context Role.kInitiator) manifest file;
     world := SenderExample.first_world <| w_credit :=
       (TryOpenStream 1 true Role.kInitiator (w_credit SenderExample.first_world)).1 |> |}.

Definition receiver_world : Receiver.World OneSession Always (Always * Disk)%type :=
  {| Receiver.w_authority := repeat 7 16; Receiver.w_message_ids := MakeSequence 1 1;
     Receiver.w_credit := MakeBudget 1048576 8;
     Receiver.w_storage := {| st_budget := MakeTemporaryBudget 10000;
                              st_platform := (tt, {| open_objects := ∅; published := [] |}) |};
     Receiver.w_integrity := tt; Receiver.w_alloc := [] |}.

Definition receiver_start : Receiver.Sys OneSession Always (Always * Disk)%type (Always * bytes) :=
  {| rx := Receiver_initial Example.context; Receiver.world := receiver_world |}.

Definition send_step (s : Sys OneSession Always MemoryFile * list bytes) (op : sn_op) :=
  ((sn_call op s.1).1, s.2 ++ [u_outbound_frame (sn_call op s.1).2]).
Definition sent := fold_left send_step
  (SenderExample.offer_ops ++ SenderExample.send_ops ++ SenderExample.end_ops)
  (sender_start, []).

Definition emitted (k : nat) : bytes := nth k sent.2 [].

Definition receive_ops : list rx_op :=
  [OpReceiveFrame (emitted 0) 10; OpReceiveFrame (emitted 1) 20; OpReceiveFrame (emitted 2) 30;
   OpAccept 4096 8192 40; OpReceiveFrame (emitted 4) 50; OpReceiveFrame (emitted 5) 60;
   OpConfirmChunkAckWritten 4096 70; OpReceiveFrame (emitted 6) 80;
   OpReceiveFrame (emitted 9) 90].

Definition received := fold_left (fun st op => (rx_call op st).1) receive_ops receiver_start.

Lemma file_faithful : faithful file is_file.
Proof.
  split; unfold is_file.
  - by intros source ->.
  - by intros source offset n ->.
  - intros source offset n ->. simpl. intros _. unfold subspan, bsize.
    rewrite length_take, Nat2Z.id. 
    destruct (Nat.le_ge_cases (Z.to_nat n) (length (drop (Z.to_nat offset) file))).
    + by rewrite Nat.min_l.
    + rewrite Nat.min_r by done. by rewrite !take_ge.
Qed.

Lemma manifest_typed : typed_manifest manifest.
Proof. split; apply (bool_decide_unpack _); by vm_compute. Qed.

Lemma joint_started : joint manifest is_file sender_start [] receiver_start.
Proof.
  apply (joint_start manifest is_file (example_context Role.kInitiator) (Some file)
    SenderExample.first_world true true Example.context true receiver_world true).
  - by split.
  - by split.
  - by intros x [= <-].
  - by vm_compute.
  - by vm_compute.
Qed.

Lemma joint_sends ops S net R : joint manifest is_file S net R ->
  Forall (fun s => in_width 64 (next_outbound (w_message_ids (world s.1))))
    (List.map (fun k => fold_left send_step (take k ops) (S, net)) (seq 0 (length ops))) ->
  joint manifest is_file (fold_left send_step ops (S, net)).1
    (fold_left send_step ops (S, net)).2 R.
Proof.
  revert S net. induction ops as [| op ops IH]; intros S net HJ Hw; [done |].
  simpl in Hw. apply list.Forall_cons in Hw as [Hw0 Hw]. simpl.
  apply IH.
  - pose proof (joint_send manifest is_file op (world S) S net R HJ Hw0) as Hj. by destruct S.
  - rewrite <- seq_shift, List.map_map in Hw. exact Hw.
Qed.

Lemma joint_receives ops S net R : joint manifest is_file S net R ->
  Forall (fun op => match op with OpReceiveFrame f _ => In f net | _ => True end) ops ->
  joint manifest is_file S net (fold_left (fun st op => (rx_call op st).1) ops R).
Proof.
  revert R. induction ops as [| op ops IH]; intros R HJ Ho; [done |].
  apply list.Forall_cons in Ho as [Hop Ho]. simpl. apply IH; [| done].
  pose proof (joint_receive manifest is_file op (Receiver.world R) S net R HJ Hop) as Hj.
  destruct R. by apply Hj.
Qed.

Lemma emitted_in k : (k < 10)%nat -> In (emitted k) sent.2.
Proof.
  intros Hk. apply nth_In. assert (length sent.2 = 10%nat) as -> by (by vm_compute). done.
Qed.

Lemma joint_received : joint manifest is_file sent.1 sent.2 received.
Proof.
  apply joint_receives.
  - apply joint_sends; [exact joint_started |]. apply (bool_decide_unpack _). by vm_compute.
  - unfold receive_ops.
    repeat (apply list.Forall_cons; split; [first [exact Logic.I | apply emitted_in; lia] |]).
    apply Forall_nil_2.
Qed.

Definition committed_target : ValidatedReceivePath := {| utf8 := chars "a.txt"; components := [chars "a.txt"] |}.

Lemma committed_is_sent_witness :
  published (disk received) = [(committed_target, file)] /\
  exists t v, rx_transaction (rx received) = Some t /\ t_verifier t = Some (v, file) /\
    (path (t_request t), file) ∈ published (disk received).
Proof.
  assert (Hd : DurableCommit received = true) by (by vm_compute).
  split; [by vm_compute |].
  destruct (committed_is_sent manifest file is_file manifest_typed file_faithful) with
    (S := sent.1) (net := sent.2) (R := received) as (_ & Hcommit).
  - apply (bool_decide_unpack _). by vm_compute.
  - intros id index offset data i c E. injection E as <-. apply (bool_decide_unpack _). by vm_compute.
  - exact joint_received.
  - destruct (Hcommit Hd) as (t & v & Ht & _ & Hv & _ & Hp). exists t, v.
    split; [exact Ht |]. split; [exact Hv | exact Hp].
Defined.

End DeliveryExample.
