(* ===== verification/EventChannel.v ===== *)
(** * The event channel of the bridge

    [EventChannel] of [native/src/bridge/event_channel.hpp]: the bounded ring
    of events a client polls, and the single wakeup callback.  A method is
    split at its critical sections, the parts that hold the mutex: each is one
    atomic step, a function of the channel.  The foreign callback runs between
    two of them, on the thread that prepared it, and may call the channel
    again.  A wait on the condition variable is a step that is possible only
    when its predicate holds.

    A function pointer is its address, zero the null pointer.  The object
    representation of the payload structs depends on the platform; the payloads
    are given as their bytes.  [struct_size], [abi_version] and [reserved] of the
    polled event are constants and left out. *)

From S2P Require Import Prelude.

Module EventChannel.

(** ** Data *)

Definition kPayloadMaxSize : Z := 256.
Definition kQueueCapacity : nat := 64.

Module EventFlag.
Definition kNone : Z := 0.
Definition kEventsDroppedBefore : Z := 1.
End EventFlag.

Module EventType.
Definition kEngineStateChanged : Z := 1.
Definition kDiscoveryPeerChanged : Z := 2.
Definition kPairingAttemptChanged : Z := 3.
Definition kTrustChanged : Z := 4.
Definition kTransferChanged : Z := 5.
End EventType.

Inductive Status := kOk | kInvalidState | kEventQueueEmpty.

#[global] Instance status_eq_dec : EqDecision Status.
Proof. solve_decision. Defined.

Record QueuedEvent := {
  e_sequence : Z;
  e_type : Z;
  e_payload_version : Z;
  e_payload_size : Z;
  e_flags : Z;
  e_payload : bytes;
}.

#[global] Instance eta_QueuedEvent : Eta QueuedEvent := fun x =>
  {| e_sequence := e_sequence x; e_type := e_type x; e_payload_version := e_payload_version x;
     e_payload_size := e_payload_size x; e_flags := e_flags x; e_payload := e_payload x |}.

Definition zero_payload : bytes := repeat 0 256.

Definition QueuedEvent_default : QueuedEvent :=
  {| e_sequence := 0; e_type := 0; e_payload_version := 0; e_payload_size := 0;
     e_flags := EventFlag.kNone; e_payload := zero_payload |}.

Record CallbackTarget := {
  ct_callback : Z;
  ct_user_data : Z;
}.

Definition CallbackTarget_default : CallbackTarget := {| ct_callback := 0; ct_user_data := 0 |}.

(** The data members; [callback_thread_] is [None] for the id of no thread. *)
Record EventChannel := {
  queue_ : list QueuedEvent;
  head_ : nat;
  size_ : nat;
  next_sequence_ : Z;
  callback_ : Z;
  callback_user_data_ : Z;
  callback_thread_ : option nat;
  callback_registration_open_ : bool;
  events_open_ : bool;
  callback_active_ : bool;
  callback_pending_ : bool;
}.

#[global] Instance eta_EventChannel : Eta EventChannel := fun x =>
  {| queue_ := queue_ x; head_ := head_ x; size_ := size_ x; next_sequence_ := next_sequence_ x;
     callback_ := callback_ x; callback_user_data_ := callback_user_data_ x;
     callback_thread_ := callback_thread_ x;
     callback_registration_open_ := callback_registration_open_ x;
     events_open_ := events_open_ x; callback_active_ := callback_active_ x;
     callback_pending_ := callback_pending_ x |}.

Definition EventChannel_initial : EventChannel :=
  {| queue_ := repeat QueuedEvent_default kQueueCapacity; head_ := 0; size_ := 0;
     next_sequence_ := 1; callback_ := 0; callback_user_data_ := 0; callback_thread_ := None;
     callback_registration_open_ := true; events_open_ := true; callback_active_ := false;
     callback_pending_ := false |}.

(** [std::memcpy] of [data] over the beginning of [array]. *)
Definition memcpy (array data : bytes) : bytes := data ++ drop (length data) array.

(** ** Critical sections *)

Definition PrepareCallbackLocked (thread : nat) (c : EventChannel)
    : EventChannel * CallbackTarget :=
  if (callback_ c =? 0) || callback_active_ c then (c, CallbackTarget_default)
  else
    (c <| callback_active_ := true |> <| callback_thread_ := Some thread |>,
     {| ct_callback := callback_ c; ct_user_data := callback_user_data_ c |}).

(** The locked part of [Enqueue]; the target is then invoked. *)
Definition Enqueue (thread : nat) (event : QueuedEvent) (c : EventChannel)
    : EventChannel * CallbackTarget :=
  if negb (events_open_ c) then (c, CallbackTarget_default)
  else
  let event := event <| e_sequence := next_sequence_ c |> in
  let c := c <| next_sequence_ := uadd 64 (next_sequence_ c) 1 |> in
  let '(c, event) :=
    if Nat.eqb (size_ c) (length (queue_ c)) then
      (c <| head_ := ((head_ c + 1) mod length (queue_ c))%nat |> <| size_ := (size_ c - 1)%nat |>,
       event <| e_flags := Z.lor (e_flags event) EventFlag.kEventsDroppedBefore |>)
    else (c, event) in
  let was_empty := Nat.eqb (size_ c) 0 in
  let tail := ((head_ c + size_ c) mod length (queue_ c))%nat in
  let c := c <| queue_ := <[tail := event]> (queue_ c) |> <| size_ := (size_ c + 1)%nat |> in
  if was_empty then
    if callback_active_ c then
      (c <| callback_pending_ := negb (callback_ c =? 0) |>, CallbackTarget_default)
    else PrepareCallbackLocked thread c
  else (c, CallbackTarget_default).

(** The event of one of the five kinds, its payload given as bytes. *)
Definition make_event (type version : Z) (payload : bytes) : QueuedEvent :=
  QueuedEvent_default <| e_type := type |> <| e_payload_version := version |>
    <| e_payload_size := u32 (bsize payload) |> <| e_payload := memcpy zero_payload payload |>.

Definition EnqueueState (thread : nat) (payload : bytes) :=
  Enqueue thread (make_event EventType.kEngineStateChanged 1 payload).
Definition EnqueueDiscovery (thread : nat) (payload : bytes) :=
  Enqueue thread (make_event EventType.kDiscoveryPeerChanged 1 payload).
Definition EnqueuePairing (thread : nat) (payload : bytes) :=
  Enqueue thread (make_event EventType.kPairingAttemptChanged 1 payload).
Definition EnqueueTrust (thread : nat) (payload : bytes) :=
  Enqueue thread (make_event EventType.kTrustChanged 1 payload).
Definition EnqueueTransfer (thread : nat) (payload : bytes) :=
  Enqueue thread (make_event EventType.kTransferChanged 1 payload).

(** [SetCallback] with a config, its callback not null. *)
Definition SetCallback (thread : nat) (callback user_data : Z) (c : EventChannel)
    : EventChannel * CallbackTarget * Status :=
  if negb (callback_registration_open_ c) || negb (callback_ c =? 0) || callback_active_ c then
    (c, CallbackTarget_default, kInvalidState)
  else
  let c := c <| callback_ := callback |> <| callback_user_data_ := user_data |> in
  if negb (Nat.eqb (size_ c) 0) then
    let '(c, target) := PrepareCallbackLocked thread c in (c, target, kOk)
  else (c, CallbackTarget_default, kOk).

(** [SetCallback] with a null config: the part before the wait, and whether
    the call waits until no callback is active. *)
Definition ClearCallback (thread : nat) (c : EventChannel) : EventChannel * bool :=
  let c := c <| callback_ := 0 |> <| callback_user_data_ := 0 |> <| callback_pending_ := false |> in
  (c, callback_active_ c && negb (bool_decide (callback_thread_ c = Some thread))).

(** What [Poll] writes to the caller's event. *)
Record PolledEvent := {
  o_type : Z;
  o_sequence : Z;
  o_payload_version : Z;
  o_payload_size : Z;
  o_flags : Z;
  o_payload : bytes;
}.

Definition Poll (c : EventChannel) : EventChannel * option PolledEvent * Status :=
  if Nat.eqb (size_ c) 0 then (c, None, kEventQueueEmpty)
  else
  let event := nth (head_ c) (queue_ c) QueuedEvent_default in
  let c := c <| head_ := ((head_ c + 1) mod length (queue_ c))%nat |> <| size_ := (size_ c - 1)%nat |> in
  (c, Some {| o_type := e_type event; o_sequence := e_sequence event;
              o_payload_version := e_payload_version event;
              o_payload_size := e_payload_size event; o_flags := e_flags event;
              o_payload := memcpy zero_payload
                             (take (Z.to_nat (e_payload_size event)) (e_payload event)) |}, kOk).

Definition BeginShutdown (c : EventChannel) : EventChannel :=
  c <| callback_registration_open_ := false |>.

(** [FinishShutdown]: the part before the wait, and whether it waits; the part
    after it. *)
Definition FinishShutdownEnter (thread : nat) (c : EventChannel) : EventChannel * bool :=
  let c := c <| callback_registration_open_ := false |> <| events_open_ := false |> in
  (c, callback_active_ c && negb (bool_decide (callback_thread_ c = Some thread))).

Definition FinishShutdownExit (c : EventChannel) : EventChannel :=
  c <| callback_ := 0 |> <| callback_user_data_ := 0 |> <| callback_pending_ := false |>.

Definition IsCallbackThread (thread : nat) (c : EventChannel) : bool :=
  callback_active_ c && bool_decide (callback_thread_ c = Some thread).

(** The locked part of [InvokeCallback], after the callback returned or threw;
    the target is invoked next. *)
Definition CallbackReturned (thread : nat) (c : EventChannel) : EventChannel * CallbackTarget :=
  let c := c <| callback_active_ := false |> <| callback_thread_ := None |> in
  if callback_pending_ c then
    PrepareCallbackLocked thread (c <| callback_pending_ := false |>)
  else (c, CallbackTarget_default).

#[global] Strategy opaque [kQueueCapacity].

End EventChannel.
