(* ===== verification/EventChannelProofs.v ===== *)
(** * Correctness of the event channel

    The ring implements a bounded first-in first-out queue that drops its
    oldest event when it is full; wakeups are serialised, none is lost, and
    clearing the callback and shutting down are barriers: when they return, no
    callback runs and none can start. *)

From stdpp Require Import relations.
From S2P Require Import Prelude.
From S2P Require Import EventChannel.
Import EventChannel.

(** ** The ring *)

(** The queued events, oldest first. *)
Definition contents (c : EventChannel) : list QueuedEvent :=
  List.map (fun i => nth ((head_ c + i) mod kQueueCapacity)%nat (queue_ c) QueuedEvent_default)
    (seq 0 (size_ c)).

Record ring_ok (c : EventChannel) : Prop := {
  ri_length : length (queue_ c) = kQueueCapacity;
  ri_head : (head_ c < kQueueCapacity)%nat;
  ri_size : (size_ c <= kQueueCapacity)%nat;
}.

Lemma capacity_positive : (0 < kQueueCapacity)%nat.
Proof. by vm_compute; lia. Qed.

Lemma ring_ok_initial : ring_ok EventChannel_initial.
Proof.
  pose proof capacity_positive. split; simpl; [apply repeat_length | lia | lia].
Qed.

Lemma contents_length c : length (contents c) = size_ c.
Proof. unfold contents. by rewrite List.length_map, length_seq. Qed.

(** The members of the ring. *)
Definition ring_view (c : EventChannel) := (queue_ c, head_ c, size_ c).

Lemma contents_view c c' : ring_view c' = ring_view c -> contents c' = contents c.
Proof. unfold ring_view, contents. intros E. injection E as E1 E2 E3. by rewrite E1, E2, E3. Qed.

Lemma ring_ok_view c c' : ring_view c' = ring_view c -> ring_ok c -> ring_ok c'.
Proof.
  unfold ring_view. intros E [H1 H2 H3]. injection E as E1 E2 E3. split; by rewrite ?E1, ?E2, ?E3.
Qed.

(** Moving the head on removes the oldest event. *)
Lemma contents_pop c : ring_ok c -> size_ c <> 0%nat ->
  let c' := c <| head_ := ((head_ c + 1) mod kQueueCapacity)%nat |> <| size_ := (size_ c - 1)%nat |> in
  ring_ok c' /\ contents c = nth (head_ c) (queue_ c) QueuedEvent_default :: contents c'.
Proof.
  intros [H1 H2 H3] Hn. pose proof capacity_positive. split.
  - split; simpl; [done | by apply Nat.mod_upper_bound; lia | lia].
  - unfold contents. simpl. destruct (size_ c) as [| n]; [done |]. simpl.
    rewrite Nat.add_0_r, Nat.mod_small by lia. f_equal.
    rewrite Nat.sub_0_r, <- seq_shift, List.map_map. apply List.map_ext. intros i.
    rewrite Nat.Div0.add_mod_idemp_l. do 2 f_equal. lia.
Qed.

Lemma mod_shift_ne a k n : (0 < k < n)%nat -> ((a + k) mod n <> a mod n)%nat.
Proof.
  intros Hk E. pose proof (Nat.div_mod_eq a n) as H1. pose proof (Nat.div_mod_eq (a + k) n) as H2.
  rewrite E in H2. assert (Hq : (n * ((a + k) / n) = n * (a / n) + k)%nat) by lia.
  destruct (Nat.lt_trichotomy ((a + k) / n) (a / n)) as [|[Heq|]]; [nia | rewrite Heq in Hq; lia | nia].
Qed.

(** Writing at the tail adds the newest. *)
Lemma contents_push c e : ring_ok c -> (size_ c < kQueueCapacity)%nat ->
  let c' := c <| queue_ := <[((head_ c + size_ c) mod kQueueCapacity)%nat := e]> (queue_ c) |>
              <| size_ := (size_ c + 1)%nat |> in
  ring_ok c' /\ contents c' = contents c ++ [e].
Proof.
  intros [H1 H2 H3] Hn. pose proof capacity_positive as Hc. split.
  - split; simpl; [by rewrite length_insert | exact H2 | lia].
  - unfold contents. simpl. rewrite Nat.add_1_r, seq_S, List.map_app. simpl. f_equal.
    + apply List.map_ext_in. intros i Hi%in_seq.
      rewrite !nth_lookup, list_lookup_insert_ne; [done |]. intros E.
      apply (mod_shift_ne (head_ c + i) (size_ c - i) kQueueCapacity); [lia |].
      rewrite <- E. f_equal. lia.
    + rewrite nth_lookup, list_lookup_insert_eq; [done |].
      rewrite H1. apply Nat.mod_upper_bound. lia.
Qed.

(** ** The bounded queue *)

(** The critical sections, in any interleaving of any number of threads. *)
Inductive chan_op :=
  | ChEnqueue (thread : nat) (event : QueuedEvent)
  | ChPoll
  | ChSetCallback (thread : nat) (callback user_data : Z)
  | ChClearCallback (thread : nat)
  | ChBeginShutdown
  | ChFinishShutdownEnter (thread : nat)
  | ChFinishShutdownExit
  | ChCallbackReturned (thread : nat).

Definition chan_step (op : chan_op) (c : EventChannel) : EventChannel * option PolledEvent :=
  match op with
  | ChEnqueue thread event => ((Enqueue thread event c).1, None)
  | ChPoll => (Poll c).1
  | ChSetCallback thread callback user_data => ((SetCallback thread callback user_data c).1.1, None)
  | ChClearCallback thread => ((ClearCallback thread c).1, None)
  | ChBeginShutdown => (BeginShutdown c, None)
  | ChFinishShutdownEnter thread => ((FinishShutdownEnter thread c).1, None)
  | ChFinishShutdownExit => (FinishShutdownExit c, None)
  | ChCallbackReturned thread => ((CallbackReturned thread c).1, None)
  end.

Fixpoint chan_run (ops : list chan_op) (c : EventChannel) : list PolledEvent :=
  match ops with
  | [] => []
  | op :: ops =>
      let '(c, output) := chan_step op c in
      match output with Some e => e :: chan_run ops c | None => chan_run ops c end
  end.

(** The specification: a list of events, oldest first.  An event that finds the
    list full pushes the oldest one out and says so; the numbers count the
    events; after the shutdown nothing is added. *)
Record BoundedQueue := {
  bq_items : list QueuedEvent;
  bq_number : Z;
  bq_open : bool;
}.

Definition bq_add (event : QueuedEvent) (q : BoundedQueue) : BoundedQueue :=
  if bq_open q then
    let event := event <| e_sequence := bq_number q |> in
    {| bq_items :=
         if Nat.eqb (length (bq_items q)) kQueueCapacity then
           tail (bq_items q)
             ++ [event <| e_flags := Z.lor (e_flags event) EventFlag.kEventsDroppedBefore |>]
         else bq_items q ++ [event];
       bq_number := uadd 64 (bq_number q) 1; bq_open := true |}
  else q.

Definition polled (e : QueuedEvent) : PolledEvent :=
  {| o_type := e_type e; o_sequence := e_sequence e; o_payload_version := e_payload_version e;
     o_payload_size := e_payload_size e; o_flags := e_flags e;
     o_payload := memcpy zero_payload (take (Z.to_nat (e_payload_size e)) (e_payload e)) |}.

Definition bq_step (op : chan_op) (q : BoundedQueue) : BoundedQueue * option PolledEvent :=
  match op with
  | ChEnqueue _ event => (bq_add event q, None)
  | ChPoll =>
      match bq_items q with
      | [] => (q, None)
      | e :: rest =>
          ({| bq_items := rest; bq_number := bq_number q; bq_open := bq_open q |}, Some (polled e))
      end
  | ChFinishShutdownEnter _ =>
      ({| bq_items := bq_items q; bq_number := bq_number q; bq_open := false |}, None)
  | _ => (q, None)
  end.

Fixpoint bq_run (ops : list chan_op) (q : BoundedQueue) : list PolledEvent :=
  match ops with
  | [] => []
  | op :: ops =>
      let '(q, output) := bq_step op q in
      match output with Some e => e :: bq_run ops q | None => bq_run ops q end
  end.

(** The queue a channel stands for. *)
Definition abs (c : EventChannel) : BoundedQueue :=
  {| bq_items := contents c; bq_number := next_sequence_ c; bq_open := events_open_ c |}.

Definition abs_view (c : EventChannel) := (ring_view c, next_sequence_ c, events_open_ c).

Lemma abs_same c c' : abs_view c' = abs_view c -> ring_ok c -> ring_ok c' /\ abs c' = abs c.
Proof.
  unfold abs_view. intros E Hr. injection E as E1 E2 E3 E4 E5.
  assert (Hv : ring_view c' = ring_view c) by (unfold ring_view; congruence).
  split; [by apply (ring_ok_view c) |]. unfold abs. by rewrite (contents_view c), E4, E5.
Qed.

Lemma PrepareCallbackLocked_same thread c :
  abs_view (PrepareCallbackLocked thread c).1 = abs_view c.
Proof. unfold PrepareCallbackLocked. by destruct (_ || _). Qed.

Lemma Enqueue_refines thread event c : ring_ok c ->
  ring_ok (Enqueue thread event c).1 /\ abs (Enqueue thread event c).1 = bq_add event (abs c).
Proof.
  intros Hr. unfold Enqueue, bq_add. simpl bq_open. destruct (events_open_ c) eqn:Eo; [| done].
  cbn [negb]. cbv zeta.
  set (e1 := event <| e_sequence := _ |>).
  set (c1 := c <| next_sequence_ := _ |>).
  assert (Hr1 : ring_ok c1) by (apply (ring_ok_view c); [done | exact Hr]).
  rewrite (ri_length c1 Hr1).
  (* after the oldest event made room *)
  assert (Hroom : exists c2 e2, (if Nat.eqb (size_ c1) kQueueCapacity
      then (c1 <| head_ := ((head_ c1 + 1) mod kQueueCapacity)%nat |>
               <| size_ := (size_ c1 - 1)%nat |>,
            e1 <| e_flags := Z.lor (e_flags e1) EventFlag.kEventsDroppedBefore |>)
      else (c1, e1)) = (c2, e2) /\ ring_ok c2 /\ (size_ c2 < kQueueCapacity)%nat /\
    next_sequence_ c2 = next_sequence_ c1 /\ events_open_ c2 = true /\
    contents c2 ++ [e2] = if Nat.eqb (length (contents c)) kQueueCapacity
      then tail (contents c) ++ [e1 <| e_flags := Z.lor (e_flags e1) EventFlag.kEventsDroppedBefore |>]
      else contents c ++ [e1]).
  { rewrite contents_length. change (size_ c1) with (size_ c).
    destruct (Nat.eqb_spec (size_ c) kQueueCapacity) as [Hfull | Hfree].
    - pose proof capacity_positive. destruct (contents_pop c1 Hr1) as [Hr2 Hc2]; [simpl; lia |].
      eexists _, _. split; [reflexivity |]. split; [exact Hr2 |]. split; [simpl; lia |].
      split; [done |]. split; [done |]. change (contents c) with (contents c1). by rewrite Hc2.
    - pose proof (ri_size c Hr). exists c1, e1. split; [done |]. split; [done |].
      split; [simpl; lia | done]. }
  destruct Hroom as (c2 & e2 & E & Hr2 & Hlt & Hn & Ho & Hc). rewrite E. clear E. cbv iota beta zeta.
  rewrite (ri_length c2 Hr2). destruct (contents_push c2 e2 Hr2 Hlt) as [Hr3 Hc3].
  assert (Hgoal : forall c', abs_view c' = abs_view (c2
      <| queue_ := <[((head_ c2 + size_ c2) mod kQueueCapacity)%nat := e2]> (queue_ c2) |>
      <| size_ := (size_ c2 + 1)%nat |>) ->
    ring_ok c' /\ abs c' = {| bq_items := if Nat.eqb (length (contents c)) kQueueCapacity
      then tail (contents c) ++ [e1 <| e_flags := Z.lor (e_flags e1) EventFlag.kEventsDroppedBefore |>]
      else contents c ++ [e1]; bq_number := uadd 64 (next_sequence_ c) 1; bq_open := true |}).
  { intros c' Hv. destruct (abs_same _ _ Hv Hr3) as [Hr' Ha]. split; [exact Hr' |]. rewrite Ha.
    unfold abs. rewrite Hc3, Hc. simpl. by rewrite Hn, Ho. }
  destruct (Nat.eqb (size_ c2) 0); [| by apply Hgoal]. simpl callback_active_.
  destruct (callback_active_ c2); [by apply Hgoal |]. apply Hgoal.
  by rewrite PrepareCallbackLocked_same.
Qed.

Lemma Poll_refines c : ring_ok c ->
  ring_ok (Poll c).1.1 /\ (abs (Poll c).1.1, (Poll c).1.2) = bq_step ChPoll (abs c).
Proof.
  intros Hr. unfold Poll. cbn [bq_step abs bq_items].
  destruct (Nat.eqb_spec (size_ c) 0) as [Hz | Hn].
  - assert (Hc : contents c = []) by (apply length_zero_iff_nil; by rewrite contents_length).
    rewrite Hc. cbn [fst snd]. split; [done |]. unfold abs. by rewrite Hc.
  - destruct (contents_pop c Hr Hn) as [Hr' Hc]. rewrite (ri_length c Hr), Hc. cbn [fst snd].
    split; [exact Hr' | done].
Qed.

Lemma chan_step_refines op c : ring_ok c ->
  ring_ok (chan_step op c).1 /\
  (abs (chan_step op c).1, (chan_step op c).2) = bq_step op (abs c).
Proof.
  intros Hr. destruct op as [thread event | | thread cb ud | thread | | thread | | thread];
    cbn [chan_step bq_step fst snd].
  - destruct (Enqueue_refines thread event c Hr) as [Hr' Ha]. split; [exact Hr' | by rewrite Ha].
  - destruct (Poll_refines c Hr) as [Hr' Ha]. split; [exact Hr' | exact Ha].
  - assert (Hv : abs_view (SetCallback thread cb ud c).1.1 = abs_view c).
    { unfold SetCallback. destruct (_ || _); [done |]. destruct (negb _); [| done].
      match goal with |- context [PrepareCallbackLocked ?t ?x] =>
        pose proof (PrepareCallbackLocked_same t x); destruct (PrepareCallbackLocked t x) end.
      done. }
    destruct (abs_same c _ Hv Hr) as [? ->]. done.
  - by destruct (abs_same c (ClearCallback thread c).1 eq_refl Hr) as [? ->].
  - by destruct (abs_same c (BeginShutdown c) eq_refl Hr) as [? ->].
  - split; [by apply (ring_ok_view c) |]. unfold abs. by rewrite (contents_view c).
  - by destruct (abs_same c (FinishShutdownExit c) eq_refl Hr) as [? ->].
  - assert (Hv : abs_view (CallbackReturned thread c).1 = abs_view c).
    { unfold CallbackReturned. destruct (callback_pending_ _); [| done].
      by rewrite PrepareCallbackLocked_same. }
    destruct (abs_same c _ Hv Hr) as [? ->]. done.
Qed.

(** C9: The ring buffer implements a bounded queue: in any interleaving of the
    calls of any number of threads, what [Poll] returns is what a list of at
    most 64 events returns, oldest first, with the oldest event pushed out,
    and the newcomer marked, only when it is full; the events are numbered 1,
    2, 3, ... and nothing is queued once the shutdown has begun to finish. *)
Theorem ring_implements_bounded_queue (ops : list chan_op) :
  chan_run ops EventChannel_initial
  = bq_run ops {| bq_items := []; bq_number := 1; bq_open := true |}.
Proof.
  change {| bq_items := []; bq_number := 1; bq_open := true |} with (abs EventChannel_initial).
  generalize ring_ok_initial. generalize EventChannel_initial.
  induction ops as [| op ops IH]; intros c Hr; [done |].
  destruct (chan_step_refines op c Hr) as [Hr' Hs]. simpl.
  destruct (chan_step op c) as [c' out]. cbn [fst snd] in *. rewrite <- Hs.
  destruct out; by rewrite IH.
Qed.

(** ** Threads and callbacks *)

(** An invocation of the callback in flight; [iv_generation] counts the
    registration it comes from. *)
Record invocation := {
  iv_thread : nat;
  iv_target : CallbackTarget;
  iv_generation : nat;
}.

(** A call that cleared the callback or shut the channel down, and has
    returned: the last registration before it, and its thread when a callback
    made the call. *)
Record clearing := {
  cl_generation : nat;
  cl_inside : option nat;
}.

(** The channel with the threads that use it: the invocations in flight, the
    clearing calls that wait and those that returned, the shutdown calls that
    wait and whether one returned.  [woken] says that the callback was entered
    after the queue last became non-empty or a callback was registered. *)
Record system := {
  channel : EventChannel;
  in_flight : list invocation;
  generation : nat;
  clears_waiting : list (nat * nat);
  clears_done : list clearing;
  stops_waiting : list nat;
  stopped : bool;
  woken : bool;
}.

#[global] Instance eta_system : Eta system := fun x =>
  {| channel := channel x; in_flight := in_flight x; generation := generation x;
     clears_waiting := clears_waiting x; clears_done := clears_done x;
     stops_waiting := stops_waiting x; stopped := stopped x; woken := woken x |}.

Definition system_initial : system :=
  {| channel := EventChannel_initial; in_flight := []; generation := 0; clears_waiting := [];
     clears_done := []; stops_waiting := []; stopped := false; woken := false |}.

(** [InvokeCallback] enters the callback of a target that is not null. *)
Definition invoke (thread : nat) (target : CallbackTarget) (s : system) : system :=
  if ct_callback target =? 0 then s
  else
    s <| in_flight := {| iv_thread := thread; iv_target := target; iv_generation := generation s |}
                        :: in_flight s |> <| woken := true |>.

(** One critical section of one thread. *)
Inductive system_step : system -> system -> Prop :=
  | StepEnqueue thread event s c target :
      Enqueue thread event (channel s) = (c, target) ->
      system_step s (invoke thread target
        (s <| channel := c |>
           <| woken := if Nat.eqb (size_ (channel s)) 0 then false else woken s |>))
  | StepPoll s : system_step s (s <| channel := (Poll (channel s)).1.1 |>)
  | StepSetCallback thread callback user_data s c target status :
      callback <> 0 ->
      SetCallback thread callback user_data (channel s) = (c, target, status) ->
      system_step s
        (if decide (status = kOk) then
           invoke thread target
             (s <| channel := c |> <| generation := S (generation s) |> <| woken := false |>)
         else s <| channel := c |>)
  | StepClearCallback thread s c (waits : bool) :
      ClearCallback thread (channel s) = (c, waits) ->
      system_step s
        (if waits then
           s <| channel := c |> <| clears_waiting := (thread, generation s) :: clears_waiting s |>
         else
           s <| channel := c |>
             <| clears_done :=
                  {| cl_generation := generation s;
                     cl_inside := if IsCallbackThread thread c then Some thread else None |}
                    :: clears_done s |>)
  | StepClearWoken thread g waiting s :
      clears_waiting s ≡ₚ (thread, g) :: waiting ->
      callback_active_ (channel s) = false ->
      system_step s
        (s <| clears_waiting := waiting |>
           <| clears_done := {| cl_generation := g; cl_inside := None |} :: clears_done s |>)
  | StepBeginShutdown s : system_step s (s <| channel := BeginShutdown (channel s) |>)
  | StepFinishShutdown thread s c (waits : bool) :
      FinishShutdownEnter thread (channel s) = (c, waits) ->
      system_step s
        (if waits then
           s <| channel := c |> <| stops_waiting := thread :: stops_waiting s |>
         else
           s <| channel := FinishShutdownExit c |> <| stopped := true |>
             <| clears_done :=
                  {| cl_generation := generation s;
                     cl_inside := if IsCallbackThread thread c then Some thread else None |}
                    :: clears_done s |>)
  | StepFinishWoken thread waiting s :
      stops_waiting s ≡ₚ thread :: waiting ->
      callback_active_ (channel s) = false ->
      system_step s
        (s <| channel := FinishShutdownExit (channel s) |> <| stops_waiting := waiting |>
           <| stopped := true |>
           <| clears_done :=
                {| cl_generation := generation s; cl_inside := None |} :: clears_done s |>)
  | StepCallbackReturned thread inv rest s c target :
      in_flight s ≡ₚ inv :: rest -> iv_thread inv = thread ->
      CallbackReturned thread (channel s) = (c, target) ->
      system_step s (invoke thread target (s <| channel := c |> <| in_flight := rest |>)).

Definition system_reachable (s : system) : Prop := rtc system_step system_initial s.

(** What the callback flags of the channel say of the threads. *)
Record sync (s : system) : Prop := {
  sy_ring : ring_ok (channel s);
  sy_active : in_flight s = [] /\ callback_active_ (channel s) = false \/
    exists inv, in_flight s = [inv] /\ callback_active_ (channel s) = true /\
      callback_thread_ (channel s) = Some (iv_thread inv) /\
      (iv_generation inv <= generation s)%nat;
  sy_pending : callback_pending_ (channel s) = true -> callback_active_ (channel s) = true;
  sy_woken : size_ (channel s) <> 0%nat -> callback_ (channel s) <> 0 ->
    woken s = true \/ callback_pending_ (channel s) = true;
  sy_waiting t g : (t, g) ∈ clears_waiting s ->
    (g <= generation s)%nat /\ (callback_ (channel s) = 0 \/ (g < generation s)%nat);
  sy_done cl : cl ∈ clears_done s ->
    (cl_generation cl <= generation s)%nat /\
    (callback_ (channel s) = 0 \/ (cl_generation cl < generation s)%nat) /\
    (forall inv, inv ∈ in_flight s -> (iv_generation inv <= cl_generation cl)%nat ->
       cl_inside cl = Some (iv_thread inv));
  sy_stops : stops_waiting s <> [] ->
    events_open_ (channel s) = false /\ callback_registration_open_ (channel s) = false;
  sy_stopped : stopped s = true ->
    events_open_ (channel s) = false /\ callback_registration_open_ (channel s) = false /\
    callback_ (channel s) = 0;
}.

(** How a critical section may change the callback flags. *)
Variant flags_effect (thread : nat) (c c' : EventChannel) (target : CallbackTarget) : Prop :=
  | FlagsSame :
      target = CallbackTarget_default ->
      (size_ c' = 0%nat \/ size_ c <> 0%nat \/ callback_ c = 0) ->
      callback_active_ c' = callback_active_ c -> callback_thread_ c' = callback_thread_ c ->
      callback_pending_ c' = callback_pending_ c -> flags_effect thread c c' target
  | FlagsPending :
      target = CallbackTarget_default -> callback_active_ c = true ->
      callback_active_ c' = true -> callback_thread_ c' = callback_thread_ c ->
      callback_pending_ c' = negb (callback_ c =? 0) -> flags_effect thread c c' target
  | FlagsEnter :
      ct_callback target <> 0 -> callback_ c <> 0 -> callback_active_ c = false ->
      callback_active_ c' = true -> callback_thread_ c' = Some thread ->
      callback_pending_ c' = callback_pending_ c -> flags_effect thread c c' target.

Definition registration_view (c : EventChannel) :=
  (callback_ c, callback_registration_open_ c, events_open_ c).

Lemma Enqueue_flags thread event c c' target :
  ring_ok c -> Enqueue thread event c = (c', target) ->
  flags_effect thread c c' target /\ registration_view c' = registration_view c.
Proof.
  intros Hr. unfold Enqueue. destruct (events_open_ c) eqn:Eo; cbn [negb];
    [| intros [= <- <-]; split; [apply FlagsSame; auto; destruct (size_ c); auto | done]].
  cbv zeta. set (c1 := c <| next_sequence_ := _ |>).
  assert (H2 : exists c2 e2, (if Nat.eqb (size_ c1) (length (queue_ c1))
      then (c1 <| head_ := ((head_ c1 + 1) mod length (queue_ c1))%nat |>
               <| size_ := (size_ c1 - 1)%nat |>,
            (event <| e_sequence := next_sequence_ c |>) <| e_flags :=
              Z.lor (e_flags (event <| e_sequence := next_sequence_ c |>))
                EventFlag.kEventsDroppedBefore |>)
      else (c1, event <| e_sequence := next_sequence_ c |>)) = (c2, e2) /\
    (size_ c2 = 0%nat <-> size_ c = 0%nat) /\
    callback_active_ c2 = callback_active_ c /\ callback_thread_ c2 = callback_thread_ c /\
    callback_pending_ c2 = callback_pending_ c /\ registration_view c2 = registration_view c).
  { rewrite (ri_length c1) by (by apply (ring_ok_view c)). simpl size_.
    destruct (Nat.eqb_spec (size_ c) kQueueCapacity) as [E | E]; eexists _, _;
      (split; [reflexivity |]); simpl; repeat (split; [| done || split]); try done.
    rewrite E. by vm_compute. }
  destruct H2 as (c2 & e2 & E & Hz & Ha & Ht & Hp & Hv). rewrite E. clear E. cbv iota beta zeta.
  unfold registration_view in *. injection Hv as Hv1 Hv2 Hv3.
  destruct (Nat.eqb_spec (size_ c2) 0) as [E0 | E0]; simpl.
  - rewrite Ha. destruct (callback_active_ c) eqn:Ea.
    + intros [= <- <-]. simpl. rewrite Hv1, Hv2, Hv3. split; [by apply FlagsPending | done].
    + unfold PrepareCallbackLocked. simpl. rewrite Ha, Hv1, orb_false_r.
      destruct (Z.eqb_spec (callback_ c) 0) as [Ec | Ec]; intros [= <- <-]; simpl;
        rewrite ?Hv1, ?Hv2, ?Hv3; (split; [| done]).
      * apply FlagsSame; simpl; auto. by rewrite Ha, Ea.
      * by apply FlagsEnter.
  - intros [= <- <-]. simpl. rewrite Hv1, Hv2, Hv3. split; [| done].
    apply FlagsSame; simpl; auto. right; left. by rewrite <- Hz.
Qed.

Lemma sync_initial : sync system_initial.
Proof.
  split; simpl; try done; [apply ring_ok_initial | by left | |]; intros; set_solver.
Qed.

(** Entering the callback, with none in flight. *)
Lemma sync_enter thread target c w s :
  sync s -> ct_callback target <> 0 -> callback_ (channel s) <> 0 -> in_flight s = [] ->
  ring_ok c -> registration_view c = registration_view (channel s) ->
  callback_active_ c = true -> callback_thread_ c = Some thread -> callback_pending_ c = false ->
  sync (invoke thread target (s <| channel := c |> <| woken := w |>)).
Proof.
  intros Hs Ht Hc Hf Hr Hv Ha Hth Hp. unfold registration_view in Hv. injection Hv as H1 H2 H3.
  unfold invoke. destruct (Z.eqb_spec (ct_callback target) 0); [done |].
  split; simpl; rewrite ?H1, ?H2, ?H3, ?Ha, ?Hp, ?Hf; try done.
  - right. eexists. repeat split; [exact Hth | done].
  - by left.
  - intros t g Hg. apply (sy_waiting s Hs) in Hg. tauto.
  - intros cl Hcl. destruct (sy_done s Hs cl Hcl) as (Hd1 & [? | Hd2] & _); [done |].
    split; [done |]. split; [by right |]. intros inv ->%list_elem_of_singleton Hle. simpl in Hle. lia.
  - apply (sy_stops s Hs).
  - apply (sy_stopped s Hs).
Qed.

Lemma sync_idle s : sync s -> callback_active_ (channel s) = false -> in_flight s = [].
Proof. intros Hs Ha. destruct (sy_active s Hs) as [[? _] | (inv & _ & ? & _)]; congruence. Qed.

Lemma sync_idle_pending s : sync s -> callback_active_ (channel s) = false ->
  callback_pending_ (channel s) = false.
Proof.
  intros Hs Ha. destruct (callback_pending_ (channel s)) eqn:E; [| done].
  apply (sy_pending s Hs) in E. congruence.
Qed.

(** A step that enters no callback and leaves the threads as they are. *)
Lemma sync_quiet s c w :
  sync s -> ring_ok c -> registration_view c = registration_view (channel s) ->
  callback_active_ c = callback_active_ (channel s) ->
  callback_thread_ c = callback_thread_ (channel s) ->
  (callback_pending_ c = true -> callback_active_ c = true) ->
  (size_ c <> 0%nat -> callback_ (channel s) <> 0 -> w = true \/ callback_pending_ c = true) ->
  sync (s <| channel := c |> <| woken := w |>).
Proof.
  intros Hs Hr Hv Ha Ht Hp Hw. unfold registration_view in Hv. injection Hv as H1 H2 H3.
  split; simpl; rewrite ?H1, ?H2, ?H3; try done.
  - rewrite Ha, Ht. apply (sy_active s Hs).
  - apply (sy_waiting s Hs).
  - apply (sy_done s Hs).
  - apply (sy_stops s Hs).
  - apply (sy_stopped s Hs).
Qed.

Lemma invoke_default thread s : invoke thread CallbackTarget_default s = s.
Proof. done. Qed.

Lemma sync_Enqueue thread event s c target :
  sync s -> Enqueue thread event (channel s) = (c, target) ->
  sync (invoke thread target (s <| channel := c |>
     <| woken := if Nat.eqb (size_ (channel s)) 0 then false else woken s |>)).
Proof.
  intros Hs E. pose proof (sy_ring s Hs) as Hr.
  destruct (Enqueue_refines thread event (channel s) Hr) as [Hr' _]. rewrite E in Hr'. simpl in Hr'.
  destruct (Enqueue_flags _ _ _ _ _ Hr E) as [[-> Hz Ha Ht Hp | -> Ha1 Ha Ht Hp | Hc Hc' Ha1 Ha Ht Hp] Hv].
  - rewrite invoke_default. apply sync_quiet; try done.
    + rewrite Hp, Ha. apply (sy_pending s Hs).
    + intros Hn Hcb. destruct Hz as [? | [Hz | ?]]; [done | | done].
      destruct (Nat.eqb_spec (size_ (channel s)) 0); [done |]. rewrite Hp. by apply (sy_woken s Hs).
  - rewrite invoke_default. apply sync_quiet; try done; [congruence |].
    intros _ Hcb. right. rewrite Hp. by destruct (Z.eqb_spec (callback_ (channel s)) 0).
  - apply sync_enter; try done.
    + by apply sync_idle.
    + rewrite Hp. by apply sync_idle_pending.
Qed.

Lemma sync_Poll s : sync s -> sync (s <| channel := (Poll (channel s)).1.1 |>).
Proof.
  intros Hs. pose proof (sy_ring s Hs) as Hr. destruct (Poll_refines _ Hr) as [Hr' _].
  change (sync (s <| channel := (Poll (channel s)).1.1 |> <| woken := woken s |>)).
  revert Hr'. unfold Poll. destruct (Nat.eqb_spec (size_ (channel s)) 0); simpl; intros Hr';
    apply sync_quiet; try done; simpl; try apply (sy_pending s Hs).
  intros _. by apply (sy_woken s Hs).
Qed.

Lemma sync_refused s : sync s -> sync (s <| channel := channel s |>).
Proof. by destruct s. Qed.

Lemma sync_SetCallback thread callback user_data s c target status :
  sync s -> callback <> 0 ->
  SetCallback thread callback user_data (channel s) = (c, target, status) ->
  sync (if decide (status = kOk) then
          invoke thread target
            (s <| channel := c |> <| generation := S (generation s) |> <| woken := false |>)
        else s <| channel := c |>).
Proof.
  intros Hs Hn. unfold SetCallback.
  destruct (callback_registration_open_ (channel s)) eqn:Er; cbn [negb orb];
    [| by intros [= <- <- <-]; apply sync_refused].
  destruct (Z.eqb_spec (callback_ (channel s)) 0) as [E0 | E0]; cbn [negb orb];
    [| by intros [= <- <- <-]; apply sync_refused].
  destruct (callback_active_ (channel s)) eqn:Ea; [by intros [= <- <- <-]; apply sync_refused |].
  pose proof (sync_idle s Hs Ea) as Hf. pose proof (sync_idle_pending s Hs Ea) as Hp.
  set (c0 := (channel s) <| callback_ := callback |> <| callback_user_data_ := user_data |>).
  set (s0 := s <| channel := c0 |> <| generation := S (generation s) |>).
  (* the registration alone *)
  assert (H0 : forall w, (size_ c0 <> 0%nat -> w = true) -> sync (s0 <| woken := w |>)).
  { intros w Hw. split; simpl; rewrite ?Ea, ?Hp, ?Hf, ?Er; try done.
    - apply (ring_ok_view (channel s)); [done | apply (sy_ring s Hs)].
    - by left.
    - intros Hsz _. left. by apply Hw.
    - intros t g Hg. apply (sy_waiting s Hs) in Hg as [? _]. split; [lia |]. right; lia.
    - intros cl Hcl. apply (sy_done s Hs) in Hcl as [? _]. split; [lia |]. split; [right; lia |].
      set_solver.
    - intros Hst. destruct (sy_stops s Hs Hst). congruence.
    - intros Hst. destruct (sy_stopped s Hs Hst) as (_ & ? & _). congruence. }
  destruct (Nat.eqb_spec (size_ c0) 0) as [Ez | Ez]; cbn [negb].
  - intros [= <- <- <-]. rewrite decide_True by done. rewrite invoke_default. by apply H0.
  - unfold PrepareCallbackLocked. simpl callback_. simpl callback_active_. rewrite Ea, orb_false_r.
    destruct (Z.eqb_spec callback 0) as [E | _]; [done |]. intros [= <- <- <-].
    rewrite decide_True by done.
    refine (sync_enter thread {| ct_callback := callback; ct_user_data := user_data |}
      (c0 <| callback_active_ := true |> <| callback_thread_ := Some thread |>)
      false (s0 <| woken := true |>) _ _ _ _ _ _ _ _ _); try done.
    + by apply H0.
    + apply (ring_ok_view (channel s)); [done | apply (sy_ring s Hs)].
Qed.

(** The channel after its callback was cleared. *)
Lemma sync_cleared s c waiting done_ stops st :
  sync s -> ring_ok c -> callback_ c = 0 -> callback_pending_ c = false ->
  callback_active_ c = callback_active_ (channel s) ->
  callback_thread_ c = callback_thread_ (channel s) ->
  (forall t g, (t, g) ∈ waiting -> (g <= generation s)%nat) ->
  (forall cl, cl ∈ done_ -> (cl_generation cl <= generation s)%nat /\
     forall inv, inv ∈ in_flight s -> (iv_generation inv <= cl_generation cl)%nat ->
       cl_inside cl = Some (iv_thread inv)) ->
  (stops <> [] \/ st = true ->
     events_open_ c = false /\ callback_registration_open_ c = false) ->
  sync (s <| channel := c |> <| clears_waiting := waiting |> <| clears_done := done_ |>
          <| stops_waiting := stops |> <| stopped := st |>).
Proof.
  intros Hs Hr Hc Hp Ha Ht Hw Hd Hst. split; simpl; rewrite ?Hc, ?Hp, ?Ha, ?Ht; try done.
  - apply (sy_active s Hs).
  - intros t g Hg. split; [by apply (Hw t) | by left].
  - intros cl Hcl. destruct (Hd cl Hcl). split; [done |]. split; [by left | done].
  - intros Hn. apply Hst. by left.
  - intros Hn. destruct Hst as [? ?]; [by right |]. done.
Qed.

Lemma sync_waiting_bound s t g : sync s -> (t, g) ∈ clears_waiting s -> (g <= generation s)%nat.
Proof. intros Hs Hg. by apply (sy_waiting s Hs) in Hg as [? _]. Qed.

Lemma sync_done_bound s cl : sync s -> cl ∈ clears_done s ->
  (cl_generation cl <= generation s)%nat /\
  forall inv, inv ∈ in_flight s -> (iv_generation inv <= cl_generation cl)%nat ->
    cl_inside cl = Some (iv_thread inv).
Proof. intros Hs Hcl. by apply (sy_done s Hs) in Hcl as (? & _ & ?). Qed.

Lemma sync_stops_closed s : sync s -> stops_waiting s <> [] \/ stopped s = true ->
  events_open_ (channel s) = false /\ callback_registration_open_ (channel s) = false.
Proof.
  intros Hs [H | H]; [by apply (sy_stops s Hs) | by destruct (sy_stopped s Hs H) as (? & ? & _)].
Qed.

(** A call that need not wait is made by the callback in flight, if any is. *)
Lemma sync_inside s thread c inv :
  sync s -> callback_active_ c = callback_active_ (channel s) ->
  callback_thread_ c = callback_thread_ (channel s) ->
  callback_active_ (channel s) && negb (bool_decide (callback_thread_ (channel s) = Some thread))
    = false ->
  inv ∈ in_flight s ->
  (if IsCallbackThread thread c then Some thread else None) = Some (iv_thread inv).
Proof.
  intros Hs Ha Ht E Hin. unfold IsCallbackThread. rewrite Ha, Ht.
  destruct (sy_active s Hs) as [[Hf _] | (inv' & Hf & Ha' & Ht' & _)]; rewrite Hf in Hin;
    [set_solver |]. apply list_elem_of_singleton in Hin as ->.
  rewrite Ha', Ht' in *. simpl in *. apply negb_false_iff, bool_decide_eq_true in E.
  injection E as ->. by rewrite bool_decide_true.
Qed.

Lemma sync_ClearCallback thread s c waits :
  sync s -> ClearCallback thread (channel s) = (c, waits) ->
  sync (if waits : bool then
      s <| channel := c |> <| clears_waiting := (thread, generation s) :: clears_waiting s |>
    else
      s <| channel := c |>
        <| clears_done := {| cl_generation := generation s;
             cl_inside := if IsCallbackThread thread c then Some thread else None |}
             :: clears_done s |>).
Proof.
  intros Hs [= <- <-]. set (c := (channel s) <| callback_ := 0 |> <| callback_user_data_ := 0 |>
    <| callback_pending_ := false |>).
  assert (Hr : ring_ok c) by (apply (ring_ok_view (channel s)); [done | apply (sy_ring s Hs)]).
  destruct (callback_active_ (channel s) && _) eqn:E.
  - apply (sync_cleared s c ((thread, generation s) :: clears_waiting s) (clears_done s)
      (stops_waiting s) (stopped s)); try done.
    + intros t g [[= -> ->] | Hg]%list.elem_of_cons; [done | by apply (sync_waiting_bound s t)].
    + intros cl. by apply sync_done_bound.
    + by apply sync_stops_closed.
  - apply (sync_cleared s c (clears_waiting s) (_ :: clears_done s)
      (stops_waiting s) (stopped s)); try done.
    + intros t g. by apply sync_waiting_bound.
    + intros cl [-> | Hcl]%list.elem_of_cons; [| by apply sync_done_bound]. split; [done |].
      intros inv Hin _. by apply (sync_inside s).
    + by apply sync_stops_closed.
Qed.

Lemma sync_ClearWoken thread g waiting s :
  sync s -> clears_waiting s ≡ₚ (thread, g) :: waiting -> callback_active_ (channel s) = false ->
  sync (s <| clears_waiting := waiting |>
          <| clears_done := {| cl_generation := g; cl_inside := None |} :: clears_done s |>).
Proof.
  intros Hs Hw Ha. assert (Hsub : forall x, x ∈ waiting -> x ∈ clears_waiting s).
  { intros x Hx. rewrite Hw. by right. }
  split; simpl; try apply Hs.
  - intros t g' Hg. apply (sy_waiting s Hs t). by apply Hsub.
  - intros cl [-> | Hcl]%list.elem_of_cons; [| by apply (sy_done s Hs)]. simpl.
    destruct (sy_waiting s Hs thread g) as [? ?]; [rewrite Hw; by left |].
    split; [done |]. split; [done |]. rewrite (sync_idle s Hs Ha). set_solver.
Qed.

Lemma sync_closed s c stops :
  sync s -> registration_view c = (callback_ (channel s), false, false) ->
  (ring_view c, callback_active_ c, callback_thread_ c, callback_pending_ c)
  = (ring_view (channel s), callback_active_ (channel s), callback_thread_ (channel s),
     callback_pending_ (channel s)) ->
  sync (s <| channel := c |> <| stops_waiting := stops |>).
Proof.
  intros Hs Hv1 Hv2. unfold registration_view in *. injection Hv1 as H1 H2 H3.
  injection Hv2 as H4 H5 H6 H7 H8 H9. split; simpl; rewrite ?H1, ?H2, ?H3, ?H6, ?H7, ?H8, ?H9; try done;
    try apply Hs.
  - apply (ring_ok_view (channel s)); [unfold ring_view; congruence | apply (sy_ring s Hs)].
  - intros H. by destruct (sy_stopped s Hs H) as (_ & _ & ?).
Qed.

Lemma sync_BeginShutdown s : sync s -> sync (s <| channel := BeginShutdown (channel s) |>).
Proof.
  intros Hs. split; simpl; try apply Hs.
  - apply (ring_ok_view (channel s)); [done | apply (sy_ring s Hs)].
  - intros H. by destruct (sy_stops s Hs H).
  - intros H. by destruct (sy_stopped s Hs H) as (? & _ & ?).
Qed.

Lemma sync_FinishShutdown thread s c waits :
  sync s -> FinishShutdownEnter thread (channel s) = (c, waits) ->
  sync (if waits : bool then
      s <| channel := c |> <| stops_waiting := thread :: stops_waiting s |>
    else
      s <| channel := FinishShutdownExit c |> <| stopped := true |>
        <| clears_done := {| cl_generation := generation s;
             cl_inside := if IsCallbackThread thread c then Some thread else None |}
             :: clears_done s |>).
Proof.
  intros Hs [= <- <-]. destruct (callback_active_ (channel s) && _) eqn:E.
  - by apply sync_closed.
  - apply (sync_cleared s _ (clears_waiting s) (_ :: clears_done s) (stops_waiting s) true); try done.
    + apply (ring_ok_view (channel s)); [done | apply (sy_ring s Hs)].
    + intros t g. by apply sync_waiting_bound.
    + intros cl [-> | Hcl]%list.elem_of_cons; [| by apply sync_done_bound]. split; [done |].
      intros inv Hin _. by apply (sync_inside s).
Qed.

Lemma sync_FinishWoken thread waiting s :
  sync s -> stops_waiting s ≡ₚ thread :: waiting -> callback_active_ (channel s) = false ->
  sync (s <| channel := FinishShutdownExit (channel s) |> <| stops_waiting := waiting |>
          <| stopped := true |>
          <| clears_done :=
               {| cl_generation := generation s; cl_inside := None |} :: clears_done s |>).
Proof.
  intros Hs Hw Ha. apply (sync_cleared s _ (clears_waiting s) (_ :: clears_done s) waiting true); try done.
  - apply (ring_ok_view (channel s)); [done | apply (sy_ring s Hs)].
  - intros t g. by apply sync_waiting_bound.
  - intros cl [-> | Hcl]%list.elem_of_cons; [| by apply sync_done_bound]. split; [done |].
    rewrite (sync_idle s Hs Ha). set_solver.
  - intros _. apply (sy_stops s Hs). intros E. rewrite E in Hw. by apply Permutation_nil_cons in Hw.
Qed.

Lemma sync_CallbackReturned thread inv rest s c target :
  sync s -> in_flight s ≡ₚ inv :: rest ->
  CallbackReturned thread (channel s) = (c, target) ->
  sync (invoke thread target (s <| channel := c |> <| in_flight := rest |>)).
Proof.
  intros Hs Hf. assert (Hrest : rest = []).
  { destruct (sy_active s Hs) as [[E _] | (inv' & E & _)]; rewrite E in Hf.
    - by apply Permutation_nil_cons in Hf.
    - apply Permutation_length_1_inv in Hf. congruence. }
  subst rest. unfold CallbackReturned. cbv zeta. simpl callback_pending_.
  set (c0 := (channel s) <| callback_active_ := false |> <| callback_thread_ := None |>).
  assert (Hr : ring_ok c0) by (apply (ring_ok_view (channel s)); [done | apply (sy_ring s Hs)]).
  assert (H0 : forall w, (size_ c0 <> 0%nat -> callback_ c0 <> 0 -> w = true) ->
    sync (s <| channel := c0 <| callback_pending_ := false |> |> <| in_flight := [] |>
            <| woken := w |>)).
  { intros w Hw. split; simpl; try done; try apply Hs.
    - by apply (ring_ok_view c0).
    - by left.
    - intros ? ?. left. by apply Hw.
    - intros cl Hcl. destruct (sy_done s Hs cl Hcl) as (? & ? & _). repeat split; auto. set_solver. }
  destruct (callback_pending_ (channel s)) eqn:Ep.
  - unfold PrepareCallbackLocked. simpl. rewrite orb_false_r.
    destruct (Z.eqb_spec (callback_ (channel s)) 0) as [Ec | Ec]; intros [= <- <-].
    + rewrite invoke_default.
      by apply (H0 (woken s)).
    + refine (sync_enter thread
        {| ct_callback := callback_ (channel s); ct_user_data := callback_user_data_ (channel s) |}
        (c0 <| callback_pending_ := false |> <| callback_active_ := true |>
            <| callback_thread_ := Some thread |>) (woken s)
        (s <| channel := c0 <| callback_pending_ := false |> |> <| in_flight := [] |>
           <| woken := true |>) _ _ _ _ _ _ _ _ _); try done.
      * by apply H0.
      * by apply (ring_ok_view c0).
  - intros [= <- <-]. rewrite invoke_default.
    assert (Ec : c0 = c0 <| callback_pending_ := false |>).
    { unfold c0. revert Ep. by destruct (channel s); simpl; intros ->. }
    rewrite Ec. apply (H0 (woken s)). intros Hz Hc. destruct (sy_woken s Hs Hz Hc); congruence.
Qed.

Lemma system_step_sync s s' : system_step s s' -> sync s -> sync s'.
Proof.
  intros [] Hs; eauto using sync_Enqueue, sync_Poll, sync_SetCallback, sync_ClearCallback,
    sync_ClearWoken, sync_BeginShutdown, sync_FinishShutdown, sync_FinishWoken,
    sync_CallbackReturned.
Qed.

Lemma rtc_sync s s' : rtc system_step s s' -> sync s -> sync s'.
Proof. induction 1; eauto using system_step_sync. Qed.

Lemma reachable_sync s : system_reachable s -> sync s.
Proof. intros H. apply (rtc_sync system_initial); [done | apply sync_initial]. Qed.

Lemma system_step_clears_done s s' : system_step s s' -> clears_done s ⊆ clears_done s'.
Proof.
  intros []; simpl; try done; try (unfold invoke; by destruct (_ =? _)); try set_solver.
  - destruct (decide _); [| done]. unfold invoke. by destruct (_ =? _).
  - destruct waits; simpl; set_solver.
  - destruct waits; simpl; set_solver.
Qed.

(** After the shutdown no callback is entered. *)
Lemma system_step_stopped s s' : system_step s s' -> sync s ->
  stopped s = true -> stopped s' = true /\ in_flight s' ⊆ in_flight s.
Proof.
  intros Hstep Hs Hst. destruct (sy_stopped s Hs Hst) as (Ho & Hr & Hc).
  destruct Hstep as [thread event s c target E | s | thread cb ud s c target status Hn E
    | thread s c waits E | | s | thread s c waits E | | thread inv rest s c target Hp _ E];
    simpl; try done.
  - unfold Enqueue in E. rewrite Ho in E. injection E as <- <-. by rewrite invoke_default.
  - unfold SetCallback in E. rewrite Hr in E. injection E as <- <- <-. by rewrite decide_False.
  - by destruct waits.
  - by destruct waits.
  - assert (Ht : target = CallbackTarget_default).
    { revert E. unfold CallbackReturned, PrepareCallbackLocked. simpl. rewrite Hc.
      by destruct (callback_pending_ (channel s)); intros [= _ <-]. }
    subst target. rewrite invoke_default. simpl. split; [done |]. intros x Hx. rewrite Hp. by right.
Qed.

Lemma rtc_stopped s s' : rtc system_step s s' -> sync s ->
  stopped s = true -> in_flight s' ⊆ in_flight s.
Proof.
  induction 1 as [| s s1 s' H1 _ IH]; [done |]. intros Hs Hst.
  destruct (system_step_stopped s s1 H1 Hs Hst). etransitivity; [apply IH |]; eauto using system_step_sync.
Qed.

Lemma rtc_clears_done s s' : rtc system_step s s' -> clears_done s ⊆ clears_done s'.
Proof. induction 1 as [| s s1 s' H1 _ IH]; [done |]. apply system_step_clears_done in H1. set_solver. Qed.

(** Callbacks are serialised and clearing is a barrier: at any moment at most
    one callback runs; once a call that cleared the callback or shut the
    channel down has returned, no callback of that or an earlier registration
    runs any more, then or later, but the one that made the call itself, so its
    user data may be freed; and after a shutdown no callback is entered. *)
Theorem clearing_is_a_barrier s s' : system_reachable s -> rtc system_step s s' ->
  (length (in_flight s) <= 1)%nat /\
  (forall cl inv, cl ∈ clears_done s -> inv ∈ in_flight s' ->
     (iv_generation inv <= cl_generation cl)%nat -> cl_inside cl = Some (iv_thread inv)) /\
  (stopped s = true -> in_flight s' ⊆ in_flight s).
Proof.
  intros H%reachable_sync Hr. split; [| split].
  - destruct (sy_active s H) as [[-> _] | (inv & -> & _)]; simpl; lia.
  - intros cl inv Hcl Hin Hle. apply (rtc_clears_done _ _ Hr) in Hcl.
    destruct (sy_done s' (rtc_sync _ _ Hr H) cl Hcl) as (_ & _ & Hd). by apply Hd.
  - by apply rtc_stopped.
Qed.

(** No wakeup is lost: whenever an event is queued and a callback is
    registered, the callback has been entered since the queue was last empty
    and the callback was registered, or one is running and will be entered
    again when it returns. *)
Theorem no_lost_wakeup s : system_reachable s ->
  size_ (channel s) <> 0%nat -> callback_ (channel s) <> 0 ->
  woken s = true \/
  (callback_pending_ (channel s) = true /\ exists inv, in_flight s = [inv]).
Proof.
  intros H%reachable_sync Hz Hc. destruct (sy_woken s H Hz Hc) as [? | Hp]; [by left |]. right.
  split; [done |]. apply (sy_pending s H) in Hp.
  destruct (sy_active s H) as [[_ ?] | (inv & ? & _)]; [congruence | by exists inv].
Qed.

(** ** The end of the shutdown's wait *)

(** The callback in flight returns. *)
Definition callback_returns (s s' : system) : Prop :=
  exists inv c target, in_flight s = [inv] /\
    CallbackReturned (iv_thread inv) (channel s) = (c, target) /\
    s' = invoke (iv_thread inv) target (s <| channel := c |> <| in_flight := [] |>).

Lemma callback_returns_step s s' : callback_returns s s' -> system_step s s'.
Proof. intros (inv & c & target & Hf & E & ->). econstructor; [by rewrite Hf | done | done]. Qed.

(** A run in which, among other steps, a callback returns [n] times. *)
Inductive run_returning : nat -> system -> system -> Prop :=
  | RunNil s : run_returning 0 s s
  | RunStep n s s1 s' : system_step s s1 -> run_returning n s1 s' -> run_returning n s s'
  | RunReturn n s s1 s' : callback_returns s s1 -> run_returning n s1 s' ->
      run_returning (S n) s s'.

(** The callbacks still due once events and registration are closed. *)
Definition due (s : system) : nat :=
  (if callback_active_ (channel s) then 1 else 0) + (if callback_pending_ (channel s) then 1 else 0).

Definition closed (s : system) : Prop :=
  events_open_ (channel s) = false /\ callback_registration_open_ (channel s) = false.

Lemma CallbackReturned_due thread c :
  let c' := (CallbackReturned thread c).1 in
  (events_open_ c', callback_registration_open_ c') = (events_open_ c, callback_registration_open_ c) /\
  callback_pending_ c' = false /\
  (callback_active_ c' = true -> callback_pending_ c = true).
Proof.
  unfold CallbackReturned, PrepareCallbackLocked. simpl.
  destruct (callback_pending_ c) eqn:E; simpl; [| by rewrite E].
  by rewrite orb_false_r; destruct (callback_ c =? 0).
Qed.

Lemma invoke_channel thread target s : channel (invoke thread target s) = channel s.
Proof. unfold invoke. by destruct (_ =? _). Qed.

Lemma CallbackReturned_closed thread target c s s' :
  closed s -> CallbackReturned thread (channel s) = (c, target) -> channel s' = c ->
  closed s' /\ (due s' <= (if callback_pending_ (channel s) then 1 else 0))%nat.
Proof.
  intros [Ho Hr] E Hc. destruct (CallbackReturned_due thread (channel s)) as (H1 & H2 & H3).
  rewrite E in *. cbn [fst] in *. injection H1 as H4 H5. unfold closed, due. rewrite Hc, H2, H4, H5.
  split; [done |]. destruct (callback_active_ c); [by rewrite H3 | destruct (callback_pending_ _); simpl; lia].
Qed.

Lemma callback_returns_due s s' : sync s -> closed s -> callback_returns s s' ->
  closed s' /\ (S (due s') <= due s)%nat.
Proof.
  intros Hs Hcl (inv & c & target & Hf & E & ->).
  destruct (CallbackReturned_closed _ _ _ _
    (invoke (iv_thread inv) target (s <| channel := c |> <| in_flight := [] |>)) Hcl E) as [? Hd];
    [by rewrite invoke_channel |]. split; [done |]. unfold due at 2.
  destruct (sy_active s Hs) as [[Hf' _] | (_ & _ & -> & _)]; [congruence |]. lia.
Qed.

Lemma system_step_due s s' : system_step s s' -> sync s -> closed s ->
  closed s' /\ (due s' <= due s)%nat.
Proof.
  intros Hstep Hs Hcl. pose proof Hcl as [Ho Hr].
  destruct Hstep as [thread event s c target E | s | thread cb ud s c target status Hn E
    | thread s c waits E | thread g waiting s Hw Ha | s | thread s c waits E | thread waiting s Hw Ha
    | thread inv rest s c target Hp _ E].
  - unfold Enqueue in E. rewrite Ho in E. injection E as <- <-. by rewrite invoke_default.
  - unfold Poll. by destruct (Nat.eqb _ _).
  - unfold SetCallback in E. rewrite Hr in E. injection E as <- <- <-. by rewrite decide_False.
  - injection E as <- <-. destruct (_ && _); (split; [done |]); unfold due; simpl; lia.
  - done.
  - by split.
  - injection E as <- <-. destruct (_ && _); (split; [done |]); unfold due; simpl; lia.
  - split; [done |]. unfold due. simpl. lia.
  - destruct (CallbackReturned_closed _ _ _ _
      (invoke thread target (s <| channel := c |> <| in_flight := rest |>)) Hcl E) as [? Hd];
      [by rewrite invoke_channel |]. split; [done |]. etransitivity; [exact Hd |]. unfold due. lia.
Qed.

Lemma run_returning_due n s s' : run_returning n s s' -> sync s -> closed s ->
  sync s' /\ (n + due s' <= due s)%nat.
Proof.
  induction 1 as [| n s s1 s' H1 _ IH | n s s1 s' H1 _ IH]; intros Hs Hc; [done | |].
  - destruct (system_step_due s s1 H1 Hs Hc) as [Hc1 ?].
    destruct IH as [? ?]; eauto using system_step_sync. split; [done | lia].
  - destruct (callback_returns_due s s1 Hs Hc H1) as [Hc1 ?]. apply callback_returns_step in H1.
    destruct IH as [? ?]; eauto using system_step_sync. split; [done | lia].
Qed.

(** The shutdown's wait ends: once a call waits in the shutdown, whatever the
    other threads do, callbacks return at most twice before none is active,
    and as long as one is active it is in flight and its return is the step
    that brings the wait nearer to its end. *)
Theorem shutdown_wait_ends s n s' :
  system_reachable s -> stops_waiting s <> [] -> run_returning n s s' ->
  (n <= 2)%nat /\
  (n = 2%nat -> callback_active_ (channel s') = false) /\
  (callback_active_ (channel s') = true -> exists s1, callback_returns s' s1).
Proof.
  intros H%reachable_sync Hst Hrun.
  destruct (run_returning_due n s s' Hrun H (sy_stops s H Hst)) as [Hs' Hd].
  assert (Hle : (due s <= 2)%nat) by
    (unfold due; destruct (callback_active_ (channel s)), (callback_pending_ (channel s)); simpl; lia).
  split; [lia |]. split.
  - intros ->. unfold due in Hd at 1. destruct (callback_active_ (channel s')); [lia | done].
  - intros Ha. destruct (sy_active s' Hs') as [[_ ?] | (inv & Hf & _)]; [congruence |].
    destruct (CallbackReturned (iv_thread inv) (channel s')) as [c target] eqn:E.
    by eexists _, inv, c, target.
Qed.

(** ** Examples *)

Module EventChannelExample.

(** Thread 1 registers a callback, thread 2 queues an event and enters it,
    thread 3 clears it and waits, the callback returns, thread 3 returns. *)
Definition registered : system :=
  let '(c, _, _) := SetCallback 1 7 8 EventChannel_initial in
  system_initial <| channel := c |> <| generation := 1%nat |>.

Definition notified : system :=
  let '(c, target) := Enqueue 2 (make_event EventType.kTransferChanged 1 [1; 2; 3]) (channel registered) in
  invoke 2 target (registered <| channel := c |>).

Definition clearing_waits : system :=
  let '(c, _) := ClearCallback 3 (channel notified) in
  notified <| channel := c |> <| clears_waiting := [(3, 1)%nat] |>.

Definition callback_left : system :=
  let '(c, target) := CallbackReturned 2 (channel clearing_waits) in
  invoke 2 target (clearing_waits <| channel := c |> <| in_flight := [] |>).

Definition cleared : system :=
  callback_left <| clears_waiting := [] |>
    <| clears_done := [{| cl_generation := 1; cl_inside := None |}] |>.

Definition stopping : system :=
  let '(c, _) := FinishShutdownEnter 3 (channel notified) in
  notified <| channel := c |> <| stops_waiting := [3%nat] |>.

Definition stop_callback_left : system :=
  let '(c, target) := CallbackReturned 2 (channel stopping) in
  invoke 2 target (stopping <| channel := c |> <| in_flight := [] |>).

Lemma step_registered : system_step system_initial registered.
Proof.
  apply (StepSetCallback 1 7 8 system_initial (channel registered) CallbackTarget_default kOk);
    [done | by vm_compute].
Qed.

Lemma step_notified : system_step registered notified.
Proof.
  apply (StepEnqueue 2 (make_event EventType.kTransferChanged 1 [1; 2; 3]) registered
    (channel notified) {| ct_callback := 7; ct_user_data := 8 |}). by vm_compute.
Qed.

Lemma reachable_notified : system_reachable notified.
Proof. eapply rtc_l; [apply step_registered |]. eapply rtc_once, step_notified. Qed.

Lemma reachable_cleared : system_reachable cleared.
Proof.
  refine (transitivity (R := rtc system_step) (y := notified) _ _); [apply reachable_notified |].
  eapply rtc_l; [by apply (StepClearCallback 3 notified (channel clearing_waits) true); vm_compute |].
  eapply rtc_l.
  { apply (StepCallbackReturned 2 {| iv_thread := 2;
      iv_target := {| ct_callback := 7; ct_user_data := 8 |}; iv_generation := 1 |} []
      clearing_waits (channel callback_left) CallbackTarget_default); by vm_compute. }
  apply rtc_once. by apply (StepClearWoken 3 1 [] callback_left); vm_compute.
Qed.

Lemma clearing_is_a_barrier_witness :
  (length (in_flight cleared) <= 1)%nat /\
  (forall cl inv, cl ∈ clears_done cleared -> inv ∈ in_flight cleared ->
     (iv_generation inv <= cl_generation cl)%nat -> cl_inside cl = Some (iv_thread inv)) /\
  (stopped cleared = true -> in_flight cleared ⊆ in_flight cleared).
Proof. exact (clearing_is_a_barrier cleared cleared reachable_cleared (rtc_refl _ _)). Defined.

Lemma no_lost_wakeup_witness :
  woken notified = true \/
  (callback_pending_ (channel notified) = true /\ exists inv, in_flight notified = [inv]).
Proof. apply (no_lost_wakeup notified reachable_notified); by vm_compute. Defined.

Lemma reachable_stopping : system_reachable stopping.
Proof.
  refine (transitivity (R := rtc system_step) (y := notified) _ _); [apply reachable_notified |]. apply rtc_once.
  by apply (StepFinishShutdown 3 notified (channel stopping) true); vm_compute.
Qed.

Lemma shutdown_wait_ends_witness :
  (1 <= 2)%nat /\
  (1%nat = 2%nat -> callback_active_ (channel stop_callback_left) = false) /\
  (callback_active_ (channel stop_callback_left) = true ->
     exists s1, callback_returns stop_callback_left s1).
Proof.
  apply (shutdown_wait_ends stopping 1 stop_callback_left reachable_stopping); [done |].
  eapply RunReturn; [| apply RunNil].
  exists {| iv_thread := 2; iv_target := {| ct_callback := 7; ct_user_data := 8 |};
            iv_generation := 1 |}, (channel stop_callback_left), CallbackTarget_default.
  split; [by vm_compute |]. split; by vm_compute.
Defined.

End EventChannelExample.
