(* ===== verification/IdentityCodec.v ===== *)
(** * Records of the identity store

    The types of [include/xnn_transfer/core/security/identity/types.hpp] and the
    canonical records of [native/src/security/identity/codec.cpp]: the root
    record that holds the device's own key, and the record of a paired peer
    with its authenticator.

    A [std::array<std::uint8_t, N>] and a [SecretBuffer] are their bytes; the
    lengths of the arrays are part of the well-formedness of the records.  An
    enumeration with a fixed underlying type that the code compares against its
    enumerators is that integer.  [alloc] says whether the allocations of the
    call succeed: every [std::bad_alloc] is caught where it is thrown. *)

From S2P Require Import Prelude.
From S2P Require Utf8.

Module IdentityTypes.

Definition kEd25519SeedSize : Z := 32.
Definition kEd25519PublicKeySize : Z := 32.
Definition kDeviceIdSize : Z := 32.
Definition kStoreIdSize : Z := 16.
Definition kMacSize : Z := 32.
Definition kMaxDisplayLabelBytes : Z := 96.
Definition kMaxPeerRecords : Z := 256.
Definition kMaxPeerTombstones : Z := 8.
Definition kMaxProtectedItemPayloadSize : Z := 2048.
Definition kMaxProtectedItemIdBytes : Z := 128.

Module TrustState.
Definition kActive : Z := 1.
Definition kRevoked : Z := 2.
End TrustState.

Record PeerRecord := {
  public_key : bytes;
  device_id : bytes;
  security_profile : Z;
  trust_state : Z;
  rotation_counter : Z;
  record_revision : Z;
  display_label : bytes;
  tombstones : list bytes;
}.

#[global] Instance eta_PeerRecord : Eta PeerRecord := fun x =>
  {| public_key := public_key x; device_id := device_id x; security_profile := security_profile x;
     trust_state := trust_state x; rotation_counter := rotation_counter x;
     record_revision := record_revision x; display_label := display_label x;
     tombstones := tombstones x |}.

Inductive ErrorCode :=
  | kNone
  | kInvalidArgument
  | kInvalidState
  | kNotFound
  | kStorageLocked
  | kStorageUnavailable
  | kPermissionDenied
  | kRevisionConflict
  | kCorruptRecord
  | kUnsupportedSchema
  | kRollbackDetected
  | kIdentityLoss
  | kCapacityExceeded
  | kEntropyFailure
  | kCryptoFailure.

#[global] Instance error_code_eq_dec : EqDecision ErrorCode.
Proof. solve_decision. Defined.

(** [Result<T>]: the variant of a value and an error. *)
Inductive Result (T : Type) :=
  | Success (value : T)
  | Failure (error : ErrorCode).

#[global] Arguments Success {T} _.
#[global] Arguments Failure {T} _.

Definition ok {T} (r : Result T) : bool := match r with Success _ => true | Failure _ => false end.
Definition error {T} (r : Result T) : ErrorCode :=
  match r with Success _ => kNone | Failure e => e end.

End IdentityTypes.

Module IdentityCodec.
Import IdentityTypes.

Definition kMagic : bytes := [88; 78; 78; 73].
Definition kCanonicalVersion : Z := 1.
Definition kRootKind : Z := 1.
Definition kPeerKind : Z := 2.
Definition kPeerMacInputKind : Z := 3.
Definition kEnvelopeSize : Z := 12.
Definition kFieldHeaderSize : Z := 6.
Definition kMaxFields : Z := 12.

Record RootRecord := {
  revision : Z;
  seed : bytes;
  root_public_key : bytes;
  root_device_id : bytes;
  root_store_id : bytes;
  retired_store_id : option bytes;
}.

Record StoredPeerRecord := {
  store_id : bytes;
  record_id : bytes;
  peer_root_device_id : bytes;
  peer : PeerRecord;
  authenticator : bytes;
}.

#[global] Instance eta_RootRecord : Eta RootRecord := fun x =>
  {| revision := revision x; seed := seed x; root_public_key := root_public_key x;
     root_device_id := root_device_id x; root_store_id := root_store_id x;
     retired_store_id := retired_store_id x |}.

#[global] Instance eta_StoredPeerRecord : Eta StoredPeerRecord := fun x =>
  {| store_id := store_id x; record_id := record_id x;
     peer_root_device_id := peer_root_device_id x; peer := peer x;
     authenticator := authenticator x |}.

(** A field of a record, read ([FieldView]) or to be written ([FieldSpec]). *)
Record FieldView := {
  fv_id : Z;
  fv_value : bytes;
}.

(** [ParsedRecord]: the fields read, the array cut at [field_count]. *)
Definition ParsedRecord := list FieldView.

Definition field (parsed : ParsedRecord) (index : nat) : FieldView :=
  nth index parsed {| fv_id := 0; fv_value := [] |}.

(** ** Integers and text *)

Definition ReadU16 (l : bytes) : Z := u16 (Z.lor (Z.shiftl (at_ l 0) 8) (at_ l 1)).
Definition ReadU32 (l : bytes) : Z := be_read 32 (take 4 l).
Definition ReadU64 (l : bytes) : Z := be_read 64 (take 8 l).

Definition WriteU16 (output : bytes) (offset value : Z) : bytes :=
  write_at output offset (be_bytes 2 value).
Definition WriteU32 (output : bytes) (offset value : Z) : bytes :=
  write_at output offset (be_bytes 4 value).
Definition WriteU64 (output : bytes) (value : Z) : bytes :=
  write_at output 0 (be_bytes 8 value).

(** The codec has its own copy of the validator of the protocol parser. *)
Definition IsUnicodeNoncharacter (code_point : Z) : bool := Utf8.IsUnicodeNoncharacter code_point.
Definition IsContinuation (value : Z) : bool := Utf8.IsContinuation value.
Definition IsValidUtf8 (value : bytes) : bool := Utf8.IsValidUtf8 value.

(** ** Reading a record *)

(** The loop over the fields; [rest] is [encoded] from [offset] on.  The fields
    read and what is left after the last one. *)
Fixpoint ParseRecord_loop (remaining : nat) (index : nat) (previous_id : Z) (rest : bytes)
    : option (list FieldView * bytes) :=
  match remaining with
  | O => Some ([], rest)
  | S remaining =>
      if bsize rest <? kFieldHeaderSize then None
      else
      let id := ReadU16 (subspan rest 0 2) in
      let value_length := ReadU32 (subspan rest 2 4) in
      let rest := drop 6 rest in
      if (id =? 0) || (negb (Nat.eqb index 0) && (id <=? previous_id)) ||
         (value_length >? bsize rest) then None
      else
        match ParseRecord_loop remaining (S index) id (drop (Z.to_nat value_length) rest) with
        | None => None
        | Some (fields, rest') =>
            Some ({| fv_id := id; fv_value := subspan rest 0 value_length |} :: fields, rest')
        end
  end.

Definition ParseRecord (encoded : bytes) (expected_kind : Z) : Result ParsedRecord :=
  if bsize encoded >? kMaxProtectedItemPayloadSize then Failure kCapacityExceeded
  else if (bsize encoded <? kEnvelopeSize) || negb (same_bytes kMagic (take 4 encoded)) then
    Failure kCorruptRecord
  else if negb (at_ encoded 4 =? kCanonicalVersion) then Failure kUnsupportedSchema
  else if negb (at_ encoded 5 =? expected_kind) then Failure kCorruptRecord
  else
  let field_count := ReadU16 (subspan encoded 6 2) in
  let body_length := ReadU32 (subspan encoded 8 4) in
  if (field_count >? kMaxFields) || negb (body_length =? bsize encoded - kEnvelopeSize) then
    Failure kCorruptRecord
  else
  match ParseRecord_loop (Z.to_nat field_count) 0 0 (drop (Z.to_nat kEnvelopeSize) encoded) with
  | None => Failure kCorruptRecord
  | Some (parsed, rest) =>
      if negb (bsize rest =? 0) then Failure kCorruptRecord else Success parsed
  end.

Definition HasExactFields (parsed : ParsedRecord) (expected : list Z) : bool :=
  if negb (Nat.eqb (length parsed) (length expected)) then false
  else bool_decide (List.map fv_id parsed = expected).

(** ** Writing a record *)

Fixpoint EncodedRecordSize_loop (fields : list FieldView) (body_size : Z) : Result Z :=
  match fields with
  | [] => Success body_size
  | f :: fields =>
      if bsize (fv_value f) >? umax 32 - kFieldHeaderSize then Failure kCapacityExceeded
      else
      let field_size := kFieldHeaderSize + bsize (fv_value f) in
      if (field_size >? kMaxProtectedItemPayloadSize) ||
         (body_size >? kMaxProtectedItemPayloadSize - field_size) then Failure kCapacityExceeded
      else EncodedRecordSize_loop fields (body_size + field_size)
  end.

Definition EncodedRecordSize (fields : list FieldView) : Result Z :=
  match EncodedRecordSize_loop fields 0 with
  | Failure e => Failure e
  | Success body_size =>
      if body_size >? kMaxProtectedItemPayloadSize - kEnvelopeSize then Failure kCapacityExceeded
      else Success (kEnvelopeSize + body_size)
  end.

Fixpoint WriteRecord_loop (fields : list FieldView) (offset : Z) (output : bytes) : bytes :=
  match fields with
  | [] => output
  | f :: fields =>
      let output := WriteU16 output offset (fv_id f) in
      let output := WriteU32 output (offset + 2) (u32 (bsize (fv_value f))) in
      let offset := offset + kFieldHeaderSize in
      let output := write_at output offset (fv_value f) in
      WriteRecord_loop fields (offset + bsize (fv_value f)) output
  end.

(** [WriteRecord]: the contents of the caller's buffer afterwards. *)
Definition WriteRecord (kind : Z) (fields : list FieldView) (output : bytes) : Result bytes :=
  match EncodedRecordSize fields with
  | Failure e => Failure e
  | Success size =>
      if negb (size =? bsize output) || (Z.of_nat (length fields) >? umax 16) then
        Failure kInvalidArgument
      else
      let output := write_at output 0 kMagic in
      let output := write_at output 4 [kCanonicalVersion] in
      let output := write_at output 5 [kind] in
      let output := WriteU16 output 6 (u16 (Z.of_nat (length fields))) in
      let output := WriteU32 output 8 (u32 (bsize output - kEnvelopeSize)) in
      Success (WriteRecord_loop fields kEnvelopeSize output)
  end.

(** A [SecretBuffer] of zeroes of the size the fields need, written to. *)
Definition EncodeFields (alloc : bool) (kind : Z) (fields : list FieldView) : Result bytes :=
  match EncodedRecordSize fields with
  | Failure e => Failure e
  | Success size =>
      if negb alloc then Failure kCapacityExceeded
      else WriteRecord kind fields (repeat 0 (Z.to_nat size))
  end.

(** ** The root record *)

Definition all_zero (l : bytes) : bool := forallb (fun byte => byte =? 0) l.

Definition spec (id : Z) (value : bytes) : FieldView := {| fv_id := id; fv_value := value |}.

Definition EncodeRootRecord (alloc : bool) (record : RootRecord) : Result bytes :=
  let invalid_retired_store :=
    match retired_store_id record with
    | None => false
    | Some id => same_bytes id (root_store_id record) || all_zero id
    end in
  if (revision record =? 0) || negb (bsize (seed record) =? kEd25519SeedSize) ||
     invalid_retired_store then
    Failure (if negb (bsize (seed record) =? kEd25519SeedSize) then kIdentityLoss
             else kInvalidArgument)
  else
  let revision_ := WriteU64 (repeat 0 8) (revision record) in
  let fields :=
    [spec 1 (seed record); spec 2 (root_public_key record); spec 3 (root_device_id record);
     spec 4 (root_store_id record); spec 5 revision_] ++
    match retired_store_id record with Some id => [spec 6 id] | None => [] end in
  EncodeFields alloc kRootKind fields.

Definition DecodeRootRecord (alloc : bool) (encoded : bytes) : Result RootRecord :=
  match ParseRecord encoded kRootKind with
  | Failure e => Failure e
  | Success parsed =>
      let has_retired_store := HasExactFields parsed [1; 2; 3; 4; 5; 6] in
      let value i := fv_value (field parsed i) in
      if negb (HasExactFields parsed [1; 2; 3; 4; 5]) && negb has_retired_store then
        let has_seed := negb (Nat.eqb (length parsed) 0) && (fv_id (field parsed 0) =? 1) in
        Failure (if has_seed then kCorruptRecord else kIdentityLoss)
      else if negb (bsize (value 0%nat) =? kEd25519SeedSize) then
        Failure (if bsize (value 0%nat) =? 0 then kIdentityLoss else kCorruptRecord)
      else if negb (bsize (value 1%nat) =? kEd25519PublicKeySize) ||
              negb (bsize (value 2%nat) =? kDeviceIdSize) ||
              negb (bsize (value 3%nat) =? kStoreIdSize) ||
              negb (bsize (value 4%nat) =? 8) ||
              (has_retired_store && negb (bsize (value 5%nat) =? kStoreIdSize)) then
        Failure kCorruptRecord
      else if negb alloc then Failure kCapacityExceeded
      else if has_retired_store && (same_bytes (value 5%nat) (value 3%nat) || all_zero (value 5%nat))
      then Failure kCorruptRecord
      else if ReadU64 (value 4%nat) =? 0 then Failure kCorruptRecord
      else
        Success {| revision := ReadU64 (value 4%nat); seed := value 0%nat;
                   root_public_key := value 1%nat; root_device_id := value 2%nat;
                   root_store_id := value 3%nat;
                   retired_store_id := if has_retired_store then Some (value 5%nat) else None |}
  end.

(** ** The peer record *)

(** The check of the tombstones: none is the current key, and none occurs
    before itself. *)
Fixpoint tombstones_ok (public_key : bytes) (before rest : list bytes) : bool :=
  match rest with
  | [] => true
  | tombstone :: rest =>
      if same_bytes tombstone public_key || existsb (same_bytes tombstone) before then false
      else tombstones_ok public_key (before ++ [tombstone]) rest
  end.

Definition EncodePeer (alloc : bool) (record : StoredPeerRecord) (include_authenticator : bool)
    : Result bytes :=
  let p := peer record in
  let count := Z.of_nat (length (tombstones p)) in
  if (security_profile p =? 0) || (record_revision p =? 0) ||
     (bsize (display_label p) >? kMaxDisplayLabelBytes) || negb (IsValidUtf8 (display_label p)) ||
     (count >? kMaxPeerTombstones) || negb (rotation_counter p =? count) ||
     (negb (trust_state p =? TrustState.kActive) && negb (trust_state p =? TrustState.kRevoked))
  then Failure kInvalidArgument
  else if negb (tombstones_ok (public_key p) [] (tombstones p)) then Failure kInvalidArgument
  else
  let profile := WriteU16 (repeat 0 2) 0 (security_profile p) in
  let state := [u8 (trust_state p)] in
  let rotation := WriteU64 (repeat 0 8) (rotation_counter p) in
  let revision_ := WriteU64 (repeat 0 8) (record_revision p) in
  let tombstones_ := u8 count :: concat (tombstones p) in
  let all_fields :=
    [spec 1 (store_id record); spec 2 (record_id record); spec 3 (peer_root_device_id record);
     spec 4 (public_key p); spec 5 (device_id p); spec 6 profile; spec 7 state; spec 8 rotation;
     spec 9 revision_; spec 10 (display_label p); spec 11 tombstones_;
     spec 12 (authenticator record)] in
  let field_count := if include_authenticator then 12%nat else 11%nat in
  EncodeFields alloc (if include_authenticator then kPeerKind else kPeerMacInputKind)
    (take field_count all_fields).

Definition EncodePeerRecord (alloc : bool) (record : StoredPeerRecord) : Result bytes :=
  EncodePeer alloc record true.
Definition EncodePeerMacInput (alloc : bool) (record : StoredPeerRecord) : Result bytes :=
  EncodePeer alloc record false.

(** The loop over the tombstones; [rest] is the field from [offset] on. *)
Fixpoint DecodePeerRecord_loop (count : nat) (public_key rest : bytes) (tombstones : list bytes)
    : option (list bytes) :=
  match count with
  | O => Some tombstones
  | S count =>
      let tombstone := subspan rest 0 kEd25519PublicKeySize in
      if same_bytes tombstone public_key || existsb (same_bytes tombstone) tombstones then None
      else
        DecodePeerRecord_loop count public_key (drop (Z.to_nat kEd25519PublicKeySize) rest)
          (tombstones ++ [tombstone])
  end.

Definition DecodePeerRecord (alloc : bool) (encoded : bytes) : Result StoredPeerRecord :=
  match ParseRecord encoded kPeerKind with
  | Failure e => Failure e
  | Success parsed =>
      let value i := fv_value (field parsed i) in
      if negb (HasExactFields parsed [1; 2; 3; 4; 5; 6; 7; 8; 9; 10; 11; 12]) ||
         negb (bsize (value 0%nat) =? kStoreIdSize) || negb (bsize (value 1%nat) =? kDeviceIdSize) ||
         negb (bsize (value 2%nat) =? kDeviceIdSize) ||
         negb (bsize (value 3%nat) =? kEd25519PublicKeySize) ||
         negb (bsize (value 4%nat) =? kDeviceIdSize) ||
         negb (bsize (value 5%nat) =? 2) || negb (bsize (value 6%nat) =? 1) ||
         negb (bsize (value 7%nat) =? 8) || negb (bsize (value 8%nat) =? 8) ||
         (bsize (value 9%nat) >? kMaxDisplayLabelBytes) || negb (IsValidUtf8 (value 9%nat)) ||
         (bsize (value 10%nat) =? 0) || negb (bsize (value 11%nat) =? kMacSize) then
        Failure kCorruptRecord
      else
      let profile := ReadU16 (value 5%nat) in
      let raw_state := at_ (value 6%nat) 0 in
      let rotation := ReadU64 (value 7%nat) in
      let revision_ := ReadU64 (value 8%nat) in
      let tombstone_count := at_ (value 10%nat) 0 in
      if (profile =? 0) ||
         (negb (raw_state =? TrustState.kActive) && negb (raw_state =? TrustState.kRevoked)) ||
         (revision_ =? 0) || (tombstone_count >? kMaxPeerTombstones) ||
         negb (rotation =? tombstone_count) ||
         negb (bsize (value 10%nat) =? 1 + tombstone_count * kEd25519PublicKeySize) then
        Failure kCorruptRecord
      else if negb alloc then Failure kCapacityExceeded
      else
      match DecodePeerRecord_loop (Z.to_nat tombstone_count) (value 3%nat)
              (drop 1 (value 10%nat)) [] with
      | None => Failure kCorruptRecord
      | Some tombstones_ =>
          Success
            {| store_id := value 0%nat; record_id := value 1%nat;
               peer_root_device_id := value 2%nat;
               peer := {| public_key := value 3%nat; device_id := value 4%nat;
                          security_profile := profile; trust_state := raw_state;
                          rotation_counter := rotation; record_revision := revision_;
                          display_label := value 9%nat; tombstones := tombstones_ |};
               authenticator := value 11%nat |}
      end
  end.

End IdentityCodec.
