(* ===== verification/FieldBlocks.v ===== *)
(** * Blocks of fields

    The layout shared by the canonical records of the identity store and of the
    security profile: a sequence of fields, each a two-byte id, a four-byte
    length and the value.  The lemmas read one field off the front of a span
    and back. *)

From S2P Require Import Prelude.
From S2P Require Import V1Parser.
From S2P Require Import V1ParserProofs.

(** The bytes of one field and of a block. *)
Definition field_bytes (id : Z) (value : bytes) : bytes :=
  be_bytes 2 id ++ be_bytes 4 (bsize value) ++ value.

Definition block_bytes (fields : list (Z * bytes)) : bytes :=
  concat (List.map (fun f => field_bytes f.1 f.2) fields).

(** The ids are positive and increase strictly. *)
Fixpoint ids_above (previous : Z) (fields : list (Z * bytes)) : Prop :=
  match fields with
  | [] => True
  | f :: fields => previous < f.1 /\ ids_above f.1 fields
  end.

(** A field that has an encoding. *)
Definition wf_field (f : Z * bytes) : Prop :=
  in_width 16 f.1 /\ in_width 32 (bsize f.2) /\ all_bytes f.2.

Lemma bsize_field_bytes id value : bsize (field_bytes id value) = 6 + bsize value.
Proof. unfold field_bytes. rewrite !bsize_app, !bsize_be_bytes. lia. Qed.

Lemma all_bytes_field id value : all_bytes value -> all_bytes (field_bytes id value).
Proof. intros. unfold field_bytes. rewrite !all_bytes_app. auto with xnn. Qed.

Lemma block_bytes_cons f fields :
  block_bytes (f :: fields) = field_bytes f.1 f.2 ++ block_bytes fields.
Proof. done. Qed.

Lemma all_bytes_block fields : Forall wf_field fields -> all_bytes (block_bytes fields).
Proof.
  induction 1 as [| f fields (_ & _ & Hf) _ IH]; [constructor |].
  rewrite block_bytes_cons, all_bytes_app. split; [by apply all_bytes_field | done].
Qed.

(** The head of a field. *)
Lemma field_head id value tail :
  in_width 16 id -> in_width 32 (bsize value) ->
  let l := field_bytes id value ++ tail in
  ReadU16 (subspan l 0 2) = id /\ ReadU32 (subspan l 2 4) = bsize value /\
  drop 6 l = value ++ tail.
Proof.
  intros Hid Hv. cbv zeta. unfold field_bytes. rewrite <- !app_assoc.
  change (drop 6 (be_bytes 2 id ++ be_bytes 4 (bsize value) ++ value ++ tail))
    with (value ++ tail).
  split; [| split; [| done]].
  - rewrite subspan_app_l by done. by apply ReadU16_bytes.
  - change (subspan (be_bytes 2 id ++ be_bytes 4 (bsize value) ++ value ++ tail) 2 4)
      with (be_bytes 4 (bsize value)). by apply ReadU32_bytes.
Qed.

(** A span whose head announces no more than it holds starts with a field. *)
Lemma field_split l :
  all_bytes l -> 6 <= bsize l ->
  let id := ReadU16 (subspan l 0 2) in
  let n := ReadU32 (subspan l 2 4) in
  in_width 16 id /\ in_width 32 n /\
  (n <= bsize (drop 6 l) ->
   l = field_bytes id (subspan (drop 6 l) 0 n) ++ drop (Z.to_nat n) (drop 6 l) /\
   bsize (subspan (drop 6 l) 0 n) = n).
Proof.
  intros Hl Hs. destruct l as [| b0 [| b1 [| b2 [| b3 [| b4 [| b5 r]]]]]]; try done.
  change (subspan _ 0 2) with [b0; b1]. change (subspan _ 2 4) with [b2; b3; b4; b5].
  change (drop 6 _) with r. cbv zeta.
  change (all_bytes ([b0; b1] ++ [b2; b3; b4; b5] ++ r)) in Hl.
  apply all_bytes_app in Hl as [H1 Hl]. apply all_bytes_app in Hl as [H2 Hr].
  rewrite ReadU16_be, ReadU32_be by done.
  change (take 2 [b0; b1]) with [b0; b1]. change (take 4 [b2; b3; b4; b5]) with [b2; b3; b4; b5].
  pose proof (be_value_width 2 [b0; b1] H1 eq_refl) as Hw1.
  pose proof (be_value_width 4 [b2; b3; b4; b5] H2 eq_refl) as Hw2.
  split; [exact Hw1 |]. split; [exact Hw2 |]. intros Hn.
  assert (Hb : bsize (subspan r 0 (be_value [b2; b3; b4; b5])) = be_value [b2; b3; b4; b5])
    by (apply bsize_subspan; lia).
  split; [| exact Hb]. unfold field_bytes. rewrite Hb.
  rewrite (be_bytes_value [b0; b1] H1 : be_bytes 2 _ = _).
  rewrite (be_bytes_value [b2; b3; b4; b5] H2 : be_bytes 4 _ = _).
  rewrite <- !app_assoc. rewrite <- subspan_split by lia. done.
Qed.

(** A span of at least twelve bytes: a magic number, two bytes, a count and the
    length of what follows. *)
Lemma envelope_bytes l :
  all_bytes l -> 12 <= bsize l ->
  l = take 4 l ++ [at_ l 4; at_ l 5] ++ be_bytes 2 (ReadU16 (subspan l 6 2)) ++
      be_bytes 4 (ReadU32 (subspan l 8 4)) ++ drop 12 l /\
  in_width 16 (ReadU16 (subspan l 6 2)) /\ in_width 32 (ReadU32 (subspan l 8 4)).
Proof.
  intros Hl Hs.
  destruct l as [| b0 [| b1 [| b2 [| b3 [| b4 [| b5 [| b6 [| b7 [| b8 [| b9 [| b10 [| b11 r]]]]]]]]]]]]; try done.
  change (subspan _ 6 2) with [b6; b7]. change (subspan _ 8 4) with [b8; b9; b10; b11].
  change (drop 12 _) with r. change (at_ _ 4) with b4. change (at_ _ 5) with b5.
  change (take 4 _) with [b0; b1; b2; b3].
  change (all_bytes ([b0; b1; b2; b3; b4; b5] ++ [b6; b7] ++ [b8; b9; b10; b11] ++ r)) in Hl.
  rewrite !all_bytes_app in Hl. destruct Hl as (_ & H1 & H2 & _).
  destruct (ReadU16_span [b6; b7] H1 eq_refl) as [E1 W1].
  destruct (ReadU32_span [b8; b9; b10; b11] H2 eq_refl) as [E2 W2].
  rewrite E1, E2. done.
Qed.

(** A block determines its fields. *)
Lemma block_bytes_inj f g : Forall wf_field f -> Forall wf_field g -> length f = length g ->
  block_bytes f = block_bytes g -> f = g.
Proof.
  intros Hf. revert g. induction Hf as [| [i v] f (Hi & Hv & _) Hf IH]; intros [| [j w] g] Hg E EB; try done.
  apply list.Forall_cons in Hg as [(Hj & Hw & _) Hg]. cbn [fst snd length] in *. rewrite !block_bytes_cons in EB. cbn [fst snd] in EB.
  destruct (field_head i v (block_bytes f) Hi Hv) as (F1 & F2 & F3).
  destruct (field_head j w (block_bytes g) Hj Hw) as (G1 & G2 & G3). rewrite EB in F1, F2, F3.
  assert (i = j) as -> by congruence. rewrite G3 in F3. rewrite G2 in F2.
  apply app_inj_1 in F3 as [-> F3]; [| unfold bsize in F2; lia]. f_equal. apply IH; [done | lia | done].
Qed.
