(* ===== verification/IdentityCodecProofs.v ===== *)
(** * Correctness of the records of the identity store

    The parser of records inverts the writer, and the decoders of the root and
    of the peer records accept exactly what the encoders write: a record has
    one encoding, and nothing else decodes to it. *)

From S2P Require Import Prelude.
From S2P Require V1Parser.
From S2P Require Import V1ParserProofs.
From S2P Require Import FieldBlocks.
From S2P Require Import IdentityCodec.
Import IdentityTypes IdentityCodec.

(** ** Layout *)

Definition pair_of (f : FieldView) : Z * bytes := (fv_id f, fv_value f).
Definition body_bytes (fields : list FieldView) : bytes := block_bytes (List.map pair_of fields).

(** The record of some fields. *)
Definition record_bytes (kind : Z) (fields : list FieldView) : bytes :=
  kMagic ++ [kCanonicalVersion; kind] ++ be_bytes 2 (Z.of_nat (length fields)) ++
  be_bytes 4 (bsize (body_bytes fields)) ++ body_bytes fields.

(** The field lists a record can hold. *)
Record fields_ok (fields : list FieldView) : Prop := {
  fo_ids : ids_above 0 (List.map pair_of fields);
  fo_wf : Forall wf_field (List.map pair_of fields);
  fo_count : Z.of_nat (length fields) <= kMaxFields;
  fo_size : kEnvelopeSize + bsize (body_bytes fields) <= kMaxProtectedItemPayloadSize;
}.

Lemma ReadU16_same l : ReadU16 l = V1Parser.ReadU16 l. Proof. done. Qed.
Lemma ReadU32_same l : ReadU32 l = V1Parser.ReadU32 l. Proof. done. Qed.
Lemma ReadU64_same l : ReadU64 l = V1Parser.ReadU64 l. Proof. done. Qed.

(** ** Parsing *)

Lemma ParseRecord_loop_sound n index previous rest fields rest' :
  all_bytes rest -> 0 <= previous -> (index = 0%nat -> previous = 0) ->
  ParseRecord_loop n index previous rest = Some (fields, rest') ->
  rest = body_bytes fields ++ rest' /\ length fields = n /\
  ids_above previous (List.map pair_of fields) /\ Forall wf_field (List.map pair_of fields).
Proof.
  revert index previous rest fields. induction n as [| n IH]; intros index previous rest fields Hb Hp Hi H.
  { injection H as <- <-. split; [done |]. repeat constructor. }
  cbn [ParseRecord_loop] in H. cbv zeta in H.
  destruct (bsize rest <? kFieldHeaderSize) eqn:E1; [done |]. apply Z.ltb_ge in E1.
  destruct (field_split rest Hb E1) as (Hid & Hn & Hsplit).
  rewrite ReadU16_same, ReadU32_same in H.
  set (id := V1Parser.ReadU16 (subspan rest 0 2)) in *.
  set (len := V1Parser.ReadU32 (subspan rest 2 4)) in *.
  destruct (_ || _) eqn:E2 in H; [done |].
  apply orb_false_iff in E2 as [E2 E3]. apply orb_false_iff in E2 as [E2 E4].
  rewrite Z.gtb_ltb in E3. apply Z.ltb_ge in E3. destruct (Hsplit E3) as [Hrest Hlen].
  destruct (ParseRecord_loop n _ _ _) as [[fs r] |] eqn:E5; [| done]. injection H as <- <-.
  apply Z.eqb_neq in E2.
  assert (Hgt : previous < id).
  { unfold in_width in Hid. destruct (Nat.eqb_spec index 0) as [E | E]; [rewrite Hi by done; lia |].
    simpl in E4. apply Z.leb_gt in E4. lia. }
  apply IH in E5 as (Hr & Hl & Hids & Hwf); [| auto with xnn | unfold in_width in Hid; lia | done].
  split; [| split; [simpl; by rewrite Hl | split; [done |]]].
  - rewrite Hrest at 1. unfold body_bytes. cbn [List.map]. rewrite block_bytes_cons. cbn [pair_of fst snd fv_id fv_value].
    rewrite <- app_assoc. f_equal. exact Hr.
  - constructor; [| done]. unfold wf_field. cbn [pair_of fst snd fv_id fv_value].
    rewrite Hlen. split; [done |]. split; [done |]. auto with xnn.
Qed.

Lemma ParseRecord_loop_complete fields index previous rest' :
  (0 <= previous) -> ids_above previous (List.map pair_of fields) ->
  Forall wf_field (List.map pair_of fields) ->
  ParseRecord_loop (length fields) index previous (body_bytes fields ++ rest') = Some (fields, rest').
Proof.
  revert index previous. induction fields as [| [id v] fields IH]; intros index previous Hp Hids Hwf; [done |].
  cbn [List.map ids_above] in *. destruct Hids as [Hlt Hids]. apply list.Forall_cons in Hwf as [Hf Hwf].
  destruct Hf as (Hid & Hv & Hb). cbn [pair_of fst snd fv_id fv_value] in *.
  unfold body_bytes. cbn [List.map]. rewrite block_bytes_cons, <- app_assoc.
  cbn [pair_of fst snd fv_id fv_value length ParseRecord_loop].
  destruct (field_head id v (block_bytes (List.map pair_of fields) ++ rest') Hid Hv) as (H1 & H2 & H3).
  rewrite ReadU16_same, ReadU32_same, H1, H2, H3.
  pose proof (bsize_nonneg v). pose proof (bsize_nonneg (block_bytes (List.map pair_of fields) ++ rest')).
  destruct (_ <? _) eqn:E1; [apply Z.ltb_lt in E1; rewrite bsize_app, bsize_field_bytes in E1;
    unfold kFieldHeaderSize in E1; lia |].
  destruct (Z.eqb_spec id 0); [lia |]. rewrite orb_false_l.
  destruct (Z.leb_spec id previous); [lia |]. rewrite andb_false_r, orb_false_l.
  rewrite Z.gtb_ltb, bsize_app. destruct (Z.ltb_spec (bsize v + bsize (block_bytes (List.map pair_of fields) ++ rest')) (bsize v)); [lia |].
  rewrite drop_app_bsize, subspan_app_l by done.
  fold (body_bytes fields). by rewrite IH by (done || lia).
Qed.

Lemma bsize_record_bytes kind fields :
  bsize (record_bytes kind fields) = kEnvelopeSize + bsize (body_bytes fields).
Proof.
  unfold record_bytes. rewrite !bsize_app, !bsize_be_bytes.
  change (bsize kMagic) with 4. change (bsize [kCanonicalVersion; kind]) with 2.
  unfold kEnvelopeSize. lia.
Qed.

Lemma all_bytes_record kind fields :
  is_byte kind -> Forall wf_field (List.map pair_of fields) -> all_bytes (record_bytes kind fields).
Proof.
  intros Hk Hf. unfold record_bytes. rewrite !all_bytes_app. repeat split; auto with xnn.
  - repeat constructor; vm_compute; intuition discriminate.
  - constructor; [vm_compute; intuition discriminate |]. by constructor.
  - by apply all_bytes_block.
Qed.

(** A span of at least twelve bytes, as the envelope reads it. *)
Lemma envelope_split l :
  all_bytes l -> 12 <= bsize l ->
  l = take 4 l ++ [at_ l 4; at_ l 5] ++ be_bytes 2 (ReadU16 (subspan l 6 2)) ++
      be_bytes 4 (ReadU32 (subspan l 8 4)) ++ drop 12 l /\
  in_width 16 (ReadU16 (subspan l 6 2)) /\ in_width 32 (ReadU32 (subspan l 8 4)).
Proof. exact (envelope_bytes l). Qed.

Lemma ParseRecord_iff kind encoded fields :
  all_bytes encoded -> is_byte kind ->
  ParseRecord encoded kind = Success fields <->
  encoded = record_bytes kind fields /\ fields_ok fields.
Proof.
  intros Hb Hk. split.
  - unfold ParseRecord. cbv zeta.
    destruct (bsize encoded >? _) eqn:E0; [done |].
    destruct ((_ <? kEnvelopeSize) || _) eqn:E1; [done |]. destruct (negb (at_ encoded 4 =? _)) eqn:E2; [done |].
    destruct (negb (at_ encoded 5 =? _)) eqn:E3; [done |].
    destruct ((_ >? kMaxFields) || _) eqn:E4; [done |].
    apply orb_false_iff in E1 as [H H0]. apply orb_false_iff in E4 as [H1 H2].
    bool_facts. apply same_bytes_true in H0.
    destruct (envelope_split encoded Hb H) as (Hsplit & W1 & W2).
    destruct (ParseRecord_loop _ _ _ _) as [[fs rest] |] eqn:E5; [| done].
    destruct (negb (bsize rest =? 0)) eqn:E6; [done |]. bool_facts. intros [= ->].
    apply bsize_zero_nil in E6. subst rest.
    apply ParseRecord_loop_sound in E5 as (Hr & Hl & Hids & Hwf); [| auto with xnn | done | done].
    rewrite app_nil_r in Hr. change (Z.to_nat kEnvelopeSize) with 12%nat in Hr.
    assert (Hlen : bsize (body_bytes fields) = ReadU32 (subspan encoded 8 4)).
    { rewrite <- Hr, H2. unfold bsize, kEnvelopeSize in *. rewrite length_drop. lia. }
    assert (Hcount : Z.of_nat (length fields) = ReadU16 (subspan encoded 6 2)).
    { rewrite Hl. unfold in_width in W1. lia. }
    assert (Henc : encoded = record_bytes kind fields).
    { unfold record_bytes. rewrite Hlen, Hcount, <- Hr, H0, <- E2, <- E3. exact Hsplit. }
    split; [exact Henc |]. split; [done | done | lia |].
    rewrite <- (bsize_record_bytes kind), <- Henc. lia.
  - intros [-> [Hids Hwf Hc Hs]]. unfold ParseRecord. cbv zeta. rewrite bsize_record_bytes.
    pose proof (bsize_nonneg (body_bytes fields)).
    unfold kEnvelopeSize, kMaxProtectedItemPayloadSize, kMaxFields in *.
    destruct (Z.gtb_spec (12 + bsize (body_bytes fields)) 2048); [lia |].
    destruct (Z.ltb_spec (12 + bsize (body_bytes fields)) 12); [lia |].
    set (l := record_bytes kind fields).
    change (take 4 l) with kMagic. change (at_ l 4) with kCanonicalVersion.
    change (at_ l 5) with kind.
    change (subspan l 6 2) with (be_bytes 2 (Z.of_nat (length fields))).
    change (subspan l 8 4) with (be_bytes 4 (bsize (body_bytes fields))).
    change (drop (Z.to_nat 12) l) with (body_bytes fields).
    rewrite ReadU16_same, ReadU32_same, ReadU16_bytes, ReadU32_bytes by (unfold in_width; lia).
    rewrite Z.eqb_refl. unfold same_bytes. rewrite bool_decide_true by done. cbn [negb orb].
    rewrite Z.eqb_refl. cbn [negb].
    destruct (Z.gtb_spec (Z.of_nat (length fields)) 12); [lia |].
    replace (12 + bsize (body_bytes fields) - 12) with (bsize (body_bytes fields)) by lia.
    rewrite Z.eqb_refl. cbn [negb orb]. rewrite Nat2Z.id.
    rewrite <- (app_nil_r (body_bytes fields)) at 1.
    by rewrite ParseRecord_loop_complete by (done || lia).
Qed.

(** ** Writing *)

Lemma body_bytes_cons f fields :
  body_bytes (f :: fields) = field_bytes (fv_id f) (fv_value f) ++ body_bytes fields.
Proof. done. Qed.

Lemma EncodedRecordSize_loop_eq fields body_size :
  0 <= body_size <= kMaxProtectedItemPayloadSize ->
  EncodedRecordSize_loop fields body_size =
  if body_size + bsize (body_bytes fields) <=? kMaxProtectedItemPayloadSize
  then Success (body_size + bsize (body_bytes fields)) else Failure kCapacityExceeded.
Proof.
  unfold kMaxProtectedItemPayloadSize. revert body_size.
  induction fields as [| f fields IH]; intros b Hb; cbn [EncodedRecordSize_loop].
  - change (bsize (body_bytes [])) with 0. rewrite Z.add_0_r. by destruct (Z.leb_spec b 2048); [| lia].
  - rewrite body_bytes_cons, bsize_app, bsize_field_bytes.
    pose proof (bsize_nonneg (fv_value f)). pose proof (bsize_nonneg (body_bytes fields)).
    unfold kFieldHeaderSize, umax, kMaxProtectedItemPayloadSize. rewrite pow2_32, !Z.gtb_ltb.
    destruct (Z.ltb_spec (4294967296 - 1 - 6) (bsize (fv_value f)));
      [destruct (Z.leb_spec (b + (6 + bsize (fv_value f) + bsize (body_bytes fields))) 2048); [lia | done] |].
    destruct (Z.ltb_spec 2048 (6 + bsize (fv_value f)));
      [destruct (Z.leb_spec (b + (6 + bsize (fv_value f) + bsize (body_bytes fields))) 2048); [lia | done] |].
    destruct (Z.ltb_spec (2048 - (6 + bsize (fv_value f))) b);
      [destruct (Z.leb_spec (b + (6 + bsize (fv_value f) + bsize (body_bytes fields))) 2048); [lia | done] |].
    cbn [orb]. rewrite IH by lia.
    by replace (b + (6 + bsize (fv_value f)) + bsize (body_bytes fields))
      with (b + (6 + bsize (fv_value f) + bsize (body_bytes fields))) by lia.
Qed.

Lemma EncodedRecordSize_eq fields :
  EncodedRecordSize fields =
  if kEnvelopeSize + bsize (body_bytes fields) <=? kMaxProtectedItemPayloadSize
  then Success (kEnvelopeSize + bsize (body_bytes fields)) else Failure kCapacityExceeded.
Proof.
  unfold EncodedRecordSize. rewrite EncodedRecordSize_loop_eq by (unfold kMaxProtectedItemPayloadSize; lia).
  unfold kEnvelopeSize, kMaxProtectedItemPayloadSize. rewrite Z.add_0_l.
  pose proof (bsize_nonneg (body_bytes fields)).
  destruct (Z.leb_spec (bsize (body_bytes fields)) 2048);
    destruct (Z.leb_spec (12 + bsize (body_bytes fields)) 2048); rewrite ?Z.gtb_ltb; try lia; try done;
    destruct (Z.ltb_spec (2048 - 12) (bsize (body_bytes fields))); lia || done.
Qed.

(** Fields written one after another over a buffer of their size. *)
Lemma WriteRecord_loop_eq fields pre buffer :
  Forall wf_field (List.map pair_of fields) -> length buffer = length (body_bytes fields) ->
  WriteRecord_loop fields (bsize pre) (pre ++ buffer) = pre ++ body_bytes fields.
Proof.
  revert pre buffer. induction fields as [| [id v] fields IH]; intros pre buffer Hwf Hl.
  { change (length (body_bytes [])) with 0%nat in Hl. by apply nil_length_inv in Hl as ->. }
  cbn [List.map] in Hwf. apply list.Forall_cons in Hwf as [(_ & Hv & _) Hwf].
  cbn [pair_of fst snd fv_id fv_value] in Hv.
  rewrite body_bytes_cons in Hl. cbn [fv_id fv_value] in Hl.
  unfold field_bytes in Hl. rewrite !length_app, !length_be_bytes in Hl.
  (* the parts of the buffer the field overwrites *)
  assert (Hparts : exists b1 b2 b3 b4, buffer = b1 ++ b2 ++ b3 ++ b4 /\ length b1 = 2%nat /\
    length b2 = 4%nat /\ length b3 = length v /\ length b4 = length (body_bytes fields)).
  { exists (take 2 buffer), (take 4 (drop 2 buffer)), (take (length v) (drop 4 (drop 2 buffer))),
      (drop (length v) (drop 4 (drop 2 buffer))).
    rewrite !take_drop. rewrite !length_take, !length_drop. split; [done |]. lia. }
  destruct Hparts as (b1 & b2 & b3 & b4 & -> & H1 & H2 & H3 & H4).
  cbn [WriteRecord_loop fv_id fv_value]. unfold WriteU16, WriteU32.
  rewrite (write_at_middle pre b1) by (done || by rewrite length_be_bytes).
  rewrite (app_assoc pre), (write_at_middle (pre ++ be_bytes 2 id) b2)
    by (by rewrite ?bsize_app, ?bsize_be_bytes, ?length_be_bytes).
  rewrite (app_assoc (pre ++ _)).
  rewrite (write_at_middle ((pre ++ be_bytes 2 id) ++ be_bytes 4 (u32 (bsize v))) b3)
    by (rewrite ?bsize_app, ?bsize_be_bytes; unfold kFieldHeaderSize; (done || lia)).
  rewrite (app_assoc (_ ++ _) v).
  replace (bsize pre + kFieldHeaderSize + bsize v)
    with (bsize (((pre ++ be_bytes 2 id) ++ be_bytes 4 (u32 (bsize v))) ++ v))
    by (rewrite !bsize_app, !bsize_be_bytes; unfold kFieldHeaderSize; lia).
  rewrite IH by done. rewrite body_bytes_cons. unfold field_bytes. cbn [fv_id fv_value].
  rewrite wrap_small by done. by rewrite <- !app_assoc.
Qed.

Lemma EncodeFields_eq kind fields :
  Forall wf_field (List.map pair_of fields) -> Z.of_nat (length fields) <= kMaxFields ->
  EncodeFields true kind fields =
  if kEnvelopeSize + bsize (body_bytes fields) <=? kMaxProtectedItemPayloadSize
  then Success (record_bytes kind fields) else Failure kCapacityExceeded.
Proof.
  intros Hwf Hc. unfold EncodeFields, WriteRecord. rewrite EncodedRecordSize_eq.
  destruct (Z.leb_spec (kEnvelopeSize + bsize (body_bytes fields)) kMaxProtectedItemPayloadSize) as [Hle | _];
    [| done].
  cbn [negb]. unfold kEnvelopeSize, kMaxProtectedItemPayloadSize, kMaxFields in *.
  pose proof (bsize_nonneg (body_bytes fields)).
  set (n := length (body_bytes fields)).
  assert (Hn : bsize (body_bytes fields) = Z.of_nat n) by done.
  assert (Hsize : bsize (repeat 0 (Z.to_nat (12 + bsize (body_bytes fields))))
                  = 12 + bsize (body_bytes fields)).
  { unfold bsize at 1. rewrite repeat_length. lia. }
  rewrite Hsize, Z.eqb_refl. cbn [negb orb].
  destruct (Z.gtb_spec (Z.of_nat (length fields)) (umax 16)); [widths |].
  replace (Z.to_nat (12 + bsize (body_bytes fields))) with (12 + n)%nat by lia.
  rewrite repeat_app. f_equal. cbv zeta.
  change (write_at (write_at (write_at (repeat 0 12 ++ repeat 0 n) 0 kMagic) 4 [kCanonicalVersion]) 5 [kind])
    with (kMagic ++ [kCanonicalVersion; kind] ++ repeat 0 6 ++ repeat 0 n).
  unfold WriteU16, WriteU32.
  change (repeat 0 6) with (repeat 0 2 ++ repeat 0 4). rewrite <- (app_assoc (repeat 0 2)).
  rewrite (app_assoc kMagic). rewrite (write_at_middle (kMagic ++ _) (repeat 0 2)) by done.
  rewrite (app_assoc (kMagic ++ _)).
  rewrite (write_at_middle _ (repeat 0 4)) by (by rewrite ?bsize_app, ?bsize_be_bytes).
  rewrite (app_assoc (_ ++ be_bytes 2 _)).
  set (pre := ((kMagic ++ [kCanonicalVersion; kind]) ++ be_bytes 2 (u16 (Z.of_nat (length fields)))) ++ _).
  change 12 with (bsize pre). rewrite WriteRecord_loop_eq by (done || by rewrite repeat_length).
  unfold pre, record_bytes. rewrite wrap_small by (unfold in_width; rewrite pow2_65536; lia).
  rewrite <- !app_assoc. do 4 f_equal. rewrite !bsize_app, !bsize_be_bytes.
  change (bsize kMagic) with 4. change (bsize [kCanonicalVersion; kind]) with 2.
  change (bsize (repeat 0 4)) with 4. unfold bsize at 1. rewrite repeat_length.
  rewrite wrap_small by widths. f_equal. lia.
Qed.

(** ** The root record *)

(** A span is a [std::array] of [n] bytes. *)
Definition array_of (n : Z) (l : bytes) : Prop := all_bytes l /\ bsize l = n.

#[global] Instance array_of_dec n l : Decision (array_of n l).
Proof. unfold array_of. apply _. Defined.

(** What the C++ types of the members say. *)
Record root_typed (r : RootRecord) : Prop := {
  rt_revision : in_width 64 (revision r);
  rt_seed : all_bytes (seed r);
  rt_public_key : array_of kEd25519PublicKeySize (root_public_key r);
  rt_device_id : array_of kDeviceIdSize (root_device_id r);
  rt_store_id : array_of kStoreIdSize (root_store_id r);
  rt_retired : forall id, retired_store_id r = Some id -> array_of kStoreIdSize id;
}.

Lemma HasExactFields_true parsed expected :
  HasExactFields parsed expected = true <-> List.map fv_id parsed = expected.
Proof.
  unfold HasExactFields. split.
  - destruct (negb _); [done |]. apply bool_decide_eq_true_1.
  - intros <-. rewrite List.length_map, Nat.eqb_refl. by apply bool_decide_eq_true_2.
Qed.

Lemma HasExactFields_false parsed expected :
  HasExactFields parsed expected = false <-> List.map fv_id parsed <> expected.
Proof. rewrite <- not_true_iff_false, HasExactFields_true. done. Qed.

Lemma WriteU64_zeroes v : WriteU64 (repeat 0 8) v = be_bytes 8 v.
Proof. reflexivity. Qed.

Lemma WriteU16_zeroes v : WriteU16 (repeat 0 2) 0 v = be_bytes 2 v.
Proof. reflexivity. Qed.

Lemma spec_eta f : f = spec (fv_id f) (fv_value f).
Proof. by destruct f. Qed.

(** The fields of a root record, in the order they are written. *)
Definition root_fields (r : RootRecord) : list FieldView :=
  [spec 1 (seed r); spec 2 (root_public_key r); spec 3 (root_device_id r);
   spec 4 (root_store_id r); spec 5 (be_bytes 8 (revision r))] ++
  match retired_store_id r with Some id => [spec 6 id] | None => [] end.

Definition root_valid (r : RootRecord) : bool :=
  negb (revision r =? 0) && (bsize (seed r) =? kEd25519SeedSize) &&
  match retired_store_id r with
  | None => true
  | Some id => negb (same_bytes id (root_store_id r)) && negb (all_zero id)
  end.

Lemma body_bytes_ge f fields : f ∈ fields -> bsize (fv_value f) <= bsize (body_bytes fields).
Proof.
  induction 1 as [f fields | f g fields _ IH]; rewrite body_bytes_cons, bsize_app, bsize_field_bytes.
  - pose proof (bsize_nonneg (body_bytes fields)). lia.
  - pose proof (bsize_nonneg (fv_value g)). lia.
Qed.

(** The lengths of the values are bounded by the size of the record. *)
Lemma fields_ok_intro fields :
  ids_above 0 (List.map pair_of fields) ->
  Forall (fun f => in_width 16 (fv_id f)) fields -> Forall (fun f => all_bytes (fv_value f)) fields ->
  Z.of_nat (length fields) <= kMaxFields ->
  kEnvelopeSize + bsize (body_bytes fields) <= kMaxProtectedItemPayloadSize ->
  fields_ok fields.
Proof.
  intros Hi H1 H2 Hc Hs. split; [done | | done | done].
  apply List.Forall_forall. intros x (f & <- & Hf)%in_map_iff.
  rewrite List.Forall_forall in H1, H2. specialize (H1 f Hf). specialize (H2 f Hf).
  apply list_elem_of_In in Hf. pose proof (body_bytes_ge f fields Hf).
  unfold kEnvelopeSize, kMaxProtectedItemPayloadSize in *. pose proof (bsize_nonneg (fv_value f)).
  split; [done | split; [simpl; widths | done]].
Qed.

Ltac body_size :=
  unfold body_bytes, block_bytes; cbn [List.map app concat pair_of fst snd spec fv_id fv_value];
  rewrite !bsize_app, !bsize_field_bytes, !bsize_be_bytes, ?bsize_nil;
  unfold kEnvelopeSize, kMaxProtectedItemPayloadSize.

Ltac all_fields :=
  repeat match goal with
  | |- Forall _ (_ :: _) => apply list.Forall_cons; split
  | |- Forall _ [] => apply Forall_nil; exact I
  end;
  cbn [spec fv_id fv_value]; auto with xnn; try (by vm_compute).

Lemma root_fields_ok r : root_typed r -> root_valid r = true -> fields_ok (root_fields r).
Proof.
  intros [T1 T2 [T3 S3] [T4 S4] [T5 S5] T6] Hv. unfold root_valid in Hv. bool_facts.
  unfold kEd25519SeedSize, kEd25519PublicKeySize, kDeviceIdSize, kStoreIdSize in *.
  unfold root_fields. destruct (retired_store_id r) as [id |].
  - destruct (T6 id eq_refl) as [T7 S7]. cbn [app].
    apply fields_ok_intro; [simpl; lia | all_fields | all_fields | by vm_compute | body_size; lia].
  - cbn [app].
    apply fields_ok_intro; [simpl; lia | all_fields | all_fields | by vm_compute | body_size; lia].
Qed.

Lemma EncodeFields_ok kind fields :
  fields_ok fields -> EncodeFields true kind fields = Success (record_bytes kind fields).
Proof.
  intros [? ? ? Hs]. rewrite EncodeFields_eq by done. by apply Z.leb_le in Hs as ->.
Qed.

Lemma EncodeRootRecord_iff r encoded : root_typed r ->
  EncodeRootRecord true r = Success encoded <->
  root_valid r = true /\ encoded = record_bytes kRootKind (root_fields r).
Proof.
  intros Ht. unfold EncodeRootRecord. cbv zeta. rewrite WriteU64_zeroes.
  fold (root_fields r).
  match goal with |- context [if ?c then Failure _ else _] => assert (Hc : c = negb (root_valid r)) end.
  { unfold root_valid. destruct (revision r =? 0), (bsize (seed r) =? _), (retired_store_id r) as [id |]; try done.
    simpl. by destruct (same_bytes _ _), (all_zero id). }
  rewrite Hc. destruct (root_valid r) eqn:Ev; cbn [negb]; [| by split; [| intros [? _]]].
  rewrite EncodeFields_ok by by apply root_fields_ok. split; [intros [= <-] | intros [_ ->]]; done.
Qed.

Lemma DecodeRootRecord_fields r :
  root_typed r -> root_valid r = true ->
  DecodeRootRecord true (record_bytes kRootKind (root_fields r)) = Success r.
Proof.
  intros Ht Hv. pose proof (root_fields_ok r Ht Hv) as Hf. pose proof (fo_wf _ Hf) as Hwf.
  unfold DecodeRootRecord.
  rewrite (proj2 (ParseRecord_iff kRootKind _ (root_fields r) (all_bytes_record kRootKind _ ltac:(by vm_compute) Hwf)
    ltac:(by vm_compute)) (conj eq_refl Hf)).
  destruct Ht as [T1 T2 [T3 S3] [T4 S4] [T5 S5] T6]. unfold root_valid in Hv.
  apply andb_true_iff in Hv as [Hv Hret]. apply andb_true_iff in Hv as [Hrev Hseed].
  apply negb_true_iff in Hrev.
  assert (H64 : ReadU64 (be_bytes 8 (revision r)) = revision r)
    by (rewrite ReadU64_same; by apply ReadU64_bytes).
  assert (S8 : (bsize (be_bytes 8 (revision r)) =? 8) = true) by by rewrite bsize_be_bytes.
  apply Z.eqb_eq in S3 as S3', S4 as S4', S5 as S5'.
  destruct r as [rev sd pk did sid ret].
  cbn [revision seed root_public_key root_device_id root_store_id retired_store_id] in *.
  unfold root_fields. cbn [revision seed root_public_key root_device_id root_store_id retired_store_id].
  clear Hf Hwf. revert H64 S8. generalize (be_bytes 8 rev). intros w H64 S8.
  destruct ret as [id |].
  - destruct (T6 id eq_refl) as [T7 S7]. apply Z.eqb_eq in S7.
    apply andb_true_iff in Hret as [Hne Hnz]. apply negb_true_iff in Hne, Hnz.
    cbn [app]. set (fs := [_; _; _; _; _; _]).
    assert (HasExactFields fs [1; 2; 3; 4; 5; 6] = true) as -> by by apply HasExactFields_true.
    unfold fs.
    cbv zeta. cbn [field nth spec fv_id fv_value negb andb].
    rewrite andb_false_r, Hseed, S3', S4', S5', S8, S7, H64, Hrev, Hne, Hnz. done.
  - cbn [app]. set (fs := [_; _; _; _; _]).
    assert (HasExactFields fs [1; 2; 3; 4; 5] = true) as -> by by apply HasExactFields_true.
    assert (HasExactFields fs [1; 2; 3; 4; 5; 6] = false) as -> by by apply HasExactFields_false.
    unfold fs.
    cbv zeta. cbn [field nth spec fv_id fv_value negb andb orb].
    rewrite Hseed, S3', S4', S5', S8, H64, Hrev. done.
Qed.

(** The values of a field list, from those of the parsed record. *)
Lemma fields_ok_values fields : fields_ok fields -> Forall (fun f => all_bytes (fv_value f)) fields.
Proof.
  intros [_ H _ _]. induction fields as [| f fields IH]; [by apply Forall_nil |].
  cbn [List.map] in H. apply list.Forall_cons in H as [(_ & _ & ?) ?]. apply list.Forall_cons. auto.
Qed.

(** A field with a known id. *)
Lemma spec_of f id : fv_id f = id -> f = spec id (fv_value f).
Proof. intros <-. apply spec_eta. Qed.

Lemma revision_field v : all_bytes v -> bsize v = 8 ->
  be_bytes 8 (ReadU64 v) = v /\ in_width 64 (ReadU64 v).
Proof. intros Hv Hs. rewrite ReadU64_same. by apply ReadU64_span. Qed.

Lemma DecodeRootRecord_sound encoded r :
  all_bytes encoded -> DecodeRootRecord true encoded = Success r ->
  root_typed r /\ root_valid r = true /\ encoded = record_bytes kRootKind (root_fields r).
Proof.
  intros Hb. unfold DecodeRootRecord. destruct (ParseRecord encoded kRootKind) as [fs | e] eqn:Ep; [| done].
  apply ParseRecord_iff in Ep as [-> Hok]; [| done | by vm_compute]. clear Hb.
  apply fields_ok_values in Hok. cbv zeta. cbn [negb].
  destruct (negb (HasExactFields fs [1; 2; 3; 4; 5]) && _) eqn:E5; [done |].
  destruct (negb (bsize (fv_value (field fs 0)) =? _)) eqn:S0; [done |].
  destruct (_ || _ || _ || _ || _) eqn:S1; [done |].
  apply orb_false_iff in S1 as [S1 S5]. apply orb_false_iff in S1 as [S1 S4].
  apply orb_false_iff in S1 as [S1 S3]. apply orb_false_iff in S1 as [S1 S2].
  destruct (HasExactFields fs [1; 2; 3; 4; 5; 6] && (_ || _)) eqn:V; [done |].
  destruct (_ =? 0) eqn:V0; [done |]. intros [= <-].
  apply negb_false_iff in S0, S1, S2, S3, S4.
  apply Z.eqb_eq in S1 as Z1, S2 as Z2, S3 as Z3, S4 as Z4.
  destruct (HasExactFields fs [1; 2; 3; 4; 5; 6]) eqn:E6.
  - apply HasExactFields_true in E6.
    destruct fs as [| f0 [| f1 [| f2 [| f3 [| f4 [| f5 [| f6 fs]]]]]]]; try discriminate E6.
    injection E6 as I0 I1 I2 I3 I4 I5. cbn [field nth andb] in *.
    rewrite !list.Forall_cons in Hok. destruct Hok as (B0 & B1 & B2 & B3 & B4 & B5 & _).
    apply orb_false_iff in V as [V1 V2]. apply negb_false_iff, Z.eqb_eq in S5.
    destruct (revision_field (fv_value f4) B4 Z4) as [W1 W2].
    split; [split; try done; by intros id [= <-] |]. split.
    + unfold root_valid. cbn [revision seed root_store_id retired_store_id]. by rewrite V0, S0, V1, V2.
    + unfold root_fields. cbn [revision seed root_public_key root_device_id root_store_id retired_store_id app].
      by rewrite W1, <- !spec_of.
  - rewrite andb_true_r in E5. apply negb_false_iff, HasExactFields_true in E5.
    destruct fs as [| f0 [| f1 [| f2 [| f3 [| f4 [| f5 fs]]]]]]; try discriminate E5.
    injection E5 as I0 I1 I2 I3 I4. cbn [field nth andb] in *.
    rewrite !list.Forall_cons in Hok. destruct Hok as (B0 & B1 & B2 & B3 & B4 & _).
    destruct (revision_field (fv_value f4) B4 Z4) as [W1 W2].
    split; [by split |]. split.
    + unfold root_valid. cbn [revision seed root_store_id retired_store_id]. by rewrite V0, S0.
    + unfold root_fields. cbn [revision seed root_public_key root_device_id root_store_id retired_store_id app].
      by rewrite W1, <- !spec_of.
Qed.

(** A root record has exactly one encoding: the decoder accepts a byte string
    and returns a record if and only if the encoder writes that byte string
    for that record, so decoding inverts encoding, two records never share an
    encoding and no other byte string is accepted. *)
Theorem root_record_codec encoded record :
  all_bytes encoded ->
  DecodeRootRecord true encoded = Success record <->
  root_typed record /\ EncodeRootRecord true record = Success encoded.
Proof.
  intros Hb. split.
  - intros (Ht & Hv & ->)%DecodeRootRecord_sound; [| done]. split; [done |]. by apply EncodeRootRecord_iff.
  - intros [Ht [Hv ->]%EncodeRootRecord_iff]; [| done]. by apply DecodeRootRecord_fields.
Qed.

(** ** The peer record *)

Record peer_typed (r : StoredPeerRecord) : Prop := {
  pt_store_id : array_of kStoreIdSize (store_id r);
  pt_record_id : array_of kDeviceIdSize (record_id r);
  pt_root_device_id : array_of kDeviceIdSize (peer_root_device_id r);
  pt_public_key : array_of kEd25519PublicKeySize (public_key (peer r));
  pt_device_id : array_of kDeviceIdSize (device_id (peer r));
  pt_profile : in_width 16 (security_profile (peer r));
  pt_state : in_width 8 (trust_state (peer r));
  pt_rotation : in_width 64 (rotation_counter (peer r));
  pt_revision : in_width 64 (record_revision (peer r));
  pt_label : all_bytes (display_label (peer r));
  pt_tombstones : Forall (array_of kEd25519PublicKeySize) (tombstones (peer r));
  pt_authenticator : array_of kMacSize (authenticator r);
}.

Lemma tombstones_sound n key rest acc ts :
  all_bytes rest -> bsize rest = Z.of_nat n * kEd25519PublicKeySize ->
  DecodePeerRecord_loop n key rest acc = Some ts ->
  exists new, ts = acc ++ new /\ length new = n /\ concat new = rest /\
    Forall (array_of kEd25519PublicKeySize) new /\ tombstones_ok key acc new = true.
Proof.
  unfold kEd25519PublicKeySize. revert rest acc. induction n as [| n IH]; intros rest acc Hb Hs H.
  { injection H as <-. exists []. rewrite app_nil_r. apply bsize_zero_nil in Hs. subst rest. by repeat split. }
  cbn [DecodePeerRecord_loop] in H. cbv zeta in H. unfold kEd25519PublicKeySize in H.
  set (t := subspan rest 0 32) in *. destruct (_ || _) eqn:E in H; [done |].
  assert (Ht : bsize t = 32) by (apply bsize_subspan; lia).
  apply IH in H as (new & -> & Hl & Hc & Hf & Hok); [| auto with xnn |].
  2: { unfold bsize in *. rewrite length_drop. lia. }
  exists (t :: new). rewrite <- app_assoc. split; [done |]. split; [simpl; by rewrite Hl |].
  split; [simpl; rewrite Hc; unfold t; symmetry; by apply subspan_split |].
  split; [apply list.Forall_cons; split; [split; [unfold t; auto with xnn | done] | done] |].
  cbn [tombstones_ok]. by rewrite E.
Qed.

Lemma tombstones_complete new key acc :
  Forall (array_of kEd25519PublicKeySize) new -> tombstones_ok key acc new = true ->
  DecodePeerRecord_loop (length new) key (concat new) acc = Some (acc ++ new).
Proof.
  intros Hf. revert acc. induction Hf as [| t new [_ Ht] _ IH]; intros acc Hok.
  { by rewrite app_nil_r. }
  cbn [length DecodePeerRecord_loop concat tombstones_ok] in *. cbv zeta. rewrite subspan_app_l by done.
  destruct (_ || _); [done |]. rewrite drop_app_bsize by done. rewrite IH by done. by rewrite <- app_assoc.
Qed.

(** The fields of a peer record, without its authenticator. *)
Definition peer_fields (r : StoredPeerRecord) : list FieldView :=
  [spec 1 (store_id r); spec 2 (record_id r); spec 3 (peer_root_device_id r);
   spec 4 (public_key (peer r)); spec 5 (device_id (peer r));
   spec 6 (be_bytes 2 (security_profile (peer r))); spec 7 [trust_state (peer r)];
   spec 8 (be_bytes 8 (rotation_counter (peer r)));
   spec 9 (be_bytes 8 (record_revision (peer r))); spec 10 (display_label (peer r));
   spec 11 (rotation_counter (peer r) :: concat (tombstones (peer r)))].

Definition peer_valid (r : StoredPeerRecord) : bool :=
  let p := peer r in
  let count := Z.of_nat (length (tombstones p)) in
  negb (security_profile p =? 0) && negb (record_revision p =? 0) &&
  (bsize (display_label p) <=? kMaxDisplayLabelBytes) && IsValidUtf8 (display_label p) &&
  (count <=? kMaxPeerTombstones) && (rotation_counter p =? count) &&
  ((trust_state p =? TrustState.kActive) || (trust_state p =? TrustState.kRevoked)) &&
  tombstones_ok (public_key p) [] (tombstones p).

Lemma bsize_concat (ls : list bytes) n :
  Forall (array_of n) ls -> bsize (concat ls) = Z.of_nat (length ls) * n /\ all_bytes (concat ls).
Proof.
  induction 1 as [| l ls [Hb Hl] _ [IH1 IH2]]; [split; [done | constructor] |]. cbn [concat].
  rewrite bsize_app, all_bytes_app. split; [simpl length; lia | done].
Qed.

Lemma peer_fields_ok r extra : peer_typed r -> peer_valid r = true ->
  extra = [] \/ extra = [spec 12 (authenticator r)] -> fields_ok (peer_fields r ++ extra).
Proof.
  intros [[T1 S1] [T2 S2] [T3 S3] [T4 S4] [T5 S5] T6 T7 T8 T9 T10 T11 [T12 S12]] Hv Hex.
  unfold peer_valid in Hv. cbv zeta in Hv.
  apply andb_true_iff in Hv as [Hv _]. apply andb_true_iff in Hv as [Hv _]. bool_facts.
  destruct (bsize_concat _ _ T11) as [Hc Hcb].
  unfold kEd25519PublicKeySize, kDeviceIdSize, kStoreIdSize, kMacSize, kMaxDisplayLabelBytes,
    kMaxPeerTombstones in *.
  assert (Hcount : all_bytes (rotation_counter (peer r) :: concat (tombstones (peer r)))).
  { constructor; [unfold is_byte; widths | done]. }
  assert (Hstate : all_bytes [trust_state (peer r)]) by (constructor; [done | constructor]).
  pose proof (bsize_cons (rotation_counter (peer r)) (concat (tombstones (peer r)))).
  pose proof (bsize_cons (trust_state (peer r)) []) as Hs1. change (bsize []) with 0 in Hs1.
  unfold peer_fields. destruct Hex as [-> | ->]; cbn [app].
  - apply fields_ok_intro; [simpl; lia | all_fields | all_fields | by vm_compute | body_size; lia].
  - apply fields_ok_intro; [simpl; lia | all_fields | all_fields | by vm_compute | body_size; lia].
Qed.

(** Both encodings: the record itself and the input of its authenticator. *)
Lemma EncodePeer_iff r include encoded : peer_typed r ->
  EncodePeer true r include = Success encoded <->
  peer_valid r = true /\
  encoded = if include : bool then record_bytes kPeerKind (peer_fields r ++ [spec 12 (authenticator r)])
            else record_bytes kPeerMacInputKind (peer_fields r).
Proof.
  intros Ht. unfold EncodePeer. cbv zeta.
  match goal with |- context [if ?c then Failure _ else if ?d then Failure _ else _] =>
    assert (Hc : c || d = negb (peer_valid r)) end.
  { unfold peer_valid. cbv zeta. rewrite !Z.gtb_ltb, !Z.ltb_antisym.
    destruct (security_profile _ =? 0); [done |]. destruct (record_revision _ =? 0); [done |].
    destruct (bsize _ <=? _); [| done]. destruct (IsValidUtf8 _); [| done].
    destruct (_ <=? kMaxPeerTombstones); [| done]. destruct (rotation_counter _ =? _); [| done].
    by destruct (trust_state _ =? TrustState.kActive), (trust_state _ =? TrustState.kRevoked), (tombstones_ok _ _ _). }
  destruct (peer_valid r) eqn:Ev; cbn [negb] in Hc.
  - apply orb_false_iff in Hc as [-> ->]. rewrite WriteU16_zeroes, !WriteU64_zeroes.
    pose proof Ev as Hv. unfold peer_valid in Hv. cbv zeta in Hv.
    repeat (apply andb_true_iff in Hv as [Hv ?]). clear Hv.
    assert (Hrot : u8 (Z.of_nat (length (tombstones (peer r)))) = rotation_counter (peer r)).
    { bool_facts. unfold kMaxPeerTombstones in *. rewrite wrap_small by widths. done. }
    rewrite Hrot, (wrap_small 8 (trust_state (peer r))) by apply (pt_state r Ht).
    pose proof (peer_fields_ok r [] Ht Ev (or_introl eq_refl)) as Hf1. rewrite app_nil_r in Hf1.
    pose proof (peer_fields_ok r _ Ht Ev (or_intror eq_refl)) as Hf2.
    destruct include; cbn [take].
    + change ([_; _; _; _; _; _; _; _; _; _; _; _]) with (peer_fields r ++ [spec 12 (authenticator r)]).
      rewrite EncodeFields_ok by done. split; [intros [= <-] | intros [_ ->]]; done.
    + change ([_; _; _; _; _; _; _; _; _; _; _]) with (peer_fields r).
      rewrite EncodeFields_ok by done. split; [intros [= <-] | intros [_ ->]]; done.
  - split; [| intros [? _]; done].
    match goal with |- context [if ?c then Failure _ else if ?d then Failure _ else _] =>
      destruct c; [discriminate |]; destruct d; [discriminate | discriminate Hc] end.
Qed.

Lemma profile_field v : all_bytes v -> bsize v = 2 ->
  be_bytes 2 (ReadU16 v) = v /\ in_width 16 (ReadU16 v).
Proof. intros Hv Hs. rewrite ReadU16_same. by apply ReadU16_span. Qed.

Lemma single_byte v : bsize v = 1 -> v = [at_ v 0].
Proof. destruct v as [| x [| y v]]; try done. rewrite !bsize_cons. pose proof (bsize_nonneg v). lia. Qed.

Lemma DecodePeerRecord_fields r :
  peer_typed r -> peer_valid r = true ->
  DecodePeerRecord true (record_bytes kPeerKind (peer_fields r ++ [spec 12 (authenticator r)])) = Success r.
Proof.
  intros Ht Hv. pose proof (peer_fields_ok r _ Ht Hv (or_intror eq_refl)) as Hf. pose proof (fo_wf _ Hf) as Hwf.
  unfold DecodePeerRecord.
  rewrite (proj2 (ParseRecord_iff kPeerKind _ _ (all_bytes_record kPeerKind _ ltac:(by vm_compute) Hwf)
    ltac:(by vm_compute)) (conj eq_refl Hf)). clear Hf Hwf.
  destruct Ht as [[_ S1] [_ S2] [_ S3] [_ S4] [_ S5] T6 T7 T8 T9 _ T11 [_ S12]].
  unfold peer_valid in Hv. cbv zeta in Hv. destruct (bsize_concat _ _ T11) as [Hc _].
  destruct r as [sid rid did [pk pid prof st rot rev lab ts] auth].
  cbn [store_id record_id peer_root_device_id peer authenticator public_key device_id security_profile
    trust_state rotation_counter record_revision display_label tombstones] in *.
  apply andb_true_iff in Hv as [Hv Htomb]. apply andb_true_iff in Hv as [Hv Hst].
  apply andb_true_iff in Hv as [Hv Hrot]. apply andb_true_iff in Hv as [Hv Hcount].
  apply andb_true_iff in Hv as [Hv Hutf]. apply andb_true_iff in Hv as [Hv Hlab].
  apply andb_true_iff in Hv as [Hprof Hrev]. apply negb_true_iff in Hprof, Hrev.
  apply Z.eqb_eq in Hrot. apply Z.leb_le in Hcount, Hlab.
  unfold peer_fields. cbn [store_id record_id peer_root_device_id peer authenticator public_key device_id
    security_profile trust_state rotation_counter record_revision display_label tombstones app].
  assert (P1 : ReadU16 (be_bytes 2 prof) = prof) by (rewrite ReadU16_same; by apply ReadU16_bytes).
  assert (P2 : ReadU64 (be_bytes 8 rot) = rot) by (rewrite ReadU64_same; by apply ReadU64_bytes).
  assert (P3 : ReadU64 (be_bytes 8 rev) = rev) by (rewrite ReadU64_same; by apply ReadU64_bytes).
  assert (Q1 : bsize (be_bytes 2 prof) = 2) by by rewrite bsize_be_bytes.
  assert (Q2 : bsize (be_bytes 8 rot) = 8) by by rewrite bsize_be_bytes.
  assert (Q3 : bsize (be_bytes 8 rev) = 8) by by rewrite bsize_be_bytes.
  revert P1 P2 P3 Q1 Q2 Q3.
  generalize (be_bytes 2 prof) (be_bytes 8 rot) (be_bytes 8 rev). intros w1 w2 w3 P1 P2 P3 Q1 Q2 Q3.
  set (fs := [_; _; _; _; _; _; _; _; _; _; _; _]).
  assert (HasExactFields fs [1; 2; 3; 4; 5; 6; 7; 8; 9; 10; 11; 12] = true) as ->
    by by apply HasExactFields_true.
  unfold fs. cbv zeta. cbn [field nth spec fv_id fv_value negb orb].
  change (at_ [st] 0) with st. change (at_ (rot :: concat ts) 0) with rot.
  change (drop 1 (rot :: concat ts)) with (concat ts).
  change (bsize [st]) with 1.
  rewrite S1, S2, S3, S4, S5, S12, P1, P2, P3, Q1, Q2, Q3, Hutf, Hprof, Hrev, (bsize_cons rot), Hc.
  rewrite !Z.gtb_ltb, !Z.ltb_antisym.
  apply Z.leb_le in Hlab. rewrite Hlab, Hrot, Z.eqb_refl. apply Z.leb_le in Hcount. rewrite Hcount.
  cbn [negb orb]. rewrite !Z.eqb_refl. cbn [negb orb].
  destruct (Z.eqb_spec (1 + Z.of_nat (length ts) * kEd25519PublicKeySize) 0) as [Hz | _];
    [unfold kEd25519PublicKeySize in Hz; lia |]. cbn [orb].
  change (negb (2 =? 2) || negb (1 =? 1) || negb (8 =? 8) || negb (8 =? 8)) with false.
  cbn [negb orb].
  assert (negb (st =? TrustState.kActive) && negb (st =? TrustState.kRevoked) = false) as ->.
  { by destruct (st =? TrustState.kActive), (st =? TrustState.kRevoked). }
  cbn [orb]. rewrite Nat2Z.id, tombstones_complete by done. by rewrite <- Hrot.
Qed.

Lemma DecodePeerRecord_sound encoded r :
  all_bytes encoded -> DecodePeerRecord true encoded = Success r ->
  peer_typed r /\ peer_valid r = true /\
  encoded = record_bytes kPeerKind (peer_fields r ++ [spec 12 (authenticator r)]).
Proof.
  intros Hb. unfold DecodePeerRecord.
  destruct (ParseRecord encoded kPeerKind) as [fs | e] eqn:Ep; [| done].
  apply ParseRecord_iff in Ep as [-> Hok]; [| done | by vm_compute]. clear Hb.
  apply fields_ok_values in Hok. cbv zeta. cbn [negb].
  destruct (HasExactFields fs _) eqn:E; cbn [negb orb]; [| done]. apply HasExactFields_true in E.
  destruct fs as [| f0 [| f1 [| f2 [| f3 [| f4 [| f5 [| f6 [| f7 [| f8 [| f9 [| f10 [| f11 [| f12 fs]]]]]]]]]]]]];
    try discriminate E.
  injection E as I0 I1 I2 I3 I4 I5 I6 I7 I8 I9 I10 I11. cbn [field nth].
  rewrite !list.Forall_cons in Hok.
  destruct Hok as (B0 & B1 & B2 & B3 & B4 & B5 & B6 & B7 & B8 & B9 & B10 & B11 & _).
  match goal with |- (if ?c then _ else _) = _ -> _ => destruct c eqn:S; [done |] end.
  repeat match type of S with _ || _ = false => apply orb_false_iff in S as [S ?] end. bool_facts.
  match goal with |- (if ?c then _ else _) = _ -> _ => destruct c eqn:V; [done |] end.
  apply orb_false_iff in V as [V Vsize]. apply orb_false_iff in V as [V Vrot].
  apply orb_false_iff in V as [V Vcount]. apply orb_false_iff in V as [V Vrev].
  apply orb_false_iff in V as [Vprof Vstate].
  destruct (DecodePeerRecord_loop _ _ _ _) as [ts |] eqn:Et; [| done]. intros [= <-].
  apply negb_false_iff, Z.eqb_eq in Vsize, Vrot. rewrite Z.gtb_ltb in Vcount. apply Z.ltb_ge in Vcount.
  (* the list of tombstones *)
  assert (Hten : fv_value f10 = at_ (fv_value f10) 0 :: drop 1 (fv_value f10)).
  { destruct (fv_value f10); [done |]. done. }
  set (cnt := at_ (fv_value f10) 0) in *.
  assert (Hcnt : 0 <= cnt) by (destruct (at_byte (fv_value f10) 0 B10); unfold cnt; lia).
  apply tombstones_sound in Et as (new & Enew & Hl & Hcat & Hf & Htok); [| auto with xnn |].
  2: { pose proof (f_equal bsize Hten) as Hsz. rewrite bsize_cons in Hsz.
       unfold kEd25519PublicKeySize in *. lia. }
  cbn [app] in Enew. subst ts.
  destruct (profile_field (fv_value f5) B5) as [P1 P2]; [done |].
  destruct (revision_field (fv_value f7) B7) as [R1 R2]; [done |].
  destruct (revision_field (fv_value f8) B8) as [W1 W2]; [done |].
  assert (Hst : fv_value f6 = [at_ (fv_value f6) 0]) by by apply single_byte.
  split; [split; cbn [store_id record_id peer_root_device_id peer authenticator public_key device_id
    security_profile trust_state rotation_counter record_revision display_label tombstones]; try done;
    by apply at_byte |].
  split.
  - unfold peer_valid. cbn [peer public_key security_profile trust_state rotation_counter record_revision
      display_label tombstones]. rewrite Hl, Z2Nat.id by done.
    rewrite Vprof, Vrev, Vrot, Z.eqb_refl, Htok. cbn [negb andb].
    repeat match goal with H : ?b = true |- context [?b] => rewrite H end.
    rewrite !andb_true_r. cbn [negb andb].
    destruct (Z.leb_spec (bsize (fv_value f9)) kMaxDisplayLabelBytes); [| lia].
    destruct (Z.leb_spec cnt kMaxPeerTombstones); [| lia]. cbn [andb].
    by destruct (_ =? TrustState.kActive), (_ =? TrustState.kRevoked).
  - unfold peer_fields. cbn [store_id record_id peer_root_device_id peer authenticator public_key device_id
      security_profile trust_state rotation_counter record_revision display_label tombstones app].
    by rewrite P1, R1, W1, Hcat, Vrot, <- Hten, <- Hst, <- !spec_of.
Qed.

(** A peer record has exactly one encoding: the decoder accepts a byte string
    and returns a record if and only if the encoder writes that byte string
    for that record, so decoding inverts encoding, two records never share an
    encoding and no other byte string is accepted. *)
Theorem peer_record_codec encoded record :
  all_bytes encoded ->
  DecodePeerRecord true encoded = Success record <->
  peer_typed record /\ EncodePeerRecord true record = Success encoded.
Proof.
  intros Hb. unfold EncodePeerRecord. split.
  - intros (Ht & Hv & ->)%DecodePeerRecord_sound; [| done]. split; [done |]. by apply EncodePeer_iff.
  - intros [Ht [Hv ->]%EncodePeer_iff]; [| done]. by apply DecodePeerRecord_fields.
Qed.

(** ** The input of the authenticator *)

Lemma record_bytes_inj kind f g :
  is_byte kind -> fields_ok f -> fields_ok g -> record_bytes kind f = record_bytes kind g -> f = g.
Proof.
  intros Hk Hf Hg E. pose proof (all_bytes_record kind f Hk (fo_wf f Hf)) as Hb.
  pose proof (proj2 (ParseRecord_iff kind _ f Hb Hk) (conj eq_refl Hf)) as H1.
  pose proof (proj2 (ParseRecord_iff kind _ g Hb Hk) (conj E Hg)) as H2. congruence.
Qed.

Lemma peer_fields_authenticator r a : peer_fields (r <| authenticator := a |>) = peer_fields r.
Proof. by destruct r. Qed.

Lemma peer_typed_authenticator r a :
  array_of kMacSize a -> peer_typed r -> peer_typed (r <| authenticator := a |>).
Proof. intros Ha []. by destruct r; split. Qed.

(** The authenticator of a peer record covers all of it: two records with the
    same authenticator input are equal but for the authenticator itself, and
    no authenticator input is the encoding of a peer record. *)
Theorem mac_input_binds_record r1 r2 input :
  peer_typed r1 -> peer_typed r2 ->
  EncodePeerMacInput true r1 = Success input -> EncodePeerMacInput true r2 = Success input ->
  r2 = r1 <| authenticator := authenticator r2 |> /\
  forall alloc r, DecodePeerRecord alloc input <> Success r.
Proof.
  unfold EncodePeerMacInput. intros T1 T2 [V1 E1]%EncodePeer_iff [V2 E2]%EncodePeer_iff; [| done | done].
  pose proof (peer_fields_ok r1 [] T1 V1 (or_introl eq_refl)) as F1.
  pose proof (peer_fields_ok r2 [] T2 V2 (or_introl eq_refl)) as F2. rewrite app_nil_r in F1, F2. split.
  - rewrite E1 in E2. apply record_bytes_inj in E2; [| by vm_compute | done | done].
    set (a := authenticator r2). assert (Ha : array_of kMacSize a) by apply (pt_authenticator r2 T2).
    pose proof (DecodePeerRecord_fields (r1 <| authenticator := a |>)
      (peer_typed_authenticator r1 a Ha T1) V1) as D1.
    pose proof (DecodePeerRecord_fields (r2 <| authenticator := a |>)
      (peer_typed_authenticator r2 a Ha T2) V2) as D2.
    rewrite peer_fields_authenticator in D1, D2.
    change (authenticator (r1 <| authenticator := a |>)) with a in D1.
    change (authenticator (r2 <| authenticator := a |>)) with a in D2.
    rewrite E2, D2 in D1. assert (D : r2 <| authenticator := a |> = r1 <| authenticator := a |>) by congruence.
    rewrite <- D. unfold a. clear. by destruct r2.
  - intros alloc r. unfold DecodePeerRecord.
    destruct (ParseRecord input kPeerKind) as [fs |] eqn:Ep; [| done].
    apply ParseRecord_iff in Ep as [Ep _].
    + rewrite E1 in Ep. apply (f_equal (fun l => at_ l 5)) in Ep. discriminate Ep.
    + rewrite E1. apply all_bytes_record; [by vm_compute | apply (fo_wf _ F1)].
    + by vm_compute.
Qed.

(** ** Examples *)

Module IdentityCodecExample.

Definition root : RootRecord :=
  {| revision := 3; seed := repeat 5 32; root_public_key := repeat 6 32;
     root_device_id := repeat 7 32; root_store_id := repeat 8 16;
     retired_store_id := Some (repeat 9 16) |}.

Definition root_encoded : bytes := record_bytes kRootKind (root_fields root).

Lemma root_record_codec_witness :
  DecodeRootRecord true root_encoded = Success root <->
  root_typed root /\ EncodeRootRecord true root = Success root_encoded.
Proof. apply (root_record_codec root_encoded root). by apply (bool_decide_unpack _); vm_compute. Defined.

Definition peer_record : StoredPeerRecord :=
  {| store_id := repeat 1 16; record_id := repeat 2 32; peer_root_device_id := repeat 3 32;
     peer := {| public_key := repeat 4 32; device_id := repeat 5 32; security_profile := 1;
                trust_state := TrustState.kActive; rotation_counter := 1; record_revision := 2;
                display_label := [76; 97; 112]; tombstones := [repeat 6 32] |};
     authenticator := repeat 7 32 |}.

Lemma peer_record_typed : peer_typed peer_record.
Proof. split; by apply (bool_decide_unpack _); vm_compute. Qed.

Definition peer_encoded : bytes :=
  record_bytes kPeerKind (peer_fields peer_record ++ [spec 12 (authenticator peer_record)]).

Lemma peer_record_codec_witness :
  DecodePeerRecord true peer_encoded = Success peer_record <->
  peer_typed peer_record /\ EncodePeerRecord true peer_record = Success peer_encoded.
Proof. apply (peer_record_codec peer_encoded peer_record). by apply (bool_decide_unpack _); vm_compute. Defined.

Lemma mac_input_binds_record_witness :
  peer_record = peer_record <| authenticator := authenticator peer_record |> /\
  forall alloc r,
    DecodePeerRecord alloc (record_bytes kPeerMacInputKind (peer_fields peer_record)) <> Success r.
Proof.
  apply (mac_input_binds_record peer_record peer_record); try apply peer_record_typed; by vm_compute.
Defined.

(** The round trips evaluate. *)
Lemma root_evaluates :
  EncodeRootRecord true root = Success root_encoded /\
  DecodeRootRecord true root_encoded = Success root.
Proof. split; by vm_compute. Qed.

Lemma peer_evaluates :
  EncodePeerRecord true peer_record = Success peer_encoded /\
  DecodePeerRecord true peer_encoded = Success peer_record.
Proof. split; by vm_compute. Qed.

End IdentityCodecExample.
