(* ===== verification/IdentityRepository.v ===== *)
(** * The identity repository

    [native/src/security/identity/identity_repository.cpp]: the device's own
    identity (the root record) and the records of its paired peers, kept in a
    protected store that other processes may use too.

    The store, the cryptography and the validator of public keys are the
    abstract classes [ProtectedStore], [IdentityCrypto] and
    [PeerPublicKeyValidator]; here they are the operations of an environment
    of an arbitrary type [W].  A call may fail and may change the environment
    in any way: what other processes do to the store happens there.  An
    allocation that throws where the code catches [std::bad_alloc] is
    [env_alloc] answering false.

    A function of the code that returns [Result<T>] is a computation that
    passes the environment on and stops at the first failure, which is what
    the tests of [ok()] after every call do.  A const method takes the object
    as an argument; a method that changes it passes it on as well. *)

From Stdlib Require Import Ascii.
From S2P Require Import Prelude.
From S2P Require Import IdentityCodec.

Module IdentityRepository.
Import IdentityTypes IdentityCodec.

(** ** The environment *)

Definition ProtectedItemId : Type := bytes.

Record ProtectedItemMetadata := {
  item_id : ProtectedItemId;
  meta_revision : Z;
}.

Record ProtectedItem := {
  item_revision : Z;
  payload : bytes;
}.

Class Environment (W : Type) := {
  env_alloc : W -> W * bool;
  (* ProtectedStore *)
  Enumerate : W -> W * Result (list ProtectedItemMetadata);
  Get : ProtectedItemId -> W -> W * Result (option ProtectedItem);
  CompareExchangePut : ProtectedItemId -> option Z -> ProtectedItem -> W -> W * Result unit;
  CompareExchangeDelete : ProtectedItemId -> Z -> W -> W * Result unit;
  (* IdentityCrypto *)
  GenerateSeed : W -> W * Result bytes;
  GenerateStoreId : W -> W * Result bytes;
  DerivePublicKey : bytes -> W -> W * Result bytes;
  DeriveDeviceId : bytes -> W -> W * Result bytes;
  DerivePeerRecordMacKey : bytes -> bytes -> W -> W * Result bytes;
  HmacSha256 : bytes -> bytes -> W -> W * Result bytes;
  (* PeerPublicKeyValidator *)
  Validate : bytes -> W -> W * Result unit;
}.

(** ** Computations *)

Section Computations.
Context {S : Type}.

Definition comp (A : Type) : Type := S -> S * Result A.

Definition ret {A} (a : A) : comp A := fun s => (s, Success a).
Definition fail {A} (e : ErrorCode) : comp A := fun s => (s, Failure e).

Definition bind {A B} (m : comp A) (k : A -> comp B) : comp B := fun s =>
  let '(s, r) := m s in
  match r with Success a => k a s | Failure e => (s, Failure e) end.

(** A call whose failure does not end the caller. *)
Definition try_ {A} (m : comp A) : comp (Result A) := fun s =>
  let '(s, r) := m s in (s, Success r).

(** A value that was computed without effects. *)
Definition of_result {A} (r : Result A) : comp A := fun s => (s, r).

End Computations.

Notation "'let!' x ':=' m 'in' k" := (bind m (fun x => k))
  (at level 10, x name, m at level 100, k at level 200).

(** ** Constants and item ids *)

Definition text (s : string) : bytes :=
  List.map (fun c => Z.of_nat (nat_of_ascii c)) (list_ascii_of_string s).

Definition kRootItemId : ProtectedItemId := text "root".
Definition kPeerItemPrefix : bytes := text "peer/".
Definition kPeerMacLabel : bytes := text "XnnTransfer peer record MAC v1".
Definition kHexDigits : bytes := text "0123456789abcdef".
Definition kEncodedStoreIdSize : Z := kStoreIdSize * 2.
Definition kEncodedRecordIdSize : Z := kDeviceIdSize * 2.
Definition kPeerItemIdSize : Z :=
  bsize kPeerItemPrefix + kEncodedStoreIdSize + 1 + kEncodedRecordIdSize.

Record ParsedPeerItemId := {
  parsed_store_id : bytes;
  parsed_record_id : bytes;
}.

Record RootMetadata := {
  rm_revision : Z;
  rm_public_key : bytes;
  rm_device_id : bytes;
  rm_store_id : bytes;
  rm_retired_store_id : option bytes;
}.

(** The comparison of two arrays of one size. *)
Definition ConstantTimeEqual (l1 l2 : bytes) : bool :=
  fold_left (fun difference p => u8 (Z.lor difference (u8 (Z.lxor p.1 p.2))))
    (zip l1 l2) 0 =? 0.

Definition IsAllZero (value : bytes) : bool :=
  fold_left (fun combined byte => u8 (Z.lor combined byte)) value 0 =? 0.

Definition DecodeNibble (value : Z) : option Z :=
  if (value >=? 48) && (value <=? 57) then Some (u8 (value - 48))
  else if (value >=? 97) && (value <=? 102) then Some (u8 (value - 97 + 10))
  else None.

Fixpoint DecodeHex_loop (size : nat) (encoded : bytes) : option bytes :=
  match size with
  | O => Some []
  | S size =>
      match DecodeNibble (at_ encoded 0), DecodeNibble (at_ encoded 1) with
      | Some high, Some low =>
          match DecodeHex_loop size (drop 2 encoded) with
          | Some output => Some (u8 (Z.lor (Z.shiftl high 4) low) :: output)
          | None => None
          end
      | _, _ => None
      end
  end.

Definition DecodeHex (size : Z) (encoded : bytes) : option bytes :=
  if negb (bsize encoded =? size * 2) then None else DecodeHex_loop (Z.to_nat size) encoded.

Definition AppendHex (output data : bytes) : bytes :=
  fold_left (fun output byte =>
    output ++ [at_ kHexDigits (Z.shiftr byte 4)] ++ [at_ kHexDigits (Z.land byte 15)]) data output.

Definition BuildPeerItemId (alloc : bool) (store_id record_id : bytes) : Result ProtectedItemId :=
  if negb alloc then Failure kCapacityExceeded
  else
  let item_id := kPeerItemPrefix in
  let item_id := AppendHex item_id store_id in
  let item_id := item_id ++ [47] in
  let item_id := AppendHex item_id record_id in
  if bsize item_id >? kMaxProtectedItemIdBytes then Failure kCapacityExceeded
  else Success item_id.

Definition ParsePeerItemId (item_id : ProtectedItemId) : Result ParsedPeerItemId :=
  if negb (bsize item_id =? kPeerItemIdSize) ||
     negb (same_bytes (take (length kPeerItemPrefix) item_id) kPeerItemPrefix) ||
     negb (at_ item_id (bsize kPeerItemPrefix + kEncodedStoreIdSize) =? 47) then
    Failure kCorruptRecord
  else
  match DecodeHex kStoreIdSize (subspan item_id (bsize kPeerItemPrefix) kEncodedStoreIdSize),
        DecodeHex kDeviceIdSize
          (subspan item_id (bsize kPeerItemPrefix + kEncodedStoreIdSize + 1) kEncodedRecordIdSize) with
  | Some store_id, Some record_id =>
      Success {| parsed_store_id := store_id; parsed_record_id := record_id |}
  | _, _ => Failure kCorruptRecord
  end.

Definition RootMetadataFrom (root : RootRecord) : RootMetadata :=
  {| rm_revision := revision root; rm_public_key := root_public_key root;
     rm_device_id := root_device_id root; rm_store_id := root_store_id root;
     rm_retired_store_id := retired_store_id root |}.

Definition RootMatches (root : RootRecord) (expected : RootMetadata) : bool :=
  if negb (revision root =? rm_revision expected) ||
     negb (ConstantTimeEqual (root_public_key root) (rm_public_key expected)) ||
     negb (ConstantTimeEqual (root_device_id root) (rm_device_id expected)) ||
     negb (ConstantTimeEqual (root_store_id root) (rm_store_id expected)) ||
     negb (Bool.eqb (bool_decide (is_Some (retired_store_id root)))
                    (bool_decide (is_Some (rm_retired_store_id expected)))) then false
  else
  match retired_store_id root, rm_retired_store_id expected with
  | Some a, Some b => ConstantTimeEqual a b
  | _, _ => true
  end.

(** ** The object *)

Record StoredPeer := {
  sp_item_id : ProtectedItemId;
  record : StoredPeerRecord;
}.

Record IdentityRepository := {
  root : RootMetadata;
  stored_peers : list StoredPeer;
  peer_view : list PeerRecord;
  ready_ : bool;
}.

#[global] Instance eta_StoredPeer : Eta StoredPeer := fun x =>
  {| sp_item_id := sp_item_id x; record := record x |}.

#[global] Instance eta_IdentityRepository : Eta IdentityRepository := fun x =>
  {| root := root x; stored_peers := stored_peers x; peer_view := peer_view x;
     ready_ := ready_ x |}.

Definition IdentityRepository_initial : IdentityRepository :=
  {| root := {| rm_revision := 0; rm_public_key := repeat 0 32; rm_device_id := repeat 0 32;
                rm_store_id := repeat 0 16; rm_retired_store_id := None |};
     stored_peers := []; peer_view := []; ready_ := false |}.

Definition stored_device_id (s : StoredPeer) : bytes := device_id (peer (record s)).

(** [std::sort] by device id. *)
Fixpoint insert_stored (s : StoredPeer) (l : list StoredPeer) : list StoredPeer :=
  match l with
  | [] => [s]
  | x :: l => if array_less (stored_device_id x) (stored_device_id s) then x :: insert_stored s l
              else s :: x :: l
  end.

Definition sort_stored (l : list StoredPeer) : list StoredPeer := foldr insert_stored [] l.

(** [std::lower_bound] on a range sorted by the key: the first element that is
    not less. *)
Fixpoint lower_bound {A} (key : A -> bytes) (wanted : bytes) (l : list A) : option A :=
  match l with
  | [] => None
  | x :: l => if array_less (key x) wanted then lower_bound key wanted l else Some x
  end.

Definition FindStoredPeer (r : IdentityRepository) (device_id : bytes) : option StoredPeer :=
  match lower_bound stored_device_id device_id (stored_peers r) with
  | Some s => if negb (same_bytes (stored_device_id s) device_id) then None else Some s
  | None => None
  end.

Definition FindPeer (r : IdentityRepository) (device_id_ : bytes) : option PeerRecord :=
  if negb (ready_ r) then None
  else
  match lower_bound device_id device_id_ (peer_view r) with
  | Some p => if negb (same_bytes (device_id p) device_id_) then None else Some p
  | None => None
  end.

(** [KeyIsKnown] without an excepted peer, as it is called. *)
Definition KeyIsKnown (r : IdentityRepository) (key : bytes) : bool :=
  existsb (fun s => same_bytes (public_key (peer (record s))) key ||
                    existsb (same_bytes key) (tombstones (peer (record s)))) (stored_peers r).

Definition ready (r : IdentityRepository) : bool := ready_ r.
Definition revision_ (r : IdentityRepository) : Z := if ready_ r then rm_revision (root r) else 0.
Definition own_public_key (r : IdentityRepository) : option bytes :=
  if ready_ r then Some (rm_public_key (root r)) else None.
Definition own_device_id (r : IdentityRepository) : option bytes :=
  if ready_ r then Some (rm_device_id (root r)) else None.
Definition peers (r : IdentityRepository) : list PeerRecord := if ready_ r then peer_view r else [].

(** ** Unique keys *)

(** The checks of the peer at [index] against the list. *)
Definition peer_key_clash (peers : list StoredPeer) (index : nat) (s : StoredPeer) : bool :=
  let key := public_key (peer (record s)) in
  existsb (fun p : nat * StoredPeer =>
    (negb (Nat.eqb p.1 index) && same_bytes (public_key (peer (record p.2))) key) ||
    existsb (fun tombstone => same_bytes tombstone key) (tombstones (peer (record p.2))))
    (zip (seq 0 (length peers)) peers)
  || existsb (fun tombstone =>
       existsb (fun other => existsb (same_bytes tombstone) (tombstones (peer (record other))))
         (drop (index + 1) peers))
       (tombstones (peer (record s))).

Definition ValidateUniquePeerKeys (peers : list StoredPeer) : Result unit :=
  if existsb (fun p : nat * StoredPeer => peer_key_clash peers p.1 p.2)
       (zip (seq 0 (length peers)) peers)
  then Failure kCorruptRecord else Success tt.

Definition not_strictly_sorted (l : list StoredPeer) : bool :=
  existsb (fun p : StoredPeer * StoredPeer =>
    negb (array_less (stored_device_id p.1) (stored_device_id p.2))) (zip l (drop 1 l)).

Section Repository.
Context {W : Type} {env : Environment W}.

Abbreviation E := (comp (S := W)).

Definition alloc_ : E bool := fun w => let '(w, a) := env_alloc w in (w, Success a).

(** An allocation inside a try block. *)
Definition allocate : E unit :=
  let! ok := alloc_ in if ok then ret tt else fail kCapacityExceeded.

(** ** Roots *)

Definition GenerationHasItems (store_id : bytes) : E bool :=
  let! items := Enumerate in
  (fix loop (items : list ProtectedItemMetadata) : E bool :=
     match items with
     | [] => ret false
     | metadata :: items =>
         if same_bytes (item_id metadata) kRootItemId then loop items
         else
         let! parsed := of_result (ParsePeerItemId (item_id metadata)) in
         if same_bytes (parsed_store_id parsed) store_id then ret true else loop items
     end) items.

Definition MakeRoot (revision : Z) : E RootRecord :=
  let! seed := GenerateSeed in
  let! store_id := GenerateStoreId in
  if IsAllZero store_id then fail kEntropyFailure
  else
  let! public_key := DerivePublicKey seed in
  let! device_id := DeriveDeviceId public_key in
  ret {| revision := revision; seed := seed; root_public_key := public_key;
         root_device_id := device_id; root_store_id := store_id; retired_store_id := None |}.

Definition DecodeAndValidateRoot (root_item : ProtectedItem) : E RootRecord :=
  let! a := alloc_ in
  let! root := of_result (DecodeRootRecord a (payload root_item)) in
  if negb (revision root =? item_revision root_item) then fail kRollbackDetected
  else if IsAllZero (root_store_id root) then fail kCorruptRecord
  else
  let! public_key := DerivePublicKey (seed root) in
  if negb (ConstantTimeEqual public_key (root_public_key root)) then fail kCorruptRecord
  else
  let! device_id := DeriveDeviceId (root_public_key root) in
  if negb (ConstantTimeEqual device_id (root_device_id root)) then fail kCorruptRecord
  else ret root.

(** ** Peers against a root *)

(** The free function [ComputePeerMac]; it uses the seed and the store id of
    the root. *)
Definition ComputePeerMacWith (seed store_id : bytes) (stored : StoredPeerRecord) : E bytes :=
  let! a := alloc_ in
  let! input := of_result (EncodePeerMacInput a stored) in
  let! mac_key := DerivePeerRecordMacKey seed store_id in
  let! _ := allocate in
  HmacSha256 mac_key (kPeerMacLabel ++ input).

(** A key of a stored record, validated. *)
Definition ValidateStoredKey (key : bytes) : E unit :=
  let! validation := try_ (Validate key) in
  match validation with
  | Success _ => ret tt
  | Failure e => fail (if decide (e = kInvalidArgument) then kCorruptRecord else e)
  end.

Fixpoint ValidateStoredKeys (keys : list bytes) : E unit :=
  match keys with
  | [] => ret tt
  | key :: keys => let! _ := ValidateStoredKey key in ValidateStoredKeys keys
  end.

Definition ValidatePeerAgainstRoot (seed : bytes) (root : RootMetadata) (stored : StoredPeerRecord)
    : E unit :=
  let p := peer stored in
  if negb (ConstantTimeEqual (store_id stored) (rm_store_id root)) ||
     negb (ConstantTimeEqual (peer_root_device_id stored) (rm_device_id root)) ||
     IsAllZero (record_id stored) || (record_revision p =? 0) ||
     negb (rotation_counter p =? Z.of_nat (length (tombstones p))) then fail kCorruptRecord
  else
  let! _ := ValidateStoredKey (public_key p) in
  let! _ := ValidateStoredKeys (tombstones p) in
  let! device_id_ := DeriveDeviceId (public_key p) in
  if negb (ConstantTimeEqual device_id_ (device_id p)) then fail kCorruptRecord
  else
  let! mac := ComputePeerMacWith seed (rm_store_id root) stored in
  if negb (ConstantTimeEqual mac (authenticator stored)) then fail kCorruptRecord
  else ret tt.

(** ** Loading *)

(** The loop of [LoadFromRoot] over the items; the peers read so far, in the
    order of the items. *)
Fixpoint LoadFromRoot_loop (seed : bytes) (root : RootMetadata)
    (items : list ProtectedItemMetadata) (saw_root : bool) (stored : list StoredPeer)
    : E (bool * list StoredPeer) :=
  match items with
  | [] => ret (saw_root, stored)
  | metadata :: items =>
      if same_bytes (item_id metadata) kRootItemId then
        if saw_root || negb (meta_revision metadata =? rm_revision root) then fail kRevisionConflict
        else LoadFromRoot_loop seed root items true stored
      else
      let! parsed_id := of_result (ParsePeerItemId (item_id metadata)) in
      if negb (same_bytes (parsed_store_id parsed_id) (rm_store_id root)) then
        LoadFromRoot_loop seed root items saw_root stored
      else if Z.of_nat (length stored) =? kMaxPeerRecords then fail kCapacityExceeded
      else
      let! found := Get (item_id metadata) in
      match found with
      | None => fail kRevisionConflict
      | Some item =>
          if negb (item_revision item =? meta_revision metadata) then fail kRevisionConflict
          else
          let! a := alloc_ in
          let! p := of_result (DecodePeerRecord a (payload item)) in
          if negb (record_revision (peer p) =? item_revision item) then fail kRollbackDetected
          else if negb (same_bytes (store_id p) (parsed_store_id parsed_id)) ||
                  negb (same_bytes (record_id p) (parsed_record_id parsed_id)) then fail kCorruptRecord
          else
          let! _ := ValidatePeerAgainstRoot seed root p in
          let! _ := allocate in
          LoadFromRoot_loop seed root items saw_root
            (stored ++ [{| sp_item_id := item_id metadata; record := p |}])
      end
  end.

(** What [LoadFromRoot] reads, before it assigns the members. *)
Definition ReadFromRoot (root_item : ProtectedItem) : E (RootMetadata * list StoredPeer) :=
  let! root := DecodeAndValidateRoot root_item in
  let! items := Enumerate in
  let! loaded := LoadFromRoot_loop (seed root) (RootMetadataFrom root) items false [] in
  let saw_root := loaded.1 in
  if negb saw_root then fail kRevisionConflict
  else
  let stored := sort_stored loaded.2 in
  if not_strictly_sorted stored then fail kCorruptRecord
  else
  let! _ := of_result (ValidateUniquePeerKeys stored) in
  let! _ := allocate in
  let! final_root := Get kRootItemId in
  match final_root with
  | None => fail kRevisionConflict
  | Some final_root =>
      let! final_decoded := DecodeAndValidateRoot final_root in
      if negb (RootMatches final_decoded (RootMetadataFrom root)) then fail kRevisionConflict
      else ret (RootMetadataFrom root, stored)
  end.

(** ** The methods that do not change the object *)

Definition LoadIdentitySeed (r : IdentityRepository) : E bytes :=
  if negb (ready_ r) then fail kInvalidState
  else
  let! root_item := Get kRootItemId in
  match root_item with
  | None => fail kIdentityLoss
  | Some root_item =>
      let! decoded := DecodeAndValidateRoot root_item in
      if negb (revision decoded =? rm_revision (root r)) then fail kRevisionConflict
      else if negb (RootMatches decoded (root r)) then fail kCorruptRecord
      else ret (seed decoded)
  end.

Definition EnsureRootCurrent (r : IdentityRepository) : E unit :=
  let! _ := LoadIdentitySeed r in ret tt.

Definition ValidatePeer (r : IdentityRepository) (p : StoredPeer) : E unit :=
  let! seed := LoadIdentitySeed r in
  ValidatePeerAgainstRoot seed (root r) (record p).

Definition ComputePeerMac (r : IdentityRepository) (p : StoredPeer) : E bytes :=
  let! seed := LoadIdentitySeed r in
  ComputePeerMacWith seed (rm_store_id (root r)) (record p).

(** [UseIdentitySeed]; an empty [std::function] is [None]. *)
Definition UseIdentitySeed (r : IdentityRepository) (consumer : option (bytes -> E unit)) : E unit :=
  if negb (ready_ r) then fail kInvalidState
  else
  match consumer with
  | None => fail kInvalidArgument
  | Some consumer => let! seed := LoadIdentitySeed r in consumer seed
  end.

Definition CleanupStaleItems (r : IdentityRepository) : E unit :=
  if negb (ready_ r) then fail kInvalidState
  else
  let! _ := EnsureRootCurrent r in
  match rm_retired_store_id (root r) with
  | None => ret tt
  | Some retired =>
      let! items := Enumerate in
      (fix loop (items : list ProtectedItemMetadata) : E unit :=
         match items with
         | [] => ret tt
         | metadata :: items =>
             if same_bytes (item_id metadata) kRootItemId then loop items
             else
             let! parsed := of_result (ParsePeerItemId (item_id metadata)) in
             if negb (same_bytes (parsed_store_id parsed) retired) then loop items
             else
             let! _ := CompareExchangeDelete (item_id metadata) (meta_revision metadata) in
             loop items
         end) items
  end.

(** ** The methods that change the object *)

Abbreviation M := (comp (S := IdentityRepository * W)).

Definition lift {A} (m : E A) : M A := fun s =>
  let '(w, a) := m s.2 in ((s.1, w), a).
Definition this : M IdentityRepository := fun s => (s, Success s.1).
Definition assign (r : IdentityRepository) : M unit := fun s => ((r, s.2), Success tt).

Definition view_of (stored : list StoredPeer) : list PeerRecord :=
  List.map (fun s => peer (record s)) stored.

Definition LoadFromRoot (root_item : ProtectedItem) : M unit :=
  let! loaded := lift (ReadFromRoot root_item) in
  assign {| root := loaded.1; stored_peers := loaded.2; peer_view := view_of loaded.2;
            ready_ := true |}.

Definition InitializeEmpty : M unit :=
  let! new_root := lift (MakeRoot 1) in
  let! a := lift alloc_ in
  let! encoded := of_result (EncodeRootRecord a new_root) in
  let! written := lift (try_ (CompareExchangePut kRootItemId None
                                {| item_revision := 1; payload := encoded |})) in
  match written with
  | Failure e =>
      if negb (bool_decide (e = kRevisionConflict)) then fail e
      else
      let! winner := lift (Get kRootItemId) in
      match winner with
      | None => fail kRevisionConflict
      | Some winner => LoadFromRoot winner
      end
  | Success _ =>
      assign {| root := RootMetadataFrom new_root; stored_peers := []; peer_view := [];
                ready_ := true |}
  end.

Definition Open : M unit :=
  let! r := this in
  if ready_ r then fail kInvalidState
  else
  let! root_item := lift (Get kRootItemId) in
  match root_item with
  | Some root_item => LoadFromRoot root_item
  | None =>
      let! items := lift Enumerate in
      match items with
      | [] => InitializeEmpty
      | _ =>
          let! root_item := lift (Get kRootItemId) in
          match root_item with
          | None => fail kIdentityLoss
          | Some root_item => LoadFromRoot root_item
          end
      end
  end.

Definition Refresh : M unit :=
  let! r := this in
  if negb (ready_ r) then fail kInvalidState
  else
  let! root_item := lift (Get kRootItemId) in
  match root_item with
  | None => fail kIdentityLoss
  | Some root_item => LoadFromRoot root_item
  end.

(** The peers with [p] in the place of the one of its item id, or at the end. *)
Fixpoint replace_stored (p : StoredPeer) (l : list StoredPeer) : option (list StoredPeer) :=
  match l with
  | [] => None
  | x :: l =>
      if same_bytes (sp_item_id x) (sp_item_id p) then Some (p :: l)
      else match replace_stored p l with Some l => Some (x :: l) | None => None end
  end.

Definition PutPeer (p : StoredPeer) (expected_revision : option Z) : M unit :=
  let! r := this in
  let! _ := lift (ValidatePeer r p) in
  let! a := lift alloc_ in
  let! encoded := of_result (EncodePeerRecord a (record p)) in
  let! _ := lift allocate in
  let! candidate :=
    match replace_stored p (stored_peers r), expected_revision with
    | None, None => let! _ := lift allocate in ret (stored_peers r ++ [p])
    | Some candidate, Some _ => ret candidate
    | _, _ => fail kInvalidState
    end in
  let candidate := sort_stored candidate in
  match ValidateUniquePeerKeys candidate with
  | Failure _ => fail kInvalidState
  | Success _ =>
      let! _ := lift allocate in
      let! _ := lift (EnsureRootCurrent r) in
      let! _ := lift (CompareExchangePut (sp_item_id p) expected_revision
                        {| item_revision := record_revision (peer (record p)); payload := encoded |}) in
      assign (r <| stored_peers := candidate |> <| peer_view := view_of candidate |>)
  end.

Record PeerCommit := {
  pc_public_key : bytes;
  pc_security_profile : Z;
  pc_display_label : bytes;
}.

Definition CommitPeer (p : PeerCommit) : M bytes :=
  let! r := this in
  if negb (ready_ r) then fail kInvalidState
  else if (pc_security_profile p =? 0) || (bsize (pc_display_label p) >? kMaxDisplayLabelBytes) then
    fail kInvalidArgument
  else if Z.of_nat (length (stored_peers r)) =? kMaxPeerRecords then fail kCapacityExceeded
  else
  let! _ := lift (Validate (pc_public_key p)) in
  if KeyIsKnown r (pc_public_key p) then fail kInvalidState
  else
  let! device_id_ := lift (DeriveDeviceId (pc_public_key p)) in
  if bool_decide (is_Some (FindPeer r device_id_)) then fail kInvalidState
  else
  let stored :=
    {| store_id := rm_store_id (root r); record_id := device_id_;
       peer_root_device_id := rm_device_id (root r);
       peer := {| public_key := pc_public_key p; device_id := device_id_;
                  security_profile := pc_security_profile p; trust_state := TrustState.kActive;
                  rotation_counter := 0; record_revision := 1;
                  display_label := pc_display_label p; tombstones := [] |};
       authenticator := repeat 0 32 |} in
  let! a := lift alloc_ in
  let! id := of_result (BuildPeerItemId a (store_id stored) (record_id stored)) in
  let! mac := lift (ComputePeerMac r {| sp_item_id := id; record := stored |}) in
  let! _ := PutPeer {| sp_item_id := id; record := stored <| authenticator := mac |> |} None in
  ret device_id_.

Definition RotatePeer (current_device_id new_public_key : bytes) (rotation : Z) : M bytes :=
  let! r := this in
  if negb (ready_ r) then fail kInvalidState
  else
  match FindStoredPeer r current_device_id with
  | None => fail kNotFound
  | Some current =>
      let p := peer (record current) in
      if negb (trust_state p =? TrustState.kActive) || (rotation_counter p =? umax 64) ||
         negb (rotation =? uadd 64 (rotation_counter p) 1) || (record_revision p =? umax 64) ||
         (Z.of_nat (length (tombstones p)) =? kMaxPeerTombstones) then fail kInvalidState
      else
      let! _ := lift (Validate new_public_key) in
      if KeyIsKnown r new_public_key then fail kInvalidState
      else
      let! new_device_id := lift (DeriveDeviceId new_public_key) in
      if bool_decide (is_Some (FindPeer r new_device_id)) then fail kInvalidState
      else
      let! _ := lift allocate in
      let candidate := (record current) <| peer :=
        p <| tombstones := tombstones p ++ [public_key p] |> <| public_key := new_public_key |>
          <| device_id := new_device_id |> <| rotation_counter := rotation |>
          <| record_revision := uadd 64 (record_revision p) 1 |> |> in
      let! mac := lift (ComputePeerMac r (current <| record := candidate |>)) in
      let! _ := PutPeer (current <| record := candidate <| authenticator := mac |> |>)
                  (Some (record_revision p)) in
      ret new_device_id
  end.

Definition RevokePeer (device_id_ : bytes) : M unit :=
  let! r := this in
  if negb (ready_ r) then fail kInvalidState
  else
  match FindStoredPeer r device_id_ with
  | None => fail kNotFound
  | Some current =>
      let p := peer (record current) in
      if negb (trust_state p =? TrustState.kActive) || (record_revision p =? umax 64) then
        fail kInvalidState
      else
      let candidate := (record current) <| peer :=
        p <| trust_state := TrustState.kRevoked |>
          <| record_revision := uadd 64 (record_revision p) 1 |> |> in
      let! mac := lift (ComputePeerMac r (current <| record := candidate |>)) in
      PutPeer (current <| record := candidate <| authenticator := mac |> |>)
        (Some (record_revision p))
  end.

Definition ForgetPeer (device_id_ : bytes) : M unit :=
  let! r := this in
  if negb (ready_ r) then fail kInvalidState
  else
  match FindStoredPeer r device_id_ with
  | None => fail kNotFound
  | Some current =>
      if negb (trust_state (peer (record current)) =? TrustState.kRevoked) then fail kInvalidState
      else
      let! _ := lift allocate in
      let candidate :=
        List.filter (fun s => negb (same_bytes (sp_item_id s) (sp_item_id current))) (stored_peers r) in
      let! _ := lift (EnsureRootCurrent r) in
      let! _ := lift (CompareExchangeDelete (sp_item_id current)
                        (record_revision (peer (record current)))) in
      assign (r <| stored_peers := candidate |> <| peer_view := view_of candidate |>)
  end.

(** [Reset]; its outcome says whether the cleanup was complete. *)
Definition Reset : M bool :=
  let! r := this in
  if negb (ready_ r) || (rm_revision (root r) =? umax 64) then fail kInvalidState
  else
  let! _ := lift (EnsureRootCurrent r) in
  let! pending :=
    match rm_retired_store_id (root r) with
    | Some retired => lift (GenerationHasItems retired)
    | None => ret false
    end in
  if pending : bool then fail kInvalidState
  else
  let next_revision := uadd 64 (rm_revision (root r)) 1 in
  let! made := lift (MakeRoot next_revision) in
  if ConstantTimeEqual (root_store_id made) (rm_store_id (root r)) ||
     ConstantTimeEqual (root_public_key made) (rm_public_key (root r)) then fail kEntropyFailure
  else
  let replacement := made <| retired_store_id := Some (rm_store_id (root r)) |> in
  let! a := lift alloc_ in
  let! encoded := of_result (EncodeRootRecord a replacement) in
  let! _ := lift (CompareExchangePut kRootItemId (Some (rm_revision (root r)))
                    {| item_revision := next_revision; payload := encoded |}) in
  let r' := {| root := RootMetadataFrom replacement; stored_peers := []; peer_view := [];
               ready_ := true |} in
  let! _ := assign r' in
  let! cleanup := lift (try_ (CleanupStaleItems r')) in
  ret (ok cleanup).

End Repository.
End IdentityRepository.
