(* ===== verification/IdentityRepositoryProofs.v ===== *)
(** * The identity repository and its store

    Lemmas on item ids, comparisons, sorting and unique keys; every failed call
    leaves the object as it was. *)

From stdpp Require Import sorting sets.
From S2P Require Import Prelude.
From S2P Require Utf8.
From S2P Require Import FieldBlocks.
From S2P Require Import IdentityCodec.
From S2P Require Import IdentityCodecProofs.
From S2P Require Import IdentityRepository.
Import IdentityTypes IdentityCodec IdentityRepository.

(** ** Comparisons *)

Lemma fold_lor_zero (l : list Z) acc :
  is_byte acc -> Forall is_byte l ->
  fold_left (fun c b => u8 (Z.lor c b)) l acc = 0 <-> acc = 0 /\ Forall (fun b => b = 0) l.
Proof.
  intros Ha Hl. revert acc Ha. induction Hl as [| b l Hb Hl IH]; intros acc Ha; cbn [fold_left].
  - split; [intros ->; by split | by intros [-> _]].
  - assert (Hr : is_byte (Z.lor acc b)).
    { unfold is_byte, in_width in *. split; [apply Z.lor_nonneg; lia |].
      destruct (Z.eq_dec (Z.lor acc b) 0) as [-> | Hn]; [lia |].
      apply Z.log2_lt_pow2; [pose proof (proj2 (Z.lor_nonneg acc b) ltac:(lia)); lia |].
      rewrite Z.log2_lor by lia. apply Z.max_lub_lt.
      - destruct (Z.eq_dec acc 0) as [-> |]; [done |]. apply Z.log2_lt_pow2; lia.
      - destruct (Z.eq_dec b 0) as [-> |]; [done |]. apply Z.log2_lt_pow2; lia. }
    rewrite wrap_small by exact Hr. rewrite IH by exact Hr. rewrite list.Forall_cons, Z.lor_eq_0_iff. tauto.
Qed.

Lemma IsAllZero_spec l : all_bytes l -> IsAllZero l = true <-> Forall (fun b => b = 0) l.
Proof.
  intros Hl. unfold IsAllZero. rewrite Z.eqb_eq, fold_lor_zero by (done || (unfold is_byte, in_width; lia)).
  tauto.
Qed.

Lemma IsAllZero_all_zero l : all_bytes l -> IsAllZero l = all_zero l.
Proof.
  intros Hl. apply eq_true_iff_eq. rewrite IsAllZero_spec by done. unfold all_zero.
  rewrite forallb_forall, List.Forall_forall. split; intros H x Hx; [apply Z.eqb_eq | apply Z.eqb_eq]; auto.
Qed.

Lemma lxor_byte a b : is_byte a -> is_byte b -> is_byte (Z.lxor a b).
Proof.
  unfold is_byte, in_width. intros Ha Hb. split; [apply Z.lxor_nonneg; lia |].
  destruct (Z.eq_dec (Z.lxor a b) 0) as [-> | Hn]; [lia |].
  pose proof (proj2 (Z.lxor_nonneg a b) ltac:(lia)).
  apply Z.log2_lt_pow2; [lia |]. eapply Z.le_lt_trans; [apply Z.log2_lxor; lia |]. apply Z.max_lub_lt.
  - destruct (Z.eq_dec a 0) as [-> |]; [done |]. apply Z.log2_lt_pow2; lia.
  - destruct (Z.eq_dec b 0) as [-> |]; [done |]. apply Z.log2_lt_pow2; lia.
Qed.

(** On arrays of one size the comparison is equality. *)
Lemma ConstantTimeEqual_spec a b :
  all_bytes a -> all_bytes b -> bsize a = bsize b -> ConstantTimeEqual a b = true <-> a = b.
Proof.
  intros Ha Hb Hs. unfold ConstantTimeEqual. rewrite Z.eqb_eq.
  assert (Hfold : forall l acc, fold_left (fun difference p => u8 (Z.lor difference (u8 (Z.lxor p.1 p.2)))) l acc
    = fold_left (fun c b => u8 (Z.lor c b)) (List.map (fun p : Z * Z => u8 (Z.lxor p.1 p.2)) l) acc).
  { intros l. induction l as [| p l IH]; intros acc; [done |]. cbn [fold_left List.map]. apply IH. }
  assert (Hl : length a = length b) by (unfold bsize in Hs; lia). clear Hs.
  rewrite Hfold, fold_lor_zero.
  - revert b Hb Hl. induction Ha as [| x a Hx Ha IH]; intros b Hb Hl.
    { destruct b; [| done]. split; [done |]. intros _. split; [done | by apply Forall_nil]. }
    destruct b as [| y b]; [done |]. apply list.Forall_cons in Hb as [Hy Hb]. cbn [zip zip_with List.map fst snd]. rewrite list.Forall_cons.
    injection Hl as Hl. specialize (IH b Hb Hl).
    rewrite wrap_small by by apply lxor_byte. rewrite Z.lxor_eq_0_iff. split.
    + intros (_ & -> & H). f_equal. by apply IH.
    + intros [= -> ->]. split; [done |]. split; [done |]. by apply IH.
  - unfold is_byte, in_width. lia.
  - apply List.Forall_forall. intros v (p & <- & _)%in_map_iff. by apply wrap_range.
Qed.

Lemma array_equal n a b : array_of n a -> array_of n b -> ConstantTimeEqual a b = true <-> a = b.
Proof. intros [H1 H2] [H3 H4]. apply ConstantTimeEqual_spec; congruence || done. Qed.

(** ** Item ids *)

Definition hex_byte (b : Z) : bytes := [at_ kHexDigits (Z.shiftr b 4); at_ kHexDigits (Z.land b 15)].
Definition hex (l : bytes) : bytes := concat (List.map hex_byte l).

Lemma AppendHex_eq output data : AppendHex output data = output ++ hex data.
Proof.
  unfold AppendHex, hex. revert output. induction data as [| b data IH]; intros output; simpl.
  - by rewrite app_nil_r.
  - rewrite IH. by rewrite <- app_assoc.
Qed.

Lemma length_hex l : length (hex l) = (2 * length l)%nat.
Proof. induction l as [| b l IH]; [done |]. unfold hex in *. simpl. rewrite IH. lia. Qed.

Lemma nibbles_of_byte b : is_byte b ->
  exists high low, DecodeNibble (at_ (hex_byte b) 0) = Some high /\
    DecodeNibble (at_ (hex_byte b) 1) = Some low /\ u8 (Z.lor (Z.shiftl high 4) low) = b.
Proof.
  intros Hb.
  assert (H : (match DecodeNibble (at_ (hex_byte b) 0), DecodeNibble (at_ (hex_byte b) 1) with
    | Some high, Some low => u8 (Z.lor (Z.shiftl high 4) low) =? b | _, _ => false end) = true).
  { revert b Hb. apply Utf8.byte_forall. by vm_compute. }
  destruct (DecodeNibble _) as [high |]; [| done]. destruct (DecodeNibble _) as [low |]; [| done].
  apply Z.eqb_eq in H. by exists high, low.
Qed.

Lemma hex_of_nibbles x y high low :
  DecodeNibble x = Some high -> DecodeNibble y = Some low ->
  hex_byte (u8 (Z.lor (Z.shiftl high 4) low)) = [x; y] /\ is_byte (u8 (Z.lor (Z.shiftl high 4) low)).
Proof.
  intros Hx Hy. split; [| by apply wrap_range].
  assert (Hdigit : forall z n, DecodeNibble z = Some n -> z = at_ kHexDigits n /\ 0 <= n < 16).
  { intros z n. unfold DecodeNibble.
    destruct ((z >=? 48) && (z <=? 57)) eqn:E1; [| destruct ((z >=? 97) && (z <=? 102)) eqn:E2; [| done]];
      bool_facts; intros [= <-].
    - assert (Hz : z = 48 \/ z = 49 \/ z = 50 \/ z = 51 \/ z = 52 \/ z = 53 \/ z = 54 \/ z = 55 \/ z = 56 \/ z = 57) by lia.
      repeat destruct Hz as [-> | Hz]; try subst z; by vm_compute.
    - assert (Hz : z = 97 \/ z = 98 \/ z = 99 \/ z = 100 \/ z = 101 \/ z = 102) by lia.
      repeat destruct Hz as [-> | Hz]; try subst z; by vm_compute. }
  destruct (Hdigit x high Hx) as [-> Hh]. destruct (Hdigit y low Hy) as [-> Hl].
  rewrite lor_shiftl_add by lia. rewrite wrap_small by (unfold in_width; lia).
  unfold hex_byte. rewrite shiftr_div by lia. change 15 with (2 ^ 4 - 1). rewrite land_mask by lia.
  change (2 ^ 4) with 16.
  assert ((high * 16 + low) / 16 = high) as -> by zlia.
  assert ((high * 16 + low) mod 16 = low) as -> by zlia. done.
Qed.

Lemma DecodeHex_loop_complete l rest :
  all_bytes l -> DecodeHex_loop (length l) (hex l ++ rest) = Some l.
Proof.
  induction 1 as [| b l Hb Hl IH]; [done |].
  unfold hex in *. cbn [List.map concat length DecodeHex_loop].
  destruct (nibbles_of_byte b Hb) as (high & low & H1 & H2 & H3).
  rewrite <- app_assoc.
  change (at_ (hex_byte b ++ concat (List.map hex_byte l) ++ rest) 0) with (at_ (hex_byte b) 0).
  change (at_ (hex_byte b ++ concat (List.map hex_byte l) ++ rest) 1) with (at_ (hex_byte b) 1).
  change (drop 2 (hex_byte b ++ concat (List.map hex_byte l) ++ rest))
    with (concat (List.map hex_byte l) ++ rest).
  by rewrite H1, H2, IH, H3.
Qed.

Lemma DecodeHex_loop_sound n encoded l :
  length encoded = (2 * n)%nat -> DecodeHex_loop n encoded = Some l ->
  encoded = hex l /\ all_bytes l /\ length l = n.
Proof.
  revert encoded l. induction n as [| n IH]; intros encoded l Hl H.
  { injection H as <-. apply nil_length_inv in Hl. subst. split; [done |]. split; [constructor | done]. }
  destruct encoded as [| x [| y encoded]]; [simpl in Hl; lia | simpl in Hl; lia |].
  cbn [DecodeHex_loop] in H. change (at_ (x :: y :: encoded) 0) with x in H.
  change (at_ (x :: y :: encoded) 1) with y in H. change (drop 2 (x :: y :: encoded)) with encoded in H.
  destruct (DecodeNibble x) as [high |] eqn:Hx; [| done].
  destruct (DecodeNibble y) as [low |] eqn:Hy; [| done].
  destruct (DecodeHex_loop n encoded) as [out |] eqn:Ho; [| done]. injection H as <-.
  apply IH in Ho as (-> & Hb & Hn); [| simpl in Hl; lia].
  destruct (hex_of_nibbles x y high low Hx Hy) as [E Hbyte].
  split; [unfold hex; cbn [List.map concat]; by rewrite E |]. split; [by constructor | by simpl; rewrite Hn].
Qed.

Lemma DecodeHex_iff n encoded l : 0 <= n ->
  DecodeHex n encoded = Some l <-> encoded = hex l /\ array_of n l.
Proof.
  intros Hn. unfold DecodeHex, array_of, bsize. split.
  - destruct (Z.eqb_spec (Z.of_nat (length encoded)) (n * 2)) as [E | _]; cbn [negb]; [| done].
    intros H. apply DecodeHex_loop_sound in H as (? & ? & ?); [| lia]. split; [done |]. split; [done | lia].
  - intros [-> [Hb Hl]]. rewrite length_hex.
    destruct (Z.eqb_spec (Z.of_nat (2 * length l)) (n * 2)) as [_ | E]; cbn [negb]; [| lia].
    replace (Z.to_nat n) with (length l) by lia.
    rewrite <- (app_nil_r (hex l)). by apply DecodeHex_loop_complete.
Qed.

(** The id of the item of a record. *)
Definition peer_item_id (store_id record_id : bytes) : ProtectedItemId :=
  kPeerItemPrefix ++ hex store_id ++ [47] ++ hex record_id.

Lemma BuildPeerItemId_eq store_id record_id :
  array_of kStoreIdSize store_id -> array_of kDeviceIdSize record_id ->
  BuildPeerItemId true store_id record_id = Success (peer_item_id store_id record_id).
Proof.
  intros [_ H1] [_ H2]. unfold BuildPeerItemId. cbn [negb]. cbv zeta. rewrite !AppendHex_eq.
  rewrite <- !app_assoc. fold (peer_item_id store_id record_id).
  assert (Hs : bsize (peer_item_id store_id record_id) = 102).
  { unfold peer_item_id. rewrite !bsize_app. unfold bsize in *. rewrite !length_hex.
    unfold kStoreIdSize, kDeviceIdSize in *. change (length kPeerItemPrefix) with 5%nat. simpl length. lia. }
  by rewrite Hs.
Qed.

Lemma ParsePeerItemId_iff id parsed :
  ParsePeerItemId id = Success parsed <->
  id = peer_item_id (parsed_store_id parsed) (parsed_record_id parsed) /\
  array_of kStoreIdSize (parsed_store_id parsed) /\ array_of kDeviceIdSize (parsed_record_id parsed).
Proof.
  unfold ParsePeerItemId. change (bsize kPeerItemPrefix) with 5. change (length kPeerItemPrefix) with 5%nat.
  change kPeerItemIdSize with 102. change kEncodedStoreIdSize with 32. change kEncodedRecordIdSize with 64.
  change (5 + 32) with 37. change (37 + 1) with 38. split.
  - destruct (_ || _) eqn:E; [done |]. apply orb_false_iff in E as [E E3]. apply orb_false_iff in E as [E1 E2].
    bool_facts. apply same_bytes_true in E2.
    destruct (DecodeHex kStoreIdSize _) as [s |] eqn:D1; [| done].
    destruct (DecodeHex kDeviceIdSize _) as [r |] eqn:D2; [| done]. intros [= <-].
    apply DecodeHex_iff in D1 as [D1 T1]; [| by vm_compute]. apply DecodeHex_iff in D2 as [D2 T2]; [| by vm_compute].
    cbn [parsed_store_id parsed_record_id]. split; [| done]. unfold peer_item_id.
    rewrite <- D1, <- D2, <- E2, <- E3.
    (* the span cut at its parts *)
    rewrite <- (take_drop 5 id) at 1. f_equal. unfold subspan. change (Z.to_nat 5) with 5%nat.
    change (Z.to_nat 32) with 32%nat. change (Z.to_nat 38) with 38%nat. change (Z.to_nat 64) with 64%nat.
    rewrite <- (take_drop 32 (drop 5 id)) at 1. f_equal. rewrite drop_drop. change (5 + 32)%nat with 37%nat.
    unfold at_. change (Z.to_nat 37) with 37%nat.
    destruct (lookup_lt_is_Some_2 id 37) as [x Hx]; [unfold bsize in E1; lia |].
    rewrite (drop_S id x 37 Hx), (nth_lookup_Some id 37 0 x Hx). simpl. f_equal. symmetry. apply take_ge.
    rewrite length_drop. unfold bsize in E1. lia.
  - destruct parsed as [s r]. cbn [parsed_store_id parsed_record_id]. intros (-> & T1 & T2).
    pose proof T1 as [_ L1]. pose proof T2 as [_ L2].
    assert (H1 : length (hex s) = 32%nat) by (rewrite length_hex; unfold bsize, kStoreIdSize in L1; lia).
    assert (H2 : length (hex r) = 64%nat) by (rewrite length_hex; unfold bsize, kDeviceIdSize in L2; lia).
    assert (P1 : subspan (peer_item_id s r) 5 32 = hex s).
    { unfold peer_item_id, subspan. rewrite drop_app_bsize by done.
      change (Z.to_nat 32) with 32%nat. rewrite <- H1. apply take_app_length. }
    assert (P2 : subspan (peer_item_id s r) 38 64 = hex r).
    { unfold peer_item_id. rewrite !(app_assoc _ _ (hex r)). rewrite !app_assoc. apply subspan_app_r.
      - rewrite !bsize_app. unfold bsize. rewrite H1. done.
      - unfold bsize. by rewrite H2. }
    assert (P3 : at_ (peer_item_id s r) 37 = 47).
    { unfold peer_item_id, at_. rewrite app_nth2; [| change (length kPeerItemPrefix) with 5%nat; simpl; lia].
      rewrite app_nth2; change (length kPeerItemPrefix) with 5%nat; rewrite ?H1; [done | simpl; lia]. }
    assert (P4 : bsize (peer_item_id s r) = 102).
    { unfold peer_item_id, bsize. rewrite !length_app, H1, H2. done. }
    rewrite P1, P2, P3, P4.
    rewrite (proj2 (DecodeHex_iff kStoreIdSize (hex s) s ltac:(by vm_compute)) (conj eq_refl T1)).
    rewrite (proj2 (DecodeHex_iff kDeviceIdSize (hex r) r ltac:(by vm_compute)) (conj eq_refl T2)).
    by unfold peer_item_id.
Qed.

Lemma ParsePeerItemId_build s r :
  array_of kStoreIdSize s -> array_of kDeviceIdSize r ->
  ParsePeerItemId (peer_item_id s r) = Success {| parsed_store_id := s; parsed_record_id := r |}.
Proof. intros. by apply ParsePeerItemId_iff. Qed.

Lemma peer_item_id_inj s1 r1 s2 r2 :
  array_of kStoreIdSize s1 -> array_of kDeviceIdSize r1 ->
  array_of kStoreIdSize s2 -> array_of kDeviceIdSize r2 ->
  peer_item_id s1 r1 = peer_item_id s2 r2 -> s1 = s2 /\ r1 = r2.
Proof.
  intros H1 H2 H3 H4 E. pose proof (ParsePeerItemId_build s1 r1 H1 H2) as E1.
  rewrite E, (ParsePeerItemId_build s2 r2 H3 H4) in E1. by injection E1 as -> ->.
Qed.

Lemma peer_item_id_not_root s r : peer_item_id s r <> kRootItemId.
Proof. intros E. apply (f_equal (fun l => at_ l 0)) in E. discriminate E. Qed.

(** ** Sorting and searching *)

Definition id_less (a b : StoredPeer) : Prop :=
  array_less (stored_device_id a) (stored_device_id b) = true.

Definition sorted_ids (l : list StoredPeer) : Prop := StronglySorted id_less l.

#[global] Instance id_less_trans : Transitive id_less.
Proof. intros a b c. unfold id_less. apply array_less_trans. Qed.

#[global] Instance id_less_antisymm : AntiSymm (=) id_less.
Proof.
  intros a b Hab Hba. pose proof (array_less_trans _ _ _ Hab Hba) as H.
  by rewrite array_less_irrefl in H.
Qed.

Lemma insert_stored_perm s l : insert_stored s l ≡ₚ s :: l.
Proof.
  induction l as [| x l IH]; [done |]. simpl. destruct (array_less _ _); [| done].
  rewrite IH. apply Permutation_swap.
Qed.

Lemma sort_stored_perm l : sort_stored l ≡ₚ l.
Proof. induction l as [| s l IH]; [done |]. simpl. by rewrite insert_stored_perm, IH. Qed.

Lemma insert_stored_sorted s l :
  sorted_ids l -> Forall (fun x => stored_device_id x <> stored_device_id s) l ->
  sorted_ids (insert_stored s l).
Proof.
  unfold sorted_ids. induction 1 as [| x l Hs IH Hx]; intros Hn; simpl; [by repeat constructor |].
  apply list.Forall_cons in Hn as [Hne Hn]. destruct (array_less _ _) eqn:E.
  - constructor; [by apply IH |]. rewrite insert_stored_perm. by apply list.Forall_cons.
  - assert (Hlt : id_less s x).
    { unfold id_less. destruct (array_less (stored_device_id s) (stored_device_id x)) eqn:E2; [done |].
      by destruct Hne; apply array_less_total. }
    constructor; [by constructor |]. apply list.Forall_cons. split; [done |].
    eapply list.Forall_impl; [exact Hx |]. intros y Hy. by transitivity x.
Qed.

Lemma sort_stored_sorted l : NoDup (List.map stored_device_id l) -> sorted_ids (sort_stored l).
Proof.
  induction l as [| s l IH]; intros Hn; [constructor |]. cbn [List.map] in Hn. apply list.NoDup_cons in Hn as [Hni Hn].
  simpl. apply insert_stored_sorted; [by apply IH |]. rewrite sort_stored_perm.
  apply List.Forall_forall. intros x Hx E. apply Hni, list_elem_of_In, in_map_iff. by exists x.
Qed.

Lemma sorted_ids_nodup l : sorted_ids l -> NoDup (List.map stored_device_id l).
Proof.
  induction 1 as [| s l _ IH Hs]; simpl; constructor; [| done].
  rewrite list_elem_of_In, in_map_iff. intros (x & E & Hx). rewrite List.Forall_forall in Hs. apply Hs in Hx.
  unfold id_less in Hx. by rewrite E, array_less_irrefl in Hx.
Qed.

Lemma sorted_ids_unique l1 l2 : sorted_ids l1 -> sorted_ids l2 -> l1 ≡ₚ l2 -> l1 = l2.
Proof. intros H1 H2. by apply (StronglySorted_unique id_less). Qed.

Lemma not_strictly_sorted_false l : not_strictly_sorted l = false <-> sorted_ids l.
Proof.
  unfold not_strictly_sorted, sorted_ids. split.
  - intros H. apply Sorted_StronglySorted; [exact id_less_trans |]. induction l as [| a l IH]; [constructor |].
    destruct l as [| b l]; [by repeat constructor |]. cbn [drop zip zip_with existsb] in H.
    apply orb_false_iff in H as [H1 H2]. apply negb_false_iff in H1. constructor; [by apply IH | by constructor].
  - induction 1 as [| a l Hs IH Ha]; [done |]. destruct l as [| b l]; [done |].
    cbn [drop zip zip_with existsb fst snd]. apply list.Forall_cons in Ha as [Ha _]. unfold id_less in Ha.
    rewrite Ha. exact IH.
Qed.

Lemma lower_bound_sorted id l s :
  sorted_ids l ->
  (lower_bound stored_device_id id l = Some s /\ stored_device_id s = id) <->
  (s ∈ l /\ stored_device_id s = id).
Proof.
  unfold sorted_ids. induction 1 as [| x l Hs IH Hx]; simpl; [split; [by intros [? _] | by intros [?%not_elem_of_nil _]] |].
  rewrite list.elem_of_cons. destruct (array_less (stored_device_id x) id) eqn:E.
  - rewrite IH. split; [tauto |]. intros [[-> | ?] Hid]; [| done]. by rewrite Hid, array_less_irrefl in E.
  - split; [intros [[= ->] ?]; by auto |]. intros [[-> | Hin] Hid]; [done |].
    rewrite List.Forall_forall in Hx. apply list_elem_of_In, Hx in Hin. unfold id_less in Hin. congruence.
Qed.

Lemma FindStoredPeer_iff r id s : sorted_ids (stored_peers r) ->
  FindStoredPeer r id = Some s <-> s ∈ stored_peers r /\ stored_device_id s = id.
Proof.
  intros Hs. rewrite <- lower_bound_sorted by done. unfold FindStoredPeer.
  destruct (lower_bound _ _ _) as [x |]; [| split; [done | by intros [? _]]].
  destruct (same_bytes (stored_device_id x) id) eqn:E; cbn [negb].
  - apply same_bytes_true in E. split; [intros [= ->]; done | by intros [[= ->] _]].
  - apply same_bytes_false in E. split; [done | by intros [[= ->] ?]].
Qed.

Lemma lower_bound_view id l :
  lower_bound device_id id (view_of l) =
  match lower_bound stored_device_id id l with Some s => Some (peer (record s)) | None => None end.
Proof. induction l as [| x l IH]; [done |]. simpl. fold (stored_device_id x). by destruct (array_less _ _). Qed.

Lemma FindPeer_stored r id : ready_ r = true -> peer_view r = view_of (stored_peers r) ->
  FindPeer r id = match FindStoredPeer r id with Some s => Some (peer (record s)) | None => None end.
Proof.
  intros Hr Hv. unfold FindPeer, FindStoredPeer. rewrite Hr, Hv, lower_bound_view. cbn [negb].
  destruct (lower_bound _ _ _) as [s |]; [| done]. fold (stored_device_id s). by destruct (same_bytes _ _).
Qed.

(** ** Unique keys *)

Definition key_of (s : StoredPeer) : bytes := public_key (peer (record s)).
Definition tombstones_of (s : StoredPeer) : list bytes := tombstones (peer (record s)).

(** The key a peer has and those it had. *)
Definition keys_of (s : StoredPeer) : list bytes := key_of s :: tombstones_of s.

(** No key, current or former, occurs twice among the peers. *)
Definition keys_unique (l : list StoredPeer) : Prop :=
  (forall s, s ∈ l -> NoDup (keys_of s)) /\
  (forall i j s t key, l !! i = Some s -> l !! j = Some t -> key ∈ keys_of s -> key ∈ keys_of t -> i = j).

Lemma elem_zip_seq {A} (l : list A) n i x :
  (i, x) ∈ zip (seq n (length l)) l <-> exists k, i = (n + k)%nat /\ l !! k = Some x.
Proof.
  revert n. induction l as [| y l IH]; intros n; cbn [length seq zip zip_with].
  - split; [by intros ?%not_elem_of_nil | by intros (k & _ & ?)].
  - rewrite list.elem_of_cons, IH. split.
    + intros [[= -> ->] | (k & -> & Hk)]; [exists 0%nat; split; [lia | done] | exists (S k); split; [lia | done]].
    + intros ([| k] & -> & Hk); [left; injection Hk as ->; f_equal; lia |].
      right. exists k. split; [lia | done].
Qed.

Lemma existsb_same_bytes key l : existsb (same_bytes key) l = true <-> key ∈ l.
Proof.
  rewrite existsb_exists, list_elem_of_In. split.
  - intros (x & Hx & ->%same_bytes_true). done.
  - intros H. exists key. by rewrite same_bytes_true.
Qed.

Lemma existsb_same_bytes' key l : existsb (fun t => same_bytes t key) l = true <-> key ∈ l.
Proof.
  rewrite existsb_exists, list_elem_of_In. split.
  - intros (x & Hx & ->%same_bytes_true). done.
  - intros H. exists key. by rewrite same_bytes_true.
Qed.

(** A clash of the peer at [i]. *)
Lemma peer_key_clash_iff l i s :
  peer_key_clash l i s = true <->
  (exists j t, l !! j = Some t /\ (j <> i /\ key_of t = key_of s \/ key_of s ∈ tombstones_of t)) \/
  (exists j t key, (i < j)%nat /\ l !! j = Some t /\ key ∈ tombstones_of s /\ key ∈ tombstones_of t).
Proof.
  unfold peer_key_clash. cbv zeta. rewrite orb_true_iff. apply Morphisms_Prop.or_iff_morphism.
  - rewrite existsb_exists. split.
    + intros ([j t] & (k & -> & Hj)%list_elem_of_In%elem_zip_seq & H). exists k, t. split; [done |].
      cbn [fst snd] in H. rewrite orb_true_iff, andb_true_iff, negb_true_iff, Nat.eqb_neq, same_bytes_true,
        existsb_same_bytes' in H. done.
    + intros (j & t & Hj & H). exists (j, t). split; [apply list_elem_of_In, elem_zip_seq; by exists j |].
      cbn [fst snd]. rewrite orb_true_iff, andb_true_iff, negb_true_iff, Nat.eqb_neq, same_bytes_true,
        existsb_same_bytes'. done.
  - rewrite existsb_exists. split.
    + intros (key & Hk%list_elem_of_In & (t & Ht%list_elem_of_In & H%existsb_same_bytes)%existsb_exists).
      apply list_elem_of_lookup in Ht as (j & Hj). rewrite lookup_drop in Hj.
      exists (i + 1 + j)%nat, t, key. split; [lia | done].
    + intros (j & t & key & Hij & Hj & Hs & Ht). exists key. split; [by apply list_elem_of_In |].
      apply existsb_exists. exists t. split; [| by apply existsb_same_bytes].
      apply list_elem_of_In, list_elem_of_lookup. exists (j - (i + 1))%nat. rewrite lookup_drop.
      by replace (i + 1 + (j - (i + 1)))%nat with j by lia.
Qed.

Lemma ValidateUniquePeerKeys_iff l :
  Forall (fun s => NoDup (tombstones_of s)) l ->
  ValidateUniquePeerKeys l = Success tt <-> keys_unique l.
Proof.
  intros Hd. unfold ValidateUniquePeerKeys, keys_unique.
  destruct (existsb _ _) eqn:E.
  - split; [done |]. intros [H1 H2]. apply existsb_exists in E as ([i s] & Hi%list_elem_of_In%elem_zip_seq & Hc).
    destruct Hi as (k & -> & Hi). cbn [fst snd Nat.add] in *. apply peer_key_clash_iff in Hc.
    destruct Hc as [(j & t & Hj & [[Hne Hk] | Hk]) | (j & t & key & Hlt & Hj & Hk1 & Hk2)].
    + destruct Hne. apply (H2 j k t s (key_of s)); [done | done | |]; unfold keys_of; [rewrite Hk |]; by left.
    + assert (k = j) as -> by (apply (H2 k j s t (key_of s)); [done | done | |]; unfold keys_of; [by left | by right]).
      assert (s = t) as -> by congruence. specialize (H1 t (list_elem_of_lookup_2 _ _ _ Hj)).
      apply list.NoDup_cons in H1 as [? _]. done.
    + assert (k = j) by (apply (H2 k j s t key); [done | done | |]; unfold keys_of; by right). lia.
  - split; [| done]. intros _.
    assert (Hno : forall i s, l !! i = Some s -> peer_key_clash l i s = false).
    { intros i s Hi. destruct (peer_key_clash l i s) eqn:Ec; [| done]. rewrite <- E. symmetry.
      apply existsb_exists. exists (i, s). split; [| done]. apply list_elem_of_In, elem_zip_seq. by exists i. }
    assert (Hno' : forall i s, l !! i = Some s -> ~ peer_key_clash l i s = true).
    { intros i s Hi. by rewrite Hno. }
    setoid_rewrite peer_key_clash_iff in Hno'. split.
    + intros s Hs. unfold keys_of. apply list.NoDup_cons. apply list_elem_of_lookup in Hs as (i & Hi). split.
      * intros Hk. apply (Hno' i s Hi). left. exists i, s. split; [done | by right].
      * apply (Forall_lookup_1 _ _ _ _ Hd Hi).
    + intros i j s t key Hi Hj Hs Ht. destruct (decide (i = j)) as [| Hne]; [done |]. exfalso.
      unfold keys_of in Hs, Ht. apply list.elem_of_cons in Hs as [-> | Hs].
      * apply (Hno' i s Hi). left. exists j, t. split; [done |].
        apply list.elem_of_cons in Ht as [-> | Ht]; [left; split; [lia | done] | by right].
      * apply list.elem_of_cons in Ht as [-> | Ht].
        -- apply (Hno' j t Hj). left. exists i, s. split; [done | by right].
        -- destruct (Nat.lt_trichotomy i j) as [Hlt | [? | Hlt]]; [| done |].
           ++ apply (Hno' i s Hi). right. by exists j, t, key.
           ++ apply (Hno' j t Hj). right. by exists i, s, key.
Qed.

Lemma tombstones_ok_iff key before rest :
  tombstones_ok key before rest = true <->
  (key ∉ rest) /\ NoDup rest /\ (forall t, t ∈ before -> t ∉ rest).
Proof.
  revert before. induction rest as [| t rest IH]; intros before; cbn [tombstones_ok].
  - split; [intros _ | done]. split; [by apply not_elem_of_nil |]. split; [constructor |].
    intros t _. apply not_elem_of_nil.
  - rewrite not_elem_of_cons, list.NoDup_cons. destruct (_ || _) eqn:E.
    + split; [done |]. intros ((H1 & _) & _ & H3). apply orb_true_iff in E as [E | E].
      * by apply same_bytes_true in E.
      * apply existsb_same_bytes in E. specialize (H3 t E). rewrite not_elem_of_cons in H3. by destruct H3.
    + apply orb_false_iff in E as [E1%same_bytes_false E2%not_true_iff_false].
      rewrite existsb_same_bytes in E2. rewrite IH. split.
      * intros (H1 & H2 & H3). split; [by split |]. split.
        -- split; [apply (H3 t); apply elem_of_app; right; by left | done].
        -- intros x Hx. rewrite not_elem_of_cons. split; [by intros -> |]. apply H3, elem_of_app. by left.
      * intros ((_ & H1) & (H2 & H3) & H4). split; [done |]. split; [done |].
        intros x [Hx | ->%list_elem_of_singleton]%elem_of_app; [| done].
        specialize (H4 x Hx). by apply not_elem_of_cons in H4 as [_ ?].
Qed.

(** ** Failed calls *)

Section Calls.
Context {W : Type} {env : Environment W}.

(** The calls of a client on the object. *)
Inductive repo_op :=
  | OpOpen
  | OpRefresh
  | OpReset
  | OpCleanupStaleItems
  | OpCommitPeer (p : PeerCommit)
  | OpRotatePeer (current_device_id new_public_key : bytes) (rotation : Z)
  | OpRevokePeer (device_id : bytes)
  | OpForgetPeer (device_id : bytes).

Abbreviation M := (comp (S := IdentityRepository * W)).

Definition run_op (op : repo_op) : M unit :=
  match op with
  | OpOpen => Open
  | OpRefresh => Refresh
  | OpReset => (let! _ := Reset in ret tt)
  | OpCleanupStaleItems => (let! r := this in lift (CleanupStaleItems r))
  | OpCommitPeer p => (let! _ := CommitPeer p in ret tt)
  | OpRotatePeer id key n => (let! _ := RotatePeer id key n in ret tt)
  | OpRevokePeer id => (let! _ := RevokePeer id in ret tt)
  | OpForgetPeer id => (let! _ := ForgetPeer id in ret tt)
  end.

Definition keeps {A} (m : M A) : Prop := forall s, (m s).1.1 = s.1.
Definition fails_clean {A} (m : M A) : Prop := forall s e, (m s).2 = Failure e -> (m s).1.1 = s.1.
Definition never_fails {A} (m : M A) : Prop := forall s e, (m s).2 <> Failure e.

Lemma keeps_clean {A} (m : M A) : keeps m -> fails_clean m.
Proof. intros H s e _. apply H. Qed.

Lemma never_clean {A} (m : M A) : never_fails m -> fails_clean m.
Proof. intros H s e E. by apply H in E. Qed.

Lemma keeps_ret {A} (a : A) : keeps (ret a). Proof. done. Qed.
Lemma keeps_fail {A} e : keeps (A := A) (fail e). Proof. done. Qed.
Lemma keeps_of_result {A} (r : Result A) : keeps (of_result r). Proof. done. Qed.
Lemma keeps_this : keeps this. Proof. done. Qed.
Lemma keeps_lift {A} (m : comp (S := W) A) : keeps (lift m).
Proof. intros s. unfold lift. by destruct (m s.2). Qed.
Lemma never_assign r : never_fails (assign r). Proof. done. Qed.

Lemma keeps_bind {A B} (m : M A) (k : A -> M B) :
  keeps m -> (forall a, keeps (k a)) -> keeps (bind m k).
Proof.
  intros Hm Hk s. unfold bind. specialize (Hm s). destruct (m s) as [s1 [a | e]]; [| done].
  cbn [fst] in Hm. by rewrite Hk.
Qed.

Lemma clean_bind {A B} (m : M A) (k : A -> M B) :
  keeps m -> (forall a, fails_clean (k a)) -> fails_clean (bind m k).
Proof.
  intros Hm Hk s e. unfold bind. specialize (Hm s). destruct (m s) as [s1 [a | e1]]; [| done].
  cbn [fst snd] in *. intros E. by rewrite (Hk a s1 e E).
Qed.

Lemma clean_bind_ret {A B} (m : M A) (k : A -> M B) :
  fails_clean m -> (forall a, never_fails (k a)) -> fails_clean (bind m k).
Proof.
  intros Hm Hk s e. unfold bind. specialize (Hm s). destruct (m s) as [s1 [a | e1]]; cbn [fst snd] in *.
  - intros E. by apply Hk in E.
  - intros _. by apply (Hm e1).
Qed.

Lemma never_bind {A B} (m : M A) (k : A -> M B) :
  never_fails m -> (forall a, never_fails (k a)) -> never_fails (bind m k).
Proof.
  intros Hm Hk s e. unfold bind. specialize (Hm s). destruct (m s) as [s1 [a | e1]]; cbn [snd] in *;
    [apply Hk | by destruct (Hm e1)].
Qed.

Lemma never_ret {A} (a : A) : never_fails (ret a). Proof. done. Qed.
Lemma never_try {A} (m : comp (S := W) A) : never_fails (lift (try_ m)).
Proof. intros s e. unfold lift, try_. by destruct (m s.2). Qed.

Create HintDb clean discriminated.
#[local] Hint Resolve keeps_ret keeps_fail keeps_of_result keeps_this keeps_lift : clean.
#[local] Hint Resolve never_ret never_assign never_try never_bind keeps_bind keeps_clean never_clean : clean.

(** Walks through a method up to the assignment of the members. *)
Ltac clean :=
  repeat first
    [ solve [auto with clean]
    | match goal with |- forall _, _ => intro end
    | match goal with |- fails_clean (bind _ _) => apply clean_bind; [by auto with clean |] end
    | match goal with
      | |- context [if ?c then _ else _] => destruct c
      | |- context [match ?x with _ => _ end] => destruct x
      end ].

Lemma clean_LoadFromRoot item : fails_clean (LoadFromRoot item).
Proof. unfold LoadFromRoot. clean. Qed.
#[local] Hint Resolve clean_LoadFromRoot : clean.

Lemma clean_InitializeEmpty : fails_clean InitializeEmpty.
Proof. unfold InitializeEmpty. clean. Qed.
#[local] Hint Resolve clean_InitializeEmpty : clean.

Lemma clean_Open : fails_clean Open.
Proof. unfold Open. clean. Qed.

Lemma clean_Refresh : fails_clean Refresh.
Proof. unfold Refresh. clean. Qed.

Lemma clean_PutPeer p expected : fails_clean (PutPeer p expected).
Proof. unfold PutPeer. clean. Qed.
#[local] Hint Resolve clean_PutPeer : clean.

Lemma clean_CommitPeer p : fails_clean (CommitPeer p).
Proof. unfold CommitPeer. clean. apply clean_bind_ret; [apply clean_PutPeer | auto with clean]. Qed.

Lemma clean_RotatePeer id key n : fails_clean (RotatePeer id key n).
Proof. unfold RotatePeer. clean. apply clean_bind_ret; [apply clean_PutPeer | auto with clean]. Qed.

Lemma clean_RevokePeer id : fails_clean (RevokePeer id).
Proof. unfold RevokePeer. clean. Qed.

Lemma clean_ForgetPeer id : fails_clean (ForgetPeer id).
Proof. unfold ForgetPeer. clean. Qed.

Lemma clean_Reset : fails_clean Reset.
Proof. unfold Reset. clean. Qed.

Lemma clean_run_op op : fails_clean (run_op op).
Proof.
  destruct op; cbn [run_op].
  - apply clean_Open.
  - apply clean_Refresh.
  - apply clean_bind_ret; [apply clean_Reset | auto with clean].
  - clean.
  - apply clean_bind_ret; [apply clean_CommitPeer | auto with clean].
  - apply clean_bind_ret; [apply clean_RotatePeer | auto with clean].
  - apply clean_bind_ret; [apply clean_RevokePeer | auto with clean].
  - apply clean_bind_ret; [apply clean_ForgetPeer | auto with clean].
Qed.

End Calls.

(** C32: A call that fails changes nothing: whatever the store, the cryptography
    and the allocator do, when a call of the repository returns an error its
    identity, its peers and its readiness are what they were before. *)
Theorem failed_call_changes_nothing {W : Type} {env : Environment W}
    (op : repo_op) (r : IdentityRepository) (w : W) (e : ErrorCode) :
  (run_op op (r, w)).2 = Failure e -> (run_op op (r, w)).1.1 = r.
Proof. apply (clean_run_op op (r, w) e). Qed.

Module IdentityRepositoryExample.

(** A store that refuses everything. *)
#[local] Instance refusing : Environment unit := {|
  env_alloc := fun w => (w, true);
  Enumerate := fun w => (w, Failure kStorageUnavailable);
  Get := fun _ w => (w, Failure kStorageUnavailable);
  CompareExchangePut := fun _ _ _ w => (w, Failure kStorageUnavailable);
  CompareExchangeDelete := fun _ _ w => (w, Failure kStorageUnavailable);
  GenerateSeed := fun w => (w, Failure kEntropyFailure);
  GenerateStoreId := fun w => (w, Failure kEntropyFailure);
  DerivePublicKey := fun _ w => (w, Failure kCryptoFailure);
  DeriveDeviceId := fun _ w => (w, Failure kCryptoFailure);
  DerivePeerRecordMacKey := fun _ _ w => (w, Failure kCryptoFailure);
  HmacSha256 := fun _ _ w => (w, Failure kCryptoFailure);
  Validate := fun _ w => (w, Failure kInvalidArgument);
|}.

Lemma failed_call_changes_nothing_witness :
  (run_op OpOpen (IdentityRepository_initial, tt)).1.1 = IdentityRepository_initial.
Proof. by apply (failed_call_changes_nothing OpOpen IdentityRepository_initial tt kStorageUnavailable). Defined.

End IdentityRepositoryExample.
