(* ===== verification/IdentityStoreProofs.v ===== *)
(** * The repository and the store agree

    The laws of a protected store that no other process writes to, of
    deterministic cryptography and of the validator of keys; under them the
    peers in memory are at any time exactly the records of the store, whatever
    calls fail, and a repository that is opened anew finds the same identity
    and the same peers. *)

From stdpp Require Import gmap sorting sets.
From S2P Require Import Prelude.
From S2P Require Import FieldBlocks.
From S2P Require Import IdentityCodec.
From S2P Require Import IdentityCodecProofs.
From S2P Require Import IdentityRepository.
From S2P Require Import IdentityRepositoryProofs.
Import IdentityTypes IdentityCodec IdentityRepository.

(** ** The laws of the environment *)

#[global] Instance id_eq_dec : EqDecision (list Z) := _.
#[global] Instance id_countable : @Countable (list Z) id_eq_dec := _.
Abbreviation contents := (@gmap (list Z) id_eq_dec id_countable ProtectedItem).

(** A computation that leaves the store as it is, and what a success gives. *)
Definition quiet_in {W A : Type} (store_of : W -> contents) (σ : contents) (m : comp (S := W) A)
    (P : A -> Prop) : Prop :=
  forall w, store_of w = σ ->
    store_of (m w).1 = σ /\ forall a, (m w).2 = Success a -> P a.

Definition listing (σ : contents) : list (bytes * Z) :=
  List.map (fun p => (p.1, item_revision p.2)) (map_to_list σ).

(** Sixteen random bytes are the store id of no item. *)
Definition unused_store_id (σ : contents) (sid : bytes) : Prop :=
  forall id item p, σ !! id = Some item -> ParsePeerItemId id = Success p -> parsed_store_id p <> sid.

Class LawfulEnvironment (W : Type) {env : Environment W} := {
  store_of : W -> contents;
  public_of : bytes -> bytes;
  device_of : bytes -> bytes;
  mac_key_of : bytes -> bytes -> bytes;
  hmac_of : bytes -> bytes -> bytes;
  valid_key : bytes -> bool;
  (* payloads are bytes *)
  law_payload w id item : store_of w !! id = Some item -> all_bytes (payload item);
  (* the store *)
  law_alloc σ : quiet_in store_of σ alloc_ (fun _ => True);
  law_Enumerate σ : quiet_in store_of σ Enumerate (fun items =>
    List.map (fun m => (item_id m, meta_revision m)) items ≡ₚ listing σ);
  law_Get σ id : quiet_in store_of σ (Get id) (fun found => found = σ !! id);
  law_Put id expected item w :
    match CompareExchangePut id expected item w with
    | (w', Success _) =>
        item_revision <$> store_of w !! id = expected /\ store_of w' = <[id := item]> (store_of w)
    | (w', Failure _) => store_of w' = store_of w
    end;
  law_Delete id expected w :
    match CompareExchangeDelete id expected w with
    | (w', Success _) =>
        item_revision <$> store_of w !! id = Some expected /\ store_of w' = delete id (store_of w)
    | (w', Failure _) => store_of w' = store_of w
    end;
  (* the cryptography *)
  law_GenerateSeed σ : quiet_in store_of σ GenerateSeed (array_of kEd25519SeedSize);
  law_GenerateStoreId σ : quiet_in store_of σ GenerateStoreId (fun sid =>
    array_of kStoreIdSize sid /\ unused_store_id σ sid);
  law_DerivePublicKey σ seed : quiet_in store_of σ (DerivePublicKey seed) (fun k => k = public_of seed);
  law_DeriveDeviceId σ key : quiet_in store_of σ (DeriveDeviceId key) (fun d => d = device_of key);
  law_DerivePeerRecordMacKey σ seed sid :
    quiet_in store_of σ (DerivePeerRecordMacKey seed sid) (fun k => k = mac_key_of seed sid);
  law_HmacSha256 σ key msg : quiet_in store_of σ (HmacSha256 key msg) (fun m => m = hmac_of key msg);
  law_public_of seed : array_of kEd25519PublicKeySize (public_of seed);
  law_device_of key : array_of kDeviceIdSize (device_of key);
  law_hmac_of key msg : array_of kMacSize (hmac_of key msg);
  (* the validator *)
  law_Validate σ key : quiet_in store_of σ (Validate key) (fun _ => valid_key key = true);
}.

Section Store.
Context {W : Type} {env : Environment W} {laws : LawfulEnvironment W}.

Abbreviation E := (comp (S := W)).
Abbreviation M := (comp (S := IdentityRepository * W)).
Abbreviation quiet := (quiet_in store_of).

(** ** Rules *)

Lemma quiet_ret {A} σ (a : A) (P : A -> Prop) : P a -> quiet σ (ret a) P.
Proof. intros Ha w Hw. split; [done |]. by intros ? [= <-]. Qed.

Lemma quiet_fail {A} σ e (P : A -> Prop) : quiet σ (fail e) P.
Proof. intros w Hw. by split. Qed.

Lemma quiet_of_result {A} σ (r : Result A) (P : A -> Prop) :
  (forall a, r = Success a -> P a) -> quiet σ (of_result r) P.
Proof. intros Hr w Hw. split; [done |]. exact Hr. Qed.

Lemma quiet_bind {A B} σ (m : E A) (k : A -> E B) P Q :
  quiet σ m P -> (forall a, P a -> quiet σ (k a) Q) -> quiet σ (bind m k) Q.
Proof.
  intros Hm Hk w Hw. destruct (Hm w Hw) as [H1 H2]. unfold bind.
  destruct (m w) as [w1 [a | e]]; cbn [fst snd] in *; [| by split].
  apply Hk; [by apply H2 | done].
Qed.

Lemma quiet_try {A} σ (m : E A) P :
  quiet σ m P -> quiet σ (try_ m) (fun r => forall a, r = Success a -> P a).
Proof.
  intros Hm w Hw. destruct (Hm w Hw) as [H1 H2]. unfold try_.
  destruct (m w) as [w1 r]; cbn [fst snd] in *. split; [done |]. by intros ? [= <-].
Qed.

Lemma quiet_mono {A} σ (m : E A) (P Q : A -> Prop) :
  quiet σ m P -> (forall a, P a -> Q a) -> quiet σ m Q.
Proof. intros Hm H w Hw. destruct (Hm w Hw) as [H1 H2]. split; [done |]. eauto. Qed.

Lemma quiet_alloc σ : quiet σ alloc_ (fun _ => True).
Proof. apply law_alloc. Qed.

Lemma quiet_allocate σ : quiet σ allocate (fun _ => True).
Proof.
  apply (quiet_bind _ _ _ (fun _ => True)); [apply law_alloc |]. intros [] _;
    [by apply quiet_ret | apply quiet_fail].
Qed.

(** A computation of the object: what holds after a success and after a
    failure. *)
Definition wp {A} (m : M A) (Q : A -> IdentityRepository -> contents -> Prop)
    (F : IdentityRepository -> contents -> Prop) (r : IdentityRepository) (σ : contents) : Prop :=
  forall w, store_of w = σ ->
    match m (r, w) with
    | ((r', w'), Success a) => Q a r' (store_of w')
    | ((r', w'), Failure _) => F r' (store_of w')
    end.

Lemma wp_ret {A} (a : A) Q (F : IdentityRepository -> contents -> Prop) r σ : Q a r σ -> wp (ret a) Q F r σ.
Proof. intros H w <-. done. Qed.

Lemma wp_fail {A} e (Q : A -> _ -> _ -> Prop) (F : _ -> _ -> Prop) r σ : F r σ -> wp (fail e) Q F r σ.
Proof. intros H w <-. done. Qed.

Lemma wp_this Q (F : IdentityRepository -> contents -> Prop) r σ : Q r r σ -> wp this Q F r σ.
Proof. intros H w <-. done. Qed.

Lemma wp_assign r' Q (F : IdentityRepository -> contents -> Prop) r σ : Q tt r' σ -> wp (assign r') Q F r σ.
Proof. intros H w <-. done. Qed.

Lemma wp_of_result {A} (x : Result A) (Q : A -> _ -> _ -> Prop) (F : _ -> _ -> Prop) r σ :
  F r σ -> (forall a, x = Success a -> Q a r σ) -> wp (of_result x) Q F r σ.
Proof. intros Hf Hq w <-. unfold of_result. destruct x; [by apply Hq | done]. Qed.

Lemma wp_bind {A B} (m : M A) (k : A -> M B) Q F r σ :
  wp m (fun a r σ => wp (k a) Q F r σ) F r σ -> wp (bind m k) Q F r σ.
Proof.
  intros H w Hw. specialize (H w Hw). unfold bind. destruct (m (r, w)) as [[r1 w1] [a | e]]; [| done].
  by apply H.
Qed.

Lemma wp_lift {A} (m : E A) P (Q : A -> _ -> _ -> Prop) (F : _ -> _ -> Prop) r σ :
  quiet σ m P -> F r σ -> (forall a, P a -> Q a r σ) -> wp (lift m) Q F r σ.
Proof.
  intros Hm Hf Hq w Hw. destruct (Hm w Hw) as [H1 H2]. unfold lift. cbn [fst snd].
  destruct (m w) as [w1 [a | e]]; cbn [fst snd] in *; rewrite H1; [by apply Hq, H2 | done].
Qed.

Lemma wp_mono {A} (m : M A) (Q Q' : A -> _ -> _ -> Prop) (F F' : _ -> _ -> Prop) r σ :
  wp m Q F r σ -> (forall a r σ, Q a r σ -> Q' a r σ) -> (forall r σ, F r σ -> F' r σ) -> wp m Q' F' r σ.
Proof.
  intros H HQ HF w Hw. specialize (H w Hw). destruct (m (r, w)) as [[r1 w1] [a | e]]; auto.
Qed.

(** ** Records and roots *)

Lemma DecodeRootRecord_alloc a encoded r :
  DecodeRootRecord a encoded = Success r -> DecodeRootRecord true encoded = Success r.
Proof.
  destruct a; [done |]. unfold DecodeRootRecord. destruct (ParseRecord _ _); [| done]. cbv zeta.
  repeat (match goal with |- (if ?c then _ else _) = _ -> _ => destruct c end; try done).
Qed.

Lemma DecodePeerRecord_alloc a encoded r :
  DecodePeerRecord a encoded = Success r -> DecodePeerRecord true encoded = Success r.
Proof.
  destruct a; [done |]. unfold DecodePeerRecord. destruct (ParseRecord _ _); [| done]. cbv zeta.
  repeat (match goal with |- (if ?c then _ else _) = _ -> _ => destruct c end; try done).
Qed.

Lemma EncodeFields_alloc a kind fields encoded :
  EncodeFields a kind fields = Success encoded -> EncodeFields true kind fields = Success encoded.
Proof. destruct a; [done |]. unfold EncodeFields. by destruct (EncodedRecordSize _). Qed.

Lemma EncodeRootRecord_alloc a r encoded :
  EncodeRootRecord a r = Success encoded -> EncodeRootRecord true r = Success encoded.
Proof. unfold EncodeRootRecord. cbv zeta. destruct (_ || _); [done |]. apply EncodeFields_alloc. Qed.

Lemma EncodePeer_alloc a r i encoded :
  EncodePeer a r i = Success encoded -> EncodePeer true r i = Success encoded.
Proof.
  unfold EncodePeer. cbv zeta. do 2 (match goal with |- (if ?c then _ else _) = _ -> _ => destruct c end; [done |]).
  apply EncodeFields_alloc.
Qed.

(** The item of a root and of a peer. *)
Definition root_item_of (rr : RootRecord) : ProtectedItem :=
  {| item_revision := revision rr; payload := record_bytes kRootKind (root_fields rr) |}.

Definition peer_item_of (p : StoredPeerRecord) : ProtectedItem :=
  {| item_revision := record_revision (peer p);
     payload := record_bytes kPeerKind (peer_fields p ++ [spec 12 (authenticator p)]) |}.

Record root_good (rr : RootRecord) : Prop := {
  rg_typed : root_typed rr;
  rg_valid : root_valid rr = true;
  rg_public : root_public_key rr = public_of (seed rr);
  rg_device : root_device_id rr = device_of (root_public_key rr);
  rg_store : IsAllZero (root_store_id rr) = false;
}.

Lemma root_item_inj r1 r2 : root_good r1 -> root_good r2 -> root_item_of r1 = root_item_of r2 -> r1 = r2.
Proof.
  intros [T1 V1 _ _ _] [T2 V2 _ _ _] H. apply (f_equal payload) in H. cbn [payload root_item_of] in H.
  pose proof (DecodeRootRecord_fields r1 T1 V1) as D1. rewrite H, (DecodeRootRecord_fields r2 T2 V2) in D1.
  congruence.
Qed.

Lemma peer_item_inj p1 p2 :
  peer_typed p1 -> peer_valid p1 = true -> peer_typed p2 -> peer_valid p2 = true ->
  peer_item_of p1 = peer_item_of p2 -> p1 = p2.
Proof.
  intros T1 V1 T2 V2 H. apply (f_equal payload) in H. cbn [payload peer_item_of] in H.
  pose proof (DecodePeerRecord_fields p1 T1 V1) as D1. rewrite H, (DecodePeerRecord_fields p2 T2 V2) in D1.
  congruence.
Qed.

Lemma quiet_DecodeAndValidateRoot σ item : all_bytes (payload item) ->
  quiet σ (DecodeAndValidateRoot item) (fun rr => root_good rr /\ item = root_item_of rr).
Proof.
  intros Hb. eapply quiet_bind; [apply quiet_alloc |]. intros a _.
  eapply (quiet_bind _ _ _ (fun rr => root_typed rr /\ root_valid rr = true /\
    payload item = record_bytes kRootKind (root_fields rr))).
  { apply quiet_of_result. intros rr H%DecodeRootRecord_alloc. by apply DecodeRootRecord_sound. }
  intros rr (T & V & Hp). destruct (Z.eqb_spec (revision rr) (item_revision item)) as [Hr | _]; cbn [negb];
    [| apply quiet_fail].
  destruct (IsAllZero (root_store_id rr)) eqn:Ez; [apply quiet_fail |].
  eapply quiet_bind; [apply law_DerivePublicKey |]. intros pk ->.
  destruct (ConstantTimeEqual _ _) eqn:E1; cbn [negb]; [| apply quiet_fail].
  apply (array_equal kEd25519PublicKeySize) in E1; [| apply law_public_of | apply (rt_public_key rr T)].
  eapply quiet_bind; [apply law_DeriveDeviceId |]. intros did ->.
  destruct (ConstantTimeEqual _ _) eqn:E2; cbn [negb]; [| apply quiet_fail].
  apply (array_equal kDeviceIdSize) in E2; [| apply law_device_of | apply (rt_device_id rr T)].
  apply quiet_ret. split; [by split |]. destruct item as [rev pl]. cbn [payload item_revision] in *.
  unfold root_item_of. by rewrite Hp, Hr.
Qed.

(** The root of the object is the root of the store. *)
Definition root_stored (σ : contents) (md : RootMetadata) (rr : RootRecord) : Prop :=
  root_good rr /\ RootMetadataFrom rr = md /\ σ !! kRootItemId = Some (root_item_of rr).

Definition payloads (σ : contents) : Prop := forall id item, σ !! id = Some item -> all_bytes (payload item).

Lemma store_payloads w : payloads (store_of w).
Proof. intros id item. apply law_payload. Qed.

Lemma quiet_LoadIdentitySeed σ r rr : payloads σ -> root_stored σ (root r) rr ->
  quiet σ (LoadIdentitySeed r) (fun sd => sd = seed rr).
Proof.
  intros Hb (Hg & Hmd & Hs). unfold LoadIdentitySeed. destruct (ready_ r); cbn [negb]; [| apply quiet_fail].
  eapply quiet_bind; [apply law_Get |]. intros found ->. rewrite Hs.
  eapply quiet_bind; [apply quiet_DecodeAndValidateRoot; by apply (Hb _ _ Hs) |].
  intros rr' [Hg' E]. apply root_item_inj in E; [| done | done]. subst rr'.
  destruct (negb _); [apply quiet_fail |]. destruct (negb _); [apply quiet_fail |]. by apply quiet_ret.
Qed.

Lemma quiet_EnsureRootCurrent σ r rr : payloads σ -> root_stored σ (root r) rr ->
  quiet σ (EnsureRootCurrent r) (fun _ => True).
Proof.
  intros Hb H. eapply quiet_bind; [by apply (quiet_LoadIdentitySeed _ _ rr) |]. intros _ _. by apply quiet_ret.
Qed.

(** The authenticator a record should have. *)
Definition mac_of (rr : RootRecord) (p : StoredPeerRecord) : bytes :=
  hmac_of (mac_key_of (seed rr) (root_store_id rr))
    (kPeerMacLabel ++ record_bytes kPeerMacInputKind (peer_fields p)).

Lemma quiet_ComputePeerMacWith σ rr p : peer_typed p ->
  quiet σ (ComputePeerMacWith (seed rr) (root_store_id rr) p)
    (fun mac => peer_valid p = true /\ mac = mac_of rr p).
Proof.
  intros T. eapply quiet_bind; [apply quiet_alloc |]. intros a _.
  eapply (quiet_bind _ _ _ (fun input => peer_valid p = true /\
    input = record_bytes kPeerMacInputKind (peer_fields p))).
  { apply quiet_of_result. intros input H%EncodePeer_alloc. by apply EncodePeer_iff in H. }
  intros input [V ->]. eapply quiet_bind; [apply law_DerivePeerRecordMacKey |]. intros k ->.
  eapply quiet_bind; [apply quiet_allocate |]. intros _ _.
  eapply quiet_mono; [apply law_HmacSha256 |]. by intros m ->.
Qed.

(** What a record of the generation of [rr] satisfies. *)
Record peer_good (rr : RootRecord) (s : StoredPeer) : Prop := {
  pg_typed : peer_typed (record s);
  pg_valid : peer_valid (record s) = true;
  pg_id : sp_item_id s = peer_item_id (store_id (record s)) (record_id (record s));
  pg_store : store_id (record s) = root_store_id rr;
  pg_root : peer_root_device_id (record s) = root_device_id rr;
  pg_nonzero : IsAllZero (record_id (record s)) = false;
  pg_keys : Forall (fun key => valid_key key = true) (keys_of s);
  pg_device : stored_device_id s = device_of (key_of s);
  pg_mac : authenticator (record s) = mac_of rr (record s);
}.

Lemma quiet_ValidateStoredKey σ key : quiet σ (ValidateStoredKey key) (fun _ => valid_key key = true).
Proof.
  eapply quiet_bind; [apply quiet_try, law_Validate |]. intros [[] | e] H; [| apply quiet_fail].
  apply quiet_ret. by apply (H tt).
Qed.

Lemma quiet_ValidateStoredKeys σ keys :
  quiet σ (ValidateStoredKeys keys) (fun _ => Forall (fun key => valid_key key = true) keys).
Proof.
  induction keys as [| key keys IH]; cbn [ValidateStoredKeys]; [apply quiet_ret; by apply Forall_nil |].
  eapply quiet_bind; [apply quiet_ValidateStoredKey |]. intros ? Hk.
  eapply quiet_mono; [apply IH |]. intros ? Hks. by apply list.Forall_cons.
Qed.

Lemma quiet_ValidatePeerAgainstRoot σ rr md s : root_good rr -> RootMetadataFrom rr = md ->
  peer_typed (record s) -> sp_item_id s = peer_item_id (store_id (record s)) (record_id (record s)) ->
  quiet σ (ValidatePeerAgainstRoot (seed rr) md (record s)) (fun _ => peer_good rr s).
Proof.
  intros Hg <- T Hid. unfold ValidatePeerAgainstRoot. cbv zeta. cbn [rm_store_id rm_device_id RootMetadataFrom].
  destruct (_ || _) eqn:Ec; [apply quiet_fail |].
  apply orb_false_iff in Ec as [Ec _]. apply orb_false_iff in Ec as [Ec _].
  apply orb_false_iff in Ec as [Ec E3]. apply orb_false_iff in Ec as [E1 E2].
  apply negb_false_iff in E1, E2. pose proof (rg_typed rr Hg) as Tr.
  apply (array_equal kStoreIdSize) in E1; [| apply (pt_store_id _ T) | apply (rt_store_id rr Tr)].
  apply (array_equal kDeviceIdSize) in E2; [| apply (pt_root_device_id _ T) | apply (rt_device_id rr Tr)].
  eapply quiet_bind; [apply quiet_ValidateStoredKey |]. intros ? Hk.
  eapply quiet_bind; [apply quiet_ValidateStoredKeys |]. intros ? Hks.
  eapply quiet_bind; [apply law_DeriveDeviceId |]. intros d ->.
  destruct (ConstantTimeEqual _ _) eqn:E4; cbn [negb]; [| apply quiet_fail].
  apply (array_equal kDeviceIdSize) in E4; [| apply law_device_of | apply (pt_device_id _ T)].
  eapply quiet_bind; [by apply quiet_ComputePeerMacWith |]. intros mac [V ->].
  destruct (ConstantTimeEqual _ _) eqn:E5; cbn [negb]; [| apply quiet_fail].
  apply (array_equal kMacSize) in E5; [| apply law_hmac_of | apply (pt_authenticator _ T)].
  apply quiet_ret. split; try done. unfold keys_of. by apply list.Forall_cons.
Qed.

(** ** Loading *)

Definition loaded (σ : contents) (rr : RootRecord) (s : StoredPeer) : Prop :=
  peer_good rr s /\ σ !! sp_item_id s = Some (peer_item_of (record s)).

(** An item is the root or a peer's, and the peers of the generation are known. *)
Definition accounted (rr : RootRecord) (stored : list StoredPeer) (id : ProtectedItemId) : Prop :=
  id <> kRootItemId ->
  exists p, ParsePeerItemId id = Success p /\
    (parsed_store_id p = root_store_id rr -> exists s, s ∈ stored /\ sp_item_id s = id).

(** The memory of the object and the store say the same. *)
Record consistent (σ : contents) (r : IdentityRepository) (rr : RootRecord) : Prop := {
  co_root : root_stored σ (root r) rr;
  co_view : peer_view r = view_of (stored_peers r);
  co_sorted : sorted_ids (stored_peers r);
  co_keys : keys_unique (stored_peers r);
  co_count : Z.of_nat (length (stored_peers r)) <= kMaxPeerRecords;
  co_loaded : Forall (loaded σ rr) (stored_peers r);
  co_complete : forall id item, σ !! id = Some item -> accounted rr (stored_peers r) id;
}.

Definition agrees (r : IdentityRepository) (σ : contents) : Prop :=
  ready_ r = true -> exists rr, consistent σ r rr.

Lemma quiet_LoadFromRoot_loop σ rr items saw_root stored :
  root_good rr -> payloads σ -> Z.of_nat (length stored) <= kMaxPeerRecords ->
  quiet σ (LoadFromRoot_loop (seed rr) (RootMetadataFrom rr) items saw_root stored)
    (fun res => exists new, res.2 = stored ++ new /\ Forall (loaded σ rr) new /\
       Z.of_nat (length res.2) <= kMaxPeerRecords /\
       forall m, m ∈ items -> accounted rr new (item_id m)).
Proof.
  intros Hg Hb. revert saw_root stored. induction items as [| m items IH]; intros saw_root stored Hc.
  { apply quiet_ret. exists []. rewrite app_nil_r. split; [done |]. split; [by apply Forall_nil |].
    split; [done |]. by intros m ?%not_elem_of_nil. }
  cbn [LoadFromRoot_loop].
  destruct (same_bytes (item_id m) kRootItemId) eqn:Er.
  { apply same_bytes_true in Er. destruct (_ || _); [apply quiet_fail |].
    eapply quiet_mono; [by apply IH |]. intros res (new & H1 & H2 & H3 & H4). exists new. repeat split; try done.
    intros m' [-> | Hm]%list.elem_of_cons; [by intros ? | by apply H4]. }
  apply same_bytes_false in Er.
  eapply (quiet_bind _ _ _ (fun p => ParsePeerItemId (item_id m) = Success p)); [by apply quiet_of_result |].
  intros p Hp. cbn [rm_store_id RootMetadataFrom].
  destruct (same_bytes (parsed_store_id p) (root_store_id rr)) eqn:Es; cbn [negb].
  2: { apply same_bytes_false in Es. eapply quiet_mono; [by apply IH |].
       intros res (new & H1 & H2 & H3 & H4). exists new. repeat split; try done.
       intros m' [-> | Hm]%list.elem_of_cons; [| by apply H4]. intros _. by exists p. }
  apply same_bytes_true in Es. destruct (Z.eqb_spec (Z.of_nat (length stored)) kMaxPeerRecords) as [| Hlt];
    [apply quiet_fail |].
  eapply quiet_bind; [apply law_Get |]. intros found ->.
  destruct (σ !! item_id m) as [item |] eqn:Hi; [| apply quiet_fail].
  destruct (negb _); [apply quiet_fail |].
  eapply quiet_bind; [apply quiet_alloc |]. intros a _.
  eapply (quiet_bind _ _ _ (fun q => peer_typed q /\ peer_valid q = true /\
    payload item = record_bytes kPeerKind (peer_fields q ++ [spec 12 (authenticator q)]))).
  { apply quiet_of_result. intros q H%DecodePeerRecord_alloc. apply DecodePeerRecord_sound; [| done].
    by apply (Hb _ _ Hi). }
  intros q (T & V & Hq). destruct (Z.eqb_spec (record_revision (peer q)) (item_revision item)) as [Hrev | _];
    cbn [negb]; [| apply quiet_fail].
  destruct (_ || _) eqn:Ei; [apply quiet_fail |]. apply orb_false_iff in Ei as [E1 E2].
  apply negb_false_iff, same_bytes_true in E1, E2.
  apply ParsePeerItemId_iff in Hp as Hp'. destruct Hp' as (Hid & _ & _).
  set (s := {| sp_item_id := item_id m; record := q |}).
  assert (Hsid : sp_item_id s = peer_item_id (store_id (record s)) (record_id (record s))).
  { cbn [sp_item_id record s]. by rewrite E1, E2. }
  eapply quiet_bind; [by apply (quiet_ValidatePeerAgainstRoot σ rr _ s) |]. intros ? Hpg.
  eapply quiet_bind; [apply quiet_allocate |]. intros _ _.
  eapply quiet_mono; [apply IH; rewrite length_app; simpl; lia |].
  intros res (new & H1 & H2 & H3 & H4). exists (s :: new). rewrite H1, <- app_assoc. split; [done |].
  assert (Hl : loaded σ rr s).
  { split; [done |]. cbn [sp_item_id record s]. rewrite Hi. f_equal. destruct item. unfold peer_item_of.
    cbn [payload item_revision] in *. by rewrite Hrev, Hq. }
  split; [by apply list.Forall_cons |]. split; [by rewrite H1, <- app_assoc in H3 |].
  intros m' [-> | Hm]%list.elem_of_cons.
  - intros _. exists p. split; [done |]. intros _. exists s. split; [by left | done].
  - intros Hn. destruct (H4 m' Hm Hn) as (p' & Hp1 & Hp2). exists p'. split; [done |].
    intros E. destruct (Hp2 E) as (s' & ? & ?). exists s'. split; [by right | done].
Qed.

Lemma peer_good_tombstones rr s : peer_good rr s -> NoDup (tombstones_of s).
Proof.
  intros Hg. pose proof (pg_valid rr s Hg) as V. unfold peer_valid in V. cbv zeta in V.
  apply andb_true_iff in V as [_ V]. by apply tombstones_ok_iff in V as (_ & ? & _).
Qed.

Lemma loaded_tombstones σ rr l : Forall (loaded σ rr) l -> Forall (fun s => NoDup (tombstones_of s)) l.
Proof. intros H. eapply list.Forall_impl; [exact H |]. intros s [Hg _]. by apply (peer_good_tombstones rr). Qed.

Lemma listing_elem σ items : List.map (fun m => (item_id m, meta_revision m)) items ≡ₚ listing σ ->
  forall id item, σ !! id = Some item -> exists m, m ∈ items /\ item_id m = id /\ meta_revision m = item_revision item.
Proof.
  intros Hp id item Hi.
  assert (Hin : (id, item_revision item) ∈ listing σ).
  { unfold listing. apply list_elem_of_In, in_map_iff. exists (id, item). split; [done |].
    by apply list_elem_of_In, elem_of_map_to_list. }
  rewrite <- Hp in Hin. apply list_elem_of_In, in_map_iff in Hin as (m & [= H1 H2] & Hm).
  exists m. by rewrite list_elem_of_In.
Qed.

(** What [LoadFromRoot] reads is what the store holds. *)
Lemma quiet_ReadFromRoot σ item :
  payloads σ -> σ !! kRootItemId = Some item ->
  quiet σ (ReadFromRoot item) (fun res => exists rr,
    consistent σ {| root := res.1; stored_peers := res.2; peer_view := view_of res.2; ready_ := true |} rr).
Proof.
  intros Hb Hi. eapply quiet_bind; [apply quiet_DecodeAndValidateRoot; by apply (Hb _ _ Hi) |].
  intros rr [Hg ->]. eapply quiet_bind; [apply law_Enumerate |]. intros items Hperm.
  eapply quiet_bind; [apply quiet_LoadFromRoot_loop; done || by vm_compute |].
  intros [saw stored] (new & E & Hl & Hc & Hacc). cbn [fst snd app] in *. subst stored. cbv zeta.
  destruct (negb saw); [apply quiet_fail |].
  destruct (not_strictly_sorted _) eqn:Es; [apply quiet_fail |]. apply not_strictly_sorted_false in Es.
  eapply (quiet_bind _ _ _ (fun _ => keys_unique (sort_stored new))).
  { apply quiet_of_result. intros [] H. apply ValidateUniquePeerKeys_iff; [| done].
    rewrite sort_stored_perm. by apply (loaded_tombstones σ rr). }
  intros ? Hk. eapply quiet_bind; [apply quiet_allocate |]. intros _ _.
  eapply quiet_bind; [apply law_Get |]. intros found ->. rewrite Hi.
  eapply quiet_bind; [apply quiet_DecodeAndValidateRoot; by apply (Hb _ _ Hi) |]. intros rr' _.
  destruct (negb _); [apply quiet_fail |]. apply quiet_ret. exists rr. split; cbn [root stored_peers peer_view fst snd];
    try done.
  - by rewrite sort_stored_perm.
  - by rewrite sort_stored_perm.
  - intros id it Hid Hn. destruct (listing_elem σ items Hperm id it Hid) as (m & Hm & <- & _).
    destruct (Hacc m Hm Hn) as (p & Hp1 & Hp2). exists p. split; [done |]. intros E.
    destruct (Hp2 E) as (s & Hs & ?). exists s. split; [by rewrite sort_stored_perm | done].
Qed.

Lemma wp_LoadFromRoot σ r item : payloads σ -> σ !! kRootItemId = Some item -> agrees r σ ->
  wp (LoadFromRoot item) (fun _ r' σ' => agrees r' σ' /\ ready_ r' = true /\ σ' = σ) agrees r σ.
Proof.
  intros Hb Hi Ha. apply wp_bind. eapply wp_lift; [by apply quiet_ReadFromRoot | done |].
  intros [md stored] [rr Hc]. apply wp_assign. split; [by exists rr | done].
Qed.

Lemma wp_LoadFromRoot_agrees σ r item (R : Prop) : payloads σ -> σ !! kRootItemId = Some item ->
  agrees r σ -> R -> wp (LoadFromRoot item) (fun _ r' σ' => agrees r' σ' /\ R) agrees r σ.
Proof. intros Hb Hi Ha HR. eapply wp_mono; [by apply wp_LoadFromRoot | by intros ? ? ? (? & _ & _) | done]. Qed.

(** ** Opening *)

Lemma wp_payloads {A} (m : M A) Q F r σ : (payloads σ -> wp m Q F r σ) -> wp m Q F r σ.
Proof. intros H w Hw. apply H; [| done]. subst σ. apply store_payloads. Qed.

Lemma wp_put id expected item Q (F : _ -> _ -> Prop) r σ :
  F r σ -> (item_revision <$> σ !! id = expected -> Q tt r (<[id := item]> σ)) ->
  wp (lift (CompareExchangePut id expected item)) Q F r σ.
Proof.
  intros Hf Hq w <-. unfold lift. cbn [fst snd]. pose proof (law_Put id expected item w) as H.
  destruct (CompareExchangePut id expected item w) as [w' [[] | e]].
  - destruct H as [H1 ->]. by apply Hq.
  - by rewrite H.
Qed.

Lemma wp_try_put id expected item (Q : _ -> _ -> _ -> Prop) (F : _ -> _ -> Prop) r σ :
  (forall e, Q (Failure e) r σ) ->
  (item_revision <$> σ !! id = expected -> Q (Success tt) r (<[id := item]> σ)) ->
  wp (lift (try_ (CompareExchangePut id expected item))) Q F r σ.
Proof.
  intros Hf Hq w <-. unfold lift, try_. cbn [fst snd]. pose proof (law_Put id expected item w) as H.
  destruct (CompareExchangePut id expected item w) as [w' [[] | e]].
  - destruct H as [H1 ->]. by apply Hq.
  - rewrite H. apply Hf.
Qed.

Lemma wp_delete id expected Q (F : _ -> _ -> Prop) r σ :
  F r σ -> (item_revision <$> σ !! id = Some expected -> Q tt r (delete id σ)) ->
  wp (lift (CompareExchangeDelete id expected)) Q F r σ.
Proof.
  intros Hf Hq w <-. unfold lift. cbn [fst snd]. pose proof (law_Delete id expected w) as H.
  destruct (CompareExchangeDelete id expected w) as [w' [[] | e]].
  - destruct H as [H1 ->]. by apply Hq.
  - by rewrite H.
Qed.

(** A root that was just made; [Reset] adds the retired store id. *)
Record root_made (rev : Z) (rr : RootRecord) : Prop := {
  ma_revision : revision rr = rev;
  ma_seed : array_of kEd25519SeedSize (seed rr);
  ma_public : root_public_key rr = public_of (seed rr);
  ma_device : root_device_id rr = device_of (root_public_key rr);
  ma_store : array_of kStoreIdSize (root_store_id rr);
  ma_nonzero : IsAllZero (root_store_id rr) = false;
  ma_retired : retired_store_id rr = None;
}.

Lemma quiet_MakeRoot σ rev :
  quiet σ (MakeRoot rev) (fun rr => root_made rev rr /\ unused_store_id σ (root_store_id rr)).
Proof.
  eapply quiet_bind; [apply law_GenerateSeed |]. intros sd Hsd.
  eapply quiet_bind; [apply law_GenerateStoreId |]. intros sid [Hsid Hfresh].
  destruct (IsAllZero sid) eqn:Ez; [apply quiet_fail |].
  eapply quiet_bind; [apply law_DerivePublicKey |]. intros pk ->.
  eapply quiet_bind; [apply law_DeriveDeviceId |]. intros d ->.
  apply quiet_ret. by split.
Qed.

(** A made root, with the id of the store it replaces or none. *)
Lemma root_made_good rev rr retired : root_made rev rr -> in_width 64 rev -> rev <> 0 ->
  (forall id, retired = Some id ->
     array_of kStoreIdSize id /\ IsAllZero id = false /\ id <> root_store_id rr) ->
  root_good (rr <| retired_store_id := retired |>).
Proof.
  intros [H1 [H2 S2] H3 H4 H5 H6 H7] Hw Hn Hr. split; try done.
  - split; try done; cbn [revision seed root_public_key root_device_id root_store_id retired_store_id]; simpl.
    + by rewrite H1.
    + rewrite H3. apply law_public_of.
    + rewrite H4. apply law_device_of.
    + intros id E. by destruct (Hr id E).
  - unfold root_valid. simpl. rewrite H1, S2. destruct (Z.eqb_spec rev 0); [done |]. rewrite Z.eqb_refl.
    destruct retired as [id |]; [| done]. destruct (Hr id eq_refl) as (Ha & Hz & Hne).
    apply same_bytes_false in Hne. rewrite Hne. by rewrite <- (IsAllZero_all_zero id), Hz by apply Ha.
Qed.

(** A root without peers, alone of its generation. *)
Lemma fresh_consistent σ rr :
  root_good rr -> σ !! kRootItemId = Some (root_item_of rr) ->
  (forall id item, σ !! id = Some item -> accounted rr [] id) ->
  consistent σ {| root := RootMetadataFrom rr; stored_peers := []; peer_view := []; ready_ := true |} rr.
Proof.
  intros Hg Hr Ha. split; cbn [root stored_peers peer_view]; try done.
  - constructor.
  - split; [by intros s ?%not_elem_of_nil | by intros i j s t key Hi].
Qed.

Lemma root_retired_same rr : retired_store_id rr = None -> rr <| retired_store_id := None |> = rr.
Proof. destruct rr. simpl. by intros ->. Qed.

Lemma wp_InitializeEmpty σ r : (forall id, σ !! id = None) -> agrees r σ ->
  wp InitializeEmpty (fun _ => agrees) agrees r σ.
Proof.
  intros Hempty Ha. apply wp_bind. eapply wp_lift; [apply quiet_MakeRoot | done |]. intros rr [Hm _].
  apply wp_bind. eapply wp_lift; [apply quiet_alloc | done |]. intros a _.
  apply wp_bind. apply wp_of_result; [done |]. intros encoded He%EncodeRootRecord_alloc.
  assert (Hg : root_good rr).
  { rewrite <- (root_retired_same rr) by apply (ma_retired _ _ Hm).
    apply (root_made_good 1); [done | by vm_compute | done | done]. }
  apply EncodeRootRecord_iff in He as [_ ->]; [| apply (rg_typed rr Hg)].
  apply wp_bind, wp_try_put.
  - intros e. destruct (negb _); [by apply wp_fail |].
    apply wp_bind. eapply wp_lift; [apply law_Get | done |]. intros found ->. rewrite Hempty. by apply wp_fail.
  - intros _. apply wp_assign. intros _. exists rr. apply fresh_consistent; [done | |].
    + rewrite lookup_insert_eq. unfold root_item_of. by rewrite (ma_revision _ _ Hm).
    + intros id item Hid Hn. rewrite lookup_insert_ne, Hempty in Hid by congruence. done.
Qed.

Lemma wp_Open σ r : agrees r σ ->
  wp Open (fun _ r' σ' => agrees r' σ' /\ ready_ r = false) agrees r σ.
Proof.
  intros Ha. apply wp_payloads. intros Hb. apply wp_bind, wp_this. destruct (ready_ r) eqn:Er; [by apply wp_fail |].
  apply wp_bind. eapply wp_lift; [apply law_Get | done |]. intros found ->.
  destruct (σ !! kRootItemId) as [item |] eqn:Hi; [by apply wp_LoadFromRoot_agrees |].
  apply wp_bind. eapply wp_lift; [apply law_Enumerate | done |]. intros [| m items] Hp.
  - eapply wp_mono; [apply wp_InitializeEmpty; [| done] | by intros ? ? ? ? | done]. cbn [List.map] in Hp. apply Permutation_nil in Hp.
    unfold listing in Hp. apply List.map_eq_nil in Hp. intros id.
    destruct (σ !! id) as [item |] eqn:E; [| done]. apply elem_of_map_to_list in E. rewrite Hp in E.
    by apply not_elem_of_nil in E.
  - apply wp_bind. eapply wp_lift; [apply law_Get | done |]. intros found ->. rewrite Hi. by apply wp_fail.
Qed.

Lemma wp_Refresh σ r : agrees r σ ->
  wp Refresh (fun _ r' σ' => agrees r' σ' /\ ready_ r = true /\ ready_ r' = true /\ σ' = σ)
    agrees r σ.
Proof.
  intros Ha. apply wp_payloads. intros Hb. apply wp_bind, wp_this. destruct (ready_ r) eqn:Er; [| by apply wp_fail].
  apply wp_bind. eapply wp_lift; [apply law_Get | done |]. intros found ->.
  destruct (σ !! kRootItemId) as [item |] eqn:Hi; [| by apply wp_fail].
  eapply wp_mono; [by apply wp_LoadFromRoot | by intros ? ? ? (? & ? & ?) | done].
Qed.

(** ** Writing a peer *)

Lemma consistent_elem σ r rr s : consistent σ r rr -> s ∈ stored_peers r -> loaded σ rr s.
Proof.
  intros H Hs. pose proof (co_loaded _ _ _ H) as Hl. rewrite List.Forall_forall in Hl.
  by apply Hl, list_elem_of_In.
Qed.

Lemma consistent_item_inj σ r rr s t : consistent σ r rr ->
  s ∈ stored_peers r -> t ∈ stored_peers r -> sp_item_id s = sp_item_id t -> s = t.
Proof.
  intros H Hs Ht E. destruct (consistent_elem _ _ _ _ H Hs) as [Gs Ls].
  destruct (consistent_elem _ _ _ _ H Ht) as [Gt Lt]. rewrite E, Lt in Ls. apply (inj Some) in Ls.
  assert (record t = record s) as Er by (apply peer_item_inj; [apply Gt | apply Gt | apply Gs | apply Gs | done]).
  destruct s, t. cbn [sp_item_id record] in *. congruence.
Qed.

Lemma replace_stored_none p l : replace_stored p l = None -> forall x, x ∈ l -> sp_item_id x <> sp_item_id p.
Proof.
  induction l as [| y l IH]; [by intros _ x ?%not_elem_of_nil |]. cbn [replace_stored].
  destruct (same_bytes (sp_item_id y) (sp_item_id p)) eqn:E; [done |]. apply same_bytes_false in E.
  destruct (replace_stored p l); [done |]. intros _ x [-> | Hx]%list.elem_of_cons; [done | by apply IH].
Qed.

Lemma replace_stored_some p l c : replace_stored p l = Some c ->
  exists x others, sp_item_id x = sp_item_id p /\ l ≡ₚ x :: others /\ c ≡ₚ p :: others.
Proof.
  revert c. induction l as [| y l IH]; intros c; [done |]. cbn [replace_stored].
  destruct (same_bytes (sp_item_id y) (sp_item_id p)) eqn:E.
  - apply same_bytes_true in E. intros [= <-]. by exists y, l.
  - destruct (replace_stored p l) as [c' |]; [| done]. intros [= <-].
    destruct (IH c' eq_refl) as (x & others & H1 & H2 & H3). exists x, (y :: others). split; [done |].
    rewrite H2, H3. split; apply Permutation_swap.
Qed.

(** The store determines the object. *)
Lemma consistent_sub σ r rr r' : consistent σ r rr -> consistent σ r' rr ->
  forall t, t ∈ stored_peers r -> t ∈ stored_peers r'.
Proof.
  intros H H' t Ht. destruct (consistent_elem _ _ _ _ H Ht) as [Gt Lt].
  assert (Hn : sp_item_id t <> kRootItemId) by (rewrite (pg_id rr t Gt); apply peer_item_id_not_root).
  destruct (co_complete _ _ _ H' _ _ Lt Hn) as (q & Hq & Hin).
  rewrite (pg_id rr t Gt), ParsePeerItemId_build in Hq by apply (pg_typed rr t Gt).
  injection Hq as <-. destruct (Hin (pg_store rr t Gt)) as (u & Hu & Eu).
  destruct (consistent_elem _ _ _ _ H' Hu) as [Gu Lu]. rewrite Eu, Lt in Lu. apply (inj Some) in Lu.
  assert (record t = record u) as Er by (apply peer_item_inj; [apply Gt | apply Gt | apply Gu | apply Gu | done]).
  assert (t = u) as -> by (destruct t, u; cbn [sp_item_id record] in *; congruence). done.
Qed.

Lemma consistent_unique σ r rr r' rr' : ready_ r = true -> ready_ r' = true ->
  consistent σ r rr -> consistent σ r' rr' -> r' = r.
Proof.
  intros Hr Hr' H H'. destruct (co_root _ _ _ H) as (G & Md & Hi), (co_root _ _ _ H') as (G' & Md' & Hi').
  rewrite Hi in Hi'. apply (inj Some) in Hi'. apply root_item_inj in Hi' as <-; [| done | done].
  assert (Es : stored_peers r' = stored_peers r).
  { apply sorted_ids_unique; [apply H' | apply H |].
    apply NoDup_Permutation; [apply (NoDup_fmap_1 stored_device_id), sorted_ids_nodup, H' |
      apply (NoDup_fmap_1 stored_device_id), sorted_ids_nodup, H |].
    intros t. split; by eapply consistent_sub. }
  pose proof (co_view _ _ _ H) as Hv. pose proof (co_view _ _ _ H') as Hv'.
  destruct r, r'. simpl in *. congruence.
Qed.

(** The peers other than the one written. *)
Definition others_of (r : IdentityRepository) (p : StoredPeer) (others : list StoredPeer) : Prop :=
  (stored_peers r ≡ₚ others \/ exists x, sp_item_id x = sp_item_id p /\ stored_peers r ≡ₚ x :: others) /\
  forall t, t ∈ others <-> t ∈ stored_peers r /\ sp_item_id t <> sp_item_id p.

Lemma others_some σ r rr p x others : consistent σ r rr ->
  sp_item_id x = sp_item_id p -> stored_peers r ≡ₚ x :: others -> others_of r p others.
Proof.
  intros H Hx Hp. split; [right; by exists x |]. intros t.
  assert (Hnd : NoDup (x :: others)).
  { rewrite <- Hp. apply (NoDup_fmap_1 stored_device_id), (sorted_ids_nodup _ (co_sorted _ _ _ H)). }
  apply list.NoDup_cons in Hnd as [Hni _]. split.
  - intros Ht. assert (Hin : t ∈ stored_peers r) by (rewrite Hp; by right). split; [done |]. intros E.
    assert (Hxin : x ∈ stored_peers r) by (rewrite Hp; by left).
    assert (t = x) as -> by (apply (consistent_item_inj _ _ _ _ _ H); congruence). done.
  - rewrite Hp. intros [[-> | Ht]%list.elem_of_cons Hne]; [by destruct Hne | done].
Qed.

Lemma others_none r p : (forall x, x ∈ stored_peers r -> sp_item_id x <> sp_item_id p) ->
  others_of r p (stored_peers r).
Proof. intros H. split; [by left |]. intros t. split; [| by intros [? _]]. intros Ht. auto. Qed.

Lemma others_nodup σ r rr p others : consistent σ r rr -> others_of r p others ->
  NoDup (List.map stored_device_id others).
Proof.
  intros H [[Hp | (x & _ & Hp)] _]; pose proof (sorted_ids_nodup _ (co_sorted _ _ _ H)) as Hn;
    rewrite Hp in Hn; [done |]. cbn [List.map] in Hn. by apply list.NoDup_cons in Hn as [_ ?].
Qed.

Lemma put_consistent σ r rr p others candidate :
  consistent σ r rr -> peer_good rr p -> others_of r p others -> candidate ≡ₚ p :: others ->
  (forall t, t ∈ others -> stored_device_id t <> stored_device_id p) ->
  keys_unique (sort_stored candidate) -> Z.of_nat (S (length others)) <= kMaxPeerRecords ->
  consistent (<[sp_item_id p := peer_item_of (record p)]> σ)
    (r <| stored_peers := sort_stored candidate |> <| peer_view := view_of (sort_stored candidate) |>) rr.
Proof.
  intros H Hg Ho Hc Hdev Hk Hlen. pose proof (others_nodup _ _ _ _ _ H Ho) as Hnd. destruct Ho as [_ Ho].
  assert (Hroot : sp_item_id p <> kRootItemId) by (rewrite (pg_id rr p Hg); apply peer_item_id_not_root).
  split; simpl.
  - destruct (co_root _ _ _ H) as (G & Md & Hi). split; [done |]. split; [done |]. by rewrite lookup_insert_ne.
  - done.
  - apply sort_stored_sorted. rewrite Hc. cbn [List.map]. apply list.NoDup_cons. split; [| done].
    intros (t & E & Ht)%list_elem_of_In%in_map_iff. apply (Hdev t); [by apply list_elem_of_In | done].
  - done.
  - by rewrite (Permutation_length (sort_stored_perm candidate)), (Permutation_length Hc).
  - rewrite sort_stored_perm, Hc. apply list.Forall_cons. split; [split; [done | by rewrite lookup_insert_eq] |].
    apply List.Forall_forall. intros t Ht%list_elem_of_In. apply Ho in Ht as [Ht Hne].
    destruct (consistent_elem _ _ _ _ H Ht) as [Gt Lt]. split; [done |]. by rewrite lookup_insert_ne.
  - intros id item. destruct (decide (id = sp_item_id p)) as [-> | Hid].
    + intros _ _. exists {| parsed_store_id := store_id (record p); parsed_record_id := record_id (record p) |}.
      split; [rewrite (pg_id rr p Hg); apply ParsePeerItemId_build; apply (pg_typed rr p Hg) |].
      intros _. exists p. split; [| done]. rewrite sort_stored_perm, Hc. by left.
    + rewrite lookup_insert_ne by congruence. intros Hi Hn.
      destruct (co_complete _ _ _ H id item Hi Hn) as (q & Hq1 & Hq2). exists q. split; [done |]. intros E.
      destruct (Hq2 E) as (t & Ht & Eid). exists t. split; [| done]. rewrite sort_stored_perm, Hc. right.
      apply Ho. split; [done | congruence].
Qed.

(** After a peer was written: it and the others. *)
Definition put_result (r : IdentityRepository) (p : StoredPeer) (r' : IdentityRepository) : Prop :=
  root r' = root r /\ ready_ r' = ready_ r /\
  forall t, t ∈ stored_peers r' <-> t = p \/ (t ∈ stored_peers r /\ sp_item_id t <> sp_item_id p).

Lemma wp_PutPeer σ r rr p expected :
  ready_ r = true -> consistent σ r rr -> peer_typed (record p) ->
  sp_item_id p = peer_item_id (store_id (record p)) (record_id (record p)) ->
  (forall t, t ∈ stored_peers r -> sp_item_id t <> sp_item_id p ->
     stored_device_id t <> stored_device_id p) ->
  (expected = None -> Z.of_nat (length (stored_peers r)) < kMaxPeerRecords) ->
  wp (PutPeer p expected)
    (fun _ r' σ' => consistent σ' r' rr /\ put_result r p r' /\
       (expected = None -> forall t, t ∈ stored_peers r -> sp_item_id t <> sp_item_id p))
    (fun r' σ' => r' = r /\ σ' = σ) r σ.
Proof.
  intros Hready H T Hid Hdev Hcount. apply wp_payloads. intros Hb. apply wp_bind, wp_this.
  pose proof (co_root _ _ _ H) as Hroot. pose proof Hroot as (Hg & Hmd & _).
  apply wp_bind. eapply wp_lift with (P := fun _ => peer_good rr p); [| done |].
  { eapply quiet_bind; [by apply (quiet_LoadIdentitySeed _ _ rr) |]. intros sd ->.
    by apply quiet_ValidatePeerAgainstRoot. }
  intros [] Hgood. apply wp_bind. eapply wp_lift; [apply quiet_alloc | done |]. intros a _.
  apply wp_bind. apply wp_of_result; [done |]. intros encoded He%EncodePeer_alloc.
  apply EncodePeer_iff in He as [_ ->]; [| done].
  apply wp_bind. eapply wp_lift; [apply quiet_allocate | done |]. intros _ _.
  apply wp_bind.
  (* the candidate list *)
  assert (Hcand : wp (match replace_stored p (stored_peers r), expected with
      | None, None => bind (lift allocate) (fun _ => ret (stored_peers r ++ [p]))
      | Some candidate, Some _ => ret candidate
      | _, _ => fail kInvalidState
      end)
    (fun candidate r' σ' => r' = r /\ σ' = σ /\ exists others, others_of r p others /\ candidate ≡ₚ p :: others /\
       Z.of_nat (S (length others)) <= kMaxPeerRecords /\
       (expected = None -> forall t, t ∈ stored_peers r -> sp_item_id t <> sp_item_id p))
    (fun r' σ' => r' = r /\ σ' = σ) r σ).
  { destruct (replace_stored p (stored_peers r)) as [c |] eqn:Er, expected as [n |]; try by apply wp_fail.
    - apply wp_ret. split; [done |]. split; [done |].
      destruct (replace_stored_some _ _ _ Er) as (x & others & Hx & Hl & Hc). exists others.
      split; [by apply (others_some σ r rr p x) |]. split; [done |]. split; [| done].
      pose proof (co_count _ _ _ H) as Hn. by rewrite (Permutation_length Hl) in Hn.
    - apply wp_bind. eapply wp_lift; [apply quiet_allocate | done |]. intros _ _. apply wp_ret.
      split; [done |]. split; [done |]. exists (stored_peers r).
      pose proof (replace_stored_none _ _ Er) as Hnone. split; [by apply others_none |].
      split; [by rewrite (comm (++)) |]. split; [specialize (Hcount eq_refl); lia | done]. }
  eapply wp_mono; [exact Hcand | | done]. clear Hcand.
  intros candidate r' σ' (-> & -> & others & Ho & Hc & Hlen & Hnone). cbv zeta.
  destruct (ValidateUniquePeerKeys (sort_stored candidate)) as [[] | e] eqn:Eu; [| by apply wp_fail].
  assert (Hk : keys_unique (sort_stored candidate)).
  { apply ValidateUniquePeerKeys_iff; [| done]. rewrite sort_stored_perm, Hc. apply list.Forall_cons.
    split; [by apply (peer_good_tombstones rr) |]. apply List.Forall_forall. intros t Ht%list_elem_of_In.
    apply Ho in Ht as [Ht _]. destruct (consistent_elem _ _ _ _ H Ht) as [Gt _]. by apply (peer_good_tombstones rr). }
  apply wp_bind. eapply wp_lift; [apply quiet_allocate | done |]. intros _ _.
  apply wp_bind. eapply wp_lift; [by apply (quiet_EnsureRootCurrent _ _ rr) | done |]. intros _ _.
  apply wp_bind, wp_put; [done |]. intros _. apply wp_assign. fold (peer_item_of (record p)).
  assert (Hd : forall t, t ∈ others -> stored_device_id t <> stored_device_id p).
  { intros t Ht. apply Ho in Ht as [Ht Hne]. by apply Hdev. }
  split; [by apply (put_consistent σ r rr p others) |]. split; [| done]. split; [done |]. split; [done |].
  intros t. simpl. rewrite sort_stored_perm, Hc, list.elem_of_cons. destruct Ho as [_ Ho]. by rewrite Ho.
Qed.

(** ** What a call does to the peers *)

(** A new peer: active, with the key, the profile and the label committed, and
    with no history; no peer had its key. *)
Definition committed_peer (r r' : IdentityRepository) (c : PeerCommit) (p : StoredPeer) : Prop :=
  key_of p = pc_public_key c /\ security_profile (peer (record p)) = pc_security_profile c /\
  display_label (peer (record p)) = pc_display_label c /\
  trust_state (peer (record p)) = TrustState.kActive /\ tombstones_of p = [] /\
  record_revision (peer (record p)) = 1 /\
  (forall t, t ∈ stored_peers r -> sp_item_id t <> sp_item_id p /\ key_of p ∉ keys_of t) /\
  put_result r p r'.

(** The active peer [t] under a new key, which no peer had: its record stays
    active, one revision later, and remembers the key it had. *)
Definition rotated_peer (r r' : IdentityRepository) (id key : bytes) (n : Z) (t p : StoredPeer)
    : Prop :=
  t ∈ stored_peers r /\ sp_item_id p = sp_item_id t /\ stored_device_id t = id /\
  trust_state (peer (record t)) = TrustState.kActive /\
  trust_state (peer (record p)) = TrustState.kActive /\
  key_of p = key /\ tombstones_of p = tombstones_of t ++ [key_of t] /\
  rotation_counter (peer (record p)) = n /\
  record_revision (peer (record p)) = record_revision (peer (record t)) + 1 /\
  (forall u, u ∈ stored_peers r -> key_of p ∉ keys_of u) /\
  put_result r p r'.

(** The peer with the device id asked for, active before and revoked after. *)
Definition revoked_peer (r r' : IdentityRepository) (id : bytes) (t p : StoredPeer) : Prop :=
  t ∈ stored_peers r /\ sp_item_id p = sp_item_id t /\
  stored_device_id t = id /\ stored_device_id p = id /\
  trust_state (peer (record t)) = TrustState.kActive /\
  trust_state (peer (record p)) = TrustState.kRevoked /\ keys_of p = keys_of t /\
  record_revision (peer (record p)) = record_revision (peer (record t)) + 1 /\
  put_result r p r'.

(** The peer with the device id asked for, revoked before and gone after. *)
Definition forgotten_peer (r r' : IdentityRepository) (id : bytes) (t : StoredPeer) : Prop :=
  t ∈ stored_peers r /\ stored_device_id t = id /\
  trust_state (peer (record t)) = TrustState.kRevoked /\
  root r' = root r /\ ready_ r' = ready_ r /\
  (forall u, u ∈ stored_peers r' <-> u ∈ stored_peers r /\ sp_item_id u <> sp_item_id t).

(** What a successful call on a ready object does to it. *)
Definition call_effect (op : repo_op) (r r' : IdentityRepository) : Prop :=
  match op with
  | OpOpen => False
  | OpRefresh | OpCleanupStaleItems => r' = r
  | OpReset => ready_ r' = true /\ stored_peers r' = [] /\
      rm_revision (root r') = rm_revision (root r) + 1 /\
      rm_store_id (root r') <> rm_store_id (root r)
  | OpCommitPeer c => exists p, committed_peer r r' c p
  | OpRotatePeer id key n => exists t p, rotated_peer r r' id key n t p
  | OpRevokePeer id => exists t p, revoked_peer r r' id t p
  | OpForgetPeer id => exists t, forgotten_peer r r' id t
  end.

Lemma call_effect_ready op r r' : ready_ r = true -> call_effect op r r' -> ready_ r' = true.
Proof.
  intros Hr. destruct op; simpl.
  - done.
  - by intros ->.
  - by intros [? _].
  - by intros ->.
  - intros (q & _ & _ & _ & _ & _ & _ & _ & _ & -> & _). done.
  - intros (t & p & _ & _ & _ & _ & _ & _ & _ & _ & _ & _ & _ & -> & _). done.
  - intros (t & p & _ & _ & _ & _ & _ & _ & _ & _ & _ & -> & _). done.
  - intros (t & _ & _ & _ & _ & -> & _). done.
Qed.

(** A success changes the peers so and keeps the store in step; a failure
    changes neither. *)
Definition changes {A} (op : repo_op) (m : M A) (r : IdentityRepository) (σ : contents)
    (rr : RootRecord) : Prop :=
  wp m (fun _ r' σ' => consistent σ' r' rr /\ call_effect op r r') (fun r' σ' => r' = r /\ σ' = σ) r σ.

Lemma KeyIsKnown_false r key : KeyIsKnown r key = false -> forall t, t ∈ stored_peers r -> key ∉ keys_of t.
Proof.
  intros H t Ht Hk. assert (KeyIsKnown r key = true); [| congruence]. unfold KeyIsKnown. apply existsb_exists.
  exists t. split; [by apply list_elem_of_In |]. unfold keys_of in Hk.
  apply orb_true_iff. apply list.elem_of_cons in Hk as [-> | Hk]; [left; by apply same_bytes_true |].
  right. by apply existsb_same_bytes.
Qed.

Lemma FindPeer_none σ r rr id : ready_ r = true -> consistent σ r rr -> ~ is_Some (FindPeer r id) ->
  forall t, t ∈ stored_peers r -> stored_device_id t <> id.
Proof.
  intros Hr H Hn t Ht E. apply Hn. rewrite (FindPeer_stored r id Hr (co_view _ _ _ H)).
  rewrite (proj2 (FindStoredPeer_iff r id t (co_sorted _ _ _ H)) (conj Ht E)). by eexists.
Qed.

Lemma quiet_ComputePeerMac σ r rr p : payloads σ -> root_stored σ (root r) rr -> peer_typed (record p) ->
  quiet σ (ComputePeerMac r p) (fun mac => mac = mac_of rr (record p)).
Proof.
  intros Hb Hr T. eapply quiet_bind; [by apply (quiet_LoadIdentitySeed _ _ rr) |]. intros sd ->.
  destruct Hr as (_ & <- & _). cbn [rm_store_id RootMetadataFrom].
  eapply quiet_mono; [by apply quiet_ComputePeerMacWith |]. by intros mac [_ ->].
Qed.

Lemma array_of_zeroes n : array_of (Z.of_nat n) (repeat 0 n).
Proof.
  split; [| unfold bsize; by rewrite repeat_length]. apply List.Forall_forall. intros x ->%repeat_spec.
  unfold is_byte, in_width. lia.
Qed.

Definition commit_typed (p : PeerCommit) : Prop :=
  array_of kEd25519PublicKeySize (pc_public_key p) /\ in_width 16 (pc_security_profile p) /\
  all_bytes (pc_display_label p).

Lemma changes_CommitPeer σ r rr p :
  ready_ r = true -> consistent σ r rr -> commit_typed p -> changes (OpCommitPeer p) (CommitPeer p) r σ rr.
Proof.
  intros Hready H (Tk & Tp & Tl). apply wp_payloads. intros Hb. apply wp_bind, wp_this. rewrite Hready. cbn [negb].
  destruct (_ || _); [by apply wp_fail |].
  destruct (Z.eqb_spec (Z.of_nat (length (stored_peers r))) kMaxPeerRecords) as [| Hlt]; [by apply wp_fail |].
  apply wp_bind. eapply wp_lift; [apply law_Validate | done |]. intros [] _.
  destruct (KeyIsKnown r (pc_public_key p)) eqn:Ek; [by apply wp_fail |].
  apply wp_bind. eapply wp_lift; [apply law_DeriveDeviceId | done |]. intros d ->.
  destruct (bool_decide _) eqn:Ef; [by apply wp_fail |]. apply bool_decide_eq_false in Ef. cbv zeta.
  set (stored := {| store_id := rm_store_id (root r) |}).
  pose proof (co_root _ _ _ H) as Hroot. pose proof Hroot as (Hg & Hmd & _). pose proof (rg_typed rr Hg) as Tr.
  assert (T : forall mac, array_of kMacSize mac -> peer_typed (stored <| authenticator := mac |>)).
  { intros mac Hmac. unfold stored. rewrite <- Hmd. split; simpl; try done;
      try apply law_device_of; try apply Tr; by vm_compute. }
  assert (T0 : peer_typed stored) by (apply (T (repeat 0 32)), (array_of_zeroes 32)).
  apply wp_bind. eapply wp_lift; [apply quiet_alloc | done |]. intros a _.
  apply wp_bind. apply wp_of_result; [done |]. intros id Hid.
  assert (id = peer_item_id (store_id stored) (record_id stored)) as ->.
  { destruct a; [| done]. rewrite BuildPeerItemId_eq in Hid; [congruence | apply T0 | apply T0]. }
  apply wp_bind. eapply wp_lift; [by apply (quiet_ComputePeerMac _ _ rr) | done |]. intros mac ->.
  apply wp_bind. eapply wp_mono.
  - apply (wp_PutPeer σ r rr); [done | done | apply T, law_hmac_of | done | |].
    + intros t Ht _. apply (FindPeer_none σ r rr); done.
    + intros _. pose proof (co_count _ _ _ H). lia.
  - intros ? r' σ' (Hc & Hput & Hnone). apply wp_ret. split; [done |].
    match type of Hput with put_result _ ?q _ => exists q end.
    do 6 (split; [done |]). split; [| exact Hput]. intros t Ht. split; [by apply Hnone |].
    by apply (KeyIsKnown_false r).
  - done.
Qed.

Lemma uadd_one n : in_width 64 n -> (n =? umax 64) = false -> uadd 64 n 1 = n + 1.
Proof. intros Hn E. apply Z.eqb_neq in E. apply uadd_small. widths. Qed.

(** A stored peer found by its device id. *)
Lemma FindStoredPeer_loaded σ r rr id s : consistent σ r rr -> FindStoredPeer r id = Some s ->
  s ∈ stored_peers r /\ stored_device_id s = id /\ peer_good rr s.
Proof.
  intros H Hf. apply (FindStoredPeer_iff r id s (co_sorted _ _ _ H)) in Hf as [Hs E].
  destruct (consistent_elem _ _ _ _ H Hs) as [? _]. done.
Qed.

Lemma consistent_device_inj σ r rr s t : consistent σ r rr ->
  s ∈ stored_peers r -> t ∈ stored_peers r -> stored_device_id s = stored_device_id t -> s = t.
Proof.
  intros H Hs Ht E. pose proof (co_sorted _ _ _ H) as Hso.
  pose proof (proj2 (FindStoredPeer_iff r _ s Hso) (conj Hs E)) as F1.
  pose proof (proj2 (FindStoredPeer_iff r _ t Hso) (conj Ht eq_refl)) as F2. congruence.
Qed.

Lemma changes_RotatePeer σ r rr id key n :
  ready_ r = true -> consistent σ r rr -> array_of kEd25519PublicKeySize key -> in_width 64 n ->
  changes (OpRotatePeer id key n) (RotatePeer id key n) r σ rr.
Proof.
  intros Hready H Tk Tn. apply wp_payloads. intros Hb. apply wp_bind, wp_this. rewrite Hready. cbn [negb].
  destruct (FindStoredPeer r id) as [cur |] eqn:Ef; [| by apply wp_fail]. cbv zeta.
  destruct (FindStoredPeer_loaded _ _ _ _ _ H Ef) as (Hin & Hdev & G).
  destruct (_ || _) eqn:Ec; [by apply wp_fail |].
  apply orb_false_iff in Ec as [Ec _]. apply orb_false_iff in Ec as [Ec E4]. apply orb_false_iff in Ec as [Ec _].
  apply orb_false_iff in Ec as [E1 _]. apply negb_false_iff, Z.eqb_eq in E1.
  apply wp_bind. eapply wp_lift; [apply law_Validate | done |]. intros [] _.
  destruct (KeyIsKnown r key) eqn:Ek; [by apply wp_fail |].
  apply wp_bind. eapply wp_lift; [apply law_DeriveDeviceId | done |]. intros d ->.
  destruct (bool_decide _) eqn:Eb; [by apply wp_fail |]. apply bool_decide_eq_false in Eb.
  apply wp_bind. eapply wp_lift; [apply quiet_allocate | done |]. intros _ _.
  set (candidate := (record cur) <| peer := _ |>).
  pose proof (co_root _ _ _ H) as Hroot. pose proof (pg_typed rr cur G) as Tc.
  assert (T : forall mac, array_of kMacSize mac -> peer_typed (candidate <| authenticator := mac |>)).
  { intros mac Hmac. unfold candidate. destruct Tc. split; simpl; try done.
    - apply law_device_of.
    - by apply wrap_range.
    - apply Forall_app. split; [done |]. apply list.Forall_cons. split; [done | by apply Forall_nil]. }
  assert (T0 : peer_typed candidate).
  { specialize (T (authenticator (record cur)) (pt_authenticator _ Tc)). unfold candidate in *. by destruct (record cur). }
  apply wp_bind. eapply wp_lift; [by apply (quiet_ComputePeerMac _ _ rr) | done |]. intros mac ->.
  apply wp_bind. eapply wp_mono.
  - apply (wp_PutPeer σ r rr); [done | done | apply T, law_hmac_of | apply (pg_id rr cur G) | | done].
    intros t Ht _. simpl. apply (FindPeer_none σ r rr); done.
  - intros ? r' σ' (Hc & Hput & _). apply wp_ret. split; [done |].
    match type of Hput with put_result _ ?p _ => exists cur, p end.
    split; [exact Hin |]. split; [done |]. split; [exact Hdev |]. do 5 (split; [done |]).
    split; [simpl; apply uadd_one; [apply Tc | exact E4] |]. split; [| exact Hput].
    by apply KeyIsKnown_false.
  - done.
Qed.

Lemma wp_RevokePeer σ r rr id :
  ready_ r = true -> consistent σ r rr ->
  wp (RevokePeer id)
    (fun _ r' σ' => consistent σ' r' rr /\ exists t p, revoked_peer r r' id t p)
    (fun r' σ' => r' = r /\ σ' = σ) r σ.
Proof.
  intros Hready H. apply wp_payloads. intros Hb. apply wp_bind, wp_this. rewrite Hready. cbn [negb].
  destruct (FindStoredPeer r id) as [cur |] eqn:Ef; [| by apply wp_fail]. cbv zeta.
  destruct (FindStoredPeer_loaded _ _ _ _ _ H Ef) as (Hin & Hdev & G).
  destruct (_ || _) eqn:Ec; [by apply wp_fail |].
  apply orb_false_iff in Ec as [E1 E2]. apply negb_false_iff, Z.eqb_eq in E1.
  set (candidate := (record cur) <| peer := _ |>).
  pose proof (co_root _ _ _ H) as Hroot. pose proof (pg_typed rr cur G) as Tc.
  assert (T : forall mac, array_of kMacSize mac -> peer_typed (candidate <| authenticator := mac |>)).
  { intros mac Hmac. unfold candidate. destruct Tc. split; simpl; try done. by apply wrap_range. }
  assert (T0 : peer_typed candidate).
  { specialize (T (authenticator (record cur)) (pt_authenticator _ Tc)). unfold candidate in *. by destruct (record cur). }
  apply wp_bind. eapply wp_lift; [by apply (quiet_ComputePeerMac _ _ rr) | done |]. intros mac ->.
  eapply wp_mono.
  - apply (wp_PutPeer σ r rr); [done | done | apply T, law_hmac_of | apply (pg_id rr cur G) | | done].
    intros t Ht Hne E. apply Hne. by rewrite (consistent_device_inj _ _ _ t cur H Ht Hin E).
  - intros ? r' σ' (Hc & Hput & _). split; [done |].
    match type of Hput with put_result _ ?p _ => exists cur, p end. split; [exact Hin |]. split; [done |]. split; [done |]. split; [exact Hdev |].
    split; [done |]. split; [done |]. split; [done |]. split; [| exact Hput].
    simpl. apply uadd_one; [apply Tc | exact E2].
  - done.
Qed.

Lemma changes_RevokePeer σ r rr id :
  ready_ r = true -> consistent σ r rr -> changes (OpRevokePeer id) (RevokePeer id) r σ rr.
Proof. apply wp_RevokePeer. Qed.

Lemma keys_unique_sub l l' : l' `sublist_of` l -> keys_unique l -> keys_unique l'.
Proof.
  intros Hsub. induction Hsub as [| x l' l Hsub IH | x l' l Hsub IH]; [done | |].
  - intros [H1 H2]. destruct IH as [I1 I2].
    { split; [intros s Hs; apply H1; by right |]. intros i j s t key Hi Hj Hs Ht.
      assert (S i = S j) by (by apply (H2 (S i) (S j) s t key)). lia. }
    assert (Hsep : forall y, y ∈ l' -> forall key, key ∈ keys_of x -> key ∉ keys_of y).
    { intros y Hy key Hx Hk. apply (elem_of_sublist _ l), list_elem_of_lookup in Hy as (j & Hj); [| done].
      specialize (H2 0%nat (S j) x y key eq_refl Hj Hx Hk). lia. }
    split; [intros s [-> | Hs]%list.elem_of_cons; [apply H1; by left | by apply I1] |].
    intros [| i] [| j] s t key; simpl; intros Hi Hj Hs Ht; [done | | | f_equal; by apply (I2 i j s t key)].
    + injection Hi as ->. destruct (Hsep t (list_elem_of_lookup_2 _ _ _ Hj) key Hs Ht).
    + injection Hj as ->. destruct (Hsep s (list_elem_of_lookup_2 _ _ _ Hi) key Ht Hs).
  - intros [H1 H2]. apply IH. split; [intros s Hs; apply H1; by right |]. intros i j s t key Hi Hj Hs Ht.
    assert (S i = S j) by (by apply (H2 (S i) (S j) s t key)). lia.
Qed.

Lemma sorted_sub l l' : l' `sublist_of` l -> sorted_ids l -> sorted_ids l'.
Proof.
  unfold sorted_ids. induction 1 as [| x l' l Hsub IH | x l' l Hsub IH]; intros Hs; [done | |];
    apply StronglySorted_inv in Hs as [Hs Hx]; [| by apply IH].
  constructor; [by apply IH |]. rewrite List.Forall_forall in Hx |- *. intros y Hy. apply Hx.
  apply list_elem_of_In. apply list_elem_of_In in Hy. by apply (elem_of_sublist l').
Qed.

Lemma filter_sub {A} (f : A -> bool) (l : list A) : List.filter f l `sublist_of` l.
Proof. induction l as [| x l IH]; simpl; [done |]. destruct (f x); by constructor. Qed.

Lemma changes_ForgetPeer σ r rr id :
  ready_ r = true -> consistent σ r rr -> changes (OpForgetPeer id) (ForgetPeer id) r σ rr.
Proof.
  intros Hready H. apply wp_payloads. intros Hb. apply wp_bind, wp_this. rewrite Hready. cbn [negb].
  destruct (FindStoredPeer r id) as [cur |] eqn:Ef; [| by apply wp_fail].
  destruct (FindStoredPeer_loaded _ _ _ _ _ H Ef) as (Hin & Hdev & G).
  destruct (_ =? TrustState.kRevoked) eqn:E1; cbn [negb]; [| by apply wp_fail]. apply Z.eqb_eq in E1.
  pose proof (co_root _ _ _ H) as Hroot.
  apply wp_bind. eapply wp_lift; [apply quiet_allocate | done |]. intros _ _. cbv zeta.
  set (candidate := List.filter _ _).
  assert (Hsub : candidate `sublist_of` stored_peers r) by apply filter_sub.
  assert (Hel : forall u, u ∈ candidate <-> u ∈ stored_peers r /\ sp_item_id u <> sp_item_id cur).
  { intros u. unfold candidate. rewrite !list_elem_of_In, filter_In, negb_true_iff, same_bytes_false. done. }
  apply wp_bind. eapply wp_lift; [by apply (quiet_EnsureRootCurrent _ _ rr) | done |]. intros _ _.
  apply wp_bind, wp_delete; [done |]. intros _. apply wp_assign.
  split; [| by exists cur].
  assert (Hnr : sp_item_id cur <> kRootItemId) by (rewrite (pg_id rr cur G); apply peer_item_id_not_root).
  split; simpl.
  - destruct Hroot as (Gr & Md & Hi). split; [done |]. split; [done |]. by rewrite lookup_delete_ne.
  - done.
  - apply (sorted_sub (stored_peers r)); [done | apply H].
  - apply (keys_unique_sub (stored_peers r)); [done | apply H].
  - pose proof (co_count _ _ _ H). apply sublist_length in Hsub. lia.
  - apply List.Forall_forall. intros t Ht%list_elem_of_In. apply Hel in Ht as [Ht Hne].
    destruct (consistent_elem _ _ _ _ H Ht) as [Gt Lt]. split; [done |]. by rewrite lookup_delete_ne.
  - intros i item Hi Hn. destruct (decide (i = sp_item_id cur)) as [-> | Hne]; [by rewrite lookup_delete_eq in Hi |].
    rewrite lookup_delete_ne in Hi by congruence.
    destruct (co_complete _ _ _ H i item Hi Hn) as (q & Hq1 & Hq2). exists q. split; [done |]. intros E.
    destruct (Hq2 E) as (t & Ht & Eid). exists t. split; [| done]. apply Hel. split; [done | congruence].
Qed.

(** ** Cleaning up and resetting *)

(** A computation that may write but keeps a property of the store. *)
Definition keeps_store {A} (I : contents -> Prop) (m : E A) (P : A -> Prop) : Prop :=
  forall w, I (store_of w) -> I (store_of (m w).1) /\ forall a, (m w).2 = Success a -> P a.

Lemma keeps_store_bind {A B} I (m : E A) (k : A -> E B) P Q :
  keeps_store I m P -> (forall a, P a -> keeps_store I (k a) Q) -> keeps_store I (bind m k) Q.
Proof.
  intros Hm Hk w Hw. destruct (Hm w Hw) as [H1 H2]. unfold bind.
  destruct (m w) as [w1 [a | e]]; cbn [fst snd] in *; [| by split]. apply Hk; [by apply H2 | done].
Qed.

Lemma keeps_store_quiet {A} I (m : E A) P :
  (forall σ, I σ -> payloads σ -> quiet σ m P) -> keeps_store I m P.
Proof.
  intros H w Hw. destruct (H (store_of w) Hw (store_payloads w) w eq_refl) as [-> H2]. by split.
Qed.

(** Items of another generation may go. *)
Lemma consistent_delete σ r rr id p : consistent σ r rr ->
  id <> kRootItemId -> ParsePeerItemId id = Success p -> parsed_store_id p <> root_store_id rr ->
  consistent (delete id σ) r rr.
Proof.
  intros H Hn Hp Hne. pose proof H as [H1 H2 H3 H4 H5 H6 H7]. split; try done.
  - destruct H1 as (? & ? & ?). split; [done |]. split; [done |]. by rewrite lookup_delete_ne.
  - apply List.Forall_forall. intros s Hs%list_elem_of_In. destruct (consistent_elem _ _ _ _ H Hs) as [G L].
    split; [done |]. rewrite lookup_delete_ne; [done |]. intros E. apply Hne.
    rewrite E, (pg_id rr s G), ParsePeerItemId_build in Hp by apply (pg_typed rr s G).
    injection Hp as <-. apply (pg_store rr s G).
  - intros i item Hi. destruct (decide (i = id)) as [-> | Hd]; [by rewrite lookup_delete_eq in Hi |].
    rewrite lookup_delete_ne in Hi by congruence. by apply (H7 i item).
Qed.

Lemma keeps_CleanupStaleItems r rr :
  keeps_store (fun σ => consistent σ r rr) (CleanupStaleItems r) (fun _ => True).
Proof.
  unfold CleanupStaleItems. destruct (ready_ r); cbn [negb];
    [| apply keeps_store_quiet; intros; apply quiet_fail].
  eapply (keeps_store_bind _ _ _ (fun _ => True)).
  { apply keeps_store_quiet. intros σ H Hb. apply (quiet_EnsureRootCurrent _ _ rr); [done | apply H]. }
  intros _ _. destruct (rm_retired_store_id (root r)) as [retired |] eqn:Er;
    [| apply keeps_store_quiet; intros; by apply quiet_ret].
  intros w Hw. pose proof (co_root _ _ _ Hw) as (Gr & Md & _).
  assert (Hne : retired <> root_store_id rr).
  { rewrite <- Md in Er. cbn [rm_retired_store_id RootMetadataFrom] in Er. pose proof (rg_valid rr Gr) as V.
    unfold root_valid in V. rewrite Er in V. apply andb_true_iff in V as [_ V]. apply andb_true_iff in V as [V _].
    by apply negb_true_iff, same_bytes_false in V. }
  clear Er Md Gr. revert w Hw.
  apply (keeps_store_bind (fun σ => consistent σ r rr) Enumerate _ (fun _ => True)).
  { apply keeps_store_quiet. intros. eapply quiet_mono; [apply law_Enumerate | done]. }
  intros items _. induction items as [| m items IH]; [apply keeps_store_quiet; intros; by apply quiet_ret |].
  destruct (same_bytes (item_id m) kRootItemId) eqn:E1; [exact IH |]. apply same_bytes_false in E1.
  eapply (keeps_store_bind _ _ _ (fun p => ParsePeerItemId (item_id m) = Success p)).
  { apply keeps_store_quiet. intros. by apply quiet_of_result. }
  intros p Hp. destruct (same_bytes (parsed_store_id p) retired) eqn:E2; cbn [negb]; [| exact IH].
  apply same_bytes_true in E2. eapply (keeps_store_bind _ _ _ (fun _ => True)); [| by intros _ _].
  intros w Hw. split; [| done]. pose proof (law_Delete (item_id m) (meta_revision m) w) as Hd.
  destruct (CompareExchangeDelete (item_id m) (meta_revision m) w) as [w' [[] | e]]; cbn [fst].
  - destruct Hd as [_ ->]. apply (consistent_delete _ _ _ _ p); [done | done | done | congruence].
  - by rewrite Hd.
Qed.

Lemma wp_try_keeps {A} (m : E A) I P (Q : Result A -> _ -> _ -> Prop) (F : _ -> _ -> Prop) r σ :
  keeps_store I m P -> I σ -> (forall a σ, I σ -> Q a r σ) -> wp (lift (try_ m)) Q F r σ.
Proof.
  intros Hm Hi Hq w Hw. rewrite <- Hw in Hi. destruct (Hm w Hi) as [H1 _]. unfold lift, try_. cbn [fst snd].
  destruct (m w) as [w1 res]; cbn [fst snd] in *. by apply Hq.
Qed.

Lemma wp_keeps {A} (m : E A) I P (Q : A -> _ -> _ -> Prop) (F : _ -> _ -> Prop) r σ :
  keeps_store I m P -> I σ -> (forall σ, I σ -> F r σ) -> (forall a σ, I σ -> Q a r σ) -> wp (lift m) Q F r σ.
Proof.
  intros Hm Hi Hf Hq w Hw. rewrite <- Hw in Hi. destruct (Hm w Hi) as [H1 _]. unfold lift. cbn [fst snd].
  destruct (m w) as [w1 [a | e]]; cbn [fst snd] in *; auto.
Qed.

Lemma quiet_GenerationHasItems σ sid : quiet σ (GenerationHasItems sid) (fun _ => True).
Proof.
  eapply quiet_bind; [apply law_Enumerate |]. intros items _.
  induction items as [| m items IH]; [by apply quiet_ret |].
  destruct (same_bytes _ _); [exact IH |].
  eapply (quiet_bind _ _ _ (fun _ => True)); [by apply quiet_of_result |]. intros p _.
  destruct (same_bytes _ _); [by apply quiet_ret | exact IH].
Qed.

Lemma wp_Reset σ r rr : ready_ r = true -> consistent σ r rr ->
  wp Reset (fun _ r' σ' => ready_ r' = true /\ stored_peers r' = [] /\
      rm_revision (root r') = rm_revision (root r) + 1 /\
      rm_store_id (root r') <> rm_store_id (root r) /\ exists rr', consistent σ' r' rr')
    (fun r' σ' => r' = r /\ σ' = σ) r σ.
Proof.
  intros Hready H. apply wp_payloads. intros Hb. apply wp_bind, wp_this. rewrite Hready. cbn [negb orb].
  destruct (Z.eqb_spec (rm_revision (root r)) (umax 64)) as [| Hmax]; [by apply wp_fail |].
  pose proof (co_root _ _ _ H) as Hroot. pose proof Hroot as (Gr & Md & _). pose proof (rg_typed rr Gr) as Tr.
  apply wp_bind. eapply wp_lift; [by apply (quiet_EnsureRootCurrent _ _ rr) | done |]. intros _ _.
  apply wp_bind.
  assert (Hpend : wp (match rm_retired_store_id (root r) with
      | Some retired => lift (GenerationHasItems retired) | None => ret false end)
    (fun _ r' σ' => r' = r /\ σ' = σ) (fun r' σ' => r' = r /\ σ' = σ) r σ).
  { destruct (rm_retired_store_id (root r)); [| by apply wp_ret].
    eapply wp_lift; [apply quiet_GenerationHasItems | done | done]. }
  eapply wp_mono; [exact Hpend | | done]. clear Hpend. intros pending r' σ' [-> ->].
  destruct pending; [by apply wp_fail |]. cbv zeta.
  assert (Hrev : uadd 64 (rm_revision (root r)) 1 = rm_revision (root r) + 1 /\
    in_width 64 (rm_revision (root r) + 1) /\ rm_revision (root r) + 1 <> 0).
  { pose proof (rt_revision rr Tr) as Hw. rewrite <- Md in *. cbn [rm_revision RootMetadataFrom] in *.
    split; [apply uadd_small; widths |]. widths. }
  destruct Hrev as (-> & Hw & Hnz).
  apply wp_bind. eapply wp_lift; [apply quiet_MakeRoot | done |]. intros made [Hm Hfresh].
  destruct (_ || _) eqn:Ec; [by apply wp_fail |]. apply orb_false_iff in Ec as [Ec _].
  assert (Hsid : rm_store_id (root r) <> root_store_id made).
  { intros E. rewrite <- not_true_iff_false in Ec. apply Ec. rewrite E.
    apply (array_equal kStoreIdSize); [apply Hm | apply Hm | done]. }
  set (replacement := made <| retired_store_id := Some (rm_store_id (root r)) |>).
  assert (Hg : root_good replacement).
  { apply (root_made_good (rm_revision (root r) + 1)); [done | done | done |]. intros id [= <-].
    rewrite <- Md in *. cbn [rm_store_id RootMetadataFrom] in *. split; [apply Tr |]. split; [apply Gr | done]. }
  apply wp_bind. eapply wp_lift; [apply quiet_alloc | done |]. intros a _.
  apply wp_bind. apply wp_of_result; [done |]. intros encoded He%EncodeRootRecord_alloc.
  apply EncodeRootRecord_iff in He as [_ ->]; [| apply (rg_typed _ Hg)].
  apply wp_bind, wp_put; [done |]. intros _. apply wp_bind, wp_assign. apply wp_bind.
  set (r' := {| root := RootMetadataFrom replacement |}).
  eapply wp_try_keeps; [apply (keeps_CleanupStaleItems r' replacement) | |].
  - apply fresh_consistent; [done | |].
    + rewrite lookup_insert_eq. unfold root_item_of, replacement. simpl. by rewrite (ma_revision _ _ Hm).
    + intros id item Hid Hn. rewrite lookup_insert_ne in Hid by congruence.
      destruct (co_complete _ _ _ H id item Hid Hn) as (p & Hp & _). exists p. split; [done |].
      intros E. by destruct (Hfresh id item p Hid Hp).
  - intros ? σ' Hc. apply wp_ret. split; [done |]. split; [done |].
    split; [unfold r', replacement; simpl; by rewrite (ma_revision _ _ Hm) |].
    split; [simpl; congruence | by exists replacement].
Qed.

(** ** Any sequence of calls *)

Definition op_typed (op : repo_op) : Prop :=
  match op with
  | OpCommitPeer p => commit_typed p
  | OpRotatePeer _ key n => array_of kEd25519PublicKeySize key /\ in_width 64 n
  | _ => True
  end.

Fixpoint repo_run (ops : list repo_op) (s : IdentityRepository * W) : IdentityRepository * W :=
  match ops with
  | [] => s
  | op :: ops => repo_run ops (run_op op s).1
  end.

Lemma wp_run {A} (m : M A) Q F r w :
  wp m Q F r (store_of w) ->
  match (m (r, w)).2 with
  | Success a => Q a (m (r, w)).1.1 (store_of (m (r, w)).1.2)
  | Failure _ => F (m (r, w)).1.1 (store_of (m (r, w)).1.2)
  end.
Proof. intros H. specialize (H w eq_refl). by destruct (m (r, w)) as [[r' w'] [a | e]]. Qed.

(** What a call does, from a state in which memory and store agree. *)
Definition call_result (op : repo_op) (r r' : IdentityRepository) (σ' : contents) : Prop :=
  agrees r' σ' /\ (ready_ r = true -> call_effect op r r').

Lemma wp_run_op op σ r : op_typed op -> agrees r σ ->
  wp (run_op op) (fun _ r' σ' => call_result op r r' σ') (fun r' σ' => r' = r /\ agrees r σ') r σ.
Proof.
  intros Ht Ha.
  assert (Hload : forall m : M unit,
    wp m (fun _ r' σ' => call_result op r r' σ') agrees r σ -> fails_clean m ->
    wp m (fun _ r' σ' => call_result op r r' σ') (fun r' σ' => r' = r /\ agrees r σ') r σ).
  { intros m Hm Hclean w Hw. specialize (Hm w Hw). pose proof (Hclean (r, w)) as Hc.
    destruct (m (r, w)) as [[r' w'] [a | e]]; cbn [fst snd] in *; [done |].
    specialize (Hc e eq_refl). subst r'. by split. }
  assert (Hchange : forall A (m : M A) (k : A -> M unit), (forall a r σ Q F, Q tt r σ -> wp (k a) Q F r σ) ->
    (forall rr, ready_ r = true -> consistent σ r rr -> changes op m r σ rr) ->
    (ready_ r = false -> wp m (fun _ _ _ => False) (fun r' σ' => r' = r /\ σ' = σ) r σ) ->
    wp (bind m k) (fun _ r' σ' => call_result op r r' σ') (fun r' σ' => r' = r /\ agrees r σ') r σ).
  { intros A m k Hk Hc Hn. apply wp_bind. destruct (ready_ r) eqn:Er.
    - destruct (Ha Er) as [rr H]. eapply wp_mono; [by apply (Hc rr) | | by intros ? ? [-> ->]].
      intros a r' σ' [Hc' Hch]. apply Hk. split; [by intros _; exists rr | done].
    - eapply wp_mono; [by apply Hn | done | by intros ? ? [-> ->]]. }
  assert (Hret : forall B (a : B) r σ (Q : unit -> _ -> _ -> Prop) F, Q tt r σ -> wp (ret (S := IdentityRepository * W) tt) Q F r σ)
    by (intros; by apply wp_ret).
  destruct op; cbn [run_op op_typed] in *.
  - apply Hload; [| apply clean_Open]. eapply wp_mono; [by apply wp_Open | | done].
    intros _ r' σ' [Ha' Hn]. split; [done |]. intros Er. by rewrite Er in Hn.
  - apply Hload; [| apply clean_Refresh]. eapply wp_mono; [by apply wp_Refresh | | done].
    intros _ r' σ' (Ha' & Hr & Hr' & ->). split; [done |]. intros _.
    destruct (Ha Hr) as [rr Hc], (Ha' Hr') as [rr' Hc']. eapply consistent_unique; eauto.
  - apply wp_bind. destruct (ready_ r) eqn:Er.
    + destruct (Ha Er) as [rr H]. eapply wp_mono; [by apply (wp_Reset σ r rr) | | by intros ? ? [-> ->]].
      intros a r' σ' (H1 & H2 & H3 & H4 & rr' & Hc). apply wp_ret. split; [by intros _; exists rr' | done].
    + unfold Reset. apply wp_bind, wp_this. rewrite Er. apply wp_fail. done.
  - apply wp_bind, wp_this. destruct (ready_ r) eqn:Er.
    + destruct (Ha Er) as [rr H]. eapply wp_keeps; [apply (keeps_CleanupStaleItems r rr) | done | |].
      * intros σ' Hc. split; [done |]. by intros _; exists rr.
      * intros a σ' Hc. by split; [intros _; exists rr |].
    + unfold CleanupStaleItems. rewrite Er. eapply wp_lift; [apply (quiet_fail _ _ (fun _ => False)) | done | done].
  - apply Hchange; [by apply (Hret bytes) | intros; by apply changes_CommitPeer |].
    intros Er. apply wp_bind, wp_this. rewrite Er. by apply wp_fail.
  - destruct Ht. apply Hchange; [by apply (Hret bytes) | intros; by apply changes_RotatePeer |].
    intros Er. apply wp_bind, wp_this. rewrite Er. by apply wp_fail.
  - apply Hchange; [by apply (Hret unit) | intros; by apply changes_RevokePeer |].
    intros Er. apply wp_bind, wp_this. rewrite Er. by apply wp_fail.
  - apply Hchange; [by apply (Hret unit) | intros; by apply changes_ForgetPeer |].
    intros Er. apply wp_bind, wp_this. rewrite Er. by apply wp_fail.
Qed.

Lemma run_op_agrees op r w : op_typed op -> agrees r (store_of w) ->
  agrees (run_op op (r, w)).1.1 (store_of (run_op op (r, w)).1.2).
Proof.
  intros Ht Ha. pose proof (wp_run _ _ _ _ _ (wp_run_op op _ _ Ht Ha)) as H.
  destruct (run_op op (r, w)) as [[r' w'] [a | e]]; cbn [fst snd] in *; [apply H |]. by destruct H as [-> ?].
Qed.

Lemma repo_run_agrees ops r w : Forall op_typed ops -> agrees r (store_of w) ->
  agrees (repo_run ops (r, w)).1 (store_of (repo_run ops (r, w)).2).
Proof.
  intros Ht. revert r w. induction Ht as [| op ops Hop _ IH]; intros r w Ha; [done |]. cbn [repo_run].
  pose proof (run_op_agrees op r w Hop Ha) as H. destruct (run_op op (r, w)) as [[r' w'] res]. by apply IH.
Qed.

Lemma initial_agrees σ : agrees IdentityRepository_initial σ.
Proof. done. Qed.

(** ** Opening anew *)

(** An environment in which no call fails; the validator accepts valid keys. *)
Class FaultlessEnvironment := {
  sure_alloc w : (env_alloc w).2 = true;
  sure_Enumerate w : ok (Enumerate w).2 = true;
  sure_Get id w : ok (Get id w).2 = true;
  sure_DerivePublicKey x w : ok (DerivePublicKey x w).2 = true;
  sure_DeriveDeviceId x w : ok (DeriveDeviceId x w).2 = true;
  sure_DerivePeerRecordMacKey x y w : ok (DerivePeerRecordMacKey x y w).2 = true;
  sure_HmacSha256 x y w : ok (HmacSha256 x y w).2 = true;
  sure_Validate key w : valid_key key = true -> ok (Validate key w).2 = true;
}.

Context {faultless : FaultlessEnvironment}.
#[local] Set Default Proof Using "All".

(** A computation that succeeds and leaves the store as it is. *)
Definition sure {A} (σ : contents) (m : E A) (P : A -> Prop) : Prop :=
  forall w, store_of w = σ -> exists w' a, m w = (w', Success a) /\ store_of w' = σ /\ P a.

Lemma sure_quiet {A} σ (m : E A) P : quiet σ m P -> (forall w, ok (m w).2 = true) -> sure σ m P.
Proof.
  intros Hm Hok w Hw. destruct (Hm w Hw) as [H1 H2]. specialize (Hok w).
  destruct (m w) as [w' [a | e]]; cbn [fst snd ok] in *; [| done]. exists w', a. auto.
Qed.

Lemma sure_ret {A} σ (a : A) (P : A -> Prop) : P a -> sure σ (ret a) P.
Proof. intros Ha w Hw. by exists w, a. Qed.

Lemma sure_of_result {A} σ (a : A) (r : Result A) (P : A -> Prop) : r = Success a -> P a -> sure σ (of_result r) P.
Proof. intros -> Ha w Hw. by exists w, a. Qed.

Lemma sure_bind {A B} σ (m : E A) (k : A -> E B) P Q :
  sure σ m P -> (forall a, P a -> sure σ (k a) Q) -> sure σ (bind m k) Q.
Proof.
  intros Hm Hk w Hw. destruct (Hm w Hw) as (w1 & a & Em & H1 & Ha).
  destruct (Hk a Ha w1 H1) as (w2 & b & Ek & H2 & Hb). exists w2, b. unfold bind. by rewrite Em.
Qed.

Lemma sure_mono {A} σ (m : E A) (P Q : A -> Prop) : sure σ m P -> (forall a, P a -> Q a) -> sure σ m Q.
Proof. intros Hm H w Hw. destruct (Hm w Hw) as (w' & a & ? & ? & ?). exists w', a. auto. Qed.

Lemma sure_alloc_ σ : sure σ alloc_ (fun a => a = true).
Proof.
  intros w Hw. destruct (law_alloc σ w Hw) as [H1 _]. pose proof (sure_alloc w) as H2. unfold alloc_ in *.
  destruct (env_alloc w) as [w' a]. cbn [fst snd] in *. by exists w', a.
Qed.

Lemma sure_allocate σ : sure σ allocate (fun _ => True).
Proof. eapply sure_bind; [apply sure_alloc_ |]. intros a ->. by apply sure_ret. Qed.

Lemma array_equal_refl n a : array_of n a -> ConstantTimeEqual a a = true.
Proof. intros H. by apply (array_equal n). Qed.

Lemma sure_DecodeAndValidateRoot σ rr : root_good rr ->
  sure σ (DecodeAndValidateRoot (root_item_of rr)) (fun rr' => rr' = rr).
Proof.
  intros [T V Hp Hd Hs]. eapply sure_bind; [apply sure_alloc_ |]. intros a ->.
  eapply (sure_bind _ _ _ (fun rr' => rr' = rr)).
  { apply (sure_of_result _ rr); [by apply DecodeRootRecord_fields | done]. }
  intros rr' ->. cbn [item_revision root_item_of]. rewrite Z.eqb_refl, Hs. cbn [negb].
  eapply sure_bind; [apply sure_quiet; [apply law_DerivePublicKey | intros; apply sure_DerivePublicKey] |].
  intros pk ->. rewrite <- Hp, (array_equal_refl kEd25519PublicKeySize) by apply T. cbn [negb].
  eapply sure_bind; [apply sure_quiet; [apply law_DeriveDeviceId | intros; apply sure_DeriveDeviceId] |].
  intros d ->. rewrite <- Hd, (array_equal_refl kDeviceIdSize) by apply T. by apply sure_ret.
Qed.

Lemma sure_ComputePeerMacWith σ rr p : peer_typed p -> peer_valid p = true ->
  sure σ (ComputePeerMacWith (seed rr) (root_store_id rr) p) (fun mac => mac = mac_of rr p).
Proof.
  intros T V. eapply sure_bind; [apply sure_alloc_ |]. intros a ->.
  eapply (sure_bind _ _ _ (fun input => input = record_bytes kPeerMacInputKind (peer_fields p))).
  { apply (sure_of_result _ (record_bytes kPeerMacInputKind (peer_fields p))); [| done]. by apply EncodePeer_iff. }
  intros input ->.
  eapply sure_bind; [apply sure_quiet; [apply law_DerivePeerRecordMacKey | intros; apply sure_DerivePeerRecordMacKey] |].
  intros k ->. eapply sure_bind; [apply sure_allocate |]. intros _ _.
  apply sure_quiet; [apply law_HmacSha256 | intros; apply sure_HmacSha256].
Qed.

Lemma sure_ValidateStoredKey σ key : valid_key key = true -> sure σ (ValidateStoredKey key) (fun _ => True).
Proof.
  intros Hk w Hw. destruct (law_Validate σ key w Hw) as [H1 _]. pose proof (sure_Validate key w Hk) as H2.
  unfold ValidateStoredKey, bind, try_. destruct (Validate key w) as [w' [[] | e]]; [| done].
  by exists w', tt.
Qed.

Lemma sure_ValidateStoredKeys σ keys : Forall (fun key => valid_key key = true) keys ->
  sure σ (ValidateStoredKeys keys) (fun _ => True).
Proof.
  induction 1 as [| key keys Hk _ IH]; [by apply sure_ret |]. cbn [ValidateStoredKeys].
  eapply sure_bind; [by apply sure_ValidateStoredKey |]. by intros _ _.
Qed.

Lemma peer_valid_counts p : peer_valid p = true ->
  record_revision (peer p) <> 0 /\ rotation_counter (peer p) = Z.of_nat (length (tombstones (peer p))).
Proof.
  unfold peer_valid. cbv zeta. intros V. repeat (apply andb_true_iff in V as [V ?]). bool_facts. done.
Qed.

Lemma sure_ValidatePeerAgainstRoot σ rr s : root_good rr -> peer_good rr s ->
  sure σ (ValidatePeerAgainstRoot (seed rr) (RootMetadataFrom rr) (record s)) (fun _ => True).
Proof.
  intros Gr G. pose proof (pg_typed rr s G) as T. pose proof (rg_typed rr Gr) as Tr.
  destruct (peer_valid_counts _ (pg_valid rr s G)) as [Hrev Hrot].
  unfold ValidatePeerAgainstRoot. cbv zeta. cbn [rm_store_id rm_device_id RootMetadataFrom].
  rewrite (pg_store rr s G), (pg_root rr s G), (pg_nonzero rr s G), Hrot, Z.eqb_refl.
  rewrite (array_equal_refl kStoreIdSize), (array_equal_refl kDeviceIdSize) by apply Tr.
  destruct (Z.eqb_spec (record_revision (peer (record s))) 0) as [| _]; [done |]. cbn [negb orb].
  pose proof (pg_keys rr s G) as Hk. unfold keys_of in Hk. apply list.Forall_cons in Hk as [Hk Hks].
  eapply sure_bind; [by apply sure_ValidateStoredKey |]. intros _ _.
  eapply sure_bind; [by apply sure_ValidateStoredKeys |]. intros _ _.
  eapply sure_bind; [apply sure_quiet; [apply law_DeriveDeviceId | intros; apply sure_DeriveDeviceId] |].
  intros d ->. fold (key_of s). rewrite <- (pg_device rr s G). fold (stored_device_id s).
  rewrite (array_equal_refl kDeviceIdSize) by apply T. cbn [negb].
  eapply sure_bind; [apply sure_ComputePeerMacWith; apply G |]. intros mac ->.
  rewrite (pg_mac rr s G), (array_equal_refl kMacSize) by apply law_hmac_of. by apply sure_ret.
Qed.

Lemma RootMatches_refl rr : root_good rr -> RootMatches rr (RootMetadataFrom rr) = true.
Proof.
  intros [T _ _ _ _]. unfold RootMatches. cbn [rm_revision rm_public_key rm_device_id rm_store_id rm_retired_store_id RootMetadataFrom].
  rewrite Z.eqb_refl, (array_equal_refl kEd25519PublicKeySize), (array_equal_refl kDeviceIdSize),
    (array_equal_refl kStoreIdSize), eqb_reflx by apply T. cbn [negb orb].
  destruct (retired_store_id rr) as [id |] eqn:E; [| done].
  by apply (array_equal_refl kStoreIdSize), (rt_retired rr T).
Qed.

(** The loop finds the peers of the object. *)
Lemma sure_LoadFromRoot_loop σ r rr items saw_root stored :
  consistent σ r rr -> NoDup (List.map item_id items) ->
  (forall m, m ∈ items -> exists item, σ !! item_id m = Some item /\ item_revision item = meta_revision m) ->
  (saw_root = true -> kRootItemId ∉ List.map item_id items) ->
  NoDup stored -> (forall s, s ∈ stored -> s ∈ stored_peers r /\ sp_item_id s ∉ List.map item_id items) ->
  sure σ (LoadFromRoot_loop (seed rr) (RootMetadataFrom rr) items saw_root stored)
    (fun res => (res.1 = true <-> saw_root = true \/ kRootItemId ∈ List.map item_id items) /\
       NoDup res.2 /\
       forall s, s ∈ res.2 <-> s ∈ stored \/ (s ∈ stored_peers r /\ sp_item_id s ∈ List.map item_id items)).
Proof.
  intros H. pose proof (co_root _ _ _ H) as (Gr & _ & Hroot). revert saw_root stored.
  induction items as [| m items IH]; intros saw_root stored Hnd Hitems Hsaw Hns Hst.
  { apply sure_ret. cbn [List.map fst snd]. split; [| split; [done |]].
    - split; [by left | intros [? | ?%not_elem_of_nil]; done].
    - intros s. split; [by left | intros [? | [_ ?%not_elem_of_nil]]; done]. }
  cbn [List.map] in *. apply list.NoDup_cons in Hnd as [Hni Hnd].
  assert (Hitems' : forall m', m' ∈ items -> exists item, σ !! item_id m' = Some item /\
    item_revision item = meta_revision m') by (intros m' Hm'; apply Hitems; by right).
  destruct (Hitems m ltac:(by left)) as (item & Hi & Hrev).
  cbn [LoadFromRoot_loop]. destruct (same_bytes (item_id m) kRootItemId) eqn:Er.
  { apply same_bytes_true in Er. rewrite Er in *. rewrite Hroot in Hi. injection Hi as <-.
    assert (saw_root = false) as ->.
    { destruct saw_root; [| done]. destruct (Hsaw eq_refl). by left. }
    cbn [rm_revision RootMetadataFrom item_revision root_item_of orb] in *. rewrite <- Hrev, Z.eqb_refl. cbn [negb].
    eapply sure_mono; [apply IH; try done |].
    - intros s Hs. destruct (Hst s Hs) as [? Hn]. split; [done |]. rewrite not_elem_of_cons in Hn. tauto.
    - intros res (H1 & H2 & H3). split; [| split; [done |]].
      + split; [intros _; right; by left | intros _; apply H1; by left].
      + intros s. rewrite H3, list.elem_of_cons. split; [tauto |]. intros [? | [Hs [E | ?]]]; [tauto | | tauto].
        destruct (consistent_elem _ _ _ _ H Hs) as [G _]. rewrite (pg_id rr s G) in E.
        by destruct (peer_item_id_not_root (store_id (record s)) (record_id (record s))). }
  apply same_bytes_false in Er.
  destruct (co_complete _ _ _ H (item_id m) item Hi Er) as (p & Hp & Hown).
  eapply (sure_bind _ _ _ (fun p' => p' = p)); [by apply (sure_of_result _ p) |]. intros p' ->.
  cbn [rm_store_id RootMetadataFrom].
  destruct (same_bytes (parsed_store_id p) (root_store_id rr)) eqn:Es; cbn [negb].
  2: { apply same_bytes_false in Es. eapply sure_mono; [apply IH; try done |].
       - intros E. specialize (Hsaw E). by apply not_elem_of_cons in Hsaw as [_ ?].
       - intros s Hs. destruct (Hst s Hs) as [? Hn]. split; [done |]. by apply not_elem_of_cons in Hn as [_ ?].
       - intros res (H1 & H2 & H3). split; [| split; [done |]].
         { rewrite H1, list.elem_of_cons. split; [tauto |]. intros [? | [E | ?]]; [tauto | by destruct Er | tauto]. }
         intros s. rewrite H3, list.elem_of_cons. split; [tauto |]. intros [? | [Hs [E | ?]]]; [tauto | | tauto].
         exfalso. apply Es. destruct (consistent_elem _ _ _ _ H Hs) as [G _].
         rewrite <- E, (pg_id rr s G), ParsePeerItemId_build in Hp by apply (pg_typed rr s G).
         injection Hp as <-. apply (pg_store rr s G). }
  apply same_bytes_true in Es. destruct (Hown Es) as (s0 & Hs0 & Hid0).
  destruct (consistent_elem _ _ _ _ H Hs0) as [G0 L0].
  assert (Hnew : s0 ∉ stored).
  { intros Hin. destruct (Hst s0 Hin) as [_ Hn]. apply Hn. rewrite Hid0. by left. }
  assert (Hlt : Z.of_nat (length stored) < kMaxPeerRecords).
  { assert (Hsub : (s0 :: stored) ⊆+ stored_peers r).
    { apply NoDup_submseteq; [by apply list.NoDup_cons |].
      intros x [-> | Hx]%list.elem_of_cons; [done | by apply Hst]. }
    apply submseteq_length in Hsub. pose proof (co_count _ _ _ H). simpl in Hsub. lia. }
  destruct (Z.eqb_spec (Z.of_nat (length stored)) kMaxPeerRecords) as [E | _]; [lia |].
  rewrite <- Hid0 in *. rewrite L0 in Hi. apply (inj Some) in Hi. subst item.
  eapply sure_bind; [apply sure_quiet; [apply law_Get | intros; apply sure_Get] |]. intros found ->. rewrite L0.
  rewrite Hrev, Z.eqb_refl. cbn [negb].
  eapply sure_bind; [apply sure_alloc_ |]. intros a ->.
  eapply (sure_bind _ _ _ (fun q => q = record s0)).
  { apply (sure_of_result _ (record s0)); [| done]. apply DecodePeerRecord_fields; apply G0. }
  intros q ->. cbn [item_revision peer_item_of] in Hrev. rewrite Hrev, Z.eqb_refl. cbn [negb].
  rewrite (pg_id rr s0 G0), ParsePeerItemId_build in Hp by apply (pg_typed rr s0 G0). injection Hp as <-.
  cbn [parsed_store_id parsed_record_id] in *. unfold same_bytes at 1 2. rewrite !bool_decide_true by done.
  cbn [negb orb].
  eapply sure_bind; [by apply sure_ValidatePeerAgainstRoot |]. intros _ _.
  eapply sure_bind; [apply sure_allocate |]. intros _ _.
  assert ({| sp_item_id := sp_item_id s0; record := record s0 |} = s0) as -> by by destruct s0.
  eapply sure_mono; [apply IH; try done |].
  - intros E. specialize (Hsaw E). by apply not_elem_of_cons in Hsaw as [_ ?].
  - apply list.NoDup_app. split; [done |]. split; [| apply list.NoDup_cons; split; [apply not_elem_of_nil | constructor]].
    by intros x Hx ->%list_elem_of_singleton.
  - intros s [Hs | ->%list_elem_of_singleton]%elem_of_app.
    + destruct (Hst s Hs) as [? Hn]. split; [done |]. by apply not_elem_of_cons in Hn as [_ ?].
    + done.
  - intros res (H1 & H2 & H3). split; [| split; [done |]].
    + rewrite H1, list.elem_of_cons. split; [tauto |].
      intros [? | [E | ?]]; [tauto | by destruct Er | tauto].
    + intros s. rewrite H3, elem_of_app, list_elem_of_singleton, list.elem_of_cons. split.
      * intros [[? | ->] | ?]; [tauto | right; split; [done | by left] | tauto].
      * intros [? | [Hs [E | ?]]]; [tauto | | tauto]. left; right. by apply (consistent_item_inj _ _ _ _ _ H).
Qed.

Lemma listing_items σ items : List.map (fun m => (item_id m, meta_revision m)) items ≡ₚ listing σ ->
  NoDup (List.map item_id items) /\
  (forall m, m ∈ items -> exists item, σ !! item_id m = Some item /\ item_revision item = meta_revision m) /\
  (forall id item, σ !! id = Some item -> id ∈ List.map item_id items).
Proof.
  intros Hp. split; [| split].
  - assert (E : List.map item_id items ≡ₚ (map_to_list σ).*1).
    { transitivity (List.map fst (List.map (fun m => (item_id m, meta_revision m)) items)).
      - by rewrite List.map_map.
      - rewrite Hp. unfold listing. by rewrite List.map_map. }
    rewrite E. apply NoDup_fst_map_to_list.
  - intros m Hm. assert (Hin : (item_id m, meta_revision m) ∈ listing σ).
    { rewrite <- Hp. apply list_elem_of_In, in_map_iff. exists m. split; [done | by apply list_elem_of_In]. }
    unfold listing in Hin. apply list_elem_of_In, in_map_iff in Hin as ([id item] & E & Hin%list_elem_of_In).
    injection E as <- E. apply elem_of_map_to_list in Hin. by exists item.
  - intros id item Hi. destruct (listing_elem σ items Hp id item Hi) as (m & Hm & <- & _).
    apply list_elem_of_In, in_map_iff. exists m. split; [done | by apply list_elem_of_In].
Qed.

Lemma sure_ReadFromRoot σ r rr : consistent σ r rr ->
  sure σ (ReadFromRoot (root_item_of rr)) (fun res => res = (root r, stored_peers r)).
Proof.
  intros H. pose proof (co_root _ _ _ H) as (Gr & Md & Hroot).
  eapply sure_bind; [by apply sure_DecodeAndValidateRoot |]. intros rr' ->.
  eapply sure_bind; [apply sure_quiet; [apply law_Enumerate | intros; apply sure_Enumerate] |]. intros items Hp.
  destruct (listing_items σ items Hp) as (Hnd & Hitems & Hall).
  eapply sure_bind; [apply (sure_LoadFromRoot_loop σ r rr items false []);
    [done | done | done | done | constructor | by intros s ?%not_elem_of_nil] |].
  intros [saw new] (H1 & H2 & H3). cbn [fst snd] in *. cbv zeta.
  assert (saw = true) as -> by (apply H1; right; by apply (Hall _ _ Hroot)). cbn [negb].
  assert (Hperm : new ≡ₚ stored_peers r).
  { apply NoDup_Permutation; [done | |].
    - apply (NoDup_fmap_1 stored_device_id), (sorted_ids_nodup _ (co_sorted _ _ _ H)).
    - intros s. rewrite H3. split; [by intros [?%not_elem_of_nil | [? _]] |]. intros Hs. right. split; [done |].
      destruct (consistent_elem _ _ _ _ H Hs) as [_ L]. by apply (Hall _ _ L). }
  assert (Hsort : sort_stored new = stored_peers r).
  { apply sorted_ids_unique; [| apply H | by rewrite sort_stored_perm].
    apply sort_stored_sorted. rewrite Hperm. apply sorted_ids_nodup, H. }
  rewrite Hsort, (proj2 (not_strictly_sorted_false _) (co_sorted _ _ _ H)).
  eapply (sure_bind _ _ _ (fun _ => True)).
  { apply (sure_of_result _ tt); [| done]. apply ValidateUniquePeerKeys_iff; [| apply H].
    apply (loaded_tombstones σ rr), H. }
  intros _ _. eapply sure_bind; [apply sure_allocate |]. intros _ _.
  eapply sure_bind; [apply sure_quiet; [apply law_Get | intros; apply sure_Get] |]. intros found ->. rewrite Hroot.
  eapply sure_bind; [by apply sure_DecodeAndValidateRoot |]. intros rr' ->.
  rewrite RootMatches_refl by done. cbn [negb]. apply sure_ret. by rewrite Md.
Qed.

Lemma Open_recovers r w rr : consistent (store_of w) r rr -> ready_ r = true ->
  exists w', Open (IdentityRepository_initial, w) = ((r, w'), Success tt) /\ store_of w' = store_of w.
Proof.
  intros H Hr. pose proof (co_root _ _ _ H) as (Gr & Md & Hroot).
  unfold Open, bind at 1, this. cbn [fst snd ready_ IdentityRepository_initial].
  unfold bind at 1, lift at 1. cbn [fst snd].
  destruct (sure_quiet _ _ _ (law_Get (store_of w) kRootItemId) (fun w => sure_Get kRootItemId w) w eq_refl)
    as (w1 & found & -> & Hw1 & ->). rewrite Hroot.
  unfold LoadFromRoot, bind, lift. cbn [fst snd].
  destruct (sure_ReadFromRoot _ _ _ H w1 Hw1) as (w2 & res & -> & Hw2 & ->). cbn [fst snd assign].
  exists w2. split; [| done]. unfold assign. cbn [snd]. rewrite <- (co_view _ _ _ H), <- Hr. by destruct r.
Qed.

End Store.

(** ** Theorems *)

(** C6: Memory and store agree: after any sequence of calls, whatever fails on
    the way, a ready repository holds exactly the records of its generation
    in the store: each peer in memory is stored under its id with its
    revision and a correct authenticator, every stored item of the generation
    is in memory, the peers are in the strict order of their device ids, and
    no key, current or former, belongs to two of them. *)
Theorem memory_matches_store {W : Type} {env : Environment W} {laws : LawfulEnvironment W}
    (ops : list repo_op) (w : W) :
  Forall op_typed ops ->
  let s := repo_run ops (IdentityRepository_initial, w) in
  ready_ s.1 = true -> exists rr, consistent (store_of s.2) s.1 rr.
Proof. intros Ht. apply (repo_run_agrees ops IdentityRepository_initial w Ht), initial_agrees. Qed.

(** C31: A repository opened anew recovers everything: after any sequence of calls
    that left the repository ready, opening a new one on the same store, with
    nothing failing, succeeds and gives the same identity and the same peers,
    and the store is unchanged. *)
Theorem reopen_recovers {W : Type} {env : Environment W} {laws : LawfulEnvironment W}
    {faultless : FaultlessEnvironment} (ops : list repo_op) (w : W) :
  Forall op_typed ops ->
  let s := repo_run ops (IdentityRepository_initial, w) in
  ready_ s.1 = true ->
  exists w', Open (IdentityRepository_initial, s.2) = ((s.1, w'), Success tt) /\
    store_of w' = store_of s.2.
Proof.
  intros Ht s Hr. destruct (repo_run_agrees ops IdentityRepository_initial w Ht (initial_agrees _) Hr) as [rr Hc].
  by apply (Open_recovers _ _ rr).
Qed.

(** C10: The life of the peer records.  After any sequence of calls that left
    the repository ready, whatever failed on the way, a call that fails changes
    nothing, and one that succeeds does exactly this: opening again never
    succeeds; refreshing and cleaning up leave the object as it is; resetting
    forgets every peer and starts a new generation one revision later;
    committing adds one active peer whose key no peer had, now or earlier;
    rotating gives the active peer of the device id a key no peer had and keeps
    it active, one revision later, remembering the key it had; revoking makes
    the active peer of the device id revoked, one revision later, with the keys
    it had; forgetting removes the peer of the device id, which was revoked; and
    no other peer is touched.  So a revoked peer never becomes active again. *)
Theorem peer_record_lifecycle {W : Type} {env : Environment W} {laws : LawfulEnvironment W}
    (ops : list repo_op) (op : repo_op) (w : W) :
  Forall op_typed ops -> op_typed op ->
  let s := repo_run ops (IdentityRepository_initial, w) in
  let r' := (run_op op s).1.1 in
  ready_ s.1 = true ->
  match (run_op op s).2 with
  | Failure _ => r' = s.1
  | Success _ => ready_ r' = true /\ call_effect op s.1 r'
  end.
Proof.
  intros Ht Hop s r' Hr.
  pose proof (repo_run_agrees ops IdentityRepository_initial w Ht (initial_agrees _)) as Ha.
  fold s in Ha. destruct s as [r1 w1] eqn:Es. cbn [fst snd] in *.
  pose proof (wp_run _ _ _ _ _ (wp_run_op op _ _ Hop Ha)) as H. unfold r'.
  destruct (run_op op (r1, w1)) as [[r2 w2] [a | e]]; cbn [fst snd] in *; [| apply H].
  destruct H as [_ H]. split; [by eapply call_effect_ready, H | by apply H].
Qed.

(** ** A lawful environment *)

Module IdentityStoreExample.

(** The items, those whose payload is bytes; toy cryptography: values cut or
    padded to the size of the result. *)
Definition items_of (w : contents) : contents :=
  filter (fun kv => all_bytes (payload kv.2)) w.

Definition fit (n : nat) (l : bytes) : bytes := take n (List.map u8 l ++ repeat 0 n).

Lemma fit_array n l : array_of (Z.of_nat n) (fit n l).
Proof.
  unfold fit. split.
  - apply Forall_take, all_bytes_app. split.
    + apply List.Forall_forall. intros x (y & <- & _)%in_map_iff. by apply wrap_range.
    + by apply (array_of_zeroes n).
  - unfold bsize. rewrite length_take, length_app, List.length_map, repeat_length. lia.
Qed.

Definition unusedb (σ : contents) (sid : bytes) : bool :=
  forallb (fun kv => match ParsePeerItemId kv.1 with
                     | Success p => negb (same_bytes (parsed_store_id p) sid)
                     | Failure _ => true
                     end) (map_to_list σ).

#[global] Instance toy : Environment contents := {|
  env_alloc := fun w => (w, true);
  Enumerate := fun w => (w, Success (List.map (fun kv : list Z * ProtectedItem =>
    {| item_id := kv.1; meta_revision := item_revision kv.2 |}) (map_to_list (items_of w))));
  Get := fun id w => (w, Success (items_of w !! id));
  CompareExchangePut := fun id expected item w =>
    if decide (item_revision <$> items_of w !! id = expected /\ all_bytes (payload item))
    then (<[id := item]> w, Success tt) else (w, Failure kRevisionConflict);
  CompareExchangeDelete := fun id expected w =>
    if decide (item_revision <$> items_of w !! id = Some expected)
    then (delete id w, Success tt) else (w, Failure kRevisionConflict);
  GenerateSeed := fun w => (w, Success (repeat 5 32));
  GenerateStoreId := fun w =>
    (w, if unusedb (items_of w) (repeat 1 16) then Success (repeat 1 16) else Failure kEntropyFailure);
  DerivePublicKey := fun seed w => (w, Success (fit 32 seed));
  DeriveDeviceId := fun key w => (w, Success (fit 32 key));
  DerivePeerRecordMacKey := fun seed sid w => (w, Success (seed ++ sid));
  HmacSha256 := fun key msg w => (w, Success (fit 32 msg));
  Validate := fun key w => (w, if bool_decide (key = []) then Failure kInvalidArgument else Success tt);
|}.

Lemma unusedb_sound σ sid : unusedb σ sid = true -> unused_store_id σ sid.
Proof.
  unfold unusedb. rewrite forallb_forall. intros H id item p Hi Hp.
  specialize (H (id, item) ltac:(by apply list_elem_of_In, elem_of_map_to_list)). cbn [fst] in H.
  rewrite Hp in H. by apply negb_true_iff, same_bytes_false in H.
Qed.

#[global] Program Instance toy_laws : LawfulEnvironment contents := {|
  store_of := items_of;
  public_of := fit 32;
  device_of := fit 32;
  mac_key_of := fun seed sid => seed ++ sid;
  hmac_of := fun _ msg => fit 32 msg;
  valid_key := fun key => negb (bool_decide (key = []));
|}.
Next Obligation. intros w id item H. unfold items_of in H. by apply map_lookup_filter_Some in H as [_ ?]. Qed.
Next Obligation. intros σ w Hw. by split. Qed.
Next Obligation.
  intros σ w Hw. split; [done |]. intros items [= <-]. rewrite Hw, List.map_map. unfold listing. done.
Qed.
Next Obligation. intros σ id w Hw. split; [done |]. intros found [= <-]. by rewrite Hw. Qed.
Next Obligation.
  intros id expected item w. simpl. destruct (decide _) as [[H1 H2] |]; [| done]. split; [done |].
  unfold items_of. by rewrite map_filter_insert_True.
Qed.
Next Obligation.
  intros id expected w. simpl. destruct (decide _) as [H1 |]; [| done]. split; [done |].
  unfold items_of. by rewrite map_filter_delete.
Qed.
Next Obligation. intros σ w Hw. split; [done |]. intros s [= <-]. by apply (bool_decide_unpack _); vm_compute. Qed.
Next Obligation.
  intros σ w Hw. simpl. rewrite Hw. destruct (unusedb σ _) eqn:E; [| by split]. split; [done |]. intros s [= <-].
  split; [by apply (bool_decide_unpack _); vm_compute | by apply unusedb_sound].
Qed.
Next Obligation. intros σ seed w Hw. split; [done |]. by intros s [= <-]. Qed.
Next Obligation. intros σ seed w Hw. split; [done |]. by intros s [= <-]. Qed.
Next Obligation. intros σ seed sid w Hw. split; [done |]. by intros s [= <-]. Qed.
Next Obligation. intros σ key msg w Hw. split; [done |]. by intros s [= <-]. Qed.
Next Obligation. intros seed. apply (fit_array 32). Qed.
Next Obligation. intros seed. apply (fit_array 32). Qed.
Next Obligation. intros key msg. apply (fit_array 32). Qed.
Next Obligation.
  intros σ key w Hw. simpl. destruct (bool_decide (key = [])); by split.
Qed.

#[global] Program Instance toy_faultless : FaultlessEnvironment (W := contents).
Next Obligation. done. Qed.
Next Obligation. done. Qed.
Next Obligation. done. Qed.
Next Obligation. done. Qed.
Next Obligation. done. Qed.
Next Obligation. done. Qed.
Next Obligation. done. Qed.
Next Obligation. intros key w H. simpl in *. by destruct (bool_decide (key = [])). Qed.

(** Opened on an empty store, one peer committed and then revoked. *)
Definition commit : PeerCommit :=
  {| pc_public_key := repeat 9 32; pc_security_profile := 1; pc_display_label := [80; 67] |}.

Definition ops : list repo_op := [OpOpen; OpCommitPeer commit; OpRevokePeer (repeat 9 32)].

Lemma ops_typed : Forall op_typed ops.
Proof.
  apply list.Forall_cons. split; [done |]. apply list.Forall_cons. split.
  - split; [by apply (bool_decide_unpack _); vm_compute |].
    split; by apply (bool_decide_unpack _); vm_compute.
  - apply list.Forall_cons. split; [done | by apply Forall_nil].
Qed.

Definition final : IdentityRepository * contents := repo_run ops (IdentityRepository_initial, ∅).

Lemma final_ready : ready_ final.1 = true.
Proof. by vm_compute. Qed.

Lemma final_revoked :
  List.map (fun s => trust_state (peer (record s))) (stored_peers final.1) = [TrustState.kRevoked].
Proof. by vm_compute. Qed.

Lemma memory_matches_store_witness : exists rr, consistent (store_of final.2) final.1 rr.
Proof. exact (memory_matches_store ops ∅ ops_typed final_ready). Defined.

Lemma reopen_recovers_witness :
  exists w', Open (IdentityRepository_initial, final.2) = ((final.1, w'), Success tt) /\
    store_of w' = store_of final.2.
Proof. exact (reopen_recovers ops ∅ ops_typed final_ready). Defined.

Lemma peer_record_lifecycle_witness :
  (run_op (OpForgetPeer (repeat 9 32)) final).2 = Success tt /\
  exists t, forgotten_peer final.1 (run_op (OpForgetPeer (repeat 9 32)) final).1.1 (repeat 9 32) t.
Proof.
  assert (E : (run_op (OpForgetPeer (repeat 9 32)) final).2 = Success tt) by (by vm_compute).
  split; [exact E |].
  pose proof (peer_record_lifecycle ops (OpForgetPeer (repeat 9 32)) ∅ ops_typed I final_ready) as H.
  cbv zeta in H. change (repo_run ops (IdentityRepository_initial, ∅)) with final in H.
  rewrite E in H. exact (proj2 H).
Defined.

End IdentityStoreExample.
