(* ===== verification/SessionAuthority.v ===== *)
(** * The session authority

    [SessionAuthority] of [native/src/session/authority.cpp]: the sessions that
    may transfer files.  A session is activated with an established TLS channel
    whose peer the repository trusts, and is checked against the repository at
    every use.

    The members of [EstablishedTlsChannel] (in [native/src/session/channels.cpp])
    that the authority reads are those of the record [EstablishedTlsChannel];
    they do not change once the authority owns the channel.
    [current_transport()] asks the TLS library and is a call of the environment,
    as is the source of random handles. *)

From S2P Require Import Prelude.
From S2P Require Import IdentityCodec.
From S2P Require Import IdentityRepository.

Module SessionAuthority.
Import IdentityTypes IdentityCodec IdentityRepository.

Definition kMaxActiveSessions : Z := kMaxPeerRecords.
Definition kHandleGenerationAttempts : nat := 4.

Inductive AuthorizationError :=
  | AuthorizationError_kNone
  | AuthorizationError_kInvalidArgument
  | AuthorizationError_kUnavailable
  | AuthorizationError_kUnauthenticated
  | AuthorizationError_kStale
  | AuthorizationError_kStorageFailure
  | AuthorizationError_kEntropyFailure.

Record AuthorizationResult := {
  ar_error : AuthorizationError;
  ar_handle : option bytes;
}.

Record EstablishedTlsChannel := {
  channel_number : nat;
  channel_peer_device_id : bytes;
  channel_peer_public_key : bytes;
  channel_security_profile : Z;
  channel_peer_record_revision : Z;
  channel_identity_revision : Z;
  local_finished_prepared : bool;
  local_finished_written : bool;
  peer_finished_verified : bool;
}.

Definition transport_bound (channel : EstablishedTlsChannel) : bool :=
  local_finished_prepared channel && local_finished_written channel && peer_finished_verified channel.

Record Entry := {
  entry_handle : bytes;
  entry_channel : EstablishedTlsChannel;
}.

Record SessionAuthority := {
  entries : list Entry;
  shutdown : bool;
}.

#[global] Instance eta_SessionAuthority : Eta SessionAuthority := fun x =>
  {| entries := entries x; shutdown := shutdown x |}.

Definition SessionAuthority_initial : SessionAuthority := {| entries := []; shutdown := false |}.

(** [SessionEntropy::Fill] of a handle, [None] when it fails, and
    [EstablishedTlsChannel::current_transport]. *)
Class SessionEnvironment (W : Type) := {
  Fill : W -> W * option bytes;
  current_transport : EstablishedTlsChannel -> W -> W * bool;
}.

Definition AllZero (handle : bytes) : bool :=
  fold_left (fun accumulator byte => u8 (Z.lor accumulator byte)) handle 0 =? 0.

Definition Find (handle : bytes) (s : SessionAuthority) : option Entry :=
  List.find (fun entry => same_bytes (entry_handle entry) handle) (entries s).

Section Authority.
Context {W : Type} {env : Environment W} {senv : SessionEnvironment W}.

(** [Current]: the channel is still what the repository trusts. *)
Definition Current (entry : Entry) (s : SessionAuthority) (r : IdentityRepository) (w : W) : W * bool :=
  if shutdown s || negb (ready r) then (w, false)
  else
  let channel := entry_channel entry in
  match FindPeer r (channel_peer_device_id channel) with
  | None => (w, false)
  | Some peer =>
      if transport_bound channel && (revision_ r =? channel_identity_revision channel) &&
         (trust_state peer =? TrustState.kActive) &&
         same_bytes (public_key peer) (channel_peer_public_key channel) &&
         (record_revision peer =? channel_peer_record_revision channel) &&
         (security_profile peer <=? channel_security_profile channel)
      then current_transport channel w else (w, false)
  end.

Definition IsAuthorized (handle : bytes) (s : SessionAuthority) (r : IdentityRepository) (w : W)
    : W * bool :=
  match Find handle s with
  | None => (w, false)
  | Some entry => Current entry s r w
  end.

(** The handle of the first attempt that is neither zero nor taken; [None] after
    the last one or when the source of randomness fails. *)
Fixpoint GenerateHandle (attempts : nat) (s : SessionAuthority) (w : W) : W * option bytes :=
  match attempts with
  | O => (w, None)
  | S attempts =>
      let '(w, filled) := Fill w in
      match filled with
      | None => (w, None)
      | Some handle =>
          let duplicate := existsb (fun entry => same_bytes (entry_handle entry) handle) (entries s) in
          if negb (AllZero handle) && negb duplicate then (w, Some handle)
          else GenerateHandle attempts s w
      end
  end.

Definition authorization_error (e : AuthorizationError) : AuthorizationResult :=
  {| ar_error := e; ar_handle := None |}.

(** [Activate]; a null channel is [None]. *)
Definition Activate (channel : option EstablishedTlsChannel) (s : SessionAuthority)
    (r : IdentityRepository) (w : W) : SessionAuthority * W * AuthorizationResult :=
  if shutdown s then (s, w, authorization_error AuthorizationError_kInvalidArgument) else
  match channel with
  | None => (s, w, authorization_error AuthorizationError_kInvalidArgument)
  | Some channel =>
      if negb (transport_bound channel) then
        (s, w, authorization_error AuthorizationError_kUnauthenticated)
      else if negb (ready r) then (s, w, authorization_error AuthorizationError_kUnavailable)
      else if Z.of_nat (length (entries s)) =? kMaxActiveSessions then
        (s, w, authorization_error AuthorizationError_kUnavailable)
      else
      match FindPeer r (channel_peer_device_id channel) with
      | None => (s, w, authorization_error AuthorizationError_kUnauthenticated)
      | Some peer =>
          if negb (trust_state peer =? TrustState.kActive) ||
             negb (same_bytes (public_key peer) (channel_peer_public_key channel)) ||
             negb (record_revision peer =? channel_peer_record_revision channel) ||
             negb (revision_ r =? channel_identity_revision channel) ||
             (security_profile peer >? channel_security_profile channel) then
            (s, w, authorization_error AuthorizationError_kUnauthenticated)
          else
          let '(w, current) := current_transport channel w in
          if negb current then (s, w, authorization_error AuthorizationError_kUnauthenticated)
          else
          let '(w, generated) := GenerateHandle kHandleGenerationAttempts s w in
          match generated with
          | None => (s, w, authorization_error AuthorizationError_kEntropyFailure)
          | Some handle =>
              let '(w, allocated) := env_alloc w in
              if negb allocated then (s, w, authorization_error AuthorizationError_kUnavailable)
              else
                (s <| entries := entries s ++ [{| entry_handle := handle; entry_channel := channel |}] |>,
                 w, {| ar_error := AuthorizationError_kNone; ar_handle := Some handle |})
          end
      end
  end.

Definition Deactivate (handle : bytes) (s : SessionAuthority) : SessionAuthority * AuthorizationError :=
  let previous_size := length (entries s) in
  let s := s <| entries :=
    List.filter (fun entry => negb (same_bytes (entry_handle entry) handle)) (entries s) |> in
  (s, if Nat.eqb (length (entries s)) previous_size then AuthorizationError_kUnauthenticated
      else AuthorizationError_kNone).

Definition Revoke (handle : bytes) (s : SessionAuthority) (r : IdentityRepository) (w : W)
    : SessionAuthority * IdentityRepository * W * AuthorizationError :=
  match Find handle s with
  | None => (s, r, w, AuthorizationError_kUnauthenticated)
  | Some entry =>
      let '(w, current) := Current entry s r w in
      if negb current then (s, r, w, AuthorizationError_kUnauthenticated)
      else
      let peer_device_id := channel_peer_device_id (entry_channel entry) in
      let '((r, w), revoked) := RevokePeer peer_device_id (r, w) in
      if negb (ok revoked) then (s, r, w, AuthorizationError_kStorageFailure)
      else
        (s <| entries := List.filter (fun current =>
                negb (same_bytes (channel_peer_device_id (entry_channel current)) peer_device_id))
                (entries s) |>, r, w, AuthorizationError_kNone)
  end.

(** [std::remove_if] with [Current], which asks the environment for each entry
    in turn. *)
Fixpoint InvalidateStale_loop (l : list Entry) (s : SessionAuthority) (r : IdentityRepository) (w : W)
    : W * list Entry :=
  match l with
  | [] => (w, [])
  | entry :: l =>
      let '(w, current) := Current entry s r w in
      let '(w, rest) := InvalidateStale_loop l s r w in
      (w, if current : bool then entry :: rest else rest)
  end.

Definition InvalidateStale (s : SessionAuthority) (r : IdentityRepository) (w : W) : SessionAuthority * W :=
  let '(w, kept) := InvalidateStale_loop (entries s) s r w in (s <| entries := kept |>, w).

Definition Shutdown (s : SessionAuthority) : SessionAuthority :=
  s <| shutdown := true |> <| entries := [] |>.

Definition active_sessions (s : SessionAuthority) : Z := Z.of_nat (length (entries s)).

End Authority.
End SessionAuthority.
