(* ===== verification/SessionAuthorityProofs.v ===== *)
(** * Correctness of the session authority

    Handles name one session each; only a session whose peer the repository
    trusts at that moment is authorized; revocation and shutdown end the
    sessions they should. *)

From stdpp Require Import gmap sets.
From S2P Require Import Prelude.
From S2P Require Import IdentityCodec.
From S2P Require Import IdentityCodecProofs.
From S2P Require Import IdentityRepository.
From S2P Require Import IdentityRepositoryProofs.
From S2P Require Import IdentityStoreProofs.
From S2P Require Import SessionAuthority.
Import IdentityTypes IdentityCodec IdentityRepository SessionAuthority.

Section Calls.
Context {W : Type} {env : Environment W} {senv : SessionEnvironment W}.

(** The calls on the authority, and those others make on its repository. *)
Inductive session_op :=
  | OpActivate (channel : option EstablishedTlsChannel)
  | OpDeactivate (handle : bytes)
  | OpRevoke (handle : bytes)
  | OpInvalidateStale
  | OpShutdown
  | OpRepository (op : repo_op).

Definition session_step (op : session_op) (x : SessionAuthority * IdentityRepository * W)
    : SessionAuthority * IdentityRepository * W :=
  let '(s, r, w) := x in
  match op with
  | OpActivate channel => let '(s, w, _) := Activate channel s r w in (s, r, w)
  | OpDeactivate handle => ((Deactivate handle s).1, r, w)
  | OpRevoke handle => let '(s, r, w, _) := Revoke handle s r w in (s, r, w)
  | OpInvalidateStale => let '(s, w) := InvalidateStale s r w in (s, r, w)
  | OpShutdown => (Shutdown s, r, w)
  | OpRepository op => let '((r, w), _) := run_op op (r, w) in (s, r, w)
  end.

Fixpoint session_run (ops : list session_op) (x : SessionAuthority * IdentityRepository * W)
    : SessionAuthority * IdentityRepository * W :=
  match ops with [] => x | op :: ops => session_run ops (session_step op x) end.

Record sessions_ok (s : SessionAuthority) : Prop := {
  so_handles : NoDup (List.map entry_handle (entries s));
  so_nonzero : Forall (fun e => AllZero (entry_handle e) = false) (entries s);
  so_bound : Forall (fun e => transport_bound (entry_channel e) = true) (entries s);
  so_count : active_sessions s <= kMaxActiveSessions;
  so_shutdown : shutdown s = true -> entries s = [];
}.

(** Removing entries. *)
Lemma sessions_ok_sub s l : l `sublist_of` entries s -> sessions_ok s -> sessions_ok (s <| entries := l |>).
Proof.
  intros Hsub [H1 H2 H3 H4 H5]. split; simpl.
  - assert (Hm : List.map entry_handle l `sublist_of` List.map entry_handle (entries s)).
    { clear -Hsub. induction Hsub; simpl; by constructor. }
    exact (sublist_NoDup _ _ H1 Hm).
  - rewrite List.Forall_forall in *. intros e He%list_elem_of_In. apply H2, list_elem_of_In.
    by apply (elem_of_sublist l).
  - rewrite List.Forall_forall in *. intros e He%list_elem_of_In. apply H3, list_elem_of_In.
    by apply (elem_of_sublist l).
  - unfold active_sessions in *. simpl. apply sublist_length in Hsub. lia.
  - intros Hs. rewrite H5 in Hsub by done. by apply sublist_nil_r in Hsub.
Qed.

Lemma GenerateHandle_fresh n s w handle :
  (GenerateHandle n s w).2 = Some handle ->
  AllZero handle = false /\ handle ∉ List.map entry_handle (entries s).
Proof.
  revert w. induction n as [| n IH]; intros w; [done |]. cbn [GenerateHandle].
  destruct (Fill w) as [w1 [h |]]; [| done]. destruct (_ && _) eqn:E; [| apply IH].
  cbn [snd]. intros [= ->]. apply andb_true_iff in E as [E1 E2]. apply negb_true_iff in E1, E2.
  split; [done |]. intros (e & Eh & He)%list_elem_of_In%in_map_iff.
  rewrite <- not_true_iff_false in E2. apply E2, existsb_exists. exists e. by rewrite same_bytes_true.
Qed.

Lemma sessions_ok_Activate channel s r w :
  sessions_ok s -> sessions_ok (Activate channel s r w).1.1.
Proof.
  intros H. unfold Activate. destruct (shutdown s) eqn:Es; [done |]. destruct channel as [c |]; [| done].
  destruct (transport_bound c) eqn:Eb; cbn [negb]; [| done]. destruct (ready r); cbn [negb]; [| done].
  destruct (Z.eqb_spec (Z.of_nat (length (entries s))) kMaxActiveSessions) as [| Hlt]; [done |].
  destruct (FindPeer _ _); [| done]. destruct (_ || _); [done |].
  destruct (current_transport c w) as [w1 [|]]; cbn [negb]; [| done].
  pose proof (GenerateHandle_fresh kHandleGenerationAttempts s w1) as Hg.
  destruct (GenerateHandle _ s w1) as [w2 [h |]]; [| done]. destruct (Hg h eq_refl) as [Hz Hn].
  destruct (env_alloc w2) as [w3 [|]]; cbn [negb]; [| done]. cbn [fst].
  destruct H as [H1 H2 H3 H4 H5]. split; simpl.
  - rewrite List.map_app. apply list.NoDup_app. split; [done |]. split.
    + intros x Hx ->%list_elem_of_singleton. done.
    + apply NoDup_singleton.
  - apply Forall_app. split; [done | by apply list.Forall_singleton].
  - apply Forall_app. split; [done | by apply list.Forall_singleton].
  - unfold active_sessions in *. simpl. rewrite length_app. simpl. lia.
  - congruence.
Qed.

Lemma filter_sublist {A} (f : A -> bool) (l : list A) : List.filter f l `sublist_of` l.
Proof. induction l as [| x l IH]; simpl; [done |]. destruct (f x); by constructor. Qed.

Lemma sessions_ok_Revoke handle s r w : sessions_ok s -> sessions_ok (Revoke handle s r w).1.1.1.
Proof.
  intros H. unfold Revoke. destruct (Find handle s) as [e |]; [| done].
  destruct (Current e s r w) as [w1 [|]]; cbn [negb]; [| done].
  destruct (RevokePeer _ (r, w1)) as [[r1 w2] [[] |]]; cbn [ok negb fst]; [| done].
  apply sessions_ok_sub; [apply filter_sublist | done].
Qed.

Lemma InvalidateStale_loop_sub l s r w : (InvalidateStale_loop l s r w).2 `sublist_of` l.
Proof.
  revert w. induction l as [| e l IH]; intros w; [done |]. cbn [InvalidateStale_loop].
  destruct (Current e s r w) as [w1 c]. specialize (IH w1). destruct (InvalidateStale_loop l s r w1) as [w2 l'].
  cbn [snd] in *. destruct c; by constructor.
Qed.

Lemma session_step_ok op x : sessions_ok x.1.1 -> sessions_ok (session_step op x).1.1.
Proof.
  destruct x as [[s r] w]. cbn [fst]. intros H. destruct op as [c | h | h | | | op]; cbn [session_step].
  - pose proof (sessions_ok_Activate c s r w H). by destruct (Activate c s r w) as [[? ?] ?].
  - cbn [fst]. apply sessions_ok_sub; [apply filter_sublist | done].
  - pose proof (sessions_ok_Revoke h s r w H). by destruct (Revoke h s r w) as [[[? ?] ?] ?].
  - unfold InvalidateStale. pose proof (InvalidateStale_loop_sub (entries s) s r w) as Hsub.
    destruct (InvalidateStale_loop (entries s) s r w) as [w1 l]. by apply sessions_ok_sub.
  - split; simpl; try done; constructor.
  - by destruct (run_op op (r, w)) as [[? ?] ?].
Qed.

Lemma session_run_ok ops x : sessions_ok x.1.1 -> sessions_ok (session_run ops x).1.1.
Proof. revert x. induction ops as [| op ops IH]; intros x H; [done |]. by apply IH, session_step_ok. Qed.

Lemma sessions_ok_initial : sessions_ok SessionAuthority_initial.
Proof. split; simpl; try done; constructor. Qed.

Lemma Find_iff handle s e : NoDup (List.map entry_handle (entries s)) ->
  Find handle s = Some e <-> e ∈ entries s /\ entry_handle e = handle.
Proof.
  intros Hn. unfold Find. split.
  - intros H. apply find_some in H as [H1 H2]. rewrite list_elem_of_In. by apply same_bytes_true in H2.
  - intros [He Hh]. induction (entries s) as [| x l IH]; [by apply not_elem_of_nil in He |].
    cbn [List.map] in Hn. apply list.NoDup_cons in Hn as [Hni Hn]. cbn [List.find].
    destruct (same_bytes (entry_handle x) handle) eqn:E.
    + apply same_bytes_true in E. apply list.elem_of_cons in He as [-> | He]; [done |]. destruct Hni.
      rewrite E, <- Hh. apply list_elem_of_In, in_map_iff. exists e. split; [done | by apply list_elem_of_In].
    + apply list.elem_of_cons in He as [-> | He]; [by apply same_bytes_false in E | by apply IH].
Qed.

(** What the repository must say of the peer of a session. *)
Definition trusted (r : IdentityRepository) (c : EstablishedTlsChannel) : Prop :=
  ready r = true /\ revision_ r = channel_identity_revision c /\
  exists p, FindPeer r (channel_peer_device_id c) = Some p /\
    trust_state p = TrustState.kActive /\ public_key p = channel_peer_public_key c /\
    record_revision p = channel_peer_record_revision c /\
    security_profile p <= channel_security_profile c.

Lemma Current_true e s r w : (Current e s r w).2 = true ->
  shutdown s = false /\ trusted r (entry_channel e) /\ (current_transport (entry_channel e) w).2 = true.
Proof.
  unfold Current, trusted. destruct (shutdown s); [done |]. destruct (ready r) eqn:Er; [| done]. cbn [negb orb].
  cbv zeta. destruct (FindPeer _ _) as [p |]; [| done]. destruct (_ && _) eqn:E; [| done]. intros Hc.
  split; [done |]. split; [| done]. repeat (apply andb_true_iff in E as [E ?]).
  bool_facts. apply same_bytes_true in H1. split; [done |]. split; [done |]. by exists p.
Qed.

End Calls.

(** What the source of handles and the TLS library do not do: write to the
    protected store. *)
Class LawfulSession (W : Type) {env : Environment W} {laws : LawfulEnvironment W}
    {senv : SessionEnvironment W} := {
  law_Fill w : store_of (Fill w).1 = store_of w;
  law_transport c w : store_of (current_transport c w).1 = store_of w;
}.

Definition session_op_typed (op : session_op) : Prop :=
  match op with OpRepository op => op_typed op | _ => True end.

Section Laws.
Context {W : Type} {env : Environment W} {laws : LawfulEnvironment W}.
Context {senv : SessionEnvironment W} {slaws : LawfulSession W}.
#[local] Set Default Proof Using "All".

Lemma store_Current e s r w : store_of (Current e s r w).1 = store_of w.
Proof.
  unfold Current. destruct (_ || _); [done |]. cbv zeta. destruct (FindPeer _ _); [| done].
  destruct (_ && _); [apply law_transport | done].
Qed.

Lemma store_GenerateHandle n s w : store_of (GenerateHandle n s w).1 = store_of w.
Proof.
  revert w. induction n as [| n IH]; intros w; [done |]. cbn [GenerateHandle].
  pose proof (law_Fill w) as Hf. destruct (Fill w) as [w1 [h |]]; [| done]. cbn [fst] in Hf.
  destruct (_ && _); [done |]. by rewrite IH.
Qed.

Lemma store_alloc w : store_of (env_alloc w).1 = store_of w.
Proof. pose proof (law_alloc (store_of w) w eq_refl) as [H _]. unfold alloc_ in H. by destruct (env_alloc w). Qed.

Lemma store_Activate channel s r w : store_of (Activate channel s r w).1.2 = store_of w.
Proof.
  unfold Activate. destruct (shutdown s); [done |]. destruct channel as [c |]; [| done].
  destruct (negb (transport_bound c)); [done |]. destruct (negb (ready r)); [done |].
  destruct (_ =? kMaxActiveSessions); [done |]. destruct (FindPeer _ _); [| done]. destruct (_ || _); [done |].
  pose proof (law_transport c w) as H1. destruct (current_transport c w) as [w1 [|]]; cbn [negb fst snd] in *; [| done].
  pose proof (store_GenerateHandle kHandleGenerationAttempts s w1) as H2.
  destruct (GenerateHandle _ s w1) as [w2 [h |]]; cbn [fst snd] in *; [| congruence].
  pose proof (store_alloc w2) as H3. destruct (env_alloc w2) as [w3 [|]]; cbn [negb fst snd] in *; congruence.
Qed.

Lemma store_InvalidateStale l s r w : store_of (InvalidateStale_loop l s r w).1 = store_of w.
Proof.
  revert w. induction l as [| e l IH]; intros w; [done |]. cbn [InvalidateStale_loop].
  pose proof (store_Current e s r w) as H1. destruct (Current e s r w) as [w1 c]. cbn [fst] in H1.
  specialize (IH w1). destruct (InvalidateStale_loop l s r w1) as [w2 l']. cbn [fst] in *. congruence.
Qed.

Lemma session_step_agrees op x : session_op_typed op -> agrees x.1.2 (store_of x.2) ->
  agrees (session_step op x).1.2 (store_of (session_step op x).2).
Proof.
  destruct x as [[s r] w]. cbn [fst snd]. intros Ht H. destruct op as [c | h | h | | | op]; cbn [session_step].
  - pose proof (store_Activate c s r w) as E. destruct (Activate c s r w) as [[? ?] ?]. cbn [fst snd] in *. by rewrite E.
  - done.
  - unfold Revoke. destruct (Find h s) as [e |]; [| done]. pose proof (store_Current e s r w) as E.
    destruct (Current e s r w) as [w1 [|]]; cbn [negb fst snd] in *; rewrite <- E in H; [| done].
    pose proof (run_op_agrees (OpRevokePeer (channel_peer_device_id (entry_channel e))) r w1 I H) as Hr.
    unfold run_op, bind, ret in Hr. destruct (RevokePeer _ (r, w1)) as [[r1 w2] [[] |]]; exact Hr.
  - unfold InvalidateStale. pose proof (store_InvalidateStale (entries s) s r w) as E.
    destruct (InvalidateStale_loop _ s r w). cbn [fst snd] in *. by rewrite E.
  - done.
  - pose proof (run_op_agrees op r w Ht H) as Hr. by destruct (run_op op (r, w)) as [[? ?] ?].
Qed.

Lemma session_run_agrees ops x : Forall session_op_typed ops -> agrees x.1.2 (store_of x.2) ->
  agrees (session_run ops x).1.2 (store_of (session_run ops x).2).
Proof.
  revert x. induction ops as [| op ops IH]; intros x Ht H; [done |].
  apply list.Forall_cons in Ht as [H1 H2]. by apply IH, session_step_agrees.
Qed.

(** A peer revoked: what is found under each device id. *)
Lemma revoked_peer_found σ σ' r r' rr id t p : ready_ r = true ->
  consistent σ r rr -> consistent σ' r' rr -> revoked_peer r r' id t p ->
  FindPeer r' id = Some (peer (record p)) /\ forall other, other <> id -> FindPeer r' other = FindPeer r other.
Proof.
  intros Hr H H' (Ht & Hid & Hdt & Hdp & _ & _ & _ & _ & Hroot & Hready & Hput).
  rewrite Hr in Hready. pose proof (co_sorted _ _ _ H) as So. pose proof (co_sorted _ _ _ H') as So'.
  rewrite (FindPeer_stored r' id Hready (co_view _ _ _ H')).
  rewrite (proj2 (FindStoredPeer_iff r' id p So')) by (split; [apply Hput; by left | done]). split; [done |].
  intros other Hne. rewrite (FindPeer_stored r' other Hready (co_view _ _ _ H')).
  rewrite (FindPeer_stored r other Hr (co_view _ _ _ H)).
  assert (E : FindStoredPeer r' other = FindStoredPeer r other); [| by rewrite E].
  apply option_eq. intros u. rewrite (FindStoredPeer_iff r' other u So'), (FindStoredPeer_iff r other u So), Hput.
  split.
  - intros [[-> | [Hu _]] Hd]; [congruence | done].
  - intros [Hu Hd]. split; [| done]. right. split; [done |]. rewrite Hid. intros E.
    apply (consistent_item_inj _ _ _ u t H Hu Ht) in E. congruence.
Qed.

(** A revoked peer is not given a session. *)
Lemma Activate_revoked c s r w p : FindPeer r (channel_peer_device_id c) = Some p ->
  trust_state p = TrustState.kRevoked -> ar_handle (Activate (Some c) s r w).2 = None.
Proof.
  intros Hf Ht. unfold Activate. destruct (shutdown s); [done |]. destruct (negb (transport_bound c)); [done |].
  destruct (negb (ready r)); [done |]. destruct (_ =? kMaxActiveSessions); [done |]. by rewrite Hf, Ht.
Qed.

End Laws.

(** C11: Handles name sessions: after any calls in any environment the handles of
    the active sessions are distinct and not zero, at most 256 sessions are
    active, none after a shutdown; and a handle is authorized only if it is
    that of an active session whose channel finished its binding and whose
    peer the repository trusts at that moment, under the same key, record
    revision and identity. *)
Theorem authorized_sessions_trusted {W : Type} {env : Environment W} {senv : SessionEnvironment W}
    (ops : list session_op) (r : IdentityRepository) (w : W) :
  let x := session_run ops (SessionAuthority_initial, r, w) in
  sessions_ok x.1.1 /\
  forall handle, (IsAuthorized handle x.1.1 x.1.2 x.2).2 = true ->
    exists e, e ∈ entries x.1.1 /\ entry_handle e = handle /\ shutdown x.1.1 = false /\
      transport_bound (entry_channel e) = true /\ trusted x.1.2 (entry_channel e).
Proof.
  intros x. assert (H : sessions_ok x.1.1) by (apply session_run_ok, sessions_ok_initial). split; [done |].
  intros handle. unfold IsAuthorized. destruct (Find handle x.1.1) as [e |] eqn:Ef; [| done]. intros Hc.
  apply Find_iff in Ef as [He Hh]; [| apply H]. apply Current_true in Hc as (Hs & Ht & _).
  pose proof (so_bound _ H) as Hb. rewrite List.Forall_forall in Hb. apply list_elem_of_In in He as Hb'.
  apply Hb in Hb'. by exists e.
Qed.

(** Revoking a session ends those of its peer: when [Revoke] succeeds, after
    any calls before it, the peer under the device id of that session is
    revoked, the sessions of that device id are gone and exactly those, no
    channel of that device id is given a session from then on, and what the
    repository says of every other device id is unchanged. *)
Theorem revoke_ends_sessions {W : Type} {env : Environment W} {laws : LawfulEnvironment W}
    {senv : SessionEnvironment W} {slaws : LawfulSession W}
    (ops : list session_op) (w : W) (handle : bytes) :
  Forall session_op_typed ops ->
  let x := session_run ops (SessionAuthority_initial, IdentityRepository_initial, w) in
  let y := Revoke handle x.1.1 x.1.2 x.2 in
  let s' := y.1.1.1 in let r' := y.1.1.2 in let w' := y.1.2 in
  y.2 = AuthorizationError_kNone ->
  exists e, e ∈ entries x.1.1 /\ entry_handle e = handle /\
    let id := channel_peer_device_id (entry_channel e) in
    (exists p, FindPeer r' id = Some p /\ trust_state p = TrustState.kRevoked) /\
    (forall o, o ∈ entries s' <->
       o ∈ entries x.1.1 /\ channel_peer_device_id (entry_channel o) <> id) /\
    (forall c, channel_peer_device_id c = id -> ar_handle (Activate (Some c) s' r' w').2 = None) /\
    (forall other, other <> id -> FindPeer r' other = FindPeer x.1.2 other).
Proof.
  intros Ht x.
  assert (So : sessions_ok x.1.1) by apply session_run_ok, sessions_ok_initial.
  assert (Ha : agrees x.1.2 (store_of x.2)) by (apply session_run_agrees; [done | apply initial_agrees]).
  destruct x as [[s r] w1]. cbn [fst snd] in *. unfold Revoke.
  destruct (Find handle s) as [e |] eqn:Ef; [| done]. apply Find_iff in Ef as [He Hh]; [| apply So].
  pose proof (Current_true e s r w1) as Hc. pose proof (store_Current e s r w1) as Es.
  destruct (Current e s r w1) as [w2 [|]]; cbn [negb fst snd] in *; [| done].
  destruct (Hc eq_refl) as (_ & (Hready & _) & _). rewrite <- Es in Ha. destruct (Ha Hready) as [rr Hco].
  set (id := channel_peer_device_id (entry_channel e)).
  pose proof (wp_run _ _ _ _ _ (wp_RevokePeer _ r rr id Hready Hco)) as H.
  destruct (RevokePeer id (r, w2)) as [[r' w3] [[] | err]]; cbn [ok negb fst snd] in *; [| done].
  intros _. destruct H as (Hco' & t & p & Hp). exists e. split; [done |]. split; [done |].
  destruct (revoked_peer_found _ _ _ _ _ _ _ _ Hready Hco Hco' Hp) as [Hf Ho].
  destruct Hp as (_ & _ & _ & _ & _ & Hrev & _). fold id. split; [by exists (peer (record p)) |].
  split; [| split; [| done]].
  - intros o. simpl. rewrite !list_elem_of_In, filter_In, negb_true_iff, same_bytes_false. done.
  - intros c Hd. rewrite <- Hd in Hf. by apply (Activate_revoked _ _ _ _ (peer (record p))).
Qed.

(** ** Sessions on the toy store *)

Module SessionAuthorityExample.
Import IdentityStoreExample.

(** A handle from the revisions in the store; every transport is current. *)
#[global] Instance toy_session : SessionEnvironment contents := {|
  Fill := fun w => (w, Some (repeat (u8 (fold_left Z.add (List.map snd (listing (items_of w))) 0)) 32));
  current_transport := fun _ w => (w, true);
|}.

#[global] Instance toy_lawful_session : LawfulSession contents.
Proof. by split. Qed.

(** A bound channel to the peer of a key, whose device id is the key itself. *)
Definition channel (key : bytes) (revision : Z) : EstablishedTlsChannel := {|
  channel_number := 0; channel_peer_device_id := key; channel_peer_public_key := key;
  channel_security_profile := 1; channel_peer_record_revision := revision;
  channel_identity_revision := 1;
  local_finished_prepared := true; local_finished_written := true; peer_finished_verified := true;
|}.

Definition key1 : bytes := repeat 9 32.
Definition key2 : bytes := repeat 11 32.

Definition start : list session_op :=
  [OpRepository OpOpen; OpRepository (OpCommitPeer commit); OpActivate (Some (channel key1 1))].

Lemma start_typed : Forall session_op_typed start.
Proof.
  apply list.Forall_cons. split; [done |]. apply list.Forall_cons. split.
  - split; [by apply (bool_decide_unpack _); vm_compute |].
    split; by apply (bool_decide_unpack _); vm_compute.
  - apply list.Forall_cons. split; [done | by apply Forall_nil].
Qed.

Definition run (ops : list session_op) : SessionAuthority * IdentityRepository * contents :=
  session_run ops (SessionAuthority_initial, IdentityRepository_initial, ∅).

Definition first_handle (x : SessionAuthority * IdentityRepository * contents) : bytes :=
  match entries x.1.1 with e :: _ => entry_handle e | [] => [] end.

Lemma first_authorized :
  let x := run start in (IsAuthorized (first_handle x) x.1.1 x.1.2 x.2).2 = true.
Proof. by vm_compute. Qed.

Lemma revoke_ends_sessions_witness :
  let x := run start in
  let y := Revoke (first_handle x) x.1.1 x.1.2 x.2 in
  exists e, e ∈ entries x.1.1 /\ entry_handle e = first_handle x /\
    let id := channel_peer_device_id (entry_channel e) in
    (exists p, FindPeer y.1.1.2 id = Some p /\ trust_state p = TrustState.kRevoked) /\
    (forall o, o ∈ entries y.1.1.1 <->
       o ∈ entries x.1.1 /\ channel_peer_device_id (entry_channel o) <> id) /\
    (forall c, channel_peer_device_id c = id ->
       ar_handle (Activate (Some c) y.1.1.1 y.1.1.2 y.1.2).2 = None) /\
    (forall other, other <> id -> FindPeer y.1.1.2 other = FindPeer x.1.2 other).
Proof. apply (revoke_ends_sessions start ∅); [exact start_typed | by vm_compute]. Defined.

(** The peer rotates its key while a session is open, opens a second session
    and that one is revoked. *)
Definition rotated : list session_op :=
  start ++ [OpRepository (OpRotatePeer key1 key2 1); OpActivate (Some (channel key2 2))].

Definition second_handle (x : SessionAuthority * IdentityRepository * contents) : bytes :=
  match entries x.1.1 with _ :: e :: _ => entry_handle e | _ => [] end.

Definition revoked : SessionAuthority * IdentityRepository * contents :=
  let x := run rotated in (Revoke (second_handle x) x.1.1 x.1.2 x.2).1.

(** [Revoke] compares device ids, and the device id of a peer changes with its
    key: the first session is not closed with the second. It is not authorized,
    until the peer is forgotten and paired again with the first key; then it
    is. *)
Lemma session_before_rotation_survives_revocation :
  let x := run rotated in
  let handle := first_handle x in
  let y := session_run [OpRepository (OpForgetPeer key2); OpRepository (OpCommitPeer commit)] revoked in
  (Revoke (second_handle x) x.1.1 x.1.2 x.2).2 = AuthorizationError_kNone /\
  List.map entry_handle (entries revoked.1.1) = [handle] /\
  (IsAuthorized handle revoked.1.1 revoked.1.2 revoked.2).2 = false /\
  (IsAuthorized handle y.1.1 y.1.2 y.2).2 = true.
Proof. by vm_compute. Qed.

End SessionAuthorityExample.
