(* ===== verification/DiscoveryWire.v ===== *)
(** * The discovery datagrams

    [native/src/discovery/wire.cpp] with the types of
    [native/include/xnn_transfer/core/discovery/discovery.hpp]: addresses, scopes
    and candidate keys with their orders, and the parser and encoder of the
    multicast advertisements.

    An array with a separate size ([Advertisement::label] and [raw],
    [EncodedDatagram::bytes]) is the list of its used elements.  The validator of
    display labels is an interface of the source, a parameter here. *)

From S2P Require Import Prelude.

Module DiscoveryWire.

Definition kDiscoveryPort : Z := 45878.
Definition kDiscoveryHeaderSize : Z := 44.
Definition kMaxDatagramSize : Z := 512.
Definition kMaxDisplayLabelBytes : Z := 96.
Definition kMaxDisplayLabelScalars : Z := 64.
Definition kMaxScopes : nat := 32.
Definition kMaxCandidates : Z := 256.
Definition kMaxCandidatesPerScope : Z := 64.
Definition kMaxEntries : Z := 512.
Definition kMaxEntriesPerScope : Z := 128.
Definition kMaxSourceBuckets : Z := 1024.
Definition kMaxSourceBucketsPerScope : Z := 128.
Definition kTombstoneLifetimeMs : Z := 60000.
Definition kSourceBucketIdleMs : Z := 60000.

(** ** Addresses, scopes and keys *)

Inductive AddressFamily := kIpv4 | kIpv6.

#[global] Instance family_eq_dec : EqDecision AddressFamily.
Proof. solve_decision. Defined.

Definition family_code (f : AddressFamily) : Z := match f with kIpv4 => 4 | kIpv6 => 6 end.

Definition family_less (a b : AddressFamily) : bool := family_code a <? family_code b.

Record IpAddress := {
  ip_family : AddressFamily;
  ip_bytes : bytes;
}.

(** [IpAddress::encoded]: the bytes of the array of sixteen that count. *)
Definition encoded (a : IpAddress) : bytes :=
  take (match ip_family a with kIpv4 => 4 | kIpv6 => 16 end) (ip_bytes a).

Definition V4 (value : bytes) : IpAddress :=
  {| ip_family := kIpv4; ip_bytes := value ++ repeat 0 12 |}.
Definition V6 (value : bytes) : IpAddress :=
  {| ip_family := kIpv6; ip_bytes := value |}.

Definition address_eqb (left right : IpAddress) : bool :=
  bool_decide (ip_family left = ip_family right) && same_bytes (encoded left) (encoded right).

Definition address_less (left right : IpAddress) : bool :=
  if negb (bool_decide (ip_family left = ip_family right)) then
    family_less (ip_family left) (ip_family right)
  else array_less (encoded left) (encoded right).

Record InterfaceScope := {
  generation : Z;
  scope_family : AddressFamily;
}.

#[global] Instance scope_eq_dec : EqDecision InterfaceScope.
Proof. solve_decision. Defined.

Definition scope_less (left right : InterfaceScope) : bool :=
  if negb (generation left =? generation right) then generation left <? generation right
  else family_less (scope_family left) (scope_family right).

Record CandidateKey := {
  key_observer : InterfaceScope;
  key_source : IpAddress;
  key_token : bytes;
}.

Definition key_eqb (left right : CandidateKey) : bool :=
  bool_decide (key_observer left = key_observer right) &&
  address_eqb (key_source left) (key_source right) &&
  same_bytes (key_token left) (key_token right).

Definition key_less (left right : CandidateKey) : bool :=
  if negb (bool_decide (key_observer left = key_observer right)) then
    scope_less (key_observer left) (key_observer right)
  else if negb (address_eqb (key_source left) (key_source right)) then
    address_less (key_source left) (key_source right)
  else array_less (key_token left) (key_token right).

(** ** Advertisements *)

Definition kMagic : bytes := [88; 78; 78; 68].
Definition kVersionMajor : Z := 1.
Definition kVersionMinor : Z := 0.
Definition kMinimumTtlSeconds : Z := 5.
Definition kMaximumTtlSeconds : Z := 60.
Definition kMaximumTlvs : nat := 32.
Definition kDisplayLabelField : Z := 1.
Definition kCriticalBit : Z := 32768.
Definition kFieldIdMask : Z := 32767.

Inductive MessageType := kAnnounce | kWithdraw.

#[global] Instance message_type_eq_dec : EqDecision MessageType.
Proof. solve_decision. Defined.

Definition message_code (t : MessageType) : Z := match t with kAnnounce => 1 | kWithdraw => 2 end.

Record Advertisement := {
  ad_type : MessageType;
  ad_sequence : Z;
  ad_token : bytes;
  ad_service_port : Z;
  ad_ttl_seconds : Z;
  ad_display_label : bytes;
  ad_raw : bytes;
}.

#[global] Instance eta_Advertisement : Eta Advertisement := fun x =>
  {| ad_type := ad_type x; ad_sequence := ad_sequence x; ad_token := ad_token x;
     ad_service_port := ad_service_port x; ad_ttl_seconds := ad_ttl_seconds x;
     ad_display_label := ad_display_label x; ad_raw := ad_raw x |}.

Inductive ParseError :=
  | kTooShort
  | kTooLarge
  | kBadMagic
  | kUnsupportedVersion
  | kLengthMismatch
  | kBadHeaderLength
  | kNonzeroFlags
  | kNonzeroReserved
  | kUnknownMessage
  | kZeroSequence
  | kZeroToken
  | kInvalidAnnounce
  | kInvalidWithdraw
  | kTruncatedTlv
  | kReservedTlv
  | kTlvOrder
  | kDuplicateTlv
  | kTooManyTlvs
  | kUnknownCriticalTlv
  | kInvalidLabel.

(** [ParseResult]: [inl] of the error, or the advertisement. *)
Definition ParseResult : Type := ParseError + Advertisement.

Definition ReadU16 (l : bytes) : Z := u16 (Z.lor (Z.shiftl (at_ l 0) 8) (at_ l 1)).
Definition ReadU64 (l : bytes) : Z := be_read 64 (take 8 l).

Definition WriteU16 (output : bytes) (offset value : Z) : bytes :=
  write_at output offset (be_bytes 2 value).
Definition WriteU64 (output : bytes) (offset value : Z) : bytes :=
  write_at output offset (be_bytes 8 value).

Definition IsAllZero (token : bytes) : bool := forallb (fun value => value =? 0) token.

Section Validator.
Variable IsCanonical : bytes -> bool.

(** The loop over the fields: [rest] is the payload from [offset] on, [remaining]
    the number of fields that are still permitted, [label] that of the
    advertisement so far. *)
Fixpoint ParseTlvs_loop (remaining : nat) (previous_field_id : Z) (label rest : bytes)
    : ParseError + bytes :=
  if bsize rest =? 0 then inr label
  else if bsize rest <? 4 then inl kTruncatedTlv
  else
  let wire_type := ReadU16 (subspan rest 0 2) in
  let value_length := ReadU16 (subspan rest 2 2) in
  let rest := drop 4 rest in
  if value_length >? bsize rest then inl kTruncatedTlv
  else
  let field_id := Z.land wire_type kFieldIdMask in
  let critical := negb (Z.land wire_type kCriticalBit =? 0) in
  if field_id =? 0 then inl kReservedTlv
  else if field_id <? previous_field_id then inl kTlvOrder
  else if field_id =? previous_field_id then inl kDuplicateTlv
  else
  match remaining with
  | O => inl kTooManyTlvs
  | S remaining =>
      let value := subspan rest 0 value_length in
      let rest := drop (Z.to_nat value_length) rest in
      if (field_id =? kDisplayLabelField) && negb critical then
        if (bsize value =? 0) || (bsize value >? kMaxDisplayLabelBytes) || negb (IsCanonical value)
        then inl kInvalidLabel
        else ParseTlvs_loop remaining field_id value rest
      else if critical then inl kUnknownCriticalTlv
      else ParseTlvs_loop remaining field_id label rest
  end.

Definition message_type_of (code : Z) : option MessageType :=
  if code =? 1 then Some kAnnounce else if code =? 2 then Some kWithdraw else None.

Definition ParseAdvertisement (payload : bytes) : ParseResult :=
  if bsize payload <? kDiscoveryHeaderSize then inl kTooShort
  else if bsize payload >? kMaxDatagramSize then inl kTooLarge
  else if negb (same_bytes kMagic (take 4 payload)) then inl kBadMagic
  else if negb (at_ payload 4 =? kVersionMajor) || negb (at_ payload 5 =? kVersionMinor) then
    inl kUnsupportedVersion
  else
  let total_length := ReadU16 (subspan payload 8 2) in
  let header_length := ReadU16 (subspan payload 10 2) in
  if negb (total_length =? bsize payload) then inl kLengthMismatch
  else if negb (header_length =? kDiscoveryHeaderSize) then inl kBadHeaderLength
  else if negb (at_ payload 7 =? 0) then inl kNonzeroFlags
  else if negb (ReadU16 (subspan payload 42 2) =? 0) then inl kNonzeroReserved
  else
  let tlv_length := ReadU16 (subspan payload 40 2) in
  if negb (tlv_length =? total_length - header_length) then inl kLengthMismatch
  else
  match message_type_of (at_ payload 6) with
  | None => inl kUnknownMessage
  | Some type =>
      let sequence := ReadU64 (subspan payload 12 8) in
      if sequence =? 0 then inl kZeroSequence
      else
      let token := subspan payload 20 16 in
      if IsAllZero token then inl kZeroToken
      else
      let service_port := ReadU16 (subspan payload 36 2) in
      let ttl_seconds := ReadU16 (subspan payload 38 2) in
      if bool_decide (type = kAnnounce) &&
         ((service_port =? 0) || (ttl_seconds <? kMinimumTtlSeconds) ||
          (ttl_seconds >? kMaximumTtlSeconds)) then inl kInvalidAnnounce
      else if negb (bool_decide (type = kAnnounce)) &&
              (negb (service_port =? 0) || negb (ttl_seconds =? 0) || negb (tlv_length =? 0)) then
        inl kInvalidWithdraw
      else
      match ParseTlvs_loop kMaximumTlvs 0 [] (drop (Z.to_nat header_length) payload) with
      | inl e => inl e
      | inr label =>
          inr {| ad_type := type; ad_sequence := sequence; ad_token := token;
                 ad_service_port := service_port; ad_ttl_seconds := ttl_seconds;
                 ad_display_label := label; ad_raw := payload |}
      end
  end.

(** [EncodeAdvertisement]: the datagram, [None] when it returns false. *)
Definition EncodeAdvertisement (type : MessageType) (sequence : Z) (token : bytes)
    (service_port ttl_seconds : Z) (display_label : bytes) : option bytes :=
  if (sequence =? 0) || IsAllZero token then None
  else
  let refused :=
    match type with
    | kAnnounce =>
        (service_port =? 0) || (ttl_seconds <? kMinimumTtlSeconds) ||
        (ttl_seconds >? kMaximumTtlSeconds) ||
        (negb (bsize display_label =? 0) &&
         ((bsize display_label >? kMaxDisplayLabelBytes) || negb (IsCanonical display_label)))
    | kWithdraw =>
        negb (service_port =? 0) || negb (ttl_seconds =? 0) || negb (bsize display_label =? 0)
    end in
  if refused then None
  else
  let tlv_size := if bsize display_label =? 0 then 0 else 4 + bsize display_label in
  let total_size := kDiscoveryHeaderSize + tlv_size in
  let bytes := repeat 0 (Z.to_nat kMaxDatagramSize) in
  let bytes := write_at bytes 0 kMagic in
  let bytes := write_at bytes 4 [kVersionMajor] in
  let bytes := write_at bytes 5 [kVersionMinor] in
  let bytes := write_at bytes 6 [message_code type] in
  let bytes := write_at bytes 7 [0] in
  let bytes := WriteU16 bytes 8 (u16 total_size) in
  let bytes := WriteU16 bytes 10 (u16 kDiscoveryHeaderSize) in
  let bytes := WriteU64 bytes 12 sequence in
  let bytes := write_at bytes 20 token in
  let bytes := WriteU16 bytes 36 service_port in
  let bytes := WriteU16 bytes 38 ttl_seconds in
  let bytes := WriteU16 bytes 40 (u16 tlv_size) in
  let bytes := WriteU16 bytes 42 0 in
  let bytes :=
    if bsize display_label =? 0 then bytes
    else
      let bytes := WriteU16 bytes kDiscoveryHeaderSize kDisplayLabelField in
      let bytes := WriteU16 bytes (kDiscoveryHeaderSize + 2) (u16 (bsize display_label)) in
      write_at bytes (kDiscoveryHeaderSize + 4) display_label in
  Some (take (Z.to_nat (u16 total_size)) bytes).

End Validator.
End DiscoveryWire.
