(* ===== verification/DiscoveryWireProofs.v ===== *)
(** * Correctness of the discovery datagrams

    The advertisements that are accepted, described by the bytes they consist
    of; the encoder writes such bytes; the orders on addresses and keys. *)

From S2P Require Import Prelude.
From S2P Require Import V1Parser.
From S2P Require Import V1ParserProofs.
From S2P Require Import FieldBlocks.
From S2P Require Import DiscoveryWire.
Import DiscoveryWire.

(** ** Fields *)

Lemma discovery_ReadU16_same l : DiscoveryWire.ReadU16 l = V1Parser.ReadU16 l.
Proof. done. Qed.

Lemma discovery_ReadU64_same l : DiscoveryWire.ReadU64 l = V1Parser.ReadU64 l.
Proof. done. Qed.

Definition tlv_bytes (f : Z * bytes) : bytes := be_bytes 2 f.1 ++ be_bytes 2 (bsize f.2) ++ f.2.

Definition tlv_block (tlvs : list (Z * bytes)) : bytes := concat (List.map tlv_bytes tlvs).

Lemma tlv_head f tail : in_width 16 f.1 -> in_width 16 (bsize f.2) ->
  let l := tlv_bytes f ++ tail in
  ReadU16 (subspan l 0 2) = f.1 /\ ReadU16 (subspan l 2 2) = bsize f.2 /\ drop 4 l = f.2 ++ tail.
Proof.
  destruct f as [t v]. cbn [fst snd]. intros Ht Hv. cbv zeta. unfold tlv_bytes. cbn [fst snd].
  rewrite <- !app_assoc.
  change (drop 4 (be_bytes 2 t ++ be_bytes 2 (bsize v) ++ v ++ tail)) with (v ++ tail).
  split; [| split; [| done]].
  - rewrite subspan_app_l by done. rewrite discovery_ReadU16_same. by apply ReadU16_bytes.
  - change (subspan (be_bytes 2 t ++ be_bytes 2 (bsize v) ++ v ++ tail) 2 2) with (be_bytes 2 (bsize v)).
    rewrite discovery_ReadU16_same. by apply ReadU16_bytes.
Qed.

Lemma tlv_split l : all_bytes l -> 4 <= bsize l ->
  let t := ReadU16 (subspan l 0 2) in
  let n := ReadU16 (subspan l 2 2) in
  in_width 16 t /\ in_width 16 n /\
  (n <= bsize (drop 4 l) ->
   l = tlv_bytes (t, subspan (drop 4 l) 0 n) ++ drop (Z.to_nat n) (drop 4 l) /\
   bsize (subspan (drop 4 l) 0 n) = n).
Proof.
  intros Hl Hs. destruct l as [| b0 [| b1 [| b2 [| b3 r]]]]; try done.
  change (subspan _ 0 2) with [b0; b1]. change (subspan _ 2 2) with [b2; b3].
  change (drop 4 _) with r. cbv zeta. change DiscoveryWire.ReadU16 with V1Parser.ReadU16.
  change (all_bytes ([b0; b1] ++ [b2; b3] ++ r)) in Hl.
  apply all_bytes_app in Hl as [H1 Hl]. apply all_bytes_app in Hl as [H2 Hr].
  destruct (ReadU16_span [b0; b1] H1 eq_refl) as [E1 W1].
  destruct (ReadU16_span [b2; b3] H2 eq_refl) as [E2 W2].
  split; [done |]. split; [done |]. intros Hn.
  assert (Hb : bsize (subspan r 0 (V1Parser.ReadU16 [b2; b3])) = V1Parser.ReadU16 [b2; b3]).
  { apply bsize_subspan; [lia | unfold in_width in W2; lia | lia]. }
  split; [| exact Hb]. unfold tlv_bytes. cbn [fst snd]. rewrite Hb, E1, E2, <- !app_assoc.
  rewrite <- subspan_split by (unfold in_width in W2; lia). done.
Qed.

Section Validator.
Variable IsCanonical : bytes -> bool.

(** A field that is accepted: not critical, and a label if it is the label. *)
Definition tlv_ok (f : Z * bytes) : Prop :=
  0 < f.1 < kCriticalBit /\ in_width 16 (bsize f.2) /\ all_bytes f.2 /\
  (f.1 = kDisplayLabelField -> 1 <= bsize f.2 <= kMaxDisplayLabelBytes /\ IsCanonical f.2 = true).

(** The label of the fields, [label] if they have none. *)
Definition label_in (label : bytes) (tlvs : list (Z * bytes)) : bytes :=
  fold_left (fun label f => if f.1 =? kDisplayLabelField then f.2 else label) tlvs label.

Lemma land_bits t : in_width 16 t ->
  Z.land t kFieldIdMask = t mod 32768 /\ (Z.land t kCriticalBit = 0 <-> t < kCriticalBit).
Proof.
  intros Ht. split; [exact (land_mask t 15 ltac:(lia)) |].
  unfold kCriticalBit. change 32768 with (2 ^ 15). split.
  - intros H. assert (Hb : Z.testbit t 15 = false).
    { assert (Z.testbit (Z.land t (2 ^ 15)) 15 = false) as Hz by by rewrite H, Z.bits_0.
      rewrite Z.land_spec, Z.pow2_bits_true, andb_true_r in Hz by lia. done. }
    apply Z.testbit_false in Hb; [| lia]. widths. change (2 ^ 15) with 32768 in *. zlia.
  - intros H. apply Z.bits_inj'. intros n Hn. rewrite Z.land_spec, Z.bits_0, Z.pow2_bits_eqb by lia.
    destruct (Z.eqb_spec 15 n) as [<- |]; [| by rewrite andb_false_r].
    rewrite andb_true_r. apply Z.testbit_false; [lia |]. widths. rewrite Z.div_small by lia. done.
Qed.

Lemma tlv_ok_width f : tlv_ok f -> in_width 16 f.1.
Proof. intros [H _]. unfold kCriticalBit in H. widths. Qed.

Lemma bsize_tlv_bytes f : bsize (tlv_bytes f) = 4 + bsize f.2.
Proof. unfold tlv_bytes. rewrite !bsize_app, !bsize_be_bytes. lia. Qed.

Lemma discovery_ParseTlvs_loop_complete tlvs remaining previous label :
  Forall tlv_ok tlvs -> ids_above previous tlvs -> (length tlvs <= remaining)%nat -> 0 <= previous ->
  ParseTlvs_loop IsCanonical remaining previous label (tlv_block tlvs) = inr (label_in label tlvs).
Proof.
  revert remaining previous label. induction tlvs as [| f tlvs IH]; intros remaining previous label Hok Hid Hlen Hp.
  - by destruct remaining.
  - apply list.Forall_cons in Hok as [Hf Hok]. destruct Hid as [Hlt Hid].
    destruct remaining as [| remaining]; [simpl in Hlen; lia |].
    pose proof (tlv_ok_width f Hf) as Hw. destruct Hf as (Ht & Hv & Hb & Hlab).
    change (tlv_block (f :: tlvs)) with (tlv_bytes f ++ tlv_block tlvs).
    destruct (tlv_head f (tlv_block tlvs) Hw Hv) as (E1 & E2 & E3). cbn [ParseTlvs_loop]. cbv zeta.
    pose proof (bsize_nonneg f.2) as Hn. pose proof (bsize_nonneg (tlv_block tlvs)) as Hn'.
    rewrite E1, E2, E3, !bsize_app, bsize_tlv_bytes.
    rewrite (proj2 (Z.eqb_neq _ 0)) by lia. rewrite (proj2 (Z.ltb_ge _ 4)) by lia.
    rewrite Z.gtb_ltb, (proj2 (Z.ltb_ge _ _)) by lia.
    destruct (land_bits f.1 Hw) as [-> Hc]. unfold kCriticalBit in Ht. rewrite Z.mod_small by lia.
    rewrite (proj2 (Z.eqb_neq f.1 0)), (proj2 (Z.ltb_ge f.1 _)), (proj2 (Z.eqb_neq f.1 _)) by lia.
    rewrite (proj2 Hc) by (unfold kCriticalBit; lia). cbn [negb]. rewrite Z.eqb_refl. cbn [negb].
    rewrite subspan_app_l, drop_app_bsize by done. rewrite andb_true_r.
    specialize (IH remaining f.1). change (label_in label (f :: tlvs)) with
      (label_in (if f.1 =? kDisplayLabelField then f.2 else label) tlvs).
    destruct (Z.eqb_spec f.1 kDisplayLabelField) as [E |]; [| apply IH; done || (simpl in Hlen; lia)].
    destruct (Hlab E) as [[H1 H2] H3]. rewrite H3, (proj2 (Z.eqb_neq _ 0)) by lia.
    rewrite Z.gtb_ltb, (proj2 (Z.ltb_ge _ _)) by lia. cbn [orb negb].
    apply IH; done || (simpl in Hlen; lia).
Qed.

Lemma discovery_ParseTlvs_loop_sound remaining previous label rest l :
  all_bytes rest -> 0 <= previous -> ParseTlvs_loop IsCanonical remaining previous label rest = inr l ->
  exists tlvs, rest = tlv_block tlvs /\ Forall tlv_ok tlvs /\ ids_above previous tlvs /\
    (length tlvs <= remaining)%nat /\ l = label_in label tlvs.
Proof.
  revert previous label rest. induction remaining as [| remaining IH]; intros previous label rest Hb Hp;
    cbn [ParseTlvs_loop]; cbv zeta.
  all: destruct (Z.eqb_spec (bsize rest) 0) as [E0 | E0];
    [intros [= <-]; exists []; split; [by apply bsize_zero_nil |]; split; [by constructor |];
      split; [done |]; split; [simpl; lia | done] |].
  all: destruct (Z.ltb_spec (bsize rest) 4) as [| H4]; [done |].
  all: pose proof (tlv_split rest Hb H4) as Hsplit; cbv zeta in Hsplit;
    set (t := ReadU16 (subspan rest 0 2)) in *; set (n := ReadU16 (subspan rest 2 2)) in *;
    destruct Hsplit as (Wt & Wn & Hsplit); destruct (land_bits t Wt) as [Eid Hcrit];
    destruct (_ >? _) eqn:En; [done |]; bool_facts; destruct (Hsplit ltac:(lia)) as [Er Ev]; rewrite Eid.
  all: destruct (Z.eqb_spec (t mod 32768) 0) as [| Hz]; [done |];
    destruct (Z.ltb_spec (t mod 32768) previous) as [| H1]; [done |];
    destruct (Z.eqb_spec (t mod 32768) previous) as [| H2]; [done |]; [done || idtac].
  all: try done.
  set (v := subspan (drop 4 rest) 0 n) in *. set (tail := drop (Z.to_nat n) (drop 4 rest)) in *.
  assert (Hv : all_bytes v) by (apply all_bytes_subspan, all_bytes_drop, Hb).
  assert (Ht : all_bytes tail) by (apply all_bytes_drop, all_bytes_drop, Hb).
  destruct (Z.eqb_spec (Z.land t kCriticalBit) 0) as [Ec | Ec]; cbn [negb];
    [| rewrite andb_false_r; done].
  apply Hcrit in Ec. unfold kCriticalBit in Ec. rewrite andb_true_r.
  rewrite Z.mod_small in * by (widths). intros Hrun.
  assert (Hcase : (t = kDisplayLabelField -> 1 <= bsize v <= kMaxDisplayLabelBytes /\ IsCanonical v = true) /\
    ParseTlvs_loop IsCanonical remaining t (if t =? kDisplayLabelField then v else label) tail = inr l).
  { destruct (Z.eqb_spec t kDisplayLabelField) as [E | E]; [| done].
    destruct (_ || _) eqn:Ebad in Hrun; [done |]. bool_facts. split; [intros _ | done].
    pose proof (bsize_nonneg v). split; [lia | done]. }
  destruct Hcase as [Hlab Hrun']. destruct (IH t _ tail Ht ltac:(unfold in_width in Wt; lia) Hrun') as (tlvs & E & Hok & Hids & Hlen & El).
  exists ((t, v) :: tlvs). split; [rewrite Er, E; done |]. split; [| split; [| split; [simpl; lia | done]]].
  - apply list.Forall_cons. split; [| done]. unfold tlv_ok. cbn [fst snd]. unfold kCriticalBit.
    split; [widths |]. split; [by rewrite Ev |]. done.
  - cbn [ids_above fst]. split; [lia | done].
Qed.

(** ** Datagrams *)

(** The bytes of a datagram. *)
Definition datagram (type : MessageType) (sequence : Z) (token : bytes) (port ttl : Z)
    (tlvs : list (Z * bytes)) : bytes :=
  let body := tlv_block tlvs in
  kMagic ++ [kVersionMajor; kVersionMinor; message_code type; 0] ++
  be_bytes 2 (kDiscoveryHeaderSize + bsize body) ++ be_bytes 2 kDiscoveryHeaderSize ++
  be_bytes 8 sequence ++ token ++ be_bytes 2 port ++ be_bytes 2 ttl ++
  be_bytes 2 (bsize body) ++ be_bytes 2 0 ++ body.

(** What an advertisement has to be, whatever its bytes. *)
Record advertised (type : MessageType) (sequence : Z) (token : bytes) (port ttl : Z)
    (tlvs : list (Z * bytes)) : Prop := {
  adv_sequence : in_width 64 sequence /\ sequence <> 0;
  adv_token : all_bytes token /\ bsize token = 16 /\ IsAllZero token = false;
  adv_port : in_width 16 port;
  adv_announce : type = kAnnounce -> port <> 0 /\ kMinimumTtlSeconds <= ttl <= kMaximumTtlSeconds;
  adv_withdraw : type = kWithdraw -> port = 0 /\ ttl = 0 /\ tlvs = [];
  adv_tlvs : Forall tlv_ok tlvs /\ ids_above 0 tlvs /\ (length tlvs <= kMaximumTlvs)%nat;
  adv_size : kDiscoveryHeaderSize + bsize (tlv_block tlvs) <= kMaxDatagramSize;
}.

Lemma bsize_datagram type sequence token port ttl tlvs : bsize token = 16 ->
  bsize (datagram type sequence token port ttl tlvs) = kDiscoveryHeaderSize + bsize (tlv_block tlvs).
Proof.
  intros Ht. unfold datagram. cbv zeta. rewrite !bsize_app, !bsize_be_bytes, Ht.
  change (bsize kMagic) with 4. change (bsize [_; _; _; _]) with 4. unfold kDiscoveryHeaderSize. lia.
Qed.

(** A datagram at least as long as the header is its members, one after the
    other. *)
Lemma header_split payload : all_bytes payload -> kDiscoveryHeaderSize <= bsize payload ->
  payload =
    take 4 payload ++ [at_ payload 4; at_ payload 5; at_ payload 6; at_ payload 7] ++
    subspan payload 8 2 ++ subspan payload 10 2 ++ subspan payload 12 8 ++ subspan payload 20 16 ++
    subspan payload 36 2 ++ subspan payload 38 2 ++ subspan payload 40 2 ++ subspan payload 42 2 ++
    drop 44 payload.
Proof.
  intros _ H. unfold kDiscoveryHeaderSize, bsize in H.
  do 44 (destruct payload as [| ? payload]; [simpl in H; lia |]). done.
Qed.

Lemma read_span16 l o : all_bytes l -> 0 <= o -> o + 2 <= bsize l ->
  be_bytes 2 (ReadU16 (subspan l o 2)) = subspan l o 2 /\ in_width 16 (ReadU16 (subspan l o 2)).
Proof.
  intros Hl Ho Hs. rewrite discovery_ReadU16_same. apply ReadU16_span; [by apply all_bytes_subspan |].
  by apply bsize_subspan.
Qed.

Lemma read_span64 l o : all_bytes l -> 0 <= o -> o + 8 <= bsize l ->
  be_bytes 8 (ReadU64 (subspan l o 8)) = subspan l o 8 /\ in_width 64 (ReadU64 (subspan l o 8)).
Proof.
  intros Hl Ho Hs. rewrite discovery_ReadU64_same. apply ReadU64_span; [by apply all_bytes_subspan |].
  by apply bsize_subspan.
Qed.

Lemma ParseAdvertisement_sound payload a : all_bytes payload ->
  ParseAdvertisement IsCanonical payload = inr a ->
  exists tlvs,
    advertised (ad_type a) (ad_sequence a) (ad_token a) (ad_service_port a) (ad_ttl_seconds a) tlvs /\
    payload = datagram (ad_type a) (ad_sequence a) (ad_token a) (ad_service_port a) (ad_ttl_seconds a) tlvs /\
    ad_display_label a = label_in [] tlvs /\ ad_raw a = payload.
Proof.
  intros Hb. unfold ParseAdvertisement. cbv zeta.
  destruct (Z.ltb_spec (bsize payload) kDiscoveryHeaderSize) as [| H44]; [done |].
  destruct (_ >? kMaxDatagramSize) eqn:Emax; [done |].
  destruct (same_bytes kMagic _) eqn:Emagic; [| done]. cbn [negb].
  destruct (_ || _) eqn:Ever; [done |]. rewrite orb_false_iff, !negb_false_iff, !Z.eqb_eq in Ever.
  destruct (Z.eqb_spec (ReadU16 (subspan payload 8 2)) (bsize payload)) as [Etot |]; [| done]. cbn [negb].
  destruct (Z.eqb_spec (ReadU16 (subspan payload 10 2)) kDiscoveryHeaderSize) as [Ehead |]; [| done]. cbn [negb].
  destruct (Z.eqb_spec (at_ payload 7) 0) as [Eflags |]; [| done]. cbn [negb].
  destruct (Z.eqb_spec (ReadU16 (subspan payload 42 2)) 0) as [Eres |]; [| done]. cbn [negb].
  destruct (Z.eqb_spec (ReadU16 (subspan payload 40 2))
    (ReadU16 (subspan payload 8 2) - ReadU16 (subspan payload 10 2))) as [Elen |]; [| done]. cbn [negb].
  destruct (message_type_of (at_ payload 6)) as [type |] eqn:Etype; [| done].
  destruct (Z.eqb_spec (ReadU64 (subspan payload 12 8)) 0) as [| Eseq]; [done |].
  destruct (IsAllZero (subspan payload 20 16)) eqn:Etok; [done |].
  destruct (bool_decide (type = kAnnounce) && _) eqn:Eann; [done |].
  destruct (negb (bool_decide (type = kAnnounce)) && _) eqn:Ewit; [done |].
  destruct (ParseTlvs_loop _ _ _ _ _) as [e | label] eqn:Etlv; [done |]. intros [= <-].
  apply discovery_ParseTlvs_loop_sound in Etlv as (tlvs & Ebody & Hok & Hids & Hcount & Elabel);
    [| by apply all_bytes_drop | done].
  rewrite Ehead in *. change (Z.to_nat kDiscoveryHeaderSize) with 44%nat in *. unfold kDiscoveryHeaderSize in *.
  bool_facts. apply same_bytes_true in Emagic. destruct Ever as [Ev1 Ev2].
  destruct (read_span16 payload 8 Hb ltac:(lia) ltac:(lia)) as [S8 W8].
  destruct (read_span16 payload 10 Hb ltac:(lia) ltac:(lia)) as [S10 W10].
  destruct (read_span16 payload 36 Hb ltac:(lia) ltac:(lia)) as [S36 W36].
  destruct (read_span16 payload 38 Hb ltac:(lia) ltac:(lia)) as [S38 W38].
  destruct (read_span16 payload 40 Hb ltac:(lia) ltac:(lia)) as [S40 W40].
  destruct (read_span16 payload 42 Hb ltac:(lia) ltac:(lia)) as [S42 W42].
  destruct (read_span64 payload 12 Hb ltac:(lia) ltac:(lia)) as [S12 W12].
  assert (Hbody : bsize (tlv_block tlvs) = bsize payload - 44).
  { rewrite <- Ebody. unfold bsize. rewrite length_drop. unfold bsize in H44. lia. }
  exists tlvs. cbn [ad_type ad_sequence ad_token ad_service_port ad_ttl_seconds ad_display_label ad_raw].
  split; [| split; [| done]].
  - constructor.
    + done.
    + split; [by apply all_bytes_subspan |]. split; [by apply bsize_subspan; lia | done].
    + done.
    + intros ->. rewrite bool_decide_true in Eann by done. cbn [andb] in Eann. bool_facts. split; [done | lia].
    + intros ->. rewrite bool_decide_false in Ewit by done. cbn [andb negb] in Ewit. bool_facts. split; [done |]. split; [done |].
      assert (Hz : bsize (tlv_block tlvs) = 0) by lia. destruct tlvs as [| f tlvs]; [done |].
      change (tlv_block (f :: tlvs)) with (tlv_bytes f ++ tlv_block tlvs) in Hz.
      rewrite bsize_app, bsize_tlv_bytes in Hz. pose proof (bsize_nonneg f.2).
      pose proof (bsize_nonneg (tlv_block tlvs)). lia.
    + done.
    + unfold kDiscoveryHeaderSize. lia.
  - rewrite (header_split payload Hb H44) at 1. unfold datagram. cbv zeta. unfold kDiscoveryHeaderSize.
    rewrite Hbody, <- Emagic, Ev1, Ev2, Eflags, <- Ebody.
    replace (44 + (bsize payload - 44)) with (ReadU16 (subspan payload 8 2)) by lia.
    replace (bsize payload - 44) with (ReadU16 (subspan payload 40 2)) by lia.
    rewrite S8, S36, S38, S40, S12, <- Ehead, S10. rewrite <- Eres, S42.
    assert (Ecode : message_code type = at_ payload 6).
    { unfold message_type_of in Etype. destruct (Z.eqb_spec (at_ payload 6) 1) as [-> |]; [by injection Etype as <- |].
      destruct (Z.eqb_spec (at_ payload 6) 2) as [-> |]; [by injection Etype as <- | done]. }
    by rewrite Ecode.
Qed.

(** Reading a member off a concatenation. *)
Lemma subspan_skip a l o n : bsize a <= o -> subspan (a ++ l) o n = subspan l (o - bsize a) n.
Proof.
  intros H. unfold subspan, bsize in *. rewrite drop_app_ge by lia. do 2 f_equal. lia.
Qed.

Lemma subspan_here a l o n : o = 0 -> n = bsize a -> subspan (a ++ l) o n = a.
Proof. intros -> ->. by apply subspan_app_l. Qed.

Ltac member := repeat (rewrite subspan_skip by lia); apply subspan_here; lia.

Lemma members (s0 s4 s8 s10 s12 s20 s36 s38 s40 s42 body : bytes) :
  bsize s0 = 4 -> bsize s4 = 4 -> bsize s8 = 2 -> bsize s10 = 2 -> bsize s12 = 8 -> bsize s20 = 16 ->
  bsize s36 = 2 -> bsize s38 = 2 -> bsize s40 = 2 -> bsize s42 = 2 ->
  let l := s0 ++ s4 ++ s8 ++ s10 ++ s12 ++ s20 ++ s36 ++ s38 ++ s40 ++ s42 ++ body in
  subspan l 8 2 = s8 /\ subspan l 10 2 = s10 /\ subspan l 12 8 = s12 /\ subspan l 20 16 = s20 /\
  subspan l 36 2 = s36 /\ subspan l 38 2 = s38 /\ subspan l 40 2 = s40 /\ subspan l 42 2 = s42 /\
  drop 44 l = body.
Proof.
  intros. unfold l. split_and!; try member.
  rewrite !app_assoc. apply (drop_app_bsize _ body 44). rewrite !bsize_app. lia.
Qed.

Lemma datagram_members type sequence token port ttl tlvs : bsize token = 16 ->
  let body := tlv_block tlvs in
  let l := datagram type sequence token port ttl tlvs in
  subspan l 8 2 = be_bytes 2 (kDiscoveryHeaderSize + bsize body) /\
  subspan l 10 2 = be_bytes 2 kDiscoveryHeaderSize /\
  subspan l 12 8 = be_bytes 8 sequence /\ subspan l 20 16 = token /\
  subspan l 36 2 = be_bytes 2 port /\ subspan l 38 2 = be_bytes 2 ttl /\
  subspan l 40 2 = be_bytes 2 (bsize body) /\ subspan l 42 2 = be_bytes 2 0 /\
  drop 44 l = body.
Proof. intros Ht. by apply members; rewrite ?bsize_be_bytes. Qed.

Lemma ParseAdvertisement_complete type sequence token port ttl tlvs :
  advertised type sequence token port ttl tlvs ->
  let payload := datagram type sequence token port ttl tlvs in
  ParseAdvertisement IsCanonical payload =
  inr {| ad_type := type; ad_sequence := sequence; ad_token := token; ad_service_port := port;
         ad_ttl_seconds := ttl; ad_display_label := label_in [] tlvs; ad_raw := payload |}.
Proof.
  intros [[Ws Hs] (Hb & Ht & Hz) Wp Ha Hw (Hok & Hids & Hcount) Hsize] payload.
  assert (Wt : in_width 16 ttl).
  { destruct type; [destruct (Ha eq_refl) as [_ [? ?]] | destruct (Hw eq_refl) as (_ & -> & _)];
      unfold kMinimumTtlSeconds, kMaximumTtlSeconds in *; widths. }
  pose proof (bsize_datagram type sequence token port ttl tlvs Ht) as Hn. fold payload in Hn.
  destruct (datagram_members type sequence token port ttl tlvs Ht)
    as (S8 & S10 & S12 & S20 & S36 & S38 & S40 & S42 & Sb). fold payload in S8, S10, S12, S20, S36, S38, S40, S42, Sb.
  assert (M : same_bytes kMagic (take 4 payload) = true) by (by apply same_bytes_true).
  assert (M4 : at_ payload 4 = kVersionMajor) by done. assert (M5 : at_ payload 5 = kVersionMinor) by done.
  assert (M6 : at_ payload 6 = message_code type) by done. assert (M7 : at_ payload 7 = 0) by done.
  pose proof (bsize_nonneg (tlv_block tlvs)) as Hn0. unfold kDiscoveryHeaderSize, kMaxDatagramSize in *.
  unfold ParseAdvertisement. cbv zeta.
  rewrite M, M4, M5, M6, M7, S8, S10, S12, S20, S36, S38, S40, S42, Hz, !discovery_ReadU16_same, discovery_ReadU64_same.
  rewrite !ReadU16_bytes, ReadU64_bytes by (done || widths). unfold kDiscoveryHeaderSize, kMaxDatagramSize.
  rewrite (proj2 (Z.ltb_ge _ _)) by lia. rewrite Z.gtb_ltb, (proj2 (Z.ltb_ge _ _)) by lia.
  rewrite Hn, !Z.eqb_refl. cbn [negb orb]. rewrite (proj2 (Z.eqb_eq (bsize (tlv_block tlvs)) _)) by lia.
  cbn [negb]. rewrite (proj2 (Z.eqb_neq sequence 0)) by done.
  assert (Etype : message_type_of (message_code type) = Some type) by by destruct type.
  rewrite Etype. change (Z.to_nat 44) with 44%nat. rewrite Sb, discovery_ParseTlvs_loop_complete by done.
  destruct type; cbn [bool_decide andb negb].
  - destruct (Ha eq_refl) as [Hp [H1 H2]]. rewrite bool_decide_true by done. cbn [andb negb].
    rewrite (proj2 (Z.eqb_neq port 0)), (proj2 (Z.ltb_ge ttl _)), Z.gtb_ltb, (proj2 (Z.ltb_ge _ ttl)) by done.
    done.
  - destruct (Hw eq_refl) as (-> & -> & ->). done.
Qed.

(** ** The encoder *)

Definition label_tlvs (label : bytes) : list (Z * bytes) :=
  if bsize label =? 0 then [] else [(kDisplayLabelField, label)].

(** Writing the next member over the zeroes of the array. *)
Lemma write_zeroes pre n d offset : offset = bsize pre -> (length d <= n)%nat ->
  write_at (pre ++ repeat 0 n) offset d = (pre ++ d) ++ repeat 0 (n - length d).
Proof.
  intros Ho Hn. replace n with (length d + (n - length d))%nat at 1 by lia.
  rewrite repeat_app, <- app_assoc. by apply write_at_middle; [| rewrite repeat_length].
Qed.

Lemma take_bsize (a b : bytes) n : n = bsize a -> take (Z.to_nat n) (a ++ b) = a.
Proof. intros ->. unfold bsize. rewrite Nat2Z.id. apply take_app_length. Qed.

Lemma encoded_bytes (type : MessageType) sequence token port ttl label tlv_size :
  bsize token = 16 -> bsize label <= kMaxDisplayLabelBytes ->
  tlv_size = (if bsize label =? 0 then 0 else 4 + bsize label) ->
  let bytes := repeat 0 (Z.to_nat kMaxDatagramSize) in
  let bytes := write_at bytes 0 kMagic in
  let bytes := write_at bytes 4 [kVersionMajor] in
  let bytes := write_at bytes 5 [kVersionMinor] in
  let bytes := write_at bytes 6 [message_code type] in
  let bytes := write_at bytes 7 [0] in
  let bytes := WriteU16 bytes 8 (kDiscoveryHeaderSize + tlv_size) in
  let bytes := WriteU16 bytes 10 kDiscoveryHeaderSize in
  let bytes := WriteU64 bytes 12 sequence in
  let bytes := write_at bytes 20 token in
  let bytes := WriteU16 bytes 36 port in
  let bytes := WriteU16 bytes 38 ttl in
  let bytes := WriteU16 bytes 40 tlv_size in
  let bytes := WriteU16 bytes 42 0 in
  let bytes :=
    if bsize label =? 0 then bytes
    else
      let bytes := WriteU16 bytes kDiscoveryHeaderSize kDisplayLabelField in
      let bytes := WriteU16 bytes (kDiscoveryHeaderSize + 2) (bsize label) in
      write_at bytes (kDiscoveryHeaderSize + 4) label in
  take (Z.to_nat (kDiscoveryHeaderSize + tlv_size)) bytes =
  datagram type sequence token port ttl (label_tlvs label).
Proof.
  intros Ht Hl ->. cbv zeta. unfold WriteU16, WriteU64. change (Z.to_nat kMaxDatagramSize) with 512%nat.
  change (repeat 0 512) with ([] ++ repeat 0 512).
  assert (Hlt : length token = 16%nat) by (unfold bsize in Ht; lia).
  unfold kDiscoveryHeaderSize, kMaxDisplayLabelBytes in *.
  do 13 (rewrite write_zeroes by
    (rewrite ?bsize_app, ?bsize_be_bytes, ?length_be_bytes, ?Ht, ?Hlt; reflexivity || (simpl length; lia))).
  rewrite !length_be_bytes, Hlt.
  unfold datagram, label_tlvs. cbv zeta. destruct (Z.eqb_spec (bsize label) 0) as [E | E].
  - rewrite take_bsize by (rewrite !bsize_app, !bsize_be_bytes, Ht; reflexivity).
    rewrite <- !app_assoc. unfold tlv_block. cbn [List.map concat app]. by rewrite app_nil_r.
  - do 3 (rewrite write_zeroes by
      (rewrite ?bsize_app, ?bsize_be_bytes, ?length_be_bytes, ?Ht; reflexivity || (unfold bsize in *; simpl length; lia))).
    rewrite take_bsize by (rewrite !bsize_app, !bsize_be_bytes, Ht; unfold bsize; simpl length; lia).
    assert (Eb : tlv_block [(kDisplayLabelField, label)] = tlv_bytes (kDisplayLabelField, label)) by apply app_nil_r.
    rewrite Eb, bsize_tlv_bytes. unfold tlv_bytes. cbn [fst snd]. rewrite <- !app_assoc. done.
Qed.

Lemma label_tlvs_size label : bsize (tlv_block (label_tlvs label)) = if bsize label =? 0 then 0 else 4 + bsize label.
Proof.
  unfold label_tlvs. destruct (bsize label =? 0); [done |].
  change (tlv_block _) with (tlv_bytes (kDisplayLabelField, label) ++ []). by rewrite app_nil_r, bsize_tlv_bytes.
Qed.

Lemma label_in_label_tlvs label : label_in [] (label_tlvs label) = label.
Proof.
  unfold label_tlvs. destruct (Z.eqb_spec (bsize label) 0) as [E |]; [by apply bsize_zero_nil in E as -> | done].
Qed.

(** The arguments of the encoder, by their types. *)
Definition arguments_typed (sequence : Z) (token : bytes) (port ttl : Z) (label : bytes) : Prop :=
  in_width 64 sequence /\ (all_bytes token /\ bsize token = 16) /\ in_width 16 port /\
  in_width 16 ttl /\ all_bytes label.

Lemma label_tlvs_ok label : all_bytes label ->
  Forall tlv_ok (label_tlvs label) <->
  (bsize label <> 0 -> bsize label <= kMaxDisplayLabelBytes /\ IsCanonical label = true).
Proof.
  intros Hb. unfold label_tlvs. pose proof (bsize_nonneg label). destruct (Z.eqb_spec (bsize label) 0) as [E | E].
  { split; [done |]. intros _. apply Forall_nil. }
  rewrite list.Forall_singleton. unfold tlv_ok. cbn [fst snd]. unfold kMaxDisplayLabelBytes, kDisplayLabelField, kCriticalBit.
  split.
  - intros (_ & _ & _ & H1) _. destruct (H1 eq_refl) as [? ?]. split; [lia | done].
  - intros H1. destruct (H1 E) as [? ?]. split; [lia |]. split; [widths |]. split; [done |]. split; [lia | done].
Qed.

Lemma EncodeAdvertisement_sound type sequence token port ttl label p :
  arguments_typed sequence token port ttl label ->
  EncodeAdvertisement IsCanonical type sequence token port ttl label = Some p ->
  advertised type sequence token port ttl (label_tlvs label) /\
  p = datagram type sequence token port ttl (label_tlvs label).
Proof.
  intros (Ws & [Hb Ht] & Wp & Wt & Hl). unfold EncodeAdvertisement. cbv zeta.
  destruct (_ || _) eqn:E1; [done |]. apply orb_false_iff in E1 as [E1 E2]. apply Z.eqb_neq in E1.
  destruct (match type with kAnnounce => _ | kWithdraw => _ end) eqn:Eref; [done |]. intros Hp.
  assert (Hlabel : bsize label <> 0 -> bsize label <= kMaxDisplayLabelBytes /\ IsCanonical label = true).
  { intros Hne. destruct type; bool_facts; [| done]. apply Z.eqb_neq in Hne as Hne'. rewrite Hne' in *.
    cbn [negb andb] in *. bool_facts. by split. }
  assert (Hsmall : bsize label <= kMaxDisplayLabelBytes).
  { destruct (Z.eq_dec (bsize label) 0) as [-> |]; [done | by apply Hlabel]. }
  pose proof (label_tlvs_size label) as Hts. pose proof (bsize_nonneg label) as Hn.
  set (tlv_size := if bsize label =? 0 then 0 else 4 + bsize label) in *.
  assert (Hr : 0 <= tlv_size <= 100).
  { unfold tlv_size, kMaxDisplayLabelBytes in *. destruct (bsize label =? 0); lia. }
  split.
  - constructor; try done.
    + intros ->. bool_facts. split; [done |]. by split.
    + intros ->. bool_facts. split; [done |]. split; [done |]. unfold label_tlvs. by rewrite (proj2 (Z.eqb_eq _ _)).
    + split; [by apply label_tlvs_ok |]. unfold label_tlvs. destruct (bsize label =? 0);
        simpl; (split; [done |]); unfold kMaximumTlvs; lia.
    + rewrite Hts. unfold kDiscoveryHeaderSize, kMaxDatagramSize. lia.
  - revert Hp. unfold kDiscoveryHeaderSize. rewrite !(wrap_small 16) by (unfold kMaxDisplayLabelBytes in *; widths).
    intros [= <-]. by rewrite <- (encoded_bytes type sequence token port ttl label tlv_size).
Qed.

End Validator.

(** ** Theorems *)

(** The datagrams that are accepted: the parser accepts a payload exactly when
    it is the bytes of an advertisement within the rules (a nonzero sequence
    and token, a port and a lifetime in range for an announcement and neither
    nor fields for a withdrawal, at most 32 fields with increasing ids, none
    critical, a canonical label), and returns that advertisement. *)
Theorem discovery_accepts_iff (IsCanonical : bytes -> bool) (payload : bytes) (a : Advertisement) :
  all_bytes payload ->
  ParseAdvertisement IsCanonical payload = inr a <->
  exists tlvs,
    advertised IsCanonical (ad_type a) (ad_sequence a) (ad_token a) (ad_service_port a) (ad_ttl_seconds a) tlvs /\
    payload = datagram (ad_type a) (ad_sequence a) (ad_token a) (ad_service_port a) (ad_ttl_seconds a) tlvs /\
    ad_display_label a = label_in [] tlvs /\ ad_raw a = payload.
Proof.
  intros Hb. split; [by apply ParseAdvertisement_sound |]. intros (tlvs & Ha & Hp & Hl & Hr).
  pose proof (ParseAdvertisement_complete IsCanonical _ _ _ _ _ _ Ha) as H. cbv zeta in H. rewrite <- Hp in H.
  rewrite H. f_equal. destruct a. simpl in *. congruence.
Qed.

(** What a device announces is what the others see: a datagram the encoder
    produces is accepted and gives back the arguments. *)
Theorem discovery_roundtrip (IsCanonical : bytes -> bool) (type : MessageType) (sequence : Z)
    (token : bytes) (port ttl : Z) (label p : bytes) :
  arguments_typed sequence token port ttl label ->
  EncodeAdvertisement IsCanonical type sequence token port ttl label = Some p ->
  ParseAdvertisement IsCanonical p =
  inr {| ad_type := type; ad_sequence := sequence; ad_token := token; ad_service_port := port;
         ad_ttl_seconds := ttl; ad_display_label := label; ad_raw := p |}.
Proof.
  intros Ht He. destruct (EncodeAdvertisement_sound _ _ _ _ _ _ _ _ Ht He) as [Ha ->].
  rewrite ParseAdvertisement_complete by done. by rewrite label_in_label_tlvs.
Qed.

Module DiscoveryWireExample.

(** An announcement of the label "PC". *)
Definition token : bytes := repeat 7 16.
Definition payload : bytes := datagram kAnnounce 3 token 4000 15 [(1, [80; 67])].

Definition announced : Advertisement :=
  {| ad_type := kAnnounce; ad_sequence := 3; ad_token := token; ad_service_port := 4000;
     ad_ttl_seconds := 15; ad_display_label := [80; 67]; ad_raw := payload |}.

Definition any (label : bytes) : bool := true.

Lemma encodes : EncodeAdvertisement any kAnnounce 3 token 4000 15 [80; 67] = Some payload.
Proof. by vm_compute. Qed.

Lemma parses : ParseAdvertisement any payload = inr announced.
Proof. by vm_compute. Qed.

Lemma discovery_accepts_iff_witness :
  exists tlvs, advertised any kAnnounce 3 token 4000 15 tlvs /\
    payload = datagram kAnnounce 3 token 4000 15 tlvs /\ [80; 67] = label_in [] tlvs /\ payload = payload.
Proof.
  apply (discovery_accepts_iff any payload announced); [| exact parses].
  by apply (bool_decide_unpack _); vm_compute.
Defined.

Lemma discovery_roundtrip_witness : ParseAdvertisement any payload = inr announced.
Proof.
  apply (discovery_roundtrip any kAnnounce 3 token 4000 15 [80; 67] payload); [| exact encodes].
  split_and!; by apply (bool_decide_unpack _); vm_compute.
Defined.

End DiscoveryWireExample.
