(* ===== verification/DiscoveryCache.v ===== *)
(** * The cache of discovered peers

    [DiscoveryCache] of [native/src/discovery/cache.cpp]: the peers announced on
    the local network, with their lifetimes, the tombstones of those that are
    gone, and the token buckets that limit the datagrams taken.

    A method holds the mutex from beginning to end, so it is one function of
    the state.  The validator of labels is a pointer the constructor is given:
    [None] is the null pointer.  The [double]s of the buckets are the IEEE 754
    binary64 numbers of the standard library ([SpecFloat]); a [std::size_t] has
    64 bits.  An iterator into a vector is an index.  The exhaustion of memory,
    which the class lets escape as an exception, is left out. *)

From Stdlib Require Import SpecFloat.
From S2P Require Import Prelude.
From S2P Require Import DiscoveryWire.

Module DiscoveryCache.
Import DiscoveryWire.

(** ** Doubles *)

Definition double (v : Z) : spec_float := binary_normalize 53 1024 v 0 false.
Definition dadd : spec_float -> spec_float -> spec_float := SFadd 53 1024.
Definition dsub : spec_float -> spec_float -> spec_float := SFsub 53 1024.
Definition dmul : spec_float -> spec_float -> spec_float := SFmul 53 1024.
Definition ddiv : spec_float -> spec_float -> spec_float := SFdiv 53 1024.

(** ** Data *)

Definition kGlobalRate : spec_float := double 256.
Definition kGlobalBurst : spec_float := double 512.
Definition kScopeRate : spec_float := double 128.
Definition kScopeBurst : spec_float := double 256.
Definition kSourceRate : spec_float := double 8.
Definition kSourceBurst : spec_float := double 16.
Definition kMaximumRetainedPayloadBytes : Z := 131072.

Definition kIpv4Group : bytes := [239; 255; 88; 78].
Definition kIpv6Group : bytes := [255; 18; 0; 0; 0; 0; 0; 0; 0; 0; 0; 0; 88; 78; 78; 68].

Inductive CacheState := kCreated | kRunning | kStopped.

#[global] Instance cache_state_eq_dec : EqDecision CacheState.
Proof. solve_decision. Defined.

Record TokenBucket := {
  rate : spec_float;
  burst : spec_float;
  tokens : spec_float;
  updated_ms : Z;
}.

Definition Available (now_ms : Z) (b : TokenBucket) : spec_float :=
  let elapsed_ms := usub 64 now_ms (updated_ms b) in
  let refill := ddiv (dmul (double elapsed_ms) (rate b)) (double 1000) in
  let refilled := dadd (tokens b) refill in
  if SFltb refilled (burst b) then refilled else burst b.

Definition Consume (now_ms : Z) (b : TokenBucket) : TokenBucket :=
  {| rate := rate b; burst := burst b; tokens := dsub (Available now_ms b) (double 1);
     updated_ms := now_ms |}.

Definition FullBucket (rate burst : spec_float) (now_ms : Z) : TokenBucket :=
  {| rate := rate; burst := burst; tokens := burst; updated_ms := now_ms |}.

Record ScopeState := {
  ss_scope : InterfaceScope;
  ss_bucket : TokenBucket;
}.

Record LocalToken := {
  lt_scope : InterfaceScope;
  lt_token : bytes;
}.

Record SourceBucket := {
  sb_scope : InterfaceScope;
  sb_source : IpAddress;
  sb_bucket : TokenBucket;
}.

Record Candidate := {
  c_key : CandidateKey;
  c_service_port : Z;
  c_display_label : bytes;
  c_deadline_ms : Z;
  c_highest_sequence : Z;
}.

#[global] Instance eta_Candidate : Eta Candidate := fun x =>
  {| c_key := c_key x; c_service_port := c_service_port x; c_display_label := c_display_label x;
     c_deadline_ms := c_deadline_ms x; c_highest_sequence := c_highest_sequence x |}.

(** [Entry]; [raw] is the array of that name cut at [raw_size]. *)
Record Entry := {
  candidate : bool;
  value : Candidate;
  raw : bytes;
  retain_until_ms : Z;
}.

#[global] Instance eta_Entry : Eta Entry := fun x =>
  {| candidate := candidate x; value := value x; raw := raw x;
     retain_until_ms := retain_until_ms x |}.

Definition raw_size (e : Entry) : Z := bsize (raw e).

Inductive ExpiryReason := kTtl | kWithdrawn | kInterfaceRemoved | kWake.
Inductive EventKind := kAppeared | kUpdated | kExpired.

Record CandidateEvent := {
  ev_kind : EventKind;
  ev_candidate : Candidate;
  ev_reason : ExpiryReason;
}.

Module ReceiveDisposition.
Inductive ReceiveDisposition :=
  | kAppeared
  | kUpdated
  | kRefreshed
  | kWithdrawn
  | kTombstoned
  | kDroppedStopped
  | kDroppedClockRegression
  | kDroppedMetadata
  | kDroppedRateLimit
  | kDroppedTruncated
  | kDroppedMalformed
  | kDroppedSelf
  | kDroppedStale
  | kDroppedDuplicate
  | kDroppedSequenceConflict
  | kDroppedCapacity
  | kDroppedTimeOverflow.
End ReceiveDisposition.

Record ReceiveResult := {
  r_disposition : ReceiveDisposition.ReceiveDisposition;
  r_parse_error : option ParseError;
  r_events : list CandidateEvent;
}.

Record DatagramMetadata := {
  md_observer : InterfaceScope;
  md_source : IpAddress;
  md_destination : IpAddress;
  md_destination_port : Z;
  md_observer_eligible : bool;
  md_source_is_broadcast : bool;
  md_truncated : bool;
}.

Record DiscoveryCache := {
  state_ : CacheState;
  now_ms_ : Z;
  global_bucket_ : TokenBucket;
  scopes_ : list ScopeState;
  local_tokens_ : list LocalToken;
  source_buckets_ : list SourceBucket;
  entries_ : list Entry;
  retained_payload_bytes_ : Z;
}.

#[global] Instance eta_DiscoveryCache : Eta DiscoveryCache := fun x =>
  {| state_ := state_ x; now_ms_ := now_ms_ x; global_bucket_ := global_bucket_ x;
     scopes_ := scopes_ x; local_tokens_ := local_tokens_ x;
     source_buckets_ := source_buckets_ x; entries_ := entries_ x;
     retained_payload_bytes_ := retained_payload_bytes_ x |}.

Definition DiscoveryCache_initial : DiscoveryCache :=
  {| state_ := kCreated; now_ms_ := 0;
     global_bucket_ := FullBucket (double 0) (double 0) 0;
     scopes_ := []; local_tokens_ := []; source_buckets_ := []; entries_ := [];
     retained_payload_bytes_ := 0 |}.

(** ** Helpers *)

(** [AddMilliseconds]: [None] when it returns false. *)
Definition AddMilliseconds (now_ms duration_ms : Z) : option Z :=
  if duration_ms >? umax 64 - now_ms then None else Some (now_ms + duration_ms).

Definition IsZero (l : bytes) : bool := forallb (fun v => v =? 0) l.

Definition IsValidSource (metadata : DatagramMetadata) : bool :=
  if negb (bool_decide (ip_family (md_source metadata) = scope_family (md_observer metadata))) ||
     negb (bool_decide (ip_family (md_destination metadata) = scope_family (md_observer metadata))) ||
     md_source_is_broadcast metadata then false
  else
  let source := encoded (md_source metadata) in
  match ip_family (md_source metadata) with
  | kIpv4 =>
      let first := at_ source 0 in
      negb (first =? 0) && negb (first =? 127) && negb (first =? 255) &&
      ((first <? 224) || (first >? 239))
  | kIpv6 =>
      if IsZero source || (at_ source 0 =? 255) then false
      else
      let loopback := IsZero (take 15 source) && (at_ source 15 =? 1) in
      let ipv4_mapped := IsZero (take 10 source) && (at_ source 10 =? 255) && (at_ source 11 =? 255) in
      negb loopback && negb ipv4_mapped
  end.

Definition IsDiscoveryDestination (metadata : DatagramMetadata) : bool :=
  if negb (md_destination_port metadata =? kDiscoveryPort) then false
  else
  let destination := encoded (md_destination metadata) in
  match ip_family (md_destination metadata) with
  | kIpv4 => same_bytes destination kIpv4Group
  | kIpv6 => same_bytes destination kIpv6Group
  end.

Definition MakeEvent (kind : EventKind) (c : Candidate) (reason : ExpiryReason) : CandidateEvent :=
  {| ev_kind := kind; ev_candidate := c; ev_reason := reason |}.

(** [std::lower_bound] on a sorted vector of scopes: the number of elements
    before the first one that is not less. *)
Fixpoint lower_bound (scope : InterfaceScope) (l : list InterfaceScope) : nat :=
  match l with
  | [] => 0
  | x :: l => if scope_less x scope then S (lower_bound scope l) else 0
  end.

(** [std::binary_search]. *)
Definition binary_search (l : list InterfaceScope) (scope : InterfaceScope) : bool :=
  match l !! lower_bound scope l with
  | Some x => negb (scope_less scope x)
  | None => false
  end.

Definition insert_at {A} (position : nat) (x : A) (l : list A) : list A :=
  take position l ++ x :: drop position l.

(** The body of the loop of [CanonicalScopes]. *)
Definition CanonicalScopes_step (result : list InterfaceScope) (scope : InterfaceScope)
    : list InterfaceScope :=
  let position := lower_bound scope result in
  if bool_decide (result !! position = Some scope) then result
  else if Nat.ltb (length result) kMaxScopes then insert_at position scope result
  else if negb (Nat.eqb position (length result)) then
    let result := insert_at position scope result in take (length result - 1) result
  else result.

Definition CanonicalScopes (scopes : list InterfaceScope) : list InterfaceScope :=
  fold_left CanonicalScopes_step scopes [].

Definition InstallScopes (scopes : list InterfaceScope) (now_ms : Z) (c : DiscoveryCache)
    : DiscoveryCache :=
  c <| scopes_ :=
    List.map (fun scope =>
      match List.find (fun item => bool_decide (ss_scope item = scope)) (scopes_ c) with
      | None => {| ss_scope := scope; ss_bucket := FullBucket kScopeRate kScopeBurst now_ms |}
      | Some existing => existing
      end) scopes |>.

Definition ReplaceScopes (scopes : list InterfaceScope) (now_ms : Z) (c : DiscoveryCache)
    : DiscoveryCache :=
  InstallScopes (CanonicalScopes scopes) now_ms c.

(** The loop over the entries in [RemoveAbsentScopes]: the entries that stay, the
    events and the retained bytes. *)
Fixpoint RemoveAbsentScopes_loop (present : InterfaceScope -> bool) (reason : ExpiryReason)
    (entries : list Entry) (retained : Z) : list Entry * list CandidateEvent * Z :=
  match entries with
  | [] => ([], [], retained)
  | e :: entries =>
      if present (key_observer (c_key (value e))) then
        let '(kept, events, retained) := RemoveAbsentScopes_loop present reason entries retained in
        (e :: kept, events, retained)
      else if candidate e then
        let '(kept, events, retained) :=
          RemoveAbsentScopes_loop present reason entries (usub 64 retained (raw_size e)) in
        (kept, MakeEvent kExpired (value e) reason :: events, retained)
      else RemoveAbsentScopes_loop present reason entries retained
  end.

Definition RemoveAbsentScopes (replacement : list InterfaceScope) (reason : ExpiryReason)
    (c : DiscoveryCache) : DiscoveryCache * list CandidateEvent :=
  let present := binary_search replacement in
  let '(kept, events, retained) :=
    RemoveAbsentScopes_loop present reason (entries_ c) (retained_payload_bytes_ c) in
  (c <| entries_ := kept |> <| retained_payload_bytes_ := retained |>
     <| local_tokens_ := List.filter (fun item => present (lt_scope item)) (local_tokens_ c) |>
     <| source_buckets_ := List.filter (fun item => present (sb_scope item)) (source_buckets_ c) |>,
   events).

Definition HasScope (scope : InterfaceScope) (c : DiscoveryCache) : bool :=
  existsb (fun item => bool_decide (ss_scope item = scope)) (scopes_ c).

Definition IsSelf (scope : InterfaceScope) (token : bytes) (c : DiscoveryCache) : bool :=
  existsb (fun item => bool_decide (lt_scope item = scope) && same_bytes (lt_token item) token)
    (local_tokens_ c).

Definition same_source (scope : InterfaceScope) (source : IpAddress) (item : SourceBucket) : bool :=
  bool_decide (sb_scope item = scope) && address_eqb (sb_source item) source.

Definition consume_scope (now_ms : Z) (item : ScopeState) : ScopeState :=
  {| ss_scope := ss_scope item; ss_bucket := Consume now_ms (ss_bucket item) |}.
Definition consume_source (now_ms : Z) (item : SourceBucket) : SourceBucket :=
  {| sb_scope := sb_scope item; sb_source := sb_source item;
     sb_bucket := Consume now_ms (sb_bucket item) |}.

(** The end of [Admit], with the positions of the two buckets. *)
Definition AdmitFrom (now_ms : Z) (scope_iterator source_iterator : nat) (c : DiscoveryCache)
    : DiscoveryCache * bool :=
  match scopes_ c !! scope_iterator, source_buckets_ c !! source_iterator with
  | Some scope_item, Some source_item =>
      if SFltb (Available now_ms (global_bucket_ c)) (double 1) ||
         SFltb (Available now_ms (ss_bucket scope_item)) (double 1) ||
         SFltb (Available now_ms (sb_bucket source_item)) (double 1) then (c, false)
      else
        (c <| global_bucket_ := Consume now_ms (global_bucket_ c) |>
           <| scopes_ := <[scope_iterator := consume_scope now_ms scope_item]> (scopes_ c) |>
           <| source_buckets_ :=
                <[source_iterator := consume_source now_ms source_item]> (source_buckets_ c) |>, true)
  | _, _ => (c, false)
  end.

Definition Admit (scope : InterfaceScope) (source : IpAddress) (now_ms : Z) (c : DiscoveryCache)
    : DiscoveryCache * bool :=
  let c := c <| source_buckets_ := List.filter (fun item =>
    negb (usub 64 now_ms (updated_ms (sb_bucket item)) >=? kSourceBucketIdleMs)) (source_buckets_ c) |> in
  match find_if (fun item => bool_decide (ss_scope item = scope)) (scopes_ c) with
  | None => (c, false)
  | Some scope_iterator =>
      match find_if (same_source scope source) (source_buckets_ c) with
      | Some source_iterator => AdmitFrom now_ms scope_iterator source_iterator c
      | None =>
          let scope_bucket_count :=
            count_if (fun item => bool_decide (sb_scope item = scope)) (source_buckets_ c) in
          if (Z.of_nat (length (source_buckets_ c)) >=? kMaxSourceBuckets) ||
             (scope_bucket_count >=? kMaxSourceBucketsPerScope) then (c, false)
          else
          let c := c <| source_buckets_ := source_buckets_ c ++
            [{| sb_scope := scope; sb_source := source;
                sb_bucket := FullBucket kSourceRate kSourceBurst now_ms |}] |> in
          AdmitFrom now_ms scope_iterator (length (source_buckets_ c) - 1) c
      end
  end.

Definition FindEntry (key : CandidateKey) (c : DiscoveryCache) : option nat :=
  find_if (fun e => key_eqb (c_key (value e)) key) (entries_ c).

Definition in_scope (scope : InterfaceScope) (e : Entry) : bool :=
  bool_decide (key_observer (c_key (value e)) = scope).

Definition CandidateCount (c : DiscoveryCache) : Z := count_if candidate (entries_ c).
Definition CandidateCountIn (scope : InterfaceScope) (c : DiscoveryCache) : Z :=
  count_if (fun e => candidate e && in_scope scope e) (entries_ c).
Definition EntryCount (scope : InterfaceScope) (c : DiscoveryCache) : Z :=
  count_if (in_scope scope) (entries_ c).

Definition CandidateCapacity (scope : InterfaceScope) (c : DiscoveryCache) : bool :=
  (CandidateCount c <? kMaxCandidates) && (CandidateCountIn scope c <? kMaxCandidatesPerScope).

Definition EntryCapacity (scope : InterfaceScope) (c : DiscoveryCache) : bool :=
  (Z.of_nat (length (entries_ c)) <? kMaxEntries) && (EntryCount scope c <? kMaxEntriesPerScope).

Definition CandidateFrom (key : CandidateKey) (a : Advertisement) (deadline_ms : Z) : Candidate :=
  {| c_key := key; c_service_port := ad_service_port a; c_display_label := ad_display_label a;
     c_deadline_ms := deadline_ms; c_highest_sequence := ad_sequence a |}.

Definition result (d : ReceiveDisposition.ReceiveDisposition) (events : list CandidateEvent) : ReceiveResult :=
  {| r_disposition := d; r_parse_error := None; r_events := events |}.

Definition Announce (key : CandidateKey) (a : Advertisement) (iterator : option nat) (now_ms : Z)
    (c : DiscoveryCache) : DiscoveryCache * ReceiveResult :=
  match AddMilliseconds now_ms (ad_ttl_seconds a * 1000) with
  | None => (c, result ReceiveDisposition.kDroppedTimeOverflow [])
  | Some deadline_ms =>
      match iterator with
      | None =>
          if negb (CandidateCapacity (key_observer key) c) ||
             negb (EntryCapacity (key_observer key) c) ||
             (uadd 64 (retained_payload_bytes_ c) (bsize (ad_raw a)) >? kMaximumRetainedPayloadBytes)
          then (c, result ReceiveDisposition.kDroppedCapacity [])
          else
          let entry := {| candidate := true; value := CandidateFrom key a deadline_ms;
                          raw := ad_raw a; retain_until_ms := 0 |} in
          (c <| retained_payload_bytes_ := uadd 64 (retained_payload_bytes_ c) (raw_size entry) |>
             <| entries_ := entries_ c ++ [entry] |>,
           result ReceiveDisposition.kAppeared [MakeEvent kAppeared (value entry) kTtl])
      | Some index =>
          match entries_ c !! index with
          | None => (c, result ReceiveDisposition.kDroppedMalformed [])
          | Some e =>
              if negb (candidate e) && (ad_sequence a <=? c_highest_sequence (value e)) then
                (c, result ReceiveDisposition.kDroppedStale [])
              else if ad_sequence a <? c_highest_sequence (value e) then
                (c, result ReceiveDisposition.kDroppedStale [])
              else if ad_sequence a =? c_highest_sequence (value e) then
                let duplicate := candidate e && (raw_size e =? bsize (ad_raw a)) &&
                                 same_bytes (ad_raw a) (raw e) in
                (c, result (if duplicate then ReceiveDisposition.kDroppedDuplicate
                            else ReceiveDisposition.kDroppedSequenceConflict) [])
              else if negb (candidate e) && negb (CandidateCapacity (key_observer key) c) then
                (c, result ReceiveDisposition.kDroppedCapacity [])
              else
              let replacement := CandidateFrom key a deadline_ms in
              let was_tombstone := negb (candidate e) in
              let visible_changed := was_tombstone ||
                negb (c_service_port (value e) =? c_service_port replacement) ||
                negb (same_bytes (c_display_label (value e)) (c_display_label replacement)) in
              if uadd 64 (usub 64 (retained_payload_bytes_ c) (raw_size e)) (bsize (ad_raw a)) >?
                 kMaximumRetainedPayloadBytes then
                (c, result ReceiveDisposition.kDroppedCapacity [])
              else
              let entry := {| candidate := true; value := replacement; raw := ad_raw a;
                              retain_until_ms := 0 |} in
              let c := c <| retained_payload_bytes_ :=
                  uadd 64 (usub 64 (retained_payload_bytes_ c) (raw_size e)) (raw_size entry) |>
                <| entries_ := <[index := entry]> (entries_ c) |> in
              if was_tombstone then
                (c, result ReceiveDisposition.kAppeared [MakeEvent kAppeared replacement kTtl])
              else if visible_changed then
                (c, result ReceiveDisposition.kUpdated [MakeEvent kUpdated replacement kTtl])
              else (c, result ReceiveDisposition.kRefreshed [])
          end
      end
  end.

(** The members set when an entry becomes a tombstone; the sequence is kept. *)
Definition tombstone (retain_until_ms : Z) (e : Entry) : Entry :=
  {| candidate := false;
     value := (value e) <| c_service_port := 0 |> <| c_display_label := [] |> <| c_deadline_ms := 0 |>;
     raw := []; retain_until_ms := retain_until_ms |}.

Definition Withdraw (key : CandidateKey) (a : Advertisement) (iterator : option nat) (now_ms : Z)
    (c : DiscoveryCache) : DiscoveryCache * ReceiveResult :=
  match AddMilliseconds now_ms kTombstoneLifetimeMs with
  | None => (c, result ReceiveDisposition.kDroppedTimeOverflow [])
  | Some retain_until =>
      match iterator with
      | None =>
          if negb (EntryCapacity (key_observer key) c) then
            (c, result ReceiveDisposition.kDroppedCapacity [])
          else
            (c <| entries_ := entries_ c ++
               [{| candidate := false;
                   value := {| c_key := key; c_service_port := 0; c_display_label := [];
                               c_deadline_ms := 0; c_highest_sequence := ad_sequence a |};
                   raw := []; retain_until_ms := retain_until |}] |>,
             result ReceiveDisposition.kTombstoned [])
      | Some index =>
          match entries_ c !! index with
          | None => (c, result ReceiveDisposition.kDroppedMalformed [])
          | Some e =>
              if ad_sequence a <=? c_highest_sequence (value e) then
                (c, result ReceiveDisposition.kDroppedStale [])
              else
              let '(retained, events) :=
                if candidate e then
                  (usub 64 (retained_payload_bytes_ c) (raw_size e),
                   [MakeEvent kExpired (value e) kWithdrawn])
                else (retained_payload_bytes_ c, []) in
              let gone := tombstone retain_until e in
              let gone := gone <| value := (value gone) <| c_highest_sequence := ad_sequence a |> |> in
              (c <| retained_payload_bytes_ := retained |>
                 <| entries_ := <[index := gone]> (entries_ c) |>,
               result ReceiveDisposition.kWithdrawn events)
          end
      end
  end.

Definition EraseExpiredTombstones (now_ms : Z) (c : DiscoveryCache) : DiscoveryCache :=
  c <| entries_ := List.filter (fun e => negb (negb (candidate e) && (now_ms >=? retain_until_ms e)))
    (entries_ c) |>.

Definition retention (now_ms : Z) : Z :=
  match AddMilliseconds now_ms kTombstoneLifetimeMs with
  | Some retain_until => retain_until
  | None => umax 64
  end.

(** The loops of [Purge] and of [Wake]: the candidates that [due] holds of become
    tombstones. *)
Fixpoint Expire_loop (due : Entry -> bool) (reason : ExpiryReason) (now_ms : Z)
    (entries : list Entry) (retained : Z) : list Entry * list CandidateEvent * Z :=
  match entries with
  | [] => ([], [], retained)
  | e :: entries =>
      if negb (candidate e) || negb (due e) then
        let '(rest, events, retained) := Expire_loop due reason now_ms entries retained in
        (e :: rest, events, retained)
      else
        let '(rest, events, retained) :=
          Expire_loop due reason now_ms entries (usub 64 retained (raw_size e)) in
        (tombstone (retention now_ms) e :: rest, MakeEvent kExpired (value e) reason :: events, retained)
  end.

Definition Expire (due : Entry -> bool) (reason : ExpiryReason) (now_ms : Z) (c : DiscoveryCache)
    : DiscoveryCache * list CandidateEvent :=
  let '(entries, events, retained) :=
    Expire_loop due reason now_ms (entries_ c) (retained_payload_bytes_ c) in
  (c <| entries_ := entries |> <| retained_payload_bytes_ := retained |>, events).

Definition Purge (now_ms : Z) (c : DiscoveryCache) : DiscoveryCache * list CandidateEvent :=
  let '(c, events) := Expire (fun e => negb (now_ms <? c_deadline_ms (value e))) kTtl now_ms c in
  (EraseExpiredTombstones now_ms c, events).

(** ** Methods *)

Section Methods.
Variable label_validator_ : option (bytes -> bool).

Definition IsCanonical (label : bytes) : bool :=
  match label_validator_ with Some f => f label | None => false end.

Definition Start (scopes : list InterfaceScope) (now_ms : Z) (c : DiscoveryCache)
    : DiscoveryCache * bool :=
  if negb (bool_decide (state_ c = kCreated)) || negb (bool_decide (is_Some label_validator_)) then
    (c, false)
  else
  let c := c <| now_ms_ := now_ms |>
             <| global_bucket_ := FullBucket kGlobalRate kGlobalBurst now_ms |> in
  (ReplaceScopes scopes now_ms c <| state_ := kRunning |>, true).

Definition Stop (c : DiscoveryCache) : DiscoveryCache :=
  c <| state_ := kStopped |> <| scopes_ := [] |> <| local_tokens_ := [] |>
    <| source_buckets_ := [] |> <| entries_ := [] |> <| retained_payload_bytes_ := 0 |>.

Definition SetLocalToken (scope : InterfaceScope) (token : bytes) (c : DiscoveryCache)
    : DiscoveryCache * bool :=
  if negb (bool_decide (state_ c = kRunning)) || IsZero token || negb (HasScope scope c) then (c, false)
  else
  match find_if (fun item => bool_decide (lt_scope item = scope)) (local_tokens_ c) with
  | Some index =>
      (c <| local_tokens_ := <[index := {| lt_scope := scope; lt_token := token |}]> (local_tokens_ c) |>,
       true)
  | None =>
      if Nat.eqb (length (local_tokens_ c)) kMaxScopes then (c, false)
      else (c <| local_tokens_ := local_tokens_ c ++ [{| lt_scope := scope; lt_token := token |}] |>, true)
  end.

Definition Receive (metadata : DatagramMetadata) (payload : bytes) (now_ms : Z) (c : DiscoveryCache)
    : DiscoveryCache * ReceiveResult :=
  if negb (bool_decide (state_ c = kRunning)) then (c, result ReceiveDisposition.kDroppedStopped [])
  else if now_ms <? now_ms_ c then (c, result ReceiveDisposition.kDroppedClockRegression [])
  else
  let c := EraseExpiredTombstones now_ms (c <| now_ms_ := now_ms |>) in
  if negb (md_observer_eligible metadata) || negb (HasScope (md_observer metadata) c) ||
     negb (IsValidSource metadata) || negb (IsDiscoveryDestination metadata) then
    (c, result ReceiveDisposition.kDroppedMetadata [])
  else
  let '(c, admitted) := Admit (md_observer metadata) (md_source metadata) now_ms c in
  if negb admitted then (c, result ReceiveDisposition.kDroppedRateLimit [])
  else if md_truncated metadata then (c, result ReceiveDisposition.kDroppedTruncated [])
  else
  match ParseAdvertisement IsCanonical payload with
  | inl e =>
      (c, {| r_disposition := ReceiveDisposition.kDroppedMalformed; r_parse_error := Some e;
             r_events := [] |})
  | inr advertisement =>
      if IsSelf (md_observer metadata) (ad_token advertisement) c then
        (c, result ReceiveDisposition.kDroppedSelf [])
      else
      let key := {| key_observer := md_observer metadata; key_source := md_source metadata;
                    key_token := ad_token advertisement |} in
      let iterator := FindEntry key c in
      match ad_type advertisement with
      | kWithdraw => Withdraw key advertisement iterator now_ms c
      | kAnnounce => Announce key advertisement iterator now_ms c
      end
  end.

Definition Advance (now_ms : Z) (c : DiscoveryCache) : DiscoveryCache * list CandidateEvent :=
  if negb (bool_decide (state_ c = kRunning)) || (now_ms <? now_ms_ c) then (c, [])
  else Purge now_ms (c <| now_ms_ := now_ms |>).

Definition ApplyInterfaceSnapshot (scopes : list InterfaceScope) (now_ms : Z) (c : DiscoveryCache)
    : DiscoveryCache * list CandidateEvent :=
  if negb (bool_decide (state_ c = kRunning)) || (now_ms <? now_ms_ c) then (c, [])
  else
  let c := EraseExpiredTombstones now_ms (c <| now_ms_ := now_ms |>) in
  let replacement := CanonicalScopes scopes in
  let '(c, events) := RemoveAbsentScopes replacement kInterfaceRemoved c in
  (InstallScopes replacement now_ms c, events).

Definition Wake (scopes : list InterfaceScope) (now_ms : Z) (c : DiscoveryCache)
    : DiscoveryCache * list CandidateEvent :=
  if negb (bool_decide (state_ c = kRunning)) || (now_ms <? now_ms_ c) then (c, [])
  else
  let c := EraseExpiredTombstones now_ms (c <| now_ms_ := now_ms |>) in
  let '(c, woken) := Expire (fun _ => true) kWake now_ms c in
  let replacement := CanonicalScopes scopes in
  let '(c, events) := RemoveAbsentScopes replacement kInterfaceRemoved c in
  (InstallScopes replacement now_ms (c <| local_tokens_ := [] |>), woken ++ events).

(** [std::sort] by key. *)
Fixpoint insert_candidate (x : Candidate) (l : list Candidate) : list Candidate :=
  match l with
  | [] => [x]
  | y :: l => if key_less (c_key y) (c_key x) then y :: insert_candidate x l else x :: y :: l
  end.

Definition Snapshot (c : DiscoveryCache) : list Candidate :=
  fold_right insert_candidate [] (List.map value (List.filter candidate (entries_ c))).

Definition NextDeadlineMs (c : DiscoveryCache) : option Z :=
  if negb (bool_decide (state_ c = kRunning)) then None
  else
  fold_left (fun deadline e =>
    if candidate e &&
       match deadline with None => true | Some d => c_deadline_ms (value e) <? d end
    then Some (c_deadline_ms (value e)) else deadline) (entries_ c) None.

Record CacheStats := {
  st_candidates : Z;
  st_tombstones : Z;
  st_source_buckets : Z;
  st_retained_payload_bytes : Z;
}.

Definition stats (c : DiscoveryCache) : CacheStats :=
  {| st_candidates := CandidateCount c;
     st_tombstones := usub 64 (Z.of_nat (length (entries_ c))) (CandidateCount c);
     st_source_buckets := Z.of_nat (length (source_buckets_ c));
     st_retained_payload_bytes := retained_payload_bytes_ c |}.

Definition running (c : DiscoveryCache) : bool := bool_decide (state_ c = kRunning).

End Methods.
End DiscoveryCache.
