(* ===== verification/DiscoveryCacheProofs.v ===== *)
(** * Correctness of the cache of discovered peers

    The limits of the cache hold whatever is received; the events it reports
    are exactly the changes of the set of visible peers; a datagram that is not
    newer than what was seen of its sender changes nothing. *)

From stdpp Require Import gmap sets.
From S2P Require Import Prelude.
From S2P Require Import V1Parser.
From S2P Require Import V1ParserProofs.
From S2P Require Import FieldBlocks.
From S2P Require Import DiscoveryWire.
From S2P Require Import DiscoveryWireProofs.
From S2P Require Import DiscoveryCache.
Import DiscoveryWire DiscoveryCache.

(** ** Keys *)

(** Two keys are equal when their scopes, the bytes of their addresses that count
    and their tokens are. *)
Definition KeyId : Type := (Z * Z) * (Z * list Z) * list Z.

Definition scope_id (s : InterfaceScope) : Z * Z := (generation s, family_code (scope_family s)).
Definition address_id (a : IpAddress) : Z * list Z := (family_code (ip_family a), encoded a).
Definition key_id (k : CandidateKey) : KeyId :=
  (scope_id (key_observer k), address_id (key_source k), key_token k).

#[global] Instance family_code_inj : Inj (=) (=) family_code.
Proof. by intros [] []. Qed.

#[global] Instance scope_id_inj : Inj (=) (=) scope_id.
Proof. intros [] [] [= -> ->%(inj family_code)]. done. Qed.

Lemma address_eqb_iff a b : address_eqb a b = true <-> address_id a = address_id b.
Proof.
  unfold address_eqb, address_id. rewrite andb_true_iff, bool_decide_eq_true, same_bytes_true. split.
  - by intros [-> ->].
  - by intros [= ->%(inj family_code) ->].
Qed.

Lemma key_eqb_iff a b : key_eqb a b = true <-> key_id a = key_id b.
Proof.
  unfold key_eqb, key_id. rewrite !andb_true_iff, bool_decide_eq_true, address_eqb_iff, same_bytes_true.
  split; [by intros [[-> ->] ->] |]. intros E. split; [split |].
  - apply (inj scope_id). exact (f_equal (fun i => i.1.1) E).
  - exact (f_equal (fun i => i.1.2) E).
  - exact (f_equal snd E).
Qed.

(** ** Sizes *)

Definition sum_raw (l : list Entry) : Z := fold_right (fun e n => raw_size e + n) 0 l.

Lemma sum_raw_nonneg l : 0 <= sum_raw l.
Proof. induction l as [| e l IH]; simpl; [lia |]. unfold raw_size. pose proof (bsize_nonneg (raw e)). lia. Qed.

Lemma sum_raw_app l k : sum_raw (l ++ k) = sum_raw l + sum_raw k.
Proof. induction l as [| e l IH]; simpl; lia. Qed.

Lemma sum_raw_insert l i x y : l !! i = Some x ->
  sum_raw (<[i := y]> l) = sum_raw l - raw_size x + raw_size y.
Proof.
  revert i. induction l as [| z l IH]; intros [| i]; simpl; try done.
  - intros [= ->]. lia.
  - intros H. change (<[S i := y]> (z :: l)) with (z :: <[i := y]> l). simpl. rewrite (IH i H). lia.
Qed.

Lemma sum_raw_elem l i x : l !! i = Some x -> raw_size x <= sum_raw l.
Proof.
  revert i. induction l as [| z l IH]; intros [| i]; simpl; try done.
  - intros [= ->]. pose proof (sum_raw_nonneg l). lia.
  - intros H%IH. unfold raw_size in *. pose proof (bsize_nonneg (raw z)). lia.
Qed.

(** ** Entries *)

Definition entry_id (e : Entry) : KeyId := key_id (c_key (value e)).
Definition observer (e : Entry) : InterfaceScope := key_observer (c_key (value e)).

(** A candidate has a port, a tombstone nothing but its sequence. *)
Definition entry_ok (e : Entry) : Prop :=
  if candidate e then c_service_port (value e) <> 0
  else raw e = [] /\ c_service_port (value e) = 0 /\ c_display_label (value e) = [] /\
       c_deadline_ms (value e) = 0.

Record entries_ok (l : list Entry) (retained : Z) : Prop := {
  eo_ids : NoDup (List.map entry_id l);
  eo_each : Forall entry_ok l;
  eo_total : Z.of_nat (length l) <= kMaxEntries;
  eo_scope scope : count_if (in_scope scope) l <= kMaxEntriesPerScope;
  eo_candidates : count_if candidate l <= kMaxCandidates;
  eo_candidates_scope scope : count_if (fun e => candidate e && in_scope scope e) l <= kMaxCandidatesPerScope;
  eo_sum : retained = sum_raw l;
  eo_retained : retained <= kMaximumRetainedPayloadBytes;
}.

(** Entries removed or turned into tombstones: [f] are the candidates that go. *)
Record expiring (f : Entry -> bool) (g : Entry -> option Entry) : Prop := {
  ex_gone e : f e = true -> candidate e = true /\
    forall e', g e = Some e' -> entry_id e' = entry_id e /\ observer e' = observer e /\
      candidate e' = false /\ entry_ok e';
  ex_kept e : f e = false -> (g e = None /\ candidate e = false) \/ g e = Some e;
}.

Lemma expiring_shape f g e e' : expiring f g -> entry_ok e -> g e = Some e' ->
  entry_ok e' /\ entry_id e' = entry_id e /\ observer e' = observer e /\
  (candidate e' = true -> candidate e = true /\ e' = e).
Proof.
  intros Hex He Hg. destruct (f e) eqn:E.
  - destruct (ex_gone f g Hex e E) as [_ H]. destruct (H e' Hg) as (H1 & H2 & H3 & H4).
    split; [done |]. split; [done |]. split; [done |]. congruence.
  - destruct (ex_kept f g Hex e E) as [[? _] | H]; [congruence |]. rewrite H in Hg. injection Hg as <-. done.
Qed.

Lemma expiring_sum f g l : expiring f g -> Forall entry_ok l ->
  sum_raw (omap g l) = sum_raw l - sum_raw (List.filter f l).
Proof.
  assert (Hz : forall e, entry_ok e -> candidate e = false -> raw_size e = 0).
  { intros e He Hc. unfold entry_ok in He. rewrite Hc in He. destruct He as [He _].
    unfold raw_size. by rewrite He. }
  intros Hex. induction 1 as [| e l He Hl IH]; [done |]. rewrite omap_step. simpl List.filter.
  change (sum_raw (e :: l)) with (raw_size e + sum_raw l). destruct (f e) eqn:E.
  - change (sum_raw (e :: List.filter f l)) with (raw_size e + sum_raw (List.filter f l)).
    destruct (ex_gone f g Hex e E) as [_ H]. destruct (g e) as [e' |] eqn:Eg; [| lia].
    destruct (H e' eq_refl) as (_ & _ & H3 & H4).
    change (sum_raw (e' :: omap g l)) with (raw_size e' + sum_raw (omap g l)). rewrite (Hz e') by done. lia.
  - destruct (ex_kept f g Hex e E) as [[-> Hc] | ->]; [rewrite (Hz e) by done; lia |].
    change (sum_raw (e :: omap g l)) with (raw_size e + sum_raw (omap g l)). lia.
Qed.

Lemma expiring_ids f g l : expiring f g -> Forall entry_ok l ->
  List.map entry_id (omap g l) `sublist_of` List.map entry_id l.
Proof.
  intros Hex. induction 1 as [| e l He Hl IH]; [done |]. rewrite omap_step.
  destruct (g e) as [e' |] eqn:Eg; [| by constructor].
  destruct (expiring_shape f g e e' Hex He Eg) as (_ & Hid & _). simpl. rewrite Hid. by constructor.
Qed.

Lemma expiring_ok f g l retained : expiring f g -> entries_ok l retained ->
  entries_ok (omap g l) (retained - sum_raw (List.filter f l)).
Proof.
  intros Hex H. pose proof (eo_each _ _ H) as He.
  assert (Hshape : forall e e', e ∈ l -> g e = Some e' -> entry_ok e' /\ entry_id e' = entry_id e /\
    observer e' = observer e /\ (candidate e' = true -> candidate e = true /\ e' = e)).
  { intros e e' Hin. apply (expiring_shape f g e e' Hex). rewrite List.Forall_forall in He.
    by apply He, list_elem_of_In. }
  assert (Hin : forall scope e e', e ∈ l -> g e = Some e' -> in_scope scope e' = true -> in_scope scope e = true).
  { intros scope e e' Hl Hg. destruct (Hshape e e' Hl Hg) as (_ & _ & Ho & _). unfold in_scope.
    fold (observer e) (observer e'). by rewrite Ho. }
  constructor.
  - apply (sublist_NoDup _ _ (eo_ids _ _ H)). by apply (expiring_ids f).
  - apply List.Forall_forall. intros e' He'%list_elem_of_In. apply list_elem_of_omap in He' as (e & Hl & Hg).
    by apply (Hshape e e').
  - rewrite <- count_if_all. transitivity (count_if (fun _ => true) l); [by apply count_if_omap |].
    rewrite count_if_all. apply H.
  - intros scope. transitivity (count_if (in_scope scope) l); [apply count_if_omap, Hin | apply H].
  - transitivity (count_if candidate l); [| apply H]. apply count_if_omap. intros e e' Hl Hg Hc. by apply (Hshape e e').
  - intros scope. transitivity (count_if (fun e => candidate e && in_scope scope e) l); [| apply H].
    apply count_if_omap. intros e e' Hl Hg [Hc Hs]%andb_true_iff.
    destruct (Hshape e e' Hl Hg) as (_ & _ & _ & Hc'). rewrite (proj1 (Hc' Hc)). by apply (Hin scope e e').
  - rewrite (expiring_sum f g) by done. by rewrite (eo_sum _ _ H).
  - pose proof (sum_raw_nonneg (List.filter f l)). pose proof (eo_retained _ _ H). lia.
Qed.

(** The loops of the source in this form. *)
Definition expire_one (f : Entry -> bool) (now_ms : Z) (e : Entry) : option Entry :=
  Some (if f e then tombstone (retention now_ms) e else e).

Definition keep_if (p : Entry -> bool) (e : Entry) : option Entry := if p e then Some e else None.

Definition expired_event (reason : ExpiryReason) (e : Entry) : CandidateEvent :=
  MakeEvent kExpired (value e) reason.

Lemma usub_retained r e rest : in_width 64 r -> raw_size e + sum_raw rest <= r ->
  usub 64 r (raw_size e) = r - raw_size e /\ in_width 64 (r - raw_size e).
Proof.
  intros Hr Hs. pose proof (sum_raw_nonneg rest). pose proof (bsize_nonneg (raw e)). unfold raw_size in *.
  assert (in_width 64 (r - bsize (raw e))) by widths. split; [by apply usub_small | done].
Qed.

Lemma Expire_loop_eq due reason now_ms l r :
  let f e := candidate e && due e in
  in_width 64 r -> sum_raw (List.filter f l) <= r ->
  Expire_loop due reason now_ms l r =
  (omap (expire_one f now_ms) l, List.map (expired_event reason) (List.filter f l),
   r - sum_raw (List.filter f l)).
Proof.
  intros f. revert r. induction l as [| e l IH]; intros r Hr Hs; [simpl; by rewrite Z.sub_0_r |].
  rewrite omap_step. unfold expire_one at 1. cbn [Expire_loop List.filter] in *.
  assert (Hf : f e = negb (negb (candidate e) || negb (due e))) by (unfold f; by destruct (candidate e), (due e)).
  rewrite Hf in *. destruct (negb (candidate e) || negb (due e)); cbn [negb] in *.
  - rewrite (IH r) by done. done.
  - change (sum_raw (e :: List.filter f l)) with (raw_size e + sum_raw (List.filter f l)) in *.
    destruct (usub_retained r e (List.filter f l) Hr Hs) as [-> Hw]. rewrite (IH _ Hw) by lia.
    cbn [List.map]. f_equal. lia.
Qed.

Lemma RemoveAbsentScopes_loop_eq present reason l r :
  let f e := candidate e && negb (present (observer e)) in
  in_width 64 r -> sum_raw (List.filter f l) <= r ->
  RemoveAbsentScopes_loop present reason l r =
  (omap (keep_if (fun e => present (observer e))) l, List.map (expired_event reason) (List.filter f l),
   r - sum_raw (List.filter f l)).
Proof.
  intros f. revert r. induction l as [| e l IH]; intros r Hr Hs; [simpl; by rewrite Z.sub_0_r |].
  rewrite omap_step. unfold keep_if at 1. cbn [RemoveAbsentScopes_loop List.filter] in *. fold (observer e).
  assert (Hf : f e = candidate e && negb (present (observer e))) by done. rewrite Hf in *.
  destruct (present (observer e)); cbn [negb] in *; rewrite ?andb_false_r, ?andb_true_r in *.
  - rewrite (IH r) by done. done.
  - destruct (candidate e); [| by apply IH].
    change (sum_raw (e :: List.filter f l)) with (raw_size e + sum_raw (List.filter f l)) in *.
    destruct (usub_retained r e (List.filter f l) Hr Hs) as [-> Hw]. rewrite (IH _ Hw) by lia.
    cbn [List.map]. f_equal. lia.
Qed.

Lemma filter_omap (p : Entry -> bool) l : List.filter p l = omap (keep_if p) l.
Proof.
  induction l as [| e l IH]; [done |]. rewrite omap_step. unfold keep_if at 1. simpl. rewrite IH. by destruct (p e).
Qed.

Lemma expire_one_expiring due now_ms :
  expiring (fun e => candidate e && due e) (expire_one (fun e => candidate e && due e) now_ms).
Proof.
  split; intros e Hf; unfold expire_one; rewrite Hf; [| by right].
  apply andb_true_iff in Hf as [Hc _]. split; [done |]. intros e' [= <-]. done.
Qed.

Lemma remove_expiring present :
  expiring (fun e => candidate e && negb (present (observer e))) (keep_if (fun e => present (observer e))).
Proof.
  split; intros e Hf; unfold keep_if.
  - apply andb_true_iff in Hf as [Hc Hp]. apply negb_true_iff in Hp. rewrite Hp. done.
  - destruct (present (observer e)); [by right |]. left. by rewrite andb_true_r in Hf.
Qed.

Lemma erase_expiring now_ms :
  expiring (fun _ => false) (keep_if (fun e => negb (negb (candidate e) && (now_ms >=? retain_until_ms e)))).
Proof.
  split; intros e Hf; [done |]. unfold keep_if. destruct (candidate e); [by right |]. simpl.
  destruct (_ >=? _); [by left | by right].
Qed.

Lemma filter_none {A} (l : list A) : List.filter (fun _ => false) l = [].
Proof. by induction l. Qed.

Lemma sum_filter f l : sum_raw (List.filter f l) <= sum_raw l.
Proof.
  induction l as [| e l IH]; simpl; [done |]. pose proof (bsize_nonneg (raw e)). unfold raw_size in *.
  destruct (f e); simpl; unfold raw_size; lia.
Qed.

Lemma entries_ok_width l r : entries_ok l r -> in_width 64 r.
Proof.
  intros H. pose proof (eo_retained _ _ H). rewrite (eo_sum _ _ H) in *. pose proof (sum_raw_nonneg l).
  unfold kMaximumRetainedPayloadBytes in *. widths.
Qed.

(** ** What is visible *)

Definition shown (e : Entry) : Z * bytes := (c_service_port (value e), c_display_label (value e)).

Abbreviation directory := (gmap KeyId (Z * list Z)).

(** The peers a client of the cache sees. *)
Fixpoint visible (l : list Entry) : directory :=
  match l with
  | [] => ∅
  | e :: l => if candidate e then <[entry_id e := shown e]> (visible l) else visible l
  end.

(** What a client that keeps the peers in a directory makes of an event; [None] if
    it contradicts the directory. *)
Definition apply_event (ev : CandidateEvent) (m : directory) : option directory :=
  let id := key_id (c_key (ev_candidate ev)) in
  let v := (c_service_port (ev_candidate ev), c_display_label (ev_candidate ev)) in
  match ev_kind ev with
  | kAppeared => if decide (m !! id = None) then Some (<[id := v]> m) else None
  | kUpdated => if decide (is_Some (m !! id)) then Some (<[id := v]> m) else None
  | kExpired => if decide (m !! id = Some v) then Some (delete id m) else None
  end.

Fixpoint replay (events : list CandidateEvent) (m : directory) : option directory :=
  match events with
  | [] => Some m
  | ev :: events => match apply_event ev m with Some m => replay events m | None => None end
  end.

Lemma replay_app evs1 evs2 m m1 m2 :
  replay evs1 m = Some m1 -> replay evs2 m1 = Some m2 -> replay (evs1 ++ evs2) m = Some m2.
Proof.
  revert m. induction evs1 as [| ev evs1 IH]; intros m; simpl; [by intros [= ->] |].
  destruct (apply_event ev m) as [m' |]; [apply IH | done].
Qed.

Lemma visible_notin l id : id ∉ List.map entry_id l -> visible l !! id = None.
Proof.
  induction l as [| e l IH]; [done |]. cbn [List.map visible]. intros [Hne Hn]%not_elem_of_cons.
  destruct (candidate e); [rewrite lookup_insert_ne by done |]; by apply IH.
Qed.

Lemma visible_lookup l id v : NoDup (List.map entry_id l) ->
  visible l !! id = Some v <-> exists e, e ∈ l /\ candidate e = true /\ entry_id e = id /\ shown e = v.
Proof.
  induction l as [| e l IH]; cbn [List.map visible]; intros Hn.
  - split; [done |]. by intros (e & ?%not_elem_of_nil & _).
  - apply list.NoDup_cons in Hn as [Hni Hn]. specialize (IH Hn).
    assert (Htail : id = entry_id e -> ~ exists e', e' ∈ l /\ candidate e' = true /\ entry_id e' = id /\ shown e' = v).
    { intros -> (e' & He' & _ & Hid & _). apply Hni. rewrite <- Hid. apply list_elem_of_In, in_map.
      by apply list_elem_of_In. }
    destruct (candidate e) eqn:Ec.
    + destruct (decide (entry_id e = id)) as [E | E].
      * subst id. rewrite lookup_insert_eq. split.
        -- intros [= <-]. exists e. by split; [left |].
        -- intros (e' & [-> | He']%list.elem_of_cons & ? & ? & ?); [congruence |].
           destruct (Htail eq_refl). by exists e'.
      * rewrite lookup_insert_ne by done. rewrite IH. split.
        -- intros (e' & ? & ?). exists e'. by split; [right |].
        -- intros (e' & [-> | He']%list.elem_of_cons & ? & ? & ?); [done |]. by exists e'.
    + rewrite IH. split.
      * intros (e' & ? & ?). exists e'. by split; [right |].
      * intros (e' & [-> | He']%list.elem_of_cons & ? & ? & ?); [congruence |]. by exists e'.
Qed.

(** Events about other keys leave a key alone. *)
Lemma apply_event_frame ev m m' id v : key_id (c_key (ev_candidate ev)) <> id ->
  apply_event ev m = Some m' -> apply_event ev (<[id := v]> m) = Some (<[id := v]> m').
Proof.
  intros Hne. unfold apply_event. rewrite lookup_insert_ne by done.
  destruct (ev_kind ev); (case_decide; [| done]); intros [= <-].
  - by rewrite insert_insert_ne.
  - by rewrite insert_insert_ne.
  - by rewrite delete_insert_ne.
Qed.

Lemma replay_frame evs m m' id v : Forall (fun ev => key_id (c_key (ev_candidate ev)) <> id) evs ->
  replay evs m = Some m' -> replay evs (<[id := v]> m) = Some (<[id := v]> m').
Proof.
  intros Hf. revert m. induction Hf as [| ev evs He Hf IH]; intros m; cbn [replay]; [by intros [= ->] |].
  destruct (apply_event ev m) as [m1 |] eqn:E; [| done]. rewrite (apply_event_frame _ _ _ _ v He E). apply IH.
Qed.

Lemma expired_events_other reason f l id : id ∉ List.map entry_id l ->
  Forall (fun ev => key_id (c_key (ev_candidate ev)) <> id)
    (List.map (expired_event reason) (List.filter f l)).
Proof.
  intros Hn. apply List.Forall_forall. intros ev (e & <- & [He _]%filter_In)%in_map_iff. cbn. intros E.
  apply Hn. rewrite <- E. by apply list_elem_of_In, (in_map entry_id).
Qed.

(** Removing candidates and telling of it. *)
Lemma expiring_replay f g reason l : expiring f g -> NoDup (List.map entry_id l) ->
  replay (List.map (expired_event reason) (List.filter f l)) (visible l) = Some (visible (omap g l)).
Proof.
  intros Hex. induction l as [| e l IH]; [done |]. cbn [List.map]. intros [Hni Hn]%list.NoDup_cons.
  specialize (IH Hn). rewrite omap_step. cbn [List.filter visible].
  pose proof (visible_notin l _ Hni) as Hv. destruct (f e) eqn:Ef.
  - destruct (ex_gone f g Hex e Ef) as [Hc Hg]. rewrite Hc. cbn [List.map replay].
    assert (Ea : apply_event (expired_event reason e) (<[entry_id e := shown e]> (visible l)) = Some (visible l)).
    { unfold apply_event. cbn [expired_event MakeEvent ev_kind ev_candidate].
      fold (entry_id e) (shown e). rewrite lookup_insert_eq, decide_True by done.
      by rewrite delete_insert_id. }
    rewrite Ea, IH. destruct (g e) as [e' |]; [| done]. destruct (Hg e' eq_refl) as (_ & _ & Hc' & _).
    cbn [visible]. by rewrite Hc'.
  - destruct (ex_kept f g Hex e Ef) as [[-> Hc] | ->]; [by rewrite Hc |]. cbn [visible].
    destruct (candidate e); [| done]. apply replay_frame; [by apply expired_events_other | done].
Qed.

(** One entry replaced or added. *)
Lemma id_elem l i e : l !! i = Some e -> entry_id e ∈ List.map entry_id l.
Proof. intros H. apply list_elem_of_In, in_map, list_elem_of_In. by apply (list_elem_of_lookup_2 _ i). Qed.

Lemma ids_insert l i e e' : l !! i = Some e -> entry_id e' = entry_id e ->
  List.map entry_id (<[i := e']> l) = List.map entry_id l.
Proof.
  revert i. induction l as [| x l IH]; intros [| i] H E; cbn in *; try done.
  - injection H as ->. by rewrite E.
  - f_equal. by apply IH.
Qed.

Lemma visible_insert l i e e' : NoDup (List.map entry_id l) -> l !! i = Some e -> entry_id e' = entry_id e ->
  visible (<[i := e']> l) =
  if candidate e' then <[entry_id e := shown e']> (visible l) else delete (entry_id e) (visible l).
Proof.
  revert i. induction l as [| x l IH]; intros [| i] Hn H E; try done; cbn [List.map] in Hn;
    apply list.NoDup_cons in Hn as [Hni Hn]; cbn in H.
  - injection H as ->. change (<[0%nat := e']> (e :: l)) with (e' :: l). cbn [visible]. rewrite E.
    pose proof (visible_notin l _ Hni) as Hv. destruct (candidate e'), (candidate e).
    + by rewrite insert_insert_eq.
    + done.
    + by rewrite delete_insert_id.
    + by rewrite delete_id.
  - change (<[S i := e']> (x :: l)) with (x :: <[i := e']> l). cbn [visible]. rewrite (IH i) by done.
    assert (Hne : entry_id x <> entry_id e).
    { intros Ex. apply Hni. rewrite Ex. by apply (id_elem l i). }
    destruct (candidate x); [| done]. destruct (candidate e'); [by rewrite insert_insert_ne |].
    by rewrite delete_insert_ne.
Qed.

Lemma visible_snoc l e : entry_id e ∉ List.map entry_id l ->
  visible (l ++ [e]) = if candidate e then <[entry_id e := shown e]> (visible l) else visible l.
Proof.
  induction l as [| x l IH]; cbn [app visible List.map]; [by destruct (candidate e) |].
  intros [Hne Hn]%not_elem_of_cons. rewrite (IH Hn). destruct (candidate x), (candidate e); try done.
  by rewrite insert_insert_ne.
Qed.

Lemma visible_at l i e : NoDup (List.map entry_id l) -> l !! i = Some e ->
  visible l !! entry_id e = if candidate e then Some (shown e) else None.
Proof.
  revert i. induction l as [| x l IH]; intros [| i] Hn H; try done; cbn [List.map] in Hn;
    apply list.NoDup_cons in Hn as [Hni Hn]; cbn in H; cbn [visible].
  - injection H as ->. destruct (candidate e); [by rewrite lookup_insert_eq | by apply visible_notin].
  - assert (Hne : entry_id x <> entry_id e) by (intros Ex; apply Hni; rewrite Ex; by apply (id_elem l i)).
    destruct (candidate x); [rewrite lookup_insert_ne by done |]; by apply (IH i).
Qed.

(** ** Scopes *)

Lemma scope_less_irrefl a : scope_less a a = false.
Proof. unfold scope_less. rewrite Z.eqb_refl. simpl. unfold family_less. apply Z.ltb_irrefl. Qed.

Lemma scope_less_trans a b c : scope_less a b = true -> scope_less b c = true -> scope_less a c = true.
Proof.
  unfold scope_less, family_less.
  destruct (Z.eqb_spec (generation a) (generation b)), (Z.eqb_spec (generation b) (generation c)),
    (Z.eqb_spec (generation a) (generation c)); simpl; rewrite ?Z.ltb_lt; lia.
Qed.

Lemma scope_less_total a b : scope_less a b = false -> scope_less b a = false -> a = b.
Proof.
  unfold scope_less, family_less. destruct (Z.eqb_spec (generation a) (generation b)) as [E | E].
  - rewrite (proj2 (Z.eqb_eq (generation b) _)) by done. simpl. rewrite !Z.ltb_ge. intros H1 H2.
    destruct a as [ga fa], b as [gb fb]. simpl in *. subst. f_equal. apply (inj family_code). lia.
  - rewrite (proj2 (Z.eqb_neq (generation b) _)) by done. simpl. rewrite !Z.ltb_ge. lia.
Qed.

Definition scope_lt (a b : InterfaceScope) : Prop := scope_less a b = true.
Abbreviation sorted_scopes := (StronglySorted scope_lt).

Lemma lower_bound_spec scope l : sorted_scopes l ->
  Forall (fun x => scope_lt x scope) (take (lower_bound scope l) l) /\
  Forall (fun x => scope_less x scope = false) (drop (lower_bound scope l) l).
Proof.
  induction 1 as [| x l Hs IH Hx]; simpl; [by split; constructor |]. destruct (scope_less x scope) eqn:E.
  - destruct IH as [H1 H2]. split; [by constructor | done].
  - split; [constructor |]. constructor; [done |]. apply List.Forall_forall. intros y Hy.
    rewrite List.Forall_forall in Hx. specialize (Hx y Hy). destruct (scope_less y scope) eqn:Ey; [| done].
    by rewrite (scope_less_trans _ _ _ Hx Ey) in E.
Qed.

Lemma binary_search_iff l scope : sorted_scopes l -> binary_search l scope = true <-> scope ∈ l.
Proof.
  intros Hs. destruct (lower_bound_spec scope l Hs) as [H1 H2]. unfold binary_search.
  assert (Hin : scope ∈ l <-> l !! lower_bound scope l = Some scope).
  { split; [| apply list_elem_of_lookup_2]. intros Hin. revert Hin. induction Hs as [| x l Hs IH Hx]; simpl.
    - by intros ?%not_elem_of_nil.
    - simpl in H1, H2. destruct (scope_less x scope) eqn:E.
      + intros [-> | Hin]%list.elem_of_cons; [by rewrite scope_less_irrefl in E |].
        apply list.Forall_cons in H1 as [_ H1]. by apply IH.
      + intros [-> | Hin]%list.elem_of_cons; [done |]. rewrite List.Forall_forall in Hx.
        apply list_elem_of_In, Hx in Hin. unfold scope_lt in Hin. congruence. }
  rewrite Hin. destruct (l !! lower_bound scope l) as [x |] eqn:E; [| done].
  rewrite negb_true_iff. split; [| by intros [= ->]; apply scope_less_irrefl].
  intros Hx. f_equal. apply scope_less_total; [| done].
  assert (x ∈ drop (lower_bound scope l) l) as Hd.
  { apply (list_elem_of_lookup_2 _ 0). by rewrite lookup_drop, Nat.add_0_r. }
  rewrite List.Forall_forall in H2. by apply H2, list_elem_of_In.
Qed.

Lemma sorted_take l n : sorted_scopes l -> sorted_scopes (take n l).
Proof.
  intros H. revert n. induction H as [| x l Hs IH Hx]; intros [| n]; simpl; try constructor; [apply IH |].
  by apply Forall_take.
Qed.

Lemma insert_sorted scope l : sorted_scopes l -> l !! lower_bound scope l <> Some scope ->
  sorted_scopes (insert_at (lower_bound scope l) scope l).
Proof.
  induction 1 as [| x l Hs IH Hx]; [intros _; simpl; repeat constructor |]. cbn [lower_bound].
  destruct (scope_less x scope) eqn:E.
  - intros Hne. change (insert_at (S (lower_bound scope l)) scope (x :: l))
      with (x :: insert_at (lower_bound scope l) scope l).
    constructor; [by apply IH |]. unfold insert_at. apply Forall_app. split; [by apply Forall_take |].
    constructor; [done | by apply Forall_drop].
  - cbn. intros Hne. unfold insert_at. simpl. constructor; [by constructor |].
    assert (Hlt : scope_lt scope x).
    { unfold scope_lt. destruct (scope_less scope x) eqn:E2; [done |]. destruct Hne. f_equal.
      by apply scope_less_total. }
    constructor; [done |]. eapply List.Forall_impl; [| exact Hx]. intros y Hy. by apply (scope_less_trans _ x).
Qed.

Lemma length_insert_at {A} n (x : A) l : length (insert_at n x l) = S (length l).
Proof. unfold insert_at. rewrite length_app. simpl. rewrite length_take, length_drop. lia. Qed.

Lemma CanonicalScopes_ok scopes :
  sorted_scopes (CanonicalScopes scopes) /\ (length (CanonicalScopes scopes) <= kMaxScopes)%nat.
Proof.
  unfold CanonicalScopes. enough (H : forall l, sorted_scopes l /\ (length l <= kMaxScopes)%nat ->
    sorted_scopes (fold_left CanonicalScopes_step scopes l) /\
    (length (fold_left CanonicalScopes_step scopes l) <= kMaxScopes)%nat).
  { apply H. split; [constructor | unfold kMaxScopes; simpl; lia]. }
  induction scopes as [| s scopes IH]; intros l Hl; [done |]. simpl. apply IH. destruct Hl as [Hs Hn].
  unfold CanonicalScopes_step. case_bool_decide as E; [done |]. destruct (Nat.ltb_spec (length l) kMaxScopes).
  - split; [by apply insert_sorted |]. rewrite length_insert_at. lia.
  - destruct (negb _); [| done]. split; [by apply sorted_take, insert_sorted |].
    rewrite length_take, length_insert_at. lia.
Qed.

(** ** The invariant *)

Definition scope_list (c : DiscoveryCache) : list InterfaceScope := List.map ss_scope (scopes_ c).
Definition source_id (b : SourceBucket) : (Z * Z) * (Z * list Z) :=
  (scope_id (sb_scope b), address_id (sb_source b)).
Definition bucket_in (scope : InterfaceScope) (b : SourceBucket) : bool := bool_decide (sb_scope b = scope).

Record buckets_ok (l : list SourceBucket) : Prop := {
  bo_ids : NoDup (List.map source_id l);
  bo_total : Z.of_nat (length l) <= kMaxSourceBuckets;
  bo_scope scope : count_if (bucket_in scope) l <= kMaxSourceBucketsPerScope;
}.

Definition token_ok (c : DiscoveryCache) (t : LocalToken) : Prop :=
  lt_scope t ∈ scope_list c /\ IsZero (lt_token t) = false.

Record cache_ok (validator : option (bytes -> bool)) (c : DiscoveryCache) : Prop := {
  ok_running : state_ c = kRunning -> is_Some validator;
  ok_idle : state_ c <> kRunning ->
    scopes_ c = [] /\ local_tokens_ c = [] /\ source_buckets_ c = [] /\ entries_ c = [];
  ok_scopes : sorted_scopes (scope_list c) /\ (length (scopes_ c) <= kMaxScopes)%nat;
  ok_tokens : NoDup (List.map lt_scope (local_tokens_ c)) /\ Forall (token_ok c) (local_tokens_ c);
  ok_buckets : buckets_ok (source_buckets_ c) /\
    Forall (fun b => sb_scope b ∈ scope_list c) (source_buckets_ c);
  ok_entries : entries_ok (entries_ c) (retained_payload_bytes_ c);
  ok_observers : Forall (fun e => observer e ∈ scope_list c) (entries_ c);
}.

(** Nothing but time and buckets changed. *)
Record same_peers (c c' : DiscoveryCache) : Prop := {
  sp_state : state_ c' = state_ c;
  sp_scopes : scope_list c' = scope_list c;
  sp_tokens : local_tokens_ c' = local_tokens_ c;
  sp_entries : entries_ c' = entries_ c;
  sp_retained : retained_payload_bytes_ c' = retained_payload_bytes_ c;
}.

Lemma same_peers_ok v c c' : same_peers c c' -> buckets_ok (source_buckets_ c') ->
  Forall (fun b => sb_scope b ∈ scope_list c) (source_buckets_ c') ->
  state_ c = kRunning -> cache_ok v c -> cache_ok v c'.
Proof.
  intros [H1 H2 H3 H4 H5] Hb Hbs Hr H. constructor.
  - rewrite H1. apply H.
  - congruence.
  - assert (El : length (scopes_ c') = length (scopes_ c)).
    { apply (f_equal length) in H2. unfold scope_list in H2. by rewrite !List.length_map in H2. }
    rewrite H2, El. apply H.
  - rewrite H3. destruct (ok_tokens _ _ H) as [Hn Ht]. split; [done |].
    eapply List.Forall_impl; [| exact Ht]. intros t. unfold token_ok. by rewrite H2.
  - rewrite H2. done.
  - rewrite H4, H5. apply H.
  - rewrite H4, H2. apply H.
Qed.

(** ** Admission *)

Lemma buckets_ok_filter (p : SourceBucket -> bool) l : buckets_ok l -> buckets_ok (List.filter p l).
Proof.
  assert (Hsub : List.filter p l `sublist_of` l).
  { induction l as [| x l IH]; simpl; [done |]. destruct (p x); by constructor. }
  assert (Hc : forall q, count_if q (List.filter p l) <= count_if q l).
  { intros q. clear. induction l as [| x l IH]; simpl; [done |]. rewrite count_if_cons.
    destruct (p x); rewrite ?count_if_cons; destruct (q x); lia. }
  intros H. constructor.
  - eapply sublist_NoDup; [apply H |]. clear -Hsub. induction Hsub; simpl; by constructor.
  - apply sublist_length in Hsub. pose proof (bo_total _ H). lia.
  - intros scope. etransitivity; [apply Hc | apply H].
Qed.

Lemma AdmitFrom_spec now_ms i j c : 
  let c' := (AdmitFrom now_ms i j c).1 in
  same_peers c c' /\ now_ms_ c' = now_ms_ c /\
  List.map source_id (source_buckets_ c') = List.map source_id (source_buckets_ c) /\
  List.map sb_scope (source_buckets_ c') = List.map sb_scope (source_buckets_ c).
Proof.
  unfold AdmitFrom. destruct (scopes_ c !! i) as [s |] eqn:Es; [| by repeat split].
  destruct (source_buckets_ c !! j) as [b |] eqn:Eb; [| by repeat split].
  destruct (_ || _); [by repeat split |]. cbn. split.
  - constructor; try done. unfold scope_list. cbn. by apply (map_insert_same _ _ _ s).
  - split; [done |]. by split; apply (map_insert_same _ _ _ b).
Qed.

Lemma count_bucket_in scope l : count_if (bucket_in scope) l =
  count_if (fun s => bool_decide (s = scope)) (List.map sb_scope l).
Proof. induction l as [| b l IH]; [done |]. cbn [List.map]. by rewrite !count_if_cons, IH. Qed.

Lemma buckets_ok_ids l l' : List.map source_id l' = List.map source_id l ->
  List.map sb_scope l' = List.map sb_scope l -> buckets_ok l -> buckets_ok l'.
Proof.
  intros E1 E2 H. assert (El : length l' = length l) by (rewrite <- (List.length_map sb_scope l'), E2; apply List.length_map).
  constructor; [rewrite E1 | rewrite El |]; try apply H. intros scope. rewrite count_bucket_in, E2, <- count_bucket_in. apply H.
Qed.

Lemma buckets_scopes_ids (P : InterfaceScope -> Prop) l l' : List.map sb_scope l' = List.map sb_scope l ->
  Forall (fun b => P (sb_scope b)) l -> Forall (fun b => P (sb_scope b)) l'.
Proof. intros E H. apply List.Forall_map. rewrite E. by apply List.Forall_map. Qed.

Lemma HasScope_iff scope c : HasScope scope c = true <-> scope ∈ scope_list c.
Proof.
  unfold HasScope, scope_list. rewrite existsb_exists, list_elem_of_In, in_map_iff.
  split; intros (s & H1 & H2); exists s; [apply bool_decide_eq_true in H2 | rewrite bool_decide_eq_true]; done.
Qed.

Lemma Admit_spec scope source now_ms v c : state_ c = kRunning -> cache_ok v c -> scope ∈ scope_list c ->
  let c' := (Admit scope source now_ms c).1 in
  cache_ok v c' /\ same_peers c c' /\ now_ms_ c' = now_ms_ c.
Proof.
  intros Hr H Hs. unfold Admit. cbv zeta. set (l := List.filter _ (source_buckets_ c)).
  set (c1 := c <| source_buckets_ := l |>). destruct (ok_buckets _ _ H) as [Hb Hbs].
  assert (Hl : buckets_ok l) by by apply buckets_ok_filter.
  assert (Hls : Forall (fun b => sb_scope b ∈ scope_list c) l).
  { apply List.Forall_forall. intros b [Hin _]%filter_In. rewrite List.Forall_forall in Hbs. by apply Hbs. }
  assert (H1 : forall c2, same_peers c c2 -> now_ms_ c2 = now_ms_ c -> buckets_ok (source_buckets_ c2) ->
    Forall (fun b => sb_scope b ∈ scope_list c) (source_buckets_ c2) ->
    cache_ok v c2 /\ same_peers c c2 /\ now_ms_ c2 = now_ms_ c).
  { intros c2 Hp Hn Hb2 Hbs2. split; [by apply (same_peers_ok v c) | done]. }
  assert (Hend : forall c2 i j, same_peers c c2 -> now_ms_ c2 = now_ms_ c -> buckets_ok (source_buckets_ c2) ->
    Forall (fun b => sb_scope b ∈ scope_list c) (source_buckets_ c2) ->
    let c' := (AdmitFrom now_ms i j c2).1 in
    cache_ok v c' /\ same_peers c c' /\ now_ms_ c' = now_ms_ c).
  { intros c2 i j [P1 P2 P3 P4 P5] Hn Hb2 Hbs2.
    destruct (AdmitFrom_spec now_ms i j c2) as ([Q1 Q2 Q3 Q4 Q5] & En & E1 & E2). apply H1.
    - constructor; congruence.
    - congruence.
    - by apply (buckets_ok_ids (source_buckets_ c2)).
    - by apply (buckets_scopes_ids (fun s => s ∈ scope_list c) (source_buckets_ c2)). }
  destruct (find_if _ (scopes_ c1)) as [i |]; [| by apply H1].
  destruct (find_if (same_source scope source) (source_buckets_ c1)) as [j |] eqn:Ej; [by apply Hend |].
  destruct (_ || _) eqn:Ecap; [by apply H1 |]. apply orb_false_iff in Ecap as [Ecap1 Ecap2].
  pose proof (find_if_None _ _ Ej) as Hnew. apply Hend; [done | done | |].
  - constructor; cbn.
    + rewrite List.map_app. apply list.NoDup_app. split; [apply Hl |]. split; [| apply NoDup_singleton].
      intros x Hx ->%list_elem_of_singleton. apply list_elem_of_In, in_map_iff in Hx as (b & E & Hin).
      apply list_elem_of_In in Hin. specialize (Hnew b Hin). unfold same_source in Hnew.
      unfold source_id in E. cbn in E. assert (sb_scope b = scope) as E1 by (apply (inj scope_id); exact (f_equal fst E)).
      assert (address_eqb (sb_source b) source = true) as E2 by (apply address_eqb_iff; exact (f_equal snd E)).
      rewrite E2, bool_decide_true in Hnew by done. done.
    + rewrite length_app. simpl. bool_facts. simpl in Ecap1. unfold kMaxSourceBuckets in *. lia.
    + intros s. rewrite count_if_app, count_if_cons. simpl. unfold bucket_in at 2. cbn.
      pose proof (bo_scope _ Hl s). case_bool_decide as E; [| unfold count_if at 2; simpl; lia]. subst s.
      bool_facts. unfold kMaxSourceBucketsPerScope in *. unfold count_if at 2. simpl. unfold bucket_in. 
      change (source_buckets_ c1) with l in Ecap2. lia.
  - cbn. apply Forall_app. split; [done | by apply list.Forall_singleton].
Qed.

(** ** Changes of the entries *)

Lemma entries_changed v c c' : state_ c' = state_ c -> scopes_ c' = scopes_ c ->
  local_tokens_ c' = local_tokens_ c -> source_buckets_ c' = source_buckets_ c -> state_ c = kRunning ->
  entries_ok (entries_ c') (retained_payload_bytes_ c') ->
  Forall (fun e => observer e ∈ scope_list c) (entries_ c') -> cache_ok v c -> cache_ok v c'.
Proof.
  intros H1 H2 H3 H4 Hr He Ho H. assert (Hs : scope_list c' = scope_list c) by (unfold scope_list; by rewrite H2).
  constructor.
  - rewrite H1. apply H.
  - congruence.
  - rewrite Hs, H2. apply H.
  - rewrite H3. destruct (ok_tokens _ _ H) as [Hn Ht]. split; [done |].
    eapply List.Forall_impl; [| exact Ht]. intros t. unfold token_ok. by rewrite Hs.
  - rewrite H4, Hs. apply H.
  - done.
  - by rewrite Hs.
Qed.

(** The key of a datagram and the entry found for it. *)
Lemma FindEntry_Some key c i : FindEntry key c = Some i ->
  exists e, entries_ c !! i = Some e /\ entry_id e = key_id key.
Proof. intros (e & He & Hk%key_eqb_iff)%find_if_Some. by exists e. Qed.

Lemma FindEntry_None key c : FindEntry key c = None -> key_id key ∉ List.map entry_id (entries_ c).
Proof.
  intros H Hin. apply list_elem_of_In, in_map_iff in Hin as (e & E & Hin). apply list_elem_of_In in Hin.
  apply (find_if_None _ _ H) in Hin. rewrite <- not_true_iff_false in Hin. by apply Hin, key_eqb_iff.
Qed.

Lemma in_scope_id e e' scope : entry_id e' = entry_id e -> in_scope scope e' = in_scope scope e.
Proof.
  intros E. apply (f_equal (fun i => i.1.1)) in E. cbn in E. apply (inj scope_id) in E.
  unfold in_scope. by rewrite E.
Qed.

Lemma entries_ok_snoc l r e : entries_ok l r -> entry_ok e -> entry_id e ∉ List.map entry_id l ->
  Z.of_nat (length l) < kMaxEntries -> count_if (in_scope (observer e)) l < kMaxEntriesPerScope ->
  (candidate e = true -> count_if candidate l < kMaxCandidates /\
     count_if (fun x => candidate x && in_scope (observer e) x) l < kMaxCandidatesPerScope) ->
  r + raw_size e <= kMaximumRetainedPayloadBytes -> entries_ok (l ++ [e]) (r + raw_size e).
Proof.
  intros H He Hn Hlen Hs Hc Hr. constructor.
  - rewrite List.map_app. apply list.NoDup_app. split; [apply H |]. split; [| apply NoDup_singleton].
    intros x Hx ->%list_elem_of_singleton. done.
  - apply Forall_app. split; [apply H | by apply list.Forall_singleton].
  - rewrite length_app. simpl. lia.
  - intros scope. rewrite count_if_app, count_if_cons. unfold count_if at 2. simpl.
    unfold in_scope at 2. fold (observer e). pose proof (eo_scope _ _ H scope).
    case_bool_decide as E; [subst scope; lia | lia].
  - rewrite count_if_app, count_if_cons. unfold count_if at 2. simpl. pose proof (eo_candidates _ _ H).
    destruct (candidate e); [destruct (Hc eq_refl); lia | lia].
  - intros scope. rewrite count_if_app, count_if_cons. unfold count_if at 2. simpl.
    pose proof (eo_candidates_scope _ _ H scope). unfold in_scope at 2. fold (observer e).
    destruct (candidate e); simpl; [| lia]. case_bool_decide as E; [subst scope; destruct (Hc eq_refl); lia | lia].
  - rewrite sum_raw_app, (eo_sum _ _ H). simpl. lia.
  - done.
Qed.

Lemma entries_ok_insert l r i e e' : entries_ok l r -> l !! i = Some e -> entry_id e' = entry_id e -> entry_ok e' ->
  (candidate e' = true -> candidate e = true \/ (count_if candidate l < kMaxCandidates /\
     count_if (fun x => candidate x && in_scope (observer e) x) l < kMaxCandidatesPerScope)) ->
  r - raw_size e + raw_size e' <= kMaximumRetainedPayloadBytes ->
  entries_ok (<[i := e']> l) (r - raw_size e + raw_size e').
Proof.
  intros H Hi Hid He Hc Hr. constructor.
  - rewrite (ids_insert _ _ e) by done. apply H.
  - apply Forall_insert; [apply H | done].
  - rewrite length_insert. apply H.
  - intros scope. rewrite (count_if_insert _ _ _ e) by done. rewrite (in_scope_id e e') by done.
    pose proof (eo_scope _ _ H scope). lia.
  - rewrite (count_if_insert _ _ _ e) by done. pose proof (eo_candidates _ _ H).
    destruct (candidate e'); [| destruct (candidate e); lia]. destruct (Hc eq_refl) as [-> | [? _]]; [lia |].
    destruct (candidate e); lia.
  - intros scope. rewrite (count_if_insert _ _ _ e) by done. rewrite (in_scope_id e e') by done.
    pose proof (eo_candidates_scope _ _ H scope) as Hb.
    destruct (candidate e') eqn:E1; [| destruct (candidate e); simpl; destruct (in_scope scope e); lia].
    destruct (Hc eq_refl) as [-> | [_ Hlt]]; [lia |]. simpl.
    destruct (in_scope scope e) eqn:Es; [| rewrite andb_false_r; lia].
    unfold in_scope in Es. apply bool_decide_eq_true in Es. fold (observer e) in Es. subst scope.
    destruct (candidate e); simpl; lia.
  - rewrite (sum_raw_insert _ _ e) by done. by rewrite (eo_sum _ _ H).
  - done.
Qed.

(** A change that keeps the invariant and whose events tell of it. *)
Definition well_reported (v : option (bytes -> bool)) (c c' : DiscoveryCache) (events : list CandidateEvent) : Prop :=
  cache_ok v c' /\ replay events (visible (entries_ c)) = Some (visible (entries_ c')).

Lemma well_reported_same v c : cache_ok v c -> well_reported v c c [].
Proof. by split. Qed.

Lemma observer_of e key : entry_id e = key_id key -> observer e = key_observer key.
Proof. intros E. apply (inj scope_id). exact (f_equal (fun i => i.1.1) E). Qed.

Lemma raw_bound r n : 0 <= r <= kMaximumRetainedPayloadBytes -> 0 <= n <= kMaxDatagramSize ->
  uadd 64 r n = r + n.
Proof.
  unfold kMaximumRetainedPayloadBytes, kMaxDatagramSize. intros. apply uadd_small. widths.
Qed.

Lemma retained_range v c : cache_ok v c -> 0 <= retained_payload_bytes_ c <= kMaximumRetainedPayloadBytes.
Proof.
  intros Hok. pose proof (ok_entries _ _ Hok) as He. pose proof (eo_retained _ _ He). rewrite (eo_sum _ _ He) in *.
  pose proof (sum_raw_nonneg (entries_ c)). lia.
Qed.

Section Announcements.
Context (v : option (bytes -> bool)) (c : DiscoveryCache) (key : CandidateKey) (a : Advertisement).
Hypothesis Hok : cache_ok v c.
Hypothesis Hrunning : state_ c = kRunning.
Hypothesis Hobserver : key_observer key ∈ scope_list c.
Hypothesis Hraw : bsize (ad_raw a) <= kMaxDatagramSize.
#[local] Set Default Proof Using "All".

Lemma capacity : CandidateCapacity (key_observer key) c = true ->
  count_if candidate (entries_ c) < kMaxCandidates /\
  count_if (fun x => candidate x && in_scope (key_observer key) x) (entries_ c) < kMaxCandidatesPerScope.
Proof. unfold CandidateCapacity, CandidateCount, CandidateCountIn. intros H. bool_facts. done. Qed.

Lemma entry_capacity : EntryCapacity (key_observer key) c = true ->
  Z.of_nat (length (entries_ c)) < kMaxEntries /\
  count_if (in_scope (key_observer key)) (entries_ c) < kMaxEntriesPerScope.
Proof. unfold EntryCapacity, EntryCount. intros H. bool_facts. done. Qed.

(** An entry added. *)
Lemma added c' e : state_ c' = state_ c -> scopes_ c' = scopes_ c ->
  local_tokens_ c' = local_tokens_ c -> source_buckets_ c' = source_buckets_ c ->
  entries_ c' = entries_ c ++ [e] -> retained_payload_bytes_ c' = retained_payload_bytes_ c + raw_size e ->
  c_key (value e) = key -> entry_ok e -> FindEntry key c = None -> EntryCapacity (key_observer key) c = true ->
  (candidate e = true -> CandidateCapacity (key_observer key) c = true) ->
  retained_payload_bytes_ c + raw_size e <= kMaximumRetainedPayloadBytes ->
  well_reported v c c' (if candidate e then [MakeEvent kAppeared (value e) kTtl] else []).
Proof.
  intros E1 E2 E3 E4 E5 E6 Ek He Hnew Hcap Hcand Hr. pose proof (FindEntry_None _ _ Hnew) as Hn.
  assert (Eid : entry_id e = key_id key) by (unfold entry_id; by rewrite Ek).
  assert (Eo : observer e = key_observer key) by (unfold observer; by rewrite Ek).
  rewrite <- Eid in Hn. destruct (entry_capacity Hcap) as [C1 C2]. split.
  - apply (entries_changed v c); try done.
    + rewrite E5, E6. apply entries_ok_snoc; try done; [apply Hok | by rewrite Eo |].
      intros Hc. rewrite Eo. by apply capacity, Hcand.
    + rewrite E5. apply Forall_app. split; [apply Hok |]. apply list.Forall_singleton. by rewrite Eo.
  - rewrite E5, visible_snoc by done. destruct (candidate e); [| done]. cbn [replay]. unfold apply_event.
    cbn [MakeEvent ev_kind ev_candidate]. fold (entry_id e) (shown e).
    rewrite decide_True by (by apply visible_notin). done.
Qed.

(** An entry replaced: the events of the three cases. *)
Lemma replaced c' i e e' events : state_ c' = state_ c -> scopes_ c' = scopes_ c ->
  local_tokens_ c' = local_tokens_ c -> source_buckets_ c' = source_buckets_ c ->
  entries_ c' = <[i := e']> (entries_ c) ->
  retained_payload_bytes_ c' = retained_payload_bytes_ c - raw_size e + raw_size e' ->
  entries_ c !! i = Some e -> entry_id e = key_id key -> entry_id e' = key_id key -> entry_ok e' ->
  (candidate e' = true -> candidate e = true \/ CandidateCapacity (key_observer key) c = true) ->
  retained_payload_bytes_ c - raw_size e + raw_size e' <= kMaximumRetainedPayloadBytes ->
  replay events (visible (entries_ c)) = Some
    (if candidate e' then <[entry_id e := shown e']> (visible (entries_ c))
     else delete (entry_id e) (visible (entries_ c))) ->
  well_reported v c c' events.
Proof.
  intros E1 E2 E3 E4 E5 E6 Hi Eid Eid' He Hcand Hr Hev. pose proof (ok_entries _ _ Hok) as Hent.
  pose proof (observer_of _ _ Eid) as Eo. pose proof (observer_of _ _ Eid') as Eo'. split.
  - apply (entries_changed v c); try done.
    + rewrite E5, E6. apply entries_ok_insert; try done; [congruence |].
      intros Hc. rewrite Eo. destruct (Hcand Hc) as [? | ?]; [by left | right; by apply capacity].
    + rewrite E5. apply Forall_insert; [apply Hok | by rewrite Eo'].
  - rewrite E5, (visible_insert _ _ e) by (apply Hent || congruence || done). done.
Qed.

End Announcements.

Lemma Announce_reported v c key a now_ms : cache_ok v c -> state_ c = kRunning ->
  key_observer key ∈ scope_list c -> bsize (ad_raw a) <= kMaxDatagramSize -> ad_service_port a <> 0 ->
  let x := Announce key a (FindEntry key c) now_ms c in
  well_reported v c x.1 (r_events x.2).
Proof.
  intros H Hr Ho Hraw Hport. pose proof (retained_range v c H) as Hret.
  pose proof (bsize_nonneg (ad_raw a)) as Hn. pose proof (well_reported_same v c H) as Hsame.
  unfold Announce. destruct (AddMilliseconds _ _) as [deadline |]; [| done].
  destruct (FindEntry key c) as [i |] eqn:Ef.
  - destruct (FindEntry_Some _ _ _ Ef) as (e & Hi & Eid). rewrite Hi.
    pose proof (sum_raw_elem _ _ _ Hi) as Hle. pose proof (ok_entries _ _ H) as Hent.
    rewrite <- (eo_sum _ _ Hent) in Hle. assert (He0 : 0 <= raw_size e) by apply bsize_nonneg.
    assert (Esub : usub 64 (retained_payload_bytes_ c) (raw_size e) = retained_payload_bytes_ c - raw_size e).
    { apply usub_small. unfold kMaximumRetainedPayloadBytes in *. widths. }
    assert (Eadd : uadd 64 (retained_payload_bytes_ c - raw_size e) (bsize (ad_raw a)) =
                   retained_payload_bytes_ c - raw_size e + bsize (ad_raw a)) by (apply raw_bound; lia).
    destruct (_ && (_ <=? _)); [done |]. destruct (_ <? _); [done |]. destruct (_ =? _); [done |].
    destruct (negb (candidate e) && _) eqn:Ecap; [done |]. cbv zeta. rewrite Esub.
    change (raw_size {| candidate := true; value := CandidateFrom key a deadline; raw := ad_raw a;
                        retain_until_ms := 0 |}) with (bsize (ad_raw a)). rewrite Eadd.
    destruct (_ >? kMaximumRetainedPayloadBytes) eqn:Emax; [done |]. bool_facts.
    set (e' := {| candidate := true; value := CandidateFrom key a deadline; raw := ad_raw a; retain_until_ms := 0 |}).
    assert (Hgo : forall events,
      replay events (visible (entries_ c)) = Some (<[entry_id e := shown e']> (visible (entries_ c))) ->
      well_reported v c
        (c <| retained_payload_bytes_ := retained_payload_bytes_ c - raw_size e + bsize (ad_raw a) |>
           <| entries_ := <[i := e']> (entries_ c) |>) events).
    { intros events Hev. refine (replaced v c key a H Hr Ho Hraw _ i e e' events _ _ _ _ _ _ Hi Eid _ _ _ _ Hev); try done.
      intros _. destruct (candidate e); [by left | right]. by destruct (CandidateCapacity _ _). }
    pose proof (visible_at _ _ _ (eo_ids _ _ Hent) Hi) as Hvis. destruct (candidate e) eqn:Ec; cbn [negb orb].
    + destruct (negb (_ =? _) || negb (same_bytes _ _)) eqn:Ech; cbn [fst snd result r_events]; apply Hgo.
      * cbn [replay]. unfold apply_event. cbn [MakeEvent ev_kind ev_candidate].
        change (key_id (c_key (CandidateFrom key a deadline))) with (key_id key). rewrite <- Eid, Hvis.
        by rewrite decide_True.
      * cbn [replay]. f_equal. symmetry. apply insert_id. rewrite Hvis. f_equal.
        apply orb_false_iff in Ech as [E1%negb_false_iff%Z.eqb_eq E2%negb_false_iff%same_bytes_true].
        unfold shown. cbn. by rewrite E1, E2.
    + apply Hgo. cbn [fst snd result r_events replay]. unfold apply_event. cbn [MakeEvent ev_kind ev_candidate].
      change (key_id (c_key (CandidateFrom key a deadline))) with (key_id key). rewrite <- Eid, Hvis.
      by rewrite decide_True.
  - destruct (_ || _) eqn:Ecap; [done |]. rewrite !orb_false_iff, !negb_false_iff in Ecap.
    destruct Ecap as [[C1 C2] C3]. rewrite raw_bound in C3 by lia. bool_facts. cbn [fst snd result r_events].
    set (e := {| candidate := true; value := CandidateFrom key a deadline; raw := ad_raw a; retain_until_ms := 0 |}).
    refine (added v c key a H Hr Ho Hraw _ e _ _ _ _ _ _ _ _ Ef C2 _ _); try done.
    cbn. apply raw_bound; unfold raw_size; cbn; lia.
Qed.

Lemma Withdraw_reported v c key a now_ms : cache_ok v c -> state_ c = kRunning ->
  key_observer key ∈ scope_list c -> bsize (ad_raw a) <= kMaxDatagramSize ->
  let x := Withdraw key a (FindEntry key c) now_ms c in
  well_reported v c x.1 (r_events x.2).
Proof.
  intros H Hr Ho Hraw. pose proof (retained_range v c H) as Hret. pose proof (well_reported_same v c H) as Hsame.
  unfold Withdraw. destruct (AddMilliseconds _ _) as [retain |]; [| done].
  destruct (FindEntry key c) as [i |] eqn:Ef.
  - destruct (FindEntry_Some _ _ _ Ef) as (e & Hi & Eid). rewrite Hi. destruct (_ <=? _); [done |].
    pose proof (sum_raw_elem _ _ _ Hi) as Hle. pose proof (ok_entries _ _ H) as Hent.
    rewrite <- (eo_sum _ _ Hent) in Hle. assert (He0 : 0 <= raw_size e) by apply bsize_nonneg.
    assert (Esub : usub 64 (retained_payload_bytes_ c) (raw_size e) = retained_payload_bytes_ c - raw_size e).
    { apply usub_small. unfold kMaximumRetainedPayloadBytes in *. widths. }
    pose proof (visible_at _ _ _ (eo_ids _ _ Hent) Hi) as Hvis. cbv zeta. set (e' := _ <| value := _ |>).
    assert (Hgo : forall events r, r = retained_payload_bytes_ c - raw_size e ->
      replay events (visible (entries_ c)) = Some (delete (entry_id e) (visible (entries_ c))) ->
      well_reported v c
        (c <| retained_payload_bytes_ := r |> <| entries_ := <[i := e']> (entries_ c) |>) events).
    { intros events r -> Hev.
      refine (replaced v c key a H Hr Ho Hraw _ i e e' events _ _ _ _ _ _ Hi Eid _ _ _ _ Hev);
        first [done | discriminate | change (raw_size e') with 0; cbn; lia]. }
    destruct (candidate e) eqn:Ec; cbn [fst snd result r_events]; apply Hgo.
    + done.
    + cbn [replay]. unfold apply_event. cbn [MakeEvent ev_kind ev_candidate]. fold (entry_id e) (shown e).
      by rewrite Hvis, decide_True.
    + assert (entry_ok e) as He by (by apply (Forall_lookup_1 _ _ _ _ (eo_each _ _ Hent) Hi)).
      unfold entry_ok in He. rewrite Ec in He. destruct He as [He _]. unfold raw_size. rewrite He. change (bsize []) with 0. lia.
    + cbn [replay]. by rewrite delete_id.
  - destruct (EntryCapacity _ _) eqn:C2; [| done]. cbn [fst snd result r_events].
    match goal with |- context [_ ++ [?e]] =>
      refine (added v c key a H Hr Ho Hraw _ e _ _ _ _ _ _ _ _ Ef C2 _ _); try done end.
    all: change (raw_size _) with 0; simpl retained_payload_bytes_; lia.
Qed.

(** ** Expiry *)

Lemma observers_omap f g l (P : InterfaceScope -> Prop) : expiring f g -> Forall entry_ok l ->
  Forall (fun e => P (observer e)) l -> Forall (fun e => P (observer e)) (omap g l).
Proof.
  intros Hex Hok Ho. apply List.Forall_forall. intros e' He'%list_elem_of_In.
  apply list_elem_of_omap in He' as (e & Hl%list_elem_of_In & Hg).
  rewrite List.Forall_forall in Hok, Ho. destruct (expiring_shape f g e e' Hex (Hok e Hl) Hg) as (_ & _ & Eo & _).
  rewrite Eo. by apply Ho.
Qed.

Lemma expiring_reported v c c' f g reason events : expiring f g -> cache_ok v c -> state_ c = kRunning ->
  state_ c' = state_ c -> scopes_ c' = scopes_ c -> local_tokens_ c' = local_tokens_ c ->
  source_buckets_ c' = source_buckets_ c -> entries_ c' = omap g (entries_ c) ->
  retained_payload_bytes_ c' = retained_payload_bytes_ c - sum_raw (List.filter f (entries_ c)) ->
  events = List.map (expired_event reason) (List.filter f (entries_ c)) -> well_reported v c c' events.
Proof.
  intros Hex H Hr E1 E2 E3 E4 E5 E6 ->. pose proof (ok_entries _ _ H) as Hent. split.
  - apply (entries_changed v c); try done.
    + rewrite E5, E6. by apply expiring_ok.
    + rewrite E5. apply (observers_omap f g _ (fun s => s ∈ scope_list c)); [done | apply Hent | apply H].
  - rewrite E5. apply expiring_replay; [done | apply Hent].
Qed.

Lemma well_reported_trans v c1 c2 c3 evs1 evs2 :
  well_reported v c1 c2 evs1 -> well_reported v c2 c3 evs2 -> well_reported v c1 c3 (evs1 ++ evs2).
Proof. intros [_ H1] [H2 H3]. split; [done | by apply (replay_app _ _ _ _ _ H1)]. Qed.

Lemma erase_reported v now_ms c : cache_ok v c -> state_ c = kRunning ->
  well_reported v c (EraseExpiredTombstones now_ms c) [].
Proof.
  intros H Hr. refine (expiring_reported v c _ _ _ kTtl _ (erase_expiring now_ms) H Hr _ _ _ _ _ _ _); try done.
  - unfold EraseExpiredTombstones. cbn. apply filter_omap.
  - rewrite filter_none. cbn. lia.
  - by rewrite filter_none.
Qed.

Lemma now_reported v t c : cache_ok v c -> well_reported v c (c <| now_ms_ := t |>) [].
Proof. intros H. split; [by destruct H | done]. Qed.

Lemma Expire_reported v due reason now_ms c : cache_ok v c -> state_ c = kRunning ->
  let x := Expire due reason now_ms c in well_reported v c x.1 x.2 /\ state_ x.1 = kRunning.
Proof.
  intros H Hr. pose proof (ok_entries _ _ H) as Hent. unfold Expire.
  rewrite Expire_loop_eq; [| by apply (entries_ok_width (entries_ c)) | rewrite (eo_sum _ _ Hent); apply sum_filter].
  cbn [fst snd]. split; [| done].
  by refine (expiring_reported v c _ _ _ reason _ (expire_one_expiring due now_ms) H Hr _ _ _ _ _ _ _).
Qed.

(** ** Scopes replaced *)

(** The invariant while the entries already belong to the new scopes and the
    scopes are still the old ones. *)
Lemma installed v c replacement now_ms : state_ c = kRunning -> is_Some v ->
  sorted_scopes replacement -> (length replacement <= kMaxScopes)%nat ->
  NoDup (List.map lt_scope (local_tokens_ c)) ->
  Forall (fun t => lt_scope t ∈ replacement /\ IsZero (lt_token t) = false) (local_tokens_ c) ->
  buckets_ok (source_buckets_ c) -> Forall (fun b => sb_scope b ∈ replacement) (source_buckets_ c) ->
  entries_ok (entries_ c) (retained_payload_bytes_ c) -> Forall (fun e => observer e ∈ replacement) (entries_ c) ->
  cache_ok v (InstallScopes replacement now_ms c).
Proof.
  intros Hr Hv Hs Hn Ht1 Ht2 Hb1 Hb2 He Ho.
  assert (Es : scope_list (InstallScopes replacement now_ms c) = replacement).
  { unfold scope_list, InstallScopes. cbn. rewrite List.map_map. rewrite <- (List.map_id replacement) at 2.
    apply map_ext. intros s. destruct (List.find _ _) as [x |] eqn:E; [| done].
    apply find_some in E as [_ E]. by apply bool_decide_eq_true in E. }
  constructor; rewrite ?Es; try done.
  - unfold InstallScopes. cbn. rewrite List.length_map. done.
  - split; [done |]. eapply List.Forall_impl; [| exact Ht2]. intros t. unfold token_ok. by rewrite Es.
Qed.

Lemma snapshot_reported v c scopes now_ms (tokens : list LocalToken -> list LocalToken) :
  (tokens = (fun l => l) \/ tokens = (fun _ => [])) -> cache_ok v c -> state_ c = kRunning ->
  let replacement := CanonicalScopes scopes in
  let x := RemoveAbsentScopes replacement kInterfaceRemoved c in
  well_reported v c
    (InstallScopes replacement now_ms (x.1 <| local_tokens_ := tokens (local_tokens_ x.1) |>)) x.2.
Proof.
  intros Htok H Hr replacement. destruct (CanonicalScopes_ok scopes) as [Hs Hn]. fold replacement in Hs, Hn.
  pose proof (ok_entries _ _ H) as Hent. unfold RemoveAbsentScopes.
  rewrite (RemoveAbsentScopes_loop_eq (binary_search replacement) kInterfaceRemoved (entries_ c));
    [| by apply (entries_ok_width (entries_ c)) | rewrite (eo_sum _ _ Hent); apply sum_filter].
  cbn [fst snd]. pose proof (remove_expiring (binary_search replacement)) as Hex. split.
  - destruct (ok_tokens _ _ H) as [T1 T2]. destruct (ok_buckets _ _ H) as [B1 B2].
    apply installed; cbn; try done; [by apply H | | | | | |].
    + destruct Htok as [-> | ->]; [by apply filter_nodup_map | constructor].
    + destruct Htok as [-> | ->]; [| by constructor]. apply List.Forall_forall. intros t [Hin Hp]%filter_In.
      rewrite List.Forall_forall in T2. apply binary_search_iff in Hp; [| done]. split; [done | by apply T2].
    + by apply buckets_ok_filter.
    + apply List.Forall_forall. intros b [Hin Hp]%filter_In. by apply binary_search_iff in Hp.
    + by apply expiring_ok.
    + apply List.Forall_forall. intros e He%list_elem_of_In. apply list_elem_of_omap in He as (e0 & _ & Hg).
      unfold keep_if in Hg. destruct (binary_search replacement (observer e0)) eqn:Ep; [| done]. injection Hg as <-.
      by apply binary_search_iff in Ep.
  - cbn. apply expiring_replay; [done | apply Hent].
Qed.

(** ** Calls *)

Inductive cache_op :=
  | OpStart (scopes : list InterfaceScope) (now_ms : Z)
  | OpStop
  | OpSetLocalToken (scope : InterfaceScope) (token : bytes)
  | OpReceive (metadata : DatagramMetadata) (payload : bytes) (now_ms : Z)
  | OpAdvance (now_ms : Z)
  | OpSnapshot (scopes : list InterfaceScope) (now_ms : Z)
  | OpWake (scopes : list InterfaceScope) (now_ms : Z).

Definition cache_step (v : option (bytes -> bool)) (op : cache_op) (c : DiscoveryCache)
    : DiscoveryCache * list CandidateEvent :=
  match op with
  | OpStart scopes now_ms => ((Start v scopes now_ms c).1, [])
  | OpStop => (Stop c, [])
  | OpSetLocalToken scope token => ((SetLocalToken scope token c).1, [])
  | OpReceive metadata payload now_ms =>
      let '(c, r) := Receive v metadata payload now_ms c in (c, r_events r)
  | OpAdvance now_ms => Advance now_ms c
  | OpSnapshot scopes now_ms => ApplyInterfaceSnapshot scopes now_ms c
  | OpWake scopes now_ms => Wake scopes now_ms c
  end.

Fixpoint cache_run (v : option (bytes -> bool)) (ops : list cache_op) (c : DiscoveryCache)
    : DiscoveryCache * list CandidateEvent :=
  match ops with
  | [] => (c, [])
  | op :: ops =>
      let '(c, events) := cache_step v op c in
      let '(c, rest) := cache_run v ops c in (c, events ++ rest)
  end.

(** A received payload consists of bytes. *)
Definition op_typed (op : cache_op) : Prop :=
  match op with OpReceive _ payload _ => all_bytes payload | _ => True end.

Lemma same_peers_reported v c c' : cache_ok v c' -> same_peers c c' -> well_reported v c c' [].
Proof. intros H [_ _ _ E _]. split; [done |]. by rewrite E. Qed.

Lemma Announce_state key a it now_ms c : state_ (Announce key a it now_ms c).1 = state_ c.
Proof.
  unfold Announce. destruct (AddMilliseconds _ _); [| done]. destruct it as [i |]; [| by destruct (_ || _)].
  destruct (entries_ c !! i); [| done]. destruct (_ && (_ <=? _)); [done |]. destruct (_ <? _); [done |].
  destruct (_ =? _); [done |]. destruct (_ && negb (CandidateCapacity _ _)); [done |]. cbv zeta.
  destruct (_ >? _); [done |]. destruct (negb (candidate _)); [done |]. by destruct (_ || _).
Qed.

Lemma Withdraw_state key a it now_ms c : state_ (Withdraw key a it now_ms c).1 = state_ c.
Proof.
  unfold Withdraw. destruct (AddMilliseconds _ _); [| done]. destruct it as [i |]; [| by destruct (negb _)].
  destruct (entries_ c !! i) as [e |]; [| done]. destruct (_ <=? _); [done |]. by destruct (candidate e).
Qed.

(** The beginning of [Receive]. *)
Lemma erased_reported v now_ms c : cache_ok v c -> state_ c = kRunning ->
  well_reported v c (EraseExpiredTombstones now_ms (c <| now_ms_ := now_ms |>)) [].
Proof.
  intros H Hr. pose proof (now_reported v now_ms c H) as Hnow.
  exact (well_reported_trans _ _ _ _ _ _ Hnow (erase_reported v now_ms _ (proj1 Hnow) Hr)).
Qed.

Lemma parsed_bounds f payload a : all_bytes payload -> ParseAdvertisement f payload = inr a ->
  bsize (ad_raw a) <= kMaxDatagramSize /\ (ad_type a = kAnnounce -> ad_service_port a <> 0).
Proof.
  intros Hb Hp. destruct (ParseAdvertisement_sound f payload a Hb Hp) as (tlvs & Ha & E & _ & Er).
  split; [| intros Ht; by apply (adv_announce _ _ _ _ _ _ _ Ha)]. rewrite Er, E.
  rewrite bsize_datagram by apply Ha. apply Ha.
Qed.

Lemma Receive_reported v metadata payload now_ms c : cache_ok v c -> all_bytes payload ->
  let x := Receive v metadata payload now_ms c in
  well_reported v c x.1 (r_events x.2) /\ state_ x.1 = state_ c.
Proof.
  intros H Hb. unfold Receive. case_bool_decide as Hr; cbn [negb]; [| split; [by apply well_reported_same | done]].
  destruct (now_ms <? now_ms_ c); [split; [by apply well_reported_same | done] |].
  pose proof (erased_reported v now_ms c H Hr) as H1.
  assert (Hr1 : state_ (EraseExpiredTombstones now_ms (c <| now_ms_ := now_ms |>)) = kRunning) by done.
  set (c1 := EraseExpiredTombstones now_ms _) in *. clearbody c1. cbv zeta. rewrite Hr.
  destruct (_ || _) eqn:Emeta; [by split |]. rewrite !orb_false_iff, !negb_false_iff in Emeta.
  destruct Emeta as [[[_ Hs%HasScope_iff] _] _].
  destruct (Admit_spec (md_observer metadata) (md_source metadata) now_ms v c1 Hr1 (proj1 H1) Hs) as (Hok2 & Hp2 & _).
  pose proof (well_reported_trans _ _ _ _ _ _ H1 (same_peers_reported v c1 _ Hok2 Hp2)) as H2. cbn [app] in H2.
  destruct (Admit _ _ _ c1) as [c2 admitted]. cbn [fst] in *.
  assert (Hr2 : state_ c2 = kRunning) by (rewrite (sp_state _ _ Hp2); done).
  destruct admitted; cbn [negb]; [| by split]. destruct (md_truncated metadata); [by split |].
  destruct (ParseAdvertisement _ payload) as [e | a] eqn:Ep; [by split |].
  destruct (parsed_bounds _ _ _ Hb Ep) as [Hraw Hport].
  destruct (IsSelf _ _ _); [by split |].
  set (key := {| key_observer := md_observer metadata; key_source := md_source metadata; key_token := ad_token a |}).
  assert (Ho : key_observer key ∈ scope_list c2) by (rewrite (sp_scopes _ _ Hp2); done).
  destruct (ad_type a) eqn:Et.
  - split; [| by rewrite Announce_state]. refine (well_reported_trans _ _ _ _ _ _ H2 _).
    apply Announce_reported; try done. by apply Hport.
  - split; [| by rewrite Withdraw_state]. refine (well_reported_trans _ _ _ _ _ _ H2 _).
    by apply Withdraw_reported.
Qed.

Lemma Advance_reported v now_ms c : cache_ok v c ->
  let x := Advance now_ms c in well_reported v c x.1 x.2 /\ state_ x.1 = state_ c.
Proof.
  intros H. unfold Advance. destruct (_ || _) eqn:E; [split; [by apply well_reported_same | done] |].
  apply orb_false_iff in E as [E _]. apply negb_false_iff, bool_decide_eq_true in E.
  pose proof (now_reported v now_ms c H) as H0. unfold Purge.
  destruct (Expire_reported v (fun e => negb (now_ms <? c_deadline_ms (value e))) kTtl now_ms
    (c <| now_ms_ := now_ms |>) (proj1 H0) E) as [H1 Hr1].
  destruct (Expire _ kTtl now_ms _) as [c1 events]. cbn [fst snd] in *.
  pose proof (erase_reported v now_ms c1 (proj1 H1) Hr1) as H2. split; [| rewrite E; exact Hr1].
  pose proof (well_reported_trans _ _ _ _ _ _ H0 (well_reported_trans _ _ _ _ _ _ H1 H2)) as H3.
  cbn [app] in H3. by rewrite app_nil_r in H3.
Qed.

Lemma ApplyInterfaceSnapshot_reported v scopes now_ms c : cache_ok v c ->
  let x := ApplyInterfaceSnapshot scopes now_ms c in well_reported v c x.1 x.2 /\ state_ x.1 = state_ c.
Proof.
  intros H. unfold ApplyInterfaceSnapshot. destruct (_ || _) eqn:E; [split; [by apply well_reported_same | done] |].
  apply orb_false_iff in E as [E _]. apply negb_false_iff, bool_decide_eq_true in E.
  pose proof (erased_reported v now_ms c H E) as H1.
  assert (Hr1 : state_ (EraseExpiredTombstones now_ms (c <| now_ms_ := now_ms |>)) = kRunning) by done.
  set (c1 := EraseExpiredTombstones now_ms _) in *. clearbody c1.
  pose proof (snapshot_reported v c1 scopes now_ms (fun l => l) (or_introl eq_refl) (proj1 H1) Hr1) as H2.
  assert (Hst : state_ (RemoveAbsentScopes (CanonicalScopes scopes) kInterfaceRemoved c1).1 = state_ c1).
  { unfold RemoveAbsentScopes. by destruct (RemoveAbsentScopes_loop _ _ _ _) as [[? ?] ?]. }
  cbv zeta in *. destruct (RemoveAbsentScopes _ _ c1) as [c2 events]. cbn [fst snd] in *.
  split; [| unfold InstallScopes; cbn; congruence].
  assert (Ee : c2 <| local_tokens_ := local_tokens_ c2 |> = c2) by by destruct c2.
  rewrite Ee in H2. exact (well_reported_trans _ _ _ _ _ _ H1 H2).
Qed.

Lemma Wake_reported v scopes now_ms c : cache_ok v c ->
  let x := Wake scopes now_ms c in well_reported v c x.1 x.2 /\ state_ x.1 = state_ c.
Proof.
  intros H. unfold Wake. destruct (_ || _) eqn:E; [split; [by apply well_reported_same | done] |].
  apply orb_false_iff in E as [E _]. apply negb_false_iff, bool_decide_eq_true in E.
  pose proof (erased_reported v now_ms c H E) as H1.
  assert (Hr1 : state_ (EraseExpiredTombstones now_ms (c <| now_ms_ := now_ms |>)) = kRunning) by done.
  set (c1 := EraseExpiredTombstones now_ms _) in *. clearbody c1.
  destruct (Expire_reported v (fun _ => true) kWake now_ms c1 (proj1 H1) Hr1) as [H2 Hr2].
  cbv zeta. destruct (Expire (fun _ => true) kWake now_ms c1) as [c2 woken]. cbn [fst snd] in *.
  pose proof (snapshot_reported v c2 scopes now_ms (fun _ => []) (or_intror eq_refl) (proj1 H2) Hr2) as H3.
  assert (Hst : state_ (RemoveAbsentScopes (CanonicalScopes scopes) kInterfaceRemoved c2).1 = state_ c2).
  { unfold RemoveAbsentScopes. by destruct (RemoveAbsentScopes_loop _ _ _ _) as [[? ?] ?]. }
  cbv zeta in *. destruct (RemoveAbsentScopes _ _ c2) as [c3 events]. cbn [fst snd] in *.
  split; [| unfold InstallScopes; cbn; congruence].
  exact (well_reported_trans _ _ _ _ _ _ H1 (well_reported_trans _ _ _ _ _ _ H2 H3)).
Qed.

Lemma buckets_ok_nil : buckets_ok [].
Proof. constructor; [constructor | |]; unfold count_if; cbn; done. Qed.

Lemma cache_ok_empty v c : state_ c <> kRunning -> scopes_ c = [] -> local_tokens_ c = [] ->
  source_buckets_ c = [] -> entries_ c = [] -> retained_payload_bytes_ c = 0 -> cache_ok v c.
Proof.
  intros Hs E1 E2 E3 E4 E5.
  constructor; unfold scope_list; rewrite ?E1, ?E2, ?E3, ?E4, ?E5; try done.
  - split; [constructor | cbn; unfold kMaxScopes; lia].
  - split; constructor.
  - split; [apply buckets_ok_nil | by constructor].
  - constructor; unfold count_if; cbn; try done; constructor.
Qed.

Lemma Start_ok v scopes now_ms c : cache_ok v c -> cache_ok v (Start v scopes now_ms c).1.
Proof.
  intros H. unfold Start. destruct (_ || _) eqn:E; [done |]. rewrite orb_false_iff, !negb_false_iff, !bool_decide_eq_true in E.
  destruct E as [Ec Hv]. destruct (ok_idle _ _ H) as (E1 & E2 & E3 & E4); [congruence |].
  destruct (CanonicalScopes_ok scopes) as [Hs Hn]. cbn [fst]. pose proof (ok_entries _ _ H) as He.
  set (c0 := c <| now_ms_ := now_ms |> <| global_bucket_ := FullBucket kGlobalRate kGlobalBurst now_ms |>
               <| state_ := kRunning |>).
  change (cache_ok v (InstallScopes (CanonicalScopes scopes) now_ms c0)).
  apply installed; cbn; rewrite ?E2, ?E3, ?E4 in *; try done; try apply buckets_ok_nil; by constructor.
Qed.

Lemma Start_entries v scopes now_ms c : entries_ (Start v scopes now_ms c).1 = entries_ c.
Proof. unfold Start. by destruct (_ || _). Qed.

Lemma SetLocalToken_ok v scope token c : cache_ok v c ->
  cache_ok v (SetLocalToken scope token c).1 /\
  entries_ (SetLocalToken scope token c).1 = entries_ c /\ state_ (SetLocalToken scope token c).1 = state_ c.
Proof.
  intros H. unfold SetLocalToken. destruct (_ || _) eqn:E; [done |].
  rewrite !orb_false_iff, !negb_false_iff, bool_decide_eq_true in E. destruct E as [[Er Ez] Hs%HasScope_iff].
  destruct (ok_tokens _ _ H) as [T1 T2].
  assert (Hgo : forall l, NoDup (List.map lt_scope l) -> Forall (token_ok c) l ->
    cache_ok v (c <| local_tokens_ := l |>)).
  { intros l H1 H2. destruct H as [A1 A2 A3 A4 A5 A6 A7]. constructor; (done || (cbn; congruence)). }
  assert (Ht : token_ok c {| lt_scope := scope; lt_token := token |}) by done.
  destruct (find_if _ _) as [i |] eqn:Ef.
  - split; [| done]. destruct (find_if_Some _ _ _ Ef) as (t & Hi & Et). apply bool_decide_eq_true in Et.
    apply Hgo; [by rewrite (map_insert_same _ _ _ t) | by apply Forall_insert].
  - destruct (Nat.eqb _ _); [done |]. split; [| done]. pose proof (find_if_None _ _ Ef) as Hn. apply Hgo.
    + rewrite List.map_app. apply list.NoDup_app. split; [done |]. split; [| apply NoDup_singleton].
      intros x Hx ->%list_elem_of_singleton. apply list_elem_of_In, in_map_iff in Hx as (t & Et & Hin).
      apply list_elem_of_In, Hn in Hin. by rewrite bool_decide_true in Hin.
    + apply Forall_app. split; [done | by apply list.Forall_singleton].
Qed.

(** One call: the invariant is kept, and until the cache is stopped the events
    are those of the change. *)
(** A client of the cache: it applies the events of every call to its directory,
    and empties the directory when it stops the cache; [None] when an event does
    not fit the directory. *)
Definition client_step (op : cache_op) (events : list CandidateEvent) (m : directory)
    : option directory :=
  match replay events m, op with
  | Some _, OpStop => Some ∅
  | result, _ => result
  end.

Fixpoint follow (v : option (bytes -> bool)) (ops : list cache_op) (c : DiscoveryCache)
    (m : directory) : option directory :=
  match ops with
  | [] => Some m
  | op :: ops =>
      match client_step op (cache_step v op c).2 m with
      | Some m => follow v ops (cache_step v op c).1 m
      | None => None
      end
  end.

Lemma cache_step_reported v op c : op_typed op -> cache_ok v c ->
  let x := cache_step v op c in
  cache_ok v x.1 /\ client_step op x.2 (visible (entries_ c)) = Some (visible (entries_ x.1)).
Proof.
  intros Ht H. assert (Hkeep : forall x : DiscoveryCache * list CandidateEvent, op <> OpStop ->
    well_reported v c x.1 x.2 ->
    cache_ok v x.1 /\ client_step op x.2 (visible (entries_ c)) = Some (visible (entries_ x.1))).
  { intros x Hop [Hok Hx]. split; [done |]. unfold client_step. rewrite Hx. by destruct op. }
  destruct op as [scopes t | | scope token | md payload t | t | scopes t | scopes t]; cbn [cache_step].
  - apply Hkeep; [done |]. split; [exact (Start_ok v scopes t c H) |]. cbn [fst snd]. by rewrite Start_entries.
  - split; [| done]. apply cache_ok_empty; done.
  - destruct (SetLocalToken_ok v scope token c H) as (H1 & H2 & H3). apply Hkeep; [done |]. cbn [fst snd].
    split; [done |]. by rewrite H2.
  - pose proof (Receive_reported v md payload t c H Ht) as Hx. destruct (Receive v md payload t c) as [c' r].
    by apply Hkeep; [| apply Hx].
  - by apply Hkeep; [| apply Advance_reported, H].
  - by apply Hkeep; [| apply ApplyInterfaceSnapshot_reported, H].
  - by apply Hkeep; [| apply Wake_reported, H].
Qed.

Lemma cache_run_reported v ops c : Forall op_typed ops -> cache_ok v c ->
  let x := cache_run v ops c in
  cache_ok v x.1 /\ follow v ops c (visible (entries_ c)) = Some (visible (entries_ x.1)).
Proof.
  revert c. induction ops as [| op ops IH]; intros c Ht H; cbn [cache_run follow]; [done |].
  apply list.Forall_cons in Ht as [H1 H2]. destruct (cache_step_reported v op c H1 H) as [Hok Hrep].
  destruct (cache_step v op c) as [c1 evs1]. cbn [fst snd] in *. rewrite Hrep.
  destruct (IH c1 H2 Hok) as [Hok2 Hrep2]. by destruct (cache_run v ops c1).
Qed.

Lemma cache_ok_initial v : cache_ok v DiscoveryCache_initial.
Proof. by apply cache_ok_empty. Qed.

(** ** The snapshot *)

Lemma insert_candidate_elem x y l : y ∈ insert_candidate x l <-> y = x \/ y ∈ l.
Proof.
  induction l as [| z l IH]; simpl.
  - rewrite list_elem_of_singleton. split; [by left |]. intros [-> | ?%not_elem_of_nil]; done.
  - destruct (key_less _ _); rewrite !list.elem_of_cons, ?IH; tauto.
Qed.

Lemma Snapshot_elem c x : x ∈ Snapshot c <-> exists e, e ∈ entries_ c /\ candidate e = true /\ value e = x.
Proof.
  unfold Snapshot. induction (entries_ c) as [| e l IH]; cbn [List.filter List.map fold_right].
  - split; [by intros ?%not_elem_of_nil | by intros (? & ?%not_elem_of_nil & _)].
  - destruct (candidate e) eqn:Ec; cbn [List.map fold_right].
    + rewrite insert_candidate_elem, IH. split.
      * intros [-> | (e' & ? & ?)]; [exists e; by split; [left |] | exists e'; by split; [right |]].
      * intros (e' & [-> | He]%list.elem_of_cons & ? & <-); [by left | right; by exists e'].
    + rewrite IH. split.
      * intros (e' & ? & ?). exists e'. by split; [right |].
      * intros (e' & [-> | He]%list.elem_of_cons & ? & ?); [congruence | by exists e'].
Qed.

(** ** Old datagrams *)

Lemma id_unique l e e' : NoDup (List.map entry_id l) -> e ∈ l -> e' ∈ l -> entry_id e = entry_id e' -> e = e'.
Proof.
  induction l as [| x l IH]; [by intros _ ?%not_elem_of_nil |]. cbn [List.map]. intros [Hx Hn]%list.NoDup_cons.
  assert (Hin : forall y, y ∈ l -> entry_id y ∈ List.map entry_id l).
  { intros y Hy. apply list_elem_of_In, in_map. by apply list_elem_of_In. }
  intros [-> | He]%list.elem_of_cons [-> | He']%list.elem_of_cons E; [done | | | by apply IH].
  - destruct Hx. rewrite E. by apply Hin.
  - destruct Hx. rewrite <- E. by apply Hin.
Qed.

Lemma FindEntry_is key c e : NoDup (List.map entry_id (entries_ c)) -> e ∈ entries_ c ->
  entry_id e = key_id key -> exists i, FindEntry key c = Some i /\ entries_ c !! i = Some e.
Proof.
  intros Hn He Eid. destruct (FindEntry key c) as [i |] eqn:Ef.
  - destruct (FindEntry_Some _ _ _ Ef) as (e' & Hi & Eid'). exists i. split; [done |]. rewrite Hi. f_equal.
    apply (id_unique (entries_ c)); [done | by apply (list_elem_of_lookup_2 _ i) | done | congruence].
  - destruct (FindEntry_None _ _ Ef). rewrite <- Eid. by apply list_elem_of_In, in_map, list_elem_of_In.
Qed.

Lemma Announce_old key a i e now_ms c : entries_ c !! i = Some e -> ad_sequence a <= c_highest_sequence (value e) ->
  let x := Announce key a (Some i) now_ms c in x.1 = c /\ r_events x.2 = [].
Proof.
  intros Hi Hs. unfold Announce. destruct (AddMilliseconds _ _); [| done]. rewrite Hi.
  destruct (_ && _); [done |]. destruct (Z.ltb_spec (ad_sequence a) (c_highest_sequence (value e))); [done |].
  rewrite (proj2 (Z.eqb_eq _ _)) by lia. done.
Qed.

Lemma Withdraw_old key a i e now_ms c : entries_ c !! i = Some e -> ad_sequence a <= c_highest_sequence (value e) ->
  let x := Withdraw key a (Some i) now_ms c in x.1 = c /\ r_events x.2 = [].
Proof.
  intros Hi Hs. unfold Withdraw. destruct (AddMilliseconds _ _); [| done]. rewrite Hi.
  by rewrite (proj2 (Z.leb_le _ _)).
Qed.

Lemma Receive_old v metadata payload now_ms c a e : cache_ok v c -> e ∈ entries_ c ->
  (candidate e = true \/ now_ms < retain_until_ms e) ->
  ParseAdvertisement (IsCanonical v) payload = inr a ->
  entry_id e = key_id {| key_observer := md_observer metadata; key_source := md_source metadata;
                         key_token := ad_token a |} ->
  ad_sequence a <= c_highest_sequence (value e) ->
  let x := Receive v metadata payload now_ms c in r_events x.2 = [] /\ e ∈ entries_ x.1.
Proof.
  intros H He Hlive Hp Eid Hs. unfold Receive. case_bool_decide as Hr; [| done]. cbn [negb].
  destruct (now_ms <? now_ms_ c); [done |].
  assert (H1 : e ∈ entries_ (EraseExpiredTombstones now_ms (c <| now_ms_ := now_ms |>))).
  { unfold EraseExpiredTombstones. cbn. apply list_elem_of_In, filter_In. split; [by apply list_elem_of_In |].
    destruct Hlive as [-> | Hlt]; [done |]. rewrite Z.geb_leb, (proj2 (Z.leb_gt _ _)) by done.
    by rewrite andb_false_r. }
  pose proof (proj1 (erased_reported v now_ms c H Hr)) as Hok1.
  assert (Hr1 : state_ (EraseExpiredTombstones now_ms (c <| now_ms_ := now_ms |>)) = kRunning) by done.
  set (c1 := EraseExpiredTombstones now_ms _) in *. clearbody c1. cbv zeta.
  destruct (_ || _) eqn:Emeta; [done |]. rewrite !orb_false_iff, !negb_false_iff in Emeta.
  destruct Emeta as [[[_ Hsc%HasScope_iff] _] _].
  destruct (Admit_spec (md_observer metadata) (md_source metadata) now_ms v c1 Hr1 Hok1 Hsc) as (Hok2 & Hp2 & _).
  destruct (Admit _ _ _ c1) as [c2 admitted]. cbn [fst] in *. rewrite <- (sp_entries _ _ Hp2) in H1.
  destruct admitted; cbn [negb]; [| done]. destruct (md_truncated metadata); [done |]. rewrite Hp.
  destruct (IsSelf _ _ _); [done |].
  destruct (FindEntry_is _ c2 e (eo_ids _ _ (ok_entries _ _ Hok2)) H1 Eid) as (i & -> & Hi).
  destruct (ad_type a).
  - destruct (Announce_old {| key_observer := md_observer metadata; key_source := md_source metadata;
      key_token := ad_token a |} a i e now_ms c2 Hi Hs) as [-> ->]. done.
  - destruct (Withdraw_old {| key_observer := md_observer metadata; key_source := md_source metadata;
      key_token := ad_token a |} a i e now_ms c2 Hi Hs) as [-> ->]. done.
Qed.

(** ** Theorems *)

(** C30: The limits of the cache hold whatever is received and whatever calls are
    made: at most 32 scopes in strict order, at most 512 entries and 128 of a
    scope, at most 256 candidates and 64 of a scope, at most 1024 source
    buckets and 128 of a scope, one entry per key and one bucket per source,
    all of them of a present scope, and the retained payload bytes are those
    of the candidates and within 131072; so the unsigned arithmetic on them
    never wraps. *)
Theorem discovery_cache_bounded (v : option (bytes -> bool)) (ops : list cache_op) :
  Forall op_typed ops -> cache_ok v (cache_run v ops DiscoveryCache_initial).1.
Proof. intros Ht. exact (proj1 (cache_run_reported v ops _ Ht (cache_ok_initial v))). Qed.

(** C26: The events are the changes.  A client starts with an empty directory,
    applies the events of every call to it in order, and empties it when it
    stops the cache (which reports no events).  Whatever is called, it finds
    every event consistent with its directory (a peer appears when it is absent,
    is updated when it is present, and expires with the port and the label it
    was shown with), and always has exactly the keys, the ports and the labels
    of the candidates in the snapshot.  The deadline and the sequence number of
    a candidate change without an event. *)
Theorem discovery_events_track_snapshot (v : option (bytes -> bool)) (ops : list cache_op) :
  Forall op_typed ops ->
  let c := (cache_run v ops DiscoveryCache_initial).1 in
  exists m, follow v ops DiscoveryCache_initial ∅ = Some m /\
    forall id port label, m !! id = Some (port, label) <->
      exists p, p ∈ Snapshot c /\ key_id (c_key p) = id /\ c_service_port p = port /\ c_display_label p = label.
Proof.
  intros Ht c. destruct (cache_run_reported v ops DiscoveryCache_initial Ht (cache_ok_initial v)) as [Hok Hr].
  fold c in Hok, Hr. exists (visible (entries_ c)). split; [exact Hr |].
  intros id port label. rewrite (visible_lookup _ _ _ (eo_ids _ _ (ok_entries _ _ Hok))). split.
  - intros (e & He & Hc & Hid & Hs). exists (value e). split; [apply Snapshot_elem; by exists e |].
    unfold shown in Hs. injection Hs as -> ->. done.
  - intros (p & Hp & Hid & <- & <-). apply Snapshot_elem in Hp as (e & He & Hc & <-). by exists e.
Qed.

(** Replayed datagrams are ignored: while the cache remembers the sender of a
    datagram, as a candidate or as a tombstone that has not expired, a
    datagram of that sender whose sequence is not above the highest one seen
    is not reported and leaves what the cache knows of the sender as it is. *)
Theorem discovery_replay_ignored (v : option (bytes -> bool)) (ops : list cache_op)
    (metadata : DatagramMetadata) (payload : bytes) (now_ms : Z) (a : Advertisement) (e : Entry) :
  Forall op_typed ops ->
  let c := (cache_run v ops DiscoveryCache_initial).1 in
  e ∈ entries_ c -> (candidate e = true \/ now_ms < retain_until_ms e) ->
  ParseAdvertisement (IsCanonical v) payload = inr a ->
  entry_id e = key_id {| key_observer := md_observer metadata; key_source := md_source metadata;
                         key_token := ad_token a |} ->
  ad_sequence a <= c_highest_sequence (value e) ->
  let x := Receive v metadata payload now_ms c in r_events x.2 = [] /\ e ∈ entries_ x.1.
Proof.
  intros Ht c. exact (Receive_old v metadata payload now_ms c a e
    (proj1 (cache_run_reported v ops _ Ht (cache_ok_initial v)))).
Qed.

(** ** An evaluated cache *)

Module DiscoveryCacheExample.

Definition scope : InterfaceScope := {| generation := 1; scope_family := kIpv4 |}.
Definition metadata : DatagramMetadata := {|
  md_observer := scope; md_source := V4 [192; 168; 0; 9]; md_destination := V4 kIpv4Group;
  md_destination_port := kDiscoveryPort; md_observer_eligible := true;
  md_source_is_broadcast := false; md_truncated := false |}.

Definition any : option (bytes -> bool) := Some (fun _ => true).
Definition announcement : bytes := DiscoveryWireExample.payload.

(** Started, one peer announced, and time passes until it expires. *)
Definition ops : list cache_op :=
  [OpStart [scope] 1000; OpReceive metadata announcement 2000; OpAdvance 3000].

Lemma cache_ops_typed : Forall op_typed ops.
Proof.
  apply list.Forall_cons. split; [done |]. apply list.Forall_cons. split.
  - by apply (bool_decide_unpack _); vm_compute.
  - by repeat constructor.
Qed.

Definition final : DiscoveryCache := (cache_run any ops DiscoveryCache_initial).1.

Lemma one_candidate : CandidateCount final = 1.
Proof. by vm_compute. Qed.

Lemma expires : CandidateCount (Advance 17000 final).1 = 0 /\ length (Advance 17000 final).2 = 1%nat.
Proof. by vm_compute. Qed.

(** A source is granted a burst of sixteen datagrams. *)
Lemma source_burst :
  let receive := OpReceive metadata announcement 2000 in
  let c n := (cache_run any (OpStart [scope] 1000 :: repeat receive n) DiscoveryCache_initial).1 in
  r_disposition (Receive any metadata announcement 2000 (c 15%nat)).2 = ReceiveDisposition.kDroppedDuplicate /\
  r_disposition (Receive any metadata announcement 2000 (c 16%nat)).2 = ReceiveDisposition.kDroppedRateLimit.
Proof. by vm_compute. Qed.

Lemma discovery_cache_bounded_witness : cache_ok any final.
Proof. exact (discovery_cache_bounded any ops cache_ops_typed). Defined.

Lemma discovery_events_track_snapshot_witness :
  length (Snapshot final) = 1%nat /\
  exists m, follow any ops DiscoveryCache_initial ∅ = Some m /\
    forall id port label, m !! id = Some (port, label) <->
      exists p, p ∈ Snapshot final /\ key_id (c_key p) = id /\ c_service_port p = port /\ c_display_label p = label.
Proof. split; [by vm_compute |]. exact (discovery_events_track_snapshot any ops cache_ops_typed). Defined.

Definition the_entry : Entry := nth 0 (entries_ final)
  {| candidate := false; value := {| c_key := {| key_observer := scope; key_source := V4 []; key_token := [] |};
       c_service_port := 0; c_display_label := []; c_deadline_ms := 0; c_highest_sequence := 0 |};
     raw := []; retain_until_ms := 0 |}.

Lemma discovery_replay_ignored_witness :
  let x := Receive any metadata announcement 4000 final in r_events x.2 = [] /\ the_entry ∈ entries_ x.1.
Proof.
  apply (discovery_replay_ignored any ops metadata announcement 4000 DiscoveryWireExample.announced the_entry).
  - exact cache_ops_typed.
  - apply (list_elem_of_lookup_2 _ 0). by vm_compute.
  - left. by vm_compute.
  - by vm_compute.
  - by vm_compute.
  - by vm_compute.
Defined.

End DiscoveryCacheExample.
