(* ===== verification/DiscoveryService.v ===== *)
(** * The discovery service

    [DiscoveryService] of [native/src/discovery/service.cpp]: it announces this
    device on every network interface, withdraws it when it leaves, keeps the
    cache of the others and publishes the changes.

    The clock, the random source, the timer, the transport and the monitor of
    the interfaces are behind interfaces of the source: the operations of the
    class [DiscoveryEnvironment] on a world.  [lifecycle_mutex_] is held by
    [Start], [Stop], [Wake], [UpdateAdvertisement] and [OnInterfaceChanged] from
    beginning to end, and only they change [state_]; [OnTimer] and [OnDatagram]
    hold [mutex_] and do nothing unless the service runs.  So each of these is
    one function of the service and the world, up to the publication of its
    events, which happens without a lock: [PublishBegin] and [PublishEnd] are
    the parts of [Publish] before and after the callback, and [StopDrained] is
    the condition the last part of [Stop] waits for. *)

From S2P Require Import Prelude.
From S2P Require Import DiscoveryWire.
From S2P Require Import DiscoveryCache.

Module DiscoveryService.
Import DiscoveryWire DiscoveryCache.

(** ** Data *)

Definition kAdvertisedTtlSeconds : Z := 15.
Definition kPublisherIntervalMs : Z := 5000.
Definition kPublisherJitterMs : Z := 500.
Definition kPublisherRotationMs : Z := 15 * 60 * 1000.
Definition kImmediateUpdateIntervalMs : Z := 1000.

Module ServiceState.
Inductive ServiceState := kCreated | kStarting | kRunning | kStopping | kStopped.
#[global] Instance eq_dec : EqDecision ServiceState.
Proof. solve_decision. Defined.
End ServiceState.

Record NetworkInterface := {
  ni_scope : InterfaceScope;
  ni_system_index : Z;
  ni_local_address : IpAddress;
  ni_prefix_length : Z;
}.

Definition interface_less (left right : NetworkInterface) : bool :=
  if negb (bool_decide (ni_scope left = ni_scope right)) then scope_less (ni_scope left) (ni_scope right)
  else if negb (ni_system_index left =? ni_system_index right) then
    ni_system_index left <? ni_system_index right
  else if negb (address_eqb (ni_local_address left) (ni_local_address right)) then
    address_less (ni_local_address left) (ni_local_address right)
  else ni_prefix_length left <? ni_prefix_length right.

Record DiscoveryConfig := {
  cf_service_port : Z;
  cf_display_label : bytes;
}.

Record Publisher := {
  p_interface : NetworkInterface;
  p_token : bytes;
  p_sequence : Z;
  p_announced : bool;
  p_last_send_ms : Z;
  p_announce_due_ms : Z;
  p_rotation_due_ms : Z;
  p_update_due_ms : option Z;
}.

#[global] Instance eta_Publisher : Eta Publisher := fun x =>
  {| p_interface := p_interface x; p_token := p_token x; p_sequence := p_sequence x;
     p_announced := p_announced x; p_last_send_ms := p_last_send_ms x;
     p_announce_due_ms := p_announce_due_ms x; p_rotation_due_ms := p_rotation_due_ms x;
     p_update_due_ms := p_update_due_ms x |}.

Record DiscoveryService := {
  sv_state : ServiceState.ServiceState;
  sv_config : DiscoveryConfig;
  sv_cache : DiscoveryCache;
  sv_interfaces : list NetworkInterface;
  sv_publishers : list Publisher;
  sv_callbacks_in_flight : Z;
}.

#[global] Instance eta_DiscoveryService : Eta DiscoveryService := fun x =>
  {| sv_state := sv_state x; sv_config := sv_config x; sv_cache := sv_cache x;
     sv_interfaces := sv_interfaces x; sv_publishers := sv_publishers x;
     sv_callbacks_in_flight := sv_callbacks_in_flight x |}.

Definition MakeService (config : DiscoveryConfig) : DiscoveryService :=
  {| sv_state := ServiceState.kCreated; sv_config := config; sv_cache := DiscoveryCache_initial;
     sv_interfaces := []; sv_publishers := []; sv_callbacks_in_flight := 0 |}.

(** [MonotonicClock], [EntropySource] (a fill of [n] bytes, [None] when it fails),
    [DiscoveryTimer], [DatagramTransport] and [InterfaceMonitor]. *)
Class DiscoveryEnvironment (W : Type) := {
  NowMs : W -> W * Z;
  Fill : nat -> W -> W * option bytes;
  ScheduleAt : Z -> W -> W * bool;
  TimerCancel : W -> W;
  TimerStop : W -> W;
  TransportStart : list NetworkInterface -> W -> W * bool;
  Reconfigure : list NetworkInterface -> W -> W * bool;
  Send : InterfaceScope -> bytes -> W -> W * bool;
  TransportStop : W -> W;
  MonitorStart : W -> W * bool;
  MonitorSnapshot : W -> W * list NetworkInterface;
  MonitorStop : W -> W;
}.

(** ** Interfaces *)

Definition SaturatingAdd (value increment : Z) : Z :=
  if increment >? umax 64 - value then umax 64 else value + increment.

Definition IsValidInterface (i : NetworkInterface) : bool :=
  if (generation (ni_scope i) =? 0) || (ni_system_index i =? 0) ||
     negb (bool_decide (scope_family (ni_scope i) = ip_family (ni_local_address i))) then false
  else
  let maximum_prefix := match scope_family (ni_scope i) with kIpv4 => 32 | kIpv6 => 128 end in
  ni_prefix_length i <=? maximum_prefix.

(** [std::lower_bound] on the sorted vector of interfaces. *)
Fixpoint lower_bound (i : NetworkInterface) (l : list NetworkInterface) : nat :=
  match l with
  | [] => 0
  | x :: l => if interface_less x i then S (lower_bound i l) else 0
  end.

(** [std::sort]. *)
Fixpoint insert_interface (x : NetworkInterface) (l : list NetworkInterface) : list NetworkInterface :=
  match l with
  | [] => [x]
  | y :: l => if interface_less y x then y :: insert_interface x l else x :: y :: l
  end.

Definition sort_interfaces (l : list NetworkInterface) : list NetworkInterface :=
  fold_right insert_interface [] l.

(** The body of the loop of [CanonicalInterfaces]. *)
Definition CanonicalInterfaces_step (result : list NetworkInterface) (interface : NetworkInterface)
    : list NetworkInterface :=
  if negb (IsValidInterface interface) then result
  else
  let position := lower_bound interface result in
  match find_if (fun current => bool_decide (ni_scope current = ni_scope interface)) result with
  | Some same_scope =>
      match result !! same_scope with
      | Some current =>
          if interface_less interface current then sort_interfaces (<[same_scope := interface]> result)
          else result
      | None => result
      end
  | None =>
      if Nat.ltb (length result) kMaxScopes then insert_at position interface result
      else if negb (Nat.eqb position (length result)) then
        let result := insert_at position interface result in take (length result - 1) result
      else result
  end.

Definition CanonicalInterfaces (interfaces : list NetworkInterface) : list NetworkInterface :=
  fold_left CanonicalInterfaces_step interfaces [].

Definition Scopes (interfaces : list NetworkInterface) : list InterfaceScope :=
  List.map ni_scope interfaces.

Definition ContainsScope (interfaces : list NetworkInterface) (scope : InterfaceScope) : bool :=
  existsb (fun interface => bool_decide (ni_scope interface = scope)) interfaces.

Section Service.
Context {W : Type} {env : DiscoveryEnvironment W}.

(** The validator the constructor is given, and whether the other pointers and
    the event handler are present. *)
Variable label_validator_ : option (bytes -> bool).
Variable dependencies event_handler_ : bool.

Definition DependenciesValid : bool := bool_decide (is_Some label_validator_) && dependencies.

Definition ConfigValid (config : DiscoveryConfig) : bool :=
  if cf_service_port config =? 0 then false
  else (bsize (cf_display_label config) =? 0) || IsCanonical label_validator_ (cf_display_label config).

(** ** Randomness *)

Definition AnyNonzero (token : bytes) : bool := existsb (fun byte => negb (byte =? 0)) token.

Fixpoint GenerateToken_loop (attempts : nat) (w : W) : W * option bytes :=
  match attempts with
  | O => (w, None)
  | S attempts =>
      let '(w, filled) := Fill 16 w in
      match filled with
      | None => (w, None)
      | Some token => if AnyNonzero token then (w, Some token) else GenerateToken_loop attempts w
      end
  end.

Definition GenerateToken (w : W) : W * option bytes := GenerateToken_loop 4 w.

Definition kRange : Z := 2 * kPublisherJitterMs + 1.
Definition kValues : Z := umax 32 + 1.
Definition kLimit : Z := kValues - kValues mod kRange.

Fixpoint Jitter_loop (attempts : nat) (w : W) : W * option Z :=
  match attempts with
  | O => (w, None)
  | S attempts =>
      let '(w, filled) := Fill 4 w in
      match filled with
      | None => (w, None)
      | Some bytes =>
          let value := u32 (Z.lor (Z.lor (Z.lor (Z.shiftl (at_ bytes 0) 24) (Z.shiftl (at_ bytes 1) 16))
                                     (Z.shiftl (at_ bytes 2) 8)) (at_ bytes 3)) in
          if value <? kLimit then (w, Some (value mod kRange - kPublisherJitterMs))
          else Jitter_loop attempts w
      end
  end.

Definition Jitter (w : W) : W * option Z := Jitter_loop 4 w.

(** ** Publishers *)

Definition CreatePublisherLocked (interface : NetworkInterface) (now_ms : Z) (c : DiscoveryCache) (w : W)
    : DiscoveryCache * W * option Publisher :=
  let '(w, generated) := GenerateToken w in
  match generated with
  | None => (c, w, None)
  | Some token =>
      let '(c, set) := SetLocalToken (ni_scope interface) token c in
      if negb set then (c, w, None)
      else
        (c, w, Some {| p_interface := interface; p_token := token; p_sequence := 1; p_announced := false;
                       p_last_send_ms := 0; p_announce_due_ms := 0;
                       p_rotation_due_ms := SaturatingAdd now_ms kPublisherRotationMs;
                       p_update_due_ms := None |})
  end.

Definition SchedulePeriodicLocked (now_ms : Z) (p : Publisher) (w : W) : Publisher * W * bool :=
  let '(w, jitter) := Jitter w in
  match jitter with
  | None => (p, w, false)
  | Some jitter =>
      let interval := kPublisherIntervalMs + jitter in
      (p <| p_announce_due_ms := SaturatingAdd now_ms (u64 interval) |>, w, true)
  end.

(** [SendAnnounceLocked] from the encoding on. *)
Definition SendNumbered (config : DiscoveryConfig) (now_ms : Z) (p : Publisher) (w : W)
    : Publisher * W * bool :=
  match EncodeAdvertisement (IsCanonical label_validator_) kAnnounce (p_sequence p) (p_token p)
          (cf_service_port config) kAdvertisedTtlSeconds (cf_display_label config) with
  | None => (p, w, false)
  | Some datagram =>
      let '(w, _) := Send (ni_scope (p_interface p)) datagram w in
      SchedulePeriodicLocked now_ms
        (p <| p_announced := true |> <| p_last_send_ms := now_ms |> <| p_update_due_ms := None |>) w
  end.

Definition SendWithdrawalLocked (p : Publisher) (w : W) : Publisher * W :=
  if negb (p_announced p) || (p_sequence p =? umax 64) then (p, w)
  else
  let p := p <| p_sequence := uadd 64 (p_sequence p) 1 |> in
  let w :=
    match EncodeAdvertisement (IsCanonical label_validator_) kWithdraw (p_sequence p) (p_token p) 0 0 [] with
    | None => w
    | Some datagram => (Send (ni_scope (p_interface p)) datagram w).1
    end in
  (p <| p_announced := false |>, w).

(** [RotateLocked]; it ends with [SendAnnounceLocked] of a publisher that has not
    announced yet, which goes straight to the encoding. *)
Definition RotateLocked (config : DiscoveryConfig) (now_ms : Z) (p : Publisher) (c : DiscoveryCache) (w : W)
    : Publisher * DiscoveryCache * W * bool :=
  let '(w, generated) := GenerateToken w in
  match generated with
  | None => (p, c, w, false)
  | Some replacement =>
      let '(p, w) := SendWithdrawalLocked p w in
      let p := p <| p_token := replacement |> <| p_sequence := 1 |> <| p_announced := false |>
                 <| p_rotation_due_ms := SaturatingAdd now_ms kPublisherRotationMs |> in
      let '(c, set) := SetLocalToken (ni_scope (p_interface p)) (p_token p) c in
      if negb set then (p, c, w, false)
      else
        let '(p, w, sent) := SendNumbered config now_ms p w in (p, c, w, sent)
  end.

Definition SendAnnounceLocked (config : DiscoveryConfig) (now_ms : Z) (p : Publisher) (c : DiscoveryCache)
    (w : W) : Publisher * DiscoveryCache * W * bool :=
  if p_announced p && (p_sequence p =? umax 64) then RotateLocked config now_ms p c w
  else
  let p := if p_announced p then p <| p_sequence := uadd 64 (p_sequence p) 1 |> else p in
  let '(p, w, sent) := SendNumbered config now_ms p w in (p, c, w, sent).

(** A loop over the publishers with the cache, the world and [success]. *)
Fixpoint for_publishers
    (f : Publisher -> DiscoveryCache -> W -> Publisher * DiscoveryCache * W * bool)
    (l : list Publisher) (c : DiscoveryCache) (w : W) (success : bool)
    : list Publisher * DiscoveryCache * W * bool :=
  match l with
  | [] => ([], c, w, success)
  | p :: l =>
      let '(p, c, w, result) := f p c w in
      let '(l, c, w, success) := for_publishers f l c w (result && success) in
      (p :: l, c, w, success)
  end.

(** [consider] of [ScheduleNextLocked]. *)
Definition consider (candidate : Z) (deadline : option Z) : option Z :=
  match deadline with
  | None => Some candidate
  | Some d => if candidate <? d then Some candidate else deadline
  end.

Definition consider_publisher (deadline : option Z) (p : Publisher) : option Z :=
  let deadline := consider (p_rotation_due_ms p) (consider (p_announce_due_ms p) deadline) in
  match p_update_due_ms p with Some due => consider due deadline | None => deadline end.

Definition NextDeadline (s : DiscoveryService) : option Z :=
  fold_left consider_publisher (sv_publishers s) (NextDeadlineMs (sv_cache s)).

Definition ScheduleNextLocked (s : DiscoveryService) (w : W) : W * bool :=
  if negb (bool_decide (sv_state s = ServiceState.kRunning)) then (w, false)
  else
  let w := TimerCancel w in
  match NextDeadline s with
  | None => (w, true)
  | Some deadline => ScheduleAt deadline w
  end.

(** ** Stopping *)

Fixpoint SendWithdrawals (l : list Publisher) (w : W) : list Publisher * W :=
  match l with
  | [] => ([], w)
  | p :: l =>
      let '(p, w) := SendWithdrawalLocked p w in
      let '(l, w) := SendWithdrawals l w in (p :: l, w)
  end.

Definition StopAll (w : W) : W := TransportStop (MonitorStop (TimerStop w)).

(** [FailStart]. *)
Definition FailStart (s : DiscoveryService) (w : W) : DiscoveryService * W :=
  let s := s <| sv_state := ServiceState.kStopping |> in
  let w := StopAll w in
  (s <| sv_cache := DiscoveryCache.Stop (sv_cache s) |> <| sv_publishers := [] |>
     <| sv_interfaces := [] |> <| sv_state := ServiceState.kStopped |>, w).

(** [StopWithLifecycleLock] up to the wait. *)
Definition Stop (s : DiscoveryService) (w : W) : DiscoveryService * W :=
  if bool_decide (sv_state s = ServiceState.kCreated) then
    (s <| sv_state := ServiceState.kStopped |>, w)
  else if bool_decide (sv_state s = ServiceState.kStopped) then (s, w)
  else
  let s := s <| sv_state := ServiceState.kStopping |> in
  let '(publishers, w) := SendWithdrawals (sv_publishers s) w in
  let w := StopAll w in
  (s <| sv_cache := DiscoveryCache.Stop (sv_cache s) |> <| sv_publishers := [] |>
     <| sv_interfaces := [] |> <| sv_state := ServiceState.kStopped |>, w).

(** The wait of [StopWithLifecycleLock]: it ends at once on a thread that is in a
    callback of this service. *)
Definition StopDrained (publishing_here : bool) (s : DiscoveryService) : bool :=
  publishing_here || (sv_callbacks_in_flight s =? 0).

(** ** Starting *)

(** [CreatePublisherLocked] for each interface, until one fails. *)
Fixpoint CreatePublishers (l : list NetworkInterface) (now_ms : Z) (c : DiscoveryCache) (w : W)
    : list Publisher * DiscoveryCache * W * bool :=
  match l with
  | [] => ([], c, w, true)
  | interface :: l =>
      let '(c, w, created) := CreatePublisherLocked interface now_ms c w in
      match created with
      | None => ([], c, w, false)
      | Some p =>
          let '(l, c, w, success) := CreatePublishers l now_ms c w in (p :: l, c, w, success)
      end
  end.

(** The announcements of all publishers and the timer, the end of [Start] and of
    [Wake]. *)
Definition AnnounceAll (now_ms : Z) (s : DiscoveryService) (w : W) : DiscoveryService * W * bool :=
  let '(publishers, c, w, success) :=
    for_publishers (SendAnnounceLocked (sv_config s) now_ms) (sv_publishers s) (sv_cache s) w true in
  let s := s <| sv_publishers := publishers |> <| sv_cache := c |> in
  let '(w, scheduled) := ScheduleNextLocked s w in (s, w, scheduled && success).

Definition Start (s : DiscoveryService) (w : W) : DiscoveryService * W * bool :=
  if negb (bool_decide (sv_state s = ServiceState.kCreated)) || negb DependenciesValid ||
     negb (ConfigValid (sv_config s)) then (s, w, false)
  else
  let s := s <| sv_state := ServiceState.kStarting |> in
  let fail s w := let '(s, w) := FailStart s w in (s, w, false) in
  let '(w, started) := MonitorStart w in
  if negb started then fail s w
  else
  let '(w, snapshot) := MonitorSnapshot w in
  let interfaces := CanonicalInterfaces snapshot in
  let '(w, now_ms) := NowMs w in
  let '(c, started) := DiscoveryCache.Start label_validator_ (Scopes interfaces) now_ms (sv_cache s) in
  let s := s <| sv_cache := c |> in
  if negb started then fail s w
  else
  let '(w, started) := TransportStart interfaces w in
  if negb started then fail s w
  else
  let '(w, snapshot) := MonitorSnapshot w in
  let interfaces := CanonicalInterfaces snapshot in
  let '(c, _) := ApplyInterfaceSnapshot (Scopes interfaces) now_ms (sv_cache s) in
  let s := s <| sv_cache := c |> in
  let '(w, reconfigured) := Reconfigure interfaces w in
  if negb reconfigured then fail s w
  else
  let '(publishers, c, w, initialized) := CreatePublishers interfaces now_ms (sv_cache s) w in
  let s := s <| sv_interfaces := interfaces |> <| sv_publishers := publishers |> <| sv_cache := c |>
             <| sv_state := if initialized then ServiceState.kRunning else ServiceState.kStopping |> in
  if negb initialized then fail s w
  else
  let '(s, w, initialized) := AnnounceAll now_ms s w in
  if negb initialized then fail s w else (s, w, true).

(** ** Running *)

(** [Wake]: also the events to publish. *)
Definition Wake (s : DiscoveryService) (w : W) : DiscoveryService * W * list CandidateEvent * bool :=
  if negb (bool_decide (sv_state s = ServiceState.kRunning)) then (s, w, [], false)
  else
  let '(w, snapshot) := MonitorSnapshot w in
  let interfaces := CanonicalInterfaces snapshot in
  let '(w, now_ms) := NowMs w in
  let '(c, events) := DiscoveryCache.Wake (Scopes interfaces) now_ms (sv_cache s) in
  let '(w, reconfigured) := Reconfigure interfaces w in
  let '(publishers, c, w, created) := CreatePublishers interfaces now_ms c w in
  let s := s <| sv_interfaces := interfaces |> <| sv_publishers := publishers |> <| sv_cache := c |> in
  let '(s, w, success) :=
    if reconfigured && created then AnnounceAll now_ms s w else (s, w, false) in
  let '(s, w) := if success : bool then (s, w) else Stop s w in
  (s, w, events, success).

Definition UpdateDue (now_ms : Z) (p : Publisher) : Publisher :=
  let earliest := SaturatingAdd (p_last_send_ms p) kImmediateUpdateIntervalMs in
  let due := Z.max now_ms earliest in
  match p_update_due_ms p with
  | None => p <| p_update_due_ms := Some due |>
  | Some current => if due <? current then p <| p_update_due_ms := Some due |> else p
  end.

Definition UpdateAdvertisement (config : DiscoveryConfig) (s : DiscoveryService) (w : W)
    : DiscoveryService * W * bool :=
  if negb (ConfigValid config) then (s, w, false)
  else if negb (bool_decide (sv_state s = ServiceState.kRunning)) then (s, w, false)
  else if (cf_service_port config =? cf_service_port (sv_config s)) &&
          same_bytes (cf_display_label config) (cf_display_label (sv_config s)) then (s, w, true)
  else
  let s := s <| sv_config := config |> in
  let '(w, now_ms) := NowMs w in
  let s := s <| sv_publishers := List.map (UpdateDue now_ms) (sv_publishers s) |> in
  let '(w, scheduled) := ScheduleNextLocked s w in (s, w, scheduled).

(** The body of the loop of [OnTimer]. *)
Definition OnTimerPublisher (config : DiscoveryConfig) (now_ms : Z) (p : Publisher) (c : DiscoveryCache)
    (w : W) : Publisher * DiscoveryCache * W * bool :=
  if now_ms >=? p_rotation_due_ms p then RotateLocked config now_ms p c w
  else
  let '(p, c, w, updated) :=
    match p_update_due_ms p with
    | Some due => if now_ms >=? due then SendAnnounceLocked config now_ms p c w else (p, c, w, true)
    | None => (p, c, w, true)
    end in
  if now_ms >=? p_announce_due_ms p then
    let '(p, c, w, announced) := SendAnnounceLocked config now_ms p c w in (p, c, w, announced && updated)
  else (p, c, w, updated).

(** [OnTimer] before its events are published; when the last component is false,
    the service is stopped after that. *)
Definition OnTimer (s : DiscoveryService) (w : W) : DiscoveryService * W * list CandidateEvent * bool :=
  if negb (bool_decide (sv_state s = ServiceState.kRunning)) then (s, w, [], true)
  else
  let '(w, now_ms) := NowMs w in
  let '(c, events) := Advance now_ms (sv_cache s) in
  let '(publishers, c, w, success) :=
    for_publishers (OnTimerPublisher (sv_config s) now_ms) (sv_publishers s) c w true in
  let s := s <| sv_publishers := publishers |> <| sv_cache := c |> in
  let '(w, scheduled) := ScheduleNextLocked s w in
  (s, w, events, scheduled && success).

(** [OnDatagram] before its events are published. *)
Definition OnDatagram (metadata : DatagramMetadata) (payload : bytes) (s : DiscoveryService) (w : W)
    : DiscoveryService * W * list CandidateEvent * bool :=
  if negb (bool_decide (sv_state s = ServiceState.kRunning)) then (s, w, [], true)
  else
  let '(w, now_ms) := NowMs w in
  let '(c, result) := Receive label_validator_ metadata payload now_ms (sv_cache s) in
  let s := s <| sv_cache := c |> in
  let '(w, scheduled) := ScheduleNextLocked s w in
  (s, w, r_events result, scheduled).

(** The withdrawals of [RefreshInterfacesLockedLifecycle]. *)
Fixpoint WithdrawAbsent (interfaces : list NetworkInterface) (l : list Publisher) (w : W)
    : list Publisher * W :=
  match l with
  | [] => ([], w)
  | p :: l =>
      let '(p, w) :=
        if ContainsScope interfaces (ni_scope (p_interface p)) then (p, w) else SendWithdrawalLocked p w in
      let '(l, w) := WithdrawAbsent interfaces l w in (p :: l, w)
  end.

(** Its loop over the interfaces: a publisher is kept, or created and announced. *)
Fixpoint RefreshPublishers (config : DiscoveryConfig) (now_ms : Z) (publishers : list Publisher)
    (l : list NetworkInterface) (c : DiscoveryCache) (w : W) (success : bool)
    : list Publisher * DiscoveryCache * W * bool :=
  match l with
  | [] => ([], c, w, success)
  | interface :: l =>
      match List.find (fun p => bool_decide (ni_scope (p_interface p) = ni_scope interface)) publishers with
      | Some existing =>
          let '(rest, c, w, success) := RefreshPublishers config now_ms publishers l c w success in
          (existing <| p_interface := interface |> :: rest, c, w, success)
      | None =>
          let '(c, w, created) := CreatePublisherLocked interface now_ms c w in
          match created with
          | None => ([], c, w, false)
          | Some p =>
              let '(p, c, w, announced) := SendAnnounceLocked config now_ms p c w in
              let '(rest, c, w, success) :=
                RefreshPublishers config now_ms publishers l c w (announced && success) in
              (p :: rest, c, w, success)
          end
      end
  end.

(** [OnInterfaceChanged] with [RefreshInterfacesLockedLifecycle]. *)
Definition OnInterfaceChanged (s : DiscoveryService) (w : W) : DiscoveryService * W * list CandidateEvent :=
  if negb (bool_decide (sv_state s = ServiceState.kRunning)) then (s, w, [])
  else
  let '(w, snapshot) := MonitorSnapshot w in
  let interfaces := CanonicalInterfaces snapshot in
  let '(w, now_ms) := NowMs w in
  let '(publishers, w) := WithdrawAbsent interfaces (sv_publishers s) w in
  let '(c, events) := ApplyInterfaceSnapshot (Scopes interfaces) now_ms (sv_cache s) in
  let '(w, reconfigured) := Reconfigure interfaces w in
  let '(replacement, c, w, success) :=
    RefreshPublishers (sv_config s) now_ms publishers interfaces c w reconfigured in
  let s := s <| sv_interfaces := interfaces |> <| sv_publishers := replacement |> <| sv_cache := c |> in
  let '(w, scheduled) := ScheduleNextLocked s w in
  let '(s, w) := if scheduled && success then (s, w) else Stop s w in
  (s, w, events).

(** [Publish] of one event: [None] when it returns without calling the handler. *)
Definition PublishBegin (s : DiscoveryService) : option DiscoveryService :=
  if negb (bool_decide (sv_state s = ServiceState.kRunning)) || negb event_handler_ then None
  else Some (s <| sv_callbacks_in_flight := uadd 64 (sv_callbacks_in_flight s) 1 |>).

Definition PublishEnd (s : DiscoveryService) : DiscoveryService :=
  s <| sv_callbacks_in_flight := usub 64 (sv_callbacks_in_flight s) 1 |>.

Definition Snapshot (s : DiscoveryService) : list Candidate := DiscoveryCache.Snapshot (sv_cache s).
Definition running (s : DiscoveryService) : bool := bool_decide (sv_state s = ServiceState.kRunning).

End Service.
End DiscoveryService.
