(* ===== verification/DiscoveryServiceProofs.v ===== *)
(** * Correctness of the discovery service

    What the service sends, in whatever order its handlers run: the numbers of
    its datagrams increase, so that no receiver takes one for an old one; its
    own datagrams are known to its cache; announcements are due in time; and
    after it stopped it neither sends nor publishes. *)

From stdpp Require Import gmap sets.
From S2P Require Import Prelude.
From S2P Require Import V1Parser.
From S2P Require Import V1ParserProofs.
From S2P Require Import FieldBlocks.
From S2P Require Import DiscoveryWire.
From S2P Require Import DiscoveryWireProofs.
From S2P Require Import DiscoveryCache.
From S2P Require Import DiscoveryCacheProofs.
From S2P Require Import DiscoveryService.
Import DiscoveryWire DiscoveryCache DiscoveryService.

(** ** What was sent *)

(** What a service did to the outside: a datagram sent, or bytes its random
    source returned. *)
Inductive happening :=
  | Sent (x : InterfaceScope * bytes)
  | Drew (l : bytes).

Abbreviation history := (list happening).

Definition sents (log : history) : list (InterfaceScope * bytes) :=
  flat_map (fun e => match e with Sent x => [x] | Drew _ => [] end) log.

(** The token and the sequence number of a datagram. *)
Definition token_of (d : bytes) : bytes := subspan d 20 16.
Definition sequence_of (d : bytes) : Z := DiscoveryWire.ReadU64 (subspan d 12 8).

(** The random source returned the token of a datagram sent before. *)
Definition reused (log : history) (token : bytes) : Prop :=
  exists before x after, log = before ++ Sent x :: after /\ token_of x.2 = token /\ Drew token ∈ after.

(** The environment as the service relies on it: the transport sends what it is
    given and nothing else is sent, time does not go back, and the random source
    fills its buffer with bytes. [trace] records both. *)
Class LawfulDiscovery (W : Type) {env : DiscoveryEnvironment W} := {
  trace : W -> history;
  clock : W -> Z;
  law_NowMs w : trace (NowMs w).1 = trace w /\ clock w <= (NowMs w).2 <= clock (NowMs w).1 /\
    in_width 64 (NowMs w).2;
  law_Fill n w :
    trace (Fill n w).1 = trace w ++ match (Fill n w).2 with Some l => [Drew l] | None => [] end /\
    clock w <= clock (Fill n w).1 /\
    forall l, (Fill n w).2 = Some l -> all_bytes l /\ length l = n;
  law_ScheduleAt t w : trace (ScheduleAt t w).1 = trace w /\ clock w <= clock (ScheduleAt t w).1;
  law_TimerCancel w : trace (TimerCancel w) = trace w /\ clock w <= clock (TimerCancel w);
  law_TimerStop w : trace (TimerStop w) = trace w /\ clock w <= clock (TimerStop w);
  law_TransportStart l w : trace (TransportStart l w).1 = trace w /\ clock w <= clock (TransportStart l w).1;
  law_Reconfigure l w : trace (Reconfigure l w).1 = trace w /\ clock w <= clock (Reconfigure l w).1;
  law_Send scope d w : trace (Send scope d w).1 = trace w ++ [Sent (scope, d)] /\ clock w <= clock (Send scope d w).1;
  law_TransportStop w : trace (TransportStop w) = trace w /\ clock w <= clock (TransportStop w);
  law_MonitorStart w : trace (MonitorStart w).1 = trace w /\ clock w <= clock (MonitorStart w).1;
  law_MonitorSnapshot w : trace (MonitorSnapshot w).1 = trace w /\ clock w <= clock (MonitorSnapshot w).1;
  law_MonitorStop w : trace (MonitorStop w) = trace w /\ clock w <= clock (MonitorStop w);
}.

Lemma sents_app log new : sents (log ++ new) = sents log ++ sents new.
Proof. apply flat_map_app. Qed.

Lemma sents_elem x log : x ∈ sents log <-> Sent x ∈ log.
Proof.
  rewrite !list_elem_of_In. unfold sents. rewrite in_flat_map. split.
  - intros ([y | l] & H1 & H2); cbn in H2; [| done]. destruct H2 as [-> | []]. done.
  - intros H. exists (Sent x). split; [done | by left].
Qed.

Lemma reused_app log new token : reused log token -> reused (log ++ new) token.
Proof.
  intros (before & x & after & -> & Ht & Hd). exists before, x, (after ++ new).
  split; [by rewrite <- app_assoc |]. split; [done |]. apply elem_of_app. by left.
Qed.

Lemma reused_drawn log new x : x ∈ sents log -> Drew (token_of x.2) ∈ new -> reused (log ++ new) (token_of x.2).
Proof.
  intros (before & after & ->)%sents_elem%list_elem_of_split Hd. exists before, x, (after ++ new).
  split; [by rewrite <- app_assoc |]. split; [done |]. apply elem_of_app. by right.
Qed.

(** A later datagram of the same scope and token has a higher number. *)
Definition newer (log : history) (x y : InterfaceScope * bytes) : Prop :=
  x.1 = y.1 -> token_of x.2 = token_of y.2 ->
  sequence_of x.2 < sequence_of y.2 \/ reused log (token_of y.2).

Definition numbered (log : history) : Prop := StronglySorted (newer log) (sents log).

Lemma newer_app log new x y : newer log x y -> newer (log ++ new) x y.
Proof. intros H E1 E2. destruct (H E1 E2); [by left | right; by apply reused_app]. Qed.

(** Drawing random bytes keeps the order. *)
Lemma numbered_quiet log new : sents new = [] -> numbered log -> numbered (log ++ new).
Proof.
  intros E H. unfold numbered. rewrite sents_app, E, app_nil_r. eapply sorted_weaken; [| exact H].
  intros x y. apply newer_app.
Qed.

Lemma numbered_snoc log x : numbered log -> Forall (fun y => newer log y x) (sents log) ->
  numbered (log ++ [Sent x]).
Proof.
  intros H Hf. unfold numbered. rewrite sents_app. apply sorted_snoc. split.
  - eapply sorted_weaken; [| exact H]. intros y z. apply newer_app.
  - eapply List.Forall_impl; [| exact Hf]. intros y. apply newer_app.
Qed.

(** ** One publisher *)

Abbreviation p_scope p := (ni_scope (p_interface p)).

(** The datagrams of its scope and token. *)
Definition owns (p : Publisher) (x : InterfaceScope * bytes) : Prop :=
  x.1 = p_scope p /\ token_of x.2 = p_token p.

Record pub_ok (log : history) (now : Z) (p : Publisher) : Prop := {
  po_sequence : in_width 64 (p_sequence p) /\ p_sequence p <> 0;
  po_token : all_bytes (p_token p) /\ bsize (p_token p) = 16 /\ DiscoveryWire.IsAllZero (p_token p) = false;
  po_below : reused log (p_token p) \/
    Forall (fun x => owns p x -> p_announced p = true /\ sequence_of x.2 <= p_sequence p) (sents log);
  po_announced : p_announced p = true -> exists x, x ∈ sents log /\ owns p x;
  po_due : p_announce_due_ms p <= p_last_send_ms p + kPublisherIntervalMs + kPublisherJitterMs;
  po_last : 0 <= p_last_send_ms p <= now;
}.

(** Datagrams of other scopes do not matter to it. *)
Definition elsewhere (scope : InterfaceScope) (e : happening) : Prop :=
  match e with Sent x => x.1 <> scope | Drew _ => True end.

Lemma elsewhere_sents scope new : Forall (elsewhere scope) new -> Forall (fun x => x.1 <> scope) (sents new).
Proof.
  rewrite !List.Forall_forall. intros H x Hx%list_elem_of_In%sents_elem%list_elem_of_In. by apply (H (Sent x)).
Qed.

Lemma pub_ok_others log now p new now' : pub_ok log now p -> Forall (elsewhere (p_scope p)) new ->
  now <= now' -> pub_ok (log ++ new) now' p.
Proof.
  intros [H1 H2 H3 H4 H5 H6] Hn%elsewhere_sents Hle. constructor; try done; [| | lia]; rewrite sents_app.
  - destruct H3 as [H3 | H3]; [left; by apply reused_app | right].
    apply Forall_app. split; [done |]. eapply List.Forall_impl; [| exact Hn]. intros x Hx [? _]. done.
  - intros Ha. destruct (H4 Ha) as (x & Hx & Ho). exists x. split; [| done]. apply elem_of_app. by left.
Qed.

Lemma pub_ok_later log now now' p : now <= now' -> pub_ok log now p -> pub_ok log now' p.
Proof.
  intros Hle H. rewrite <- (app_nil_r log). apply (pub_ok_others log now); [done | constructor | done].
Qed.

(** An encoded datagram. *)
Lemma encoded_members f type sequence token port ttl label d :
  arguments_typed sequence token port ttl label ->
  EncodeAdvertisement f type sequence token port ttl label = Some d ->
  token_of d = token /\ sequence_of d = sequence.
Proof.
  intros Ht He. destruct (EncodeAdvertisement_sound f _ _ _ _ _ _ _ Ht He) as [Ha ->].
  destruct Ht as (Ws & [_ Hs] & _).
  destruct (datagram_members type sequence token port ttl (label_tlvs label) Hs)
    as (_ & _ & S12 & S20 & _). unfold token_of, sequence_of. rewrite S12, S20. split; [done |].
  rewrite discovery_ReadU64_same. by apply ReadU64_bytes.
Qed.

Section Laws.
Context {W : Type} {env : DiscoveryEnvironment W} {laws : LawfulDiscovery W}.
Variable v : option (bytes -> bool).
#[local] Set Default Proof Using "Type".

(** From one world to a later one, with what was sent in between. *)
Definition later (w : W) (new : history) (w' : W) : Prop :=
  trace w' = trace w ++ new /\ clock w <= clock w'.

Lemma later_refl w : later w [] w.
Proof. split; [by rewrite app_nil_r | done]. Qed.

Lemma later_trans w1 w2 w3 n1 n2 : later w1 n1 w2 -> later w2 n2 w3 -> later w1 (n1 ++ n2) w3.
Proof. intros [E1 C1] [E2 C2]. split; [by rewrite E2, E1, app_assoc | lia]. Qed.

Lemma later_quiet w w' : trace w' = trace w /\ clock w <= clock w' -> later w [] w'.
Proof. intros [E C]. split; [by rewrite E, app_nil_r | done]. Qed.

(** Only random bytes were drawn in between. *)
Definition drew (w w' : W) : Prop := exists new, later w new w' /\ sents new = [].

Lemma drew_refl w : drew w w.
Proof. exists []. split; [apply later_refl | done]. Qed.

Lemma drew_trans w1 w2 w3 : drew w1 w2 -> drew w2 w3 -> drew w1 w3.
Proof.
  intros (n1 & L1 & E1) (n2 & L2 & E2). exists (n1 ++ n2). split; [by apply (later_trans _ w2) |].
  by rewrite sents_app, E1, E2.
Qed.

Lemma drew_quiet w w' : trace w' = trace w /\ clock w <= clock w' -> drew w w'.
Proof. intros H. exists []. split; [by apply later_quiet | done]. Qed.

Lemma drew_sents w w' : drew w w' -> sents (trace w') = sents (trace w).
Proof. intros (new & [-> _] & E). by rewrite sents_app, E, app_nil_r. Qed.

Lemma Fill_drew n w : drew w (Fill n w).1.
Proof.
  destruct (law_Fill n w) as (E & C & _). eexists. split; [by split |]. by destruct (Fill n w).2.
Qed.

(** A token is known to the source when it is returned. *)
Lemma GenerateToken_spec w : let x := GenerateToken w in
  drew w x.1 /\ forall token, x.2 = Some token ->
    all_bytes token /\ bsize token = 16 /\ DiscoveryWire.IsAllZero token = false /\
    forall y, y ∈ sents (trace w) -> token_of y.2 = token -> reused (trace x.1) token.
Proof.
  unfold GenerateToken. generalize 4%nat as n. intros n. revert w.
  induction n as [| n IH]; intros w; [split; [apply drew_refl | done] |]. cbn [GenerateToken_loop].
  destruct (law_Fill 16 w) as (E & C & Hl). pose proof (Fill_drew 16 w) as Hd.
  destruct (Fill 16 w) as [w1 [token |]]; cbn [fst snd] in *; [| done].
  destruct (AnyNonzero token) eqn:Ez.
  - cbn [fst snd]. split; [done |]. intros t [= <-]. destruct (Hl token eq_refl) as [Hb Hn].
    split; [done |]. split; [unfold bsize; lia |]. split.
    + apply not_true_iff_false. intros Hall. unfold DiscoveryWire.IsAllZero in Hall. unfold AnyNonzero in Ez.
      rewrite forallb_forall in Hall. apply existsb_exists in Ez as (b & Hin & Hb'). by rewrite (Hall b Hin) in Hb'.
    + intros y Hy <-. rewrite E. apply reused_drawn; [done | by apply list_elem_of_singleton].
  - destruct (IH w1) as [D1 H1]. split; [by apply (drew_trans _ w1) |].
    intros t Ht. destruct (H1 t Ht) as (? & ? & ? & Hr). split; [done |]. split; [done |]. split; [done |].
    intros y Hy. apply Hr. rewrite E, sents_app. apply elem_of_app. by left.
Qed.

Lemma Jitter_spec w : let x := Jitter w in
  drew w x.1 /\ forall j, x.2 = Some j -> - kPublisherJitterMs <= j <= kPublisherJitterMs.
Proof.
  unfold Jitter. generalize 4%nat as n. intros n. revert w.
  induction n as [| n IH]; intros w; [split; [apply drew_refl | done] |]. cbn [Jitter_loop].
  pose proof (Fill_drew 4 w) as Hd.
  destruct (Fill 4 w) as [w1 [l |]]; cbn [fst snd] in *; [| done].
  cbv zeta. destruct (_ <? kLimit).
  - cbn [fst snd]. split; [done |]. intros j [= <-].
    match goal with |- context [?x mod kRange] => pose proof (Z.mod_pos_bound x kRange eq_refl) as Hb end.
    unfold kRange, kPublisherJitterMs in *. lia.
  - destruct (IH w1) as [D1 H1]. split; [by apply (drew_trans _ w1) | done].
Qed.

Lemma SaturatingAdd_le a b : SaturatingAdd a b <= a + b \/ b < 0.
Proof. unfold SaturatingAdd. destruct (_ >? _) eqn:E; bool_facts; lia. Qed.

(** A publisher whose number is above those of its datagrams sends. *)
Definition may_send (log : history) (p : Publisher) : Prop :=
  reused log (p_token p) \/ Forall (fun x => owns p x -> sequence_of x.2 < p_sequence p) (sents log).

Definition config_ok (config : DiscoveryConfig) : Prop :=
  in_width 16 (cf_service_port config) /\ all_bytes (cf_display_label config).

(** What happened concerns the given scopes only. *)
Definition within (scopes : list InterfaceScope) (e : happening) : Prop :=
  match e with Sent x => x.1 ∈ scopes | Drew _ => True end.

Lemma within_elsewhere scopes scope new : scope ∉ scopes -> Forall (within scopes) new ->
  Forall (elsewhere scope) new.
Proof.
  intros Hn H. eapply List.Forall_impl; [| exact H]. intros [x | l]; cbn; [by intros Hx <- | done].
Qed.

Lemma within_mono scopes scopes' new : scopes ⊆ scopes' -> Forall (within scopes) new -> Forall (within scopes') new.
Proof. intros Hs H. eapply List.Forall_impl; [| exact H]. intros [x | l]; cbn; [apply Hs | done]. Qed.

Lemma within_drawn scopes new : sents new = [] -> Forall (within scopes) new.
Proof.
  intros E. apply List.Forall_forall. intros [x | l] Hx%list_elem_of_In; [| done].
  apply sents_elem in Hx. rewrite E in Hx. by apply not_elem_of_nil in Hx.
Qed.

Record sends (w : W) (p : Publisher) (p' : Publisher) (w' : W) : Prop := {
  se_new : exists new, later w new w' /\ Forall (within [p_scope p]) new;
  se_numbered : numbered (trace w) -> numbered (trace w');
  se_interface : p_interface p' = p_interface p;
}.

Lemma sends_none w p : sends w p p w.
Proof. split; [exists []; split; [apply later_refl | constructor] | done | done]. Qed.

Lemma numbered_drew w w' : drew w w' -> numbered (trace w) -> numbered (trace w').
Proof. intros (new & [-> _] & E). by apply numbered_quiet. Qed.

Lemma pub_ok_drew w w' p : drew w w' -> pub_ok (trace w) (clock w) p -> pub_ok (trace w') (clock w') p.
Proof.
  intros (new & [-> C] & E) H. apply (pub_ok_others _ (clock w)); [done | | done].
  apply (within_elsewhere []); [apply not_elem_of_nil | by apply within_drawn].
Qed.

Lemma sends_drew w p p' w' : p_interface p' = p_interface p -> drew w w' -> sends w p p' w'.
Proof.
  intros I D. split; [| by apply numbered_drew | done]. destruct D as (new & L & E). exists new.
  split; [done | by apply within_drawn].
Qed.

Lemma sends_trans w1 w2 w3 p1 p2 p3 : sends w1 p1 p2 w2 -> sends w2 p2 p3 w3 -> sends w1 p1 p3 w3.
Proof.
  intros [(n1 & L1 & F1) N1 I1] [(n2 & L2 & F2) N2 I2]. split; [| by intros ?%N1%N2 | congruence].
  exists (n1 ++ n2). split; [by apply (later_trans _ w2) |]. apply Forall_app. split; [done |]. by rewrite <- I1.
Qed.

(** One datagram numbered above the earlier ones. *)
Lemma send_one w p d : may_send (trace w) p -> token_of d = p_token p -> sequence_of d = p_sequence p ->
  let w' := (Send (p_scope p) d w).1 in
  later w [Sent (p_scope p, d)] w' /\ (numbered (trace w) -> numbered (trace w')).
Proof.
  intros Hm Ht Hs. destruct (law_Send (p_scope p) d w) as [E C]. split; [by split |]. rewrite E. intros Hn.
  apply numbered_snoc; [done |]. destruct Hm as [Hr | Hm].
  - apply List.Forall_forall. intros x _ _ _. right. cbn. by rewrite Ht.
  - eapply List.Forall_impl; [| exact Hm]. intros x Hx Hsc Htok. cbn in *. left.
    rewrite Hs. apply Hx. split; [done | congruence].
Qed.

Lemma SendNumbered_spec config now_ms p w : config_ok config -> pub_ok (trace w) (clock w) p ->
  may_send (trace w) p -> p_last_send_ms p <= now_ms <= clock w ->
  let x := SendNumbered v config now_ms p w in
  sends w p x.1.1 x.1.2 /\ pub_ok (trace x.1.2) (clock x.1.2) x.1.1 /\ p_token x.1.1 = p_token p.
Proof.
  intros [Wp Hl] H Hm Hnow. unfold SendNumbered.
  destruct (EncodeAdvertisement _ _ _ _ _ _ _) as [d |] eqn:He; [| split; [apply sends_none | done]].
  destruct (encoded_members (IsCanonical v) kAnnounce (p_sequence p) (p_token p) (cf_service_port config)
    kAdvertisedTtlSeconds (cf_display_label config) d) as [Etok Eseq]; [| exact He |].
  { destruct (po_token _ _ _ H) as (T1 & T2 & _). destruct (po_sequence _ _ _ H) as [S1 _].
    split; [done |]. split; [done |]. split; [done |]. split; [unfold kAdvertisedTtlSeconds; widths | done]. }
  destruct (send_one w p d Hm Etok Eseq) as [L1 N1]. destruct (Send (p_scope p) d w) as [w1 b1]. cbn [fst] in *.
  set (p1 := p <| p_announced := true |> <| p_last_send_ms := now_ms |> <| p_update_due_ms := None |>).
  assert (Hlast : 0 <= now_ms) by (pose proof (po_last _ _ _ H); lia).
  assert (H1 : pub_ok (trace w1) (clock w1) p1).
  { destruct L1 as [E1 C1]. rewrite E1. destruct H as [A1 A2 A3 A4 A5 A6]. constructor; cbn; try done; [| | lia..].
    - rewrite sents_app. destruct Hm as [Hm | Hm]; [left; by apply reused_app | right]. apply Forall_app. split.
      + eapply List.Forall_impl; [| exact Hm]. intros x Hx Ho. split; [done |]. specialize (Hx Ho). lia.
      + apply list.Forall_singleton. intros _. cbn. split; [done | lia].
    - intros _. exists (p_scope p, d). rewrite sents_app.
      split; [apply elem_of_app; right; by apply list_elem_of_singleton | done]. }
  assert (S1 : sends w p p1 w1).
  { split; [exists [Sent (p_scope p, d)]; split; [done |] | done | done].
    apply list.Forall_singleton. by apply list_elem_of_singleton. }
  unfold SchedulePeriodicLocked. destruct (Jitter_spec w1) as [D2 J2]. destruct (Jitter w1) as [w2 j].
  cbn [fst snd] in *.
  assert (Hend : forall p2, p_interface p2 = p_interface p1 -> pub_ok (trace w1) (clock w1) p2 ->
    sends w p p2 w2 /\ pub_ok (trace w2) (clock w2) p2).
  { intros p2 Ei H2. split; [| by apply (pub_ok_drew w1)].
    apply (sends_trans _ w1 _ _ p1); [done |]. apply sends_drew; [by rewrite Ei | done]. }
  destruct j as [j |]; cbn [fst snd].
  - destruct (Hend (p1 <| p_announce_due_ms := SaturatingAdd now_ms (u64 (kPublisherIntervalMs + j)) |>)) as [? ?];
      [done | | done].
    destruct H1 as [A1 A2 A3 A4 A5 A6]. constructor; try done. cbn. specialize (J2 j eq_refl).
    rewrite wrap_small by (unfold kPublisherIntervalMs, kPublisherJitterMs in *; widths).
    destruct (SaturatingAdd_le now_ms (kPublisherIntervalMs + j));
      unfold kPublisherIntervalMs, kPublisherJitterMs in *; lia.
  - destruct (Hend p1) as [? ?]; done.
Qed.

(** Withdrawing: afterwards the publisher is not announced; its datagrams are
    numbered up to its own number. *)
Lemma SendWithdrawalLocked_spec p w : pub_ok (trace w) (clock w) p ->
  let x := SendWithdrawalLocked v p w in
  sends w p x.1 x.2 /\ p_token x.1 = p_token p /\ p_announced x.1 = p_announced p && (p_sequence p =? umax 64) /\
  p_last_send_ms x.1 = p_last_send_ms p /\ p_announce_due_ms x.1 = p_announce_due_ms p /\
  Forall (fun y => owns p y \/ y ∈ sents (trace w)) (sents (trace x.2)) /\
  (p_announced p = false -> x = (p, w)).
Proof.
  intros H. unfold SendWithdrawalLocked. destruct (p_announced p) eqn:Ea; cbn [negb orb andb].
  2: { split; [apply sends_none |]. repeat split; try done. apply List.Forall_forall. intros y Hy. right. by apply list_elem_of_In. }
  destruct (Z.eqb_spec (p_sequence p) (umax 64)) as [Emax | Emax].
  { split; [apply sends_none |]. repeat split; try done. apply List.Forall_forall. intros y Hy. right. by apply list_elem_of_In. }
  destruct (po_sequence _ _ _ H) as [Ws Hs]. destruct (po_token _ _ _ H) as (T1 & T2 & T3).
  assert (Eadd : uadd 64 (p_sequence p) 1 = p_sequence p + 1) by (apply uadd_small; unfold umax in *; widths).
  rewrite Eadd. set (p1 := p <| p_sequence := p_sequence p + 1 |>).
  assert (Hm : may_send (trace w) p1).
  { destruct (po_below _ _ _ H) as [Hr | Hb]; [by left | right].
    eapply List.Forall_impl; [| exact Hb]. intros x Hx Ho. destruct (Hx Ho). cbn. lia. }
  destruct (EncodeAdvertisement _ _ _ _ _ _ _) as [d |] eqn:He.
  - destruct (encoded_members (IsCanonical v) kWithdraw (p_sequence p1) (p_token p1) 0 0 [] d) as [Etok Eseq]; [| exact He |].
    { split; [cbn; unfold umax in *; widths |]. split; [done |]. split; [widths |]. split; [widths | constructor]. }
    destruct (send_one w p1 d Hm Etok Eseq) as [L1 N1]. change (p_scope p1) with (p_scope p) in *.
    cbn [fst snd]. split.
    { split; [exists [Sent (p_scope p, d)]; split; [done |] | done | done].
      apply list.Forall_singleton. by apply list_elem_of_singleton. }
    split; [done |]. split; [done |]. split; [done |]. split; [done |]. split; [| done].
    destruct L1 as [-> _]. rewrite sents_app. apply Forall_app. split.
    + apply List.Forall_forall. intros y Hy. right. by apply list_elem_of_In.
    + apply list.Forall_singleton. left. done.
  - cbn [fst snd]. split; [by destruct (sends_none w p) |]. repeat split; try done.
    apply List.Forall_forall. intros y Hy. right. by apply list_elem_of_In.
Qed.

(** ** The tokens the cache knows *)

Definition known_self (c : DiscoveryCache) (p : Publisher) : Prop := IsSelf (p_scope p) (p_token p) c = true.

Lemma IsSelf_iff scope token c : IsSelf scope token c = true <->
  exists t, t ∈ local_tokens_ c /\ lt_scope t = scope /\ lt_token t = token.
Proof.
  unfold IsSelf. rewrite existsb_exists. split; intros (t & H1 & H2).
  - apply andb_true_iff in H2 as [H2%bool_decide_eq_true H3%same_bytes_true]. exists t. by rewrite list_elem_of_In.
  - destruct H2 as [<- <-]. exists t. split; [by apply list_elem_of_In |].
    rewrite bool_decide_true by done. by apply same_bytes_true.
Qed.

(** A token of another scope stays. *)
Lemma SetLocalToken_others scope token c p : p_scope p <> scope ->
  known_self c p -> known_self (SetLocalToken scope token c).1 p.
Proof.
  intros Hp. unfold SetLocalToken. destruct (_ || _); [done |]. unfold known_self.
  destruct (find_if _ _) as [i |] eqn:Ef; [| destruct (Nat.eqb _ _); [done |]]; rewrite !IsSelf_iff;
    intros (u & Hu & E1 & E2); exists u; (split; [| done]); cbn.
  - destruct (find_if_Some _ _ _ Ef) as (t & Hi & Et). apply bool_decide_eq_true in Et.
    apply list_elem_of_lookup in Hu as [j Hj]. apply list_elem_of_lookup. exists j.
    rewrite list_lookup_insert_ne; [done |]. intros ->. congruence.
  - apply elem_of_app. by left.
Qed.

Lemma SetLocalToken_self scope token c :
  (SetLocalToken scope token c).2 = true -> IsSelf scope token (SetLocalToken scope token c).1 = true.
Proof.
  unfold SetLocalToken. destruct (_ || _) eqn:E; [done |].
  destruct (find_if _ _) as [i |] eqn:Ef; [| destruct (Nat.eqb _ _); [done |]]; intros _;
    apply IsSelf_iff; exists {| lt_scope := scope; lt_token := token |}; (split; [| done]); cbn.
  - destruct (find_if_Some _ _ _ Ef) as (t & Hi & _).
    apply list_elem_of_lookup. exists i. apply list_lookup_insert_eq. by apply lookup_lt_Some in Hi.
  - apply elem_of_app. right. by apply list_elem_of_singleton.
Qed.

Abbreviation scopes_of l := (List.map (fun p => p_scope p) l).

(** ** Loops over the publishers

    A step that concerns some scopes leaves the publishers of the others alone. *)

Record moved (scopes : list InterfaceScope) (w : W) (c : DiscoveryCache) (w' : W) (c' : DiscoveryCache)
    : Prop := {
  mv_new : exists new, later w new w' /\ Forall (within scopes) new;
  mv_numbered : numbered (trace w) -> numbered (trace w');
  mv_cache : cache_ok v c -> cache_ok v c';
  mv_others p : p_scope p ∉ scopes -> known_self c p -> known_self c' p;
}.

Lemma moved_drew w w' c : drew w w' -> moved [] w c w' c.
Proof.
  intros D. split; try done; [| by apply numbered_drew]. destruct D as (new & L & E). exists new.
  split; [done | by apply within_drawn].
Qed.

Lemma moved_quiet w w' c : trace w' = trace w /\ clock w <= clock w' -> moved [] w c w' c.
Proof.
  intros H. by apply moved_drew, drew_quiet.
Qed.

Lemma moved_refl w c : moved [] w c w c.
Proof. apply moved_quiet. split; [done | lia]. Qed.

Lemma moved_mono scopes scopes' w c w' c' : scopes ⊆ scopes' -> moved scopes w c w' c' -> moved scopes' w c w' c'.
Proof.
  intros Hs [(new & L & F) H2 H3 H4]. split; try done.
  - exists new. split; [done | by apply (within_mono scopes)].
  - intros p Hp. apply H4. intros Hin. by apply Hp, Hs.
Qed.

Lemma moved_trans scopes w1 c1 w2 c2 w3 c3 :
  moved scopes w1 c1 w2 c2 -> moved scopes w2 c2 w3 c3 -> moved scopes w1 c1 w3 c3.
Proof.
  intros [(n1 & L1 & F1) N1 C1 O1] [(n2 & L2 & F2) N2 C2 O2]. split.
  - exists (n1 ++ n2). split; [by apply (later_trans _ w2) | by apply Forall_app].
  - by intros ?%N1%N2.
  - by intros ?%C1%C2.
  - intros p Hp Hk. by apply O2, O1.
Qed.

Lemma moved_clock scopes w c w' c' : moved scopes w c w' c' -> clock w <= clock w'.
Proof. intros [(new & [_ L] & _) _ _ _]. done. Qed.

(** A publisher the handlers may work with at [now_ms]. *)
Record ready (now_ms : Z) (w : W) (c : DiscoveryCache) (p : Publisher) : Prop := {
  rd_ok : pub_ok (trace w) (clock w) p;
  rd_self : known_self c p;
  rd_last : p_last_send_ms p <= now_ms;
}.

Lemma ready_moved now_ms scopes w c w' c' p :
  moved scopes w c w' c' -> p_scope p ∉ scopes -> ready now_ms w c p -> ready now_ms w' c' p.
Proof.
  intros [(new & [E C] & F) _ _ O] Hp [H1 H2 H3]. split; [| by apply O | done]. rewrite E.
  apply (pub_ok_others _ (clock w)); [done | by apply (within_elsewhere scopes) | done].
Qed.

Record handled (now_ms : Z) (p : Publisher) (c : DiscoveryCache) (w : W)
    (p' : Publisher) (c' : DiscoveryCache) (w' : W) : Prop := {
  hd_moved : moved [p_scope p] w c w' c';
  hd_interface : p_interface p' = p_interface p;
  hd_ready : ready now_ms w' c' p';
}.

Lemma handled_none now_ms p c w : ready now_ms w c p -> handled now_ms p c w p c w.
Proof.
  intros H. split; [| done | done]. apply (moved_mono []); [set_solver |].
  apply moved_refl.
Qed.

Lemma handled_trans now_ms p1 c1 w1 p2 c2 w2 p3 c3 w3 :
  handled now_ms p1 c1 w1 p2 c2 w2 -> handled now_ms p2 c2 w2 p3 c3 w3 -> handled now_ms p1 c1 w1 p3 c3 w3.
Proof.
  intros [M1 I1 R1] [M2 I2 R2]. split; [| congruence | done]. rewrite I1 in M2. by apply (moved_trans _ _ _ w2 c2).
Qed.

Lemma sends_moved w c p p' w' : sends w p p' w' -> moved [p_scope p] w c w' c.
Proof.
  intros [(new & L & F) N _]. split; try done. by exists new.
Qed.

(** The cache takes a new token of a publisher it knows. *)
Lemma SetLocalToken_known p c token : cache_ok v c -> known_self c p -> IsZero token = false ->
  (SetLocalToken (p_scope p) token c).2 = true.
Proof.
  intros H Hk Hz. apply IsSelf_iff in Hk as (t & Ht & Es & _). unfold SetLocalToken.
  assert (Hr : state_ c = DiscoveryCache.kRunning).
  { destruct (decide (state_ c = DiscoveryCache.kRunning)) as [| Hn]; [done |].
    destruct (ok_idle _ _ H Hn) as (_ & E & _). rewrite E in Ht. by apply not_elem_of_nil in Ht. }
  pose proof (ok_tokens _ _ H) as [_ Ht2]. rewrite List.Forall_forall in Ht2.
  pose proof (Ht2 t (proj1 (list_elem_of_In _ _) Ht)) as [Hs _]. rewrite Es in Hs.
  rewrite bool_decide_true by done. rewrite Hz, (proj2 (HasScope_iff _ _) Hs). cbn [negb orb].
  destruct (find_if _ _) as [i |] eqn:Ef; [done |]. pose proof (find_if_None _ _ Ef t Ht) as Hf.
  cbn in Hf. by rewrite bool_decide_true in Hf.
Qed.

Lemma SetLocalToken_moved w scope token c : moved [scope] w c w (SetLocalToken scope token c).1.
Proof.
  split; [exists []; split; [apply later_refl | constructor] | done | |].
  - intros H. by destruct (SetLocalToken_ok v scope token c H).
  - intros q Hq. apply SetLocalToken_others. set_solver.
Qed.

(** A publisher with a fresh token. *)
Lemma fresh_ready now_ms w c p : cache_ok v c -> known_self c p ->
  (forall y, y ∈ sents (trace w) -> token_of y.2 = p_token p -> reused (trace w) (p_token p)) ->
  all_bytes (p_token p) -> bsize (p_token p) = 16 -> DiscoveryWire.IsAllZero (p_token p) = false ->
  p_sequence p = 1 -> p_announced p = false -> 0 <= p_last_send_ms p <= now_ms -> now_ms <= clock w ->
  p_announce_due_ms p <= p_last_send_ms p + kPublisherIntervalMs + kPublisherJitterMs ->
  ready now_ms w c p /\ may_send (trace w) p.
Proof.
  intros H Hk Hf T1 T2 T3 Es Ea Hl Hn Hd.
  assert (Hno : forall P : _ -> Prop, reused (trace w) (p_token p) \/ Forall (fun x => owns p x -> P x) (sents (trace w))).
  { intros P. destruct (decide (Exists (fun y => token_of y.2 = p_token p) (sents (trace w)))) as [He | He].
    - left. apply List.Exists_exists in He as (y & Hy%list_elem_of_In & Et). by apply (Hf y).
    - right. apply List.Forall_forall. intros y Hy [_ Et]. exfalso. apply He, List.Exists_exists. by exists y. }
  split; [| apply Hno]. split; [| done | lia]. constructor; [| done | apply Hno | by rewrite Ea | done | lia].
  rewrite Es. split; [widths | done].
Qed.

Section Moment.
Variable now_ms : Z.

(** What holds of all publishers between handlers and within their loops. *)
Record all_ready (w : W) (c : DiscoveryCache) (l : list Publisher) : Prop := {
  ar_ready : Forall (ready now_ms w c) l;
  ar_scopes : NoDup (List.map (fun p => p_scope p) l);
  ar_numbered : numbered (trace w);
  ar_cache : cache_ok v c;
  ar_now : now_ms <= clock w;
}.

Lemma ready_rest scopes w c w' c' l : moved scopes w c w' c' -> Forall (fun p => p_scope p ∉ scopes) l ->
  Forall (ready now_ms w c) l -> Forall (ready now_ms w' c') l.
Proof.
  intros M Hn Hr. apply List.Forall_forall. intros p Hp. rewrite List.Forall_forall in Hn, Hr.
  by apply (ready_moved _ scopes w c); [| apply Hn | apply Hr].
Qed.

Lemma not_in_scopes l p : p_scope p ∉ scopes_of l -> Forall (fun q => p_scope q ∉ [p_scope p]) l.
Proof.
  intros H. apply List.Forall_forall. intros q Hq E%list_elem_of_singleton. apply H. rewrite <- E.
  apply list_elem_of_In. by apply in_map_iff; exists q.
Qed.

Lemma all_ready_tail w c p l w' c' : all_ready w c (p :: l) -> moved [p_scope p] w c w' c' ->
  all_ready w' c' l.
Proof.
  intros [R N S C T] M. apply list.Forall_cons in R as [_ R]. cbn in N. apply list.NoDup_cons in N as [Np N]. split.
  - apply (ready_rest [p_scope p] w c); [done | by apply not_in_scopes | done].
  - done.
  - by apply (mv_numbered _ _ _ _ _ M).
  - by apply (mv_cache _ _ _ _ _ M).
  - pose proof (moved_clock _ _ _ _ _ M). lia.
Qed.

Lemma all_ready_cons scopes w c p w' c' l' : ready now_ms w c p -> moved scopes w c w' c' -> p_scope p ∉ scopes ->
  scopes_of l' ⊆ scopes -> all_ready w' c' l' -> all_ready w' c' (p :: l').
Proof.
  intros Hp M Hn Hs [R N S C T]. split; try done.
  - apply list.Forall_cons. split; [by apply (ready_moved _ scopes w c) | done].
  - cbn. apply list.NoDup_cons. split; [intros Hin; by apply Hn, Hs | done].
Qed.

Lemma moved_cons p l w1 c1 w2 c2 w3 c3 : moved [p_scope p] w1 c1 w2 c2 -> moved l w2 c2 w3 c3 ->
  moved (p_scope p :: l) w1 c1 w3 c3.
Proof.
  intros M1 M2. apply (moved_trans _ _ _ w2 c2); [apply (moved_mono [p_scope p]) | apply (moved_mono l)]; try done.
  - intros x ->%list_elem_of_singleton. by left.
  - intros x Hx. by right.
Qed.

Lemma for_publishers_spec f l c w b :
  (forall p c w, cache_ok v c -> now_ms <= clock w -> ready now_ms w c p ->
    let x := f p c w in handled now_ms p c w x.1.1.1 x.1.1.2 x.1.2) ->
  all_ready w c l ->
  let x := for_publishers f l c w b in
  all_ready x.1.2 x.1.1.2 x.1.1.1 /\ moved (scopes_of l) w c x.1.2 x.1.1.2 /\
  scopes_of x.1.1.1 = scopes_of l.
Proof.
  intros Hf. revert c w b. induction l as [| p l IH]; intros c w b H.
  { cbn. split; [done |]. split; [apply moved_refl | done]. }
  cbn [for_publishers]. pose proof (ar_ready _ _ _ H) as R. apply list.Forall_cons in R as [Rp Rl].
  destruct (Hf p c w (ar_cache _ _ _ H) (ar_now _ _ _ H) Rp) as [M1 I1 R1].
  pose proof (all_ready_tail w c p l _ _ H M1) as H1.
  destruct (f p c w) as [[[p1 c1] w1] b1]. cbn [fst snd] in *.
  destruct (IH c1 w1 (b1 && b) H1) as (H2 & M2 & E2).
  destruct (for_publishers f l c1 w1 (b1 && b)) as [[[l2 c2] w2] b2]. cbn [fst snd List.map] in *.
  pose proof (ar_scopes _ _ _ H) as N. cbn in N. apply list.NoDup_cons in N as [Np _]. rewrite I1, E2.
  split; [| split; [by apply (moved_cons p _ _ _ w1 c1) | done]].
  apply (all_ready_cons (scopes_of l) w1 c1); [done | done | by rewrite I1 | by rewrite E2 | done].
Qed.

Lemma CreatePublisherLocked_spec i c w : 0 <= now_ms <= clock w -> cache_ok v c ->
  let x := CreatePublisherLocked i now_ms c w in
  moved [ni_scope i] w c x.1.2 x.1.1 /\
  forall p, x.2 = Some p -> p_interface p = i /\ ready now_ms x.1.2 x.1.1 p.
Proof.
  intros Hnow Hc. unfold CreatePublisherLocked. destruct (GenerateToken_spec w) as [D0 Hg].
  destruct (GenerateToken w) as [w0 [token |]]; cbn [fst snd] in *.
  2: { split; [apply (moved_mono []); [apply list_subseteq_nil | by apply moved_drew] | done]. }
  destruct (Hg token eq_refl) as (T1 & T2 & T3 & Tf). clear Hg.
  assert (M0 : moved [ni_scope i] w c w0 c) by (apply (moved_mono []); [apply list_subseteq_nil | by apply moved_drew]).
  pose proof (moved_clock _ _ _ _ _ M0).
  pose proof (SetLocalToken_self (ni_scope i) token c) as Hself.
  pose proof (SetLocalToken_moved w0 (ni_scope i) token c) as M1.
  destruct (SetLocalToken (ni_scope i) token c) as [c1 set]. cbn [fst snd] in *.
  pose proof (moved_trans _ _ _ _ _ _ _ M0 M1) as M.
  destruct set; cbn [negb fst snd]; [| done]. split; [done |]. intros p [= <-]. split; [done |].
  apply (fresh_ready now_ms w0 c1); cbn; try done; try lia.
  - by apply (mv_cache _ _ _ _ _ M1).
  - by apply Hself.
  - rewrite (drew_sents _ _ D0). apply Tf.
Qed.

Lemma CreatePublishers_spec l c w : 0 <= now_ms <= clock w -> cache_ok v c -> numbered (trace w) ->
  NoDup (List.map ni_scope l) ->
  let x := CreatePublishers l now_ms c w in
  all_ready x.1.2 x.1.1.2 x.1.1.1 /\ moved (List.map ni_scope l) w c x.1.2 x.1.1.2 /\
  scopes_of x.1.1.1 ⊆ List.map ni_scope l.
Proof.
  revert c w. induction l as [| i l IH]; intros c w Hnow Hc Hs Hn.
  { cbn. split; [| split; [apply moved_refl | done]].
    split; try done; try constructor. lia. }
  cbn [CreatePublishers]. cbn in Hn. apply list.NoDup_cons in Hn as [Hi Hn].
  destruct (CreatePublisherLocked_spec i c w Hnow Hc) as (M1 & H1).
  destruct (CreatePublisherLocked i now_ms c w) as [[c1 w1] [p |]]; cbn [fst snd List.map] in *.
  2: { split; [| split; [apply (moved_mono [ni_scope i]); [| done] | apply list_subseteq_nil]].
       2: { intros x ->%list_elem_of_singleton. by left. }
       pose proof (moved_clock _ _ _ _ _ M1).
       split; [constructor | constructor | by apply (mv_numbered _ _ _ _ _ M1) | by apply (mv_cache _ _ _ _ _ M1) | lia]. }
  destruct (H1 p eq_refl) as [Ip Rp]. clear H1. pose proof (moved_clock _ _ _ _ _ M1).
  destruct (IH c1 w1) as (H2 & M2 & S2);
    [lia | by apply (mv_cache _ _ _ _ _ M1) | by apply (mv_numbered _ _ _ _ _ M1) | done |].
  destruct (CreatePublishers l now_ms c1 w1) as [[[l2 c2] w2] b2]. cbn [fst snd List.map] in *.
  rewrite <- Ip in *. split; [| split; [by apply (moved_cons p _ _ _ w1 c1) |]].
  2: { intros x [-> | Hx]%list.elem_of_cons; [by left | right; by apply S2]. }
  by apply (all_ready_cons (List.map ni_scope l) w1 c1).
Qed.

End Moment.

Section Loops.
Variable config : DiscoveryConfig.
Hypothesis Hconfig : config_ok config.
Variable now_ms : Z.
#[local] Set Default Proof Using "All".

Lemma SendNumbered_last p w :
  p_last_send_ms (SendNumbered v config now_ms p w).1.1 = p_last_send_ms p \/
  p_last_send_ms (SendNumbered v config now_ms p w).1.1 = now_ms.
Proof using Type.
  unfold SendNumbered. destruct (EncodeAdvertisement _ _ _ _ _ _ _); [| by left]. destruct (Send _ _ w) as [w1 b].
  unfold SchedulePeriodicLocked. destruct (Jitter w1) as [w2 [j |]]; by right.
Qed.

Lemma SendNumbered_handled p c w : now_ms <= clock w -> ready now_ms w c p -> may_send (trace w) p ->
  let x := SendNumbered v config now_ms p w in handled now_ms p c w x.1.1 c x.1.2.
Proof.
  intros Hnow [H1 H2 H3] Hm. destruct (SendNumbered_spec config now_ms p w Hconfig H1 Hm) as (S & H & Et); [lia |].
  split; [by apply (sends_moved w c p (SendNumbered v config now_ms p w).1.1) | by destruct S |].
  split; [done | |].
  - unfold known_self. rewrite Et. by rewrite (se_interface _ _ _ _ S).
  - destruct (SendNumbered_last p w) as [-> | ->]; [done | lia].
Qed.

Lemma RotateLocked_handled p c w : cache_ok v c -> now_ms <= clock w -> ready now_ms w c p ->
  let x := RotateLocked v config now_ms p c w in handled now_ms p c w x.1.1.1 x.1.1.2 x.1.2.
Proof.
  intros Hc Hnow Hr. unfold RotateLocked. destruct (GenerateToken_spec w) as [D0 Hg].
  assert (Mq : moved [] w c (GenerateToken w).1 c) by (by apply moved_drew).
  pose proof (moved_clock _ _ _ _ _ Mq) as C0. pose proof (drew_sents _ _ D0) as E0.
  destruct (GenerateToken w) as [w0 [replacement |]]; cbn [fst snd] in *.
  2: { assert (M : moved [] w c w0 c) by (by apply moved_drew). split; [| done |].
       - apply (moved_mono []); [apply list_subseteq_nil | done].
       - apply (ready_moved _ [] w c); [done | set_solver | done]. }
  destruct (Hg replacement eq_refl) as (T1 & T2 & T3 & Tf). clear Hg.
  assert (M0 : moved [p_scope p] w c w0 c) by (apply (moved_mono []); [apply list_subseteq_nil | done]).
  assert (R0 : ready now_ms w0 c p) by (apply (ready_moved _ [] w c); [done | set_solver | done]).
  destruct (SendWithdrawalLocked_spec p w0 (rd_ok _ _ _ _ R0)) as (S1 & Et1 & _ & El1 & Ed1 & Hlog & Hsame).
  destruct (SendWithdrawalLocked v p w0) as [p1 w1]. cbn [fst snd] in *.
  pose proof (sends_moved w0 c p p1 w1 S1) as M1. pose proof (se_interface _ _ _ _ S1) as I1.
  set (p2 := p1 <| p_token := replacement |> <| p_sequence := 1 |> <| p_announced := false |>
    <| p_rotation_due_ms := _ |>).
  assert (Hfresh : forall y, y ∈ sents (trace w1) -> token_of y.2 = replacement -> reused (trace w1) replacement).
  { destruct (se_new _ _ _ _ S1) as (new & [Ew1 _] & _). intros y Hy Et.
    assert (Hr0 : reused (trace w0) replacement); [| rewrite Ew1; by apply reused_app].
    rewrite List.Forall_forall in Hlog. destruct (Hlog y (proj1 (list_elem_of_In _ _) Hy)) as [[_ Hoy] | Hy'].
    - destruct (p_announced p) eqn:Ea.
      + destruct (po_announced _ _ _ (rd_ok _ _ _ _ Hr) Ea) as (x0 & Hx0 & [_ Ho]). apply (Tf x0); congruence.
      + pose proof (f_equal snd (Hsame eq_refl)) as Ew. cbn in Ew. rewrite Ew, E0 in Hy. by apply (Tf y).
    - rewrite E0 in Hy'. by apply (Tf y). }
  change (ni_scope (p_interface p2)) with (ni_scope (p_interface p1)). change (p_token p2) with replacement. rewrite I1.
  assert (K1 : known_self c p) by apply R0.
  pose proof (SetLocalToken_known p c replacement Hc K1 T3) as Hset.
  pose proof (SetLocalToken_self (p_scope p) replacement c Hset) as Hself.
  pose proof (SetLocalToken_moved w1 (p_scope p) replacement c) as M2.
  pose proof (mv_cache _ _ _ _ _ M2 Hc) as Hc2.
  destruct (SetLocalToken (p_scope p) replacement c) as [c2 set]. cbn [fst snd] in *. subst set. cbn [negb].
  assert (K2 : known_self c2 p2) by (unfold known_self; cbn; by rewrite I1).
  pose proof (moved_clock _ _ _ _ _ M1). pose proof (po_last _ _ _ (rd_ok _ _ _ _ R0)).
  pose proof (rd_last _ _ _ _ R0). pose proof (po_due _ _ _ (rd_ok _ _ _ _ R0)).
  destruct (fresh_ready now_ms w1 c2 p2) as [R2 Hm]; try done; try (cbn; lia).
  destruct (SendNumbered_handled p2 c2 w1 ltac:(lia) R2 Hm) as [M3 I3 R3].
  destruct (SendNumbered v config now_ms p2 w1) as [[p3 w3] b3]. cbn [fst snd] in *.
  replace (p_scope p2) with (p_scope p) in M3 by (cbn; by rewrite I1).
  split; [| by rewrite I3 | done].
  apply (moved_trans _ _ _ w0 c); [done |]. apply (moved_trans _ _ _ w1 c); [done |].
  by apply (moved_trans _ _ _ w1 c2).
Qed.

Lemma SendAnnounceLocked_handled p c w : cache_ok v c -> now_ms <= clock w -> ready now_ms w c p ->
  let x := SendAnnounceLocked v config now_ms p c w in handled now_ms p c w x.1.1.1 x.1.1.2 x.1.2.
Proof.
  intros Hc Hnow Hr. unfold SendAnnounceLocked.
  destruct (p_announced p && _) eqn:Emax; [by apply RotateLocked_handled |].
  set (p1 := if p_announced p then _ else p).
  assert (H1 : ready now_ms w c p1 /\ may_send (trace w) p1 /\ p_interface p1 = p_interface p).
  { pose proof Hr as [[[A1 A1'] A2 A3 A4 A5 A6] R2 R3]. unfold p1. destruct (p_announced p) eqn:Ea; cbn [andb] in Emax.
    - apply Z.eqb_neq in Emax.
      assert (Es : uadd 64 (p_sequence p) 1 = p_sequence p + 1) by (apply uadd_small; unfold umax in *; widths).
      rewrite Es. assert (Hlt : forall x, sequence_of x <= p_sequence p -> sequence_of x < p_sequence p + 1) by lia.
      split; [| split; [| done]].
      + split; [constructor; cbn; try done | done | done].
        * unfold umax in *; split; widths.
        * destruct A3 as [A3 | A3]; [by left | right].
          eapply List.Forall_impl; [| exact A3]. intros x Hx Ho. destruct (Hx Ho). split; [done | lia].
        * intros _. exact (A4 eq_refl).
      + destruct A3 as [A3 | A3]; [by left | right].
        eapply List.Forall_impl; [| exact A3]. intros x Hx Ho. destruct (Hx Ho). by apply Hlt.
    - split; [done | split; [| done]]. destruct A3 as [A3 | A3]; [by left | right]. eapply List.Forall_impl; [| exact A3]. intros x Hx Ho.
      by destruct (Hx Ho). }
  destruct H1 as (R1 & Hm & I1). destruct (SendNumbered_handled p1 c w Hnow R1 Hm) as [M I R].
  destruct (SendNumbered v config now_ms p1 w) as [[p2 w2] b]. cbn [fst snd] in *. rewrite I1 in M.
  split; [done | congruence | done].
Qed.

Lemma OnTimerPublisher_handled p c w : cache_ok v c -> now_ms <= clock w -> ready now_ms w c p ->
  let x := OnTimerPublisher v config now_ms p c w in handled now_ms p c w x.1.1.1 x.1.1.2 x.1.2.
Proof.
  intros Hc Hnow Hr. unfold OnTimerPublisher. destruct (_ >=? _); [by apply RotateLocked_handled |].
  set (first := match p_update_due_ms p with Some _ => _ | None => _ end).
  assert (H1 : handled now_ms p c w first.1.1.1 first.1.1.2 first.1.2).
  { unfold first. destruct (p_update_due_ms p); [destruct (_ >=? _) |];
      [by apply SendAnnounceLocked_handled | by apply handled_none..]. }
  destruct first as [[[p1 c1] w1] b1]. cbn [fst snd] in *. destruct (_ >=? _); [| done].
  pose proof (mv_cache _ _ _ _ _ (hd_moved _ _ _ _ _ _ _ H1) Hc) as Hc1.
  pose proof (moved_clock _ _ _ _ _ (hd_moved _ _ _ _ _ _ _ H1)).
  pose proof (SendAnnounceLocked_handled p1 c1 w1 Hc1 ltac:(lia) (hd_ready _ _ _ _ _ _ _ H1)) as H2.
  destruct (SendAnnounceLocked v config now_ms p1 c1 w1) as [[[p2 c2] w2] b2].
  by apply (handled_trans _ _ _ _ p1 c1 w1).
Qed.

(** Refreshing: the publishers found are those of interfaces that are still
    there. *)
Lemma RefreshPublishers_spec publishers l c w b : 0 <= now_ms <= clock w -> cache_ok v c -> numbered (trace w) ->
  NoDup (List.map ni_scope l) ->
  Forall (fun p => p_scope p ∈ List.map ni_scope l -> ready now_ms w c p) publishers ->
  let x := RefreshPublishers v config now_ms publishers l c w b in
  all_ready now_ms x.1.2 x.1.1.2 x.1.1.1 /\ moved (List.map ni_scope l) w c x.1.2 x.1.1.2 /\
  scopes_of x.1.1.1 ⊆ List.map ni_scope l.
Proof.
  revert c w b. induction l as [| i l IH]; intros c w b Hnow Hc Hs Hn Hp.
  { cbn. split; [| split; [apply moved_refl | done]]. split; try done; try constructor. lia. }
  cbn [RefreshPublishers]. cbn [List.map] in *. apply list.NoDup_cons in Hn as [Hi Hn].
  destruct (List.find _ publishers) as [e |] eqn:Ef.
  - apply find_some in Ef as [Hin Ee%bool_decide_eq_true]. rewrite List.Forall_forall in Hp.
    assert (Re : ready now_ms w c (e <| p_interface := i |>)).
    { destruct (Hp e Hin) as [[A1 A2 A3 A4 A5 A6] R2 R3]; [rewrite Ee; by left |].
      unfold known_self, owns in *. rewrite Ee in *. split; [by constructor | done | done]. }
    destruct (IH c w b Hnow Hc Hs Hn) as (H2 & M2 & S2).
    { apply List.Forall_forall. intros p Hpin Hpl. apply Hp; [done |]. by right. }
    destruct (RefreshPublishers v config now_ms publishers l c w b) as [[[l2 c2] w2] b2].
    cbn [fst snd List.map] in *. split; [| split].
    + by apply (all_ready_cons now_ms (List.map ni_scope l) w c).
    + apply (moved_mono (List.map ni_scope l)); [| done]. intros x Hx. by right.
    + cbn. intros x [-> | Hx]%list.elem_of_cons; [by left | right; by apply S2].
  - destruct (CreatePublisherLocked_spec now_ms i c w Hnow Hc) as (M1 & H1).
    destruct (CreatePublisherLocked i now_ms c w) as [[c1 w1] [p |]]; cbn [fst snd List.map] in *;
      pose proof (mv_cache _ _ _ _ _ M1 Hc) as Hc1; pose proof (moved_clock _ _ _ _ _ M1).
    2: { split; [split; [constructor | constructor | by apply (mv_numbered _ _ _ _ _ M1) | done | lia] | split; [| by intros x ?%not_elem_of_nil]].
         apply (moved_mono [ni_scope i]); [| done]. intros x ->%list_elem_of_singleton. by left. }
    destruct (H1 p eq_refl) as [Ip Rp]. clear H1.
    destruct (SendAnnounceLocked_handled p c1 w1 Hc1 ltac:(lia) Rp) as [M2 I2 R2].
    destruct (SendAnnounceLocked v config now_ms p c1 w1) as [[[p2 c2] w2] b2]. cbn [fst snd] in *.
    rewrite <- Ip in M1, Hi |- *. pose proof (moved_trans _ _ _ _ _ _ _ M1 M2) as M.
    pose proof (moved_clock _ _ _ _ _ M).
    destruct (IH c2 w2 (b2 && b)) as (H3 & M3 & S3).
    { lia. }
    { by apply (mv_cache _ _ _ _ _ M). }
    { by apply (mv_numbered _ _ _ _ _ M). }
    { done. }
    { apply List.Forall_forall. intros q Hq Hql. rewrite List.Forall_forall in Hp.
      apply (ready_moved _ [p_scope p] w c); [done | | apply Hp; [done | by right]].
      intros E%list_elem_of_singleton. by rewrite E in Hql. }
    destruct (RefreshPublishers v config now_ms publishers l c2 w2 (b2 && b)) as [[[l3 c3] w3] b3].
    cbn [fst snd List.map] in *. rewrite I2. split; [| split].
    + apply (all_ready_cons now_ms (List.map ni_scope l) w2 c2); try done. by rewrite I2.
    + by apply (moved_cons p _ _ _ w2 c2).
    + intros x [-> | Hx]%list.elem_of_cons; [by left | right; by apply S3].
Qed.

End Loops.

(** Withdrawing the publishers of absent interfaces leaves the others as they are. *)
Lemma WithdrawAbsent_spec now_ms interfaces l c w : all_ready now_ms w c l ->
  let x := WithdrawAbsent v interfaces l w in
  Forall (fun p => ContainsScope interfaces (p_scope p) = true -> ready now_ms x.2 c p) x.1 /\
  moved (scopes_of l) w c x.2 c /\ scopes_of x.1 = scopes_of l.
Proof.
  revert w. induction l as [| p l IH]; intros w H.
  { cbn. split; [constructor |]. split; [apply moved_refl | done]. }
  cbn [WithdrawAbsent]. set (first := if ContainsScope _ _ then _ else _).
  pose proof (ar_ready _ _ _ _ H) as R. apply list.Forall_cons in R as [Rp _].
  assert (H1 : moved [p_scope p] w c first.2 c /\ p_interface first.1 = p_interface p /\
    (ContainsScope interfaces (p_scope p) = true -> ready now_ms first.2 c first.1)).
  { unfold first. destruct (ContainsScope _ _).
    - destruct (handled_none now_ms p c w Rp) as [M I R]. done.
    - destruct (SendWithdrawalLocked_spec p w (rd_ok _ _ _ _ Rp)) as [S1 _].
      split; [by apply (sends_moved w c p (SendWithdrawalLocked v p w).1) |]. split; [by destruct S1 | done]. }
  destruct first as [p1 w1]. cbn [fst snd] in *. destruct H1 as (M1 & I1 & R1).
  destruct (IH w1 (all_ready_tail now_ms w c p l w1 c H M1)) as (H2 & M2 & E2).
  destruct (WithdrawAbsent v interfaces l w1) as [l2 w2]. cbn [fst snd List.map] in *. rewrite I1, E2.
  pose proof (ar_scopes _ _ _ _ H) as N. cbn in N. apply list.NoDup_cons in N as [Np _].
  split; [| split; [by apply (moved_cons p _ _ _ w1 c) | done]].
  apply list.Forall_cons. split; [| done]. intros Hcs. rewrite I1 in Hcs.
  apply (ready_moved _ (scopes_of l) w1 c); [done | by rewrite I1 | by apply R1].
Qed.

Lemma SendWithdrawals_spec now_ms l c w : all_ready now_ms w c l ->
  moved (scopes_of l) w c (SendWithdrawals v l w).2 c.
Proof.
  revert w. induction l as [| p l IH]; intros w H; [apply moved_refl |].
  cbn [SendWithdrawals]. pose proof (ar_ready _ _ _ _ H) as R. apply list.Forall_cons in R as [Rp _].
  destruct (SendWithdrawalLocked_spec p w (rd_ok _ _ _ _ Rp)) as [S1 _]. pose proof (sends_moved w c p _ _ S1) as M1.
  destruct (SendWithdrawalLocked v p w) as [p1 w1]. cbn [fst snd] in *.
  pose proof (IH w1 (all_ready_tail now_ms w c p l w1 c H M1)) as M2.
  destruct (SendWithdrawals v l w1) as [l2 w2]. by apply (moved_cons p _ _ _ w1 c).
Qed.

(** ** The cache under the service *)

(** What the cache does with its peers keeps the tokens. *)
Lemma Receive_tokens metadata payload now_ms c :
  local_tokens_ (Receive v metadata payload now_ms c).1 = local_tokens_ c.
Proof.
  unfold Receive. destruct (negb (bool_decide _)); [done |]. destruct (_ <? _); [done |]. cbv zeta.
  destruct (_ || _); [done |]. set (c1 := EraseExpiredTombstones _ _).
  assert (E1 : local_tokens_ (Admit (md_observer metadata) (md_source metadata) now_ms c1).1 = local_tokens_ c).
  { unfold Admit. destruct (find_if _ _) as [i |]; [| done].
    destruct (find_if (same_source _ _) _) as [j |].
    - destruct (AdmitFrom_spec now_ms i j (c1 <| source_buckets_ := List.filter (fun item =>
        negb (usub 64 now_ms (updated_ms (sb_bucket item)) >=? kSourceBucketIdleMs)) (source_buckets_ c1) |>))
        as [[_ _ E _ _] _]. exact E.
    - cbv zeta. destruct (_ || _); [done |].
      match goal with |- context [AdmitFrom now_ms i ?j ?c2] => destruct (AdmitFrom_spec now_ms i j c2)
        as [[_ _ E _ _] _]; exact E end. }
  destruct (Admit _ _ _ c1) as [c2 admitted]. cbn [fst] in E1. rewrite <- E1.
  destruct (negb admitted); [done |]. destruct (md_truncated metadata); [done |].
  destruct (ParseAdvertisement _ _) as [e | a]; [done |]. destruct (IsSelf _ _ _); [done |].
  destruct (ad_type a).
  - unfold Announce. repeat case_match; done.
  - unfold Withdraw. repeat case_match; done.
Qed.

Lemma Advance_tokens now_ms c : local_tokens_ (Advance now_ms c).1 = local_tokens_ c.
Proof.
  unfold Advance. destruct (_ || _); [done |]. unfold Purge, Expire. destruct (Expire_loop _ _ _ _ _) as [[l evs] r]. done.
Qed.

Lemma tokens_known c c' p : local_tokens_ c' = local_tokens_ c -> known_self c p -> known_self c' p.
Proof. intros E. unfold known_self, IsSelf. by rewrite E. Qed.

(** Few scopes are all kept. *)
Lemma elem_of_insert_at {A} n (x y : A) l : y ∈ insert_at n x l <-> y = x \/ y ∈ l.
Proof.
  unfold insert_at. rewrite elem_of_app, list.elem_of_cons. rewrite <- (take_drop n l) at 3. rewrite elem_of_app. tauto.
Qed.

Lemma CanonicalScopes_complete scopes : (length scopes <= kMaxScopes)%nat ->
  forall x, x ∈ scopes -> x ∈ CanonicalScopes scopes.
Proof.
  intros Hlen. unfold CanonicalScopes.
  enough (H : forall l, (length l + length scopes <= kMaxScopes)%nat ->
    forall x, x ∈ scopes \/ x ∈ l -> x ∈ fold_left CanonicalScopes_step scopes l).
  { intros x Hx. apply H; [cbn; lia | by left]. }
  clear Hlen. induction scopes as [| s scopes IH]; intros l Hl x Hx; cbn [fold_left length] in *.
  { destruct Hx as [Hx | Hx]; [by apply not_elem_of_nil in Hx | done]. }
  assert (Hstep : (length (CanonicalScopes_step l s) <= S (length l))%nat /\
    forall y, y = s \/ y ∈ l -> y ∈ CanonicalScopes_step l s).
  { unfold CanonicalScopes_step. case_bool_decide as Hin.
    - split; [lia |]. intros y [-> | Hy]; [by apply list_elem_of_lookup_2 in Hin | done].
    - rewrite (proj2 (Nat.ltb_lt _ _)) by lia. split; [by rewrite length_insert_at |].
      intros y Hy. by apply elem_of_insert_at. }
  destruct Hstep as [Hl1 Hy]. apply IH; [lia |].
  destruct Hx as [[-> | Hx]%list.elem_of_cons | Hx]; [right; apply Hy; by left | by left | right; apply Hy; by right].
Qed.

Lemma ApplyInterfaceSnapshot_known scopes now_ms c p : (length scopes <= kMaxScopes)%nat -> p_scope p ∈ scopes ->
  known_self c p -> known_self (ApplyInterfaceSnapshot scopes now_ms c).1 p.
Proof.
  intros Hlen Hin Hk. unfold ApplyInterfaceSnapshot. destruct (_ || _); [done |].
  unfold RemoveAbsentScopes. destruct (RemoveAbsentScopes_loop _ _ _ _) as [[l evs] r]. cbn [fst].
  apply IsSelf_iff in Hk as (t & Ht & Es & Et). apply IsSelf_iff. exists t. split; [| done]. cbn.
  apply list_elem_of_In, filter_In. split; [by apply list_elem_of_In |].
  apply binary_search_iff; [apply CanonicalScopes_ok |]. rewrite Es. by apply CanonicalScopes_complete.
Qed.

(** ** Interfaces *)

Lemma insert_interface_perm x l : insert_interface x l ≡ₚ x :: l.
Proof.
  induction l as [| y l IH]; [done |]. cbn. destruct (interface_less y x); [| done].
  rewrite IH. apply Permutation_swap.
Qed.

Lemma sort_interfaces_perm l : sort_interfaces l ≡ₚ l.
Proof. induction l as [| x l IH]; [done |]. cbn. by rewrite insert_interface_perm, IH. Qed.

Lemma insert_at_perm {A} n (x : A) l : insert_at n x l ≡ₚ x :: l.
Proof. unfold insert_at. rewrite <- Permutation_middle. by rewrite take_drop. Qed.

Lemma CanonicalInterfaces_ok interfaces :
  NoDup (Scopes (CanonicalInterfaces interfaces)) /\ (length (CanonicalInterfaces interfaces) <= kMaxScopes)%nat.
Proof.
  unfold CanonicalInterfaces. enough (H : forall l, NoDup (Scopes l) /\ (length l <= kMaxScopes)%nat ->
    NoDup (Scopes (fold_left CanonicalInterfaces_step interfaces l)) /\
    (length (fold_left CanonicalInterfaces_step interfaces l) <= kMaxScopes)%nat).
  { apply H. split; [constructor | cbn; lia]. }
  induction interfaces as [| i interfaces IH]; intros l [Hn Hl]; [done |]. cbn [fold_left]. apply IH. clear IH.
  unfold CanonicalInterfaces_step. destruct (negb (IsValidInterface i)); [done |]. unfold Scopes in *.
  destruct (find_if _ l) as [k |] eqn:Ef.
  - destruct (find_if_Some _ _ _ Ef) as (cur & Hk & Ek%bool_decide_eq_true). rewrite Hk.
    destruct (interface_less i cur); [| done].
    pose proof (sort_interfaces_perm (<[k:=i]> l)) as Hp. split.
    + rewrite (Permutation_map ni_scope Hp). by rewrite (map_insert_same ni_scope l k cur i Hk).
    + rewrite Hp. by rewrite length_insert.
  - assert (Hnew : forall n, NoDup (List.map ni_scope (insert_at n i l))).
    { intros n. rewrite (Permutation_map ni_scope (insert_at_perm n i l)). cbn. apply list.NoDup_cons. split; [| done].
      intros (x & Ex & Hx)%list_elem_of_In%in_map_iff. pose proof (find_if_None _ _ Ef x ltac:(by apply list_elem_of_In)) as Hf.
      cbn in Hf. by rewrite bool_decide_true in Hf. }
    destruct (Nat.ltb_spec (length l) kMaxScopes).
    + split; [done |]. rewrite length_insert_at. lia.
    + destruct (negb _); [| done]. split.
      * rewrite <- firstn_map. eapply sublist_NoDup; [apply Hnew | apply sublist_take].
      * rewrite length_take, length_insert_at. lia.
Qed.

Lemma ContainsScope_iff interfaces scope : ContainsScope interfaces scope = true <-> scope ∈ Scopes interfaces.
Proof.
  unfold ContainsScope, Scopes. rewrite existsb_exists, list_elem_of_In, in_map_iff.
  split; intros (i & H1 & H2); exists i; [apply bool_decide_eq_true in H2 | rewrite bool_decide_eq_true]; done.
Qed.

(** ** The service *)

Record service_ok (s : DiscoveryService) (w : W) : Prop := {
  so_ready : all_ready (clock w) w (sv_cache s) (sv_publishers s);
  so_config : config_ok (sv_config s);
  so_idle : sv_state s <> ServiceState.kRunning -> sv_publishers s = [];
}.

Lemma all_ready_quiet now_ms now_ms' w w' c l : all_ready now_ms w c l -> trace w' = trace w /\ clock w <= clock w' ->
  now_ms <= now_ms' <= clock w' -> all_ready now_ms' w' c l.
Proof.
  intros [R N S C T] [E Hle] Hn. split; try done; [| by rewrite E | lia].
  eapply List.Forall_impl; [| exact R]. intros p Hp.
  apply (ready_moved now_ms [] w c w' c) in Hp as [P1 P2 P3]; [| by apply moved_quiet | apply not_elem_of_nil].
  split; [done | done | lia].
Qed.

Lemma all_ready_cache now_ms w c c' l : all_ready now_ms w c l -> cache_ok v c' ->
  Forall (fun p => known_self c p -> known_self c' p) l -> all_ready now_ms w c' l.
Proof.
  intros [R N S C T] Hc Hk. split; try done. apply List.Forall_forall. intros p Hp.
  rewrite List.Forall_forall in R, Hk. destruct (R p Hp) as [P1 P2 P3]. split; [done | by apply Hk | done].
Qed.

(** Between handlers. *)
Lemma service_ready now_ms s w : all_ready now_ms w (sv_cache s) (sv_publishers s) -> config_ok (sv_config s) ->
  (sv_state s <> ServiceState.kRunning -> sv_publishers s = []) -> service_ok s w.
Proof.
  intros R C I. split; [| done | done]. pose proof (ar_now _ _ _ _ R).
  apply (all_ready_quiet now_ms (clock w) w w); [done | split; [done | lia] | lia].
Qed.

Lemma service_empty s w : numbered (trace w) -> cache_ok v (sv_cache s) -> config_ok (sv_config s) ->
  sv_publishers s = [] -> service_ok s w.
Proof.
  intros N C F E. apply (service_ready (clock w)); [rewrite E; split; try done; constructor | done | done].
Qed.

Lemma cache_stopped_ok c : cache_ok v (DiscoveryCache.Stop c).
Proof. by apply cache_ok_empty. Qed.

Lemma StopAll_quiet w : trace (StopAll w) = trace w /\ clock w <= clock (StopAll w).
Proof.
  unfold StopAll. destruct (law_TimerStop w) as [E1 C1]. destruct (law_MonitorStop (TimerStop w)) as [E2 C2].
  destruct (law_TransportStop (MonitorStop (TimerStop w))) as [E3 C3]. split; [congruence | lia].
Qed.

Lemma FailStart_ok s w : numbered (trace w) -> config_ok (sv_config s) ->
  let x := FailStart s w in service_ok x.1 x.2 /\ sv_state x.1 = ServiceState.kStopped.
Proof.
  intros N C. cbn. split; [| done]. apply service_empty; [| apply cache_stopped_ok | done | done].
  by destruct (StopAll_quiet w) as [-> _].
Qed.

Lemma service_Stop_ok now_ms s w : all_ready now_ms w (sv_cache s) (sv_publishers s) -> config_ok (sv_config s) ->
  (sv_state s <> ServiceState.kRunning -> sv_publishers s = []) ->
  let x := Stop v s w in service_ok x.1 x.2 /\ sv_state x.1 = ServiceState.kStopped.
Proof.
  intros R C I. unfold Stop. case_bool_decide as E1.
  { split; [| done]. apply service_empty; [apply R | apply R | done | apply I; congruence]. }
  case_bool_decide as E2; [split; [by apply (service_ready now_ms) | done] |].
  pose proof (SendWithdrawals_spec now_ms _ _ _ R) as M. cbn [sv_publishers].
  change (sv_publishers (s <| sv_state := ServiceState.kStopping |>)) with (sv_publishers s).
  destruct (SendWithdrawals v (sv_publishers s) w) as [l w1]. cbn [fst snd] in *. split; [| done].
  apply service_empty; [| apply cache_stopped_ok | done | done].
  destruct (StopAll_quiet w1) as [-> _]. apply (mv_numbered _ _ _ _ _ M), R.
Qed.

Lemma ScheduleNextLocked_quiet s w : let x := ScheduleNextLocked s w in
  trace x.1 = trace w /\ clock w <= clock x.1.
Proof.
  unfold ScheduleNextLocked. destruct (negb _); [split; [done | cbn; lia] |].
  destruct (law_TimerCancel w) as [E1 C1].
  destruct (NextDeadline s) as [t |]; [| done]. destruct (law_ScheduleAt t (TimerCancel w)) as [E2 C2].
  split; [congruence | lia].
Qed.

Lemma AnnounceAll_spec now_ms s w : all_ready now_ms w (sv_cache s) (sv_publishers s) -> config_ok (sv_config s) ->
  let x := AnnounceAll v now_ms s w in
  all_ready now_ms x.1.2 (sv_cache x.1.1) (sv_publishers x.1.1) /\ sv_config x.1.1 = sv_config s /\
  sv_state x.1.1 = sv_state s.
Proof.
  intros R C. unfold AnnounceAll.
  destruct (for_publishers_spec now_ms (SendAnnounceLocked v (sv_config s) now_ms) (sv_publishers s) (sv_cache s) w true)
    as (R1 & _ & _); [by apply SendAnnounceLocked_handled | done |].
  destruct (for_publishers _ _ _ _ _) as [[[l c] w1] b]. cbn [fst snd] in *.
  set (s1 := s <| sv_publishers := l |> <| sv_cache := c |>).
  pose proof (ScheduleNextLocked_quiet s1 w1) as Q. destruct (ScheduleNextLocked s1 w1) as [w2 b2].
  cbn [fst snd] in *. split; [| done]. pose proof (ar_now _ _ _ _ R1). destruct Q as [Q1 Q2].
  apply (all_ready_quiet now_ms now_ms w1 w2); [done | done | lia].
Qed.

(** The next call of the environment: it sends nothing. *)
Ltac call law N p :=
  let E := fresh "E" in let C := fresh "C" in
  destruct law as [E C];
  match type of E with trace (?t).1 = _ => destruct t as p end;
  cbn [fst snd] in *; rewrite <- E in N.

Lemma service_Start_ok dependencies s w : service_ok s w ->
  let x := Start v dependencies s w in service_ok x.1.1 x.1.2.
Proof.
  intros H. pose proof (so_config _ _ H) as C. unfold Start. destruct (_ || _); [done |].
  set (s0 := s <| sv_state := ServiceState.kStarting |>).
  assert (Hfail : forall s w, numbered (trace w) -> config_ok (sv_config s) ->
    let x := (let '(s, w) := FailStart s w in (s, w, false)) in service_ok x.1.1 x.1.2).
  { intros s' w' N' C'. by destruct (FailStart_ok s' w' N' C'). }
  pose proof (ar_numbered _ _ _ _ (so_ready _ _ H)) as N. pose proof (ar_cache _ _ _ _ (so_ready _ _ H)) as Hc.
  call (law_MonitorStart w) N ipattern:([w1 b1]). destruct (negb b1); [by apply Hfail |].
  call (law_MonitorSnapshot w1) N ipattern:([w2 l2]). call (law_NowMs w2) N ipattern:([w3 now_ms]).
  pose proof (DiscoveryCacheProofs.Start_ok v (Scopes (CanonicalInterfaces l2)) now_ms (sv_cache s0) Hc) as Hc1.
  destruct (DiscoveryCache.Start v (Scopes (CanonicalInterfaces l2)) now_ms (sv_cache s0)) as [c1 started].
  cbn [fst snd] in *. destruct (negb started); [by apply Hfail |].
  call (law_TransportStart (CanonicalInterfaces l2) w3) N ipattern:([w4 b4]). destruct (negb b4); [by apply Hfail |].
  call (law_MonitorSnapshot w4) N ipattern:([w5 l5]). set (interfaces := CanonicalInterfaces l5).
  destruct (ApplyInterfaceSnapshot_reported v (Scopes interfaces) now_ms c1 Hc1) as [[Hc2 _] _].
  change (sv_cache (s0 <| sv_cache := c1 |>)) with c1.
  destruct (ApplyInterfaceSnapshot (Scopes interfaces) now_ms c1) as [c2 evs]. cbn [fst snd] in *.
  call (law_Reconfigure interfaces w5) N ipattern:([w6 b6]). destruct (negb b6); [by apply Hfail |].
  change (sv_cache (s0 <| sv_cache := c1 |> <| sv_cache := c2 |>)) with c2.
  destruct (CreatePublishers_spec now_ms interfaces c2 w6) as (R7 & _ & _);
    [widths; lia | done | done | apply CanonicalInterfaces_ok |].
  destruct (CreatePublishers interfaces now_ms c2 w6) as [[[l7 c7] w7] b7]. cbn [fst snd] in *.
  destruct b7; cbn [negb]; [| apply Hfail; [apply R7 | done]].
  set (s7 := s0 <| sv_cache := c1 |> <| sv_cache := c2 |> <| sv_interfaces := _ |> <| sv_publishers := l7 |>
    <| sv_cache := c7 |> <| sv_state := _ |>).
  destruct (AnnounceAll_spec now_ms s7 w7 R7 C) as (R8 & F8 & S8).
  destruct (AnnounceAll v now_ms s7 w7) as [[s8 w8] b8]. cbn [fst snd] in *.
  destruct b8; cbn [negb].
  - cbn [fst snd]. apply (service_ready now_ms); [done | by rewrite F8 | by rewrite S8].
  - apply Hfail; [apply R8 | by rewrite F8].
Qed.

(** The common end of the handlers: the service is stopped when something failed. *)
Lemma stop_unless_ok now_ms (success : bool) s w : all_ready now_ms w (sv_cache s) (sv_publishers s) ->
  config_ok (sv_config s) -> sv_state s = ServiceState.kRunning ->
  let x := if success then (s, w) else Stop v s w in service_ok x.1 x.2.
Proof.
  intros R C E. destruct success; [by apply (service_ready now_ms) |].
  by destruct (service_Stop_ok now_ms s w R C).
Qed.

(** The clock at the beginning of a handler. *)
Lemma ready_now now_ms w w' c l : all_ready now_ms w c l ->
  trace w' = trace w -> clock w <= clock w' -> forall t, clock w <= t <= clock w' -> all_ready t w' c l.
Proof.
  intros R E Hle t Ht. pose proof (ar_now _ _ _ _ R).
  apply (all_ready_quiet now_ms t w w'); [done | done | lia].
Qed.

Lemma service_Wake_ok s w : service_ok s w ->
  let x := Wake v s w in service_ok x.1.1.1 x.1.1.2.
Proof.
  intros H. unfold Wake. case_bool_decide as Er; cbn [negb]; [| done]. pose proof (so_config _ _ H) as C.
  pose proof (ar_numbered _ _ _ _ (so_ready _ _ H)) as N. pose proof (ar_cache _ _ _ _ (so_ready _ _ H)) as Hc.
  call (law_MonitorSnapshot w) N ipattern:([w1 l1]). call (law_NowMs w1) N ipattern:([w2 now_ms]).
  set (interfaces := CanonicalInterfaces l1).
  destruct (Wake_reported v (Scopes interfaces) now_ms (sv_cache s) Hc) as [[Hc2 _] _].
  destruct (DiscoveryCache.Wake (Scopes interfaces) now_ms (sv_cache s)) as [c2 evs]. cbn [fst snd] in *.
  call (law_Reconfigure interfaces w2) N ipattern:([w3 b3]).
  destruct (CreatePublishers_spec now_ms interfaces c2 w3) as (R4 & _ & _);
    [widths; lia | done | done | apply CanonicalInterfaces_ok |].
  destruct (CreatePublishers interfaces now_ms c2 w3) as [[[l4 c4] w4] b4]. cbn [fst snd] in *.
  set (s4 := s <| sv_interfaces := interfaces |> <| sv_publishers := l4 |> <| sv_cache := c4 |>).
  destruct (b3 && b4).
  - destruct (AnnounceAll_spec now_ms s4 w4 R4 C) as (R5 & F5 & S5).
    destruct (AnnounceAll v now_ms s4 w4) as [[s5 w5] b5]. cbn [fst snd] in *.
    pose proof (stop_unless_ok now_ms b5 s5 w5 R5 ltac:(by rewrite F5) ltac:(by rewrite S5)) as H6.
    by destruct b5; [| destruct (Stop v s5 w5)].
  - pose proof (stop_unless_ok now_ms false s4 w4 R4 C Er) as H6. cbn in H6. by destruct (Stop v s4 w4).
Qed.

Lemma UpdateDue_ready now_ms t w c p : ready now_ms w c p -> ready now_ms w c (UpdateDue t p).
Proof.
  intros [[A1 A2 A3 A4 A5 A6] R2 R3].
  assert (H : ready now_ms w c (p <| p_update_due_ms := Some (Z.max t (SaturatingAdd (p_last_send_ms p) kImmediateUpdateIntervalMs)) |>)).
  { split; [by constructor | done | done]. }
  unfold UpdateDue. cbv zeta. destruct (p_update_due_ms p); [destruct (_ <? _) |]; try done.
Qed.

Lemma UpdateDue_interface t p : p_interface (UpdateDue t p) = p_interface p.
Proof. unfold UpdateDue. cbv zeta. destruct (p_update_due_ms p); [by destruct (_ <? _) | done]. Qed.

Lemma service_Update_ok config s w : service_ok s w -> config_ok config ->
  let x := UpdateAdvertisement v config s w in service_ok x.1.1 x.1.2.
Proof.
  intros H C. unfold UpdateAdvertisement. destruct (negb (ConfigValid _ _)); [done |].
  case_bool_decide as Er; cbn [negb]; [| done]. destruct (_ && _); [done |].
  destruct (law_NowMs w) as (E1 & C1 & _). destruct (NowMs w) as [w1 t]. cbn [fst snd] in *.
  set (s1 := s <| sv_config := config |> <| sv_publishers := _ |>).
  destruct (ScheduleNextLocked_quiet s1 w1) as [E2 C2]. destruct (ScheduleNextLocked s1 w1) as [w2 b].
  cbn [fst snd] in *. apply (service_ready t); [| done | done].
  pose proof (ready_now _ w w2 _ _ (so_ready _ _ H) ltac:(congruence) ltac:(lia) t ltac:(lia)) as [R N S Ca T].
  split; try done.
  - change (sv_publishers s1) with (List.map (UpdateDue t) (sv_publishers s)). apply List.Forall_forall.
    intros q (p & <- & Hp)%in_map_iff. rewrite List.Forall_forall in R. by apply UpdateDue_ready, R.
  - change (sv_publishers s1) with (List.map (UpdateDue t) (sv_publishers s)). rewrite List.map_map.
    erewrite List.map_ext; [exact N |]. intros p. by rewrite UpdateDue_interface.
Qed.

Lemma service_OnTimer_ok s w : service_ok s w -> let x := OnTimer v s w in service_ok x.1.1.1 x.1.1.2.
Proof.
  intros H. unfold OnTimer. case_bool_decide as Er; cbn [negb]; [| done].
  destruct (law_NowMs w) as (E1 & C1 & _). destruct (NowMs w) as [w1 t]. cbn [fst snd] in *.
  pose proof (ready_now _ w w1 _ _ (so_ready _ _ H) E1 ltac:(lia) t ltac:(lia)) as R1.
  destruct (Advance_reported v t (sv_cache s) (ar_cache _ _ _ _ R1)) as [[Hc _] _].
  pose proof (Advance_tokens t (sv_cache s)) as Et. destruct (Advance t (sv_cache s)) as [c evs]. cbn [fst snd] in *.
  assert (R2 : all_ready t w1 c (sv_publishers s)).
  { apply (all_ready_cache t w1 (sv_cache s)); [done | done |]. apply List.Forall_forall. intros p _. by apply tokens_known. }
  destruct (for_publishers_spec t (OnTimerPublisher v (sv_config s) t) (sv_publishers s) c w1 true) as (R3 & _ & _);
    [apply OnTimerPublisher_handled, H | done |].
  destruct (for_publishers _ _ _ _ _) as [[[l3 c3] w3] b3]. cbn [fst snd] in *.
  set (s3 := s <| sv_publishers := l3 |> <| sv_cache := c3 |>).
  destruct (ScheduleNextLocked_quiet s3 w3) as [E4 C4]. destruct (ScheduleNextLocked s3 w3) as [w4 b4]. cbn [fst snd] in *.
  apply (service_ready t); [| apply H | done]. pose proof (ar_now _ _ _ _ R3).
  apply (all_ready_quiet t t w3 w4); [done | done | lia].
Qed.

Lemma service_OnDatagram_ok metadata payload s w : service_ok s w -> all_bytes payload ->
  let x := OnDatagram v metadata payload s w in service_ok x.1.1.1 x.1.1.2.
Proof.
  intros H Hb. unfold OnDatagram. case_bool_decide as Er; cbn [negb]; [| done].
  destruct (law_NowMs w) as (E1 & C1 & _). destruct (NowMs w) as [w1 t]. cbn [fst snd] in *.
  pose proof (ready_now _ w w1 _ _ (so_ready _ _ H) E1 ltac:(lia) t ltac:(lia)) as R1.
  destruct (Receive_reported v metadata payload t (sv_cache s) (ar_cache _ _ _ _ R1) Hb) as [[Hc _] _].
  pose proof (Receive_tokens metadata payload t (sv_cache s)) as Et.
  destruct (Receive v metadata payload t (sv_cache s)) as [c r]. cbn [fst snd] in *.
  set (s2 := s <| sv_cache := c |>).
  destruct (ScheduleNextLocked_quiet s2 w1) as [E2 C2]. destruct (ScheduleNextLocked s2 w1) as [w2 b2]. cbn [fst snd] in *.
  apply (service_ready t); [| apply H | done]. pose proof (ar_now _ _ _ _ R1).
  apply (all_ready_quiet t t w1 w2); [| done | lia].
  apply (all_ready_cache t w1 (sv_cache s)); [done | done |]. apply List.Forall_forall. intros p _. by apply tokens_known.
Qed.

Lemma service_OnInterfaceChanged_ok s w : service_ok s w ->
  let x := OnInterfaceChanged v s w in service_ok x.1.1 x.1.2.
Proof.
  intros H. unfold OnInterfaceChanged. case_bool_decide as Er; cbn [negb]; [| done]. pose proof (so_config _ _ H) as C.
  destruct (law_MonitorSnapshot w) as [E0 C0]. destruct (MonitorSnapshot w) as [w0 l0]. cbn [fst snd] in *.
  destruct (law_NowMs w0) as (E1 & C1 & Wt). destruct (NowMs w0) as [w1 t]. cbn [fst snd] in *.
  pose proof (ready_now _ w w1 _ _ (so_ready _ _ H) ltac:(congruence) ltac:(lia) t ltac:(lia)) as R1.
  set (interfaces := CanonicalInterfaces l0). destruct (CanonicalInterfaces_ok l0) as [Hn Hlen]. fold interfaces in Hn, Hlen.
  destruct (WithdrawAbsent_spec t interfaces _ _ _ R1) as (R2 & M2 & _).
  destruct (WithdrawAbsent v interfaces (sv_publishers s) w1) as [l2 w2]. cbn [fst snd] in *.
  destruct (ApplyInterfaceSnapshot_reported v (Scopes interfaces) t (sv_cache s) (ar_cache _ _ _ _ R1)) as [[Hc _] _].
  pose proof (fun p => ApplyInterfaceSnapshot_known (Scopes interfaces) t (sv_cache s) p
    ltac:(unfold Scopes; rewrite List.length_map; done)) as Hk.
  destruct (ApplyInterfaceSnapshot (Scopes interfaces) t (sv_cache s)) as [c3 evs]. cbn [fst snd] in *.
  pose proof (mv_numbered _ _ _ _ _ M2 (ar_numbered _ _ _ _ R1)) as N. pose proof (moved_clock _ _ _ _ _ M2).
  destruct (law_Reconfigure interfaces w2) as [E4 C4]. destruct (Reconfigure interfaces w2) as [w4 b4]. cbn [fst snd] in *.
  destruct (RefreshPublishers_spec (sv_config s) C t l2 interfaces c3 w4 b4) as (R5 & _ & _).
  { pose proof (ar_now _ _ _ _ R1). widths. }
  { done. }
  { by rewrite E4. }
  { done. }
  { eapply List.Forall_impl; [| exact R2]. intros p Hp Hin. destruct (Hp (proj2 (ContainsScope_iff _ _) Hin)) as [P1 P2 P3].
    apply (ready_moved t [] w2 c3 w4 c3); [by apply moved_quiet | apply not_elem_of_nil |].
    split; [done | by apply Hk | done]. }
  destruct (RefreshPublishers v (sv_config s) t l2 interfaces c3 w4 b4) as [[[l5 c5] w5] b5]. cbn [fst snd] in *.
  set (s5 := s <| sv_interfaces := interfaces |> <| sv_publishers := l5 |> <| sv_cache := c5 |>).
  destruct (ScheduleNextLocked_quiet s5 w5) as [E6 C6]. destruct (ScheduleNextLocked s5 w5) as [w6 b6]. cbn [fst snd] in *.
  assert (R6 : all_ready t w6 c5 l5).
  { pose proof (ar_now _ _ _ _ R5). apply (all_ready_quiet t t w5 w6); [done | done | lia]. }
  pose proof (stop_unless_ok t (b6 && b5) s5 w6 R6 C Er) as H7. by destruct (b6 && b5); [| destruct (Stop v s5 w6)].
Qed.

(** ** Runs *)

Inductive service_op :=
  | SvStart | SvStop | SvWake
  | SvUpdate (config : DiscoveryConfig)
  | SvTimer
  | SvDatagram (metadata : DatagramMetadata) (payload : bytes)
  | SvInterfaces
  | SvPublish | SvPublished.

Definition service_op_typed (op : service_op) : Prop :=
  match op with
  | SvUpdate config => config_ok config
  | SvDatagram _ payload => all_bytes payload
  | _ => True
  end.

Section Runs.
Variable dependencies handler : bool.

(** One handler; only a thread in a callback reaches the end of [Publish]. *)
Definition service_step (x : DiscoveryService * W) (op : service_op) : DiscoveryService * W :=
  let '(s, w) := x in
  match op with
  | SvStart => (Start v dependencies s w).1
  | SvStop => Stop v s w
  | SvWake => (Wake v s w).1.1
  | SvUpdate config => (UpdateAdvertisement v config s w).1
  | SvTimer => (OnTimer v s w).1.1
  | SvDatagram metadata payload => (OnDatagram v metadata payload s w).1.1
  | SvInterfaces => (OnInterfaceChanged v s w).1
  | SvPublish => (default s (PublishBegin handler s), w)
  | SvPublished => (if 0 <? sv_callbacks_in_flight s then PublishEnd s else s, w)
  end.

Definition service_run (ops : list service_op) (x : DiscoveryService * W) : DiscoveryService * W :=
  fold_left service_step ops x.

Lemma service_step_ok op s w : service_op_typed op -> service_ok s w ->
  let x := service_step (s, w) op in service_ok x.1 x.2.
Proof.
  intros Ht H. assert (Hsame : forall n, service_ok (s <| sv_callbacks_in_flight := n |>) w).
  { intros n. destruct H. by constructor. }
  destruct op; cbn [service_step].
  - by apply service_Start_ok.
  - destruct H as [R C I]. by destruct (service_Stop_ok _ s w R C I).
  - by apply service_Wake_ok.
  - by apply service_Update_ok.
  - by apply service_OnTimer_ok.
  - by apply service_OnDatagram_ok.
  - by apply service_OnInterfaceChanged_ok.
  - unfold PublishBegin. destruct (_ || _); [done | apply Hsame].
  - cbn [fst snd]. destruct (_ <? _); [apply Hsame | done].
Qed.

Lemma service_run_ok ops x : Forall service_op_typed ops -> service_ok x.1 x.2 ->
  service_ok (service_run ops x).1 (service_run ops x).2.
Proof.
  intros Ht. revert x. induction Ht as [| op ops Hop Ht IH]; intros [s w] H; [done |].
  cbn [service_run fold_left]. apply IH. by apply service_step_ok.
Qed.

Lemma MakeService_ok config w : config_ok config -> sents (trace w) = [] -> service_ok (MakeService config) w.
Proof. intros C E. apply service_empty; [unfold numbered; rewrite E; constructor | apply cache_ok_initial | done | done]. Qed.

(** After [Stop] nothing changes but the callbacks that end. *)
Lemma stopped_step op s w : sv_state s = ServiceState.kStopped -> exists n,
  service_step (s, w) op = (s <| sv_callbacks_in_flight := n |>, w) /\
  (sv_callbacks_in_flight s = 0 -> n = 0).
Proof.
  intros E. assert (Hsame : forall y : DiscoveryService * W, y = (s, w) -> exists n,
    y = (s <| sv_callbacks_in_flight := n |>, w) /\ (sv_callbacks_in_flight s = 0 -> n = 0)).
  { intros y ->. exists (sv_callbacks_in_flight s). split; [by destruct s | done]. }
  destruct op; cbn [service_step];
    unfold Start, Stop, Wake, UpdateAdvertisement, OnTimer, OnDatagram, OnInterfaceChanged, PublishBegin; rewrite ?E;
    try by apply Hsame.
  - apply Hsame. by destruct (negb (ConfigValid _ _)).
  - destruct (Z.ltb_spec 0 (sv_callbacks_in_flight s)); [| by apply Hsame].
    exists (usub 64 (sv_callbacks_in_flight s) 1). split; [done | lia].
Qed.

Lemma stopped_run ops s w : sv_state s = ServiceState.kStopped -> exists n,
  service_run ops (s, w) = (s <| sv_callbacks_in_flight := n |>, w) /\
  (sv_callbacks_in_flight s = 0 -> n = 0).
Proof.
  revert s. induction ops as [| op ops IH]; intros s E.
  { exists (sv_callbacks_in_flight s). split; [by destruct s | done]. }
  change (service_run (op :: ops) (s, w)) with (service_run ops (service_step (s, w) op)).
  destruct (stopped_step op s w E) as (n & -> & Hn).
  set (s1 := s <| sv_callbacks_in_flight := n |>). destruct (IH s1 E) as (m & Em & Hm). exists m.
  split; [exact Em |].
  intros E0. by apply Hm, Hn.
Qed.

Lemma Stop_state s w : sv_state (Stop v s w).1 = ServiceState.kStopped.
Proof.
  unfold Stop. case_bool_decide; [done |]. case_bool_decide; [done |].
  by destruct (SendWithdrawals _ _ _) as [l w1].
Qed.

(** A datagram with a token the cache knows as its own. *)
Lemma token_of_parsed f payload a : all_bytes payload -> ParseAdvertisement f payload = inr a ->
  ad_token a = token_of payload.
Proof.
  intros Hb Hp. destruct (ParseAdvertisement_sound f payload a Hb Hp) as (tlvs & Ha & -> & _).
  destruct (datagram_members (ad_type a) (ad_sequence a) (ad_token a) (ad_service_port a) (ad_ttl_seconds a) tlvs)
    as (_ & _ & _ & S20 & _); [apply Ha |]. by unfold token_of.
Qed.

Lemma own_datagram_silent metadata payload now_ms c p : cache_ok v c -> known_self c p -> all_bytes payload ->
  md_observer metadata = p_scope p -> token_of payload = p_token p ->
  r_events (Receive v metadata payload now_ms c).2 = [].
Proof.
  intros Hc Hk Hb Ho Htok. unfold Receive. case_bool_decide as Hr; cbn [negb]; [| done]. destruct (_ <? _); [done |]. cbv zeta.
  set (c1 := EraseExpiredTombstones _ _). destruct (_ || _) eqn:Em; [done |].
  rewrite !orb_false_iff, !negb_false_iff in Em. destruct Em as [[[_ Hs%HasScope_iff] _] _].
  pose proof (erased_reported v now_ms c Hc Hr) as [Hc1 _]. fold c1 in Hc1.
  destruct (Admit_spec (md_observer metadata) (md_source metadata) now_ms v c1 Hr Hc1 Hs) as (_ & [_ _ Et _ _] & _).
  destruct (Admit _ _ _ c1) as [c2 admitted]. cbn [fst] in *. destruct (negb admitted); [done |].
  destruct (md_truncated metadata); [done |]. destruct (ParseAdvertisement _ _) as [e | a] eqn:Ep; [done |].
  rewrite (token_of_parsed _ _ _ Hb Ep), Htok, Ho. apply (tokens_known c c2) in Hk; [| by rewrite Et].
  by rewrite Hk.
Qed.

(** ** Deadlines *)

Lemma consider_le a d : exists d', consider a d = Some d' /\ d' <= a /\ forall d0, d = Some d0 -> d' <= d0.
Proof.
  unfold consider. destruct d as [d |]; [| exists a; split; [done |]; split; [lia | done]].
  destruct (Z.ltb_spec a d); [exists a | exists d]; (split; [done |]; split; [lia |]); intros ? [= <-]; lia.
Qed.

Lemma consider_publisher_le d p : exists d', consider_publisher d p = Some d' /\ d' <= p_announce_due_ms p /\
  forall d0, d = Some d0 -> d' <= d0.
Proof.
  unfold consider_publisher. destruct (consider_le (p_announce_due_ms p) d) as (d1 & -> & H1 & H2).
  destruct (consider_le (p_rotation_due_ms p) (Some d1)) as (d2 & -> & H3 & H4). specialize (H4 d1 eq_refl).
  destruct (p_update_due_ms p) as [u |].
  - destruct (consider_le u (Some d2)) as (d3 & -> & H5 & H6). specialize (H6 d2 eq_refl). exists d3.
    split; [done |]. split; [lia |]. intros d0 E. specialize (H2 d0 E). lia.
  - exists d2. split; [done |]. split; [lia |]. intros d0 E. specialize (H2 d0 E). lia.
Qed.

Lemma consider_all_le l d p : p ∈ l -> exists d', fold_left consider_publisher l d = Some d' /\ d' <= p_announce_due_ms p.
Proof.
  assert (Hkeep : forall l d d0, d = Some d0 -> exists d', fold_left consider_publisher l d = Some d' /\ d' <= d0).
  { induction l0 as [| q l0 IH]; intros d1 d0 ->; cbn [fold_left]; [exists d0; split; [done | lia] |].
    destruct (consider_publisher_le (Some d0) q) as (d2 & E & _ & H2). specialize (H2 d0 eq_refl).
    destruct (IH _ d2 E) as (d3 & E3 & H3). exists d3. split; [done | lia]. }
  revert d. induction l as [| q l IH]; intros d; [by intros ?%not_elem_of_nil |]. cbn [fold_left].
  intros [<- | Hp]%list.elem_of_cons; [| by apply IH].
  destruct (consider_publisher_le d p) as (d2 & E & H1 & _). destruct (Hkeep l _ d2 E) as (d3 & E3 & H3).
  exists d3. split; [done | lia].
Qed.

(** ** Properties *)

(** C27: of two datagrams a service sent on one interface under one token, the
    later one has the higher sequence number, whatever handlers ran in whatever
    order (announcements, updates, rotations, wakes, interface changes and
    stops), so that no receiver takes a later datagram for an old one; unless
    the random source returned, as a new token, the token of a datagram sent
    before. Nothing else is assumed of the source: numbers start again at one
    with every token drawn. *)
Theorem announcements_increase config w ops i j x y :
  config_ok config -> sents (trace w) = [] -> Forall service_op_typed ops ->
  let log := trace (service_run ops (MakeService config, w)).2 in
  (i < j)%nat -> sents log !! i = Some x -> sents log !! j = Some y ->
  x.1 = y.1 -> token_of x.2 = token_of y.2 ->
  sequence_of x.2 < sequence_of y.2 \/ reused log (token_of y.2).
Proof.
  intros C E Ht log Hij Hx Hy. refine (sorted_lookup (newer log) (sents log) i j x y _ Hij Hx Hy).
  pose proof (service_run_ok ops (MakeService config, w) Ht (MakeService_ok config w C E)) as H. apply H.
Qed.

(** a datagram with the token of one of the publishers, received on that
    publisher's interface, produces no event and leaves the peers the cache
    shows as they are, in every state the handlers reach. *)
Theorem own_datagrams_ignored config w ops p metadata payload now_ms :
  config_ok config -> sents (trace w) = [] -> Forall service_op_typed ops ->
  let s := (service_run ops (MakeService config, w)).1 in
  p ∈ sv_publishers s -> all_bytes payload -> md_observer metadata = p_scope p ->
  token_of payload = p_token p ->
  let y := Receive v metadata payload now_ms (sv_cache s) in
  r_events y.2 = [] /\ visible (entries_ y.1) = visible (entries_ (sv_cache s)).
Proof.
  intros C E Ht s Hp Hb Ho Htok y.
  pose proof (service_run_ok ops (MakeService config, w) Ht (MakeService_ok config w C E)) as H. fold s in H.
  pose proof (ar_cache _ _ _ _ (so_ready _ _ H)) as Hc.
  assert (He : r_events y.2 = []).
  { pose proof (ar_ready _ _ _ _ (so_ready _ _ H)) as R. rewrite List.Forall_forall in R.
    assert (Hk : known_self (sv_cache s) p) by (apply R; by apply list_elem_of_In).
    apply (own_datagram_silent metadata payload now_ms (sv_cache s) p); done. }
  split; [done |]. destruct (Receive_reported v metadata payload now_ms (sv_cache s) Hc Hb) as [[_ Hrep] _].
  fold y in Hrep. rewrite He in Hrep. cbn in Hrep. congruence.
Qed.

(** the timer of a running service is due at the latest five and a half
    seconds after the last announcement on each interface, well within the
    fifteen seconds it was announced for. *)
Theorem announced_before_expiry config w ops p :
  config_ok config -> sents (trace w) = [] -> Forall service_op_typed ops ->
  let s := (service_run ops (MakeService config, w)).1 in
  p ∈ sv_publishers s ->
  exists deadline, NextDeadline s = Some deadline /\
    deadline <= p_last_send_ms p + kPublisherIntervalMs + kPublisherJitterMs /\
    deadline < p_last_send_ms p + kAdvertisedTtlSeconds * 1000.
Proof.
  intros C E Ht s Hp.
  pose proof (service_run_ok ops (MakeService config, w) Ht (MakeService_ok config w C E)) as H. fold s in H.
  pose proof (ar_ready _ _ _ _ (so_ready _ _ H)) as R. rewrite List.Forall_forall in R.
  pose proof (po_due _ _ _ (rd_ok _ _ _ _ (R p (proj1 (list_elem_of_In _ _) Hp)))) as Hdue.
  unfold NextDeadline. destruct (consider_all_le (sv_publishers s) (NextDeadlineMs (sv_cache s)) p Hp) as (d & -> & Hd).
  exists d. split; [done |]. unfold kPublisherIntervalMs, kPublisherJitterMs, kAdvertisedTtlSeconds in *. lia.
Qed.

(** after [Stop] the service does nothing more: whatever handlers still run,
    it stays stopped, the environment is not called and no event is handed to
    the client; and once the wait of [Stop] has seen no callback in flight there
    is never one again. *)
Theorem stop_is_final s w ops :
  let stopped := Stop v s w in
  let later_on := service_run ops stopped in
  sv_state later_on.1 = ServiceState.kStopped /\ later_on.2 = stopped.2 /\
  PublishBegin handler later_on.1 = None /\
  (StopDrained false stopped.1 = true -> sv_callbacks_in_flight later_on.1 = 0).
Proof.
  intros stopped later_on. pose proof (Stop_state s w) as E. fold stopped in E.
  destruct (stopped_run ops stopped.1 stopped.2 E) as (n & Er & Hn). rewrite <- surjective_pairing in Er.
  unfold later_on. rewrite Er. split; [done |]. split; [done |]. split.
  - unfold PublishBegin. cbn [fst]. change (sv_state (_ <| sv_callbacks_in_flight := n |>)) with (sv_state stopped.1).
    by rewrite E.
  - unfold StopDrained. cbn [orb]. intros E0%Z.eqb_eq. by apply Hn.
Qed.

End Runs.
End Laws.

(** ** An evaluated service

    A network that keeps its log, a clock that advances by three seconds at every
    reading, and a random source that counts up to a period and begins again. *)

Module DiscoveryServiceExample.

Record World := { log : history; time : nat; counter : nat; period : Z; links : list NetworkInterface }.

#[global] Instance eta_World : Eta World := fun x =>
  {| log := log x; time := time x; counter := counter x; period := period x; links := links x |}.

Definition now (w : World) : Z := Z.min (Z.of_nat (time w)) (umax 64).

Definition fill (n : nat) (w : World) : World * option bytes :=
  let token := repeat (1 + Z.of_nat (counter w) mod Z.max 1 (Z.min 200 (period w))) n in
  (w <| counter := S (counter w) |> <| log := log w ++ [Drew token] |>, Some token).

#[global] Instance network : DiscoveryEnvironment World := {|
  NowMs w := (w <| time := (time w + 3000)%nat |>, now w);
  Fill := fill;
  ScheduleAt _ w := (w, true);
  TimerCancel w := w;
  TimerStop w := w;
  TransportStart _ w := (w, true);
  Reconfigure _ w := (w, true);
  Send scope d w := (w <| log := log w ++ [Sent (scope, d)] |>, true);
  TransportStop w := w;
  MonitorStart w := (w, true);
  MonitorSnapshot w := (w, links w);
  MonitorStop w := w;
|}.

Lemma now_advances w : now w <= now (w <| time := (time w + 3000)%nat |>) /\ in_width 64 (now w).
Proof. unfold now. simpl time. unfold in_width. change (umax 64) with (2 ^ 64 - 1). lia. Qed.

#[global] Instance network_laws : LawfulDiscovery World.
Proof.
  refine {| trace := log; clock := now |}; cbn; try (intros; split; [done | apply Z.le_refl]).
  - intros w. destruct (now_advances w). split; [done |]. split; [lia | done].
  - intros n w. split; [done |]. split; [apply Z.le_refl |]. intros l [= <-]. split; [| apply repeat_length].
    apply List.Forall_forall. intros b ->%repeat_spec. unfold is_byte, in_width.
    pose proof (Z.mod_pos_bound (Z.of_nat (counter w)) (Z.max 1 (Z.min 200 (period w))) ltac:(lia)). lia.
Defined.

Definition any : option (bytes -> bool) := Some (fun _ => true).

Definition link (n : Z) : NetworkInterface :=
  {| ni_scope := {| generation := n; scope_family := kIpv4 |}; ni_system_index := n;
     ni_local_address := V4 [192; 168; n; 1]; ni_prefix_length := 24 |}.

Definition config : DiscoveryConfig := {| cf_service_port := 40000; cf_display_label := [] |}.
Definition other : DiscoveryConfig := {| cf_service_port := 40001; cf_display_label := [] |}.
Definition start : World := {| log := []; time := 1000; counter := 0; period := 200; links := [link 1; link 2] |}.

Definition ops : list service_op := [SvStart; SvTimer; SvTimer; SvUpdate other; SvTimer; SvInterfaces; SvWake].

Abbreviation reached := (service_run any true true ops (MakeService config, start)).

Lemma start_quiet : sents (trace start) = [].
Proof. done. Qed.

Lemma config_typed : config_ok config.
Proof. split; [unfold in_width; cbn; lia | constructor]. Qed.

Lemma service_ops_typed : Forall service_op_typed ops.
Proof. repeat constructor; unfold in_width; cbn; lia. Qed.

(** It runs on both interfaces, and has numbered its datagrams. *)
Lemma reached_running : running reached.1 = true /\ length (sv_publishers reached.1) = 2%nat /\
  List.map (fun x => (generation x.1, sequence_of x.2)) (take 6 (sents (log reached.2))) =
    [(1, 1); (2, 1); (1, 2); (2, 2); (1, 3); (2, 3)].
Proof. by vm_compute. Qed.

(** Stopping withdraws the announcement of each. *)
Lemma stop_withdraws : length (sents (log (Stop any reached.1 reached.2).2)) = (length (sents (log reached.2)) + 2)%nat.
Proof. by vm_compute. Qed.

Definition sent_at (i : nat) : InterfaceScope * bytes := nth i (sents (log reached.2)) (ni_scope (link 0), []).

Lemma announcements_increase_witness : sequence_of (sent_at 0).2 < sequence_of (sent_at 2).2 \/
  reused (log reached.2) (token_of (sent_at 2).2).
Proof.
  apply (announcements_increase any true true config start ops 0 2 (sent_at 0) (sent_at 2) config_typed start_quiet service_ops_typed);
    [lia | by vm_compute..].
Defined.

(** A source that repeats itself: after a wake the numbers of a token begin
    again, so the exception is needed. *)
Definition repeating : World := start <| period := 1 |>.

Lemma repeated_token_restarts :
  List.map (fun x => (x.1, token_of x.2, sequence_of x.2))
    (sents (log (service_run any true true [SvStart; SvTimer; SvTimer; SvWake] (MakeService config, repeating)).2)) =
  List.map (fun x => (ni_scope (link x.1), repeat 1 16, x.2)) [(1, 1); (2, 1); (1, 2); (2, 2); (1, 1); (2, 1)].
Proof. by vm_compute. Qed.

Definition first : Publisher := nth 0 (sv_publishers reached.1)
  {| p_interface := link 0; p_token := []; p_sequence := 0; p_announced := false; p_last_send_ms := 0;
     p_announce_due_ms := 0; p_rotation_due_ms := 0; p_update_due_ms := None |}.

Lemma first_elem : first ∈ sv_publishers reached.1.
Proof. by apply (list_elem_of_lookup_2 _ 0%nat); vm_compute. Qed.

Definition own : bytes := (nth (length (sents (log reached.2)) - 2) (sents (log reached.2)) (ni_scope (link 0), [])).2.

Definition heard : DatagramMetadata := {|
  md_observer := ni_scope (link 1); md_source := V4 [192; 168; 1; 1]; md_destination := V4 kIpv4Group;
  md_destination_port := kDiscoveryPort; md_observer_eligible := true;
  md_source_is_broadcast := false; md_truncated := false |}.

(** Its own announcement comes back: it is recognised. *)
Lemma own_is_self : r_disposition (Receive any heard own 100000 (sv_cache reached.1)).2 = ReceiveDisposition.kDroppedSelf.
Proof. by vm_compute. Qed.

Lemma own_typed : all_bytes own.
Proof. by apply (bool_decide_unpack _); vm_compute. Qed.

Lemma own_datagrams_ignored_witness :
  r_events (Receive any heard own 100000 (sv_cache reached.1)).2 = [] /\
  visible (entries_ (Receive any heard own 100000 (sv_cache reached.1)).1) = visible (entries_ (sv_cache reached.1)).
Proof.
  apply (own_datagrams_ignored any true true config start ops first heard own 100000 config_typed start_quiet service_ops_typed
    first_elem own_typed); by vm_compute.
Defined.

Lemma announced_before_expiry_witness : exists deadline, NextDeadline reached.1 = Some deadline /\
  deadline <= p_last_send_ms first + kPublisherIntervalMs + kPublisherJitterMs /\
  deadline < p_last_send_ms first + kAdvertisedTtlSeconds * 1000.
Proof.
  exact (announced_before_expiry any true true config start ops first config_typed start_quiet service_ops_typed first_elem).
Defined.

Lemma stop_is_final_witness : let stopped := Stop any reached.1 reached.2 in
  sv_callbacks_in_flight (service_run any true true [SvTimer; SvPublish; SvStart] stopped).1 = 0.
Proof.
  destruct (stop_is_final any true true reached.1 reached.2 [SvTimer; SvPublish; SvStart]) as (_ & _ & _ & H).
  apply H. by vm_compute.
Defined.

End DiscoveryServiceExample.
