(* ===== verification/SecurityTypes.v ===== *)
(** * The data of the security profile

    The enumerations and structs of
    [native/include/xnn_transfer/core/security/tls/security_profile.hpp] that the
    validation of keys, the canonical objects and pairing share.  A [Result<T>]
    is an error or a value, [inl] or [inr]. *)

From Stdlib Require Import String.
From S2P Require Import Prelude.
From S2P Require Import Transfer.

Module SecurityTypes.

Definition kSha256Size : Z := 32.
Definition kEd25519PublicKeySize : Z := 32.
Definition kTransferSessionIdSize : Z := 16.
Definition kMaximumCanonicalBodySize : Z := 1048576.
Definition kMaximumCanonicalFields : Z := 32.
Definition kSecurityProfileV1 : Z := 1.

Module SecurityError.
Inductive SecurityError :=
  | kNone
  | kCryptoFailure
  | kInvalidLength
  | kMalformedEncoding
  | kNonCanonicalEncoding
  | kUnsupportedVersion
  | kUnknownKind
  | kUnknownField
  | kDuplicateField
  | kMissingField
  | kTrailingData
  | kLimitExceeded
  | kDomainMismatch
  | kRoleMismatch
  | kInvalidPublicKey
  | kUnsupportedProfile
  | kInvalidNegotiation
  | kUnsupportedCapability
  | kDowngradeDetected
  | kMalformedTranscript
  | kContextMismatch
  | kConfirmationMismatch
  | kInvalidDecision
  | kAuthenticatedReject
  | kLocalReject
  | kDeviceIdentifierMismatch
  | kTransportFinishedMismatch
  | kInvalidRotation
  | kReplayDetected
  | kOutputMismatch
  | kIdentityUnavailable
  | kTlsConfigurationFailure
  | kHandshakeIncomplete
  | kTlsVersionMismatch
  | kCipherMismatch
  | kGroupMismatch
  | kSignatureMismatch
  | kAlpnMismatch
  | kPeerCertificateMismatch
  | kPinMismatch
  | kResumptionDetected
  | kEarlyDataDetected
  | kExporterFailure.
End SecurityError.
#[global] Instance security_error_eq_dec : EqDecision SecurityError.SecurityError.
Proof. solve_decision. Defined.

Definition Result (T : Type) : Type := SecurityError.SecurityError + T.

(** The name of an error; the last [return] is for values outside the enumeration. *)
Definition SecurityErrorName (error : SecurityError.SecurityError) : string :=
  match error with
  | SecurityError.kNone => "NONE"
  | SecurityError.kCryptoFailure => "CRYPTO_FAILURE"
  | SecurityError.kInvalidLength => "INVALID_LENGTH"
  | SecurityError.kMalformedEncoding => "MALFORMED_ENCODING"
  | SecurityError.kNonCanonicalEncoding => "NON_CANONICAL_ENCODING"
  | SecurityError.kUnsupportedVersion => "UNSUPPORTED_VERSION"
  | SecurityError.kUnknownKind => "UNKNOWN_KIND"
  | SecurityError.kUnknownField => "UNKNOWN_FIELD"
  | SecurityError.kDuplicateField => "DUPLICATE_FIELD"
  | SecurityError.kMissingField => "MISSING_FIELD"
  | SecurityError.kTrailingData => "TRAILING_DATA"
  | SecurityError.kLimitExceeded => "LIMIT_EXCEEDED"
  | SecurityError.kDomainMismatch => "DOMAIN_MISMATCH"
  | SecurityError.kRoleMismatch => "ROLE_MISMATCH"
  | SecurityError.kInvalidPublicKey => "INVALID_PUBLIC_KEY"
  | SecurityError.kUnsupportedProfile => "UNSUPPORTED_PROFILE"
  | SecurityError.kInvalidNegotiation => "INVALID_NEGOTIATION"
  | SecurityError.kUnsupportedCapability => "UNSUPPORTED_CAPABILITY"
  | SecurityError.kDowngradeDetected => "DOWNGRADE_DETECTED"
  | SecurityError.kMalformedTranscript => "MALFORMED_TRANSCRIPT"
  | SecurityError.kContextMismatch => "CONTEXT_MISMATCH"
  | SecurityError.kConfirmationMismatch => "CONFIRMATION_MISMATCH"
  | SecurityError.kInvalidDecision => "INVALID_DECISION"
  | SecurityError.kAuthenticatedReject => "AUTHENTICATED_REJECT"
  | SecurityError.kLocalReject => "LOCAL_REJECT"
  | SecurityError.kDeviceIdentifierMismatch => "DEVICE_IDENTIFIER_MISMATCH"
  | SecurityError.kTransportFinishedMismatch => "TRANSPORT_FINISHED_MISMATCH"
  | SecurityError.kInvalidRotation => "INVALID_ROTATION"
  | SecurityError.kReplayDetected => "REPLAY_DETECTED"
  | SecurityError.kOutputMismatch => "OUTPUT_MISMATCH"
  | SecurityError.kIdentityUnavailable => "IDENTITY_UNAVAILABLE"
  | SecurityError.kTlsConfigurationFailure => "TLS_CONFIGURATION_FAILURE"
  | SecurityError.kHandshakeIncomplete => "HANDSHAKE_INCOMPLETE"
  | SecurityError.kTlsVersionMismatch => "TLS_VERSION_MISMATCH"
  | SecurityError.kCipherMismatch => "CIPHER_MISMATCH"
  | SecurityError.kGroupMismatch => "GROUP_MISMATCH"
  | SecurityError.kSignatureMismatch => "SIGNATURE_MISMATCH"
  | SecurityError.kAlpnMismatch => "ALPN_MISMATCH"
  | SecurityError.kPeerCertificateMismatch => "PEER_CERTIFICATE_MISMATCH"
  | SecurityError.kPinMismatch => "PIN_MISMATCH"
  | SecurityError.kResumptionDetected => "RESUMPTION_DETECTED"
  | SecurityError.kEarlyDataDetected => "EARLY_DATA_DETECTED"
  | SecurityError.kExporterFailure => "EXPORTER_FAILURE"
  end.

Module CanonicalObjectKind.
Inductive CanonicalObjectKind :=
  | kNormalizedNegotiation
  | kPairingContext
  | kSasInformation
  | kTransportContext
  | kRotationContext
  | kRotationProof
  | kDeviceIdentifier.
End CanonicalObjectKind.
#[global] Instance object_kind_eq_dec : EqDecision CanonicalObjectKind.CanonicalObjectKind.
Proof. solve_decision. Defined.

Import CanonicalObjectKind.

Definition kind_code (kind : CanonicalObjectKind) : Z :=
  match kind with
  | kNormalizedNegotiation => 1
  | kPairingContext => 2
  | kSasInformation => 3
  | kTransportContext => 4
  | kRotationContext => 5
  | kRotationProof => 6
  | kDeviceIdentifier => 7
  end.

Definition role_code (role : Role.Role) : Z :=
  match role with Role.kInitiator => 1 | Role.kResponder => 2 end.

Module ConfirmationDecision.
Inductive ConfirmationDecision := kReject | kConfirm.
End ConfirmationDecision.
#[global] Instance decision_eq_dec : EqDecision ConfirmationDecision.ConfirmationDecision.
Proof. solve_decision. Defined.

Definition decision_code (d : ConfirmationDecision.ConfirmationDecision) : Z :=
  match d with ConfirmationDecision.kReject => 0 | ConfirmationDecision.kConfirm => 1 end.

Record CanonicalObject := {
  co_kind : CanonicalObjectKind;
  co_encoded : bytes;
}.

End SecurityTypes.
