(* ===== verification/Ed25519.v ===== *)
(** * Validation of Ed25519 public keys

    [native/src/security/tls/ed25519_public_key.cpp]: arithmetic modulo
    [2 ^ 255 - 19] on sixteen limbs of sixteen bits, the decoding of a point of
    the curve and the test that it is in the subgroup of prime order.

    An array of limbs is the list of its elements, least significant first, and a
    loop over the index of an array is recursion on the list.  The loop that
    propagates carries has no bound in the source: [Reduce_loop] has a number of
    rounds, and [Reduce_rounds] of them are proved to be enough. *)

From S2P Require Import Prelude.
From S2P Require Import SecurityTypes.

Module Ed25519.
Import SecurityTypes.

Definition kFieldLimbCount : nat := 16.
Definition kLimbMask : Z := 0xffff.
Definition kTopLimbMask : Z := 0x7fff.

Abbreviation FieldLimbs := (list Z) (only parsing).
Abbreviation WideFieldLimbs := (list Z) (only parsing).

Definition kFieldPrime : FieldLimbs :=
  [0xffed; 0xffff; 0xffff; 0xffff; 0xffff; 0xffff; 0xffff; 0xffff;
   0xffff; 0xffff; 0xffff; 0xffff; 0xffff; 0xffff; 0xffff; 0x7fff].

Definition kInverseExponent : bytes := <[31%nat := 0x7f]> (<[0%nat := 0xeb]> (repeat 0xff 32)).
Definition kSquareRootExponent : bytes := <[31%nat := 0x0f]> (<[0%nat := 0xfe]> (repeat 0xff 32)).
Definition kSquareRootMinusOneExponent : bytes :=
  <[31%nat := 0x1f]> (<[0%nat := 0xfb]> (repeat 0xff 32)).

Definition kPrimeSubgroupOrder : bytes :=
  [0xed; 0xd3; 0xf5; 0x5c; 0x1a; 0x63; 0x12; 0x58; 0xd6; 0x9c; 0xf7;
   0xa2; 0xde; 0xf9; 0xde; 0x14; 0x00; 0x00; 0x00; 0x00; 0x00; 0x00;
   0x00; 0x00; 0x00; 0x00; 0x00; 0x00; 0x00; 0x00; 0x00; 0x10].

(** ** Limbs *)

Fixpoint LimbsLessThan_loop (index : nat) (left right : FieldLimbs) : bool :=
  match index with
  | O => false
  | S limb =>
      if negb (nth limb left 0 =? nth limb right 0) then nth limb left 0 <? nth limb right 0
      else LimbsLessThan_loop limb left right
  end.

Definition LimbsLessThan (left right : FieldLimbs) : bool :=
  LimbsLessThan_loop kFieldLimbCount left right.

Fixpoint SubtractLimbs_loop (borrow : Z) (left right : FieldLimbs) : FieldLimbs :=
  match left, right with
  | minuend :: ls, limb :: rs =>
      let subtrahend := uadd 32 limb borrow in
      if minuend <? subtrahend then
        u16 (usub 32 (uadd 32 minuend 0x10000) subtrahend) :: SubtractLimbs_loop 1 ls rs
      else u16 (usub 32 minuend subtrahend) :: SubtractLimbs_loop 0 ls rs
  | _, _ => []
  end.

Definition SubtractLimbs (left right : FieldLimbs) : FieldLimbs := SubtractLimbs_loop 0 left right.

(** The first loop of [Reduce]: each high limb is folded to the low one sixteen
    places below; the high half is not used after it. *)
Definition FoldHigh (value : WideFieldLimbs) : WideFieldLimbs :=
  zip_with (fun low high => uadd 64 low (u64 (38 * high)))
    (take kFieldLimbCount value) (drop kFieldLimbCount value).

(** One pass of carries: the limbs and [high_word], what the last one carries. *)
Fixpoint CarryPass (carry : Z) (value : WideFieldLimbs) : WideFieldLimbs * Z :=
  match value with
  | [] => ([], carry)
  | limb :: value =>
      let limb := uadd 64 limb carry in
      let '(value, high_word) := CarryPass (Z.shiftr limb 16) value in
      (Z.land limb kLimbMask :: value, high_word)
  end.

Definition AddLow (increment : Z) (value : WideFieldLimbs) : WideFieldLimbs :=
  match value with
  | [] => []
  | limb :: value => uadd 64 limb increment :: value
  end.

Fixpoint Reduce_loop (rounds : nat) (value : WideFieldLimbs) : option WideFieldLimbs :=
  match rounds with
  | O => None
  | S rounds =>
      let '(value, high_word) := CarryPass 0 value in
      if negb (high_word =? 0) then Reduce_loop rounds (AddLow (u64 (38 * high_word)) value)
      else
      let high_bit := Z.shiftr (nth 15 value 0) 15 in
      let value := <[15%nat := Z.land (nth 15 value 0) kTopLimbMask]> value in
      if negb (high_bit =? 0) then Reduce_loop rounds (AddLow (u64 (19 * high_bit)) value)
      else Some value
  end.

Definition Reduce_rounds : nat := 5.

Definition Reduce (value : WideFieldLimbs) : FieldLimbs :=
  match Reduce_loop Reduce_rounds (FoldHigh value) with
  | None => []
  | Some value =>
      let result := List.map u16 value in
      if negb (LimbsLessThan result kFieldPrime) then SubtractLimbs result kFieldPrime else result
  end.

(** ** Field elements *)

Definition FieldElement_zero : FieldLimbs := repeat 0 kFieldLimbCount.

Definition FromUint (value : Z) : FieldLimbs :=
  <[1%nat := u16 (Z.shiftr value 16)]> (<[0%nat := u16 (Z.land value 0xffff)]> FieldElement_zero).

Fixpoint FromCanonicalLittleEndian (encoded : bytes) : FieldLimbs :=
  match encoded with
  | low :: high :: encoded => u16 (Z.lor low (Z.shiftl high 8)) :: FromCanonicalLittleEndian encoded
  | _ => []
  end.

Definition IsCanonicalLittleEndian (encoded : bytes) : bool :=
  LimbsLessThan (FromCanonicalLittleEndian encoded) kFieldPrime.

Definition IsZero (a : FieldLimbs) : bool := forallb (fun limb => limb =? 0) a.
Definition IsOdd (a : FieldLimbs) : bool := negb (Z.land (nth 0 a 0) 1 =? 0).
Definition FieldEq (a b : FieldLimbs) : bool := same_bytes a b.

(** [operator+], [operator-] and [operator*]. *)
Definition FieldAdd (left right : FieldLimbs) : FieldLimbs :=
  Reduce (zip_with (fun a b => uadd 64 a b) left right ++ repeat 0 kFieldLimbCount).

Definition FieldSub (left right : FieldLimbs) : FieldLimbs :=
  if negb (LimbsLessThan left right) then SubtractLimbs left right
  else SubtractLimbs kFieldPrime (SubtractLimbs right left).

(** The inner loop of [operator*], for one limb of the left factor. *)
Fixpoint MultiplyRow (index : nat) (limb : Z) (right : FieldLimbs) (product : WideFieldLimbs)
    : WideFieldLimbs :=
  match right with
  | [] => product
  | r :: rs =>
      MultiplyRow (S index) limb rs (alter (fun x => uadd 64 x (u64 (limb * r))) index product)
  end.

Fixpoint MultiplyRows (left_index : nat) (left right : FieldLimbs) (product : WideFieldLimbs)
    : WideFieldLimbs :=
  match left with
  | [] => product
  | limb :: ls => MultiplyRows (S left_index) ls right (MultiplyRow left_index limb right product)
  end.

Definition FieldMul (left right : FieldLimbs) : FieldLimbs :=
  Reduce (MultiplyRows 0 left right (repeat 0 (2 * kFieldLimbCount))).

Definition Square (a : FieldLimbs) : FieldLimbs := FieldMul a a.

Definition exponent_bit (exponent : bytes) (bit : nat) : bool :=
  negb (Z.land (Z.shiftr (nth (bit / 8) exponent 0) (Z.of_nat (bit mod 8))) 1 =? 0).

Fixpoint Pow_loop (bits : nat) (exponent : bytes) (base result : FieldLimbs) : FieldLimbs :=
  match bits with
  | O => result
  | S bit =>
      let result := Square result in
      let result := if exponent_bit exponent bit then FieldMul result base else result in
      Pow_loop bit exponent base result
  end.

Definition Pow (base : FieldLimbs) (exponent : bytes) : FieldLimbs :=
  Pow_loop 255 exponent base (FromUint 1).

(** ** The curve *)

Definition CurveD : FieldLimbs :=
  FieldSub FieldElement_zero (FieldMul (FromUint 121665) (Pow (FromUint 121666) kInverseExponent)).

Definition SquareRootMinusOne : FieldLimbs := Pow (FromUint 2) kSquareRootMinusOneExponent.

Record EdwardsPoint := {
  pt_x : FieldLimbs;
  pt_y : FieldLimbs;
  pt_z : FieldLimbs;
  pt_t : FieldLimbs;
}.

Definition EdwardsPoint_default : EdwardsPoint :=
  {| pt_x := FieldElement_zero; pt_y := FromUint 1; pt_z := FromUint 1; pt_t := FieldElement_zero |}.

Definition Add (left right : EdwardsPoint) : EdwardsPoint :=
  let a := FieldMul (FieldSub (pt_y left) (pt_x left)) (FieldSub (pt_y right) (pt_x right)) in
  let b := FieldMul (FieldAdd (pt_y left) (pt_x left)) (FieldAdd (pt_y right) (pt_x right)) in
  let c := FieldMul (FieldMul (FieldMul (FromUint 2) CurveD) (pt_t left)) (pt_t right) in
  let d := FieldMul (FieldMul (FromUint 2) (pt_z left)) (pt_z right) in
  let e := FieldSub b a in
  let f := FieldSub d c in
  let g := FieldAdd d c in
  let h := FieldAdd b a in
  {| pt_x := FieldMul e f; pt_y := FieldMul g h; pt_z := FieldMul f g; pt_t := FieldMul e h |}.

Definition IsIdentity (point : EdwardsPoint) : bool := IsZero (pt_x point) && FieldEq (pt_y point) (pt_z point).

(** The loop of [MultiplyByPrimeSubgroupOrder] with [bits] rounds left. *)
Fixpoint MultiplyByPrimeSubgroupOrder_loop (bits bit : nat) (result addend : EdwardsPoint) : EdwardsPoint :=
  match bits with
  | O => result
  | S bits =>
      let result := if exponent_bit kPrimeSubgroupOrder bit then Add result addend else result in
      MultiplyByPrimeSubgroupOrder_loop bits (S bit) result (Add addend addend)
  end.

Definition MultiplyByPrimeSubgroupOrder (point : EdwardsPoint) : EdwardsPoint :=
  MultiplyByPrimeSubgroupOrder_loop (length kPrimeSubgroupOrder * 8) 0 EdwardsPoint_default point.

(** The end of [DecodePoint], with [x] one of the square roots. *)
Definition DecodeSign (x_sign : bool) (x y : FieldLimbs) : Result EdwardsPoint :=
  if IsZero x && x_sign then inl SecurityError.kNonCanonicalEncoding
  else
  let x := if negb (Bool.eqb (IsOdd x) x_sign) then FieldSub FieldElement_zero x else x in
  inr {| pt_x := x; pt_y := y; pt_z := FromUint 1; pt_t := FieldMul x y |}.

Definition DecodePoint (encoded : bytes) : Result EdwardsPoint :=
  let x_sign := negb (Z.land (nth 31 encoded 0) 0x80 =? 0) in
  let y_bytes := <[31%nat := Z.land (nth 31 encoded 0) 0x7f]> encoded in
  if negb (IsCanonicalLittleEndian y_bytes) then inl SecurityError.kNonCanonicalEncoding
  else
  let y := FromCanonicalLittleEndian y_bytes in
  let y_squared := Square y in
  let numerator := FieldSub y_squared (FromUint 1) in
  let denominator := FieldAdd (FieldMul CurveD y_squared) (FromUint 1) in
  if IsZero denominator then inl SecurityError.kInvalidPublicKey
  else
  let x_squared := FieldMul numerator (Pow denominator kInverseExponent) in
  let x := Pow x_squared kSquareRootExponent in
  let x := if negb (FieldEq (Square x) x_squared) then FieldMul x SquareRootMinusOne else x in
  if negb (FieldEq (Square x) x_squared) then inl SecurityError.kInvalidPublicKey
  else DecodeSign x_sign x y.

Definition ValidateEd25519PublicKey (encoded : bytes) : Result bytes :=
  if negb (bsize encoded =? kEd25519PublicKeySize) then inl SecurityError.kInvalidLength
  else
  match DecodePoint encoded with
  | inl error => inl error
  | inr point =>
      if IsIdentity point || negb (IsIdentity (MultiplyByPrimeSubgroupOrder point)) then
        inl SecurityError.kInvalidPublicKey
      else inr encoded
  end.

End Ed25519.
