(* ===== verification/Prime25519.v ===== *)
(** * The prime of Ed25519

    [kFieldPrime] is [2 ^ 255 - 19], and it is prime.  The proof is a chain of
    certificates: a number [n] is prime when [n - 1] is divisible by enough
    primes [r] for which [a ^ ((n - 1) / r) - 1] is prime to [n] and
    [a ^ (n - 1)] is one modulo [n]. *)

From Stdlib Require Import ZArith Znumtheory Zdivisibility.
From Stdlib.Zmod Require Import ZmodInv.
From Bignums Require Import BigZ.
From S2P Require Import Prelude.

(** ** Powers modulo a number, evaluated on machine words *)

Fixpoint bigZ_pow_mod (a : bigZ) (e : positive) (n : bigZ) : bigZ :=
  match e with
  | xH => BigZ.modulo a n
  | xO e => let z := bigZ_pow_mod a e n in BigZ.modulo (BigZ.mul z z) n
  | xI e => let z := bigZ_pow_mod a e n in BigZ.modulo (BigZ.mul (BigZ.modulo (BigZ.mul z z) n) a) n
  end.

Lemma bigZ_pow_mod_spec a e n : BigZ.to_Z n <> 0 ->
  BigZ.to_Z (bigZ_pow_mod a e n) = BigZ.to_Z a ^ Zpos e mod BigZ.to_Z n.
Proof.
  intros Hn. induction e as [e IH | e IH |]; cbn [bigZ_pow_mod]; cbv zeta; rewrite ?BigZ.spec_modulo, ?BigZ.spec_mul, ?BigZ.spec_modulo, ?BigZ.spec_mul, ?IH.
  - rewrite <- Z.mul_mod, Z.mul_mod_idemp_l by done. f_equal.
    rewrite Pos2Z.inj_xI, Z.pow_add_r, (Z.mul_comm 2), Z.pow_mul_r, Z.pow_2_r, Z.pow_1_r by lia. done.
  - rewrite <- Z.mul_mod by done. f_equal. rewrite Pos2Z.inj_xO, (Z.mul_comm 2), Z.pow_mul_r, Z.pow_2_r by lia. done.
  - by rewrite Z.pow_1_r.
Qed.

Definition pow_mod (a e n : Z) : Z :=
  match e with
  | Zpos e => BigZ.to_Z (bigZ_pow_mod (BigZ.of_Z a) e (BigZ.of_Z n))
  | _ => a ^ e mod n
  end.

Lemma pow_mod_correct a e n : n <> 0 -> pow_mod a e n = a ^ e mod n.
Proof.
  intros Hn. destruct e as [| e | e]; [done | | done]. unfold pow_mod.
  rewrite bigZ_pow_mod_spec by (by rewrite BigZ.spec_of_Z). by rewrite !BigZ.spec_of_Z.
Qed.

(** ** Certificates *)

Definition p : Z := 2 ^ 255 - 19.

(** A composite number has a prime divisor at most its square root. *)
Lemma small_prime_divisor n : 1 < n -> ~ Z.prime n -> exists q, Z.prime q /\ (q | n) /\ q * q <= n.
Proof.
  intros Hn. assert (H0 : 0 <= n) by lia. revert Hn. pattern n. revert n H0. apply Z_lt_induction. intros n IH Hn Hp.
  rewrite prime_alt in Hp. destruct (not_prime_divide n Hn Hp) as (d & Hd & [e He]).
  assert (He1 : 1 < e) by nia.
  assert (Hm : exists m, 1 < m < n /\ (m | n) /\ m * m <= n).
  { destruct (Z.le_ge_cases d e); [exists d | exists e]; (split; [nia |]); (split; [| nia]).
    - by exists e.
    - exists d. lia. }
  destruct Hm as (m & Bm & Dm & Sm). destruct (prime_dec m) as [Pm | Pm]; rewrite <- prime_alt in Pm.
  - by exists m.
  - destruct (IH m ltac:(lia) ltac:(lia) Pm) as (q & Q1 & Q2 & Q3). exists q. split; [done |].
    split; [by apply (Z.divide_trans _ m) | nia].
Qed.

Lemma pow_mod_1 b k m : 1 < m -> 0 <= k -> b mod m = 1 -> b ^ k mod m = 1.
Proof. intros Hm Hk Hb. rewrite <- Z.mod_pow_l, Hb, Z.pow_1_l, Z.mod_small by lia. done. Qed.

(** What a power that is one for two coprime exponents is. *)
Lemma coprime_exponents b r s q : 1 < q -> 0 < r -> 0 < s -> Z.gcd r s = 1 ->
  b ^ r mod q = 1 -> b ^ s mod q = 1 -> b mod q = 1.
Proof.
  intros Hq Hr Hs Hg Er Es. destruct (Z.gcd_bezout r s 1 Hg) as (u & v & Huv).
  set (k := Z.abs u + Z.abs v). assert (0 <= u + k * s /\ 0 <= k * r - v) as [HA HB] by (unfold k; nia).
  assert (E : b ^ (r * (u + k * s)) = b ^ (s * (k * r - v)) * b).
  { rewrite <- (Z.pow_1_r b) at 3. rewrite <- Z.pow_add_r by nia. f_equal. lia. }
  rewrite !Z.pow_mul_r in E by lia.
  assert (E' := f_equal (fun x => x mod q) E). cbn beta in E'.
  rewrite Z.mul_mod, (pow_mod_1 (b ^ r)), (pow_mod_1 (b ^ s)), Z.mul_1_l, Z.mod_mod in E' by lia. done.
Qed.

Lemma prime_gcd r s : Z.prime r -> ~ (r | s) -> Z.gcd r s = 1.
Proof. intros Hr Hs. by apply Z.coprime_prime_l. Qed.

(** A prime [r] of [n - 1] divides [q - 1] for every prime divisor [q] of [n]. *)
Lemma certificate_divides n a r q : 1 < n -> Z.prime r -> (r | n - 1) -> a ^ (n - 1) mod n = 1 ->
  Z.gcd (a ^ ((n - 1) / r) mod n - 1) n = 1 -> Z.prime q -> (q | n) -> (r | q - 1).
Proof.
  intros Hn Hr [e He] Ea Hg Hq Hqn. pose proof (Z.prime_ge_2 _ Hq) as Q2. pose proof (Z.prime_ge_2 _ Hr) as R2.
  assert (He0 : (n - 1) / r = e) by (rewrite He; apply Z.div_mul; lia). rewrite He0 in Hg. assert (0 < e) by nia.
  destruct (decide ((q - 1) mod r = 0)) as [E0 | Hnd]; rewrite Z.mod_divide in * by lia; [done | exfalso].
  assert (Hmod : forall x, x mod n mod q = x mod q) by (intros x; by apply Z.mod_mod_divide).
  assert (Er : (a ^ e) ^ r mod q = 1).
  { rewrite <- Z.pow_mul_r, <- He, <- Hmod, Ea by lia. apply Z.mod_small. lia. }
  assert (Es : (a ^ e) ^ (q - 1) mod q = 1).
  { apply Z.fermat_nz; [done |]. intros E0. rewrite <- Z.mod_pow_l, E0, Z.pow_0_l, Z.mod_0_l in Er by lia. lia. }
  pose proof (coprime_exponents _ r (q - 1) q ltac:(lia) ltac:(lia) ltac:(lia) (prime_gcd _ _ Hr Hnd) Er Es) as E1.
  assert (D : (q | Z.gcd (a ^ e mod n - 1) n)).
  { apply Z.gcd_greatest; [| done]. apply Z.mod_divide; [lia |].
    rewrite Zminus_mod, Hmod, E1. rewrite (Z.mod_small 1) by lia. apply Z.mod_0_l. lia. }
  rewrite Hg in D. apply Z.divide_1_r_nonneg in D; lia.
Qed.

Definition product (l : list Z) : Z := fold_right Z.mul 1 l.

(** The certificate of a number, and the primes of its predecessor. *)
Definition certificate (n a : Z) (rs : list Z) : bool :=
  (1 <? n) && (pow_mod a (n - 1) n =? 1) && (n <? product rs * product rs) &&
  forallb (fun r => ((n - 1) mod r =? 0) && (Z.gcd (pow_mod a ((n - 1) / r) n - 1) n =? 1)) rs &&
  bool_decide (NoDup rs).

Lemma product_divides rs m : Forall Z.prime rs -> NoDup rs -> Forall (fun r => (r | m)) rs -> (product rs | m).
Proof.
  intros Hp. revert m. induction Hp as [| r rs Hr Hp IH]; intros m Hn Hd; [by exists m; cbn; lia |].
  apply list.NoDup_cons in Hn as [Hni Hn]. apply list.Forall_cons in Hd as [[k ->] Hd].
  cbn [product fold_right]. fold (product rs). rewrite Z.mul_comm. apply Z.mul_divide_mono_r. apply IH; [done |].
  apply List.Forall_forall. intros s Hs. pose proof (proj1 (List.Forall_forall _ _) Hp s Hs) as Ps.
  pose proof (proj1 (List.Forall_forall _ _) Hd s Hs) as Ds. cbn beta in Ds.
  apply (Z.gauss _ r); [by rewrite Z.mul_comm |]. apply prime_gcd; [done |]. intros Dsr.
  apply Z.divide_prime_prime in Dsr; [| done ..]. subst s. by apply Hni, list_elem_of_In.
Qed.

Lemma certificate_prime n a rs : certificate n a rs = true -> Forall Z.prime rs -> Z.prime n.
Proof.
  unfold certificate. rewrite !andb_true_iff, !Z.ltb_lt, Z.eqb_eq, forallb_forall, bool_decide_eq_true.
  intros ((((Hn & Ea) & Hb) & Hr) & Hnd) Hp. rewrite pow_mod_correct in Ea by lia.
  destruct (prime_dec n) as [Pn | Pn]; rewrite <- prime_alt in Pn; [done | exfalso].
  destruct (small_prime_divisor n Hn Pn) as (q & Q1 & Q2 & Q3). pose proof (Z.prime_ge_2 _ Q1).
  assert (D : (product rs | q - 1)).
  { apply product_divides; [done | done |]. apply List.Forall_forall. intros r Hin. specialize (Hr r Hin).
    apply andb_true_iff in Hr as [R1%Z.eqb_eq R2%Z.eqb_eq]. rewrite pow_mod_correct in R2 by lia.
    pose proof (proj1 (List.Forall_forall _ _) Hp r Hin) as Pr. pose proof (Z.prime_ge_2 _ Pr).
    apply (certificate_divides n a r q); try done. apply Z.mod_divide; [lia | done]. }
  assert (product rs <= q - 1) by (apply Z.divide_pos_le; [lia | done]).
  assert (0 <= product rs); [| nia].
  clear - Hp. induction Hp as [| r rs Hr Hp IH]; cbn; [lia |]. pose proof (Z.prime_ge_2 _ Hr). fold (product rs). nia.
Qed.

(** Primality of the small primes by trial division. *)
Definition trial (bound : nat) (n : Z) : bool :=
  (1 <? n) && (n <? Z.of_nat bound * Z.of_nat bound) &&
  forallb (fun d => negb (n mod Z.of_nat d =? 0)) (List.seq 2 (bound - 2)).

Lemma trial_prime bound n : trial bound n = true -> Z.prime n.
Proof.
  unfold trial. rewrite !andb_true_iff, !Z.ltb_lt, forallb_forall. intros ((Hn & Hb) & Hd).
  destruct (prime_dec n) as [Pn | Pn]; rewrite <- prime_alt in Pn; [done | exfalso].
  destruct (small_prime_divisor n Hn Pn) as (q & Q1 & Q2 & Q3). pose proof (Z.prime_ge_2 _ Q1).
  specialize (Hd (Z.to_nat q)). rewrite Z2Nat.id in Hd by lia. rewrite (proj2 (Z.mod_divide n q ltac:(lia)) Q2) in Hd.
  cbn in Hd. assert (false = true); [apply Hd | done]. apply in_seq. nia.
Qed.

Lemma prime_r3 : Z.prime 1919519569386763.
Proof.
  apply (certificate_prime _ 2 [8574133; 127]); [by vm_compute |].
  apply Forall_cons_2, list.Forall_singleton; [apply (trial_prime 2930) | apply (trial_prime 12)]; by vm_compute.
Qed.

Lemma prime_r2 : Z.prime 75445702479781427272750846543864801.
Proof.
  apply (certificate_prime _ 2 [1919519569386763; 75707]); [by vm_compute |].
  apply Forall_cons_2, list.Forall_singleton; [exact prime_r3 | apply (trial_prime 280); by vm_compute].
Qed.

Lemma prime_r1 : Z.prime 74058212732561358302231226437062788676166966415465897661863160754340907.
Proof.
  apply (certificate_prime _ 2 [75445702479781427272750846543864801; 1923133]); [by vm_compute |].
  apply Forall_cons_2, list.Forall_singleton; [exact prime_r2 | apply (trial_prime 1400); by vm_compute].
Qed.

Lemma p_prime : Z.prime p.
Proof.
  apply (certificate_prime _ 2 [74058212732561358302231226437062788676166966415465897661863160754340907]).
  - by vm_compute.
  - constructor; [exact prime_r1 | constructor].
Qed.
