(* ===== verification/Ed25519Proofs.v ===== *)
(** * Correctness of the field arithmetic of Ed25519

    The limbs of a field element are its digits in base [2 ^ 16]; the operations
    compute modulo [2 ^ 255 - 19], their loops end, and no intermediate value
    leaves its type. *)

From S2P Require Import Prelude.
From S2P Require Import Prime25519.
From S2P Require Import SecurityTypes.
From S2P Require Import Ed25519.
Import SecurityTypes Ed25519.

(** ** The number a list of limbs stands for *)

Definition base : Z := 65536.

Definition eval (l : list Z) : Z := fold_right (fun limb rest => limb + base * rest) 0 l.

Definition limbs_ok (l : list Z) : Prop := Forall (in_width 16) l.

(** A field element: sixteen limbs of a number below the prime. *)
Definition field_ok (l : list Z) : Prop := length l = 16%nat /\ limbs_ok l /\ eval l < p.

Lemma eval_cons x l : eval (x :: l) = x + base * eval l.
Proof. done. Qed.

Lemma eval_app l k : eval (l ++ k) = eval l + base ^ Z.of_nat (length l) * eval k.
Proof.
  induction l as [| x l IH]; [cbn [app length]; change (eval []) with 0; change (Z.of_nat 0) with 0; rewrite Z.pow_0_r; lia |].
  cbn [app length]. rewrite !eval_cons, IH, Nat2Z.inj_succ, Z.pow_succ_r by lia. lia.
Qed.

Lemma eval_zeros n : eval (repeat 0 n) = 0.
Proof. induction n as [| n IH]; [done |]. cbn [repeat]. rewrite eval_cons, IH. lia. Qed.

Lemma eval_bound l : limbs_ok l -> 0 <= eval l < base ^ Z.of_nat (length l).
Proof.
  induction 1 as [| x l Hx Hl IH]; [cbn; lia |]. cbn [length]. rewrite eval_cons, Nat2Z.inj_succ, Z.pow_succ_r by lia.
  unfold in_width in Hx. rewrite pow2_65536 in Hx. unfold base in *. lia.
Qed.

Lemma eval_16 l : limbs_ok l -> length l = 16%nat -> 0 <= eval l < 2 ^ 256.
Proof. intros H E. pose proof (eval_bound l H) as Hb. rewrite E in Hb. exact Hb. Qed.

Lemma eval_inj l k : limbs_ok l -> limbs_ok k -> length l = length k -> eval l = eval k -> l = k.
Proof.
  intros Hl. revert k. induction Hl as [| x l Hx Hl IH]; intros [| y k] Hk E; try done. cbn [length] in E.
  apply list.Forall_cons in Hk as [Hy Hk]. rewrite !eval_cons. unfold in_width, base in *. rewrite pow2_65536 in *.
  intros Ev. assert (x = y) by lia. subst y. f_equal. apply IH; [done | lia | lia].
Qed.

Lemma eval_insert l i x : (i < length l)%nat ->
  eval (<[i := x]> l) = eval l + base ^ Z.of_nat i * (x - nth i l 0).
Proof.
  revert i. induction l as [| y l IH]; intros [| i] Hi; cbn [length] in Hi; try lia.
  - change (<[0%nat := x]> (y :: l)) with (x :: l). rewrite !eval_cons. cbn [nth]. lia.
  - change (<[S i := x]> (y :: l)) with (y :: <[i := x]> l). rewrite !eval_cons, IH by lia. cbn [nth].
    rewrite Nat2Z.inj_succ, Z.pow_succ_r by lia. lia.
Qed.

(** ** Comparison *)

Lemma take_S_eval n l : (n < length l)%nat ->
  eval (take (S n) l) = eval (take n l) + base ^ Z.of_nat n * nth n l 0.
Proof.
  intros Hn. destruct (lookup_lt_is_Some_2 l n Hn) as [x Hx]. rewrite (take_S_r _ _ x Hx).
  rewrite (nth_lookup_Some _ _ 0 _ Hx).
  rewrite eval_app, length_take_le by lia. rewrite eval_cons. change (eval []) with 0. lia.
Qed.

Lemma LimbsLessThan_loop_eval n l k : limbs_ok l -> limbs_ok k -> (n <= length l)%nat -> (n <= length k)%nat ->
  LimbsLessThan_loop n l k = (eval (take n l) <? eval (take n k)).
Proof.
  intros Hl Hk. induction n as [| n IH]; intros Nl Nk; [done |]. cbn [LimbsLessThan_loop].
  rewrite !take_S_eval by lia. pose proof (eval_bound (take n l) (Forall_take _ _ _ Hl)) as B1.
  pose proof (eval_bound (take n k) (Forall_take _ _ _ Hk)) as B2. rewrite length_take_le in B1, B2 by lia.
  set (w := base ^ Z.of_nat n) in *.
  destruct (Z.eqb_spec (nth n l 0) (nth n k 0)) as [E | E]; cbn [negb].
  - rewrite IH by lia. rewrite E. apply eq_true_iff_eq. rewrite !Z.ltb_lt. lia.
  - apply eq_true_iff_eq. rewrite !Z.ltb_lt. split; intros H; nia.
Qed.

Lemma LimbsLessThan_eval l k : limbs_ok l -> limbs_ok k -> length l = 16%nat -> length k = 16%nat ->
  LimbsLessThan l k = (eval l <? eval k).
Proof.
  intros Hl Hk El Ek. unfold LimbsLessThan, kFieldLimbCount. rewrite LimbsLessThan_loop_eval by (done || lia).
  by rewrite !take_ge by lia.
Qed.

(** ** Subtraction *)

Lemma SubtractLimbs_loop_spec b l k : (b = 0 \/ b = 1) -> limbs_ok l -> limbs_ok k -> length l = length k ->
  let r := SubtractLimbs_loop b l k in
  limbs_ok r /\ length r = length l /\
  exists c, (c = 0 \/ c = 1) /\ eval r = eval l - eval k - b + c * base ^ Z.of_nat (length l).
Proof.
  intros Hb Hl. revert b k Hb. induction Hl as [| x l Hx Hl IH]; intros b [| y k] Hb Hk E; try done.
  { split; [constructor |]. split; [done |]. exists b. split; [done |]. cbn. lia. }
  apply list.Forall_cons in Hk as [Hy Hk]. cbn [length] in E. injection E as E.
  unfold in_width in Hx, Hy. rewrite pow2_65536 in Hx, Hy. cbn [SubtractLimbs_loop].
  rewrite (uadd_small 32) by widths. cbv zeta.
  assert (Hstep : forall c x', (c = 0 \/ c = 1) -> in_width 16 x' -> x' = x - y - b + c * base ->
    let r := x' :: SubtractLimbs_loop c l k in
    limbs_ok r /\ length r = length (x :: l) /\ exists c, (c = 0 \/ c = 1) /\
      eval r = eval (x :: l) - eval (y :: k) - b + c * base ^ Z.of_nat (length (x :: l))).
  { intros c x' Hc Wx Ex. destruct (IH c k Hc Hk E) as (I1 & I2 & c' & I3 & I4). split; [by constructor |].
    split; [by cbn; rewrite I2 |]. exists c'. split; [done |]. cbn [length].
    rewrite !eval_cons, I4, Nat2Z.inj_succ, Z.pow_succ_r by lia. lia. }
  destruct (Z.ltb_spec x (y + b)).
  - rewrite (uadd_small 32), (usub_small 32), wrap_small by widths. apply Hstep; [by right | widths | unfold base; lia].
  - rewrite (usub_small 32), wrap_small by widths. apply Hstep; [by left | widths | lia].
Qed.

Lemma SubtractLimbs_spec l k : limbs_ok l -> limbs_ok k -> length l = length k -> eval k <= eval l ->
  let r := SubtractLimbs l k in limbs_ok r /\ length r = length l /\ eval r = eval l - eval k.
Proof.
  intros Hl Hk E Hle. destruct (SubtractLimbs_loop_spec 0 l k (or_introl eq_refl) Hl Hk E) as (H1 & H2 & c & Hc & H3).
  split; [done |]. split; [done |]. fold (SubtractLimbs l k) in *.
  pose proof (eval_bound _ H1) as B1. pose proof (eval_bound _ Hl) as B2. pose proof (eval_bound _ Hk) as B3.
  rewrite H2 in B1. set (w := base ^ Z.of_nat (length l)) in *. destruct Hc as [-> | ->]; lia.
Qed.

(** ** Carries *)

(** Limbs that do not overflow when carries are added. *)
Definition wide_ok (bound : Z) (l : list Z) : Prop := Forall (fun x => 0 <= x < bound) l.

Lemma CarryPass_spec carry l : 0 <= carry < 2 ^ 48 -> wide_ok (2 ^ 63) l ->
  let x := CarryPass carry l in
  limbs_ok x.1 /\ length x.1 = length l /\ 0 <= x.2 < 2 ^ 48 /\
  eval x.1 + x.2 * base ^ Z.of_nat (length l) = eval l + carry.
Proof.
  intros Hc Hl. revert carry Hc. induction Hl as [| v l Hv Hl IH]; intros carry Hc.
  { cbn. split; [constructor |]. split; [done |]. lia. }
  cbn [CarryPass]. rewrite uadd_small by (unfold in_width; lia). cbv zeta.
  rewrite (Z.shiftr_div_pow2 _ 16), (land_mask _ 16) by lia.
  assert (Hc' : 0 <= (v + carry) / 2 ^ 16 < 2 ^ 48).
  { split; [apply Z.div_pos; lia | apply Z.div_lt_upper_bound; lia]. }
  destruct (IH _ Hc') as (I1 & I2 & I3 & I4). destruct (CarryPass ((v + carry) / 2 ^ 16) l) as [l' hw].
  cbn [fst snd] in *. split; [| split; [by cbn; rewrite I2 | split; [done |]]].
  - constructor; [| done]. unfold in_width. apply Z.mod_pos_bound. lia.
  - cbn [length]. rewrite !eval_cons, Nat2Z.inj_succ, Z.pow_succ_r by lia.
    pose proof (Z.div_mod (v + carry) (2 ^ 16) ltac:(lia)). change (2 ^ 16) with base in *. nia.
Qed.

Lemma AddLow_spec inc l : l <> [] -> limbs_ok l -> 0 <= inc < 2 ^ 62 ->
  wide_ok (2 ^ 63) (AddLow inc l) /\ length (AddLow inc l) = length l /\ eval (AddLow inc l) = eval l + inc.
Proof.
  destruct l as [| x l]; [done |]. intros _ [Hx Hl]%list.Forall_cons Hi. unfold in_width in Hx. cbn [AddLow].
  rewrite uadd_small by (unfold in_width; lia). split; [| split; [done |]].
  - constructor; [lia |]. eapply List.Forall_impl; [| exact Hl]. intros y Hy. unfold in_width in Hy. lia.
  - rewrite !eval_cons. lia.
Qed.

Lemma wide_bound B l : wide_ok B l -> 0 <= eval l /\ eval l * (base - 1) <= (B - 1) * (base ^ Z.of_nat (length l) - 1).
Proof.
  induction 1 as [| x l Hx Hl IH]; [cbn; lia |]. cbn [length]. rewrite eval_cons, Nat2Z.inj_succ, Z.pow_succ_r by lia.
  unfold base in *. nia.
Qed.

Lemma top_limb l : length l = 16%nat -> limbs_ok l ->
  let hb := Z.shiftr (nth 15 l 0) 15 in
  (hb = 0 \/ hb = 1) /\ hb = eval l / 2 ^ 255 /\
  limbs_ok (<[15%nat := Z.land (nth 15 l 0) kTopLimbMask]> l) /\
  eval (<[15%nat := Z.land (nth 15 l 0) kTopLimbMask]> l) = eval l - hb * 2 ^ 255.
Proof.
  intros El Hl. pose proof (take_S_eval 15 l ltac:(lia)) as Ev. rewrite take_ge in Ev by lia.
  pose proof (eval_bound (take 15 l) (Forall_take _ _ _ Hl)) as Bl. rewrite length_take_le in Bl by lia.
  assert (Hx : in_width 16 (nth 15 l 0)).
  { destruct (lookup_lt_is_Some_2 l 15%nat ltac:(lia)) as [x Hx]. rewrite (nth_lookup_Some _ _ 0 _ Hx).
    by apply (Forall_lookup_1 _ _ _ _ Hl Hx). }
  set (x := nth 15 l 0) in *. unfold in_width in Hx. cbv zeta. rewrite eval_insert by lia. fold x.
  change kTopLimbMask with (2 ^ 15 - 1). rewrite land_mask, Z.shiftr_div_pow2 by lia.
  pose proof (Z.div_mod x (2 ^ 15) ltac:(lia)) as Dx. pose proof (Z.mod_pos_bound x (2 ^ 15) ltac:(lia)) as Mx.
  change (base ^ Z.of_nat 15) with (2 ^ 240) in *.
  assert (Hhb : x / 2 ^ 15 = 0 \/ x / 2 ^ 15 = 1).
  { rewrite pow2_65536 in Hx. change (2 ^ 15) with 32768 in *. lia. }
  split; [done |]. split; [| split].
  - apply (Z.div_unique_pos _ _ _ (eval (take 15 l) + 2 ^ 240 * (x mod 2 ^ 15))); lia.
  - apply Forall_insert; [done |]. unfold in_width. lia.
  - lia.
Qed.

(** One round: it ends, or it takes a multiple of the prime away. *)
Lemma Reduce_round n l : length l = 16%nat -> wide_ok (2 ^ 63) l ->
  (exists r, Reduce_loop (S n) l = Some r /\ limbs_ok r /\ length r = 16%nat /\ eval r < 2 ^ 255 /\ eval r = eval l) \/
  (exists l', Reduce_loop (S n) l = Reduce_loop n l' /\ length l' = 16%nat /\ wide_ok (2 ^ 63) l' /\
    let k := eval l / 2 ^ 256 in
    if 1 <=? k then eval l' = eval l - k * (2 * p) /\ eval l' < 2 ^ 256 + 38 * k
    else 2 ^ 255 <= eval l < 2 ^ 256 /\ eval l' = eval l - p).
Proof.
  intros El Hl. destruct (CarryPass_spec 0 l ltac:(lia) Hl) as (H1 & H2 & H3 & H4). cbn [Reduce_loop].
  destruct (CarryPass 0 l) as [v hw]. cbn [fst snd] in *. rewrite El in H2, H4. rewrite Z.add_0_r in H4.
  change (base ^ Z.of_nat 16) with (2 ^ 256) in H4. pose proof (eval_16 v H1 H2) as Bv.
  assert (Ek : eval l / 2 ^ 256 = hw) by (symmetry; apply (Z.div_unique_pos _ _ _ (eval v)); lia). rewrite Ek.
  assert (Hne : v <> []) by (intros ->; done). unfold p.
  destruct (Z.eqb_spec hw 0) as [-> | Hw]; cbn [negb].
  - destruct (top_limb v H2 H1) as (Hb & Eb & H5 & H6). set (hb := Z.shiftr (nth 15 v 0) 15) in *.
    set (v' := <[15%nat := _]> v) in *. assert (L' : length v' = 16%nat) by (unfold v'; by rewrite length_insert).
    assert (Hne' : v' <> []) by (intros E; by rewrite E in L').
    assert (Dv : 2 ^ 255 * hb <= eval v < 2 ^ 255 * hb + 2 ^ 255).
    { pose proof (Z.div_mod (eval v) (2 ^ 255) ltac:(lia)). pose proof (Z.mod_pos_bound (eval v) (2 ^ 255) ltac:(lia)). lia. }
    destruct Hb as [Hb | Hb]; rewrite Hb in *; cbn [Z.eqb negb].
    + left. exists v'. split; [done |]. split; [done |]. split; [done |]. lia.
    + right. destruct (AddLow_spec (u64 (19 * 1)) v' Hne' H5 ltac:(rewrite wrap_small by widths; lia)) as (A1 & A2 & A3).
      exists (AddLow (u64 (19 * 1)) v'). split; [done |]. split; [lia |]. split; [done |]. cbn [Z.leb Z.compare].
      rewrite A3, H6, wrap_small by widths. lia.
  - right. assert (W : u64 (38 * hw) = 38 * hw) by (apply wrap_small; unfold in_width; lia). rewrite W.
    destruct (AddLow_spec (38 * hw) v Hne H1 ltac:(lia)) as (A1 & A2 & A3).
    exists (AddLow (38 * hw) v). split; [done |]. split; [lia |]. split; [done |]. cbv zeta.
    rewrite (proj2 (Z.leb_le 1 hw)) by lia. lia.
Qed.

Definition round_bound (n : nat) : Z :=
  match n with
  | 0%nat => 0 | 1%nat => 2 ^ 255 | 2%nat => 2 ^ 255 + 19 | 3%nat => 2 ^ 256 + 2 ^ 37 | _ => 2 ^ 256 * 2 ^ 31
  end.

(** The loop ends within four rounds, with the same number modulo the prime. *)
Lemma Reduce_loop_ends n l : (n <= 4)%nat -> length l = 16%nat -> wide_ok (2 ^ 63) l -> eval l < round_bound n ->
  forall extra, exists r, Reduce_loop (n + extra) l = Some r /\ limbs_ok r /\ length r = 16%nat /\ eval r < 2 ^ 255 /\
    eval r mod p = eval l mod p.
Proof.
  revert l. induction n as [| n IH]; intros l Hn El Hl Hb extra.
  { pose proof (proj1 (wide_bound _ _ Hl)). cbn in Hb. lia. }
  pose proof (proj1 (wide_bound _ _ Hl)) as Hpos. cbn [Nat.add].
  destruct (Reduce_round (n + extra) l El Hl) as [(r & E & R1 & R2 & R3 & R4) | (l' & E & L1 & L2 & L3)].
  { exists r. do 4 (split; [done |]). by rewrite R4. }
  rewrite E. pose proof (proj1 (wide_bound _ _ L2)) as Hpos'.
  assert (Hk : eval l' < round_bound n /\ eval l' mod p = eval l mod p).
  { set (k := eval l / 2 ^ 256) in *. pose proof (Z.div_mod (eval l) (2 ^ 256) ltac:(lia)) as D. fold k in D.
    pose proof (Z.mod_pos_bound (eval l) (2 ^ 256) ltac:(lia)) as M. cbv zeta in L3.
    destruct (Z.leb_spec 1 k).
    - destruct L3 as [L3 L4]. split.
      + assert (k < 2 ^ 31) by (do 4 (destruct n as [| n]; [cbn [round_bound] in *; lia |]); lia).
        destruct n as [| [| [| [| n]]]]; cbn [round_bound] in *; unfold p in *; lia.
      + rewrite L3. replace (eval l - k * (2 * p)) with (eval l + - (k * 2) * p) by lia. apply Z.mod_add. done.
    - destruct L3 as [L3 L4]. split.
      + unfold p in L4. destruct n as [| [| [| [| n]]]]; cbn [round_bound] in *; lia.
      + rewrite L4. replace (eval l - p) with (eval l + -1 * p) by lia. apply Z.mod_add. done. }
  destruct (IH l' ltac:(lia) L1 L2 (proj1 Hk) extra) as (r & R & R1 & R2 & R3 & R4). exists r.
  split; [done |]. split; [done |]. split; [done |]. split; [done |]. rewrite R4. apply Hk.
Qed.

(** ** Reduction *)

Lemma limbs_ok_wide B l : 2 ^ 16 <= B -> limbs_ok l -> wide_ok B l.
Proof. intros HB. apply List.Forall_impl. intros x Hx. unfold in_width in Hx. lia. Qed.

Lemma wide_ok_weaken A B l : A <= B -> wide_ok A l -> wide_ok B l.
Proof. intros HB. apply List.Forall_impl. intros x Hx. lia. Qed.

Lemma wide_ok_zeros B n : 0 < B -> wide_ok B (repeat 0 n).
Proof. intros HB. induction n as [| n IH]; constructor; [lia | exact IH]. Qed.

Lemma limbs_ok_u16 l : limbs_ok l -> List.map u16 l = l.
Proof. induction 1 as [| x l Hx Hl IH]; [done |]. cbn [List.map]. by rewrite IH, wrap_small. Qed.

Lemma kFieldPrime_ok : limbs_ok kFieldPrime /\ length kFieldPrime = 16%nat /\ eval kFieldPrime = p.
Proof. split; [| done]. unfold limbs_ok, kFieldPrime, in_width. repeat constructor; lia. Qed.

Lemma zip_fold_spec low high : length low = length high -> wide_ok (2 ^ 40) low -> wide_ok (2 ^ 40) high ->
  let r := zip_with (fun low high => uadd 64 low (u64 (38 * high))) low high in
  length r = length low /\ wide_ok (2 ^ 46) r /\ eval r = eval low + 38 * eval high.
Proof.
  intros E Hl. revert high E. induction Hl as [| x low Hx Hl IH]; intros [| y high] E Hh; try done.
  { split; [done |]. split; [constructor | done]. }
  apply list.Forall_cons in Hh as [Hy Hh]. cbn [length] in E. injection E as E.
  destruct (IH high E Hh) as (I1 & I2 & I3). cbn [zip_with length]. cbv zeta.
  rewrite (wrap_small 64) by (unfold in_width; lia). rewrite uadd_small by (unfold in_width; lia).
  split; [by rewrite I1 |]. split; [constructor; [lia | done] |]. rewrite !eval_cons, I3. lia.
Qed.

Lemma FoldHigh_spec v : length v = 32%nat -> wide_ok (2 ^ 40) v ->
  length (FoldHigh v) = 16%nat /\ wide_ok (2 ^ 46) (FoldHigh v) /\ eval (FoldHigh v) mod p = eval v mod p.
Proof.
  intros E H. unfold FoldHigh, kFieldLimbCount.
  assert (L : length (take 16 v) = 16%nat) by (rewrite length_take; lia).
  destruct (zip_fold_spec (take 16 v) (drop 16 v)) as (H1 & H2 & H3).
  { rewrite L, length_drop. lia. } { by apply Forall_take. } { by apply Forall_drop. }
  split; [lia |]. split; [done |]. rewrite H3.
  rewrite <- (take_drop 16 v) at 3. rewrite eval_app, L. change (base ^ Z.of_nat 16) with (38 + 2 * p).
  replace (eval (take 16 v) + (38 + 2 * p) * eval (drop 16 v))
    with (eval (take 16 v) + 38 * eval (drop 16 v) + (2 * eval (drop 16 v)) * p) by lia.
  by rewrite Z.mod_add.
Qed.

Lemma Reduce_ends v : length v = 32%nat -> wide_ok (2 ^ 40) v ->
  exists r, Reduce_loop Reduce_rounds (FoldHigh v) = Some r /\ limbs_ok r /\ length r = 16%nat /\
    eval r < 2 ^ 255 /\ eval r mod p = eval v mod p.
Proof.
  intros E H. destruct (FoldHigh_spec v E H) as (F1 & F2 & F3).
  pose proof (proj2 (wide_bound _ _ F2)) as Bd. rewrite F1 in Bd.
  change (base ^ Z.of_nat 16) with (2 ^ 256) in Bd. unfold base in Bd.
  destruct (Reduce_loop_ends 4 (FoldHigh v) ltac:(lia) F1) with (extra := 1%nat) as (r & R & R1 & R2 & R3 & R4).
  { revert F2. apply wide_ok_weaken. lia. } { cbn [round_bound]. lia. }
  exists r. do 4 (split; [done |]). by rewrite R4.
Qed.

Lemma Reduce_spec v : length v = 32%nat -> wide_ok (2 ^ 40) v ->
  field_ok (Reduce v) /\ eval (Reduce v) = eval v mod p.
Proof.
  intros E H. destruct (Reduce_ends v E H) as (r & R & R1 & R2 & R3 & R4). unfold Reduce. rewrite R, limbs_ok_u16 by done.
  cbv zeta. destruct kFieldPrime_ok as (P1 & P2 & P3). rewrite LimbsLessThan_eval, P3 by done.
  pose proof (eval_bound r R1) as Br. rewrite <- R4.
  destruct (Z.ltb_spec (eval r) p) as [Hlt | Hge]; cbn [negb].
  - rewrite Z.mod_small by lia. by repeat split.
  - destruct (SubtractLimbs_spec r kFieldPrime R1 P1 ltac:(by rewrite R2) ltac:(by rewrite P3)) as (S1 & S2 & S3).
    rewrite P3 in S3. split; [split; [by rewrite S2 |]; split; [done |]; unfold p in *; lia |].
    rewrite S3. apply (Z.mod_unique_pos _ _ 1); unfold p in *; lia.
Qed.

(** ** The operations of the field *)

Lemma field_bound a : field_ok a -> 0 <= eval a < p.
Proof. intros (H1 & H2 & H3). pose proof (eval_bound a H2). lia. Qed.

Lemma FieldAdd_zip a b : limbs_ok a -> limbs_ok b -> length a = length b ->
  let r := zip_with (fun x y => uadd 64 x y) a b in
  length r = length a /\ wide_ok (2 ^ 40) r /\ eval r = eval a + eval b.
Proof.
  intros Ha. revert b. induction Ha as [| x a Hx Ha IH]; intros [| y b] Hb E; try done.
  { split; [done |]. split; [constructor | done]. }
  apply list.Forall_cons in Hb as [Hy Hb]. cbn [length] in E. injection E as E.
  destruct (IH b Hb E) as (I1 & I2 & I3). unfold in_width in Hx, Hy. cbn [zip_with length]. cbv zeta.
  rewrite uadd_small by (unfold in_width; lia).
  split; [by rewrite I1 |]. split; [constructor; [lia | done] |]. rewrite !eval_cons, I3. lia.
Qed.

Lemma FieldAdd_spec a b : field_ok a -> field_ok b ->
  field_ok (FieldAdd a b) /\ eval (FieldAdd a b) = (eval a + eval b) mod p.
Proof.
  intros (A1 & A2 & A3) (B1 & B2 & B3). destruct (FieldAdd_zip a b A2 B2 ltac:(congruence)) as (Z1 & Z2 & Z3).
  unfold FieldAdd. set (s := zip_with _ a b) in *.
  destruct (Reduce_spec (s ++ repeat 0 kFieldLimbCount)) as [R1 R2].
  - rewrite length_app, repeat_length, Z1, A1. done.
  - apply Forall_app. split; [done |]. by apply wide_ok_zeros.
  - split; [done |]. rewrite R2, eval_app, eval_zeros, Z3. f_equal. lia.
Qed.

Lemma FieldSub_spec a b : field_ok a -> field_ok b ->
  field_ok (FieldSub a b) /\ eval (FieldSub a b) = (eval a - eval b) mod p.
Proof.
  intros Ha Hb. pose proof (field_bound a Ha) as Ba. pose proof (field_bound b Hb) as Bb.
  destruct Ha as (A1 & A2 & A3), Hb as (B1 & B2 & B3), kFieldPrime_ok as (P1 & P2 & P3).
  unfold FieldSub. rewrite LimbsLessThan_eval by done. destruct (Z.ltb_spec (eval a) (eval b)); cbn [negb].
  - destruct (SubtractLimbs_spec b a B2 A2 ltac:(congruence) ltac:(lia)) as (S1 & S2 & S3).
    destruct (SubtractLimbs_spec kFieldPrime (SubtractLimbs b a) P1 S1 ltac:(congruence) ltac:(lia)) as (T1 & T2 & T3).
    split; [split; [congruence |]; split; [done | lia] |]. apply (Z.mod_unique_pos _ _ (-1)); lia.
  - destruct (SubtractLimbs_spec a b A2 B2 ltac:(congruence) ltac:(lia)) as (S1 & S2 & S3).
    split; [split; [congruence |]; split; [done | lia] |]. rewrite Z.mod_small; lia.
Qed.

(** One product added to a limb. *)
Lemma alter_spec B l i c : (i < length l)%nat -> wide_ok B l -> B <= 2 ^ 40 -> 0 <= c < 2 ^ 32 ->
  let r := alter (fun x => uadd 64 x (u64 c)) i l in
  length r = length l /\ wide_ok (B + (2 ^ 32 - 1)) r /\ eval r = eval l + base ^ Z.of_nat i * c.
Proof.
  intros Hi Hl HB Hc. revert i Hi. induction Hl as [| x l Hx Hl IH]; intros i Hi; [cbn in Hi; lia |].
  destruct i as [| i]; cbn [length] in Hi.
  - change (alter (fun x => uadd 64 x (u64 c)) 0%nat (x :: l)) with (uadd 64 x (u64 c) :: l).
    rewrite (wrap_small 64), uadd_small by (unfold in_width; lia). split; [done |]. split.
    + constructor; [lia |]. revert Hl. apply wide_ok_weaken. lia.
    + rewrite !eval_cons. change (base ^ Z.of_nat 0) with 1. lia.
  - change (alter (fun x => uadd 64 x (u64 c)) (S i) (x :: l)) with (x :: alter (fun x => uadd 64 x (u64 c)) i l).
    destruct (IH i ltac:(lia)) as (I1 & I2 & I3). cbn [length]. split; [by rewrite I1 |].
    split; [constructor; [lia | done] |]. rewrite !eval_cons, I3, Nat2Z.inj_succ, Z.pow_succ_r by lia. lia.
Qed.

Lemma mul_limbs x y : in_width 16 x -> in_width 16 y -> 0 <= x * y < 2 ^ 32.
Proof. unfold in_width. rewrite pow2_65536, pow2_32. nia. Qed.

Lemma MultiplyRow_spec B i limb r l : in_width 16 limb -> limbs_ok r -> (i + length r <= length l)%nat ->
  wide_ok B l -> B + Z.of_nat (length r) * (2 ^ 32 - 1) <= 2 ^ 40 ->
  let x := MultiplyRow i limb r l in
  length x = length l /\ wide_ok (B + Z.of_nat (length r) * (2 ^ 32 - 1)) x /\
  eval x = eval l + base ^ Z.of_nat i * (limb * eval r).
Proof.
  intros Hlimb Hr. revert i l B. induction Hr as [| y r Hy Hr IH]; intros i l B Hi Hl HB.
  { cbn [MultiplyRow length] in *. split; [done |]. split; [revert Hl; apply wide_ok_weaken; lia |]. change (eval []) with 0. lia. }
  cbn [MultiplyRow length] in *. rewrite Nat2Z.inj_succ in *.
  destruct (alter_spec B l i (limb * y) ltac:(lia) Hl ltac:(lia) (mul_limbs _ _ Hlimb Hy)) as (A1 & A2 & A3).
  destruct (IH (S i) _ _ ltac:(rewrite A1; lia) A2 ltac:(lia)) as (I1 & I2 & I3).
  split; [by rewrite I1 |]. split; [revert I2; apply wide_ok_weaken; lia |].
  rewrite I3, A3, eval_cons, Nat2Z.inj_succ, Z.pow_succ_r by lia. lia.
Qed.

Lemma MultiplyRows_spec B i r l p : limbs_ok l -> limbs_ok r -> length r = 16%nat ->
  (i + length l + length r <= S (length p))%nat ->
  wide_ok B p -> B + Z.of_nat (length l) * (16 * (2 ^ 32 - 1)) <= 2 ^ 40 ->
  let x := MultiplyRows i l r p in
  length x = length p /\ wide_ok (B + Z.of_nat (length l) * (16 * (2 ^ 32 - 1))) x /\
  eval x = eval p + base ^ Z.of_nat i * (eval l * eval r).
Proof.
  intros Hl Hr Er. revert i p B. induction Hl as [| y l Hy Hl IH]; intros i p B Hi Hp HB.
  { cbn [MultiplyRows length] in *. split; [done |]. split; [revert Hp; apply wide_ok_weaken; lia |]. change (eval []) with 0. lia. }
  cbn [MultiplyRows length] in *. rewrite Nat2Z.inj_succ in *.
  destruct (MultiplyRow_spec B i y r p Hy Hr ltac:(lia) Hp ltac:(rewrite Er; lia)) as (A1 & A2 & A3).
  rewrite Er in A2. change (Z.of_nat 16) with 16 in A2.
  destruct (IH (S i) _ _ ltac:(rewrite A1; lia) A2 ltac:(lia)) as (I1 & I2 & I3).
  split; [by rewrite I1 |]. split; [revert I2; apply wide_ok_weaken; lia |].
  rewrite I3, A3, eval_cons, Nat2Z.inj_succ, Z.pow_succ_r by lia. lia.
Qed.

(** The products of two elements stay within the width [Reduce] takes. *)
Lemma product_wide a b : field_ok a -> field_ok b ->
  let v := MultiplyRows 0 a b (repeat 0 (2 * kFieldLimbCount)) in
  length v = 32%nat /\ wide_ok (2 ^ 40) v /\ eval v = eval a * eval b.
Proof.
  intros (A1 & A2 & A3) (B1 & B2 & B3). set (zeros := repeat 0 _).
  destruct (MultiplyRows_spec 1 0 b a zeros A2 B2 B1) as (M1 & M2 & M3).
  - rewrite A1, B1. unfold zeros. rewrite repeat_length. unfold kFieldLimbCount. lia.
  - by apply wide_ok_zeros.
  - rewrite A1. lia.
  - split; [by rewrite M1 |]. split; [rewrite A1 in M2; revert M2; apply wide_ok_weaken; lia |].
    cbv zeta. rewrite M3. unfold zeros. rewrite eval_zeros. change (base ^ Z.of_nat 0) with 1. lia.
Qed.

Lemma FieldMul_spec a b : field_ok a -> field_ok b ->
  field_ok (FieldMul a b) /\ eval (FieldMul a b) = (eval a * eval b) mod p.
Proof.
  intros Ha Hb. destruct (product_wide a b Ha Hb) as (M1 & M2 & M3).
  destruct (Reduce_spec _ M1 M2) as [R1 R2]. split; [exact R1 |]. unfold FieldMul. by rewrite R2, M3.
Qed.

(** The exponent [Pow] reads, its lowest [bits] bits. *)
Fixpoint exponent_value (bits : nat) (exponent : bytes) : Z :=
  match bits with
  | O => 0
  | S bit => (if exponent_bit exponent bit then 2 ^ Z.of_nat bit else 0) + exponent_value bit exponent
  end.

Lemma exponent_value_nonneg bits e : 0 <= exponent_value bits e.
Proof. induction bits as [| bit IH]; cbn [exponent_value]; [lia |]. destruct (exponent_bit e bit); lia. Qed.

Lemma Pow_loop_spec bits e b r : field_ok b -> field_ok r ->
  field_ok (Pow_loop bits e b r) /\
  eval (Pow_loop bits e b r) = (eval r ^ (2 ^ Z.of_nat bits) * eval b ^ exponent_value bits e) mod p.
Proof.
  intros Hb. revert r. induction bits as [| bit IH]; intros r Hr.
  { split; [done |]. cbn [Pow_loop exponent_value]. change (2 ^ Z.of_nat 0) with 1. rewrite Z.pow_1_r, Z.pow_0_r, Z.mul_1_r.
    pose proof (field_bound r Hr). by rewrite Z.mod_small. }
  cbn [Pow_loop exponent_value]. cbv zeta. unfold Square. destruct (FieldMul_spec r r Hr Hr) as [S1 S2].
  pose proof (exponent_value_nonneg bit e) as He. rewrite Nat2Z.inj_succ, Z.pow_succ_r by lia.
  assert (Esq : eval r ^ (2 * 2 ^ Z.of_nat bit) = (eval r * eval r) ^ (2 ^ Z.of_nat bit)).
  { rewrite Z.pow_mul_r by lia. by rewrite Z.pow_2_r. }
  rewrite Esq. destruct (exponent_bit e bit).
  - destruct (FieldMul_spec (FieldMul r r) b S1 Hb) as [M1 M2]. destruct (IH _ M1) as [I1 I2]. split; [done |].
    rewrite I2, M2, S2, Z.mul_mod_idemp_l by done. rewrite Z.pow_add_r by lia.
    rewrite <- Z.mul_mod_idemp_l, Z.mod_pow_l, Z.mul_mod_idemp_l by done. f_equal. rewrite Z.pow_mul_l. lia.
  - destruct (IH _ S1) as [I1 I2]. split; [done |]. rewrite I2, S2, Z.add_0_l.
    by rewrite <- Z.mul_mod_idemp_l, Z.mod_pow_l, Z.mul_mod_idemp_l.
Qed.

Lemma FromUint_spec v : 0 <= v < 2 ^ 32 -> field_ok (FromUint v) /\ eval (FromUint v) = v.
Proof.
  intros Hv. unfold FromUint. change FieldElement_zero with (repeat 0 16).
  assert (E : <[1%nat := u16 (Z.shiftr v 16)]> (<[0%nat := u16 (Z.land v 0xffff)]> (repeat 0 16))
    = v mod 65536 :: v / 65536 :: repeat 0 14).
  { cbn [repeat]. change (Z.land v 0xffff) with (Z.land v (2 ^ 16 - 1)). rewrite (land_mask v 16), (Z.shiftr_div_pow2 v 16), pow2_65536 by lia.
    rewrite pow2_32 in Hv. rewrite !wrap_small by (unfold in_width; rewrite pow2_65536; zlia). done. }
  rewrite E. assert (Ev : eval (v mod 65536 :: v / 65536 :: repeat 0 14) = v).
  { rewrite !eval_cons, eval_zeros. unfold base. zlia. }
  rewrite Ev. rewrite pow2_32 in Hv. split; [| done]. split; [done |]. split; [| rewrite Ev; unfold p; lia].
  unfold limbs_ok, in_width. rewrite pow2_65536. constructor; [zlia |]. constructor; [zlia |].
  apply (wide_ok_zeros 65536). lia.
Qed.

Lemma Pow_loop_one bits e b r : field_ok b -> field_ok r -> eval r = 1 ->
  field_ok (Pow_loop bits e b r) /\ eval (Pow_loop bits e b r) = eval b ^ exponent_value bits e mod p.
Proof.
  intros Hb Hr E. destruct (Pow_loop_spec bits e b r Hb Hr) as [P1 P2]. split; [done |].
  rewrite P2, E, Z.pow_1_l, Z.mul_1_l by lia. done.
Qed.

Lemma Pow_spec a e : field_ok a ->
  field_ok (Pow a e) /\ eval (Pow a e) = eval a ^ exponent_value 255 e mod p.
Proof. intros Ha. destruct (FromUint_spec 1 ltac:(lia)) as [F1 F2]. exact (Pow_loop_one 255 e a (FromUint 1) Ha F1 F2). Qed.

(** ** Errors are never [kNone] *)

Lemma DecodeSign_error s x y : DecodeSign s x y <> inl SecurityError.kNone.
Proof. unfold DecodeSign. destruct (_ && s); discriminate. Qed.

Lemma DecodePoint_error encoded : DecodePoint encoded <> inl SecurityError.kNone.
Proof.
  unfold DecodePoint. destruct (negb (IsCanonicalLittleEndian _)); [discriminate |].
  match goal with |- context [IsZero ?d] => generalize d; intros den end. destruct (IsZero den); [discriminate |].
  match goal with |- context [FieldMul ?n (Pow den _)] => generalize (FieldMul n (Pow den kInverseExponent)); intros u end.
  cbv zeta.
  match goal with |- context [negb (FieldEq (Square ?x) u)] => generalize x; intros x0 end.
  destruct (negb (FieldEq _ _)); [discriminate |]. apply DecodeSign_error.
Qed.

Lemma ValidateEd25519PublicKey_error encoded : ValidateEd25519PublicKey encoded <> inl SecurityError.kNone.
Proof.
  unfold ValidateEd25519PublicKey. destruct (negb (bsize encoded =? _)); [discriminate |].
  pose proof (DecodePoint_error encoded) as HE. destruct (DecodePoint encoded) as [e | P]; [intros [= ->]; by apply HE |].
  destruct (_ || _); discriminate.
Qed.
