(* ===== verification/Ed25519Points.v ===== *)
(** * Validation of Ed25519 public keys: the points that are accepted

    The validation of [Ed25519] is the validation written with integers modulo
    [2 ^ 255 - 19]; a key is decoded exactly when it is the canonical encoding of
    a point of the curve, and accepted exactly when that point is not the
    identity and the order of the prime subgroup takes it to the identity. *)

From Stdlib Require Import ZArith Znumtheory Zdivisibility.
From Stdlib.Zmod Require Import ZmodInv.
From Bignums Require Import BigZ.
From S2P Require Import Prelude.
From S2P Require Import SecurityTypes.
From S2P Require Import Prime25519.
From S2P Require Import Ed25519.
From S2P Require Import Ed25519Proofs.
Import SecurityTypes Ed25519.

(** ** Arithmetic modulo a number *)

Definition cong (q a b : Z) : Prop := (q | a - b).

#[export] Instance cong_equivalence q : Equivalence (cong q).
Proof.
  split; unfold cong.
  - intros a. exists 0. lia.
  - intros a b [c H]. exists (- c). lia.
  - intros a b e [c H] [c' H']. exists (c + c'). lia.
Qed.

#[export] Instance cong_add q : Proper (cong q ==> cong q ==> cong q) Z.add.
Proof. intros a a' [c H] b b' [e H']. exists (c + e). lia. Qed.

#[export] Instance cong_sub q : Proper (cong q ==> cong q ==> cong q) Z.sub.
Proof. intros a a' [c H] b b' [e H']. exists (c - e). lia. Qed.

#[export] Instance cong_opp q : Proper (cong q ==> cong q) Z.opp.
Proof. intros a a' [c H]. exists (- c). lia. Qed.

#[export] Instance cong_mul q : Proper (cong q ==> cong q ==> cong q) Z.mul.
Proof. intros a a' [c H] b b' [e H']. exists (a * e + c * b'). nia. Qed.

Lemma cong_eq q a b : a = b -> cong q a b.
Proof. by intros ->. Qed.

Lemma cong_iff q a b : q <> 0 -> cong q a b <-> a mod q = b mod q.
Proof.
  intros Hq. unfold cong. split.
  - intros [c Hc]. replace a with (b + c * q) by lia. by apply Z.mod_add.
  - intros E. apply Z.mod_divide; [done |]. rewrite Zminus_mod, E, Z.sub_diag. by apply Z.mod_0_l.
Qed.

Lemma cong_mod q a : q <> 0 -> cong q (a mod q) a.
Proof. intros Hq. apply cong_iff; [done |]. by apply Z.mod_mod. Qed.

Lemma cong_pow q a b k : q <> 0 -> cong q a b -> cong q (a ^ k) (b ^ k).
Proof. intros Hq. rewrite !cong_iff by done. intros E. rewrite <- (Z.mod_pow_l a), E. apply Z.mod_pow_l. Qed.

Lemma cong_small q a b : 0 <= a < q -> 0 <= b < q -> cong q a b -> a = b.
Proof. intros Ha Hb. rewrite cong_iff by lia. by rewrite !Z.mod_small. Qed.

(** ** Arithmetic modulo a prime *)

Section PrimeField.
Context (q : Z) (Hq : Z.prime q).
#[local] Set Default Proof Using "All".

#[local] Infix "==" := (cong q) (at level 70, no associativity).

Lemma prime_nonzero : q <> 0.
Proof. pose proof (Z.prime_ge_2 _ Hq). lia. Qed.

Lemma cong_product a b : a * b == 0 -> a == 0 \/ b == 0.
Proof. unfold cong. rewrite !Z.sub_0_r. apply Z.divide_prime_mul. done. Qed.

Lemma cong_sub_0 a b : a - b == 0 <-> a == b.
Proof. unfold cong. by rewrite Z.sub_0_r. Qed.

Lemma cong_square a b : a * a == b * b -> a == b \/ a == - b.
Proof.
  intros E. destruct (cong_product (a - b) (a + b)) as [H | H].
  - replace ((a - b) * (a + b)) with (a * a - b * b) by lia. by apply cong_sub_0.
  - left. by apply cong_sub_0.
  - right. apply cong_sub_0. by replace (a - - b) with (a + b) by lia.
Qed.

Lemma cong_cancel a b c : ~ c == 0 -> a * c == b * c -> a == b.
Proof.
  intros Hc E. destruct (cong_product (a - b) c) as [H | H]; [| | done].
  - replace ((a - b) * c) with (a * c - b * c) by lia. by apply cong_sub_0.
  - by apply cong_sub_0.
Qed.

Lemma cong_fermat a : ~ a == 0 -> a ^ (q - 1) == 1.
Proof.
  pose proof (Z.prime_ge_2 _ Hq). rewrite !cong_iff by apply prime_nonzero. intros Ha.
  rewrite (Z.mod_small 1) by lia. apply Z.fermat_nz; [done |]. by rewrite Z.mod_0_l in Ha by lia.
Qed.

Lemma cong_inverse a : ~ a == 0 -> a ^ (q - 2) * a == 1.
Proof.
  pose proof (Z.prime_ge_2 _ Hq). intros Ha.
  replace (a ^ (q - 2) * a) with (a ^ (q - 1)); [by apply cong_fermat |].
  replace (q - 1) with (Z.succ (q - 2)) by lia. rewrite Z.pow_succ_r by lia. lia.
Qed.

(** A square and its power by a quarter of [q - 1]. *)
Lemma square_character k x u : q = 8 * k + 5 -> 0 <= k -> ~ x == 0 -> x * x == u ->
  u ^ (2 * k + 1) == 1 \/ u ^ (2 * k + 1) == - (1).
Proof.
  intros Eq Hk E0 Hx. apply cong_square. rewrite Z.mul_1_r.
  transitivity (x ^ (q - 1)); [| by apply cong_fermat]. rewrite <- Z.pow_add_r by lia.
  rewrite <- (cong_pow q _ _ _ prime_nonzero Hx), <- Z.pow_2_r, <- Z.pow_mul_r by lia.
  apply cong_eq. f_equal. lia.
Qed.

(** The square root that is tried for a prime that is five modulo eight. *)
Lemma square_root k i x u : q = 8 * k + 5 -> 0 <= k -> i * i == -1 -> x * x == u ->
  let r := u ^ (k + 1) in r * r == u \/ (r * i) * (r * i) == u.
Proof.
  intros Eq Hk Hi Hx r.
  assert (Hr : r * r = u * u ^ (2 * k + 1)).
  { unfold r. rewrite <- Z.pow_add_r, <- Z.pow_succ_r by lia. f_equal. lia. }
  destruct (decide (x mod q = 0 mod q)) as [E0 | E0]; rewrite <- cong_iff in E0 by apply prime_nonzero.
  - left. rewrite E0, Z.mul_0_l in Hx. rewrite Hr. generalize (u ^ (2 * k + 1)). intros w.
    rewrite <- Hx. by rewrite Z.mul_0_l.
  - destruct (square_character k x u Eq Hk E0 Hx) as [H1 | H1]; [left | right].
    + rewrite Hr, H1. by rewrite Z.mul_1_r.
    + replace (r * i * (r * i)) with ((r * r) * (i * i)) by lia. rewrite Hr, H1, Hi.
      apply cong_eq. lia.
Qed.
End PrimeField.

(** ** Field elements and the integers they stand for *)

Definition rep (a : FieldLimbs) (x : Z) : Prop := field_ok a /\ eval a = x.

Lemma rep_range a x : rep a x -> 0 <= x < p.
Proof. intros [H <-]. by apply field_bound. Qed.

Lemma rep_zero : rep FieldElement_zero 0.
Proof. split; [split; [done |]; split; [| done] | done]. apply (wide_ok_zeros (2 ^ 16)). lia. Qed.

Lemma rep_uint v : 0 <= v < 2 ^ 32 -> rep (FromUint v) v.
Proof. apply FromUint_spec. Qed.

Lemma rep_one : rep (FromUint 1) 1. Proof. by apply rep_uint. Qed.
Lemma rep_two : rep (FromUint 2) 2. Proof. by apply rep_uint. Qed.

Lemma rep_add a b x y : rep a x -> rep b y -> rep (FieldAdd a b) ((x + y) mod p).
Proof. intros [Ha <-] [Hb <-]. by apply FieldAdd_spec. Qed.

Lemma rep_sub a b x y : rep a x -> rep b y -> rep (FieldSub a b) ((x - y) mod p).
Proof. intros [Ha <-] [Hb <-]. by apply FieldSub_spec. Qed.

Lemma rep_mul a b x y : rep a x -> rep b y -> rep (FieldMul a b) ((x * y) mod p).
Proof. intros [Ha <-] [Hb <-]. by apply FieldMul_spec. Qed.

Lemma rep_square a x : rep a x -> rep (Square a) ((x * x) mod p).
Proof. intros H. by apply rep_mul. Qed.

Lemma rep_eq a b x y : rep a x -> rep b y -> FieldEq a b = (x =? y).
Proof.
  intros [(A1 & A2 & _) <-] [(B1 & B2 & _) <-]. unfold FieldEq. apply eq_true_iff_eq.
  rewrite same_bytes_true, Z.eqb_eq. split; [by intros -> |]. apply eval_inj; congruence.
Qed.

Lemma rep_IsZero a x : rep a x -> IsZero a = (x =? 0).
Proof.
  intros [(_ & A2 & _) <-]. induction A2 as [| l a Hl Ha IH]; [done |]. unfold IsZero in *. cbn [forallb]. rewrite IH, eval_cons.
  unfold in_width in Hl. pose proof (eval_bound a Ha). unfold base. apply eq_true_iff_eq.
  rewrite andb_true_iff, !Z.eqb_eq. lia.
Qed.

Lemma rep_IsOdd a x : rep a x -> IsOdd a = Z.odd x.
Proof.
  intros [(A1 & _) <-]. destruct a as [| l a]; [done |]. unfold IsOdd. cbn [nth]. rewrite eval_cons.
  rewrite Z.odd_add, Z.odd_mul. change (Z.odd base) with false. rewrite andb_false_l, xorb_false_r.
  change (Z.land l 1) with (Z.land l (2 ^ 1 - 1)). rewrite land_mask, Z.pow_1_r, Zmod_odd by lia. by destruct (Z.odd l).
Qed.

Definition fpow (a e : Z) : Z := pow_mod a e p.

Lemma rep_pow a x e k : rep a x -> exponent_value 255 e = k -> rep (Pow a e) (fpow x k).
Proof.
  intros [Ha <-] <-. unfold fpow. rewrite pow_mod_correct by done. by apply Pow_spec.
Qed.

Definition curve_d : Z := 37095705934669439343138083508754565189542113879843219016388785533085940283555.
Definition root_minus_1 : Z := 19681161376707505956807079304988542015446066515923890162744021073123829784752.

Lemma inverse_exponent_value : exponent_value 255 kInverseExponent = p - 2. Proof. by vm_compute. Qed.
Lemma root_exponent_value : exponent_value 255 kSquareRootExponent = (p + 3) / 8. Proof. by vm_compute. Qed.

Lemma rep_CurveD : rep CurveD curve_d.
Proof.
  assert (H : rep CurveD ((0 - 121665 * fpow 121666 (p - 2) mod p) mod p)).
  { apply rep_sub; [apply rep_zero |]. apply rep_mul; [by apply rep_uint |].
    apply rep_pow; [by apply rep_uint | apply inverse_exponent_value]. }
  replace curve_d with ((0 - 121665 * fpow 121666 (p - 2) mod p) mod p); [exact H | by vm_compute].
Qed.

Lemma rep_SquareRootMinusOne : rep SquareRootMinusOne root_minus_1.
Proof.
  assert (H : rep SquareRootMinusOne (fpow 2 ((p - 1) / 4))) by (apply rep_pow; [apply rep_two | by vm_compute]).
  replace root_minus_1 with (fpow 2 ((p - 1) / 4)); [exact H | by vm_compute].
Qed.

(** The integer an expression on limbs stands for, by the head of the expression. *)
Ltac rep_solve :=
  lazymatch goal with
  | |- rep (FieldMul _ _) _ => apply rep_mul; rep_solve
  | |- rep (FieldAdd _ _) _ => apply rep_add; rep_solve
  | |- rep (FieldSub _ _) _ => apply rep_sub; rep_solve
  | |- rep (Square _) _ => apply rep_square; rep_solve
  | |- rep CurveD _ => exact rep_CurveD
  | |- rep SquareRootMinusOne _ => exact rep_SquareRootMinusOne
  | |- rep FieldElement_zero _ => exact rep_zero
  | |- rep (FromUint 1) _ => exact rep_one
  | |- rep (FromUint 2) _ => exact rep_two
  | |- rep _ _ => assumption
  end.

(** The constant of the curve is [- 121665 / 121666], and [root_minus_1] is a square root of minus one. *)
Lemma curve_d_value : cong p (curve_d * 121666) (- 121665).
Proof. apply cong_iff; by vm_compute. Qed.

Lemma root_minus_1_value : cong p (root_minus_1 * root_minus_1) (-1).
Proof. apply cong_iff; by vm_compute. Qed.

(** ** The validation written with integers *)

Definition le_value (l : bytes) : Z := fold_right (fun byte rest => byte + 256 * rest) 0 l.

(** A square root of [u], by the formula for a prime that is five modulo eight. *)
Definition ref_root (u : Z) : option Z :=
  let x := fpow u ((p + 3) / 8) in
  let x := if x * x mod p =? u then x else x * root_minus_1 mod p in
  if x * x mod p =? u then Some x else None.

(** The affine point an encoded number stands for. *)
Definition ref_decode (e : Z) : Result (Z * Z) :=
  let x_sign := 2 ^ 255 <=? e in
  let y := e mod 2 ^ 255 in
  if p <=? y then inl SecurityError.kNonCanonicalEncoding
  else
  let yy := y * y mod p in
  let denominator := ((curve_d * yy) mod p + 1) mod p in
  if denominator =? 0 then inl SecurityError.kInvalidPublicKey
  else
  match ref_root (((yy - 1) mod p * fpow denominator (p - 2)) mod p) with
  | None => inl SecurityError.kInvalidPublicKey
  | Some x =>
      if (x =? 0) && x_sign then inl SecurityError.kNonCanonicalEncoding
      else inr (if negb (Bool.eqb (Z.odd x) x_sign) then (0 - x) mod p else x, y)
  end.

(** Points in extended coordinates: [x = X / Z], [y = Y / Z], [x * y = T / Z]. *)
Record ExtendedPoint := { zx : Z; zy : Z; zz : Z; zt : Z }.

Definition ref_identity : ExtendedPoint := {| zx := 0; zy := 1; zz := 1; zt := 0 |}.
Definition ref_point (x y : Z) : ExtendedPoint := {| zx := x; zy := y; zz := 1; zt := x * y mod p |}.

Definition ref_add (P Q : ExtendedPoint) : ExtendedPoint :=
  let a := ((zy P - zx P) mod p * ((zy Q - zx Q) mod p)) mod p in
  let b := ((zy P + zx P) mod p * ((zy Q + zx Q) mod p)) mod p in
  let c := (((2 * curve_d) mod p * zt P) mod p * zt Q) mod p in
  let d := ((2 * zz P) mod p * zz Q) mod p in
  let e := (b - a) mod p in
  let f := (d - c) mod p in
  let g := (d + c) mod p in
  let h := (b + a) mod p in
  {| zx := e * f mod p; zy := g * h mod p; zz := f * g mod p; zt := e * h mod p |}.

Definition ref_is_identity (P : ExtendedPoint) : bool := (zx P =? 0) && (zy P =? zz P).

(** The sum of [bits] terms by doubling and adding, for the bits of [n]. *)
Fixpoint ref_multiply (bits : nat) (n : Z) (result addend : ExtendedPoint) : ExtendedPoint :=
  match bits with
  | O => result
  | S bits =>
      ref_multiply bits (Z.div2 n) (if Z.odd n then ref_add result addend else result) (ref_add addend addend)
  end.

(** The order of the prime subgroup. *)
Definition subgroup_order : Z := 2 ^ 252 + 27742317777372353535851937790883648493.

Definition ref_validate (encoded : bytes) : Result bytes :=
  if negb (bsize encoded =? 32) then inl SecurityError.kInvalidLength
  else
  match ref_decode (le_value encoded) with
  | inl error => inl error
  | inr (x, y) =>
      if ref_is_identity (ref_point x y) then inl SecurityError.kInvalidPublicKey
      else if ref_is_identity (ref_multiply 256 subgroup_order ref_identity (ref_point x y)) then inr encoded
      else inl SecurityError.kInvalidPublicKey
  end.

(** ** The encoded number *)

Lemma byte_sign b : is_byte b -> negb (Z.land b 0x80 =? 0) = (128 <=? b).
Proof.
  unfold is_byte, in_width. rewrite pow2_256. intros Hb.
  assert (H : forallb (fun n => Bool.eqb (negb (Z.land (Z.of_nat n) 0x80 =? 0)) (128 <=? Z.of_nat n)) (List.seq 0 256) = true)
    by by vm_compute.
  rewrite forallb_forall in H. specialize (H (Z.to_nat b)). rewrite Z2Nat.id in H by lia.
  apply eqb_prop, H, in_seq. lia.
Qed.

Lemma le_value_app l k : le_value (l ++ k) = le_value l + 256 ^ Z.of_nat (length l) * le_value k.
Proof.
  induction l as [| x l IH]; [cbn [app length]; change (le_value []) with 0; change (Z.of_nat 0) with 0; rewrite Z.pow_0_r; lia |].
  cbn [app length le_value fold_right]. fold (le_value (l ++ k)) (le_value l).
  rewrite IH, Nat2Z.inj_succ, Z.pow_succ_r by lia. lia.
Qed.

Lemma le_value_range l : all_bytes l -> 0 <= le_value l < 256 ^ Z.of_nat (length l).
Proof.
  induction 1 as [| x l Hx Hl IH]; [done |]. cbn [length le_value fold_right]. fold (le_value l).
  unfold is_byte, in_width in Hx. rewrite pow2_256 in Hx. rewrite Nat2Z.inj_succ, Z.pow_succ_r by lia. lia.
Qed.

(** The bytes below the last one, and the last one. *)
Lemma split_last (l : bytes) : length l = 32%nat -> all_bytes l ->
  exists low top, l = low ++ [top] /\ length low = 31%nat /\ all_bytes low /\ is_byte top.
Proof.
  intros E H. destruct (exists_last (l := l)) as (low & top & ->); [by intros -> |]. exists low, top.
  apply all_bytes_app in H as [H1 [H2 _]%list.Forall_cons]. rewrite length_app in E. cbn in E.
  split; [done |]. split; [lia | done].
Qed.

Lemma encoded_number low top : length low = 31%nat -> all_bytes low -> is_byte top ->
  let l := low ++ [top] in
  negb (Z.land (nth 31 l 0) 0x80 =? 0) = (2 ^ 255 <=? le_value l) /\
  let y := <[31%nat := Z.land (nth 31 l 0) 0x7f]> l in
  length y = 32%nat /\ all_bytes y /\ le_value y = le_value l mod 2 ^ 255.
Proof.
  intros El Hl Ht l. assert (En : nth 31 l 0 = top) by (unfold l; rewrite app_nth2, El by lia; done). rewrite En.
  assert (Ei : <[31%nat := Z.land top 0x7f]> l = low ++ [Z.land top 0x7f]).
  { unfold l. rewrite <- El. replace (length low) with (length low + 0)%nat by lia. by rewrite insert_app_r. }
  rewrite Ei, byte_sign by done. unfold l. rewrite !le_value_app, El. change (256 ^ Z.of_nat 31) with (2 ^ 248).
  pose proof (le_value_range low Hl) as Bl. rewrite El in Bl. change (256 ^ Z.of_nat 31) with (2 ^ 248) in Bl.
  assert (Es : forall b, le_value [b] = b) by (intros b; cbn [le_value fold_right]; lia). rewrite !Es. change 0x7f with (2 ^ 7 - 1). rewrite land_mask by lia.
  change (2 ^ 7) with 128. unfold is_byte, in_width in Ht. rewrite pow2_256 in Ht.
  pose proof (Z.div_mod top 128 ltac:(lia)) as D. pose proof (Z.mod_pos_bound top 128 ltac:(lia)) as M.
  split; [| split; [rewrite length_app; cbn; lia | split]].
  - apply eq_true_iff_eq. rewrite !Z.leb_le. lia.
  - apply all_bytes_app. split; [done |]. constructor; [| constructor]. unfold is_byte, in_width. lia.
  - apply (Z.mod_unique_pos _ _ (top / 128)); lia.
Qed.

Lemma FromCanonicalLittleEndian_spec n l : length l = (2 * n)%nat -> all_bytes l ->
  limbs_ok (FromCanonicalLittleEndian l) /\ length (FromCanonicalLittleEndian l) = n /\
  eval (FromCanonicalLittleEndian l) = le_value l.
Proof.
  revert l. induction n as [| n IH]; intros [| x [| y l]] E H; cbn [length] in E; try lia.
  { split; [constructor | done]. }
  apply list.Forall_cons in H as [Hx [Hy H]%list.Forall_cons]. destruct (IH l ltac:(lia) H) as (I1 & I2 & I3).
  unfold is_byte, in_width in Hx, Hy. rewrite pow2_256 in Hx, Hy.
  assert (E' : u16 (Z.lor x (Z.shiftl y 8)) = x + 256 * y).
  { rewrite Z.lor_comm, lor_shiftl_add by lia. rewrite pow2_256, wrap_small by widths. lia. }
  cbn [FromCanonicalLittleEndian]. rewrite E'. split; [constructor; [widths | done] |]. split; [by cbn; rewrite I2 |].
  rewrite eval_cons, I3. cbn [le_value fold_right]. fold (le_value l). unfold base. lia.
Qed.

(** ** The limbs compute what the integers do *)

#[local] Opaque CurveD SquareRootMinusOne FieldMul FieldAdd FieldSub Square Pow FromUint FieldElement_zero.

Definition rep_point (P : EdwardsPoint) (Q : ExtendedPoint) : Prop :=
  rep (pt_x P) (zx Q) /\ rep (pt_y P) (zy Q) /\ rep (pt_z P) (zz Q) /\ rep (pt_t P) (zt Q).

Lemma Add_ref P Q P' Q' : rep_point P P' -> rep_point Q Q' -> rep_point (Add P Q) (ref_add P' Q').
Proof.
  intros (P1 & P2 & P3 & P4) (Q1 & Q2 & Q3 & Q4). unfold rep_point, Add, ref_add. cbn [pt_x pt_y pt_z pt_t zx zy zz zt].
  repeat match goal with |- _ /\ _ => split end; rep_solve.
Qed.

Lemma IsIdentity_ref P P' : rep_point P P' -> IsIdentity P = ref_is_identity P'.
Proof.
  intros (P1 & P2 & P3 & P4). unfold IsIdentity, ref_is_identity. by rewrite (rep_IsZero _ _ P1), (rep_eq _ _ _ _ P2 P3).
Qed.

Lemma order_bits bit : (bit < 256)%nat -> exponent_bit kPrimeSubgroupOrder bit = Z.odd (Z.shiftr subgroup_order (Z.of_nat bit)).
Proof.
  intros Hb.
  assert (H : forallb (fun bit => Bool.eqb (exponent_bit kPrimeSubgroupOrder bit) (Z.odd (Z.shiftr subgroup_order (Z.of_nat bit))))
    (List.seq 0 256) = true) by by vm_compute.
  rewrite forallb_forall in H. apply eqb_prop, H, in_seq. lia.
Qed.

Lemma Multiply_loop_ref bits bit P Q P' Q' : (bit + bits <= 256)%nat -> rep_point P P' -> rep_point Q Q' ->
  rep_point (MultiplyByPrimeSubgroupOrder_loop bits bit P Q)
            (ref_multiply bits (Z.shiftr subgroup_order (Z.of_nat bit)) P' Q').
Proof.
  revert bit P Q P' Q'. induction bits as [| bits IH]; intros bit P Q P' Q' Hb HP HQ; [done |].
  cbn [MultiplyByPrimeSubgroupOrder_loop ref_multiply]. rewrite order_bits by lia.
  rewrite Z.div2_spec, Z.shiftr_shiftr, Z.add_1_r, <- Nat2Z.inj_succ by lia.
  apply IH; [lia | | by apply Add_ref]. destruct (Z.odd _); [by apply Add_ref | done].
Qed.

Lemma rep_point_identity : rep_point EdwardsPoint_default ref_identity.
Proof. unfold rep_point. cbn. repeat match goal with |- _ /\ _ => split end; rep_solve. Qed.

Lemma Multiply_ref P P' : rep_point P P' ->
  rep_point (MultiplyByPrimeSubgroupOrder P) (ref_multiply 256 subgroup_order ref_identity P').
Proof. intros HP. apply (Multiply_loop_ref 256 0 _ _ ref_identity P' ltac:(lia) rep_point_identity HP). Qed.

(** The root that [DecodePoint] tries, then the other one. *)
Lemma rep_root u v : rep u v ->
  let x := Pow u kSquareRootExponent in
  let x := if negb (FieldEq (Square x) u) then FieldMul x SquareRootMinusOne else x in
  match ref_root v with
  | Some r => FieldEq (Square x) u = true /\ rep x r
  | None => FieldEq (Square x) u = false
  end.
Proof.
  intros Hu x. assert (Hx : rep x (fpow v ((p + 3) / 8))) by (apply rep_pow; [done | apply root_exponent_value]).
  unfold ref_root. set (r := fpow v ((p + 3) / 8)) in *. clearbody x r. cbv zeta.
  rewrite (rep_eq _ _ _ _ (rep_square _ _ Hx) Hu).
  assert (Hx' : rep (if negb (r * r mod p =? v) then FieldMul x SquareRootMinusOne else x)
    (if r * r mod p =? v then r else r * root_minus_1 mod p)) by (destruct (_ =? v); cbn [negb]; rep_solve).
  rewrite (rep_eq _ _ _ _ (rep_square _ _ Hx') Hu). set (r' := if r * r mod p =? v then r else r * root_minus_1 mod p) in *. clearbody r'.
  by destruct (r' * r' mod p =? v).
Qed.

Lemma rep_sign s x y x' y' : rep x x' -> rep y y' ->
  match DecodeSign s x y with
  | inl e => (x' =? 0) && s = true /\ e = SecurityError.kNonCanonicalEncoding
  | inr P => (x' =? 0) && s = false /\
      rep_point P (ref_point (if negb (Bool.eqb (Z.odd x') s) then (0 - x') mod p else x') y')
  end.
Proof.
  intros Hx Hy. unfold DecodeSign. rewrite (rep_IsZero _ _ Hx), (rep_IsOdd _ _ Hx).
  destruct ((x' =? 0) && s); [done |]. split; [done |]. cbv zeta.
  unfold rep_point. cbn [pt_x pt_y pt_z pt_t ref_point zx zy zz zt].
  destruct (negb (Bool.eqb (Z.odd x') s)); repeat match goal with |- _ /\ _ => split end; rep_solve.
Qed.

(** An expression on limbs and its integer are any that correspond. *)
Ltac forget H a x :=
  match type of H with rep ?l ?r => revert H; generalize l r; intros a x H end.

Definition related_points (a : Result EdwardsPoint) (b : Result (Z * Z)) : Prop :=
  match a, b with
  | inl e, inl e' => e = e'
  | inr P, inr (x, y) => rep_point P (ref_point x y)
  | _, _ => False
  end.

Lemma DecodePoint_ref encoded : length encoded = 32%nat -> all_bytes encoded ->
  related_points (DecodePoint encoded) (ref_decode (le_value encoded)).
Proof.
  intros E H. destruct (split_last encoded E H) as (low & top & -> & El & Hl & Ht).
  destruct (encoded_number low top El Hl Ht) as (Es & Ey & By & Vy). unfold DecodePoint, ref_decode.
  set (l := low ++ [top]) in *. rewrite Es. set (y := <[31%nat := _]> l) in *. clearbody l y. rewrite <- Vy. cbv zeta.
  destruct (FromCanonicalLittleEndian_spec 16 y Ey By) as (F1 & F2 & F3), kFieldPrime_ok as (P1 & P2 & P3).
  unfold IsCanonicalLittleEndian. rewrite LimbsLessThan_eval, P3, F3 by done. rewrite (Z.leb_antisym (le_value y) p).
  destruct (Z.ltb_spec (le_value y) p) as [Hlt | Hge]; cbn [negb]; [| done].
  assert (Ry : rep (FromCanonicalLittleEndian y) (le_value y)).
  { split; [| done]. split; [done |]. split; [done |]. by rewrite F3. }
  clear F1 F2 F3 Vy. forget Ry Y v.
  assert (Rd : rep (FieldAdd (FieldMul CurveD (Square Y)) (FromUint 1)) ((curve_d * (v * v mod p) mod p + 1) mod p)) by rep_solve.
  forget Rd D d. rewrite (rep_IsZero _ _ Rd).
  destruct (d =? 0); [done |].
  assert (Ru : rep (FieldMul (FieldSub (Square Y) (FromUint 1)) (Pow D kInverseExponent))
    ((v * v mod p - 1) mod p * fpow d (p - 2) mod p)).
  { apply rep_mul; [rep_solve |]. apply rep_pow; [done | apply inverse_exponent_value]. }
  forget Ru U u.
  pose proof (rep_root U u Ru) as HR. cbv zeta in HR. 
  set (X := if negb (FieldEq (Square (Pow U kSquareRootExponent)) U)
    then FieldMul (Pow U kSquareRootExponent) SquareRootMinusOne else Pow U kSquareRootExponent) in *. clearbody X.
  destruct (ref_root u) as [x |]; [| by rewrite HR]. destruct HR as [-> HX]. cbn [negb].
  pose proof (rep_sign (2 ^ 255 <=? le_value l) X Y x v HX Ry) as HS.
  destruct (DecodeSign _ X Y); destruct HS as [-> HS]; done.
Qed.

Lemma validate_ref encoded : all_bytes encoded -> ValidateEd25519PublicKey encoded = ref_validate encoded.
Proof.
  intros H. unfold ValidateEd25519PublicKey, ref_validate. change kEd25519PublicKeySize with 32.
  destruct (Z.eqb_spec (bsize encoded) 32) as [E | E]; cbn [negb]; [| done].
  pose proof (DecodePoint_ref encoded ltac:(unfold bsize in E; lia) H) as HD.
  destruct (DecodePoint encoded) as [e | P], (ref_decode _) as [e' | [x y]]; cbn [related_points] in HD; try done.
  - by rewrite HD.
  - rewrite (IsIdentity_ref _ _ HD), (IsIdentity_ref _ _ (Multiply_ref _ _ HD)).
    destruct (ref_is_identity (ref_point x y)); [done |]. by destruct (ref_is_identity _).
Qed.

(** ** The points that are decoded *)

Definition on_curve (x y : Z) : Prop :=
  0 <= x < p /\ 0 <= y < p /\ cong p (y * y - x * x) (1 + curve_d * (x * x) * (y * y)).

(** The encoding of a point: its second coordinate, and the parity of the first above it. *)
Definition encodes (encoded : bytes) (x y : Z) : Prop := le_value encoded = y + 2 ^ 255 * (x mod 2).

Lemma p_nonzero : p <> 0. Proof. done. Qed.

Lemma p_form : exists k, p = 8 * k + 5 /\ 0 <= k /\ (p + 3) / 8 = k + 1.
Proof. exists ((p - 5) / 8). by vm_compute. Qed.

Lemma fpow_cong a e : cong p (fpow a e) (a ^ e).
Proof. unfold fpow. rewrite pow_mod_correct by done. by apply cong_mod. Qed.

Lemma fpow_range a e : 0 <= fpow a e < p.
Proof. unfold fpow. rewrite pow_mod_correct by done. by apply Z.mod_pos_bound. Qed.

Lemma mod_range a : 0 <= a mod p < p.
Proof. by apply Z.mod_pos_bound. Qed.

Lemma mod_eqb a u : 0 <= u < p -> (a mod p =? u) = true <-> cong p a u.
Proof. intros Hu. rewrite Z.eqb_eq, cong_iff by done. by rewrite (Z.mod_small u). Qed.

Lemma ref_root_sound u r : 0 <= u < p -> ref_root u = Some r -> 0 <= r < p /\ cong p (r * r) u.
Proof.
  intros Hu. unfold ref_root. pose proof (fpow_range u ((p + 3) / 8)) as Bf. revert Bf. generalize (fpow u ((p + 3) / 8)).
  intros x Bx. cbv zeta. set (x' := if x * x mod p =? u then x else x * root_minus_1 mod p).
  assert (Bx' : 0 <= x' < p) by (unfold x'; destruct (_ =? u); [done | apply mod_range]). clearbody x'.
  destruct (x' * x' mod p =? u) eqn:E; [| done]. intros [= <-]. split; [done |]. by apply mod_eqb in E.
Qed.

Lemma ref_root_complete x u : 0 <= u < p -> cong p (x * x) u -> exists r, ref_root u = Some r.
Proof.
  intros Hu Hx. destruct p_form as (k & Ep & Hk & Ek).
  pose proof (square_root p p_prime k root_minus_1 x u Ep Hk root_minus_1_value Hx) as HR. cbv zeta in HR.
  unfold ref_root. rewrite Ek. pose proof (fpow_cong u (k + 1)) as Hf. revert Hf HR.
  generalize (fpow u (k + 1)) (u ^ (k + 1)). intros f r Hf HR. cbv zeta.
  destruct (f * f mod p =? u) eqn:E1; [rewrite E1; by exists f |].
  exists (f * root_minus_1 mod p). assert (E2 : ((f * root_minus_1 mod p) * (f * root_minus_1 mod p) mod p =? u) = true).
  { apply mod_eqb; [done |]. rewrite !(cong_mod p _ p_nonzero), Hf. destruct HR as [HR | HR]; [| done].
    rewrite <- Hf in HR. apply mod_eqb in HR; [congruence | done]. }
  by rewrite E2.
Qed.

Lemma curve_equation x y : cong p (y * y - x * x) (1 + curve_d * (x * x) * (y * y)) <->
  cong p ((x * x) * (curve_d * (y * y) + 1)) (y * y - 1).
Proof.
  unfold cong.
  replace (x * x * (curve_d * (y * y) + 1) - (y * y - 1))
    with (- (y * y - x * x - (1 + curve_d * (x * x) * (y * y)))) by lia.
  by rewrite Z.divide_opp_r.
Qed.

Lemma p_odd x : 0 < x < p -> Z.odd (p - x) = negb (Z.odd x).
Proof. intros _. rewrite Z.odd_sub. change (Z.odd p) with true. by rewrite xorb_true_l. Qed.

Lemma mod_2_odd x : x mod 2 = Z.b2z (Z.odd x).
Proof. rewrite Zmod_odd. by destruct (Z.odd x). Qed.

Lemma cong_opp_small x y : 0 <= x < p -> 0 < y < p -> cong p x (- y) -> x = p - y.
Proof.
  intros Hx Hy H. apply (cong_small p); [done | lia |]. rewrite H. exists (- 1). lia.
Qed.

(** The root with the parity the sign asks for. *)
Lemma choose_sign r (s : bool) : 0 <= r < p -> (r =? 0) && s = false ->
  let x := if negb (Bool.eqb (Z.odd r) s) then (0 - r) mod p else r in
  0 <= x < p /\ Z.odd x = s /\ cong p (x * x) (r * r).
Proof.
  intros Hr Hs. destruct (Bool.eqb (Z.odd r) s) eqn:E; cbn [negb].
  { apply eqb_prop in E. done. }
  apply eqb_false_iff in E. assert (0 < r).
  { destruct (Z.eqb_spec r 0) as [-> |]; [| lia]. cbn in E, Hs. by destruct s. }
  assert (Ex : (0 - r) mod p = p - r) by (symmetry; apply (Z.mod_unique_pos _ _ (-1)); lia). rewrite Ex.
  split; [lia |]. split; [rewrite p_odd by lia; by destruct (Z.odd r), s |].
  exists (p - 2 * r). lia.
Qed.

Lemma same_parity x y : 0 <= x < p -> 0 <= y < p -> Z.odd x = Z.odd y -> cong p (x * x) (y * y) -> x = y.
Proof.
  intros Hx Hy Ho Hc. destruct (cong_square p p_prime _ _ Hc) as [H | H]; [by apply (cong_small p) |].
  destruct (Z.eq_dec y 0) as [-> | Hn].
  - apply (cong_small p); [done | done |]. exact H.
  - apply cong_opp_small in H; [| done | lia]. subst x. rewrite p_odd in Ho by lia. by destruct (Z.odd y).
Qed.

(** The number [ref_decode] takes the root of is the square the curve's equation asks for. *)
Lemma quotient_spec y x : let yy := y * y mod p in let den := (curve_d * yy mod p + 1) mod p in
  den <> 0 ->
  cong p (x * x) ((yy - 1) mod p * fpow den (p - 2) mod p) <->
  cong p (y * y - x * x) (1 + curve_d * (x * x) * (y * y)).
Proof.
  intros yy den Hd. rewrite curve_equation.
  assert (Cy : cong p yy (y * y)) by (by apply cong_mod).
  assert (Cd : cong p den (curve_d * (y * y) + 1)).
  { unfold den. rewrite !(cong_mod p _ p_nonzero), Cy. done. }
  assert (Hnz : ~ cong p den 0).
  { intros H. apply Hd. apply (cong_small p); [apply mod_range | done | done]. }
  pose proof (cong_inverse p p_prime den Hnz) as Hi. pose proof (fpow_cong den (p - 2)) as Hf.
  rewrite <- Hf in Hi. clear Hf. revert Hi. generalize (fpow den (p - 2)). intros inv Hi.
  rewrite !(cong_mod p _ p_nonzero), <- Cd, <- Cy. clearbody yy den. clear - Hnz Hi. split; intros H.
  - rewrite H. replace ((yy - 1) * inv * den) with ((yy - 1) * (inv * den)) by lia. rewrite Hi. by rewrite Z.mul_1_r.
  - apply (cong_cancel p p_prime _ _ den Hnz). rewrite H.
    replace ((yy - 1) * inv * den) with ((yy - 1) * (inv * den)) by lia. rewrite Hi. by rewrite Z.mul_1_r.
Qed.

Lemma denominator_nonzero x y : cong p (y * y - x * x) (1 + curve_d * (x * x) * (y * y)) ->
  (curve_d * (y * y mod p) mod p + 1) mod p <> 0.
Proof.
  rewrite curve_equation. intros H Hd.
  assert (C : cong p (curve_d * (y * y) + 1) 0).
  { transitivity ((curve_d * (y * y mod p) mod p + 1) mod p); [| by rewrite Hd].
    by rewrite !(cong_mod p _ p_nonzero). }
  rewrite C, Z.mul_0_r in H. assert (Hy : cong p (y * y) 1) by (destruct H as [c H]; exists (- c); lia).
  rewrite Hy in C. apply cong_iff in C; [by vm_compute in C | done].
Qed.

Lemma ref_decode_iff e x y : 0 <= e < 2 ^ 256 ->
  ref_decode e = inr (x, y) <-> on_curve x y /\ e = y + 2 ^ 255 * (x mod 2).
Proof.
  intros He. unfold ref_decode, on_curve. set (s := 2 ^ 255 <=? e).
  pose proof (Z.div_mod e (2 ^ 255) ltac:(lia)) as D. pose proof (Z.mod_pos_bound e (2 ^ 255) ltac:(lia)) as M.
  assert (Es : e / 2 ^ 255 = Z.b2z s).
  { unfold s. destruct (Z.leb_spec (2 ^ 255) e); cbn [Z.b2z]; symmetry.
    - apply (Z.div_unique_pos _ _ _ (e - 2 ^ 255)); lia.
    - apply (Z.div_unique_pos _ _ _ e); lia. }
  rewrite Es in D. clearbody s. clear Es. cbv zeta. rewrite mod_2_odd. split.
  - destruct (Z.leb_spec p (e mod 2 ^ 255)) as [| Hy]; [done |]. revert D M Hy. generalize (e mod 2 ^ 255). intros v D M Hy.
    destruct (Z.eqb_spec ((curve_d * (v * v mod p) mod p + 1) mod p) 0) as [| Hd]; [done |].
    destruct (ref_root _) as [r |] eqn:ER; [| done]. apply ref_root_sound in ER as [Br Hr]; [| apply mod_range].
    rewrite (quotient_spec v r Hd) in Hr. destruct ((r =? 0) && s) eqn:Es; [done |].
    destruct (choose_sign r s Br Es) as (B & O & C). revert B O C. generalize (if negb (Bool.eqb (Z.odd r) s) then (0 - r) mod p else r).
    intros x' B O C [= -> ->]. rewrite O. split; [| lia]. split; [done |]. split; [lia |]. by rewrite C.
  - intros [(Bx & By & HC) E].
    assert (Ey : e mod 2 ^ 255 = y /\ s = Z.odd x).
    { unfold p in By. destruct s, (Z.odd x); cbn [Z.b2z] in *; split; (done || lia). }
    destruct Ey as [-> ->]. rewrite (proj2 (Z.leb_gt p y)) by lia.
    pose proof (denominator_nonzero x y HC) as Hd. rewrite (proj2 (Z.eqb_neq _ _) Hd).
    pose proof (proj2 (quotient_spec y x Hd) HC) as Hq. revert Hq.
    match goal with |- cong p _ ?u -> _ => assert (Bu : 0 <= u < p) by apply mod_range; revert Bu; generalize u end.
    intros u Bu Hq. destruct (ref_root_complete x u Bu Hq) as [r ER]. rewrite ER. apply ref_root_sound in ER as [Br Hr]; [| done].
    assert (Hs : (r =? 0) && Z.odd x = false).
    { destruct (Z.eqb_spec r 0) as [-> |]; [| done]. rewrite <- Hr in Hq.
      rewrite (cong_small p x 0 Bx ltac:(done)); [done |]. by destruct (cong_square p p_prime x 0 Hq) as [H | H]. }
    rewrite Hs. destruct (choose_sign r (Z.odd x) Br Hs) as (B & O & C). f_equal. f_equal.
    apply same_parity; [done | done | done |]. by rewrite C, Hr, Hq.
Qed.

(** The encodings of the points of the curve are the ones that are decoded. *)
Lemma DecodePoint_iff encoded P : length encoded = 32%nat -> all_bytes encoded ->
  DecodePoint encoded = inr P ->
  exists x y, on_curve x y /\ encodes encoded x y /\ rep_point P (ref_point x y).
Proof.
  intros E H HD. pose proof (DecodePoint_ref encoded E H) as HR. rewrite HD in HR.
  destruct (ref_decode _) as [e | [x y]] eqn:EV; [done |]. exists x, y.
  pose proof (le_value_range encoded H) as B. rewrite E in B. apply ref_decode_iff in EV as [HC HE]; [| exact B]. done.
Qed.

(** ** Evaluation of the reference on machine words *)

Record BigPoint := { bx : bigZ; by_ : bigZ; bz : bigZ; bt : bigZ }.

Definition of_big (P : BigPoint) : ExtendedPoint :=
  {| zx := BigZ.to_Z (bx P); zy := BigZ.to_Z (by_ P); zz := BigZ.to_Z (bz P); zt := BigZ.to_Z (bt P) |}.

Definition to_big (P : ExtendedPoint) : BigPoint :=
  {| bx := BigZ.of_Z (zx P); by_ := BigZ.of_Z (zy P); bz := BigZ.of_Z (zz P); bt := BigZ.of_Z (zt P) |}.

Section BigPoints.
(** The modulus and the constant of the curve as words. *)
Context (bp bd b2 : bigZ) (Hp : BigZ.to_Z bp = p) (Hd : BigZ.to_Z bd = curve_d) (H2 : BigZ.to_Z b2 = 2).
#[local] Set Default Proof Using "All".

Definition big_add (P Q : BigPoint) : BigPoint :=
  let m x := BigZ.modulo x bp in
  let a := m (BigZ.mul (m (BigZ.sub (by_ P) (bx P))) (m (BigZ.sub (by_ Q) (bx Q)))) in
  let b := m (BigZ.mul (m (BigZ.add (by_ P) (bx P))) (m (BigZ.add (by_ Q) (bx Q)))) in
  let c := m (BigZ.mul (m (BigZ.mul (m (BigZ.mul b2 bd)) (bt P))) (bt Q)) in
  let d := m (BigZ.mul (m (BigZ.mul b2 (bz P))) (bz Q)) in
  let e := m (BigZ.sub b a) in
  let f := m (BigZ.sub d c) in
  let g := m (BigZ.add d c) in
  let h := m (BigZ.add b a) in
  {| bx := m (BigZ.mul e f); by_ := m (BigZ.mul g h); bz := m (BigZ.mul f g); bt := m (BigZ.mul e h) |}.

Lemma big_add_spec P Q : of_big (big_add P Q) = ref_add (of_big P) (of_big Q).
Proof.
  unfold of_big, big_add, ref_add. cbn [bx by_ bz bt zx zy zz zt].
  by rewrite !BigZ.spec_modulo, !BigZ.spec_mul, !BigZ.spec_modulo, !BigZ.spec_sub, !BigZ.spec_add, !BigZ.spec_modulo,
    !BigZ.spec_mul, !BigZ.spec_modulo, !BigZ.spec_mul, !BigZ.spec_sub, !BigZ.spec_add, !BigZ.spec_modulo, !BigZ.spec_mul, Hp, Hd, H2.
Qed.

Fixpoint big_multiply (bits : nat) (n : Z) (result addend : BigPoint) : BigPoint :=
  match bits with
  | O => result
  | S bits => big_multiply bits (Z.div2 n) (if Z.odd n then big_add result addend else result) (big_add addend addend)
  end.

Lemma big_multiply_spec bits n P Q : of_big (big_multiply bits n P Q) = ref_multiply bits n (of_big P) (of_big Q).
Proof.
  revert n P Q. induction bits as [| bits IH]; intros n P Q; [done |]. cbn [big_multiply ref_multiply].
  rewrite IH, big_add_spec. destruct (Z.odd n); [by rewrite big_add_spec | done].
Qed.
End BigPoints.

Lemma of_to_big P : of_big (to_big P) = P.
Proof. destruct P. unfold of_big, to_big. cbn. by rewrite !BigZ.spec_of_Z. Qed.

Definition base_x : Z := 15112221349535400772501151409588531511454012693041857206046113283949847762202.
Definition base_y : Z := 46316835694926478169428394003475163141307993866256225615783033603165251855960.

Lemma base_in_subgroup :
  ref_is_identity (ref_multiply 256 subgroup_order ref_identity (ref_point base_x base_y)) = true.
Proof.
  rewrite <- (of_to_big ref_identity), <- (of_to_big (ref_point base_x base_y)).
  rewrite <- (big_multiply_spec (BigZ.of_Z p) (BigZ.of_Z curve_d) (BigZ.of_Z 2)) by apply BigZ.spec_of_Z.
  by vm_compute.
Qed.

(** The keys that are accepted. *)
Lemma validate_iff encoded : all_bytes encoded ->
  ValidateEd25519PublicKey encoded = inr encoded <->
  bsize encoded = 32 /\ exists x y, on_curve x y /\ encodes encoded x y /\ ~ (x = 0 /\ y = 1) /\
  ref_is_identity (ref_multiply 256 subgroup_order ref_identity (ref_point x y)) = true.
Proof.
  intros H. rewrite validate_ref by done. unfold ref_validate. destruct (Z.eqb_spec (bsize encoded) 32) as [E | E]; cbn [negb].
  2:{ split; [done | by intros [? _]]. }
  assert (B : 0 <= le_value encoded < 2 ^ 256).
  { pose proof (le_value_range encoded H) as B. replace (length encoded) with 32%nat in B by (unfold bsize in E; lia). exact B. }
  split.
  - destruct (ref_decode _) as [e | [x y]] eqn:EV; [done |]. intros HV. apply ref_decode_iff in EV as [HC HE]; [| exact B].
    split; [done |]. exists x, y. do 2 (split; [done |]). destruct (ref_is_identity (ref_point x y)) eqn:E1; [done |].
    destruct (ref_is_identity (ref_multiply _ _ _ _)); [| done]. split; [| done]. intros [-> ->]. done.
  - intros (_ & x & y & HC & HE & Hn & Hm). rewrite (proj2 (ref_decode_iff _ x y B) (conj HC HE)), Hm.
    assert (E1 : ref_is_identity (ref_point x y) = false).
    { apply not_true_iff_false. unfold ref_is_identity. cbn [ref_point zx zy zz]. rewrite andb_true_iff, !Z.eqb_eq. done. }
    by rewrite E1.
Qed.

Definition base_point : bytes := 0x58 :: repeat 0x66 31.

Lemma base_point_bytes : all_bytes base_point.
Proof. apply (bool_decide_eq_true_1 _). by vm_compute. Qed.

Lemma base_point_curve : on_curve base_x base_y /\ encodes base_point base_x base_y.
Proof.
  split; [| by vm_compute]. split; [by vm_compute |]. split; [by vm_compute |]. apply cong_iff; by vm_compute.
Qed.

Lemma base_point_valid : ValidateEd25519PublicKey base_point = inr base_point.
Proof.
  apply (validate_iff base_point base_point_bytes). split; [by vm_compute |]. exists base_x, base_y.
  split; [apply base_point_curve |]. split; [apply base_point_curve |]. split; [by intros [? _] | exact base_in_subgroup].
Qed.

(** The opposite of the base point: another key that is accepted. *)
Definition opposite_point : bytes := 0x58 :: repeat 0x66 30 ++ [0xe6].

Lemma opposite_in_subgroup :
  ref_is_identity (ref_multiply 256 subgroup_order ref_identity (ref_point (p - base_x) base_y)) = true.
Proof.
  rewrite <- (of_to_big ref_identity), <- (of_to_big (ref_point (p - base_x) base_y)).
  rewrite <- (big_multiply_spec (BigZ.of_Z p) (BigZ.of_Z curve_d) (BigZ.of_Z 2)) by apply BigZ.spec_of_Z.
  by vm_compute.
Qed.

Lemma opposite_point_valid : ValidateEd25519PublicKey opposite_point = inr opposite_point.
Proof.
  apply validate_iff; [apply (bool_decide_eq_true_1 _); by vm_compute |]. split; [by vm_compute |]. exists (p - base_x), base_y.
  split; [split; [by vm_compute |]; split; [by vm_compute |]; apply cong_iff; by vm_compute |]. split; [by vm_compute |].
  split; [by intros [? _] | exact opposite_in_subgroup].
Qed.

(** ** The theorems *)

(** C37: The product of two field elements: the loop that propagates carries ends
    within [Reduce_rounds] rounds for every pair of field elements, so that the
    operator terminates, and the sixteen limbs it leaves are those of the
    product modulo [2 ^ 255 - 19], with no intermediate value out of its type. *)
Theorem field_product_exact a b : field_ok a -> field_ok b ->
  is_Some (Reduce_loop Reduce_rounds (FoldHigh (MultiplyRows 0 a b (repeat 0 (2 * kFieldLimbCount))))) /\
  field_ok (FieldMul a b) /\ eval (FieldMul a b) = (eval a * eval b) mod p.
Proof.
  intros Ha Hb. split; [| by apply FieldMul_spec]. destruct (product_wide a b Ha Hb) as (M1 & M2 & _).
  destruct (Reduce_ends _ M1 M2) as (r & -> & _). by exists r.
Qed.

Lemma field_product_exact_witness :
  eval (FieldMul (FromUint 3) SquareRootMinusOne) = (3 * eval SquareRootMinusOne) mod p.
Proof.
  destruct (field_product_exact (FromUint 3) SquareRootMinusOne) as (_ & _ & E).
  - apply (rep_uint 3). lia.
  - apply rep_SquareRootMinusOne.
  - rewrite E. f_equal.
Defined.

(** C36: The validation of a public key by arithmetic on limbs gives, for every
    string of bytes, the result of the validation written with integers modulo
    the prime, the kinds of its errors included. *)
Theorem ValidateEd25519PublicKey_reference encoded : all_bytes encoded ->
  ValidateEd25519PublicKey encoded = ref_validate encoded.
Proof. apply validate_ref. Qed.

(** The sign of the identity, and a number that is not below the prime. *)
Definition signed_identity : bytes := 1 :: repeat 0 30 ++ [0x80].
Definition not_canonical : bytes := 0xee :: repeat 0xff 30 ++ [0x7f].

Lemma ValidateEd25519PublicKey_reference_witness :
  ValidateEd25519PublicKey signed_identity = inl SecurityError.kNonCanonicalEncoding /\
  ValidateEd25519PublicKey not_canonical = inl SecurityError.kNonCanonicalEncoding.
Proof.
  split; (rewrite ValidateEd25519PublicKey_reference; [by vm_compute |]);
    apply (bool_decide_eq_true_1 _); by vm_compute.
Defined.

(** C13: A public key is accepted exactly when it is thirty-two bytes, the
    canonical encoding of a point of the curve (the second coordinate below the
    prime, the parity of the first in the highest bit), the point is not the
    identity, and the order of the prime subgroup takes it to the identity: no
    encoding of a point off the curve is accepted and none on it is lost. *)
Theorem accepted_key_iff encoded : all_bytes encoded ->
  ValidateEd25519PublicKey encoded = inr encoded <->
  bsize encoded = 32 /\ exists x y, on_curve x y /\ encodes encoded x y /\ ~ (x = 0 /\ y = 1) /\
    ref_is_identity (ref_multiply 256 subgroup_order ref_identity (ref_point x y)) = true.
Proof. apply validate_iff. Qed.

Lemma accepted_key_iff_witness : all_bytes base_point /\ ValidateEd25519PublicKey base_point = inr base_point.
Proof.
  split; [exact base_point_bytes |]. apply (accepted_key_iff base_point base_point_bytes). split; [by vm_compute |].
  exists base_x, base_y. split; [apply base_point_curve |]. split; [apply base_point_curve |].
  split; [by intros [? _] | exact base_in_subgroup].
Defined.
