(* ===== verification/CanonicalObjects.v ===== *)
(** * The canonical objects of the security profile

    The [internal] namespace of [native/src/security/tls/]: the binary format of
    the objects that keys, contexts and negotiations are hashed in
    ([canonical_codec.cpp]), and the rules an object of each kind has to satisfy
    ([contexts.cpp], [confirmation.cpp], [rotation.cpp], [identity.cpp]).

    A span is the list of its bytes; the loop over the fields of an object keeps
    what is left of it after [offset].  The objects that contain a negotiation
    parse it with the parser they are themselves checked by: [ParseObject_with]
    is that parser over the rules of its caller, and
    [CanonicalObjectsProofs.ParseObject_nested] shows that the nested call is
    the parser itself. *)

From Stdlib Require Import Ascii String.
From S2P Require Import Prelude.
From S2P Require Import V1Transcript.
From S2P Require Import Transfer.
From S2P Require Import SecurityTypes.
From S2P Require Import Ed25519.

Module CanonicalObjects.
Import SecurityTypes Ed25519.
Import SecurityError CanonicalObjectKind.

(** ** Labels *)

Definition AsBytes (value : string) : bytes :=
  List.map (fun c => Z.of_nat (nat_of_ascii c)) (list_ascii_of_string value).

Definition kPairContextLabel : string := "XnnTransfer pairing v1".
Definition kSasInformationLabel : string := "XnnTransfer SAS words v1".
Definition kTransportContextLabel : string := "XnnTransfer transport v1".
Definition kRotationContextLabel : string := "XnnTransfer rotation v1".
Definition kRotationProofLabel : string := "XnnTransfer rotation proof v1".
Definition kDeviceIdentifierLabel : string := "XnnTransfer device identifier v1".

Definition label_size (label : string) : Z := Z.of_nat (String.length label).

(** ** Format *)

Definition kCanonicalMagic : bytes := [0x58; 0x4e; 0x4e; 0x53].
Definition kCanonicalVersion : Z := 1.

Record FieldSchema := {
  fs_id : Z;
  fs_fixed_size : Z;
  fs_has_fixed_size : bool;
}.

#[local] Notation "'fixed' i n" := {| fs_id := i; fs_fixed_size := n; fs_has_fixed_size := true |}
  (at level 10, i at level 9, n at level 9).
#[local] Notation "'sized' i" := {| fs_id := i; fs_fixed_size := 0; fs_has_fixed_size := false |}
  (at level 10, i at level 9).

Definition kNegotiationSchema : list FieldSchema :=
  [fixed 1 1; fixed 2 4; sized 3; sized 4; fixed 5 10; fixed 6 1; fixed 7 4; sized 8; sized 9; fixed 10 10;
   fixed 11 2; sized 12; fixed 13 10].

Definition kPairContextSchema : list FieldSchema :=
  [fixed 1 (label_size kPairContextLabel); fixed 2 1; fixed 3 1; fixed 4 32; fixed 5 32; fixed 6 32; fixed 7 32;
   fixed 8 2; sized 9].

Definition kSasInformationSchema : list FieldSchema :=
  [fixed 1 (label_size kSasInformationLabel); fixed 2 32].

Definition kTransportContextSchema : list FieldSchema :=
  [fixed 1 (label_size kTransportContextLabel); fixed 2 1; fixed 3 1; fixed 4 32; fixed 5 32; fixed 6 32; fixed 7 32;
   fixed 8 2; sized 9; sized 10; fixed 11 16].

Definition kRotationContextSchema : list FieldSchema :=
  [fixed 1 (label_size kRotationContextLabel); fixed 2 32; fixed 3 32; fixed 4 8; fixed 5 32; fixed 6 32].

Definition kRotationProofSchema : list FieldSchema :=
  [fixed 1 (label_size kRotationProofLabel); fixed 2 32; fixed 3 1].

Definition kDeviceIdentifierSchema : list FieldSchema :=
  [fixed 1 (label_size kDeviceIdentifierLabel); fixed 2 32].

Definition SchemaForKind (kind : CanonicalObjectKind) : list FieldSchema :=
  match kind with
  | kNormalizedNegotiation => kNegotiationSchema
  | kPairingContext => kPairContextSchema
  | kSasInformation => kSasInformationSchema
  | kTransportContext => kTransportContextSchema
  | kRotationContext => kRotationContextSchema
  | kRotationProof => kRotationProofSchema
  | kDeviceIdentifier => kDeviceIdentifierSchema
  end.

(** [static_cast<CanonicalObjectKind>] of a raw byte, in the range of the enumerators. *)
Definition kind_of_code (raw_kind : Z) : option CanonicalObjectKind :=
  List.find (fun kind => kind_code kind =? raw_kind)
    [kNormalizedNegotiation; kPairingContext; kSasInformation; kTransportContext; kRotationContext;
     kRotationProof; kDeviceIdentifier].

Definition EqualBytes (left right : bytes) : bool := same_bytes left right.

Definition ReadU16 (encoded : bytes) (offset : Z) : Z :=
  u16 (Z.lor (Z.shiftl (at_ encoded offset) 8) (at_ encoded (offset + 1))).

Definition ReadU32 (encoded : bytes) (offset : Z) : Z :=
  Z.lor (Z.lor (Z.lor (u32 (Z.shiftl (at_ encoded offset) 24)) (u32 (Z.shiftl (at_ encoded (offset + 1)) 16)))
    (u32 (Z.shiftl (at_ encoded (offset + 2)) 8))) (at_ encoded (offset + 3)).

Definition ReadU64 (encoded : bytes) : Z := be_read 64 encoded.
Definition EncodeU64 (value : Z) : bytes := be_bytes 8 value.
Definition AppendU16 (output : bytes) (value : Z) : bytes := output ++ [u8 (Z.shiftr value 8); u8 value].
Definition AppendU32 (output : bytes) (value : Z) : bytes :=
  output ++ [u8 (Z.shiftr value 24); u8 (Z.shiftr value 16); u8 (Z.shiftr value 8); u8 value].

Record FieldInput := { fi_id : Z; fi_value : bytes }.
Record ParsedField := { pf_id : Z; pf_value : bytes }.
Record ParsedObject := {
  po_kind : CanonicalObjectKind;
  po_encoded : bytes;
  po_fields : list ParsedField;
}.

(** The binary search is the one of [V1Transcript], on the ids of the fields. *)
Definition FindField (object : ParsedObject) (id : Z) : option ParsedField :=
  let fields := po_fields object in
  match fields !! lower_bound_loop (length fields) (List.map pf_id fields) 0 (length fields) id with
  | None => None
  | Some field => if negb (pf_id field =? id) then None else Some field
  end.

(** [FindField(object, id)->value]; the fields of the schema are present where it is used. *)
Definition field (object : ParsedObject) (id : Z) : bytes :=
  match FindField object id with Some f => pf_value f | None => [] end.

(** The loop over the fields: what is left of [encoded], and the fields read. *)
Fixpoint ParseObject_loop (remaining : nat) (schema : list FieldSchema) (previous_id : Z) (rest : bytes)
    : SecurityError + (list ParsedField * bytes) :=
  match remaining with
  | O => inr ([], rest)
  | S remaining =>
      if bsize rest <? 6 then inl kMalformedEncoding
      else
      let field_id := ReadU16 rest 0 in
      let value_length := ReadU32 rest 2 in
      let rest := drop 6 rest in
      if field_id =? previous_id then inl kDuplicateField
      else if field_id <? previous_id then inl kNonCanonicalEncoding
      else
      match List.find (fun entry => fs_id entry =? field_id) schema with
      | None => inl kUnknownField
      | Some schema_field =>
          if value_length >? bsize rest then inl kMalformedEncoding
          else if fs_has_fixed_size schema_field && negb (value_length =? fs_fixed_size schema_field) then
            inl kInvalidLength
          else
          match ParseObject_loop remaining schema field_id (drop (Z.to_nat value_length) rest) with
          | inl error => inl error
          | inr (fields, rest') =>
              inr ({| pf_id := field_id; pf_value := subspan rest 0 value_length |} :: fields, rest')
          end
      end
  end.

(** [ParseObject], over the rules of the objects. *)
Definition ParseObject_with (validate : ParsedObject -> SecurityError) (encoded : bytes)
    (expected_kind : option CanonicalObjectKind) : Result ParsedObject :=
  if bsize encoded <? 12 then inl kMalformedEncoding
  else if negb (EqualBytes (take 4 encoded) kCanonicalMagic) then inl kMalformedEncoding
  else if negb (at_ encoded 4 =? kCanonicalVersion) then inl kUnsupportedVersion
  else
  match kind_of_code (at_ encoded 5) with
  | None => inl kUnknownKind
  | Some kind =>
      if match expected_kind with Some expected => negb (bool_decide (kind = expected)) | None => false end then
        inl kDomainMismatch
      else
      let field_count := ReadU16 encoded 6 in
      let body_length := ReadU32 encoded 8 in
      if (field_count >? kMaximumCanonicalFields) || (body_length >? kMaximumCanonicalBodySize) then
        inl kLimitExceeded
      else if negb (bsize encoded =? 12 + body_length) then inl kMalformedEncoding
      else
      let schema := SchemaForKind kind in
      match ParseObject_loop (Z.to_nat field_count) schema 0 (drop 12 encoded) with
      | inl error => inl error
      | inr (fields, rest) =>
          let object := {| po_kind := kind; po_encoded := encoded; po_fields := fields |} in
          if negb (bsize rest =? 0) then inl kTrailingData
          else if existsb (fun required => match FindField object (fs_id required) with
                                           | None => true | Some _ => false end) schema then
            inl kMissingField
          else
          match validate object with
          | kNone => inr object
          | error => inl error
          end
      end
  end.

(** ** Negotiations *)

Definition kBaseTransferV1 : Z := 0x00010001.

Fixpoint is_sorted (l : list Z) : bool :=
  match l with
  | x :: (y :: _) as l => negb (y <? x) && is_sorted l
  | _ => true
  end.

(** [std::adjacent_find] finds two equal neighbours. *)
Fixpoint adjacent_equal (l : list Z) : bool :=
  match l with
  | x :: (y :: _) as l => (x =? y) || adjacent_equal l
  | _ => false
  end.

(** Two neighbours are versions of one capability. *)
Fixpoint adjacent_family (l : list Z) : bool :=
  match l with
  | x :: (y :: _) as l => (Z.shiftr x 16 =? Z.shiftr y 16) || adjacent_family l
  | _ => false
  end.

Definition DecodeCapabilities (encoded : bytes) : SecurityError + list Z :=
  if bsize encoded <? 2 then inl kInvalidLength
  else
  let count := ReadU16 encoded 0 in
  if negb (bsize encoded =? 2 + count * 4) then inl kInvalidLength
  else
  let output := List.map (fun index => ReadU32 encoded (2 + Z.of_nat index * 4)) (List.seq 0 (Z.to_nat count)) in
  if negb (is_sorted output) || adjacent_equal output then inl kNonCanonicalEncoding
  else if adjacent_family output then inl kNonCanonicalEncoding
  else inr output.

Record Version := { v_major : Z; v_minor : Z }.
#[global] Instance canonical_version_eq_dec : EqDecision Version.
Proof. solve_decision. Defined.

Definition VersionLess (left right : Version) : bool :=
  (v_major left <? v_major right) || ((v_major left =? v_major right) && (v_minor left <? v_minor right)).

Record VersionRange := { minimum : Version; maximum : Version }.

Definition DecodeVersionRange (encoded : bytes) : SecurityError + VersionRange :=
  let output := {| minimum := {| v_major := at_ encoded 0; v_minor := at_ encoded 1 |};
                   maximum := {| v_major := at_ encoded 2; v_minor := at_ encoded 3 |} |} in
  if (v_major (minimum output) =? 0) || (v_major (maximum output) =? 0) ||
     VersionLess (maximum output) (minimum output) then inl kInvalidNegotiation
  else inr output.

Definition DecodeLimits (encoded : bytes) : list Z := [ReadU32 encoded 0; ReadU32 encoded 4; ReadU16 encoded 8].

(** The part of [ValidateNegotiationObject] after the versions. *)
Definition ValidateCapabilities (object : ParsedObject) : SecurityError :=
  match DecodeCapabilities (field object 3) with
  | inl error => error
  | inr initiator_capabilities =>
  match DecodeCapabilities (field object 4) with
  | inl error => error
  | inr initiator_required =>
  match DecodeCapabilities (field object 8) with
  | inl error => error
  | inr responder_capabilities =>
  match DecodeCapabilities (field object 9) with
  | inl error => error
  | inr responder_required =>
  match DecodeCapabilities (field object 12) with
  | inl error => error
  | inr selected_capabilities =>
      let expected_capabilities := Intersection initiator_capabilities responder_capabilities in
      let base_is_supported := binary_search initiator_capabilities kBaseTransferV1 &&
                               binary_search responder_capabilities kBaseTransferV1 in
      let base_is_required := binary_search initiator_required kBaseTransferV1 ||
                              binary_search responder_required kBaseTransferV1 in
      if negb base_is_supported || negb base_is_required then kUnsupportedCapability
      else if existsb (fun required => negb (binary_search expected_capabilities required)) initiator_required then
        kUnsupportedCapability
      else if existsb (fun required => negb (binary_search expected_capabilities required)) responder_required then
        kUnsupportedCapability
      else if negb (bool_decide (selected_capabilities = expected_capabilities)) then kDowngradeDetected
      else
      let initiator_limits := DecodeLimits (field object 5) in
      let responder_limits := DecodeLimits (field object 10) in
      let selected_limits := DecodeLimits (field object 13) in
      if negb (bool_decide (selected_limits = zip_with Z.min initiator_limits responder_limits)) then
        kDowngradeDetected
      else kNone
  end end end end end.

Definition ValidateNegotiationObject (object : ParsedObject) : SecurityError :=
  if negb (at_ (field object 1) 0 =? role_code Role.kInitiator) ||
     negb (at_ (field object 6) 0 =? role_code Role.kResponder) then kRoleMismatch
  else
  match DecodeVersionRange (field object 2) with
  | inl error => error
  | inr initiator_range =>
  match DecodeVersionRange (field object 7) with
  | inl error => error
  | inr responder_range =>
      let common_minimum :=
        if VersionLess (minimum initiator_range) (minimum responder_range) then minimum responder_range
        else minimum initiator_range in
      let common_maximum :=
        if VersionLess (maximum initiator_range) (maximum responder_range) then maximum initiator_range
        else maximum responder_range in
      if VersionLess common_maximum common_minimum then kUnsupportedVersion
      else
      let selected := {| v_major := at_ (field object 11) 0; v_minor := at_ (field object 11) 1 |} in
      if negb (bool_decide (selected = common_maximum)) then kDowngradeDetected
      else ValidateCapabilities object
  end end.

(** The call [ParseObject(field, kNormalizedNegotiation)]. *)
Definition ParseNegotiation (encoded : bytes) : Result ParsedObject :=
  ParseObject_with ValidateNegotiationObject encoded (Some kNormalizedNegotiation).

(** ** Contexts *)

Definition kExpectedTags : list Z := [1; 2; 3; 4].

(** The loop of [ValidateRawTranscript] with [tags] not yet seen. *)
Fixpoint ValidateRawTranscript_loop (tags : list Z) (rest : bytes) : SecurityError :=
  if bsize rest =? 0 then match tags with [] => kNone | _ => kMalformedTranscript end
  else
  match tags with
  | [] => kMalformedTranscript
  | tag :: tags =>
      if (bsize rest <? 5) || negb (at_ rest 0 =? tag) then kMalformedTranscript
      else
      let frame_length := ReadU32 rest 1 in
      let rest := drop 5 rest in
      if (frame_length =? 0) || (frame_length >? bsize rest) then kMalformedTranscript
      else ValidateRawTranscript_loop tags (drop (Z.to_nat frame_length) rest)
  end.

Definition ValidateRawTranscript (encoded : bytes) : SecurityError :=
  ValidateRawTranscript_loop kExpectedTags encoded.

Definition ValidateKeyField (object : ParsedObject) (id : Z) : SecurityError :=
  match ValidateEd25519PublicKey (field object id) with
  | inr _ => kNone
  | inl error => error
  end.

(** The roles, the profile and the negotiation that both contexts start with. *)
Definition ValidateContextHead (label : string) (object : ParsedObject) : SecurityError :=
  if negb (EqualBytes (field object 1) (AsBytes label)) then kDomainMismatch
  else if negb (at_ (field object 2) 0 =? role_code Role.kInitiator) ||
          negb (at_ (field object 3) 0 =? role_code Role.kResponder) then kRoleMismatch
  else if negb (ReadU16 (field object 8) 0 =? kSecurityProfileV1) then kUnsupportedProfile
  else
  match ParseNegotiation (field object 9) with
  | inl error => error
  | inr _ => kNone
  end.

Definition ValidatePairingObject (object : ParsedObject) : SecurityError :=
  match ValidateContextHead kPairContextLabel object with
  | kNone =>
      match ValidateKeyField object 6 with
      | kNone => ValidateKeyField object 7
      | error => error
      end
  | error => error
  end.

Definition ValidateTransportObject (object : ParsedObject) : SecurityError :=
  match ValidateContextHead kTransportContextLabel object with
  | kNone =>
      match ValidateRawTranscript (field object 10) with
      | kNone =>
          match ValidateKeyField object 4 with
          | kNone => ValidateKeyField object 5
          | error => error
          end
      | error => error
      end
  | error => error
  end.

Definition ValidateSasInformationObject (object : ParsedObject) : SecurityError :=
  if EqualBytes (field object 1) (AsBytes kSasInformationLabel) then kNone else kDomainMismatch.

(** ** Rotations and identities *)

Module RotationSigner.
Inductive RotationSigner := kOldKey | kNewKey.
End RotationSigner.

Definition signer_code (signer : RotationSigner.RotationSigner) : Z :=
  match signer with RotationSigner.kOldKey => 1 | RotationSigner.kNewKey => 2 end.

Definition ValidateRotationContextObject (object : ParsedObject) : SecurityError :=
  if negb (EqualBytes (field object 1) (AsBytes kRotationContextLabel)) then kDomainMismatch
  else if EqualBytes (field object 2) (field object 3) || (ReadU64 (field object 4) =? 0) then kInvalidRotation
  else
  match ValidateKeyField object 2 with
  | kNone => ValidateKeyField object 3
  | error => error
  end.

Definition ValidateRotationProofObject (object : ParsedObject) : SecurityError :=
  if negb (EqualBytes (field object 1) (AsBytes kRotationProofLabel)) then kDomainMismatch
  else if (at_ (field object 3) 0 =? signer_code RotationSigner.kOldKey) ||
          (at_ (field object 3) 0 =? signer_code RotationSigner.kNewKey) then kNone
  else kRoleMismatch.

Definition ValidateDeviceIdentifierObject (object : ParsedObject) : SecurityError :=
  if negb (EqualBytes (field object 1) (AsBytes kDeviceIdentifierLabel)) then kDomainMismatch
  else ValidateKeyField object 2.

(** ** Parsing and encoding *)

Definition ValidateSemanticObject (object : ParsedObject) : SecurityError :=
  match po_kind object with
  | kNormalizedNegotiation => ValidateNegotiationObject object
  | kPairingContext => ValidatePairingObject object
  | kSasInformation => ValidateSasInformationObject object
  | kTransportContext => ValidateTransportObject object
  | kRotationContext => ValidateRotationContextObject object
  | kRotationProof => ValidateRotationProofObject object
  | kDeviceIdentifier => ValidateDeviceIdentifierObject object
  end.

Definition ParseObject (encoded : bytes) (expected_kind : option CanonicalObjectKind) : Result ParsedObject :=
  ParseObject_with ValidateSemanticObject encoded expected_kind.

(** The loop of [EncodeObject] that checks the fields and adds up their sizes. *)
Fixpoint EncodeObject_size (fields : list FieldInput) (previous_id body_length : Z) : SecurityError + Z :=
  match fields with
  | [] => inr body_length
  | f :: fields =>
      if fi_id f <=? previous_id then inl kNonCanonicalEncoding
      else if (bsize (fi_value f) >? umax 32) || (body_length >? kMaximumCanonicalBodySize - 6) ||
              (bsize (fi_value f) >? kMaximumCanonicalBodySize - body_length - 6) then inl kLimitExceeded
      else EncodeObject_size fields (fi_id f) (body_length + (6 + bsize (fi_value f)))
  end.

Fixpoint EncodeObject_fields (fields : list FieldInput) (encoded : bytes) : bytes :=
  match fields with
  | [] => encoded
  | f :: fields =>
      let encoded := AppendU16 encoded (fi_id f) in
      let encoded := AppendU32 encoded (u32 (bsize (fi_value f))) in
      EncodeObject_fields fields (encoded ++ fi_value f)
  end.

Definition EncodeObject (kind : CanonicalObjectKind) (fields : list FieldInput) : Result bytes :=
  if Z.of_nat (length fields) >? kMaximumCanonicalFields then inl kLimitExceeded
  else
  match EncodeObject_size fields 0 0 with
  | inl error => inl error
  | inr body_length =>
      let encoded := kCanonicalMagic ++ [kCanonicalVersion] ++ [kind_code kind] in
      let encoded := AppendU16 encoded (u16 (Z.of_nat (length fields))) in
      let encoded := AppendU32 encoded (u32 body_length) in
      let encoded := EncodeObject_fields fields encoded in
      match ParseObject encoded (Some kind) with
      | inl error => inl error
      | inr _ => inr encoded
      end
  end.

(** ** The public entry points of the codec *)

Definition DecodeCanonicalObject (encoded : bytes) (expected_kind : option CanonicalObjectKind)
    : Result CanonicalObject :=
  match ParseObject encoded expected_kind with
  | inl error => inl error
  | inr parsed => inr {| co_kind := po_kind parsed; co_encoded := po_encoded parsed |}
  end.

(** A [NormalizedNegotiation] is its encoding. *)
Definition DecodeNormalizedNegotiation (encoded : bytes) : Result bytes :=
  match DecodeCanonicalObject encoded (Some kNormalizedNegotiation) with
  | inl error => inl error
  | inr decoded => inr (co_encoded decoded)
  end.

End CanonicalObjects.
