(* ===== verification/CanonicalObjectsProofs.v ===== *)
(** * Correctness of the canonical objects

    The parser accepts exactly the encodings of the objects of each kind: the
    fields of the schema, in order, each with its size, under the rules of the
    kind; the encoder writes those encodings.  An accepted negotiation selects
    what the two sides have in common and nothing weaker. *)

From Stdlib Require Import Sorted Ascii String.
From S2P Require Import Prelude.
From S2P Require Import V1Parser.
From S2P Require Import V1ParserProofs.
From S2P Require Import V1Transcript.
From S2P Require Import V1TranscriptProofs.
From S2P Require Import Transfer.
From S2P Require Import FieldBlocks.
From S2P Require Import SecurityTypes.
From S2P Require Import Ed25519.
From S2P Require Import CanonicalObjects.
Import SecurityTypes Ed25519 CanonicalObjects.
Import SecurityError CanonicalObjectKind.

(** ** Reading and writing numbers *)

Lemma at_of_subspan l o n i : 0 <= o -> 0 <= i < n -> o + n <= bsize l -> at_ (subspan l o n) i = at_ l (o + i).
Proof.
  intros Ho Hi Hn. unfold at_, subspan. rewrite nth_firstn, nth_skipn.
  destruct (Nat.ltb_spec (Z.to_nat i) (Z.to_nat n)); [f_equal |]; lia.
Qed.

Lemma ReadU16_at l o : 0 <= o -> o + 2 <= bsize l -> ReadU16 l o = V1Parser.ReadU16 (subspan l o 2).
Proof. intros H1 H2. unfold ReadU16, V1Parser.ReadU16. rewrite !at_of_subspan by lia. by rewrite Z.add_0_r. Qed.

Lemma all_bytes_at l i : all_bytes l -> is_byte (at_ l i).
Proof.
  intros H. unfold at_. destruct (nth_in_or_default (Z.to_nat i) l 0) as [Hin | ->]; [| done].
  exact (proj1 (List.Forall_forall _ _) H _ Hin).
Qed.

Lemma ReadU32_at l o : all_bytes l -> 0 <= o -> o + 4 <= bsize l -> ReadU32 l o = V1Parser.ReadU32 (subspan l o 4).
Proof.
  intros Hl H1 H2. rewrite ReadU32_be by auto with xnn. unfold ReadU32.
  assert (E : take 4 (subspan l o 4) = [at_ l o; at_ l (o + 1); at_ l (o + 2); at_ l (o + 3)]).
  { rewrite <- (at_of_subspan l o 4 1), <- (at_of_subspan l o 4 2), <- (at_of_subspan l o 4 3) by lia.
    replace o with (o + 0) at 2 by lia. rewrite <- (at_of_subspan l o 4 0) by lia.
    pose proof (bsize_subspan l o 4 ltac:(lia) ltac:(lia) ltac:(lia)) as Hs. unfold bsize in Hs.
    by destruct (subspan l o 4) as [| a [| b [| c [| d [| e r]]]]]; cbn [length] in Hs; try lia. }
  rewrite E. pose proof (all_bytes_at l o Hl) as B0. pose proof (all_bytes_at l (o + 1) Hl) as B1.
  pose proof (all_bytes_at l (o + 2) Hl) as B2. pose proof (all_bytes_at l (o + 3) Hl) as B3.
  unfold is_byte, in_width in *. rewrite pow2_256 in *.
  set (a := at_ l o) in *. set (b := at_ l (o + 1)) in *. set (c := at_ l (o + 2)) in *. set (d := at_ l (o + 3)) in *.
  rewrite !wrap_small by (unfold in_width; rewrite pow2_32, Z.shiftl_mul_pow2 by lia; lia).
  rewrite (lor_shiftl_add a) by (rewrite ?Z.shiftl_mul_pow2 by lia; lia).
  rewrite (Z.shiftl_mul_pow2 b) by lia.
  replace (a * 2 ^ 24 + b * 2 ^ 16) with (Z.shiftl (a * 2 ^ 8 + b) 16) by (rewrite Z.shiftl_mul_pow2; lia).
  rewrite lor_shiftl_add by (rewrite ?Z.shiftl_mul_pow2 by lia; lia). rewrite (Z.shiftl_mul_pow2 c) by lia.
  replace ((a * 2 ^ 8 + b) * 2 ^ 16 + c * 2 ^ 8) with (Z.shiftl ((a * 2 ^ 8 + b) * 2 ^ 8 + c) 8) by (rewrite Z.shiftl_mul_pow2; lia).
  rewrite lor_shiftl_add by lia. unfold be_value. cbn [fold_left]. lia.
Qed.

Lemma AppendU16_bytes l v : AppendU16 l v = l ++ be_bytes 2 v.
Proof. unfold AppendU16. cbn [be_bytes]. change (8 * Z.of_nat 0) with 0. by rewrite Z.shiftr_0_r. Qed.

Lemma AppendU32_bytes l v : AppendU32 l v = l ++ be_bytes 4 v.
Proof. unfold AppendU32. cbn [be_bytes]. change (8 * Z.of_nat 0) with 0. by rewrite Z.shiftr_0_r. Qed.

(** Errors have distinct names. *)
Lemma SecurityErrorName_inj a b : SecurityErrorName a = SecurityErrorName b -> a = b.
Proof. destruct a, b; first [reflexivity | discriminate]. Qed.

(** ** The encoding of an object *)

Definition pair_of (f : ParsedField) : Z * bytes := (pf_id f, pf_value f).
Definition input_of (f : FieldInput) : Z * bytes := (fi_id f, fi_value f).

Definition object_bytes (kind : CanonicalObjectKind) (fields : list (Z * bytes)) : bytes :=
  kCanonicalMagic ++ [kCanonicalVersion; kind_code kind] ++ be_bytes 2 (Z.of_nat (length fields)) ++
  be_bytes 4 (bsize (block_bytes fields)) ++ block_bytes fields.

(** A field that the schema has, with the size it asks for. *)
Definition fits (s : FieldSchema) (f : Z * bytes) : Prop :=
  fs_id s = f.1 /\ (fs_has_fixed_size s = true -> bsize f.2 = fs_fixed_size s).

(** The fields of an object of a kind: those of the schema, in its order. *)
Record object_ok (kind : CanonicalObjectKind) (fields : list (Z * bytes)) : Prop := {
  ok_schema : Forall2 fits (SchemaForKind kind) fields;
  ok_bytes : Forall (fun f => all_bytes f.2) fields;
  ok_size : bsize (block_bytes fields) <= kMaximumCanonicalBodySize;
}.

Lemma kind_code_byte kind : is_byte (kind_code kind).
Proof. by destruct kind. Qed.

Lemma kind_of_kind_code kind : kind_of_code (kind_code kind) = Some kind.
Proof. by destruct kind. Qed.

Lemma kind_of_code_Some raw kind : kind_of_code raw = Some kind -> raw = kind_code kind.
Proof. unfold kind_of_code. intros H%List.find_some. destruct H as [_ H%Z.eqb_eq]. done. Qed.

Lemma schema_increasing kind : increasing (List.map fs_id (SchemaForKind kind)) /\
  Forall (fun s => 0 < fs_id s < 2 ^ 16) (SchemaForKind kind) /\ (length (SchemaForKind kind) <= 13)%nat.
Proof.
  destruct kind; (split; [apply StrictlyIncreasing_spec; by vm_compute |]);
    (split; [repeat constructor; cbn; lia | cbn; lia]).
Qed.

Lemma bsize_object_bytes kind fields : bsize (object_bytes kind fields) = 12 + bsize (block_bytes fields).
Proof.
  unfold object_bytes. rewrite !bsize_app, !bsize_be_bytes. change (bsize kCanonicalMagic) with 4.
  change (bsize [kCanonicalVersion; kind_code kind]) with 2. lia.
Qed.

Lemma all_bytes_object kind fields : Forall (fun f => all_bytes f.2) fields -> all_bytes (object_bytes kind fields).
Proof.
  intros H. unfold object_bytes. rewrite !all_bytes_app. split; [apply (bool_decide_eq_true_1 _); by vm_compute |].
  split; [by repeat constructor; destruct kind |].
  split; [auto with xnn |]. split; [auto with xnn |].
  induction H as [| f fields Hf _ IH]; [constructor |]. rewrite block_bytes_cons, all_bytes_app.
  split; [by apply all_bytes_field | done].
Qed.

(** ** The loop over the fields *)

Lemma nodup_map_inj {A B} (f : A -> B) l x y : NoDup (List.map f l) -> x ∈ l -> y ∈ l -> f x = f y -> x = y.
Proof.
  induction l as [| z l IH]; [by intros _ ?%not_elem_of_nil |]. cbn [List.map].
  intros [Hz Hn]%list.NoDup_cons [-> | Hx]%list.elem_of_cons [-> | Hy]%list.elem_of_cons E; [done | | | by apply IH].
  - exfalso. apply Hz. rewrite E. by apply (list_elem_of_fmap_2 f).
  - exfalso. apply Hz. rewrite <- E. by apply (list_elem_of_fmap_2 f).
Qed.

Lemma ParseObject_loop_sound n schema previous rest fields rest' :
  all_bytes rest -> 0 <= previous ->
  ParseObject_loop n schema previous rest = inr (fields, rest') ->
  rest = block_bytes (List.map pair_of fields) ++ rest' /\ length fields = n /\
  ids_above previous (List.map pair_of fields) /\ Forall wf_field (List.map pair_of fields) /\
  Forall (fun f => exists s, s ∈ schema /\ fits s f) (List.map pair_of fields).
Proof.
  revert previous rest fields. induction n as [| n IH]; intros previous rest fields Hb Hp H.
  { injection H as <- <-. by repeat constructor. }
  cbn [ParseObject_loop] in H. destruct (Z.ltb_spec (bsize rest) 6) as [| E1]; [done |].
  destruct (field_split rest Hb E1) as (Hid & Hn & Hsplit). cbv zeta in H.
  rewrite ReadU16_at, ReadU32_at in H by (done || lia).
  set (id := V1Parser.ReadU16 (subspan rest 0 2)) in *. set (len := V1Parser.ReadU32 (subspan rest 2 4)) in *.
  destruct (Z.eqb_spec id previous); [done |]. destruct (Z.ltb_spec id previous); [done |].
  destruct (List.find _ schema) as [s |] eqn:Es; [| done]. apply List.find_some in Es as [Es1 Es2%Z.eqb_eq].
  rewrite Z.gtb_ltb in H. destruct (Z.ltb_spec (bsize (drop 6 rest)) len) as [| E3]; [done |].
  destruct (fs_has_fixed_size s && negb (len =? fs_fixed_size s)) eqn:E4; [done |].
  destruct (Hsplit E3) as [Hrest Hlen].
  destruct (ParseObject_loop n schema id _) as [| [fs r]] eqn:E5; [done |]. injection H as <- <-.
  apply IH in E5 as (Hr & Hl & Hids & Hwf & Hs); [| auto with xnn | unfold in_width in Hid; lia].
  cbn [List.map length]. rewrite block_bytes_cons. cbn [pair_of pf_id pf_value fst snd].
  split; [rewrite Hrest at 1; rewrite <- app_assoc; f_equal; exact Hr |]. split; [by rewrite Hl |].
  split; [cbn; split; [lia | done] |]. split; constructor; try done.
  - split; [done |]. split; [cbn; by rewrite Hlen | cbn; auto with xnn].
  - exists s. split; [by apply list_elem_of_In |]. split; [done |]. cbn. intros Hf. rewrite Hf in E4. rewrite Hlen.
    by destruct (Z.eqb_spec len (fs_fixed_size s)).
Qed.

Lemma ParseObject_loop_complete schema fields previous rest' :
  0 <= previous -> ids_above previous (List.map pair_of fields) -> Forall wf_field (List.map pair_of fields) ->
  all_bytes (block_bytes (List.map pair_of fields) ++ rest') ->
  NoDup (List.map fs_id schema) -> Forall (fun f => exists s, s ∈ schema /\ fits s f) (List.map pair_of fields) ->
  ParseObject_loop (length fields) schema previous (block_bytes (List.map pair_of fields) ++ rest') = inr (fields, rest').
Proof.
  intros Hp Hids Hwf Hb Hnd Hs. revert previous Hp Hids Hwf Hb Hs.
  induction fields as [| [id v] fields IH]; intros previous Hp Hids Hwf Hb Hs; [done |].
  cbn [List.map] in *. destruct Hids as [Hlt Hids]. apply list.Forall_cons in Hwf as [(Hid & Hv & Hbv) Hwf].
  apply list.Forall_cons in Hs as [(s & Hin & Hfit & Hsize) Hs]. cbn [pair_of fst snd pf_id pf_value] in *.
  rewrite block_bytes_cons in *. rewrite <- app_assoc in *. cbn [pair_of fst snd pf_id pf_value length ParseObject_loop] in *.
  set (tail := block_bytes (List.map pair_of fields) ++ rest') in *.
  destruct (field_head id v tail Hid Hv) as (H1 & H2 & H3).
  pose proof (bsize_nonneg v) as Nv. pose proof (bsize_nonneg tail) as Nt.
  assert (Hsz : bsize (field_bytes id v ++ tail) = 6 + bsize v + bsize tail) by (by rewrite bsize_app, bsize_field_bytes).
  destruct (Z.ltb_spec (bsize (field_bytes id v ++ tail)) 6); [lia |]. cbv zeta.
  rewrite ReadU16_at, ReadU32_at, H1, H2, H3 by (done || lia).
  destruct (Z.eqb_spec id previous); [lia |]. destruct (Z.ltb_spec id previous); [lia |].
  assert (Hfind : List.find (fun entry => fs_id entry =? id) schema = Some s).
  { destruct (List.find _ schema) as [s' |] eqn:E.
    - apply List.find_some in E as [E1%list_elem_of_In E2%Z.eqb_eq]. f_equal. subst id.
      apply (nodup_map_inj fs_id schema); [done | done | done | congruence].
    - apply list_elem_of_In in Hin. pose proof (List.find_none _ _ E s Hin) as Hx. by apply Z.eqb_neq in Hx. }
  rewrite Hfind, Z.gtb_ltb. rewrite bsize_app. destruct (Z.ltb_spec (bsize v + bsize tail) (bsize v)); [lia |].
  replace (fs_has_fixed_size s && negb (bsize v =? fs_fixed_size s)) with false.
  2:{ destruct (fs_has_fixed_size s) eqn:Ef; [| done]. by rewrite (Hsize eq_refl), Z.eqb_refl. }
  rewrite drop_app_bsize, subspan_app_l by done. unfold tail. rewrite IH; [done | | done | done | | done].
  - unfold in_width in Hid. lia.
  - apply all_bytes_app in Hb. apply Hb.
Qed.

(** ** Finding a field *)

Lemma ids_above_increasing previous fields : ids_above previous fields ->
  increasing (List.map fst fields) /\ Forall (fun f => previous < f.1) fields.
Proof.
  revert previous. induction fields as [| f fields IH]; intros previous; [by repeat constructor |].
  intros [Hlt H]. destruct (IH _ H) as [I1 I2]. split.
  - cbn [List.map]. constructor; [done |]. apply List.Forall_map. done.
  - constructor; [done |]. eapply List.Forall_impl; [| exact I2]. cbn. lia.
Qed.

Lemma FindField_Some object id f : increasing (List.map pf_id (po_fields object)) ->
  FindField object id = Some f <-> f ∈ po_fields object /\ pf_id f = id.
Proof.
  intros Hinc. unfold FindField. set (l := po_fields object) in *.
  destruct (lower_bound_loop_spec (length l) (List.map pf_id l) 0 (length l) id Hinc) as (B & Lo & Hi);
    [lia | rewrite length_map; lia | lia | rewrite length_map; lia |]. rewrite length_map in B, Hi.
  set (i := lower_bound_loop _ _ _ _ _) in *. clearbody i. split.
  - destruct (l !! i) as [g |] eqn:E; [| done]. destruct (Z.eqb_spec (pf_id g) id); [| done].
    intros [= <-]. split; [by apply (list_elem_of_lookup_2 _ i) | done].
  - intros [[j Hj]%list_elem_of_lookup Hid].
    assert (Hn : forall k g, l !! k = Some g -> nth k (List.map pf_id l) 0 = pf_id g).
    { intros k g Hk. apply nth_lookup_Some. change (List.map pf_id l) with (pf_id <$> l).
      by rewrite list_lookup_fmap, Hk. }
    pose proof (lookup_lt_Some _ _ _ Hj) as Lj. pose proof (Hn _ _ Hj) as Ej.
    assert (~ (j < i)%nat) by (intros Hlt; specialize (Lo j Hlt); lia).
    destruct (decide (i = j)) as [-> | Hne]; [rewrite Hj; by rewrite Hid, Z.eqb_refl |]. exfalso.
    pose proof (Hi i ltac:(lia)). pose proof (increasing_nth _ i j Hinc ltac:(rewrite length_map; lia)). lia.
Qed.

(** The ids of an accepted object are those of its schema. *)
Lemma increasing_same l k : increasing l -> increasing k -> (forall x, In x l <-> In x k) -> l = k.
Proof.
  intros Hl. revert k. induction Hl as [| x l Hl IH Hx]; intros k Hk H.
  { destruct k as [| y k]; [done |]. exfalso. apply (H y). by left. }
  destruct k as [| y k]; [exfalso; apply (H x); by left |].
  apply StronglySorted_inv in Hk as [Hk Hy]. rewrite List.Forall_forall in Hx, Hy.
  assert (x = y) as ->.
  { destruct (proj1 (H x) (or_introl eq_refl)) as [| Hxk]; [done |].
    destruct (proj2 (H y) (or_introl eq_refl)) as [| Hyl]; [done |]. specialize (Hx y Hyl). specialize (Hy x Hxk). lia. }
  f_equal. apply IH; [done |]. intros z. split; intros Hz.
  - destruct (proj1 (H z) (or_intror Hz)) as [<- |]; [| done]. specialize (Hx y Hz). lia.
  - destruct (proj2 (H z) (or_intror Hz)) as [<- |]; [| done]. specialize (Hy y Hz). lia.
Qed.

Lemma increasing_NoDup l : increasing l -> NoDup l.
Proof.
  induction 1 as [| x l Hl IH Hx]; constructor; [| done]. intros Hin%list_elem_of_In.
  rewrite List.Forall_forall in Hx. specialize (Hx x Hin). lia.
Qed.

Lemma schema_match schema fields : NoDup (List.map fs_id schema) -> List.map fs_id schema = List.map fst fields ->
  Forall (fun f => exists s, s ∈ schema /\ fits s f) fields -> Forall2 fits schema fields.
Proof.
  intros Hnd E H. apply Forall2_same_length_lookup. split.
  { rewrite <- (length_map fs_id), E. apply length_map. }
  intros i s f Hs Hf. apply (Forall_lookup_1 _ _ _ _ H) in Hf as Hx. destruct Hx as (s' & Hin & Hfit).
  assert (Es : fs_id s = f.1).
  { pose proof (f_equal (fun l => l !! i) E) as Ei. cbn beta in Ei.
    change (List.map fs_id schema) with (fs_id <$> schema) in Ei. change (List.map fst fields) with (fst <$> fields) in Ei.
    rewrite !list_lookup_fmap, Hs, Hf in Ei. by injection Ei. }
  assert (s = s') as ->; [| done].
  apply (nodup_map_inj fs_id schema); [done | by apply (list_elem_of_lookup_2 _ i) | done |].
  destruct Hfit as [Hfit _]. congruence.
Qed.

(** ** Parsing an object *)

Lemma fits_ids schema fields : Forall2 fits schema fields -> List.map fs_id schema = List.map fst fields.
Proof. induction 1 as [| s f schema fields [E _] _ IH]; [done |]. cbn [List.map]. by rewrite E, IH. Qed.

Lemma increasing_ids_above previous fields : increasing (List.map fst fields) ->
  Forall (fun f => previous < f.1) fields -> ids_above previous fields.
Proof.
  revert previous. induction fields as [| f fields IH]; intros previous Hi Hp; [done |].
  cbn [List.map] in Hi. apply StronglySorted_inv in Hi as [Hi Hf]. apply list.Forall_cons in Hp as [Hp _].
  split; [done |]. apply IH; [done |]. exact (proj1 (List.Forall_map _ _ _) Hf).
Qed.

(** What the fields of an object are for the loop that reads them. *)
Lemma object_ok_fields kind fields : object_ok kind fields ->
  ids_above 0 fields /\ Forall wf_field fields /\ Forall (fun f => exists s, s ∈ SchemaForKind kind /\ fits s f) fields /\
  (length fields <= 13)%nat.
Proof.
  intros [H1 H2 H3]. destruct (schema_increasing kind) as (I1 & I2 & I3). pose proof (fits_ids _ _ H1) as E.
  assert (Hids : Forall (fun f => 0 < f.1 < 2 ^ 16) fields).
  { apply (List.Forall_map fst (fun x => 0 < x < 2 ^ 16)). rewrite <- E. by apply List.Forall_map. }
  split; [| split; [| split]].
  - apply increasing_ids_above; [by rewrite <- E |]. eapply List.Forall_impl; [| exact Hids]. cbn. lia.
  - apply List.Forall_forall. intros f Hf. rewrite List.Forall_forall in Hids, H2. specialize (Hids f Hf). specialize (H2 f Hf).
    split; [unfold in_width; lia |]. split; [| done].
    assert (bsize f.2 <= bsize (block_bytes fields)).
    { clear - Hf. induction fields as [| g fields IH]; [done |]. rewrite block_bytes_cons, bsize_app, bsize_field_bytes.
      pose proof (bsize_nonneg g.2). pose proof (bsize_nonneg (block_bytes fields)).
      destruct Hf as [-> | Hf]; [lia | specialize (IH Hf); lia]. }
    pose proof (bsize_nonneg f.2). unfold in_width, kMaximumCanonicalBodySize in *. lia.
  - clear - H1. apply List.Forall_forall. intros f Hf%list_elem_of_In.
    apply list_elem_of_lookup in Hf as [i Hi]. destruct (Forall2_lookup_r _ _ _ _ _ H1 Hi) as (s & Hs & Hfit).
    exists s. split; [by apply (list_elem_of_lookup_2 _ i) | done].
  - by rewrite <- (Forall2_length H1).
Qed.

Definition fields_of (object : ParsedObject) : list (Z * bytes) := List.map pair_of (po_fields object).

Lemma map_fst_fields object : List.map fst (fields_of object) = List.map pf_id (po_fields object).
Proof. unfold fields_of. rewrite List.map_map. done. Qed.

Lemma FindField_present object kind : increasing (List.map pf_id (po_fields object)) ->
  existsb (fun required => match FindField object (fs_id required) with None => true | Some _ => false end)
    (SchemaForKind kind) = false <->
  forall id, In id (List.map fs_id (SchemaForKind kind)) -> In id (List.map pf_id (po_fields object)).
Proof.
  intros Hinc. rewrite <- not_true_iff_false, existsb_exists. split.
  - intros H id Hin. apply in_map_iff in Hin as (s & <- & Hs). apply in_map_iff.
    destruct (FindField object (fs_id s)) as [f |] eqn:E.
    + apply FindField_Some in E as [Hf Hid]; [| done]. exists f. split; [done | by apply list_elem_of_In].
    + exfalso. apply H. exists s. by rewrite E.
  - intros H (s & Hs & HF). specialize (H (fs_id s) (in_map _ _ _ Hs)). apply in_map_iff in H as (f & Hid & Hf).
    assert (E : FindField object (fs_id s) = Some f) by (apply FindField_Some; [done | split; [by apply list_elem_of_In | done]]).
    by rewrite E in HF.
Qed.

(** An object of [kind] with the rules [validate], and the kind the caller expects. *)
Definition accepted (validate : ParsedObject -> SecurityError) (expected : option CanonicalObjectKind)
    (encoded : bytes) (object : ParsedObject) : Prop :=
  po_encoded object = encoded /\ encoded = object_bytes (po_kind object) (fields_of object) /\
  object_ok (po_kind object) (fields_of object) /\ (expected = None \/ expected = Some (po_kind object)) /\
  validate object = kNone.

Lemma ParseObject_with_sound validate encoded expected object : all_bytes encoded ->
  ParseObject_with validate encoded expected = inr object -> accepted validate expected encoded object.
Proof.
  intros Hb. unfold ParseObject_with. destruct (Z.ltb_spec (bsize encoded) 12) as [| H12]; [done |].
  destruct (EqualBytes _ _) eqn:E1; cbn [negb]; [| done]. apply same_bytes_true in E1.
  destruct (Z.eqb_spec (at_ encoded 4) kCanonicalVersion) as [E2 |]; cbn [negb]; [| done].
  destruct (kind_of_code _) as [kind |] eqn:E3; [| done]. apply kind_of_code_Some in E3.
  destruct (match expected with Some e => _ | None => _ end) eqn:E4; [done |]. cbv zeta.
  rewrite ReadU16_at, ReadU32_at by (done || lia).
  destruct (envelope_bytes encoded Hb H12) as (Hsplit & W1 & W2).
  set (count := V1Parser.ReadU16 (subspan encoded 6 2)) in *. set (len := V1Parser.ReadU32 (subspan encoded 8 4)) in *.
  destruct ((count >? _) || _) eqn:E5; [done |]. apply orb_false_iff in E5 as [E5 E6]. rewrite Z.gtb_ltb in E5, E6. bool_facts.
  destruct (Z.eqb_spec (bsize encoded) (12 + len)) as [E7 |]; cbn [negb]; [| done].
  destruct (ParseObject_loop _ _ _ _) as [| [fields rest]] eqn:EL; [done |].
  apply ParseObject_loop_sound in EL as (Hr & Hl & Hids & Hwf & Hs); [| auto with xnn | lia].
  destruct (Z.eqb_spec (bsize rest) 0) as [E8 |]; cbn [negb]; [| done]. apply bsize_zero_nil in E8 as ->.
  rewrite app_nil_r in Hr. set (o := {| po_kind := kind; po_encoded := encoded; po_fields := fields |}).
  destruct (ids_above_increasing _ _ Hids) as [Hinc Hpos]. rewrite List.map_map in Hinc.
  destruct (existsb _ _) eqn:E9; [done |]. pose proof (proj1 (FindField_present o kind Hinc) E9) as E9'. clear E9.
  destruct (validate o) eqn:EV; try done. intros [= <-]. unfold accepted. cbn [o po_encoded po_kind]. change (fields_of o) with (List.map pair_of fields).
  destruct (schema_increasing kind) as (I1 & I2 & I3).
  assert (Eids : List.map fs_id (SchemaForKind kind) = List.map fst (List.map pair_of fields)).
  { rewrite List.map_map. apply increasing_same; [done | done |]. intros id. split; [apply E9' |].
    intros (f & <- & Hf)%in_map_iff. rewrite List.Forall_forall in Hs.
    destruct (Hs (pair_of f) (in_map _ _ _ Hf)) as (s & Hin & Hfit & _). rewrite <- Hfit.
    apply in_map. by apply list_elem_of_In. }
  assert (Hlen : bsize (block_bytes (List.map pair_of fields)) = len).
  { rewrite <- Hr. unfold bsize in *. rewrite length_drop. lia. }
  split; [done |]. split; [| split; [split | split; [| done]]].
  - unfold object_bytes. rewrite length_map, Hl, Z2Nat.id by (unfold in_width in W1; lia).
    rewrite Hlen, <- Hr, <- E1, <- E2, <- E3. exact Hsplit.
  - apply schema_match; [by apply increasing_NoDup | done | done].
  - eapply List.Forall_impl; [| exact Hwf]. intros f (_ & _ & Hf). done.
  - lia.
  - destruct expected as [e |]; [| by left]. right. destruct (decide (kind = e)) as [-> | Hne]; [done |].
    by rewrite bool_decide_false in E4.
Qed.

Lemma ParseObject_with_complete validate encoded expected object :
  accepted validate expected encoded object -> ParseObject_with validate encoded expected = inr object.
Proof.
  destruct object as [kind e fields]. unfold accepted. change (fields_of _) with (List.map pair_of fields).
  cbn [po_encoded po_kind]. intros (-> & Ee & Hok & Hexp & HV). destruct (object_ok_fields _ _ Hok) as (Hids & Hwf & Hs & Hlen).
  set (pairs := List.map pair_of fields) in *.
  assert (Hb : all_bytes encoded) by (rewrite Ee; apply all_bytes_object, (ok_bytes _ _ Hok)).
  assert (Hsize : bsize encoded = 12 + bsize (block_bytes pairs)) by (by rewrite Ee, bsize_object_bytes).
  pose proof (bsize_nonneg (block_bytes pairs)) as Hnn. pose proof (ok_size _ _ Hok) as Hmax.
  unfold kMaximumCanonicalBodySize in Hmax. unfold ParseObject_with.
  destruct (Z.ltb_spec (bsize encoded) 12); [lia |].
  assert (E1 : take 4 encoded = kCanonicalMagic) by (by rewrite Ee).
  assert (E2 : at_ encoded 4 = kCanonicalVersion) by (by rewrite Ee).
  assert (E3 : at_ encoded 5 = kind_code kind) by (by rewrite Ee).
  assert (E4 : V1Parser.ReadU16 (subspan encoded 6 2) = Z.of_nat (length pairs)).
  { rewrite Ee. change (subspan (object_bytes kind pairs) 6 2) with (be_bytes 2 (Z.of_nat (length pairs))).
    apply ReadU16_bytes. unfold in_width. lia. }
  assert (E5 : V1Parser.ReadU32 (subspan encoded 8 4) = bsize (block_bytes pairs)).
  { rewrite Ee. change (subspan (object_bytes kind pairs) 8 4) with (be_bytes 4 (bsize (block_bytes pairs))).
    apply ReadU32_bytes. unfold in_width. lia. }
  assert (E6 : drop 12 encoded = block_bytes pairs) by (by rewrite Ee).
  rewrite E1, E2, E3, kind_of_kind_code. unfold EqualBytes, same_bytes. rewrite bool_decide_true by done. rewrite Z.eqb_refl. cbn [negb].
  replace (match expected with Some x => _ | None => _ end) with false.
  2:{ destruct Hexp as [-> | ->]; [done |]. by rewrite bool_decide_true. }
  cbv zeta. rewrite ReadU16_at, ReadU32_at, E4, E5, E6 by (done || lia). rewrite !Z.gtb_ltb.
  unfold kMaximumCanonicalFields, kMaximumCanonicalBodySize.
  destruct (Z.ltb_spec 32 (Z.of_nat (length pairs))); [lia |].
  destruct (Z.ltb_spec 1048576 (bsize (block_bytes pairs))); [lia |]. cbn [orb].
  rewrite Hsize, Z.eqb_refl. cbn [negb]. rewrite Nat2Z.id.
  replace (length pairs) with (length fields) by (unfold pairs; by rewrite length_map).
  destruct (schema_increasing kind) as (I1 & I2 & I3).
  rewrite <- (app_nil_r (block_bytes pairs)). unfold pairs.
  rewrite ParseObject_loop_complete; [| lia | done | done | | by apply increasing_NoDup | done].
  2:{ rewrite app_nil_r. fold pairs. rewrite <- E6. auto with xnn. }
  cbn [bsize length negb]. change (negb (bsize [] =? 0)) with false. cbv iota.
  set (o := {| po_kind := kind; po_encoded := encoded; po_fields := fields |}) in *.
  assert (Hinc : increasing (List.map pf_id (po_fields o))).
  { rewrite <- map_fst_fields. apply (ids_above_increasing 0). done. }
  rewrite (proj2 (FindField_present o kind Hinc)); [by rewrite HV |].
  intros id Hin. rewrite <- map_fst_fields. change (fields_of o) with pairs. by rewrite <- (fits_ids _ _ (ok_schema _ _ Hok)).
Qed.

Lemma ParseObject_with_iff validate encoded expected object : all_bytes encoded ->
  ParseObject_with validate encoded expected = inr object <-> accepted validate expected encoded object.
Proof. intros Hb. split; [by apply ParseObject_with_sound | apply ParseObject_with_complete]. Qed.

(** The parser depends on the rules of the expected kind alone. *)
Lemma ParseObject_with_ext v v' encoded kind :
  (forall o, po_kind o = kind -> v o = v' o) -> ParseObject_with v encoded (Some kind) = ParseObject_with v' encoded (Some kind).
Proof.
  intros H. unfold ParseObject_with. destruct (bsize encoded <? 12); [done |].
  destruct (negb (EqualBytes _ _)); [done |]. destruct (negb (at_ encoded 4 =? _)); [done |].
  destruct (kind_of_code _) as [k |]; [| done]. destruct (decide (k = kind)) as [-> | Hne].
  - cbv zeta. destruct (_ || _); [done |]. destruct (negb (bsize encoded =? _)); [done |].
    destruct (ParseObject_loop _ _ _ _) as [| [fields rest]]; [by rewrite !bool_decide_true |].
    by rewrite H.
  - by rewrite !bool_decide_false.
Qed.

(** The nested call of the parser is the parser. *)
Lemma ParseObject_nested encoded : ParseNegotiation encoded = ParseObject encoded (Some kNormalizedNegotiation).
Proof. apply ParseObject_with_ext. intros o E. unfold ValidateSemanticObject. by rewrite E. Qed.

(** An error is never [kNone]. *)
Lemma ParseObject_loop_error n schema previous rest : ParseObject_loop n schema previous rest <> inl kNone.
Proof.
  revert previous rest. induction n as [| n IH]; intros previous rest; [done |]. cbn [ParseObject_loop]. cbv zeta.
  destruct (bsize rest <? 6); [done |]. destruct (_ =? previous); [done |]. destruct (_ <? previous); [done |].
  destruct (List.find _ schema); [| done]. destruct (_ >? _); [done |]. destruct (_ && _); [done |].
  specialize (IH (ReadU16 rest 0) (drop (Z.to_nat (ReadU32 rest 2)) (drop 6 rest))).
  destruct (ParseObject_loop n _ _ _) as [e | [fields r]]; [| done]. by intros [= ->].
Qed.

Lemma ParseObject_error encoded expected : ParseObject encoded expected <> inl kNone.
Proof.
  unfold ParseObject, ParseObject_with. destruct (bsize encoded <? 12); [done |].
  destruct (negb (EqualBytes _ _)); [done |]. destruct (negb (at_ encoded 4 =? _)); [done |].
  destruct (kind_of_code _) as [k |]; [| done]. destruct (match expected with Some e => _ | None => _ end); [done |].
  cbv zeta. destruct (_ || _); [done |]. destruct (negb (bsize encoded =? _)); [done |].
  pose proof (ParseObject_loop_error (Z.to_nat (ReadU16 encoded 6)) (SchemaForKind k) 0 (drop 12 encoded)) as HE.
  destruct (ParseObject_loop _ _ _ _) as [e | [fields rest]]; [by intros [= ->] |].
  destruct (negb _); [done |]. destruct (existsb _ _); [done |]. by destruct (ValidateSemanticObject _).
Qed.

(** ** Encoding an object *)

Lemma EncodeObject_size_spec fields previous body : 0 <= body <= kMaximumCanonicalBodySize ->
  EncodeObject_size fields previous body = inr (body + bsize (block_bytes (List.map input_of fields))) /\
    ids_above previous (List.map input_of fields) /\
    body + bsize (block_bytes (List.map input_of fields)) <= kMaximumCanonicalBodySize \/
  (exists e, EncodeObject_size fields previous body = inl e) /\
    ~ (ids_above previous (List.map input_of fields) /\
       body + bsize (block_bytes (List.map input_of fields)) <= kMaximumCanonicalBodySize).
Proof.
  revert previous body. induction fields as [| f fields IH]; intros previous body Hb.
  { left. cbn [EncodeObject_size List.map]. change (bsize (block_bytes [])) with 0. rewrite Z.add_0_r. split; [done |]. split; [done | lia]. }
  cbn [EncodeObject_size List.map]. rewrite block_bytes_cons, bsize_app, bsize_field_bytes. cbn [ids_above input_of fst snd].
  pose proof (bsize_nonneg (fi_value f)) as Nf. pose proof (bsize_nonneg (block_bytes (List.map input_of fields))) as Nb.
  destruct (Z.leb_spec (fi_id f) previous); [right; split; [by eexists | lia] |]. rewrite !Z.gtb_ltb.
  unfold umax, kMaximumCanonicalBodySize in *. rewrite pow2_32.
  destruct (Z.ltb_spec (4294967296 - 1) (bsize (fi_value f))); [right; split; [by eexists | lia] |].
  destruct (Z.ltb_spec (1048576 - 6) body); [right; split; [by eexists | lia] |].
  destruct (Z.ltb_spec (1048576 - body - 6) (bsize (fi_value f))); [right; split; [by eexists | lia] |]. cbn [orb].
  replace (body + (6 + bsize (fi_value f) + bsize (block_bytes (List.map input_of fields))))
    with (body + (6 + bsize (fi_value f)) + bsize (block_bytes (List.map input_of fields))) by lia.
  destruct (IH (fi_id f) (body + (6 + bsize (fi_value f))) ltac:(lia)) as [(E & I1 & I2) | [[e E] I]].
  - left. done.
  - right. split; [by exists e |]. tauto.
Qed.

Lemma EncodeObject_fields_spec fields encoded : Forall (fun f => in_width 32 (bsize (fi_value f))) fields ->
  EncodeObject_fields fields encoded = encoded ++ block_bytes (List.map input_of fields).
Proof.
  intros H. revert encoded. induction H as [| f fields Hf _ IH]; intros encoded; cbn [EncodeObject_fields List.map].
  - symmetry. apply app_nil_r.
  - rewrite IH, AppendU16_bytes, AppendU32_bytes, block_bytes_cons, wrap_small by done. unfold field_bytes.
    cbn [input_of fst snd]. by rewrite <- !app_assoc.
Qed.

Lemma small_values fields : bsize (block_bytes (List.map input_of fields)) <= kMaximumCanonicalBodySize ->
  Forall (fun f => in_width 32 (bsize (fi_value f))) fields.
Proof.
  unfold kMaximumCanonicalBodySize. induction fields as [| f fields IH]; intros H; constructor;
    cbn [List.map] in H; rewrite block_bytes_cons, bsize_app, bsize_field_bytes in H; cbn [input_of snd] in H;
    pose proof (bsize_nonneg (fi_value f)); pose proof (bsize_nonneg (block_bytes (List.map input_of fields))).
  - unfold in_width. lia.
  - apply IH. lia.
Qed.

Lemma EncodeObject_iff kind fields encoded :
  EncodeObject kind fields = inr encoded <->
  encoded = object_bytes kind (List.map input_of fields) /\
  Z.of_nat (length fields) <= kMaximumCanonicalFields /\ ids_above 0 (List.map input_of fields) /\
  bsize (block_bytes (List.map input_of fields)) <= kMaximumCanonicalBodySize /\
  exists object, ParseObject encoded (Some kind) = inr object.
Proof.
  unfold EncodeObject. rewrite Z.gtb_ltb. destruct (Z.ltb_spec kMaximumCanonicalFields (Z.of_nat (length fields))) as [Hc | Hc].
  { split; [done | intros (_ & ? & _); lia]. }
  assert (H0 : 0 <= 0 <= kMaximumCanonicalBodySize) by by vm_compute.
  destruct (EncodeObject_size_spec fields 0 0 H0) as [(-> & Hids & Hs) | [[e ->] Hn]].
  2:{ split; [done | intros (_ & _ & H1 & H2 & _); tauto]. }
  rewrite Z.add_0_l in *. set (n := bsize (block_bytes (List.map input_of fields))) in *.
  assert (Hnn : 0 <= n) by apply bsize_nonneg. unfold kMaximumCanonicalFields, kMaximumCanonicalBodySize in *.
  cbv zeta. rewrite EncodeObject_fields_spec, AppendU32_bytes, AppendU16_bytes by (by apply small_values).
  rewrite (wrap_small 16), (wrap_small 32) by (unfold in_width; lia).
  assert (E : (((kCanonicalMagic ++ [kCanonicalVersion] ++ [kind_code kind]) ++ be_bytes 2 (Z.of_nat (length fields))) ++
    be_bytes 4 n) ++ block_bytes (List.map input_of fields) = object_bytes kind (List.map input_of fields)).
  { unfold object_bytes. fold n. rewrite length_map. rewrite <- !app_assoc. done. }
  rewrite E. destruct (ParseObject _ (Some kind)) as [e | o] eqn:EP.
  - split; [done |]. intros (-> & _ & _ & _ & o & Ho). congruence.
  - split; [intros [= <-] | by intros (-> & _)]. repeat split; try done. by exists o.
Qed.

(** The encoding determines the kind and the fields. *)
Lemma object_bytes_inj kind kind' f g : Forall wf_field f -> Forall wf_field g ->
  in_width 16 (Z.of_nat (length f)) -> in_width 16 (Z.of_nat (length g)) ->
  object_bytes kind f = object_bytes kind' g -> kind = kind' /\ f = g.
Proof.
  intros Hf Hg Lf Lg E. split.
  - pose proof (f_equal (fun l => kind_of_code (at_ l 5)) E) as EK. cbn beta in EK.
    change (at_ (object_bytes kind f) 5) with (kind_code kind) in EK.
    change (at_ (object_bytes kind' g) 5) with (kind_code kind') in EK. rewrite !kind_of_kind_code in EK. by injection EK.
  - pose proof (f_equal (fun l => subspan l 6 2) E) as EC. pose proof (f_equal (drop 12) E) as EB. cbn beta in EC.
    change (be_bytes 2 (Z.of_nat (length f)) = be_bytes 2 (Z.of_nat (length g))) in EC.
    change (block_bytes f = block_bytes g) in EB.
    apply be_bytes_inj in EC; [| done | done]. apply block_bytes_inj; [done | done | lia | done].
Qed.

Lemma object_ok_bound kind fields : object_ok kind fields -> Forall wf_field fields /\ in_width 16 (Z.of_nat (length fields)).
Proof. intros H. destruct (object_ok_fields _ _ H) as (_ & H1 & _ & H2). split; [done |]. unfold in_width. lia. Qed.

(** What [EncodeObject] writes are the fields it was given. *)
Lemma EncodeObject_fields_ok kind fields encoded : Forall (fun f => in_width 16 (fi_id f)) fields ->
  Forall (fun f => all_bytes (fi_value f)) fields -> EncodeObject kind fields = inr encoded ->
  object_ok kind (List.map input_of fields) /\ encoded = object_bytes kind (List.map input_of fields) /\
  exists object, accepted ValidateSemanticObject (Some kind) encoded object /\ fields_of object = List.map input_of fields.
Proof.
  intros Hid Hv (E & Hc & Hids & Hs & object & HP)%EncodeObject_iff.
  assert (Hb : all_bytes encoded) by (rewrite E; apply all_bytes_object; by apply List.Forall_map).
  apply ParseObject_with_sound in HP as HA; [| done]. pose proof HA as (_ & Ee & Hok & [| Hk] & _); [done |]. injection Hk as ->.
  destruct (object_ok_bound _ _ Hok) as [W1 L1]. rewrite E in Ee. apply object_bytes_inj in Ee as [_ EF]; [| | done | | done].
  - rewrite <- EF in Hok. split; [done |]. split; [done |]. by exists object.
  - apply List.Forall_map. apply List.Forall_forall. intros f Hf. rewrite List.Forall_forall in Hid, Hv.
    split; [by apply Hid |]. split; [| by apply Hv].
    exact (proj1 (List.Forall_forall _ _) (small_values _ Hs) f Hf).
  - rewrite length_map. unfold kMaximumCanonicalFields, in_width in *. lia.
Qed.

(** ** Negotiations *)

Definition vle (a b : Version) : Prop := VersionLess b a = false.

(** The version both sides selected. *)
Definition selected_version (object : ParsedObject) : Version :=
  {| v_major := at_ (field object 11) 0; v_minor := at_ (field object 11) 1 |}.

Lemma VersionLess_iff a b : VersionLess a b = true <-> v_major a < v_major b \/ (v_major a = v_major b /\ v_minor a < v_minor b).
Proof. unfold VersionLess. rewrite orb_true_iff, andb_true_iff, !Z.ltb_lt, Z.eqb_eq. done. Qed.

Lemma vle_iff a b : vle a b <-> v_major a < v_major b \/ (v_major a = v_major b /\ v_minor a <= v_minor b).
Proof. unfold vle. rewrite <- not_true_iff_false, VersionLess_iff. lia. Qed.

Lemma DecodeCapabilities_increasing l caps : DecodeCapabilities l = inr caps -> increasing caps.
Proof.
  unfold DecodeCapabilities. destruct (_ <? 2); [done |]. cbv zeta. destruct (negb (bsize l =? _)); [done |].
  generalize (List.map (fun index => ReadU32 l (2 + Z.of_nat index * 4)) (List.seq 0 (Z.to_nat (ReadU16 l 0)))). intros output.
  destruct (_ || _) eqn:E; [done |]. destruct (adjacent_family output); [done |]. intros [= <-].
  apply orb_false_iff in E as [E1 E2]. apply negb_false_iff in E1. apply StrictlyIncreasing_spec.
  induction output as [| x [| y l' ] IH]; [done | done |]. cbn [is_sorted adjacent_equal] in E1, E2.
  apply andb_true_iff in E1 as [E1 E1']. apply orb_false_iff in E2 as [E2 E2']. cbn [StrictlyIncreasing].
  bool_facts. destruct (Z.leb_spec y x); [lia |]. by apply IH.
Qed.

Lemma DecodeCapabilities_error l : DecodeCapabilities l <> inl kNone.
Proof. unfold DecodeCapabilities. cbv zeta. by repeat (case_match; try done). Qed.

Lemma DecodeVersionRange_error l : DecodeVersionRange l <> inl kNone.
Proof. unfold DecodeVersionRange. cbv zeta. by case_match. Qed.

(** What the two sides offered, and what was selected. *)
Record negotiated (object : ParsedObject) : Prop := {
  ng_version : exists ri rr, DecodeVersionRange (field object 2) = inr ri /\ DecodeVersionRange (field object 7) = inr rr /\
    let common v := vle (minimum ri) v /\ vle v (maximum ri) /\ vle (minimum rr) v /\ vle v (maximum rr) in
    common (selected_version object) /\ forall v, common v -> vle v (selected_version object);
  ng_capabilities : exists ci qi cr qr cs,
    DecodeCapabilities (field object 3) = inr ci /\ DecodeCapabilities (field object 4) = inr qi /\
    DecodeCapabilities (field object 8) = inr cr /\ DecodeCapabilities (field object 9) = inr qr /\
    DecodeCapabilities (field object 12) = inr cs /\
    (forall c, In c cs <-> In c ci /\ In c cr) /\ (forall c, In c qi \/ In c qr -> In c cs) /\ In kBaseTransferV1 cs;
  ng_limits : DecodeLimits (field object 13) = zip_with Z.min (DecodeLimits (field object 5)) (DecodeLimits (field object 10));
}.

Lemma required_present expected required :
  increasing expected -> existsb (fun c => negb (binary_search expected c)) required = false ->
  forall c, In c required -> In c expected.
Proof.
  intros Hi H c Hc. apply (Contains_spec expected c Hi). unfold Contains.
  destruct (binary_search expected c) eqn:E; [done |]. rewrite <- not_true_iff_false, existsb_exists in H.
  exfalso. apply H. exists c. by rewrite E.
Qed.

Lemma ValidateCapabilities_sound object : ValidateCapabilities object = kNone ->
  (exists ci qi cr qr cs,
    DecodeCapabilities (field object 3) = inr ci /\ DecodeCapabilities (field object 4) = inr qi /\
    DecodeCapabilities (field object 8) = inr cr /\ DecodeCapabilities (field object 9) = inr qr /\
    DecodeCapabilities (field object 12) = inr cs /\
    (forall c, In c cs <-> In c ci /\ In c cr) /\ (forall c, In c qi \/ In c qr -> In c cs) /\ In kBaseTransferV1 cs) /\
  DecodeLimits (field object 13) = zip_with Z.min (DecodeLimits (field object 5)) (DecodeLimits (field object 10)).
Proof.
  unfold ValidateCapabilities.
  destruct (DecodeCapabilities (field object 3)) as [| ci] eqn:E3; [intros ->; by apply DecodeCapabilities_error in E3 |].
  destruct (DecodeCapabilities (field object 4)) as [| qi] eqn:E4; [intros ->; by apply DecodeCapabilities_error in E4 |].
  destruct (DecodeCapabilities (field object 8)) as [| cr] eqn:E8; [intros ->; by apply DecodeCapabilities_error in E8 |].
  destruct (DecodeCapabilities (field object 9)) as [| qr] eqn:E9; [intros ->; by apply DecodeCapabilities_error in E9 |].
  destruct (DecodeCapabilities (field object 12)) as [| cs] eqn:E12; [intros ->; by apply DecodeCapabilities_error in E12 |].
  cbv zeta. apply DecodeCapabilities_increasing in E3 as I3, E8 as I8.
  pose proof (Intersection_increasing _ _ I3 I8) as II.
  destruct (_ || _) eqn:Eb; [done |]. destruct (existsb _ qi) eqn:Eq1; [done |]. destruct (existsb _ qr) eqn:Eq2; [done |].
  case_bool_decide as Es; cbn [negb]; [| done]. case_bool_decide as El; cbn [negb]; [| done]. intros _. split; [| done].
  exists ci, qi, cr, qr, cs. do 5 (split; [done |]). rewrite Es. split; [intros c; by apply Intersection_In |]. split.
  - intros c [Hc | Hc]; [by apply (required_present _ _ II Eq1) | by apply (required_present _ _ II Eq2)].
  - apply orb_false_iff in Eb as [Eb _]. apply negb_false_iff, andb_true_iff in Eb as [B1 B2].
    apply Intersection_In; [done | done |]. split; by apply Contains_spec.
Qed.

Lemma vle_trans a b c : vle a b -> vle b c -> vle a c.
Proof. rewrite !vle_iff. lia. Qed.

Lemma lower_version a b : let m := if VersionLess a b then a else b in
  vle m a /\ vle m b /\ forall v, vle v a -> vle v b -> vle v m.
Proof.
  cbv zeta. destruct (VersionLess a b) eqn:E.
  - apply VersionLess_iff in E. rewrite !vle_iff. repeat split; try lia. done.
  - fold (vle b a) in E. rewrite !vle_iff in *. repeat split; try lia. done.
Qed.

Lemma higher_version a b : let m := if VersionLess a b then b else a in vle a m /\ vle b m.
Proof.
  cbv zeta. destruct (VersionLess a b) eqn:E.
  - apply VersionLess_iff in E. rewrite !vle_iff. lia.
  - fold (vle b a) in E. rewrite !vle_iff in *. lia.
Qed.

Lemma ValidateNegotiation_sound object : ValidateNegotiationObject object = kNone ->
  negotiated object /\ at_ (field object 1) 0 = 1 /\ at_ (field object 6) 0 = 2.
Proof.
  unfold ValidateNegotiationObject. destruct (_ || _) eqn:ER; [done |]. apply orb_false_iff in ER as [R1 R2]. bool_facts.
  destruct (DecodeVersionRange (field object 2)) as [| ri] eqn:E2; [intros ->; by apply DecodeVersionRange_error in E2 |].
  destruct (DecodeVersionRange (field object 7)) as [| rr] eqn:E7; [intros ->; by apply DecodeVersionRange_error in E7 |].
  cbv zeta. destruct (VersionLess _ _) eqn:EL; [done |]. case_bool_decide as ES; cbn [negb]; [| done].
  intros HC. apply ValidateCapabilities_sound in HC as [HC HL]. split; [| done]. split; [| done | done].
  exists ri, rr. split; [done |]. split; [done |]. cbv zeta. unfold selected_version. rewrite ES. clear ES HC HL.
  destruct (lower_version (maximum ri) (maximum rr)) as (M1 & M2 & M3).
  destruct (higher_version (minimum ri) (minimum rr)) as (N1 & N2).
  set (cmax := if VersionLess (maximum ri) _ then _ else _) in *. set (cmin := if VersionLess (minimum ri) _ then _ else _) in *.
  assert (Hle : vle cmin cmax) by exact EL. split; [| by intros v (_ & V1 & _ & V2); apply M3].
  split; [by apply (vle_trans _ cmin) |]. split; [done |]. split; [by apply (vle_trans _ cmin) | done].
Qed.

Lemma negotiation_sound encoded object : all_bytes encoded ->
  ParseObject encoded (Some kNormalizedNegotiation) = inr object -> negotiated object.
Proof.
  intros Hb (_ & _ & _ & [| Hk] & HV)%ParseObject_with_sound; [done | | done]. injection Hk as Hk.
  unfold ValidateSemanticObject in HV. rewrite <- Hk in HV. by apply ValidateNegotiation_sound.
Qed.

(** ** Raw transcripts *)

(** A frame of the transcript: its tag, its length and its bytes. *)
Definition tagged_frame (tag : Z) (frame : bytes) : bytes := [tag] ++ be_bytes 4 (bsize frame) ++ frame.

Lemma tagged_frame_split rest : all_bytes rest -> 5 <= bsize rest ->
  let n := V1Parser.ReadU32 (subspan rest 1 4) in
  in_width 32 n /\ (n <= bsize (drop 5 rest) ->
    rest = tagged_frame (at_ rest 0) (subspan (drop 5 rest) 0 n) ++ drop (Z.to_nat n) (drop 5 rest) /\
    bsize (subspan (drop 5 rest) 0 n) = n).
Proof.
  intros Hb Hs. destruct rest as [| b0 [| b1 [| b2 [| b3 [| b4 r]]]]]; try done.
  change (subspan _ 1 4) with [b1; b2; b3; b4]. change (drop 5 _) with r. change (at_ _ 0) with b0. cbv zeta.
  change (all_bytes ([b0] ++ [b1; b2; b3; b4] ++ r)) in Hb. rewrite !all_bytes_app in Hb. destruct Hb as (_ & H1 & _).
  destruct (ReadU32_span [b1; b2; b3; b4] H1 eq_refl) as [E W]. split; [done |]. intros Hn. unfold in_width in W.
  assert (Hz : bsize (subspan r 0 (V1Parser.ReadU32 [b1; b2; b3; b4])) = V1Parser.ReadU32 [b1; b2; b3; b4])
    by (apply bsize_subspan; lia).
  split; [| done]. unfold tagged_frame. rewrite Hz, E, <- !app_assoc, <- subspan_split by lia. done.
Qed.

Lemma ValidateRawTranscript_loop_sound tags rest : all_bytes rest ->
  ValidateRawTranscript_loop tags rest = kNone ->
  exists frames, Forall2 (fun _ f => 0 < bsize f < 2 ^ 32) tags frames /\ rest = concat (zip_with tagged_frame tags frames).
Proof.
  revert rest. induction tags as [| tag tags IH]; intros rest Hb; cbn [ValidateRawTranscript_loop];
    (destruct (Z.eqb_spec (bsize rest) 0) as [E0 | E0]; [| try done]).
  - intros _. exists []. split; [constructor |]. by apply bsize_zero_nil.
  - done.
  - destruct (_ || _) eqn:E1; [done |]. apply orb_false_iff in E1 as [E1 E2]. bool_facts.
    rewrite ReadU32_at by (done || lia). cbv zeta. destruct (tagged_frame_split rest Hb E1) as [W Hsplit].
    set (n := V1Parser.ReadU32 (subspan rest 1 4)) in *. destruct (_ || _) eqn:E3; [done |].
    apply orb_false_iff in E3 as [E3 E4]. rewrite Z.gtb_ltb in E4. bool_facts. destruct (Hsplit E4) as [Hr Hn].
    intros HV. apply IH in HV as (frames & Hf & Hc); [| auto with xnn].
    exists (subspan (drop 5 rest) 0 n :: frames). unfold in_width in W.
    split; [constructor; [rewrite Hn; lia | done] |].
    cbn [zip_with concat]. rewrite <- Hc, <- E2. exact Hr.
Qed.

(** An accepted transcript is the four frames of the negotiation, in order. *)
Lemma ValidateRawTranscript_sound rest : all_bytes rest -> ValidateRawTranscript rest = kNone ->
  exists f1 f2 f3 f4, Forall (fun f => 0 < bsize f < 2 ^ 32) [f1; f2; f3; f4] /\
    rest = tagged_frame 1 f1 ++ tagged_frame 2 f2 ++ tagged_frame 3 f3 ++ tagged_frame 4 f4.
Proof.
  intros Hb H. apply ValidateRawTranscript_loop_sound in H as (frames & Hf & ->); [| done].
  pose proof (Forall2_length Hf) as L. destruct frames as [| f1 [| f2 [| f3 [| f4 [| f5 r]]]]]; try done.
  exists f1, f2, f3, f4. unfold kExpectedTags in Hf. split.
  - repeat match goal with H : Forall2 _ (_ :: _) _ |- _ => apply list.Forall2_cons_1 in H as [? H] end.
    do 4 (apply Forall_cons_2; [done |]). constructor.
  - cbn [kExpectedTags zip_with concat]. by rewrite app_nil_r.
Qed.

(** ** The theorems *)

(** C28: A byte string is accepted as a canonical object exactly when it is the
    encoding of an object of a known kind, of the kind the caller expects if it
    expects one: the header, then the fields of the schema of the kind in its
    order with the sizes it fixes, within the limit on the body, and the rules of
    the kind hold of it.  What is returned are its kind, its bytes and its fields;
    no two byte strings are accepted for the same object. *)
Theorem canonical_object_iff encoded expected object : all_bytes encoded ->
  ParseObject encoded expected = inr object <-> accepted ValidateSemanticObject expected encoded object.
Proof. apply ParseObject_with_iff. Qed.

(** What [EncodeObject] writes is parsed back, as an object of the kind and with
    the fields it was given. *)
Theorem canonical_object_roundtrip kind fields encoded :
  Forall (fun f => in_width 16 (fi_id f)) fields -> Forall (fun f => all_bytes (fi_value f)) fields ->
  EncodeObject kind fields = inr encoded ->
  exists object, ParseObject encoded (Some kind) = inr object /\ po_kind object = kind /\
    fields_of object = List.map input_of fields.
Proof.
  intros Hi Hv HE. destruct (EncodeObject_fields_ok kind fields encoded Hi Hv HE) as (_ & _ & o & HA & HF). exists o.
  split; [by apply ParseObject_with_complete |]. split; [| done]. destruct HA as (_ & _ & _ & [| [=]] & _); done.
Qed.

(** C16: In an accepted negotiation nothing weaker was selected than the two sides
    offered: the version is the highest one in both ranges, the capabilities are
    exactly the common ones, contain every capability either side requires and
    the base transfer, and each limit is the smaller of the two. *)
Theorem negotiation_not_downgraded encoded object : all_bytes encoded ->
  ParseObject encoded (Some kNormalizedNegotiation) = inr object -> negotiated object.
Proof. apply negotiation_sound. Qed.

Module CanonicalObjectsExample.

Definition caps (l : list Z) : bytes := be_bytes 2 (Z.of_nat (length l)) ++ concat (List.map (be_bytes 4) l).
Definition limits (a b c : Z) : bytes := be_bytes 4 a ++ be_bytes 4 b ++ be_bytes 2 c.

(** Two sides that share version 1.2, the base transfer and one more capability. *)
Definition inputs : list FieldInput :=
  [{| fi_id := 1; fi_value := [1] |}; {| fi_id := 2; fi_value := [1; 0; 1; 2] |};
   {| fi_id := 3; fi_value := caps [0x10001; 0x20001; 0x30001] |}; {| fi_id := 4; fi_value := caps [0x10001] |};
   {| fi_id := 5; fi_value := limits 1000 2000 3 |}; {| fi_id := 6; fi_value := [2] |};
   {| fi_id := 7; fi_value := [1; 1; 2; 0] |}; {| fi_id := 8; fi_value := caps [0x10001; 0x30001] |};
   {| fi_id := 9; fi_value := caps [] |}; {| fi_id := 10; fi_value := limits 1500 1700 8 |};
   {| fi_id := 11; fi_value := [1; 2] |}; {| fi_id := 12; fi_value := caps [0x10001; 0x30001] |};
   {| fi_id := 13; fi_value := limits 1000 1700 3 |}].

Definition encoding : bytes := object_bytes kNormalizedNegotiation (List.map input_of inputs).

Definition parsed : ParsedObject :=
  {| po_kind := kNormalizedNegotiation; po_encoded := encoding;
     po_fields := List.map (fun f => {| pf_id := fi_id f; pf_value := fi_value f |}) inputs |}.

Lemma encoding_bytes : all_bytes encoding.
Proof. apply (bool_decide_eq_true_1 _). by vm_compute. Qed.

Lemma canonical_object_iff_witness :
  all_bytes encoding /\ accepted ValidateSemanticObject (Some kNormalizedNegotiation) encoding parsed.
Proof. split; [exact encoding_bytes |]. apply (proj1 (canonical_object_iff encoding (Some kNormalizedNegotiation) parsed encoding_bytes)). by lazy. Defined.

Lemma canonical_object_roundtrip_witness :
  exists object, ParseObject encoding (Some kNormalizedNegotiation) = inr object /\
    po_kind object = kNormalizedNegotiation /\ fields_of object = List.map input_of inputs.
Proof.
  apply (canonical_object_roundtrip kNormalizedNegotiation inputs encoding); [| | by lazy].
  - unfold inputs, in_width. repeat constructor; cbn; lia.
  - unfold inputs. repeat (apply Forall_cons_2; [apply (bool_decide_eq_true_1 _); by vm_compute |]). constructor.
Defined.

Lemma negotiation_not_downgraded_witness : negotiated parsed.
Proof. apply (negotiation_not_downgraded encoding parsed encoding_bytes). by lazy. Defined.

(** A lower version than the highest common one is refused. *)
Example downgrade_refused :
  EncodeObject kNormalizedNegotiation (<[10%nat := {| fi_id := 11; fi_value := [1; 1] |}]> inputs) = inl kDowngradeDetected.
Proof. by lazy. Qed.

End CanonicalObjectsExample.
