(* ===== verification/SecurityProfile.v ===== *)
(** * The security profile

    The public functions of [native/src/security/tls/]: the contexts two devices
    bind their handshake to ([contexts.cpp]), the words shown to the users, the
    confirmations and the transport finished values ([confirmation.cpp]), key
    rotations ([rotation.cpp]), device identifiers ([identity.cpp]) and the
    key derivation over HMAC ([crypto_primitives.cpp]).

    SHA-256 and HMAC-SHA-256 are OpenSSL's: the functions of [Sha256Crypto],
    which the code relies on for the length of their results.  A call of them
    may fail for want of resources; [available] says whether the calls of one
    operation succeed.  A secret buffer is the list of its bytes. *)

From Stdlib Require Import Ascii String.
From S2P Require Import Prelude.
From S2P Require Import Transfer.
From S2P Require Import SecurityTypes.
From S2P Require Import Ed25519.
From S2P Require Import CanonicalObjects.

Module SecurityProfile.
Import SecurityTypes Ed25519 CanonicalObjects.
Import SecurityError CanonicalObjectKind.

(** OpenSSL: the digest of a message, and its authentication code under a key. *)
Class Sha256Crypto := {
  sha256 : bytes -> bytes;
  hmac_sha256 : bytes -> bytes -> bytes;
  sha256_size : forall message, bsize (sha256 message) = kSha256Size;
  sha256_bytes : forall message, all_bytes (sha256 message);
  hmac_sha256_size : forall key message, bsize (hmac_sha256 key message) = kSha256Size;
  hmac_sha256_bytes : forall key message, all_bytes (hmac_sha256 key message);
}.

Module ConfirmationOutcome.
Inductive ConfirmationOutcome := kAuthenticatedReject | kAffirmativeConfirm.
End ConfirmationOutcome.

Section Profile.
Context `{Sha256Crypto}.

(** ** Primitives *)

Definition ConstantTimeEqual (left right : bytes) : bool := same_bytes left right.

Definition HmacSha256Secure (available : bool) (key message : bytes) : Result bytes :=
  if negb (bsize key =? kSha256Size) then inl kInvalidLength
  else if negb available then inl kCryptoFailure
  else inr (hmac_sha256 key message).

Definition Sha256 (available : bool) (input : bytes) : Result bytes :=
  if negb available then inl kCryptoFailure else inr (sha256 input).

Definition HmacSha256 (available : bool) (key message : bytes) : Result bytes :=
  match HmacSha256Secure available key message with
  | inl error => inl error
  | inr secure => inr secure
  end.

Definition VerifySha256 (available : bool) (value expected_digest : bytes) : Result bool :=
  if negb (bsize expected_digest =? kSha256Size) then inl kInvalidLength
  else
  match Sha256 available value with
  | inl error => inl error
  | inr digest => if negb (ConstantTimeEqual digest expected_digest) then inl kOutputMismatch else inr true
  end.

(** The loop of the expansion; [output_offset] bytes of the output are written.
    Each round writes a whole block but for the last one. *)
Fixpoint HkdfExpand_loop (rounds : nat) (available : bool) (key information previous : bytes) (counter : Z)
    (output : bytes) (output_length : Z) : option (Result bytes) :=
  if negb (bsize output <? output_length) then Some (inr output)
  else
  match rounds with
  | O => None
  | S rounds =>
      let message := previous ++ information ++ [u8 counter] in
      match HmacSha256Secure available key message with
      | inl error => Some (inl error)
      | inr block =>
          let remaining := output_length - bsize output in
          let copied := Z.min remaining (bsize block) in
          HkdfExpand_loop rounds available key information block (uadd 16 counter 1)
            (output ++ take (Z.to_nat copied) block) output_length
      end
  end.

(** The most rounds there can be, for the longest output that is allowed. *)
Definition hkdf_rounds : nat := 255.

Definition HkdfExpandSha256Secure (available : bool) (pseudorandom_key information : bytes) (output_length : Z)
    : Result bytes :=
  if negb (bsize pseudorandom_key =? kSha256Size) || (output_length =? 0) || (output_length >? 255 * kSha256Size) then
    inl kInvalidLength
  else
  match HkdfExpand_loop hkdf_rounds available pseudorandom_key information [] 1 [] output_length with
  | Some result => result
  | None => inl kCryptoFailure
  end.

(** ** Canonical digests *)

Definition VerifyCanonicalDigest (available : bool) (encoded : bytes) (expected_kind : CanonicalObjectKind)
    (expected_digest : bytes) : Result bool :=
  if negb (bsize expected_digest =? kSha256Size) then inl kInvalidLength
  else
  match DecodeCanonicalObject encoded (Some expected_kind) with
  | inl error => inl error
  | inr decoded =>
      match Sha256 available (co_encoded decoded) with
      | inl error => inl error
      | inr digest => if negb (ConstantTimeEqual digest expected_digest) then inl kContextMismatch else inr true
      end
  end.

(** ** Contexts *)

(** A pairing, transport or rotation context: its encoding and the digest of it. *)
Record Context := {
  cx_encoded : bytes;
  cx_digest : bytes;
}.

Record PairingContextInput := {
  pi_initiator_nonce : bytes;
  pi_responder_nonce : bytes;
  pi_initiator_key : bytes;
  pi_responder_key : bytes;
  pi_negotiation : bytes;
}.

(** The encoding of the fields, and its digest. *)
Definition BuildContext (available : bool) (kind : CanonicalObjectKind) (fields : list FieldInput) : Result Context :=
  match EncodeObject kind fields with
  | inl error => inl error
  | inr encoded =>
      match Sha256 available encoded with
      | inl error => inl error
      | inr digest => inr {| cx_encoded := encoded; cx_digest := digest |}
      end
  end.

Definition pairing_fields (input : PairingContextInput) : list FieldInput :=
  [{| fi_id := 1; fi_value := AsBytes kPairContextLabel |};
   {| fi_id := 2; fi_value := [role_code Role.kInitiator] |};
   {| fi_id := 3; fi_value := [role_code Role.kResponder] |};
   {| fi_id := 4; fi_value := pi_initiator_nonce input |};
   {| fi_id := 5; fi_value := pi_responder_nonce input |};
   {| fi_id := 6; fi_value := pi_initiator_key input |};
   {| fi_id := 7; fi_value := pi_responder_key input |};
   {| fi_id := 8; fi_value := [0; 1] |};
   {| fi_id := 9; fi_value := pi_negotiation input |}].

Definition BuildPairingContext (available : bool) (input : PairingContextInput) : Result Context :=
  BuildContext available kPairingContext (pairing_fields input).

Record TransportContextInput := {
  ti_initiator_key : bytes;
  ti_responder_key : bytes;
  ti_initiator_nonce : bytes;
  ti_responder_nonce : bytes;
  ti_negotiation : bytes;
  ti_raw_negotiation_transcript : bytes;
  ti_session_id : bytes;
}.

Definition transport_fields (input : TransportContextInput) : list FieldInput :=
  [{| fi_id := 1; fi_value := AsBytes kTransportContextLabel |};
   {| fi_id := 2; fi_value := [role_code Role.kInitiator] |};
   {| fi_id := 3; fi_value := [role_code Role.kResponder] |};
   {| fi_id := 4; fi_value := ti_initiator_key input |};
   {| fi_id := 5; fi_value := ti_responder_key input |};
   {| fi_id := 6; fi_value := ti_initiator_nonce input |};
   {| fi_id := 7; fi_value := ti_responder_nonce input |};
   {| fi_id := 8; fi_value := [0; 1] |};
   {| fi_id := 9; fi_value := ti_negotiation input |};
   {| fi_id := 10; fi_value := ti_raw_negotiation_transcript input |};
   {| fi_id := 11; fi_value := ti_session_id input |}].

Definition BuildTransportContext (available : bool) (input : TransportContextInput) : Result Context :=
  BuildContext available kTransportContext (transport_fields input).

(** ** The words shown to the users *)

Record SasWords := {
  sas_information : CanonicalObject;
  sas_expanded : bytes;
  sas_indices : list Z;
}.

Definition sas_fields (context : Context) : list FieldInput :=
  [{| fi_id := 1; fi_value := AsBytes kSasInformationLabel |}; {| fi_id := 2; fi_value := cx_digest context |}].

Definition kShifts : list Z := [44; 33; 22; 11; 0].

(** The five numbers of eleven bits, from the highest fifty-five bits of seven bytes. *)
Definition sas_index_list (expanded : bytes) : list Z :=
  let bit_storage := Z.shiftr (be_read 64 expanded) 1 in
  List.map (fun shift => u16 (Z.land (Z.shiftr bit_storage shift) 0x7ff)) kShifts.

Definition DeriveSasWords (available : bool) (pairing_exporter : bytes) (context : Context) : Result SasWords :=
  match EncodeObject kSasInformation (sas_fields context) with
  | inl error => inl error
  | inr information =>
      match HkdfExpandSha256Secure available pairing_exporter information 7 with
      | inl error => inl error
      | inr expanded =>
          inr {| sas_information := {| co_kind := kSasInformation; co_encoded := information |};
                 sas_expanded := expanded; sas_indices := sas_index_list expanded |}
      end
  end.

(** ** Confirmations *)

(** A message and its authentication code. *)
Record AuthenticatedValue := {
  av_message : bytes;
  av_authenticator : bytes;
}.

Record ConfirmationVerification := {
  cv_sender : Role.Role;
  cv_decision : ConfirmationDecision.ConfirmationDecision;
  cv_outcome : ConfirmationOutcome.ConfirmationOutcome;
  cv_terminal : bool;
  cv_trust_commit_permitted : bool;
}.

(** [static_cast<ConfirmationDecision>] of a byte and [IsValidDecision] of it. *)
Definition decision_of_code (value : Z) : option ConfirmationDecision.ConfirmationDecision :=
  if value =? 0 then Some ConfirmationDecision.kReject
  else if value =? 1 then Some ConfirmationDecision.kConfirm
  else None.

Definition BuildConfirmation (available : bool) (confirmation_exporter : bytes) (context : Context)
    (sender : Role.Role) (decision : ConfirmationDecision.ConfirmationDecision) : Result AuthenticatedValue :=
  let message := cx_digest context ++ [role_code sender] ++ [decision_code decision] in
  match HmacSha256Secure available confirmation_exporter message with
  | inl error => inl error
  | inr authenticator => inr {| av_message := message; av_authenticator := authenticator |}
  end.

Definition VerifyConfirmation (available : bool) (confirmation_exporter message authenticator : bytes)
    (expected_context : Context) (expected_sender : Role.Role) : Result ConfirmationVerification :=
  if negb (bsize message =? kSha256Size + 2) || negb (bsize authenticator =? kSha256Size) then inl kInvalidLength
  else if negb (at_ message 32 =? role_code expected_sender) then inl kRoleMismatch
  else
  match decision_of_code (at_ message 33) with
  | None => inl kInvalidDecision
  | Some decision =>
      match HmacSha256Secure available confirmation_exporter message with
      | inl error => inl error
      | inr expected =>
          if negb (ConstantTimeEqual expected authenticator) then inl kConfirmationMismatch
          else if negb (ConstantTimeEqual (take 32 message) (cx_digest expected_context)) then inl kContextMismatch
          else
          match decision with
          | ConfirmationDecision.kReject =>
              inr {| cv_sender := expected_sender; cv_decision := decision;
                     cv_outcome := ConfirmationOutcome.kAuthenticatedReject; cv_terminal := true;
                     cv_trust_commit_permitted := false |}
          | ConfirmationDecision.kConfirm =>
              inr {| cv_sender := expected_sender; cv_decision := decision;
                     cv_outcome := ConfirmationOutcome.kAffirmativeConfirm; cv_terminal := false;
                     cv_trust_commit_permitted := false |}
          end
      end
  end.

Definition RequireTrustCommit (available : bool) (confirmation_exporter message authenticator : bytes)
    (expected_context : Context) (expected_sender : Role.Role)
    (local_decision : ConfirmationDecision.ConfirmationDecision) : Result ConfirmationVerification :=
  match local_decision with
  | ConfirmationDecision.kReject => inl kLocalReject
  | ConfirmationDecision.kConfirm =>
      match VerifyConfirmation available confirmation_exporter message authenticator expected_context expected_sender with
      | inl error => inl error
      | inr verified =>
          match cv_decision verified with
          | ConfirmationDecision.kReject => inl kAuthenticatedReject
          | ConfirmationDecision.kConfirm =>
              inr {| cv_sender := cv_sender verified; cv_decision := cv_decision verified;
                     cv_outcome := cv_outcome verified; cv_terminal := cv_terminal verified;
                     cv_trust_commit_permitted := true |}
          end
      end
  end.

(** ** Transport finished *)

Definition BuildTransportFinished (available : bool) (transport_exporter : bytes) (context : Context)
    (sender : Role.Role) : Result AuthenticatedValue :=
  let message := cx_digest context ++ [role_code sender] in
  match HmacSha256Secure available transport_exporter message with
  | inl error => inl error
  | inr authenticator => inr {| av_message := message; av_authenticator := authenticator |}
  end.

Definition VerifyTransportFinished (available : bool) (transport_exporter message authenticator : bytes)
    (expected_context : Context) (expected_sender : Role.Role) : Result bool :=
  if negb (bsize message =? kSha256Size + 1) || negb (bsize authenticator =? kSha256Size) then inl kInvalidLength
  else if negb (at_ message 32 =? role_code expected_sender) then inl kRoleMismatch
  else
  match HmacSha256Secure available transport_exporter message with
  | inl error => inl error
  | inr expected =>
      if negb (ConstantTimeEqual expected authenticator) then inl kTransportFinishedMismatch
      else if negb (ConstantTimeEqual (take 32 message) (cx_digest expected_context)) then inl kContextMismatch
      else inr true
  end.

(** ** Rotations *)

Record RotationContextInput := {
  ri_old_key : bytes;
  ri_new_key : bytes;
  ri_counter : Z;
  ri_nonce : bytes;
  ri_transport_context : Context;
}.

Definition rotation_fields (input : RotationContextInput) : list FieldInput :=
  [{| fi_id := 1; fi_value := AsBytes kRotationContextLabel |};
   {| fi_id := 2; fi_value := ri_old_key input |};
   {| fi_id := 3; fi_value := ri_new_key input |};
   {| fi_id := 4; fi_value := EncodeU64 (ri_counter input) |};
   {| fi_id := 5; fi_value := ri_nonce input |};
   {| fi_id := 6; fi_value := cx_digest (ri_transport_context input) |}].

Definition BuildRotationContext (available : bool) (input : RotationContextInput) : Result Context :=
  if same_bytes (ri_old_key input) (ri_new_key input) || (ri_counter input =? 0) then inl kInvalidRotation
  else BuildContext available kRotationContext (rotation_fields input).

Definition proof_fields (context : Context) (signer : RotationSigner.RotationSigner) : list FieldInput :=
  [{| fi_id := 1; fi_value := AsBytes kRotationProofLabel |};
   {| fi_id := 2; fi_value := cx_digest context |};
   {| fi_id := 3; fi_value := [signer_code signer] |}].

Definition BuildRotationProofInput (context : Context) (signer : RotationSigner.RotationSigner)
    : Result CanonicalObject :=
  match EncodeObject kRotationProof (proof_fields context signer) with
  | inl error => inl error
  | inr encoded => inr {| co_kind := kRotationProof; co_encoded := encoded |}
  end.

Definition ValidateRotationCounter (previous current : Z) : SecurityError :=
  if current >? previous then kNone else kReplayDetected.

(** ** Device identifiers *)

Definition kDigits : bytes := AsBytes "0123456789abcdef".

Fixpoint LowercaseHex (value : bytes) : bytes :=
  match value with
  | [] => []
  | byte :: value => at_ kDigits (Z.shiftr byte 4) :: at_ kDigits (Z.land byte 0x0f) :: LowercaseHex value
  end.

Record DeviceIdentifier := {
  di_input : CanonicalObject;
  di_digest : bytes;
  di_text : bytes;
}.

(** [DeriveDeviceIdentifier] of an encoded object, and of a key. *)
Definition DeriveDeviceIdentifierEncoded (available : bool) (canonical_input : bytes) : Result DeviceIdentifier :=
  match DecodeCanonicalObject canonical_input (Some kDeviceIdentifier) with
  | inl error => inl error
  | inr decoded =>
      match Sha256 available (co_encoded decoded) with
      | inl error => inl error
      | inr digest => inr {| di_input := decoded; di_digest := digest; di_text := LowercaseHex digest |}
      end
  end.

Definition identifier_fields (public_key : bytes) : list FieldInput :=
  [{| fi_id := 1; fi_value := AsBytes kDeviceIdentifierLabel |}; {| fi_id := 2; fi_value := public_key |}].

Definition DeriveDeviceIdentifier (available : bool) (public_key : bytes) : Result DeviceIdentifier :=
  match EncodeObject kDeviceIdentifier (identifier_fields public_key) with
  | inl error => inl error
  | inr encoded => DeriveDeviceIdentifierEncoded available encoded
  end.

Definition VerifyDeviceIdentifier (available : bool) (public_key expected_identifier : bytes) : Result bool :=
  if negb (bsize expected_identifier =? kSha256Size) then inl kInvalidLength
  else
  match DeriveDeviceIdentifier available public_key with
  | inl error => inl error
  | inr actual =>
      if negb (ConstantTimeEqual (di_digest actual) expected_identifier) then inl kDeviceIdentifierMismatch
      else inr true
  end.

Definition is_lowercase_hex (value : Z) : bool :=
  ((0x30 <=? value) && (value <=? 0x39)) || ((0x61 <=? value) && (value <=? 0x66)).

Definition VerifyDeviceIdentifierText (available : bool) (public_key presented : bytes) : Result bool :=
  if negb (bsize presented =? kSha256Size * 2) || existsb (fun value => negb (is_lowercase_hex value)) presented then
    inl kNonCanonicalEncoding
  else
  match DeriveDeviceIdentifier available public_key with
  | inl error => inl error
  | inr actual =>
      if negb (ConstantTimeEqual (di_text actual) presented) then inl kDeviceIdentifierMismatch else inr true
  end.

End Profile.

End SecurityProfile.
