(* ===== verification/SecurityProfileProofs.v ===== *)
(** * Correctness of the security profile

    The expansion of keys is HKDF, the words shown to the users keep the
    bits they are derived from, a context determines what it was built from,
    and trust is committed only on an authenticated confirmation of the peer
    for the same context. *)

From Stdlib Require Import Ascii String.
From S2P Require Import Prelude.
From S2P Require Import V1Parser.
From S2P Require Import V1ParserProofs.
From S2P Require Import Transfer.
From S2P Require Import FieldBlocks.
From S2P Require Import SecurityTypes.
From S2P Require Import Ed25519.
From S2P Require Import Ed25519Proofs.
From S2P Require Import Ed25519Points.
From S2P Require Import CanonicalObjects.
From S2P Require Import CanonicalObjectsProofs.
From S2P Require Import SecurityProfile.
Import SecurityTypes Ed25519 CanonicalObjects SecurityProfile.
Import SecurityError CanonicalObjectKind.

Section Proofs.
Context `{Sha256Crypto}.
#[local] Set Default Proof Using "All".

(** ** Key derivation *)

(** The blocks of HKDF: each is the code of the one before it, the information
    and its number. *)
Fixpoint hkdf_blocks (n : nat) (key information previous : bytes) (counter : Z) : bytes :=
  match n with
  | O => []
  | S n =>
      let block := hmac_sha256 key (previous ++ information ++ [counter]) in
      block ++ hkdf_blocks n key information block (counter + 1)
  end.

Lemma HkdfExpand_loop_spec rounds key information previous counter output n :
  bsize key = kSha256Size -> 0 < counter -> counter + Z.of_nat rounds <= 256 ->
  bsize output <= n <= bsize output + 32 * Z.of_nat rounds ->
  HkdfExpand_loop rounds true key information previous counter output n =
  Some (inr (output ++ take (Z.to_nat (n - bsize output)) (hkdf_blocks rounds key information previous counter))).
Proof.
  intros Hk. revert previous counter output. induction rounds as [| rounds IH]; intros previous counter output Hc Hr Hn.
  - cbn [HkdfExpand_loop hkdf_blocks]. destruct (Z.ltb_spec (bsize output) n); [lia |]. cbn [negb].
    by rewrite take_nil, app_nil_r.
  - cbn [HkdfExpand_loop hkdf_blocks]. destruct (Z.ltb_spec (bsize output) n) as [Hlt | Hge]; cbn [negb].
    2:{ replace (n - bsize output) with 0 by lia. by rewrite app_nil_r. }
    unfold HmacSha256Secure. rewrite Hk, Z.eqb_refl. cbn [negb]. cbv zeta.
    rewrite (wrap_small 8), uadd_small by (unfold in_width; lia).
    set (block := hmac_sha256 key (previous ++ information ++ [counter])).
    assert (Hb : bsize block = 32) by apply hmac_sha256_size.
    assert (Ht : bsize (take (Z.to_nat (Z.min (n - bsize output) (bsize block))) block) = Z.min (n - bsize output) 32).
    { unfold bsize in *. rewrite length_take. lia. }
    rewrite IH by (rewrite ?bsize_app, ?Ht; lia). rewrite bsize_app, Ht. f_equal. f_equal.
    rewrite <- app_assoc. f_equal. rewrite take_app. rewrite Hb. unfold bsize in Hb.
    f_equal; [| f_equal; lia]. destruct (Z.le_ge_cases (n - bsize output) 32).
    + by rewrite Z.min_l by lia.
    + rewrite !take_ge by lia. done.
Qed.

Lemma hkdf_blocks_S n key information previous counter :
  hkdf_blocks (S n) key information previous counter =
  hmac_sha256 key (previous ++ information ++ [counter]) ++
  hkdf_blocks n key information (hmac_sha256 key (previous ++ information ++ [counter])) (counter + 1).
Proof. done. Qed.

(** Seven bytes are the first ones of the first block. *)
Lemma first_block rounds available key information expanded :
  bsize key = kSha256Size -> Z.of_nat rounds < 255 ->
  HkdfExpand_loop (S rounds) available key information [] 1 [] 7 = Some (inr expanded) ->
  expanded = take 7 (hmac_sha256 key (information ++ [1])).
Proof.
  intros Hk Hr. destruct available.
  - rewrite HkdfExpand_loop_spec by (try exact Hk; change (bsize []) with 0; lia). rewrite hkdf_blocks_S.
    intros [= <-]. change (bsize []) with 0. cbn [app]. apply take_app_le.
    pose proof (hmac_sha256_size key (information ++ [1])) as HS. change kSha256Size with 32 in HS. unfold bsize in HS. lia.
  - cbn [HkdfExpand_loop]. change (bsize []) with 0. cbn [Z.ltb Z.compare negb]. unfold HmacSha256Secure.
    by destruct (negb (bsize key =? kSha256Size)).
Qed.

(** Key derivation is the expansion of HKDF: for every key of thirty-two
    bytes, every information and every length from one to 255 blocks, the loop
    ends and the bytes are the first ones of the sequence of blocks, each the
    code of the block before it, the information and its number, which never
    wraps in its byte; other lengths are refused. *)
Theorem hkdf_expand_exact key information n : 0 <= n ->
  HkdfExpandSha256Secure true key information n =
  if (bsize key =? kSha256Size) && (1 <=? n) && (n <=? 255 * kSha256Size)
  then inr (take (Z.to_nat n) (hkdf_blocks 255 key information [] 1))
  else inl kInvalidLength.
Proof.
  intros Hnn. unfold HkdfExpandSha256Secure. rewrite Z.gtb_ltb. unfold kSha256Size in *.
  destruct (Z.eqb_spec (bsize key) 32) as [Hk | Hk]; cbn [negb orb andb]; [| done].
  destruct (Z.eqb_spec n 0) as [-> | Hn]; [done |].
  destruct (Z.ltb_spec (255 * 32) n); cbn [orb].
  { destruct (Z.leb_spec n (255 * 32)); [lia |]. by rewrite andb_false_r. }
  destruct (Z.leb_spec 1 n); [| lia]. destruct (Z.leb_spec n (255 * 32)); [| lia]. cbn [andb]. unfold hkdf_rounds.
  rewrite HkdfExpand_loop_spec by (done || (change (bsize []) with 0; lia)). cbn [app].
  change (bsize []) with 0. by rewrite Z.sub_0_r.
Qed.

(** ** The words *)

(** The number five indices stand for, in base [2 ^ 11]. *)
Definition words_value (indices : list Z) : Z := fold_left (fun acc i => acc * 2048 + i) indices 0.

Lemma sas_index_list_spec expanded : all_bytes expanded -> bsize expanded = 7 ->
  Forall (fun i => 0 <= i < 2048) (sas_index_list expanded) /\
  words_value (sas_index_list expanded) = be_value expanded / 2.
Proof.
  intros Hb Hs. unfold sas_index_list, kShifts, words_value.
  pose proof (be_value_range expanded Hb) as Hr. rewrite Hs in Hr. change (256 ^ 7) with (2 ^ 56) in Hr.
  rewrite be_read_value by (try done; lia). rewrite (Z.shiftr_div_pow2 _ 1), Z.pow_1_r by lia.
  set (v := be_value expanded / 2). assert (Hv : 0 <= v < 2 ^ 55) by (unfold v; zlia).
  cbn [List.map fold_left].
  assert (E : forall s, 0 <= s -> u16 (Z.land (Z.shiftr v s) 2047) = v / 2 ^ s mod 2048).
  { intros s Hs'. change 2047 with (2 ^ 11 - 1). rewrite land_mask, Z.shiftr_div_pow2 by lia.
    change (2 ^ 11) with 2048. apply wrap_small. unfold in_width.
    pose proof (Z.mod_pos_bound (v / 2 ^ s) 2048 ltac:(lia)). lia. }
  rewrite !E by lia. split.
  - repeat constructor; apply Z.mod_pos_bound; lia.
  - change (2 ^ 44) with (2048 * 2048 * 2048 * 2048). change (2 ^ 33) with (2048 * 2048 * 2048).
    change (2 ^ 22) with (2048 * 2048). change (2 ^ 11) with 2048. change (2 ^ 0) with 1. rewrite Z.div_1_r.
    rewrite <- !Z.div_div by lia. change (2 ^ 55) with (2048 * 2048 * 2048 * 2048 * 2048) in Hv.
    clearbody v. clear - Hv. zlia.
Qed.

(** ** Contexts *)

Definition wf_inputs (fields : list FieldInput) : Prop :=
  Forall (fun f => in_width 16 (fi_id f)) fields /\ Forall (fun f => all_bytes (fi_value f)) fields.

Lemma AsBytes_bytes label : all_bytes (AsBytes label).
Proof using Type.
  unfold AsBytes. induction (list_ascii_of_string label) as [| c l IH]; constructor; [| done].
  unfold is_byte, in_width. pose proof (nat_ascii_bounded c). lia.
Qed.

(** Two objects with the same encoding have the same kind and fields. *)
Lemma EncodeObject_inj kind kind' f g encoded : wf_inputs f -> wf_inputs g ->
  EncodeObject kind f = inr encoded -> EncodeObject kind' g = inr encoded -> kind = kind' /\ f = g.
Proof using Type.
  intros [F1 F2] [G1 G2] EF EG. destruct (EncodeObject_fields_ok _ _ _ F1 F2 EF) as (OF & BF & _).
  destruct (EncodeObject_fields_ok _ _ _ G1 G2 EG) as (OG & BG & _).
  destruct (object_ok_bound _ _ OF) as [WF LF]. destruct (object_ok_bound _ _ OG) as [WG LG].
  rewrite BF in BG. apply object_bytes_inj in BG as [EK EM]; [| done ..]. split; [done |].
  clear - EM. revert g EM. induction f as [| [i v] f IH]; intros [| [j w] g] EM; try done.
  cbn [List.map] in EM. injection EM as -> -> EM. f_equal. by apply IH.
Qed.

Lemma BuildContext_spec available kind fields c : BuildContext available kind fields = inr c ->
  EncodeObject kind fields = inr (cx_encoded c) /\ cx_digest c = sha256 (cx_encoded c).
Proof.
  unfold BuildContext, Sha256. destruct (EncodeObject kind fields) as [| e]; [done |]. destruct available; [| done].
  by intros [= <-].
Qed.

(** Contexts have one encoding exactly when they are built from the same fields. *)
Lemma contexts_same a b kind kind' f g c c' : wf_inputs f -> wf_inputs g ->
  BuildContext a kind f = inr c -> BuildContext b kind' g = inr c' ->
  (cx_encoded c = cx_encoded c' <-> (kind, f) = (kind', g)).
Proof.
  intros Hf Hg [E1 D1]%BuildContext_spec [E2 D2]%BuildContext_spec. split.
  - intros E. rewrite <- E in E2. by destruct (EncodeObject_inj _ _ _ _ _ Hf Hg E1 E2) as [-> ->].
  - intros [= -> ->]. congruence.
Qed.

Definition wf_pairing (i : PairingContextInput) : Prop :=
  all_bytes (pi_initiator_nonce i) /\ all_bytes (pi_responder_nonce i) /\ all_bytes (pi_initiator_key i) /\
  all_bytes (pi_responder_key i) /\ all_bytes (pi_negotiation i).

Definition wf_transport (i : TransportContextInput) : Prop :=
  all_bytes (ti_initiator_key i) /\ all_bytes (ti_responder_key i) /\ all_bytes (ti_initiator_nonce i) /\
  all_bytes (ti_responder_nonce i) /\ all_bytes (ti_negotiation i) /\ all_bytes (ti_raw_negotiation_transcript i) /\
  all_bytes (ti_session_id i).

Definition wf_rotation (i : RotationContextInput) : Prop :=
  all_bytes (ri_old_key i) /\ all_bytes (ri_new_key i) /\ in_width 64 (ri_counter i) /\ all_bytes (ri_nonce i) /\
  all_bytes (cx_digest (ri_transport_context i)).

(** The fields of a context are bytes when its inputs are. *)
Ltac wf_fields :=
  split; unfold pairing_fields, transport_fields, rotation_fields; 
    repeat match goal with |- Forall _ (_ :: _) => apply Forall_cons_2 | |- Forall _ [] => apply Forall_nil_2 end;
    cbn [fi_id fi_value]; try done; 
    lazymatch goal with
    | |- all_bytes (AsBytes _) => apply AsBytes_bytes
    | |- all_bytes (EncodeU64 _) => apply all_bytes_be_bytes
    | |- _ => apply (bool_decide_eq_true_1 _); by vm_compute
    end.

Lemma pairing_fields_wf i : wf_pairing i -> wf_inputs (pairing_fields i).
Proof. intros (H1 & H2 & H3 & H4 & H5). wf_fields. Qed.

Lemma transport_fields_wf i : wf_transport i -> wf_inputs (transport_fields i).
Proof. intros (H1 & H2 & H3 & H4 & H5 & H6 & H7). wf_fields. Qed.

Lemma rotation_fields_wf i : wf_rotation i -> wf_inputs (rotation_fields i).
Proof. intros (H1 & H2 & H3 & H4 & H5). wf_fields. Qed.

(** The inputs of a context of any kind. *)
Inductive ContextInput :=
  | InPairing (i : PairingContextInput)
  | InTransport (i : TransportContextInput)
  | InRotation (i : RotationContextInput).

Definition build (available : bool) (x : ContextInput) : Result Context :=
  match x with
  | InPairing i => BuildPairingContext available i
  | InTransport i => BuildTransportContext available i
  | InRotation i => BuildRotationContext available i
  end.

Definition wf_input (x : ContextInput) : Prop :=
  match x with InPairing i => wf_pairing i | InTransport i => wf_transport i | InRotation i => wf_rotation i end.

(** The same inputs; of the transport context of a rotation its digest is used. *)
Definition same_inputs (x y : ContextInput) : Prop :=
  match x, y with
  | InPairing i, InPairing j => i = j
  | InTransport i, InTransport j => i = j
  | InRotation i, InRotation j =>
      ri_old_key i = ri_old_key j /\ ri_new_key i = ri_new_key j /\ ri_counter i = ri_counter j /\
      ri_nonce i = ri_nonce j /\ cx_digest (ri_transport_context i) = cx_digest (ri_transport_context j)
  | _, _ => False
  end.

Definition kind_and_fields (x : ContextInput) : CanonicalObjectKind * list FieldInput :=
  match x with
  | InPairing i => (kPairingContext, pairing_fields i)
  | InTransport i => (kTransportContext, transport_fields i)
  | InRotation i => (kRotationContext, rotation_fields i)
  end.

Lemma build_context available x c : build available x = inr c ->
  BuildContext available (kind_and_fields x).1 (kind_and_fields x).2 = inr c.
Proof.
  destruct x as [i | i | i]; [done | done |]. unfold build, BuildRotationContext. by destruct (_ || _).
Qed.

Lemma wf_input_fields x : wf_input x -> wf_inputs (kind_and_fields x).2.
Proof. destruct x; [apply pairing_fields_wf | apply transport_fields_wf | apply rotation_fields_wf]. Qed.

Lemma EncodeU64_inj v w : in_width 64 v -> in_width 64 w -> EncodeU64 v = EncodeU64 w -> v = w.
Proof using Type. intros Hv Hw. by apply be_bytes_inj. Qed.

Lemma kind_and_fields_inj x y : wf_input x -> wf_input y -> kind_and_fields x = kind_and_fields y -> same_inputs x y.
Proof.
  intros Hx Hy E.
  assert (V : forall n, nth n (List.map fi_value (kind_and_fields x).2) [] = nth n (List.map fi_value (kind_and_fields y).2) [])
    by (intros n; by rewrite E).
  pose proof (V 1%nat) as V1. pose proof (V 2%nat) as V2. pose proof (V 3%nat) as V3. pose proof (V 4%nat) as V4.
  pose proof (V 5%nat) as V5. pose proof (V 6%nat) as V6. pose proof (V 8%nat) as V8. pose proof (V 9%nat) as V9. pose proof (V 10%nat) as V10.
  apply (f_equal fst) in E. clear V.
  destruct x as [[] | [] | []], y as [[] | [] | []]; cbn in E; try discriminate E;
    unfold kind_and_fields, pairing_fields, transport_fields, rotation_fields in *; cbn [List.map nth fst snd fi_value
      pi_initiator_nonce pi_responder_nonce pi_initiator_key pi_responder_key pi_negotiation ti_initiator_key ti_responder_key
      ti_initiator_nonce ti_responder_nonce ti_negotiation ti_raw_negotiation_transcript ti_session_id ri_old_key ri_new_key
      ri_counter ri_nonce ri_transport_context same_inputs] in *; subst; try done.
  destruct Hx as (_ & _ & Wx & _), Hy as (_ & _ & Wy & _). apply EncodeU64_inj in V3; done.
Qed.

Lemma same_inputs_fields x y : same_inputs x y -> kind_and_fields x = kind_and_fields y.
Proof.
  destruct x as [i | i | i], y as [j | j | j]; simpl; try done; try (by intros ->).
  intros (E1 & E2 & E3 & E4 & E5). unfold rotation_fields. by rewrite E1, E2, E3, E4, E5.
Qed.

(** C15: A context binds what it was built from.  The digest of a pairing, a
    transport or a rotation context is the SHA-256 of its encoding, and two
    contexts have the same encoding exactly when they are of the same kind and
    were built from the same keys, nonces, negotiation, transcript, session and
    counter.  So whoever makes two contexts with one digest from different
    inputs has two different messages, these encodings, with one SHA-256. *)
Theorem contexts_bind_inputs x y a b c c' : wf_input x -> wf_input y ->
  build a x = inr c -> build b y = inr c' ->
  cx_digest c = sha256 (cx_encoded c) /\ cx_digest c' = sha256 (cx_encoded c') /\
  (cx_encoded c = cx_encoded c' <-> same_inputs x y).
Proof.
  intros Hx Hy Bx%build_context By%build_context.
  split; [apply (BuildContext_spec _ _ _ _ Bx) |]. split; [apply (BuildContext_spec _ _ _ _ By) |].
  rewrite (contexts_same _ _ _ _ _ _ _ _ (wf_input_fields x Hx) (wf_input_fields y Hy) Bx By).
  rewrite <- !surjective_pairing. split; [by apply kind_and_fields_inj | apply same_inputs_fields].
Qed.

(** ** Confirmations *)

(** The message of a confirmation, and the values that prove it. *)
Definition confirmation_message (context : Context) (sender : Role.Role) (decision : ConfirmationDecision.ConfirmationDecision)
    : bytes := cx_digest context ++ [role_code sender; decision_code decision].

Definition authenticated (exporter message authenticator : bytes) : Prop :=
  bsize exporter = kSha256Size /\ authenticator = hmac_sha256 exporter message.

Lemma decision_of_code_iff v d : decision_of_code v = Some d <-> v = decision_code d.
Proof using Type.
  unfold decision_of_code. destruct (Z.eqb_spec v 0); [| destruct (Z.eqb_spec v 1)]; destruct d; cbn [decision_code];
    (split; intros E; [try discriminate E; lia | try done; lia]).
Qed.

(** A digest and the bytes after it. *)
Lemma at_digest d i r : bsize d = kSha256Size -> 0 <= i -> at_ (d ++ r) (32 + i) = at_ r i.
Proof using Type.
  change kSha256Size with 32. intros Hd Hi. unfold at_, bsize in *. rewrite app_nth2 by lia. f_equal. lia.
Qed.

Lemma split_digest l k : bsize l = kSha256Size + k -> 0 <= k ->
  exists d r, l = d ++ r /\ bsize d = kSha256Size /\ bsize r = k /\ take 32 l = d.
Proof using Type.
  change kSha256Size with 32. intros Hs Hk. exists (take 32 l), (drop 32 l). unfold bsize in *.
  rewrite length_take, length_drop, take_drop. split; [done |]. split; [lia |]. split; [lia | done].
Qed.

Lemma HmacSha256Secure_inr available exporter message code :
  HmacSha256Secure available exporter message = inr code <->
  available = true /\ bsize exporter = kSha256Size /\ code = hmac_sha256 exporter message.
Proof.
  unfold HmacSha256Secure. destruct (Z.eqb_spec (bsize exporter) kSha256Size); cbn [negb]; [| split; [done | by intros (_ & ? & _)]].
  destruct available; cbn [negb]; [| split; [done | by intros [? _]]].
  split; [by intros [= <-] | by intros (_ & _ & ->)].
Qed.

Definition verification (sender : Role.Role) (decision : ConfirmationDecision.ConfirmationDecision) : ConfirmationVerification :=
  {| cv_sender := sender; cv_decision := decision;
     cv_outcome := match decision with
                   | ConfirmationDecision.kReject => ConfirmationOutcome.kAuthenticatedReject
                   | ConfirmationDecision.kConfirm => ConfirmationOutcome.kAffirmativeConfirm end;
     cv_terminal := match decision with ConfirmationDecision.kReject => true | ConfirmationDecision.kConfirm => false end;
     cv_trust_commit_permitted := false |}.

Lemma VerifyConfirmation_iff available exporter message authenticator context sender v :
  bsize (cx_digest context) = kSha256Size ->
  VerifyConfirmation available exporter message authenticator context sender = inr v <->
  exists d, available = true /\ message = confirmation_message context sender d /\
    authenticated exporter message authenticator /\ v = verification sender d.
Proof.
  intros Hd. unfold VerifyConfirmation, authenticated, ConstantTimeEqual. split.
  - destruct (_ || _) eqn:E1; [done |]. apply orb_false_iff in E1 as [E1 E2]. bool_facts.
    destruct (Z.eqb_spec (at_ message 32) (role_code sender)) as [E3 |]; cbn [negb]; [| done].
    destruct (decision_of_code _) as [d |] eqn:E4; [| done]. apply decision_of_code_iff in E4.
    destruct (HmacSha256Secure _ _ _) as [| code] eqn:E5; [done |]. apply HmacSha256Secure_inr in E5 as (-> & HE & ->).
    destruct (same_bytes (hmac_sha256 exporter message) authenticator) eqn:E6; cbn [negb]; [| done]. apply same_bytes_true in E6.
    destruct (same_bytes (take 32 message) _) eqn:E7; cbn [negb]; [| done]. apply same_bytes_true in E7.
    intros HV. exists d. split; [done |]. split; [| split; [done |]].
    + destruct (split_digest message 2 E1 ltac:(lia)) as (dg & r & -> & Hg & Hr & Ht). rewrite Ht in E7. subst dg.
      change 33 with (32 + 1) in E4. change 32 with (32 + 0) in E3. rewrite at_digest in E3, E4 by (done || lia).
      unfold confirmation_message. rewrite <- E3, <- E4. destruct r as [| x [| y [| z r]]]; try done. rewrite !bsize_cons in Hr.
      pose proof (bsize_nonneg r). lia.
    + by destruct d; injection HV as <-.
  - intros (d & -> & -> & (HE & ->) & ->). unfold confirmation_message. rewrite bsize_app, Hd, hmac_sha256_size.
    change (negb (kSha256Size + bsize [role_code sender; decision_code d] =? kSha256Size + 2) || negb (kSha256Size =? kSha256Size)) with false.
    cbv iota. change 33 with (32 + 1). change (at_ (cx_digest context ++ [role_code sender; decision_code d]) 32)
      with (at_ (cx_digest context ++ [role_code sender; decision_code d]) (32 + 0)).
    rewrite !at_digest by (done || lia). change (at_ [role_code sender; decision_code d] 0) with (role_code sender).
    change (at_ [role_code sender; decision_code d] 1) with (decision_code d). rewrite Z.eqb_refl. cbn [negb].
    rewrite (proj2 (decision_of_code_iff _ d) eq_refl).
    rewrite (proj2 (HmacSha256Secure_inr true exporter _ _) (conj eq_refl (conj HE eq_refl))).
    assert (Ht : take 32 (cx_digest context ++ [role_code sender; decision_code d]) = cx_digest context).
    { rewrite take_app_le, take_ge by (change kSha256Size with 32 in Hd; unfold bsize in Hd; lia). done. }
    rewrite Ht, !(proj2 (same_bytes_true _ _) eq_refl). by destruct d.
Qed.

(** C14: Trust may be committed exactly when the user of this device confirmed and
    the message is the confirmation, by the expected role and not a rejection, of
    this very context, with the code of it under the secret both sides exported:
    a message of the other role, for another context or with any other code is
    refused. *)
Theorem trust_commit_iff available exporter message authenticator context sender local v :
  bsize (cx_digest context) = kSha256Size ->
  RequireTrustCommit available exporter message authenticator context sender local = inr v <->
  local = ConfirmationDecision.kConfirm /\ available = true /\
  message = confirmation_message context sender ConfirmationDecision.kConfirm /\
  authenticated exporter message authenticator /\
  v = {| cv_sender := sender; cv_decision := ConfirmationDecision.kConfirm;
         cv_outcome := ConfirmationOutcome.kAffirmativeConfirm; cv_terminal := false; cv_trust_commit_permitted := true |}.
Proof.
  intros Hd. unfold RequireTrustCommit. destruct local; [split; [done | by intros [? _]] |].
  destruct (VerifyConfirmation _ _ _ _ _ _) as [e | w] eqn:E.
  - split; [done |]. intros (_ & -> & -> & HA & _).
    rewrite (proj2 (VerifyConfirmation_iff _ _ _ _ context sender (verification sender ConfirmationDecision.kConfirm) Hd)) in E; [done |].
    exists ConfirmationDecision.kConfirm. done.
  - apply VerifyConfirmation_iff in E as (d & -> & -> & HA & ->); [| done]. destruct d; cbn [verification cv_decision].
    + split; [done |]. intros (_ & _ & E & _). unfold confirmation_message in E. by apply app_inv_head in E.
    + split; [by intros [= <-] | by intros (_ & _ & _ & _ & ->)].
Qed.

(** What one side builds, the other side accepts, and no other side does. *)
Lemma confirmation_delivered exporter context sender decision value :
  bsize (cx_digest context) = kSha256Size ->
  BuildConfirmation true exporter context sender decision = inr value ->
  VerifyConfirmation true exporter (av_message value) (av_authenticator value) context sender = inr (verification sender decision).
Proof.
  intros Hd. unfold BuildConfirmation. destruct (HmacSha256Secure _ _ _) as [| code] eqn:E; [done |]. intros [= <-].
  apply HmacSha256Secure_inr in E as (_ & HE & ->). apply VerifyConfirmation_iff; [done |]. exists decision. done.
Qed.

Lemma VerifyTransportFinished_iff available exporter message authenticator context sender :
  bsize (cx_digest context) = kSha256Size ->
  VerifyTransportFinished available exporter message authenticator context sender = inr true <->
  available = true /\ message = cx_digest context ++ [role_code sender] /\ authenticated exporter message authenticator.
Proof.
  intros Hd. unfold VerifyTransportFinished, authenticated, ConstantTimeEqual. split.
  - destruct (_ || _) eqn:E1; [done |]. apply orb_false_iff in E1 as [E1 E2]. bool_facts.
    destruct (Z.eqb_spec (at_ message 32) (role_code sender)) as [E3 |]; cbn [negb]; [| done].
    destruct (HmacSha256Secure _ _ _) as [| code] eqn:E5; [done |]. apply HmacSha256Secure_inr in E5 as (-> & HE & ->).
    destruct (same_bytes (hmac_sha256 exporter message) authenticator) eqn:E6; cbn [negb]; [| done]. apply same_bytes_true in E6.
    destruct (same_bytes (take 32 message) _) eqn:E7; cbn [negb]; [| done]. apply same_bytes_true in E7.
    intros _. split; [done |]. split; [| done].
    destruct (split_digest message 1 E1 ltac:(lia)) as (dg & r & -> & Hg & Hr & Ht). rewrite Ht in E7. subst dg.
    change 32 with (32 + 0) in E3. rewrite at_digest in E3 by (done || lia). rewrite <- E3.
    destruct r as [| x [| y r]]; try done. rewrite !bsize_cons in Hr. pose proof (bsize_nonneg r). lia.
  - intros (-> & -> & HE & ->). rewrite bsize_app, Hd, hmac_sha256_size.
    change (negb (kSha256Size + bsize [role_code sender] =? kSha256Size + 1) || negb (kSha256Size =? kSha256Size)) with false.
    cbv iota. change (at_ (cx_digest context ++ [role_code sender]) 32) with (at_ (cx_digest context ++ [role_code sender]) (32 + 0)).
    rewrite at_digest by (done || lia). change (at_ [role_code sender] 0) with (role_code sender). rewrite Z.eqb_refl. cbn [negb].
    rewrite (proj2 (HmacSha256Secure_inr true exporter _ _) (conj eq_refl (conj HE eq_refl))).
    assert (Ht : take 32 (cx_digest context ++ [role_code sender]) = cx_digest context).
    { rewrite take_app_le, take_ge by (change kSha256Size with 32 in Hd; unfold bsize in Hd; lia). done. }
    by rewrite Ht, !(proj2 (same_bytes_true _ _) eq_refl).
Qed.

(** ** What contexts are built from *)

Lemma accepted_increasing v k e o : accepted v k e o -> Sorted.StronglySorted Z.lt (List.map pf_id (po_fields o)).
Proof using Type.
  intros (_ & _ & Hok & _). destruct (object_ok_fields _ _ Hok) as (Hids & _). rewrite <- map_fst_fields.
  apply (ids_above_increasing 0). done.
Qed.

(** The field of an object that was encoded is the input. *)
Lemma field_of_input kind fields encoded o f : accepted ValidateSemanticObject (Some kind) encoded o ->
  fields_of o = List.map input_of fields -> f ∈ fields -> field o (fi_id f) = fi_value f.
Proof using Type.
  intros HA HF Hin. unfold field.
  assert (Hp : exists g, g ∈ po_fields o /\ pair_of g = input_of f).
  { assert (Hm : input_of f ∈ fields_of o) by (rewrite HF; by apply (list_elem_of_fmap_2 input_of)).
    unfold fields_of in Hm. apply list_elem_of_In, in_map_iff in Hm as (g & Hg & Hi). exists g. split; [by apply list_elem_of_In | done]. }
  destruct Hp as (g & Hg & Ep). injection Ep as E1 E2.
  assert (EF : FindField o (fi_id f) = Some g) by (apply FindField_Some; [by apply (accepted_increasing _ _ _ _ HA) | done]).
  by rewrite EF.
Qed.

Lemma ValidateKeyField_inr o id : ValidateKeyField o id = kNone -> exists k, ValidateEd25519PublicKey (field o id) = inr k.
Proof using Type.
  unfold ValidateKeyField. destruct (ValidateEd25519PublicKey (field o id)) as [e | k] eqn:E; [| by exists k].
  intros ->. by apply ValidateEd25519PublicKey_error in E.
Qed.

Lemma ValidateContextHead_inr label o : ValidateContextHead label o = kNone ->
  exists n, ParseObject (field o 9) (Some kNormalizedNegotiation) = inr n.
Proof using Type.
  unfold ValidateContextHead. destruct (negb _); [done |]. destruct (_ || _); [done |]. destruct (negb _); [done |].
  rewrite ParseObject_nested. destruct (ParseObject _ _) as [e | n] eqn:E; [| by exists n]. intros ->. by apply ParseObject_error in E.
Qed.

Lemma pairing_object_ok i encoded : wf_pairing i -> EncodeObject kPairingContext (pairing_fields i) = inr encoded ->
  (exists k, ValidateEd25519PublicKey (pi_initiator_key i) = inr k) /\
  (exists k, ValidateEd25519PublicKey (pi_responder_key i) = inr k) /\
  (exists n, ParseObject (pi_negotiation i) (Some kNormalizedNegotiation) = inr n) /\
  bsize (pi_initiator_nonce i) = 32 /\ bsize (pi_responder_nonce i) = 32.
Proof.
  intros Hwf HE. destruct (pairing_fields_wf i Hwf) as [W1 W2].
  destruct (EncodeObject_fields_ok _ _ _ W1 W2 HE) as (Hok & _ & o & HA & HF).
  assert (HV : ValidatePairingObject o = kNone).
  { destruct HA as (_ & _ & _ & [| [= Hk]] & HV); [done |]. unfold ValidateSemanticObject in HV. by rewrite <- Hk in HV. }
  assert (F : forall k f, pairing_fields i !! k = Some f -> field o (fi_id f) = fi_value f).
  { intros k f Hf. apply (field_of_input _ _ _ _ _ HA HF). by apply (list_elem_of_lookup_2 _ k). }
  pose proof (F 5%nat _ eq_refl) as F6. pose proof (F 6%nat _ eq_refl) as F7. pose proof (F 8%nat _ eq_refl) as F9.
  cbn [fi_id fi_value] in F6, F7, F9. unfold ValidatePairingObject in HV.
  destruct (ValidateContextHead kPairContextLabel o) eqn:E1; try done. apply ValidateContextHead_inr in E1. rewrite F9 in E1.
  destruct (ValidateKeyField o 6) eqn:E2; try done. apply ValidateKeyField_inr in E2, HV. rewrite F6 in E2. rewrite F7 in HV.
  do 3 (split; [done |]).
  pose proof (ok_schema _ _ Hok) as HS. unfold SchemaForKind, kPairContextSchema, pairing_fields in HS. cbn [List.map input_of fi_id fi_value] in HS.
  repeat match goal with H : Forall2 _ (_ :: _) _ |- _ => apply list.Forall2_cons_1 in H as [[_ ?] H] end.
  cbn [fs_has_fixed_size fs_fixed_size snd] in *. auto.
Qed.

(** A pairing context is built only from keys that are points of the prime
    subgroup of the curve, nonces of thirty-two bytes and a negotiation that was
    not downgraded. *)
Theorem pairing_context_sound available i c : wf_pairing i -> BuildPairingContext available i = inr c ->
  (exists k, ValidateEd25519PublicKey (pi_initiator_key i) = inr k) /\
  (exists k, ValidateEd25519PublicKey (pi_responder_key i) = inr k) /\
  bsize (pi_initiator_nonce i) = 32 /\ bsize (pi_responder_nonce i) = 32 /\
  exists n, ParseObject (pi_negotiation i) (Some kNormalizedNegotiation) = inr n /\ negotiated n.
Proof.
  intros Hwf [HE _]%BuildContext_spec. destruct (pairing_object_ok i _ Hwf HE) as (K1 & K2 & (n & Hn) & N1 & N2).
  do 4 (split; [done |]). exists n. split; [done |]. apply (negotiation_sound (pi_negotiation i)); [apply Hwf | done].
Qed.

(** ** Device identifiers *)

Lemma LowercaseHex_inj l k : all_bytes l -> all_bytes k -> LowercaseHex l = LowercaseHex k -> l = k.
Proof using Type.
  intros Hl. revert k. induction Hl as [| x l Hx Hl IH]; intros [| y k] Hk E; try done. apply list.Forall_cons in Hk as [Hy Hk].
  cbn [LowercaseHex] in E. injection E as E1 E2 E. f_equal; [| by apply IH].
  unfold is_byte, in_width in Hx, Hy. rewrite pow2_256 in Hx, Hy.
  assert (D : forall a b, 0 <= a < 16 -> 0 <= b < 16 -> at_ kDigits a = at_ kDigits b -> a = b).
  { intros a b Ha Hb Eab. assert (N : NoDup kDigits) by (apply (bool_decide_eq_true_1 _); by vm_compute).
    assert (L : forall c, 0 <= c < 16 -> kDigits !! Z.to_nat c = Some (at_ kDigits c)).
    { intros c Hc. destruct (nth_lookup_or_length kDigits (Z.to_nat c) 0) as [E' | E']; [exact E' |].
      change (length kDigits) with 16%nat in E'. lia. }
    pose proof (L a Ha) as La. pose proof (L b Hb) as Lb. rewrite Eab in La. pose proof (NoDup_lookup _ _ _ _ N La Lb). lia. }
  rewrite !(Z.shiftr_div_pow2 _ 4) in E1 by lia. change 15 with (2 ^ 4 - 1) in E2. rewrite !land_mask in E2 by lia.
  change (2 ^ 4) with 16 in *. apply D in E1; [| zlia | zlia]. apply D in E2; [| zlia | zlia]. zlia.
Qed.

(** The identifier of a key that has one. *)
Lemma DeriveDeviceIdentifier_inr available key d : all_bytes key -> DeriveDeviceIdentifier available key = inr d ->
  available = true /\ (exists k, ValidateEd25519PublicKey key = inr k) /\
  di_digest d = sha256 (object_bytes kDeviceIdentifier (List.map input_of (identifier_fields key))) /\
  di_text d = LowercaseHex (di_digest d).
Proof.
  intros Hk. unfold DeriveDeviceIdentifier. destruct (EncodeObject _ _) as [| e] eqn:HE; [done |].
  assert (Hwf : wf_inputs (identifier_fields key)).
  { split; unfold identifier_fields; repeat match goal with |- Forall _ (_ :: _) => apply Forall_cons_2 | |- Forall _ [] => apply Forall_nil_2 end;
      cbn [fi_id fi_value]; try done. apply AsBytes_bytes. }
  destruct Hwf as [W1 W2]. destruct (EncodeObject_fields_ok _ _ _ W1 W2 HE) as (_ & -> & o & HA & HF).
  assert (HP : ParseObject (object_bytes kDeviceIdentifier (List.map input_of (identifier_fields key))) (Some kDeviceIdentifier) = inr o)
    by (by apply ParseObject_with_complete).
  unfold DeriveDeviceIdentifierEncoded, DecodeCanonicalObject, Sha256. rewrite HP. destruct available; [| done].
  intros [= <-]. split; [done |]. cbn [di_digest di_text co_encoded]. destruct HA as (HAe & HA2 & HA3 & [| [= Hkind]] & HV); [done |].
  split; [| by rewrite HAe].
  assert (HA : accepted ValidateSemanticObject (Some kDeviceIdentifier) (object_bytes kDeviceIdentifier (List.map input_of (identifier_fields key))) o).
  { split; [done |]. split; [done |]. split; [done |]. split; [right; by rewrite Hkind | done]. }
  pose proof (field_of_input _ _ _ _ {| fi_id := 2; fi_value := key |} HA HF) as F2. cbn [fi_id fi_value] in F2.
  unfold ValidateSemanticObject in HV. rewrite <- Hkind in HV. unfold ValidateDeviceIdentifierObject in HV.
  destruct (negb _); [done |]. apply ValidateKeyField_inr in HV. rewrite F2 in HV; [done |].
  apply (list_elem_of_lookup_2 _ 1%nat). done.
Qed.

Lemma LowercaseHex_text l : all_bytes l -> bsize (LowercaseHex l) = 2 * bsize l /\
  existsb (fun value => negb (is_lowercase_hex value)) (LowercaseHex l) = false.
Proof using Type.
  induction 1 as [| x l Hx Hl [IH1 IH2]]; [done |]. cbn [LowercaseHex existsb]. rewrite !bsize_cons, IH1, IH2. split; [lia |].
  unfold is_byte, in_width in Hx. rewrite pow2_256 in Hx.
  assert (D : forallb (fun n => is_lowercase_hex (at_ kDigits (Z.of_nat n))) (List.seq 0 16) = true) by by vm_compute.
  rewrite forallb_forall in D.
  assert (D' : forall a, 0 <= a < 16 -> is_lowercase_hex (at_ kDigits a) = true).
  { intros a Ha. specialize (D (Z.to_nat a)). rewrite Z2Nat.id in D by lia. apply D, in_seq. lia. }
  rewrite (Z.shiftr_div_pow2 _ 4) by lia. change 15 with (2 ^ 4 - 1). rewrite land_mask by lia. change (2 ^ 4) with 16.
  by rewrite !D' by zlia.
Qed.

Lemma VerifyDeviceIdentifierText_iff available key text : all_bytes key ->
  VerifyDeviceIdentifierText available key text = inr true <->
  exists d, DeriveDeviceIdentifier available key = inr d /\ text = LowercaseHex (di_digest d).
Proof.
  intros Hk. unfold VerifyDeviceIdentifierText, ConstantTimeEqual. split.
  - destruct (_ || _); [done |]. destruct (DeriveDeviceIdentifier available key) as [| d] eqn:E1; [done |].
    destruct (same_bytes (di_text d) text) eqn:E2; cbn [negb]; [| done]. apply same_bytes_true in E2. intros _.
    destruct (DeriveDeviceIdentifier_inr _ _ _ Hk E1) as (_ & _ & _ & T). exists d. by rewrite <- E2, T.
  - intros (d & E & ->). destruct (DeriveDeviceIdentifier_inr _ _ _ Hk E) as (_ & _ & D & T).
    assert (HB : all_bytes (di_digest d)) by (rewrite D; apply sha256_bytes).
    destruct (LowercaseHex_text (di_digest d) HB) as [L1 L2]. rewrite L1, L2, E, T, (proj2 (same_bytes_true _ _) eq_refl).
    assert (HS : bsize (di_digest d) = kSha256Size) by (rewrite D; apply sha256_size). by rewrite HS.
Qed.

Definition identifier_object (key : bytes) : bytes :=
  object_bytes kDeviceIdentifier (List.map input_of (identifier_fields key)).

(** The text of a device identifier is accepted exactly when the key has an
    identifier and the text is the lower-case hexadecimal of it; if it is
    accepted for another key too, the objects of the two keys are different
    messages with one SHA-256. *)
Theorem device_identifier_text available key text : all_bytes key ->
  (VerifyDeviceIdentifierText available key text = inr true <->
   exists d, DeriveDeviceIdentifier available key = inr d /\ text = LowercaseHex (di_digest d)) /\
  forall key', all_bytes key' -> VerifyDeviceIdentifierText available key text = inr true ->
    VerifyDeviceIdentifierText available key' text = inr true ->
    sha256 (identifier_object key) = sha256 (identifier_object key') /\
    (key <> key' -> identifier_object key <> identifier_object key').
Proof.
  intros Hk. split; [by apply VerifyDeviceIdentifierText_iff |]. intros key' Hk'.
  rewrite !VerifyDeviceIdentifierText_iff by done. intros (d & E & ->) (d' & E' & ET).
  destruct (DeriveDeviceIdentifier_inr _ _ _ Hk E) as (_ & _ & D & _), (DeriveDeviceIdentifier_inr _ _ _ Hk' E') as (_ & _ & D' & _).
  apply LowercaseHex_inj in ET; [| rewrite D; apply sha256_bytes | rewrite D'; apply sha256_bytes]. rewrite D, D' in ET.
  split; [exact ET |]. intros Hne EO.
  apply Hne. pose proof (f_equal (drop 56) EO) as ED. change (key ++ [] = key' ++ []) in ED. by rewrite !app_nil_r in ED.
Qed.

(** The words shown to the users keep all the bits they are made of: there are
    five of them, each below 2048, and written one after the other they are the
    highest fifty-five of the fifty-six bits derived from the exported secret
    and the context. *)
Theorem sas_words_faithful available exporter context words :
  DeriveSasWords available exporter context = inr words ->
  length (sas_indices words) = 5%nat /\ Forall (fun i => 0 <= i < 2048) (sas_indices words) /\
  words_value (sas_indices words) = be_value (sas_expanded words) / 2 /\
  sas_expanded words = take 7 (hmac_sha256 exporter (co_encoded (sas_information words) ++ [1])).
Proof.
  unfold DeriveSasWords. destruct (EncodeObject _ _) as [| info]; [done |].
  destruct (HkdfExpandSha256Secure _ _ _ _) as [| expanded] eqn:E; [done |]. intros [= <-]. cbn [sas_indices sas_expanded sas_information co_encoded].
  assert (Hex : expanded = take 7 (hmac_sha256 exporter (info ++ [1]))).
  { unfold HkdfExpandSha256Secure in E. destruct (_ || _) eqn:E1; [done |]. apply orb_false_iff in E1 as [E1 _].
    apply orb_false_iff in E1 as [E1 _]. bool_facts. revert E. change hkdf_rounds with (S 254).
    destruct (HkdfExpand_loop (S 254) available exporter info [] 1 [] 7) as [r |] eqn:EL; [| done]. intros ->.
    apply (first_block 254 available exporter info expanded E1 ltac:(lia) EL). }
  assert (HS : bsize (hmac_sha256 exporter (info ++ [1])) = 32) by apply hmac_sha256_size.
  destruct (sas_index_list_spec expanded) as [I1 I2].
  { rewrite Hex. apply Forall_take, hmac_sha256_bytes. } { rewrite Hex. unfold bsize in *. rewrite length_take. lia. }
  done.
Qed.

End Proofs.

Module SecurityProfileExample.
Import Ed25519Points CanonicalObjectsExample.

(** Functions of the right lengths. *)
#[local] Instance example_crypto : Sha256Crypto := {
  sha256 message := be_bytes 32 (be_value message);
  hmac_sha256 key message := be_bytes 32 (be_value (key ++ message));
  sha256_size _ := bsize_be_bytes 32 _;
  sha256_bytes _ := all_bytes_be_bytes 32 _;
  hmac_sha256_size _ _ := bsize_be_bytes 32 _;
  hmac_sha256_bytes _ _ := all_bytes_be_bytes 32 _;
}.

Definition input : PairingContextInput :=
  {| pi_initiator_nonce := repeat 7 32; pi_responder_nonce := repeat 9 32; pi_initiator_key := base_point;
     pi_responder_key := base_point; pi_negotiation := encoding |}.

Lemma input_wf : wf_pairing input.
Proof. repeat split; apply (bool_decide_eq_true_1 _); by vm_compute. Qed.

Definition context : Context :=
  let encoded := object_bytes kPairingContext (List.map input_of (pairing_fields input)) in
  {| cx_encoded := encoded; cx_digest := sha256 encoded |}.

(** The object of the context, as it is parsed. *)
Definition parsed_context : ParsedObject :=
  {| po_kind := kPairingContext; po_encoded := cx_encoded context;
     po_fields := List.map (fun f => {| pf_id := fi_id f; pf_value := fi_value f |}) (pairing_fields input) |}.

Lemma parsed_context_valid : ValidatePairingObject parsed_context = kNone.
Proof.
  unfold ValidatePairingObject. assert (E : ValidateContextHead kPairContextLabel parsed_context = kNone) by by lazy.
  rewrite E. unfold ValidateKeyField.
  assert (E6 : field parsed_context 6 = base_point) by by lazy. assert (E7 : field parsed_context 7 = base_point) by by lazy.
  by rewrite E6, E7, base_point_valid.
Qed.

Lemma parsed_context_accepted : accepted ValidateSemanticObject (Some kPairingContext) (cx_encoded context) parsed_context.
Proof.
  split; [done |]. split; [done |]. split; [| split; [by right | exact parsed_context_valid]]. split.
  - change (Forall2 fits kPairContextSchema (List.map input_of (pairing_fields input))).
    unfold kPairContextSchema, pairing_fields. cbn [List.map]. repeat (apply Forall2_cons_2; [split; [done | by intros] |]). constructor.
  - change (Forall (fun f => all_bytes f.2) (List.map input_of (pairing_fields input))). apply List.Forall_map.
    apply pairing_fields_wf, input_wf.
  - by lazy.
Qed.

Lemma context_encoded : EncodeObject kPairingContext (pairing_fields input) = inr (cx_encoded context).
Proof.
  apply EncodeObject_iff. split; [done |]. split; [by lazy |]. split; [by lazy |]. split; [by lazy |].
  exists parsed_context. apply ParseObject_with_complete, parsed_context_accepted.
Qed.

Lemma context_built : BuildPairingContext true input = inr context.
Proof. unfold BuildPairingContext, BuildContext. by rewrite context_encoded. Qed.

Lemma hkdf_expand_exact_witness : 0 <= 40 /\
  HkdfExpandSha256Secure true (repeat 1 32) [2] 40 = inr (take 40 (hkdf_blocks 255 (repeat 1 32) [2] [] 1)).
Proof. split; [lia |]. apply (hkdf_expand_exact (repeat 1 32) [2] 40). lia. Defined.

Lemma contexts_bind_inputs_witness :
  cx_digest context = sha256 (cx_encoded context) /\
  (cx_encoded context = cx_encoded context <-> same_inputs (InPairing input) (InPairing input)).
Proof.
  destruct (contexts_bind_inputs (InPairing input) (InPairing input) true true context context
    input_wf input_wf context_built context_built) as (Hd & _ & Hs).
  split; [exact Hd | exact Hs].
Defined.

Lemma pairing_context_sound_witness :
  (exists k, ValidateEd25519PublicKey base_point = inr k) /\
  (exists k, ValidateEd25519PublicKey base_point = inr k) /\ bsize (repeat 7 32) = 32 /\ bsize (repeat 9 32) = 32 /\
  exists n, ParseObject encoding (Some kNormalizedNegotiation) = inr n /\ negotiated n.
Proof. exact (pairing_context_sound true input context input_wf context_built). Defined.

Lemma trust_commit_iff_witness :
  let message := confirmation_message context Role.kResponder ConfirmationDecision.kConfirm in
  exists v, RequireTrustCommit true (repeat 3 32) message (hmac_sha256 (repeat 3 32) message) context Role.kResponder
    ConfirmationDecision.kConfirm = inr v /\ cv_trust_commit_permitted v = true.
Proof.
  eexists. split; [apply trust_commit_iff; [apply sha256_size |]; repeat split | done].
Defined.

(** The confirmation of the other role is not accepted. *)
Example reflected_confirmation_refused :
  let message := confirmation_message context Role.kInitiator ConfirmationDecision.kConfirm in
  RequireTrustCommit true (repeat 3 32) message (hmac_sha256 (repeat 3 32) message) context Role.kResponder
    ConfirmationDecision.kConfirm = inl kRoleMismatch.
Proof. by lazy. Qed.

Lemma sas_words_faithful_witness : exists words, DeriveSasWords true (repeat 1 32) context = inr words /\
  length (sas_indices words) = 5%nat.
Proof.
  destruct (DeriveSasWords true (repeat 1 32) context) as [e | words] eqn:E; [by lazy in E |]. exists words.
  split; [done |]. apply (sas_words_faithful true (repeat 1 32) context words E).
Defined.

End SecurityProfileExample.
