(* ===== verification/SessionWire.v ===== *)
(** * The wire format of pairing

    [native/src/session/wire.cpp] with the types of
    [native/include/xnn_transfer/core/session/session.hpp] and
    [native/src/session/internal.hpp] it works on: the frames two devices
    exchange while they pair, the messages in them, the rules of an offer, the
    selection both sides compute and the negotiation object built from it.

    A span is the list of its bytes; the loop over the fields of a frame keeps
    what is left of it after [offset].  A function with an output argument
    returns an error or the value, [inl] or [inr].  [Version] and [VersionRange]
    have the members of the structs of the canonical objects and are those of
    [CanonicalObjects]; a validated public key is its bytes.  Allocations
    succeed. *)

From S2P Require Import Prelude.
From S2P Require Import V1Transcript.
From S2P Require Import Transfer.
From S2P Require Import SecurityTypes.
From S2P Require Import Ed25519.
From S2P Require Import CanonicalObjects.
From S2P Require Import SecurityProfile.

Module SessionWire.
Import SecurityTypes Ed25519.

(** ** Types *)

Definition kAttemptHandleSize : Z := 16.
Definition kPairingFrameHeaderSize : Z := 20.
Definition kMaxPairingBodySize : Z := 4096.
Definition kMaxPairingFields : nat := 16.

Module PairingError.
Inductive PairingError :=
  | kNone
  | kMalformed
  | kLimitExceeded
  | kSequenceViolation
  | kUnsupportedVersion
  | kUnsupportedProfile
  | kDowngradeDetected
  | kRoleMismatch
  | kStateViolation
  | kReplayDetected
  | kConfirmationFailed
  | kAuthenticatedReject
  | kLocalReject
  | kAlreadyDecided
  | kCancelled
  | kTimeout
  | kBusy
  | kCertificateRejected
  | kInternalFailure.
End PairingError.
#[global] Instance pairing_error_eq_dec : EqDecision PairingError.PairingError.
Proof. solve_decision. Defined.

Abbreviation Version := CanonicalObjects.Version.
Abbreviation VersionRange := CanonicalObjects.VersionRange.
Abbreviation v_major := CanonicalObjects.v_major.
Abbreviation v_minor := CanonicalObjects.v_minor.
Abbreviation minimum := CanonicalObjects.minimum.
Abbreviation maximum := CanonicalObjects.maximum.

Record ReceiveLimits := {
  max_body : Z;
  max_in_flight : Z;
  max_streams : Z;
}.
#[global] Instance receive_limits_eq_dec : EqDecision ReceiveLimits.
Proof. solve_decision. Defined.

Record NegotiationOffer := {
  versions : VersionRange;
  offered_capabilities : list Z;
  required_capabilities : list Z;
  receive_limits : ReceiveLimits;
}.

Module PairingMessageType.
Inductive PairingMessageType := kHello | kSelect | kSelectAck | kDecision | kAbort.
End PairingMessageType.
#[global] Instance pairing_message_type_eq_dec : EqDecision PairingMessageType.PairingMessageType.
Proof. solve_decision. Defined.

Definition message_code (type : PairingMessageType.PairingMessageType) : Z :=
  match type with
  | PairingMessageType.kHello => 1
  | PairingMessageType.kSelect => 2
  | PairingMessageType.kSelectAck => 3
  | PairingMessageType.kDecision => 4
  | PairingMessageType.kAbort => 5
  end.

Module WireType.
Inductive WireType := kU8 | kU16 | kU32 | kU64 | kBytes.
End WireType.
#[global] Instance session_wire_type_eq_dec : EqDecision WireType.WireType.
Proof. solve_decision. Defined.

Definition wire_code (type : WireType.WireType) : Z :=
  match type with
  | WireType.kU8 => 1 | WireType.kU16 => 2 | WireType.kU32 => 3 | WireType.kU64 => 4 | WireType.kBytes => 5
  end.

Record Field := {
  f_id : Z;
  f_type : WireType.WireType;
  f_value : bytes;
}.

Record Frame := {
  fr_type : PairingMessageType.PairingMessageType;
  fr_sequence : Z;
  fr_fields : list Field;
}.

Record Hello := {
  h_role : Role.Role;
  h_nonce : bytes;
  h_key : option bytes;
  h_offer : NegotiationOffer;
}.
#[global] Instance eta_Hello : Eta Hello := fun x =>
  {| h_role := h_role x; h_nonce := h_nonce x; h_key := h_key x; h_offer := h_offer x |}.

Record Selection := {
  s_version : Version;
  s_capabilities : list Z;
  s_limits : ReceiveLimits;
}.
#[global] Instance selection_eq_dec : EqDecision Selection.
Proof. solve_decision. Defined.

Record Decision := {
  d_message : bytes;
  d_authenticator : bytes;
}.

(** ** Constants *)

Definition kPairingMagic : bytes := [0x58; 0x4e; 0x4e; 0x50].
Definition kCanonicalMagic : bytes := [0x58; 0x4e; 0x4e; 0x53].
Definition kBaseTransferV1 : Z := 0x00010001.
Definition kResumeV1 : Z := 0x00020001.
Definition kParallelFilesV1 : Z := 0x00030001.
Definition kMinimumReceiveBody : Z := 8192.
Definition kMaximumReceiveBody : Z := 1048576.
Definition kMinimumReceiveInFlight : Z := 1048576.
Definition kMaximumReceiveInFlight : Z := 67108864.
Definition kMaximumReceiveStreams : Z := 32.
Definition kMaximumCapabilities : Z := 256.

(** ** Integers *)

Definition ReadU16 (l : bytes) : Z := u16 (Z.lor (u16 (Z.shiftl (at_ l 0) 8)) (at_ l 1)).

(** The loop of [ReadU32] over the first four bytes. *)
Definition ReadU32 (l : bytes) : Z :=
  fold_left (fun value byte => u32 (Z.lor (Z.shiftl value 8) byte)) (take 4 l) 0.

Definition AppendU16 (output : bytes) (value : Z) : bytes := output ++ [u8 (Z.shiftr value 8); u8 value].
Definition AppendU32 (output : bytes) (value : Z) : bytes :=
  output ++ [u8 (Z.shiftr value 24); u8 (Z.shiftr value 16); u8 (Z.shiftr value 8); u8 value].

Definition U8 (value : Z) : bytes := [value].
Definition U16 (value : Z) : bytes := AppendU16 [] value.

Definition EncodeVersionRange (range : VersionRange) : bytes :=
  [v_major (minimum range); v_minor (minimum range); v_major (maximum range); v_minor (maximum range)].

Definition EncodeVersion (version : Version) : bytes := [v_major version; v_minor version].

Definition EncodeCapabilities (capabilities : list Z) : bytes :=
  fold_left AppendU32 capabilities (AppendU16 [] (u16 (Z.of_nat (length capabilities)))).

Definition EncodeLimits (limits : ReceiveLimits) : bytes :=
  AppendU16 (AppendU32 (AppendU32 [] (max_body limits)) (max_in_flight limits)) (max_streams limits).

(** [IsKnownPairingType] and [static_cast<PairingMessageType>]. *)
Definition message_type_of_code (value : Z) : option PairingMessageType.PairingMessageType :=
  List.find (fun type => message_code type =? value)
    [PairingMessageType.kHello; PairingMessageType.kSelect; PairingMessageType.kSelectAck;
     PairingMessageType.kDecision; PairingMessageType.kAbort].

Definition IsKnownPairingType (value : Z) : bool :=
  (value >=? message_code PairingMessageType.kHello) && (value <=? message_code PairingMessageType.kAbort).

(** [IsKnownWireType] and [static_cast<WireType>]. *)
Definition wire_type_of_code (value : Z) : option WireType.WireType :=
  List.find (fun type => wire_code type =? value)
    [WireType.kU8; WireType.kU16; WireType.kU32; WireType.kU64; WireType.kBytes].

Definition FixedLength (type : WireType.WireType) : Z :=
  match type with
  | WireType.kU8 => 1 | WireType.kU16 => 2 | WireType.kU32 => 4 | WireType.kU64 => 8 | WireType.kBytes => 0
  end.

(** ** Capabilities *)

(** [std::is_sorted], [std::adjacent_find] and the loop over neighbours are the
    ones of [CanonicalObjects]. *)
Definition HasCanonicalCapabilities (capabilities : list Z) : bool :=
  if (Z.of_nat (length capabilities) =? 0) || (Z.of_nat (length capabilities) >? kMaximumCapabilities) ||
     negb (CanonicalObjects.is_sorted capabilities) || CanonicalObjects.adjacent_equal capabilities then false
  else negb (CanonicalObjects.adjacent_family capabilities).

Definition DecodeCapabilities (encoded : bytes) : PairingError.PairingError + list Z :=
  if bsize encoded <? 2 then inl PairingError.kMalformed
  else
  let count := ReadU16 (take 2 encoded) in
  if (count =? 0) || (count >? kMaximumCapabilities) || negb (bsize encoded =? 2 + count * 4) then
    inl PairingError.kMalformed
  else
  let output := List.map (fun index => ReadU32 (subspan encoded (2 + Z.of_nat index * 4) 4)) (List.seq 0 (Z.to_nat count)) in
  if HasCanonicalCapabilities output then inr output else inl PairingError.kMalformed.

(** [std::includes] on two sorted ranges. *)
Fixpoint includes (first1 first2 : list Z) : bool :=
  match first2 with
  | [] => true
  | y :: first2' =>
      match first1 with
      | [] => false
      | x :: first1' =>
          if y <? x then false else if negb (x <? y) then includes first1' first2' else includes first1' first2
      end
  end.

(** [std::set_intersection] of two sorted ranges. *)
Fixpoint set_intersection (first1 : list Z) : list Z -> list Z :=
  match first1 with
  | [] => fun _ => []
  | x :: first1' =>
      fix second_loop (first2 : list Z) : list Z :=
        match first2 with
        | [] => []
        | y :: first2' =>
            if x <? y then set_intersection first1' first2
            else if negb (y <? x) then x :: set_intersection first1' first2'
            else second_loop first2'
        end
  end.

(** ** Frames *)

(** The loop of [HasFields] from the field at [index] on. *)
Fixpoint HasFields_loop (fields : list Field) (index : Z) (types : list WireType.WireType) : bool :=
  match fields, types with
  | f :: fields, type :: types =>
      if negb (f_id f =? index + 1) || negb (bool_decide (f_type f = type)) then false
      else HasFields_loop fields (index + 1) types
  | _, _ => true
  end.

Definition HasFields (frame : Frame) (types : list WireType.WireType) : bool :=
  if negb (Nat.eqb (length (fr_fields frame)) (length types)) then false
  else HasFields_loop (fr_fields frame) 0 types.

(** One round of the loop of [EncodeFrame]. *)
Definition AppendField (body : bytes) (f : Field) : bytes :=
  let body := AppendU16 body (f_id f) in
  let body := body ++ [wire_code (f_type f)] in
  let body := body ++ [1] in
  let body := AppendU32 body (u32 (bsize (f_value f))) in
  body ++ f_value f.

Definition EncodeFrame (type : PairingMessageType.PairingMessageType) (sequence : Z) (fields : list Field) : bytes :=
  let body := fold_left AppendField fields [] in
  if bsize body >? kMaxPairingBodySize then []
  else
  let output := kPairingMagic in
  let output := AppendU16 output (u16 kPairingFrameHeaderSize) in
  let output := output ++ [1] in
  let output := output ++ [0] in
  let output := AppendU16 output (message_code type) in
  let output := AppendU16 output 0 in
  let output := AppendU32 output sequence in
  let output := AppendU32 output (u32 (bsize body)) in
  output ++ body.

Record CanonicalField := {
  c_id : Z;
  c_value : bytes;
}.

(** One round of the loop of [EncodeNormalizedObject]. *)
Definition AppendCanonicalField (body : bytes) (f : CanonicalField) : bytes :=
  AppendU32 (AppendU16 body (c_id f)) (u32 (bsize (c_value f))) ++ c_value f.

Definition EncodeNormalizedObject (fields : list CanonicalField) : bytes :=
  let body := fold_left AppendCanonicalField fields [] in
  let output := kCanonicalMagic in
  let output := output ++ [1] in
  let output := output ++ [kind_code CanonicalObjectKind.kNormalizedNegotiation] in
  let output := AppendU16 output (u16 (Z.of_nat (length fields))) in
  let output := AppendU32 output (u32 (bsize body)) in
  output ++ body.

Definition VersionLess (left right : Version) : bool :=
  (v_major left <? v_major right) || ((v_major left =? v_major right) && (v_minor left <? v_minor right)).

Definition OppositeRole (role : Role.Role) : Role.Role :=
  match role with Role.kInitiator => Role.kResponder | Role.kResponder => Role.kInitiator end.

Definition ValidateFrameHeader (encoded : bytes) : PairingError.PairingError :=
  if (bsize encoded <? kPairingFrameHeaderSize) || negb (same_bytes (take 4 encoded) kPairingMagic) ||
     negb (ReadU16 (subspan encoded 4 2) =? kPairingFrameHeaderSize) then PairingError.kMalformed
  else if negb (at_ encoded 6 =? 1) || negb (at_ encoded 7 =? 0) then PairingError.kUnsupportedVersion
  else
  let type := ReadU16 (subspan encoded 8 2) in
  if negb (IsKnownPairingType type) || negb (ReadU16 (subspan encoded 10 2) =? 0) then PairingError.kMalformed
  else if ReadU32 (subspan encoded 16 4) >? kMaxPairingBodySize then PairingError.kLimitExceeded
  else PairingError.kNone.

(** The loop of [ParseFrame] with room for [remaining] fields. *)
Fixpoint ParseFrame_loop (remaining : nat) (previous_id : Z) (rest : bytes)
    : PairingError.PairingError + list Field :=
  if bsize rest =? 0 then inr []
  else
  match remaining with
  | O => inl PairingError.kMalformed
  | S remaining =>
      if bsize rest <? 8 then inl PairingError.kMalformed
      else
      let id := ReadU16 (subspan rest 0 2) in
      let raw_type := at_ rest 2 in
      let flags := at_ rest 3 in
      let value_length := ReadU32 (subspan rest 4 4) in
      let rest := drop 8 rest in
      match wire_type_of_code raw_type with
      | None => inl PairingError.kMalformed
      | Some wire_type =>
          if (id =? 0) || (id <=? previous_id) || negb (flags =? 1) || (value_length >? bsize rest) then
            inl PairingError.kMalformed
          else
          let fixed_length := FixedLength wire_type in
          if negb (fixed_length =? 0) && negb (value_length =? fixed_length) then inl PairingError.kMalformed
          else
          let f := {| f_id := id; f_type := wire_type; f_value := subspan rest 0 value_length |} in
          match ParseFrame_loop remaining id (drop (Z.to_nat value_length) rest) with
          | inl error => inl error
          | inr fields => inr (f :: fields)
          end
      end
  end.

Definition ParseFrame (encoded : bytes) : PairingError.PairingError + Frame :=
  match ValidateFrameHeader encoded with
  | PairingError.kNone =>
      let body_length := ReadU32 (subspan encoded 16 4) in
      if negb (bsize encoded =? kPairingFrameHeaderSize + body_length) then inl PairingError.kMalformed
      else
      match message_type_of_code (ReadU16 (subspan encoded 8 2)) with
      | None => inl PairingError.kMalformed
      | Some type =>
          match ParseFrame_loop kMaxPairingFields 0 (drop 20 encoded) with
          | inl error => inl error
          | inr fields =>
              inr {| fr_type := type; fr_sequence := ReadU32 (subspan encoded 12 4); fr_fields := fields |}
          end
      end
  | error => inl error
  end.

(** ** Offers *)

Definition ValidateOffer (offer : NegotiationOffer) : PairingError.PairingError :=
  let lower := minimum (versions offer) in
  let upper := maximum (versions offer) in
  let limits := receive_limits offer in
  if (v_major lower =? 0) || (v_major upper =? 0) || VersionLess upper lower ||
     negb (HasCanonicalCapabilities (offered_capabilities offer)) ||
     negb (HasCanonicalCapabilities (required_capabilities offer)) ||
     negb (includes (offered_capabilities offer) (required_capabilities offer)) ||
     negb (binary_search (offered_capabilities offer) kBaseTransferV1) ||
     negb (binary_search (required_capabilities offer) kBaseTransferV1) ||
     (max_body limits <? kMinimumReceiveBody) || (max_body limits >? kMaximumReceiveBody) ||
     (max_in_flight limits <? kMinimumReceiveInFlight) || (max_in_flight limits >? kMaximumReceiveInFlight) ||
     (max_streams limits =? 0) || (max_streams limits >? kMaximumReceiveStreams) then PairingError.kMalformed
  else if existsb (fun required => negb (required =? kBaseTransferV1) && negb (required =? kResumeV1) &&
                                   negb (required =? kParallelFilesV1)) (required_capabilities offer) then
    PairingError.kMalformed
  else PairingError.kNone.

(** ** Messages *)

Definition nth_value (frame : Frame) (index : nat) : bytes :=
  match fr_fields frame !! index with Some f => f_value f | None => [] end.

Definition kHelloTypes : list WireType.WireType :=
  [WireType.kU8; WireType.kBytes; WireType.kBytes; WireType.kU16;
   WireType.kBytes; WireType.kBytes; WireType.kBytes; WireType.kBytes].

Definition DecodeLimits (value : bytes) : ReceiveLimits :=
  {| max_body := ReadU32 (subspan value 0 4); max_in_flight := ReadU32 (subspan value 4 4);
     max_streams := ReadU16 (subspan value 8 2) |}.

Definition DecodeHello (frame : Frame) (expected_role : Role.Role) (expected_key : bytes)
    : PairingError.PairingError + Hello :=
  let value := nth_value frame in
  if negb (bool_decide (fr_type frame = PairingMessageType.kHello)) || negb (HasFields frame kHelloTypes) ||
     negb (bsize (value 1%nat) =? 32) || negb (bsize (value 2%nat) =? 32) ||
     negb (bsize (value 4%nat) =? 4) || negb (bsize (value 7%nat) =? 10) then inl PairingError.kMalformed
  else if negb (at_ (value 0%nat) 0 =? role_code expected_role) then inl PairingError.kRoleMismatch
  else if negb (ReadU16 (value 3%nat) =? kSecurityProfileV1) then inl PairingError.kUnsupportedProfile
  else
  match ValidateEd25519PublicKey (value 2%nat) with
  | inl _ => inl PairingError.kCertificateRejected
  | inr key =>
  if negb (same_bytes key expected_key) then inl PairingError.kCertificateRejected
  else
  match DecodeCapabilities (value 5%nat) with
  | inl error => inl error
  | inr offered =>
  match DecodeCapabilities (value 6%nat) with
  | inl error => inl error
  | inr required =>
      let offer :=
        {| versions :=
             {| CanonicalObjects.minimum :=
                  {| CanonicalObjects.v_major := at_ (value 4%nat) 0; CanonicalObjects.v_minor := at_ (value 4%nat) 1 |};
                CanonicalObjects.maximum :=
                  {| CanonicalObjects.v_major := at_ (value 4%nat) 2; CanonicalObjects.v_minor := at_ (value 4%nat) 3 |} |};
           offered_capabilities := offered; required_capabilities := required;
           receive_limits := DecodeLimits (value 7%nat) |} in
      match ValidateOffer offer with
      | PairingError.kNone =>
          inr {| h_role := expected_role; h_nonce := value 1%nat; h_key := Some key; h_offer := offer |}
      | error => inl error
      end
  end end end.

(** The limits of the two sides, the smaller ones. *)
Definition min_limits (a b : ReceiveLimits) : ReceiveLimits :=
  {| max_body := Z.min (max_body a) (max_body b); max_in_flight := Z.min (max_in_flight a) (max_in_flight b);
     max_streams := Z.min (max_streams a) (max_streams b) |}.

Definition Select (initiator responder : NegotiationOffer) : PairingError.PairingError + Selection :=
  match ValidateOffer initiator, ValidateOffer responder with
  | PairingError.kNone, PairingError.kNone =>
      let lower :=
        if VersionLess (minimum (versions initiator)) (minimum (versions responder))
        then minimum (versions responder) else minimum (versions initiator) in
      let upper :=
        if VersionLess (maximum (versions initiator)) (maximum (versions responder))
        then maximum (versions initiator) else maximum (versions responder) in
      if VersionLess upper lower then inl PairingError.kUnsupportedVersion
      else
      let selected := set_intersection (offered_capabilities initiator) (offered_capabilities responder) in
      if negb (includes selected (required_capabilities initiator)) ||
         negb (includes selected (required_capabilities responder)) ||
         negb (binary_search selected kBaseTransferV1) then inl PairingError.kMalformed
      else
      inr {| s_version := upper; s_capabilities := selected;
             s_limits := min_limits (receive_limits initiator) (receive_limits responder) |}
  | _, _ => inl PairingError.kMalformed
  end.

Definition DecodeSelection (frame : Frame) : PairingError.PairingError + Selection :=
  let value := nth_value frame in
  if (negb (bool_decide (fr_type frame = PairingMessageType.kSelect)) &&
      negb (bool_decide (fr_type frame = PairingMessageType.kSelectAck))) ||
     negb (HasFields frame [WireType.kBytes; WireType.kBytes; WireType.kBytes]) ||
     negb (bsize (value 0%nat) =? 2) || negb (bsize (value 2%nat) =? 10) then inl PairingError.kMalformed
  else
  match DecodeCapabilities (value 1%nat) with
  | inl error => inl error
  | inr capabilities =>
      inr {| s_version :=
               {| CanonicalObjects.v_major := at_ (value 0%nat) 0; CanonicalObjects.v_minor := at_ (value 0%nat) 1 |};
             s_capabilities := capabilities; s_limits := DecodeLimits (value 2%nat) |}
  end.

Definition DecodeDecision (frame : Frame) : PairingError.PairingError + Decision :=
  let value := nth_value frame in
  if negb (bool_decide (fr_type frame = PairingMessageType.kDecision)) ||
     negb (HasFields frame [WireType.kBytes; WireType.kBytes]) ||
     negb (bsize (value 0%nat) =? 34) || negb (bsize (value 1%nat) =? 32) then inl PairingError.kMalformed
  else inr {| d_message := value 0%nat; d_authenticator := value 1%nat |}.

Definition DecodeAbort (frame : Frame) : PairingError.PairingError :=
  if negb (bool_decide (fr_type frame = PairingMessageType.kAbort)) || negb (HasFields frame [WireType.kU16]) then
    PairingError.kMalformed
  else
  let code := ReadU16 (nth_value frame 0) in
  if (code >=? 1) && (code <=? 4) then PairingError.kNone else PairingError.kMalformed.

Definition negotiation_fields (initiator responder : NegotiationOffer) (selection : Selection) : list CanonicalField :=
  [{| c_id := 1; c_value := U8 (role_code Role.kInitiator) |};
   {| c_id := 2; c_value := EncodeVersionRange (versions initiator) |};
   {| c_id := 3; c_value := EncodeCapabilities (offered_capabilities initiator) |};
   {| c_id := 4; c_value := EncodeCapabilities (required_capabilities initiator) |};
   {| c_id := 5; c_value := EncodeLimits (receive_limits initiator) |};
   {| c_id := 6; c_value := U8 (role_code Role.kResponder) |};
   {| c_id := 7; c_value := EncodeVersionRange (versions responder) |};
   {| c_id := 8; c_value := EncodeCapabilities (offered_capabilities responder) |};
   {| c_id := 9; c_value := EncodeCapabilities (required_capabilities responder) |};
   {| c_id := 10; c_value := EncodeLimits (receive_limits responder) |};
   {| c_id := 11; c_value := EncodeVersion (s_version selection) |};
   {| c_id := 12; c_value := EncodeCapabilities (s_capabilities selection) |};
   {| c_id := 13; c_value := EncodeLimits (s_limits selection) |}].

Definition BuildNormalizedNegotiation (initiator responder : Hello) (selection : Selection) : Result bytes :=
  CanonicalObjects.DecodeNormalizedNegotiation
    (EncodeNormalizedObject (negotiation_fields (h_offer initiator) (h_offer responder) selection)).

#[local] Notation "'fld' i t v" := {| f_id := i; f_type := t; f_value := v |}
  (at level 10, i at level 9, t at level 9, v at level 9).

Definition hello_fields (role : Role.Role) (key nonce : bytes) (offer : NegotiationOffer) : list Field :=
  [fld 1 WireType.kU8 (U8 (role_code role));
   fld 2 WireType.kBytes nonce;
   fld 3 WireType.kBytes key;
   fld 4 WireType.kU16 (U16 kSecurityProfileV1);
   fld 5 WireType.kBytes (EncodeVersionRange (versions offer));
   fld 6 WireType.kBytes (EncodeCapabilities (offered_capabilities offer));
   fld 7 WireType.kBytes (EncodeCapabilities (required_capabilities offer));
   fld 8 WireType.kBytes (EncodeLimits (receive_limits offer))].

Definition EncodeHello (sequence : Z) (role : Role.Role) (key nonce : bytes) (offer : NegotiationOffer) : bytes :=
  EncodeFrame PairingMessageType.kHello sequence (hello_fields role key nonce offer).

Definition selection_fields (selection : Selection) : list Field :=
  [fld 1 WireType.kBytes (EncodeVersion (s_version selection));
   fld 2 WireType.kBytes (EncodeCapabilities (s_capabilities selection));
   fld 3 WireType.kBytes (EncodeLimits (s_limits selection))].

Definition EncodeSelection (type : PairingMessageType.PairingMessageType) (sequence : Z) (selection : Selection)
    : bytes :=
  EncodeFrame type sequence (selection_fields selection).

Definition EncodeDecision (sequence : Z) (decision : SecurityProfile.AuthenticatedValue) : bytes :=
  EncodeFrame PairingMessageType.kDecision sequence
    [fld 1 WireType.kBytes (SecurityProfile.av_message decision);
     fld 2 WireType.kBytes (SecurityProfile.av_authenticator decision)].

Definition EncodeAbort (sequence public_code : Z) : bytes :=
  EncodeFrame PairingMessageType.kAbort sequence [fld 1 WireType.kU16 (U16 public_code)].

End SessionWire.
