(* ===== verification/SessionWireProofs.v ===== *)
(** * Correctness of the wire format of pairing

    The parser of frames accepts exactly the encodings of well-formed frames;
    the messages are decoded to what they were encoded from; the selection the
    session computes from two offers is the only one the security profile
    accepts as a negotiation of them. *)

From Stdlib Require Import Sorted.
From S2P Require Import Prelude.
From S2P Require Import V1Parser.
From S2P Require Import V1ParserProofs.
From S2P Require Import V1Transcript.
From S2P Require Import V1TranscriptProofs.
From S2P Require Import Transfer.
From S2P Require Import FieldBlocks.
From S2P Require Import SecurityTypes.
From S2P Require Import Ed25519.
From S2P Require Import CanonicalObjects.
From S2P Require Import CanonicalObjectsProofs.
From S2P Require Import SecurityProfile.
From S2P Require Import SessionWire.
Import SecurityTypes Ed25519 CanonicalObjects SecurityProfile SessionWire.

(** ** Integers *)

Lemma ReadU16_v1 l : all_bytes l -> ReadU16 l = V1Parser.ReadU16 l.
Proof.
  intros H. unfold ReadU16, V1Parser.ReadU16. do 2 f_equal. apply wrap_small.
  pose proof (at_byte l 0 H) as B. rewrite Z.shiftl_mul_pow2 by lia. unfold is_byte in B. widths.
Qed.

Lemma ReadU32_v1 l : ReadU32 l = V1Parser.ReadU32 l.
Proof. done. Qed.

Lemma AppendU16_be l v : AppendU16 l v = l ++ be_bytes 2 v.
Proof. exact (AppendU16_bytes l v). Qed.

Lemma AppendU32_be l v : AppendU32 l v = l ++ be_bytes 4 v.
Proof. exact (AppendU32_bytes l v). Qed.

Lemma pairing_ReadU16_be v : in_width 16 v -> ReadU16 (be_bytes 2 v) = v.
Proof. intros. rewrite ReadU16_v1 by auto with xnn. by apply ReadU16_bytes. Qed.

Lemma pairing_ReadU32_be v : in_width 32 v -> ReadU32 (be_bytes 4 v) = v.
Proof. apply ReadU32_bytes. Qed.

Lemma ReadU16_subspan l o n : all_bytes l -> ReadU16 (subspan l o n) = V1Parser.ReadU16 (subspan l o n).
Proof. intros. apply ReadU16_v1. auto with xnn. Qed.

(** A number is written from its lowest bytes. *)
Lemma be_bytes_wrap n v : 0 <= v < 2 ^ 32 -> be_bytes n (u32 v) = be_bytes n v.
Proof. intros. by rewrite wrap_small. Qed.

(** ** Frames *)

Definition pairing_field (f : Field) : bytes :=
  be_bytes 2 (f_id f) ++ [wire_code (f_type f); 1] ++ be_bytes 4 (bsize (f_value f)) ++ f_value f.

Definition pairing_body (fields : list Field) : bytes := concat (List.map pairing_field fields).

Definition pairing_frame (frame : Frame) : bytes :=
  kPairingMagic ++ be_bytes 2 kPairingFrameHeaderSize ++ [1; 0] ++ be_bytes 2 (message_code (fr_type frame)) ++
  be_bytes 2 0 ++ be_bytes 4 (fr_sequence frame) ++ be_bytes 4 (bsize (pairing_body (fr_fields frame))) ++
  pairing_body (fr_fields frame).

(** A field whose value has the size its type asks for. *)
Definition field_ok (f : Field) : Prop :=
  in_width 16 (f_id f) /\ all_bytes (f_value f) /\ in_width 32 (bsize (f_value f)) /\
  (FixedLength (f_type f) <> 0 -> bsize (f_value f) = FixedLength (f_type f)).

(** The ids increase from one above [previous] on. *)
Fixpoint field_ids (previous : Z) (fields : list Field) : Prop :=
  match fields with
  | [] => True
  | f :: fields => previous < f_id f /\ field_ids (f_id f) fields
  end.

Record frame_ok (frame : Frame) : Prop := {
  fo_sequence : in_width 32 (fr_sequence frame);
  fo_fields : Forall field_ok (fr_fields frame);
  fo_ids : field_ids 0 (fr_fields frame);
  fo_count : (length (fr_fields frame) <= kMaxPairingFields)%nat;
  fo_size : bsize (pairing_body (fr_fields frame)) <= kMaxPairingBodySize;
}.

Lemma wire_type_of_wire_code t : wire_type_of_code (wire_code t) = Some t.
Proof. by destruct t. Qed.

Lemma wire_type_of_code_Some v t : wire_type_of_code v = Some t -> v = wire_code t.
Proof. unfold wire_type_of_code. intros H%List.find_some. destruct H as [_ H%Z.eqb_eq]. done. Qed.

Lemma message_type_of_message_code t : message_type_of_code (message_code t) = Some t.
Proof. by destruct t. Qed.

Lemma message_type_of_code_Some v t : message_type_of_code v = Some t -> v = message_code t.
Proof. unfold message_type_of_code. intros H%List.find_some. destruct H as [_ H%Z.eqb_eq]. done. Qed.

(** A known type is one of the enumerators. *)
Lemma IsKnownPairingType_iff v : IsKnownPairingType v = true <-> is_Some (message_type_of_code v).
Proof.
  unfold IsKnownPairingType. cbn [message_code]. rewrite Z.geb_leb, andb_true_iff, !Z.leb_le. split.
  - intros B. assert (v = 1 \/ v = 2 \/ v = 3 \/ v = 4 \/ v = 5) as [-> | [-> | [-> | [-> | ->]]]] by lia; by eexists.
  - intros [t ->%message_type_of_code_Some]. destruct t; cbn; lia.
Qed.

Definition head_of (f : Field) : tlv_header :=
  {| th_id := f_id f; th_wire := wire_code (f_type f); th_flags := 1; th_length := bsize (f_value f) |}.

Lemma pairing_field_split f : pairing_field f = write_tlv_header (head_of f) ++ f_value f.
Proof. unfold pairing_field, write_tlv_header, head_of. cbn [th_id th_wire th_flags th_length]. by rewrite <- !app_assoc. Qed.

Lemma bsize_pairing_field f : bsize (pairing_field f) = 8 + bsize (f_value f).
Proof. rewrite pairing_field_split, bsize_app. unfold bsize at 1. by rewrite length_write_tlv_header. Qed.

Lemma pairing_body_cons f fields : pairing_body (f :: fields) = pairing_field f ++ pairing_body fields.
Proof. done. Qed.

(** What the loop reads at the head of a field. *)
Lemma pairing_head rest : all_bytes rest -> 8 <= bsize rest ->
  let h := read_tlv_header rest in
  ReadU16 (subspan rest 0 2) = th_id h /\ at_ rest 2 = th_wire h /\ at_ rest 3 = th_flags h /\
  ReadU32 (subspan rest 4 4) = th_length h.
Proof.
  intros Hr Hs. destruct rest as [| b0 [| b1 [| b2 [| b3 [| b4 [| b5 [| b6 [| b7 r]]]]]]]]; try done.
  split; [| done]. by rewrite ReadU16_subspan.
Qed.

Lemma all_bytes_pairing_field f : field_ok f -> all_bytes (pairing_field f).
Proof.
  intros (_ & H & _). unfold pairing_field. rewrite !all_bytes_app. split; [auto with xnn |].
  split; [| auto with xnn]. constructor; [by destruct (f_type f) |]. by constructor.
Qed.

Lemma all_bytes_pairing_body fields : Forall field_ok fields -> all_bytes (pairing_body fields).
Proof.
  induction 1 as [| f fields Hf _ IH]; [constructor |]. rewrite pairing_body_cons, all_bytes_app.
  split; [by apply all_bytes_pairing_field | done].
Qed.

Lemma fixed_length_test (t : WireType.WireType) n :
  negb (FixedLength t =? 0) && negb (n =? FixedLength t) = false <-> (FixedLength t <> 0 -> n = FixedLength t).
Proof. rewrite andb_false_iff, !negb_false_iff, !Z.eqb_eq. destruct (Z.eq_dec (FixedLength t) 0); intuition. Qed.

Lemma ParseFrame_loop_sound n previous rest fields : all_bytes rest -> 0 <= previous ->
  ParseFrame_loop n previous rest = inr fields ->
  rest = pairing_body fields /\ Forall field_ok fields /\ field_ids previous fields /\ (length fields <= n)%nat.
Proof.
  revert previous rest fields. induction n as [| n IH]; intros previous rest fields Hb Hp; cbn [ParseFrame_loop].
  all: destruct (Z.eqb_spec (bsize rest) 0) as [E0%bsize_zero_nil | _].
  1, 3: intros [= <-]; subst rest; repeat split; [constructor | cbn; lia].
  1: done.
  destruct (Z.ltb_spec (bsize rest) 8) as [| H8]; [done |]. cbv zeta.
  destruct (pairing_head rest Hb H8) as (-> & -> & -> & ->).
  destruct (read_tlv_header_spec rest Hb H8) as (Er & Wi & _ & _ & Wl). revert Er Wi Wl.
  generalize (read_tlv_header rest). intros h Er Wi Wl.
  destruct (wire_type_of_code (th_wire h)) as [t |] eqn:Et; [| done]. apply wire_type_of_code_Some in Et.
  destruct (_ || _) eqn:E; [done |]. apply orb_false_iff in E as [E E4]. apply orb_false_iff in E as [E E3].
  apply orb_false_iff in E as [E1 E2]. bool_facts.
  destruct (_ && _) eqn:EF; [done |]. rewrite fixed_length_test in EF.
  assert (Hr : all_bytes (drop 8 rest)) by auto with xnn. revert Hr Er E4. generalize (drop 8 rest). intros r Hr Er E4.
  unfold in_width in Wl. assert (Bv : bsize (subspan r 0 (th_length h)) = th_length h) by (apply bsize_subspan; lia).
  destruct (ParseFrame_loop n _ _) as [e | fields'] eqn:EL; [done |]. intros [= Ef]. rewrite <- Ef. clear Ef.
  apply IH in EL as (Ed & Hf & Hi & Hn); [| auto with xnn | lia].
  split.
  { rewrite pairing_body_cons, pairing_field_split. unfold head_of. cbn [f_id f_type f_value].
    rewrite Er at 1. rewrite <- app_assoc, <- Ed. rewrite <- subspan_split by lia. f_equal.
    rewrite Bv, <- Et. destruct h; cbn in *. by subst. }
  split; [constructor; [| done] |].
  - split; [done |]. cbn [f_value f_type]. split; [auto with xnn |]. rewrite Bv. done.
  - split; [split; [cbn; lia | done] | cbn; lia].
Qed.

Lemma ParseFrame_loop_complete n previous fields : 0 <= previous -> Forall field_ok fields ->
  field_ids previous fields -> (length fields <= n)%nat -> ParseFrame_loop n previous (pairing_body fields) = inr fields.
Proof.
  revert previous n. induction fields as [| f fields IH]; intros previous n Hp Hf Hi Hn.
  { by destruct n. }
  apply list.Forall_cons in Hf as [Hf Hfs]. destruct Hi as [Hi His]. destruct n as [| n]; [cbn in Hn; lia |].
  pose proof (all_bytes_pairing_body (f :: fields) (Forall_cons_2 _ _ _ Hf Hfs)) as Hb.
  pose proof (bsize_pairing_field f) as Bf. pose proof (bsize_nonneg (f_value f)).
  pose proof (bsize_nonneg (pairing_body fields)).
  rewrite pairing_body_cons in *. cbn [ParseFrame_loop]. rewrite bsize_app, Bf.
  destruct (Z.eqb_spec (8 + bsize (f_value f) + bsize (pairing_body fields)) 0); [lia |].
  destruct (Z.ltb_spec (8 + bsize (f_value f) + bsize (pairing_body fields)) 8); [lia |]. cbv zeta.
  destruct Hf as (Wi & Hv & Wl & Hfix).
  assert (Eh : read_tlv_header (pairing_field f ++ pairing_body fields) = head_of f).
  { rewrite pairing_field_split, <- app_assoc. apply read_write_tlv_header; unfold head_of; cbn [th_id th_wire th_flags th_length]; [done | by destruct (f_type f) | done | done]. }
  destruct (pairing_head (pairing_field f ++ pairing_body fields) Hb) as (-> & -> & -> & ->);
    [rewrite bsize_app; lia |]. rewrite Eh. unfold head_of. cbn [th_id th_wire th_flags th_length].
  assert (Ed : drop 8 (pairing_field f ++ pairing_body fields) = f_value f ++ pairing_body fields).
  { rewrite pairing_field_split, <- app_assoc. apply (drop_app_bsize _ _ 8). unfold bsize.
    by rewrite length_write_tlv_header. }
  rewrite Ed, wire_type_of_wire_code, bsize_app.
  replace ((f_id f =? 0) || (f_id f <=? previous) || negb (1 =? 1) || (bsize (f_value f) >? bsize (f_value f) + bsize (pairing_body fields)))
    with false by (destruct (Z.eqb_spec (f_id f) 0), (Z.leb_spec (f_id f) previous), (Z.gtb_spec (bsize (f_value f)) (bsize (f_value f) + bsize (pairing_body fields))); try lia; done).
  rewrite (proj2 (fixed_length_test _ _) Hfix), subspan_app_l, drop_app_bsize by done.
  rewrite IH; [by destruct f | lia | done | done | cbn in Hn; lia].
Qed.

(** The parts of a header. *)
Lemma pairing_header l : all_bytes l -> 20 <= bsize l ->
  l = take 4 l ++ be_bytes 2 (ReadU16 (subspan l 4 2)) ++ [at_ l 6; at_ l 7] ++ be_bytes 2 (ReadU16 (subspan l 8 2)) ++
      be_bytes 2 (ReadU16 (subspan l 10 2)) ++ be_bytes 4 (ReadU32 (subspan l 12 4)) ++
      be_bytes 4 (ReadU32 (subspan l 16 4)) ++ drop 20 l /\
  in_width 32 (ReadU32 (subspan l 12 4)).
Proof.
  intros Hl Hs. rewrite !ReadU16_subspan by done. change ReadU32 with V1Parser.ReadU32.
  assert (Hsub : forall o n, 0 <= o -> 0 <= n -> o + n <= 20 -> all_bytes (subspan l o n) /\ bsize (subspan l o n) = n)
    by (intros; split; [auto with xnn | apply bsize_subspan; lia]).
  destruct (Hsub 4 2) as [B4 S4]; [lia.. |]. destruct (Hsub 8 2) as [B8 S8]; [lia.. |].
  destruct (Hsub 10 2) as [B10 S10]; [lia.. |]. destruct (Hsub 12 4) as [B12 S12]; [lia.. |].
  destruct (Hsub 16 4) as [B16 S16]; [lia.. |].
  destruct (ReadU16_span _ B4 S4) as [R4 _]. destruct (ReadU16_span _ B8 S8) as [R8 _].
  destruct (ReadU16_span _ B10 S10) as [R10 _]. destruct (ReadU32_span _ B12 S12) as [R12 W12].
  destruct (ReadU32_span _ B16 S16) as [R16 _]. split; [| done].
  rewrite R4, R8, R10, R12, R16. change [at_ l 6; at_ l 7] with ([at_ l 6] ++ [at_ l 7]).
  rewrite <- !at_subspan, <- !app_assoc by lia.
  rewrite <- (drop_chop l 16 4 : _ = subspan l 16 4 ++ drop 20 l).
  rewrite <- (drop_chop l 12 4 : _ = subspan l 12 4 ++ drop 16 l).
  rewrite <- (drop_chop l 10 2 : _ = subspan l 10 2 ++ drop 12 l).
  rewrite <- (drop_chop l 8 2 : _ = subspan l 8 2 ++ drop 10 l).
  rewrite <- (drop_chop l 7 1 : _ = subspan l 7 1 ++ drop 8 l).
  rewrite <- (drop_chop l 6 1 : _ = subspan l 6 1 ++ drop 7 l).
  rewrite <- (drop_chop l 4 2 : _ = subspan l 4 2 ++ drop 6 l).
  symmetry. apply take_drop.
Qed.

Lemma ValidateFrameHeader_iff l : ValidateFrameHeader l = PairingError.kNone <->
  20 <= bsize l /\ take 4 l = kPairingMagic /\ ReadU16 (subspan l 4 2) = 20 /\ at_ l 6 = 1 /\ at_ l 7 = 0 /\
  is_Some (message_type_of_code (ReadU16 (subspan l 8 2))) /\ ReadU16 (subspan l 10 2) = 0 /\
  ReadU32 (subspan l 16 4) <= kMaxPairingBodySize.
Proof.
  unfold ValidateFrameHeader. rewrite <- IsKnownPairingType_iff, <- same_bytes_true. unfold kPairingFrameHeaderSize. cbv zeta.
  destruct (Z.ltb_spec (bsize l) 20), (same_bytes (take 4 l) kPairingMagic), (Z.eqb_spec (ReadU16 (subspan l 4 2)) 20); cbn [orb negb];
    try (split; [done | intros (? & ? & ? & _); done || lia]).
  destruct (Z.eqb_spec (at_ l 6) 1), (Z.eqb_spec (at_ l 7) 0); cbn [orb negb];
    try (split; [done | intros (? & ? & ? & ? & ? & _); done || lia]).
  destruct (IsKnownPairingType _), (Z.eqb_spec (ReadU16 (subspan l 10 2)) 0); cbn [orb negb];
    try (split; [done | intros (? & ? & ? & ? & ? & ? & ? & _); done || lia]).
  destruct (Z.gtb_spec (ReadU32 (subspan l 16 4)) kMaxPairingBodySize); [split; [done | intros; lia] |].
  split; [| done]. intros _. split_and!; done || lia.
Qed.

Lemma bsize_pairing_frame frame : bsize (pairing_frame frame) = 20 + bsize (pairing_body (fr_fields frame)).
Proof.
  unfold pairing_frame. rewrite !bsize_app, !bsize_be_bytes. change (bsize kPairingMagic) with 4.
  change (bsize [1; 0]) with 2. lia.
Qed.

(** What the parser reads in the header of a frame. *)
Lemma pairing_frame_head frame : frame_ok frame ->
  let l := pairing_frame frame in
  take 4 l = kPairingMagic /\ ReadU16 (subspan l 4 2) = 20 /\ at_ l 6 = 1 /\ at_ l 7 = 0 /\
  ReadU16 (subspan l 8 2) = message_code (fr_type frame) /\ ReadU16 (subspan l 10 2) = 0 /\
  ReadU32 (subspan l 12 4) = fr_sequence frame /\ ReadU32 (subspan l 16 4) = bsize (pairing_body (fr_fields frame)) /\
  drop 20 l = pairing_body (fr_fields frame).
Proof.
  intros []. cbv zeta. unfold pairing_frame.
  set (code := message_code (fr_type frame)). set (body := pairing_body (fr_fields frame)) in *.
  assert (0 <= code < 2 ^ 16) by (unfold code; destruct (fr_type frame); cbn; lia).
  pose proof (bsize_nonneg body). unfold kMaxPairingBodySize in *.
  set (l := kPairingMagic ++ _).
  change (subspan l 4 2) with (be_bytes 2 20). change (subspan l 8 2) with (be_bytes 2 code).
  change (subspan l 10 2) with (be_bytes 2 0). change (subspan l 12 4) with (be_bytes 4 (fr_sequence frame)).
  change (subspan l 16 4) with (be_bytes 4 (bsize body)).
  rewrite !pairing_ReadU16_be, !pairing_ReadU32_be by (done || (unfold in_width; lia)). done.
Qed.

Lemma ParseFrame_iff encoded frame : all_bytes encoded ->
  ParseFrame encoded = inr frame <-> frame_ok frame /\ encoded = pairing_frame frame.
Proof.
  intros Hb. unfold ParseFrame. split.
  - destruct (ValidateFrameHeader encoded) eqn:EV; try done.
    apply ValidateFrameHeader_iff in EV as (Hs & Em & El & E6 & E7 & [t Et] & E10 & Hl). rewrite Et.
    destruct (pairing_header encoded Hb Hs) as [Ee W]. apply message_type_of_code_Some in Et.
    destruct (negb _) eqn:ES; [done |]. apply negb_false_iff, Z.eqb_eq in ES. unfold kPairingFrameHeaderSize in ES.
    destruct (ParseFrame_loop _ _ _) as [| fields] eqn:EL; [done |]. intros [= <-].
    assert (Ed : bsize (drop 20 encoded) = ReadU32 (subspan encoded 16 4)).
    { unfold bsize in *. rewrite length_drop. lia. }
    apply ParseFrame_loop_sound in EL as (EB & Hf & Hi & Hn); [| auto with xnn | lia]. rewrite EB in Ed.
    split; [split; cbn [fr_sequence fr_fields]; try done; lia |].
    unfold pairing_frame. cbn [fr_type fr_sequence fr_fields]. rewrite Ed, <- EB, <- Et.
    rewrite Em, El, E6, E7, E10 in Ee. exact Ee.
  - intros [Hok ->]. pose proof (bsize_pairing_frame frame) as Bs. pose proof (bsize_nonneg (pairing_body (fr_fields frame))).
    destruct (pairing_frame_head frame Hok) as (E1 & E2 & E3 & E4 & E5 & E6 & E7 & E8 & E9).
    destruct Hok. rewrite (proj2 (ValidateFrameHeader_iff _)).
    2:{ rewrite E5, E8, message_type_of_message_code. split_and!; try done; lia. }
    rewrite E8, E7, E9, E5, Bs, message_type_of_message_code. unfold kPairingFrameHeaderSize.
    rewrite Z.eqb_refl. cbn [negb]. rewrite ParseFrame_loop_complete by done. by destruct frame.
Qed.

(** ** Encoding *)

Lemma fold_AppendField fields body : Forall (fun f => bsize (f_value f) < 2 ^ 32) fields ->
  fold_left AppendField fields body = body ++ pairing_body fields.
Proof.
  intros H. revert body. induction H as [| f fields Hf _ IH]; intros body; cbn [fold_left]; [by rewrite app_nil_r |].
  rewrite IH, pairing_body_cons. unfold AppendField, pairing_field.
  rewrite AppendU32_be, AppendU16_be, be_bytes_wrap by (pose proof (bsize_nonneg (f_value f)); lia).
  by rewrite <- !app_assoc.
Qed.

Lemma EncodeFrame_bytes frame : frame_ok frame ->
  EncodeFrame (fr_type frame) (fr_sequence frame) (fr_fields frame) = pairing_frame frame.
Proof.
  intros []. unfold EncodeFrame. rewrite fold_AppendField.
  2:{ eapply list.Forall_impl; [exact fo_fields0 |]. intros f (_ & _ & W & _). unfold in_width in W. lia. }
  rewrite app_nil_l. destruct (Z.gtb_spec (bsize (pairing_body (fr_fields frame))) kMaxPairingBodySize); [lia |].
  rewrite !AppendU32_be, !AppendU16_be. unfold pairing_frame, kMaxPairingBodySize in *.
  pose proof (bsize_nonneg (pairing_body (fr_fields frame))).
  rewrite (be_bytes_wrap 4 (bsize _)) by lia. by rewrite <- !app_assoc.
Qed.

Lemma all_bytes_pairing_frame frame : frame_ok frame -> all_bytes (pairing_frame frame).
Proof.
  intros []. unfold pairing_frame. rewrite !all_bytes_app. split; [apply (bool_decide_eq_true_1 _); by vm_compute |].
  split; [auto with xnn |]. split; [apply (bool_decide_eq_true_1 _); by vm_compute |]. do 4 (split; [auto with xnn |]).
  by apply all_bytes_pairing_body.
Qed.

(** What is encoded is parsed back. *)
Lemma EncodeFrame_parsed type sequence fields :
  let frame := {| fr_type := type; fr_sequence := sequence; fr_fields := fields |} in
  frame_ok frame -> ParseFrame (EncodeFrame type sequence fields) = inr frame.
Proof.
  intros frame Hok. change (EncodeFrame type sequence fields) with (EncodeFrame (fr_type frame) (fr_sequence frame) (fr_fields frame)).
  rewrite EncodeFrame_bytes by done. apply ParseFrame_iff; [by apply all_bytes_pairing_frame | done].
Qed.

(** ** Capabilities *)

Definition words (l : list Z) : bytes := concat (List.map (be_bytes 4) l).

Lemma bsize_words l : bsize (words l) = 4 * Z.of_nat (length l).
Proof.
  induction l as [| x l IH]; [done |]. change (words (x :: l)) with (be_bytes 4 x ++ words l).
  rewrite bsize_app, bsize_be_bytes, IH. cbn [length]. lia.
Qed.

Lemma all_bytes_words l : all_bytes (words l).
Proof. induction l as [| x l IH]; [constructor |]. apply all_bytes_app. split; [auto with xnn | done]. Qed.

(** The words of a span, from the end of [p] on. *)
Definition words_at (p l : bytes) (n : nat) : list Z :=
  List.map (fun i => ReadU32 (subspan (p ++ l) (bsize p + Z.of_nat i * 4) 4)) (List.seq 0 n).

Lemma words_at_cons p l w n : bsize w = 4 -> words_at p (w ++ l) (S n) = ReadU32 w :: words_at (p ++ w) l n.
Proof.
  intros Hw. unfold words_at. cbn [List.seq List.map]. rewrite <- List.seq_shift, List.map_map. f_equal.
  - f_equal. rewrite app_assoc. unfold subspan. rewrite <- app_assoc.
    replace (bsize p + Z.of_nat 0 * 4) with (bsize p) by lia. rewrite drop_app_bsize by done.
    apply (subspan_app_l w l 4). lia.
  - apply List.map_ext. intros i. rewrite app_assoc. do 2 f_equal. rewrite bsize_app. lia.
Qed.

Lemma words_at_words p l : Forall (in_width 32) l -> words_at p (words l) (length l) = l.
Proof.
  intros H. revert p. induction H as [| x l Hx _ IH]; intros p; [done |].
  change (words (x :: l)) with (be_bytes 4 x ++ words l). cbn [length].
  rewrite words_at_cons by apply bsize_be_bytes. by rewrite pairing_ReadU32_be, IH.
Qed.

Lemma words_words_at p l n : all_bytes l -> bsize l = 4 * Z.of_nat n ->
  words (words_at p l n) = l /\ Forall (in_width 32) (words_at p l n).
Proof.
  revert p l. induction n as [| n IH]; intros p l Hl Hs.
  { split; [| constructor]. symmetry. apply bsize_zero_nil. lia. }
  rewrite (subspan_split l 4) by lia. change (Z.to_nat 4) with 4%nat.
  assert (B4 : bsize (subspan l 0 4) = 4) by (apply bsize_subspan; lia). rewrite words_at_cons by done.
  destruct (ReadU32_span (subspan l 0 4) ltac:(auto with xnn) B4) as [E W].
  destruct (IH (p ++ subspan l 0 4) (drop 4 l)) as [E' W']; [auto with xnn | unfold bsize in *; rewrite length_drop; lia |].
  split; [| by constructor]. cbn [words List.map concat]. fold (words (words_at (p ++ subspan l 0 4) (drop 4 l) n)).
  rewrite E'. f_equal. exact E.
Qed.

Lemma EncodeCapabilities_bytes l : EncodeCapabilities l = be_bytes 2 (u16 (Z.of_nat (length l))) ++ words l.
Proof.
  unfold EncodeCapabilities. rewrite AppendU16_be, app_nil_l. generalize (be_bytes 2 (u16 (Z.of_nat (length l)))).
  induction l as [| x l IH]; intros p; cbn [fold_left]; [by rewrite app_nil_r |].
  rewrite IH, AppendU32_be. by rewrite <- app_assoc.
Qed.

(** The order the capabilities are written in. *)
Definition canonical_order (l : list Z) : bool :=
  is_sorted l && negb (adjacent_equal l) && negb (adjacent_family l).

Lemma HasCanonicalCapabilities_iff l : HasCanonicalCapabilities l = true <->
  (1 <= length l <= 256)%nat /\ canonical_order l = true.
Proof.
  unfold HasCanonicalCapabilities, canonical_order, kMaximumCapabilities.
  destruct (Z.eqb_spec (Z.of_nat (length l)) 0), (Z.gtb_spec (Z.of_nat (length l)) 256); cbn [orb];
    try (split; [done | intros; lia]).
  destruct (is_sorted l), (adjacent_equal l), (adjacent_family l); cbn; split; intros; try done; intuition (try done; lia).
Qed.

Lemma canonical_order_increasing l : canonical_order l = true -> increasing l.
Proof.
  unfold canonical_order. intros [[E1 E2]%andb_true_iff _]%andb_true_iff. apply negb_true_iff in E2. apply StrictlyIncreasing_spec. revert E1 E2.
  induction l as [| x [| y l] IH]; intros E1 E2; [done | done |]. cbn [is_sorted adjacent_equal] in E1, E2.
  apply andb_true_iff in E1 as [E1 E1']. apply orb_false_iff in E2 as [E2 E2']. cbn [StrictlyIncreasing].
  bool_facts. destruct (Z.leb_spec y x); [lia |]. by apply IH.
Qed.

(** The codec of the session on a count and the words after it. *)
Lemma DecodeCapabilities_app p q : bsize p = 2 ->
  SessionWire.DecodeCapabilities (p ++ q) =
  if (ReadU16 p =? 0) || (ReadU16 p >? kMaximumCapabilities) || negb (bsize q =? ReadU16 p * 4) then
    inl PairingError.kMalformed
  else if HasCanonicalCapabilities (words_at p q (Z.to_nat (ReadU16 p))) then inr (words_at p q (Z.to_nat (ReadU16 p)))
  else inl PairingError.kMalformed.
Proof.
  intros Hp. unfold SessionWire.DecodeCapabilities, words_at. rewrite bsize_app, Hp.
  pose proof (bsize_nonneg q). destruct (Z.ltb_spec (2 + bsize q) 2); [lia |].
  rewrite (take_app_length' p q 2) by (unfold bsize in Hp; lia). cbv zeta.
  replace (2 + bsize q =? 2 + ReadU16 p * 4) with (bsize q =? ReadU16 p * 4); [done |].
  destruct (Z.eqb_spec (bsize q) (ReadU16 p * 4)), (Z.eqb_spec (2 + bsize q) (2 + ReadU16 p * 4)); done || lia.
Qed.

Lemma DecodeCapabilities_iff encoded l : all_bytes encoded ->
  SessionWire.DecodeCapabilities encoded = inr l <->
  HasCanonicalCapabilities l = true /\ Forall (in_width 32) l /\ encoded = EncodeCapabilities l.
Proof.
  intros Hb. rewrite EncodeCapabilities_bytes. split.
  - destruct (Z.lt_ge_cases (bsize encoded) 2) as [H2 | H2].
    { unfold SessionWire.DecodeCapabilities. by rewrite (proj2 (Z.ltb_lt _ _) H2). }
    revert Hb. rewrite (subspan_split encoded 2) by lia. change (Z.to_nat 2) with 2%nat.
    assert (Bp : bsize (subspan encoded 0 2) = 2) by (apply bsize_subspan; lia). revert Bp.
    generalize (subspan encoded 0 2) (drop 2 encoded). intros p q Bp [Hp Hq]%all_bytes_app.
    rewrite DecodeCapabilities_app by done. destruct (_ || _) eqn:EC; [done |].
    apply orb_false_iff in EC as [EC E3]. apply orb_false_iff in EC as [E1 E2].
    apply Z.eqb_neq in E1. apply negb_false_iff, Z.eqb_eq in E3. unfold kMaximumCapabilities in E2.
    rewrite Z.gtb_ltb, Z.ltb_ge in E2. destruct (ReadU16_span p Hp Bp) as [R W]. rewrite <- ReadU16_v1 in R, W by done.
    unfold in_width in W. destruct (words_words_at p q (Z.to_nat (ReadU16 p)) Hq) as [Ew Fw]; [lia |].
    destruct (HasCanonicalCapabilities _) eqn:EH; [| done]. intros [= <-]. split; [done |]. split; [done |].
    rewrite Ew. unfold words_at at 1. rewrite length_map, List.length_seq, Z2Nat.id by lia.
    rewrite (wrap_small 16) by (unfold in_width; lia). by rewrite R.
  - intros (HC & HW & ->). pose proof HC as [Hn _]%HasCanonicalCapabilities_iff.
    rewrite (wrap_small 16) by (unfold in_width; lia). rewrite DecodeCapabilities_app by apply bsize_be_bytes.
    rewrite pairing_ReadU16_be, bsize_words by (unfold in_width; lia). unfold kMaximumCapabilities.
    destruct (Z.eqb_spec (Z.of_nat (length l)) 0), (Z.gtb_spec (Z.of_nat (length l)) 256),
      (Z.eqb_spec (4 * Z.of_nat (length l)) (Z.of_nat (length l) * 4)); try lia. cbn [orb negb].
    by rewrite Nat2Z.id, words_at_words, HC.
Qed.

(** The codec of the canonical objects on what the session writes. *)
Lemma canonical_DecodeCapabilities l cs : Forall (in_width 32) l ->
  CanonicalObjects.DecodeCapabilities (EncodeCapabilities l) = inr cs <->
  cs = l /\ canonical_order l = true /\ Z.of_nat (length l) < 65536.
Proof.
  intros HW. rewrite EncodeCapabilities_bytes. set (p := be_bytes 2 _). assert (Bp : bsize p = 2) by apply bsize_be_bytes.
  assert (Hp : all_bytes (p ++ words l)) by (apply all_bytes_app; split; [apply all_bytes_be_bytes | apply all_bytes_words]).
  unfold CanonicalObjects.DecodeCapabilities. rewrite ReadU16_at by (rewrite ?bsize_app, ?Bp, ?bsize_words; lia).
  rewrite (subspan_app_l p (words l) 2) by done. 
  assert (Rp : V1Parser.ReadU16 p = u16 (Z.of_nat (length l))) by (apply ReadU16_bytes, (wrap_range 16); lia). rewrite Rp.
  rewrite bsize_app, Bp, bsize_words. destruct (Z.ltb_spec (2 + 4 * Z.of_nat (length l)) 2); [lia |]. cbv zeta.
  destruct (Z.lt_ge_cases (Z.of_nat (length l)) 65536) as [Hn | Hn].
  - rewrite wrap_small by (unfold in_width; lia). destruct (Z.eqb_spec (2 + 4 * Z.of_nat (length l)) (2 + Z.of_nat (length l) * 4)); [| lia].
    cbn [negb]. rewrite Nat2Z.id.
    rewrite (List.map_ext_in _ (fun i => ReadU32 (subspan (p ++ words l) (bsize p + Z.of_nat i * 4) 4))).
    2:{ intros i [_ Hi]%List.in_seq. cbn [Nat.add] in Hi. rewrite ReadU32_at by (done || (rewrite ?bsize_app, ?Bp, ?bsize_words; lia)).
        by rewrite Bp. }
    fold (words_at p (words l) (length l)). rewrite words_at_words by done. unfold canonical_order.
    destruct (is_sorted l), (adjacent_equal l), (adjacent_family l); cbn; split;
      (intros [= <-]; done) || (intros (? & ? & ?); by subst) || (intros (-> & _ & _); done).
  - destruct (Z.eqb_spec (2 + 4 * Z.of_nat (length l)) (2 + u16 (Z.of_nat (length l)) * 4)) as [E | _]; [| split; [done | intros; lia]].
    pose proof (wrap_range 16 (Z.of_nat (length l)) ltac:(lia)) as R. unfold in_width in R. lia.
Qed.

(** The order of the families of the capabilities. *)
Definition family_lt (x y : Z) : Prop := Z.shiftr x 16 < Z.shiftr y 16.

Lemma shiftr_mono x y : x <= y -> Z.shiftr x 16 <= Z.shiftr y 16.
Proof. intros. rewrite !Z.shiftr_div_pow2 by lia. apply Z.div_le_mono; lia. Qed.

Lemma canonical_order_iff l : canonical_order l = true <-> StronglySorted family_lt l.
Proof.
  unfold canonical_order. rewrite !andb_true_iff, !negb_true_iff. split.
  - intros [[E1 E2] E3]. apply Sorted_StronglySorted; [unfold family_lt; intros x y z; lia |]. revert E1 E2 E3.
    induction l as [| x [| y l] IH]; intros E1 E2 E3; [constructor | by repeat constructor |].
    cbn [is_sorted adjacent_equal adjacent_family] in E1, E2, E3. apply andb_true_iff in E1 as [E1 E1'].
    apply orb_false_iff in E2 as [E2 E2'], E3 as [E3 E3']. constructor; [by apply IH |]. constructor.
    apply Z.eqb_neq in E3. apply negb_true_iff, Z.ltb_ge in E1. pose proof (shiftr_mono x y E1). unfold family_lt. lia.
  - induction 1 as [| x l Hl IH Hx]; [done |]. destruct l as [| y l]; [done |].
    change (is_sorted (x :: y :: l)) with (negb (y <? x) && is_sorted (y :: l)).
    change (adjacent_equal (x :: y :: l)) with ((x =? y) || adjacent_equal (y :: l)).
    change (adjacent_family (x :: y :: l)) with ((Z.shiftr x 16 =? Z.shiftr y 16) || adjacent_family (y :: l)).
    destruct IH as [[-> ->] ->]. apply list.Forall_cons in Hx as [Hxy _].
    unfold family_lt in Hxy. rewrite (proj2 (Z.eqb_neq (Z.shiftr x 16) (Z.shiftr y 16))) by lia.
    destruct (Z.lt_ge_cases x y) as [H | H]; [| pose proof (shiftr_mono y x H); lia].
    rewrite (proj2 (Z.eqb_neq x y)), (proj2 (Z.ltb_ge y x)) by lia. done.
Qed.

Lemma StronglySorted_pair l x y : StronglySorted family_lt l -> In x l -> In y l -> x < y -> family_lt x y.
Proof.
  induction 1 as [| z l Hl IH Hz]; [done |]. rewrite List.Forall_forall in Hz.
  intros [-> | Hx] [-> | Hy] Hlt; [lia | by apply Hz | | by apply IH].
  specialize (Hz x Hx). pose proof (shiftr_mono x y ltac:(lia)). unfold family_lt in *. lia.
Qed.

(** What two canonical lists have in common is in canonical order. *)
Lemma canonical_order_Intersection a b : canonical_order a = true -> increasing b ->
  canonical_order (Intersection a b) = true.
Proof.
  intros Ha Hb. pose proof (canonical_order_increasing a Ha) as Hi. apply canonical_order_iff in Ha. apply canonical_order_iff.
  assert (H : forall x, In x (Intersection a b) -> In x a) by (intros x Hx; by apply Intersection_In in Hx as [? _]).
  pose proof (Intersection_increasing a b Hi Hb) as Hc. revert H. generalize (Intersection a b) Hc. clear Hc.
  intros c. induction 1 as [| x c Hc IH Hx]; intros H; constructor.
  - apply IH. intros y Hy. apply H. by right.
  - rewrite List.Forall_forall in *. intros y Hy. apply (StronglySorted_pair a); [done | apply H; by left | apply H; by right | by apply Hx].
Qed.

Lemma length_Intersection a b : (length (Intersection a b) <= length a)%nat.
Proof.
  revert b. induction a as [| x a IH]; intros b; [done |]. induction b as [| y b IHb]; [cbn; lia |]. rewrite Intersection_cons.
  destruct (x =? y); [specialize (IH b); cbn; lia |]. destruct (x <? y); [specialize (IH (y :: b)); cbn in *; lia | exact IHb].
Qed.

(** ** Limits and versions *)

Definition limits_typed (limits : ReceiveLimits) : Prop :=
  in_width 32 (max_body limits) /\ in_width 32 (max_in_flight limits) /\ in_width 16 (max_streams limits).

Lemma EncodeLimits_bytes limits :
  EncodeLimits limits = be_bytes 4 (max_body limits) ++ be_bytes 4 (max_in_flight limits) ++ be_bytes 2 (max_streams limits).
Proof. unfold EncodeLimits. rewrite AppendU16_be, !AppendU32_be. by rewrite <- !app_assoc. Qed.

Lemma EncodeLimits_size limits : bsize (EncodeLimits limits) = 10 /\ all_bytes (EncodeLimits limits).
Proof.
  rewrite EncodeLimits_bytes, !bsize_app, !bsize_be_bytes, !all_bytes_app. split; [lia |]. auto with xnn.
Qed.

Lemma DecodeLimits_EncodeLimits limits : limits_typed limits -> SessionWire.DecodeLimits (EncodeLimits limits) = limits.
Proof.
  intros (H1 & H2 & H3). rewrite EncodeLimits_bytes. destruct limits as [a b c]. cbn [max_body max_in_flight max_streams] in *.
  set (l := be_bytes 4 a ++ _). unfold SessionWire.DecodeLimits. change (subspan l 0 4) with (be_bytes 4 a).
  change (subspan l 4 4) with (be_bytes 4 b). change (subspan l 8 2) with (be_bytes 2 c).
  by rewrite !pairing_ReadU32_be, pairing_ReadU16_be.
Qed.

Lemma EncodeLimits_DecodeLimits l : all_bytes l -> bsize l = 10 ->
  EncodeLimits (SessionWire.DecodeLimits l) = l /\ limits_typed (SessionWire.DecodeLimits l).
Proof.
  intros Hl Hs. rewrite EncodeLimits_bytes. unfold limits_typed, SessionWire.DecodeLimits. cbn [max_body max_in_flight max_streams].
  rewrite ReadU16_subspan by done. change ReadU32 with V1Parser.ReadU32.
  assert (Hsub : forall o n, 0 <= o -> 0 <= n -> o + n <= 10 -> all_bytes (subspan l o n) /\ bsize (subspan l o n) = n)
    by (intros; split; [auto with xnn | apply bsize_subspan; lia]).
  destruct (Hsub 0 4) as [B0 S0]; [lia.. |]. destruct (Hsub 4 4) as [B4 S4]; [lia.. |]. destruct (Hsub 8 2) as [B8 S8]; [lia.. |].
  destruct (ReadU32_span _ B0 S0) as [R0 W0]. destruct (ReadU32_span _ B4 S4) as [R4 W4]. destruct (ReadU16_span _ B8 S8) as [R8 W8].
  split; [| done]. rewrite R0, R4, R8.
  rewrite (subspan_split l 4) at 4 by lia. f_equal.
  assert (E : drop 10 l = []) by (apply bsize_zero_nil; unfold bsize in *; rewrite length_drop; lia).
  rewrite <- (app_nil_r (subspan l 8 2)), <- E.
  rewrite <- (drop_chop l 8 2 : _ = subspan l 8 2 ++ drop 10 l). by rewrite <- (drop_chop l 4 4 : _ = subspan l 4 4 ++ drop 8 l).
Qed.

Lemma canonical_DecodeLimits limits : limits_typed limits ->
  CanonicalObjects.DecodeLimits (EncodeLimits limits) = [max_body limits; max_in_flight limits; max_streams limits].
Proof.
  intros H. destruct (EncodeLimits_size limits) as [Hs Hb]. unfold CanonicalObjects.DecodeLimits.
  rewrite !ReadU32_at, ReadU16_at by (done || lia). rewrite <- (ReadU16_subspan _ 8 2) by done.
  change V1Parser.ReadU32 with ReadU32. rewrite <- (DecodeLimits_EncodeLimits limits H) at 4 5 6. done.
Qed.

Definition version_typed (v : Version) : Prop := is_byte (v_major v) /\ is_byte (v_minor v).

Definition range_typed (r : VersionRange) : Prop := version_typed (minimum r) /\ version_typed (maximum r).

(** ** Offers *)

(** The offers the types of the code hold. *)
Record offer_typed (offer : NegotiationOffer) : Prop := {
  ot_versions : range_typed (versions offer);
  ot_offered : Forall (in_width 32) (offered_capabilities offer);
  ot_required : Forall (in_width 32) (required_capabilities offer);
  ot_limits : limits_typed (receive_limits offer);
}.

Record offer_valid (offer : NegotiationOffer) : Prop := {
  ov_lower : v_major (minimum (versions offer)) <> 0;
  ov_upper : v_major (maximum (versions offer)) <> 0;
  ov_order : SessionWire.VersionLess (maximum (versions offer)) (minimum (versions offer)) = false;
  ov_offered : HasCanonicalCapabilities (offered_capabilities offer) = true;
  ov_required : HasCanonicalCapabilities (required_capabilities offer) = true;
  ov_includes : includes (offered_capabilities offer) (required_capabilities offer) = true;
  ov_base_offered : binary_search (offered_capabilities offer) SessionWire.kBaseTransferV1 = true;
  ov_base_required : binary_search (required_capabilities offer) SessionWire.kBaseTransferV1 = true;
  ov_body : kMinimumReceiveBody <= max_body (receive_limits offer) <= kMaximumReceiveBody;
  ov_in_flight : kMinimumReceiveInFlight <= max_in_flight (receive_limits offer) <= kMaximumReceiveInFlight;
  ov_streams : max_streams (receive_limits offer) <> 0 /\ max_streams (receive_limits offer) <= kMaximumReceiveStreams;
  ov_known : Forall (fun c => c = SessionWire.kBaseTransferV1 \/ c = kResumeV1 \/ c = kParallelFilesV1) (required_capabilities offer);
}.

Lemma ValidateOffer_cases offer : ValidateOffer offer = PairingError.kNone \/ ValidateOffer offer = PairingError.kMalformed.
Proof. unfold ValidateOffer. cbv zeta. case_match; [by right |]. case_match; auto. Qed.

Lemma ValidateOffer_iff offer : ValidateOffer offer = PairingError.kNone <-> offer_valid offer.
Proof.
  unfold ValidateOffer. cbv zeta. split.
  - destruct (_ || _) eqn:E1; [done |]. destruct (existsb _ _) eqn:E2; [done |]. intros _.
    rewrite !orb_false_iff, !negb_false_iff in E1.
    destruct E1 as (((((((((((((A1 & A2) & A3) & A4) & A5) & A6) & A7) & A8) & A9) & A10) & A11) & A12) & A13) & A14).
    rewrite ?Z.gtb_ltb, ?Z.eqb_neq, ?Z.ltb_ge in *. split; try done.
    apply List.Forall_forall. intros c Hc. rewrite <- not_true_iff_false, existsb_exists in E2.
    destruct (Z.eq_dec c SessionWire.kBaseTransferV1), (Z.eq_dec c kResumeV1), (Z.eq_dec c kParallelFilesV1); auto.
    exfalso. apply E2. exists c. split; [done |]. rewrite !andb_true_iff, !negb_true_iff, !Z.eqb_neq. done.
  - intros []. rewrite (proj2 (Z.eqb_neq _ _) ov_lower0), (proj2 (Z.eqb_neq _ _) ov_upper0), ov_order0, ov_offered0, ov_required0,
      ov_includes0, ov_base_offered0, ov_base_required0. cbn [negb orb].
    rewrite !Z.gtb_ltb, (proj2 (Z.ltb_ge _ _) (proj1 ov_body0)), (proj2 (Z.ltb_ge _ _) (proj2 ov_body0)),
      (proj2 (Z.ltb_ge _ _) (proj1 ov_in_flight0)), (proj2 (Z.ltb_ge _ _) (proj2 ov_in_flight0)),
      (proj2 (Z.eqb_neq _ _) (proj1 ov_streams0)), (proj2 (Z.ltb_ge _ _) (proj2 ov_streams0)). cbn [orb].
    destruct (existsb _ _) eqn:E; [| done]. apply existsb_exists in E as (c & Hc & E).
    rewrite List.Forall_forall in ov_known0. rewrite !andb_true_iff, !negb_true_iff, !Z.eqb_neq in E.
    destruct (ov_known0 c Hc) as [| [|]]; tauto.
Qed.

(** The standard algorithms on sorted ranges. *)
Lemma includes_iff l r : increasing l -> increasing r -> includes l r = true <-> (forall c, In c r -> In c l).
Proof.
  intros Hl. revert r. induction Hl as [| x l Hl IH Hx]; intros r Hr.
  { destruct r as [| y r]; [done |]. cbn. split; [done |]. intros H. destruct (H y). by left. }
  destruct r as [| y r]; [done |]. cbn [includes]. apply StronglySorted_inv in Hr as Hr'. destruct Hr' as [Hr' Hy].
  rewrite List.Forall_forall in Hx, Hy. destruct (Z.ltb_spec y x) as [Hyx |].
  { split; [done |]. intros H. destruct (H y ltac:(by left)) as [-> | Hin]; [lia |]. specialize (Hx y Hin). lia. }
  destruct (Z.ltb_spec x y) as [Hxy |]; cbn [negb].
  - rewrite IH by done. split.
    + intros Hin c Hc. right. by apply Hin.
    + intros Hin c Hc. destruct (Hin c Hc) as [<- |]; [| done]. exfalso. destruct Hc as [<- | Hc]; [lia |].
      specialize (Hy x Hc). lia.
  - assert (x = y) as -> by lia. rewrite IH by done. split.
    + intros Hin c [<- | Hc]; [by left |]. right. by apply Hin.
    + intros Hin c Hc. destruct (Hin c ltac:(by right)) as [<- |]; [| done]. specialize (Hy y Hc). lia.
Qed.

Lemma set_intersection_merge a b : set_intersection a b = Intersection a b.
Proof.
  revert b. induction a as [| x a IH]; intros b; [done |]. induction b as [| y b IHb]; [done |].
  cbn [set_intersection Intersection]. fold (set_intersection (x :: a)). fold (Intersection (x :: a)).
  destruct (Z.ltb_spec x y) as [H | H], (Z.eqb_spec x y) as [E | E]; try lia.
  - apply IH.
  - subst y. destruct (Z.ltb_spec x x); [lia |]. cbn [negb]. f_equal. apply IH.
  - destruct (Z.ltb_spec y x); [| lia]. exact IHb.
Qed.

Lemma HasCanonicalCapabilities_increasing l : HasCanonicalCapabilities l = true -> increasing l.
Proof. intros [_ H]%HasCanonicalCapabilities_iff. by apply canonical_order_increasing. Qed.

(** ** Negotiations *)

Record selection_typed (s : Selection) : Prop := {
  st_version : version_typed (s_version s);
  st_capabilities : Forall (in_width 32) (s_capabilities s);
  st_count : Z.of_nat (length (s_capabilities s)) <= kMaximumCapabilities;
  st_limits : limits_typed (s_limits s);
}.

Definition canonical_pair (f : CanonicalField) : Z * bytes := (c_id f, c_value f).

Lemma EncodeNormalizedObject_bytes fields : Z.of_nat (length fields) < 2 ^ 16 ->
  Forall (fun f => bsize (c_value f) < 2 ^ 32) fields -> bsize (block_bytes (List.map canonical_pair fields)) < 2 ^ 32 ->
  EncodeNormalizedObject fields = object_bytes CanonicalObjectKind.kNormalizedNegotiation (List.map canonical_pair fields).
Proof.
  intros Hn Hf Hs. assert (EB : forall body, fold_left AppendCanonicalField fields body = body ++ block_bytes (List.map canonical_pair fields)).
  { clear Hn Hs. induction Hf as [| f fields Hf _ IH]; intros body; cbn [fold_left List.map]; [by rewrite app_nil_r |].
    rewrite IH, block_bytes_cons. unfold AppendCanonicalField, field_bytes, canonical_pair at 2 3 4. cbn [fst snd].
    rewrite AppendU32_be, AppendU16_be, be_bytes_wrap by (pose proof (bsize_nonneg (c_value f)); lia).
    by rewrite <- !app_assoc. }
  unfold EncodeNormalizedObject, object_bytes. rewrite EB, app_nil_l, AppendU32_be, AppendU16_be, length_map.
  rewrite (wrap_small 16) by (unfold in_width; lia).
  rewrite be_bytes_wrap by (pose proof (bsize_nonneg (block_bytes (List.map canonical_pair fields))); lia).
  by rewrite <- !app_assoc.
Qed.

(** The object the negotiation of two offers is. *)
Definition negotiation_object (i r : NegotiationOffer) (s : Selection) : ParsedObject :=
  {| po_kind := CanonicalObjectKind.kNormalizedNegotiation;
     po_encoded := EncodeNormalizedObject (negotiation_fields i r s);
     po_fields := List.map (fun f => {| pf_id := c_id f; pf_value := c_value f |}) (negotiation_fields i r s) |}.

Lemma bsize_EncodeCapabilities l : Z.of_nat (length l) <= 256 -> 2 <= bsize (EncodeCapabilities l) <= 1026 /\ all_bytes (EncodeCapabilities l).
Proof.
  intros H. rewrite EncodeCapabilities_bytes, bsize_app, bsize_be_bytes, bsize_words, all_bytes_app.
  split; [lia |]. split; [auto with xnn | apply all_bytes_words].
Qed.

Section Negotiation.
Context (i r : NegotiationOffer) (s : Selection).
Context (Ti : offer_typed i) (Tr : offer_typed r) (Ts : selection_typed s).
Context (Vi : offer_valid i) (Vr : offer_valid r).
#[local] Set Default Proof Using "All".

Lemma negotiation_values :
  Forall (fun f => bsize (c_value f) <= 1026 /\ all_bytes (c_value f)) (negotiation_fields i r s) /\
  Forall2 fits (SchemaForKind CanonicalObjectKind.kNormalizedNegotiation) (List.map canonical_pair (negotiation_fields i r s)).
Proof.
  destruct Ti as [[[? ?] [? ?]] _ _ _], Tr as [[[? ?] [? ?]] _ _ _], Ts as [[? ?] _ Ls _].
  assert (L : forall o, offer_valid o -> (bsize (EncodeCapabilities (offered_capabilities o)) <= 1026 /\ all_bytes (EncodeCapabilities (offered_capabilities o))) /\
    (bsize (EncodeCapabilities (required_capabilities o)) <= 1026 /\ all_bytes (EncodeCapabilities (required_capabilities o)))).
  { intros o []. apply HasCanonicalCapabilities_iff in ov_offered0 as [? _]. apply HasCanonicalCapabilities_iff in ov_required0 as [? _].
    split; (split; [apply bsize_EncodeCapabilities; lia | apply bsize_EncodeCapabilities; lia]). }
  destruct (L i Vi) as [Ci Qi], (L r Vr) as [Cr Qr]. destruct (bsize_EncodeCapabilities (s_capabilities s) Ls) as [Cs Bs].
  assert (M : forall limits, bsize (EncodeLimits limits) <= 1026 /\ all_bytes (EncodeLimits limits))
    by (intros limits; destruct (EncodeLimits_size limits) as [-> ?]; split; [lia | done]).
  split.
  - unfold negotiation_fields, EncodeVersionRange, EncodeVersion, U8, all_bytes in *.
    repeat match goal with |- Forall _ (_ :: _) => apply list.Forall_cons; split; cbn [c_value] end; try done.
    all: try (split; [done |]; repeat (apply Forall_cons_2; [done |]); constructor).
    split; [lia | done].
  - cbn. repeat (apply Forall2_cons; [split; [done |]; cbn; intros E; try discriminate E; try done; apply EncodeLimits_size |]).
    constructor.
Qed.

Lemma negotiation_size : bsize (block_bytes (List.map canonical_pair (negotiation_fields i r s))) <= 13416.
Proof.
  destruct negotiation_values as [V _].
  assert (B : forall l, Forall (fun f => bsize (c_value f) <= 1026 /\ all_bytes (c_value f)) l ->
    bsize (block_bytes (List.map canonical_pair l)) <= 1032 * Z.of_nat (length l)).
  { induction 1 as [| f l [Hf _] _ IH]; [done |]. cbn [List.map length]. rewrite block_bytes_cons, bsize_app, bsize_field_bytes.
    cbn [fst snd canonical_pair]. lia. }
  exact (B _ V).
Qed.

Lemma negotiation_ok : object_ok CanonicalObjectKind.kNormalizedNegotiation (List.map canonical_pair (negotiation_fields i r s)) /\
  EncodeNormalizedObject (negotiation_fields i r s) =
  object_bytes CanonicalObjectKind.kNormalizedNegotiation (List.map canonical_pair (negotiation_fields i r s)).
Proof.
  destruct negotiation_values as [V F]. pose proof negotiation_size as B. split.
  - split; [done | | unfold kMaximumCanonicalBodySize; lia].
    apply List.Forall_map. eapply list.Forall_impl; [exact V |]. intros f [_ H]. exact H.
  - apply EncodeNormalizedObject_bytes; [done | | lia]. eapply list.Forall_impl; [exact V |]. cbn. intros f [H _]. lia.
Qed.

Lemma fields_of_negotiation : fields_of (negotiation_object i r s) = List.map canonical_pair (negotiation_fields i r s).
Proof using Type. unfold fields_of, negotiation_object. cbn [po_fields]. rewrite List.map_map. done. Qed.

(** The negotiation object is parsed when its rules accept it. *)
Lemma negotiation_parsed : ValidateNegotiationObject (negotiation_object i r s) = SecurityError.kNone ->
  ParseObject (EncodeNormalizedObject (negotiation_fields i r s)) (Some CanonicalObjectKind.kNormalizedNegotiation) =
  inr (negotiation_object i r s).
Proof.
  intros HV. destruct negotiation_ok as [Hok EB]. unfold ParseObject. apply ParseObject_with_complete.
  split; [done |]. rewrite fields_of_negotiation. split; [exact EB |]. split; [exact Hok |]. split; [by right | exact HV].
Qed.

Lemma Build_iff i' r' e : h_offer i' = i -> h_offer r' = r ->
  BuildNormalizedNegotiation i' r' s = inr e <->
  e = EncodeNormalizedObject (negotiation_fields i r s) /\ ValidateNegotiationObject (negotiation_object i r s) = SecurityError.kNone.
Proof.
  intros Ei Er. destruct negotiation_ok as [Hok EB]. unfold BuildNormalizedNegotiation, DecodeNormalizedNegotiation, DecodeCanonicalObject.
  rewrite Ei, Er. clear Ei Er.
  pose proof fields_of_negotiation as EF.
  assert (Hb : all_bytes (EncodeNormalizedObject (negotiation_fields i r s))).
  { rewrite EB. apply all_bytes_object. apply Hok. }
  unfold ParseObject. split.
  - destruct (ParseObject_with _ _ _) as [| object] eqn:EP; [done |]. cbn [co_encoded]. intros [= <-].
    apply ParseObject_with_iff in EP as (Ee & Eo & Hok' & Hk & HV); [| done]. split; [exact Ee |].
    destruct Hk as [| Hk]; [done |]. injection Hk as Hk.
    assert (object = negotiation_object i r s) as ->; [| by unfold ValidateSemanticObject in HV; rewrite <- Hk in HV].
    rewrite EB in Eo. apply object_bytes_inj in Eo as [_ Eo]; [| apply (object_ok_bound _ _ Hok) | apply (object_ok_bound _ _ Hok')
      | apply (object_ok_bound _ _ Hok) | apply (object_ok_bound _ _ Hok')].
    rewrite <- EF in Eo. destruct object as [k enc fs]. cbn [po_encoded po_kind] in *. subst k enc. unfold negotiation_object. f_equal.
    unfold fields_of, pair_of in Eo. cbn [po_fields] in Eo.
    change (List.map (fun f => {| pf_id := c_id f; pf_value := c_value f |}) (negotiation_fields i r s)) with
      (po_fields (negotiation_object i r s)). revert Eo. generalize (po_fields (negotiation_object i r s)).
    clear. induction fs as [| [] fs IH]; intros [| [] l]; cbn [List.map pf_id pf_value]; try done.
    intros [= -> -> E]. f_equal. by apply IH.
  - intros [-> HV]. pose proof (negotiation_parsed HV) as HP. unfold ParseObject in HP. by rewrite HP.
Qed.

(** The versions an offer was written with. *)
Lemma DecodeVersionRange_offer o : offer_valid o ->
  DecodeVersionRange (EncodeVersionRange (versions o)) = inr (versions o).
Proof using Type.
  intros []. unfold DecodeVersionRange.
  assert (E : {| CanonicalObjects.minimum := {| CanonicalObjects.v_major := at_ (EncodeVersionRange (versions o)) 0;
                                                CanonicalObjects.v_minor := at_ (EncodeVersionRange (versions o)) 1 |};
                 CanonicalObjects.maximum := {| CanonicalObjects.v_major := at_ (EncodeVersionRange (versions o)) 2;
                                                CanonicalObjects.v_minor := at_ (EncodeVersionRange (versions o)) 3 |} |} = versions o)
    by (by destruct (versions o) as [[] []]).
  rewrite E, (proj2 (Z.eqb_neq _ _) ov_lower0), (proj2 (Z.eqb_neq _ _) ov_upper0). cbn [orb].
  change CanonicalObjects.VersionLess with SessionWire.VersionLess. by rewrite ov_order0.
Qed.

Lemma offer_capabilities o l : offer_typed o -> offer_valid o ->
  l = offered_capabilities o \/ l = required_capabilities o -> CanonicalObjects.DecodeCapabilities (EncodeCapabilities l) = inr l /\ increasing l.
Proof using Type.
  intros [] [] H. assert (Forall (in_width 32) l /\ HasCanonicalCapabilities l = true) as [Hw Hc] by (by destruct H as [-> | ->]).
  split; [| by apply HasCanonicalCapabilities_increasing]. apply HasCanonicalCapabilities_iff in Hc as [? ?].
  apply canonical_DecodeCapabilities; [done |]. split; [done |]. split; [done | lia].
Qed.

(** A set of required capabilities that is not covered. *)
Lemma includes_search l q : increasing l -> increasing q ->
  existsb (fun required => negb (binary_search l required)) q = negb (includes l q).
Proof using Type.
  intros Hl Hq. apply eq_true_iff_eq. rewrite existsb_exists, negb_true_iff, <- not_true_iff_false, includes_iff by done. split.
  - intros (c & Hc & Hn%negb_true_iff) H. apply (Contains_spec l c Hl) in H; [| done]. unfold Contains in H. congruence.
  - intros H. assert (HE : ~ Forall (fun c => In c l) q) by (by rewrite List.Forall_forall).
    apply not_Forall_Exists in HE; [| intros c; apply (in_dec Z.eq_dec)].
    apply List.Exists_exists in HE as (c & Hc & Hn). exists c. split; [done |]. apply negb_true_iff, not_true_iff_false.
    intros E. by apply Hn, (Contains_spec l c Hl).
Qed.

(** The tests of the two sides, in their order. *)
Lemma selection_cases (upper : Version) (sel : list Z) (limits : list Z) (limits' : ReceiveLimits) (inc1 inc2 base : bool) decoded :
  (inc1 = true -> base = true) -> (decoded = inr (s_capabilities s) \/ s_capabilities s <> sel) ->
  (forall e, decoded = inl e -> e <> SecurityError.kNone) -> (forall cs, decoded = inr cs -> cs = s_capabilities s) ->
  ([max_body (s_limits s); max_in_flight (s_limits s); max_streams (s_limits s)] = limits <-> s_limits s = limits') ->
  (if negb (bool_decide (s_version s = upper)) then SecurityError.kDowngradeDetected
   else match decoded with
        | inl error => error
        | inr cs =>
            if negb inc1 then SecurityError.kUnsupportedCapability
            else if negb inc2 then SecurityError.kUnsupportedCapability
            else if negb (bool_decide (cs = sel)) then SecurityError.kDowngradeDetected
            else if negb (bool_decide ([max_body (s_limits s); max_in_flight (s_limits s); max_streams (s_limits s)] = limits)) then
              SecurityError.kDowngradeDetected
            else SecurityError.kNone
        end) = SecurityError.kNone <->
  (if negb inc1 || negb inc2 || negb base then inl PairingError.kMalformed
   else inr {| s_version := upper; s_capabilities := sel; s_limits := limits' |}) = inr s.
Proof.
  intros EB ES ED EC EL. assert (ER : {| s_version := upper; s_capabilities := sel; s_limits := limits' |} = s <->
    upper = s_version s /\ sel = s_capabilities s /\ limits' = s_limits s).
  { destruct s as [v c l]. cbn. split; [by intros [= -> -> ->] | by intros (-> & -> & ->)]. }
  destruct (bool_decide_reflect (s_version s = upper)) as [E1 | E1]; cbn [negb].
  2:{ split; [done |]. destruct (_ || _); [done |]. intros [= (? & _)%ER]. by subst. }
  destruct decoded as [e | cs].
  { split; [intros ->; by destruct (ED _ eq_refl) |]. destruct (_ || _); [done |]. intros [= (_ & E & _)%ER].
    by destruct ES as [| ES]; [| destruct ES]. }
  rewrite (EC cs eq_refl). destruct inc1; [rewrite EB by done | done]. destruct inc2; [| done]. cbn [negb orb].
  destruct (bool_decide_reflect (s_capabilities s = sel)) as [E2 | E2]; cbn [negb].
  2:{ split; [done |]. intros [= (_ & ? & _)%ER]. by subst. }
  destruct (bool_decide_reflect ([max_body (s_limits s); max_in_flight (s_limits s); max_streams (s_limits s)] = limits)) as [E3 | E3]; cbn [negb].
  - split; [| done]. intros _. f_equal. apply ER. by rewrite <- (proj1 EL E3).
  - split; [done |]. intros [= (_ & _ & ?)%ER]. destruct E3. by apply EL.
Qed.

Lemma negotiation_selection :
  ValidateNegotiationObject (negotiation_object i r s) = SecurityError.kNone <-> Select i r = inr s.
Proof.
  unfold Select. rewrite (proj2 (ValidateOffer_iff i) Vi), (proj2 (ValidateOffer_iff r) Vr), set_intersection_merge.
  unfold ValidateNegotiationObject.
  change (field (negotiation_object i r s) 1) with (U8 (role_code Role.kInitiator)).
  change (field (negotiation_object i r s) 6) with (U8 (role_code Role.kResponder)).
  change (field (negotiation_object i r s) 2) with (EncodeVersionRange (versions i)).
  change (field (negotiation_object i r s) 7) with (EncodeVersionRange (versions r)).
  change (field (negotiation_object i r s) 11) with (EncodeVersion (s_version s)).
  rewrite !DecodeVersionRange_offer by done. change CanonicalObjects.VersionLess with SessionWire.VersionLess.
  change (_ || _) with false at 1. cbv zeta.
  set (lower := if SessionWire.VersionLess (minimum (versions i)) (minimum (versions r)) then _ else _).
  set (upper := if SessionWire.VersionLess (maximum (versions i)) (maximum (versions r)) then _ else _).
  destruct (SessionWire.VersionLess upper lower); [done |].
  assert (EV : {| CanonicalObjects.v_major := at_ (EncodeVersion (s_version s)) 0;
                  CanonicalObjects.v_minor := at_ (EncodeVersion (s_version s)) 1 |} = s_version s)
    by (by destruct (s_version s)).
  rewrite EV. unfold ValidateCapabilities.
  change (field (negotiation_object i r s) 3) with (EncodeCapabilities (offered_capabilities i)).
  change (field (negotiation_object i r s) 4) with (EncodeCapabilities (required_capabilities i)).
  change (field (negotiation_object i r s) 8) with (EncodeCapabilities (offered_capabilities r)).
  change (field (negotiation_object i r s) 9) with (EncodeCapabilities (required_capabilities r)).
  change (field (negotiation_object i r s) 12) with (EncodeCapabilities (s_capabilities s)).
  change (field (negotiation_object i r s) 5) with (EncodeLimits (receive_limits i)).
  change (field (negotiation_object i r s) 10) with (EncodeLimits (receive_limits r)).
  change (field (negotiation_object i r s) 13) with (EncodeLimits (s_limits s)).
  destruct (offer_capabilities i _ Ti Vi (or_introl eq_refl)) as [-> Ii], (offer_capabilities i _ Ti Vi (or_intror eq_refl)) as [-> Qi],
    (offer_capabilities r _ Tr Vr (or_introl eq_refl)) as [-> Ir], (offer_capabilities r _ Tr Vr (or_intror eq_refl)) as [-> Qr].
  pose proof (Intersection_increasing _ _ Ii Ir) as Is. set (sel := Intersection (offered_capabilities i) (offered_capabilities r)) in *.
  rewrite !includes_search, !canonical_DecodeLimits by (done || apply Ti || apply Tr || apply Ts).
  change CanonicalObjects.kBaseTransferV1 with SessionWire.kBaseTransferV1.
  rewrite (ov_base_offered i Vi), (ov_base_offered r Vr), (ov_base_required i Vi). cbn [andb orb negb].
  assert (EB : includes sel (required_capabilities i) = true -> binary_search sel SessionWire.kBaseTransferV1 = true).
  { rewrite includes_iff by done. intros H. apply (Contains_spec sel _ Is), H. apply (Contains_spec _ _ Qi). apply Vi. }
  assert (ES : CanonicalObjects.DecodeCapabilities (EncodeCapabilities (s_capabilities s)) = inr (s_capabilities s) \/ s_capabilities s <> sel).
  { destruct (decide (s_capabilities s = sel)) as [E | E]; [left | by right]. apply canonical_DecodeCapabilities; [apply Ts |].
    split; [done |]. rewrite E. unfold sel. destruct (proj1 (HasCanonicalCapabilities_iff _) (ov_offered i Vi)) as [Hn HO].
    pose proof (length_Intersection (offered_capabilities i) (offered_capabilities r)).
    split; [by apply canonical_order_Intersection | lia]. }
  assert (ED : forall e, CanonicalObjects.DecodeCapabilities (EncodeCapabilities (s_capabilities s)) = inl e -> e <> SecurityError.kNone)
    by (intros e He ->; by apply DecodeCapabilities_error in He).
  assert (EC : forall cs, CanonicalObjects.DecodeCapabilities (EncodeCapabilities (s_capabilities s)) = inr cs -> cs = s_capabilities s)
    by (intros cs Hcs; apply canonical_DecodeCapabilities in Hcs as [? _]; [done | apply Ts]).
  assert (EL : [max_body (s_limits s); max_in_flight (s_limits s); max_streams (s_limits s)] =
    zip_with Z.min [max_body (receive_limits i); max_in_flight (receive_limits i); max_streams (receive_limits i)]
      [max_body (receive_limits r); max_in_flight (receive_limits r); max_streams (receive_limits r)] <->
    s_limits s = min_limits (receive_limits i) (receive_limits r)).
  { cbn [zip_with]. unfold min_limits. destruct (s_limits s); cbn. split; [by intros [= -> -> ->] | by intros [= -> -> ->]]. }
  apply selection_cases; done.
Qed.
End Negotiation.

(** ** Messages *)

(** The fields with the ids from [index + 1] on. *)
Fixpoint make_fields (index : Z) (types : list WireType.WireType) (values : list bytes) : list Field :=
  match types, values with
  | type :: types, value :: values =>
      {| f_id := index + 1; f_type := type; f_value := value |} :: make_fields (index + 1) types values
  | _, _ => []
  end.

Lemma HasFields_make frame types : HasFields frame types = true ->
  exists values, length values = length types /\ fr_fields frame = make_fields 0 types values.
Proof.
  unfold HasFields. destruct (Nat.eqb_spec (length (fr_fields frame)) (length types)) as [E |]; [| done]. cbn [negb].
  intros H. exists (List.map f_value (fr_fields frame)). rewrite length_map. split; [done |]. revert types E H. generalize 0.
  induction (fr_fields frame) as [| [id t v] fields IH]; intros k [| type types] E; cbn in E; try done.
  cbn [HasFields_loop List.map make_fields f_id f_type f_value].
  destruct (Z.eqb_spec id (k + 1)) as [-> |], (bool_decide_reflect (t = type)) as [-> |]; try done. cbn [negb orb].
  intros H. f_equal. apply IH; [lia | done].
Qed.

Ltac split_values H :=
  repeat match type of H with
  | length ?v = S _ => is_var v; let a := fresh "v" in destruct v as [| a v]; [discriminate H |]; cbn [length] in H; apply Nat.succ_inj in H
  | length ?v = O => is_var v; destruct v; [clear H | discriminate H]
  end.

(** A message that is decoded from a frame. *)
Definition received (encoded : bytes) (sequence : Z) (frame : Frame) : Prop :=
  ParseFrame encoded = inr frame /\ fr_sequence frame = sequence.

Lemma received_iff encoded sequence frame : all_bytes encoded ->
  received encoded sequence frame <->
  frame_ok frame /\ fr_sequence frame = sequence /\ encoded = EncodeFrame (fr_type frame) sequence (fr_fields frame).
Proof.
  intros Hb. unfold received. rewrite ParseFrame_iff by done. split.
  - intros [[Hok ->] <-]. split; [done |]. split; [done |]. by rewrite EncodeFrame_bytes.
  - intros (Hok & <- & ->). by rewrite EncodeFrame_bytes.
Qed.

Lemma two_bytes l v : all_bytes l -> bsize l = 2 -> ReadU16 l = v -> l = be_bytes 2 v.
Proof. intros Hl Hs <-. rewrite ReadU16_v1 by done. symmetry. by apply ReadU16_span. Qed.

Lemma U16_be v : U16 v = be_bytes 2 v.
Proof. unfold U16. by rewrite AppendU16_be. Qed.

(** What a hello message says. *)
Record hello_says (role : Role.Role) (key : bytes) (h : Hello) : Prop := {
  hs_role : h_role h = role;
  hs_key : h_key h = Some key;
  hs_valid : ValidateEd25519PublicKey key = inr key;
  hs_key_size : bsize key = 32 /\ all_bytes key;
  hs_nonce : bsize (h_nonce h) = 32 /\ all_bytes (h_nonce h);
  hs_typed : offer_typed (h_offer h);
  hs_offer : ValidateOffer (h_offer h) = PairingError.kNone;
}.

Lemma offer_body_size role key nonce offer : bsize key = 32 -> bsize nonce = 32 -> offer_valid offer ->
  bsize (pairing_body (hello_fields role key nonce offer)) <= kMaxPairingBodySize.
Proof.
  intros Hk Hn []. apply HasCanonicalCapabilities_iff in ov_offered0 as [? _], ov_required0 as [? _].
  pose proof (bsize_EncodeCapabilities (offered_capabilities offer) ltac:(lia)) as [? _].
  pose proof (bsize_EncodeCapabilities (required_capabilities offer) ltac:(lia)) as [? _].
  destruct (EncodeLimits_size (receive_limits offer)) as [? _].
  unfold hello_fields, pairing_body, kMaxPairingBodySize. cbn [List.map concat]. rewrite !bsize_app, !bsize_pairing_field.
  cbn [f_value]. rewrite U16_be, bsize_be_bytes. change (bsize (U8 _)) with 1. change (bsize (EncodeVersionRange _)) with 4.
  change (bsize []) with 0. lia.
Qed.

Ltac forall_fields :=
  repeat match goal with |- Forall _ (_ :: _) => apply list.Forall_cons; split end; [.. | apply list.Forall_nil; done].

Lemma hello_frame_ok role key h sequence : in_width 32 sequence -> hello_says role key h ->
  frame_ok {| fr_type := PairingMessageType.kHello; fr_sequence := sequence; fr_fields := hello_fields role key (h_nonce h) (h_offer h) |}.
Proof.
  intros Hs [Hr Hk Hv [Sk Bk] [Sn Bn] Ht Ho%ValidateOffer_iff].
  pose proof (offer_body_size role key (h_nonce h) (h_offer h) Sk Sn Ho). destruct Ho.
  apply HasCanonicalCapabilities_iff in ov_offered0 as [? _], ov_required0 as [? _].
  destruct (bsize_EncodeCapabilities (offered_capabilities (h_offer h)) ltac:(lia)) as [? ?].
  destruct (bsize_EncodeCapabilities (required_capabilities (h_offer h)) ltac:(lia)) as [? ?].
  destruct (EncodeLimits_size (receive_limits (h_offer h))) as [? ?]. destruct Ht as [[[? ?] [? ?]] _ _ _].
  split; cbn [fr_sequence fr_fields]; [done | | cbn [field_ids hello_fields f_id]; lia | cbn; unfold kMaxPairingFields; lia | done].
  unfold hello_fields. forall_fields; unfold field_ok; cbn [f_id f_type f_value FixedLength]; (split; [done |]).
  all: rewrite ?U16_be; try (split; [first [done | auto with xnn] |]; split; [unfold in_width; lia | done]).
  - split; [by repeat constructor; destruct role |]. by split.
  - split; [auto with xnn |]. by split.
  - split; [unfold EncodeVersionRange; do 4 (apply Forall_cons_2; [done |]); by constructor |]. by split.
Qed.

Lemma one_byte (v : bytes) x : bsize v = 1 -> at_ v 0 = x -> v = [x].
Proof. destruct v as [| y [| z v]]; [done | | unfold bsize; cbn; lia]. by intros _ <-. Qed.

(** The bytes of a range of versions. *)
Lemma range_bytes v : all_bytes v -> bsize v = 4 ->
  let r := {| CanonicalObjects.minimum := {| CanonicalObjects.v_major := at_ v 0; CanonicalObjects.v_minor := at_ v 1 |};
              CanonicalObjects.maximum := {| CanonicalObjects.v_major := at_ v 2; CanonicalObjects.v_minor := at_ v 3 |} |} in
  v = EncodeVersionRange r /\ range_typed r.
Proof.
  intros H E. destruct v as [| a [| b [| c [| d [| e v]]]]]; try (unfold bsize in E; cbn in E; lia).
  repeat (apply list.Forall_cons in H as [? H]). done.
Qed.

Lemma version_bytes v : all_bytes v -> bsize v = 2 ->
  let r := {| CanonicalObjects.v_major := at_ v 0; CanonicalObjects.v_minor := at_ v 1 |} in
  v = EncodeVersion r /\ version_typed r.
Proof.
  intros H E. destruct v as [| a [| b [| c v]]]; try (unfold bsize in E; cbn in E; lia).
  repeat (apply list.Forall_cons in H as [? H]). done.
Qed.

Lemma role_code_inj a b : role_code a = role_code b -> a = b.
Proof. by destruct a, b. Qed.

(** A key that is accepted is returned as it was given. *)
Lemma ValidateEd25519PublicKey_same v key : ValidateEd25519PublicKey v = inr key -> key = v.
Proof. unfold ValidateEd25519PublicKey. repeat (case_match; try done). by intros [= <-]. Qed.

Lemma DecodeHello_fields sequence role key h : hello_says role key h ->
  DecodeHello {| fr_type := PairingMessageType.kHello; fr_sequence := sequence;
                 fr_fields := hello_fields role key (h_nonce h) (h_offer h) |} role key = inr h.
Proof.
  intros [Hr Hk Hv [Sk Bk] [Sn Bn] [Tv To Tq Tl] Ho]. pose proof Ho as HV%ValidateOffer_iff. destruct HV.
  unfold DecodeHello, nth_value. cbn [fr_type fr_fields hello_fields lookup list_lookup f_value].
  destruct (EncodeLimits_size (receive_limits (h_offer h))) as [-> _]. rewrite Sn, Sk.
  change (bsize (EncodeVersionRange _)) with 4. change (at_ (U8 _) 0) with (role_code role). rewrite !Z.eqb_refl.
  change (negb (bool_decide _)) with false. change (HasFields _ _) with true. cbn [negb orb].
  rewrite Hv. cbn [negb]. rewrite (proj2 (same_bytes_true key key) eq_refl). cbn [negb].
  assert (HD : forall l, HasCanonicalCapabilities l = true -> Forall (in_width 32) l ->
    SessionWire.DecodeCapabilities (EncodeCapabilities l) = inr l).
  { intros l HC HW. pose proof HC as [? _]%HasCanonicalCapabilities_iff. apply DecodeCapabilities_iff; [| done].
    apply bsize_EncodeCapabilities. lia. }
  rewrite !HD by done. rewrite DecodeLimits_EncodeLimits by done.
  assert (EO : {| versions := {|
      CanonicalObjects.minimum := {| CanonicalObjects.v_major := at_ (EncodeVersionRange (versions (h_offer h))) 0;
                                     CanonicalObjects.v_minor := at_ (EncodeVersionRange (versions (h_offer h))) 1 |};
      CanonicalObjects.maximum := {| CanonicalObjects.v_major := at_ (EncodeVersionRange (versions (h_offer h))) 2;
                                     CanonicalObjects.v_minor := at_ (EncodeVersionRange (versions (h_offer h))) 3 |} |};
      offered_capabilities := offered_capabilities (h_offer h); required_capabilities := required_capabilities (h_offer h);
      receive_limits := receive_limits (h_offer h) |} = h_offer h)
    by (by destruct (h_offer h) as [[[] []] ? ? ?]).
  rewrite EO, Ho, <- Hk, <- Hr. by destruct h.
Qed.

Lemma DecodeHello_sound frame role key h : frame_ok frame -> DecodeHello frame role key = inr h ->
  fr_type frame = PairingMessageType.kHello /\ fr_fields frame = hello_fields role key (h_nonce h) (h_offer h) /\
  hello_says role key h.
Proof.
  intros [_ Hf _ _ _]. unfold DecodeHello.
  destruct (bool_decide_reflect (fr_type frame = PairingMessageType.kHello)) as [ET |]; [| done].
  destruct (HasFields frame kHelloTypes) eqn:EH; [| done]. apply HasFields_make in EH as (values & EL & EF).
  cbn [kHelloTypes length] in EL. split_values EL. unfold nth_value. rewrite EF in *. cbn [make_fields kHelloTypes lookup list_lookup f_value] in *.
  repeat (apply list.Forall_cons in Hf as [(_ & ? & _ & ?) Hf]). cbn [f_value f_type FixedLength] in *. clear Hf.
  rename v into role_, v0 into nonce, v1 into key_, v2 into profile, v3 into range, v4 into offered, v5 into required, v6 into limits.
  destruct (_ || _) eqn:ES; [done |]. cbn [negb orb] in ES. rewrite !orb_false_iff, !negb_false_iff, !Z.eqb_eq in ES.
  destruct ES as (((Sn & Sk) & Sv) & Sl).
  destruct (Z.eqb_spec (at_ role_ 0) (role_code role)) as [ER |]; [| done]. apply one_byte in ER; [| auto].
  destruct (Z.eqb_spec (ReadU16 profile) kSecurityProfileV1) as [EP |]; [| done]. apply two_bytes in EP; [| done | auto].
  destruct (ValidateEd25519PublicKey key_) as [| key'] eqn:EK; [done |]. pose proof EK as ->%ValidateEd25519PublicKey_same.
  destruct (same_bytes key_ key) eqn:EQ; [apply same_bytes_true in EQ; subst key_ | done]. cbn [negb].
  destruct (SessionWire.DecodeCapabilities offered) as [| oc] eqn:EO; [done |]. apply DecodeCapabilities_iff in EO as (Co & Wo & EO); [| done].
  destruct (SessionWire.DecodeCapabilities required) as [| rc] eqn:EC; [done |]. apply DecodeCapabilities_iff in EC as (Cr & Wr & EC); [| done].
  destruct (range_bytes range) as [EV TV]; [done.. |]. destruct (EncodeLimits_DecodeLimits limits) as [EL TL]; [done.. |].
  set (offer := {| versions := _; offered_capabilities := _; required_capabilities := _; receive_limits := _ |}).
  destruct (ValidateOffer offer) eqn:EA; try done. intros [= <-]. cbn [h_nonce h_offer]. split; [done |].
  split; [| by split]. unfold hello_fields, offer. cbn [versions offered_capabilities required_capabilities receive_limits].
  rewrite EL, <- EO, <- EC, <- EV, ER, EP. done.
Qed.

Lemma selection_fields_ok s sequence type : in_width 32 sequence -> selection_typed s ->
  frame_ok {| fr_type := type; fr_sequence := sequence; fr_fields := selection_fields s |}.
Proof.
  intros Hs [[? ?] _ Hc _]. destruct (bsize_EncodeCapabilities (s_capabilities s) Hc) as [? ?].
  destruct (EncodeLimits_size (s_limits s)) as [? ?]. split; cbn [fr_sequence fr_fields]; [done | | cbn [field_ids selection_fields f_id]; lia
    | cbn; unfold kMaxPairingFields; lia |].
  - unfold selection_fields. forall_fields; unfold field_ok; cbn [f_id f_type f_value FixedLength]; (split; [done |]).
    + split; [unfold EncodeVersion; do 2 (apply Forall_cons_2; [done |]); by constructor |]. by split.
    + split; [done |]. split; [unfold in_width; lia | done].
    + split; [done |]. split; [unfold in_width; lia | done].
  - unfold selection_fields, pairing_body, kMaxPairingBodySize. cbn [List.map concat]. rewrite !bsize_app, !bsize_pairing_field.
    cbn [f_value]. change (bsize (EncodeVersion _)) with 2. change (bsize []) with 0. lia.
Qed.

(** What a selection message says. *)
Definition selection_says (s : Selection) : Prop := selection_typed s /\ HasCanonicalCapabilities (s_capabilities s) = true.

Definition selects (type : PairingMessageType.PairingMessageType) : Prop :=
  type = PairingMessageType.kSelect \/ type = PairingMessageType.kSelectAck.

Lemma DecodeSelection_fields type sequence s : selects type -> selection_says s ->
  DecodeSelection {| fr_type := type; fr_sequence := sequence; fr_fields := selection_fields s |} = inr s.
Proof.
  intros HT [[_ Wc Nc Tl] HC]. unfold DecodeSelection, nth_value. cbn [fr_type fr_fields selection_fields lookup list_lookup f_value].
  destruct (EncodeLimits_size (s_limits s)) as [-> _]. change (bsize (EncodeVersion _)) with 2.
  change (HasFields _ _) with true. destruct (bsize_EncodeCapabilities (s_capabilities s) Nc) as [_ Hb].
  rewrite (proj2 (DecodeCapabilities_iff _ (s_capabilities s) Hb)), DecodeLimits_EncodeLimits by done.
  assert (E : {| CanonicalObjects.v_major := at_ (EncodeVersion (s_version s)) 0;
                 CanonicalObjects.v_minor := at_ (EncodeVersion (s_version s)) 1 |} = s_version s) by (by destruct (s_version s)).
  rewrite E. by destruct HT as [-> | ->], s.
Qed.

Lemma DecodeSelection_sound frame s : frame_ok frame -> DecodeSelection frame = inr s ->
  selects (fr_type frame) /\ fr_fields frame = selection_fields s /\ selection_says s.
Proof.
  intros [_ Hf _ _ _]. unfold DecodeSelection.
  destruct (negb _ && negb _) eqn:ET; [done |].
  assert (HT : selects (fr_type frame)).
  { apply andb_false_iff in ET as [E | E]; apply negb_false_iff, bool_decide_eq_true in E; [by left | by right]. }
  destruct (HasFields _ _) eqn:EH; [| done]. apply HasFields_make in EH as (values & EL & EF). cbn [length] in EL. split_values EL.
  unfold nth_value. rewrite EF in *. cbn [make_fields lookup list_lookup f_value negb orb] in *.
  repeat (apply list.Forall_cons in Hf as [(_ & ? & _ & ?) Hf]). cbn [f_value] in *. clear Hf.
  destruct (Z.eqb_spec (bsize v) 2) as [Sv |]; [| done]. destruct (Z.eqb_spec (bsize v1) 10) as [Sl |]; [| done]. cbn [negb orb].
  destruct (SessionWire.DecodeCapabilities v0) as [| caps] eqn:EC; [done |]. apply DecodeCapabilities_iff in EC as (HC & HW & EC); [| done].
  intros [= <-]. destruct (version_bytes v) as [EV TV]; [done.. |]. destruct (EncodeLimits_DecodeLimits v1) as [EL TL]; [done.. |].
  split; [done |]. split.
  - unfold selection_fields. cbn [s_version s_capabilities s_limits]. by rewrite EL, <- EC, <- EV.
  - split; [| done]. pose proof HC as [? _]%HasCanonicalCapabilities_iff. split; try done. cbn. unfold kMaximumCapabilities. lia.
Qed.

(** A hello message is accepted from its encoding only. *)
Lemma hello_iff encoded sequence role key h : all_bytes encoded ->
  (exists frame, received encoded sequence frame /\ DecodeHello frame role key = inr h) <->
  in_width 32 sequence /\ hello_says role key h /\ encoded = EncodeHello sequence role key (h_nonce h) (h_offer h).
Proof.
  intros Hb. split.
  - intros (frame & HR & HD). apply received_iff in HR as (Hok & <- & E); [| done].
    destruct (DecodeHello_sound frame role key h Hok HD) as (ET & EF & Hs). rewrite ET, EF in E. destruct Hok. done.
  - intros (Hw & Hs & E). pose proof (hello_frame_ok role key h sequence Hw Hs) as Hok. eexists. split.
    + apply received_iff; [done |]. split; [exact Hok |]. split; [done | exact E].
    + by apply DecodeHello_fields.
Qed.

Lemma selection_iff encoded sequence s : all_bytes encoded ->
  (exists frame, received encoded sequence frame /\ DecodeSelection frame = inr s) <->
  in_width 32 sequence /\ selection_says s /\ exists type, selects type /\ encoded = EncodeSelection type sequence s.
Proof.
  intros Hb. split.
  - intros (frame & HR & HD). apply received_iff in HR as (Hok & <- & E); [| done].
    destruct (DecodeSelection_sound frame s Hok HD) as (ET & EF & Hs). rewrite EF in E. destruct Hok.
    split; [done |]. split; [done |]. by exists (fr_type frame).
  - intros (Hw & Hs & type & HT & E). pose proof (selection_fields_ok s sequence type Hw (proj1 Hs)) as Hok. eexists. split.
    + apply received_iff; [done |]. split; [exact Hok |]. split; [done | exact E].
    + by apply DecodeSelection_fields.
Qed.

(** A decision carries its message and its code. *)
Definition decision_fields (value : SecurityProfile.AuthenticatedValue) : list Field :=
  [{| f_id := 1; f_type := WireType.kBytes; f_value := av_message value |};
   {| f_id := 2; f_type := WireType.kBytes; f_value := av_authenticator value |}].

Lemma decision_frame sequence value : in_width 32 sequence ->
  bsize (av_message value) = 34 -> bsize (av_authenticator value) = 32 -> all_bytes (av_message value) ->
  all_bytes (av_authenticator value) ->
  let frame := {| fr_type := PairingMessageType.kDecision; fr_sequence := sequence; fr_fields := decision_fields value |} in
  frame_ok frame /\ DecodeDecision frame = inr {| d_message := av_message value; d_authenticator := av_authenticator value |}.
Proof.
  intros Hw S1 S2 B1 B2. split.
  - split; cbn [fr_sequence fr_fields]; [done | | cbn; lia | cbn; unfold kMaxPairingFields; lia |].
    + unfold decision_fields. forall_fields; unfold field_ok; cbn [f_id f_type f_value FixedLength]; rewrite ?S1, ?S2; by split_and!.
    + unfold decision_fields, pairing_body, kMaxPairingBodySize. cbn [List.map concat]. rewrite !bsize_app, !bsize_pairing_field.
      cbn [f_value]. rewrite S1, S2. by vm_compute.
  - unfold DecodeDecision, nth_value. cbn. by rewrite S1, S2.
Qed.

Lemma abort_roundtrip sequence code : in_width 32 sequence -> in_width 16 code ->
  exists frame, received (EncodeAbort sequence code) sequence frame /\ fr_type frame = PairingMessageType.kAbort /\
    (DecodeAbort frame = PairingError.kNone <-> 1 <= code <= 4) /\ ReadU16 (nth_value frame 0) = code.
Proof.
  intros Hw Hc. set (fields := [{| f_id := 1; f_type := WireType.kU16; f_value := U16 code |}]).
  exists {| fr_type := PairingMessageType.kAbort; fr_sequence := sequence; fr_fields := fields |}.
  assert (EC : ReadU16 (U16 code) = code) by (by rewrite U16_be, pairing_ReadU16_be).
  split; [split; [| done] | split; [done |]]; [| split; [| exact EC]].
  - unfold EncodeAbort. apply EncodeFrame_parsed. split; cbn [fr_sequence fr_fields]; [done | | cbn; lia | cbn; unfold kMaxPairingFields; lia |].
    + unfold fields. forall_fields; unfold field_ok; cbn [f_id f_type f_value FixedLength]; rewrite U16_be. split; [done |].
      split; [auto with xnn |]. by split.
    + by vm_compute.
  - unfold DecodeAbort. change (nth_value _ 0) with (U16 code). rewrite EC. cbn.
    destruct (Z.geb_spec code 1), (Z.leb_spec code 4); cbn; split; intros; done || lia.
Qed.

(** ** The theorems *)

(** C23: A byte string is accepted as a frame of pairing exactly when it is the
    encoding of a frame: the header, at most sixteen fields with increasing ids
    whose values have the size of their type, a body of at most 4096 bytes. *)
Theorem pairing_frame_iff encoded frame : all_bytes encoded ->
  ParseFrame encoded = inr frame <-> frame_ok frame /\ encoded = pairing_frame frame.
Proof. apply ParseFrame_iff. Qed.

(** C22: A hello is accepted, for a role and a key, exactly from the bytes
    [EncodeHello] writes for that role and that valid key, a nonce and a valid
    offer, and a selection exactly from those [EncodeSelection] writes; what is
    decoded is what was encoded. *)
Theorem pairing_messages_exact encoded sequence : all_bytes encoded ->
  (forall role key h,
    (exists frame, received encoded sequence frame /\ DecodeHello frame role key = inr h) <->
    in_width 32 sequence /\ hello_says role key h /\ encoded = EncodeHello sequence role key (h_nonce h) (h_offer h)) /\
  (forall s,
    (exists frame, received encoded sequence frame /\ DecodeSelection frame = inr s) <->
    in_width 32 sequence /\ selection_says s /\ exists type, selects type /\ encoded = EncodeSelection type sequence s).
Proof. intros Hb. split; intros; [by apply hello_iff | by apply selection_iff]. Qed.

(** C17: Of two valid offers the security profile accepts one negotiation only,
    the one with the selection that both sides compute with [Select]; and it
    accepts that one. *)
Theorem selection_negotiated initiator responder selection :
  offer_typed (h_offer initiator) -> offer_typed (h_offer responder) -> selection_typed selection ->
  ValidateOffer (h_offer initiator) = PairingError.kNone -> ValidateOffer (h_offer responder) = PairingError.kNone ->
  (exists negotiation, BuildNormalizedNegotiation initiator responder selection = inr negotiation) <->
  Select (h_offer initiator) (h_offer responder) = inr selection.
Proof.
  intros Ti Tr Ts Vi%ValidateOffer_iff Vr%ValidateOffer_iff. rewrite <- negotiation_selection by done. split.
  - intros [n E]. by apply (Build_iff (h_offer initiator) (h_offer responder) selection) in E as [_ E].
  - intros E. eexists. by apply (Build_iff (h_offer initiator) (h_offer responder) selection).
Qed.

Module SessionWireExample.

Definition offer (caps : list Z) (lo hi : Z) (streams : Z) : NegotiationOffer :=
  {| versions := {| CanonicalObjects.minimum := {| CanonicalObjects.v_major := 1; CanonicalObjects.v_minor := lo |};
                    CanonicalObjects.maximum := {| CanonicalObjects.v_major := 1; CanonicalObjects.v_minor := hi |} |};
     offered_capabilities := caps; required_capabilities := [0x10001];
     receive_limits := {| max_body := 65536; max_in_flight := 1048576; max_streams := streams |} |}.

Definition offer_a : NegotiationOffer := offer [0x10001; 0x20001; 0x30001] 0 3 4.
Definition offer_b : NegotiationOffer := offer [0x10001; 0x30001; 0x40001] 1 2 8.

Definition selected : Selection :=
  {| s_version := {| CanonicalObjects.v_major := 1; CanonicalObjects.v_minor := 2 |}; s_capabilities := [0x10001; 0x30001];
     s_limits := {| max_body := 65536; max_in_flight := 1048576; max_streams := 4 |} |}.

Lemma offers_typed : offer_typed offer_a /\ offer_typed offer_b.
Proof. split; split; try done; by repeat constructor. Qed.

Lemma selected_typed : selection_typed selected.
Proof. split; try done; by repeat constructor. Qed.

Definition hello_a : Hello := {| h_role := Role.kInitiator; h_nonce := repeat 7 32; h_key := None; h_offer := offer_a |}.
Definition hello_b : Hello := {| h_role := Role.kResponder; h_nonce := repeat 9 32; h_key := None; h_offer := offer_b |}.

Lemma selection_negotiated_witness : exists negotiation, BuildNormalizedNegotiation hello_a hello_b selected = inr negotiation.
Proof.
  apply (selection_negotiated hello_a hello_b selected); [apply offers_typed | apply offers_typed | exact selected_typed | ..]; reflexivity.
Defined.

(** A weaker version than the highest common one is refused by both. *)
Example weaker_version_refused :
  let weaker := {| s_version := {| CanonicalObjects.v_major := 1; CanonicalObjects.v_minor := 1 |};
                   s_capabilities := [0x10001; 0x30001]; s_limits := s_limits selected |} in
  BuildNormalizedNegotiation hello_a hello_b weaker = inl SecurityError.kDowngradeDetected.
Proof. by lazy. Qed.

Definition select_frame : Frame :=
  {| fr_type := PairingMessageType.kSelect; fr_sequence := 2; fr_fields := selection_fields selected |}.

Lemma select_frame_ok : frame_ok select_frame.
Proof. apply selection_fields_ok; [done | exact selected_typed]. Qed.

Lemma pairing_frame_iff_witness :
  all_bytes (pairing_frame select_frame) /\ ParseFrame (pairing_frame select_frame) = inr select_frame.
Proof.
  assert (H : all_bytes (pairing_frame select_frame)) by (apply all_bytes_pairing_frame, select_frame_ok).
  split; [exact H |]. apply (pairing_frame_iff (pairing_frame select_frame) select_frame H).
  split; [exact select_frame_ok | reflexivity].
Defined.

Lemma pairing_messages_exact_witness :
  exists frame, received (EncodeSelection PairingMessageType.kSelect 2 selected) 2 frame /\ DecodeSelection frame = inr selected.
Proof.
  assert (H : all_bytes (EncodeSelection PairingMessageType.kSelect 2 selected)) by (apply (bool_decide_eq_true_1 _); by vm_compute).
  apply (proj2 (pairing_messages_exact _ 2 H)). split; [done |]. split; [split; [exact selected_typed | reflexivity] |].
  exists PairingMessageType.kSelect. split; [by left | reflexivity].
Defined.

End SessionWireExample.
