(* ===== verification/Admission.v ===== *)
(** * Admission of pairing connections

    [native/src/session/admission.cpp]: the table of the pairing connections of
    a process, with the token buckets that limit how often one may be opened,
    and the controllers and leases that share it.

    The state is shared by pointer and guarded by its mutex; every method is one
    critical section and a function of the state here.  A controller is its
    [owner_generation_] and a lease is its connection id and generation;
    controllers and leases that were moved from have no state and are left out.
    A [unique_ptr] that goes out of scope releases its lease.  A generation
    counter that wraps around stays at zero, which means that none are left.
    Allocations succeed. *)

From S2P Require Import Prelude.
From S2P Require Import Transfer.
From S2P Require Import SecurityTypes.
From S2P Require Import SessionWire.

Module Admission.
Import SessionWire.

(** ** Constants *)

Definition kMaximumPairingWindowMs : Z := 120000.
Definition kMaxIncompletePairingHandshakes : Z := 8.
Definition kMaxIncompletePairingHandshakesPerSource : Z := 2.
Definition kReservedUserInitiatedPairingSlots : Z := 1.
Definition kMaxVisiblePairingAttempts : Z := 1.
Definition kGlobalAdmissionBucketCapacity : Z := 16.
Definition kSourceAdmissionBucketCapacity : Z := 4.
Definition kGlobalAdmissionRefillMs : Z := 1000.
Definition kSourceAdmissionRefillMs : Z := 15000.
Definition kMaxTrackedSourceBuckets : Z := 64.

Definition AllZero (l : bytes) : bool :=
  fold_left (fun accumulator byte => u8 (Z.lor accumulator byte)) l 0 =? 0.

Definition CheckedDeadline (base duration : Z) : Z :=
  if base >? umax 64 - duration then umax 64 else base + duration.

(** ** State *)

Record Bucket := {
  tokens : Z;
  last_refill_ms : Z;
}.

Record SourceBucket := {
  sb_source : bytes;
  sb_bucket : Bucket;
}.

Record Owner := {
  ow_generation : Z;
  ow_window_generation : Z;
  ow_window_enabled : bool;
  ow_window_deadline_ms : Z;
}.

Record Entry := {
  connection_id : bytes;
  lease_generation : Z;
  owner_generation : Z;
  source : bytes;
  local_key : bytes;
  peer_key : bytes;
  local_role : Role.Role;
  user_initiated : bool;
  visible : bool;
  bound : bool;
  admitted_at_ms : Z;
  window_deadline_ms : Z;
}.
#[global] Instance eta_Entry : Eta Entry := fun x =>
  {| connection_id := connection_id x; lease_generation := lease_generation x; owner_generation := owner_generation x;
     source := source x; local_key := local_key x; peer_key := peer_key x; local_role := local_role x;
     user_initiated := user_initiated x; visible := visible x; bound := bound x; admitted_at_ms := admitted_at_ms x;
     window_deadline_ms := window_deadline_ms x |}.

Record PairingAdmissionState := {
  initialized : bool;
  global_bucket : Bucket;
  next_lease_generation : Z;
  next_owner_generation : Z;
  next_window_generation : Z;
  source_buckets : list SourceBucket;
  entries : list Entry;
  owners : list Owner;
}.
#[global] Instance eta_PairingAdmissionState : Eta PairingAdmissionState := fun x =>
  {| initialized := initialized x; global_bucket := global_bucket x; next_lease_generation := next_lease_generation x;
     next_owner_generation := next_owner_generation x; next_window_generation := next_window_generation x;
     source_buckets := source_buckets x; entries := entries x; owners := owners x |}.

Definition PairingAdmissionState_initial : PairingAdmissionState :=
  {| initialized := false; global_bucket := {| tokens := 0; last_refill_ms := 0 |}; next_lease_generation := 1;
     next_owner_generation := 1; next_window_generation := 1; source_buckets := []; entries := []; owners := [] |}.

Record PairingAdmissionRequest := {
  rq_connection_id : bytes;
  rq_source : bytes;
  rq_local_key : bytes;
  rq_peer_key : bytes;
  rq_local_role : Role.Role;
  rq_user_initiated : bool;
  rq_now_ms : Z;
}.

Record PairingAdmissionLease := {
  ls_connection_id : bytes;
  ls_generation : Z;
}.

Record PairingAdmissionResult := {
  ad_error : PairingError.PairingError;
  ad_displaced_connection : option bytes;
  ad_lease : option PairingAdmissionLease;
}.

Definition accepted (result : PairingAdmissionResult) : bool :=
  bool_decide (ad_error result = PairingError.kNone) && bool_decide (is_Some (ad_lease result)).

(** A result with an error and nothing else. *)
Definition rejected (error : PairingError.PairingError) : PairingAdmissionResult :=
  {| ad_error := error; ad_displaced_connection := None; ad_lease := None |}.

(** ** The table *)

Definition Refill (bucket : Bucket) (now_ms interval_ms capacity : Z) : Bucket :=
  if (now_ms <=? last_refill_ms bucket) || (tokens bucket =? capacity) then
    if (now_ms >? last_refill_ms bucket) && (tokens bucket =? capacity)
    then {| tokens := tokens bucket; last_refill_ms := now_ms |} else bucket
  else
  let intervals := (now_ms - last_refill_ms bucket) / interval_ms in
  if intervals =? 0 then bucket
  else
  let refill := if intervals >=? capacity then capacity else intervals in
  {| tokens := Z.min capacity (tokens bucket + refill);
     last_refill_ms := CheckedDeadline (last_refill_ms bucket) (wrap 64 (intervals * interval_ms)) |}.

Definition IsRole (role : Role.Role) : bool :=
  bool_decide (role = Role.kInitiator) || bool_decide (role = Role.kResponder).

Definition ActiveForSource (source_token : bytes) (s : PairingAdmissionState) : Z :=
  count_if (fun entry => same_bytes (source entry) source_token) (entries s).

Definition SourceIsActive (source_token : bytes) (s : PairingAdmissionState) : bool :=
  negb (ActiveForSource source_token s =? 0).

Definition PruneSourceBuckets (now_ms : Z) (s : PairingAdmissionState) : PairingAdmissionState :=
  let refilled := List.map (fun sb =>
    {| sb_source := sb_source sb;
       sb_bucket := Refill (sb_bucket sb) now_ms kSourceAdmissionRefillMs kSourceAdmissionBucketCapacity |})
    (source_buckets s) in
  s <| source_buckets := List.filter (fun sb => negb ((tokens (sb_bucket sb) =? kSourceAdmissionBucketCapacity) &&
                                                      negb (SourceIsActive (sb_source sb) s))) refilled |>.

(** [FindSource], [Find] and [FindOwner]: the position, or the value, of the first match. *)
Definition FindSource (source_token : bytes) (s : PairingAdmissionState) : option nat :=
  find_if (fun candidate => same_bytes (sb_source candidate) source_token) (source_buckets s).

Definition FindConnection (id : bytes) (s : PairingAdmissionState) : option nat :=
  find_if (fun entry => same_bytes (connection_id entry) id) (entries s).

Definition FindOwner (generation : Z) (s : PairingAdmissionState) : option nat :=
  find_if (fun owner => ow_generation owner =? generation) (owners s).

(** The entry of a lease and its position. *)
Definition Find (lease : PairingAdmissionLease) (s : PairingAdmissionState) : option (nat * Entry) :=
  match FindConnection (ls_connection_id lease) s with
  | None => None
  | Some i =>
      match entries s !! i with
      | None => None
      | Some entry => if lease_generation entry =? ls_generation lease then Some (i, entry) else None
      end
  end.

Definition owner_at (generation : Z) (s : PairingAdmissionState) : option Owner :=
  match FindOwner generation s with
  | None => None
  | Some i => owners s !! i
  end.

Definition RegisterOwner (s : PairingAdmissionState) : PairingAdmissionState * Z :=
  if next_owner_generation s =? 0 then (s, 0)
  else
  let generation := next_owner_generation s in
  let owner := {| ow_generation := generation; ow_window_generation := 0; ow_window_enabled := false;
                  ow_window_deadline_ms := 0 |} in
  (s <| owners := owners s ++ [owner] |> <| next_owner_generation := uadd 64 (next_owner_generation s) 1 |>, generation).

Definition SameKeyPair (entry : Entry) (request : PairingAdmissionRequest) : bool :=
  (same_bytes (local_key entry) (rq_local_key request) && same_bytes (peer_key entry) (rq_peer_key request)) ||
  (same_bytes (local_key entry) (rq_peer_key request) && same_bytes (peer_key entry) (rq_local_key request)).

Definition InitiatorKey (entry : Entry) : bytes :=
  match local_role entry with Role.kInitiator => local_key entry | Role.kResponder => peer_key entry end.

Definition RequestInitiatorKey (request : PairingAdmissionRequest) : bytes :=
  match rq_local_role request with Role.kInitiator => rq_local_key request | Role.kResponder => rq_peer_key request end.

Definition ReleaseConnection (id : bytes) (s : PairingAdmissionState) : PairingAdmissionState :=
  s <| entries := List.filter (fun entry => negb (same_bytes (connection_id entry) id)) (entries s) |>.

(** [Release], the destructor of a lease. *)
Definition Release (lease : PairingAdmissionLease) (s : PairingAdmissionState) : PairingAdmissionState :=
  s <| entries := List.filter (fun entry => negb (same_bytes (connection_id entry) (ls_connection_id lease) &&
                                                  (lease_generation entry =? ls_generation lease))) (entries s) |>.

Definition ReleaseOwner (generation : Z) (s : PairingAdmissionState) : PairingAdmissionState :=
  s <| entries := List.filter (fun entry => negb (owner_generation entry =? generation)) (entries s) |>
    <| owners := List.filter (fun owner => negb (ow_generation owner =? generation)) (owners s) |>.

(** ** Leases *)

Definition active (lease : PairingAdmissionLease) (s : PairingAdmissionState) : bool :=
  bool_decide (is_Some (Find lease s)).

Definition lease_bound (lease : PairingAdmissionLease) (s : PairingAdmissionState) : bool :=
  match Find lease s with Some (_, entry) => bound entry | None => false end.

Definition MarkVisible (lease : PairingAdmissionLease) (s : PairingAdmissionState)
    : PairingAdmissionState * PairingError.PairingError :=
  match Find lease s with
  | None => (s, PairingError.kBusy)
  | Some (i, entry) =>
      if negb (bound entry) then (s, PairingError.kBusy)
      else if visible entry then (s, PairingError.kNone)
      else
      let visible_count := count_if (fun candidate => (owner_generation candidate =? owner_generation entry) &&
                                                      visible candidate) (entries s) in
      if visible_count =? kMaxVisiblePairingAttempts then (s, PairingError.kBusy)
      else (s <| entries := <[i := entry <| visible := true |>]> (entries s) |>, PairingError.kNone)
  end.

Definition lease_local_key (lease : PairingAdmissionLease) (s : PairingAdmissionState) : bytes :=
  match Find lease s with Some (_, entry) => local_key entry | None => repeat 0 32 end.

Definition lease_peer_key (lease : PairingAdmissionLease) (s : PairingAdmissionState) : bytes :=
  match Find lease s with Some (_, entry) => peer_key entry | None => repeat 0 32 end.

Definition lease_local_role (lease : PairingAdmissionLease) (s : PairingAdmissionState) : Role.Role :=
  match Find lease s with Some (_, entry) => local_role entry | None => Role.kInitiator end.

Definition lease_admitted_at_ms (lease : PairingAdmissionLease) (s : PairingAdmissionState) : Z :=
  match Find lease s with Some (_, entry) => admitted_at_ms entry | None => 0 end.

Definition lease_window_deadline_ms (lease : PairingAdmissionLease) (s : PairingAdmissionState) : Z :=
  match Find lease s with Some (_, entry) => window_deadline_ms entry | None => 0 end.

(** ** Controllers *)

(** [ProcessScoped]: a controller of the registry's state. *)
Definition ProcessScoped (registry : PairingAdmissionState) : PairingAdmissionState * Z := RegisterOwner registry.

Definition ResetProcessStateForTesting (registry : PairingAdmissionState) : PairingAdmissionState * bool :=
  if negb (Nat.eqb (length (owners registry)) 0) || negb (Nat.eqb (length (entries registry)) 0) then (registry, false)
  else (PairingAdmissionState_initial, true).

Definition RetireOwner (owner : Z) (s : PairingAdmissionState) : PairingAdmissionState * Z :=
  if owner =? 0 then (s, owner) else (ReleaseOwner owner s, 0).

(** The global bucket is filled when it is first used. *)
Definition Initialize (now_ms : Z) (s : PairingAdmissionState) : PairingAdmissionState :=
  if initialized s then s
  else s <| initialized := true |>
         <| global_bucket := {| tokens := kGlobalAdmissionBucketCapacity; last_refill_ms := now_ms |} |>.

Definition OpenWindow (controller now_ms duration_ms : Z) (s : PairingAdmissionState) : PairingAdmissionState * bool :=
  if (duration_ms =? 0) || (duration_ms >? kMaximumPairingWindowMs) then (s, false)
  else
  match FindOwner controller s with
  | None => (s, false)
  | Some i =>
      match owners s !! i with
      | None => (s, false)
      | Some owner =>
          if (ow_window_enabled owner && (now_ms <? ow_window_deadline_ms owner)) || (next_window_generation s =? 0) then
            (s, false)
          else
          let s := Initialize now_ms s in
          let opened := {| ow_generation := ow_generation owner; ow_window_generation := next_window_generation s;
                           ow_window_enabled := true; ow_window_deadline_ms := CheckedDeadline now_ms duration_ms |} in
          (s <| next_window_generation := uadd 64 (next_window_generation s) 1 |>
             <| owners := <[i := opened]> (owners s) |>, true)
      end
  end.

Definition CloseWindow (controller : Z) (s : PairingAdmissionState) : PairingAdmissionState :=
  match FindOwner controller s with
  | None => s
  | Some i =>
      match owners s !! i with
      | None => s
      | Some owner =>
          let closed := {| ow_generation := ow_generation owner; ow_window_generation := ow_window_generation owner;
                           ow_window_enabled := false; ow_window_deadline_ms := ow_window_deadline_ms owner |} in
          s <| owners := <[i := closed]> (owners s) |>
            <| entries := List.filter (fun entry => negb ((owner_generation entry =? controller) && bound entry)) (entries s) |>
      end
  end.

(** The limits a new connection has to keep. *)
Definition WithinLimits (source_token : bytes) (is_user_initiated : bool) (s : PairingAdmissionState) : bool :=
  if Z.of_nat (length (entries s)) >=? kMaxIncompletePairingHandshakes then false
  else if negb is_user_initiated &&
          (count_if (fun entry => negb (user_initiated entry)) (entries s) >=?
           kMaxIncompletePairingHandshakes - kReservedUserInitiatedPairingSlots) then false
  else if ActiveForSource source_token s >=? kMaxIncompletePairingHandshakesPerSource then false
  else negb (tokens (global_bucket s) =? 0).

(** The bucket of the source, made when there is none; [None] when there are too many. *)
Definition SourceBucketFor (source_token : bytes) (now_ms : Z) (s : PairingAdmissionState)
    : option (PairingAdmissionState * nat) :=
  match FindSource source_token s with
  | Some i => Some (s, i)
  | None =>
      if Z.of_nat (length (source_buckets s)) =? kMaxTrackedSourceBuckets then None
      else
      let made := {| sb_source := source_token;
                     sb_bucket := {| tokens := kSourceAdmissionBucketCapacity; last_refill_ms := now_ms |} |} in
      Some (s <| source_buckets := source_buckets s ++ [made] |>, length (source_buckets s))
  end.

(** [--bucket.tokens]. *)
Definition TakeToken (bucket : Bucket) : Bucket :=
  {| tokens := usub 64 (tokens bucket) 1; last_refill_ms := last_refill_ms bucket |}.

(** [ReserveHandshake] from the source bucket at [i] on. *)
Definition ReserveEntry (controller : Z) (id source_token : bytes) (is_user_initiated : bool) (now_ms : Z)
    (s : PairingAdmissionState) (i : nat) : PairingAdmissionState * option PairingAdmissionLease :=
  match source_buckets s !! i with
  | None => (s, None)
  | Some sb =>
      if tokens (sb_bucket sb) =? 0 then (s, None)
      else if next_lease_generation s =? 0 then (s, None)
      else
      let generation := next_lease_generation s in
      let entry := {| connection_id := id; lease_generation := generation; owner_generation := controller;
                      source := source_token; local_key := repeat 0 32; peer_key := repeat 0 32;
                      local_role := Role.kInitiator; user_initiated := is_user_initiated; visible := false;
                      bound := false; admitted_at_ms := now_ms; window_deadline_ms := 0 |} in
      (s <| entries := entries s ++ [entry] |>
         <| next_lease_generation := uadd 64 (next_lease_generation s) 1 |>
         <| global_bucket := TakeToken (global_bucket s) |>
         <| source_buckets := <[i := {| sb_source := sb_source sb; sb_bucket := TakeToken (sb_bucket sb) |}]>
                                (source_buckets s) |>,
       Some {| ls_connection_id := id; ls_generation := generation |})
  end.

Definition ReserveHandshake (controller : Z) (id source_token : bytes) (is_user_initiated : bool) (now_ms : Z)
    (s : PairingAdmissionState) : PairingAdmissionState * option PairingAdmissionLease :=
  if negb (bool_decide (is_Some (FindOwner controller s))) || AllZero id || AllZero source_token ||
     bool_decide (is_Some (FindConnection id s)) then (s, None)
  else
  let s := Initialize now_ms s in
  let s := s <| global_bucket := Refill (global_bucket s) now_ms kGlobalAdmissionRefillMs kGlobalAdmissionBucketCapacity |> in
  let s := PruneSourceBuckets now_ms s in
  if negb (WithinLimits source_token is_user_initiated s) then (s, None)
  else
  match SourceBucketFor source_token now_ms s with
  | None => (s, None)
  | Some (s, i) => ReserveEntry controller id source_token is_user_initiated now_ms s i
  end.

(** The first other bound entry of the controller for the same pair of keys. *)
Definition FindDuplicate (controller : Z) (request : PairingAdmissionRequest) (reserved : nat) (s : PairingAdmissionState)
    : option Entry :=
  match find_if (fun '(i, entry) => negb (Nat.eqb i reserved) && (owner_generation entry =? controller) &&
                                    bound entry && SameKeyPair entry request)
                (zip (List.seq 0 (length (entries s))) (entries s)) with
  | None => None
  | Some i => entries s !! i
  end.

(** Whether the request may take the place of its duplicate: an error, or the
    connection that is displaced. *)
Definition Displaces (duplicate : option Entry) (request : PairingAdmissionRequest)
    : PairingError.PairingError + option bytes :=
  match duplicate with
  | None => inr None
  | Some duplicate =>
      if visible duplicate then inl PairingError.kBusy
      else
      let existing_initiator := InitiatorKey duplicate in
      let candidate_initiator := RequestInitiatorKey request in
      if same_bytes existing_initiator candidate_initiator then inl PairingError.kBusy
      else
      let canonical_initiator :=
        if array_less (rq_peer_key request) (rq_local_key request) then rq_peer_key request else rq_local_key request in
      if negb (same_bytes candidate_initiator canonical_initiator) then inl PairingError.kBusy
      else inr (Some (connection_id duplicate))
  end.

(** [Bind] under the lock. *)
Definition BindLocked (controller : Z) (lease : PairingAdmissionLease) (request : PairingAdmissionRequest)
    (pairing_window_generation : Z) (s : PairingAdmissionState) : PairingAdmissionState * PairingAdmissionResult :=
  match Find lease s, owner_at controller s with
  | Some (i, reserved), Some owner =>
      if bound reserved || negb (owner_generation reserved =? controller) ||
         negb (same_bytes (connection_id reserved) (rq_connection_id request)) ||
         negb (same_bytes (source reserved) (rq_source request)) ||
         negb (Bool.eqb (user_initiated reserved) (rq_user_initiated request)) ||
         negb (ow_window_enabled owner) || (rq_now_ms request >=? ow_window_deadline_ms owner) ||
         (pairing_window_generation =? 0) || negb (pairing_window_generation =? ow_window_generation owner) then
        (s, rejected PairingError.kBusy)
      else if negb (IsRole (rq_local_role request)) || same_bytes (rq_local_key request) (rq_peer_key request) then
        (s, rejected PairingError.kCertificateRejected)
      else
      match Displaces (FindDuplicate controller request i s) request with
      | inl error => (s, rejected error)
      | inr displaced =>
          let bound_entry :=
            reserved <| local_key := rq_local_key request |> <| peer_key := rq_peer_key request |>
                     <| local_role := rq_local_role request |> <| window_deadline_ms := ow_window_deadline_ms owner |>
                     <| bound := true |> in
          let s := s <| entries := <[i := bound_entry]> (entries s) |> in
          let s := match displaced with Some id => ReleaseConnection id s | None => s end in
          (s, {| ad_error := PairingError.kNone; ad_displaced_connection := displaced; ad_lease := Some lease |})
      end
  | _, _ => (s, rejected PairingError.kBusy)
  end.

(** The lease that is not passed on is released when [Bind] returns. *)
Definition Bind (controller : Z) (lease : PairingAdmissionLease) (request : PairingAdmissionRequest)
    (pairing_window_generation : Z) (s : PairingAdmissionState) : PairingAdmissionState * PairingAdmissionResult :=
  let '(s, result) := BindLocked controller lease request pairing_window_generation s in
  match ad_lease result with
  | Some _ => (s, result)
  | None => (Release lease s, result)
  end.

Definition window_open (controller now_ms : Z) (s : PairingAdmissionState) : bool :=
  match owner_at controller s with
  | Some owner => ow_window_enabled owner && (now_ms <? ow_window_deadline_ms owner)
  | None => false
  end.

Definition window_generation (controller now_ms : Z) (s : PairingAdmissionState) : Z :=
  match owner_at controller s with
  | Some owner =>
      if ow_window_enabled owner && (now_ms <? ow_window_deadline_ms owner) then ow_window_generation owner else 0
  | None => 0
  end.

Definition Admit (controller : Z) (request : PairingAdmissionRequest) (s : PairingAdmissionState)
    : PairingAdmissionState * PairingAdmissionResult :=
  if negb (IsRole (rq_local_role request)) || AllZero (rq_connection_id request) ||
     same_bytes (rq_local_key request) (rq_peer_key request) then (s, rejected PairingError.kCertificateRejected)
  else
  let pairing_window_generation := window_generation controller (rq_now_ms request) s in
  let '(s, lease) := ReserveHandshake controller (rq_connection_id request) (rq_source request)
                       (rq_user_initiated request) (rq_now_ms request) s in
  match lease with
  | None => (s, rejected PairingError.kBusy)
  | Some lease => Bind controller lease request pairing_window_generation s
  end.

Definition active_connections (s : PairingAdmissionState) : Z := Z.of_nat (length (entries s)).

Definition visible_attempts (controller : Z) (s : PairingAdmissionState) : Z :=
  count_if (fun entry => (owner_generation entry =? controller) && visible entry) (entries s).

End Admission.
