(* ===== verification/AdmissionProofs.v ===== *)
(** * Correctness of the admission of pairing connections

    In every state the calls of controllers and leases reach the table keeps
    its limits; however the calls are timed, only so many connections are
    admitted in an interval; of two connections two devices open to each other
    at the same time, both keep the same one. *)

From S2P Require Import Prelude.
From S2P Require Import Transfer.
From S2P Require Import SecurityTypes.
From S2P Require Import CanonicalObjectsProofs.
From S2P Require Import SessionWire.
From S2P Require Import Admission.
Import SessionWire Admission.

(** ** Lists *)

Lemma filter_all {A} (l : list A) : List.filter (fun _ => true) l = l.
Proof. induction l as [| x l IH]; [done |]. cbn. by rewrite IH. Qed.

Lemma count_if_pos {A} (p : A -> bool) l x : x ∈ l -> p x = true -> 1 <= count_if p l.
Proof.
  induction l as [| y l IH]; [by intros ?%not_elem_of_nil |]. rewrite count_if_cons. pose proof (count_if_nonneg p l).
  intros [-> | Hx]%list.elem_of_cons Hp; [rewrite Hp; lia |]. specialize (IH Hx Hp). destruct (p y); lia.
Qed.

(** At most one element is counted when any two have the same key. *)
Lemma count_if_unique {A B} (h : A -> B) (p : A -> bool) l : NoDup (List.map h l) ->
  (forall x y, x ∈ l -> y ∈ l -> p x = true -> p y = true -> h x = h y) -> count_if p l <= 1.
Proof.
  induction l as [| x l IH]; [done |]. cbn [List.map]. intros [Hx Hn]%list.NoDup_cons H. rewrite count_if_cons.
  destruct (p x) eqn:Ex.
  - destruct (Z.eq_dec (count_if p l) 0) as [-> | E]; [done |]. exfalso. apply Hx.
    assert (Hy : exists y, y ∈ l /\ p y = true).
    { clear -E. induction l as [| y l IH]; [done |]. rewrite count_if_cons in E. destruct (p y) eqn:Ey; [exists y; split; [by left | done] |].
      destruct IH as (z & Hz & Hp); [done |]. exists z. split; [by right | done]. }
    destruct Hy as (y & Hy & Ey). rewrite (H x y); [by apply (list_elem_of_fmap_2 h) | by left | by right | done | done].
  - apply IH; [done |]. intros y z Hy Hz. apply H; by right.
Qed.

Lemma lookup_positions {A} (l : list A) k p : zip (List.seq 0 (length l)) l !! k = Some p <-> exists x, l !! k = Some x /\ p = (k, x).
Proof.
  rewrite lookup_zip_with_Some. split.
  - intros (j & x & -> & [-> _]%lookup_seq & Hx). by exists x.
  - intros (x & Hx & ->). exists k, x. split; [done |]. split; [| done]. apply lookup_seq. split; [done |]. by eapply lookup_lt_Some.
Qed.

(** ** Generations *)

(** A generation that was handed out by a counter. *)
Definition handed_out (next g : Z) : Prop := 0 < g < 2 ^ 64 /\ (next <> 0 -> g < next).

Definition counter_ok (next : Z) : Prop := 0 <= next < 2 ^ 64.

Lemma handed_out_next next g : counter_ok next -> next <> 0 -> handed_out next g \/ g = next -> handed_out (uadd 64 next 1) g.
Proof.
  unfold handed_out, counter_ok. intros Hn H0 Hg. assert (0 < g <= next /\ g < 2 ^ 64) as [? ?] by (destruct Hg as [[? ?] | ->]; [specialize (H0 : next <> 0) |]; lia).
  split; [lia |]. unfold uadd, wrap. destruct (Z.eq_dec (next + 1) (2 ^ 64)) as [E | E].
  - rewrite E, Z_mod_same_full. done.
  - rewrite Z.mod_small by lia. lia.
Qed.

Lemma counter_next next : counter_ok next -> counter_ok (uadd 64 next 1).
Proof. intros _. apply (wrap_range 64). lia. Qed.

Lemma next_not_handed_out next : next <> 0 -> ~ handed_out next next.
Proof. intros H [_ ?]. lia. Qed.

(** ** The invariant *)

Definition same_pair (e f : Entry) : Prop :=
  (local_key e = local_key f /\ peer_key e = peer_key f) \/ (local_key e = peer_key f /\ peer_key e = local_key f).

Definition owner_generations (s : PairingAdmissionState) : list Z := List.map ow_generation (owners s).
Definition tracked_sources (s : PairingAdmissionState) : list bytes := List.map sb_source (source_buckets s).

Record entry_ok (s : PairingAdmissionState) (e : Entry) : Prop := {
  en_id : AllZero (connection_id e) = false;
  en_generation : handed_out (next_lease_generation s) (lease_generation e);
  en_owner : owner_generation e ∈ owner_generations s;
  en_source : source e ∈ tracked_sources s;
  en_visible : visible e = true -> bound e = true;
  en_keys : bound e = true -> local_key e <> peer_key e;
}.

(** Two entries that may be in the table together. *)
Definition compatible (e f : Entry) : Prop :=
  owner_generation e = owner_generation f ->
  (bound e = true -> bound f = true -> ~ same_pair e f) /\ ~ (visible e = true /\ visible f = true).

Record admission_ok (s : PairingAdmissionState) : Prop := {
  ad_count : Z.of_nat (length (entries s)) <= kMaxIncompletePairingHandshakes;
  ad_reserved : count_if (fun e => negb (user_initiated e)) (entries s) <= kMaxIncompletePairingHandshakes - kReservedUserInitiatedPairingSlots;
  ad_per_source : forall t, ActiveForSource t s <= kMaxIncompletePairingHandshakesPerSource;
  ad_connections : NoDup (List.map connection_id (entries s));
  ad_generations : NoDup (List.map lease_generation (entries s));
  ad_entries : Forall (entry_ok s) (entries s);
  ad_compatible : forall e f, e ∈ entries s -> f ∈ entries s -> connection_id e <> connection_id f -> compatible e f;
  ad_global : 0 <= tokens (global_bucket s) <= kGlobalAdmissionBucketCapacity;
  ad_buckets : Forall (fun sb => 0 <= tokens (sb_bucket sb) <= kSourceAdmissionBucketCapacity) (source_buckets s);
  ad_tracked : Z.of_nat (length (source_buckets s)) <= kMaxTrackedSourceBuckets;
  ad_sources : NoDup (tracked_sources s);
  ad_owners : NoDup (owner_generations s) /\ Forall (handed_out (next_owner_generation s)) (owner_generations s);
  ad_counters : counter_ok (next_lease_generation s) /\ counter_ok (next_owner_generation s);
}.

Lemma admission_ok_initial : admission_ok PairingAdmissionState_initial.
Proof.
  split; cbn; try done; try apply NoDup_nil_2; try apply list.Forall_nil; try done; try lia; try (by split).
  - by intros e f ?%not_elem_of_nil.
  - split; [apply NoDup_nil_2 | by apply list.Forall_nil].
Qed.

Lemma entry_ok_weaken s s' e :
  (handed_out (next_lease_generation s) (lease_generation e) -> handed_out (next_lease_generation s') (lease_generation e)) ->
  (owner_generation e ∈ owner_generations s -> owner_generation e ∈ owner_generations s') ->
  (source e ∈ tracked_sources s -> source e ∈ tracked_sources s') -> entry_ok s e -> entry_ok s' e.
Proof. intros Hg Ho Hs []. split; auto. Qed.

Lemma entries_ok_weaken s s' l :
  (forall e, e ∈ l -> handed_out (next_lease_generation s) (lease_generation e) -> handed_out (next_lease_generation s') (lease_generation e)) ->
  (forall e, e ∈ l -> owner_generation e ∈ owner_generations s -> owner_generation e ∈ owner_generations s') ->
  (forall e, e ∈ l -> source e ∈ tracked_sources s -> source e ∈ tracked_sources s') -> Forall (entry_ok s) l -> Forall (entry_ok s') l.
Proof.
  rewrite !list.Forall_forall. intros Hg Ho Hs H e He. exact (entry_ok_weaken s s' e (Hg e He) (Ho e He) (Hs e He) (H e He)).
Qed.

(** Entries may go at any time. *)
Lemma ok_filter p s : admission_ok s -> admission_ok (s <| entries := List.filter p (entries s) |>).
Proof.
  intros []. split; cbn; try done.
  - pose proof (length_filter p (entries s)). lia.
  - etransitivity; [apply count_if_filter | done].
  - intros t. etransitivity; [apply count_if_filter | apply ad_per_source0].
  - by apply filter_nodup_map.
  - by apply filter_nodup_map.
  - apply Forall_filter. by apply (entries_ok_weaken s).
  - intros e f [He _]%elem_of_list_filter [Hf _]%elem_of_list_filter. by apply ad_compatible0.
Qed.

(** An entry is changed and others may go: the ones that stay have to be
    compatible with the new one. *)
Lemma ok_update i e e' p s : admission_ok s -> entries s !! i = Some e ->
  connection_id e' = connection_id e -> lease_generation e' = lease_generation e -> owner_generation e' = owner_generation e ->
  source e' = source e -> user_initiated e' = user_initiated e ->
  (visible e' = true -> bound e' = true) -> (bound e' = true -> local_key e' <> peer_key e') ->
  (forall f, f ∈ entries s -> connection_id f <> connection_id e -> p f = true -> compatible e' f) ->
  admission_ok (s <| entries := List.filter p (<[i := e']> (entries s)) |>).
Proof.
  intros Hok Hi Ec Eg Eo Es Eu Hv Hk Hp.
  destruct Hok. split; cbn; try done.
  - pose proof (length_filter p (<[i := e']> (entries s))). rewrite length_insert in H. lia.
  - etransitivity; [apply count_if_filter |]. rewrite (count_if_insert _ _ _ _ _ Hi), Eu. lia.
  - intros t. unfold ActiveForSource. cbn. etransitivity; [apply count_if_filter |]. rewrite (count_if_insert _ _ _ _ _ Hi), Es.
    specialize (ad_per_source0 t). unfold ActiveForSource in ad_per_source0. lia.
  - apply filter_nodup_map. by rewrite (map_insert_same _ _ _ _ _ Hi).
  - apply filter_nodup_map. by rewrite (map_insert_same _ _ _ _ _ Hi).
  - apply Forall_filter, Forall_insert; [by apply (entries_ok_weaken s) |].
    pose proof (proj1 (Forall_lookup _ _) ad_entries0 i e Hi) as []. split; rewrite ?Ec, ?Eg, ?Eo, ?Es; done.
  - assert (He' : forall f, f ∈ entries s -> connection_id f <> connection_id e -> p f = true -> compatible f e').
    { intros f Hf Hn Hpf Ho. destruct (Hp f Hf Hn Hpf (eq_sym Ho)) as [H1 H2]. split; [| tauto]. intros B1 B2 HS. apply (H1 B2 B1).
      destruct HS as [[? ?] | [? ?]]; [left | right]; done. }
    intros f g [[-> | Hf]%elem_of_insert Pf]%elem_of_list_filter [[-> | Hg]%elem_of_insert Pg]%elem_of_list_filter Hn.
    + done.
    + rewrite Ec in Hn. by apply Hp.
    + rewrite Ec in Hn. by apply He'.
    + by apply ad_compatible0.
Qed.

(** ** The calls *)

Lemma FindConnection_Some id s i : FindConnection id s = Some i -> exists e, entries s !! i = Some e /\ connection_id e = id.
Proof. intros (e & He & E%same_bytes_true)%find_if_Some. by exists e. Qed.

Lemma Find_Some lease s i e : Find lease s = Some (i, e) ->
  entries s !! i = Some e /\ connection_id e = ls_connection_id lease /\ lease_generation e = ls_generation lease.
Proof.
  unfold Find. destruct (FindConnection _ s) as [j |] eqn:EF; [| done]. apply FindConnection_Some in EF as (f & Hf & Ef).
  rewrite Hf. destruct (Z.eqb_spec (lease_generation f) (ls_generation lease)); [| done]. by intros [= <- <-].
Qed.

Lemma FindOwner_Some g s i : FindOwner g s = Some i -> exists o, owners s !! i = Some o /\ ow_generation o = g.
Proof. intros (o & Ho & E%Z.eqb_eq)%find_if_Some. by exists o. Qed.

Lemma owner_at_Some g s o : owner_at g s = Some o -> g ∈ owner_generations s /\ ow_generation o = g.
Proof.
  unfold owner_at. destruct (FindOwner g s) as [i |] eqn:EF; [| done]. apply FindOwner_Some in EF as (o' & Ho & Eg). rewrite Ho.
  intros [= <-]. split; [| done]. rewrite <- Eg. apply (list_elem_of_fmap_2 ow_generation). by eapply list_elem_of_lookup_2.
Qed.

Lemma ok_Release lease s : admission_ok s -> admission_ok (Release lease s).
Proof. apply ok_filter. Qed.

Lemma ok_RegisterOwner s : admission_ok s -> admission_ok (RegisterOwner s).1.
Proof.
  unfold RegisterOwner. destruct (Z.eqb_spec (next_owner_generation s) 0) as [| Hn]; [done |]. intros []. destruct ad_owners0 as [Hd Hh], ad_counters0 as [Cl Co].
  split; cbn; try done.
  - apply (entries_ok_weaken s); try done. intros e _. unfold owner_generations. cbn. rewrite List.map_app, elem_of_app. by left.
  - unfold owner_generations in *. cbn. rewrite List.map_app. cbn. split.
    + apply list.NoDup_app. split; [done |]. split; [| by apply list.NoDup_singleton].
      intros g Hg ->%list_elem_of_singleton. rewrite list.Forall_forall in Hh. by apply (next_not_handed_out _ Hn), Hh.
    + apply list.Forall_app. split.
      * eapply list.Forall_impl; [exact Hh |]. intros g Hg. apply handed_out_next; auto.
      * apply list.Forall_singleton. apply handed_out_next; auto.
  - split; [done | by apply counter_next].
Qed.

Lemma ok_RetireOwner g s : admission_ok s -> admission_ok (RetireOwner g s).1.
Proof.
  unfold RetireOwner. destruct (g =? 0); [done |]. intros Hok. cbn [fst].
  apply (ok_filter (fun e => negb (owner_generation e =? g))) in Hok. unfold ReleaseOwner. destruct Hok. cbn in *.
  destruct ad_owners0 as [Hd Hh]. split; cbn; try done.
  - eapply entries_ok_weaken; [| | | exact ad_entries0]; try done. cbn. intros e [_ He]%elem_of_list_filter Ho. revert Ho. unfold owner_generations. cbn.
    intros [o [E Ho]]%list_elem_of_fmap. rewrite E. apply (list_elem_of_fmap_2 ow_generation), elem_of_list_filter. by rewrite <- E.
  - split; [by apply filter_nodup_map |]. unfold owner_generations in *. cbn. rewrite List.Forall_map in *. by apply Forall_filter.
Qed.

Lemma ok_owner g o o' i s : admission_ok s -> owners s !! i = Some o -> ow_generation o' = ow_generation o -> ow_generation o = g ->
  owner_generations (s <| owners := <[i := o']> (owners s) |>) = owner_generations s.
Proof. intros _ Hi E _. unfold owner_generations. cbn. by apply (map_insert_same _ _ _ o). Qed.

(** The table but for the owners' windows, the window counter and the flag. *)
Lemma ok_same s s' : admission_ok s -> entries s' = entries s -> owner_generations s' = owner_generations s ->
  next_lease_generation s' = next_lease_generation s -> next_owner_generation s' = next_owner_generation s ->
  source_buckets s' = source_buckets s -> 0 <= tokens (global_bucket s') <= kGlobalAdmissionBucketCapacity -> admission_ok s'.
Proof.
  intros [] E1 E2 E3 E4 E5 Hg. assert (E6 : tracked_sources s' = tracked_sources s) by (unfold tracked_sources; by rewrite E5).
  split; rewrite ?E1, ?E2, ?E3, ?E4, ?E5, ?E6; try done.
  - intros t. unfold ActiveForSource. rewrite E1. apply ad_per_source0.
  - apply (entries_ok_weaken s); rewrite ?E2, ?E3, ?E6; done.
Qed.

Lemma ok_Initialize now s : admission_ok s -> admission_ok (Initialize now s).
Proof. unfold Initialize. destruct (initialized s); [done |]. intros Hok. by eapply (ok_same s). Qed.

Lemma ok_OpenWindow g now duration s : admission_ok s -> admission_ok (OpenWindow g now duration s).1.
Proof.
  unfold OpenWindow. destruct (_ || _); [done |]. destruct (FindOwner g s) as [i |] eqn:EF; [| done].
  apply FindOwner_Some in EF as (o & Ho & Eg). rewrite Ho. destruct (_ || _); [done |]. cbv zeta. cbn [fst]. intros Hok.
  assert (EO : owners (Initialize now s) = owners s) by (unfold Initialize; by destruct (initialized s)).
  apply (ok_Initialize now) in Hok. pose proof (ad_global _ Hok). apply (ok_same (Initialize now s)); try done.
  unfold owner_generations. cbn. apply (map_insert_same _ _ _ o); [by rewrite EO | done].
Qed.

Lemma ok_CloseWindow g s : admission_ok s -> admission_ok (CloseWindow g s).
Proof.
  unfold CloseWindow. destruct (FindOwner g s) as [i |] eqn:EF; [| done].
  apply FindOwner_Some in EF as (o & Ho & Eg). rewrite Ho. intros Hok.
  apply (ok_filter (fun e => negb ((owner_generation e =? g) && bound e))) in Hok. pose proof (ad_global _ Hok).
  eapply ok_same; [exact Hok | ..]; try done. unfold owner_generations. cbn. by apply (map_insert_same _ _ _ o).
Qed.

Lemma entries_unique s e f : admission_ok s -> e ∈ entries s -> f ∈ entries s -> connection_id e = connection_id f -> e = f.
Proof. intros []. by apply nodup_map_inj. Qed.

(** No more than one attempt of a controller is visible. *)
Lemma visible_unique g s : admission_ok s ->
  count_if (fun c => (owner_generation c =? g) && visible c) (entries s) <= 1.
Proof.
  intros Hok. apply (count_if_unique connection_id); [apply Hok |].
  intros e f He Hf [Oe%Z.eqb_eq Ve]%andb_true_iff [Of%Z.eqb_eq Vf]%andb_true_iff.
  destruct (decide (connection_id e = connection_id f)) as [| Hn]; [done |].
  destruct (ad_compatible _ Hok e f He Hf Hn ltac:(congruence)) as [_ H]. by destruct H.
Qed.

Lemma ok_MarkVisible lease s : admission_ok s -> admission_ok (MarkVisible lease s).1.
Proof.
  unfold MarkVisible. intros Hok. destruct (Find lease s) as [[i e] |] eqn:EF; [| done]. apply Find_Some in EF as (Hi & _ & _).
  destruct (bound e) eqn:EB; [| done]. destruct (visible e) eqn:EV; [done |]. cbn [negb].
  destruct (Z.eqb_spec (count_if (fun c => (owner_generation c =? owner_generation e) && visible c) (entries s)) kMaxVisiblePairingAttempts) as [| Hc]; [done |].
  cbn [fst]. rewrite <- (filter_all (<[i := _]> (entries s))). pose proof (list_elem_of_lookup_2 _ _ _ Hi) as He.
  assert (Hk : local_key e <> peer_key e).
  { pose proof (proj1 (list.Forall_forall _ _) (ad_entries _ Hok) e He) as []. auto. }
  apply (ok_update i e); try done. intros f Hf Hn _ Ho. destruct (ad_compatible _ Hok e f He Hf (not_eq_sym Hn) Ho) as [H1 _].
  split; [exact H1 |]. intros [_ Vf]. pose proof (visible_unique (owner_generation e) s Hok).
  pose proof (count_if_pos (fun c => (owner_generation c =? owner_generation e) && visible c) (entries s) f Hf) as HP.
  cbn in HP, Ho. rewrite <- Ho, Z.eqb_refl, Vf in HP. specialize (HP eq_refl). unfold kMaxVisiblePairingAttempts in Hc. lia.
Qed.

(** ** Binding *)

Definition pair_of (e : Entry) (rq : PairingAdmissionRequest) : Prop :=
  (local_key e = rq_local_key rq /\ peer_key e = rq_peer_key rq) \/ (local_key e = rq_peer_key rq /\ peer_key e = rq_local_key rq).

Lemma SameKeyPair_iff e rq : SameKeyPair e rq = true <-> pair_of e rq.
Proof. unfold SameKeyPair, pair_of. by rewrite orb_true_iff, !andb_true_iff, !same_bytes_true. Qed.

Lemma pair_of_same e f rq : pair_of e rq -> pair_of f rq -> same_pair e f.
Proof. unfold pair_of, same_pair. intros [[-> ->] | [-> ->]] [[-> ->] | [-> ->]]; auto. Qed.

(** The entries a request duplicates. *)
Definition duplicates (g : Z) (rq : PairingAdmissionRequest) (f : Entry) : Prop :=
  owner_generation f = g /\ bound f = true /\ pair_of f rq.

Lemma FindDuplicate_spec g rq i s :
  match FindDuplicate g rq i s with
  | Some d => exists j, j <> i /\ entries s !! j = Some d /\ duplicates g rq d
  | None => forall j f, j <> i -> entries s !! j = Some f -> ~ duplicates g rq f
  end.
Proof.
  assert (HT : forall (j : nat) (f : Entry), negb (Nat.eqb j i) && (owner_generation f =? g) && bound f && SameKeyPair f rq = true <-> j <> i /\ duplicates g rq f).
  { intros j f. unfold duplicates. rewrite !andb_true_iff, negb_true_iff, Nat.eqb_neq, Z.eqb_eq, SameKeyPair_iff. tauto. }
  unfold FindDuplicate. destruct (find_if _ _) as [k |] eqn:EF.
  - apply find_if_Some in EF as ([j d] & Hk & HP). apply lookup_positions in Hk as (x & Hx & [= -> ->]). rewrite Hx.
    apply HT in HP as [? ?]. by exists k.
  - intros j f Hj Hf HD. assert (HP : zip (List.seq 0 (length (entries s))) (entries s) !! j = Some (j, f)) by (apply lookup_positions; by exists f).
    apply list_elem_of_lookup_2 in HP. apply (find_if_None _ _ EF) in HP. cbn in HP. rewrite <- not_true_iff_false in HP. by apply HP, HT.
Qed.

(** The entry that a successful [Bind] leaves. *)
Definition bound_entry (e : Entry) (rq : PairingAdmissionRequest) (o : Owner) : Entry :=
  e <| local_key := rq_local_key rq |> <| peer_key := rq_peer_key rq |> <| local_role := rq_local_role rq |>
    <| window_deadline_ms := ow_window_deadline_ms o |> <| bound := true |>.

(** What [BindLocked] does: nothing, or it binds the entry of the lease. *)
Lemma BindLocked_cases g lease rq w s :
  (exists error, BindLocked g lease rq w s = (s, rejected error) /\ error <> PairingError.kNone) \/
  exists i e o displaced,
    entries s !! i = Some e /\ connection_id e = ls_connection_id lease /\ lease_generation e = ls_generation lease /\
    owner_at g s = Some o /\ bound e = false /\ owner_generation e = g /\ rq_local_key rq <> rq_peer_key rq /\
    connection_id e = rq_connection_id rq /\ ow_window_enabled o = true /\ rq_now_ms rq < ow_window_deadline_ms o /\
    Displaces (FindDuplicate g rq i s) rq = inr displaced /\
    BindLocked g lease rq w s =
      (s <| entries := List.filter (fun f => match displaced with Some id => negb (same_bytes (connection_id f) id) | None => true end)
                         (<[i := bound_entry e rq o]> (entries s)) |>,
       {| ad_error := PairingError.kNone; ad_displaced_connection := displaced; ad_lease := Some lease |}).
Proof.
  unfold BindLocked. destruct (Find lease s) as [[i e] |] eqn:EF; [| left; by exists PairingError.kBusy].
  apply Find_Some in EF as (Hi & Ec & Eg). destruct (owner_at g s) as [o |] eqn:EO; [| left; by exists PairingError.kBusy].
  destruct (_ || _) eqn:E1; [left; by exists PairingError.kBusy |].
  destruct (negb (IsRole _) || _) eqn:E2; [left; by exists PairingError.kCertificateRejected |].
  destruct (Displaces _ rq) as [error | displaced] eqn:ED.
  { left. exists error. split; [done |]. unfold Displaces in ED. destruct (FindDuplicate _ _ _ _); [| done].
    repeat (case_match; try done); by injection ED as <-. }
  right. exists i, e, o, displaced. rewrite !orb_false_iff, !negb_false_iff in E1. apply orb_false_iff in E2 as [_ E2].
  destruct E1 as ((((((((B1 & B2) & B3) & B4) & B5) & B6) & B7) & B8) & B9). apply Z.eqb_eq in B2. apply same_bytes_true in B3.
  apply same_bytes_false in E2. rewrite Z.geb_leb, Z.leb_gt in B7.
  do 11 (split; [done |]). destruct displaced; [done |]. by rewrite filter_all.
Qed.

(** The smaller of the two keys of a request. *)
Definition canonical_key (rq : PairingAdmissionRequest) : bytes :=
  if array_less (rq_peer_key rq) (rq_local_key rq) then rq_peer_key rq else rq_local_key rq.

Lemma Displaces_Some d rq displaced : Displaces (Some d) rq = inr displaced <->
  visible d = false /\ InitiatorKey d <> RequestInitiatorKey rq /\ RequestInitiatorKey rq = canonical_key rq /\
  displaced = Some (connection_id d).
Proof.
  unfold Displaces. destruct (visible d); [split; [done | by intros [? _]] |]. fold (canonical_key rq).
  destruct (same_bytes (InitiatorKey d) _) eqn:E1; [apply same_bytes_true in E1; split; [done | by intros (_ & ? & _)] |].
  apply same_bytes_false in E1. destruct (same_bytes (RequestInitiatorKey rq) _) eqn:E2; cbn [negb].
  - apply same_bytes_true in E2. split; [by intros [= <-] | by intros (_ & _ & _ & ->)].
  - apply same_bytes_false in E2. split; [done | by intros (_ & _ & ? & _)].
Qed.

Lemma compatible_bound g rq s i e o displaced f : admission_ok s -> entries s !! i = Some e -> owner_at g s = Some o ->
  bound e = false -> owner_generation e = g -> Displaces (FindDuplicate g rq i s) rq = inr displaced ->
  f ∈ entries s -> connection_id f <> connection_id e ->
  (match displaced with Some id => negb (same_bytes (connection_id f) id) | None => true end) = true -> compatible (bound_entry e rq o) f.
Proof.
  intros Hok Hi _ Hb Ho HD Hf Hn Hp Hof. pose proof (list_elem_of_lookup_2 _ _ _ Hi) as He.
  pose proof (proj1 (list.Forall_forall _ _) (ad_entries _ Hok) e He) as [_ _ _ _ Hv _].
  split; [| intros [Ve _]; cbn in Ve; apply Hv in Ve; congruence]. intros _ Bf HS.
  assert (HDf : duplicates g rq f).
  { split; [cbn in Hof; congruence |]. split; [done |]. unfold pair_of. destruct HS as [[? ?] | [? ?]]; cbn in *; [left | right]; done. }
  apply list_elem_of_lookup in Hf as [j Hj]. pose proof (FindDuplicate_spec g rq i s) as HF.
  assert (Hji : j <> i) by (intros ->; congruence). destruct (FindDuplicate g rq i s) as [d |]; [| by destruct (HF j f Hji Hj)].
  destruct HF as (k & Hk & Hd & HDd). apply Displaces_Some in HD as (_ & _ & _ & ->).
  apply negb_true_iff, same_bytes_false in Hp. apply list_elem_of_lookup_2 in Hj, Hd.
  destruct (ad_compatible _ Hok d f Hd Hj (not_eq_sym Hp)) as [HC _]; [destruct HDd, HDf; congruence |].
  apply HC; [apply HDd | done |]. apply (pair_of_same d f rq); [apply HDd | apply HDf].
Qed.

Lemma ok_Bind g lease rq w s : admission_ok s -> admission_ok (Bind g lease rq w s).1.
Proof.
  intros Hok. unfold Bind. destruct (BindLocked_cases g lease rq w s) as [(error & -> & _) | (i & e & o & displaced & Hi & Ec & Eg & EO & Hb & Ho & Hk & _ & _ & _ & HD & ->)].
  - by apply ok_Release.
  - cbn [ad_lease fst]. apply (ok_update i e); try done. intros f. by apply (compatible_bound g rq s i e o displaced).
Qed.

(** ** Reserving *)

Lemma Refill_range bucket now interval capacity : 0 <= capacity -> 0 < interval ->
  0 <= tokens bucket <= capacity -> 0 <= tokens (Refill bucket now interval capacity) <= capacity.
Proof.
  intros Hc Hi Hb. unfold Refill. destruct (_ || _) eqn:E; [by destruct (_ && _) |]. apply orb_false_iff in E as [E _].
  apply Z.leb_gt in E. cbv zeta. pose proof (Z.div_pos (now - last_refill_ms bucket) interval ltac:(lia) Hi).
  destruct (_ =? 0); [done |]. cbn [tokens]. destruct (_ >=? capacity); lia.
Qed.

Lemma refill_sources now l : List.map sb_source (List.map (fun sb =>
    {| sb_source := sb_source sb; sb_bucket := Refill (sb_bucket sb) now kSourceAdmissionRefillMs kSourceAdmissionBucketCapacity |}) l) = List.map sb_source l.
Proof. rewrite List.map_map. done. Qed.

Lemma active_source s e : e ∈ entries s -> SourceIsActive (source e) s = true.
Proof.
  intros He. unfold SourceIsActive, ActiveForSource. apply negb_true_iff, Z.eqb_neq.
  pose proof (count_if_pos (fun f => same_bytes (source f) (source e)) (entries s) e He ltac:(by apply same_bytes_true)). lia.
Qed.

Lemma ok_PruneSourceBuckets now s : admission_ok s -> admission_ok (PruneSourceBuckets now s).
Proof.
  intros Hok. pose proof Hok as []. unfold PruneSourceBuckets. set (keep := fun sb : SourceBucket => negb ((tokens (sb_bucket sb) =? kSourceAdmissionBucketCapacity) && negb (SourceIsActive (sb_source sb) s))).
  set (refilled := List.map _ _).
  assert (ER : List.map sb_source refilled = tracked_sources s) by apply refill_sources.
  split; cbn; try done.
  - apply (entries_ok_weaken s); try done. intros e He Ht. unfold tracked_sources at 1. cbn.
    rewrite <- ER in Ht. apply list_elem_of_fmap in Ht as (sb & E & Hsb). rewrite E. apply (list_elem_of_fmap_2 sb_source).
    apply elem_of_list_filter. split; [done |]. unfold keep. rewrite <- E, active_source by done. by rewrite andb_false_r.
  - apply Forall_filter. unfold refilled. apply List.Forall_map. eapply list.Forall_impl; [exact ad_buckets0 |].
    intros sb Hb. cbn [sb_bucket]. by apply Refill_range.
  - pose proof (length_filter keep refilled). assert (length refilled = length (source_buckets s)) by apply length_map. lia.
  - unfold tracked_sources in *. cbn. apply filter_nodup_map. by rewrite ER.
Qed.

(** The state in which the limits are tested. *)
Definition refreshed (now : Z) (s : PairingAdmissionState) : PairingAdmissionState :=
  PruneSourceBuckets now ((Initialize now s) <| global_bucket :=
    Refill (global_bucket (Initialize now s)) now kGlobalAdmissionRefillMs kGlobalAdmissionBucketCapacity |>).

Lemma ok_refreshed now s : admission_ok s -> admission_ok (refreshed now s).
Proof.
  intros Hok. apply ok_PruneSourceBuckets. apply (ok_Initialize now) in Hok.
  revert Hok. generalize (Initialize now s). intros s1 Hok. apply (ok_same s1); try done. cbn. apply Refill_range; [done | done | apply Hok].
Qed.

Lemma refreshed_same now s : entries (refreshed now s) = entries s /\ owners (refreshed now s) = owners s /\
  next_lease_generation (refreshed now s) = next_lease_generation s /\ next_owner_generation (refreshed now s) = next_owner_generation s.
Proof. unfold refreshed, Initialize. by destruct (initialized s). Qed.

Lemma WithinLimits_true t user s : WithinLimits t user s = true ->
  Z.of_nat (length (entries s)) < kMaxIncompletePairingHandshakes /\
  (user = false -> count_if (fun e => negb (user_initiated e)) (entries s) < kMaxIncompletePairingHandshakes - kReservedUserInitiatedPairingSlots) /\
  ActiveForSource t s < kMaxIncompletePairingHandshakesPerSource /\ tokens (global_bucket s) <> 0.
Proof.
  unfold WithinLimits. rewrite !Z.geb_leb. destruct (Z.leb_spec kMaxIncompletePairingHandshakes (Z.of_nat (length (entries s)))); [done |].
  destruct (negb user && _) eqn:E; [done |].
  destruct (Z.leb_spec kMaxIncompletePairingHandshakesPerSource (ActiveForSource t s)); [done |].
  intros Ht%negb_true_iff%Z.eqb_neq. split; [done |]. split; [| done].
  intros ->. by apply Z.leb_gt in E.
Qed.

(** The state with the bucket of the source, and its position. *)
Lemma SourceBucketFor_ok t now s s' i : admission_ok s -> SourceBucketFor t now s = Some (s', i) ->
  admission_ok s' /\ entries s' = entries s /\ owners s' = owners s /\ global_bucket s' = global_bucket s /\
  next_lease_generation s' = next_lease_generation s /\ exists sb, source_buckets s' !! i = Some sb /\ sb_source sb = t.
Proof.
  intros Hok. unfold SourceBucketFor. destruct (FindSource t s) as [j |] eqn:EF.
  - intros [= <- <-]. apply find_if_Some in EF as (sb & Hsb & E%same_bytes_true). do 5 (split; [done |]). by exists sb.
  - destruct (Z.eqb_spec (Z.of_nat (length (source_buckets s))) kMaxTrackedSourceBuckets) as [| Hn]; [done |].
    cbv zeta. intros [= <- <-]. split; [| do 4 (split; [done |]); eexists; split; [cbn; by rewrite lookup_app_r, Nat.sub_diag by lia | done]].
    destruct Hok. split; cbn; try done.
    + apply (entries_ok_weaken s); try done. intros e _ Ht. unfold tracked_sources in *. cbn. rewrite List.map_app, elem_of_app. by left.
    + apply list.Forall_app. split; [done |]. by apply list.Forall_singleton.
    + rewrite length_app. cbn. unfold kMaxTrackedSourceBuckets in *. lia.
    + unfold tracked_sources in *. cbn. rewrite List.map_app. cbn. apply list.NoDup_app. split; [done |]. split; [| by apply list.NoDup_singleton].
      intros x Hx ->%list_elem_of_singleton. apply list_elem_of_fmap in Hx as (sb & E & Hsb).
      apply (find_if_None _ _ EF) in Hsb. apply same_bytes_false in Hsb. by destruct Hsb.
Qed.

(** A reservation that succeeds. *)
Definition reserved_entry (g : Z) (id t : bytes) (user : bool) (now : Z) (s : PairingAdmissionState) : Entry :=
  {| connection_id := id; lease_generation := next_lease_generation s; owner_generation := g; source := t;
     local_key := repeat 0 32; peer_key := repeat 0 32; local_role := Role.kInitiator; user_initiated := user;
     visible := false; bound := false; admitted_at_ms := now; window_deadline_ms := 0 |}.

Lemma TakeToken_range bucket capacity : 0 <= tokens bucket <= capacity -> capacity < 2 ^ 64 -> tokens bucket <> 0 ->
  tokens (TakeToken bucket) = tokens bucket - 1 /\ 0 <= tokens (TakeToken bucket) <= capacity.
Proof. intros Hb Hc H0. unfold TakeToken. cbn [tokens]. rewrite usub_small by (unfold in_width; lia). lia. Qed.

Lemma ok_ReserveEntry g id t user now s i : admission_ok s -> g ∈ owner_generations s -> AllZero id = false ->
  ~ id ∈ List.map connection_id (entries s) -> WithinLimits t user s = true ->
  (exists sb, source_buckets s !! i = Some sb /\ sb_source sb = t) ->
  admission_ok (ReserveEntry g id t user now s i).1.
Proof.
  intros Hok Hg Hid Hnew HW (sb & Hi & Et). unfold ReserveEntry. rewrite Hi.
  destruct (Z.eqb_spec (tokens (sb_bucket sb)) 0) as [| Hts]; [done |].
  destruct (Z.eqb_spec (next_lease_generation s) 0) as [| Hn]; [done |]. cbv zeta. cbn [fst].
  apply WithinLimits_true in HW as (L1 & L2 & L3 & Htg). destruct Hok. destruct ad_counters0 as [Cl Co].
  destruct (TakeToken_range (global_bucket s) _ ad_global0 ltac:(done) Htg) as [_ Rg].
  destruct (TakeToken_range (sb_bucket sb) _ (proj1 (Forall_lookup _ _) ad_buckets0 i sb Hi) ltac:(done) Hts) as [_ Rs].
  split; cbn; try done.
  - rewrite length_app. cbn. lia.
  - rewrite count_if_app, count_if_cons. cbn. destruct user; cbn; [change (count_if _ []) with 0; lia |].
    specialize (L2 eq_refl). change (count_if _ []) with 0. lia.
  - intros t'. specialize (ad_per_source0 t'). unfold ActiveForSource in *. cbn. rewrite count_if_app, count_if_cons. cbn.
    change (count_if _ []) with 0. destruct (same_bytes t t') eqn:E; [apply same_bytes_true in E as <-; lia | lia].
  - rewrite List.map_app. apply list.NoDup_app. split; [done |]. split; [| by apply list.NoDup_singleton].
    intros x Hx ->%list_elem_of_singleton. done.
  - rewrite List.map_app. apply list.NoDup_app. split; [done |]. split; [| by apply list.NoDup_singleton].
    intros x Hx ->%list_elem_of_singleton. cbn in Hx. apply list_elem_of_fmap in Hx as (e & E & He).
    pose proof (proj1 (list.Forall_forall _ _) ad_entries0 e He) as []. rewrite <- E in en_generation0. by apply next_not_handed_out in Hn.
  - assert (ET : tracked_sources (s <| source_buckets := <[i := {| sb_source := sb_source sb; sb_bucket := TakeToken (sb_bucket sb) |}]> (source_buckets s) |>) = tracked_sources s).
    { unfold tracked_sources. cbn. by apply (map_insert_same _ _ _ sb). }
    apply list.Forall_app. split.
    + apply (entries_ok_weaken s); try done; [| by intros; unfold tracked_sources in *; cbn in *; rewrite ET].
      intros e _ He. apply handed_out_next; auto.
    + apply list.Forall_singleton. split; cbn; try done; [apply handed_out_next; auto |].
      unfold tracked_sources in *. cbn in *. rewrite ET, <- Et. apply (list_elem_of_fmap_2 sb_source). by eapply list_elem_of_lookup_2.
  - intros e f [He | ->%list_elem_of_singleton]%elem_of_app [Hf | ->%list_elem_of_singleton]%elem_of_app Hc;
      [by apply ad_compatible0 | | | done]; intros _; (split; [done | cbn; by intros [? ?]]).
  - by apply Forall_insert.
  - by rewrite length_insert.
  - unfold tracked_sources in *. cbn. by rewrite (map_insert_same _ _ _ sb).
  - split; [by apply counter_next | done].
Qed.

Lemma ReserveHandshake_cases g id t user now s :
  ReserveHandshake g id t user now s = (s, None) \/
  g ∈ owner_generations s /\ AllZero id = false /\ AllZero t = false /\ ~ id ∈ List.map connection_id (entries s) /\
  ((ReserveHandshake g id t user now s = (refreshed now s, None) /\
    (WithinLimits t user (refreshed now s) = false \/ SourceBucketFor t now (refreshed now s) = None)) \/
   exists s' i, WithinLimits t user (refreshed now s) = true /\ SourceBucketFor t now (refreshed now s) = Some (s', i) /\
     ReserveHandshake g id t user now s = ReserveEntry g id t user now s' i).
Proof.
  unfold ReserveHandshake. destruct (_ || _) eqn:E; [by left |]. right. rewrite !orb_false_iff, negb_false_iff, bool_decide_eq_true in E.
  destruct E as (((Ho & Hid) & Ht) & Hn%bool_decide_eq_false).
  split. { destruct Ho as [j Hj]. apply FindOwner_Some in Hj as (o & Ho & <-). apply (list_elem_of_fmap_2 ow_generation). by eapply list_elem_of_lookup_2. }
  do 2 (split; [done |]). split.
  { intros Hin. apply Hn. unfold FindConnection. destruct (find_if _ _) as [j |] eqn:EF; [by eexists |].
    apply list_elem_of_fmap in Hin as (e & E & He). apply (find_if_None _ _ EF) in He. apply same_bytes_false in He. by destruct He. }
  fold (refreshed now s). destruct (WithinLimits t user (refreshed now s)) eqn:EW; cbn [negb]; [| left; auto].
  destruct (SourceBucketFor t now (refreshed now s)) as [[s' i] |] eqn:ES; [| left; auto]. right. by exists s', i.
Qed.

Lemma ok_ReserveHandshake g id t user now s : admission_ok s -> admission_ok (ReserveHandshake g id t user now s).1.
Proof.
  intros Hok. destruct (ReserveHandshake_cases g id t user now s) as [-> | (Hg & Hid & _ & Hn & [[-> _] | (s' & i & HW & HS & ->)])];
    [done | by apply ok_refreshed |].
  apply (ok_refreshed now) in Hok. destruct (refreshed_same now s) as (Ee & Eo & _).
  destruct (SourceBucketFor_ok _ _ _ _ _ Hok HS) as (Hok' & Ee' & Eo' & Eg' & _ & Hsb). apply ok_ReserveEntry; try done.
  - unfold owner_generations. by rewrite Eo', Eo.
  - by rewrite Ee', Ee.
  - unfold WithinLimits, ActiveForSource in *. by rewrite Ee', Eg'.
Qed.

(** ** Runs *)

(** A call of a controller or a lease; the generations and leases may be any. *)
Inductive AdmissionCall :=
  | CallRegister
  | CallRetire (controller : Z)
  | CallOpenWindow (controller now duration : Z)
  | CallCloseWindow (controller : Z)
  | CallReserve (controller : Z) (id source : bytes) (user : bool) (now : Z)
  | CallBind (controller : Z) (lease : PairingAdmissionLease) (request : PairingAdmissionRequest) (window : Z)
  | CallAdmit (controller : Z) (request : PairingAdmissionRequest)
  | CallMarkVisible (lease : PairingAdmissionLease)
  | CallRelease (lease : PairingAdmissionLease).

(** The state after a call and the lease that it made. *)
Definition call (c : AdmissionCall) (s : PairingAdmissionState) : PairingAdmissionState * option PairingAdmissionLease :=
  match c with
  | CallRegister => ((RegisterOwner s).1, None)
  | CallRetire g => ((RetireOwner g s).1, None)
  | CallOpenWindow g now duration => ((OpenWindow g now duration s).1, None)
  | CallCloseWindow g => (CloseWindow g s, None)
  | CallReserve g id t user now => ReserveHandshake g id t user now s
  | CallBind g lease rq w => ((Bind g lease rq w s).1, None)
  | CallAdmit g rq => let '(s, result) := Admit g rq s in (s, ad_lease result)
  | CallMarkVisible lease => ((MarkVisible lease s).1, None)
  | CallRelease lease => (Release lease s, None)
  end.

(** The calls in their order, and the leases they made. *)
Fixpoint run (calls : list AdmissionCall) (s : PairingAdmissionState) : PairingAdmissionState * list PairingAdmissionLease :=
  match calls with
  | [] => (s, [])
  | c :: calls =>
      let '(s, lease) := call c s in
      let '(s, leases) := run calls s in
      (s, match lease with Some lease => lease :: leases | None => leases end)
  end.

Lemma Admit_cases g rq s : (exists result, Admit g rq s = (s, result) /\ ad_lease result = None) \/
  (let '(s1, lease) := ReserveHandshake g (rq_connection_id rq) (rq_source rq) (rq_user_initiated rq) (rq_now_ms rq) s in
   match lease with
   | None => Admit g rq s = (s1, rejected PairingError.kBusy)
   | Some lease => Admit g rq s = Bind g lease rq (window_generation g (rq_now_ms rq) s) s1
   end).
Proof.
  unfold Admit. destruct (_ || _); [left; by eexists |]. right. cbv zeta. destruct (ReserveHandshake _ _ _ _ _ _) as [s1 [lease |]]; done.
Qed.

Lemma ok_call c s : admission_ok s -> admission_ok (call c s).1.
Proof.
  intros Hok. destruct c; cbn [call].
  - by apply ok_RegisterOwner.
  - by apply ok_RetireOwner.
  - by apply ok_OpenWindow.
  - by apply ok_CloseWindow.
  - by apply ok_ReserveHandshake.
  - by apply ok_Bind.
  - destruct (Admit_cases controller request s) as [(result & -> & _) | H]; [done |].
    pose proof (ok_ReserveHandshake controller (rq_connection_id request) (rq_source request) (rq_user_initiated request) (rq_now_ms request) s Hok) as Hr.
    destruct (ReserveHandshake _ _ _ _ _ _) as [s1 [lease |]]; cbn [fst] in Hr; rewrite H; [| done].
    pose proof (ok_Bind controller lease request (window_generation controller (rq_now_ms request) s) s1 Hr) as Hb.
    destruct (Bind _ _ _ _ _) as [s2 result]. exact Hb.
  - by apply ok_MarkVisible.
  - by apply ok_Release.
Qed.

Lemma ok_run calls s : admission_ok s -> admission_ok (run calls s).1.
Proof.
  revert s. induction calls as [| c calls IH]; intros s Hok; [done |]. cbn [run].
  apply (ok_call c) in Hok. destruct (call c s) as [s1 lease]. cbn [fst] in Hok. specialize (IH s1 Hok).
  destruct (run calls s1) as [s2 leases]. exact IH.
Qed.

(** ** The rate of admission *)

(** The time a call is given, when it has one. *)
Definition call_time (c : AdmissionCall) : option Z :=
  match c with
  | CallOpenWindow _ now _ => Some now
  | CallReserve _ _ _ _ now => Some now
  | CallAdmit _ rq => Some (rq_now_ms rq)
  | _ => None
  end.

Definition timed (lo hi : Z) (c : AdmissionCall) : Prop :=
  match call_time c with Some now => lo <= now <= hi | None => True end.

(** The global bucket after a refill at [now]. *)
Lemma Refill_spec bucket now : 0 <= tokens bucket <= kGlobalAdmissionBucketCapacity -> 0 <= last_refill_ms bucket ->
  0 <= now < 2 ^ 64 ->
  let b := Refill bucket now kGlobalAdmissionRefillMs kGlobalAdmissionBucketCapacity in
  last_refill_ms bucket <= last_refill_ms b <= Z.max now (last_refill_ms bucket) /\ now - 999 <= last_refill_ms b /\
  tokens bucket <= tokens b <= kGlobalAdmissionBucketCapacity /\
  tokens b - tokens bucket <= (last_refill_ms b - last_refill_ms bucket) / 1000.
Proof.
  intros Hb Hl Hn. unfold Refill, kGlobalAdmissionRefillMs, kGlobalAdmissionBucketCapacity in *.
  destruct (Z.leb_spec now (last_refill_ms bucket)) as [Ht | Ht]; cbn [orb].
  { destruct (Z.gtb_spec now (last_refill_ms bucket)); [lia |]. cbn [andb]. rewrite !Z.sub_diag. change (0 / 1000) with 0. lia. }
  destruct (Z.eqb_spec (tokens bucket) 16) as [E | E]; cbn [orb].
  { destruct (Z.gtb_spec now (last_refill_ms bucket)); [| lia]. cbn [andb last_refill_ms tokens]. rewrite Z.sub_diag.
    pose proof (Z.div_pos (now - last_refill_ms bucket) 1000). lia. }
  cbv zeta. set (n := (now - last_refill_ms bucket) / 1000) in *.
  assert (Hn0 : 0 <= n) by (apply Z.div_pos; lia).
  pose proof (Z.mul_div_le (now - last_refill_ms bucket) 1000 ltac:(lia)) as H1.
  pose proof (Z.mul_succ_div_gt (now - last_refill_ms bucket) 1000 ltac:(lia)) as H2. fold n in H1, H2.
  destruct (Z.eqb_spec n 0) as [E0 | E0]; [rewrite !Z.sub_diag; change (0 / 1000) with 0; lia |]. cbn [last_refill_ms tokens].
  assert (W : wrap 64 (n * 1000) = n * 1000) by (apply wrap_small; unfold in_width; lia). rewrite W.
  unfold CheckedDeadline, umax. destruct (Z.gtb_spec (last_refill_ms bucket) (2 ^ 64 - 1 - n * 1000)); [lia |].
  replace (last_refill_ms bucket + n * 1000 - last_refill_ms bucket) with (n * 1000) by lia. rewrite Z.div_mul by lia.
  destruct (Z.geb_spec n 16); lia.
Qed.

(** What bounds the leases of an interval that starts at [t0]: the tokens that
    there were, and those of the time since. *)
Record rate_ok (t0 : Z) (made : Z) (s : PairingAdmissionState) : Prop := {
  ra_start : initialized s = false -> made = 0 /\ tokens (global_bucket s) = 0;
  ra_tokens : 0 <= tokens (global_bucket s) <= kGlobalAdmissionBucketCapacity;
  ra_time : 0 <= last_refill_ms (global_bucket s);
  ra_recent : made = 0 \/ t0 - 999 <= last_refill_ms (global_bucket s);
  ra_made : made + tokens (global_bucket s) <= 16 + Z.max 0 (last_refill_ms (global_bucket s) - (t0 - 999)) / 1000;
}.

Lemma rate_mono t0 a b k : 0 <= k -> a <= b -> k <= (b - a) / 1000 -> t0 - 999 <= a ->
  16 + Z.max 0 (a - (t0 - 999)) / 1000 + k <= 16 + Z.max 0 (b - (t0 - 999)) / 1000.
Proof.
  intros Hk Hab Hd Ha. rewrite !Z.max_r by lia.
  assert (H : (a - (t0 - 999)) / 1000 + (b - a) / 1000 <= (b - (t0 - 999)) / 1000); [| lia].
  zlia.
Qed.

Definition rated (t0 t1 made : Z) (s : PairingAdmissionState) : Prop :=
  rate_ok t0 made s /\ last_refill_ms (global_bucket s) <= t1.

Lemma rated_same t0 t1 made s s' : initialized s' = initialized s -> global_bucket s' = global_bucket s ->
  rated t0 t1 made s -> rated t0 t1 made s'.
Proof. intros Ei Eg [[] Hl]. split; [split |]; rewrite ?Ei, ?Eg; done. Qed.

Section Rate.
Context (t0 t1 : Z) (H0 : 0 <= t0) (H1 : t1 < 2 ^ 64).
#[local] Set Default Proof Using "All".

Lemma rated_Initialize made now s : t0 <= now <= t1 -> rated t0 t1 made s -> rated t0 t1 made (Initialize now s).
Proof.
  intros Hn [[] Hl]. unfold Initialize. destruct (initialized s) eqn:Ei; [split; [split |]; rewrite ?Ei; done |].
  destruct (ra_start0 eq_refl) as [-> _]. split; [| cbn; lia].
  pose proof (Z.div_pos (Z.max 0 (now - (t0 - 999))) 1000). split; cbn; unfold kGlobalAdmissionBucketCapacity; lia || done.
Qed.

Lemma rated_refreshed made now s : t0 <= now <= t1 -> rated t0 t1 made s ->
  rated t0 t1 made (refreshed now s) /\ t0 - 999 <= last_refill_ms (global_bucket (refreshed now s)) /\ initialized (refreshed now s) = true.
Proof.
  intros Hn Hr%(rated_Initialize _ now); [| done].
  assert (Ei : initialized (Initialize now s) = true) by (unfold Initialize; by destruct (initialized s) eqn:E).
  unfold refreshed. revert Hr Ei. generalize (Initialize now s). intros s1 [[] Hl] Ei.
  destruct (Refill_spec (global_bucket s1) now) as (R1 & R2 & R3 & R4); [done | done | lia |].
  set (b := Refill _ _ _ _) in *. set (s2 := PruneSourceBuckets _ _).
  assert (E1 : global_bucket s2 = b) by done. assert (E2 : initialized s2 = true) by exact Ei. clearbody s2.
  unfold rated. rewrite E1. split; [split; [split; rewrite ?E1 |] |].
  - congruence.
  - lia.
  - lia.
  - right. lia.
  - destruct (Z.le_gt_cases (t0 - 999) (last_refill_ms (global_bucket s1))) as [Hc | Hc].
    + pose proof (rate_mono t0 _ _ (tokens b - tokens (global_bucket s1)) ltac:(lia) (proj1 R1) R4 Hc). lia.
    + destruct ra_recent0 as [-> |]; [| lia]. pose proof (Z.div_pos (Z.max 0 (last_refill_ms b - (t0 - 999))) 1000).
      unfold kGlobalAdmissionBucketCapacity in *. lia.
  - lia.
  - split; [lia | done].
Qed.

Lemma rated_ReserveHandshake made g id t user now s : t0 <= now <= t1 -> rated t0 t1 made s ->
  let '(s', lease) := ReserveHandshake g id t user now s in
  rated t0 t1 (made + match lease with Some _ => 1 | None => 0 end) s'.
Proof.
  intros Hn Hr. destruct (ReserveHandshake_cases g id t user now s) as [-> | (_ & _ & _ & _ & H)]; [by rewrite Z.add_0_r |].
  destruct (rated_refreshed made now s Hn Hr) as (Hr' & Ht & Hi). destruct H as [[-> _] | (s' & i & HW & HS & ->)]; [by rewrite Z.add_0_r |].
  assert (Eg : global_bucket s' = global_bucket (refreshed now s) /\ initialized s' = initialized (refreshed now s)).
  { unfold SourceBucketFor in HS. destruct (FindSource _ _); [by injection HS as <- <- |]. destruct (_ =? _); [done |]. by injection HS as <- <-. }
  destruct Eg as [Eg Ei]. assert (Hr1 : rated t0 t1 made s') by (by apply (rated_same _ _ _ (refreshed now s))).
  unfold ReserveEntry. destruct (source_buckets s' !! i) as [sb |]; [| by rewrite Z.add_0_r].
  destruct (_ =? 0); [by rewrite Z.add_0_r |]. destruct (_ =? 0); [by rewrite Z.add_0_r |]. cbv zeta.
  apply WithinLimits_true in HW as (_ & _ & _ & HT). rewrite <- Eg in HT, Ht. rewrite Hi in Ei. destruct Hr1 as [[] Hl].
  destruct (TakeToken_range (global_bucket s') _ ra_tokens0 ltac:(done) HT) as [Et Rt].
  set (s2 := _ <| source_buckets := _ |>). assert (E1 : global_bucket s2 = TakeToken (global_bucket s')) by done.
  assert (E2 : initialized s2 = true) by exact Ei. clearbody s2. unfold rated. rewrite E1.
  assert (E3 : last_refill_ms (TakeToken (global_bucket s')) = last_refill_ms (global_bucket s')) by done.
  split; [split; rewrite ?E1, ?E3 | by rewrite E3]; try done; [congruence | by right | lia].
Qed.

Lemma rated_Release made lease s : rated t0 t1 made s -> rated t0 t1 made (Release lease s).
Proof. by apply rated_same. Qed.

Lemma rated_Bind made g lease rq w s : rated t0 t1 made s -> rated t0 t1 made (Bind g lease rq w s).1.
Proof.
  intros Hr. unfold Bind. destruct (BindLocked_cases g lease rq w s) as [(error & -> & _) | (i & e & o & displaced & _ & _ & _ & _ & _ & _ & _ & _ & _ & _ & _ & ->)].
  - by apply rated_Release.
  - cbn [ad_lease fst]. revert Hr. by apply rated_same.
Qed.

Lemma Bind_lease g lease rq w s : ad_lease (Bind g lease rq w s).2 = None \/ ad_lease (Bind g lease rq w s).2 = Some lease.
Proof.
  unfold Bind. destruct (BindLocked_cases g lease rq w s) as [(error & -> & _) | (i & e & o & displaced & _ & _ & _ & _ & _ & _ & _ & _ & _ & _ & _ & ->)];
    [by left | by right].
Qed.

Lemma rated_weaken made made' s : 0 <= made' <= made -> rated t0 t1 made s -> rated t0 t1 made' s.
Proof.
  intros Hm [[] Hl]. split; [| done]. split; try done; try lia.
  - intros E. destruct (ra_start0 E) as [-> ?]. split; [lia | done].
Qed.

Lemma rated_call made c s : 0 <= made -> timed t0 t1 c -> rated t0 t1 made s ->
  let '(s', lease) := call c s in rated t0 t1 (made + match lease with Some _ => 1 | None => 0 end) s'.
Proof.
  intros Hm Ht Hr. unfold timed in Ht. destruct c; cbn [call_time] in Ht; cbn [call]; rewrite ?Z.add_0_r.
  - unfold RegisterOwner. destruct (_ =? 0); [done |]. by apply (rated_same _ _ _ s).
  - unfold RetireOwner. destruct (_ =? 0); [done |]. by apply (rated_same _ _ _ s).
  - unfold OpenWindow. destruct (_ || _); [done |]. destruct (FindOwner _ _); [| done]. destruct (_ !! _); [| done].
    destruct (_ || _); [done |]. cbv zeta. cbn [fst]. apply (rated_Initialize _ now) in Hr; [| done].
    revert Hr. generalize (Initialize now s). intros s1 Hr. by apply (rated_same _ _ _ s1).
  - unfold CloseWindow. destruct (FindOwner _ _); [| done]. destruct (_ !! _); [| done]. by apply (rated_same _ _ _ s).
  - by apply rated_ReserveHandshake.
  - by apply rated_Bind.
  - destruct (Admit_cases controller request s) as [(result & -> & El) | H]; [rewrite El; by rewrite Z.add_0_r |].
    pose proof (rated_ReserveHandshake made controller (rq_connection_id request) (rq_source request) (rq_user_initiated request) (rq_now_ms request) s Ht Hr) as Hs.
    destruct (ReserveHandshake _ _ _ _ _ _) as [s1 [lease |]]; rewrite H; [| by rewrite Z.add_0_r in *].
    apply (rated_Bind _ controller lease request (window_generation controller (rq_now_ms request) s)) in Hs.
    destruct (Bind _ _ _ _ _) as [s2 result]. cbn [fst] in Hs. destruct (ad_lease result); [done |]. apply (rated_weaken (made + 1)); [lia | done].
  - unfold MarkVisible. destruct (Find _ _) as [[i e] |]; [| done]. destruct (negb _); [done |]. destruct (visible e); [done |].
    destruct (_ =? _); [done |]. by apply (rated_same _ _ _ s).
  - by apply rated_Release.
Qed.

Lemma rated_run made calls s : 0 <= made -> Forall (timed t0 t1) calls -> rated t0 t1 made s ->
  let '(s', leases) := run calls s in rated t0 t1 (made + Z.of_nat (length leases)) s'.
Proof.
  intros Hm Ht. revert made s Hm. induction Ht as [| c calls Hc _ IH]; intros made s Hm Hr; cbn [run]; [by rewrite Z.add_0_r |].
  pose proof (rated_call made c s Hm Hc Hr) as Hs. destruct (call c s) as [s1 lease].
  specialize (IH (made + match lease with Some _ => 1 | None => 0 end) s1 ltac:(destruct lease; lia) Hs).
  destruct (run calls s1) as [s2 leases]. destruct lease; cbn [length] in *;
    [by replace (made + Z.of_nat (S (length leases))) with (made + 1 + Z.of_nat (length leases)) by lia | by rewrite Z.add_0_r in IH].
Qed.
End Rate.

(** The leases made in an interval, after whatever came before it. *)
Lemma leases_bounded before calls t0 t1 : 0 <= t0 <= t1 -> t1 < 2 ^ 64 ->
  Forall (timed 0 t0) before -> Forall (timed t0 t1) calls ->
  let s := (run before PairingAdmissionState_initial).1 in
  Z.of_nat (length (run calls s).2) <= 16 + (t1 - t0 + 999) / 1000.
Proof.
  intros Ht Hw Hb Hc. cbv zeta.
  assert (Hi : rated 0 t0 0 PairingAdmissionState_initial).
  { split; [split |]; cbn; try done; try lia; by left. }
  pose proof (rated_run 0 t0 ltac:(lia) ltac:(lia) 0 before PairingAdmissionState_initial ltac:(lia) Hb Hi) as Hr.
  pose proof (ok_run before PairingAdmissionState_initial admission_ok_initial) as Hok.
  destruct (run before PairingAdmissionState_initial) as [s leases]. cbn [fst] in *. destruct Hr as [[] Hl].
  assert (Hs : rated t0 t1 0 s).
  { split; [| lia]. pose proof (Z.div_pos (Z.max 0 (last_refill_ms (global_bucket s) - (t0 - 999))) 1000).
    split; try done; [intros E; by destruct (ra_start0 E) | by left | unfold kGlobalAdmissionBucketCapacity in *; lia]. }
  pose proof (rated_run t0 t1 ltac:(lia) Hw 0 calls s ltac:(lia) Hc Hs) as Hr. destruct (run calls s) as [s2 made]. cbn [snd].
  destruct Hr as [[] Hl2]. rewrite Z.add_0_l in *.
  assert (Z.max 0 (last_refill_ms (global_bucket s2) - (t0 - 999)) / 1000 <= (t1 - t0 + 999) / 1000) by (apply Z.div_le_mono; lia). lia.
Qed.

(** ** Two connections of one pair of devices *)

(** The connection of a lease may be bound by the request. *)
Record may_bind (g : Z) (lease : PairingAdmissionLease) (rq : PairingAdmissionRequest) (w : Z) (i : nat) (e : Entry)
    (s : PairingAdmissionState) : Prop := {
  mb_entry : entries s !! i = Some e;
  mb_lease : connection_id e = ls_connection_id lease /\ lease_generation e = ls_generation lease;
  mb_request : connection_id e = rq_connection_id rq /\ source e = rq_source rq /\ user_initiated e = rq_user_initiated rq;
  mb_owner : owner_generation e = g /\ bound e = false;
  mb_window : w <> 0 /\ window_generation g (rq_now_ms rq) s = w;
  mb_keys : rq_local_key rq <> rq_peer_key rq;
}.

Lemma Find_entry s lease i e : admission_ok s -> entries s !! i = Some e -> connection_id e = ls_connection_id lease ->
  lease_generation e = ls_generation lease -> Find lease s = Some (i, e).
Proof.
  intros Hok Hi Ec Eg. unfold Find. destruct (FindConnection (ls_connection_id lease) s) as [j |] eqn:EF.
  - apply FindConnection_Some in EF as (f & Hf & Ef). rewrite Hf.
    assert (i = j) as <-.
    { eapply (NoDup_lookup (List.map connection_id (entries s))); [apply Hok | |]; rewrite list_lookup_fmap.
      - rewrite Hi. done.
      - rewrite Hf. cbn. congruence. }
    rewrite Hi in Hf. injection Hf as <-. by rewrite Eg, Z.eqb_refl.
  - apply list_elem_of_lookup_2 in Hi. apply (find_if_None _ _ EF) in Hi. apply same_bytes_false in Hi. done.
Qed.

Lemma BindLocked_may g lease rq w i e s : admission_ok s -> may_bind g lease rq w i e s ->
  exists o, ow_window_deadline_ms o > rq_now_ms rq /\
  BindLocked g lease rq w s =
    match Displaces (FindDuplicate g rq i s) rq with
    | inl error => (s, rejected error)
    | inr displaced =>
        (match displaced with
         | Some id => ReleaseConnection id (s <| entries := <[i := bound_entry e rq o]> (entries s) |>)
         | None => s <| entries := <[i := bound_entry e rq o]> (entries s) |>
         end, {| ad_error := PairingError.kNone; ad_displaced_connection := displaced; ad_lease := Some lease |})
    end.
Proof.
  intros Hok [Hi [Ec Eg] (Er & Es & Eu) [Eo Eb] [Hw Ew] Hk]. unfold BindLocked. rewrite (Find_entry s lease i e) by done.
  unfold window_generation in Ew. destruct (owner_at g s) as [o |]; [| congruence]. exists o.
  destruct (ow_window_enabled o); cbn [andb] in Ew; [| congruence].
  destruct (Z.ltb_spec (rq_now_ms rq) (ow_window_deadline_ms o)) as [Hd |]; [| congruence]. split; [lia |].
  assert (E : bound e || negb (owner_generation e =? g) || negb (same_bytes (connection_id e) (rq_connection_id rq)) ||
     negb (same_bytes (source e) (rq_source rq)) || negb (Bool.eqb (user_initiated e) (rq_user_initiated rq)) ||
     negb true || (rq_now_ms rq >=? ow_window_deadline_ms o) || (w =? 0) || negb (w =? ow_window_generation o) = false).
  { rewrite Eb, Eo, Er, Es, Eu, Ew, !Z.eqb_refl, Bool.eqb_reflx, !(proj2 (same_bytes_true _ _) eq_refl).
    rewrite (proj2 (Z.eqb_neq w 0) Hw). cbn. rewrite Z.geb_leb, (proj2 (Z.leb_gt _ _) Hd). done. }
  rewrite E. assert (E2 : negb (IsRole (rq_local_role rq)) || same_bytes (rq_local_key rq) (rq_peer_key rq) = false).
  { rewrite (proj2 (same_bytes_false _ _) Hk). by destruct (rq_local_role rq). }
  rewrite E2. destruct (Displaces _ rq); done.
Qed.

(** The two connections of a device to the same peer, one opened by each side. *)
Record crossing (L P : bytes) (g w : Z) (l1 l2 : PairingAdmissionLease) (q1 q2 : PairingAdmissionRequest) (s : PairingAdmissionState) : Prop := {
  cr_ok : admission_ok s;
  cr_first : exists i e, may_bind g l1 q1 w i e s;
  cr_second : exists i e, may_bind g l2 q2 w i e s;
  cr_distinct : ls_connection_id l1 <> ls_connection_id l2;
  cr_keys1 : rq_local_key q1 = L /\ rq_peer_key q1 = P;
  cr_keys2 : rq_local_key q2 = L /\ rq_peer_key q2 = P;
  cr_roles : rq_local_role q1 <> rq_local_role q2;
  cr_new : forall f, f ∈ entries s -> ~ duplicates g q1 f;
}.

Definition bind_both (g w : Z) (l1 l2 : PairingAdmissionLease) (q1 q2 : PairingAdmissionRequest) (s : PairingAdmissionState) : PairingAdmissionState :=
  (Bind g l2 q2 w (Bind g l1 q1 w s).1).1.

(** The smaller of two keys. *)
Definition smaller_key (a b : bytes) : bytes := if array_less b a then b else a.

Lemma smaller_key_comm a b : smaller_key a b = smaller_key b a.
Proof.
  unfold smaller_key. destruct (array_less b a) eqn:E1, (array_less a b) eqn:E2; try done.
  - pose proof (array_less_trans _ _ _ E1 E2) as E. by rewrite array_less_irrefl in E.
  - by apply array_less_total.
Qed.

Lemma bound_entry_duplicates g e rq rq' o : owner_generation e = g -> rq_local_key rq = rq_local_key rq' -> rq_peer_key rq = rq_peer_key rq' ->
  duplicates g rq' (bound_entry e rq o).
Proof. intros Ho E1 E2. split; [done |]. split; [done |]. left. by cbn. Qed.

Lemma crossing_kept L P g w l1 l2 q1 q2 s : crossing L P g w l1 l2 q1 q2 s ->
  exists e, e ∈ entries (bind_both g w l1 l2 q1 q2 s) /\ duplicates g q1 e /\ InitiatorKey e = smaller_key L P /\
    forall f, f ∈ entries (bind_both g w l1 l2 q1 q2 s) -> duplicates g q1 f -> f = e.
Proof.
  intros [Hok (i1 & e1 & M1) (i2 & e2 & M2) Hd [L1 P1] [L2 P2] HR Hnew].
  assert (HU : forall s', admission_ok s' -> forall e f, e ∈ entries s' -> f ∈ entries s' -> duplicates g q1 e -> duplicates g q1 f -> f = e).
  { intros s' Hs' e f He Hf [Oe [Be Pe]] [Of [Bf Pf]]. destruct (decide (connection_id f = connection_id e)) as [E | E].
    - by apply (entries_unique s').
    - destruct (ad_compatible _ Hs' f e Hf He E ltac:(congruence)) as [H _]. destruct (H Bf Be). by apply (pair_of_same f e q1). }
  unfold bind_both. pose proof (ok_Bind g l1 q1 w s Hok) as Hok1. revert Hok1. unfold Bind at 1 3 4 5.
  destruct (BindLocked_may g l1 q1 w i1 e1 s Hok M1) as (o1 & _ & ->).
  pose proof (FindDuplicate_spec g q1 i1 s) as HF1. destruct (FindDuplicate g q1 i1 s) as [d |].
  { destruct HF1 as (j & _ & Hj%list_elem_of_lookup_2 & HD). by destruct (Hnew d Hj). }
  cbn [Displaces ad_lease fst]. set (b1 := bound_entry e1 q1 o1). set (s1 := s <| entries := <[i1 := b1]> (entries s) |>). intros Hok1.
  assert (D1 : duplicates g q1 b1) by (apply bound_entry_duplicates; [apply M1 | done | done]).
  assert (Hi1 : entries s1 !! i1 = Some b1).
  { apply list_lookup_insert_eq. apply (lookup_lt_Some _ _ e1), M1. }
  assert (Hne : i2 <> i1).
  { intros ->. destruct M1 as [E1 [C1 _] _ _ _ _], M2 as [E2 [C2 _] _ _ _ _]. rewrite E1 in E2. injection E2 as <-. congruence. }
  assert (M2' : may_bind g l2 q2 w i2 e2 s1).
  { destruct M2. split; try done. change (entries s1) with (<[i1 := b1]> (entries s)). by rewrite list_lookup_insert_ne. }
  pose proof (ok_Bind g l2 q2 w s1 Hok1) as Hok2. revert Hok2. unfold Bind.
  destruct (BindLocked_may g l2 q2 w i2 e2 s1 Hok1 M2') as (o2 & _ & ->).
  assert (DQ : forall f, duplicates g q2 f <-> duplicates g q1 f).
  { intros f. unfold duplicates, pair_of. by rewrite L1, P1, L2, P2. }
  pose proof (FindDuplicate_spec g q2 i2 s1) as HF2. destruct (FindDuplicate g q2 i2 s1) as [d |].
  2:{ destruct (HF2 i1 b1 (not_eq_sym Hne) Hi1). by apply DQ. }
  destruct HF2 as (j & Hj & Hd2 & HD%DQ). pose proof (list_elem_of_lookup_2 _ _ _ Hd2) as Hd2'.
  assert (d = b1) as -> by (apply (HU s1 Hok1 b1 d); try done; by eapply list_elem_of_lookup_2).
  set (b2 := bound_entry e2 q2 o2). assert (D2 : duplicates g q1 b2) by (apply DQ, bound_entry_duplicates; [apply M2 | done | done]).
  assert (EC : connection_id b1 <> connection_id b2).
  { change (connection_id e1 <> connection_id e2). destruct M1 as [_ [C1 _] _ _ _ _], M2 as [_ [C2 _] _ _ _ _]. congruence. }
  assert (I1 : InitiatorKey b1 = RequestInitiatorKey q1) by done. assert (I2 : InitiatorKey b2 = RequestInitiatorKey q2) by done.
  assert (K2 : canonical_key q2 = smaller_key L P) by (unfold canonical_key, smaller_key; by rewrite L2, P2).
  assert (HLP : L <> P) by (rewrite <- L1, <- P1; apply M1).
  assert (IQ : (RequestInitiatorKey q1 = L /\ RequestInitiatorKey q2 = P) \/ (RequestInitiatorKey q1 = P /\ RequestInitiatorKey q2 = L)).
  { unfold RequestInitiatorKey. destruct (rq_local_role q1), (rq_local_role q2); try done; [left | right]; done. }
  destruct (Displaces (Some b1) q2) as [error | displaced] eqn:ED; cbn [rejected ad_lease fst].
  - intros Hok2. exists b1. assert (In1 : b1 ∈ entries (Release l2 s1)).
    { apply elem_of_list_filter. split; [by eapply list_elem_of_lookup_2 |]. apply negb_true_iff, andb_false_iff. left.
      apply same_bytes_false. change (connection_id e1 <> ls_connection_id l2). destruct M1 as [_ [C1 _] _ _ _ _]. congruence. }
    split; [done |]. split; [done |]. split; [| intros f Hf HDf; by apply (HU _ Hok2 b1 f)]. rewrite I1.
    destruct (decide (RequestInitiatorKey q2 = smaller_key L P)) as [E | E].
    { exfalso. assert (HD' : Displaces (Some b1) q2 = inr (Some (connection_id b1))); [| congruence]. apply Displaces_Some.
      split; [| split; [rewrite I1; destruct IQ as [[-> ->] | [-> ->]]; congruence | split; [by rewrite K2 | done]]].
      change (visible e1 = false). apply not_true_iff_false. intros Hv.
      pose proof (proj1 (list.Forall_forall _ _) (ad_entries _ Hok) e1 ltac:(eapply list_elem_of_lookup_2; apply M1)) as [_ _ _ _ Hvb _].
      destruct M1 as [_ _ _ [_ Hb] _ _]. specialize (Hvb Hv). congruence. }
    unfold smaller_key in *. destruct IQ as [[-> E2] | [-> E2]]; rewrite E2 in E; destruct (array_less P L); congruence.
  - apply Displaces_Some in ED as (_ & _ & E & ->). intros Hok2. exists b2.
    assert (In2 : b2 ∈ entries (ReleaseConnection (connection_id b1) (s1 <| entries := <[i2 := b2]> (entries s1) |>))).
    { apply elem_of_list_filter. split.
      - apply (list_elem_of_lookup_2 _ i2), list_lookup_insert_eq. apply (lookup_lt_Some _ _ e2), M2'.
      - apply negb_true_iff, same_bytes_false. congruence. }
    split; [done |]. split; [done |]. split; [by rewrite I2, E, K2 |]. intros f Hf HDf. by apply (HU _ Hok2 b2 f).
Qed.

(** ** Leases that were released *)

Definition lease_of (e : Entry) : bytes * Z := (connection_id e, lease_generation e).

(** The leases of the table: those that were there and at most a new one. *)
Definition leases_from (s s' : PairingAdmissionState) : Prop :=
  (forall g, handed_out (next_lease_generation s) g -> handed_out (next_lease_generation s') g) /\
  forall e, e ∈ entries s' -> (exists f, f ∈ entries s /\ lease_of f = lease_of e) \/
    (next_lease_generation s <> 0 /\ lease_generation e = next_lease_generation s).

Lemma leases_from_filter p s s' : next_lease_generation s' = next_lease_generation s ->
  entries s' = List.filter p (entries s) -> leases_from s s'.
Proof. intros En Ee. split; [by rewrite En |]. rewrite Ee. intros e [He _]%elem_of_list_filter. left. by exists e. Qed.

Lemma leases_from_update p i e e' s s' : next_lease_generation s' = next_lease_generation s -> entries s !! i = Some e ->
  lease_of e' = lease_of e -> entries s' = List.filter p (<[i := e']> (entries s)) -> leases_from s s'.
Proof.
  intros En Hi El Ee. split; [by rewrite En |]. rewrite Ee. intros f [[-> | Hf]%elem_of_insert _]%elem_of_list_filter; left.
  - exists e. split; [by eapply list_elem_of_lookup_2 | done].
  - by exists f.
Qed.

Lemma leases_from_refl s s' : next_lease_generation s' = next_lease_generation s -> entries s' = entries s -> leases_from s s'.
Proof. intros En Ee. apply (leases_from_filter (fun _ => true)); [done |]. by rewrite filter_all. Qed.

Lemma leases_from_Bind g lease rq w s : leases_from s (Bind g lease rq w s).1.
Proof.
  unfold Bind. destruct (BindLocked_cases g lease rq w s) as [(error & -> & _) | (i & e & o & displaced & Hi & _ & _ & _ & _ & _ & _ & _ & _ & _ & _ & ->)].
  - by eapply leases_from_filter.
  - cbn [ad_lease fst]. by eapply (leases_from_update _ i e (bound_entry e rq o)).
Qed.

Lemma leases_from_ReserveHandshake g id t user now s : admission_ok s -> leases_from s (ReserveHandshake g id t user now s).1.
Proof.
  intros Hok. destruct (refreshed_same now s) as (Ee & _ & En & _).
  destruct (ReserveHandshake_cases g id t user now s) as [-> | (_ & _ & _ & _ & [[-> _] | (s' & i & _ & HS & ->)])]; [by apply leases_from_refl.. |].
  destruct (SourceBucketFor_ok _ _ _ _ _ (ok_refreshed now s Hok) HS) as (_ & Ee' & _ & _ & En' & _).
  unfold ReserveEntry. destruct (_ !! i) as [sb |]; [| apply leases_from_refl; cbn; congruence].
  destruct (_ =? 0); [apply leases_from_refl; cbn; congruence |].
  destruct (Z.eqb_spec (next_lease_generation s') 0) as [| Hn]; [apply leases_from_refl; cbn; congruence |]. cbv zeta. cbn [fst].
  destruct Hok. destruct ad_counters0 as [Cl _]. rewrite En', En in Hn. split.
  - cbn. rewrite En', En. intros x Hx. apply handed_out_next; auto.
  - cbn. rewrite Ee', Ee, En', En. intros e [He | ->%list_elem_of_singleton]%elem_of_app; [left; by exists e | by right].
Qed.

(** A lease that was handed out and is not in the table. *)
Definition released (lease : bytes * Z) (s : PairingAdmissionState) : Prop :=
  handed_out (next_lease_generation s) lease.2 /\ forall e, e ∈ entries s -> lease_of e <> lease.

Lemma leases_from_released lease s s' : leases_from s s' -> released lease s -> released lease s'.
Proof.
  intros [H1 E1] [Hh Hn]. split; [auto |]. intros e He <-. destruct (E1 e He) as [(f & Hf & Ef) | [H0 Eg]]; [by apply (Hn f) |].
  cbn in Hh. rewrite Eg in Hh. by apply next_not_handed_out in H0.
Qed.

Lemma released_call lease c s : admission_ok s -> released lease s -> released lease (call c s).1.
Proof.
  intros Hok Hr. destruct c; cbn [call].
  - apply (leases_from_released _ s); [| done]. unfold RegisterOwner. destruct (_ =? 0); by apply leases_from_refl.
  - apply (leases_from_released _ s); [| done]. unfold RetireOwner. destruct (_ =? 0); [by apply leases_from_refl | by eapply leases_from_filter].
  - apply (leases_from_released _ s); [| done]. unfold OpenWindow. destruct (_ || _); [by apply leases_from_refl |].
    destruct (FindOwner _ _); [| by apply leases_from_refl]. destruct (_ !! _); [| by apply leases_from_refl].
    destruct (_ || _); [by apply leases_from_refl |]. cbv zeta. unfold Initialize. destruct (initialized s); by apply leases_from_refl.
  - apply (leases_from_released _ s); [| done]. unfold CloseWindow. destruct (FindOwner _ _); [| by apply leases_from_refl].
    destruct (_ !! _); [| by apply leases_from_refl]. by eapply leases_from_filter.
  - apply (leases_from_released _ s); [by apply leases_from_ReserveHandshake | done].
  - apply (leases_from_released _ s); [apply leases_from_Bind | done].
  - destruct (Admit_cases controller request s) as [(result & -> & _) | H]; [done |].
    pose proof (leases_from_ReserveHandshake controller (rq_connection_id request) (rq_source request) (rq_user_initiated request) (rq_now_ms request) s Hok) as Hs.
    destruct (ReserveHandshake _ _ _ _ _ _) as [s1 [l |]]; rewrite H; cbn [fst] in *; [| by apply (leases_from_released _ s)].
    pose proof (leases_from_Bind controller l request (window_generation controller (rq_now_ms request) s) s1) as Hb.
    destruct (Bind _ _ _ _ _) as [s2 result]. cbn [fst] in *. apply (leases_from_released _ s1), (leases_from_released _ s); done.
  - apply (leases_from_released _ s); [| done]. unfold MarkVisible. destruct (Find _ _) as [[i e] |] eqn:EF; [| by apply leases_from_refl].
    apply Find_Some in EF as (Hi & _). destruct (negb _); [by apply leases_from_refl |]. destruct (visible e); [by apply leases_from_refl |].
    destruct (_ =? _); [by apply leases_from_refl |]. eapply (leases_from_update (fun _ => true) i e); [done | done | | cbn; by rewrite filter_all]. done.
  - apply (leases_from_released _ s); [by eapply leases_from_filter | done].
Qed.

Lemma released_run lease calls s : admission_ok s -> released lease s -> released lease (run calls s).1.
Proof.
  revert s. induction calls as [| c calls IH]; intros s Hok Hr; [done |]. cbn [run].
  apply (released_call _ c) in Hr; [| done]. apply (ok_call c) in Hok. destruct (call c s) as [s1 l]. cbn [fst] in *.
  specialize (IH s1 Hok Hr). by destruct (run calls s1).
Qed.

Lemma active_iff lease s : admission_ok s ->
  active lease s = true <-> exists e, e ∈ entries s /\ lease_of e = (ls_connection_id lease, ls_generation lease).
Proof.
  intros Hok. unfold active. rewrite bool_decide_eq_true. split.
  - intros [[i e] (Hi & Ec & Eg)%Find_Some]. exists e. split; [by eapply list_elem_of_lookup_2 |]. unfold lease_of. by rewrite Ec, Eg.
  - intros (e & [i Hi]%list_elem_of_lookup & [= Ec Eg]). exists (i, e). by apply Find_entry.
Qed.

(** ** The theorems *)

(** C24: Whatever controllers and leases call, in whatever order and at whatever
    times, the table holds at most eight connections, at most seven that no
    user asked for and at most two of one source, with distinct connection ids
    and leases; no controller has two bound connections for one pair of keys or
    two visible attempts; no bucket is over its capacity.  The visible attempts
    are counted per controller, as [MarkVisible] counts them: two controllers of
    one process can each show one ([two_prompts_visible]), which
    [protocol/spec/pairing-v1.md], sections 8 and 9, does not allow. *)
Theorem admission_limits calls : admission_ok (run calls PairingAdmissionState_initial).1.
Proof. apply ok_run, admission_ok_initial. Qed.

(** C25: In an interval of time, after any calls before it, no more connections
    are admitted than the bucket holds and one for every second, however many
    sources ask. *)
Theorem admission_rate before calls t0 t1 : 0 <= t0 <= t1 -> t1 < 2 ^ 64 ->
  Forall (timed 0 t0) before -> Forall (timed t0 t1) calls ->
  Z.of_nat (length (run calls (run before PairingAdmissionState_initial).1).2) <= 16 + (t1 - t0 + 999) / 1000.
Proof. apply leases_bounded. Qed.

(** C20: Two devices open a connection to each other at the same time.  Each of
    them binds the two connections, in an order of its own; each is left with
    one, and it is the same one for both, the one the device with the smaller
    key opened. *)
Theorem simultaneous_open_agrees A B gA gB wA wB a1 a2 b1 b2 qa1 qa2 qb1 qb2 sA sB :
  crossing A B gA wA a1 a2 qa1 qa2 sA -> crossing B A gB wB b1 b2 qb1 qb2 sB ->
  exists eA eB,
    eA ∈ entries (bind_both gA wA a1 a2 qa1 qa2 sA) /\ duplicates gA qa1 eA /\
    eB ∈ entries (bind_both gB wB b1 b2 qb1 qb2 sB) /\ duplicates gB qb1 eB /\
    InitiatorKey eA = smaller_key A B /\ InitiatorKey eB = smaller_key A B /\
    (forall f, f ∈ entries (bind_both gA wA a1 a2 qa1 qa2 sA) -> duplicates gA qa1 f -> f = eA) /\
    (forall f, f ∈ entries (bind_both gB wB b1 b2 qb1 qb2 sB) -> duplicates gB qb1 f -> f = eB).
Proof.
  intros (eA & InA & DA & KA & UA)%crossing_kept (eB & InB & DB & KB & UB)%crossing_kept. exists eA, eB.
  rewrite smaller_key_comm in KB. done.
Qed.

(** A lease whose connection was displaced, closed or retired stays
    inactive for ever, also when its connection id is used again. *)
Theorem released_lease_inert before calls lease :
  let s := (run before PairingAdmissionState_initial).1 in
  handed_out (next_lease_generation s) (ls_generation lease) -> active lease s = false ->
  active lease (run calls s).1 = false /\ MarkVisible lease (run calls s).1 = ((run calls s).1, PairingError.kBusy).
Proof.
  intros s Hh Ha. pose proof (ok_run before _ admission_ok_initial : admission_ok s) as Hok.
  assert (Hr : released (ls_connection_id lease, ls_generation lease) s).
  { split; [done |]. intros e He E. apply not_true_iff_false in Ha. apply Ha, active_iff; [done |]. by exists e. }
  apply (released_run _ calls) in Hr as [_ Hr]; [| done]. pose proof (ok_run calls s Hok) as Hok2.
  assert (E : active lease (run calls s).1 = false).
  { apply not_true_iff_false. intros (e & He & E)%active_iff; [| done]. by apply (Hr e). }
  split; [done |]. unfold MarkVisible. unfold active in E. apply bool_decide_eq_false in E.
  destruct (Find lease _); [by destruct E; eexists | done].
Qed.

Module AdmissionExample.

Definition key (n : Z) : bytes := repeat n 32.
Definition id (n : Z) : bytes := repeat n 16.

(** A request of the device with key 1 or 2 for its connection [n]. *)
Definition request (n local peer : Z) (role : Role.Role) : PairingAdmissionRequest :=
  {| rq_connection_id := id n; rq_source := id 9; rq_local_key := key local; rq_peer_key := key peer;
     rq_local_role := role; rq_user_initiated := true; rq_now_ms := 1500 |}.

Definition opening : list AdmissionCall :=
  [CallRegister; CallOpenWindow 1 1000 60000; CallReserve 1 (id 1) (id 9) true 1500; CallReserve 1 (id 2) (id 9) true 1500].

Definition opened : PairingAdmissionState := Eval vm_compute in (run opening PairingAdmissionState_initial).1.

Lemma opened_ok : admission_ok opened.
Proof.
  assert (E : (run opening PairingAdmissionState_initial).1 = opened) by by vm_compute.
  rewrite <- E. apply ok_run, admission_ok_initial.
Qed.

Definition lease (n : Z) : PairingAdmissionLease := {| ls_connection_id := id n; ls_generation := n |}.

Lemma admission_rate_witness :
  Z.of_nat (length (run (repeat (CallReserve 1 (id 3) (id 8) false 2000) 20) (run opening PairingAdmissionState_initial).1).2) <= 17.
Proof.
  apply (admission_rate opening (repeat (CallReserve 1 (id 3) (id 8) false 2000) 20) 2000 2001); [lia | lia | |].
  - unfold opening. repeat (apply Forall_cons_2; [cbn; lia || done |]). constructor.
  - apply list.Forall_forall. intros c ->%list_elem_of_In%List.repeat_spec. cbn. lia.
Defined.

Definition entry_at (n : nat) : Entry := nth n (entries opened) (reserved_entry 0 [] [] false 0 opened).

(** The connection 1 was opened by the device of key 1, the connection 2 by the other. *)
Lemma crossing_a : crossing (key 1) (key 2) 1 1 (lease 1) (lease 2)
  (request 1 1 2 Role.kInitiator) (request 2 1 2 Role.kResponder) opened.
Proof.
  split; [exact opened_ok | by exists 0%nat, (entry_at 0) | by exists 1%nat, (entry_at 1) | done.. |].
  intros f Hf (_ & Hb & _). apply list_elem_of_In in Hf. by destruct Hf as [<- | [<- | []]].
Qed.

Lemma crossing_b : crossing (key 2) (key 1) 1 1 (lease 1) (lease 2)
  (request 1 2 1 Role.kResponder) (request 2 2 1 Role.kInitiator) opened.
Proof.
  split; [exact opened_ok | by exists 0%nat, (entry_at 0) | by exists 1%nat, (entry_at 1) | done.. |].
  intros f Hf (_ & Hb & _). apply list_elem_of_In in Hf. by destruct Hf as [<- | [<- | []]].
Qed.

Lemma simultaneous_open_agrees_witness : exists eA eB, InitiatorKey eA = key 1 /\ InitiatorKey eB = key 1.
Proof.
  destruct (simultaneous_open_agrees (key 1) (key 2) 1 1 1 1 (lease 1) (lease 2) (lease 1) (lease 2) _ _ _ _ opened opened crossing_a crossing_b)
    as (eA & eB & _ & _ & _ & _ & KA & KB & _). exists eA, eB. split; [exact KA | exact KB].
Defined.

(** The second connection displaced: it is the first that stays. *)
Example first_connection_stays :
  List.map connection_id (entries (bind_both 1 1 (lease 1) (lease 2)
    (request 1 1 2 Role.kInitiator) (request 2 1 2 Role.kResponder) opened)) = [id 1].
Proof. by vm_compute. Qed.

(** Two controllers of one process, each with an attempt of its own that it
    shows. *)
Definition two_prompts : list AdmissionCall :=
  [CallRegister; CallRegister;
   CallOpenWindow 1 1000 60000; CallOpenWindow 2 1000 60000;
   CallAdmit 1 (request 1 1 2 Role.kInitiator); CallAdmit 2 (request 2 3 4 Role.kInitiator);
   CallMarkVisible (lease 1); CallMarkVisible (lease 2)].

Example two_prompts_visible :
  List.map visible (entries (run two_prompts PairingAdmissionState_initial).1) = [true; true].
Proof. by vm_compute. Qed.

Lemma released_lease_inert_witness :
  active (lease 1) (run [CallReserve 1 (id 1) (id 9) true 1600] (run (opening ++ [CallRelease (lease 1)]) PairingAdmissionState_initial).1).1 = false.
Proof.
  apply (released_lease_inert (opening ++ [CallRelease (lease 1)]) [CallReserve 1 (id 1) (id 9) true 1600] (lease 1)).
  - split; [by vm_compute | intros _; by vm_compute].
  - by vm_compute.
Defined.

End AdmissionExample.
