(* ===== verification/PairingReplay.v ===== *)
(** * The replay cache of pairing

    [PairingReplayCache], [PairingReplayReservation] and the
    [detail::PairingReplayState] they share, in
    [native/src/session/pairing.cpp]: the pairing contexts that were used with a
    peer, so that none is used twice.

    The state is shared by pointer and guarded by its mutex; every method is one
    critical section and a function of the state here.  A reservation is its
    [reservation_id_], zero once it was committed; objects that were moved from
    have no state and are left out.  The allocations of [Reserve] and
    [Remember] that may fail are arguments that say whether they succeed. *)

From S2P Require Import Prelude.
From S2P Require Import Transfer.
From S2P Require Import SecurityTypes.
From S2P Require Import SessionWire.

Module PairingReplay.
Import SessionWire.

Definition kMaxReplayEntries : Z := 1024.
Definition kMaxReplayEntriesPerPeer : Z := 32.
Definition kReplayRetentionMs : Z := 600000.

Definition CheckedDeadline (base duration : Z) : Z :=
  if base >? umax 64 - duration then umax 64 else base + duration.

(** ** State *)

Record Entry := {
  reservation_id : Z;
  context : bytes;
  peer_key : bytes;
  expires_at_ms : Z;
  bound : bool;
  reserved : bool;
}.
#[global] Instance eta_Entry : Eta Entry := fun x =>
  {| reservation_id := reservation_id x; context := context x; peer_key := peer_key x;
     expires_at_ms := expires_at_ms x; bound := bound x; reserved := reserved x |}.

#[global] Instance Entry_eq_dec : EqDecision Entry.
Proof. solve_decision. Defined.

Record PairingReplayState := {
  next_reservation_id : Z;
  entries : list Entry;
}.
#[global] Instance eta_PairingReplayState : Eta PairingReplayState := fun x =>
  {| next_reservation_id := next_reservation_id x; entries := entries x |}.

Definition PairingReplayState_initial : PairingReplayState := {| next_reservation_id := 1; entries := [] |}.

Definition Prune (now_ms : Z) (s : PairingReplayState) : PairingReplayState :=
  s <| entries := List.filter (fun entry => negb (negb (reserved entry) && (expires_at_ms entry <=? now_ms))) (entries s) |>.

Definition CountPeer (key : bytes) (s : PairingReplayState) : Z :=
  count_if (fun entry => same_bytes (peer_key entry) key) (entries s).

(** The first entry of an id and its position. *)
Definition Find (id : Z) (s : PairingReplayState) : option (nat * Entry) :=
  match find_if (fun entry => reservation_id entry =? id) (entries s) with
  | None => None
  | Some i => match entries s !! i with Some entry => Some (i, entry) | None => None end
  end.

Definition Release (id : Z) (s : PairingReplayState) : PairingReplayState :=
  s <| entries := List.filter (fun entry => negb (reserved entry && (reservation_id entry =? id))) (entries s) |>.

(** ** Reservations *)

(** The destructor. *)
Definition PairingReplayReservation_destroy (reservation : Z) (s : PairingReplayState) : PairingReplayState :=
  if negb (reservation =? 0) then Release reservation s else s.

Definition Bind (reservation : Z) (digest : bytes) (now_ms : Z) (s : PairingReplayState)
    : PairingReplayState * PairingError.PairingError :=
  if reservation =? 0 then (s, PairingError.kStateViolation)
  else
  let s := Prune now_ms s in
  match Find reservation s with
  | None => (s, PairingError.kStateViolation)
  | Some (i, entry) =>
      if negb (reserved entry) || bound entry then (s, PairingError.kStateViolation)
      else
      let duplicate :=
        existsb (fun candidate => negb (reservation_id candidate =? reservation) && bound candidate &&
                                  same_bytes (peer_key candidate) (peer_key entry) &&
                                  same_bytes (context candidate) digest) (entries s) in
      if duplicate then (s, PairingError.kReplayDetected)
      else (s <| entries := <[i := entry <| context := digest |> <| bound := true |>]> (entries s) |>, PairingError.kNone)
  end.

(** The state and the id of the reservation afterwards. *)
Definition Commit (reservation now_ms : Z) (s : PairingReplayState) : PairingReplayState * Z :=
  if reservation =? 0 then (s, reservation)
  else
  match Find reservation s with
  | None => (s, 0)
  | Some (i, entry) =>
      if negb (bound entry) then (Release reservation s, 0)
      else
      (s <| entries := <[i := entry <| expires_at_ms := CheckedDeadline now_ms kReplayRetentionMs |>
                                    <| reserved := false |>]> (entries s) |>, 0)
  end.

Definition active (reservation : Z) (s : PairingReplayState) : bool :=
  match Find reservation s with Some (_, entry) => reserved entry | None => false end.

Definition reservation_bound (reservation : Z) (s : PairingReplayState) : bool :=
  match Find reservation s with Some (_, entry) => reserved entry && bound entry | None => false end.

(** ** The cache *)

(** The context of an entry is the one of a peer. *)
Definition matches (digest key : bytes) (entry : Entry) : bool :=
  bound entry && same_bytes (context entry) digest && same_bytes (peer_key entry) key.

Definition Contains (digest key : bytes) (now_ms : Z) (s : PairingReplayState) : PairingReplayState * bool :=
  let s := Prune now_ms s in (s, existsb (matches digest key) (entries s)).

(** The loop of [Reserve]: an id that is not used, from [id] on. *)
Fixpoint Reserve_loop (attempts : nat) (id : Z) (s : PairingReplayState) : Z :=
  match attempts with
  | O => id
  | S attempts =>
      let id := if id =? 0 then 1 else id in
      match Find id s with
      | None => id
      | Some _ => Reserve_loop attempts (uadd 64 id 1) s
      end
  end.

(** [pushed] and [made]: the entry and the reservation can be allocated. *)
Definition Reserve (pushed made : bool) (key : bytes) (now_ms : Z) (s : PairingReplayState)
    : PairingReplayState * option Z :=
  let s := Prune now_ms s in
  if (Z.of_nat (length (entries s)) >=? kMaxReplayEntries) || (CountPeer key s >=? kMaxReplayEntriesPerPeer) then (s, None)
  else
  let id := Reserve_loop (S (Z.to_nat kMaxReplayEntries)) (next_reservation_id s) s in
  if (id =? 0) || bool_decide (is_Some (Find id s)) then (s, None)
  else if negb pushed then (s, None)
  else
  let entry := {| reservation_id := id; context := repeat 0 32; peer_key := key; expires_at_ms := 0; bound := false;
                  reserved := true |} in
  let s := s <| entries := entries s ++ [entry] |> in
  if negb made then (Release id s, None)
  else (s <| next_reservation_id := uadd 64 id 1 |>, Some id).

Definition Remember (pushed : bool) (digest key : bytes) (now_ms : Z) (s : PairingReplayState)
    : PairingReplayState * bool :=
  let s := Prune now_ms s in
  if existsb (matches digest key) (entries s) then (s, true)
  else if (Z.of_nat (length (entries s)) =? kMaxReplayEntries) || (CountPeer key s =? kMaxReplayEntriesPerPeer) then (s, false)
  else if negb pushed then (s, false)
  else
  let entry := {| reservation_id := 0; context := digest; peer_key := key;
                  expires_at_ms := CheckedDeadline now_ms kReplayRetentionMs; bound := true; reserved := false |} in
  (s <| entries := entries s ++ [entry] |>, true).

Definition size (s : PairingReplayState) : Z := Z.of_nat (length (entries s)).

End PairingReplay.
