(* ===== verification/PairingReplayProofs.v ===== *)
(** * Correctness of the replay cache of pairing

    In every state the cache and its reservations reach they keep their limits
    and agree with each other; a reservation is refused only at a limit; once a
    context was bound for a peer, no other reservation binds it for that peer
    until its retention is over. *)

From S2P Require Import Prelude.
From S2P Require Import Transfer.
From S2P Require Import SecurityTypes.
From S2P Require Import SessionWire.
From S2P Require Import PairingReplay.
Import SessionWire PairingReplay.

(** ** Runs

    The cache and the reservations made of it so far: a reservation is a slot
    that holds its id, zero when it was committed or is gone. *)

Record System := {
  cache : PairingReplayState;
  slots : list Z;
}.

Definition System_initial : System := {| cache := PairingReplayState_initial; slots := [] |}.

Inductive ReplayCall :=
  | CReserve (pushed made : bool) (key : bytes) (now_ms : Z)
  | CBind (slot : nat) (digest : bytes) (now_ms : Z)
  | CCommit (slot : nat) (now_ms : Z)
  | CDestroy (slot : nat)
  | CContains (digest key : bytes) (now_ms : Z)
  | CRemember (pushed : bool) (digest key : bytes) (now_ms : Z).

(** [Bind] of the reservation in a slot. *)
Definition bind_slot (slot : nat) (digest : bytes) (now_ms : Z) (y : System) : System * PairingError.PairingError :=
  match slots y !! slot with
  | None => (y, PairingError.kStateViolation)
  | Some r =>
      let '(s, error) := Bind r digest now_ms (cache y) in
      ({| cache := s; slots := slots y |}, error)
  end.

Definition step (c : ReplayCall) (y : System) : System :=
  match c with
  | CReserve pushed made key now_ms =>
      let '(s, r) := Reserve pushed made key now_ms (cache y) in
      {| cache := s; slots := slots y ++ match r with Some r => [r] | None => [] end |}
  | CBind slot digest now_ms => (bind_slot slot digest now_ms y).1
  | CCommit slot now_ms =>
      match slots y !! slot with
      | None => y
      | Some r => let '(s, r) := Commit r now_ms (cache y) in {| cache := s; slots := <[slot := r]> (slots y) |}
      end
  | CDestroy slot =>
      match slots y !! slot with
      | None => y
      | Some r => {| cache := PairingReplayReservation_destroy r (cache y); slots := <[slot := 0]> (slots y) |}
      end
  | CContains digest key now_ms => {| cache := (Contains digest key now_ms (cache y)).1; slots := slots y |}
  | CRemember pushed digest key now_ms => {| cache := (Remember pushed digest key now_ms (cache y)).1; slots := slots y |}
  end.

Definition run (calls : list ReplayCall) (y : System) : System := fold_left (fun y c => step c y) calls y.

Lemma run_invariant (P : System -> Prop) calls y :
  (forall c y, P y -> P (step c y)) -> P y -> P (run calls y).
Proof. intros Hs. revert y. induction calls as [| c calls IH]; intros y Hy; [done |]. by apply IH, Hs. Qed.

(** ** Lookups *)

Definition nonzero (z : Z) : bool := negb (z =? 0).

(** The ids in use, and the contexts in use with the peer of each. *)
Definition ids (l : list Entry) : list Z := List.filter nonzero (List.map reservation_id l).
Definition uses (l : list Entry) : list (bytes * bytes) :=
  List.map (fun e => (peer_key e, context e)) (List.filter bound l).
#[local] Arguments ids : simpl never.
#[local] Arguments uses : simpl never.
#[local] Arguments CountPeer : simpl never.

Lemma Find_reservation r s i e : Find r s = Some (i, e) -> entries s !! i = Some e /\ reservation_id e = r.
Proof.
  unfold Find. destruct (find_if _ _) as [j |] eqn:F; [| done]. apply find_if_Some in F as (x & Hx & E).
  rewrite Hx. intros [= <- <-]. split; [done | lia].
Qed.

Lemma Find_None r s e : Find r s = None -> e ∈ entries s -> reservation_id e <> r.
Proof.
  unfold Find. destruct (find_if _ _) as [j |] eqn:F.
  - apply find_if_Some in F as (x & Hx & _). by rewrite Hx.
  - intros _ He. pose proof (find_if_None _ _ F e He) as E. cbn in E. lia.
Qed.

(** An id that is not zero has one entry. *)
Lemma ids_unique l i j e f : NoDup (ids l) -> l !! i = Some e -> l !! j = Some f ->
  reservation_id e = reservation_id f -> reservation_id e <> 0 -> i = j.
Proof.
  unfold ids. revert i j. induction l as [| x l IH]; intros i j Hn Hi Hj E Ez; [done |].
  assert (Hin : forall k g, l !! k = Some g -> reservation_id g <> 0 ->
    reservation_id g ∈ List.filter nonzero (List.map reservation_id l)).
  { intros k g Hg Hz. apply elem_of_list_filter. split; [| unfold nonzero; lia].
    apply list_elem_of_In, in_map, list_elem_of_In, list_elem_of_lookup_2 with k. done. }
  cbn in Hn. destruct i as [| i], j as [| j]; cbn in Hi, Hj; [done | | |].
  - injection Hi as ->. replace (nonzero (reservation_id e)) with true in Hn by (unfold nonzero; lia).
    apply list.NoDup_cons in Hn as [Hx _]. destruct Hx. rewrite E. apply (Hin j); [done | lia].
  - injection Hj as ->. replace (nonzero (reservation_id f)) with true in Hn by (unfold nonzero; lia).
    apply list.NoDup_cons in Hn as [Hx _]. destruct Hx. rewrite <- E. by apply (Hin i).
  - f_equal. apply IH; try done. destruct (nonzero _); [by apply list.NoDup_cons in Hn as [_ Hn] | done].
Qed.

Lemma Find_unique r s e : NoDup (ids (entries s)) -> e ∈ entries s -> reservation_id e = r -> r <> 0 ->
  exists i, Find r s = Some (i, e).
Proof.
  intros Hn [j Hj]%list_elem_of_lookup E Hz. destruct (Find r s) as [[i f] |] eqn:F.
  - apply Find_reservation in F as [Hi Ef]. assert (i = j) as -> by (eapply ids_unique; [done | exact Hi | exact Hj | lia..]).
    exists j. congruence.
  - exfalso. apply (Find_None r s e F); [by eapply list_elem_of_lookup_2 | done].
Qed.

(** ** The invariant *)

Record entry_ok (ks : list Z) (e : Entry) : Prop := {
  en_state : reserved e = true \/ bound e = true;
  en_slot : reserved e = true -> reservation_id e <> 0 /\ reservation_id e ∈ ks;
}.

(** A slot holds nothing or the id of a reserved entry. *)
Definition slot_ok (l : list Entry) (r : Z) : Prop :=
  r = 0 \/ exists e, e ∈ l /\ reservation_id e = r /\ reserved e = true.

Record replay_ok (y : System) : Prop := {
  re_size : Z.of_nat (length (entries (cache y))) <= kMaxReplayEntries;
  re_peer : forall key, CountPeer key (cache y) <= kMaxReplayEntriesPerPeer;
  re_ids : NoDup (ids (entries (cache y)));
  re_uses : NoDup (uses (entries (cache y)));
  re_entries : Forall (entry_ok (slots y)) (entries (cache y));
  re_slots : Forall (slot_ok (entries (cache y))) (slots y);
  re_distinct : NoDup (List.filter nonzero (slots y));
  re_next : in_width 64 (next_reservation_id (cache y));
}.

Lemma replay_ok_initial : replay_ok System_initial.
Proof. split; cbn; try done; try apply NoDup_nil_2; by apply list.Forall_nil. Qed.

(** ** Entries go *)

Lemma slot_emptied ks k r : ks !! k = Some r -> r <> 0 ->
  List.filter nonzero ks ≡ₚ r :: List.filter nonzero (<[k := 0]> ks).
Proof.
  revert k. induction ks as [| x ks IH]; intros [| k] H Hz; cbn in *; try done.
  - injection H as ->. replace (nonzero r) with true by (unfold nonzero; lia). done.
  - destruct (nonzero x); rewrite (IH k) by done; [apply perm_swap | done].
Qed.

Lemma elem_of_nonzero r ks : r ∈ List.filter nonzero ks <-> r ∈ ks /\ r <> 0.
Proof. rewrite elem_of_list_filter. unfold nonzero. intuition lia. Qed.

(** What is not reserved may go at any time. *)
Lemma kept_filter p s ks : (forall e, reserved e = true -> p e = true) ->
  replay_ok {| cache := s; slots := ks |} ->
  replay_ok {| cache := s <| entries := List.filter p (entries s) |>; slots := ks |}.
Proof.
  intros Hp []. cbn in *. split; cbn; try done.
  - pose proof (length_filter p (entries s)). lia.
  - intros key. etransitivity; [apply count_if_filter | apply re_peer0].
  - by apply filter_nodup_filter.
  - by apply filter_map_nodup_filter.
  - by apply Forall_filter.
  - eapply list.Forall_impl; [done |]. intros r [-> | (e & He & E & R)]; [by left | right].
    exists e. split; [| done]. apply elem_of_list_filter. by auto.
Qed.

Lemma ok_prune now_ms s ks : replay_ok {| cache := s; slots := ks |} ->
  replay_ok {| cache := Prune now_ms s; slots := ks |}.
Proof. apply kept_filter. by intros e ->. Qed.

(** A slot is emptied and its entry goes. *)
Lemma ok_release k r s ks : ks !! k = Some r -> r <> 0 -> replay_ok {| cache := s; slots := ks |} ->
  replay_ok {| cache := Release r s; slots := <[k := 0]> ks |}.
Proof.
  intros Hk Hz []. cbn in *. pose proof (slot_emptied ks k r Hk Hz) as Hp.
  rewrite Hp in re_distinct0. apply list.NoDup_cons in re_distinct0 as [Hr Hd]. split; cbn; try done.
  - pose proof (length_filter (fun e => negb (reserved e && (reservation_id e =? r))) (entries s)). lia.
  - intros key. etransitivity; [apply count_if_filter | apply re_peer0].
  - by apply filter_nodup_filter.
  - by apply filter_map_nodup_filter.
  - apply list.Forall_forall. intros e [He P]%elem_of_list_filter. rewrite list.Forall_forall in re_entries0.
    destruct (re_entries0 e He) as [Hs Hslot]. split; [done |]. intros R. destruct (Hslot R) as [Ez Hin]. split; [done |].
    rewrite R in P. assert (Hin' : reservation_id e ∈ List.filter nonzero ks) by by apply elem_of_nonzero.
    rewrite Hp in Hin'. apply list.elem_of_cons in Hin' as [E | Hin']; [lia | by apply elem_of_nonzero in Hin' as []].
  - apply list.Forall_forall. intros q Hq. destruct (decide (q = 0)) as [-> | Qz]; [by left | right].
    assert (Hq' : q ∈ ks) by (apply elem_of_insert in Hq as [-> | Hq]; done).
    rewrite list.Forall_forall in re_slots0. destruct (re_slots0 q Hq') as [-> | (e & He & E & R)]; [done |].
    exists e. split; [| done]. apply elem_of_list_filter. split; [done |]. rewrite R, E. cbn.
    assert (q <> r) by (intros ->; apply Hr; by apply elem_of_nonzero). lia.
Qed.

(** Emptying an empty slot changes nothing. *)
Lemma ok_empty k s ks : ks !! k = Some 0 -> replay_ok {| cache := s; slots := ks |} ->
  replay_ok {| cache := s; slots := <[k := 0]> ks |}.
Proof. intros Hk. by rewrite list_insert_id. Qed.

(** ** Entries come *)

Lemma count_peer_snoc key s e :
  CountPeer key (s <| entries := entries s ++ [e] |>) = CountPeer key s + (if same_bytes (peer_key e) key then 1 else 0).
Proof. unfold CountPeer. cbn. rewrite count_if_app, count_if_cons. cbn. change (count_if _ []) with 0. lia. Qed.

Lemma ids_snoc l e : ids (l ++ [e]) = ids l ++ (if reservation_id e =? 0 then [] else [reservation_id e]).
Proof. unfold ids. rewrite List.map_app, List.filter_app. cbn. unfold nonzero. by destruct (reservation_id e =? 0). Qed.

Lemma uses_snoc l e : uses (l ++ [e]) = uses l ++ (if bound e then [(peer_key e, context e)] else []).
Proof. unfold uses. rewrite List.filter_app, List.map_app. cbn. by destruct (bound e). Qed.

(** An entry is added; [added] are the slots that come with it. *)
Lemma ok_push e added s ks : replay_ok {| cache := s; slots := ks |} ->
  Z.of_nat (length (entries s)) < kMaxReplayEntries -> CountPeer (peer_key e) s < kMaxReplayEntriesPerPeer ->
  (reservation_id e <> 0 -> forall f, f ∈ entries s -> reservation_id f <> reservation_id e) ->
  (bound e = true -> (peer_key e, context e) ∉ uses (entries s)) -> entry_ok (ks ++ added) e ->
  added = (if reserved e then [reservation_id e] else []) ->
  replay_ok {| cache := s <| entries := entries s ++ [e] |>; slots := ks ++ added |}.
Proof.
  intros [] Hsz Hpeer Hid Huse He Hadd. cbn in *.
  assert (Hfresh : reservation_id e <> 0 -> reservation_id e ∉ ks).
  { intros Hz Hin. rewrite list.Forall_forall in re_slots0. destruct (re_slots0 _ Hin) as [? | (f & Hf & Ef & _)]; [done |].
    by apply (Hid Hz f). }
  split; cbn.
  - rewrite length_app. cbn. lia.
  - intros key. rewrite count_peer_snoc. destruct (same_bytes (peer_key e) key) eqn:Q.
    + apply same_bytes_true in Q as <-. lia.
    + specialize (re_peer0 key). lia.
  - rewrite ids_snoc. destruct (reservation_id e =? 0) eqn:Z; [by rewrite app_nil_r |]. apply list.NoDup_app.
    split; [done |]. split; [| apply list.NoDup_singleton]. intros i Hi ->%list_elem_of_singleton.
    apply elem_of_list_filter in Hi as [Hi _]. apply list_elem_of_In, in_map_iff in Hi as (f & Ef & Hf).
    apply (Hid ltac:(lia) f); [by apply list_elem_of_In | done].
  - rewrite uses_snoc. destruct (bound e); [| by rewrite app_nil_r]. apply list.NoDup_app.
    split; [done |]. split; [| apply list.NoDup_singleton]. intros i Hi ->%list_elem_of_singleton. by apply Huse.
  - apply list.Forall_app. split; [| by apply list.Forall_singleton]. eapply list.Forall_impl; [done |].
    intros f [Hs Hslot]. split; [done |]. intros R. destruct (Hslot R) as [? Hin]. split; [done |].
    apply list.elem_of_app. by left.
  - apply list.Forall_app. split.
    + eapply list.Forall_impl; [done |]. intros r [-> | (f & Hf & P)]; [by left | right]. exists f.
      split; [| done]. apply list.elem_of_app. by left.
    + subst added. destruct (reserved e) eqn:R; [| by apply list.Forall_nil]. apply list.Forall_singleton. right.
      exists e. split; [| done]. apply list.elem_of_app. right. by apply list_elem_of_singleton.
  - rewrite List.filter_app. apply list.NoDup_app. split; [done |]. subst added. split.
    + intros i [Hi Iz]%elem_of_nonzero. destruct (reserved e) eqn:R; [| apply not_elem_of_nil].
      intros [->%list_elem_of_singleton _]%elem_of_list_filter. by apply Hfresh.
    + destruct (reserved e); cbn; [destruct (nonzero _) |]; try apply NoDup_nil_2. apply list.NoDup_singleton.
  - done.
Qed.

(** ** Entries change *)

(** The id and the peer of an entry stay; what its slot becomes is [r']. *)
Lemma kept_update k i e e' r' s ks : replay_ok {| cache := s; slots := ks |} ->
  entries s !! i = Some e -> ks !! k = Some (reservation_id e) -> reservation_id e <> 0 ->
  reservation_id e' = reservation_id e -> peer_key e' = peer_key e ->
  (if bound e then bound e' = true /\ context e' = context e
   else bound e' = true /\ (peer_key e, context e') ∉ uses (entries s)) ->
  r' = (if reserved e' then reservation_id e else 0) ->
  replay_ok {| cache := s <| entries := <[i := e']> (entries s) |>; slots := <[k := r']> ks |}.
Proof.
  intros [] Hi Hk Hz Eid Epeer Hb Hr. cbn in *.
  assert (Hbound : bound e' = true) by (destruct (bound e); by destruct Hb).
  pose proof (slot_emptied ks k _ Hk Hz) as Hp. pose proof re_distinct0 as Hd. rewrite Hp in Hd.
  apply list.NoDup_cons in Hd as [Hout Hd]. rewrite list.Forall_forall in re_entries0. rewrite list.Forall_forall in re_slots0.
  assert (Hother : forall f, f ∈ <[i := e']> (entries s) -> f = e' \/ f ∈ entries s /\ reservation_id f <> reservation_id e).
  { intros f [j Hj]%list_elem_of_lookup. apply list_lookup_insert_Some in Hj as [(_ & -> & _) | [Hij Hj]]; [by left |].
    right. split; [by eapply list_elem_of_lookup_2 |]. intros E. apply Hij.
    eapply ids_unique; [done | exact Hi | exact Hj | by rewrite E | done]. }
  split; cbn.
  - by rewrite length_insert.
  - intros key. unfold CountPeer. cbn. rewrite (count_if_insert _ _ _ _ _ Hi), Epeer. specialize (re_peer0 key).
    unfold CountPeer in re_peer0. lia.
  - unfold ids. by rewrite (map_insert_same reservation_id _ _ e).
  - unfold uses. destruct (bound e) eqn:B; destruct Hb as [B' Hc].
    + rewrite (filter_map_insert_same bound _ _ _ e); [done | done | by rewrite B, B' | by rewrite Epeer, Hc].
    + rewrite (filter_map_insert_new bound _ _ _ e) by done. apply list.NoDup_cons. by rewrite Epeer.
  - apply list.Forall_forall. intros f [-> | [Hf Hne]]%Hother.
    + split; [by right |]. intros R. rewrite Eid. split; [done |]. subst r'. rewrite R.
      rewrite list_insert_id by done. by eapply list_elem_of_lookup_2.
    + destruct (re_entries0 f Hf) as [Hs Hslot]. split; [done |]. intros R. destruct (Hslot R) as [Fz Hin].
      split; [done |]. apply list_elem_of_lookup in Hin as [j Hj]. apply (list_elem_of_lookup_2 _ j).
      rewrite list_lookup_insert_ne; [done |]. intros <-. congruence.
  - apply list.Forall_forall. intros q [j Hj]%list_elem_of_lookup.
    apply list_lookup_insert_Some in Hj as [(_ & <- & _) | [Hkj Hj]].
    + subst r'. destruct (reserved e') eqn:R; [right | by left]. exists e'. split; [| by rewrite Eid].
      apply (list_elem_of_lookup_2 _ i). apply list_lookup_insert_eq. by eapply lookup_lt_Some.
    + destruct (re_slots0 q (list_elem_of_lookup_2 _ _ _ Hj)) as [-> | (f & Hf & Ef & R)]; [by left |].
      destruct (decide (q = 0)) as [-> | Qz]; [by left | right]. exists f. split; [| done].
      apply list_elem_of_lookup in Hf as [n Hn]. apply (list_elem_of_lookup_2 _ n).
      rewrite list_lookup_insert_ne; [done |]. intros <-. apply Hout, elem_of_nonzero. split; [| lia].
      apply (list_elem_of_lookup_2 _ j). rewrite list_lookup_insert_ne by done. congruence.
  - subst r'. destruct (reserved e').
    + by rewrite list_insert_id.
    + done.
  - done.
Qed.

(** ** Ids

    The ids tried one after the other are different: there are
    [umax 64] of them, and they come round after the last one. *)

Definition candidate (c k : Z) : Z := (c - 1 + k) mod umax 64 + 1.

Lemma candidate_0 c : 1 <= c <= umax 64 -> candidate c 0 = c.
Proof. intros Hc. unfold candidate. rewrite Z.mod_small; lia. Qed.

Lemma candidate_range c k : 1 <= candidate c k <= umax 64.
Proof.
  unfold candidate. assert (0 <= (c - 1 + k) mod umax 64 < umax 64) by (by apply Z.mod_pos_bound). lia.
Qed.

Lemma candidate_succ c k : candidate (candidate c 1) k = candidate c (k + 1).
Proof.
  unfold candidate. f_equal. rewrite Z.add_simpl_r, Zplus_mod_idemp_l. f_equal. lia.
Qed.

Lemma candidate_inj c j k : 0 <= j < umax 64 -> 0 <= k < umax 64 -> candidate c j = candidate c k -> j = k.
Proof.
  unfold candidate. intros Hj Hk E. assert (E' : (c - 1 + j) mod umax 64 = (c - 1 + k) mod umax 64) by lia. clear E.
  assert (D : (j - k) mod umax 64 = 0).
  { replace (j - k) with ((c - 1 + j) - (c - 1 + k)) by lia. rewrite Zminus_mod, E', Z.sub_diag. done. }
  apply Z.mod_divide in D as [q D]; [| done]. assert (q = 0) by nia. lia.
Qed.

Lemma next_candidate c : 1 <= c <= umax 64 ->
  (if uadd 64 c 1 =? 0 then 1 else uadd 64 c 1) = candidate c 1.
Proof.
  intros Hc. unfold candidate, uadd, wrap. replace (c - 1 + 1) with c by lia.
  destruct (decide (c = umax 64)) as [-> | Hne]; [by vm_compute |].
  change (umax 64) with (2 ^ 64 - 1) in *. rewrite (Z.mod_small (c + 1)) by lia. rewrite (Z.mod_small c) by lia.
  destruct (c + 1 =? 0) eqn:E; lia.
Qed.

Lemma Reserve_loop_spec a s id : let c := if id =? 0 then 1 else id in 1 <= c <= umax 64 ->
  (exists r, Reserve_loop a id s = r /\ Find r s = None /\ 1 <= r <= umax 64) \/
  (forall k, 0 <= k < Z.of_nat a -> is_Some (Find (candidate c k) s)).
Proof.
  revert id. induction a as [| a IH]; intros id c Hc; [right; lia |].
  cbn [Reserve_loop]. fold c. destruct (Find c s) as [f |] eqn:F; [| by left; exists c].
  pose proof (next_candidate c Hc) as En.
  destruct (IH (uadd 64 c 1)) as [H | H]; [rewrite En; apply candidate_range | by left |].
  - rewrite En in H. right. intros k Hk. destruct (decide (k = 0)) as [-> | Hz].
    + rewrite candidate_0 by done. by exists f.
    + replace k with ((k - 1) + 1) by lia. rewrite <- candidate_succ. apply H. lia.
Qed.

Lemma Find_in_use r s : is_Some (Find r s) -> r <> 0 -> r ∈ ids (entries s).
Proof.
  intros [[i e] [Hi E]%Find_reservation] Hz. apply elem_of_nonzero. split; [| done]. subst r.
  by apply list_elem_of_In, in_map, list_elem_of_In, list_elem_of_lookup_2 with i.
Qed.

Lemma ids_length l : (length (ids l) <= length l)%nat.
Proof. unfold ids. etransitivity; [apply length_filter |]. by rewrite List.length_map. Qed.

(** With more attempts than entries a free id is found. *)
Lemma Reserve_loop_free a s id : in_width 64 id -> Z.of_nat a < umax 64 -> (length (entries s) < a)%nat ->
  let r := Reserve_loop a id s in Find r s = None /\ 1 <= r <= umax 64.
Proof.
  intros Hw Ha Hl r. set (c := if id =? 0 then 1 else id).
  assert (Hc : 1 <= c <= umax 64).
  { unfold c, in_width in *. change (umax 64) with (2 ^ 64 - 1). destruct (id =? 0) eqn:E; lia. }
  destruct (Reserve_loop_spec a s id Hc) as [(q & E & H) | H]; [by rewrite <- E in H |]. exfalso. fold c in H.
  set (tried := List.map (fun k => candidate c (Z.of_nat k)) (List.seq 0 a)).
  assert (Hn : List.NoDup tried).
  { apply Finite.Injective_map_NoDup_in; [| apply List.seq_NoDup].
    intros x y Hx%in_seq Hy%in_seq E%candidate_inj; lia. }
  assert (Hi : incl tried (ids (entries s))).
  { intros x (k & <- & Hk%in_seq)%in_map_iff. apply list_elem_of_In, Find_in_use; [apply H; lia |].
    pose proof (candidate_range c (Z.of_nat k)). lia. }
  pose proof (List.NoDup_incl_length Hn Hi) as Hlen. unfold tried in Hlen. rewrite List.length_map, List.length_seq in Hlen.
  pose proof (ids_length (entries s)). lia.
Qed.

(** ** The invariant is kept *)

Lemma ok_next n s ks : in_width 64 n -> replay_ok {| cache := s; slots := ks |} ->
  replay_ok {| cache := s <| next_reservation_id := n |>; slots := ks |}.
Proof. intros Hn []. by split. Qed.

Lemma System_eta y : y = {| cache := cache y; slots := slots y |}.
Proof. by destruct y. Qed.

Lemma matches_iff digest key e :
  matches digest key e = true <-> bound e = true /\ context e = digest /\ peer_key e = key.
Proof. unfold matches. rewrite !andb_true_iff, !same_bytes_true. tauto. Qed.

Lemma existsb_uses digest key l :
  existsb (matches digest key) l = true <-> (key, digest) ∈ uses l.
Proof.
  unfold uses. rewrite existsb_exists, list_elem_of_In, in_map_iff. split.
  - intros (e & He & (B & <- & <-)%matches_iff). exists e. split; [done |]. by apply List.filter_In.
  - intros (e & E & [He B]%List.filter_In). exists e. split; [done |]. apply matches_iff. split; [done |]. by injection E.
Qed.

Lemma release_fresh r l : (forall f, f ∈ l -> reservation_id f <> r) ->
  List.filter (fun e => negb (reserved e && (reservation_id e =? r))) l = l.
Proof.
  induction l as [| f l IH]; intros Hf; [done |]. cbn. assert (reservation_id f <> r) by (apply Hf; by left).
  replace (reservation_id f =? r) with false by lia. rewrite andb_false_r. cbn. f_equal. apply IH.
  intros g Hg. apply Hf. by right.
Qed.

Lemma release_pushed s e : reserved e = true -> (forall f, f ∈ entries s -> reservation_id f <> reservation_id e) ->
  Release (reservation_id e) (s <| entries := entries s ++ [e] |>) = s.
Proof.
  intros R Hf. destruct s as [n l]. unfold Release. cbn in *. rewrite List.filter_app, release_fresh by done. cbn.
  rewrite R, Z.eqb_refl. cbn. by rewrite app_nil_r.
Qed.

(** The id [Reserve] takes. *)
Definition chosen (s : PairingReplayState) : Z :=
  Reserve_loop (S (Z.to_nat kMaxReplayEntries)) (next_reservation_id s) s.
#[global] Arguments Reserve_loop : simpl never.

Lemma chosen_free s : in_width 64 (next_reservation_id s) -> Z.of_nat (length (entries s)) < kMaxReplayEntries ->
  Find (chosen s) s = None /\ 1 <= chosen s <= umax 64.
Proof.
  intros Hw Hl. apply (Reserve_loop_free (S (Z.to_nat kMaxReplayEntries))); [done | by vm_compute |]. lia.
Qed.

(** The outcome of [Reserve] when its limits allow it. *)
Definition admits (key : bytes) (s : PairingReplayState) : bool :=
  (Z.of_nat (length (entries s)) <? kMaxReplayEntries) && (CountPeer key s <? kMaxReplayEntriesPerPeer).

Definition fresh_entry (id : Z) (key : bytes) : Entry :=
  {| reservation_id := id; context := repeat 0 32; peer_key := key; expires_at_ms := 0; bound := false; reserved := true |}.

Lemma Reserve_eq pushed made key now_ms s : in_width 64 (next_reservation_id s) ->
  let p := Prune now_ms s in
  Reserve pushed made key now_ms s =
  if admits key p && pushed && made then
    (p <| entries := entries p ++ [fresh_entry (chosen p) key] |> <| next_reservation_id := uadd 64 (chosen p) 1 |>,
     Some (chosen p))
  else (p, None).
Proof.
  intros Hw p. unfold Reserve. fold p. change (Reserve_loop _ (next_reservation_id p) p) with (chosen p).
  unfold admits. destruct (_ >=? kMaxReplayEntries) eqn:L1, (_ >=? kMaxReplayEntriesPerPeer) eqn:L2; cbn [orb].
  1-3: replace (_ && _) with false; [done | lia].
  replace (Z.of_nat (length (entries p)) <? kMaxReplayEntries) with true by lia.
  replace (CountPeer key p <? kMaxReplayEntriesPerPeer) with true by lia. cbn [andb].
  destruct (chosen_free p Hw ltac:(lia)) as [F R]. rewrite F. replace (chosen p =? 0) with false by lia.
  rewrite bool_decide_eq_false_2 by (intros [? ?]; done). cbn [orb]. destruct pushed, made; cbn [negb andb]; try done.
  f_equal. apply (release_pushed p (fresh_entry (chosen p) key)); [done |]. intros f Hf. by apply (Find_None _ p).
Qed.

Lemma ok_reserve pushed made key now_ms y : replay_ok y -> replay_ok (step (CReserve pushed made key now_ms) y).
Proof.
  intros Hok. destruct y as [s ks]. cbn [step cache slots]. pose proof (re_next _ Hok : in_width 64 (next_reservation_id s)) as Hw.
  pose proof (ok_prune now_ms s ks Hok) as Hp. rewrite Reserve_eq by done.
  set (p := Prune now_ms s) in *. assert (Hwp : in_width 64 (next_reservation_id p)) by done. clearbody p.
  destruct (_ && made) eqn:A; [| by rewrite app_nil_r]. apply andb_prop in A as [A _]. apply andb_prop in A as [A _].
  apply andb_prop in A as [L1 L2]. destruct (chosen_free p Hwp ltac:(lia)) as [F R]. apply ok_next.
  { unfold uadd, wrap, in_width. apply Z.mod_pos_bound. lia. }
  apply (ok_push (fresh_entry (chosen p) key)); cbn; try done; try lia.
  - intros _ f Hf. by apply (Find_None _ p).
  - split; [by left |]. intros _. cbn. split; [lia |]. apply list.elem_of_app. right. by apply list_elem_of_singleton.
Qed.

(** [Bind] takes a context that no entry of the peer has, for a reservation
    that has none; otherwise only old entries go. *)
Lemma Bind_cases r digest now_ms s : NoDup (ids (entries s)) ->
  let p := Prune now_ms s in
  (exists i e, r <> 0 /\ Find r p = Some (i, e) /\ reserved e = true /\ bound e = false /\
     ~ (peer_key e, digest) ∈ uses (entries p) /\
     Bind r digest now_ms s =
       (p <| entries := <[i := e <| context := digest |> <| bound := true |>]> (entries p) |>, PairingError.kNone)) \/
  ((Bind r digest now_ms s).2 <> PairingError.kNone /\
   ((Bind r digest now_ms s).1 = s \/ (Bind r digest now_ms s).1 = p)).
Proof.
  intros Hn p. unfold Bind. destruct (r =? 0) eqn:Z; [right; cbn; auto |]. fold p.
  assert (Hnp : NoDup (ids (entries p))) by (by apply filter_nodup_filter).
  destruct (Find r p) as [[i e] |] eqn:F; [| right; cbn; auto].
  destruct (reserved e) eqn:R, (bound e) eqn:B; cbn [negb orb]; [right; cbn; auto | | right; cbn; auto | right; cbn; auto].
  destruct (existsb _ _) eqn:D; [right; cbn; auto |]. left. exists i, e. split; [lia |]. split; [done |].
  split; [done |]. split; [done |]. split; [| done]. intros H. apply existsb_uses in H. rewrite existsb_exists in H.
  destruct H as (f & Hf & (Bf & Ec & Ek)%matches_iff). apply not_true_iff_false in D. apply D, existsb_exists.
  exists f. split; [done |]. rewrite Bf, (proj2 (same_bytes_true _ _) Ek), (proj2 (same_bytes_true _ _) Ec).
  rewrite !andb_true_r. apply negb_true_iff, Z.eqb_neq. intros Er.
  destruct (Find_unique r p f Hnp) as [j Fj]; [by apply list_elem_of_In | done | lia |]. congruence.
Qed.

Lemma ok_bind slot digest now_ms y : replay_ok y -> replay_ok (bind_slot slot digest now_ms y).1.
Proof.
  intros Hok. destruct y as [s ks]. unfold bind_slot. cbn [slots cache]. destruct (ks !! slot) as [r |] eqn:K; [| done].
  destruct (Bind_cases r digest now_ms s (re_ids _ Hok)) as [(i & e & Hz & F & R & B & Hu & E) | (_ & [E | E])].
  - rewrite E. cbn [fst]. apply Find_reservation in F as [Hi Er]. rewrite <- (list_insert_id ks slot r) by done.
    eapply kept_update; [by apply ok_prune | exact Hi | by rewrite Er | by rewrite Er | done | done | | ].
    + rewrite B. by split.
    + cbn. by rewrite R, Er.
  - destruct (Bind _ _ _ _). cbn in E |- *. by subst.
  - destruct (Bind _ _ _ _). cbn in E |- *. subst. by apply ok_prune.
Qed.

Lemma ok_commit slot now_ms y : replay_ok y -> replay_ok (step (CCommit slot now_ms) y).
Proof.
  intros Hok. destruct y as [s ks]. cbn [step slots cache]. destruct (ks !! slot) as [r |] eqn:K; [| done].
  unfold Commit. destruct (r =? 0) eqn:Z; [by rewrite list_insert_id |].
  pose proof (re_slots _ Hok) as Hs. cbn in Hs. rewrite list.Forall_forall in Hs.
  destruct (Hs r (list_elem_of_lookup_2 _ _ _ K)) as [-> | (e & He & Ee & R)]; [done |].
  destruct (Find_unique r s e (re_ids _ Hok) He Ee ltac:(lia)) as [i F]. rewrite F.
  apply Find_reservation in F as [Hi _]. destruct (bound e) eqn:B; cbn [negb].
  - eapply kept_update; [done | exact Hi | by rewrite Ee | lia | done | done | by rewrite B | done].
  - apply ok_release; [done | lia | done].
Qed.

Lemma ok_step c y : replay_ok y -> replay_ok (step c y).
Proof.
  intros Hok. destruct c; [by apply ok_reserve | by apply ok_bind | by apply ok_commit | ..]; destruct y as [s ks]; cbn [step slots cache].
  - destruct (ks !! slot) as [r |] eqn:K; [| done]. unfold PairingReplayReservation_destroy.
    destruct (r =? 0) eqn:Z; cbn [negb]; [apply ok_empty; [by rewrite K; f_equal; lia | done] | apply ok_release; [done | lia | done]].
  - by apply ok_prune.
  - apply (ok_prune now_ms) in Hok. unfold Remember. set (p := Prune now_ms s) in *. clearbody p.
    destruct (existsb _ _) eqn:D; [done |]. destruct (_ || _) eqn:L; [done |]. apply orb_false_iff in L as [L1 L2].
    destruct pushed; cbn [negb fst]; [| done]. rewrite <- (app_nil_r ks).
    pose proof (re_size _ Hok) as Hsz. pose proof (re_peer _ Hok key) as Hpr. cbn in Hsz, Hpr.
    apply ok_push; cbn; try done; try lia; [| by split; [right |]].
    intros _ H%existsb_uses. congruence.
Qed.

Lemma kept_run calls : replay_ok (run calls System_initial).
Proof. apply run_invariant; [apply ok_step | apply replay_ok_initial]. Qed.

(** ** A context stays in use *)

(** The cache holds a bound entry, which the reservation in the slot still owns
    if it is reserved. *)
Definition holds_entry (e : Entry) (slot : nat) (y : System) : Prop :=
  e ∈ entries (cache y) /\ bound e = true /\
  (reserved e = true -> slots y !! slot = Some (reservation_id e)).

(** A call that has no right to the entry: it is reserved and the call does not
    end its reservation, or it is kept and the call is not late. *)
Definition leaves (e : Entry) (slot : nat) (c : ReplayCall) : Prop :=
  match c with
  | CReserve _ _ _ now_ms | CBind _ _ now_ms | CContains _ _ now_ms | CRemember _ _ _ now_ms =>
      reserved e = true \/ now_ms < expires_at_ms e
  | CCommit k _ | CDestroy k => reserved e = true -> k <> slot
  end.

Lemma elem_of_insert_other {A} (l : list A) i x y z : l !! i = Some x -> z ∈ l -> z <> x -> z ∈ <[i := y]> l.
Proof.
  intros Hi [j Hj]%list_elem_of_lookup Hne. apply (list_elem_of_lookup_2 _ j).
  rewrite list_lookup_insert_ne; [done |]. intros <-. congruence.
Qed.

Lemma entry_prune e slot now_ms s ks : reserved e = true \/ now_ms < expires_at_ms e ->
  holds_entry e slot {| cache := s; slots := ks |} ->
  holds_entry e slot {| cache := Prune now_ms s; slots := ks |}.
Proof.
  intros Hn (He & B & Hr). split; [| done]. apply elem_of_list_filter. split; [done |].
  cbn in *. destruct (reserved e); cbn; [done |]. destruct Hn; [done | lia].
Qed.

Lemma entry_push e slot f added s ks : holds_entry e slot {| cache := s; slots := ks |} ->
  holds_entry e slot {| cache := s <| entries := entries s ++ [f] |>; slots := ks ++ added |}.
Proof.
  intros (He & B & Hr). split; [apply list.elem_of_app; by left |]. split; [done |].
  intros R. by apply lookup_app_l_Some, Hr.
Qed.

(** Two slots with one id are the same. *)
Lemma slots_distinct ks j k r : NoDup (List.filter nonzero ks) -> ks !! j = Some r -> ks !! k = Some r -> r <> 0 -> j = k.
Proof.
  intros Hn Hj Hk Hz. destruct (decide (j = k)) as [| Hne]; [done |]. exfalso.
  rewrite (slot_emptied ks k r Hk Hz) in Hn. apply list.NoDup_cons in Hn as [Hn _]. apply Hn, elem_of_nonzero.
  split; [| done]. apply (list_elem_of_lookup_2 _ j). by rewrite list_lookup_insert_ne.
Qed.

(** The peer of the reservation in a slot. *)
Definition slot_peer (slot : nat) (y : System) : option bytes :=
  match slots y !! slot with
  | Some r => if r =? 0 then None else option_map (fun f => peer_key f.2) (Find r (cache y))
  | None => None
  end.

(** The entry of the reservation in a slot. *)
Lemma slot_entry s ks k r : replay_ok {| cache := s; slots := ks |} -> ks !! k = Some r -> r <> 0 ->
  exists i f, Find r s = Some (i, f) /\ entries s !! i = Some f /\ f ∈ entries s /\
    reservation_id f = r /\ reserved f = true.
Proof.
  intros Hok K Hz. pose proof (re_slots _ Hok) as Hs. cbn in Hs. rewrite list.Forall_forall in Hs.
  destruct (Hs r (list_elem_of_lookup_2 _ _ _ K)) as [-> | (f & Hf & Ef & Rf)]; [done |].
  destruct (Find_unique r s f (re_ids _ Hok) Hf Ef Hz) as [i F]. exists i, f. split; [done |].
  apply Find_reservation in F as [Hi _]. done.
Qed.

(** A reserved entry belongs to one reservation. *)
Lemma entry_owner e slot s ks k r f : replay_ok {| cache := s; slots := ks |} -> ks !! k = Some r ->
  r <> 0 -> (reserved e = true -> k <> slot) -> holds_entry e slot {| cache := s; slots := ks |} ->
  reserved e = true -> reservation_id f = r -> reservation_id e <> r /\ e <> f.
Proof.
  intros Hok K Hz Hk (_ & _ & Hr) R Ef.
  assert (E : reservation_id e <> r).
  { intros E. apply (Hk R). specialize (Hr R). cbn in Hr. rewrite E in Hr.
    by apply (slots_distinct ks k slot r (re_distinct _ Hok) K Hr). }
  split; [done | by intros ->].
Qed.

Lemma entry_step c e slot y : replay_ok y -> leaves e slot c -> holds_entry e slot y ->
  holds_entry e slot (step c y).
Proof.
  intros Hok Hd Hu. destruct y as [s ks].
  destruct c as [pushed made k now_ms | k d now_ms | k now_ms | k | d k now_ms | pushed d k now_ms]; cbn in Hd;
    cbn [step slots cache].
  - apply (entry_prune _ _ now_ms) in Hu; [| done]. rewrite Reserve_eq by apply (re_next _ Hok).
    set (p := Prune now_ms s) in *. clearbody p. destruct (_ && made); [| by rewrite app_nil_r].
    exact (entry_push _ _ (fresh_entry (chosen p) k) [chosen p] _ _ Hu).
  - unfold bind_slot. cbn [slots cache]. destruct (ks !! k) as [r |] eqn:K; [| done].
    destruct (Bind_cases r d now_ms s (re_ids _ Hok)) as [(i & f & Hz & F & R & B & _ & E) | (_ & [E | E])].
    + rewrite E. cbn [fst]. apply (entry_prune _ _ now_ms) in Hu; [| done]. apply Find_reservation in F as [Hi _].
      destruct Hu as (He & Be & H). split; [| done]. eapply elem_of_insert_other; [exact Hi | done |].
      intros ->. congruence.
    + destruct (Bind _ _ _ _). cbn in E |- *. by subst.
    + destruct (Bind _ _ _ _). cbn in E |- *. subst. by apply entry_prune.
  - destruct (ks !! k) as [r |] eqn:K; [| done]. unfold Commit.
    destruct (Z.eqb_spec r 0) as [| Hz]; [by rewrite list_insert_id |].
    destruct (slot_entry s ks k r Hok K Hz) as (i & f & F & Hi & Hf & Ef & Rf). rewrite F.
    pose proof (entry_owner e slot s ks k r f Hok K Hz Hd Hu) as Hown. destruct Hu as (He & B & Hr).
    assert (Hne : e <> f).
    { destruct (reserved e) eqn:R; [by apply Hown | intros ->; congruence]. }
    destruct (bound f); cbn [negb].
    + split; [by eapply elem_of_insert_other |]. split; [done |]. intros R.
      cbn. rewrite list_lookup_insert_ne; [by apply Hr | by apply Hd].
    + split; [apply elem_of_list_filter; split; [done |] |].
      * destruct (reserved e) eqn:R; [| done]. destruct (Hown eq_refl Ef). cbn. lia.
      * split; [done |]. intros R. cbn. rewrite list_lookup_insert_ne; [by apply Hr | by apply Hd].
  - destruct (ks !! k) as [r |] eqn:K; [| done]. unfold PairingReplayReservation_destroy.
    destruct (Z.eqb_spec r 0) as [-> | Hz]; cbn [negb]; [by rewrite list_insert_id |].
    destruct (slot_entry s ks k r Hok K Hz) as (i & f & _ & _ & _ & Ef & _).
    pose proof (entry_owner e slot s ks k r f Hok K Hz Hd Hu) as Hown. destruct Hu as (He & B & Hr).
    split; [apply elem_of_list_filter; split; [done |] |].
    + destruct (reserved e) eqn:R; [| done]. destruct (Hown eq_refl Ef). cbn. lia.
    + split; [done |]. intros R. cbn. rewrite list_lookup_insert_ne; [by apply Hr | by apply Hd].
  - by apply entry_prune.
  - apply (entry_prune _ _ now_ms) in Hu; [| done]. unfold Remember. set (p := Prune now_ms s) in *. clearbody p.
    destruct (existsb _ _); [done |]. destruct (_ || _); [done |]. destruct pushed; [| done].
    rewrite <- (app_nil_r ks). by apply entry_push.
Qed.

Lemma entry_run e slot calls y : replay_ok y -> Forall (leaves e slot) calls -> holds_entry e slot y ->
  holds_entry e slot (run calls y) /\ replay_ok (run calls y).
Proof.
  intros Hok Hd. revert y Hok. induction Hd as [| c calls Hc _ IH]; intros y Hok Hu; [done |].
  apply IH; [by apply ok_step | by apply entry_step].
Qed.

(** The commit of the reservation keeps its entry for the retention time. *)
Lemma entry_commit e slot now_ms y : replay_ok y -> reserved e = true -> reservation_id e <> 0 ->
  holds_entry e slot y ->
  holds_entry (e <| expires_at_ms := CheckedDeadline now_ms kReplayRetentionMs |> <| reserved := false |>) slot
    (step (CCommit slot now_ms) y).
Proof.
  intros Hok R Hz (He & B & Hr). destruct y as [s ks]. specialize (Hr R). cbn [step slots cache] in *. rewrite Hr.
  unfold Commit. destruct (Z.eqb_spec (reservation_id e) 0); [done |].
  destruct (Find_unique _ s e (re_ids _ Hok) He eq_refl Hz) as [i F]. rewrite F, B. cbn [negb].
  apply Find_reservation in F as [Hi _]. split; [| done].
  eapply (list_elem_of_lookup_2 _ i), list_lookup_insert_eq, lookup_lt_Some, Hi.
Qed.

(** [Bind] that succeeds leaves a reserved entry of the slot. *)
Lemma entry_bound slot digest key t0 y : replay_ok y ->
  (bind_slot slot digest t0 y).2 = PairingError.kNone -> slot_peer slot y = Some key ->
  exists e, holds_entry e slot (bind_slot slot digest t0 y).1 /\ context e = digest /\ peer_key e = key /\
    reserved e = true /\ reservation_id e <> 0.
Proof.
  intros Hok Eb Ep. destruct y as [s ks]. unfold bind_slot, slot_peer in *. cbn [slots cache] in *.
  destruct (ks !! slot) as [r |] eqn:K; [| done].
  destruct (Bind_cases r digest t0 s (re_ids _ Hok)) as [(i & e & Hz & F & R & B & _ & E) | (Ne & _)];
    [| by destruct (Bind _ _ _ _)].
  rewrite E. cbn [fst]. pose proof (Find_reservation _ _ _ _ F) as [Hi Er].
  exists (e <| context := digest |> <| bound := true |>).
  assert (Hs : e ∈ entries s) by (by apply list_elem_of_lookup_2, elem_of_list_filter in Hi as [Hi _]).
  split; [split; [eapply (list_elem_of_lookup_2 _ i), list_lookup_insert_eq, lookup_lt_Some, Hi |] |].
  - cbn. rewrite Er. done.
  - cbn. rewrite Er, R. split; [done |]. split; [| done]. destruct (r =? 0) eqn:Z; [done |].
    destruct (Find_unique r s e (re_ids _ Hok) Hs Er Hz) as [j Fj]. rewrite Fj in Ep. by injection Ep.
Qed.

(** No reservation can bind the context for the peer, and the cache contains it. *)
Definition refused (digest key : bytes) (other : nat) (now_ms : Z) (z : System) : Prop :=
  (slot_peer other z = Some key -> (bind_slot other digest now_ms z).2 <> PairingError.kNone) /\
  (Contains digest key now_ms (cache z)).2 = true.

Lemma entry_refuses e slot other now_ms z : replay_ok z -> holds_entry e slot z ->
  reserved e = true \/ now_ms < expires_at_ms e -> refused (context e) (peer_key e) other now_ms z.
Proof.
  intros Hok Hu Hn. destruct z as [s ks]. apply (entry_prune _ _ now_ms) in Hu; [| done].
  destruct Hu as (He & B & _). cbn [cache] in He.
  assert (Hin : (peer_key e, context e) ∈ uses (entries (Prune now_ms s))).
  { apply existsb_uses, existsb_exists. exists e. split; [by apply list_elem_of_In | by apply matches_iff]. }
  split; [| by apply existsb_uses]. unfold bind_slot, slot_peer. cbn [slots cache].
  destruct (ks !! other) as [r |]; [| done]. destruct (r =? 0) eqn:Z; [done |]. intros Ep.
  destruct (Bind_cases r (context e) now_ms s (re_ids _ Hok)) as [(i & f & Hz & F & R & Bf & Hnot & E) | (Ne & _)];
    [| by destruct (Bind _ _ _ _)].
  exfalso. apply Hnot. apply Find_reservation in F as [Hi Er].
  assert (Hs : f ∈ entries s) by (by apply list_elem_of_lookup_2, elem_of_list_filter in Hi as [Hi _]).
  destruct (Find_unique r s f (re_ids _ Hok) Hs Er Hz) as [j Fj]. rewrite Fj in Ep. cbn in Ep.
  injection Ep as ->. done.
Qed.

(** A call that ends the reservation in the slot, and one made at [T] or later. *)
Definition spares (slot : nat) (c : ReplayCall) : Prop :=
  match c with CCommit k _ | CDestroy k => k <> slot | _ => True end.
Definition earlier (T : Z) (c : ReplayCall) : Prop :=
  match c with
  | CReserve _ _ _ now_ms | CBind _ _ now_ms | CCommit _ now_ms | CContains _ _ now_ms | CRemember _ _ _ now_ms =>
      now_ms < T
  | CDestroy _ => True
  end.

(** ** The theorems *)

(** C40: In every state the calls reach, whatever allocations fail, the cache
    has at most 1024 entries, 32 of one peer, and no context twice for one peer;
    reservations that are not committed have one entry each, and entries that
    are reserved one reservation each. *)
Theorem replay_cache_sound calls : replay_ok (run calls System_initial).
Proof. apply kept_run. Qed.

(** A reservation is made exactly when, after old entries went, neither the
    limit of the cache nor that of the peer is reached and the allocations
    succeed: an id that no entry has is always found. *)
Theorem reserve_iff calls pushed made key now_ms :
  let s := cache (run calls System_initial) in
  (exists id, (Reserve pushed made key now_ms s).2 = Some id) <->
  admits key (Prune now_ms s) = true /\ pushed = true /\ made = true.
Proof.
  intros s. rewrite Reserve_eq by apply (re_next _ (kept_run calls)). destruct (admits _ _), pushed, made; cbn; split;
    try (by intros [? ?]); try (by intros (? & ? & ?)); eauto.
Qed.

(** C19: After a reservation bound a context, no reservation binds the same
    context for the same peer and the cache contains it: as long as the
    reservation is neither committed nor destroyed, at any time; and once it was
    committed, for the ten minutes from then, also after it is destroyed,
    whatever else is called in between. *)
Theorem bound_context_refused before slot digest key t0 held other now_ms :
  let y := run before System_initial in
  (bind_slot slot digest t0 y).2 = PairingError.kNone -> slot_peer slot y = Some key ->
  Forall (spares slot) held ->
  let z := run held (bind_slot slot digest t0 y).1 in
  refused digest key other now_ms z /\
  forall t1 after, t1 + kReplayRetentionMs < 2 ^ 64 ->
    Forall (earlier (t1 + kReplayRetentionMs)) after -> now_ms < t1 + kReplayRetentionMs ->
    refused digest key other now_ms (run after (step (CCommit slot t1) z)).
Proof.
  intros y Eb Ep Hheld z. pose proof (kept_run before) as Hok. fold y in Hok.
  pose proof (ok_bind slot digest t0 y Hok) as Hok1.
  destruct (entry_bound slot digest key t0 y Hok Eb Ep) as (e & He & <- & <- & R & Hz).
  destruct (entry_run e slot held _ Hok1) as [He2 Hok2]; [| exact He |].
  { eapply Forall_impl; [| exact Hheld]. intros []; simpl; auto. }
  split; [by apply (entry_refuses e slot); [.. | left] |]. intros t1 after HT Ha Hn.
  pose proof (entry_commit e slot t1 _ Hok2 R Hz He2) as He3. set (e' := e <| expires_at_ms := _ |> <| reserved := false |>) in *.
  assert (Hexp : expires_at_ms e' = t1 + kReplayRetentionMs).
  { unfold e', CheckedDeadline. cbn. change (umax 64) with (2 ^ 64 - 1). destruct (_ >? _) eqn:G; [lia | done]. }
  destruct (entry_run e' slot after _ (ok_step (CCommit slot t1) _ Hok2)) as [He4 Hok4]; [| exact He3 |].
  { assert (Hr : reserved e' = false) by done. clearbody e'.
    eapply Forall_impl; [| exact Ha]. intros []; simpl; rewrite ?Hexp, Hr; auto; by intros. }
  apply (entry_refuses e' slot); [done | done |]. right. by rewrite Hexp.
Qed.

Module PairingReplayExample.

Definition key : bytes := repeat 7 32.
Definition digest : bytes := repeat 3 32.

(** Two reservations for one peer; the first is bound, committed and destroyed,
    and a third one is made. *)
Definition before : list ReplayCall := [CReserve true true key 1000; CReserve true true key 1000].
Definition bound_first : System := (bind_slot 0 digest 2000 (run before System_initial)).1.
Definition after : list ReplayCall := [CDestroy 0; CReserve true true key 3000].

Lemma bound_context_refused_witness :
  slots (run after (step (CCommit 0 2500) bound_first)) = [0; 2; 3] /\
  (bind_slot 1 digest 600000 (run after (step (CCommit 0 2500) bound_first))).2 <> PairingError.kNone.
Proof.
  split; [by vm_compute |].
  destruct (bound_context_refused before 0 digest key 2000 [] 1 600000) as [_ H];
    [by vm_compute | by vm_compute | constructor |].
  destruct (H 2500 after) as [H1 _]; [by vm_compute | repeat constructor; by vm_compute | by vm_compute |].
  apply H1. by vm_compute.
Defined.

End PairingReplayExample.
