(* ===== verification/PairingAttempt.v ===== *)
(** * Pairing attempts

    [PairingAttempt] of [native/src/session/pairing.cpp]: one attempt to pair
    with the device at the other end of a TLS connection.  The two exchange
    hellos, agree on a selection, show their users the same words, exchange
    their decisions, and commit the peer to the repository when both confirmed.

    The members of [PairingAttempt::Implementation] are the record of that name.
    The mutex of the attempt is held by every method from beginning to end; the
    objects the attempt uses have their own and are shared with others, so each
    call of one is an operation of [PairingEnvironment] on a world [W] in which
    anything may have happened since the one before.  [PairingProcess] is the
    environment made of the admission, the replay cache and the repository of
    this library.  A [unique_ptr] member is an option; resetting it calls the
    destructor.  Allocations succeed. *)

From S2P Require Import Prelude.
From S2P Require Import Transfer.
From S2P Require Import IdentityCodec.
From S2P Require Import IdentityRepository.
From S2P Require Import SecurityTypes.
From S2P Require Import Ed25519.
From S2P Require Import CanonicalObjects.
From S2P Require Import SecurityProfile.
From S2P Require Import SessionWire.
From S2P Require Import Admission.

Module PairingAttempt.
Import SecurityTypes Ed25519 SecurityProfile SessionWire.

(** ** Constants *)

Definition kMaxInboundPairingFrames : Z := 16.
Definition kMaxInboundPairingBytes : Z := 65536.
Definition kFirstPairingFrameTimeoutMs : Z := 5000.
Definition kSelectionTimeoutMs : Z := 10000.
Definition kPairingIdleTimeoutMs : Z := 30000.
Definition kDecisionTimeoutMs : Z := 90000.
Definition kCompletePairingTimeoutMs : Z := 120000.

(** ** Types *)

Module PairingState.
Inductive PairingState :=
  | kPairingTls
  | kExchangingHellos
  | kSelecting
  | kAwaitingDecisions
  | kReadyToCommit
  | kCommitting
  | kPairedLocal
  | kClosed.
End PairingState.
#[global] Instance pairing_state_eq_dec : EqDecision PairingState.PairingState.
Proof. solve_decision. Defined.

Record PairingAttemptOptions := {
  po_offer : NegotiationOffer;
  peer_display_label : bytes;
}.

Record PairingPrompt := {
  pp_handle : bytes;
  pp_sas_word_indices : list Z;
  pp_deadline_ms : Z;
}.

Record PairingUpdate := {
  up_state : PairingState.PairingState;
  up_error : PairingError.PairingError;
  outbound_frame : bytes;
  up_prompt : option PairingPrompt;
  paired_peer : option bytes;
  terminal : bool;
}.
#[global] Instance eta_PairingUpdate : Eta PairingUpdate := fun x =>
  {| up_state := up_state x; up_error := up_error x; outbound_frame := outbound_frame x; up_prompt := up_prompt x;
     paired_peer := paired_peer x; terminal := terminal x |}.

(** [PairingUpdate{.state = s, .error = e}]. *)
Definition update_of (s : PairingState.PairingState) (e : PairingError.PairingError) : PairingUpdate :=
  {| up_state := s; up_error := e; outbound_frame := []; up_prompt := None; paired_peer := None; terminal := false |}.

(** A pairing connection: which one it is, and the key of the peer at its end. *)
Record PairingChannel := {
  ch_number : nat;
  peer_public_key : bytes;
}.

Record Implementation := {
  channel : option PairingChannel;
  admission : option Admission.PairingAdmissionLease;
  replay_reservation : option Z;
  options : PairingAttemptOptions;
  local_role : Role.Role;
  handle : bytes;
  local_nonce : bytes;
  local_key : option bytes;
  local_hello : option Hello;
  remote_hello : option Hello;
  selection : option Selection;
  context : option Context;
  confirmation_exporter : bytes;
  sas_indices : list Z;
  state : PairingState.PairingState;
  local_decision : option ConfirmationDecision.ConfirmationDecision;
  selection_ack_pending : bool;
  local_decision_written : bool;
  peer_confirmed : bool;
  next_outbound_sequence : Z;
  next_inbound_sequence : Z;
  inbound_frames : Z;
  inbound_bytes : Z;
  absolute_deadline_ms : Z;
  first_frame_deadline_ms : Z;
  selection_deadline_ms : Z;
  decision_deadline_ms : Z;
  idle_deadline_ms : Z;
  last_now_ms : Z;
}.
#[global] Instance eta_Implementation : Eta Implementation := fun x =>
  {| channel := channel x; admission := admission x; replay_reservation := replay_reservation x; options := options x;
     local_role := local_role x; handle := handle x; local_nonce := local_nonce x; local_key := local_key x;
     local_hello := local_hello x; remote_hello := remote_hello x; selection := selection x; context := context x;
     confirmation_exporter := confirmation_exporter x; sas_indices := sas_indices x; state := state x;
     local_decision := local_decision x; selection_ack_pending := selection_ack_pending x;
     local_decision_written := local_decision_written x; peer_confirmed := peer_confirmed x;
     next_outbound_sequence := next_outbound_sequence x; next_inbound_sequence := next_inbound_sequence x;
     inbound_frames := inbound_frames x; inbound_bytes := inbound_bytes x; absolute_deadline_ms := absolute_deadline_ms x;
     first_frame_deadline_ms := first_frame_deadline_ms x; selection_deadline_ms := selection_deadline_ms x;
     decision_deadline_ms := decision_deadline_ms x; idle_deadline_ms := idle_deadline_ms x; last_now_ms := last_now_ms x |}.

(** ** The environment *)

Class PairingEnvironment (W : Type) := {
  (* PairingAdmissionLease; [release_lease] is the destructor *)
  lease_active : Admission.PairingAdmissionLease -> W -> W * bool;
  lease_bound : Admission.PairingAdmissionLease -> W -> W * bool;
  lease_local_role : Admission.PairingAdmissionLease -> W -> W * Role.Role;
  lease_admitted_at_ms : Admission.PairingAdmissionLease -> W -> W * Z;
  lease_window_deadline_ms : Admission.PairingAdmissionLease -> W -> W * Z;
  lease_local_key : Admission.PairingAdmissionLease -> W -> W * bytes;
  lease_peer_key : Admission.PairingAdmissionLease -> W -> W * bytes;
  mark_visible : Admission.PairingAdmissionLease -> W -> W * PairingError.PairingError;
  release_lease : Admission.PairingAdmissionLease -> W -> W;
  (* PairingReplayCache and PairingReplayReservation; [destroy_reservation] is the destructor *)
  reserve_replay : bytes -> Z -> W -> W * option Z;
  bind_replay : Z -> bytes -> Z -> W -> W * PairingError.PairingError;
  commit_replay : Z -> Z -> W -> W * Z;
  destroy_reservation : Z -> W -> W;
  (* PairingChannel: [None] is a failed export; [close_channel] is the destructor *)
  ExportPairing : PairingChannel -> Context -> W -> W * option bytes;
  ExportConfirmation : PairingChannel -> Context -> W -> W * option bytes;
  close_channel : PairingChannel -> W -> W;
  (* IdentityRepository: [None] is a failed commit *)
  repository_root_public_key : W -> W * option bytes;
  repository_ready : W -> W * bool;
  CommitPeer : IdentityRepository.PeerCommit -> W -> W * option bytes;
  (* SessionEntropy *)
  Fill : Z -> W -> W * option bytes;
  (* OpenSSL: the calls of one operation of the security profile succeed *)
  crypto_available : W -> W * bool;
}.

(** ** Helpers *)

Definition MapSecurityError (error : SecurityError.SecurityError) : PairingError.PairingError :=
  match error with
  | SecurityError.kNone => PairingError.kNone
  | SecurityError.kUnsupportedVersion => PairingError.kUnsupportedVersion
  | SecurityError.kUnsupportedProfile => PairingError.kUnsupportedProfile
  | SecurityError.kDowngradeDetected => PairingError.kDowngradeDetected
  | SecurityError.kRoleMismatch => PairingError.kRoleMismatch
  | SecurityError.kReplayDetected => PairingError.kReplayDetected
  | SecurityError.kContextMismatch | SecurityError.kConfirmationMismatch
  | SecurityError.kInvalidDecision | SecurityError.kAuthenticatedReject => PairingError.kConfirmationFailed
  | SecurityError.kInvalidPublicKey | SecurityError.kPeerCertificateMismatch
  | SecurityError.kPinMismatch => PairingError.kCertificateRejected
  | SecurityError.kLimitExceeded => PairingError.kLimitExceeded
  | SecurityError.kInvalidLength | SecurityError.kMalformedEncoding | SecurityError.kNonCanonicalEncoding
  | SecurityError.kUnknownKind | SecurityError.kUnknownField | SecurityError.kDuplicateField
  | SecurityError.kMissingField | SecurityError.kTrailingData | SecurityError.kDomainMismatch
  | SecurityError.kInvalidNegotiation | SecurityError.kUnsupportedCapability
  | SecurityError.kMalformedTranscript => PairingError.kMalformed
  | SecurityError.kCryptoFailure | SecurityError.kLocalReject | SecurityError.kDeviceIdentifierMismatch
  | SecurityError.kTransportFinishedMismatch | SecurityError.kInvalidRotation | SecurityError.kOutputMismatch
  | SecurityError.kIdentityUnavailable | SecurityError.kTlsConfigurationFailure | SecurityError.kHandshakeIncomplete
  | SecurityError.kTlsVersionMismatch | SecurityError.kCipherMismatch | SecurityError.kGroupMismatch
  | SecurityError.kSignatureMismatch | SecurityError.kAlpnMismatch | SecurityError.kResumptionDetected
  | SecurityError.kEarlyDataDetected | SecurityError.kExporterFailure => PairingError.kInternalFailure
  end.

Definition PairingErrorName (error : PairingError.PairingError) : string :=
  match error with
  | PairingError.kNone => "PAIRING_NONE"
  | PairingError.kMalformed => "PAIRING_MALFORMED"
  | PairingError.kLimitExceeded => "PAIRING_LIMIT_EXCEEDED"
  | PairingError.kSequenceViolation => "PAIRING_SEQUENCE_VIOLATION"
  | PairingError.kUnsupportedVersion => "PAIRING_UNSUPPORTED_VERSION"
  | PairingError.kUnsupportedProfile => "PAIRING_UNSUPPORTED_PROFILE"
  | PairingError.kDowngradeDetected => "PAIRING_DOWNGRADE_DETECTED"
  | PairingError.kRoleMismatch => "PAIRING_ROLE_MISMATCH"
  | PairingError.kStateViolation => "PAIRING_STATE_VIOLATION"
  | PairingError.kReplayDetected => "PAIRING_REPLAY_DETECTED"
  | PairingError.kConfirmationFailed => "PAIRING_CONFIRMATION_FAILED"
  | PairingError.kAuthenticatedReject => "PAIRING_AUTHENTICATED_REJECT"
  | PairingError.kLocalReject => "PAIRING_LOCAL_REJECT"
  | PairingError.kAlreadyDecided => "PAIRING_ALREADY_DECIDED"
  | PairingError.kCancelled => "PAIRING_CANCELLED"
  | PairingError.kTimeout => "PAIRING_TIMEOUT"
  | PairingError.kBusy => "PAIRING_BUSY"
  | PairingError.kCertificateRejected => "PAIRING_CERTIFICATE_REJECTED"
  | PairingError.kInternalFailure => "PAIRING_INTERNAL_FAILURE"
  end%string.

Definition AllZero (l : bytes) : bool :=
  fold_left (fun accumulator byte => u8 (Z.lor accumulator byte)) l 0 =? 0.

Definition CheckedDeadline (base duration : Z) : Z :=
  if base >? umax 64 - duration then umax 64 else base + duration.

Definition Earlier (first second : Z) : Z := Z.min first second.

Definition IsRole (role : Role.Role) : bool :=
  bool_decide (role = Role.kInitiator) || bool_decide (role = Role.kResponder).

(** The reset of an optional member whose destructor is [destroy]. *)
Definition reset {A W} (destroy : A -> W -> W) (member : option A) (w : W) : W :=
  match member with Some a => destroy a w | None => w end.

Section Attempt.
Context `{Sha256Crypto} {W : Type} {env : PairingEnvironment W}.

(** A method: the members and the world after it, and its update. *)
Definition method : Type := Implementation -> W -> Implementation * W * PairingUpdate.

Definition is_terminal (i : Implementation) : bool :=
  bool_decide (state i = PairingState.kClosed) || bool_decide (state i = PairingState.kPairedLocal).

Definition Update (i : Implementation) : PairingUpdate :=
  (update_of (state i) PairingError.kNone) <| terminal := is_terminal i |>.

(** ** The end of an attempt *)

Definition FinalizeResources (i : Implementation) (w : W) : Implementation * W :=
  let w :=
    match replay_reservation i with
    | None => w
    | Some reservation =>
        let '(w, reservation) := commit_replay reservation (last_now_ms i) w in
        destroy_reservation reservation w
    end in
  let w := reset release_lease (admission i) w in
  let w := reset close_channel (channel i) w in
  ({| channel := None; admission := None; replay_reservation := None; options := options i; local_role := local_role i;
      handle := handle i; local_nonce := repeat 0 32; local_key := local_key i; local_hello := None; remote_hello := None;
      selection := None; context := None; confirmation_exporter := confirmation_exporter i; sas_indices := repeat 0 5;
      state := state i; local_decision := None; selection_ack_pending := false; local_decision_written := false;
      peer_confirmed := false; next_outbound_sequence := next_outbound_sequence i;
      next_inbound_sequence := next_inbound_sequence i; inbound_frames := inbound_frames i;
      inbound_bytes := inbound_bytes i; absolute_deadline_ms := absolute_deadline_ms i;
      first_frame_deadline_ms := first_frame_deadline_ms i; selection_deadline_ms := selection_deadline_ms i;
      decision_deadline_ms := decision_deadline_ms i; idle_deadline_ms := idle_deadline_ms i;
      last_now_ms := last_now_ms i |}, w).

Definition Close (error : PairingError.PairingError) : method := fun i w =>
  let i := i <| confirmation_exporter := [] |> <| handle := repeat 0 16 |> <| state := PairingState.kClosed |> in
  let '(i, w) := FinalizeResources i w in
  (i, w, (update_of (state i) error) <| terminal := true |>).

Definition Paired (peer_device_id : bytes) : method := fun i w =>
  let i := i <| confirmation_exporter := [] |> <| handle := repeat 0 16 |> <| state := PairingState.kPairedLocal |> in
  let '(i, w) := FinalizeResources i w in
  (i, w, (update_of (state i) PairingError.kNone) <| paired_peer := Some peer_device_id |> <| terminal := true |>).

Definition HandleMatches (candidate : bytes) (i : Implementation) : bool :=
  same_bytes candidate (handle i) && negb (AllZero (handle i)).

(** The time by which the attempt has to have gone on. *)
Definition deadline (i : Implementation) : Z :=
  let deadline := absolute_deadline_ms i in
  match state i with
  | PairingState.kExchangingHellos =>
      let deadline := Earlier deadline (first_frame_deadline_ms i) in
      let deadline := Earlier deadline (selection_deadline_ms i) in
      Earlier deadline (idle_deadline_ms i)
  | PairingState.kSelecting =>
      let deadline := Earlier deadline (selection_deadline_ms i) in
      Earlier deadline (idle_deadline_ms i)
  | PairingState.kAwaitingDecisions =>
      let deadline := Earlier deadline (decision_deadline_ms i) in
      Earlier deadline (idle_deadline_ms i)
  | _ => deadline
  end.

(** [admission == nullptr || !admission->active()], negated. *)
Definition admission_active (i : Implementation) (w : W) : W * bool :=
  match admission i with
  | None => (w, false)
  | Some lease => lease_active lease w
  end.

Definition CheckDeadline (now_ms : Z) : method := fun i w =>
  let i := i <| last_now_ms := Z.max (last_now_ms i) now_ms |> in
  if is_terminal i then (i, w, Update i)
  else
  let '(w, active) := admission_active i w in
  if negb active then Close PairingError.kBusy i w
  else if now_ms <? deadline i then (i, w, Update i)
  else
  let '(i, w, update) := Close PairingError.kTimeout i w in
  (i, w, update <| outbound_frame := EncodeAbort (next_outbound_sequence i) 4 |>).

(** The key of the peer; the channel is there until the attempt ends. *)
Definition channel_key (i : Implementation) : bytes :=
  match channel i with Some c => peer_public_key c | None => [] end.

(** ** The commit *)

Definition MaybeCommit : method := fun i w =>
  if negb (bool_decide (state i = PairingState.kAwaitingDecisions)) ||
     negb (bool_decide (local_decision i = Some ConfirmationDecision.kConfirm)) ||
     negb (local_decision_written i) || negb (peer_confirmed i) || negb (bool_decide (is_Some (context i))) then
    (i, w, Update i)
  else
  let i := i <| state := PairingState.kReadyToCommit |> in
  let i := i <| state := PairingState.kCommitting |> in
  let '(w, commit) := CommitPeer {| IdentityRepository.pc_public_key := channel_key i;
                                    IdentityRepository.pc_security_profile := kSecurityProfileV1;
                                    IdentityRepository.pc_display_label := peer_display_label (options i) |} w in
  match commit with
  | None => Close PairingError.kInternalFailure i w
  | Some device_id => Paired device_id i w
  end.

(** ** The selection *)

(** The hello of a role, the local one or the remote one. *)
Definition hello_of (role : Role.Role) (i : Implementation) (local remote : Hello) : Hello :=
  if bool_decide (local_role i = role) then local else remote.

(** The exporters of the channel, and the prompt. *)
Definition ExportSecrets (ctx : Context) (now_ms : Z) : method := fun i w =>
  match channel i with
  | None => Close PairingError.kInternalFailure i w
  | Some c =>
  let '(w, pairing_exporter) := ExportPairing c ctx w in
  match pairing_exporter with
  | None => Close PairingError.kInternalFailure i w
  | Some exporter =>
  if negb (bsize exporter =? kSha256Size) then Close PairingError.kInternalFailure i w
  else
  let '(w, available) := crypto_available w in
  match DeriveSasWords available exporter ctx with
  | inl error => Close (MapSecurityError error) i w
  | inr sas =>
  let i := i <| sas_indices := SecurityProfile.sas_indices sas |> in
  let '(w, confirmation) := ExportConfirmation c ctx w in
  match confirmation with
  | None => Close PairingError.kInternalFailure i w
  | Some confirmation =>
  if negb (bsize confirmation =? kSha256Size) then Close PairingError.kInternalFailure i w
  else
  let i := i <| confirmation_exporter := confirmation |>
             <| state := PairingState.kAwaitingDecisions |>
             <| decision_deadline_ms := Earlier (absolute_deadline_ms i) (CheckedDeadline now_ms kDecisionTimeoutMs) |>
             <| idle_deadline_ms := Earlier (absolute_deadline_ms i) (CheckedDeadline now_ms kPairingIdleTimeoutMs) |>
             <| last_now_ms := now_ms |> in
  (i, w, (Update i) <| up_prompt := Some {| pp_handle := handle i; pp_sas_word_indices := sas_indices i;
                                            pp_deadline_ms := decision_deadline_ms i |} |>)
  end end end end.

Definition CompleteSelection (now_ms : Z) : method := fun i w =>
  match local_hello i, remote_hello i, selection i with
  | Some local, Some remote, Some sel =>
      let initiator := hello_of Role.kInitiator i local remote in
      let responder := hello_of Role.kResponder i local remote in
      match BuildNormalizedNegotiation initiator responder sel with
      | inl error => Close (MapSecurityError error) i w
      | inr negotiation =>
      match h_key initiator, h_key responder with
      | Some initiator_key, Some responder_key =>
          let '(w, available) := crypto_available w in
          match BuildPairingContext available
                  {| pi_initiator_nonce := h_nonce initiator; pi_responder_nonce := h_nonce responder;
                     pi_initiator_key := initiator_key; pi_responder_key := responder_key;
                     pi_negotiation := negotiation |} with
          | inl error => Close (MapSecurityError error) i w
          | inr ctx =>
          let i := i <| context := Some ctx |> in
          match replay_reservation i with
          | None => Close PairingError.kInternalFailure i w
          | Some reservation =>
          let '(w, replay_error) := bind_replay reservation (cx_digest ctx) now_ms w in
          if negb (bool_decide (replay_error = PairingError.kNone)) then Close replay_error i w
          else
          match admission i with
          | None => Close PairingError.kBusy i w
          | Some lease =>
          let '(w, visible_error) := mark_visible lease w in
          if negb (bool_decide (visible_error = PairingError.kNone)) then Close PairingError.kBusy i w
          else ExportSecrets ctx now_ms i w
          end end end
      | _, _ => Close (MapSecurityError SecurityError.kNone) i w
      end end
  | _, _, _ => Close PairingError.kInternalFailure i w
  end.

(** ** The frames of the peer *)

Definition ReceiveHello (frame : Frame) (now_ms : Z) : method := fun i w =>
  if negb (bool_decide (state i = PairingState.kExchangingHellos)) || bool_decide (is_Some (remote_hello i)) then
    Close PairingError.kStateViolation i w
  else
  match DecodeHello frame (OppositeRole (local_role i)) (channel_key i) with
  | inl error => Close error i w
  | inr hello =>
  if bool_decide (local_key i = h_key hello) then Close PairingError.kCertificateRejected i w
  else
  let i := i <| remote_hello := Some hello |> in
  let initiator := match local_role i with Role.kInitiator => po_offer (options i) | Role.kResponder => h_offer hello end in
  let responder := match local_role i with Role.kResponder => po_offer (options i) | Role.kInitiator => h_offer hello end in
  match Select initiator responder with
  | inl error => Close error i w
  | inr selected =>
  let i := i <| selection := Some selected |>
             <| state := PairingState.kSelecting |>
             <| idle_deadline_ms := Earlier (absolute_deadline_ms i) (CheckedDeadline now_ms kPairingIdleTimeoutMs) |>
             <| last_now_ms := now_ms |> in
  let update := Update i in
  match local_role i with
  | Role.kResponder => (i, w, update)
  | Role.kInitiator =>
      let frame := EncodeSelection PairingMessageType.kSelect (next_outbound_sequence i) selected in
      let i := i <| next_outbound_sequence := uadd 32 (next_outbound_sequence i) 1 |> in
      if bsize frame =? 0 then Close PairingError.kInternalFailure i w
      else (i, w, update <| outbound_frame := frame |>)
  end end end.

Definition ReceiveSelection (frame : Frame) (now_ms : Z) : method := fun i w =>
  match selection i with
  | None => Close PairingError.kStateViolation i w
  | Some selected =>
  if negb (bool_decide (state i = PairingState.kSelecting)) then Close PairingError.kStateViolation i w
  else
  let responder_select := bool_decide (local_role i = Role.kResponder) &&
                          bool_decide (fr_type frame = PairingMessageType.kSelect) in
  let initiator_ack := bool_decide (local_role i = Role.kInitiator) &&
                       bool_decide (fr_type frame = PairingMessageType.kSelectAck) in
  if negb responder_select && negb initiator_ack then Close PairingError.kStateViolation i w
  else
  match DecodeSelection frame with
  | inl error => Close error i w
  | inr received =>
  if negb (bool_decide (received = selected)) then
    if VersionLess (s_version received) (s_version selected) then Close PairingError.kDowngradeDetected i w
    else Close PairingError.kMalformed i w
  else
  match local_role i with
  | Role.kResponder =>
      let update := Update i in
      let frame := EncodeSelection PairingMessageType.kSelectAck (next_outbound_sequence i) selected in
      let i := i <| next_outbound_sequence := uadd 32 (next_outbound_sequence i) 1 |> in
      if bsize frame =? 0 then Close PairingError.kInternalFailure i w
      else (i <| selection_ack_pending := true |> <| last_now_ms := now_ms |>, w, update <| outbound_frame := frame |>)
  | Role.kInitiator => CompleteSelection now_ms i w
  end end end.

Definition ReceiveDecision (frame : Frame) (now_ms : Z) : method := fun i w =>
  match context i with
  | None => Close PairingError.kStateViolation i w
  | Some ctx =>
  if negb (bool_decide (state i = PairingState.kAwaitingDecisions)) || peer_confirmed i then
    Close PairingError.kStateViolation i w
  else
  match DecodeDecision frame with
  | inl error => Close error i w
  | inr decision =>
  let '(w, available) := crypto_available w in
  match VerifyConfirmation available (confirmation_exporter i) (d_message decision) (d_authenticator decision) ctx
          (OppositeRole (local_role i)) with
  | inl error => Close (MapSecurityError error) i w
  | inr verification =>
  match cv_outcome verification with
  | ConfirmationOutcome.kAuthenticatedReject => Close PairingError.kAuthenticatedReject i w
  | ConfirmationOutcome.kAffirmativeConfirm =>
      let i := i <| peer_confirmed := true |>
                 <| idle_deadline_ms := Earlier (absolute_deadline_ms i) (CheckedDeadline now_ms kPairingIdleTimeoutMs) |>
                 <| last_now_ms := now_ms |> in
      MaybeCommit i w
  end end end end.

(** An abort of the peer, by its code. *)
Definition ReceiveAbort (frame : Frame) : method := fun i w =>
  match DecodeAbort frame with
  | PairingError.kNone =>
      let code := ReadU16 (nth_value frame 0) in
      if code =? 2 then Close PairingError.kBusy i w
      else if code =? 3 then Close PairingError.kCancelled i w
      else if code =? 4 then Close PairingError.kTimeout i w
      else Close PairingError.kInternalFailure i w
  | error => Close error i w
  end.

(** ** The public methods *)

(** A method that checks the deadline first and goes on with [body]. *)
Definition checked (now_ms : Z) (body : method) : method := fun i w =>
  let '(i, w, update) := CheckDeadline now_ms i w in
  if terminal update then (i, w, update) else body i w.

(** The update for a handle that is not the one of the attempt. *)
Definition for_handle (candidate : bytes) (body : method) : method := fun i w =>
  if negb (HandleMatches candidate i) then (i, w, (Update i) <| up_error := PairingError.kStateViolation |>)
  else body i w.

Definition Start (now_ms : Z) : method := checked now_ms (fun i w =>
  match local_key i with
  | None => Close PairingError.kStateViolation i w
  | Some key =>
  if negb (bool_decide (state i = PairingState.kPairingTls)) then Close PairingError.kStateViolation i w
  else
  let hello := {| h_role := local_role i; h_nonce := local_nonce i; h_key := Some key; h_offer := po_offer (options i) |} in
  let i := i <| local_hello := Some hello |> in
  let frame := EncodeHello (next_outbound_sequence i) (local_role i) key (local_nonce i) (po_offer (options i)) in
  let i := i <| next_outbound_sequence := uadd 32 (next_outbound_sequence i) 1 |> in
  if bsize frame =? 0 then Close PairingError.kInternalFailure i w
  else
  let i := i <| state := PairingState.kExchangingHellos |>
             <| first_frame_deadline_ms := Earlier (absolute_deadline_ms i) (CheckedDeadline now_ms kFirstPairingFrameTimeoutMs) |>
             <| selection_deadline_ms := Earlier (absolute_deadline_ms i) (CheckedDeadline now_ms kSelectionTimeoutMs) |>
             <| idle_deadline_ms := Earlier (absolute_deadline_ms i) (CheckedDeadline now_ms kPairingIdleTimeoutMs) |>
             <| last_now_ms := now_ms |> in
  (i, w, (update_of (state i) PairingError.kNone) <| outbound_frame := frame |>)
  end).

Definition ReceiveFrame (encoded : bytes) (now_ms : Z) : method := checked now_ms (fun i w =>
  if bool_decide (state i = PairingState.kPairingTls) then Close PairingError.kStateViolation i w
  else if (inbound_frames i =? kMaxInboundPairingFrames) ||
          (bsize encoded >? usub 64 kMaxInboundPairingBytes (inbound_bytes i)) then Close PairingError.kLimitExceeded i w
  else
  let i := i <| inbound_frames := uadd 64 (inbound_frames i) 1 |>
             <| inbound_bytes := uadd 64 (inbound_bytes i) (bsize encoded) |> in
  match ParseFrame encoded with
  | inl error => Close error i w
  | inr frame =>
  if negb (fr_sequence frame =? next_inbound_sequence i) || (next_inbound_sequence i =? umax 32) then
    Close PairingError.kSequenceViolation i w
  else
  let i := i <| next_inbound_sequence := uadd 32 (next_inbound_sequence i) 1 |> in
  match fr_type frame with
  | PairingMessageType.kAbort => ReceiveAbort frame i w
  | PairingMessageType.kHello => ReceiveHello frame now_ms i w
  | PairingMessageType.kSelect | PairingMessageType.kSelectAck => ReceiveSelection frame now_ms i w
  | PairingMessageType.kDecision => ReceiveDecision frame now_ms i w
  end end).

Definition LocalSelectionAckWritten (candidate : bytes) (now_ms : Z) : method :=
  checked now_ms (for_handle candidate (fun i w =>
  if negb (bool_decide (local_role i = Role.kResponder)) || negb (bool_decide (state i = PairingState.kSelecting)) ||
     negb (selection_ack_pending i) then Close PairingError.kStateViolation i w
  else
  let i := i <| selection_ack_pending := false |> <| last_now_ms := now_ms |> in
  CompleteSelection now_ms i w)).

Definition Decide (candidate : bytes) (decision : ConfirmationDecision.ConfirmationDecision) (now_ms : Z) : method :=
  checked now_ms (for_handle candidate (fun i w =>
  match context i with
  | None => Close PairingError.kStateViolation i w
  | Some ctx =>
  if negb (bool_decide (state i = PairingState.kAwaitingDecisions)) then Close PairingError.kStateViolation i w
  else
  match local_decision i with
  | Some former =>
      (i, w, if negb (bool_decide (former = decision)) then (Update i) <| up_error := PairingError.kAlreadyDecided |>
             else Update i)
  | None =>
  let '(w, available) := crypto_available w in
  match BuildConfirmation available (confirmation_exporter i) ctx (local_role i) decision with
  | inl error => Close (MapSecurityError error) i w
  | inr confirmation =>
  let i := i <| local_decision := Some decision |> in
  let update := Update i in
  let frame := EncodeDecision (next_outbound_sequence i) confirmation in
  let i := i <| next_outbound_sequence := uadd 32 (next_outbound_sequence i) 1 |> in
  if bsize frame =? 0 then Close PairingError.kInternalFailure i w
  else
  match decision with
  | ConfirmationDecision.kReject =>
      let '(i, w, closed) := Close PairingError.kLocalReject i w in (i, w, closed <| outbound_frame := frame |>)
  | ConfirmationDecision.kConfirm =>
      (i <| last_now_ms := now_ms |>, w, update <| outbound_frame := frame |>)
  end end end end)).

Definition LocalDecisionWritten (candidate : bytes) (now_ms : Z) : method :=
  checked now_ms (for_handle candidate (fun i w =>
  if negb (bool_decide (state i = PairingState.kAwaitingDecisions)) ||
     negb (bool_decide (local_decision i = Some ConfirmationDecision.kConfirm)) then Close PairingError.kStateViolation i w
  else
  let i := i <| local_decision_written := true |> <| last_now_ms := now_ms |> in
  MaybeCommit i w)).

Definition Cancel (candidate : bytes) (now_ms : Z) : method :=
  checked now_ms (for_handle candidate (fun i w =>
  let '(i, w, update) := Close PairingError.kCancelled i w in
  (i, w, update <| outbound_frame := EncodeAbort (next_outbound_sequence i) 3 |>))).

Definition Advance (now_ms : Z) : method := CheckDeadline now_ms.

Definition Shutdown : method := fun i w =>
  if is_terminal i then (i, w, Update i) else Close PairingError.kCancelled i w.

(** [~PairingAttempt]. *)
Definition PairingAttempt_destroy (i : Implementation) (w : W) : W :=
  if is_terminal i then w else (Close PairingError.kCancelled i w).1.2.

Definition pair_context (i : Implementation) : option bytes := option_map cx_digest (context i).

(** ** Creation *)

(** The arguments [Create] took over go out of scope. *)
Definition abandon (c : option PairingChannel) (lease : option Admission.PairingAdmissionLease) (w : W) : W :=
  reset close_channel c (reset release_lease lease w).

Definition refused (error : PairingError.PairingError) : PairingUpdate :=
  (update_of PairingState.kClosed error) <| terminal := true |>.

(** The members of a new attempt; [handle] and [local_nonce] are filled next. *)
Definition new_attempt (c : PairingChannel) (lease : Admission.PairingAdmissionLease) (reservation : Z)
    (opts : PairingAttemptOptions) (role : Role.Role) (key : bytes) (admitted_at_ms window_deadline_ms : Z)
    : Implementation :=
  {| channel := Some c; admission := Some lease; replay_reservation := Some reservation; options := opts;
     local_role := role; handle := repeat 0 16; local_nonce := repeat 0 32; local_key := Some key; local_hello := None;
     remote_hello := None; selection := None; context := None; confirmation_exporter := []; sas_indices := repeat 0 5;
     state := PairingState.kPairingTls; local_decision := None; selection_ack_pending := false;
     local_decision_written := false; peer_confirmed := false; next_outbound_sequence := 1; next_inbound_sequence := 1;
     inbound_frames := 0; inbound_bytes := 0;
     absolute_deadline_ms := Earlier window_deadline_ms (CheckedDeadline admitted_at_ms kCompletePairingTimeoutMs);
     first_frame_deadline_ms := 0; selection_deadline_ms := 0; decision_deadline_ms := 0; idle_deadline_ms := 0;
     last_now_ms := admitted_at_ms |}.

(** The random bytes of a new attempt: both or none. *)
Definition FillSecrets (i : Implementation) (w : W) : W * option Implementation :=
  let '(w, filled_handle) := Fill kAttemptHandleSize w in
  match filled_handle with
  | None => (w, None)
  | Some filled_handle =>
      let '(w, filled_nonce) := Fill 32 w in
      match filled_nonce with
      | None => (w, None)
      | Some filled_nonce =>
          if AllZero filled_handle || AllZero filled_nonce then (w, None)
          else (w, Some (i <| handle := filled_handle |> <| local_nonce := filled_nonce |>))
      end
  end.

Definition Create (c : option PairingChannel) (lease : option Admission.PairingAdmissionLease)
    (opts : PairingAttemptOptions) (w : W) : W * option Implementation * PairingUpdate :=
  let '(w, local_public_key) := repository_root_public_key w in
  let '(w, ready) := repository_ready w in
  match local_public_key, c, lease with
  | Some key, Some ch, Some ls =>
  if negb ready then (abandon c lease w, None, refused PairingError.kBusy)
  else
  let '(w, active) := lease_active ls w in
  if negb active then (abandon c lease w, None, refused PairingError.kBusy)
  else
  let '(w, bound) := lease_bound ls w in
  if negb bound then (abandon c lease w, None, refused PairingError.kBusy)
  else
  let '(w, role) := lease_local_role ls w in
  let '(w, admitted_at_ms) := lease_admitted_at_ms ls w in
  let '(w, window_deadline_ms) := lease_window_deadline_ms ls w in
  if negb (IsRole role) || (bsize (peer_display_label opts) >? IdentityTypes.kMaxDisplayLabelBytes) ||
     (window_deadline_ms <=? admitted_at_ms) ||
     (window_deadline_ms >? CheckedDeadline admitted_at_ms Admission.kMaximumPairingWindowMs) ||
     negb (bool_decide (ValidateOffer (po_offer opts) = PairingError.kNone)) then
    (abandon c lease w, None, refused PairingError.kInternalFailure)
  else
  match ValidateEd25519PublicKey key with
  | inl _ => (abandon c lease w, None, refused PairingError.kCertificateRejected)
  | inr validated =>
  let '(w, expected_local) := lease_local_key ls w in
  if negb (same_bytes key expected_local) then (abandon c lease w, None, refused PairingError.kCertificateRejected)
  else
  let '(w, expected_peer) := lease_peer_key ls w in
  if negb (same_bytes (peer_public_key ch) expected_peer) || same_bytes validated (peer_public_key ch) then
    (abandon c lease w, None, refused PairingError.kCertificateRejected)
  else
  let '(w, reserved_key) := lease_peer_key ls w in
  let '(w, reservation) := reserve_replay reserved_key admitted_at_ms w in
  match reservation with
  | None => (abandon c lease w, None, refused PairingError.kBusy)
  | Some reservation =>
  let i := new_attempt ch ls reservation opts role validated admitted_at_ms window_deadline_ms in
  let '(w, made) := FillSecrets i w in
  match made with
  | None => (abandon c lease (destroy_reservation reservation w), None, refused PairingError.kInternalFailure)
  | Some i => (w, Some i, update_of PairingState.kPairingTls PairingError.kNone)
  end end end
  | _, _, _ => (abandon c lease w, None, refused PairingError.kBusy)
  end.

End Attempt.
End PairingAttempt.
