(* ===== verification/PairingAttemptProofs.v ===== *)
(** * Correctness of pairing attempts

    Whatever calls, frames and environment an attempt meets: the peer is
    committed only on the evidence of both users; an attempt that ended holds
    nothing and never goes on; it ends in time; frames are taken in sequence and
    within their limits. *)

From S2P Require Import Prelude.
From S2P Require Import Transfer.
From S2P Require Import SecurityTypes.
From S2P Require Import Ed25519.
From S2P Require Import Ed25519Points.
From S2P Require Import CanonicalObjects.
From S2P Require Import SecurityProfile.
From S2P Require Import SecurityProfileProofs.
From S2P Require Import IdentityRepository.
From S2P Require Import SessionWire.
From S2P Require Import SessionWireProofs.
From S2P Require Import Admission.
From S2P Require Import PairingAttempt.
Import SecurityTypes Ed25519 SecurityProfile SessionWire PairingAttempt.

(** ** Runs *)

(** The calls of an attempt; [Elsewhere] is what others do to the world. *)
Inductive AttemptCall (W : Type) :=
  | AStart (now_ms : Z)
  | AFrame (encoded : bytes) (now_ms : Z)
  | ASelectionAckWritten (candidate : bytes) (now_ms : Z)
  | ADecide (candidate : bytes) (decision : ConfirmationDecision.ConfirmationDecision) (now_ms : Z)
  | ADecisionWritten (candidate : bytes) (now_ms : Z)
  | ACancel (candidate : bytes) (now_ms : Z)
  | AAdvance (now_ms : Z)
  | AShutdown
  | Elsewhere (f : W -> W).
Arguments AStart {W}. Arguments AFrame {W}. Arguments ASelectionAckWritten {W}. Arguments ADecide {W}.
Arguments ADecisionWritten {W}. Arguments ACancel {W}. Arguments AAdvance {W}. Arguments AShutdown {W}. Arguments Elsewhere {W}.

Section Runs.
Context `{Sha256Crypto} {W : Type} {env : PairingEnvironment W}.

Definition call (c : AttemptCall W) : method := fun i w =>
  match c with
  | AStart now_ms => Start now_ms i w
  | AFrame encoded now_ms => ReceiveFrame encoded now_ms i w
  | ASelectionAckWritten candidate now_ms => LocalSelectionAckWritten candidate now_ms i w
  | ADecide candidate decision now_ms => Decide candidate decision now_ms i w
  | ADecisionWritten candidate now_ms => LocalDecisionWritten candidate now_ms i w
  | ACancel candidate now_ms => Cancel candidate now_ms i w
  | AAdvance now_ms => Advance now_ms i w
  | AShutdown => Shutdown i w
  | Elsewhere f => (i, f w, Update i)
  end.

Definition run (calls : list (AttemptCall W)) (i : Implementation) (w : W) : Implementation * W :=
  fold_left (fun s c => (call c s.1 s.2).1) calls (i, w).

Lemma run_snoc calls c i w : run (calls ++ [c]) i w = (call c (run calls i w).1 (run calls i w).2).1.
Proof. unfold run. by rewrite fold_left_app. Qed.

(** ** The end of an attempt *)

(** Nothing is left of an attempt that ended. *)
Record ended (i : Implementation) : Prop := {
  ed_state : is_terminal i = true;
  ed_channel : channel i = None;
  ed_admission : admission i = None;
  ed_replay : replay_reservation i = None;
  ed_handle : handle i = repeat 0 16;
  ed_nonce : local_nonce i = repeat 0 32;
  ed_exporter : confirmation_exporter i = [];
  ed_words : sas_indices i = repeat 0 5;
  ed_hellos : local_hello i = None /\ remote_hello i = None;
  ed_selection : selection i = None;
  ed_context : context i = None;
  ed_decision : local_decision i = None /\ local_decision_written i = false /\ peer_confirmed i = false;
  ed_ack : selection_ack_pending i = false;
}.

(** The members that no method changes. *)
Definition same_setup (i i' : Implementation) : Prop :=
  options i' = options i /\ local_role i' = local_role i /\ local_key i' = local_key i /\
  absolute_deadline_ms i' = absolute_deadline_ms i.

(** The world when the resources of an attempt are given back. *)
Definition given_back (i : Implementation) (w : W) : W := (FinalizeResources i w).2.

Lemma Close_spec error i w : exists i',
  Close error i w = (i', given_back i w, (update_of PairingState.kClosed error) <| terminal := true |>) /\
  ended i' /\ state i' = PairingState.kClosed /\ same_setup i i' /\ next_outbound_sequence i' = next_outbound_sequence i.
Proof. eexists. split; [reflexivity |]. split; [by split |]. by split. Qed.

Lemma Paired_spec device_id i w : exists i',
  Paired device_id i w = (i', given_back i w, (update_of PairingState.kPairedLocal PairingError.kNone)
    <| paired_peer := Some device_id |> <| terminal := true |>) /\
  ended i' /\ state i' = PairingState.kPairedLocal /\ same_setup i i'.
Proof. eexists. split; [reflexivity |]. split; [by split |]. by split. Qed.

(** ** The protocol of an attempt

    What a call does to an attempt that goes on after it. *)

Definition at_time (now_ms : Z) (i : Implementation) : Implementation :=
  i <| last_now_ms := Z.max (last_now_ms i) now_ms |>.

(** The deadline that starts at [now_ms]. *)
Definition due (now_ms timeout : Z) (i : Implementation) : Z :=
  Earlier (absolute_deadline_ms i) (CheckedDeadline now_ms timeout).
#[local] Arguments due : simpl never.

Definition sent (i : Implementation) : Implementation :=
  i <| next_outbound_sequence := uadd 32 (next_outbound_sequence i) 1 |>.

(** A frame is counted and has its place in the sequence. *)
Definition counted (encoded : bytes) (i : Implementation) : Implementation :=
  i <| inbound_frames := uadd 64 (inbound_frames i) 1 |>
    <| inbound_bytes := uadd 64 (inbound_bytes i) (bsize encoded) |>
    <| next_inbound_sequence := uadd 32 (next_inbound_sequence i) 1 |>.

Record takes (i : Implementation) (encoded : bytes) (frame : Frame) : Prop := {
  tk_count : inbound_frames i <> kMaxInboundPairingFrames;
  tk_bytes : bsize encoded <= usub 64 kMaxInboundPairingBytes (inbound_bytes i);
  tk_parsed : ParseFrame encoded = inr frame;
  tk_sequence : fr_sequence frame = next_inbound_sequence i;
  tk_last : next_inbound_sequence i <> umax 32;
}.

Definition our_hello (i : Implementation) : Hello :=
  {| h_role := local_role i; h_nonce := local_nonce i; h_key := local_key i; h_offer := po_offer (options i) |}.

Definition initiator_of (i : Implementation) (local remote : Hello) : Hello := hello_of Role.kInitiator i local remote.
Definition responder_of (i : Implementation) (local remote : Hello) : Hello := hello_of Role.kResponder i local remote.

Definition started (now_ms : Z) (i : Implementation) : Implementation :=
  (sent i) <| local_hello := Some (our_hello i) |>
           <| state := PairingState.kExchangingHellos |>
           <| first_frame_deadline_ms := due now_ms kFirstPairingFrameTimeoutMs i |>
           <| selection_deadline_ms := due now_ms kSelectionTimeoutMs i |>
           <| idle_deadline_ms := due now_ms kPairingIdleTimeoutMs i |>
           <| last_now_ms := now_ms |>.

Definition greeted (now_ms : Z) (remote : Hello) (selected : Selection) (i : Implementation) : Implementation :=
  i <| remote_hello := Some remote |>
    <| selection := Some selected |>
    <| state := PairingState.kSelecting |>
    <| idle_deadline_ms := due now_ms kPairingIdleTimeoutMs i |>
    <| last_now_ms := now_ms |>.

(** What the two hellos and the selection make. *)
Definition contexted (i : Implementation) (local remote : Hello) (selected : Selection) (ctx : Context) : Prop :=
  exists available negotiation initiator_key responder_key,
    BuildNormalizedNegotiation (initiator_of i local remote) (responder_of i local remote) selected = inr negotiation /\
    h_key (initiator_of i local remote) = Some initiator_key /\ h_key (responder_of i local remote) = Some responder_key /\
    BuildPairingContext available
      {| pi_initiator_nonce := h_nonce (initiator_of i local remote); pi_responder_nonce := h_nonce (responder_of i local remote);
         pi_initiator_key := initiator_key; pi_responder_key := responder_key; pi_negotiation := negotiation |} = inr ctx.

(** What the channel exports for a context: the words shown, and the key of the confirmations. *)
Definition exported (i : Implementation) (ctx : Context) (words : list Z) (confirmation : bytes) : Prop :=
  exists c, channel i = Some c /\
    (exists w1 w2 exporter available sas, ExportPairing c ctx w1 = (w2, Some exporter) /\
       DeriveSasWords available exporter ctx = inr sas /\ words = SecurityProfile.sas_indices sas) /\
    (exists w3 w4, ExportConfirmation c ctx w3 = (w4, Some confirmation)) /\ bsize confirmation = kSha256Size.

Definition prompted (now_ms : Z) (ctx : Context) (words : list Z) (confirmation : bytes) (i : Implementation)
    : Implementation :=
  i <| context := Some ctx |>
    <| sas_indices := words |>
    <| confirmation_exporter := confirmation |>
    <| state := PairingState.kAwaitingDecisions |>
    <| decision_deadline_ms := due now_ms kDecisionTimeoutMs i |>
    <| idle_deadline_ms := due now_ms kPairingIdleTimeoutMs i |>
    <| last_now_ms := now_ms |>.

(** A decision of the peer that the exporter and the context authenticate. *)
Definition confirms (i : Implementation) (ctx : Context) (frame : Frame) : Prop :=
  exists decision available verification, DecodeDecision frame = inr decision /\
    VerifyConfirmation available (confirmation_exporter i) (d_message decision) (d_authenticator decision) ctx
      (OppositeRole (local_role i)) = inr verification /\
    cv_outcome verification = ConfirmationOutcome.kAffirmativeConfirm.

Definition heard_confirm (now_ms : Z) (i : Implementation) : Implementation :=
  i <| peer_confirmed := true |>
    <| idle_deadline_ms := due now_ms kPairingIdleTimeoutMs i |>
    <| last_now_ms := now_ms |>.

(** The calls that may leave an attempt as it is. *)
Definition stays (c : AttemptCall W) : Prop :=
  match c with
  | ASelectionAckWritten _ _ | ADecide _ _ _ | ADecisionWritten _ _ | ACancel _ _ | AAdvance _ => True
  | _ => False
  end.

Inductive transition (i : Implementation) : AttemptCall W -> Implementation -> Prop :=
  | t_stay c now_ms : stays c -> transition i c (at_time now_ms i)
  | t_elsewhere f : transition i (Elsewhere f) i
  | t_start now_ms : state i = PairingState.kPairingTls -> is_Some (local_key i) ->
      transition i (AStart now_ms) (started now_ms (at_time now_ms i))
  | t_hello encoded now_ms frame remote selected : state i = PairingState.kExchangingHellos -> takes i encoded frame ->
      DecodeHello frame (OppositeRole (local_role i)) (channel_key i) = inr remote -> local_key i <> h_key remote ->
      Select (h_offer (initiator_of i (our_hello i) remote)) (h_offer (responder_of i (our_hello i) remote)) = inr selected ->
      transition i (AFrame encoded now_ms)
        (let i' := greeted now_ms remote selected (counted encoded (at_time now_ms i)) in
         match local_role i with Role.kInitiator => sent i' | Role.kResponder => i' end)
  | t_select encoded now_ms frame selected : state i = PairingState.kSelecting -> takes i encoded frame ->
      local_role i = Role.kResponder -> selection i = Some selected -> DecodeSelection frame = inr selected ->
      transition i (AFrame encoded now_ms)
        ((sent (counted encoded (at_time now_ms i))) <| selection_ack_pending := true |> <| last_now_ms := now_ms |>)
  | t_select_ack encoded now_ms frame local remote selected ctx words confirmation : state i = PairingState.kSelecting ->
      takes i encoded frame -> local_role i = Role.kInitiator -> selection i = Some selected ->
      DecodeSelection frame = inr selected -> local_hello i = Some local -> remote_hello i = Some remote ->
      contexted i local remote selected ctx -> exported i ctx words confirmation ->
      transition i (AFrame encoded now_ms)
        (prompted now_ms ctx words confirmation (counted encoded (at_time now_ms i)))
  | t_ack_written candidate now_ms local remote selected ctx words confirmation : state i = PairingState.kSelecting ->
      HandleMatches candidate i = true -> local_role i = Role.kResponder -> selection_ack_pending i = true ->
      selection i = Some selected -> local_hello i = Some local -> remote_hello i = Some remote ->
      contexted i local remote selected ctx -> exported i ctx words confirmation ->
      transition i (ASelectionAckWritten candidate now_ms)
        (prompted now_ms ctx words confirmation
           ((at_time now_ms i) <| selection_ack_pending := false |> <| last_now_ms := now_ms |>))
  | t_decide candidate now_ms : state i = PairingState.kAwaitingDecisions -> HandleMatches candidate i = true ->
      local_decision i = None ->
      transition i (ADecide candidate ConfirmationDecision.kConfirm now_ms)
        ((sent (at_time now_ms i)) <| local_decision := Some ConfirmationDecision.kConfirm |> <| last_now_ms := now_ms |>)
  | t_decision_written candidate now_ms : state i = PairingState.kAwaitingDecisions -> HandleMatches candidate i = true ->
      local_decision i = Some ConfirmationDecision.kConfirm ->
      transition i (ADecisionWritten candidate now_ms)
        ((at_time now_ms i) <| local_decision_written := true |> <| last_now_ms := now_ms |>)
  | t_peer_confirmed encoded now_ms frame ctx : state i = PairingState.kAwaitingDecisions -> takes i encoded frame ->
      context i = Some ctx -> peer_confirmed i = false -> confirms i ctx frame ->
      transition i (AFrame encoded now_ms)
        (heard_confirm now_ms (counted encoded (at_time now_ms i))).

(** Both users confirmed: what [MaybeCommit] waits for. *)
Definition both_confirmed (i : Implementation) : bool :=
  bool_decide (state i = PairingState.kAwaitingDecisions) &&
  bool_decide (local_decision i = Some ConfirmationDecision.kConfirm) && local_decision_written i && peer_confirmed i &&
  bool_decide (is_Some (context i)).

(** ** The commits of a world

    The peers the repository was asked to commit, in order: only [CommitPeer]
    adds one. *)

Class CommitLog := {
  log : W -> list IdentityRepository.PeerCommit;
  log_lease_active : forall l w, log (lease_active l w).1 = log w;
  log_mark_visible : forall l w, log (mark_visible l w).1 = log w;
  log_release_lease : forall l w, log (release_lease l w) = log w;
  log_bind_replay : forall r d now_ms w, log (bind_replay r d now_ms w).1 = log w;
  log_commit_replay : forall r now_ms w, log (commit_replay r now_ms w).1 = log w;
  log_destroy_reservation : forall r w, log (destroy_reservation r w) = log w;
  log_ExportPairing : forall c ctx w, log (ExportPairing c ctx w).1 = log w;
  log_ExportConfirmation : forall c ctx w, log (ExportConfirmation c ctx w).1 = log w;
  log_close_channel : forall c w, log (close_channel c w) = log w;
  log_crypto_available : forall w, log (crypto_available w).1 = log w;
  log_lease_reads : forall l w,
    log (lease_bound l w).1 = log w /\ log (lease_local_role l w).1 = log w /\ log (lease_admitted_at_ms l w).1 = log w /\
    log (lease_window_deadline_ms l w).1 = log w /\ log (lease_local_key l w).1 = log w /\ log (lease_peer_key l w).1 = log w;
  log_reserve_replay : forall key now_ms w, log (reserve_replay key now_ms w).1 = log w;
  log_repository_reads : forall w,
    log (repository_root_public_key w).1 = log w /\ log (repository_ready w).1 = log w;
  log_Fill : forall n w, log (Fill n w).1 = log w;
  log_CommitPeer : forall p w, log (CommitPeer p w).1 = log w ++ [p];
}.
Context {ledger : CommitLog}.

(** What others do is not a commit of this attempt. *)
Definition quiet (c : AttemptCall W) : Prop :=
  match c with Elsewhere f => forall w, log (f w) = log w | _ => True end.

Lemma log_given_back i w : log (given_back i w) = log w.
Proof.
  unfold given_back, FinalizeResources. cbn [snd]. destruct (channel i) as [c |]; cbn [reset]; rewrite ?log_close_channel.
  all: destruct (admission i) as [l |]; cbn [reset]; rewrite ?log_release_lease.
  all: destruct (replay_reservation i) as [r |]; [| done].
  all: pose proof (log_commit_replay r (last_now_ms i) w) as E; destruct (commit_replay r (last_now_ms i) w) as [w' r'];
    by rewrite log_destroy_reservation.
Qed.

Definition call_time (c : AttemptCall W) : option Z :=
  match c with
  | AStart now_ms | AFrame _ now_ms | ASelectionAckWritten _ now_ms | ADecide _ _ now_ms | ADecisionWritten _ now_ms
  | ACancel _ now_ms | AAdvance now_ms => Some now_ms
  | AShutdown | Elsewhere _ => None
  end.

(** The commit an attempt asks for. *)
Definition commit_of (i : Implementation) : IdentityRepository.PeerCommit :=
  {| IdentityRepository.pc_public_key := channel_key i; IdentityRepository.pc_security_profile := kSecurityProfileV1;
     IdentityRepository.pc_display_label := peer_display_label (options i) |}.

(** The resources an attempt holds, and that they are given back: [w'] is the
    world after an attempt with the resources of [i] ended. *)
Definition same_resources (i i' : Implementation) : Prop :=
  channel i' = channel i /\ admission i' = admission i /\ replay_reservation i' = replay_reservation i.

Definition returned (i : Implementation) (w' : W) : Prop :=
  exists i1 w1, same_resources i i1 /\ w' = given_back i1 w1.

(** What a call may do to an attempt that has not ended: end it, with or
    without a commit, or go on as the protocol says, before the deadline. *)
Inductive outcome (i : Implementation) (c : AttemptCall W) (w : W) : Implementation * W * PairingUpdate -> Prop :=
  | o_ends i' w' u : ended i' -> same_setup i i' -> returned i w' -> terminal u = true -> paired_peer u = None ->
      log w' = log w -> outcome i c w (i', w', u)
  | o_goes i' w' u : transition i c i' -> is_terminal i' = false -> terminal u = false -> paired_peer u = None ->
      log w' = log w -> (forall now_ms, call_time c = Some now_ms -> now_ms < deadline i) -> outcome i c w (i', w', u)
  | o_commits i1 i' w' u : transition i c i1 -> both_confirmed i1 = true -> ended i' -> same_setup i i' ->
      returned i w' -> terminal u = true -> log w' = log w ++ [commit_of i1] ->
      (forall now_ms, call_time c = Some now_ms -> now_ms < deadline i) -> outcome i c w (i', w', u).

Lemma same_setup_trans i1 i2 i3 : same_setup i1 i2 -> same_setup i2 i3 -> same_setup i1 i3.
Proof. intros (? & ? & ? & ?) (? & ? & ? & ?). by split_and!; etransitivity. Qed.

Lemma outcome_close i c w error i1 w1 : same_setup i i1 -> same_resources i i1 -> log w1 = log w ->
  outcome i c w (Close error i1 w1).
Proof.
  intros Hs Hr Hl. destruct (Close_spec error i1 w1) as (i' & -> & He & _ & Hs' & _). apply o_ends; try done.
  - by eapply same_setup_trans.
  - by exists i1, w1.
  - by rewrite log_given_back.
Qed.

Lemma both_confirmed_iff i : both_confirmed i = true <->
  state i = PairingState.kAwaitingDecisions /\ local_decision i = Some ConfirmationDecision.kConfirm /\
  local_decision_written i = true /\ peer_confirmed i = true /\ is_Some (context i).
Proof. unfold both_confirmed. rewrite !andb_true_iff, !bool_decide_eq_true. tauto. Qed.

Lemma MaybeCommit_waits i w : both_confirmed i = false -> MaybeCommit i w = (i, w, Update i).
Proof.
  intros B. unfold MaybeCommit. replace (_ || negb (bool_decide (is_Some (context i)))) with true; [done |].
  symmetry. unfold both_confirmed in B. by destruct (bool_decide (state i = _)), (bool_decide (local_decision i = _)),
    (local_decision_written i), (peer_confirmed i), (bool_decide (is_Some (context i))).
Qed.

(** The state while the repository works. *)
Definition committing (i : Implementation) : Implementation :=
  i <| state := PairingState.kReadyToCommit |> <| state := PairingState.kCommitting |>.

Lemma MaybeCommit_commits i w : both_confirmed i = true ->
  MaybeCommit i w =
  let '(w, commit) := CommitPeer (commit_of i) w in
  match commit with
  | None => Close PairingError.kInternalFailure (committing i) w
  | Some device_id => Paired device_id (committing i) w
  end.
Proof.
  intros (E1 & E2 & E3 & E4 & E5)%both_confirmed_iff. unfold MaybeCommit.
  rewrite !bool_decide_eq_true_2, E3, E4 by done. reflexivity.
Qed.

Lemma outcome_maybe_commit i c w i1 w1 : transition i c i1 -> same_setup i i1 -> same_resources i i1 -> is_terminal i1 = false -> log w1 = log w ->
  (forall now_ms, call_time c = Some now_ms -> now_ms < deadline i) -> outcome i c w (MaybeCommit i1 w1).
Proof.
  intros Ht Hs Hr Hn Hl Hd. destruct (both_confirmed i1) eqn:B; [| rewrite MaybeCommit_waits by done; by apply o_goes].
  rewrite MaybeCommit_commits by done. pose proof (log_CommitPeer (commit_of i1) w1) as El.
  destruct (CommitPeer (commit_of i1) w1) as [w2 [d |]]; cbn [fst] in El.
  - destruct (Paired_spec d (committing i1) w2) as (i' & -> & He & _ & Hs'). apply (o_commits _ _ _ i1); try done.
    + by eapply same_setup_trans.
    + by exists (committing i1), w2.
    + by rewrite log_given_back, El, Hl.
  - destruct (Close_spec PairingError.kInternalFailure (committing i1) w2) as (i' & -> & He & _ & Hs' & _).
    apply (o_commits _ _ _ i1); try done.
    + by eapply same_setup_trans.
    + by exists (committing i1), w2.
    + by rewrite log_given_back, El, Hl.
Qed.

Lemma outcome_checked i c w now_ms body : is_terminal i = false -> call_time c = Some now_ms ->
  (forall w1, log w1 = log w -> now_ms < deadline i -> outcome i c w (body (at_time now_ms i) w1)) ->
  outcome i c w (checked now_ms body i w).
Proof.
  intros Hn Hc Hb. unfold checked, CheckDeadline. fold (at_time now_ms i).
  replace (is_terminal (at_time now_ms i)) with (is_terminal i) by reflexivity. rewrite Hn.
  replace (admission_active (at_time now_ms i) w) with (admission_active i w) by reflexivity.
  replace (deadline (at_time now_ms i)) with (deadline i) by reflexivity.
  assert (El : log (admission_active i w).1 = log w).
  { unfold admission_active. destruct (admission i) as [l |]; [apply log_lease_active | done]. }
  destruct (admission_active i w) as [w1 active]. cbn [fst] in El. destruct active; cbn [negb].
  - destruct (now_ms <? deadline i) eqn:D.
    + unfold Update. replace (is_terminal (at_time now_ms i)) with (is_terminal i) by reflexivity. rewrite Hn. apply Hb; [done | lia].
    + destruct (Close_spec PairingError.kTimeout (at_time now_ms i) w1) as (i' & -> & He & _ & Hs & _).
      apply o_ends; try done; [by exists (at_time now_ms i), w1 | by rewrite log_given_back].
  - destruct (Close_spec PairingError.kBusy (at_time now_ms i) w1) as (i' & -> & He & _ & Hs & _).
    apply o_ends; try done; [by exists (at_time now_ms i), w1 | by rewrite log_given_back].
Qed.

(** ** The methods *)

(** An attempt between calls. *)
Record between (i : Implementation) : Prop := {
  bw_terminal : is_terminal i = false;
  bw_states : state i <> PairingState.kReadyToCommit /\ state i <> PairingState.kCommitting;
}.

Ltac closes := apply outcome_close; [first [done | by split_and!] | first [done | by split_and!] | congruence].

Lemma outcome_start now_ms i w : is_terminal i = false -> outcome i (AStart now_ms) w (Start now_ms i w).
Proof.
  intros Hn. apply outcome_checked; [done | done |]. intros w1 Hl Hd. replace (local_key (at_time now_ms i)) with (local_key i) by reflexivity.
  destruct (local_key i) as [key |] eqn:K; [| closes]. destruct (bool_decide_reflect (state (at_time now_ms i) = PairingState.kPairingTls)) as [S | S];
    cbn [negb]; [| closes].
  destruct (_ =? 0); [closes |]. apply o_goes; try done.
  - replace (Some {| h_role := _ |}) with (Some (our_hello (at_time now_ms i))) by (unfold our_hello; cbn; by rewrite K).
    apply t_start; [done | by rewrite K].
  - intros t [= <-]. done.
Qed.

Lemma outcome_export i c w ctx now_ms i1 w1 : same_setup i i1 -> same_resources i i1 -> log w1 = log w -> state i1 = PairingState.kSelecting ->
  context i1 = Some ctx ->
  (forall words confirmation, exported i1 ctx words confirmation -> transition i c (prompted now_ms ctx words confirmation i1)) ->
  (forall t, call_time c = Some t -> t < deadline i) ->
  outcome i c w (ExportSecrets ctx now_ms i1 w1).
Proof.
  intros Hs Hr Hl HS Hc Ht Hd. unfold ExportSecrets. destruct (channel i1) as [ch |] eqn:C; [| closes].
  pose proof (log_ExportPairing ch ctx w1) as E1. destruct (ExportPairing ch ctx w1) as [w2 [exporter |]] eqn:P; cbn [fst] in E1;
    [| closes].
  destruct (bsize exporter =? kSha256Size); cbn [negb]; [| closes].
  pose proof (log_crypto_available w2) as E2. destruct (crypto_available w2) as [w3 available]; cbn [fst] in E2.
  destruct (DeriveSasWords available exporter ctx) as [error | sas] eqn:S; [closes |].
  pose proof (log_ExportConfirmation ch ctx w3) as E3.
  destruct (ExportConfirmation ch ctx w3) as [w4 [confirmation |]] eqn:X; cbn [fst] in E3; [| closes].
  destruct (bsize confirmation =? kSha256Size) eqn:L; cbn [negb]; [| closes].
  apply o_goes; try done; [| congruence].
  replace (i1 <| sas_indices := SecurityProfile.sas_indices sas |>) with
    (i1 <| context := Some ctx |> <| sas_indices := SecurityProfile.sas_indices sas |>) by (destruct i1; cbn in Hc |- *; by rewrite Hc).
  apply (Ht (SecurityProfile.sas_indices sas) confirmation). exists ch. split; [done |]. split; [by exists w1, w2, exporter, available, sas |].
  split; [by exists w3, w4 | lia].
Qed.

Lemma outcome_complete i c w now_ms i1 w1 : same_setup i i1 -> same_resources i i1 -> log w1 = log w -> state i1 = PairingState.kSelecting ->
  (forall local remote selected ctx words confirmation,
     local_hello i1 = Some local -> remote_hello i1 = Some remote -> selection i1 = Some selected ->
     contexted i1 local remote selected ctx -> exported i1 ctx words confirmation ->
     transition i c (prompted now_ms ctx words confirmation i1)) ->
  (forall t, call_time c = Some t -> t < deadline i) ->
  outcome i c w (CompleteSelection now_ms i1 w1).
Proof.
  intros Hs Hr Hl HS Ht Hd. unfold CompleteSelection. destruct (local_hello i1) as [local |] eqn:EL; [| closes].
  destruct (remote_hello i1) as [remote |] eqn:ER; [| closes]. destruct (selection i1) as [sel |] eqn:ES; [| closes].
  destruct (BuildNormalizedNegotiation _ _ _) as [error | negotiation] eqn:N; [closes |].
  destruct (h_key (hello_of Role.kInitiator i1 local remote)) as [ki |] eqn:KI; [| closes].
  destruct (h_key (hello_of Role.kResponder i1 local remote)) as [kr |] eqn:KR; [| closes].
  pose proof (log_crypto_available w1) as E1. destruct (crypto_available w1) as [w2 available]; cbn [fst] in E1.
  destruct (BuildPairingContext _ _) as [error | ctx] eqn:B; [closes |].
  replace (replay_reservation (i1 <| context := Some ctx |>)) with (replay_reservation i1) by reflexivity.
  destruct (replay_reservation i1) as [r |]; [| closes].
  pose proof (log_bind_replay r (cx_digest ctx) now_ms w2) as E2.
  destruct (bind_replay r (cx_digest ctx) now_ms w2) as [w3 error]; cbn [fst] in E2.
  destruct (bool_decide_reflect (error = PairingError.kNone)); cbn [negb]; [| closes].
  replace (admission (i1 <| context := Some ctx |>)) with (admission i1) by reflexivity.
  destruct (admission i1) as [l |]; [| closes].
  pose proof (log_mark_visible l w3) as E3. destruct (mark_visible l w3) as [w4 error']; cbn [fst] in E3.
  destruct (bool_decide_reflect (error' = PairingError.kNone)); cbn [negb]; [| closes].
  apply outcome_export; [done | done | congruence | done | done | | done].
  intros words confirmation Hx. apply (Ht local remote sel ctx words confirmation); try done. by exists available, negotiation, ki, kr.
Qed.

(** A frame that was counted: the rest of the attempt is as before. *)
Record same_but_counts (i i1 : Implementation) : Prop := {
  sc_setup : same_setup i i1;
  sc_resources : same_resources i i1;
  sc_terminal : is_terminal i1 = is_terminal i;
  sc_state : state i1 = state i;
  sc_channel : channel_key i1 = channel_key i;
  sc_local : local_hello i1 = local_hello i;
  sc_remote : remote_hello i1 = remote_hello i;
  sc_selection : selection i1 = selection i;
  sc_context : context i1 = context i;
  sc_confirmed : peer_confirmed i1 = peer_confirmed i;
  sc_exporter : confirmation_exporter i1 = confirmation_exporter i;
}.

Lemma counted_same encoded now_ms i : same_but_counts i (counted encoded (at_time now_ms i)).
Proof. by split; try split_and!. Qed.

Lemma outcome_hello i encoded now_ms w frame w1 i1 : is_terminal i = false -> takes i encoded frame -> log w1 = log w ->
  now_ms < deadline i -> i1 = counted encoded (at_time now_ms i) ->
  outcome i (AFrame encoded now_ms) w (ReceiveHello frame now_ms i1 w1).
Proof.
  intros Hn Ht Hl Hd Ei. destruct (counted_same encoded now_ms i) as [Hs Hr EN ES EK _ ER _ _ _ _]. rewrite <- Ei in *.
  pose proof Hs as (EO & EL & EY & EA). assert (Hn1 : is_terminal i1 = false) by (by rewrite EN).
  unfold ReceiveHello. rewrite ES, EL, EK.
  destruct (bool_decide_reflect (state i = PairingState.kExchangingHellos)) as [S | S]; cbn [negb orb]; [| closes].
  destruct (bool_decide _); [closes |]. destruct (DecodeHello _ _ _) as [error | hello] eqn:D; [closes |].
  destruct (bool_decide_reflect (local_key i1 = h_key hello)) as [K | K]; [closes |].
  set (i2 := i1 <| remote_hello := Some hello |>).
  assert (EL2 : local_role i2 = local_role i) by exact EL. assert (EO2 : options i2 = options i) by exact EO.
  cbv zeta. rewrite EL2, EO2. destruct (Select _ _) as [error | selected] eqn:E; [closes |].
  assert (T : transition i (AFrame encoded now_ms) (let i' := greeted now_ms hello selected i1 in
    match local_role i with Role.kInitiator => sent i' | Role.kResponder => i' end)).
  { rewrite Ei. eapply t_hello; try done; [by rewrite <- EY | rewrite <- E]. unfold initiator_of, responder_of, hello_of.
    by destruct (local_role i). }
  set (i3 := i2 <| selection := Some selected |> <| state := PairingState.kSelecting |>
    <| idle_deadline_ms := Earlier (absolute_deadline_ms i2) (CheckedDeadline now_ms kPairingIdleTimeoutMs) |>
    <| last_now_ms := now_ms |>).
  assert (EL3 : local_role i3 = local_role i) by exact EL. fold i3. rewrite EL3. cbv zeta in T.
  destruct (local_role i).
  - destruct (_ =? 0); [closes |]. apply o_goes; try done. by intros t [= <-].
  - apply o_goes; try done. by intros t [= <-].
Qed.

Lemma outcome_selection i encoded now_ms w frame w1 i1 : is_terminal i = false -> takes i encoded frame -> log w1 = log w ->
  now_ms < deadline i -> i1 = counted encoded (at_time now_ms i) ->
  outcome i (AFrame encoded now_ms) w (ReceiveSelection frame now_ms i1 w1).
Proof.
  intros Hn Ht Hl Hd Ei. destruct (counted_same encoded now_ms i) as [Hs Hr EN ES EK _ ER EX _ _ _]. rewrite <- Ei in *.
  assert (Hd' : forall t, call_time (AFrame (W := W) encoded now_ms) = Some t -> t < deadline i) by (by intros t [= <-]).
  pose proof Hs as (EO & EL & EY & EA). assert (Hn1 : is_terminal i1 = false) by (by rewrite EN).
  unfold ReceiveSelection. rewrite EX. destruct (selection i) as [sel |] eqn:E; [| closes].
  rewrite ES, EL. destruct (bool_decide_reflect (state i = PairingState.kSelecting)) as [S | S]; cbn [negb]; [| closes].
  destruct (negb _ && negb _) eqn:B; [closes |]. destruct (DecodeSelection frame) as [error | received] eqn:D; [closes |].
  destruct (bool_decide_reflect (received = sel)) as [-> | Hne]; cbn [negb]; [| destruct (VersionLess _ _); closes].
  destruct (local_role i) eqn:R.
  - apply outcome_complete; [done | done | done | by rewrite ES | | done].
    intros local remote sel' ctx words confirmation E1 E2 E3 Hc Hx. assert (sel' = sel) as -> by congruence. subst i1.
    by apply (t_select_ack _ _ _ frame local remote sel).
  - destruct (_ =? 0); [closes |]. apply o_goes; try done. subst i1. by apply (t_select _ _ _ frame sel).
Qed.

Lemma outcome_decision i encoded now_ms w frame w1 i1 : is_terminal i = false -> takes i encoded frame -> log w1 = log w ->
  now_ms < deadline i -> i1 = counted encoded (at_time now_ms i) ->
  outcome i (AFrame encoded now_ms) w (ReceiveDecision frame now_ms i1 w1).
Proof.
  intros Hn Ht Hl Hd Ei. destruct (counted_same encoded now_ms i) as [Hs Hr EN ES _ _ _ _ EC EP EX]. rewrite <- Ei in *.
  pose proof Hs as (EO & EL & EY & EA). assert (Hn1 : is_terminal i1 = false) by (by rewrite EN).
  unfold ReceiveDecision. rewrite EC. destruct (context i) as [ctx |] eqn:C; [| closes].
  rewrite ES, EP. destruct (bool_decide_reflect (state i = PairingState.kAwaitingDecisions)) as [S | S]; cbn [negb orb]; [| closes].
  destruct (peer_confirmed i) eqn:P; [closes |]. destruct (DecodeDecision frame) as [error | decision] eqn:D; [closes |].
  pose proof (log_crypto_available w1) as E1. destruct (crypto_available w1) as [w2 available]; cbn [fst] in E1.
  rewrite EX, EL. destruct (VerifyConfirmation _ _ _ _ _ _) as [error | v] eqn:V; [closes |].
  destruct (cv_outcome v) eqn:O; [closes |].
  apply outcome_maybe_commit; [| done | done | done | congruence | by intros t [= <-]].
  assert (T : transition i (AFrame encoded now_ms) (heard_confirm now_ms i1)); [| exact T].
  rewrite Ei. apply (t_peer_confirmed _ _ _ frame ctx); try done. by exists decision, available, v.
Qed.

Lemma outcome_frame i encoded now_ms w : is_terminal i = false ->
  outcome i (AFrame encoded now_ms) w (ReceiveFrame encoded now_ms i w).
Proof.
  intros Hn. apply outcome_checked; [done | done |]. intros w1 Hl Hd. remember (at_time now_ms i) as i1 eqn:Ei.
  assert (Hs : same_setup i i1) by (subst i1; by split_and!). assert (Hr : same_resources i i1) by (subst i1; by split_and!).
  destruct (bool_decide _); [closes |]. destruct (_ || _) eqn:B; [closes |]. apply orb_false_iff in B as [B1 B2].
  destruct (ParseFrame encoded) as [error | frame] eqn:P; [closes |].
  set (i2 := i1 <| inbound_frames := _ |> <| inbound_bytes := _ |>).
  cbv zeta. destruct (negb (fr_sequence frame =? next_inbound_sequence i2) || _) eqn:Q; [closes |]. apply orb_false_iff in Q as [Q1 Q2].
  assert (Ht : takes i encoded frame).
  { assert (E1 : inbound_frames i1 = inbound_frames i) by by rewrite Ei. assert (E2 : inbound_bytes i1 = inbound_bytes i) by by rewrite Ei.
    assert (E3 : next_inbound_sequence i2 = next_inbound_sequence i) by (unfold i2; by rewrite Ei).
    rewrite E1 in B1. rewrite E2 in B2. rewrite E3 in Q1, Q2. split; [lia | lia | done | lia | lia]. }
  set (i3 := i2 <| next_inbound_sequence := _ |>).
  assert (E3 : i3 = counted encoded (at_time now_ms i)) by (unfold i3, i2; by rewrite <- Ei).
  assert (Hs3 : same_setup i i3) by exact Hs. assert (Hr3 : same_resources i i3) by exact Hr. clearbody i3. destruct (fr_type frame).
  - by apply outcome_hello.
  - by apply outcome_selection.
  - by apply outcome_selection.
  - by apply outcome_decision.
  - unfold ReceiveAbort. destruct (DecodeAbort frame); try closes.
    cbv zeta. do 3 (destruct (ReadU16 (nth_value frame 0) =? _); [closes |]). closes.
Qed.

(** A call with another handle changes nothing. *)
Lemma outcome_handle i c w now_ms candidate body w1 : stays c -> is_terminal i = false -> log w1 = log w ->
  (forall t, call_time c = Some t -> t < deadline i) ->
  (HandleMatches candidate i = true -> outcome i c w (body (at_time now_ms i) w1)) ->
  outcome i c w (for_handle candidate body (at_time now_ms i) w1).
Proof.
  intros Hst Hn Hl Hd Hb. unfold for_handle. replace (HandleMatches candidate (at_time now_ms i)) with (HandleMatches candidate i) by reflexivity.
  destruct (HandleMatches candidate i); cbn [negb]; [by apply Hb |]. apply o_goes; try done. by apply t_stay.
Qed.

Lemma outcome_ack_written i candidate now_ms w : is_terminal i = false ->
  outcome i (ASelectionAckWritten candidate now_ms) w (LocalSelectionAckWritten candidate now_ms i w).
Proof.
  intros Hn. apply outcome_checked; [done | done |]. intros w1 Hl Hd. apply outcome_handle; [done | done | done | by intros t [= <-] |].
  intros Hh. destruct (_ || _) eqn:B; [closes |]. apply orb_false_iff in B as [B B3]. apply orb_false_iff in B as [B1 B2].
  apply negb_false_iff, bool_decide_eq_true in B1, B2. apply negb_false_iff in B3.
  apply outcome_complete; [by split_and! | by split_and! | done | done | | by intros t [= <-]].
  intros local remote sel ctx words confirmation E1 E2 E3 Hc Hx. by apply (t_ack_written _ _ _ local remote sel).
Qed.

Lemma outcome_decide i candidate decision now_ms w : is_terminal i = false ->
  outcome i (ADecide candidate decision now_ms) w (Decide candidate decision now_ms i w).
Proof.
  intros Hn. apply outcome_checked; [done | done |]. intros w1 Hl Hd. apply outcome_handle; [done | done | done | by intros t [= <-] |].
  intros Hh. set (i1 := at_time now_ms i). replace (context i1) with (context i) by reflexivity.
  destruct (context i) as [ctx |] eqn:EC; [| closes].
  destruct (bool_decide_reflect (state i1 = PairingState.kAwaitingDecisions)) as [S | S]; cbn [negb]; [| closes].
  replace (local_decision i1) with (local_decision i) by reflexivity. destruct (local_decision i) as [former |] eqn:EL.
  { apply o_goes; try done; [by apply t_stay | by destruct (bool_decide _) | by destruct (bool_decide _) | by intros t [= <-]]. }
  pose proof (log_crypto_available w1) as E1. destruct (crypto_available w1) as [w2 available]; cbn [fst] in E1.
  destruct (BuildConfirmation _ _ _ _ _) as [error | confirmation]; [closes |]. destruct (_ =? 0); [closes |].
  destruct decision.
  - destruct (Close_spec PairingError.kLocalReject (i1 <| local_decision := Some ConfirmationDecision.kReject |>
      <| next_outbound_sequence := uadd 32 (next_outbound_sequence (i1 <| local_decision := Some ConfirmationDecision.kReject |>)) 1 |>) w2)
      as (i' & -> & He & _ & Hs & _). apply o_ends; try done; [eexists _, w2; split; [| reflexivity]; by split_and! | by rewrite log_given_back, E1].
  - apply o_goes; try done; [by apply t_decide | congruence | by intros t [= <-]].
Qed.

Lemma outcome_decision_written i candidate now_ms w : is_terminal i = false ->
  outcome i (ADecisionWritten candidate now_ms) w (LocalDecisionWritten candidate now_ms i w).
Proof.
  intros Hn. apply outcome_checked; [done | done |]. intros w1 Hl Hd. apply outcome_handle; [done | done | done | by intros t [= <-] |].
  intros Hh. destruct (_ || _) eqn:B; [closes |]. apply orb_false_iff in B as [B1 B2].
  apply negb_false_iff, bool_decide_eq_true in B1, B2.
  apply outcome_maybe_commit; [by apply t_decision_written | by split_and! | by split_and! | done | done | by intros t [= <-]].
Qed.

(** Every call of an attempt that has not ended has an outcome. *)
Lemma call_outcome c i w : is_terminal i = false -> quiet c -> outcome i c w (call c i w).
Proof.
  intros Hn Hq. destruct c; cbn [call].
  - by apply outcome_start.
  - by apply outcome_frame.
  - by apply outcome_ack_written.
  - by apply outcome_decide.
  - by apply outcome_decision_written.
  - apply outcome_checked; [done | done |]. intros w1 Hl Hd. apply outcome_handle; [done | done | done | by intros t [= <-] |].
    intros _. destruct (Close_spec PairingError.kCancelled (at_time now_ms i) w1) as (i' & -> & He & _ & Hs & _).
    apply o_ends; try done; [by exists (at_time now_ms i), w1 | by rewrite log_given_back].
  - replace (Advance now_ms i w) with (checked now_ms (fun i w => (i, w, Update i)) i w).
    + apply outcome_checked; [done | done |]. intros w1 Hl Hd. apply o_goes; try done; [by apply t_stay | by intros t [= <-]].
    + unfold checked, Advance, CheckDeadline. fold (at_time now_ms i). replace (is_terminal (at_time now_ms i)) with (is_terminal i) by reflexivity.
      rewrite Hn. replace (admission_active (at_time now_ms i) w) with (admission_active i w) by reflexivity.
      destruct (admission_active i w) as [w1 []]; cbn [negb]; [| done]. destruct (_ <? _); [| done].
      unfold Update. replace (is_terminal (at_time now_ms i)) with (is_terminal i) by reflexivity. by rewrite Hn.
  - unfold Shutdown. rewrite Hn. closes.
  - apply o_goes; try done. apply t_elsewhere.
Qed.

(** ** Creation *)

(** An attempt as [Create] hands it out. *)
Record created (opts : PairingAttemptOptions) (i : Implementation) : Prop := {
  ct_state : state i = PairingState.kPairingTls;
  ct_held : is_Some (channel i) /\ is_Some (admission i) /\ is_Some (replay_reservation i);
  ct_reserved : exists key now_ms w1 w2 r, reserve_replay key now_ms w1 = (w2, Some r) /\ replay_reservation i = Some r;
  ct_key : exists key, local_key i = Some key /\ ValidateEd25519PublicKey key = inr key /\ key <> channel_key i;
  ct_options : options i = opts;
  ct_offer : ValidateOffer (po_offer opts) = PairingError.kNone;
  ct_secrets : AllZero (handle i) = false /\ AllZero (local_nonce i) = false;
  ct_nothing : local_hello i = None /\ remote_hello i = None /\ selection i = None /\ context i = None;
  ct_undecided : local_decision i = None /\ local_decision_written i = false /\ peer_confirmed i = false /\
    selection_ack_pending i = false;
  ct_counters : next_outbound_sequence i = 1 /\ next_inbound_sequence i = 1 /\ inbound_frames i = 0 /\ inbound_bytes i = 0;
  ct_deadline : exists admitted_at_ms window_deadline_ms,
    last_now_ms i = admitted_at_ms /\ absolute_deadline_ms i <= window_deadline_ms /\
    absolute_deadline_ms i <= CheckedDeadline admitted_at_ms kCompletePairingTimeoutMs;
}.

Lemma FillSecrets_spec i w w' i' : FillSecrets i w = (w', Some i') ->
  log w' = log w /\ exists filled_handle filled_nonce,
    i' = i <| handle := filled_handle |> <| local_nonce := filled_nonce |> /\
    AllZero filled_handle = false /\ AllZero filled_nonce = false.
Proof.
  unfold FillSecrets. pose proof (log_Fill kAttemptHandleSize w) as E1.
  destruct (Fill kAttemptHandleSize w) as [w1 [h |]]; cbn [fst] in E1; [| done].
  pose proof (log_Fill 32 w1) as E2. destruct (Fill 32 w1) as [w2 [n |]]; cbn [fst] in E2; [| done].
  destruct (AllZero h) eqn:Z1, (AllZero n) eqn:Z2; cbn [orb]; try done. intros [= <- <-].
  split; [congruence |]. by exists h, n.
Qed.

Lemma Create_spec c lease opts w w' i u : Create c lease opts w = (w', Some i, u) -> created opts i /\ log w' = log w.
Proof.
  unfold Create. pose proof (log_repository_reads w) as [E1 _]. destruct (repository_root_public_key w) as [w1 key]; cbn [fst] in E1.
  pose proof (log_repository_reads w1) as [_ E2]. destruct (repository_ready w1) as [w2 ready]; cbn [fst] in E2.
  destruct key as [key |], c as [ch |], lease as [ls |]; try done. destruct ready; cbn [negb]; [| done].
  pose proof (log_lease_active ls w2) as E3. destruct (lease_active ls w2) as [w3 active]; cbn [fst] in E3. destruct active; cbn [negb]; [| done].
  pose proof (log_lease_reads ls w3) as (E4 & _). destruct (lease_bound ls w3) as [w4 bound]; cbn [fst] in E4. destruct bound; cbn [negb]; [| done].
  pose proof (log_lease_reads ls w4) as (_ & E5 & _). destruct (lease_local_role ls w4) as [w5 role]; cbn [fst] in E5.
  pose proof (log_lease_reads ls w5) as (_ & _ & E6 & _). destruct (lease_admitted_at_ms ls w5) as [w6 admitted]; cbn [fst] in E6.
  pose proof (log_lease_reads ls w6) as (_ & _ & _ & E7 & _). destruct (lease_window_deadline_ms ls w6) as [w7 window]; cbn [fst] in E7.
  destruct (_ || negb (bool_decide (ValidateOffer _ = _))) eqn:B; [done |]. apply orb_false_iff in B as [_ B].
  apply negb_false_iff, bool_decide_eq_true in B.
  destruct (ValidateEd25519PublicKey key) as [| validated] eqn:V; [done |].
  assert (validated = key) as ->.
  { revert V. unfold ValidateEd25519PublicKey. repeat (case_match; try done). by intros [= <-]. }
  pose proof (log_lease_reads ls w7) as (_ & _ & _ & _ & E8 & _). destruct (lease_local_key ls w7) as [w8 expected]; cbn [fst] in E8.
  destruct (same_bytes key expected); cbn [negb]; [| done].
  pose proof (log_lease_reads ls w8) as (_ & _ & _ & _ & _ & E9). destruct (lease_peer_key ls w8) as [w9 expected_peer]; cbn [fst] in E9.
  destruct (_ || same_bytes key (peer_public_key ch)) eqn:K; [done |]. apply orb_false_iff in K as [_ K]. apply same_bytes_false in K.
  pose proof (log_lease_reads ls w9) as (_ & _ & _ & _ & _ & E10). destruct (lease_peer_key ls w9) as [w10 reserved_key]; cbn [fst] in E10.
  pose proof (log_reserve_replay reserved_key admitted w10) as E11.
  destruct (reserve_replay reserved_key admitted w10) as [w11 [reservation |]] eqn:ER; cbn [fst] in E11; [| done].
  destruct (FillSecrets _ w11) as [w12 [made |]] eqn:F; [| done]. apply FillSecrets_spec in F as [E12 (h & n & -> & Zh & Zn)].
  intros [= <- <- _]. split; [| congruence]. split; try done; try (by split_and!); [by exists reserved_key, admitted, w10, w11, reservation | by exists key |].
  exists admitted, window. split; [done |]. cbn. unfold Earlier. lia.
Qed.

(** A member of an attempt, computed once. *)
Ltac member f x :=
  let v := eval cbn in (f x) in let E := fresh "E" in assert (E : f x = v) by reflexivity; revert E.

(** ** The invariant of an attempt *)

Section History.
Context (i0 : Implementation) (w0 : W).

(** What an attempt that goes on still holds. *)
Record held (i : Implementation) : Prop := {
  hd_channel : channel i = channel i0;
  hd_admission : admission i = admission i0;
  hd_replay : replay_reservation i = replay_reservation i0;
  hd_handle : handle i = handle i0;
  hd_nonce : local_nonce i = local_nonce i0;
  hd_setup : same_setup i0 i;
}.

Lemma transition_held i c i' : transition i c i' -> held i -> held i'.
Proof.
  intros T [Hc Ha Hr Hh Hn (Ho & Hl & Hk & Hd)]. destruct T; try (split; try done; by split_and!).
  case (local_role i); split; try done; by split_and!.
Qed.

Lemma transition_setup i c i' : transition i c i' -> same_setup i i'.
Proof. intros T. destruct T; try by split_and!. case (local_role i); by split_and!. Qed.

(** A hello of the peer was received. *)
Definition heard (hist : list (AttemptCall W)) (remote : Hello) : Prop :=
  exists encoded now_ms frame, AFrame encoded now_ms ∈ hist /\ ParseFrame encoded = inr frame /\
    DecodeHello frame (OppositeRole (local_role i0)) (channel_key i0) = inr remote /\ local_key i0 <> h_key remote.

(** Both sides compute the selection from the two hellos. *)
Definition agreed (hist : list (AttemptCall W)) (remote : Hello) (selected : Selection) : Prop :=
  heard hist remote /\
  Select (h_offer (initiator_of i0 (our_hello i0) remote)) (h_offer (responder_of i0 (our_hello i0) remote)) = inr selected.

(** This user confirmed when the attempt had the context. *)
Definition chose (hist : list (AttemptCall W)) (ctx : Context) : Prop :=
  exists before now_ms after, hist = before ++ ADecide (handle i0) ConfirmationDecision.kConfirm now_ms :: after /\
    context (run before i0 w0).1 = Some ctx.

(** The confirmation was written to the peer: after this user gave it. *)
Definition wrote (hist : list (AttemptCall W)) (ctx : Context) : Prop :=
  exists before now_ms after, hist = before ++ ADecisionWritten (handle i0) now_ms :: after /\ chose before ctx.

(** A confirmation of the peer was received when the attempt had the context and
    the secret exported for it, and [RequireTrustCommit] permits the commit on it. *)
Definition permitted (hist : list (AttemptCall W)) (ctx : Context) (exporter : bytes) : Prop :=
  exists before encoded now_ms after frame decision available verification,
    hist = before ++ AFrame encoded now_ms :: after /\
    context (run before i0 w0).1 = Some ctx /\ confirmation_exporter (run before i0 w0).1 = exporter /\
    ParseFrame encoded = inr frame /\ DecodeDecision frame = inr decision /\
    RequireTrustCommit available exporter (d_message decision) (d_authenticator decision) ctx
      (OppositeRole (local_role i0)) ConfirmationDecision.kConfirm = inr verification /\
    cv_trust_commit_permitted verification = true.

Definition undecided (i : Implementation) : Prop :=
  local_decision i = None /\ local_decision_written i = false /\ peer_confirmed i = false.

(** What is known of an attempt in each of its states. *)
Definition stage (hist : list (AttemptCall W)) (i : Implementation) : Prop :=
  match state i with
  | PairingState.kPairingTls => undecided i
  | PairingState.kExchangingHellos => local_hello i = Some (our_hello i0) /\ undecided i
  | PairingState.kSelecting =>
      exists remote selected, local_hello i = Some (our_hello i0) /\ remote_hello i = Some remote /\
    selection i = Some selected /\ agreed hist remote selected /\ undecided i
  | PairingState.kAwaitingDecisions =>
      exists remote selected ctx words, agreed hist remote selected /\ contexted i0 (our_hello i0) remote selected ctx /\
    context i = Some ctx /\ exported i0 ctx words (confirmation_exporter i) /\
    (local_decision i = Some ConfirmationDecision.kConfirm -> chose hist ctx) /\
    (local_decision_written i = true -> wrote hist ctx) /\
    (peer_confirmed i = true -> permitted hist ctx (confirmation_exporter i))
  | _ => False
  end.

Lemma agreed_more hist c remote selected : agreed hist remote selected -> agreed (hist ++ [c]) remote selected.
Proof.
  intros [(e & t & fr & Hin & H1) H2]. split; [| done]. exists e, t, fr. split; [| done]. apply list.elem_of_app. by left.
Qed.

Lemma chose_more hist c ctx : chose hist ctx -> chose (hist ++ [c]) ctx.
Proof. intros (b & t & a & -> & H1). exists b, t, (a ++ [c]). by rewrite <- app_assoc. Qed.

Lemma wrote_more hist c ctx : wrote hist ctx -> wrote (hist ++ [c]) ctx.
Proof. intros (b & t & a & -> & H1). exists b, t, (a ++ [c]). by rewrite <- app_assoc. Qed.

Lemma permitted_more hist c ctx exporter : permitted hist ctx exporter -> permitted (hist ++ [c]) ctx exporter.
Proof.
  intros (b & e & t & af & fr & d & a & v & -> & H1). exists b, e, t, (af ++ [c]), fr, d, a, v. by rewrite <- app_assoc.
Qed.
Hint Resolve agreed_more chose_more wrote_more permitted_more : core.

Lemma elem_of_last (hist : list (AttemptCall W)) c : c ∈ hist ++ [c].
Proof. apply list.elem_of_app. right. by apply list_elem_of_singleton. Qed.

(** The hellos and the context do not depend on what changes. *)
Lemma held_hello i : held i -> our_hello i = our_hello i0.
Proof. intros [_ _ _ _ Hn (Ho & Hl & Hk & _)]. unfold our_hello. by rewrite Ho, Hl, Hk, Hn. Qed.

Lemma held_contexted i local remote selected ctx : held i -> contexted i local remote selected ctx ->
  contexted i0 local remote selected ctx.
Proof.
  intros [_ _ _ _ _ (_ & Hl & _)]. unfold contexted, initiator_of, responder_of, hello_of. by rewrite Hl.
Qed.

Lemma held_exported i ctx words confirmation : held i -> exported i ctx words confirmation -> exported i0 ctx words confirmation.
Proof. intros [Hc _ _ _ _ _]. unfold exported. by rewrite Hc. Qed.

Lemma HandleMatches_eq candidate i : held i -> HandleMatches candidate i = true -> candidate = handle i0.
Proof. intros [_ _ _ Hh _ _] [E%same_bytes_true _]%andb_prop. by rewrite E. Qed.

Lemma confirms_permitted hist i encoded now_ms frame ctx : i = (run hist i0 w0).1 -> held i -> context i = Some ctx -> ParseFrame encoded = inr frame -> confirms i ctx frame ->
  permitted (hist ++ [AFrame encoded now_ms]) ctx (confirmation_exporter i).
Proof.
  intros Hi [_ _ _ _ _ (_ & Hl & _)] Hctx Hp (d & available & v & Hd & Hv & Ho).
  assert (Hc : cv_decision v = ConfirmationDecision.kConfirm).
  { revert Hv Ho. unfold VerifyConfirmation. repeat (case_match; try done); by intros [= <-]. }
  exists hist, encoded, now_ms, [], frame, d, available. eexists. rewrite <- Hi. split; [done |]. split; [done |].
  split; [done |]. split; [done |]. split; [done |].
  unfold RequireTrustCommit. rewrite <- Hl, Hv, Hc. by split.
Qed.

(** What [stage] says is about the members below: the new attempt is replaced by
    any with these members. *)
Ltac by_members :=
  match goal with
  | |- stage _ ?x =>
      member state x; member local_hello x; member remote_hello x; member selection x; member PairingAttempt.context x;
      member confirmation_exporter x; member local_decision x; member local_decision_written x; member peer_confirmed x;
      generalize x; intros ? E9 E8 E7 E6 E5 E4 E3 E2 E1; unfold stage, undecided;
      rewrite E1, ?E2, ?E3, ?E4, ?E5, ?E6, ?E7, ?E8, ?E9
  end.

Lemma stage_same hist c i i' : stage hist i ->
  state i' = state i -> local_hello i' = local_hello i -> remote_hello i' = remote_hello i -> selection i' = selection i ->
  context i' = context i -> confirmation_exporter i' = confirmation_exporter i -> local_decision i' = local_decision i ->
  local_decision_written i' = local_decision_written i -> peer_confirmed i' = peer_confirmed i ->
  stage (hist ++ [c]) i'.
Proof.
  intros Hs E1 E2 E3 E4 E5 E6 E7 E8 E9. unfold stage, undecided in *. rewrite E1, E2, E3, E4, E5, E6, E7, E8, E9.
  destruct (state i); try done.
  - destruct Hs as (remote & selected & H1 & H2 & H3 & H4 & H5). exists remote, selected. split_and!; try apply H5; auto.
  - destruct Hs as (remote & selected & ctx & words & H1 & H2 & H3 & H4 & H5 & H6 & H7). exists remote, selected, ctx, words.
    split_and!; auto.
Qed.

Lemma stage_start hist c i now_ms : held i -> stage hist i -> state i = PairingState.kPairingTls ->
  stage (hist ++ [c]) (started now_ms (at_time now_ms i)).
Proof.
  intros Hh Hs HS. unfold stage in Hs. rewrite HS in Hs. by_members.
  split; [| exact Hs]. f_equal. exact (held_hello i Hh).
Qed.

Lemma stage_hello hist i encoded now_ms frame remote selected : held i -> stage hist i ->
  state i = PairingState.kExchangingHellos -> takes i encoded frame ->
  DecodeHello frame (OppositeRole (local_role i)) (channel_key i) = inr remote -> local_key i <> h_key remote ->
  Select (h_offer (initiator_of i (our_hello i) remote)) (h_offer (responder_of i (our_hello i) remote)) = inr selected ->
  stage (hist ++ [AFrame encoded now_ms])
    (let i' := greeted now_ms remote selected (counted encoded (at_time now_ms i)) in
     match local_role i with Role.kInitiator => sent i' | Role.kResponder => i' end).
Proof.
  intros Hh Hs HS HT HD HK HX. unfold stage in Hs. rewrite HS in Hs. destruct Hs as [H1 H2].
  pose proof (held_hello i Hh) as E. pose proof Hh as [Hc _ _ _ _ (_ & Hl & Hk & _)].
  assert (HA : agreed (hist ++ [AFrame encoded now_ms]) remote selected).
  { split.
    - exists encoded, now_ms, frame. split; [apply elem_of_last |]. split; [apply HT |]. rewrite <- Hl, <- Hk.
      unfold channel_key in *. by rewrite <- Hc.
    - rewrite <- HX. unfold initiator_of, responder_of, hello_of. by rewrite E, Hl. }
  destruct H2 as (U1 & U2 & U3). cbv zeta.
  case (local_role i); by_members; exists remote, selected; by split_and!.
Qed.

Lemma stage_prompt hist c i i1 now_ms local remote selected ctx words confirmation : held i -> stage hist i ->
  state i = PairingState.kSelecting -> selection i = Some selected -> local_hello i = Some local ->
  remote_hello i = Some remote -> contexted i local remote selected ctx -> exported i ctx words confirmation ->
  local_decision i1 = local_decision i -> local_decision_written i1 = local_decision_written i ->
  peer_confirmed i1 = peer_confirmed i ->
  stage (hist ++ [c]) (prompted now_ms ctx words confirmation i1).
Proof.
  intros Hh Hs HS HX HL HM HC HE D1 D2 D3. unfold stage in Hs. rewrite HS in Hs.
  destruct Hs as (remote' & selected' & H1 & H2 & H3 & H4 & U1 & U2 & U3).
  assert (local = our_hello i0) as -> by congruence. assert (remote' = remote) as -> by congruence.
  assert (selected' = selected) as -> by congruence. by_members. rewrite D1, D2, D3, U1, U2, U3.
  exists remote, selected, ctx, words. split; [auto |]. split; [by apply (held_contexted i) |]. split; [done |].
  split; [by apply (held_exported i) | done].
Qed.

(** A step of the decisions: what it learns holds of the context of the attempt. *)
Lemma stage_decision hist c i i' : stage hist i -> state i = PairingState.kAwaitingDecisions ->
  state i' = state i -> context i' = context i -> confirmation_exporter i' = confirmation_exporter i ->
  (forall ctx, context i = Some ctx -> local_decision i' = Some ConfirmationDecision.kConfirm ->
     local_decision i = Some ConfirmationDecision.kConfirm \/ chose (hist ++ [c]) ctx) ->
  (forall ctx, context i = Some ctx -> local_decision_written i' = true ->
     local_decision_written i = true \/ wrote (hist ++ [c]) ctx) ->
  (forall ctx, context i = Some ctx -> peer_confirmed i' = true ->
     peer_confirmed i = true \/ permitted (hist ++ [c]) ctx (confirmation_exporter i)) ->
  stage (hist ++ [c]) i'.
Proof.
  intros Hs HS E1 E5 E6 Hd Hw Hp. unfold stage in *. rewrite E1, E5, E6. rewrite HS in *.
  destruct Hs as (remote & selected & ctx & words & H1 & H2 & H3 & H4 & H5 & H6 & H7). exists remote, selected, ctx, words.
  split; [auto |]. split; [done |]. split; [done |]. split; [done |]. split_and!.
  - intros H0. destruct (Hd ctx H3 H0); auto.
  - intros H0. destruct (Hw ctx H3 H0); auto.
  - intros H0. destruct (Hp ctx H3 H0); auto.
Qed.

Lemma stage_transition hist c i i' : i = (run hist i0 w0).1 ->
  held i -> is_terminal i = false -> stage hist i -> transition i c i' -> stage (hist ++ [c]) i'.
Proof.
  intros Hi Hh Hn Hs T.
  destruct T as [c now_ms HC | f | now_ms HS HK | encoded now_ms frame remote selected HS HT HD HK HX |
    encoded now_ms frame selected HS HT HR HX HD | encoded now_ms frame local remote selected ctx words confirmation HS HT HR HX HD HL HM HC HE |
    candidate now_ms local remote selected ctx words confirmation HS HH HR HA HX HL HM HC HE |
    candidate now_ms HS HH HD | candidate now_ms HS HH HD | encoded now_ms frame ctx HS HT HC HP HF].
  - by apply (stage_same hist c i).
  - by apply (stage_same hist _ i).
  - by apply stage_start.
  - by apply (stage_hello _ _ _ _ frame).
  - by apply (stage_same hist _ i).
  - by apply (stage_prompt _ _ i _ _ local remote selected).
  - by apply (stage_prompt _ _ i _ _ local remote selected).
  - apply HandleMatches_eq in HH as ->; [| done]. apply (stage_decision hist _ i); try done; [| by left | by left].
    intros ctx Hc _. right. exists hist, now_ms, []. split; [done | congruence].
  - apply HandleMatches_eq in HH as ->; [| done]. apply (stage_decision hist _ i); try done; [by left | | by left].
    intros ctx Hc _. right. exists hist, now_ms, []. split; [done |]. unfold stage in Hs. rewrite HS in Hs.
    destruct Hs as (remote & selected & ctx' & words & _ & _ & H3 & _ & H5 & _). assert (ctx' = ctx) as -> by congruence. auto.
  - apply (stage_decision hist _ i); try done; [by left | by left |].
    intros ctx' Hc _. right. assert (ctx' = ctx) as -> by congruence. 
    by apply (confirms_permitted hist i encoded now_ms frame ctx Hi Hh HC (tk_parsed _ _ _ HT)).
Qed.

(** ** The commit has the evidence *)

(** What lies behind a commit: the peer's hello and the selection of both, the
    context they make, this user's confirmation given when the attempt had that
    context, its writing to the peer after that, and the peer's confirmation of
    the same context, received when the attempt had it, under the exported secret. *)
Record evidence (hist : list (AttemptCall W)) (commit : IdentityRepository.PeerCommit) : Prop := {
  ev_commit : commit = commit_of i0;
  ev_confirmed : exists remote selected ctx words exporter,
    agreed hist remote selected /\ contexted i0 (our_hello i0) remote selected ctx /\ exported i0 ctx words exporter /\
    wrote hist ctx /\ permitted hist ctx exporter;
}.

Lemma evidence_more hist c commit : evidence hist commit -> evidence (hist ++ [c]) commit.
Proof.
  intros [E (remote & selected & ctx & words & exporter & H1 & H2 & H3 & H4 & H5)]. split; [done |].
  exists remote, selected, ctx, words, exporter. split_and!; auto.
Qed.

Lemma commit_evidence hist i : held i -> stage hist i -> both_confirmed i = true -> evidence hist (commit_of i).
Proof.
  intros Hh Hs (E1 & E2 & E3 & E4 & _)%both_confirmed_iff. split.
  - destruct Hh as [Hc _ _ _ _ (Ho & _)]. unfold commit_of, channel_key. by rewrite Hc, Ho.
  - unfold stage in Hs. rewrite E1 in Hs. destruct Hs as (remote & selected & ctx & words & H1 & H2 & H3 & H4 & H5 & H6 & H7).
    exists remote, selected, ctx, words, (confirmation_exporter i). split_and!; auto.
Qed.

(** An attempt that ended stays as it is; only the clock is noted. *)
Lemma ended_call c i w : ended i -> exists i',
  (call c i w).1.1 = i' /\ ended i' /\ state i' = state i /\ same_setup i i' /\
  (call c i w).1.2 = match c with Elsewhere f => f w | _ => w end /\
  terminal (call c i w).2 = true /\ outbound_frame (call c i w).2 = [] /\ up_prompt (call c i w).2 = None /\
  paired_peer (call c i w).2 = None /\ up_state (call c i w).2 = state i.
Proof.
  intros He. pose proof (ed_state i He) as Ht.
  assert (Hc : forall now_ms, CheckDeadline now_ms i w = (at_time now_ms i, w, Update (at_time now_ms i))).
  { intros now_ms. unfold CheckDeadline. fold (at_time now_ms i).
    replace (is_terminal (at_time now_ms i)) with (is_terminal i) by reflexivity. by rewrite Ht. }
  assert (Hk : forall now_ms body, checked now_ms body i w = (at_time now_ms i, w, Update (at_time now_ms i))).
  { intros now_ms body. unfold checked. rewrite Hc. unfold Update. cbn [terminal].
    replace (is_terminal (at_time now_ms i)) with (is_terminal i) by reflexivity. by rewrite Ht. }
  assert (He' : forall now_ms, ended (at_time now_ms i)) by (intros now_ms; destruct He; by split).
  assert (Hq : forall now_ms, terminal (Update (at_time now_ms i)) = true) by (intros now_ms; exact Ht).
  destruct c; cbn [call]; unfold Start, ReceiveFrame, LocalSelectionAckWritten, Decide, LocalDecisionWritten, Cancel; rewrite ?Hk.
  1-6: eexists; split; [reflexivity |]; split; [apply He' |]; by split_and!.
  - unfold Advance. rewrite Hc. eexists. split; [reflexivity |]. split; [apply He' |]. by split_and!.
  - unfold Shutdown. rewrite Ht. eexists. split; [reflexivity |]. split; [done |]. by split_and!.
  - eexists. split; [reflexivity |]. split; [done |]. by split_and!.
Qed.

(** What holds of an attempt after any calls. *)
Definition attempt_ok (hist : list (AttemptCall W)) : Prop :=
  let '(i, w) := run hist i0 w0 in
  (is_terminal i = false /\ held i /\ stage hist i /\ log w = log w0) \/
  (ended i /\ same_setup i0 i /\ (log w = log w0 \/ exists commit, log w = log w0 ++ [commit] /\ evidence hist commit)).

Lemma attempt_ok_run opts hist : created opts i0 -> Forall quiet hist -> attempt_ok hist.
Proof.
  intros Hc. induction hist as [| c hist IH] using rev_ind; intros Hq; unfold attempt_ok.
  - left. cbn. destruct Hc as [HS _ _ _ _ _ _ _ (U1 & U2 & U3 & _) _ _]. unfold is_terminal, stage, undecided. rewrite HS. by split_and!.
  - apply list.Forall_app in Hq as [Hq Hqc]. apply list.Forall_cons in Hqc as [Hqc _]. specialize (IH Hq).
    unfold attempt_ok in IH. rewrite run_snoc. destruct (run hist i0 w0) as [i w] eqn:R. cbn [fst snd].
    destruct IH as [(Hn & Hh & Hs & Hl) | (He & Hset & Hl)].
    + pose proof (call_outcome c i w Hn Hqc) as Ho. pose proof (fun i' => stage_transition hist c i i' ltac:(by rewrite R)) as ST.
      destruct (call c i w) as [[i' w'] u]. cbn [fst]. inversion Ho as [i1 w1 u1 He Hset _ _ _ El | i1 w1 u1 T Hn' _ _ El _ | i1 i2 w1 u1 T B He Hset _ _ El _]; subst.
      * right. split; [done |]. split; [eapply same_setup_trans; [apply Hh | done] |]. left. congruence.
      * left. split; [done |]. split; [by apply (transition_held i c) |]. split; [by apply ST | congruence].
      * right. split; [done |]. split; [eapply same_setup_trans; [apply Hh | done] |]. right. exists (commit_of i1). split; [congruence |].
        apply commit_evidence; [by apply (transition_held i c) | by apply ST | done].
    + destruct (ended_call c i w He) as (i' & E1 & He' & _ & Hset' & E2 & _). destruct (call c i w) as [[i1 w1] u]. cbn [fst snd] in *.
      subst i1. right. split; [done |]. split; [by eapply same_setup_trans |].
      assert (El : log w1 = log w) by (rewrite E2; destruct c; try done; by apply Hqc).
      destruct Hl as [Hl | (commit & Hl & Hev)]; [left; congruence | right]. exists commit. split; [congruence |]. by apply evidence_more.
Qed.

End History.

(** The call after which an attempt still goes on was a step of the protocol,
    before the deadline. *)
Lemma run_goes_on i0 w0 hist c opts : created opts i0 -> Forall quiet (hist ++ [c]) ->
  is_terminal (run (hist ++ [c]) i0 w0).1 = false ->
  is_terminal (run hist i0 w0).1 = false /\ transition (run hist i0 w0).1 c (run (hist ++ [c]) i0 w0).1 /\
  absolute_deadline_ms (run hist i0 w0).1 = absolute_deadline_ms i0 /\
  (forall now_ms, call_time c = Some now_ms -> now_ms < deadline (run hist i0 w0).1).
Proof.
  intros Hc [Hq [Hqc _]%list.Forall_cons]%list.Forall_app. pose proof (attempt_ok_run i0 w0 opts hist Hc Hq) as Hok.
  unfold attempt_ok in Hok. rewrite run_snoc. destruct (run hist i0 w0) as [i w]. cbn [fst snd].
  destruct Hok as [(Hn & [_ _ _ _ _ (_ & _ & _ & Ha)] & _) | (He & _)].
  - pose proof (call_outcome c i w Hn Hqc) as Ho. destruct (call c i w) as [[i' w'] u]. cbn [fst]. intros Hn'. split; [done |].
    inversion Ho as [? ? ? He | | ? ? ? ? _ _ He]; subst; try done; destruct He; congruence.
  - destruct (ended_call c i w He) as (i' & E & He' & _). destruct (call c i w) as [[i1 w1] u]. cbn [fst] in *. subst i1.
    intros Hn. destruct He'. congruence.
Qed.

(** ** Deadlines *)

Lemma CheckedDeadline_min base duration : CheckedDeadline base duration = Z.min (umax 64) (base + duration).
Proof. unfold CheckedDeadline. destruct (_ >? _) eqn:E; bool_facts; lia. Qed.

Definition in_state (s : PairingState.PairingState) (i : Implementation) : bool := bool_decide (state i = s).

Section Deadlines.
Context (i0 : Implementation) (w0 : W).

(** The call at [t] is the one that made [P] true of the attempt. *)
Definition becomes (P : Implementation -> bool) (hist : list (AttemptCall W)) (t : Z) : Prop :=
  exists before c after, hist = before ++ c :: after /\ call_time c = Some t /\
    P (run before i0 w0).1 = false /\ P (run (before ++ [c]) i0 w0).1 = true.

Lemma becomes_more P hist c t : becomes P hist t -> becomes P (hist ++ [c]) t.
Proof. intros (b & d & a & -> & H1). exists b, d, (a ++ [c]). by rewrite <- app_assoc. Qed.

Lemma becomes_now P hist c t i i' : call_time c = Some t -> i = (run hist i0 w0).1 -> i' = (run (hist ++ [c]) i0 w0).1 ->
  P i = false -> P i' = true -> becomes P (hist ++ [c]) t.
Proof. intros Ht -> -> H1 H2. exists hist, c, []. by split_and!. Qed.

(** The timers that run in each state, and the moments they were started at. *)
Definition timely (hist : list (AttemptCall W)) (i : Implementation) : Prop :=
  match state i with
  | PairingState.kPairingTls => peer_confirmed i = false
  | PairingState.kExchangingHellos => peer_confirmed i = false /\
      exists s, becomes (in_state PairingState.kExchangingHellos) hist s /\
        first_frame_deadline_ms i = due s kFirstPairingFrameTimeoutMs i0 /\
        selection_deadline_ms i = due s kSelectionTimeoutMs i0 /\ idle_deadline_ms i = due s kPairingIdleTimeoutMs i0
  | PairingState.kSelecting => peer_confirmed i = false /\
      exists s g, becomes (in_state PairingState.kExchangingHellos) hist s /\
        becomes (in_state PairingState.kSelecting) hist g /\
        selection_deadline_ms i = due s kSelectionTimeoutMs i0 /\ idle_deadline_ms i = due g kPairingIdleTimeoutMs i0
  | PairingState.kAwaitingDecisions =>
      exists p, becomes (in_state PairingState.kAwaitingDecisions) hist p /\
        decision_deadline_ms i = due p kDecisionTimeoutMs i0 /\
        (if peer_confirmed i
         then exists h, becomes peer_confirmed hist h /\ h < due p kPairingIdleTimeoutMs i0 /\
                idle_deadline_ms i = due h kPairingIdleTimeoutMs i0
         else idle_deadline_ms i = due p kPairingIdleTimeoutMs i0)
  | _ => False
  end.

Lemma timely_same hist c i i' : timely hist i -> state i' = state i -> peer_confirmed i' = peer_confirmed i ->
  first_frame_deadline_ms i' = first_frame_deadline_ms i -> selection_deadline_ms i' = selection_deadline_ms i ->
  decision_deadline_ms i' = decision_deadline_ms i -> idle_deadline_ms i' = idle_deadline_ms i -> timely (hist ++ [c]) i'.
Proof.
  unfold timely. intros Ht -> -> -> -> -> ->. destruct (state i); try done.
  - destruct Ht as (Hc & t & H1 & H2). split; [done |]. exists t. split; [by apply becomes_more | done].
  - destruct Ht as (Hc & s & g & H1 & H2 & H3). split; [done |]. exists s, g.
    split; [by apply becomes_more |]. split; [by apply becomes_more | done].
  - destruct Ht as (p & H1 & H2 & H3). exists p. split; [by apply becomes_more |]. split; [done |].
    destruct (peer_confirmed i); [| done]. destruct H3 as (h & H3 & H4). exists h. split; [by apply becomes_more | done].
Qed.

(** The exact deadline of an attempt, from the moments it came on:
    five seconds after the start for the hello of the peer; ten seconds after
    the start, and thirty after the hello, for the selection; thirty seconds
    after the prompt for the confirmation of the peer, and thirty after that for
    this user; never after the deadline of the attempt. *)
Definition limited (hist : list (AttemptCall W)) (i : Implementation) : Prop :=
  match state i with
  | PairingState.kPairingTls => deadline i = absolute_deadline_ms i0
  | PairingState.kExchangingHellos =>
      exists s, becomes (in_state PairingState.kExchangingHellos) hist s /\
        deadline i = due s kFirstPairingFrameTimeoutMs i0
  | PairingState.kSelecting =>
      exists s g, becomes (in_state PairingState.kExchangingHellos) hist s /\
        becomes (in_state PairingState.kSelecting) hist g /\
        deadline i = Earlier (due s kSelectionTimeoutMs i0) (due g kPairingIdleTimeoutMs i0)
  | PairingState.kAwaitingDecisions =>
      exists p, becomes (in_state PairingState.kAwaitingDecisions) hist p /\
        (if peer_confirmed i
         then exists h, becomes peer_confirmed hist h /\ h < due p kPairingIdleTimeoutMs i0 /\
                deadline i = due h kPairingIdleTimeoutMs i0
         else deadline i = due p kPairingIdleTimeoutMs i0)
  | _ => False
  end.

Lemma timely_limited hist i : absolute_deadline_ms i = absolute_deadline_ms i0 -> timely hist i ->
  limited hist i /\ deadline i <= absolute_deadline_ms i0.
Proof.
  unfold timely, limited, deadline. intros ->. destruct (state i); try done; unfold due, Earlier,
    kFirstPairingFrameTimeoutMs, kSelectionTimeoutMs, kPairingIdleTimeoutMs, kDecisionTimeoutMs.
  - intros (_ & s & H1 & -> & -> & ->). rewrite !CheckedDeadline_min. split; [| lia]. exists s.
    rewrite CheckedDeadline_min. split; [done | lia].
  - intros (_ & s & g & H1 & H2 & -> & ->). rewrite !CheckedDeadline_min. split; [| lia]. exists s, g.
    rewrite !CheckedDeadline_min. split; [done |]. split; [done | lia].
  - intros (p & H1 & -> & H3). rewrite CheckedDeadline_min. split; [| lia]. exists p. split; [done |].
    rewrite CheckedDeadline_min in H3 |- *. destruct (peer_confirmed i); [| lia].
    destruct H3 as (h & H3 & H4 & ->). exists h. rewrite !CheckedDeadline_min. split; [done |]. lia.
Qed.

Lemma held_due t timeout i : absolute_deadline_ms i = absolute_deadline_ms i0 -> due t timeout i = due t timeout i0.
Proof. unfold due. by intros ->. Qed.

(** [timely] speaks of the state and the timers only. *)
Ltac by_timers :=
  match goal with
  | |- timely _ ?x =>
      member state x; member first_frame_deadline_ms x; member selection_deadline_ms x; member decision_deadline_ms x;
      member idle_deadline_ms x; member peer_confirmed x;
      generalize x; intros ? E6 E5 E4 E3 E2 E1; unfold timely; rewrite E1, ?E2, ?E3, ?E4, ?E5, ?E6
  end.

Lemma timely_started hist now_ms i : absolute_deadline_ms i = absolute_deadline_ms i0 -> peer_confirmed i = false ->
  becomes (in_state PairingState.kExchangingHellos) (hist ++ [AStart now_ms]) now_ms ->
  timely (hist ++ [AStart now_ms]) (started now_ms i).
Proof.
  intros Ha Hc Hb. by_timers. split; [done |]. exists now_ms. split; [done |]. by rewrite !(fun t d => held_due t d i Ha).
Qed.

Lemma timely_greeted hist c now_ms remote selected i s : absolute_deadline_ms i = absolute_deadline_ms i0 ->
  peer_confirmed i = false -> becomes (in_state PairingState.kExchangingHellos) (hist ++ [c]) s ->
  becomes (in_state PairingState.kSelecting) (hist ++ [c]) now_ms ->
  selection_deadline_ms i = due s kSelectionTimeoutMs i0 ->
  timely (hist ++ [c]) (greeted now_ms remote selected i) /\ timely (hist ++ [c]) (sent (greeted now_ms remote selected i)).
Proof.
  intros Ha Hc Hs Hg Hd. split; by_timers; (split; [done |]; exists s, now_ms; split; [done |]; split; [done |]; split; [done |]);
    by rewrite !(fun t d => held_due t d i Ha).
Qed.

Lemma timely_prompted hist c now_ms ctx words confirmation i : absolute_deadline_ms i = absolute_deadline_ms i0 ->
  peer_confirmed i = false -> becomes (in_state PairingState.kAwaitingDecisions) (hist ++ [c]) now_ms ->
  timely (hist ++ [c]) (prompted now_ms ctx words confirmation i).
Proof.
  intros Ha Hc Hb. by_timers. rewrite Hc. exists now_ms. split; [done |]. by rewrite !(fun t d => held_due t d i Ha).
Qed.

Lemma timely_confirmed hist c now_ms i p : absolute_deadline_ms i = absolute_deadline_ms i0 ->
  state i = PairingState.kAwaitingDecisions -> becomes (in_state PairingState.kAwaitingDecisions) (hist ++ [c]) p ->
  decision_deadline_ms i = due p kDecisionTimeoutMs i0 -> becomes peer_confirmed (hist ++ [c]) now_ms ->
  now_ms < due p kPairingIdleTimeoutMs i0 -> timely (hist ++ [c]) (heard_confirm now_ms i).
Proof.
  intros Ha HS Hp Hd Hb Hlt. by_timers. rewrite HS. exists p. split; [done |]. split; [done |]. exists now_ms.
  split; [done |]. split; [done |]. by rewrite !(fun t d => held_due t d i Ha).
Qed.

Lemma timely_transition hist c i i' : i = (run hist i0 w0).1 -> i' = (run (hist ++ [c]) i0 w0).1 ->
  absolute_deadline_ms i = absolute_deadline_ms i0 -> (forall now_ms, call_time c = Some now_ms -> now_ms < deadline i) ->
  timely hist i -> transition i c i' -> timely (hist ++ [c]) i'.
Proof.
  intros Hi Hi' Ha Hlt Hs T.
  assert (Hb : forall P t, call_time c = Some t -> P i = false -> P i' = true -> becomes P (hist ++ [c]) t)
    by (intros P t Ht; by apply (becomes_now P hist c t i i')).
  assert (Hst : forall s s' t, call_time c = Some t -> state i = s -> state i' = s' -> s <> s' ->
    becomes (in_state s') (hist ++ [c]) t).
  { intros s s' t Ht E E' Hne. apply Hb; [done | |]; unfold in_state; [apply bool_decide_eq_false; congruence | by apply bool_decide_eq_true]. }
  pose proof (timely_limited hist i Ha Hs) as [Hl _]. unfold timely in Hs. unfold limited in Hl. clear Hi Hi'.
  destruct T as [c now_ms HC | f | now_ms HS HK | encoded now_ms frame remote selected HS HT HD HK HX |
    encoded now_ms frame selected HS HT HR HX HD | encoded now_ms frame local remote selected ctx words confirmation HS HT HR HX HD HL HM HC HE |
    candidate now_ms local remote selected ctx words confirmation HS HH HR HA HX HL HM HC HE |
    candidate now_ms HS HH HD | candidate now_ms HS HH HD | encoded now_ms frame ctx HS HT HC HP HF].
  - by apply (timely_same hist c i).
  - by apply (timely_same hist _ i).
  - rewrite HS in Hs. apply timely_started; [exact Ha | exact Hs |]. by apply (Hst PairingState.kPairingTls).
  - rewrite HS in Hs. destruct Hs as (Hp & s & H1 & _ & H2 & _).
    destruct (timely_greeted hist (AFrame encoded now_ms) now_ms remote selected (counted encoded (at_time now_ms i)) s Ha Hp)
      as [G1 G2]; [by apply becomes_more | | exact H2 |].
    { apply (Hst PairingState.kExchangingHellos); try done. by destruct (local_role i). }
    cbv zeta. clear Hb Hst. case (local_role i); [exact G2 | exact G1].
  - by apply (timely_same hist _ i).
  - rewrite HS in Hs. destruct Hs as (Hp & _). apply timely_prompted; [exact Ha | exact Hp |]. by apply (Hst PairingState.kSelecting).
  - rewrite HS in Hs. destruct Hs as (Hp & _). apply timely_prompted; [exact Ha | exact Hp |]. by apply (Hst PairingState.kSelecting).
  - by apply (timely_same hist _ i).
  - by apply (timely_same hist _ i).
  - rewrite HS in Hs, Hl. rewrite HP in Hs, Hl. destruct Hs as (p & H1 & H2 & H3).
    apply (timely_confirmed _ _ _ _ p); [exact Ha | exact HS | by apply becomes_more | exact H2 | by apply Hb |].
    specialize (Hlt now_ms eq_refl). unfold deadline in Hlt. rewrite HS, Ha, H2, H3 in Hlt. unfold Earlier, due in *. lia.
Qed.

Lemma timely_run hist opts : created opts i0 -> Forall quiet hist ->
  is_terminal (run hist i0 w0).1 = false -> timely hist (run hist i0 w0).1.
Proof.
  intros Hc. induction hist as [| c hist IH] using rev_ind; intros Hq Hn.
  - unfold timely. cbn. rewrite (ct_state _ _ Hc). by destruct (ct_undecided _ _ Hc) as (_ & _ & ? & _).
  - apply (run_goes_on i0 w0 hist c opts) in Hn as (Hn & T & Ha & Hlt); [| done | done]. apply list.Forall_app in Hq as [Hq _].
    by apply (timely_transition hist c _ _ eq_refl eq_refl Ha Hlt (IH Hq Hn)).
Qed.

End Deadlines.

(** ** Frames *)

(** The frames among the calls, and their bytes. *)
Definition frames (hist : list (AttemptCall W)) : list bytes :=
  omap (fun c => match c with AFrame encoded _ => Some encoded | _ => None end) hist.

Definition total (l : list bytes) : Z := fold_right (fun encoded n => bsize encoded + n) 0 l.

Lemma frames_snoc hist c : frames (hist ++ [c]) = frames hist ++ (match c with AFrame encoded _ => [encoded] | _ => [] end).
Proof. unfold frames. rewrite omap_app. cbn. by destruct c. Qed.

Lemma total_app l k : total (l ++ k) = total l + total k.
Proof. unfold total. induction l as [| x l IH]; [done |]. cbn [app fold_right]. lia. Qed.

(** The frames so far: within the limits, and numbered from one. *)
Record in_sequence (hist : list (AttemptCall W)) (i : Implementation) : Prop := {
  is_count : inbound_frames i = Z.of_nat (length (frames hist)) /\ inbound_frames i <= kMaxInboundPairingFrames;
  is_bytes : inbound_bytes i = total (frames hist) /\ 0 <= inbound_bytes i <= kMaxInboundPairingBytes;
  is_next : next_inbound_sequence i = Z.of_nat (length (frames hist)) + 1;
  is_numbers : forall k encoded, frames hist !! k = Some encoded ->
    exists frame, ParseFrame encoded = inr frame /\ fr_sequence frame = Z.of_nat k + 1;
}.

Lemma in_sequence_same hist c i i' : in_sequence hist i -> frames (hist ++ [c]) = frames hist ->
  inbound_frames i' = inbound_frames i -> inbound_bytes i' = inbound_bytes i ->
  next_inbound_sequence i' = next_inbound_sequence i -> in_sequence (hist ++ [c]) i'.
Proof. intros [H1 H2 H3 H4] E E1 E2 E3. split; rewrite ?E, ?E1, ?E2, ?E3; done. Qed.

Lemma in_sequence_frame hist encoded now_ms frame i i' : in_sequence hist i -> takes i encoded frame ->
  inbound_frames i' = uadd 64 (inbound_frames i) 1 -> inbound_bytes i' = uadd 64 (inbound_bytes i) (bsize encoded) ->
  next_inbound_sequence i' = uadd 32 (next_inbound_sequence i) 1 -> in_sequence (hist ++ [AFrame encoded now_ms]) i'.
Proof.
  intros [[N1 N2] [B1 B2] Q HN] [T1 T2 T3 T4 _] E1 E2 E3.
  unfold kMaxInboundPairingFrames, kMaxInboundPairingBytes in *.
  assert (U : usub 64 65536 (inbound_bytes i) = 65536 - inbound_bytes i) by (apply usub_small; widths; lia).
  rewrite U in T2. assert (0 <= bsize encoded) by (unfold bsize; lia).
  rewrite uadd_small in E1 by (widths; lia). rewrite uadd_small in E2 by (widths; lia). rewrite uadd_small in E3 by (widths; lia).
  assert (HL : length (frames (hist ++ [AFrame encoded now_ms])) = S (length (frames hist))).
  { rewrite frames_snoc, length_app. cbn. lia. }
  split.
  - rewrite HL, E1. unfold kMaxInboundPairingFrames. lia.
  - rewrite frames_snoc, total_app, E2. unfold kMaxInboundPairingBytes. cbn [total fold_right]. lia.
  - rewrite HL, E3. lia.
  - intros k e. rewrite frames_snoc. intros Hk. destruct (decide (k < length (frames hist))%nat) as [Hlt | Hge].
    + rewrite lookup_app_l in Hk by done. by apply HN.
    + rewrite lookup_app_r in Hk by lia. apply list_lookup_singleton_Some in Hk as [Hk <-].
      exists frame. split; [done |]. rewrite T4, Q. lia.
Qed.

Lemma in_sequence_transition hist c i i' : in_sequence hist i -> transition i c i' -> in_sequence (hist ++ [c]) i'.
Proof.
  intros Hs T.
  destruct T as [c now_ms HC | f | now_ms HS HK | encoded now_ms frame remote selected HS HT HD HK HX |
    encoded now_ms frame selected HS HT HR HX HD | encoded now_ms frame local remote selected ctx words confirmation HS HT HR HX HD HL HM HC HE |
    candidate now_ms local remote selected ctx words confirmation HS HH HR HA HX HL HM HC HE |
    candidate now_ms HS HH HD | candidate now_ms HS HH HD | encoded now_ms frame ctx HS HT HC HP HF].
  - apply (in_sequence_same hist c i); try done. rewrite frames_snoc. destruct c; try done; apply app_nil_r.
  - apply (in_sequence_same hist _ i); try done. rewrite frames_snoc. apply app_nil_r.
  - apply (in_sequence_same hist _ i); try done. rewrite frames_snoc. apply app_nil_r.
  - cbv zeta. case (local_role i); by apply (in_sequence_frame _ _ _ frame i).
  - by apply (in_sequence_frame _ _ _ frame i).
  - by apply (in_sequence_frame _ _ _ frame i).
  - apply (in_sequence_same hist _ i); try done. rewrite frames_snoc. apply app_nil_r.
  - apply (in_sequence_same hist _ i); try done. rewrite frames_snoc. apply app_nil_r.
  - apply (in_sequence_same hist _ i); try done. rewrite frames_snoc. apply app_nil_r.
  - by apply (in_sequence_frame _ _ _ frame i).
Qed.

Lemma in_sequence_run i0 w0 hist opts : created opts i0 -> Forall quiet hist ->
  is_terminal (run hist i0 w0).1 = false -> in_sequence hist (run hist i0 w0).1.
Proof.
  intros Hc. induction hist as [| c hist IH] using rev_ind; intros Hq Hn.
  - destruct Hc as [_ _ _ _ _ _ _ _ _ (_ & N & F & B) _]. cbn. split; rewrite ?N, ?F, ?B; done.
  - apply (run_goes_on i0 w0 hist c opts) in Hn as (Hn & T & _); [| done | done]. apply list.Forall_app in Hq as [Hq _].
    by apply (in_sequence_transition hist c _ _ (IH Hq Hn)).
Qed.

(** ** The theorems *)

(** C2: Whatever calls and frames an attempt meets and whatever others do
    meanwhile, the repository is asked to commit at most one peer for it, the
    one with the key of the channel, and only after: a hello of that key; the
    selection both sides compute from the two hellos; the context made of them;
    this user's confirmation, given when the attempt had that context, and then,
    after it, its writing to the peer; and a confirmation of the peer, received
    when the attempt had the context and the secret exported for it, on which
    the security profile permits the commit. *)
Theorem commit_requires_both c lease opts w w0 i0 u calls :
  Create c lease opts w = (w0, Some i0, u) -> Forall quiet calls ->
  let w' := (run calls i0 w0).2 in
  log w' = log w \/ exists commit, log w' = log w ++ [commit] /\ evidence i0 w0 calls commit.
Proof.
  intros [Hc El]%Create_spec Hq. pose proof (attempt_ok_run i0 w0 opts calls Hc Hq) as Hok. unfold attempt_ok in Hok.
  cbv zeta. destruct (run calls i0 w0) as [i w1]. cbn [snd]. rewrite <- El.
  destruct Hok as [(_ & _ & _ & Hl) | (_ & _ & Hl)]; [by left | done].
Qed.

(** C38: An attempt that has ended holds nothing: no channel, no admission, no
    reservation, no secret, no context and no decision; no later call changes
    that, touches the world, sends a frame or shows a prompt. *)
Theorem ended_attempt_inert c lease opts w w0 i0 u calls call_ :
  Create c lease opts w = (w0, Some i0, u) -> Forall quiet calls ->
  let i := (run calls i0 w0).1 in
  let w' := (run calls i0 w0).2 in
  is_terminal i = true -> ended i /\ ended (call call_ i w').1.1 /\ state (call call_ i w').1.1 = state i /\
    (call call_ i w').1.2 = (match call_ with Elsewhere f => f w' | _ => w' end) /\
    outbound_frame (call call_ i w').2 = [] /\ up_prompt (call call_ i w').2 = None /\
    paired_peer (call call_ i w').2 = None /\ terminal (call call_ i w').2 = true.
Proof.
  intros [Hc El]%Create_spec Hq i w' Ht. pose proof (attempt_ok_run i0 w0 opts calls Hc Hq) as Hok. unfold attempt_ok in Hok.
  unfold i, w' in *. destruct (run calls i0 w0) as [i1 w1]. cbn [fst snd] in *.
  destruct Hok as [(Hn & _) | (He & _)]; [congruence |]. split; [done |].
  destruct (ended_call call_ i1 w1 He) as (i' & E & He' & ES & _ & E1 & E2 & E3 & E4 & E5 & _). rewrite E. by split_and!.
Qed.

(** C18: An attempt ends in time. Its deadline is, exactly: the one it was
    created with (at most two minutes after the admission) until it starts; then
    five seconds after the start, until the hello of the peer is taken; then ten
    seconds after the start or thirty after that hello, the earlier, until the
    prompt; then thirty seconds after the prompt, until the peer confirms; then
    thirty seconds after that confirmation; and never later than the one it was
    created with. Any call at the deadline or after it ends the attempt. So the
    ten seconds run from the start and not from the hello, and the ninety
    seconds of the decision are never reached: with a prompt at [p] the deadline
    is at most sixty seconds after [p]. *)
Theorem attempt_ends_in_time c lease opts w w0 i0 u calls call_ now_ms :
  Create c lease opts w = (w0, Some i0, u) -> Forall quiet calls -> quiet call_ ->
  let i := (run calls i0 w0).1 in
  is_terminal i = false ->
  limited i0 w0 calls i /\ deadline i <= absolute_deadline_ms i0 /\
  absolute_deadline_ms i0 <= CheckedDeadline (last_now_ms i0) kCompletePairingTimeoutMs /\
  (call_time call_ = Some now_ms -> deadline i <= now_ms -> ended (call call_ i (run calls i0 w0).2).1.1).
Proof.
  intros [Hc El]%Create_spec Hq Hqc i Hn. pose proof (timely_run i0 w0 calls opts Hc Hq Hn) as Ht.
  pose proof (attempt_ok_run i0 w0 opts calls Hc Hq) as Hok. unfold attempt_ok in Hok. fold i in Ht.
  assert (Ha : absolute_deadline_ms i = absolute_deadline_ms i0).
  { unfold i in *. destruct (run calls i0 w0) as [i1 w1]. cbn [fst] in *.
    destruct Hok as [(_ & [_ _ _ _ _ (_ & _ & _ & Ha)] & _) | (_ & (_ & _ & _ & Ha) & _)]; exact Ha. }
  apply timely_limited in Ht as [Hl Hd]; [| done]. split; [done |]. split; [done |]. split.
  { destruct (ct_deadline _ _ Hc) as (admitted & window & E & _ & H2). by rewrite E. }
  intros Et Hnow. pose proof (call_outcome call_ i (run calls i0 w0).2 Hn Hqc) as Ho. destruct (call call_ i _) as [[i' w'] u']. cbn [fst].
  inversion Ho as [? ? ? He | ? ? ? _ _ _ _ _ Hlt | ? ? ? ? _ _ He]; subst; try done. specialize (Hlt _ Et). lia.
Qed.

(** C39: While an attempt goes on, the frames it was given are at most sixteen
    and at most 65536 bytes together, each is a frame of the pairing protocol,
    and they are numbered from one without a gap. *)
Theorem frames_in_sequence c lease opts w w0 i0 u calls :
  Create c lease opts w = (w0, Some i0, u) -> Forall quiet calls -> is_terminal (run calls i0 w0).1 = false ->
  Z.of_nat (length (frames calls)) <= kMaxInboundPairingFrames /\ total (frames calls) <= kMaxInboundPairingBytes /\
  forall k encoded, frames calls !! k = Some encoded ->
    exists frame, ParseFrame encoded = inr frame /\ fr_sequence frame = Z.of_nat k + 1.
Proof.
  intros [Hc El]%Create_spec Hq Hn. destruct (in_sequence_run i0 w0 calls opts Hc Hq Hn) as [[N1 N2] [B1 B2] _ HN].
  split; [lia |]. split; [lia | done].
Qed.

End Runs.

(** ** An attempt of an example *)

Module PairingAttemptExample.
Import Ed25519Points SecurityProfileExample SessionWireExample.
#[local] Existing Instance example_crypto.

(** A device: its part, its key, the key of the device at the other end, the
    byte its random bytes are made of, and the commits of its repository.  No
    call of it fails. *)
Record Device := {
  dv_role : Role.Role;
  dv_key : bytes;
  dv_peer : bytes;
  dv_random : Z;
  dv_commits : list IdentityRepository.PeerCommit;
}.

Definition device_commits (commit : IdentityRepository.PeerCommit) (w : Device) : Device :=
  {| dv_role := dv_role w; dv_key := dv_key w; dv_peer := dv_peer w; dv_random := dv_random w;
     dv_commits := dv_commits w ++ [commit] |}.

#[export] Instance device_environment : PairingEnvironment Device := {
  lease_active _ w := (w, true);
  lease_bound _ w := (w, true);
  lease_local_role _ w := (w, dv_role w);
  lease_admitted_at_ms _ w := (w, 1000);
  lease_window_deadline_ms _ w := (w, 61000);
  lease_local_key _ w := (w, dv_key w);
  lease_peer_key _ w := (w, dv_peer w);
  mark_visible _ w := (w, PairingError.kNone);
  release_lease _ w := w;
  reserve_replay _ _ w := (w, Some 1);
  bind_replay _ _ _ w := (w, PairingError.kNone);
  commit_replay _ _ w := (w, 0);
  destroy_reservation _ w := w;
  ExportPairing _ _ w := (w, Some (repeat 1 32));
  ExportConfirmation _ _ w := (w, Some (repeat 2 32));
  close_channel _ w := w;
  repository_root_public_key w := (w, Some (dv_key w));
  repository_ready w := (w, true);
  CommitPeer commit w := (device_commits commit w, Some (repeat 5 32));
  Fill n w := (w, Some (repeat (dv_random w) (Z.to_nat n)));
  crypto_available w := (w, true);
}.

#[export] Instance device_log : CommitLog.
Proof. by refine {| log := dv_commits |}. Defined.

Definition initiator : Device :=
  {| dv_role := Role.kInitiator; dv_key := base_point; dv_peer := opposite_point; dv_random := 7; dv_commits := [] |}.
Definition responder : Device :=
  {| dv_role := Role.kResponder; dv_key := opposite_point; dv_peer := base_point; dv_random := 9; dv_commits := [] |}.

Definition channel_to (w : Device) : PairingChannel := {| ch_number := 1; peer_public_key := dv_peer w |}.
Definition lease_of : Admission.PairingAdmissionLease :=
  {| Admission.ls_connection_id := repeat 1 16; Admission.ls_generation := 1 |}.
Definition options_with (offer : NegotiationOffer) : PairingAttemptOptions := {| po_offer := offer; peer_display_label := [] |}.

(** The new attempt of a device. *)
Definition attempt_of (offer : NegotiationOffer) (w : Device) : Implementation :=
  (new_attempt (channel_to w) lease_of 1 (options_with offer) (dv_role w) (dv_key w) 1000 61000)
    <| handle := repeat (dv_random w) 16 |> <| local_nonce := repeat (dv_random w) 32 |>.

Lemma initiator_created : Create (Some (channel_to initiator)) (Some lease_of) (options_with offer_a) initiator =
  (initiator, Some (attempt_of offer_a initiator), update_of PairingState.kPairingTls PairingError.kNone).
Proof.
  unfold Create. cbn [repository_root_public_key repository_ready device_environment dv_key initiator]. rewrite base_point_valid.
  by lazy.
Qed.

Lemma responder_created : Create (Some (channel_to responder)) (Some lease_of) (options_with offer_b) responder =
  (responder, Some (attempt_of offer_b responder), update_of PairingState.kPairingTls PairingError.kNone).
Proof.
  unfold Create. cbn [repository_root_public_key repository_ready device_environment dv_key responder]. rewrite opposite_point_valid.
  by lazy.
Qed.

(** The initiator says hello, and no answer comes for five seconds. *)
Definition waiting : list (AttemptCall Device) := [AStart 2000; Elsewhere (fun w => w); AAdvance 3000].

Lemma waiting_quiet : Forall quiet waiting.
Proof. repeat constructor. Qed.

Lemma attempt_ends_in_time_witness :
  let i := (run waiting (attempt_of offer_a initiator) initiator).1 in
  limited (attempt_of offer_a initiator) initiator waiting i /\ deadline i = 7000 /\
  ended (call (AAdvance 7000) i (run waiting (attempt_of offer_a initiator) initiator).2).1.1.
Proof.
  destruct (attempt_ends_in_time _ _ _ _ _ _ _ waiting (AAdvance 7000) 7000 initiator_created waiting_quiet I) as (H1 & _ & _ & H2);
    [by vm_compute |].
  split; [exact H1 |]. split; [by vm_compute | apply H2; [done | by vm_compute]].
Defined.

Definition timed_out : list (AttemptCall Device) := waiting ++ [AAdvance 7000].

Lemma timed_out_quiet : Forall quiet timed_out.
Proof. repeat constructor. Qed.

Lemma ended_attempt_inert_witness :
  ended (run timed_out (attempt_of offer_a initiator) initiator).1 /\
  outbound_frame (call (AStart 8000) (run timed_out (attempt_of offer_a initiator) initiator).1
    (run timed_out (attempt_of offer_a initiator) initiator).2).2 = [].
Proof.
  destruct (ended_attempt_inert _ _ _ _ _ _ _ timed_out (AStart 8000) initiator_created timed_out_quiet) as (H1 & _ & _ & _ & H2 & _);
    [by vm_compute | by split].
Defined.

End PairingAttemptExample.
