(* ===== verification/PairingExchangeProofs.v ===== *)
(** * Two pairing attempts that meet

    What the two sides of an exchange compute from the two hellos, and that an
    exchange in which nothing fails ends with both devices paired, in whatever
    order the calls of the two sides come: both attempts show the same words and
    each commits the device of the other. *)

From S2P Require Import Prelude.
From S2P Require Import Transfer.
From S2P Require Import FieldBlocks.
From S2P Require Import SecurityTypes.
From S2P Require Import Ed25519.
From S2P Require Import Ed25519Points.
From S2P Require Import CanonicalObjects.
From S2P Require Import CanonicalObjectsProofs.
From S2P Require Import SecurityProfile.
From S2P Require Import SecurityProfileProofs.
From S2P Require Import IdentityRepository.
From S2P Require Import SessionWire.
From S2P Require Import SessionWireProofs.
From S2P Require Import Admission.
From S2P Require Import PairingAttempt.
From S2P Require Import PairingAttemptProofs.
Import SecurityTypes Ed25519 CanonicalObjects SecurityProfile SessionWire PairingAttempt.
Import CanonicalObjectKind.

(** ** What the hellos make *)

Section Agreement.
Context `{Sha256Crypto}.

(** The object of some fields is encoded when the rules of its kind accept it. *)
Lemma EncodeObject_accepted kind fields : object_ok kind (List.map input_of fields) ->
  ValidateSemanticObject
    {| po_kind := kind; po_encoded := object_bytes kind (List.map input_of fields);
       po_fields := List.map (fun f => {| pf_id := fi_id f; pf_value := fi_value f |}) fields |} = SecurityError.kNone ->
  EncodeObject kind fields = inr (object_bytes kind (List.map input_of fields)).
Proof.
  intros Hok HV. destruct (object_ok_fields _ _ Hok) as (Hids & _ & _ & Hlen). rewrite length_map in Hlen.
  apply EncodeObject_iff. split; [done |]. split; [unfold kMaximumCanonicalFields; lia |]. split; [exact Hids |].
  split; [apply Hok |].
  exists {| po_kind := kind; po_encoded := object_bytes kind (List.map input_of fields);
            po_fields := List.map (fun f => {| pf_id := fi_id f; pf_value := fi_value f |}) fields |}.
  apply ParseObject_with_complete. split; [reflexivity |]. unfold fields_of. cbn [po_kind po_fields po_encoded]. rewrite List.map_map.
  split; [done |]. split; [exact Hok |]. split; [by right | exact HV].
Qed.

(** A pairing context is built from valid keys, nonces and a negotiation that is accepted. *)
Lemma BuildPairingContext_complete i n : wf_pairing i ->
  ValidateEd25519PublicKey (pi_initiator_key i) = inr (pi_initiator_key i) ->
  ValidateEd25519PublicKey (pi_responder_key i) = inr (pi_responder_key i) ->
  bsize (pi_initiator_key i) = 32 -> bsize (pi_responder_key i) = 32 ->
  bsize (pi_initiator_nonce i) = 32 -> bsize (pi_responder_nonce i) = 32 ->
  bsize (pi_negotiation i) <= 16384 -> ParseObject (pi_negotiation i) (Some kNormalizedNegotiation) = inr n ->
  exists ctx, BuildPairingContext true i = inr ctx /\ bsize (cx_digest ctx) = kSha256Size /\ all_bytes (cx_digest ctx).
Proof.
  intros Hwf K1 K2 S1 S2 N1 N2 SN HN. unfold BuildPairingContext, BuildContext.
  rewrite EncodeObject_accepted.
  - eexists. split; [reflexivity |]. cbn [cx_digest]. split; [apply sha256_size | apply sha256_bytes].
  - split.
    + unfold SchemaForKind, kPairContextSchema, pairing_fields. unfold input_of. cbn [List.map fi_id fi_value].
      repeat (apply Forall2_cons_2; [split; cbn [fst snd fs_id fs_has_fixed_size fs_fixed_size]; [done | by intros] |]). constructor.
    + apply List.Forall_map. apply pairing_fields_wf, Hwf.
    + unfold pairing_fields, kMaximumCanonicalBodySize. cbn [List.map]. unfold input_of. cbn [fi_id fi_value]. rewrite !block_bytes_cons, !bsize_app, !bsize_field_bytes.
      cbn [fst snd]. rewrite S1, S2, N1, N2. change (bsize (AsBytes kPairContextLabel)) with (label_size kPairContextLabel).
      change (block_bytes []) with (@nil Z). rewrite !bsize_cons. change (bsize []) with 0.
      assert (label_size kPairContextLabel <= 64) by done. lia.
  - unfold ValidateSemanticObject. cbn [po_kind]. unfold ValidatePairingObject, ValidateContextHead, ValidateKeyField.
    set (o := {| po_kind := _ |}). change (field o 1) with (AsBytes kPairContextLabel).
    change (field o 2) with [role_code Role.kInitiator]. change (field o 3) with [role_code Role.kResponder].
    change (field o 8) with [0; 1]. change (field o 9) with (pi_negotiation i).
    change (field o 6) with (pi_initiator_key i). change (field o 7) with (pi_responder_key i).
    rewrite ParseObject_nested, HN, K1, K2. unfold EqualBytes. rewrite (proj2 (same_bytes_true _ _) eq_refl). done.
Qed.

(** The words of a context can always be derived. *)
Lemma DeriveSasWords_complete exporter ctx : bsize exporter = kSha256Size ->
  bsize (cx_digest ctx) = kSha256Size -> all_bytes (cx_digest ctx) ->
  exists sas, DeriveSasWords true exporter ctx = inr sas.
Proof.
  intros HE SD BD. unfold DeriveSasWords. rewrite EncodeObject_accepted.
  - unfold HkdfExpandSha256Secure. rewrite HE. change (negb (kSha256Size =? kSha256Size) || _ || _) with false. cbv iota.
    unfold hkdf_rounds. rewrite HkdfExpand_loop_spec by (try exact HE; change (bsize []) with 0; lia). by eexists.
  - split.
    + unfold SchemaForKind, kSasInformationSchema, sas_fields. unfold input_of. cbn [List.map fi_id fi_value].
      repeat (apply Forall2_cons_2; [split; cbn [fst snd fs_id fs_has_fixed_size fs_fixed_size]; [done | by intros] |]). constructor.
    + unfold sas_fields. unfold input_of. cbn [List.map fi_id fi_value]. apply Forall_cons_2; [apply AsBytes_bytes |].
      apply Forall_cons_2; [exact BD | constructor].
    + unfold sas_fields, kMaximumCanonicalBodySize. cbn [List.map]. unfold input_of. cbn [fi_id fi_value]. rewrite !block_bytes_cons, !bsize_app, !bsize_field_bytes.
      cbn [fst snd]. rewrite SD. change (bsize (AsBytes kSasInformationLabel)) with (label_size kSasInformationLabel).
      change (block_bytes []) with (@nil Z). change (bsize []) with 0. assert (label_size kSasInformationLabel <= 64) by done. unfold kSha256Size. lia.
  - unfold ValidateSemanticObject. cbn [po_kind]. unfold ValidateSasInformationObject.
    set (o := {| po_kind := _ |}). change (field o 1) with (AsBytes kSasInformationLabel).
    unfold EqualBytes. by rewrite (proj2 (same_bytes_true _ _) eq_refl).
Qed.

(** The selection of two offers is one that can be sent. *)
Lemma Select_says i r sel : offer_typed i -> offer_typed r -> Select i r = inr sel -> selection_says sel.
Proof.
  intros [[? ?] Ti _ (? & ? & ?)] [[? ?] _ _ (? & ? & ?)]. unfold Select.
  destruct (ValidateOffer i) eqn:Vi; try done. destruct (ValidateOffer r) eqn:Vr; try done.
  apply ValidateOffer_iff in Vi, Vr. pose proof (ov_offered _ Vi) as Ci. pose proof (ov_offered _ Vr) as Cr.
  cbv zeta. match goal with |- context [if ?less then inl PairingError.kUnsupportedVersion else _] => destruct less; [done |] end.
  rewrite set_intersection_merge.
  destruct (_ || _) eqn:B; [done |]. apply orb_false_iff in B as [_ B%negb_false_iff]. intros [= <-].
  pose proof Ci as [Hn Hc]%HasCanonicalCapabilities_iff.
  pose proof (length_Intersection (offered_capabilities i) (offered_capabilities r)) as HL.
  assert (Hlim : limits_typed (min_limits (receive_limits i) (receive_limits r))).
  { unfold limits_typed, min_limits, in_width in *. cbn [max_body max_in_flight max_streams]. lia. }
  split.
  - split; cbn [s_version s_capabilities s_limits]; [by case_match | | unfold SessionWire.kMaximumCapabilities; lia | done].
    apply List.Forall_forall. intros c Hi. apply V1TranscriptProofs.Intersection_In in Hi as [Hi _]; [| by apply HasCanonicalCapabilities_increasing..].
    rewrite List.Forall_forall in Ti. by apply Ti.
  - cbn [s_capabilities]. apply HasCanonicalCapabilities_iff. split.
    + revert B HL. destruct (V1Transcript.Intersection _ _); [done | cbn [length]; lia].
    + apply canonical_order_Intersection; [done | by apply HasCanonicalCapabilities_increasing].
Qed.

(** Two hellos that go together, and what is selected. *)
Record agreement (initiator_key responder_key : bytes) (initiator responder : Hello) (selected : Selection) : Prop := {
  ag_initiator : hello_says Role.kInitiator initiator_key initiator;
  ag_responder : hello_says Role.kResponder responder_key responder;
  ag_selected : Select (h_offer initiator) (h_offer responder) = inr selected;
}.

Lemma agreement_context ki kr hi hr sel : agreement ki kr hi hr sel -> exists negotiation ctx,
  BuildNormalizedNegotiation hi hr sel = inr negotiation /\
  BuildPairingContext true {| pi_initiator_nonce := h_nonce hi; pi_responder_nonce := h_nonce hr; pi_initiator_key := ki;
    pi_responder_key := kr; pi_negotiation := negotiation |} = inr ctx /\
  bsize (cx_digest ctx) = kSha256Size /\ all_bytes (cx_digest ctx).
Proof.
  intros [[_ _ Vi [Si Bi] [Ni Mi] Ti Oi] [_ _ Vr [Sr Br] [Nr Mr] Tr Or] HS].
  pose proof (Select_says _ _ _ Ti Tr HS) as [Ts _]. apply ValidateOffer_iff in Oi, Or.
  apply (negotiation_selection _ _ _ Ti Tr Ts Oi Or) in HS.
  destruct (negotiation_ok _ _ _ Ti Tr Ts Oi Or) as [Hok EB].
  assert (HN : BuildNormalizedNegotiation hi hr sel = inr (EncodeNormalizedObject (negotiation_fields (h_offer hi) (h_offer hr) sel)))
    by (by apply (Build_iff (h_offer hi) (h_offer hr) sel)).
  eexists. destruct (BuildPairingContext_complete {| pi_initiator_nonce := h_nonce hi; pi_responder_nonce := h_nonce hr;
    pi_initiator_key := ki; pi_responder_key := kr;
    pi_negotiation := EncodeNormalizedObject (negotiation_fields (h_offer hi) (h_offer hr) sel) |}
    (negotiation_object (h_offer hi) (h_offer hr) sel)) as (ctx & E & Hs & Hb); try done.
  - split_and!; try done. rewrite EB. apply all_bytes_object, Hok.
  - cbn [pi_negotiation]. rewrite EB, bsize_object_bytes. pose proof (negotiation_size _ _ _ Ti Tr Ts Oi Or). lia.
  - by apply negotiation_parsed.
  - exists ctx. by split_and!.
Qed.

End Agreement.

(** ** One side of an exchange *)

(** ** The course of one side

    What the calls of one attempt are when the pairing succeeds: how far it has
    come, with the moments its timers run from. *)

Inductive phase :=
  | Fresh
  | Greeting (start : Z)
  | Selecting (start greeted : Z)
  | Acking (start greeted : Z)
  | Deciding (prompted heard : Z) (decided written confirmed : bool)
  | Done.

(** A call at a time: the start, the next frame of the peer, the acknowledgement
    was written, the user confirms, the confirmation was written, the clock. *)
Inductive move :=
  | MStart (t : Z)
  | MReceive (t : Z)
  | MAckWritten (t : Z)
  | MConfirm (t : Z)
  | MWritten (t : Z)
  | MTick (t : Z).

Definition move_time (m : move) : Z :=
  match m with MStart t | MReceive t | MAckWritten t | MConfirm t | MWritten t | MTick t => t end.

(** The time by which a side has to come on; [absolute] is the deadline of the attempt. *)
Definition limit (absolute : Z) (p : phase) : Z :=
  match p with
  | Fresh | Done => absolute
  | Greeting start => Z.min absolute (CheckedDeadline start kFirstPairingFrameTimeoutMs)
  | Selecting start greeted | Acking start greeted =>
      Z.min absolute (Z.min (CheckedDeadline start kSelectionTimeoutMs) (CheckedDeadline greeted kPairingIdleTimeoutMs))
  | Deciding prompted heard _ _ _ =>
      Z.min absolute (Z.min (CheckedDeadline prompted kDecisionTimeoutMs) (CheckedDeadline heard kPairingIdleTimeoutMs))
  end.

(** The next phase when the move is one of the protocol. *)
Definition advance (role : Role.Role) (p : phase) (m : move) : option phase :=
  match p, m with
  | Done, _ => None
  | _, MTick _ => Some p
  | Fresh, MStart t => Some (Greeting t)
  | Greeting start, MReceive t => Some (Selecting start t)
  | Selecting start greeted, MReceive t =>
      match role with
      | Role.kInitiator => Some (Deciding t t false false false)
      | Role.kResponder => Some (Acking start greeted)
      end
  | Acking _ _, MAckWritten t => Some (Deciding t t false false false)
  | Deciding prompted heard false written confirmed, MConfirm t => Some (Deciding prompted heard true written confirmed)
  | Deciding prompted heard true false confirmed, MWritten t =>
      Some (if confirmed then Done else Deciding prompted heard true true false)
  | Deciding prompted heard decided written false, MReceive t =>
      Some (if decided && written then Done else Deciding prompted t decided written true)
  | _, _ => None
  end.

(** The frames a side has sent, and those it has received. *)
Definition sent_count (role : Role.Role) (p : phase) : nat :=
  match p with
  | Fresh => 0
  | Greeting _ => 1
  | Selecting _ _ => match role with Role.kInitiator => 2 | Role.kResponder => 1 end
  | Acking _ _ => 2
  | Deciding _ _ decided _ _ => if decided then 3 else 2
  | Done => 3
  end.

Definition received_count (p : phase) : nat :=
  match p with
  | Fresh | Greeting _ => 0
  | Selecting _ _ => 1
  | Acking _ _ => 2
  | Deciding _ _ _ _ confirmed => if confirmed then 3 else 2
  | Done => 3
  end.

Definition receives (m : move) : bool := match m with MReceive _ => true | _ => false end.

(** One attempt, its world, the frames on the way to it, the prompt it showed
    and its last update. *)
Record Endpoint (W : Type) := {
  en_attempt : Implementation;
  en_world : W;
  en_inbox : list bytes;
  en_prompt : option PairingPrompt;
  en_update : option PairingUpdate;
}.
Arguments en_attempt {W}. Arguments en_world {W}. Arguments en_inbox {W}. Arguments en_prompt {W}. Arguments en_update {W}.

(** The frame of an update, when there is one. *)
Definition given (frame : bytes) : list bytes := match frame with [] => [] | _ :: _ => [frame] end.

Definition idle {W} (i : Implementation) (w : W) : Endpoint W :=
  {| en_attempt := i; en_world := w; en_inbox := []; en_prompt := None; en_update := None |}.

Section Side.
Context `{Sha256Crypto} {W : Type} {env : PairingEnvironment W}.

(** The end after a call with its update, and the frame it sends. *)
Definition took (x : Implementation * W * PairingUpdate) (inbox : list bytes) (e : Endpoint W) : Endpoint W * list bytes :=
  let '(i, w, u) := x in
  ({| en_attempt := i; en_world := w; en_inbox := inbox;
      en_prompt := match up_prompt u with Some shown => Some shown | None => en_prompt e end; en_update := Some u |},
   given (outbound_frame u)).

Definition play (m : move) (e : Endpoint W) : Endpoint W * list bytes :=
  let i := en_attempt e in
  let w := en_world e in
  match m with
  | MStart t => took (Start t i w) (en_inbox e) e
  | MReceive t =>
      match en_inbox e with
      | [] => (e, [])
      | frame :: inbox => took (ReceiveFrame frame t i w) inbox e
      end
  | MAckWritten t => took (LocalSelectionAckWritten (handle i) t i w) (en_inbox e) e
  | MConfirm t => took (Decide (handle i) ConfirmationDecision.kConfirm t i w) (en_inbox e) e
  | MWritten t => took (LocalDecisionWritten (handle i) t i w) (en_inbox e) e
  | MTick t => took (Advance t i w) (en_inbox e) e
  end.

(** An environment in which nothing fails, and what its connections export. *)
Class Cooperates (pairing confirmation : Context -> bytes) : Prop := {
  co_active : forall l w, (lease_active l w).2 = true;
  co_visible : forall l w, (mark_visible l w).2 = PairingError.kNone;
  co_bind : forall r d now_ms w, (bind_replay r d now_ms w).2 = PairingError.kNone;
  co_pairing : forall c ctx w, (ExportPairing c ctx w).2 = Some (pairing ctx);
  co_confirmation : forall c ctx w, (ExportConfirmation c ctx w).2 = Some (confirmation ctx);
  co_crypto : forall w, (crypto_available w).2 = true;
  co_commit : forall p w, is_Some (CommitPeer p w).2;
}.

(** What a new attempt says in its hello. *)
Lemma meet_hello opts i key : created opts i -> local_key i = Some key -> all_bytes key ->
  bsize (local_nonce i) = 32 /\ all_bytes (local_nonce i) -> offer_typed (po_offer (options i)) ->
  hello_says (local_role i) key (our_hello i).
Proof using Type.
  intros Hc Hk Hb Hn Ht. destruct (ct_key _ _ Hc) as (key' & E & HV & _). assert (key' = key) as -> by congruence.
  split; try done; [split; [| done] | unfold our_hello; cbn [h_offer]; rewrite (ct_options _ _ Hc); apply Hc].
  by apply (validate_iff key Hb) in HV as [Hs _].
Qed.

Context {pairing confirmation : Context -> bytes} {co : Cooperates pairing confirmation}.
Context (pairing_size : forall ctx, bsize (pairing ctx) = kSha256Size).
Context (confirmation_size : forall ctx, bsize (confirmation ctx) = kSha256Size).
Context (i0 : Implementation) (lease : Admission.PairingAdmissionLease) (reservation : Z) (ch : PairingChannel).
Context (Hl : admission i0 = Some lease) (Hr : replay_reservation i0 = Some reservation) (Hch : channel i0 = Some ch).
Context (Hh : AllZero (handle i0) = false).

(** An attempt that goes on, in a state, with the numbers of its next frames. *)
Record core (s : PairingState.PairingState) (n m : Z) (i : Implementation) : Prop := {
  co_held : held i0 i;
  co_state : state i = s;
  co_out : next_outbound_sequence i = n;
  co_in : next_inbound_sequence i = m;
  co_frames : inbound_frames i = m - 1;
  co_bytes : 0 <= inbound_bytes i <= 4116 * (m - 1);
}.

Definition live (s : PairingState.PairingState) : Prop :=
  s = PairingState.kPairingTls \/ s = PairingState.kExchangingHellos \/ s = PairingState.kSelecting \/
  s = PairingState.kAwaitingDecisions.

Lemma core_terminal s n m i : core s n m i -> live s -> is_terminal i = false.
Proof using Type. intros [_ E _ _ _ _] HS. unfold is_terminal. rewrite E. by destruct HS as [-> | [-> | [-> | ->]]]. Qed.

Lemma core_at_time s n m i now_ms : core s n m i -> core s n m (at_time now_ms i).
Proof using Type. intros [[? ? ? ? ? (? & ? & ? & ?)] ? ? ? ? ?]. by split. Qed.

Lemma core_sent s n m i : core s n m i -> 0 <= n <= 8 -> core s (n + 1) m (sent i).
Proof using Type.
  intros [[? ? ? ? ? (? & ? & ? & ?)] ? E ? ? ?] Hn. split; try done.
  replace (next_outbound_sequence (sent i)) with (uadd 32 (next_outbound_sequence i) 1) by reflexivity.
  rewrite E. rewrite uadd_small; widths; lia.
Qed.

(** A method before the deadline does its work. *)
Lemma checked_ok s n m i now_ms w : core s n m i -> live s -> now_ms < deadline i -> exists w', forall body,
  checked now_ms body i w = body (at_time now_ms i) w'.
Proof using co Hl.
  intros Hc HS Ht. pose proof (core_terminal _ _ _ _ Hc HS) as Hn. unfold checked, CheckDeadline. fold (at_time now_ms i).
  replace (is_terminal (at_time now_ms i)) with (is_terminal i) by reflexivity. rewrite Hn.
  unfold admission_active. replace (admission (at_time now_ms i)) with (admission i) by reflexivity.
  rewrite (hd_admission _ _ (co_held _ _ _ _ Hc)), Hl. pose proof (co_active lease w) as E.
  destruct (lease_active lease w) as [w' active]. cbn [snd] in E. rewrite E. cbn [negb].
  replace (deadline (at_time now_ms i)) with (deadline i) by reflexivity. rewrite (proj2 (Z.ltb_lt _ _) Ht).
  unfold Update. replace (is_terminal (at_time now_ms i)) with (is_terminal i) by reflexivity. rewrite Hn. by exists w'.
Qed.

(** The frame of a message by its type. *)
Definition dispatch (frame : Frame) (now_ms : Z) : method :=
  match fr_type frame with
  | PairingMessageType.kAbort => ReceiveAbort frame
  | PairingMessageType.kHello => ReceiveHello frame now_ms
  | PairingMessageType.kSelect | PairingMessageType.kSelectAck => ReceiveSelection frame now_ms
  | PairingMessageType.kDecision => ReceiveDecision frame now_ms
  end.

Lemma core_counted s n m i encoded now_ms : core s n m i -> 1 <= m <= 8 -> 0 <= bsize encoded <= 4116 ->
  core s n (m + 1) (counted encoded (at_time now_ms i)).
Proof using Type.
  intros [[? ? ? ? ? (? & ? & ? & ?)] ? ? E1 E2 E3] Hm He.
  assert (U1 : uadd 64 (inbound_frames i) 1 = m) by (rewrite uadd_small; widths; lia).
  assert (U2 : uadd 64 (inbound_bytes i) (bsize encoded) = inbound_bytes i + bsize encoded) by (rewrite uadd_small; widths; lia).
  assert (U3 : uadd 32 (next_inbound_sequence i) 1 = m + 1) by (rewrite uadd_small; widths; lia).
  split; [by split; try split_and! | done | done | exact U3 | |].
  - etransitivity; [exact U1 |]. lia.
  - replace (inbound_bytes _) with (uadd 64 (inbound_bytes i) (bsize encoded)) by reflexivity. lia.
Qed.

Lemma receive_ok s n m i frame encoded now_ms w : encoded = EncodeFrame (fr_type frame) m (fr_fields frame) -> core s n m i -> live s -> s <> PairingState.kPairingTls -> 1 <= m <= 8 ->
  now_ms < deadline i -> frame_ok frame -> fr_sequence frame = m -> exists w',
  core s n (m + 1) (counted encoded (at_time now_ms i)) /\
  ReceiveFrame encoded now_ms i w = dispatch frame now_ms (counted encoded (at_time now_ms i)) w'.
Proof using co Hl.
  intros Ee Hc HS Hne Hm Ht Hok <-.
  assert (Es : 0 <= bsize encoded <= 4116).
  { split; [apply bsize_nonneg |]. rewrite Ee, EncodeFrame_bytes, bsize_pairing_frame by done.
    pose proof (fo_size _ Hok). unfold kMaxPairingBodySize in *. lia. }
  assert (EP : ParseFrame encoded = inr frame) by (rewrite Ee, EncodeFrame_parsed by (by destruct frame); by destruct frame).
  clear Ee. destruct (checked_ok s n (fr_sequence frame) i now_ms w Hc HS Ht) as [w' E]. exists w'.
  pose proof (core_counted s n (fr_sequence frame) i encoded now_ms Hc Hm Es) as Hc2. split; [exact Hc2 |].
  unfold ReceiveFrame. rewrite E. destruct Hc as [_ ES _ EI EF EB]. unfold kMaxInboundPairingFrames, kMaxInboundPairingBytes.
  replace (state (at_time now_ms i)) with (state i) by reflexivity.
  replace (inbound_frames (at_time now_ms i)) with (inbound_frames i) by reflexivity.
  replace (inbound_bytes (at_time now_ms i)) with (inbound_bytes i) by reflexivity.
  rewrite bool_decide_eq_false_2 by congruence. rewrite usub_small by (widths; lia).
  destruct (Z.eqb_spec (inbound_frames i) 16); [lia |]. rewrite Z.gtb_ltb.
  destruct (Z.ltb_spec (65536 - inbound_bytes i) (bsize encoded)); [lia |]. cbn [orb]. rewrite EP.
  match goal with |- (if ?skip then _ else _) = _ => replace skip with false end.
  2:{ replace (next_inbound_sequence _) with (next_inbound_sequence i) at 1 2 by reflexivity. rewrite EI, Z.eqb_refl.
      destruct (Z.eqb_spec (fr_sequence frame) (umax 32)); [widths; lia | done]. }
  unfold dispatch. by destruct (fr_type frame).
Qed.

(** *** Deadlines *)

(** A time of the attempt within a timeout from [start]. *)
Definition within (start timeout now_ms : Z) : Prop :=
  now_ms < absolute_deadline_ms i0 /\ now_ms < CheckedDeadline start timeout.

Lemma within_due start timeout longer now_ms : within start timeout now_ms -> timeout <= longer ->
  now_ms < due start longer i0.
Proof using Type. unfold within, due, Earlier. rewrite !CheckedDeadline_min. lia. Qed.

Lemma core_due s n m i start timeout : core s n m i -> due start timeout i = due start timeout i0.
Proof using Type. intros [[_ _ _ _ _ (_ & _ & _ & E)] _ _ _ _ _]. unfold due. by rewrite E. Qed.

Lemma core_absolute s n m i : core s n m i -> absolute_deadline_ms i = absolute_deadline_ms i0.
Proof using Type. by intros [[_ _ _ _ _ (_ & _ & _ & E)] _ _ _ _ _]. Qed.

(** *** The start *)

Record fresh_stage (i : Implementation) : Prop := {
  fr_core : core PairingState.kPairingTls 1 1 i;
  fr_remote : remote_hello i = None;
  fr_open : undecided i;
}.

Lemma created_fresh opts : created opts i0 -> fresh_stage i0.
Proof using Type.
  intros Hc. destruct (ct_counters _ _ Hc) as (E1 & E2 & E3 & E4). destruct (ct_nothing _ _ Hc) as (_ & E5 & _).
  destruct (ct_undecided _ _ Hc) as (U1 & U2 & U3 & _).
  split; [split; [by split | exact (ct_state _ _ Hc) | done | done | lia | lia] | done | done].
Qed.

Record greeting_stage (start : Z) (i : Implementation) : Prop := {
  gr_core : core PairingState.kExchangingHellos 2 1 i;
  gr_local : local_hello i = Some (our_hello i0);
  gr_remote : remote_hello i = None;
  gr_first : first_frame_deadline_ms i = due start kFirstPairingFrameTimeoutMs i0;
  gr_selection : selection_deadline_ms i = due start kSelectionTimeoutMs i0;
  gr_idle : idle_deadline_ms i = due start kPairingIdleTimeoutMs i0;
  gr_open : undecided i;
}.

Lemma EncodeFrame_nonempty frame : frame_ok frame ->
  (bsize (EncodeFrame (fr_type frame) (fr_sequence frame) (fr_fields frame)) =? 0) = false.
Proof using Type.
  intros Hok. rewrite EncodeFrame_bytes, bsize_pairing_frame by done. pose proof (bsize_nonneg (pairing_body (fr_fields frame))). lia.
Qed.

Lemma start_ok key start i w : fresh_stage i -> local_key i0 = Some key ->
  hello_says (local_role i0) key (our_hello i0) -> start < absolute_deadline_ms i0 ->
  exists i' w' u, Start start i w = (i', w', u) /\ greeting_stage start i' /\
    outbound_frame u = EncodeHello 1 (local_role i0) key (local_nonce i0) (po_offer (options i0)) /\ up_prompt u = None.
Proof using co Hl.
  intros [C ER EU] Hk Hs Ht. pose proof (co_held _ _ _ _ C) as [_ _ _ _ Eno (EO & ERo & EK & EA)].
  assert (Hd : deadline i = absolute_deadline_ms i0) by (unfold deadline; by rewrite (co_state _ _ _ _ C)).
  destruct (checked_ok _ _ _ _ start w C ltac:(by left) ltac:(lia)) as [w' E].
  unfold Start. rewrite E. pose proof (core_at_time _ _ _ _ start C) as C'.
  replace (local_key (at_time start i)) with (local_key i) by reflexivity. rewrite EK, Hk.
  replace (state (at_time start i)) with (state i) by reflexivity. rewrite (co_state _ _ _ _ C).
  rewrite bool_decide_eq_true_2 by done. cbn [negb].
  set (frame := EncodeHello _ _ _ _ _).
  assert (Ef : frame = EncodeHello 1 (local_role i0) key (local_nonce i0) (po_offer (options i0))).
  { unfold frame. replace (next_outbound_sequence _) with (next_outbound_sequence i) by reflexivity.
    rewrite (co_out _ _ _ _ C). replace (local_role _) with (local_role i) by reflexivity.
    replace (local_nonce _) with (local_nonce i) by reflexivity. replace (options _) with (options i) by reflexivity.
    by rewrite ERo, Eno, EO. }
  pose proof (EncodeFrame_nonempty _ (hello_frame_ok _ _ _ 1 ltac:(done) Hs)) as Hne. cbn [fr_type fr_sequence fr_fields] in Hne.
  replace (bsize frame =? 0) with false by (by rewrite Ef). exists (started start (at_time start i)), w'. eexists.
  split; [| split].
  - replace (Some {| h_role := _ |}) with (Some (our_hello (at_time start i))) by (unfold our_hello; cbn; by rewrite EK, Hk).
    reflexivity.
  - pose proof (fun t => core_due _ _ _ _ start t C') as D1.
    pose proof (held_hello i0 _ (co_held _ _ _ _ C')) as EL.
    destruct C as [[? ? ? ? ? (? & ? & ? & ?)] ? E1 ? ? ?].
    split; [split; [by split | done | | done | done | done] | | done | apply D1 | apply D1 | apply D1 | done].
    + replace (next_outbound_sequence _) with (uadd 32 (next_outbound_sequence i) 1) by reflexivity. by rewrite E1.
    + by rewrite <- EL.
  - by split.
Qed.

(** *** The hellos *)

Section Met.
Context (ki kr : bytes) (hi hr remote : Hello) (sel : Selection).
Context (Ha : agreement ki kr hi hr sel) (Hkeys : ki <> kr).
Context (Hsides :
  (local_role i0 = Role.kInitiator /\ our_hello i0 = hi /\ remote = hr /\ peer_public_key ch = kr) \/
  (local_role i0 = Role.kResponder /\ our_hello i0 = hr /\ remote = hi /\ peer_public_key ch = ki)).

Lemma side_remote : hello_says (OppositeRole (local_role i0)) (peer_public_key ch) remote.
Proof using Ha Hsides. destruct Ha, Hsides as [(-> & _ & -> & ->) | (-> & _ & -> & ->)]; done. Qed.

Lemma side_keys : local_key i0 <> h_key remote.
Proof using Ha Hkeys Hsides.
  replace (local_key i0) with (h_key (our_hello i0)) by reflexivity.
  destruct Ha as [[_ Ki _ _ _ _ _] [_ Kr _ _ _ _ _] _], Hsides as [(_ & -> & -> & _) | (_ & -> & -> & _)]; congruence.
Qed.

Lemma side_hellos : initiator_of i0 (our_hello i0) remote = hi /\ responder_of i0 (our_hello i0) remote = hr.
Proof using Hsides.
  unfold initiator_of, responder_of, hello_of. destruct Hsides as [(-> & -> & -> & _) | (-> & -> & -> & _)]; done.
Qed.

Lemma side_selection : selection_says sel.
Proof using Ha. destruct Ha as [HI HR HS]. exact (Select_says _ _ _ (hs_typed _ _ _ HI) (hs_typed _ _ _ HR) HS). Qed.

Record selecting_stage (start greeted_at n m : Z) (i : Implementation) : Prop := {
  se_core : core PairingState.kSelecting n m i;
  se_local : local_hello i = Some (our_hello i0);
  se_remote : remote_hello i = Some remote;
  se_selected : selection i = Some sel;
  se_selection : selection_deadline_ms i = due start kSelectionTimeoutMs i0;
  se_idle : idle_deadline_ms i = due greeted_at kPairingIdleTimeoutMs i0;
  se_open : undecided i;
}.

(** The number of the frame after the hello. *)
Definition after_hello : Z := match local_role i0 with Role.kInitiator => 3 | Role.kResponder => 2 end.

Lemma hello_ok start now_ms i w : greeting_stage start i -> within start kFirstPairingFrameTimeoutMs now_ms ->
  exists i' w' u,
    ReceiveFrame (EncodeHello 1 (OppositeRole (local_role i0)) (peer_public_key ch) (h_nonce remote) (h_offer remote)) now_ms i w =
      (i', w', u) /\
    selecting_stage start now_ms after_hello 2 i' /\
    outbound_frame u = match local_role i0 with
                       | Role.kInitiator => EncodeSelection PairingMessageType.kSelect 2 sel
                       | Role.kResponder => [] end /\ up_prompt u = None.
Proof using Ha Hch Hkeys Hl Hsides co.
  intros [Hc EL ER E1 E2 E3 EU] Ht. pose proof (hello_frame_ok _ _ _ 1 ltac:(done) side_remote) as Hok.
  set (f := {| fr_type := _ |}) in Hok. set (encoded := EncodeHello _ _ _ _ _).
  assert (Ee : encoded = EncodeFrame (fr_type f) 1 (fr_fields f)) by reflexivity.
  destruct (receive_ok _ _ _ i f encoded now_ms w Ee Hc ltac:(right; by left) ltac:(done) ltac:(lia)) as (w' & Hc1 & ->); [| exact Hok | done |].
  { unfold deadline. rewrite (co_state _ _ _ _ Hc), E1, E2, E3, (core_absolute _ _ _ _ Hc). unfold Earlier.
    pose proof (within_due _ _ kFirstPairingFrameTimeoutMs _ Ht ltac:(done)). pose proof (within_due _ _ kSelectionTimeoutMs _ Ht ltac:(done)).
    pose proof (within_due _ _ kPairingIdleTimeoutMs _ Ht ltac:(done)). destruct Ht. lia. }
  unfold dispatch. replace (fr_type f) with PairingMessageType.kHello by reflexivity. pose proof (counted_same encoded now_ms i) as [_ _ _ ES EK EL1 ER1 _ _ _ _].
  assert (E2' : selection_deadline_ms (counted encoded (at_time now_ms i)) = due start kSelectionTimeoutMs i0) by (by rewrite <- E2).
  assert (EU' : undecided (counted encoded (at_time now_ms i))) by exact EU.
  revert Hc1 ES EK EL1 ER1 E2' EU'. generalize (counted encoded (at_time now_ms i)). clear E1 E2 E3 EU. intros i1 Hc1 ES EK EL1 ER1 E2 EU.
  pose proof (co_held _ _ _ _ Hc1) as [HC _ _ _ _ (EO & ERo & EKe & _)].
  assert (EK1 : channel_key i1 = peer_public_key ch) by (unfold channel_key; by rewrite HC, Hch).
  unfold ReceiveHello. rewrite (co_state _ _ _ _ Hc1), ER1, ER, ERo, EK1. cbn [negb orb bool_decide].
  rewrite bool_decide_eq_true_2, bool_decide_eq_false_2 by (done || by intros [? ?]). cbn [negb orb].
  unfold f. rewrite (DecodeHello_fields 1 _ _ _ side_remote), EKe, bool_decide_eq_false_2 by exact side_keys.
  set (i2 := i1 <| remote_hello := Some remote |>).
  assert (ER2 : local_role i2 = local_role i0) by exact ERo. assert (EO2 : options i2 = options i0) by exact EO.
  cbv zeta. rewrite ER2, EO2.
  assert (EX : Select (match local_role i0 with Role.kInitiator => po_offer (options i0) | Role.kResponder => h_offer remote end)
                      (match local_role i0 with Role.kResponder => po_offer (options i0) | Role.kInitiator => h_offer remote end) = inr sel).
  { rewrite <- (ag_selected _ _ _ _ _ Ha). by destruct Hsides as [(-> & <- & <- & _) | (-> & <- & <- & _)]. }
  rewrite EX. fold (due now_ms kPairingIdleTimeoutMs i2). set (i3 := i2 <| selection := Some sel |> <| state := _ |> <| idle_deadline_ms := _ |> <| last_now_ms := _ |>).
  assert (ER3 : local_role i3 = local_role i0) by exact ERo. rewrite ER3.
  assert (EU3 : undecided i3) by exact EU.
  assert (Hi3 : selecting_stage start now_ms 2 2 i3).
  { pose proof (core_due _ _ _ _ now_ms kPairingIdleTimeoutMs Hc1) as ED.
    destruct Hc1 as [[? ? ? ? ? (? & ? & ? & ?)] ? ? ? ? ?]. split; try done. by rewrite <- EL, <- EL1. }
  unfold after_hello. destruct (local_role i0).
  - pose proof side_selection as [HS _]. pose proof (EncodeFrame_nonempty _ (selection_fields_ok sel 2 PairingMessageType.kSelect ltac:(done) HS)) as Hne.
    cbn [fr_type fr_sequence fr_fields] in Hne. fold (EncodeSelection PairingMessageType.kSelect 2 sel) in Hne.
    pose proof (co_out _ _ _ _ (se_core _ _ _ _ _ Hi3)) as EN. replace (bsize _ =? 0) with false by (by rewrite EN).
    exists (sent i3), w'. eexists. split; [unfold sent; reflexivity |].
    split; [| cbn [outbound_frame]; by rewrite EN; split]. destruct Hi3 as [C3 ? ? ? ? ? ?]. apply core_sent in C3; [| lia]. clearbody i3.
    by split.
  - exists i3, w'. eexists. split; [reflexivity |]. by split.
Qed.
(** *** The selection *)

Lemma selecting_deadline start greeted_at n m i now_ms : selecting_stage start greeted_at n m i ->
  within start kSelectionTimeoutMs now_ms -> within greeted_at kPairingIdleTimeoutMs now_ms -> now_ms < deadline i.
Proof using Type.
  intros [Hc _ _ _ E1 E2 _] Ht Hi. unfold deadline. rewrite (co_state _ _ _ _ Hc), E1, E2, (core_absolute _ _ _ _ Hc). unfold Earlier.
  pose proof (within_due _ _ kSelectionTimeoutMs _ Ht ltac:(done)). pose proof (within_due _ _ kPairingIdleTimeoutMs _ Hi ltac:(done)).
  destruct Ht. lia.
Qed.

(** Of a stage only the core and the clock change. *)
Lemma selecting_counted start greeted_at n m i encoded now_ms : selecting_stage start greeted_at n m i ->
  core PairingState.kSelecting n (m + 1) (counted encoded (at_time now_ms i)) ->
  selecting_stage start greeted_at n (m + 1) (counted encoded (at_time now_ms i)).
Proof using Type. intros [_ ? ? ? ? ? ?] Hc. by split. Qed.

Lemma selecting_noted start greeted_at n m i pending now_ms : selecting_stage start greeted_at n m i ->
  selecting_stage start greeted_at n m (i <| selection_ack_pending := pending |> <| last_now_ms := now_ms |>).
Proof using Type. intros [[[? ? ? ? ? (? & ? & ? & ?)] ? ? ? ? ?] ? ? ? ? ? ?]. split; try done. Qed.

Lemma selecting_sent start greeted_at n m i : selecting_stage start greeted_at n m i -> 0 <= n <= 8 ->
  selecting_stage start greeted_at (n + 1) m (sent i).
Proof using Type. intros [Hc ? ? ? ? ? ?] Hn. apply core_sent in Hc; [| done]. by split. Qed.

Lemma selection_frame type : frame_ok {| fr_type := type; fr_sequence := 2; fr_fields := selection_fields sel |}.
Proof using Ha. apply selection_fields_ok; [done | apply side_selection]. Qed.

Lemma selection_nonempty type : (bsize (EncodeSelection type 2 sel) =? 0) = false.
Proof using Ha. exact (EncodeFrame_nonempty _ (selection_frame type)). Qed.

(** The responder receives the selection and acknowledges it. *)
Lemma select_ok start greeted_at now_ms i w : local_role i0 = Role.kResponder -> selecting_stage start greeted_at 2 2 i ->
  within start kSelectionTimeoutMs now_ms -> within greeted_at kPairingIdleTimeoutMs now_ms ->
  exists i' w' u, ReceiveFrame (EncodeSelection PairingMessageType.kSelect 2 sel) now_ms i w = (i', w', u) /\
    selecting_stage start greeted_at 3 3 i' /\ selection_ack_pending i' = true /\
    outbound_frame u = EncodeSelection PairingMessageType.kSelectAck 2 sel /\ up_prompt u = None.
Proof using Ha Hl co.
  intros Hrole Hs Ht Hi. set (encoded := EncodeSelection PairingMessageType.kSelect 2 sel).
  pose proof (selecting_deadline _ _ _ _ _ _ Hs Ht Hi) as Hd.
  set (f := {| fr_type := PairingMessageType.kSelect; fr_sequence := 2; fr_fields := selection_fields sel |}).
  assert (Ee : encoded = EncodeFrame (fr_type f) 2 (fr_fields f)) by reflexivity.
  destruct (receive_ok _ _ _ i f encoded now_ms w Ee (se_core _ _ _ _ _ Hs) ltac:(right; right; by left) ltac:(done) ltac:(lia) Hd
    (selection_frame _) eq_refl) as (w' & Hc & ->).
  apply (selecting_counted _ _ _ _ _ _ _ Hs) in Hc. revert Hc. generalize (counted encoded (at_time now_ms i)). clear i Hs Hd. intros i Hs.
  unfold dispatch. replace (fr_type f) with PairingMessageType.kSelect by reflexivity. unfold ReceiveSelection.
  pose proof (co_held _ _ _ _ (se_core _ _ _ _ _ Hs)) as [_ _ _ _ _ (_ & ERo & _)].
  rewrite (se_selected _ _ _ _ _ Hs), (co_state _ _ _ _ (se_core _ _ _ _ _ Hs)), ERo, Hrole.
  rewrite bool_decide_eq_true_2 by done. cbn [negb].
  replace (negb _ && negb _) with false by reflexivity.
  unfold f. rewrite (DecodeSelection_fields PairingMessageType.kSelect 2 sel (or_introl eq_refl) side_selection).
  rewrite bool_decide_eq_true_2 by done. cbn [negb]. cbv zeta.
  rewrite (co_out _ _ _ _ (se_core _ _ _ _ _ Hs)), selection_nonempty.
  eexists _, w', _. split; [reflexivity |]. split; [| by split]. apply selecting_noted.
  replace (i <| next_outbound_sequence := uadd 32 2 1 |>) with (sent i) by (unfold sent; by rewrite (co_out _ _ _ _ (se_core _ _ _ _ _ Hs))).
  apply (selecting_sent _ _ 2); [exact Hs | lia].
Qed.

(** *** The prompt *)

Context (negotiation : bytes) (ctx : Context) (sas : SasWords).
Context (HN : BuildNormalizedNegotiation hi hr sel = inr negotiation).
Context (HB : BuildPairingContext true {| pi_initiator_nonce := h_nonce hi; pi_responder_nonce := h_nonce hr;
  pi_initiator_key := ki; pi_responder_key := kr; pi_negotiation := negotiation |} = inr ctx).
Context (HD : bsize (cx_digest ctx) = kSha256Size) (BD : all_bytes (cx_digest ctx)).
Context (HS : DeriveSasWords true (pairing ctx) ctx = inr sas).

Record awaiting_stage (prompted_at heard_at n m : Z) (decided written confirmed : bool) (i : Implementation) : Prop := {
  aw_core : core PairingState.kAwaitingDecisions n m i;
  aw_context : context i = Some ctx;
  aw_exporter : confirmation_exporter i = confirmation ctx;
  aw_decision : decision_deadline_ms i = due prompted_at kDecisionTimeoutMs i0;
  aw_idle : idle_deadline_ms i = due heard_at kPairingIdleTimeoutMs i0;
  aw_decided : local_decision i = if decided then Some ConfirmationDecision.kConfirm else None;
  aw_written : local_decision_written i = written;
  aw_confirmed : peer_confirmed i = confirmed;
}.

Definition prompt (prompted_at : Z) : PairingPrompt :=
  {| pp_handle := handle i0; pp_sas_word_indices := SecurityProfile.sas_indices sas;
     pp_deadline_ms := due prompted_at kDecisionTimeoutMs i0 |}.

Lemma complete_ok start greeted_at n m now_ms i w : selecting_stage start greeted_at n m i ->
  exists i' w' u, CompleteSelection now_ms i w = (i', w', u) /\ awaiting_stage now_ms now_ms n m false false false i' /\
    up_prompt u = Some (prompt now_ms) /\ outbound_frame u = [].
Proof using BD HB HD HN HS Ha Hch Hl Hr Hsides co confirmation_size pairing_size.
  intros [[[HC HA HR Hhd Hno Hset] Hst Hout Hin Hfr Hby] EL ER ES _ _ EU]. pose proof Hset as (EO & ERo & EK & EA).
  assert (HI : hello_of Role.kInitiator i (our_hello i0) remote = hi) by (rewrite <- (proj1 side_hellos); unfold initiator_of, hello_of; by rewrite ERo).
  assert (HI' : hello_of Role.kResponder i (our_hello i0) remote = hr) by (rewrite <- (proj2 side_hellos); unfold responder_of, hello_of; by rewrite ERo).
  unfold CompleteSelection. rewrite EL, ER, ES, HI, HI', HN. destruct Ha as [[_ Ki _ _ _ _ _] [_ Kr _ _ _ _ _] _]. rewrite Ki, Kr.
  pose proof (co_crypto w) as E1. destruct (crypto_available w) as [w1 r]. cbn [snd] in E1. subst r. rewrite HB.
  replace (replay_reservation (i <| context := Some ctx |>)) with (replay_reservation i) by reflexivity. rewrite HR, Hr.
  pose proof (co_bind reservation (cx_digest ctx) now_ms w1) as E2. destruct (bind_replay _ _ _ w1) as [w2 r]. cbn [snd] in E2. subst r.
  rewrite bool_decide_eq_true_2 by done. cbn [negb].
  replace (admission (i <| context := Some ctx |>)) with (admission i) by reflexivity. rewrite HA, Hl.
  pose proof (co_visible lease w2) as E3. destruct (mark_visible lease w2) as [w3 r]. cbn [snd] in E3. subst r.
  rewrite bool_decide_eq_true_2 by done. cbn [negb]. unfold ExportSecrets.
  replace (channel (i <| context := Some ctx |>)) with (channel i) by reflexivity. rewrite HC, Hch.
  pose proof (co_pairing ch ctx w3) as E4. destruct (ExportPairing ch ctx w3) as [w4 r]. cbn [snd] in E4. subst r.
  rewrite pairing_size, Z.eqb_refl. cbn [negb].
  pose proof (co_crypto w4) as E5. destruct (crypto_available w4) as [w5 r]. cbn [snd] in E5. subst r. rewrite HS.
  pose proof (co_confirmation ch ctx w5) as E6. destruct (ExportConfirmation ch ctx w5) as [w6 r]. cbn [snd] in E6. subst r.
  rewrite confirmation_size, Z.eqb_refl. cbn [negb]. eexists _, w6, _. split; [reflexivity |]. clear - Hhd EA HC HA HR Hno EO ERo EK Hst Hout Hin Hfr Hby EU.
  destruct EU as (U1 & U2 & U3).
  split; [split; [split; [by split | done..] | done | done | | | done | done | done] |].
  - unfold due. by rewrite <- EA.
  - unfold due. by rewrite <- EA.
  - unfold prompt, due. cbn. by rewrite <- EA, <- Hhd.
Qed.

(** The initiator receives the acknowledgement. *)
Lemma ack_ok start greeted_at now_ms i w : local_role i0 = Role.kInitiator -> selecting_stage start greeted_at 3 2 i ->
  within start kSelectionTimeoutMs now_ms -> within greeted_at kPairingIdleTimeoutMs now_ms ->
  exists i' w' u, ReceiveFrame (EncodeSelection PairingMessageType.kSelectAck 2 sel) now_ms i w = (i', w', u) /\
    awaiting_stage now_ms now_ms 3 3 false false false i' /\ up_prompt u = Some (prompt now_ms) /\ outbound_frame u = [].
Proof using BD HB HD HN HS Ha Hch Hl Hr Hsides co confirmation_size pairing_size.
  intros Hrole Hs Ht Hi. set (encoded := EncodeSelection PairingMessageType.kSelectAck 2 sel).
  pose proof (selecting_deadline _ _ _ _ _ _ Hs Ht Hi) as Hd.
  set (f := {| fr_type := PairingMessageType.kSelectAck; fr_sequence := 2; fr_fields := selection_fields sel |}).
  assert (Ee : encoded = EncodeFrame (fr_type f) 2 (fr_fields f)) by reflexivity.
  destruct (receive_ok _ _ _ i f encoded now_ms w Ee (se_core _ _ _ _ _ Hs) ltac:(right; right; by left) ltac:(done) ltac:(lia) Hd
    (selection_frame _) eq_refl) as (w' & Hc & ->).
  apply (selecting_counted _ _ _ _ _ _ _ Hs) in Hc. revert Hc. generalize (counted encoded (at_time now_ms i)). clear i Hs Hd. intros i Hs.
  unfold dispatch. replace (fr_type f) with PairingMessageType.kSelectAck by reflexivity. unfold ReceiveSelection.
  pose proof (co_held _ _ _ _ (se_core _ _ _ _ _ Hs)) as [_ _ _ _ _ (_ & ERo & _)].
  rewrite (se_selected _ _ _ _ _ Hs), (co_state _ _ _ _ (se_core _ _ _ _ _ Hs)), ERo, Hrole.
  rewrite bool_decide_eq_true_2 by done. cbn [negb]. replace (negb _ && negb _) with false by reflexivity.
  unfold f. rewrite (DecodeSelection_fields PairingMessageType.kSelectAck 2 sel (or_intror eq_refl) side_selection).
  rewrite bool_decide_eq_true_2 by done. cbn [negb]. by apply (complete_ok start greeted_at).
Qed.

Lemma HandleMatches_own i : held i0 i -> HandleMatches (handle i0) i = true.
Proof using Hh. intros [_ _ _ E _ _]. unfold HandleMatches. by rewrite E, (proj2 (same_bytes_true _ _) eq_refl), Hh. Qed.

(** The acknowledgement of the responder was written. *)
Lemma ack_written_ok start greeted_at now_ms i w : local_role i0 = Role.kResponder -> selecting_stage start greeted_at 3 3 i ->
  selection_ack_pending i = true ->
  within start kSelectionTimeoutMs now_ms -> within greeted_at kPairingIdleTimeoutMs now_ms ->
  exists i' w' u, LocalSelectionAckWritten (handle i0) now_ms i w = (i', w', u) /\
    awaiting_stage now_ms now_ms 3 3 false false false i' /\ up_prompt u = Some (prompt now_ms) /\ outbound_frame u = [].
Proof using BD HB HD HN HS Ha Hch Hh Hl Hr Hsides co confirmation_size pairing_size.
  intros Hrole Hs Hp Ht Hi. pose proof (selecting_deadline _ _ _ _ _ _ Hs Ht Hi) as Hd.
  pose proof (se_core _ _ _ _ _ Hs) as Hc.
  destruct (checked_ok _ _ _ i now_ms w Hc ltac:(right; right; by left) Hd) as [w' E].
  unfold LocalSelectionAckWritten. rewrite E. unfold for_handle.
  rewrite (HandleMatches_own (at_time now_ms i)) by (apply (co_held _ _ _ _ (core_at_time _ _ _ _ now_ms Hc))). cbn [negb].
  replace (local_role (at_time now_ms i)) with (local_role i) by reflexivity.
  replace (state (at_time now_ms i)) with (state i) by reflexivity.
  replace (selection_ack_pending (at_time now_ms i)) with (selection_ack_pending i) by reflexivity.
  pose proof (co_held _ _ _ _ Hc) as [_ _ _ _ _ (_ & ERo & _)]. rewrite ERo, Hrole, (co_state _ _ _ _ Hc), Hp.
  rewrite !bool_decide_eq_true_2 by done. cbn [negb orb]. cbv zeta. apply (complete_ok start greeted_at). apply selecting_noted.
  pose proof (core_at_time _ _ _ _ now_ms Hc) as Hc'. destruct Hs as [_ ? ? ? ? ? ?]. by split.
Qed.

(** *** The decisions *)

(** A call while the decisions are awaited. *)
Definition awaited (prompted_at heard_at now_ms : Z) : Prop :=
  now_ms < CheckedDeadline prompted_at kDecisionTimeoutMs /\ within heard_at kPairingIdleTimeoutMs now_ms.

Lemma awaiting_deadline p h n m d wr c i now_ms : awaiting_stage p h n m d wr c i -> awaited p h now_ms -> now_ms < deadline i.
Proof using Type.
  intros [Hc _ _ E1 E2 _ _ _] [Hp [Ht1 Ht2]]. unfold deadline.
  rewrite (co_state _ _ _ _ Hc), E1, E2, (core_absolute _ _ _ _ Hc). unfold Earlier, due, Earlier. lia.
Qed.

Lemma awaiting_at_time p h n m d wr c i now_ms : awaiting_stage p h n m d wr c i ->
  awaiting_stage p h n m d wr c (at_time now_ms i).
Proof using Type. intros [Hc ? ? ? ? ? ? ?]. apply (core_at_time _ _ _ _ now_ms) in Hc. by split. Qed.

(** The decision a device sends. *)
Definition confirmed_by (role : Role.Role) : AuthenticatedValue :=
  {| av_message := cx_digest ctx ++ [role_code role] ++ [decision_code ConfirmationDecision.kConfirm];
     av_authenticator := hmac_sha256 (confirmation ctx) (cx_digest ctx ++ [role_code role] ++ [decision_code ConfirmationDecision.kConfirm]) |}.

Lemma confirmed_built role :
  BuildConfirmation true (confirmation ctx) ctx role ConfirmationDecision.kConfirm = inr (confirmed_by role).
Proof using confirmation_size.
  unfold BuildConfirmation. by rewrite (proj2 (HmacSha256Secure_inr _ _ _ _) (conj eq_refl (conj (confirmation_size ctx) eq_refl))).
Qed.

Lemma confirmed_frame role sequence : in_width 32 sequence ->
  let frame := {| fr_type := PairingMessageType.kDecision; fr_sequence := sequence; fr_fields := decision_fields (confirmed_by role) |} in
  frame_ok frame /\ DecodeDecision frame =
    inr {| d_message := av_message (confirmed_by role); d_authenticator := av_authenticator (confirmed_by role) |}.
Proof using BD HD.
  intros Hw. apply decision_frame; [done | cbn; rewrite bsize_app, HD; done | apply hmac_sha256_size | | apply hmac_sha256_bytes].
  cbn. apply all_bytes_app. split; [exact BD | repeat constructor; by destruct role].
Qed.

(** This user confirms. *)
Lemma decide_ok p h m c now_ms i w : awaiting_stage p h 3 m false false c i -> awaited p h now_ms ->
  exists i' w' u, Decide (handle i0) ConfirmationDecision.kConfirm now_ms i w = (i', w', u) /\
    awaiting_stage p h 4 m true false c i' /\
    outbound_frame u = EncodeDecision 3 (confirmed_by (local_role i0)) /\ up_prompt u = None.
Proof using BD HD Hh Hl co confirmation_size.
  intros Hs Ht. pose proof (awaiting_deadline _ _ _ _ _ _ _ _ _ Hs Ht) as Hd. pose proof (aw_core _ _ _ _ _ _ _ _ Hs) as Hc.
  destruct (checked_ok _ _ _ i now_ms w Hc ltac:(right; right; by right) Hd) as [w' E]. unfold Decide. rewrite E. unfold for_handle.
  apply (awaiting_at_time _ _ _ _ _ _ _ _ now_ms) in Hs. clear Hc Hd E. revert Hs. generalize (at_time now_ms i). clear i. intros i [Hc EC EE ED EI E1 E2 E3].
  pose proof (co_held _ _ _ _ Hc) as Hhd. rewrite (HandleMatches_own i Hhd). cbn [negb]. rewrite EC, (co_state _ _ _ _ Hc).
  rewrite bool_decide_eq_true_2 by done. cbn [negb]. rewrite E1.
  pose proof (co_crypto w') as E5. destruct (crypto_available w') as [w1 r]. cbn [snd] in E5. subst r.
  pose proof (hd_setup _ _ Hhd) as (_ & ERo & _). rewrite EE, ERo, confirmed_built.
  pose proof (co_out _ _ _ _ Hc) as EO.
  assert (Hne : (bsize (EncodeDecision 3 (confirmed_by (local_role i0))) =? 0) = false).
  { exact (EncodeFrame_nonempty _ (proj1 (confirmed_frame (local_role i0) 3 ltac:(done)))). }
  cbv zeta. replace (next_outbound_sequence (i <| local_decision := _ |>)) with (next_outbound_sequence i) by reflexivity.
  rewrite EO, Hne. eexists _, w1, _. split; [reflexivity |]. split; [| done].
  pose proof (core_sent _ _ _ _ Hc ltac:(lia)) as Hc'. unfold sent in Hc'. rewrite EO in Hc'. clear Hc Hhd ERo EO.
  destruct Hc' as [[? ? ? ? ? (? & ? & ? & ?)] ? ? ? ? ?]. split; done.
Qed.

(** *** The commit *)

(** The attempt ended with the peer that the repository committed for it. *)
Record finished (i : Implementation) (u : PairingUpdate) : Prop := {
  fi_ended : ended i;
  fi_state : state i = PairingState.kPairedLocal;
  fi_terminal : terminal u = true;
  fi_quiet : outbound_frame u = [] /\ up_prompt u = None;
  fi_committed : exists w w' device_id, CommitPeer (commit_of i0) w = (w', Some device_id) /\ paired_peer u = Some device_id;
}.

Lemma commit_ok p h n m i w : awaiting_stage p h n m true true true i ->
  exists i' w' u, MaybeCommit i w = (i', w', u) /\ finished i' u.
Proof using co.
  intros [Hc EC _ _ _ E1 E2 E3]. rewrite MaybeCommit_commits.
  2:{ apply both_confirmed_iff. split_and!; [by apply Hc | done | done | done | by rewrite EC]. }
  assert (Ec : commit_of i = commit_of i0).
  { destruct (co_held _ _ _ _ Hc) as [HC _ _ _ _ (EO & _)]. unfold commit_of, channel_key. by rewrite HC, EO. }
  rewrite Ec. pose proof (co_commit (commit_of i0) w) as [d E]. destruct (CommitPeer (commit_of i0) w) as [w1 r] eqn:EP. cbn [snd] in E. subst r.
  destruct (Paired_spec d (committing i) w1) as (i' & -> & He & ES & _). eexists i', _, _. split; [reflexivity |].
  split; [done | done | done | done | by exists w, w1, d].
Qed.

(** Both decisions are there, or one is awaited. *)
Lemma maybe_commit_ok p h n m wr c i w : awaiting_stage p h n m true wr c i ->
  exists i' w' u, MaybeCommit i w = (i', w', u) /\ outbound_frame u = [] /\ up_prompt u = None /\
    if wr && c then finished i' u else i' = i.
Proof using co.
  intros Hs. destruct (wr && c) eqn:B.
  - apply andb_true_iff in B as [-> ->]. destruct (commit_ok _ _ _ _ _ w Hs) as (i' & w' & u & E & F). exists i', w', u.
    split; [done |]. by destruct (fi_quiet _ _ F).
  - rewrite MaybeCommit_waits; [by eexists _, _, _ |]. destruct Hs as [_ _ _ _ _ _ E2 E3].
    apply not_true_iff_false. rewrite both_confirmed_iff, E2, E3. intros (_ & _ & -> & -> & _). done.
Qed.

(** The confirmation was written. *)
Lemma written_ok p h m c now_ms i w : awaiting_stage p h 4 m true false c i -> awaited p h now_ms ->
  exists i' w' u, LocalDecisionWritten (handle i0) now_ms i w = (i', w', u) /\ outbound_frame u = [] /\ up_prompt u = None /\
    if c then finished i' u else awaiting_stage p h 4 m true true false i'.
Proof using Hh Hl co.
  intros Hs Ht. pose proof (awaiting_deadline _ _ _ _ _ _ _ _ _ Hs Ht) as Hd. pose proof (aw_core _ _ _ _ _ _ _ _ Hs) as Hc.
  destruct (checked_ok _ _ _ i now_ms w Hc ltac:(right; right; by right) Hd) as [w' E]. unfold LocalDecisionWritten. rewrite E. unfold for_handle.
  apply (awaiting_at_time _ _ _ _ _ _ _ _ now_ms) in Hs. clear Hc Hd E. revert Hs. generalize (at_time now_ms i). clear i. intros i [Hc EC EE ED EI E1 E2 E3].
  rewrite (HandleMatches_own i (co_held _ _ _ _ Hc)). cbn [negb]. rewrite (co_state _ _ _ _ Hc), E1.
  rewrite !bool_decide_eq_true_2 by done. cbn [negb orb]. cbv zeta.
  match goal with |- context [MaybeCommit ?x w'] => assert (Hx : awaiting_stage p h 4 m true true c x) end.
  { destruct Hc as [[? ? ? ? ? (? & ? & ? & ?)] ? ? ? ? ?]. by split. }
  destruct (maybe_commit_ok _ _ _ _ _ _ _ w' Hx) as (i' & w1 & u & E & H1 & H2 & H3). exists i', w1, u.
  split; [done |]. split; [done |]. split; [done |]. cbn [andb] in H3. destruct c; [done |]. by rewrite H3.
Qed.

(** The confirmation of the peer. *)
Lemma confirm_ok p h n d wr now_ms i w : awaiting_stage p h n 3 d wr false i -> awaited p h now_ms ->
  exists i' w' u, ReceiveFrame (EncodeDecision 3 (confirmed_by (OppositeRole (local_role i0)))) now_ms i w = (i', w', u) /\
    outbound_frame u = [] /\ up_prompt u = None /\
    if d && wr then finished i' u else awaiting_stage p now_ms n 4 d wr true i'.
Proof using BD HD Hl co confirmation_size.
  intros Hs Ht. pose proof (awaiting_deadline _ _ _ _ _ _ _ _ _ Hs Ht) as Hd. pose proof (aw_core _ _ _ _ _ _ _ _ Hs) as Hc.
  destruct (confirmed_frame (OppositeRole (local_role i0)) 3 ltac:(done)) as [Hok HE].
  set (f := {| fr_type := _ |}) in Hok, HE. set (encoded := EncodeDecision _ _).
  assert (Ee : encoded = EncodeFrame (fr_type f) 3 (fr_fields f)) by reflexivity.
  destruct (receive_ok _ _ _ i f encoded now_ms w Ee Hc ltac:(right; right; by right) ltac:(done) ltac:(lia) Hd Hok eq_refl) as (w' & Hc' & ->).
  assert (Hs' : awaiting_stage p h n 4 d wr false (counted encoded (at_time now_ms i))).
  { destruct Hs as [_ ? ? ? ? ? ? ?]. by split. }
  revert Hs'. generalize (counted encoded (at_time now_ms i)). clear Hs Hc Hc' Hd. clear i. intros i [Hc EC EE ED EI E1 E2 E3].
  unfold dispatch. replace (fr_type f) with PairingMessageType.kDecision by reflexivity. unfold ReceiveDecision.
  rewrite EC, (co_state _ _ _ _ Hc), E3, bool_decide_eq_true_2 by done. cbn [negb orb]. rewrite HE.
  pose proof (co_crypto w') as E5. destruct (crypto_available w') as [w1 r]. cbn [snd] in E5. subst r. cbn [d_message d_authenticator].
  pose proof (hd_setup _ _ (co_held _ _ _ _ Hc)) as (_ & ERo & _). rewrite EE, ERo.
  rewrite (confirmation_delivered _ _ _ _ _ HD (confirmed_built (OppositeRole (local_role i0)))). cbn [cv_outcome verification].
  cbv zeta. pose proof (core_due _ _ _ _ now_ms kPairingIdleTimeoutMs Hc) as EU.
  match goal with |- context [MaybeCommit ?x w1] => assert (Hx : awaiting_stage p now_ms n 4 d wr true x) end.
  { destruct Hc as [[? ? ? ? ? (? & ? & ? & ?)] ? ? ? ? ?]. by split. }
  destruct d; cbn [andb].
  - destruct (maybe_commit_ok _ _ _ _ _ _ _ w1 Hx) as (i' & w2 & u & E & H1 & H2 & H3). exists i', w2, u.
    split; [done |]. split; [done |]. split; [done |]. rewrite andb_true_r in H3. destruct wr; [done |]. by rewrite H3.
  - rewrite MaybeCommit_waits; [by eexists _, _, _ |]. apply not_true_iff_false. rewrite both_confirmed_iff.
    intros (_ & E & _). rewrite (aw_decided _ _ _ _ _ _ _ _ Hx) in E. done.
Qed.

(** *** Moves *)

(** A reading of the clock before the deadline. *)
Lemma tick_ok s n m i now_ms w : core s n m i -> live s -> now_ms < deadline i -> exists w' u,
  Advance now_ms i w = (at_time now_ms i, w', u) /\ outbound_frame u = [] /\ up_prompt u = None.
Proof using co Hl.
  intros Hc HL Ht. pose proof (core_terminal _ _ _ _ Hc HL) as Hn. unfold Advance, CheckDeadline. fold (at_time now_ms i).
  replace (is_terminal (at_time now_ms i)) with (is_terminal i) by reflexivity. rewrite Hn.
  unfold admission_active. replace (admission (at_time now_ms i)) with (admission i) by reflexivity.
  rewrite (hd_admission _ _ (co_held _ _ _ _ Hc)), Hl. pose proof (co_active lease w) as E.
  destruct (lease_active lease w) as [w' active]. cbn [snd] in E. rewrite E. cbn [negb].
  replace (deadline (at_time now_ms i)) with (deadline i) by reflexivity. rewrite (proj2 (Z.ltb_lt _ _) Ht).
  by eexists w', _.
Qed.

(** What holds of the attempt in each phase. *)
Definition on_phase (p : phase) (e : Endpoint W) : Prop :=
  let i := en_attempt e in
  match p with
  | Fresh => fresh_stage i
  | Greeting start => greeting_stage start i
  | Selecting start greeted => selecting_stage start greeted after_hello 2 i
  | Acking start greeted => local_role i0 = Role.kResponder /\ selecting_stage start greeted 3 3 i /\ selection_ack_pending i = true
  | Deciding prompted heard decided written confirmed =>
      awaiting_stage prompted heard (if decided then 4 else 3) (if confirmed then 4 else 3) decided written confirmed i /\
      (written = true -> decided = true) /\ en_prompt e = Some (prompt prompted)
  | Done => exists u prompted, en_update e = Some u /\ finished i u /\ en_prompt e = Some (prompt prompted)
  end.

(** The frames of the two sides. *)
Definition frames_of (role : Role.Role) : list bytes :=
  match role with
  | Role.kInitiator => [EncodeHello 1 Role.kInitiator ki (h_nonce hi) (h_offer hi);
                        EncodeSelection PairingMessageType.kSelect 2 sel; EncodeDecision 3 (confirmed_by Role.kInitiator)]
  | Role.kResponder => [EncodeHello 1 Role.kResponder kr (h_nonce hr) (h_offer hr);
                        EncodeSelection PairingMessageType.kSelectAck 2 sel; EncodeDecision 3 (confirmed_by Role.kResponder)]
  end.

Definition frame_of (role : Role.Role) (k : nat) : bytes := nth k (frames_of role) [].

Lemma frame_given (l : bytes) : (bsize l =? 0) = false -> given l = [l].
Proof using Type. by destruct l. Qed.

Lemma frames_given role k : (k < 3)%nat ->
  given (frame_of role k) = [frame_of role k].
Proof using Ha BD HD.
  intros Hk. apply frame_given.
  assert (HF : forall role sequence, in_width 32 sequence -> (bsize (EncodeDecision sequence (confirmed_by role)) =? 0) = false).
  { intros r q Hq. exact (EncodeFrame_nonempty _ (proj1 (confirmed_frame r q Hq))). }
  pose proof (EncodeFrame_nonempty _ (hello_frame_ok _ _ _ 1 ltac:(done) (ag_initiator _ _ _ _ _ Ha))) as Ni.
  pose proof (EncodeFrame_nonempty _ (hello_frame_ok _ _ _ 1 ltac:(done) (ag_responder _ _ _ _ _ Ha))) as Nr.
  destruct role, k as [| [| [| k]]]; try lia; unfold frame_of; cbn [nth frames_of].
  - exact Ni.
  - apply selection_nonempty.
  - by apply HF.
  - exact Nr.
  - apply selection_nonempty.
  - by apply HF.
Qed.

(** The hellos as each side knows them. *)
Lemma own_hello : local_key i0 = Some (match local_role i0 with Role.kInitiator => ki | Role.kResponder => kr end) /\
  hello_says (local_role i0) (match local_role i0 with Role.kInitiator => ki | Role.kResponder => kr end) (our_hello i0) /\
  frame_of (local_role i0) 0 =
    EncodeHello 1 (local_role i0) (match local_role i0 with Role.kInitiator => ki | Role.kResponder => kr end)
      (local_nonce i0) (po_offer (options i0)).
Proof using Ha Hsides.
  replace (local_key i0) with (h_key (our_hello i0)) by reflexivity.
  replace (local_nonce i0) with (h_nonce (our_hello i0)) by reflexivity.
  replace (po_offer (options i0)) with (h_offer (our_hello i0)) by reflexivity.
  destruct Ha as [HI HR _], Hsides as [(-> & -> & _) | (-> & -> & _)].
  - by split; [destruct HI | split].
  - by split; [destruct HR | split].
Qed.

Lemma peer_hello : frame_of (OppositeRole (local_role i0)) 0 =
  EncodeHello 1 (OppositeRole (local_role i0)) (peer_public_key ch) (h_nonce remote) (h_offer remote).
Proof using Hsides. by destruct Hsides as [(-> & _ & -> & ->) | (-> & _ & -> & ->)]. Qed.

(** In time for the phase is in time for the attempt. *)
Lemma on_phase_deadline p e now_ms : on_phase p e -> p <> Done -> now_ms < limit (absolute_deadline_ms i0) p ->
  now_ms < deadline (en_attempt e).
Proof using Type.
  unfold deadline. intros Hp Hd Ht. destruct p; cbn [on_phase limit] in *; [| | | | | done].
  - destruct Hp as [C _ _]. by rewrite (co_state _ _ _ _ C), (core_absolute _ _ _ _ C).
  - destruct Hp as [C _ _ E1 E2 E3 _]. rewrite (co_state _ _ _ _ C), (core_absolute _ _ _ _ C), E1, E2, E3. unfold due, Earlier.
    revert Ht. rewrite !CheckedDeadline_min. unfold kFirstPairingFrameTimeoutMs, kSelectionTimeoutMs, kPairingIdleTimeoutMs. lia.
  - destruct Hp as [C _ _ _ E1 E2 _]. rewrite (co_state _ _ _ _ C), (core_absolute _ _ _ _ C), E1, E2. unfold due, Earlier. lia.
  - destruct Hp as (_ & [C _ _ _ E1 E2 _] & _). rewrite (co_state _ _ _ _ C), (core_absolute _ _ _ _ C), E1, E2. unfold due, Earlier. lia.
  - destruct Hp as ([C _ _ E1 E2 _ _ _] & _). rewrite (co_state _ _ _ _ C), (core_absolute _ _ _ _ C), E1, E2. unfold due, Earlier. lia.
Qed.

Lemma on_phase_core p e : on_phase p e -> p <> Done -> exists s n m, core s n m (en_attempt e) /\ live s.
Proof using Type.
  intros Hp Hd. destruct p; cbn [on_phase] in Hp; [| | | | | done].
  - destruct Hp as [C _ _]. eexists _, _, _. split; [exact C | by left].
  - destruct Hp as [C _ _ _ _ _ _]. eexists _, _, _. split; [exact C | right; by left].
  - destruct Hp as [C _ _ _ _ _ _]. eexists _, _, _. split; [exact C | right; right; by left].
  - destruct Hp as (_ & [C _ _ _ _ _ _] & _). eexists _, _, _. split; [exact C | right; right; by left].
  - destruct Hp as ([C _ _ _ _ _ _ _] & _). eexists _, _, _. split; [exact C | right; right; by right].
Qed.

(** Only the members of the attempt and the prompt matter before the end. *)
Lemma on_phase_at_time p e now_ms e' : on_phase p e -> p <> Done -> en_attempt e' = at_time now_ms (en_attempt e) ->
  en_prompt e' = en_prompt e -> on_phase p e'.
Proof using Type.
  intros Hp Hd Ee Epr. destruct p; cbn [on_phase] in *; rewrite Ee, ?Epr; [| | | | | done].
  - destruct Hp as [C ? ?]. apply (core_at_time _ _ _ _ now_ms) in C. by split.
  - destruct Hp as [C ? ? ? ? ? ?]. apply (core_at_time _ _ _ _ now_ms) in C. by split.
  - destruct Hp as [C ? ? ? ? ? ?]. apply (core_at_time _ _ _ _ now_ms) in C. by split.
  - destruct Hp as (HR & [C ? ? ? ? ? ?] & Hk). apply (core_at_time _ _ _ _ now_ms) in C. split; [done |]. split; [by split | exact Hk].
  - destruct Hp as (Hs & HW & HP). split; [by apply awaiting_at_time | by split].
Qed.

(** What a move of a side gives: the next phase, and its next frame if it sends one. *)
Definition played (p p' : phase) (rest : list bytes) (x : Endpoint W * list bytes) : Prop :=
  on_phase p' x.1 /\ en_inbox x.1 = rest /\
  x.2 = if Nat.eqb (sent_count (local_role i0) p') (sent_count (local_role i0) p) then []
        else [frame_of (local_role i0) (sent_count (local_role i0) p)].

Lemma took_played p p' rest x e i w u : x = (i, w, u) ->
  given (outbound_frame u) = (if Nat.eqb (sent_count (local_role i0) p') (sent_count (local_role i0) p) then []
     else [frame_of (local_role i0) (sent_count (local_role i0) p)]) ->
  on_phase p' {| en_attempt := i; en_world := w; en_inbox := rest;
       en_prompt := match up_prompt u with Some shown => Some shown | None => en_prompt e end; en_update := Some u |} ->
  played p p' rest (took x rest e).
Proof using Type. intros -> Ho HP. by split. Qed.

Lemma play_tick p t e : on_phase p e -> p <> Done -> t < limit (absolute_deadline_ms i0) p ->
  played p p (en_inbox e) (play (MTick t) e).
Proof using Hl co.
  intros Hp Hd Ht. destruct (on_phase_core p e Hp Hd) as (s & n & m & C & HL).
  destruct (tick_ok s n m _ t (en_world e) C HL (on_phase_deadline p e t Hp Hd Ht)) as (w' & u & E & O & U).
  eapply took_played; [exact E | rewrite O, Nat.eqb_refl; done |]. rewrite U. by apply (on_phase_at_time p e t).
Qed.

Lemma play_start t e : on_phase Fresh e -> t < limit (absolute_deadline_ms i0) Fresh ->
  played Fresh (Greeting t) (en_inbox e) (play (MStart t) e).
Proof using Ha Hl Hsides co BD HD.
  intros Hp Ht. destruct own_hello as (Hk & Hs & Ef).
  destruct (start_ok _ t _ (en_world e) Hp Hk Hs Ht) as (i' & w' & u & E & G & O & U).
  eapply took_played; [exact E | | exact G]. rewrite O, <- Ef. apply (frames_given _ 0). lia.
Qed.

Lemma limit_within start timeout now_ms : now_ms < Z.min (absolute_deadline_ms i0) (CheckedDeadline start timeout) ->
  within start timeout now_ms.
Proof using Type. unfold within. lia. Qed.

Lemma limit_selecting start greeted now_ms : now_ms < limit (absolute_deadline_ms i0) (Selecting start greeted) ->
  within start kSelectionTimeoutMs now_ms /\ within greeted kPairingIdleTimeoutMs now_ms.
Proof using Type. cbn [limit]. unfold within. lia. Qed.

Lemma limit_deciding p h d wr c now_ms : now_ms < limit (absolute_deadline_ms i0) (Deciding p h d wr c) -> awaited p h now_ms.
Proof using Type. cbn [limit]. unfold awaited, within. lia. Qed.

Lemma play_hello start t e rest : on_phase (Greeting start) e -> t < limit (absolute_deadline_ms i0) (Greeting start) ->
  en_inbox e = frame_of (OppositeRole (local_role i0)) 0 :: rest ->
  played (Greeting start) (Selecting start t) rest (play (MReceive t) e).
Proof using Ha Hch Hkeys Hl Hsides co BD HD.
  intros Hp Ht Hin. destruct (hello_ok start t _ (en_world e) Hp (limit_within _ _ _ Ht)) as (i' & w' & u & E & G & O & U).
  rewrite <- peer_hello in E. cbn [play]. rewrite Hin. eapply took_played; [exact E | | exact G]. rewrite O. cbn [sent_count].
  destruct Hsides as [(-> & _) | (-> & _)]; [| done]. apply (frames_given Role.kInitiator 1). lia.
Qed.

Lemma play_selection start greeted t e rest p' : on_phase (Selecting start greeted) e ->
  t < limit (absolute_deadline_ms i0) (Selecting start greeted) ->
  en_inbox e = frame_of (OppositeRole (local_role i0)) 1 :: rest ->
  advance (local_role i0) (Selecting start greeted) (MReceive t) = Some p' ->
  played (Selecting start greeted) p' rest (play (MReceive t) e).
Proof using All.
  intros Hp [T1 T2]%limit_selecting Hin Hm. cbn [on_phase] in Hp. unfold after_hello in Hp. cbn [play]. rewrite Hin.
  assert (local_role i0 = Role.kInitiator \/ local_role i0 = Role.kResponder) as [ER | ER] by (destruct (local_role i0); auto);
    rewrite ER in Hp, Hm |- *; cbn in Hm; injection Hm as <-.
  - destruct (ack_ok start greeted t _ (en_world e) ER Hp T1 T2) as (i' & w' & u & E & G & U & O).
    eapply took_played; [exact E | rewrite ER, O; done |]. rewrite U. by split.
  - destruct (select_ok start greeted t _ (en_world e) ER Hp T1 T2) as (i' & w' & u & E & G & Hk & O & U).
    eapply took_played; [exact E | | by split]. rewrite ER, O. apply (frames_given Role.kResponder 1). lia.
Qed.

Lemma play_ack_written start greeted t e : on_phase (Acking start greeted) e ->
  t < limit (absolute_deadline_ms i0) (Acking start greeted) ->
  played (Acking start greeted) (Deciding t t false false false) (en_inbox e) (play (MAckWritten t) e).
Proof using All.
  intros Hp [T1 T2]%limit_selecting. pose proof Hp as (ER & G0 & Hk). cbn [play].
  rewrite (hd_handle _ _ (co_held _ _ _ _ (se_core _ _ _ _ _ G0))).
  destruct (ack_written_ok start greeted t _ (en_world e) ER G0 Hk T1 T2) as (i' & w' & u & E & G & U & O).
  eapply took_played; [exact E | rewrite O; done |]. rewrite U. by split.
Qed.

Lemma play_confirm p h wr c t e : on_phase (Deciding p h false wr c) e -> t < limit (absolute_deadline_ms i0) (Deciding p h false wr c) ->
  played (Deciding p h false wr c) (Deciding p h true wr c) (en_inbox e) (play (MConfirm t) e).
Proof using All.
  intros (Hs & Hw & Hpr) T%limit_deciding. destruct wr; [by specialize (Hw eq_refl) |]. cbn [play].
  rewrite (hd_handle _ _ (co_held _ _ _ _ (aw_core _ _ _ _ _ _ _ _ Hs))).
  destruct (decide_ok p h _ c t _ (en_world e) Hs T) as (i' & w' & u & E & G & O & U).
  eapply took_played; [exact E | | by rewrite U; split]. rewrite O. cbn [sent_count Nat.eqb].
  pose proof (frames_given (local_role i0) 2 ltac:(lia)) as Hf. revert Hf. unfold frame_of. by destruct (local_role i0).
Qed.

Lemma play_written p h c t e : on_phase (Deciding p h true false c) e -> t < limit (absolute_deadline_ms i0) (Deciding p h true false c) ->
  played (Deciding p h true false c) (if c then Done else Deciding p h true true false) (en_inbox e) (play (MWritten t) e).
Proof using All.
  intros (Hs & Hw & Hpr) T%limit_deciding. cbn [play].
  rewrite (hd_handle _ _ (co_held _ _ _ _ (aw_core _ _ _ _ _ _ _ _ Hs))).
  destruct (written_ok p h _ c t _ (en_world e) Hs T) as (i' & w' & u & E & O & U & G).
  eapply took_played; [exact E | rewrite O; by destruct c |]. rewrite U. destruct c; [by exists u, p | by split].
Qed.

Lemma play_heard p h d wr t e rest : on_phase (Deciding p h d wr false) e -> t < limit (absolute_deadline_ms i0) (Deciding p h d wr false) ->
  en_inbox e = frame_of (OppositeRole (local_role i0)) 2 :: rest ->
  played (Deciding p h d wr false) (if d && wr then Done else Deciding p t d wr true) rest (play (MReceive t) e).
Proof using All.
  intros (Hs & Hw & Hpr) T%limit_deciding Hin. cbn [play]. rewrite Hin.
  destruct (confirm_ok p h _ d wr t _ (en_world e) Hs T) as (i' & w' & u & E & O & U & G).
  eapply took_played; [rewrite <- E; f_equal; unfold frame_of; by destruct (local_role i0) | rewrite O; by destruct d, wr |].
  rewrite U. destruct d, wr; cbn [andb] in *; first [by exists u, p | by split].
Qed.

(** Every move of the protocol in time brings the attempt to the next phase. *)
Lemma play_ok p m p' e rest : on_phase p e -> advance (local_role i0) p m = Some p' ->
  move_time m < limit (absolute_deadline_ms i0) p ->
  en_inbox e = (if receives m then [frame_of (OppositeRole (local_role i0)) (received_count p)] else []) ++ rest ->
  played p p' rest (play m e).
Proof using All.
  intros Hp Hm Ht Hin. destruct m; cbn [receives app move_time] in Hin, Ht.
  - destruct p as [| | | | p h [] [] [] |]; try done. injection Hm as <-. rewrite <- Hin. by apply play_start.
  - destruct p as [| start | start greeted | | p h d wr c |]; try done.
    + injection Hm as <-. by apply play_hello.
    + by apply (play_selection start greeted).
    + destruct c; [by destruct d, wr |].
      assert (p' = if d && wr then Done else Deciding p t d wr true) as -> by (by destruct d, wr; injection Hm as <-).
      by apply play_heard.
  - destruct p as [| | | | p h [] [] [] |]; try done. injection Hm as <-. rewrite <- Hin. by apply play_ack_written.
  - destruct p as [| | | | p h d wr c |]; try done. destruct d; [by destruct wr, c |].
    rewrite <- Hin. destruct wr, c; injection Hm as <-; by apply play_confirm.
  - destruct p as [| | | | p h d wr c |]; try done. destruct d, wr; try by destruct c.
    rewrite <- Hin. assert (p' = if c then Done else Deciding p h true true false) as -> by (by destruct c; injection Hm as <-).
    by apply play_written.
  - assert (p' = p /\ p <> Done) as [-> Hd].
    { destruct p as [| | | | p h [] [] [] |]; try done; by injection Hm as <-. }
    rewrite <- Hin. by apply play_tick.
Qed.

(** The calls of an initiator from its start to the commit, all at one time. *)
Definition deciding_calls (t : Z) : list (AttemptCall W) :=
  [AStart t; AFrame (frame_of Role.kResponder 0) t; AFrame (frame_of Role.kResponder 1) t;
   ADecide (handle i0) ConfirmationDecision.kConfirm t; ADecisionWritten (handle i0) t].

Lemma deciding_calls_commit opts t w : created opts i0 -> local_role i0 = Role.kInitiator ->
  t < absolute_deadline_ms i0 -> t < umax 64 ->
  is_terminal (run (deciding_calls t) i0 w).1 = false /\
  is_Some (paired_peer (call (AFrame (frame_of Role.kResponder 2) t) (run (deciding_calls t) i0 w).1 (run (deciding_calls t) i0 w).2).2).
Proof using All.
  intros Hcr ER T1 T2. assert (T : forall timeout, 0 < timeout -> within t timeout t) by
    (intros d Hd; unfold within; rewrite CheckedDeadline_min; lia).
  assert (TA : awaited t t t) by (split; [apply (T kDecisionTimeoutMs) | apply T]; done).
  destruct own_hello as (Hk & Hs & _).
  destruct (start_ok _ t i0 w (created_fresh _ Hcr) Hk Hs T1) as (i1 & w1 & u1 & E1 & G1 & _).
  destruct (hello_ok t t i1 w1 G1 (T kFirstPairingFrameTimeoutMs ltac:(done))) as (i2 & w2 & u2 & E2 & G2 & _).
  rewrite <- peer_hello, ER in E2. cbn [OppositeRole] in E2. unfold after_hello in G2. rewrite ER in G2.
  destruct (ack_ok t t t i2 w2 ER G2 (T kSelectionTimeoutMs ltac:(done)) (T kPairingIdleTimeoutMs ltac:(done))) as (i3 & w3 & u3 & E3 & G3 & _).
  destruct (decide_ok t t 3 false t i3 w3 G3 TA) as (i4 & w4 & u4 & E4 & G4 & _).
  destruct (written_ok t t 3 false t i4 w4 G4 TA) as (i5 & w5 & u5 & E5 & _ & _ & G5).
  destruct (confirm_ok t t 4 true true t i5 w5 G5 TA) as (i6 & w6 & u6 & E6 & _ & _ & G6). rewrite ER in E6. cbn [OppositeRole] in E6.
  assert (E3' : ReceiveFrame (frame_of Role.kResponder 1) t i2 w2 = (i3, w3, u3)) by exact E3.
  assert (Er : run (deciding_calls t) i0 w = (i5, w5)).
  { unfold run, deciding_calls. cbn [fold_left call fst snd]. rewrite E1. cbn [fst snd]. rewrite E2. cbn [fst snd].
    rewrite E3'. cbn [fst snd]. rewrite E4. cbn [fst snd]. by rewrite E5. }
  rewrite Er. cbn [fst snd call]. split.
  - apply (core_terminal _ _ _ _ (aw_core _ _ _ _ _ _ _ _ G5)). right. right. by right.
  - unfold frame_of. cbn [nth frames_of]. rewrite E6. cbn [snd]. destruct (fi_committed _ _ G6) as (? & ? & d & _ & ->). done.
Qed.

End Met.

End Side.

(** ** The exchange

    Two attempts at the two ends of a connection that delivers the frames of each
    to the other, in order. The calls of the two sides come in any order. *)

(** The schedules in which every call is one of the protocol: it comes when the
    side is ready for it and before its deadline, and a frame is received after
    it was sent. [ai] and [ar] are the deadlines of the two attempts. *)
Definition allow (absolute : Z) (role : Role.Role) (mine peer : phase) (m : move) : option phase :=
  if (move_time m <? limit absolute mine) &&
     (negb (receives m) || Nat.ltb (received_count mine) (sent_count (OppositeRole role) peer))
  then advance role mine m else None.

Definition follow_one (ai ar : Z) (x : phase * phase) (event : Role.Role * move) : option (phase * phase) :=
  let '(p, q) := x in
  match event.1 with
  | Role.kInitiator => option_map (fun p => (p, q)) (allow ai Role.kInitiator p q event.2)
  | Role.kResponder => option_map (fun q => (p, q)) (allow ar Role.kResponder q p event.2)
  end.

Fixpoint follow (ai ar : Z) (x : phase * phase) (schedule : list (Role.Role * move)) : option (phase * phase) :=
  match schedule with
  | [] => Some x
  | event :: schedule =>
      match follow_one ai ar x event with
      | None => None
      | Some x => follow ai ar x schedule
      end
  end.

(** The side has shown its prompt. *)
Definition shown (p : phase) : bool :=
  match p with Deciding _ _ _ _ _ | Done => true | _ => false end.

Lemma advance_counts role p m p' : advance role p m = Some p' ->
  received_count p' = (received_count p + if receives m then 1 else 0)%nat /\
  (sent_count role p' = sent_count role p \/ sent_count role p' = S (sent_count role p)).
Proof.
  destruct p as [| | | | p h [] [] [] |], m; try done; cbn;
    destruct role; intros [= <-]; cbn; (split; [lia | auto]).
Qed.

(** What holds of the phases of a side in a schedule. *)
Definition sound_phase (role : Role.Role) (p : phase) : Prop :=
  match p with
  | Acking _ _ => role = Role.kResponder
  | Deciding _ _ decided written confirmed => (written = true -> decided = true) /\ (decided && written && confirmed = false)
  | _ => True
  end.

Lemma advance_sound role p m p' : sound_phase role p -> advance role p m = Some p' -> sound_phase role p'.
Proof.
  destruct p as [| | | | p h [] [] [] |], m; try done; cbn; intros Hs; destruct role; intros [= <-]; cbn;
    intuition congruence.
Qed.

(** As long as a side is not done, some side has a call to make, and makes it
    whenever it is in time. *)
Definition productive : list (Z -> move) := [MStart; MReceive; MAckWritten; MConfirm; MWritten].

Definition never_stuck (ai ar : Z) (x : phase * phase) : Prop :=
  x = (Done, Done) \/
  exists role next, In next productive /\
    forall t, t < match role with Role.kInitiator => limit ai x.1 | Role.kResponder => limit ar x.2 end ->
      is_Some (follow_one ai ar x (role, next t)).

Lemma one_goes ai ar p q role next : In next productive ->
  (forall t, t < match role with Role.kInitiator => limit ai p | Role.kResponder => limit ar q end ->
     is_Some (follow_one ai ar (p, q) (role, next t))) -> never_stuck ai ar (p, q).
Proof. intros H1 H2. right. by exists role, next. Qed.

Ltac goes role next :=
  apply (one_goes _ _ _ _ role next); [cbn; tauto |]; let t := fresh in let Ht := fresh in intros t Ht;
  unfold follow_one, allow; cbn [fst snd move_time]; rewrite (proj2 (Z.ltb_lt _ _) Ht); cbn; done.

Lemma sound_never_stuck ai ar p q : sound_phase Role.kInitiator p -> sound_phase Role.kResponder q ->
  (received_count p <= sent_count Role.kResponder q)%nat -> (received_count q <= sent_count Role.kInitiator p)%nat ->
  never_stuck ai ar (p, q).
Proof.
  intros Hp Hq H1 H2.
  destruct p as [| | | | p h [] [] [] |], q as [| | | | p' h' [] [] [] |];
    cbn [sound_phase received_count sent_count andb] in *; try lia;
    try (exfalso; clear - Hp; intuition congruence); try (exfalso; clear - Hq; intuition congruence);
    first [by left | goes Role.kInitiator MStart | goes Role.kResponder MStart | goes Role.kInitiator MReceive
      | goes Role.kResponder MReceive | goes Role.kResponder MAckWritten | goes Role.kInitiator MConfirm
      | goes Role.kResponder MConfirm | goes Role.kInitiator MWritten | goes Role.kResponder MWritten].
Qed.

(** The frames of a list on their way: sent up to the [n]th, received up to the [k]th. *)
Definition on_the_way (frame : nat -> bytes) (k n : nat) : list bytes := List.map frame (seq k (n - k)).

Lemma on_the_way_next frame k n : (k < n)%nat -> on_the_way frame k n = frame k :: on_the_way frame (k + 1) n.
Proof. intros Hk. unfold on_the_way. replace (n - k)%nat with (S (n - (k + 1))) by lia. cbn [seq List.map]. by rewrite Nat.add_1_r. Qed.

Lemma on_the_way_more frame k n : (k <= n)%nat -> on_the_way frame k (S n) = on_the_way frame k n ++ [frame n].
Proof.
  intros Hk. unfold on_the_way. replace (S n - k)%nat with (n - k + 1)%nat by lia. rewrite seq_app, List.map_app. cbn.
  by replace (k + (n - k))%nat with n by lia.
Qed.

Definition deliver {W} (out : list bytes) (e : Endpoint W) : Endpoint W :=
  {| en_attempt := en_attempt e; en_world := en_world e; en_inbox := en_inbox e ++ out; en_prompt := en_prompt e;
     en_update := en_update e |}.

Section Exchange.
Context `{Sha256Crypto} {W V : Type} {env_initiator : PairingEnvironment W} {env_responder : PairingEnvironment V}.

(** A call of one side; what it sends is on its way to the other. *)
Definition exchange_step (x : Endpoint W * Endpoint V) (event : Role.Role * move) : Endpoint W * Endpoint V :=
  let '(a, b) := x in
  match event.1 with
  | Role.kInitiator => let '(a, out) := play event.2 a in (a, deliver out b)
  | Role.kResponder => let '(b, out) := play event.2 b in (deliver out a, b)
  end.

Definition exchange (schedule : list (Role.Role * move)) (x : Endpoint W * Endpoint V) : Endpoint W * Endpoint V :=
  fold_left exchange_step schedule x.

(** *** Both sides

    What the moves of each side do, however its phases are characterised. *)
Section System.
Context (ai ar : Z) (frame : Role.Role -> nat -> bytes).

Definition moves {U} {env : PairingEnvironment U} (absolute : Z) (role : Role.Role) (P : phase -> Endpoint U -> Prop) : Prop :=
  forall p m p' e rest, P p e -> advance role p m = Some p' -> move_time m < limit absolute p ->
  en_inbox e = (if receives m then [frame (OppositeRole role) (received_count p)] else []) ++ rest ->
  P p' (play m e).1 /\ en_inbox (play m e).1 = rest /\
  (play m e).2 = if Nat.eqb (sent_count role p') (sent_count role p) then [] else [frame role (sent_count role p)].

Context (P : phase -> Endpoint W -> Prop) (Q : phase -> Endpoint V -> Prop).
Context (HP : moves ai Role.kInitiator P) (HQ : moves ar Role.kResponder Q).
Context (DP : forall p e out, P p e -> P p (deliver out e)) (DQ : forall q e out, Q q e -> Q q (deliver out e)).

Record system_ok (x : phase * phase) (y : Endpoint W * Endpoint V) : Prop := {
  so_initiator : P x.1 y.1 /\ sound_phase Role.kInitiator x.1;
  so_responder : Q x.2 y.2 /\ sound_phase Role.kResponder x.2;
  so_to_initiator : (received_count x.1 <= sent_count Role.kResponder x.2)%nat /\
    en_inbox y.1 = on_the_way (frame Role.kResponder) (received_count x.1) (sent_count Role.kResponder x.2);
  so_to_responder : (received_count x.2 <= sent_count Role.kInitiator x.1)%nat /\
    en_inbox y.2 = on_the_way (frame Role.kInitiator) (received_count x.2) (sent_count Role.kInitiator x.1);
}.

(** A move of one side [mine], with the frames on the way to it from the [peer]. *)
Lemma side_move {U} {env : PairingEnvironment U} absolute role (R : phase -> Endpoint U -> Prop) mine peer m mine' e (HR : moves absolute role R) :
  R mine e -> sound_phase role mine -> allow absolute role mine peer m = Some mine' ->
  (received_count mine <= sent_count (OppositeRole role) peer)%nat ->
  en_inbox e = on_the_way (frame (OppositeRole role)) (received_count mine) (sent_count (OppositeRole role) peer) ->
  R mine' (play m e).1 /\ sound_phase role mine' /\
  (received_count mine' <= sent_count (OppositeRole role) peer)%nat /\
  en_inbox (play m e).1 = on_the_way (frame (OppositeRole role)) (received_count mine') (sent_count (OppositeRole role) peer) /\
  forall k, (k <= sent_count role mine)%nat -> (k <= sent_count role mine')%nat /\
    on_the_way (frame role) k (sent_count role mine) ++ (play m e).2 = on_the_way (frame role) k (sent_count role mine').
Proof using Type.
  intros Hr Hs Hallow Hle Hin. unfold allow in Hallow. destruct (_ && _) eqn:B; [| done]. apply andb_true_iff in B as [B1 B2].
  apply Z.ltb_lt in B1. destruct (advance_counts _ _ _ _ Hallow) as [C1 C2].
  assert (Hlt : receives m = true -> (received_count mine < sent_count (OppositeRole role) peer)%nat).
  { intros Em. rewrite Em in B2. by apply Nat.ltb_lt in B2. }
  destruct (HR mine m mine' e (on_the_way (frame (OppositeRole role)) (received_count mine') (sent_count (OppositeRole role) peer)) Hr Hallow B1)
    as (H1 & H2 & H3).
  { rewrite Hin, C1. destruct (receives m); [| by rewrite Nat.add_0_r]. apply on_the_way_next. auto. }
  split; [done |]. split; [by apply (advance_sound role mine m) |]. split; [destruct (receives m); [specialize (Hlt eq_refl) |]; lia |].
  split; [done |]. intros k Hk. rewrite H3. destruct C2 as [C2 | C2]; rewrite C2.
  - by rewrite Nat.eqb_refl, app_nil_r.
  - replace (Nat.eqb _ _) with false by (symmetry; apply Nat.eqb_neq; lia). split; [lia |]. by rewrite on_the_way_more.
Qed.

Lemma system_step x event x' y : system_ok x y -> follow_one ai ar x event = Some x' -> system_ok x' (exchange_step y event).
Proof using HP HQ DP DQ.
  intros [[Hp Sp] [Hq Sq] [L1 E1] [L2 E2]] Hf. destruct x as [p q], y as [a b], event as [role m]. cbn [fst snd] in *.
  destruct role; cbn [follow_one fst snd exchange_step] in *.
  - destruct (allow ai Role.kInitiator p q m) as [p' |] eqn:Ea; [| done]. injection Hf as <-.
    destruct (side_move ai Role.kInitiator P p q m p' a HP Hp Sp Ea L1 E1) as (H1 & H2 & H3 & H4 & H5).
    destruct (play m a) as [a' out]. cbn [fst snd] in *. destruct (H5 _ L2) as [H6 H7].
    split; cbn [fst snd]; [by split | by split; [apply DQ |] | by split | split; [done |]]. cbn [deliver en_inbox]. by rewrite E2.
  - destruct (allow ar Role.kResponder q p m) as [q' |] eqn:Ea; [| done]. injection Hf as <-.
    destruct (side_move ar Role.kResponder Q q p m q' b HQ Hq Sq Ea L2 E2) as (H1 & H2 & H3 & H4 & H5).
    destruct (play m b) as [b' out]. cbn [fst snd] in *. destruct (H5 _ L1) as [H6 H7].
    split; cbn [fst snd]; [by split; [apply DP |] | by split | split; [done |] | by split]. cbn [deliver en_inbox]. by rewrite E1.
Qed.

Lemma system_run x schedule x' y : system_ok x y -> follow ai ar x schedule = Some x' -> system_ok x' (exchange schedule y).
Proof using HP HQ DP DQ.
  revert x y. induction schedule as [| event schedule IH]; intros x y Hy Hf; cbn in Hf; [by injection Hf as <- |].
  destruct (follow_one ai ar x event) as [x1 |] eqn:E; [| done]. cbn [exchange fold_left]. apply (IH x1); [| done].
  by apply (system_step x).
Qed.

End System.

(** Two devices at the ends of one connection: each has the key of the other as
    the key of its channel; both connections export the same secrets. *)
Record meet (i r : Implementation) : Prop := {
  mt_roles : local_role i = Role.kInitiator /\ local_role r = Role.kResponder;
  mt_keys : local_key i = Some (channel_key r) /\ local_key r = Some (channel_key i);
  mt_bytes : all_bytes (channel_key i) /\ all_bytes (channel_key r);
  mt_nonces : (bsize (local_nonce i) = 32 /\ all_bytes (local_nonce i)) /\ (bsize (local_nonce r) = 32 /\ all_bytes (local_nonce r));
  mt_offers : offer_typed (po_offer (options i)) /\ offer_typed (po_offer (options r));
  mt_selection : exists selected, Select (po_offer (options i)) (po_offer (options r)) = inr selected;
}.

(** ** The theorem *)

(** A side that is done has ended with the peer committed; any other goes on. *)
Definition settled {U} {env : PairingEnvironment U} (i0 : Implementation) (p : phase) (e : Endpoint U) : Prop :=
  match p with
  | Done => exists u, en_update e = Some u /\ finished i0 (en_attempt e) u
  | _ => is_terminal (en_attempt e) = false
  end.

Lemma on_phase_settled {U} {env : PairingEnvironment U} {confirmation : Context -> bytes} i0 remote sel ctx sas p (e : Endpoint U) :
  on_phase (confirmation := confirmation) i0 remote sel ctx sas p e -> settled i0 p e.
Proof.
  intros Hp. assert (p = Done \/ p <> Done) as [-> | Hd] by (destruct p; auto; by right).
  - destruct Hp as (u & pr & H1 & H2 & _). by exists u.
  - destruct (on_phase_core _ _ _ _ _ _ _ Hp Hd) as (s & n & m & C & HL).
    pose proof (core_terminal _ _ _ _ _ C HL). by destruct p.
Qed.

Lemma on_phase_shown {U} {env : PairingEnvironment U} {confirmation : Context -> bytes} i0 remote sel ctx sas p (e : Endpoint U) :
  on_phase (confirmation := confirmation) i0 remote sel ctx sas p e -> shown p = true ->
  exists prompted, en_prompt e = Some (prompt i0 sas prompted).
Proof. destruct p; try done; cbn [on_phase]; [intros (_ & _ & E) _ | intros (_ & pr & _ & _ & E) _]; eauto. Qed.

(** C3: Two attempts at the ends of one connection complete, in whatever order
    the calls of the two sides come. In every schedule whose calls are calls of
    the protocol (the start, the next frame the peer has sent, the notice that
    the acknowledgement or the confirmation was written, the confirmation of the
    user, readings of the clock), each made when its side is ready for it and
    before its deadline, and when nothing the attempts use fails: no side ends
    before it is done; a side that is done has ended paired, with the identifier
    its repository returned for the commit of the key of the other; when both
    have shown their prompt the five words are the same; and until both are done
    some side has a call to make, which is one of the protocol at every time
    before its deadline. *)
Theorem pairing_completes {log_initiator : CommitLog (W := W)} {log_responder : CommitLog (W := V)}
    (pairing confirmation : Context -> bytes) ci cr li lr oi or_ wi wr i r w v ui ur schedule p q :
  Cooperates (W := W) pairing confirmation -> Cooperates (W := V) pairing confirmation ->
  (forall ctx, bsize (pairing ctx) = kSha256Size) -> (forall ctx, bsize (confirmation ctx) = kSha256Size) ->
  Create ci li oi wi = (w, Some i, ui) -> Create cr lr or_ wr = (v, Some r, ur) -> meet i r ->
  follow (absolute_deadline_ms i) (absolute_deadline_ms r) (Fresh, Fresh) schedule = Some (p, q) ->
  let x := exchange schedule (idle i w, idle r v) in
  settled i p x.1 /\ settled r q x.2 /\
  (shown p = true -> shown q = true -> exists pi pr, en_prompt x.1 = Some pi /\ en_prompt x.2 = Some pr /\
     pp_sas_word_indices pi = pp_sas_word_indices pr /\ length (pp_sas_word_indices pi) = 5%nat) /\
  never_stuck (absolute_deadline_ms i) (absolute_deadline_ms r) (p, q).
Proof.
  intros Ci Cr SP SC [HCi _]%Create_spec [HCr _]%Create_spec [[Ri Rr] [Ki Kr] [Bi Br] [Ni Nr] [Oi Or] [sel HX]] Hf x.
  pose proof (meet_hello _ _ _ HCi Ki Br Ni Oi) as Si. pose proof (meet_hello _ _ _ HCr Kr Bi Nr Or) as Sr.
  assert (Ha : agreement (channel_key r) (channel_key i) (our_hello i) (our_hello r) sel).
  { rewrite Ri in Si. rewrite Rr in Sr. by split. }
  assert (Hne : channel_key r <> channel_key i) by (destruct (ct_key _ _ HCi) as (k & E & _ & Hk); congruence).
  destruct (agreement_context _ _ _ _ _ Ha) as (negotiation & ctx & HN & HB & HD & BD).
  destruct (DeriveSasWords_complete (pairing ctx) ctx (SP ctx) HD BD) as [sas HS].
  destruct (ct_held _ _ HCi) as ([chi Ei] & [lei Li] & [rei Rei]), (ct_held _ _ HCr) as ([chr Er] & [ler Lr] & [rer Rer]).
  assert (Pi : peer_public_key chi = channel_key i) by (unfold channel_key; by rewrite Ei).
  assert (Pr : peer_public_key chr = channel_key r) by (unfold channel_key; by rewrite Er).
  destruct (ct_secrets _ _ HCi) as [Zi _], (ct_secrets _ _ HCr) as [Zr _].
  pose proof (play_ok (W := W) (co := Ci) SP SC i lei rei chi Li Rei Ei Zi _ _ _ _ (our_hello r) sel Ha Hne
    (or_introl (conj Ri (conj eq_refl (conj eq_refl Pi)))) negotiation ctx sas HN HB HD BD HS) as Hi.
  pose proof (play_ok (W := V) (co := Cr) SP SC r ler rer chr Lr Rer Er Zr _ _ _ _ (our_hello i) sel Ha Hne
    (or_intror (conj Rr (conj eq_refl (conj eq_refl Pr)))) negotiation ctx sas HN HB HD BD HS) as Hr.
  unfold played in Hi, Hr. rewrite Ri in Hi. rewrite Rr in Hr.
  pose proof (system_run (absolute_deadline_ms i) (absolute_deadline_ms r)
    (frame_of (confirmation := confirmation) (channel_key r) (channel_key i) (our_hello i) (our_hello r) sel ctx)
    (on_phase (confirmation := confirmation) i (our_hello r) sel ctx sas)
    (on_phase (confirmation := confirmation) r (our_hello i) sel ctx sas) Hi Hr) as Hrun.
  destruct (Hrun ltac:(intros [] ? ?; done) ltac:(intros [] ? ?; done) (Fresh, Fresh) schedule (p, q) (idle i w, idle r v))
    as [[Hp Sp] [Hq Sq] [L1 _] [L2 _]]; [| done |].
  { split; cbn; try done; (split; [| done]); [exact (created_fresh i _ HCi) | exact (created_fresh r _ HCr)]. }
  fold x in Hp, Hq. cbn [fst snd] in *.
  split; [exact (on_phase_settled _ _ _ _ _ _ _ Hp) |]. split; [exact (on_phase_settled _ _ _ _ _ _ _ Hq) |]. split.
  - intros Hsp Hsq. destruct (on_phase_shown _ _ _ _ _ _ _ Hp Hsp) as [a Ea], (on_phase_shown _ _ _ _ _ _ _ Hq Hsq) as [b Eb].
    eexists _, _. split; [exact Ea |]. split; [exact Eb |]. split; [reflexivity |]. apply (sas_words_faithful _ _ _ _ HS).
  - by apply sound_never_stuck.
Qed.

End Exchange.

(** ** The exchange of an example *)

Module PairingExchangeExample.
Import SecurityProfileExample SessionWireExample PairingAttemptExample.
#[local] Existing Instance example_crypto.

Lemma devices_cooperate : Cooperates (W := Device) (fun _ => repeat 1 32) (fun _ => repeat 2 32).
Proof. by split; intros; try eexists. Qed.

Definition attempt_i : Implementation := attempt_of offer_a initiator.
Definition attempt_r : Implementation := attempt_of offer_b responder.

Lemma devices_meet : meet attempt_i attempt_r.
Proof.
  split; [done | done | | | exact offers_typed | by exists selected].
  - split; apply (bool_decide_eq_true_1 _); by vm_compute.
  - split; (split; [done | apply (bool_decide_eq_true_1 _); by vm_compute]).
Qed.

(** The responder is the first to confirm: its confirmation reaches the
    initiator before the user there has decided, and the initiator commits when
    its own was written. *)
Definition schedule : list (Role.Role * move) :=
  [(Role.kResponder, MStart 2000); (Role.kInitiator, MStart 2050); (Role.kInitiator, MReceive 2100); (Role.kResponder, MReceive 2110);
   (Role.kResponder, MReceive 2200); (Role.kInitiator, MReceive 2250); (Role.kResponder, MAckWritten 2300); (Role.kInitiator, MTick 2400);
   (Role.kResponder, MConfirm 9000); (Role.kInitiator, MReceive 9050); (Role.kResponder, MWritten 9100);
   (Role.kInitiator, MConfirm 20000); (Role.kResponder, MReceive 20100); (Role.kInitiator, MWritten 20200)].

Lemma pairing_completes_witness :
  let x := exchange schedule (idle attempt_i initiator, idle attempt_r responder) in
  state (en_attempt x.1) = PairingState.kPairedLocal /\ state (en_attempt x.2) = PairingState.kPairedLocal /\
  option_map pp_sas_word_indices (en_prompt x.1) = option_map pp_sas_word_indices (en_prompt x.2).
Proof.
  destruct (pairing_completes (fun _ => repeat 1 32) (fun _ => repeat 2 32) _ _ _ _ _ _ _ _ attempt_i attempt_r _ _ _ _ schedule Done Done
    devices_cooperate devices_cooperate (fun _ => eq_refl) (fun _ => eq_refl) initiator_created responder_created devices_meet
    ltac:(by vm_compute)) as ((u & _ & H1) & (u' & _ & H2) & H3 & _).
  destruct (H3 eq_refl eq_refl) as (a & b & E1 & E2 & E3 & _).
  split; [apply H1 |]. split; [apply H2 |]. rewrite E1, E2. cbn [option_map]. by rewrite E3.
Defined.

(** The initiator and the hello of the responder. *)
Definition greeting : list (AttemptCall Device) :=
  [AStart 2000; AFrame (EncodeHello 1 Role.kResponder opposite_point (repeat 9 32) offer_b) 2100].

Lemma greeting_quiet : Forall quiet greeting.
Proof. repeat constructor. Qed.

Lemma devices_hellos : agreement base_point opposite_point (our_hello attempt_i) (our_hello attempt_r) selected.
Proof.
  destruct (Create_spec _ _ _ _ _ _ _ initiator_created) as [Ci _], (Create_spec _ _ _ _ _ _ _ responder_created) as [Cr _].
  destruct devices_meet as [_ _ [Bi Br] [Ni Nr] [Oi Or] _].
  by split; [exact (meet_hello _ _ base_point Ci eq_refl Br Ni Oi) | exact (meet_hello _ _ opposite_point Cr eq_refl Bi Nr Or) |].
Qed.

Lemma greeting_goes_on : is_terminal (run greeting attempt_i initiator).1 = false.
Proof.
  destruct (Create_spec _ _ _ _ _ _ _ initiator_created) as [Ci _]. pose proof devices_hellos as Ha.
  pose proof (ag_initiator _ _ _ _ _ Ha) as Si. pose proof devices_cooperate as Co.
  destruct (start_ok attempt_i lease_of eq_refl base_point 2000 attempt_i initiator (created_fresh _ _ Ci) eq_refl Si ltac:(done))
    as (i1 & w1 & u1 & E1 & G1 & _).
  assert (Hne : base_point <> opposite_point) by done.
  destruct (hello_ok attempt_i lease_of (channel_to initiator) eq_refl eq_refl _ _ _ _ _ _ Ha Hne (or_introl (conj eq_refl (conj eq_refl (conj eq_refl eq_refl))))
    2000 2100 i1 w1 G1 ltac:(done)) as (i2 & w2 & u2 & E2 & G2 & _).
  unfold run, greeting. cbn [fold_left call fst snd]. rewrite E1. cbn [fst snd].
  replace (ReceiveFrame _ 2100 i1 w1) with (i2, w2, u2) by (by rewrite <- E2).
  apply (core_terminal attempt_i _ _ _ _ (se_core _ _ _ _ _ _ _ _ G2)). right. right. by left.
Qed.

Lemma frames_in_sequence_witness :
  exists frame, ParseFrame (EncodeHello 1 Role.kResponder opposite_point (repeat 9 32) offer_b) = inr frame /\ fr_sequence frame = 1.
Proof.
  destruct (frames_in_sequence _ _ _ _ _ _ _ greeting initiator_created greeting_quiet greeting_goes_on) as (_ & _ & H).
  exact (H 0%nat _ eq_refl).
Defined.

(** *** A commit

    The calls of the initiator up to the commit; the last frame is the
    confirmation of the responder. *)
Definition before_commit (ctx : Context) : list (AttemptCall Device) :=
  deciding_calls (confirmation := fun _ => repeat 2 32) attempt_i base_point opposite_point (our_hello attempt_i) (our_hello attempt_r)
    selected ctx 2000.

Definition last_call (ctx : Context) : AttemptCall Device :=
  AFrame (frame_of (confirmation := fun _ => repeat 2 32) base_point opposite_point (our_hello attempt_i) (our_hello attempt_r)
    selected ctx Role.kResponder 2) 2000.

Lemma calls_quiet ctx : Forall quiet (before_commit ctx ++ [last_call ctx]).
Proof. repeat constructor. Qed.

(** The identifier of the peer is returned by the call that committed it only. *)
Lemma paired_commits c (i : Implementation) (w : Device) : is_terminal i = false -> quiet c ->
  is_Some (paired_peer (call c i w).2) -> log (call c i w).1.2 <> [].
Proof.
  intros Hn Hq [d Hd]. pose proof (call_outcome c i w Hn Hq) as Ho. destruct (call c i w) as [[i' w'] u]. cbn [fst snd] in *.
  inversion Ho as [| | ? ? ? ? _ _ _ _ _ _ El]; subst; [congruence | congruence |]. rewrite El.
  intros E. apply (f_equal length) in E. rewrite length_app in E. cbn in E. lia.
Qed.

Lemma calls_commit : exists ctx, log (run (before_commit ctx ++ [last_call ctx]) attempt_i initiator).2 <> [].
Proof.
  destruct (Create_spec _ _ _ _ _ _ _ initiator_created) as [Ci _]. pose proof devices_hellos as Ha.
  destruct (agreement_context _ _ _ _ _ Ha) as (negotiation & ctx & HN & HB & HD & BD). exists ctx.
  destruct (DeriveSasWords_complete (repeat 1 32) ctx eq_refl HD BD) as [sas HS].
  assert (Hne : base_point <> opposite_point) by done. rewrite run_snoc.
  destruct (deciding_calls_commit (co := devices_cooperate) (fun _ => eq_refl) (fun _ => eq_refl) attempt_i lease_of 1 (channel_to initiator)
    eq_refl eq_refl eq_refl eq_refl base_point opposite_point (our_hello attempt_i) (our_hello attempt_r) (our_hello attempt_r) selected Ha Hne
    (or_introl (conj eq_refl (conj eq_refl (conj eq_refl eq_refl)))) negotiation ctx sas HN HB HD BD HS _ 2000 initiator Ci eq_refl
    ltac:(done) ltac:(done)) as [Hn Hp].
  by apply paired_commits.
Qed.

Lemma commit_requires_both_witness : exists ctx commit,
  log (run (before_commit ctx ++ [last_call ctx]) attempt_i initiator).2 = [commit] /\
  evidence attempt_i initiator (before_commit ctx ++ [last_call ctx]) commit.
Proof.
  destruct calls_commit as [ctx Hc]. exists ctx.
  destruct (commit_requires_both _ _ _ _ _ _ _ (before_commit ctx ++ [last_call ctx]) initiator_created (calls_quiet ctx)) as [E | E];
    [by apply Hc in E | exact E].
Defined.

End PairingExchangeExample.
