(* ===== verification/PairingProcess.v ===== *)
(** * Pairing in a process

    The objects a [PairingAttempt] of [native/src/session/pairing.cpp] is made
    with: the admission of the process, its replay cache and its identity
    repository, each behind its mutex.  The environment of an attempt is made of
    the models of these; TLS, random bytes and OpenSSL stay operations on a
    world.  Only one thread acts here; what others do between two calls of an
    attempt is a function on the state of the process. *)

From S2P Require Import Prelude.
From S2P Require Import Transfer.
From S2P Require Import IdentityCodec.
From S2P Require Import IdentityRepository.
From S2P Require Import SecurityTypes.
From S2P Require Import SecurityProfile.
From S2P Require Import SessionWire.
From S2P Require Import Admission.
From S2P Require Import PairingReplay.
From S2P Require Import PairingAttempt.

Module PairingProcess.
Import SecurityProfile SessionWire PairingAttempt.

(** [PairingChannel], [SessionEntropy] and OpenSSL, as in [PairingEnvironment]. *)
Class ChannelEnvironment (W : Type) := {
  tls_export_pairing : PairingChannel -> Context -> W -> W * option bytes;
  tls_export_confirmation : PairingChannel -> Context -> W -> W * option bytes;
  tls_close : PairingChannel -> W -> W;
  random_fill : Z -> W -> W * option bytes;
  openssl_available : W -> W * bool;
}.

Record Process (W : Type) := {
  pr_admission : Admission.PairingAdmissionState;
  pr_replay : PairingReplay.PairingReplayState;
  pr_repository : IdentityRepository.IdentityRepository;
  pr_world : W;
}.
Arguments pr_admission {W}. Arguments pr_replay {W}. Arguments pr_repository {W}. Arguments pr_world {W}.

Section Process.
Context {W : Type} {identity : IdentityRepository.Environment W} {channels : ChannelEnvironment W}.

(** An operation on one part of the process. *)
Definition on_admission {A} (f : Admission.PairingAdmissionState -> Admission.PairingAdmissionState * A) (p : Process W)
    : Process W * A :=
  let '(s, a) := f (pr_admission p) in
  ({| pr_admission := s; pr_replay := pr_replay p; pr_repository := pr_repository p; pr_world := pr_world p |}, a).

Definition on_replay {A} (f : PairingReplay.PairingReplayState -> PairingReplay.PairingReplayState * A) (p : Process W)
    : Process W * A :=
  let '(s, a) := f (pr_replay p) in
  ({| pr_admission := pr_admission p; pr_replay := s; pr_repository := pr_repository p; pr_world := pr_world p |}, a).

Definition on_world {A} (f : W -> W * A) (p : Process W) : Process W * A :=
  let '(w, a) := f (pr_world p) in
  ({| pr_admission := pr_admission p; pr_replay := pr_replay p; pr_repository := pr_repository p; pr_world := w |}, a).

(** [repository->CommitPeer]: the device id, or a failure. *)
Definition commit_peer (commit : IdentityRepository.PeerCommit) (p : Process W) : Process W * option bytes :=
  let '((r, w), result) := IdentityRepository.CommitPeer commit (pr_repository p, pr_world p) in
  ({| pr_admission := pr_admission p; pr_replay := pr_replay p; pr_repository := r; pr_world := w |},
   match result with IdentityTypes.Success device_id => Some device_id | IdentityTypes.Failure _ => None end).

#[global] Instance process_environment : PairingEnvironment (Process W) := {
  lease_active l p := (p, Admission.active l (pr_admission p));
  lease_bound l p := (p, Admission.lease_bound l (pr_admission p));
  lease_local_role l p := (p, Admission.lease_local_role l (pr_admission p));
  lease_admitted_at_ms l p := (p, Admission.lease_admitted_at_ms l (pr_admission p));
  lease_window_deadline_ms l p := (p, Admission.lease_window_deadline_ms l (pr_admission p));
  lease_local_key l p := (p, Admission.lease_local_key l (pr_admission p));
  lease_peer_key l p := (p, Admission.lease_peer_key l (pr_admission p));
  mark_visible l p := on_admission (Admission.MarkVisible l) p;
  release_lease l p := (on_admission (fun s => (Admission.Release l s, tt)) p).1;
  reserve_replay key now_ms p := on_replay (PairingReplay.Reserve true true key now_ms) p;
  bind_replay r digest now_ms p := on_replay (PairingReplay.Bind r digest now_ms) p;
  commit_replay r now_ms p := on_replay (PairingReplay.Commit r now_ms) p;
  destroy_reservation r p := (on_replay (fun s => (PairingReplay.PairingReplayReservation_destroy r s, tt)) p).1;
  ExportPairing c ctx p := on_world (tls_export_pairing c ctx) p;
  ExportConfirmation c ctx p := on_world (tls_export_confirmation c ctx) p;
  close_channel c p := (on_world (fun w => (tls_close c w, tt)) p).1;
  repository_root_public_key p := (p, IdentityRepository.own_public_key (pr_repository p));
  repository_ready p := (p, IdentityRepository.ready (pr_repository p));
  CommitPeer commit p := commit_peer commit p;
  Fill n p := on_world (random_fill n) p;
  crypto_available p := on_world openssl_available p;
}.

End Process.
End PairingProcess.
