(* ===== verification/PairingProcessProofs.v ===== *)
(** * Pairing attempts in a process

    An attempt that ends gives its place in the admission and its reservation in
    the replay cache of the process back, and the context it used is not
    accepted again. *)

From S2P Require Import Prelude.
From S2P Require Import Transfer.
From S2P Require Import IdentityCodec.
From S2P Require Import IdentityRepository.
From S2P Require Import SecurityTypes.
From S2P Require Import Ed25519.
From S2P Require Import Ed25519Points.
From S2P Require Import SecurityProfile.
From S2P Require Import SecurityProfileProofs.
From S2P Require Import SessionWire.
From S2P Require Import SessionWireProofs.
From S2P Require Import Admission.
From S2P Require Import AdmissionProofs.
From S2P Require Import PairingReplay.
From S2P Require Import PairingAttempt.
From S2P Require Import PairingAttemptProofs.
From S2P Require Import PairingProcess.
Import SecurityProfile SessionWire PairingAttempt PairingProcess.

(** ** A world with a log

    Any environment, with the commits asked of its repository written down. *)

Definition Logged (W : Type) : Type := list IdentityRepository.PeerCommit * W.

Section Logged.
Context {W : Type} {env : PairingEnvironment W}.

Definition logged {A} (f : W -> W * A) (w : Logged W) : Logged W * A :=
  let '(w', a) := f w.2 in ((w.1, w'), a).

#[export] Instance logged_environment : PairingEnvironment (Logged W) := {
  lease_active l := logged (lease_active l);
  lease_bound l := logged (lease_bound l);
  lease_local_role l := logged (lease_local_role l);
  lease_admitted_at_ms l := logged (lease_admitted_at_ms l);
  lease_window_deadline_ms l := logged (lease_window_deadline_ms l);
  lease_local_key l := logged (lease_local_key l);
  lease_peer_key l := logged (lease_peer_key l);
  mark_visible l := logged (mark_visible l);
  release_lease l w := (w.1, release_lease l w.2);
  reserve_replay key now_ms := logged (reserve_replay key now_ms);
  bind_replay r digest now_ms := logged (bind_replay r digest now_ms);
  commit_replay r now_ms := logged (commit_replay r now_ms);
  destroy_reservation r w := (w.1, destroy_reservation r w.2);
  ExportPairing c ctx := logged (ExportPairing c ctx);
  ExportConfirmation c ctx := logged (ExportConfirmation c ctx);
  close_channel c w := (w.1, close_channel c w.2);
  repository_root_public_key := logged repository_root_public_key;
  repository_ready := logged repository_ready;
  CommitPeer commit w := let '(w', a) := CommitPeer commit w.2 in ((w.1 ++ [commit], w'), a);
  Fill n := logged (Fill n);
  crypto_available := logged crypto_available;
}.

Lemma logged_keeps {A} (f : W -> W * A) w : (logged f w).1.1 = w.1.
Proof. unfold logged. by destruct (f w.2). Qed.

#[export] Instance commit_log : CommitLog (W := Logged W).
Proof.
  refine {| log := fst |}; intros; try apply logged_keeps; try done.
  - by split_and!; apply logged_keeps.
  - by split; apply logged_keeps.
  - cbn. by destruct (CommitPeer p w.2).
Defined.

End Logged.

(** ** What an attempt gives back *)

Section Process.
Context `{Sha256Crypto} {W : Type} {identity : IdentityRepository.Environment W} {channels : ChannelEnvironment W}.

Lemma released_inactive lease s : Admission.active lease (Admission.Release lease s) = false.
Proof.
  unfold Admission.active. apply bool_decide_eq_false. unfold Admission.Find, Admission.FindConnection, Admission.Release. cbn.
  destruct (find_if _ _) as [i |] eqn:F; [| by intros [? ?]]. apply find_if_Some in F as (e & Hi & E). rewrite Hi.
  apply list_elem_of_lookup_2, elem_of_list_filter in Hi as [_ P]. rewrite E in P. cbn in P.
  destruct (_ =? _); [done | by intros [? ?]].
Qed.

(** After [Commit] and the destructor, a reservation is not active. *)
Lemma find_if_same {A} (f : A -> bool) l i x y : find_if f l = Some i -> l !! i = Some x -> f y = f x ->
  find_if f (<[i := y]> l) = Some i.
Proof.
  revert i. induction l as [| z l IH]; intros i; cbn; [done |]. destruct (f z) eqn:E.
  - intros [= <-] [= ->] Ef. cbn. by rewrite Ef, E.
  - destruct (find_if f l) as [j |] eqn:F; [| done]. intros [= <-] Hx Ef. change (<[S j := y]> (z :: l)) with (z :: <[j := y]> l).
    cbn [find_if]. rewrite E. by rewrite (IH j).
Qed.

Lemma committed_inactive r now_ms s : r <> 0 -> PairingReplay.active r (PairingReplay.Commit r now_ms s).1 = false.
Proof.
  intros Hr. unfold PairingReplay.Commit. replace (r =? 0) with false by lia.
  destruct (PairingReplay.Find r s) as [[i e] |] eqn:F; cbn [fst].
  2:{ unfold PairingReplay.active. by rewrite F. }
  unfold PairingReplay.Find in F. destruct (find_if _ _) as [j |] eqn:G; [| done].
  destruct (PairingReplay.entries s !! j) as [e' |] eqn:J; [| done]. injection F as -> ->.
  destruct (PairingReplay.bound e); cbn [negb fst].
  - unfold PairingReplay.active, PairingReplay.Find. cbn. erewrite find_if_same; [| exact G | exact J | done].
    rewrite list_lookup_insert_eq; [done | by eapply lookup_lt_Some].
  - unfold PairingReplay.active, PairingReplay.Find, PairingReplay.Release. cbn.
    destruct (find_if _ (List.filter _ _)) as [k |] eqn:K; [| done]. apply find_if_Some in K as (f & Hk & Ef). rewrite Hk.
    apply list_elem_of_lookup_2, elem_of_list_filter in Hk as [_ P]. rewrite Ef, andb_true_r in P. by apply negb_true_iff in P.
Qed.

Lemma Commit_done r now_ms s : (PairingReplay.Commit r now_ms s).2 = 0.
Proof.
  unfold PairingReplay.Commit. destruct (r =? 0) eqn:Z; [cbn; lia |]. destruct (PairingReplay.Find r s) as [[i e] |]; [| done].
  by destruct (negb _).
Qed.

(** The parts of the process after the resources of an attempt were given back. *)
Lemma given_back_process i (w : Logged (Process W)) :
  let p := (given_back i w).2 in
  (forall lease, admission i = Some lease -> Admission.active lease (pr_admission p) = false) /\
  (forall r, replay_reservation i = Some r -> r <> 0 -> PairingReplay.active r (pr_replay p) = false).
Proof.
  unfold given_back, FinalizeResources. cbn [snd]. split.
  - intros lease ->. cbn [reset]. destruct (replay_reservation i) as [r |].
    + destruct (commit_replay r _ w) as [w1 r1]. destruct (channel i) as [c |]; cbn; apply released_inactive.
    + destruct (channel i) as [c |]; cbn; apply released_inactive.
  - intros r -> Hr.
    destruct (commit_replay r (last_now_ms i) w) as [w1 r1] eqn:C.
    assert (E : PairingReplay.active r (pr_replay (destroy_reservation r1 w1).2) = false).
    { revert C. cbn [commit_replay logged_environment process_environment]. unfold logged, on_replay.
      pose proof (Commit_done r (last_now_ms i) (pr_replay w.2)) as E2.
      pose proof (committed_inactive r (last_now_ms i) (pr_replay w.2) Hr) as E1.
      destruct (PairingReplay.Commit r (last_now_ms i) (pr_replay w.2)) as [s r']. cbn in E1, E2. subst r'. by intros [= <- <-]. }
    clear C. revert E. generalize (destroy_reservation r1 w1). intros w2 E. destruct (admission i) as [l |], (channel i) as [c |]; exact E.
Qed.

Lemma Reserve_nonzero key now_ms s r : (PairingReplay.Reserve true true key now_ms s).2 = Some r -> r <> 0.
Proof.
  unfold PairingReplay.Reserve. generalize (PairingReplay.Prune now_ms s). intros p.
  generalize (PairingReplay.Reserve_loop (S (Z.to_nat PairingReplay.kMaxReplayEntries)) (PairingReplay.next_reservation_id p) p).
  intros id. destruct (_ || _); [done |]. destruct (id =? 0) eqn:Z; cbn [orb]; [done |]. destruct (bool_decide _); [done |].
  cbn [negb snd]. intros [= <-]. lia.
Qed.

Lemma reserved_nonzero key now_ms (w w' : Logged (Process W)) r : reserve_replay key now_ms w = (w', Some r) -> r <> 0.
Proof.
  cbn [reserve_replay logged_environment process_environment]. unfold logged, on_replay.
  pose proof (Reserve_nonzero key now_ms (pr_replay w.2)) as Hn.
  destruct (PairingReplay.Reserve true true key now_ms (pr_replay w.2)) as [s q]. cbn [snd] in Hn. intros [= _ ->]. by apply Hn.
Qed.

(** C21: However an attempt ends, the process has it back: its lease is not
    active any more and its reservation in the replay cache is not either,
    whatever others did to the process before. *)
Theorem ended_attempt_gives_back c lease opts w w0 i0 u calls call_ :
  Create (W := Logged (Process W)) c lease opts w = (w0, Some i0, u) -> Forall quiet (calls ++ [call_]) ->
  is_terminal (run calls i0 w0).1 = false -> is_terminal (run (calls ++ [call_]) i0 w0).1 = true ->
  let p := (run (calls ++ [call_]) i0 w0).2.2 in
  exists l r, admission i0 = Some l /\ replay_reservation i0 = Some r /\
    Admission.active l (pr_admission p) = false /\ PairingReplay.active r (pr_replay p) = false.
Proof.
  intros [Hc El]%Create_spec [Hq [Hqc _]%list.Forall_cons]%list.Forall_app Hn Ht p.
  pose proof (attempt_ok_run i0 w0 opts calls Hc Hq) as Hok. unfold attempt_ok in Hok.
  destruct (ct_held _ _ Hc) as (_ & [l Hl] & _). destruct (ct_reserved _ _ Hc) as (key & now_ms & w2 & w3 & r & Hz%reserved_nonzero & Hr). exists l, r. split; [done |]. split; [done |].
  unfold p. clear p. rewrite run_snoc in *. destruct (run calls i0 w0) as [i w1]. cbn [fst snd] in *.
  destruct Hok as [(_ & Hh & _) | (He & _)]; [| destruct He; congruence].
  pose proof (call_outcome call_ i w1 Hn Hqc) as Ho. destruct (call call_ i w1) as [[i' w'] u']. cbn [fst snd] in *.
  assert (Hret : returned i w') by (inversion Ho; subst; [done | congruence | done]).
  destruct Hret as (i1 & w4 & (_ & Ea & Er) & ->). destruct (given_back_process i1 w4) as [H1 H2].
  rewrite Ea, (hd_admission _ _ Hh) in H1. rewrite Er, (hd_replay _ _ Hh) in H2. auto.
Qed.

End Process.

(** ** A process of an example *)

Module PairingProcessExample.
Import Ed25519Points SecurityProfileExample SessionWireExample IdentityTypes.
#[local] Existing Instance example_crypto.

(** A store that refuses everything, and random bytes. *)
#[local] Instance example_identity : IdentityRepository.Environment unit := {|
  IdentityRepository.env_alloc := fun w => (w, true);
  IdentityRepository.Enumerate := fun w => (w, Failure kStorageUnavailable);
  IdentityRepository.Get := fun _ w => (w, Failure kStorageUnavailable);
  IdentityRepository.CompareExchangePut := fun _ _ _ w => (w, Failure kStorageUnavailable);
  IdentityRepository.CompareExchangeDelete := fun _ _ w => (w, Failure kStorageUnavailable);
  IdentityRepository.GenerateSeed := fun w => (w, Failure kEntropyFailure);
  IdentityRepository.GenerateStoreId := fun w => (w, Failure kEntropyFailure);
  IdentityRepository.DerivePublicKey := fun _ w => (w, Failure kCryptoFailure);
  IdentityRepository.DeriveDeviceId := fun _ w => (w, Failure kCryptoFailure);
  IdentityRepository.DerivePeerRecordMacKey := fun _ _ w => (w, Failure kCryptoFailure);
  IdentityRepository.HmacSha256 := fun _ _ w => (w, Failure kCryptoFailure);
  IdentityRepository.Validate := fun _ w => (w, Failure kInvalidArgument);
|}.

#[local] Instance example_channels : ChannelEnvironment unit := {|
  tls_export_pairing := fun _ _ w => (w, Some (repeat 1 32));
  tls_export_confirmation := fun _ _ w => (w, Some (repeat 2 32));
  tls_close := fun _ w => w;
  random_fill := fun n w => (w, Some (repeat 7 (Z.to_nat n)));
  openssl_available := fun w => (w, true);
|}.

(** The admission with one connection to the device of the opposite point. *)
Definition lease : Admission.PairingAdmissionLease :=
  {| Admission.ls_connection_id := repeat 1 16; Admission.ls_generation := 1 |}.

Definition request : Admission.PairingAdmissionRequest :=
  {| Admission.rq_connection_id := repeat 1 16; Admission.rq_source := repeat 9 16; Admission.rq_local_key := base_point;
     Admission.rq_peer_key := opposite_point; Admission.rq_local_role := Role.kInitiator;
     Admission.rq_user_initiated := true; Admission.rq_now_ms := 1500 |}.

Definition admitted : Admission.PairingAdmissionState := Eval vm_compute in
  (AdmissionProofs.run [AdmissionProofs.CallRegister; AdmissionProofs.CallOpenWindow 1 1000 60000; AdmissionProofs.CallAdmit 1 request]
    Admission.PairingAdmissionState_initial).1.

Definition process : Process unit :=
  {| pr_admission := admitted; pr_replay := PairingReplay.PairingReplayState_initial;
     pr_repository := IdentityRepository.IdentityRepository_initial
       <| IdentityRepository.root := {| IdentityRepository.rm_revision := 1; IdentityRepository.rm_public_key := base_point;
            IdentityRepository.rm_device_id := repeat 1 32; IdentityRepository.rm_store_id := repeat 1 16;
            IdentityRepository.rm_retired_store_id := None |} |>
       <| IdentityRepository.ready_ := true |>;
     pr_world := tt |}.

Definition channel_ : PairingChannel := {| ch_number := 1; peer_public_key := opposite_point |}.
Definition options_ : PairingAttemptOptions := {| po_offer := offer_a; peer_display_label := [] |}.

(** The process with an attempt in it, and the attempt. *)
Definition start : Logged (Process unit) := ([], process).

Definition created_attempt : Implementation :=
  (new_attempt channel_ lease 1 options_ Role.kInitiator base_point 1500 61000) <| handle := repeat 7 16 |> <| local_nonce := repeat 7 32 |>.

Definition running : Logged (Process unit) :=
  ([], {| pr_admission := admitted; pr_replay := (PairingReplay.Reserve true true opposite_point 1500 (pr_replay process)).1;
          pr_repository := pr_repository process; pr_world := tt |}).

Lemma process_created : Create (Some channel_) (Some lease) options_ start =
  (running, Some created_attempt, update_of PairingState.kPairingTls SessionWire.PairingError.kNone).
Proof.
  unfold Create. assert (E1 : repository_root_public_key start = (start, Some base_point)) by reflexivity.
  rewrite E1. cbv beta iota. rewrite base_point_valid. by lazy.
Qed.

(** It says hello and is shut down. *)
Lemma ended_attempt_gives_back_witness :
  let p := (run [AStart 2000; AShutdown] created_attempt running).2.2 in
  Admission.active lease (pr_admission p) = false /\ PairingReplay.active 1 (pr_replay p) = false.
Proof.
  destruct (ended_attempt_gives_back _ _ _ _ _ _ _ [AStart 2000] AShutdown process_created) as (l & r & [= <-] & [= <-] & H);
    [by repeat constructor | by vm_compute | by vm_compute | exact H].
Defined.

End PairingProcessExample.
